(* ===== verification/_CoqProject ===== *)
-Q . S2P
Prelude.v
Net.v
Register.v
Payload.v
BmpDecode.v
BmpBuilder.v
BmpWire.v
BmpInfo.v
Aggregator.v
ClientState.v
ClientHandler.v
Dump.v
Handover.v
Interner.v
RibStore.v
Rib.v
RibView.v
RibProps.v
Rtr.v
RtrView.v
RibUnit.v
RibSpec.v
RovView.v
RovProps.v
RibSearch.v
RibSearchProps.v
RibLines.v
RibHttp.v
BmpMsg.v
BmpIo.v
BmpMetrics.v
BmpPeers.v
BmpMachine.v
BmpRouter.v
BmpSafety.v
BmpSession.v
BmpGauge.v
BmpConn.v
BmpConnProps.v
Frim.v
Gate.v
GateSys.v
GateInv.v
GateProps.v
GateClones.v
Link.v
Config.v
Manager.v
ManagerProps.v
ManagerLoad.v
Startup.v
BgpConfig.v
BgpStats.v
BgpSessions.v
BgpSessionsProps.v
MrtAttrs.v
MrtIn.v
MrtProps.v
Metrics.v
MetricsText.v
MetricsUnits.v
MetricsProps.v
WebText.v
WebUi.v
WebUiProps.v
WebPeers.v
Mqtt.v
MqttProps.v
MqttLoops.v
MqttSettings.v
Roto.v
RotoState.v
RotoProps.v
FileOut.v
FileOutProps.v
Tracing.v
RtrClient.v
Listeners.v
BmpOutUnit.v
