(* ===== verification/Prelude.v ===== *)
(** * Rotonda: verification of the route pipeline

    Rotonda collects BGP routes over BMP, BGP and from MRT files, keeps them in
    a RIB and streams them out again.  This library models the program's own
    logic along that path: the connections of the monitored routers and the state
    machine that reads their messages, the BGP sessions, the MRT files and the
    RTR client; the register of ingresses all units share; the gates and links
    that updates travel over, and the manager that puts them together; the RIB
    with its origin validation, garbage collection and searches; what the filter
    scripts may call; and the ways out: the restreamer that dumps the RIB to each
    BMP consumer and then forwards live updates, MQTT, files, the HTTP queries,
    the web pages and the metrics.

    ** The parts of the program and the files that model them

    Paths are relative to [src/].

    - [Prelude]: machine integers, big-endian bytes, lists, the state-and-failure
      monad [Run] in which stateful code is written, tactics and hints.
    - [Net]: addresses, protocol enumerations, and the class [Extern] of the
      third-party functions that the modelled code calls.
    - [Register]: [ingress/register.rs] and the filter of [ingress/http_ng.rs].
      [IngressInfo] is a record of options as in the code, [Register] the serial
      counter and the map; each method is one function on it.  [reg_step] has the
      steps of the sessions that claim ids, with the ids that they hold and the
      ids handed out that no claim may take; [reg_use] adds what everybody else
      does: the marks of the RIB under any id, the entries without a parent that
      BGP sessions write and remove, the peers of an MRT unit.
    - [Payload]: [payload.rs] ([RotondaPaMap], [RotondaRoute], [Payload],
      [Update], memory accounting), the messages of the output stream of
      [roto_runtime/types.rs], and [check_rov] of [units/rib_unit/rpki.rs].
    - [BmpBuilder]: [units/bmp_tcp_out/bmp_builder.rs], every message to the
      byte.  [BmpDecode] is the specification: a decoder written from RFC 7854,
      RFC 4271 and RFC 4760.  [BmpWire] and [BmpInfo] relate the two.
    - [Aggregator]: [AggGroup] and [RouteAggregator] of [bmp_builder.rs].
    - [ClientState]: [units/bmp_tcp_out/client_state.rs] and the counters of
      [mem_stats.rs]; [Fleet] is all clients with the counters they share.
    - [ClientHandler]: [send_update_to_client] of [client_handler.rs] with all it
      calls, [direct_update] of [units/bmp_tcp_out/unit.rs] for one client and
      for all, the access list.
    - [Dump] and [Handover]: [perform_initial_dump].  [Dump] has the enumeration
      of the peers and the walk over the RIB on its thread; [Handover] has the
      task as a state machine ([task_step]) whose steps interleave with
      [direct_update], from Initiation to the switch to live; a call of
      [direct_update] is one step, and what each update made the code send is
      compared with what handling it by itself sends ([replay]).
    - [Interner]: [PathAttributeInterner] of [payload.rs], over a heap of blobs.
    - [RibStore]: the interface of the prefix store, a third-party crate, and a
      store of lists that implements it.  [Rib]: [units/rib_unit/rib.rs], with
      [RibView] for what readers see after each operation and [RibProps] for the
      properties.
    - [Rtr]: the updates an RTR client builds ([units/rtr/client.rs]) and the
      cache of VRPs they make; [RtrView] relates it to the set of VRPs.
    - [RibUnit]: [units/rib_unit/unit.rs], [process_update] on every kind of
      update.  [RibSpec] has the abstract table it implements, a function of the
      updates and the filter's verdicts ([spec_updates]), [RovView] and
      [RovProps] the validation of the stored routes.
    - [BmpIo]: [units/bmp_tcp_in/io.rs], the framing.
    - [BmpMsg], [BmpMetrics], [BmpPeers], [BmpMachine]: the directory
      [units/bmp_tcp_in/state_machine/]: the messages and results, the counters
      and reporters, [PeerStates], the states with their handlers and
      [process_msg].  [BmpSafety] has a weakest-precondition calculus for the
      handlers and their lemmas, [BmpSession] and [BmpGauge] the properties.
    - [BmpRouter]: [units/bmp_tcp_in/router_handler.rs] and the accepting side of
      [units/bmp_tcp_in/unit.rs].  [BmpConn] is the system of all connections of
      a unit beside the other users of the register ([sys_step]), with its
      invariant; [BmpConnProps] has the properties.

    - [Frim], [Gate], [Link]: [common/frim.rs] and [comms.rs].  [GateSys] puts a
      gate, its clones, its links and their channels together as a step relation,
      [GateInv] has its invariant, [GateProps] and [GateClones] the properties;
      [Link] ends with a small pipeline.
    - [Config], [Manager], [Startup]: [config.rs] (positions in a file) and
      [manager.rs]: loading, spawning, reconfiguring and terminating units and
      targets, and the barriers of the coordinator.  [ManagerLoad],
      [ManagerProps] and [Startup] hold the properties and an example.
    - [BgpConfig], [BgpStats], [BgpSessions]: [units/bgp_tcp_in/]: the peers of a
      configuration, the counters and the Statistics Report, and the sessions of
      all peers as steps at the granularity of the locks, with their invariant
      and properties in [BgpSessionsProps].
    - [RibSearch], [RibLines], [RibHttp]: the searches of [rib.rs], the lines of
      [representation.rs] and the handlers of [units/rib_unit/http_ng.rs], with
      [RibSearchProps].
    - [MrtAttrs], [MrtIn]: [units/mrt_file_in/unit.rs], with [MrtProps].
    - [Metrics], [MetricsText], [MetricsUnits]: [metrics.rs], a reader of the
      exposition format with the collection of sources, and the sources of gates,
      BMP and RTR; [MetricsProps].
    - [WebText], [WebUi]: [webui/base.rs]: the texts, over the ordered maps of
      the standard library, and the handlers of the pages, with [WebUiProps] and
      [WebPeers].
    - [Mqtt]: [targets/mqtt/]: settings, runner and connection.  [MqttProps] is
      about the messages, [MqttLoops] about the tasks that poll the broker,
      [MqttSettings] about reconfiguration and the output of the metrics.
    - [Roto], [RotoState]: the methods that
      [roto_runtime/runtime.rs] gives to scripts, with the stream, the lists and
      the metrics of [types.rs], [lists.rs] and [metrics.rs].  [RotoProps].
    - [FileOut]: [targets/file/target.rs], with [FileOutProps].
    - [Tracing]: [tracing.rs].
    - [RtrClient]: the loop of [units/rtr/client.rs].
    - [BmpOutUnit]: [run] and [handle_new_client] of [units/bmp_tcp_out/unit.rs]:
      the map of clients under its lock, their writing tasks, the end.
    - [Listeners]: the accepting loops of [units/bmp_tcp_in/unit.rs] and
      [units/bgp_tcp_in/unit.rs].

    How they interact: the state machine claims and registers ids in the
    register and emits [Update]s under these ids; the RIB stores the routes under
    them, marks them withdrawn and reclaims ids that stay disconnected; the
    restreamer looks ids up in the register to build Peer Ups and per-peer
    headers.  The contract between them is [reg_step] and [reg_use]: the session and
    connection theorems show that BMP only takes the steps of the former, the
    register theorems what follows for all users together, and [reg_use_frame]
    that users who do not know of each other do not disturb each other.  Towards its store the RIB
    relies on the laws of [PrefixStore]; its clients see it as the table of
    [RibSpec].  Units and targets are joined by gates: [GateSys] shows what a
    subscriber gets of the updates that a unit sends, and the theorems on units
    and targets are about the updates they take and give.

    ** What the theorems show

    - Hand-over ([handover_exact], [dump_in_order]): in every interleaving of
      the dump task with updates, no update is lost, doubled or reordered for a
      client that stays, what is sent is what handling the updates in order
      sends, and what the client accepts is a well-formed session, for updates
      whose ingress is registered.
      [session_in_order] is the same for live updates, [payload_forwarded] is
      what a route becomes, [counters_never_drift] and [buffer_update_exact] are
      about the buffers and the shared counters.
    - Dump ([dump_walk_exact]) and aggregation ([aggregation_exact],
      [aggregator_budget]): the decoded messages announce exactly the routes of
      the walk, whatever the budget, the hash collisions and the table order.
    - Wire format ([announce_roundtrip], [aggregated_roundtrip],
      [peer_up_roundtrip], [filter_pa_spec]): what the reference decoder reads in
      the output of each builder.
    - RIB ([rib_unit_refines], [active_plain_map]): for any sequence of updates
      the unit implements an abstract table of routes, withdrawn ingresses
      included, stores the routes that its filter accepts and sends on exactly
      what the specification says, output of the script included; [withdraw_for_ingresses_view] and [withdraw_reappear] are the
      batched withdrawal and its way back, [stream_prefix_records_exact] the walk
      in chunks, [gc_safe] and [gc_reclaims_idle] the garbage collection,
      [intern_shares] the sharing of attribute blobs.
    - Origin validation ([serial_update_consistent], [cache_reset_consistent]):
      after an RTR update every stored route has the status that RFC 6811 gives
      it under the VRPs of the cache.
    - Connections ([connections_apart], [no_turn_panics],
      [connection_terminates], [teardown_exact], [reconnect_adopts],
      [frames_read_back], [bmp_read_bounded]): any number of connections are kept
      apart, none panics, each ends and is torn down exactly, a router that
      returns gets its id back; the framing is exact and bounded.
    - State machine ([session_refines], [peer_up_spec], [peer_down_exact],
      [routes_forwarded], [dump_ends], [terminate_disconnects],
      [peers_up_gauge]): no panic, the effect of each message on the table of
      peers, the register, the metrics and downstream, on every branch.
    - Register ([claim_exclusive]): no claim returns an id that is in use.
    - Gates ([updates_reach_subscribers], [process_decides],
      [gate_panics_exactly], [connect_then_disconnect], [notify_clones_exact]):
      a gate sends each update to exactly those who subscribed and are not
      suspended, answers every command, and panics in one case only.
      [frim_is_map]: the vector behind them is a map.
    - Manager ([spawn_exact], [reload_runs_linked_units], [startup_in_step],
      [resolve_pos_exact]): which units and targets run after a configuration,
      and that all of them start together.
    - BGP ([live_sessions_owned], [session_leaves_nothing],
      [stats_body_roundtrip], [adj_rib_in_exact], [peer_config_longest]): the
      table of sessions, the register and the statistics agree, whatever the
      order of negotiations and ends; the Statistics Report reads back.
    - Searches ([search_routes_exact], [dump_body_exact], [dump_is_search],
      [jsonl_loses_nothing], [full_table_never_collected]): a query is answered
      with exactly the routes it asks for, streamed or not; a dump that misses its
      deadline sends the first of them.
    - MRT ([updates_follow_dump], [mrt_dump_exact], [mrt_messages_one_id],
      [mp_reach_normalized]): a dump and the update files behind it go under the
      same ingresses, and truncated MP_REACH_NLRI is restored to the octet.
    - Metrics ([assemble_read_back], [bmp_metrics_reported],
      [mqtt_metrics_reported], [roto_metrics_text]): the output of all sources
      together, that of the scripts' own metrics included, reads back as exactly
      the values that the counters have.
    - Web pages ([routes_diff_exact], [bmp_tree_exact], [page_lists_search],
      [aggregate_sees_all], [overview_rows], [roles_correct_rfc9234]): the pages
      show what the register and the RIB hold, up to the limit of rows.
    - MQTT ([messages_accounted], [one_task_polls], [reconfigure_decides],
      [destination_roundtrip]): every message is waiting, counted as published,
      failed or dropped; one task polls the broker while neither a command nor a
      message cuts the handing-over of a client short.
    - Scripts ([stream_refines], [log_all_is_setters], [asn_lists_exact],
      [counters_add_up], [check_rov_stored], [fmt_pcap_roundtrip]): entries that
      were written do not change, lists hold what was last added, counters add up
      under any interleaving, and the validation status is stored.
    - Files ([file_contents], [file_flushed_in_time], [file_end_flushed]): the
      file has each batch up to the first write of it that failed, and a line
      waits for its flush for a bounded time.  Traces ([traces_exact]).
    - RTR client ([rtr_client_follows_server], [rtr_client_ends]): the RIB unit
      has the data of the state that the client reports.
    - The end of the restreamer ([termination_told], [termination_exact]): every
      client is told, and the unit ends unless one of them is too slow.
    - Listeners ([listens_where_configured], [tasks_exact], [backoff_doubles]).
    - Behaviour that is likely not meant: [route_before_register] (a route ahead
      of its registration suppresses the Peer Up), [reset_keeps_vrps] (a Cache
      Reset removes no VRP), [cloned_pending_eors_stay] (a synthesized view
      keeps the session dumping), [reconfigured_clones_lost],
      [stale_gate_refuses], [collision_leaves_entry],
      [state_change_never_withdraws], [lost_router_still_counted],
      [next_hops_order_matters], [v6_attributes_unseen], [orphan_never_ends],
      [unsent_counted_published], [turn_panics_exactly],
      [gauge_samples_untyped], [told_at_bind_only].

    ** Parameters

    What is not the program's own code is an argument, with the documented facts
    the proofs use as laws of a class.  Every class has a concrete instance at
    which the properties are applied.
    - [Extern]: prefixes (inetnum), parsed attributes and enumerations of
      routecore, the standard hasher.
    - [Routecore]: per-peer headers, session configurations and UPDATEs of
      routecore's BMP parser; a parsed message is the record of what its
      accessors return.  [BmpParser] is that parser itself.
    - [PrefixStore]: rotonda-store.  Its operations may fail, and a failure
      changes nothing that the laws do not say; [ReliableStore] adds that they
      succeed, which the crate documents for a store in memory.
    - [Roto] and [BmpRoto]: the compiled filter functions of the units, which
      change their context and emit output but no state of the units.
    - [HashIter]: the iteration order of a [HashMap], any permutation.
    - [Layout]: [size_of] of the types whose sizes are accounted, and the router
      keys and ASPAs of the rpki crate.
    - [Sink] and [Channel]: what a consumer answers to a message, any function
      of what it was sent before; the clock is one too.
    - [GateTypes] and [Settings]: the types that gates and the manager pass on
      without looking into them.  [PrefixOrd]: the order of prefixes.
    - [Searching]: what searches ask of attributes and of the script of a query;
      the JSON text of a value and what the client of a response takes.
    - [MrtReader]: routecore's MRT parser.  [WebView], [KeyOrd] and
      [IncludingStore]: the texts of routecore's types, the order of keys, and a
      store that gives more specific routes.
    - The RTR protocol of the rpki crate: its responses are inputs of the client.
      The barrier of tokio that the coordinator waits on is written out in
      [Startup] from its documentation.
    - The answers of the MQTT broker, and the JSON of a record; [RotoView],
      [PrefixView] and [MicroMap] for scripts; [Writer] and [Serializers] for
      files: a write may fail having taken a part.

    ** Bounds and fuel

    The walk over raw attributes has one turn per byte and is proved to need no
    more ([filter_pa_spec]).  The retry of an UPDATE has two attempts, proved to
    be enough in [BmpSafety.parse_loop_spec].  The loop of a connection has one
    turn more than its stream has octets and errors, proved to be enough in
    [connection_terminates]; the scan of a bucket of the interner one turn more
    than it has slots.  The eviction loop is structural on the sorted candidates.
    Lengths and counters are integers with their casts and wrap-around written
    out; the register's 32-bit serial is assumed not to have wrapped ([si_serial]
    and the guards of [step_reserve] and [sys_step]).  A panic is the failure of
    [Run]; locks are taken for the length of an operation, so an operation is one
    step and interleavings are sequences of steps; where the code takes a lock twice
    or none ([increase_counter], the BGP sessions, the end of the restreamer) the
    steps are the parts between.  [Frim] is the exception: its methods that read and
    then write are one step.  The turn of a connection, a call of [direct_update] and
    the validation run after a Cache Reset are one step each; within a turn,
    [session_refines] has the single steps on the register.  [Gate.process] has
    one turn for each queued command and one more ([process_decides]); the
    start-up needs as many moves as its measure ([Startup]).  The BGP sessions
    are stepped between locks, with ids left in the register.  The rewriting of
    attributes has one turn per octet.  The dump of a table is that of a table
    which does not change meanwhile.  The MRT queue holds 1024 files, a page
    50000 rows, the MQTT queue as many messages as configured; each limit is part
    of the model.

    ** What is not modelled

    Sockets, TLS and TCP keepalive; logging; TOML and the command line ([main.rs] and most of
    [config.rs]); the compiler of the scripts, a third-party crate; the report of
    links with its graph, and the file watcher of [manager.rs]; the set-up of
    axum ([http_ng.rs]) and the HTML templates; the null target, which suspends
    its links and waits; the sources of metrics that are lists of the same calls
    as those modelled; the memory report of the RIB.  These are input and output
    or calls of other crates with no state of their own. *)

From Stdlib Require Import ZArith Lia.
From stdpp Require Import base numbers list gmap strings fin_maps.

Declare Scope rotonda_scope.
Delimit Scope rotonda_scope with rot.
Open Scope rotonda_scope.
Open Scope Z_scope.

(** ** Integers and bytes

    A byte is an integer in [0, 256); a machine integer of [w] bits is an
    integer in [0, 2^w), its arithmetic is written out with [wrap]. *)

Definition is_byte (b : Z) : Prop := 0 <= b < 256.

Definition is_byteb (b : Z) : bool := (0 <=? b) && (b <? 256).

Definition wrap (w v : Z) : Z := v mod 2 ^ w.

Definition u8_max : Z := 255.
Definition u16_max : Z := 65535.
Definition u32_max : Z := 4294967295.
Definition usize_max : Z := 18446744073709551615.

(** [usize::saturating_add] and [saturating_sub]. *)
Definition saturating_add (a b : Z) : Z := Z.min usize_max (a + b).
Definition saturating_sub (a b : Z) : Z := Z.max 0 (a - b).

(** The number of elements of a vector as an integer. *)
Definition zlen {A} (l : list A) : Z := Z.of_nat (length l).

(** [n.to_be_bytes()] on an integer of [n] bytes; a cast [v as u16] before it
    is the reduction modulo 256^n that the division below performs. *)
Fixpoint be_bytes (n : nat) (v : Z) : list Z :=
  match n with
  | O => []
  | S n' => (v / 256 ^ Z.of_nat n') mod 256 :: be_bytes n' v
  end.

(** [uN::from_be_bytes]. *)
Definition be_val (l : list Z) : Z := foldl (fun acc b => acc * 256 + b) 0 l.

(** [vec![b; n]] / [[b; n]]. *)
Definition zeros (n : nat) : list Z := replicate n 0.

(** ** Strings

    A Rust [String] is the list of its Unicode scalar values; [len()] and
    [as_bytes()] go through its UTF-8 encoding. *)
Abbreviation rstring := (list Z).

Definition utf8_char (c : Z) : list Z :=
  if c <? 128 then [c]
  else if c <? 2048 then [192 + c / 64; 128 + c mod 64]
  else if c <? 65536 then
    [224 + c / 4096; 128 + (c / 64) mod 64; 128 + c mod 64]
  else
    [240 + c / 262144; 128 + (c / 4096) mod 64; 128 + (c / 64) mod 64;
     128 + c mod 64].

Definition utf8 (s : rstring) : list Z := s ≫= utf8_char.

(** A string literal of the source. *)
Fixpoint str (s : string) : rstring :=
  match s with
  | EmptyString => []
  | String a s' => Z.of_nat (Ascii.nat_of_ascii a) :: str s'
  end.

(** ** A state monad for code that threads one mutable object *)
Definition St (S A : Type) : Type := S -> A * S.

#[export] Instance st_ret {S} : MRet (St S) := fun A a s => (a, s).

#[export] Instance st_bind {S} : MBind (St S) :=
  fun A B k m s => let '(a, s') := m s in k a s'.

Definition st_get {S} : St S S := fun s => (s, s).

Definition st_modify {S} (f : S -> S) : St S unit := fun s => (tt, f s).

(** [for x in xs { if !body(x) { return false } } true]. *)
Fixpoint for_all_st {S A} (xs : list A) (body : A -> St S bool) : St S bool :=
  match xs with
  | [] => mret true
  | x :: xs' =>
      ok ← body x;
      if ok : bool then for_all_st xs' body else mret false
  end.

(** ** A state monad with an early exit, for functions that return [false] as
    soon as a step fails: the answer [None] is that exit, with the state it
    left behind. *)
Definition Run (S A : Type) : Type := S -> option A * S.

#[export] Instance run_ret {S} : MRet (Run S) := fun A a s => (Some a, s).

#[export] Instance run_bind {S} : MBind (Run S) :=
  fun A B k m s =>
    match m s with
    | (Some a, s') => k a s'
    | (None, s') => (None, s')
    end.

Definition run_fail {S A} : Run S A := fun s => (None, s).

Definition run_get {S} : Run S S := fun s => (Some s, s).

Definition run_modify {S} (f : S -> S) : Run S unit := fun s => (Some tt, f s).

(** [for x in xs { body(x) }] where the body may exit the function. *)
Fixpoint run_for {S A} (xs : list A) (body : A -> Run S unit) : Run S unit :=
  match xs with
  | [] => mret tt
  | x :: xs' => _ ← body x; run_for xs' body
  end.

Lemma run_bind_inv {S A B} (m : Run S A) (k : A -> Run S B) s r s' :
  (m ≫= k) s = (r, s') ->
  (exists a s1, m s = (Some a, s1) /\ k a s1 = (r, s'))
  \/ (m s = (None, s') /\ r = None).
Proof.
  unfold mbind, run_bind. destruct (m s) as [[a|] s1]; [eauto|].
  intros [= <- <-]. eauto.
Qed.

Lemma run_bind_Some {S A B} (m : Run S A) (k : A -> Run S B) s a s1 :
  m s = (Some a, s1) -> (m ≫= k) s = k a s1.
Proof. unfold mbind, run_bind. by intros ->. Qed.

Lemma run_for_app {S A} (xs ys : list A) (body : A -> Run S unit) s :
  run_for (xs ++ ys) body s = (run_for xs body ≫= fun _ => run_for ys body) s.
Proof.
  revert s. induction xs as [|x xs IH]; intros s; [done|]. cbn [app run_for].
  unfold mbind, run_bind in *. destruct (body x s) as [[[]|] s1]; [apply IH|done].
Qed.

(** The sum of a list of integers. *)
Definition zsum (l : list Z) : Z := foldr Z.add 0 l.

#[export] Instance zsum_proper : Proper ((≡ₚ) ==> (=)) zsum.
Proof. intros l k. unfold zsum. induction 1; cbn [foldr]; lia. Qed.

Lemma zsum_cons x l : zsum (x :: l) = x + zsum l.
Proof. done. Qed.

Lemma zsum_app l k : zsum (l ++ k) = zsum l + zsum k.
Proof. unfold zsum. induction l; cbn [app foldr]; lia. Qed.

Lemma zsum_nonneg l : Forall (fun x => 0 <= x) l -> 0 <= zsum l.
Proof. unfold zsum. induction 1; cbn [foldr]; lia. Qed.

(** Two functions that agree on the elements of a list. *)
Lemma bind_ext_Forall {A B} (f g : A -> list B) l :
  Forall (fun x => f x = g x) l -> l ≫= f = l ≫= g.
Proof. induction 1 as [|x l Hx _ IH]; [done|]. by rewrite !bind_cons, Hx, IH. Qed.

(** A part of a list without duplicate keys has none. *)
Lemma NoDup_fmap_filter {A B} (f : A -> B) P `{!forall x : A, Decision (P x)}
    (l : list A) : NoDup (f <$> l) -> NoDup (f <$> filter P l).
Proof.
  intros Hnd. eapply sublist_NoDup; [done|]. apply fmap_sublist, sublist_filter.
Qed.

(** Equivalent tests decide alike. *)
Lemma if_decide_ext {A} (P Q : Prop) `{!Decision P, !Decision Q} (x y : A) :
  (P <-> Q) -> (if bool_decide P then x else y) = (if bool_decide Q then x else y).
Proof. intros H. by rewrite (bool_decide_ext P Q H). Qed.

(** ** Shared tactics *)

(** Case analysis on the boolean tests of the code. *)
Ltac case_bool :=
  match goal with
  | |- context [if ?b then _ else _] => destruct b eqn:?
  | H : context [if ?b then _ else _] |- _ => destruct b eqn:?
  end.

(** Turn integer comparisons in hypotheses into propositions. *)
Ltac zify_bools :=
  repeat match goal with
  | H : (_ <? _) = true |- _ => apply Z.ltb_lt in H
  | H : (_ <? _) = false |- _ => apply Z.ltb_ge in H
  | H : (_ <=? _) = true |- _ => apply Z.leb_le in H
  | H : (_ <=? _) = false |- _ => apply Z.leb_gt in H
  | H : (_ =? _) = true |- _ => apply Z.eqb_eq in H
  | H : (_ =? _) = false |- _ => apply Z.eqb_neq in H
  | H : (_ >? _) = true |- _ => apply Z.gtb_lt in H
  | H : (_ >? _) = false |- _ => rewrite Z.gtb_ltb in H; apply Z.ltb_ge in H
  | H : (_ && _)%bool = true |- _ => apply andb_true_iff in H as [? ?]
  | H : (_ || _)%bool = false |- _ => apply orb_false_iff in H as [? ?]
  | H : negb _ = true |- _ => apply negb_true_iff in H
  | H : negb _ = false |- _ => apply negb_false_iff in H
  end.

(** Split every option, pair or boolean matched on in the goal. *)
Ltac destruct_match :=
  repeat match goal with
  | |- context [match ?x with _ => _ end] => destruct x eqn:?
  end.

(** From [f x = (a, s)], replace [s] by [snd (f x)]. *)
Ltac snd_eq E := apply (f_equal snd) in E; cbn [snd] in E; subst.

(** Unfold the [Run] monad. *)
Ltac run_unfold := unfold mbind, run_bind, mret, run_ret, run_fail, run_get, run_modify.

Create HintDb rotonda.

(** ** Lemmas on lengths *)

Lemma zlen_nonneg {A} (l : list A) : 0 <= zlen l.
Proof. unfold zlen. lia. Qed.

Lemma zlen_nil {A} : zlen (@nil A) = 0.
Proof. done. Qed.

Lemma zlen_cons {A} (x : A) l : zlen (x :: l) = 1 + zlen l.
Proof. unfold zlen. cbn [length]. lia. Qed.

Lemma zlen_app {A} (l k : list A) : zlen (l ++ k) = zlen l + zlen k.
Proof. unfold zlen. rewrite length_app. lia. Qed.

Lemma zlen_0 {A} (l : list A) : zlen l = 0 <-> l = [].
Proof. unfold zlen. destruct l; cbn; split; (done || lia). Qed.

Lemma length_be_bytes n v : length (be_bytes n v) = n.
Proof. induction n; cbn; congruence. Qed.

Lemma zlen_be_bytes n v : zlen (be_bytes n v) = Z.of_nat n.
Proof. unfold zlen. by rewrite length_be_bytes. Qed.

Lemma zlen_zeros n : zlen (zeros n) = Z.of_nat n.
Proof. unfold zlen, zeros. by rewrite length_replicate. Qed.

Lemma zlen_take {A} n (l : list A) :
  (n <= length l)%nat -> zlen (take n l) = Z.of_nat n.
Proof. intros. unfold zlen. rewrite length_take. lia. Qed.


#[export] Hint Rewrite @zlen_nil @zlen_cons @zlen_app zlen_be_bytes zlen_zeros : zlen.

(** Reduce the length of a concatenation to a sum. *)
Ltac zlen_simpl := autorewrite with zlen in *; cbn [Z.of_nat Pos.of_succ_nat Pos.succ] in *.

(** Cut a buffer exactly behind its first part. *)
Lemma take_app_exact {A} n (l k : list A) :
  n = length l -> take n (l ++ k) = l.
Proof. intros ->. apply take_app_length. Qed.

Lemma drop_app_exact {A} n (l k : list A) :
  n = length l -> drop n (l ++ k) = k.
Proof. intros ->. apply drop_app_length. Qed.

(** ** Lemmas on big-endian integers *)

Lemma is_byteb_spec b : is_byteb b = true <-> is_byte b.
Proof. unfold is_byteb, is_byte. rewrite andb_true_iff. lia. Qed.

Lemma pow256_S n : 256 ^ Z.of_nat (S n) = 256 * 256 ^ Z.of_nat n.
Proof. rewrite Nat2Z.inj_succ, Z.pow_succ_r; lia. Qed.

Lemma pow256_pos n : 0 < 256 ^ Z.of_nat n.
Proof. apply Z.pow_pos_nonneg; lia. Qed.

#[export] Hint Resolve pow256_pos zlen_nonneg : rotonda.

Lemma be_bytes_byte n v : Forall is_byte (be_bytes n v).
Proof.
  induction n as [|n IH]; constructor; [|done].
  apply Z.mod_pos_bound. lia.
Qed.

Lemma zeros_byte n : Forall is_byte (zeros n).
Proof. apply Forall_replicate. unfold is_byte. lia. Qed.

Lemma be_val_acc l a :
  foldl (fun acc b => acc * 256 + b) a l
  = a * 256 ^ Z.of_nat (length l) + be_val l.
Proof.
  unfold be_val. revert a. induction l as [|b l IH]; intros a.
  - cbn. lia.
  - cbn [foldl length]. rewrite IH, (IH (0 * 256 + b)), pow256_S. lia.
Qed.

Lemma be_val_cons b l :
  be_val (b :: l) = b * 256 ^ Z.of_nat (length l) + be_val l.
Proof. unfold be_val at 1. cbn [foldl]. rewrite be_val_acc. lia. Qed.

Lemma be_val_app l k :
  be_val (l ++ k) = be_val l * 256 ^ Z.of_nat (length k) + be_val k.
Proof. unfold be_val at 1. rewrite foldl_app. apply be_val_acc. Qed.

Lemma be_val_be_bytes n v : be_val (be_bytes n v) = v mod 256 ^ Z.of_nat n.
Proof.
  induction n as [|n IH]; cbn [be_bytes].
  - cbn. by rewrite Z.mod_1_r.
  - rewrite be_val_cons, length_be_bytes, IH, pow256_S.
    rewrite (Z.mul_comm 256), Z.rem_mul_r by (pose proof (pow256_pos n); lia).
    lia.
Qed.

Lemma be_val_be_bytes_small n v :
  0 <= v < 256 ^ Z.of_nat n -> be_val (be_bytes n v) = v.
Proof. intros. rewrite be_val_be_bytes. by apply Z.mod_small. Qed.

Lemma be_val_bound l :
  Forall is_byte l -> 0 <= be_val l < 256 ^ Z.of_nat (length l).
Proof.
  induction 1 as [|b l Hb Hl IH].
  - cbn. lia.
  - rewrite be_val_cons. cbn [length]. rewrite pow256_S.
    unfold is_byte in Hb. nia.
Qed.

Lemma be_bytes_add_high n v k :
  be_bytes n (k * 256 ^ Z.of_nat n + v) = be_bytes n v.
Proof.
  revert k. induction n as [|n IH]; intros k; [done|].
  cbn [be_bytes]. f_equal.
  - rewrite pow256_S.
    replace (k * (256 * 256 ^ Z.of_nat n) + v)
      with (v + (k * 256) * 256 ^ Z.of_nat n) by lia.
    rewrite Z.div_add by (pose proof (pow256_pos n); lia).
    by rewrite Z.mod_add by lia.
  - rewrite pow256_S.
    replace (k * (256 * 256 ^ Z.of_nat n) + v)
      with ((k * 256) * 256 ^ Z.of_nat n + v) by lia.
    apply IH.
Qed.

Lemma be_bytes_be_val l :
  Forall is_byte l -> be_bytes (length l) (be_val l) = l.
Proof.
  induction 1 as [|b l Hb Hl IH]; [done|].
  cbn [length be_bytes]. rewrite be_val_cons. f_equal.
  - rewrite Z.div_add_l by (pose proof (pow256_pos (length l)); lia).
    rewrite Z.div_small by (by apply be_val_bound).
    rewrite Z.add_0_r. apply Z.mod_small. done.
  - rewrite be_bytes_add_high. apply IH.
Qed.

Lemma be_bytes_inj n v w :
  0 <= v < 256 ^ Z.of_nat n -> 0 <= w < 256 ^ Z.of_nat n ->
  be_bytes n v = be_bytes n w -> v = w.
Proof.
  intros Hv Hw H%(f_equal be_val).
  by rewrite !be_val_be_bytes_small in H.
Qed.

Lemma be_bytes_split n k v :
  be_bytes (n + k) v = be_bytes n (v / 256 ^ Z.of_nat k) ++ be_bytes k v.
Proof.
  induction n as [|n IH]; [done|]. cbn [Nat.add be_bytes app]. f_equal; [|done].
  rewrite Z.div_div, Nat2Z.inj_add, Z.add_comm, Z.pow_add_r by
    (pose proof (pow256_pos k); pose proof (pow256_pos n); lia).
  done.
Qed.

Lemma be_bytes_0 n : be_bytes n 0 = zeros n.
Proof.
  induction n as [|n IH]; [done|]. cbn [be_bytes]. rewrite IH.
  by rewrite Z.div_0_l by (pose proof (pow256_pos n); lia).
Qed.

Lemma be_bytes_low_zero k v : v mod 256 ^ Z.of_nat k = 0 -> be_bytes k v = zeros k.
Proof.
  intros H. rewrite (Z.div_mod v (256 ^ Z.of_nat k)), H
    by (pose proof (pow256_pos k); lia).
  by rewrite Z.mul_comm, be_bytes_add_high, be_bytes_0.
Qed.

(** The leading bytes of a value whose low bytes are zero determine it. *)
Lemma be_bytes_truncate n m v :
  (m <= n)%nat -> v mod 256 ^ Z.of_nat (n - m) = 0 ->
  take m (be_bytes n v) ++ zeros (n - m) = be_bytes n v.
Proof.
  intros Hm Hz. replace (be_bytes n v) with (be_bytes (m + (n - m)) v) by (f_equal; lia).
  rewrite be_bytes_split, (be_bytes_low_zero _ _ Hz).
  rewrite take_app_exact by (by rewrite length_be_bytes). done.
Qed.
