(* ===== verification/Net.v ===== *)
(** * Addresses, protocol enumerations and the libraries the program calls

    The data of [std::net] that the sources use, the enumerations of the
    [routecore] crate as the sources match on them, [PeerRibType] of
    [src/roto_runtime/types.rs], and the class [Extern] of the functions of
    third-party crates (and of the standard hasher, whose algorithm is
    unspecified) with the documented facts the program relies on. *)

From S2P Require Import Prelude.
From Stdlib Require Import ZArith Lia.
From stdpp Require Import base numbers list gmap.

Local Open Scope Z_scope.

(** [std::net::IpAddr]: the 32- or 128-bit value of the address. *)
Inductive IpAddr : Type :=
| V4 (a : Z)
| V6 (a : Z).

#[export] Instance IpAddr_eq_dec : EqDecision IpAddr.
Proof. solve_decision. Defined.

Definition is_ipv6 (a : IpAddr) : bool :=
  match a with V4 _ => false | V6 _ => true end.

Definition is_ipv4 (a : IpAddr) : bool := negb (is_ipv6 a).

Definition addr_val (a : IpAddr) : Z := match a with V4 v | V6 v => v end.

(** Bytes of an address of this family. *)
Definition addr_size (v4 : bool) : nat := if v4 then 4%nat else 16%nat.

(** [v4.octets()], [v6.octets()]. *)
Definition octets (a : IpAddr) : list Z :=
  be_bytes (addr_size (is_ipv4 a)) (addr_val a).

Definition addr_wf (a : IpAddr) : Prop :=
  0 <= addr_val a < 256 ^ Z.of_nat (addr_size (is_ipv4 a)).

Definition UNSPECIFIED : IpAddr := V4 0.

(** [inetnum::asn::Asn]: a 32-bit autonomous system number. *)
Abbreviation Asn := Z.

(** [routecore::bmp::message::PeerType], the variants of the match in
    [add_peer_config]. *)
Inductive PeerType : Type :=
| GlobalInstance | RdInstance | LocalInstance | LocalRibInstance
| PeerTypeReserved | PeerTypeUnassigned (b : Z) | PeerTypeExperimental (b : Z)
| PeerTypeUnimplemented (b : Z).

#[export] Instance PeerType_eq_dec : EqDecision PeerType.
Proof. solve_decision. Defined.

(** [routecore::bmp::message::RibType]. *)
Inductive RibType : Type := AdjRibIn | AdjRibOut | LocRib.

#[export] Instance RibType_eq_dec : EqDecision RibType.
Proof. solve_decision. Defined.

(** [PeerRibType] of [roto_runtime/types.rs]. *)
Inductive PeerRibType : Type := InPre | InPost | Loc | OutPre | OutPost.

#[export] Instance PeerRibType_eq_dec : EqDecision PeerRibType.
Proof. solve_decision. Defined.

(** [impl From<(bool, RibType)> for PeerRibType]. *)
Definition peer_rib_type_from (is_post_policy : bool) (rib_type : RibType)
  : PeerRibType :=
  match rib_type with
  | AdjRibIn => if is_post_policy then InPost else InPre
  | AdjRibOut => if is_post_policy then OutPost else OutPre
  | LocRib => Loc
  end.

(** [routecore::bgp::types::AfiSafiType]. *)
Inductive AfiSafiType : Type :=
| Ipv4Unicast | Ipv4Multicast | Ipv4MplsUnicast | Ipv4MplsVpnUnicast
| Ipv4RouteTarget | Ipv4FlowSpec
| Ipv6Unicast | Ipv6Multicast | Ipv6MplsUnicast | Ipv6MplsVpnUnicast
| Ipv6FlowSpec | L2VpnVpls | L2VpnEvpn | AfiSafiUnsupported (afi safi : Z).

#[export] Instance AfiSafiType_eq_dec : EqDecision AfiSafiType.
Proof. solve_decision. Defined.

(** ** What the program calls and does not contain

    - [inetnum::addr::Prefix]: an address and a prefix length, host bits zero;
      [Prefix::new] checks the length and the host bits;
    - [std::hash::DefaultHasher] over a byte string: some 64-bit value;
    - the wire values of [PeerType] and [AfiSafiType] (RFC 7854 section 4.2,
      RFC 4760). *)
Class Extern := {
  Prefix : Type;
  Prefix_eq_dec :: EqDecision Prefix;
  prefix_addr : Prefix -> IpAddr;
  prefix_len : Prefix -> Z;
  prefix_new : IpAddr -> Z -> option Prefix;
  prefix_contains : Prefix -> IpAddr -> bool;
  default_hash : list Z -> Z;
  peer_type_byte : PeerType -> Z;
  afi_safi_code : AfiSafiType -> Z * Z;

  prefix_addr_wf p : addr_wf (prefix_addr p);
  prefix_len_bound p :
    0 <= prefix_len p <= 8 * Z.of_nat (addr_size (is_ipv4 (prefix_addr p)));
  prefix_host_bits p :
    addr_val (prefix_addr p)
      mod 2 ^ (8 * Z.of_nat (addr_size (is_ipv4 (prefix_addr p)))
               - prefix_len p) = 0;
  prefix_ext p q :
    prefix_addr p = prefix_addr q -> prefix_len p = prefix_len q -> p = q;
  prefix_new_self p : prefix_new (prefix_addr p) (prefix_len p) = Some p;
  default_hash_u64 l : 0 <= default_hash l < 2 ^ 64;
  peer_type_byte_u8 t : is_byte (peer_type_byte t);
  afi_safi_v4 : afi_safi_code Ipv4Unicast = (1, 1);
  afi_safi_v6 : afi_safi_code Ipv6Unicast = (2, 1);
  afi_safi_range t :
    0 <= fst (afi_safi_code t) < 65536 /\ is_byte (snd (afi_safi_code t))
}.

(** [Prefix::is_v4]. *)
Definition prefix_is_v4 `{Extern} (p : Prefix) : bool :=
  is_ipv4 (prefix_addr p).

(** ** A concrete instance

    Prefixes as pairs with the checks of [Prefix::new] decided, a polynomial
    hash, and the RFC's numbers: the facts of [Extern] are consistent, and
    the examples of the development evaluate with it. *)
Module Demo.

Definition prefix_okb (a : IpAddr) (l : Z) : bool :=
  (0 <=? addr_val a)
  && (addr_val a <? 256 ^ Z.of_nat (addr_size (is_ipv4 a)))
  && (0 <=? l) && (l <=? 8 * Z.of_nat (addr_size (is_ipv4 a)))
  && (addr_val a mod 2 ^ (8 * Z.of_nat (addr_size (is_ipv4 a)) - l) =? 0).

Record prefix := mk_prefix {
  p_addr : IpAddr;
  p_len : Z;
  p_ok : prefix_okb p_addr p_len = true
}.

Definition new (a : IpAddr) (l : Z) : option prefix :=
  match decide (prefix_okb a l = true) with
  | left H => Some (mk_prefix a l H)
  | right _ => None
  end.

(** Same family and same leading bits. *)
Definition contains (p : prefix) (a : IpAddr) : bool :=
  bool_decide (is_ipv4 a = is_ipv4 (p_addr p))
  && (addr_val a / 2 ^ (8 * Z.of_nat (addr_size (is_ipv4 a)) - p_len p)
      =? addr_val (p_addr p)
         / 2 ^ (8 * Z.of_nat (addr_size (is_ipv4 a)) - p_len p)).

Definition hash (l : list Z) : Z :=
  foldl (fun acc b => (acc * 31 + b + 7) mod 2 ^ 64) 0 l.

Definition type_byte (t : PeerType) : Z :=
  match t with
  | GlobalInstance => 0 | RdInstance => 1 | LocalInstance => 2
  | LocalRibInstance => 3 | PeerTypeReserved => 255
  | PeerTypeUnassigned b | PeerTypeExperimental b
  | PeerTypeUnimplemented b => b mod 256
  end.

Definition afi_code (t : AfiSafiType) : Z * Z :=
  match t with
  | Ipv4Unicast => (1, 1) | Ipv4Multicast => (1, 2)
  | Ipv4MplsUnicast => (1, 4) | Ipv4MplsVpnUnicast => (1, 128)
  | Ipv4RouteTarget => (1, 132) | Ipv4FlowSpec => (1, 133)
  | Ipv6Unicast => (2, 1) | Ipv6Multicast => (2, 2)
  | Ipv6MplsUnicast => (2, 4) | Ipv6MplsVpnUnicast => (2, 128)
  | Ipv6FlowSpec => (2, 133) | L2VpnVpls => (25, 65)
  | L2VpnEvpn => (25, 70)
  | AfiSafiUnsupported a s => (a mod 65536, s mod 256)
  end.

Lemma prefix_eq a l H1 H2 : mk_prefix a l H1 = mk_prefix a l H2.
Proof. f_equal. apply (eq_pi _). Qed.

#[export] Instance prefix_eq_dec : EqDecision prefix.
Proof.
  intros [a l H] [a' l' H'].
  destruct (decide (a = a')) as [<-|]; [|right; congruence].
  destruct (decide (l = l')) as [<-|]; [|right; congruence].
  left. apply prefix_eq.
Defined.

Lemma hash_u64 l : 0 <= hash l < 2 ^ 64.
Proof.
  unfold hash.
  destruct l as [|b l _] using rev_ind; [by cbn|].
  rewrite foldl_app. cbn [foldl]. apply Z.mod_pos_bound. lia.
Qed.

Lemma new_self p : new (p_addr p) (p_len p) = Some p.
Proof.
  destruct p as [a l H]. unfold new. cbn.
  destruct (decide _); [|done]. f_equal. apply prefix_eq.
Qed.

Lemma type_byte_u8 t : is_byte (type_byte t).
Proof.
  unfold is_byte. destruct t; cbn [type_byte];
    try (pose proof (Z.mod_pos_bound b 256)); lia.
Qed.

Lemma afi_range t :
  0 <= fst (afi_code t) < 65536 /\ is_byte (snd (afi_code t)).
Proof.
  unfold is_byte. destruct t; cbn [afi_code fst snd]; try lia.
  pose proof (Z.mod_pos_bound afi 65536). pose proof (Z.mod_pos_bound safi 256).
  lia.
Qed.

Lemma okb_spec p :
  addr_wf (p_addr p)
  /\ 0 <= p_len p <= 8 * Z.of_nat (addr_size (is_ipv4 (p_addr p)))
  /\ addr_val (p_addr p)
       mod 2 ^ (8 * Z.of_nat (addr_size (is_ipv4 (p_addr p))) - p_len p) = 0.
Proof.
  destruct p as [a l H]. unfold prefix_okb in H. cbn [p_addr p_len].
  zify_bools. unfold addr_wf. lia.
Qed.

Definition extern : Extern := {|
  Prefix := prefix;
  prefix_addr := p_addr;
  prefix_len := p_len;
  prefix_new := new;
  prefix_contains := contains;
  default_hash := hash;
  peer_type_byte := type_byte;
  afi_safi_code := afi_code;
  prefix_addr_wf p := proj1 (okb_spec p);
  prefix_len_bound p := proj1 (proj2 (okb_spec p));
  prefix_host_bits p := proj2 (proj2 (okb_spec p));
  prefix_ext p q Ha Hl :=
    match p, q return p_addr p = p_addr q -> p_len p = p_len q -> p = q with
    | mk_prefix a l H, mk_prefix a' l' H' => fun Ea El =>
        match Ea in _ = b, El in _ = m
          return forall K, mk_prefix a l H = mk_prefix b m K with
        | eq_refl, eq_refl => fun K => prefix_eq a l H K
        end H'
    end Ha Hl;
  prefix_new_self := new_self;
  default_hash_u64 := hash_u64;
  peer_type_byte_u8 := type_byte_u8;
  afi_safi_v4 := eq_refl;
  afi_safi_v6 := eq_refl;
  afi_safi_range := afi_range
|}.

(** A prefix of the concrete instance from an address and a length that pass
    the checks. *)
Definition pfx (a : IpAddr) (l : Z) (H : prefix_okb a l = true)
  : @Prefix extern := mk_prefix a l H.

End Demo.
