(* ===== verification/Register.v ===== *)
(** * The ingress register ([src/ingress/register.rs], [src/ingress/http_ng.rs])

    The process-wide table of connections: [IngressInfo] with the operations
    that the [info_for_field!] macro generates, [Register] with its lookups,
    claims and removals, and the [QueryFilter] that searches it.  A step
    relation over the register with the ids that live sessions hold states
    what the claim operations promise to the connection handlers. *)

From S2P Require Import Prelude Net.
From Stdlib Require Import ZArith Lia.
From stdpp Require Import base numbers list gmap fin_maps.

Local Open Scope Z_scope.

(** [IngressId = u32]. *)
Abbreviation IngressId := Z.

Inductive IngressType : Type := Bmp | BgpViaBmp | Bgp | Mrt | Rtr.

#[export] Instance IngressType_eq_dec : EqDecision IngressType.
Proof. solve_decision. Defined.

Inductive IngressState : Type := Connected | Disconnected | NonNetwork.

#[export] Instance IngressState_eq_dec : EqDecision IngressState.
Proof. solve_decision. Defined.

(** The struct that [info_for_field!] declares; [Default] is all [None]. *)
Record IngressInfo : Type := mk_info {
  unit_name : option rstring;
  ingress_type : option IngressType;
  parent_ingress : option IngressId;
  state : option IngressState;
  remote_addr : option IpAddr;
  remote_asn : option Asn;
  rib_type : option RibType;
  peer_rib_type : option PeerRibType;
  filename : option rstring;
  name : option rstring;
  desc : option rstring;
  local_asn : option Asn;
  peer_type : option PeerType;
  distinguisher : option (list Z);
  vrf_name : option rstring;
  local_capabilities : option (list Z);
  remote_capabilities : option (list Z)
}.

#[export] Instance IngressInfo_eq_dec : EqDecision IngressInfo.
Proof. solve_decision. Defined.

Definition info_default : IngressInfo :=
  mk_info None None None None None None None None None None None None None None None None None.

(** ** The builder methods of [with_field!] *)

Definition with_unit_name (v : rstring) (i : IngressInfo) : IngressInfo :=
  mk_info (Some v) (ingress_type i) (parent_ingress i) (state i)
    (remote_addr i) (remote_asn i) (rib_type i) (peer_rib_type i)
    (filename i) (name i) (desc i) (local_asn i) (peer_type i)
    (distinguisher i) (vrf_name i) (local_capabilities i)
    (remote_capabilities i).

Definition with_ingress_type (v : IngressType) (i : IngressInfo) : IngressInfo :=
  mk_info (unit_name i) (Some v) (parent_ingress i) (state i) (remote_addr
    i) (remote_asn i) (rib_type i) (peer_rib_type i) (filename i) (name i)
    (desc i) (local_asn i) (peer_type i) (distinguisher i) (vrf_name i)
    (local_capabilities i) (remote_capabilities i).

Definition with_parent_ingress (v : IngressId) (i : IngressInfo) : IngressInfo :=
  mk_info (unit_name i) (ingress_type i) (Some v) (state i) (remote_addr
    i) (remote_asn i) (rib_type i) (peer_rib_type i) (filename i) (name i)
    (desc i) (local_asn i) (peer_type i) (distinguisher i) (vrf_name i)
    (local_capabilities i) (remote_capabilities i).

Definition with_state (v : IngressState) (i : IngressInfo) : IngressInfo :=
  mk_info (unit_name i) (ingress_type i) (parent_ingress i) (Some v)
    (remote_addr i) (remote_asn i) (rib_type i) (peer_rib_type i)
    (filename i) (name i) (desc i) (local_asn i) (peer_type i)
    (distinguisher i) (vrf_name i) (local_capabilities i)
    (remote_capabilities i).

Definition with_remote_addr (v : IpAddr) (i : IngressInfo) : IngressInfo :=
  mk_info (unit_name i) (ingress_type i) (parent_ingress i) (state i)
    (Some v) (remote_asn i) (rib_type i) (peer_rib_type i) (filename i)
    (name i) (desc i) (local_asn i) (peer_type i) (distinguisher i)
    (vrf_name i) (local_capabilities i) (remote_capabilities i).

Definition with_remote_asn (v : Asn) (i : IngressInfo) : IngressInfo :=
  mk_info (unit_name i) (ingress_type i) (parent_ingress i) (state i)
    (remote_addr i) (Some v) (rib_type i) (peer_rib_type i) (filename i)
    (name i) (desc i) (local_asn i) (peer_type i) (distinguisher i)
    (vrf_name i) (local_capabilities i) (remote_capabilities i).

Definition with_rib_type (v : RibType) (i : IngressInfo) : IngressInfo :=
  mk_info (unit_name i) (ingress_type i) (parent_ingress i) (state i)
    (remote_addr i) (remote_asn i) (Some v) (peer_rib_type i) (filename i)
    (name i) (desc i) (local_asn i) (peer_type i) (distinguisher i)
    (vrf_name i) (local_capabilities i) (remote_capabilities i).

Definition with_peer_rib_type (v : PeerRibType) (i : IngressInfo) : IngressInfo :=
  mk_info (unit_name i) (ingress_type i) (parent_ingress i) (state i)
    (remote_addr i) (remote_asn i) (rib_type i) (Some v) (filename i)
    (name i) (desc i) (local_asn i) (peer_type i) (distinguisher i)
    (vrf_name i) (local_capabilities i) (remote_capabilities i).

Definition with_filename (v : rstring) (i : IngressInfo) : IngressInfo :=
  mk_info (unit_name i) (ingress_type i) (parent_ingress i) (state i)
    (remote_addr i) (remote_asn i) (rib_type i) (peer_rib_type i) (Some v)
    (name i) (desc i) (local_asn i) (peer_type i) (distinguisher i)
    (vrf_name i) (local_capabilities i) (remote_capabilities i).

Definition with_name (v : rstring) (i : IngressInfo) : IngressInfo :=
  mk_info (unit_name i) (ingress_type i) (parent_ingress i) (state i)
    (remote_addr i) (remote_asn i) (rib_type i) (peer_rib_type i)
    (filename i) (Some v) (desc i) (local_asn i) (peer_type i)
    (distinguisher i) (vrf_name i) (local_capabilities i)
    (remote_capabilities i).

Definition with_desc (v : rstring) (i : IngressInfo) : IngressInfo :=
  mk_info (unit_name i) (ingress_type i) (parent_ingress i) (state i)
    (remote_addr i) (remote_asn i) (rib_type i) (peer_rib_type i)
    (filename i) (name i) (Some v) (local_asn i) (peer_type i)
    (distinguisher i) (vrf_name i) (local_capabilities i)
    (remote_capabilities i).

Definition with_local_asn (v : Asn) (i : IngressInfo) : IngressInfo :=
  mk_info (unit_name i) (ingress_type i) (parent_ingress i) (state i)
    (remote_addr i) (remote_asn i) (rib_type i) (peer_rib_type i)
    (filename i) (name i) (desc i) (Some v) (peer_type i) (distinguisher
    i) (vrf_name i) (local_capabilities i) (remote_capabilities i).

Definition with_peer_type (v : PeerType) (i : IngressInfo) : IngressInfo :=
  mk_info (unit_name i) (ingress_type i) (parent_ingress i) (state i)
    (remote_addr i) (remote_asn i) (rib_type i) (peer_rib_type i)
    (filename i) (name i) (desc i) (local_asn i) (Some v) (distinguisher
    i) (vrf_name i) (local_capabilities i) (remote_capabilities i).

Definition with_distinguisher (v : list Z) (i : IngressInfo) : IngressInfo :=
  mk_info (unit_name i) (ingress_type i) (parent_ingress i) (state i)
    (remote_addr i) (remote_asn i) (rib_type i) (peer_rib_type i)
    (filename i) (name i) (desc i) (local_asn i) (peer_type i) (Some v)
    (vrf_name i) (local_capabilities i) (remote_capabilities i).

Definition with_vrf_name (v : rstring) (i : IngressInfo) : IngressInfo :=
  mk_info (unit_name i) (ingress_type i) (parent_ingress i) (state i)
    (remote_addr i) (remote_asn i) (rib_type i) (peer_rib_type i)
    (filename i) (name i) (desc i) (local_asn i) (peer_type i)
    (distinguisher i) (Some v) (local_capabilities i) (remote_capabilities
    i).

Definition with_local_capabilities (v : list Z) (i : IngressInfo) : IngressInfo :=
  mk_info (unit_name i) (ingress_type i) (parent_ingress i) (state i)
    (remote_addr i) (remote_asn i) (rib_type i) (peer_rib_type i)
    (filename i) (name i) (desc i) (local_asn i) (peer_type i)
    (distinguisher i) (vrf_name i) (Some v) (remote_capabilities i).

Definition with_remote_capabilities (v : list Z) (i : IngressInfo) : IngressInfo :=
  mk_info (unit_name i) (ingress_type i) (parent_ingress i) (state i)
    (remote_addr i) (remote_asn i) (rib_type i) (peer_rib_type i)
    (filename i) (name i) (desc i) (local_asn i) (peer_type i)
    (distinguisher i) (vrf_name i) (local_capabilities i) (Some v).

(** [update_field!]: a field that is set in the new info replaces the old. *)
Definition update_field {A} (old new : option A) : option A :=
  match new with Some _ => new | None => old end.

(** The merge that [update_info] performs field by field. *)
Definition merge_info (old new_info : IngressInfo) : IngressInfo :=
  mk_info
    (update_field (unit_name old) (unit_name new_info))
    (update_field (ingress_type old) (ingress_type new_info))
    (update_field (parent_ingress old) (parent_ingress new_info))
    (update_field (state old) (state new_info))
    (update_field (remote_addr old) (remote_addr new_info))
    (update_field (remote_asn old) (remote_asn new_info))
    (update_field (rib_type old) (rib_type new_info))
    (update_field (peer_rib_type old) (peer_rib_type new_info))
    (update_field (filename old) (filename new_info))
    (update_field (name old) (name new_info))
    (update_field (desc old) (desc new_info))
    (update_field (local_asn old) (local_asn new_info))
    (update_field (peer_type old) (peer_type new_info))
    (update_field (distinguisher old) (distinguisher new_info))
    (update_field (vrf_name old) (vrf_name new_info))
    (update_field (local_capabilities old) (local_capabilities new_info))
    (update_field (remote_capabilities old) (remote_capabilities new_info)).

(** ** Iteration over a [HashMap]

    [std::collections::HashMap] visits its entries in an unspecified order;
    [hm_iter] is any enumeration of them. *)
Class HashIter (K V : Type) `{Countable K} := {
  hm_iter : gmap K V -> list (K * V);
  hm_iter_perm m : hm_iter m ≡ₚ map_to_list m
}.

(** One concrete enumeration. *)
Definition list_order (K V : Type) `{Countable K} : HashIter K V :=
  {| hm_iter := map_to_list; hm_iter_perm m := Permutation_refl _ |}.

(** ** [QueryFilter] *)
Record QueryFilter : Type := mk_filter {
  qf_ingress_type : option IngressType;
  qf_ingress_state : option IngressState;
  qf_rib_type : option PeerRibType;
  qf_remote_addr : option IpAddr;
  qf_remote_asn : option Asn
}.

Definition qf_default : QueryFilter := mk_filter None None None None None.

(** [self.f.is_some() && self.f != info.f]: the filter's field rules the entry
    out. *)
Definition excludes {A} `{EqDecision A} (f g : option A) : bool :=
  match f with
  | Some _ => negb (bool_decide (f = g))
  | None => false
  end.

(** [QueryFilter::filter], with its early returns. *)
Definition qf_filter (f : QueryFilter) (i : IngressInfo) : bool :=
  if excludes (qf_remote_addr f) (remote_addr i) then false
  else if excludes (qf_remote_asn f) (remote_asn i) then false
  else if excludes (qf_ingress_type f) (ingress_type i) then false
  else if excludes (qf_ingress_state f) (state i) then false
  else if excludes (qf_rib_type f) (peer_rib_type i) then false
  else true.

(** ** [Register] *)
Record Register : Type := mk_register {
  serial : Z;
  info : gmap Z IngressInfo
}.

(** [Register::new]: ids are handed out from 1. *)
Definition register_new : Register := mk_register 1 ∅.

Definition current_serial (r : Register) : Z := serial r.

Definition set_info (m : gmap Z IngressInfo) (r : Register) : Register :=
  mk_register (serial r) m.

(** [Register::register]: [fetch_add] on an [AtomicU32], which wraps. *)
Definition register (r : Register) : IngressId * Register :=
  (serial r, mk_register (wrap 32 (serial r + 1)) (info r)).

Definition get (id : IngressId) (r : Register) : option IngressInfo :=
  info r !! id.

Definition get_tuple (id : IngressId) (r : Register)
  : option (IngressId * IngressInfo) :=
  (fun i => (id, i)) <$> info r !! id.

(** [Register::update_info]: the entry is taken out, merged and put back; the
    value returned is what [HashMap::insert] returns. *)
Definition update_info (id : IngressId) (new_info : IngressInfo) (r : Register)
  : option IngressInfo * Register :=
  match info r !! id with
  | Some old =>
      let m := delete id (info r) in
      (m !! id, set_info (<[id := merge_info old new_info]> m) r)
  | None => (info r !! id, set_info (<[id := new_info]> (info r)) r)
  end.

Definition remove (id : IngressId) (r : Register)
  : option IngressInfo * Register :=
  (info r !! id, set_info (delete id (info r)) r).

Definition remove_if_disconnected (id : IngressId) (r : Register)
  : option IngressInfo * Register :=
  match info r !! id with
  | Some i =>
      if bool_decide (state i = Some Disconnected)
      then (info r !! id, set_info (delete id (info r)) r)
      else (None, r)
  | None => (None, r)
  end.

(** The two kinds of comparison of [find_existing_for!]. *)
Definition mandatory {A} `{EqDecision A} (f : IngressInfo -> option A)
    (i query : IngressInfo) : bool :=
  match f i with Some _ => bool_decide (f i = f query) | None => false end.

Definition optional {A} `{EqDecision A} (f : IngressInfo -> option A)
    (i query : IngressInfo) : bool :=
  bool_decide (f i = f query).

Definition is_connected (i : IngressInfo) : bool :=
  bool_decide (state i = Some Connected).

(** [find_existing_for!(info, query, {remote_addr, remote_asn, ingress_type})] *)
Definition bgp_session_matches (i query : IngressInfo) : bool :=
  mandatory remote_addr i query && mandatory remote_asn i query
  && mandatory ingress_type i query.

(** [find_existing_for!(info, query, {parent_ingress, remote_addr, remote_asn},
    {rib_type, peer_rib_type, peer_type, distinguisher, vrf_name})] *)
Definition peer_matches (i query : IngressInfo) : bool :=
  mandatory parent_ingress i query && mandatory remote_addr i query
  && mandatory remote_asn i query
  && optional rib_type i query && optional peer_rib_type i query
  && optional peer_type i query && optional distinguisher i query
  && optional vrf_name i query.

(** [find_existing_for!(info, query, {parent_ingress, remote_addr,
    ingress_type}, {name})] *)
Definition bmp_router_matches (i query : IngressInfo) : bool :=
  mandatory parent_ingress i query && mandatory remote_addr i query
  && mandatory ingress_type i query && optional name i query.

(** The first entry of the iteration that satisfies a test. *)
Fixpoint find_entry (p : IngressInfo -> bool) (l : list (Z * IngressInfo))
  : option (IngressId * IngressInfo) :=
  match l with
  | [] => None
  | (id, i) :: l' => if p i then Some (id, i) else find_entry p l'
  end.

(** [RegisterMemSummary]. *)
Record RegisterMemSummary : Type := mk_summary {
  total : Z; connected : Z; disconnected : Z; non_network : Z;
  state_unset : Z; bgp_via_bmp : Z
}.

(** One iteration of the loop of [memory_summary]. *)
Definition summary_add (s : RegisterMemSummary) (i : IngressInfo)
  : RegisterMemSummary :=
  let s1 :=
    match state i with
    | Some Connected =>
        mk_summary (total s) (connected s + 1) (disconnected s)
          (non_network s) (state_unset s) (bgp_via_bmp s)
    | Some Disconnected =>
        mk_summary (total s) (connected s) (disconnected s + 1)
          (non_network s) (state_unset s) (bgp_via_bmp s)
    | Some NonNetwork =>
        mk_summary (total s) (connected s) (disconnected s)
          (non_network s + 1) (state_unset s) (bgp_via_bmp s)
    | None =>
        mk_summary (total s) (connected s) (disconnected s)
          (non_network s) (state_unset s + 1) (bgp_via_bmp s)
    end in
  if bool_decide (ingress_type i = Some BgpViaBmp)
  then mk_summary (total s1) (connected s1) (disconnected s1)
         (non_network s1) (state_unset s1) (bgp_via_bmp s1 + 1)
  else s1.

Section Iterating.
Context `{HI : !HashIter Z IngressInfo}.

Definition find_existing_bgp_session (query : IngressInfo) (r : Register)
  : option (IngressId * IngressInfo) :=
  find_entry (fun i => bgp_session_matches i query) (hm_iter (info r)).

Definition find_existing_peer (query : IngressInfo) (r : Register)
  : option (IngressId * IngressInfo) :=
  find_entry (fun i => negb (is_connected i) && peer_matches i query)
    (hm_iter (info r)).

(** The claim under the write lock: the first entry that is not [Connected]
    and matches is flipped to [Connected] and returned as it is then. *)
Definition claim (matches : IngressInfo -> bool) (r : Register)
  : option (IngressId * IngressInfo) * Register :=
  match find_entry (fun i => negb (is_connected i) && matches i)
          (hm_iter (info r)) with
  | Some (id, i) =>
      let i' := with_state Connected i in
      (Some (id, i'), set_info (<[id := i']> (info r)) r)
  | None => (None, r)
  end.

Definition find_existing_peer_and_claim (query : IngressInfo) (r : Register)
  : option (IngressId * IngressInfo) * Register :=
  claim (fun i => peer_matches i query) r.

Definition find_existing_bmp_router_and_claim (query : IngressInfo)
    (r : Register) : option (IngressId * IngressInfo) * Register :=
  claim (fun i => bmp_router_matches i query) r.

Definition ids_for_parent (parent : IngressId) (r : Register)
  : list IngressId :=
  fst <$> filter
    (fun e : Z * IngressInfo => parent_ingress (snd e) = Some parent)
    (hm_iter (info r)).

Definition search (f : QueryFilter) (r : Register)
  : list (IngressId * IngressInfo) :=
  filter (fun e : Z * IngressInfo => qf_filter f (snd e) = true)
    (hm_iter (info r)).

(** The entries that [bgp_neighbors] writes out, in order. *)
Definition bgp_neighbors (r : Register) : list (IngressId * IngressInfo) :=
  [BgpViaBmp; Bgp; Mrt] ≫= fun t =>
    search (mk_filter (Some t) None None None None) r.

Definition real_bgp_peers (r : Register) : list (IngressId * IngressInfo) :=
  search (mk_filter (Some Bgp) (Some Connected) None None None) r.

Definition bmp_routers (r : Register) : list (IngressId * IngressInfo) :=
  search (mk_filter (Some Bmp) (Some Connected) None None None) r.

Definition memory_summary (r : Register) : RegisterMemSummary :=
  foldl (fun s e => summary_add s (snd e))
    (mk_summary (Z.of_nat (size (info r))) 0 0 0 0 0) (hm_iter (info r)).

End Iterating.

(** ** The register shared by concurrent sessions

    [held]: the ids that sessions use which claim their entries, as their mui;
    [reserved]: the ids that [register] handed out and that no claim may take:
    nothing is stored for them, or the entry of a connection whose router is not
    known, or that of a user who never claims and has no parent.
    Each step is one critical section of the register's lock (or the atomic
    increment), in any interleaving. *)
Record world : Type := mk_world {
  w_reg : Register;
  held : gset Z;
  reserved : gset Z
}.

(** An entry that says nothing of who is at the other end. *)
Definition unidentified (i : IngressInfo) : Prop :=
  name i = None /\ remote_asn i = None.

(** An entry that no claim is meant for: it has no parent, or it says nothing of
    who is at the other end. *)
Definition unclaimable (i : IngressInfo) : Prop :=
  parent_ingress i = None \/ unidentified i.

(** A test that no such entry passes. *)
Definition identifies (m : IngressInfo -> bool) : Prop :=
  forall i, unclaimable i -> m i = false.

Section World.
Context `{HI : !HashIter Z IngressInfo}.

Inductive reg_step : world -> world -> Prop :=
| step_claim r h s m id i r' :
    identifies m ->
    claim m r = (Some (id, i), r') ->
    reg_step (mk_world r h s) (mk_world r' ({[id]} ∪ h) s)
| step_claim_none r h s m r' :
    claim m r = (None, r') ->
    reg_step (mk_world r h s) (mk_world r' h s)
| step_reserve r h s id r' :
    serial r < u32_max ->
    register r = (id, r') ->
    reg_step (mk_world r h s) (mk_world r' h ({[id]} ∪ s))
| step_publish r h s id i o r' :
    id ∈ s -> state i = Some Connected ->
    update_info id i r = (o, r') ->
    reg_step (mk_world r h s) (mk_world r' ({[id]} ∪ h) (s ∖ {[id]}))
| step_provide r h s id i o r' :
    id ∈ s -> unidentified i ->
    (forall i0, info r !! id = Some i0 -> unidentified i0) ->
    update_info id i r = (o, r') ->
    reg_step (mk_world r h s) (mk_world r' h s)
| step_abandon r h s id o r' :
    id ∈ s ->
    update_info id (with_state Disconnected info_default) r = (o, r') ->
    reg_step (mk_world r h s) (mk_world r' h (s ∖ {[id]}))
| step_drop r h s id o r' :
    id ∈ s -> remove id r = (o, r') ->
    reg_step (mk_world r h s) (mk_world r' h (s ∖ {[id]}))
| step_refresh r h s id i o r' :
    id ∈ h -> state i = Some Connected \/ state i = None ->
    update_info id i r = (o, r') ->
    reg_step (mk_world r h s) (mk_world r' h s)
| step_disconnect r h s id o r' :
    id ∈ h ->
    update_info id (with_state Disconnected info_default) r = (o, r') ->
    reg_step (mk_world r h s) (mk_world r' (h ∖ {[id]}) s)
| step_free r h s id o r' :
    id ∈ h -> remove id r = (o, r') ->
    reg_step (mk_world r h s) (mk_world r' (h ∖ {[id]}) s)
| step_gc r h s id o r' :
    remove_if_disconnected id r = (o, r') ->
    reg_step (mk_world r h s) (mk_world r' h s).

(** What everybody does to the register. The sessions of BMP units take the
    steps above. A RIB writes [Connected] under any id that was handed out,
    whoever it belongs to and whatever state it has ([rib.rs:501],
    [rib_unit/unit.rs:814]). A unit or a session of a BGP unit writes, again and
    again, entries without a parent under ids it never claims, and removes them
    while it may still be using the id ([bgp_tcp_in/router_handler.rs:533-646],
    [mrt_file_in/unit.rs:111]). An MRT unit stores a peer with a parent and
    leaves it for everybody ([mrt_file_in/unit.rs:224] and [331]). *)
Inductive reg_use : world -> world -> Prop :=
| use_session w w' : reg_step w w' -> reg_use w w'
| use_mark r h s id o r' :
    1 <= id < serial r ->
    update_info id (with_state Connected info_default) r = (o, r') ->
    reg_use (mk_world r h s) (mk_world r' h s)
| use_private r h s id i o r' :
    id ∈ s -> parent_ingress i = None ->
    (forall i0, info r !! id = Some i0 -> parent_ingress i0 = None) ->
    update_info id i r = (o, r') ->
    reg_use (mk_world r h s) (mk_world r' h s)
| use_clear r h s id o r' :
    id ∈ s -> remove id r = (o, r') ->
    reg_use (mk_world r h s) (mk_world r' h s)
| use_hand_over r h s id i o r' :
    id ∈ s -> update_info id i r = (o, r') ->
    reg_use (mk_world r h s) (mk_world r' h (s ∖ {[id]})).

Inductive reachable : world -> Prop :=
| reach_init : reachable (mk_world register_new ∅ ∅)
| reach_step w w' : reachable w -> reg_use w w' -> reachable w'.

(** What a reachable register satisfies: a held id is stored and [Connected],
    every id in use was handed out, a reserved id has no entry or one that no
    claim takes, and no id is both. *)
Record world_inv (w : world) : Prop := {
  inv_held id :
    id ∈ held w ->
    exists i, info (w_reg w) !! id = Some i /\ state i = Some Connected;
  inv_stored id i :
    info (w_reg w) !! id = Some i -> 1 <= id < serial (w_reg w);
  inv_reserved id :
    id ∈ reserved w ->
    1 <= id < serial (w_reg w)
    /\ forall i, info (w_reg w) !! id = Some i -> unclaimable i;
  inv_apart : held w ## reserved w;
  inv_serial : 1 <= serial (w_reg w) <= u32_max
}.

End World.

(** ** Lemmas *)

Lemma update_field_idemp {A} (x y : option A) :
  update_field (update_field x y) y = update_field x y.
Proof. by destruct y. Qed.

Lemma excludes_false {A} `{EqDecision A} (x y : option A) :
  excludes x y = false <-> x = None \/ x = y.
Proof.
  destruct x as [x|]; cbn; [|naive_solver].
  rewrite negb_false_iff, bool_decide_eq_true. naive_solver.
Qed.

Lemma find_entry_Some p l id i :
  find_entry p l = Some (id, i) -> (id, i) ∈ l /\ p i = true.
Proof.
  induction l as [|[id' i'] l IH]; cbn; [done|].
  case_bool; intros H.
  - injection H as -> ->. split; [left | done].
  - destruct (IH H). split; [right|]; done.
Qed.

Lemma find_entry_None p l :
  find_entry p l = None -> forall id i, (id, i) ∈ l -> p i = false.
Proof.
  induction l as [|[id' i'] l IH]; cbn; intros H id i Hin.
  - by apply not_elem_of_nil in Hin.
  - case_bool; [done|]. apply elem_of_cons in Hin as [[= -> ->]|Hin]; eauto.
Qed.

Lemma update_info_spec id new r :
  update_info id new r
  = (None,
     set_info (<[id := match info r !! id with
                       | Some old => merge_info old new
                       | None => new
                       end]> (info r)) r).
Proof.
  unfold update_info. destruct (info r !! id) as [old|] eqn:E.
  - by rewrite lookup_delete_eq, insert_delete_eq.
  - done.
Qed.

Lemma merge_info_state old new :
  state (merge_info old new) = update_field (state old) (state new).
Proof. done. Qed.

Lemma merge_info_self i : merge_info i i = i.
Proof.
  destruct i. unfold merge_info. cbn. f_equal;
    match goal with |- update_field ?x ?x = ?x => by destruct x end.
Qed.

Lemma merge_info_idemp old new :
  merge_info (merge_info old new) new = merge_info old new.
Proof. unfold merge_info at 1 3. cbn. by rewrite !update_field_idemp. Qed.

Section HashIterLemmas.
Context {K V : Type} `{Countable K} `{HI : !HashIter K V}.

Lemma elem_of_hm_iter (m : gmap K V) id i : (id, i) ∈ hm_iter m <-> m !! id = Some i.
Proof. by rewrite hm_iter_perm, elem_of_map_to_list. Qed.

Lemma hm_iter_NoDup (m : gmap K V) : NoDup (hm_iter m).*1.
Proof. rewrite hm_iter_perm. apply NoDup_fst_map_to_list. Qed.

End HashIterLemmas.

Section IterLemmas.
Context `{HI : !HashIter Z IngressInfo}.

Lemma claim_Some m r id i r' :
  claim m r = (Some (id, i), r') ->
  exists i0, info r !! id = Some i0 /\ is_connected i0 = false /\ m i0 = true
    /\ i = with_state Connected i0
    /\ r' = set_info (<[id := i]> (info r)) r.
Proof.
  unfold claim. destruct (find_entry _ _) as [[id0 i0]|] eqn:E; [|done].
  intros [= -> <- <-]. apply find_entry_Some in E as [Hin Hp].
  apply elem_of_hm_iter in Hin. zify_bools. eauto 10.
Qed.

Lemma claim_None m r r' :
  claim m r = (None, r') ->
  r' = r /\ forall id i, info r !! id = Some i ->
                   is_connected i = true \/ m i = false.
Proof.
  unfold claim. destruct (find_entry _ _) as [[id0 i0]|] eqn:E; [done|].
  intros [= <-]. split; [done|]. intros id i Hi%elem_of_hm_iter.
  pose proof (find_entry_None _ _ E _ _ Hi) as Hp. cbn in Hp.
  destruct (is_connected i); auto.
Qed.

Lemma is_connected_false i : is_connected i = false -> state i <> Some Connected.
Proof. unfold is_connected. by rewrite bool_decide_eq_false. Qed.

Lemma unidentified_merge old new :
  unidentified old -> unidentified new -> unidentified (merge_info old new).
Proof.
  intros (Hn & Ha) (Hn' & Ha'). unfold unidentified, merge_info. cbn.
  by rewrite Hn, Ha, Hn', Ha'.
Qed.

Lemma parentless_merge old new :
  parent_ingress old = None -> parent_ingress new = None ->
  parent_ingress (merge_info old new) = None.
Proof. intros Hp Hp'. unfold merge_info. cbn. by rewrite Hp, Hp'. Qed.

(** What [update_info] stores. *)
Definition stored_as (o : option IngressInfo) (i : IngressInfo) : IngressInfo :=
  match o with Some old => merge_info old i | None => i end.

Lemma stored_as_connected o i : state i = Some Connected -> state (stored_as o i) = Some Connected.
Proof. intros Hc. destruct o; cbn [stored_as]; [|done]. by rewrite merge_info_state, Hc. Qed.

(** Writing the state alone makes no entry claimable. *)
Lemma stored_as_state o v :
  (forall i0, o = Some i0 -> unclaimable i0) ->
  unclaimable (stored_as o (with_state v info_default)).
Proof.
  intros H. destruct o as [i0|]; [|by left].
  destruct (H i0 eq_refl) as [Hp|Hu]; [left|right]; cbn [stored_as].
  - by apply parentless_merge.
  - by apply unidentified_merge.
Qed.

Lemma reserved_not_held r h s id :
  world_inv (mk_world r h s) -> id ∈ s -> id ∉ h.
Proof. intros Hinv Hs Hh. by apply (inv_apart _ Hinv id). Qed.

(** A step that writes one entry. *)
Lemma world_inv_write r h s id i h' s' :
  world_inv (mk_world r h s) -> 1 <= id < serial r ->
  (forall k, k ∈ h' -> (k = id /\ state i = Some Connected) \/ (k <> id /\ k ∈ h)) ->
  (forall k, k ∈ s' -> (k = id /\ unclaimable i \/ k <> id) /\ k ∈ s) ->
  h' ## s' ->
  world_inv (mk_world (set_info (<[id := i]> (info r)) r) h' s').
Proof.
  intros [Hh Hs Hr Hap Hser] Hid Hk Hk' Hap'. cbn in *. split; cbn.
  - intros k [[-> ?]|[? ?]]%Hk.
    + rewrite lookup_insert_eq. eauto.
    + rewrite lookup_insert_ne by done. eauto.
  - intros k j. rewrite lookup_insert_Some. intros [[-> _]|[_ Hj]]; eauto.
  - intros k [Hc [Hb Hu]%Hr]%Hk'. split; [done|]. intros j.
    rewrite lookup_insert_Some. intros [[-> <-]|[? Hj]]; [|by eapply Hu].
    by destruct Hc as [[_ ?]|?].
  - done.
  - done.
Qed.

(** A step that removes an entry no session holds. *)
Lemma world_inv_delete r h s id h' s' :
  world_inv (mk_world r h s) ->
  (forall k, k ∈ h' -> k <> id /\ k ∈ h) -> s' ⊆ s ->
  world_inv (mk_world (set_info (delete id (info r)) r) h' s').
Proof.
  intros [Hh Hs Hr Hap Hser] Hk Hsub. cbn in *. split; cbn.
  - intros k [? ?]%Hk. rewrite lookup_delete_ne by done. eauto.
  - intros k j [_ Hj]%lookup_delete_Some. eauto.
  - intros k [Hb Hu]%Hsub%Hr. split; [done|]. intros j [_ Hj]%lookup_delete_Some. eauto.
  - intros k [_ Hkh]%Hk Hks. by apply (Hap k), Hsub.
  - done.
Qed.

Lemma world_inv_reserve r h s :
  world_inv (mk_world r h s) -> serial r < u32_max ->
  world_inv (mk_world (mk_register (wrap 32 (serial r + 1)) (info r)) h
               ({[serial r]} ∪ s)).
Proof.
  intros [Hh Hs Hr Hap Hser] Hlt. cbn in *.
  assert (wrap 32 (serial r + 1) = serial r + 1) as Hw.
  { unfold wrap. apply Z.mod_small. unfold u32_max in *. lia. }
  split; cbn; rewrite ?Hw.
  - eauto.
  - intros k j Hj%Hs. lia.
  - intros k [->%elem_of_singleton|[Hb Hu]%Hr]%elem_of_union.
    + split; [lia|]. intros j Hj%Hs. lia.
    + split; [lia|done].
  - intros k Hk [->%elem_of_singleton|Hks]%elem_of_union; [|by apply (Hap k)].
    destruct (Hh _ Hk) as (i & Hi%Hs & _). lia.
  - lia.
Qed.

Lemma world_inv_update r h s id i h' :
  world_inv (mk_world r h s) -> id ∈ h ->
  (forall i0, state i0 = Some Connected -> forall k, k ∈ h' ->
     (k = id /\ state (merge_info i0 i) = Some Connected)
     \/ (k <> id /\ k ∈ h)) ->
  world_inv (mk_world (snd (update_info id i r)) h' s).
Proof.
  intros Hinv Hin Hk. destruct (inv_held _ Hinv _ Hin) as (i0 & Hi0 & Hc).
  cbn in Hi0. rewrite update_info_spec, Hi0.
  eapply world_inv_write; eauto using inv_stored.
  - by eapply (inv_stored _ Hinv).
  - intros k Hks. split; [right|done]. intros ->.
    by eapply (reserved_not_held _ _ _ _ Hinv).
  - intros k Hkh Hks. apply (inv_apart _ Hinv k); [|done].
    by destruct (Hk _ Hc _ Hkh) as [[-> _]|[_ ?]].
Qed.

(** A step that writes the entry of a reserved id. *)
Lemma world_inv_reserved r h s id i h' s' :
  world_inv (mk_world r h s) -> id ∈ s ->
  (forall k, k ∈ h' -> (k = id /\ state i = Some Connected) \/ k ∈ h) ->
  (forall k, k ∈ s' -> (k = id /\ unclaimable (stored_as (info r !! id) i) \/ k <> id) /\ k ∈ s) ->
  h' ## s' ->
  world_inv (mk_world (snd (update_info id i r)) h' s').
Proof.
  intros Hinv Hin Hh Hs Hap. pose proof (reserved_not_held _ _ _ _ Hinv Hin) as Hnh.
  destruct (inv_reserved _ Hinv _ Hin) as [Hb _]. cbn in Hb.
  rewrite update_info_spec. eapply world_inv_write; [done|done| |done|done].
  intros k [[-> Hc]|Hk]%Hh; [left|right; set_solver].
  split; [done|]. by apply (stored_as_connected (info r !! id)).
Qed.

(** A step that writes it and leaves everybody what they have. *)
Lemma world_inv_kept r h s id i :
  world_inv (mk_world r h s) -> id ∈ s ->
  (forall i0, info r !! id = Some i0 -> unclaimable (merge_info i0 i)) -> unclaimable i ->
  world_inv (mk_world (snd (update_info id i r)) h s).
Proof.
  intros Hinv Hin Hold Hi. eapply world_inv_reserved; [done|done|by right| |apply (inv_apart _ Hinv)].
  intros k Hk. split; [|done]. destruct (decide (k = id)); [left|by right].
  split; [done|]. destruct (info r !! id) eqn:E; cbn [stored_as]; auto.
Qed.

Lemma world_inv_gc r h s id :
  world_inv (mk_world r h s) ->
  world_inv (mk_world (snd (remove_if_disconnected id r)) h s).
Proof.
  intros Hinv. unfold remove_if_disconnected.
  destruct (info r !! id) as [i0|] eqn:Hi0; [|done].
  case_bool_decide as Hd; [|done].
  eapply world_inv_delete; eauto. intros k Hk. split; [|done].
  intros ->. destruct (inv_held _ Hinv _ Hk) as (i1 & ? & ?).
  cbn in *. congruence.
Qed.

Lemma reg_step_inv w w' : reg_step w w' -> world_inv w -> world_inv w'.
Proof.
  intros Hstep Hinv. pose proof (inv_apart _ Hinv) as Hap.
  destruct Hstep as
    [r h s m id i r' Hm E|r h s m r' E|r h s id r' Hlt E|r h s id i o r' Hin Hst E
    |r h s id i o r' Hin Hun Hold E|r h s id o r' Hin E|r h s id o r' Hin E
    |r h s id i o r' Hin Hst E|r h s id o r' Hin E|r h s id o r' Hin E
    |r h s id o r' E]; cbn in Hap.
  - apply claim_Some in E as (i0 & Hi0 & _ & Hmi & -> & ->).
    assert (id ∉ s) as Hns.
    { intros [_ Hu]%(inv_reserved _ Hinv). by rewrite (Hm _ (Hu _ Hi0)) in Hmi. }
    eapply world_inv_write; [done|by eapply (inv_stored _ Hinv)|..|set_solver].
    + intros k Hk. destruct (decide (k = id)); set_solver.
    + intros k Hk. split; [right|done]. by intros ->.
  - by apply claim_None in E as [-> _].
  - injection E as <- <-. by apply world_inv_reserve.
  - snd_eq E. eapply world_inv_reserved; [done..|set_solver|set_solver|set_solver].
  - snd_eq E. apply world_inv_kept; [done..| |by right].
    intros i0 Hi0. right. apply unidentified_merge; eauto.
  - snd_eq E. eapply world_inv_reserved; [done..|set_solver|set_solver|set_solver].
  - injection E as _ <-. eapply world_inv_delete; [done| |set_solver].
    intros k Hk. split; [|done]. intros ->. by eapply (reserved_not_held _ _ _ _ Hinv).
  - snd_eq E. eapply world_inv_update; eauto.
    intros i0 Hc k Hk. rewrite merge_info_state, Hc.
    destruct (decide (k = id)); [left|by right].
    by destruct Hst as [->| ->].
  - snd_eq E. eapply world_inv_update; eauto. set_solver.
  - injection E as _ <-. eapply world_inv_delete; [done|set_solver|done].
  - snd_eq E. by apply world_inv_gc.
Qed.

(** [Connected] under any id that was handed out. *)
Lemma world_inv_mark r h s id :
  world_inv (mk_world r h s) -> 1 <= id < serial r ->
  world_inv (mk_world (snd (update_info id (with_state Connected info_default) r)) h s).
Proof.
  intros Hinv Hid. rewrite update_info_spec.
  eapply world_inv_write; [done|done|..|apply (inv_apart _ Hinv)].
  - intros k Hk. destruct (decide (k = id)); [left|by right]. split; [done|].
    by apply (stored_as_connected (info r !! id)).
  - intros k Hk. split; [|done]. destruct (decide (k = id)) as [->|]; [left|by right].
    split; [done|]. apply (stored_as_state (info r !! id)). by apply (inv_reserved _ Hinv id).
Qed.

Lemma reg_use_inv w w' : reg_use w w' -> world_inv w -> world_inv w'.
Proof.
  intros [w1 w1' Hs|r h s id o r' Hid E|r h s id i o r' Hin Hp Hold E|r h s id o r' Hin E
    |r h s id i o r' Hin E] Hinv; pose proof (inv_apart _ Hinv) as Hap; cbn in Hap.
  - by eapply reg_step_inv.
  - snd_eq E. by apply world_inv_mark.
  - snd_eq E. apply world_inv_kept; [done..| |by left].
    intros i0 Hi0. left. apply parentless_merge; eauto.
  - injection E as _ <-. eapply world_inv_delete; [done| |done].
    intros k Hk. split; [|done]. intros ->. by eapply (reserved_not_held _ _ _ _ Hinv).
  - snd_eq E. eapply world_inv_reserved; [done|done|set_solver|set_solver|set_solver].
Qed.

(** The two claims of the code never pass over an entry that identifies
    nobody. *)
Lemma peer_query_identifies q : identifies (fun i => peer_matches i q).
Proof.
  intros i Hi. unfold peer_matches, mandatory. destruct Hi as [Hp|(_ & Ha)].
  - by rewrite Hp.
  - rewrite Ha. by rewrite andb_false_r.
Qed.

Lemma router_query_identifies q :
  is_Some (name q) -> identifies (fun i => bmp_router_matches i q).
Proof.
  intros [n Hq] i Hi. unfold bmp_router_matches, mandatory, optional.
  destruct Hi as [Hp|(Hn & _)].
  - by rewrite Hp.
  - rewrite Hn, Hq. by rewrite andb_false_r.
Qed.

Lemma claim_unowned m w id i r' :
  world_inv w -> identifies m -> claim m (w_reg w) = (Some (id, i), r') ->
  id ∉ held w /\ id ∉ reserved w.
Proof.
  intros Hinv Hm (i0 & Hi0 & Hc%is_connected_false & Hmi & _)%claim_Some. split.
  - intros (i1 & Hi1 & ?)%(inv_held _ Hinv). congruence.
  - intros [_ Hu]%(inv_reserved _ Hinv). rewrite (Hm _ (Hu _ Hi0)) in Hmi. done.
Qed.

Lemma reachable_inv w : reachable w -> world_inv w.
Proof.
  induction 1 as [|w w' _ IH Hs].
  - split; cbn; unfold u32_max; try set_solver. lia.
  - eauto using reg_use_inv.
Qed.

Lemma elem_of_search f r id i :
  (id, i) ∈ search f r <-> info r !! id = Some i /\ qf_filter f i = true.
Proof.
  unfold search. rewrite list_elem_of_filter, elem_of_hm_iter. cbn. tauto.
Qed.

Lemma search_NoDup f r : NoDup (fst <$> search f r).
Proof.
  unfold search. pose proof (hm_iter_NoDup (info r)) as Hnd.
  induction (hm_iter (info r)) as [|e l IH]; [done|].
  cbn in Hnd. apply NoDup_cons in Hnd as [Hn Hnd].
  rewrite filter_cons. case_decide; [|auto].
  cbn. apply NoDup_cons. split; [|auto].
  contradict Hn. apply list_elem_of_fmap in Hn as (x & -> & Hx).
  apply list_elem_of_filter in Hx as [_ Hx]. by apply list_elem_of_fmap_2.
Qed.

Lemma summary_fold l s :
  let s' := foldl (fun s (e : Z * IngressInfo) => summary_add s (snd e)) s l in
  total s' = total s
  /\ connected s' + disconnected s' + non_network s' + state_unset s'
     = connected s + disconnected s + non_network s + state_unset s + zlen l
  /\ bgp_via_bmp s'
     = bgp_via_bmp s
       + zlen (filter (fun e : Z * IngressInfo =>
                         ingress_type (snd e) = Some BgpViaBmp) l).
Proof.
  revert s. induction l as [|[id i] l IH]; intros s; cbn [foldl snd].
  - rewrite filter_nil, !zlen_nil. lia.
  - cbv zeta in *. destruct (IH (summary_add s i)) as (-> & -> & ->).
    rewrite filter_cons, zlen_cons. cbn [snd]. unfold summary_add.
    destruct (state i) as [[]|]; case_bool_decide as Hd; cbn;
      rewrite ?(decide_True _ _ Hd), ?(decide_False _ _ Hd), ?zlen_cons; lia.
Qed.

End IterLemmas.

(** ** Properties *)

(** C9: in every interleaving of claims, fresh registrations, provisional
    entries, refreshes, disconnects, removals and GC sweeps, of the writes of
    [Connected] that a RIB makes under any id, of the entries without a parent
    that BGP sessions write and remove under ids they never claim and of the
    peers that an MRT unit stores, a claim of a peer or of a named router never
    returns an id that a live session holds, nor one that was handed out to
    somebody who is not known yet or never claims, and [register] returns an id
    nobody holds and no entry is stored under: two sessions that claim never
    share a mui. *)
Theorem claim_exclusive `{HI : !HashIter Z IngressInfo} w :
  reachable w ->
  (forall q id i r',
     find_existing_peer_and_claim q (w_reg w) = (Some (id, i), r')
     \/ is_Some (name q)
        /\ find_existing_bmp_router_and_claim q (w_reg w) = (Some (id, i), r') ->
     id ∉ held w /\ id ∉ reserved w)
  /\ (forall id r', register (w_reg w) = (id, r') ->
     id ∉ held w /\ id ∉ reserved w /\ get id (w_reg w) = None).
Proof.
  intros Hinv%reachable_inv. split.
  - intros q id i r' [E|[Hq E]].
    + by eapply claim_unowned; [| |exact E]; [|apply peer_query_identifies].
    + by eapply claim_unowned; [| |exact E]; [|apply router_query_identifies].
  - destruct Hinv as [Hh Hs Hr _ Hser]. intros id r' [= <- _]. unfold get. repeat split.
    + intros (i1 & Hi1%Hs & ?)%Hh. lia.
    + intros [? _]%Hr. lia.
    + destruct (info (w_reg w) !! serial (w_reg w)) eqn:E; [|done].
      apply Hs in E. lia.
Qed.

Lemma claim_exclusive_witness :
  exists w, reachable (HI := list_order Z IngressInfo) w
    /\ 1 ∈ held w
    /\ (forall q id i r',
          find_existing_peer_and_claim (HI := list_order Z IngressInfo) q (w_reg w)
            = (Some (id, i), r') -> id ∉ held w).
Proof.
  pose (HI := list_order Z IngressInfo).
  set (i := with_state Connected info_default).
  set (w := mk_world (mk_register 2 {[1 := i]}) ({[1]} ∪ ∅) (({[1]} ∪ ∅) ∖ {[1]})).
  assert (reachable (HI := HI) w) as Hw.
  { eapply (reach_step (mk_world (mk_register 2 ∅) ∅ ({[1]} ∪ ∅))).
    - eapply (reach_step (mk_world register_new ∅ ∅)); [constructor|].
      by apply use_session, step_reserve.
    - by apply use_session, (step_publish (mk_register 2 ∅) ∅ ({[1]} ∪ ∅) 1 i None);
        [set_solver|..]. }
  exists w. split; [done|]. split; [set_solver|].
  intros q id i' r' H.
  exact (proj1 (proj1 (claim_exclusive (HI := HI) w Hw) _ _ _ _ (or_introl H))).
Defined.

(** What a claim does on every branch. It finds an entry exactly when some
    stored entry is not [Connected] and matches; the entry it returns is the
    stored one with its state flipped to [Connected], the register then holds
    it in that form and is otherwise unchanged; when there is none the register
    is unchanged. A second claim never returns the same id. *)
Theorem claim_spec `{HI : !HashIter Z IngressInfo} m r :
  match claim m r with
  | (Some (id, i), r') =>
      (exists i0, get id r = Some i0 /\ state i0 <> Some Connected
         /\ m i0 = true /\ i = with_state Connected i0)
      /\ get id r' = Some i
      /\ (forall k, k <> id -> get k r' = get k r)
      /\ serial r' = serial r
      /\ (forall m2 k j r2, claim m2 r' = (Some (k, j), r2) -> k <> id)
  | (None, r') =>
      r' = r
      /\ forall id i, get id r = Some i -> state i = Some Connected \/ m i = false
  end.
Proof.
  destruct (claim m r) as [[[id i]|] r'] eqn:E.
  - apply claim_Some in E as (i0 & Hi0 & Hc & Hm & -> & ->). unfold get. cbn.
    repeat split.
    + eauto 10 using is_connected_false.
    + by rewrite lookup_insert_eq.
    + intros k Hk. by rewrite lookup_insert_ne.
    + intros m2 k j r2 (i1 & Hi1 & Hc1%is_connected_false & _)%claim_Some ->.
      cbn in Hi1. rewrite lookup_insert_eq in Hi1. simplify_eq; by apply Hc1.
  - apply claim_None in E as [-> Hn]. split; [done|].
    intros id i [H|H]%Hn; [left|by right].
    by apply bool_decide_eq_true in H.
Qed.

(** [update_info] merges: the entry then holds, in every field, the new
    value when one is set and the old one otherwise (the whole new info for an
    absent id), no other entry and no id allocation changes, and applying the
    same update again changes nothing. It always returns [None], although its
    comments say that it returns the replaced info. *)
Theorem update_info_merges id new r :
  let r' := snd (update_info id new r) in
  get id r' = Some (match get id r with
                    | Some old => merge_info old new
                    | None => new
                    end)
  /\ (forall k, k <> id -> get k r' = get k r)
  /\ serial r' = serial r
  /\ snd (update_info id new r') = r'
  /\ fst (update_info id new r) = None.
Proof.
  rewrite !update_info_spec. unfold get. cbn. rewrite lookup_insert_eq.
  repeat split.
  - intros k Hk. by rewrite lookup_insert_ne.
  - rewrite update_info_spec. unfold set_info. cbn.
    rewrite lookup_insert_eq, insert_insert_eq. repeat f_equal.
    destruct (info r !! id); auto using merge_info_idemp, merge_info_self.
Qed.

(** The GC's reclaim step removes an entry exactly when it is stored and
    [Disconnected]; a [Connected] entry (a peer that reconnected since the
    sweep's snapshot), one in another state, and every other id stay. *)
Theorem remove_if_disconnected_safe id r :
  let '(removed, r') := remove_if_disconnected id r in
  (removed = (match get id r with
              | Some i => if bool_decide (state i = Some Disconnected)
                          then Some i else None
              | None => None
              end))
  /\ (get id r' = match removed with Some _ => None | None => get id r end)
  /\ (forall k, k <> id -> get k r' = get k r)
  /\ (forall k i, get k r = Some i -> state i = Some Connected ->
       get k r' = Some i).
Proof.
  unfold remove_if_disconnected, get.
  destruct (info r !! id) as [i|] eqn:E; [case_bool_decide as Hd|]; cbn;
    repeat split; rewrite ?lookup_delete_eq; try done.
  - intros k Hk. by rewrite lookup_delete_ne.
  - intros k i' Hi' Hc. rewrite lookup_delete_ne; [done|]. congruence.
Qed.

(** [search] returns exactly the stored entries that pass the filter, each
    once, whatever the iteration order. *)
Theorem search_exact `{HI : !HashIter Z IngressInfo} f r :
  NoDup (fst <$> search f r)
  /\ (forall id i, (id, i) ∈ search f r
        <-> get id r = Some i
            /\ (qf_remote_addr f = None \/ qf_remote_addr f = remote_addr i)
            /\ (qf_remote_asn f = None \/ qf_remote_asn f = remote_asn i)
            /\ (qf_ingress_type f = None \/ qf_ingress_type f = ingress_type i)
            /\ (qf_ingress_state f = None \/ qf_ingress_state f = state i)
            /\ (qf_rib_type f = None \/ qf_rib_type f = peer_rib_type i)).
Proof.
  split; [apply search_NoDup|]. intros id i. rewrite elem_of_search.
  unfold get. apply and_iff_compat_l.
  rewrite <- !excludes_false. unfold qf_filter.
  repeat (case_bool; [naive_solver|]). naive_solver.
Qed.

(** The memory summary is a partition: the four state counts add up to the
    number of entries, and the [BgpViaBmp] count is the number of such entries. *)
Theorem memory_summary_partition `{HI : !HashIter Z IngressInfo} r :
  let s := memory_summary r in
  total s = Z.of_nat (size (info r))
  /\ connected s + disconnected s + non_network s + state_unset s = total s
  /\ bgp_via_bmp s
     = zlen (search (mk_filter (Some BgpViaBmp) None None None None) r).
Proof.
  unfold memory_summary. destruct (summary_fold (hm_iter (info r))
    (mk_summary (Z.of_nat (size (info r))) 0 0 0 0 0)) as (-> & -> & ->).
  cbn. split; [done|]. split.
  - unfold zlen. by rewrite hm_iter_perm, length_map_to_list.
  - rewrite Z.add_0_l. f_equal. unfold search. apply list_filter_iff.
    intros [id i]. cbn. unfold qf_filter. cbn.
    destruct (bool_decide_reflect (Some BgpViaBmp = ingress_type i));
      naive_solver.
Qed.

(** ** Instances of the properties that depend on the hash table's order *)
Module RegisterDemo.

Definition down_entry : IngressInfo :=
  with_state Disconnected (with_ingress_type BgpViaBmp (with_remote_asn 65001 info_default)).

Definition up_entry : IngressInfo :=
  with_state Connected (with_ingress_type BgpViaBmp (with_remote_asn 65002 info_default)).

Definition reg : Register := mk_register 3 {[1 := down_entry; 2 := up_entry]}.

End RegisterDemo.

Lemma claim_spec_witness :
  let r' := snd (claim (HI := list_order _ _) (fun _ => true) RegisterDemo.reg) in
  get 1 r' = Some (with_state Connected RegisterDemo.down_entry)
  /\ get 2 r' = Some RegisterDemo.up_entry.
Proof.
  pose proof (claim_spec (HI := list_order _ _) (fun _ => true) RegisterDemo.reg) as H.
  destruct (claim _ _) as [o r'] eqn:E. vm_compute in E. simplify_eq.
  destruct H as (_ & H1 & H2 & _). cbv zeta. cbn [snd].
  split; [exact H1|]. exact (H2 2 ltac:(lia)).
Defined.

Lemma search_exact_witness :
  (1, RegisterDemo.down_entry)
    ∈ search (HI := list_order _ _) (mk_filter None (Some Disconnected) None None None)
        RegisterDemo.reg
  /\ (2, RegisterDemo.up_entry)
       ∉ search (HI := list_order _ _) (mk_filter None (Some Disconnected) None None None)
           RegisterDemo.reg.
Proof.
  destruct (search_exact (HI := list_order _ _) (mk_filter None (Some Disconnected) None None None)
              RegisterDemo.reg) as [_ H].
  split; [|intros Hin].
  - apply H. cbn. naive_solver.
  - apply H in Hin. cbn in Hin. naive_solver.
Defined.

Lemma memory_summary_partition_witness :
  let s := memory_summary (HI := list_order _ _) RegisterDemo.reg in
  total s = 2 /\ connected s + disconnected s + non_network s + state_unset s = 2.
Proof.
  destruct (memory_summary_partition (HI := list_order _ _) RegisterDemo.reg) as (H1 & H2 & _).
  cbv zeta. split; [exact H1|]. rewrite H1 in H2. exact H2.
Defined.
