(* ===== verification/Payload.v ===== *)
(** * The data that flows through the gates ([src/payload.rs],
    [src/units/rib_unit/rpki.rs])

    [RotondaPaMap] (the raw path attributes of a route with their two prefix
    bytes), [RotondaRoute], [Payload], [Update] and its memory accounting, the
    RPKI byte, and [RtrCache::check_rov]. *)

From S2P Require Import Prelude Net Register.
From Stdlib Require Import ZArith Lia.
From stdpp Require Import base numbers list gmap strings.

Local Open Scope Z_scope.

(** ** RPKI information of a route *)
Inductive RovStatus : Type := NotChecked | NotFound | Valid | Invalid.

#[export] Instance RovStatus_eq_dec : EqDecision RovStatus.
Proof. solve_decision. Defined.

Record RpkiInfo : Type := mk_rpki { rov : RovStatus }.

(** [impl From<u8> for RpkiInfo]. *)
Definition rpki_from_u8 (value : Z) : RpkiInfo :=
  mk_rpki (if value =? 1 then NotFound
           else if value =? 2 then Valid
           else if value =? 4 then Invalid
           else NotChecked).

(** [impl From<RpkiInfo> for u8]. *)
Definition rpki_to_u8 (i : RpkiInfo) : Z :=
  match rov i with
  | NotChecked => 0 | NotFound => 1 | Valid => 2 | Invalid => 4
  end.

Definition rpki_default : RpkiInfo := mk_rpki NotChecked.

(** ** Path attributes *)

(** [routecore]'s [PduParseInfo]: whether AS numbers take four octets. *)
Inductive PduParseInfo : Type := modern | legacy.

Definition four_octet_enabled (ppi : PduParseInfo) : bool :=
  match ppi with modern => true | legacy => false end.

(** [routecore]'s [OwnedPathAttributes]: a blob and how to parse it. *)
Record OwnedPathAttributes : Type := mk_opa {
  pdu_parse_info : PduParseInfo;
  into_vec : list Z
}.

Definition ppi_to_byte (ppi : PduParseInfo) : Z :=
  match four_octet_enabled ppi with true => 1 | false => 0 end.

Definition byte_to_ppi (byte : Z) : PduParseInfo :=
  if byte =? 1 then modern else legacy.

(** [raw[0]] is the RPKI byte, [raw[1]] the parse info, [raw[2..]] the path
    attributes. *)
Record RotondaPaMap : Type := mk_pamap { raw : list Z }.

Definition pamap_default : RotondaPaMap := mk_pamap [].

Definition pamap_new (pa : OwnedPathAttributes) : RotondaPaMap :=
  mk_pamap ([rpki_to_u8 rpki_default] ++ [ppi_to_byte (pdu_parse_info pa)]
            ++ into_vec pa).

Definition empty_path_attributes : RotondaPaMap := pamap_new (mk_opa modern []).

(** [impl From<Vec<u8>> for RotondaPaMap]. *)
Definition pamap_from_vec (v : list Z) : RotondaPaMap :=
  pamap_new (mk_opa modern v).

(** Indexing a slice: [None] is the panic. *)
Definition set_rpki_info (i : RpkiInfo) (p : RotondaPaMap)
  : option RotondaPaMap :=
  match raw p with
  | [] => None
  | _ :: rest => Some (mk_pamap (rpki_to_u8 i :: rest))
  end.

Definition rpki_info (p : RotondaPaMap) : option RpkiInfo :=
  rpki_from_u8 <$> raw p !! 0%nat.

Definition path_attributes (p : RotondaPaMap) : option OwnedPathAttributes :=
  match raw p with
  | _ :: b :: rest => Some (mk_opa (byte_to_ppi b) rest)
  | _ => None
  end.

(** [raw.get(2..).unwrap_or(&[])]. *)
Definition pa_blob (r : list Z) : list Z := drop 2 r.

(** ** Routes, payloads and updates *)

(** [rotonda_store]'s [RouteStatus]. *)
Inductive RouteStatus : Type := Active | InActive | Withdrawn.

#[export] Instance RouteStatus_eq_dec : EqDecision RouteStatus.
Proof. solve_decision. Defined.

Section Routes.
Context `{E : Extern}.

(** The NLRI types of [routecore] are known by the prefix they carry. *)
Inductive RotondaRoute : Type :=
| RR_Ipv4Unicast (nlri : Prefix) (pamap : RotondaPaMap)
| RR_Ipv6Unicast (nlri : Prefix) (pamap : RotondaPaMap)
| RR_Ipv4Multicast (nlri : Prefix) (pamap : RotondaPaMap)
| RR_Ipv6Multicast (nlri : Prefix) (pamap : RotondaPaMap).

Definition rotonda_pamap (r : RotondaRoute) : RotondaPaMap :=
  match r with
  | RR_Ipv4Unicast _ p | RR_Ipv6Unicast _ p
  | RR_Ipv4Multicast _ p | RR_Ipv6Multicast _ p => p
  end.

Record Payload : Type := mk_payload {
  rx_value : RotondaRoute;
  trace_id : option Z;
  received : Z;
  ingress_id : IngressId;
  route_status : RouteStatus
}.

(** [Payload::with_received]. *)
Definition with_received (rx : RotondaRoute) (t : option Z)
    (now id : Z) (s : RouteStatus) : Payload :=
  mk_payload rx t now id s.

(** ** The messages of Roto scripts ([src/roto_runtime/types.rs]) *)
Record LogEntry : Type := mk_log_entry {
  le_timestamp : Z;
  origin_as : option Asn;
  peer_as : option Asn;
  as_path_hops : option Z;
  conventional_reach : Z;
  conventional_unreach : Z;
  mp_reach : option Z;
  mp_reach_afisafi : option AfiSafiType;
  mp_unreach : option Z;
  mp_unreach_afisafi : option AfiSafiType;
  le_custom : option rstring
}.

Inductive Output : Type :=
| O_Community (c : Z)
| O_Asn (a : Asn)
| O_Origin (a : Asn)
| O_PeerDown
| O_Prefix (p : Prefix)
| O_Custom (id local : Z)
| O_Entry (e : LogEntry).

Inductive OutputStreamMessageRecord : Type :=
| OR_Route (r : option RotondaRoute)
| OR_Peerdown (ip : IpAddr) (a : Asn)
| OR_Custom (id value : Z)
| OR_Entry (e : LogEntry).

Record OutputStreamMessage : Type := mk_osm {
  osm_name : rstring;
  osm_topic : rstring;
  osm_record : OutputStreamMessageRecord;
  osm_ingress_id : option IngressId
}.

Definition MQTT_NAME : rstring := str "mqtt".

Definition osm_prefix (r : option RotondaRoute) (id : option IngressId) :=
  mk_osm MQTT_NAME (str "prefix") (OR_Route r) id.
Definition osm_community (r : option RotondaRoute) (id : option IngressId) :=
  mk_osm MQTT_NAME (str "community") (OR_Route r) id.
Definition osm_asn (r : option RotondaRoute) (id : option IngressId) :=
  mk_osm MQTT_NAME (str "asn") (OR_Route r) id.
Definition osm_origin (r : option RotondaRoute) (id : option IngressId) :=
  mk_osm MQTT_NAME (str "origin") (OR_Route r) id.
Definition osm_peer_down (name topic : rstring) (ip : IpAddr) (a : Asn)
    (id : option IngressId) :=
  mk_osm name topic (OR_Peerdown ip a) id.
Definition osm_custom (id value : Z) (iid : option IngressId) :=
  mk_osm MQTT_NAME (str "custom") (OR_Custom id value) iid.
Definition osm_entry (e : LogEntry) (id : option IngressId) :=
  mk_osm MQTT_NAME (str "log_entry") (OR_Entry e) id.

End Routes.

(** ** RPKI-to-Router data *)

(** [rpki::rtr]: a validated route origin; the router keys and ASPA records are
    kept and compared, never looked into. *)
Inductive RtrAction : Type := RtrAnnounce | RtrWithdraw.

#[export] Instance RtrAction_eq_dec : EqDecision RtrAction.
Proof. solve_decision. Defined.

Record RouteOrigin : Type := mk_route_origin {
  ro_addr : IpAddr; ro_len : Z; ro_max_len : option Z; ro_asn : Asn
}.

#[export] Instance RouteOrigin_eq_dec : EqDecision RouteOrigin.
Proof. solve_decision. Defined.

(** [MaxLenPrefix::resolved_max_len]. *)
Definition resolved_max_len (o : RouteOrigin) : Z := default (ro_len o) (ro_max_len o).

(** The types of [rpki] that no modelled code looks into, and the sizes that
    [std::mem::size_of] yields on the build's platform. *)
Class Layout := {
  RouterKey : Type;
  Aspa : Type;
  RouterKey_eq_dec :: EqDecision RouterKey;
  Aspa_eq_dec :: EqDecision Aspa;
  size_of_update : Z;
  size_of_payload : Z;
  size_of_withdraw_entry : Z;
  size_of_osm : Z;
  size_of_update_pos : 0 < size_of_update;
  size_of_payload_nonneg : 0 <= size_of_payload;
  size_of_withdraw_entry_nonneg : 0 <= size_of_withdraw_entry;
  size_of_osm_nonneg : 0 <= size_of_osm
}.

(** The sizes on a 64-bit build, for examples. *)
Definition demo_layout : Layout := {|
  RouterKey := unit;
  Aspa := unit;
  RouterKey_eq_dec := _;
  Aspa_eq_dec := _;
  size_of_update := 96;
  size_of_payload := 88;
  size_of_withdraw_entry := 312;
  size_of_osm := 128;
  size_of_update_pos := eq_refl;
  size_of_payload_nonneg := ltac:(by cbn);
  size_of_withdraw_entry_nonneg := ltac:(by cbn);
  size_of_osm_nonneg := ltac:(by cbn)
|}.

Section Rtr.
Context `{L : Layout}.

Inductive RtrPayload : Type :=
| RP_Origin (o : RouteOrigin)
| RP_RouterKey (k : RouterKey)
| RP_Aspa (a : Aspa).

(** [RtrVerbs]. *)
Definition RtrVerbs : Type := list (RtrAction * RtrPayload).

Inductive RtrUpdate : Type := RtrFull (verbs : RtrVerbs) | RtrDelta (verbs : RtrVerbs).

End Rtr.

Section Updates.
Context `{E : Extern} `{L : Layout}.

Inductive Update : Type :=
| Single (p : Payload)
| Bulk (ps : list Payload)
| Withdraw (id : IngressId) (afisafi : option AfiSafiType)
| WithdrawBulk (entries : list (IngressId * option IngressInfo))
| IngressReappeared (id : IngressId)
| EndOfStream (id : IngressId)
| OutputStream (msgs : list OutputStreamMessage)
| UpdateRtr (u : RtrUpdate)
| PeerStats (id : IngressId) (body : list Z).

Definition trace_ids (u : Update) : list Payload :=
  match u with
  | Single p => match trace_id p with Some _ => [p] | None => [] end
  | Bulk ps => filter (fun p => is_Some (trace_id p)) ps
  | _ => []
  end.

Definition shallow_bytes (u : Update) : Z :=
  let base := size_of_update in
  match u with
  | Single _ => base
  | Bulk payloads => base + zlen payloads * size_of_payload
  | Withdraw _ _ => base
  | WithdrawBulk items => base + zlen items * size_of_withdraw_entry
  | IngressReappeared _ => base
  | EndOfStream _ => base
  | OutputStream msgs => base + zlen msgs * size_of_osm
  | UpdateRtr _ => base
  | PeerStats _ _ => base
  end.

End Updates.

(** ** Route origin validation: [RtrCache::check_rov] *)

(** A record of the VRP store: the origin AS it is stored under and the maximum
    lengths of its VRPs; an emptied list stays behind when VRPs go. *)
Record VrpRecord : Type := mk_vrp { multi_uniq_id : Z; maxlens : list Z }.

(** What [match_prefix] returned. *)
Record VrpMatch : Type := mk_match {
  records : list VrpRecord;
  less_specifics : option (list (list VrpRecord))
}.

(** The inner loop over the maximum lengths of one record: whether the outer
    loop is left with [valid]. *)
Fixpoint rov_maxlens (plen origin mui : Z) (ms : list Z) : bool :=
  match ms with
  | [] => false
  | m :: ms' =>
      if (plen <=? m) && (mui =? origin) then true
      else rov_maxlens plen origin mui ms'
  end.

(** The loop over records: the flags [(covered, valid)]. *)
Fixpoint rov_records (plen origin : Z) (covered : bool) (rs : list VrpRecord)
  : bool * bool :=
  match rs with
  | [] => (covered, false)
  | r :: rs' =>
      let covered := covered || negb (bool_decide (maxlens r = [])) in
      if rov_maxlens plen origin (multi_uniq_id r) (maxlens r)
      then (covered, true)
      else rov_records plen origin covered rs'
  end.

(** The second loop, over the records of each less specific prefix. *)
Fixpoint rov_less (plen origin : Z) (covered : bool)
    (ls : list (list VrpRecord)) : bool * bool :=
  match ls with
  | [] => (covered, false)
  | l :: ls' =>
      let '(covered, valid) := rov_records plen origin covered l in
      if valid then (covered, true) else rov_less plen origin covered ls'
  end.

(** [None] is the [unreachable!()] arm; a failed lookup is [NotChecked]. *)
Definition check_rov (plen origin : Z) (res : option VrpMatch)
  : option RovStatus :=
  match res with
  | None => Some NotChecked
  | Some res =>
      let '(covered, valid) := rov_records plen origin false (records res) in
      let '(covered, valid) :=
        if valid then (covered, valid)
        else match less_specifics res with
             | Some ls => rov_less plen origin covered ls
             | None => (covered, valid)
             end in
      match covered, valid with
      | true, true => Some Valid
      | true, false => Some Invalid
      | false, true => None
      | false, false => Some NotFound
      end
  end.

(** *** The specification: RFC 6811 over the VRPs that the match returned *)

(** Every record that covers the prefix. *)
Definition covering (res : VrpMatch) : list VrpRecord :=
  records res ++ concat (default [] (less_specifics res)).

Definition vrp_covers (res : VrpMatch) : Prop :=
  exists r m, r ∈ covering res /\ m ∈ maxlens r.

Definition vrp_matches (plen origin : Z) (res : VrpMatch) : Prop :=
  exists r m, r ∈ covering res /\ m ∈ maxlens r
    /\ plen <= m /\ multi_uniq_id r = origin.

(** The same two predicates over one group of records. *)
Definition rec_covers (rs : list VrpRecord) : Prop :=
  exists r m, r ∈ rs /\ m ∈ maxlens r.

Definition rec_matches (plen origin : Z) (rs : list VrpRecord) : Prop :=
  exists r m, r ∈ rs /\ m ∈ maxlens r
    /\ plen <= m /\ multi_uniq_id r = origin.

Definition less_records (res : VrpMatch) : list VrpRecord :=
  concat (default [] (less_specifics res)).

(** ** Lemmas *)

Lemma rec_covers_app a b :
  rec_covers (a ++ b) <-> rec_covers a \/ rec_covers b.
Proof.
  unfold rec_covers. split.
  - intros (r & m & [H|H]%elem_of_app & Hm); [left|right]; by exists r, m.
  - intros [(r & m & H & Hm)|(r & m & H & Hm)]; exists r, m;
      rewrite elem_of_app; auto.
Qed.

Lemma rec_matches_app plen origin a b :
  rec_matches plen origin (a ++ b)
  <-> rec_matches plen origin a \/ rec_matches plen origin b.
Proof.
  unfold rec_matches. split.
  - intros (r & m & [H|H]%elem_of_app & Hm); [left|right]; by exists r, m.
  - intros [(r & m & H & Hm)|(r & m & H & Hm)]; exists r, m;
      rewrite elem_of_app; auto.
Qed.

Lemma rec_matches_covers plen origin rs :
  rec_matches plen origin rs -> rec_covers rs.
Proof. intros (r & m & ? & ? & _). by exists r, m. Qed.

Lemma rec_covers_nil : rec_covers [] <-> False.
Proof. split; [|done]. by intros (r & m & H%not_elem_of_nil & _). Qed.

Lemma rec_matches_nil plen origin : rec_matches plen origin [] <-> False.
Proof. split; [|done]. by intros (r & m & H%not_elem_of_nil & _). Qed.

Lemma rec_covers_one r : rec_covers [r] <-> exists m, m ∈ maxlens r.
Proof.
  split.
  - intros (r' & m & ->%list_elem_of_singleton & Hm). eauto.
  - intros [m Hm]. exists r, m. split; [left | done].
Qed.

Lemma rec_matches_one plen origin r :
  rec_matches plen origin [r]
  <-> rov_maxlens plen origin (multi_uniq_id r) (maxlens r) = true.
Proof.
  split.
  - intros (r' & m & ->%list_elem_of_singleton & Hm & Hle & Ho).
    induction (maxlens r) as [|m0 ms IH]; cbn; [by apply not_elem_of_nil in Hm|].
    apply elem_of_cons in Hm as [->|Hm].
    + by rewrite (proj2 (Z.leb_le _ _) Hle), Ho, Z.eqb_refl.
    + case_bool; auto.
  - intros H. enough (exists m, m ∈ maxlens r /\ plen <= m
                        /\ multi_uniq_id r = origin) as (m & Hm).
    { exists r, m. split; [left | done]. }
    induction (maxlens r) as [|m0 ms IH]; cbn in H; [done|].
    case_bool.
    + zify_bools. exists m0. split; [left | done].
    + destruct (IH H) as (m & ? & ?). exists m. split; [by right | done].
Qed.

Lemma covered_step cov (r : VrpRecord) :
  cov || negb (bool_decide (maxlens r = [])) = true
  <-> cov = true \/ rec_covers [r].
Proof.
  rewrite orb_true_iff, negb_true_iff, bool_decide_eq_false, rec_covers_one.
  destruct (maxlens r) as [|m ms].
  - split; [|intros [?|[m Hm%not_elem_of_nil]]; by auto]. by intros [?|?]; auto.
  - split; [|auto]. intros [?|_]; [by left|right]. exists m. left.
Qed.

(** What the flags of one loop mean, from the value of [covered] before it. *)
Definition flags_ok (plen origin : Z) (cov : bool) (rs : list VrpRecord)
    (f : bool * bool) : Prop :=
  (snd f = true <-> rec_matches plen origin rs)
  /\ (snd f = true -> fst f = true)
  /\ (snd f = false -> (fst f = true <-> cov = true \/ rec_covers rs)).

Lemma rov_records_spec plen origin cov rs :
  flags_ok plen origin cov rs (rov_records plen origin cov rs).
Proof.
  unfold flags_ok. revert cov.
  induction rs as [|r rs IH]; intros cov; cbn [rov_records].
  - rewrite rec_matches_nil, rec_covers_nil. cbn. intuition congruence.
  - change (r :: rs) with ([r] ++ rs).
    rewrite rec_matches_app, rec_covers_app.
    pose proof (rec_matches_one plen origin r) as H1.
    pose proof (rec_matches_covers plen origin [r]) as H2.
    pose proof (covered_step cov r) as Hc. cbv zeta.
    destruct (rov_maxlens _ _ _ _); cbn [fst snd].
    + intuition congruence.
    + destruct (IH (cov || negb (bool_decide (maxlens r = [])))) as (Iv & Icv & Ic).
      rewrite Hc in Ic. intuition congruence.
Qed.

Lemma rov_less_spec plen origin cov ls :
  flags_ok plen origin cov (concat ls) (rov_less plen origin cov ls).
Proof.
  unfold flags_ok. revert cov.
  induction ls as [|l ls IH]; intros cov; cbn [rov_less concat].
  - rewrite rec_matches_nil, rec_covers_nil. cbn. intuition congruence.
  - rewrite rec_matches_app, rec_covers_app.
    pose proof (rov_records_spec plen origin cov l) as (Hv & Hcv & Hc).
    destruct (rov_records plen origin cov l) as [c [|]]; cbn [fst snd] in *.
    + intuition congruence.
    + destruct (IH c) as (Iv & Icv & Ic).
      rewrite (Hc eq_refl) in Ic. intuition congruence.
Qed.

Lemma rpki_u8_roundtrip i : rpki_from_u8 (rpki_to_u8 i) = i.
Proof. by destruct i as [[]]. Qed.

Lemma shallow_bytes_ge `{E : Extern} `{L : Layout} (u : Update) :
  size_of_update <= shallow_bytes u.
Proof.
  pose proof size_of_payload_nonneg. pose proof size_of_withdraw_entry_nonneg.
  pose proof size_of_osm_nonneg.
  destruct u; cbn; try lia;
    match goal with |- context [zlen ?l] => pose proof (zlen_nonneg l) end; nia.
Qed.

(** ** Properties *)

(** [check_rov] decides RFC 6811 over the VRPs that the match returned: Valid
    exactly when one of them allows the length and names the origin, Invalid
    exactly when some VRP covers the prefix and none matches, NotFound when
    none covers it; records emptied by VRP withdrawals do not cover. The
    [unreachable!] arm is not reached, and a failed lookup gives NotChecked. *)
Theorem check_rov_rfc6811 plen origin res :
  check_rov plen origin None = Some NotChecked
  /\ check_rov plen origin (Some res) <> None
  /\ (check_rov plen origin (Some res) = Some Valid
      <-> vrp_matches plen origin res)
  /\ (check_rov plen origin (Some res) = Some Invalid
      <-> vrp_covers res /\ ~ vrp_matches plen origin res)
  /\ (check_rov plen origin (Some res) = Some NotFound
      <-> ~ vrp_covers res).
Proof.
  split; [done|].
  change (vrp_covers res) with (rec_covers (records res ++ less_records res)).
  change (vrp_matches plen origin res)
    with (rec_matches plen origin (records res ++ less_records res)).
  rewrite rec_covers_app, rec_matches_app. unfold check_rov, less_records.
  pose proof (rov_records_spec plen origin false (records res)) as (Hv & Hcv & Hc).
  pose proof (rec_matches_covers plen origin (records res)).
  pose proof (rec_matches_covers plen origin (less_records res)).
  destruct (rov_records plen origin false (records res)) as [c [|]];
    cbn [fst snd] in *.
  - rewrite (Hcv eq_refl). intuition congruence.
  - specialize (Hc eq_refl). unfold less_records in *.
    destruct (less_specifics res) as [ls|]; cbn [default from_option concat] in *.
    + pose proof (rov_less_spec plen origin c ls) as (Hv' & Hcv' & Hc').
      destruct (rov_less plen origin c ls) as [c' [|]]; cbn [fst snd id] in *.
      * rewrite (Hcv' eq_refl). intuition congruence.
      * specialize (Hc' eq_refl). destruct c'; intuition congruence.
    + cbn [id concat]. rewrite rec_covers_nil, rec_matches_nil.
      destruct c; intuition congruence.
Qed.

(** The packed bytes of a route read back: [RotondaPaMap::new] followed by
    [path_attributes] gives the attributes back with their parse info, the
    RPKI byte starts out as not checked, and [set_rpki_info] followed by
    [rpki_info] gives the status back and leaves the attributes alone; on a map
    made by [new] none of these panics. *)
Theorem pamap_roundtrip pa i :
  path_attributes (pamap_new pa) = Some pa
  /\ rpki_info (pamap_new pa) = Some rpki_default
  /\ exists p, set_rpki_info i (pamap_new pa) = Some p
       /\ rpki_info p = Some i /\ path_attributes p = Some pa
       /\ pa_blob (raw p) = into_vec pa.
Proof.
  destruct pa as [[] v], i as [st]; cbn; (split; [done|]; split; [done|]);
    eexists; (split; [done|]); cbn; rewrite rpki_u8_roundtrip; done.
Qed.
