(* ===== verification/BmpDecode.v ===== *)
(** * A reference decoder for the restreamed messages

    The abstract specification of [bmp_builder.rs]: what a BMP collector that
    follows RFC 7854 (common and per-peer header), RFC 4271 (BGP message and
    UPDATE layout, path attributes, NLRI) and RFC 4760 (MP_REACH_NLRI and
    MP_UNREACH_NLRI) reads in a byte string.  It shares no code with the
    builders; the properties of [BmpWire] say what it reads in their output. *)

From S2P Require Import Prelude Net.
From Stdlib Require Import ZArith Lia.
From stdpp Require Import base numbers list option.

Local Open Scope Z_scope.

(** ** Reading from the front of a buffer *)
Definition take_n (n : nat) (l : list Z) : option (list Z * list Z) :=
  if (n <=? length l)%nat then Some (take n l, drop n l) else None.

Definition uint (n : nat) (l : list Z) : option (Z * list Z) :=
  '(b, l) ← take_n n l; Some (be_val b, l).

(** Continue only when a test holds. *)
Definition check (b : bool) : option unit := if b then Some tt else None.

(** ** BMP headers (RFC 7854 sections 4.1 and 4.2) *)

(** Version 3, a length field equal to the length of the message; the message
    type and what follows the common header. *)
Definition decode_common (msg : list Z) : option (Z * list Z) :=
  '(ver, l) ← uint 1 msg;
  '(len, l) ← uint 4 l;
  '(ty, l) ← uint 1 l;
  _ ← check ((ver =? 3) && (len =? zlen msg));
  Some (ty, l).

Record per_peer := mk_per_peer {
  d_type : Z; d_flags : Z; d_distinguisher : list Z; d_address : IpAddr;
  d_asn : Z; d_bgp_id : list Z; d_secs : Z; d_micros : Z
}.

(** The address field is read by the V flag: 16 bytes of IPv6, or 12 bytes of
    padding and 4 of IPv4. *)
Definition decode_per_peer (l : list Z) : option (per_peer * list Z) :=
  '(ty, l) ← uint 1 l;
  '(flags, l) ← uint 1 l;
  '(dist, l) ← take_n 8 l;
  '(addr, l) ← take_n 16 l;
  '(asn, l) ← uint 4 l;
  '(bgp_id, l) ← take_n 4 l;
  '(secs, l) ← uint 4 l;
  '(micros, l) ← uint 4 l;
  Some (mk_per_peer ty flags dist
          (if Z.testbit flags 7 then V6 (be_val addr)
           else V4 (be_val (drop 12 addr)))
          asn bgp_id secs micros, l).

(** ** BGP messages (RFC 4271 sections 4.1 and 4.3) *)

(** Marker, a length field equal to the length of the message, the type. *)
Definition decode_bgp (msg : list Z) : option (Z * list Z) :=
  '(marker, l) ← take_n 16 msg;
  '(len, l) ← uint 2 l;
  '(ty, l) ← uint 1 l;
  _ ← check (bool_decide (marker = replicate 16 255) && (len =? zlen msg));
  Some (ty, l).

(** A path attribute: its bytes as sent, its type and its value. *)
Record attr := mk_attr { a_raw : list Z; a_type : Z; a_value : list Z }.

#[export] Instance attr_eq_dec : EqDecision attr.
Proof. solve_decision. Defined.

(** Flags, type, a length of two bytes when the extended-length flag is set
    and of one byte otherwise, the value. *)
Definition parse_attr (l : list Z) : option (attr * list Z) :=
  match l with
  | flags :: ty :: l1 =>
      let ext := negb (Z.land flags 16 =? 0) in
      '(lenb, l2) ← take_n (if ext then 2 else 1)%nat l1;
      '(value, l3) ← take_n (Z.to_nat (be_val lenb)) l2;
      Some (mk_attr (flags :: ty :: lenb ++ value) ty value, l3)
  | _ => None
  end.

(** The attributes at the front of a buffer and the bytes behind the last
    complete one. *)
Fixpoint parse_attrs (fuel : nat) (l : list Z) : list attr * list Z :=
  match fuel with
  | O => ([], l)
  | S fuel =>
      match parse_attr l with
      | Some (a, l') =>
          let '(attrs, rest) := parse_attrs fuel l' in (a :: attrs, rest)
      | None => ([], l)
      end
  end.

Definition attrs_of (l : list Z) : list attr * list Z :=
  parse_attrs (length l) l.

(** A well-formed attribute field is consumed entirely. *)
Definition decode_attrs (l : list Z) : option (list attr) :=
  match attrs_of l with
  | (attrs, []) => Some attrs
  | _ => None
  end.

(** ** NLRI *)
Section Nlri.
Context `{E : Extern}.

(** A length byte and as many bytes as hold that many bits; the missing low
    bytes of the address are zero. *)
Definition decode_prefix (v4 : bool) (l : list Z) : option (Prefix * list Z) :=
  '(plen, l) ← uint 1 l;
  let nb := Z.to_nat ((plen + 7) / 8) in
  '(b, l) ← take_n nb l;
  _ ← check (nb <=? addr_size v4)%nat;
  let a := be_val (b ++ zeros (addr_size v4 - nb)) in
  p ← prefix_new (if v4 then V4 a else V6 a) plen;
  Some (p, l).

Fixpoint decode_nlri (fuel : nat) (v4 : bool) (l : list Z)
  : option (list Prefix) :=
  match l, fuel with
  | [], _ => Some []
  | _, O => None
  | _, S fuel =>
      '(p, l') ← decode_prefix v4 l;
      ps ← decode_nlri fuel v4 l';
      Some (p :: ps)
  end.

Definition nlri_of (v4 : bool) (l : list Z) : option (list Prefix) :=
  decode_nlri (length l) v4 l.

(** The value of an MP_REACH_NLRI attribute for IPv6 unicast: next hop and
    prefixes. *)
Definition decode_mp_reach (v : list Z) : option (list Z * list Prefix) :=
  '(afi, l) ← uint 2 v;
  '(safi, l) ← uint 1 l;
  '(nh_len, l) ← uint 1 l;
  '(nh, l) ← take_n (Z.to_nat nh_len) l;
  '(_, l) ← uint 1 l;
  _ ← check ((afi =? 2) && (safi =? 1));
  ps ← nlri_of false l;
  Some (nh, ps).

Definition decode_mp_unreach (v : list Z) : option (list Prefix) :=
  '(afi, l) ← uint 2 v;
  '(safi, l) ← uint 1 l;
  _ ← check ((afi =? 2) && (safi =? 1));
  nlri_of false l.

(** ** The content of an UPDATE *)
Record update_view := mk_view {
  v_withdrawn : list Prefix;
  v_announced : list Prefix;
  v_next_hop : option (list Z);
  v_attrs : list attr
}.

(** Fold the multiprotocol attributes into the view, keep the others. *)
Fixpoint view_attrs (attrs : list attr) (v : update_view)
  : option update_view :=
  match attrs with
  | [] => Some v
  | a :: attrs =>
      if a_type a =? 14 then
        '(nh, ps) ← decode_mp_reach (a_value a);
        view_attrs attrs
          (mk_view (v_withdrawn v) (v_announced v ++ ps) (Some nh) (v_attrs v))
      else if a_type a =? 15 then
        ps ← decode_mp_unreach (a_value a);
        view_attrs attrs
          (mk_view (v_withdrawn v ++ ps) (v_announced v) (v_next_hop v)
             (v_attrs v))
      else
        view_attrs attrs
          (mk_view (v_withdrawn v) (v_announced v) (v_next_hop v)
             (v_attrs v ++ [a]))
  end.

(** Withdrawn routes, path attributes, IPv4 NLRI. *)
Definition decode_update (msg : list Z) : option update_view :=
  '(ty, l) ← decode_bgp msg;
  _ ← check (ty =? 2);
  '(wlen, l) ← uint 2 l;
  '(w, l) ← take_n (Z.to_nat wlen) l;
  '(plen, l) ← uint 2 l;
  '(pa, nlri) ← take_n (Z.to_nat plen) l;
  ws ← nlri_of true w;
  attrs ← decode_attrs pa;
  ps ← nlri_of true nlri;
  view_attrs attrs (mk_view ws ps None []).

(** A Route Monitoring message: the peer it is about and what it says. *)
Definition decode_route_monitoring (msg : list Z)
  : option (per_peer * update_view) :=
  '(ty, l) ← decode_common msg;
  _ ← check (ty =? 0);
  '(pph, l) ← decode_per_peer l;
  v ← decode_update l;
  Some (pph, v).

End Nlri.

(** ** Information TLVs (RFC 7854 section 4.4): type, length, value *)
Fixpoint decode_tlvs (fuel : nat) (l : list Z) : option (list (Z * list Z)) :=
  match l, fuel with
  | [], _ => Some []
  | _, O => None
  | _, S fuel =>
      '(ty, l) ← uint 2 l;
      '(len, l) ← uint 2 l;
      '(v, l) ← take_n (Z.to_nat len) l;
      tlvs ← decode_tlvs fuel l;
      Some ((ty, v) :: tlvs)
  end.

(** ** Peer Up (RFC 7854 section 4.10) and OPEN (RFC 4271 section 4.2,
    RFC 5492) *)

(** A BGP message at the front of a buffer, cut at its length field. *)
Definition split_bgp (l : list Z) : option (list Z * list Z) :=
  '(_, l1) ← take_n 16 l;
  '(len, _) ← uint 2 l1;
  take_n (Z.to_nat len) l.

Fixpoint decode_caps (fuel : nat) (l : list Z) : option (list (Z * list Z)) :=
  match l, fuel with
  | [], _ => Some []
  | _, O => None
  | _, S fuel =>
      '(code, l) ← uint 1 l;
      '(len, l) ← uint 1 l;
      '(v, l) ← take_n (Z.to_nat len) l;
      caps ← decode_caps fuel l;
      Some ((code, v) :: caps)
  end.

Record open_view := mk_open {
  o_asn2 : Z; o_hold : Z; o_id : list Z; o_caps : list (Z * list Z)
}.

(** An OPEN with one optional parameter, of type Capabilities. *)
Definition decode_open (msg : list Z) : option open_view :=
  '(ty, l) ← decode_bgp msg;
  '(ver, l) ← uint 1 l;
  '(asn, l) ← uint 2 l;
  '(hold, l) ← uint 2 l;
  '(id, l) ← take_n 4 l;
  '(opt_len, l) ← uint 1 l;
  _ ← check ((ty =? 1) && (ver =? 4) && (opt_len =? zlen l));
  '(pty, l) ← uint 1 l;
  '(plen, l) ← uint 1 l;
  _ ← check ((pty =? 2) && (plen =? zlen l));
  caps ← decode_caps (length l) l;
  Some (mk_open asn hold id caps).

Record peer_up_view := mk_up {
  u_local_addr : list Z; u_local_port : Z; u_remote_port : Z;
  u_sent : open_view; u_received : open_view; u_info : list (Z * list Z)
}.

Definition decode_peer_up (msg : list Z) : option (per_peer * peer_up_view) :=
  '(ty, l) ← decode_common msg;
  _ ← check (ty =? 3);
  '(pph, l) ← decode_per_peer l;
  '(la, l) ← take_n 16 l;
  '(lp, l) ← uint 2 l;
  '(rp, l) ← uint 2 l;
  '(o1, l) ← split_bgp l;
  '(o2, l) ← split_bgp l;
  sent ← decode_open o1;
  rcvd ← decode_open o2;
  tlvs ← decode_tlvs (length l) l;
  Some (pph, mk_up la lp rp sent rcvd tlvs).

(** ** JSON strings (RFC 8259 section 7), as far as the escapes go *)
Definition hex_val (c : Z) : option Z :=
  if (48 <=? c) && (c <=? 57) then Some (c - 48)
  else if (97 <=? c) && (c <=? 102) then Some (c - 87)
  else if (65 <=? c) && (c <=? 70) then Some (c - 55)
  else None.

(** The character that a one-letter escape stands for. *)
Definition short_escape (e : Z) : option Z :=
  if e =? 34 then Some 34 else if e =? 92 then Some 92
  else if e =? 47 then Some 47 else if e =? 98 then Some 8
  else if e =? 102 then Some 12 else if e =? 110 then Some 10
  else if e =? 114 then Some 13 else if e =? 116 then Some 9
  else None.

(** Read up to the closing quote; the string and what follows the quote. *)
Fixpoint json_string (fuel : nat) (l : list Z) : option (list Z * list Z) :=
  match fuel, l with
  | S fuel, ch :: l =>
      if ch =? 34 then Some ([], l)
      else if ch =? 92 then
        match l with
        | e :: l =>
            if e =? 117 then
              match l with
              | a :: b :: c :: d :: l =>
                  a ← hex_val a; b ← hex_val b; c ← hex_val c; d ← hex_val d;
                  '(s, l) ← json_string fuel l;
                  Some (((a * 16 + b) * 16 + c) * 16 + d :: s, l)
              | _ => None
              end
            else
              c ← short_escape e;
              '(s, l) ← json_string fuel l;
              Some (c :: s, l)
        | [] => None
        end
      else
        _ ← check (32 <=? ch);
        '(s, l) ← json_string fuel l;
        Some (ch :: s, l)
  | _, _ => None
  end.

(** One given character. *)
Definition expect (c : Z) (l : list Z) : option (list Z) :=
  match l with
  | c' :: l => if c' =? c then Some l else None
  | [] => None
  end.

(** A JSON object whose members are strings: the members in order. *)
Fixpoint json_members (fuel : nat) (l : list Z)
  : option (list (list Z * list Z) * list Z) :=
  match fuel with
  | O => None
  | S fuel =>
      l ← expect 34 l;
      '(k, l) ← json_string (length l) l;
      l ← expect 58 l;
      l ← expect 34 l;
      '(v, l) ← json_string (length l) l;
      match l with
      | c :: l =>
          if c =? 44 then '(ms, l) ← json_members fuel l; Some ((k, v) :: ms, l)
          else if c =? 125 then Some ([(k, v)], l)
          else None
      | [] => None
      end
  end.

Definition json_object (l : list Z) : option (list (list Z * list Z)) :=
  l ← expect 123 l;
  match json_members (length l) l with
  | Some (ms, []) => Some ms
  | _ => None
  end.

(** ** Lemmas *)

Lemma take_n_app n l k : n = length l -> take_n n (l ++ k) = Some (l, k).
Proof.
  intros ->. unfold take_n. rewrite length_app.
  rewrite (proj2 (Nat.leb_le _ _)) by lia.
  by rewrite take_app_length, drop_app_length.
Qed.

Lemma take_n_Some n l a k :
  take_n n l = Some (a, k) -> l = a ++ k /\ length a = n.
Proof.
  unfold take_n. case_bool; [|done]. intros [= <- <-].
  apply Nat.leb_le in Heqb. by rewrite take_drop, length_take_le.
Qed.

Lemma uint_app n v k :
  uint n (be_bytes n v ++ k) = Some (v mod 256 ^ Z.of_nat n, k).
Proof.
  unfold uint. rewrite take_n_app by (by rewrite length_be_bytes). cbn.
  by rewrite be_val_be_bytes.
Qed.

Lemma uint_app_small n v k :
  0 <= v < 256 ^ Z.of_nat n -> uint n (be_bytes n v ++ k) = Some (v, k).
Proof. intros. by rewrite uint_app, Z.mod_small. Qed.

Lemma uint_1 b k : uint 1 (b :: k) = Some (b, k).
Proof. unfold uint, take_n. cbn. by rewrite drop_0. Qed.

Lemma parse_attr_Some l a rest :
  parse_attr l = Some (a, rest) -> l = a_raw a ++ rest /\ (3 <= length (a_raw a))%nat.
Proof.
  unfold parse_attr. destruct l as [|flags [|ty l1]]; [done..|].
  destruct (take_n _ l1) as [[lenb l2]|] eqn:E1; [|done]. cbn.
  destruct (take_n _ l2) as [[value l3]|] eqn:E2; [|done]. cbn.
  intros [= <- <-]. apply take_n_Some in E1 as [-> H1], E2 as [-> H2]. cbn.
  rewrite length_app, H1. split; [by rewrite <- app_assoc|]. case_bool; lia.
Qed.

Lemma parse_attr_app l a rest k :
  parse_attr l = Some (a, rest) -> parse_attr (l ++ k) = Some (a, rest ++ k).
Proof.
  unfold parse_attr. destruct l as [|flags [|ty l1]]; [done..|]. cbn [app].
  destruct (take_n _ l1) as [[lenb l2]|] eqn:E1; [|done]. cbn.
  destruct (take_n _ l2) as [[value l3]|] eqn:E2; [|done]. cbn.
  intros [= <- <-]. apply take_n_Some in E1 as [-> H1], E2 as [-> H2].
  rewrite <- app_assoc, take_n_app by done. cbn.
  rewrite <- app_assoc, take_n_app by done. done.
Qed.

Lemma parse_attrs_fuel n m l :
  (length l <= n)%nat -> (n <= m)%nat -> parse_attrs m l = parse_attrs n l.
Proof.
  revert m l. induction n as [|n IH]; intros m l Hl Hm.
  - destruct l; [|cbn in Hl; lia]. by destruct m.
  - destruct m as [|m]; [lia|]. cbn.
    destruct (parse_attr l) as [[a l']|] eqn:E; [|done].
    apply parse_attr_Some in E as [-> Ha]. rewrite length_app in Hl.
    rewrite (IH m l') by lia. done.
Qed.

Lemma attrs_of_nil : attrs_of [] = ([], []).
Proof. done. Qed.

Lemma attrs_of_cons l a rest :
  parse_attr l = Some (a, rest) ->
  attrs_of l = (a :: fst (attrs_of rest), snd (attrs_of rest)).
Proof.
  intros E. pose proof E as [-> Ha]%parse_attr_Some. unfold attrs_of.
  rewrite length_app.
  destruct (length (a_raw a)) as [|n] eqn:En; [lia|]. cbn [parse_attrs Nat.add].
  rewrite E, (parse_attrs_fuel (length rest)) by lia.
  by destruct (parse_attrs _ rest).
Qed.

Lemma attrs_of_stop l : parse_attr l = None -> attrs_of l = ([], l).
Proof. intros E. unfold attrs_of. destruct l; [done|]. cbn [length parse_attrs]. by rewrite E. Qed.

(** An attribute that a buffer holds, as it was parsed. *)
Definition attr_ok (a : attr) : Prop := parse_attr (a_raw a) = Some (a, []).

Lemma parse_attr_ok l a rest : parse_attr l = Some (a, rest) -> attr_ok a.
Proof.
  unfold attr_ok, parse_attr. destruct l as [|flags [|ty l1]]; [done..|].
  destruct (take_n _ l1) as [[lenb l2]|] eqn:E1; [|done]. cbn.
  destruct (take_n _ l2) as [[value l3]|] eqn:E2; [|done]. cbn.
  intros [= <- <-]. apply take_n_Some in E1 as [-> H1], E2 as [-> H2].
  cbn [a_raw]. rewrite take_n_app by done. cbn.
  rewrite <- (app_nil_r value) at 1. by rewrite take_n_app.
Qed.

Lemma attrs_of_ok l : Forall attr_ok (fst (attrs_of l)).
Proof.
  unfold attrs_of. generalize (length l) as n. intros n. revert l.
  induction n as [|n IH]; intros l; cbn; [constructor|].
  destruct (parse_attr l) as [[a l']|] eqn:Ea; [|constructor].
  specialize (IH l'). destruct (parse_attrs n l') as [attrs r]. cbn in *.
  constructor; eauto using parse_attr_ok.
Qed.

(** Attributes written one after the other are read back. *)
Lemma decode_attrs_concat attrs :
  Forall attr_ok attrs -> decode_attrs (concat (a_raw <$> attrs)) = Some attrs.
Proof.
  unfold decode_attrs.
  enough (Forall attr_ok attrs -> attrs_of (concat (a_raw <$> attrs)) = (attrs, []))
    as H by (intros Ha; by rewrite (H Ha)).
  induction 1 as [|a attrs Ha _ IH]; [done|].
  rewrite fmap_cons. cbn [concat].
  apply (parse_attr_app _ _ _ (concat (a_raw <$> attrs))) in Ha.
  by rewrite (attrs_of_cons _ _ _ Ha), app_nil_l, IH.
Qed.

Lemma decode_attrs_app l attrs a k :
  decode_attrs l = Some attrs -> parse_attr k = Some (a, []) ->
  decode_attrs (l ++ k) = Some (attrs ++ [a]).
Proof.
  unfold decode_attrs. destruct (attrs_of l) as [as' r] eqn:El.
  destruct r; [|done]. intros [= ->] Hk. revert l El.
  induction attrs as [|b attrs IH]; intros l El.
  - assert (l = []) as ->.
    { destruct (parse_attr l) as [[a' r]|] eqn:Ep.
      - by rewrite (attrs_of_cons _ _ _ Ep) in El.
      - rewrite (attrs_of_stop _ Ep) in El. congruence. }
    rewrite app_nil_l. by rewrite (attrs_of_cons _ _ _ Hk), attrs_of_nil.
  - destruct (parse_attr l) as [[a' r]|] eqn:Ep;
      [|by rewrite (attrs_of_stop _ Ep) in El].
    rewrite (attrs_of_cons _ _ _ Ep) in El.
    destruct (attrs_of r) as [as' r'] eqn:Er. cbn in El. simplify_eq.
    apply (parse_attr_app _ _ _ k) in Ep.
    rewrite (attrs_of_cons _ _ _ Ep). specialize (IH _ Er).
    destruct (attrs_of (r ++ k)) as [as2 [|]]; [|done]. cbn.
    by injection IH as ->.
Qed.
