(* ===== verification/BmpBuilder.v ===== *)
(** * BMP message construction ([src/units/bmp_tcp_out/bmp_builder.rs])

    The byte-level builders of the restreamer: per-peer headers, Initiation,
    Termination, Peer Up and Peer Down, Statistics Report, Route Monitoring
    with its BGP UPDATE, End-of-RIB, the NLRI encoder and the walk over raw
    path attributes.  A builder that pushes onto a [Vec<u8>] is a function
    from the buffer to the longer buffer. *)

From S2P Require Import Prelude Net Register Payload.
From Stdlib Require Import ZArith Lia.
From stdpp Require Import base numbers list gmap strings.

Local Open Scope Z_scope.

(** ** Constants *)
Definition BMP_MSG_ROUTE_MONITORING : Z := 0.
Definition BMP_MSG_STATISTICS_REPORT : Z := 1.
Definition BMP_MSG_PEER_DOWN : Z := 2.
Definition BMP_MSG_PEER_UP : Z := 3.
Definition BMP_MSG_INITIATION : Z := 4.
Definition BMP_MSG_TERMINATION : Z := 5.
Definition BMP_VERSION : Z := 3.
Definition BMP_COMMON_HEADER_LEN : Z := 6.
Definition BMP_PER_PEER_HEADER_LEN : Z := 42.
Definition BMP_INIT_TLV_SYS_DESCR : Z := 1.
Definition BMP_INIT_TLV_SYS_NAME : Z := 2.
Definition BMP_TERM_TLV_REASON : Z := 0.
Definition BMP_PEER_UP_TLV_ADMIN_LABEL : Z := 4.
Definition BMP_PEER_DOWN_REASON_REMOTE_NO_NOTIFICATION : Z := 4.
Definition BGP_MARKER : list Z := replicate 16 255.
Definition BGP_MSG_OPEN : Z := 1.
Definition BGP_MSG_UPDATE : Z := 2.
Definition MAX_BGP_UPDATE_LEN : Z := 4096.

(** ** [PeerInfo] *)
Record PeerInfo : Type := mk_peer_info {
  pi_type : PeerType;
  pi_flags : Z;
  pi_distinguisher : list Z;
  pi_address : IpAddr;
  pi_asn : Asn;
  pi_bgp_id : list Z;
  pi_admin_label : option rstring
}.

(** The flag byte: V for an IPv6 address, L and O from the RIB type. *)
Definition peer_flags_of (addr : IpAddr) (t : option PeerRibType) : Z :=
  let flags := if is_ipv6 addr then Z.lor 0 128 else 0 in
  match t with
  | Some InPost => Z.lor flags 64
  | Some InPre => flags
  | Some OutPost => Z.lor flags (Z.lor 64 16)
  | Some OutPre => Z.lor flags 16
  | Some Loc | None => Z.lor flags 64
  end.

Definition from_ingress_info (i : IngressInfo) : PeerInfo :=
  let address := default UNSPECIFIED (remote_addr i) in
  {| pi_type := default GlobalInstance (peer_type i);
     pi_flags := peer_flags_of address (peer_rib_type i);
     pi_distinguisher := default (zeros 8) (distinguisher i);
     pi_address := address;
     pi_asn := default 0 (remote_asn i);
     pi_bgp_id := zeros 4;
     pi_admin_label := None |}.

Definition set_admin_label (l : option rstring) (p : PeerInfo) : PeerInfo :=
  mk_peer_info (pi_type p) (pi_flags p) (pi_distinguisher p) (pi_address p)
    (pi_asn p) (pi_bgp_id p) l.

Definition apply_fan_in_distinguisher (tag : list Z) (p : PeerInfo)
  : PeerInfo :=
  if bool_decide (pi_distinguisher p = zeros 8)
  then mk_peer_info (pi_type p) (pi_flags p) tag (pi_address p) (pi_asn p)
         (pi_bgp_id p) (pi_admin_label p)
  else p.

(** The wall clock: seconds since the epoch and microseconds. *)
Record Clock : Type := mk_clock { as_secs : Z; subsec_micros : Z }.

(** Little-endian bytes, as [Hasher::write_u32] and the length prefix of a
    hashed slice feed them to the hasher. *)
Definition le_bytes (n : nat) (v : Z) : list Z := rev (be_bytes n v).

(** ** JSON admin label *)

(** [char::is_control]: general category Cc. *)
Definition is_control (c : Z) : bool :=
  (c <? 32) || ((127 <=? c) && (c <? 160)).

Definition hex_digit (d : Z) : Z := if d <? 10 then 48 + d else 87 + d.

(** [format!("\\u{:04x}", c as u32)] for a [c] of at most four hex digits, as
    every control character is. *)
Definition hex_escape (c : Z) : rstring :=
  [92; 117; hex_digit ((c / 4096) mod 16); hex_digit ((c / 256) mod 16);
   hex_digit ((c / 16) mod 16); hex_digit (c mod 16)].

Definition escape_char (ch : Z) : rstring :=
  if ch =? 34 then [92; 34]
  else if ch =? 92 then [92; 92]
  else if ch =? 10 then [92; 110]
  else if ch =? 13 then [92; 114]
  else if ch =? 9 then [92; 116]
  else if is_control ch then hex_escape ch
  else [ch].

Definition escape_json_string (s : rstring) : rstring := s ≫= escape_char.

(** [opt.filter(|s| *s != placeholder && !s.is_empty())]. *)
Definition real_value (placeholder : rstring) (s : option rstring)
  : option rstring :=
  match s with
  | Some s => if bool_decide (s = placeholder) || bool_decide (s = [])
              then None else Some s
  | None => None
  end.

Definition build_admin_label_json (name desc : option rstring)
  : option rstring :=
  let name := real_value (str "no-sysname") name in
  let desc := real_value (str "no-sysdesc") desc in
  match name, desc with
  | None, None => None
  | _, _ =>
      let json := str "{" in
      let '(json, first) :=
        match name with
        | Some n =>
            (json ++ [34] ++ str "sysName" ++ [34; 58; 34]
                  ++ escape_json_string n ++ [34], false)
        | None => (json, true)
        end in
      let json :=
        match desc with
        | Some d =>
            let json := if first : bool then json else json ++ str "," in
            json ++ [34] ++ str "sysDescr" ++ [34; 58; 34]
                 ++ escape_json_string d ++ [34]
        | None => json
        end in
      Some (json ++ str "}")
  end.

(** ** Walking raw path attributes *)
Definition byte_at (l : list Z) (i : nat) : Z := nth i l 0.

(** [&l[a..b]]. *)
Definition slice (a b : nat) (l : list Z) : list Z := take (b - a) (drop a l).

(** Length and header length of the attribute at [pos]; [None] when the
    remaining bytes do not hold the header. *)
Definition attr_header (blob : list Z) (pos : nat) : option (nat * nat) :=
  if Z.land (byte_at blob pos) 16 =? 0 then
    if (length blob <? pos + 3)%nat then None
    else Some (Z.to_nat (byte_at blob (pos + 2)), 3%nat)
  else
    if (length blob <? pos + 4)%nat then None
    else Some (Z.to_nat (be_val [byte_at blob (pos + 2); byte_at blob (pos + 3)]),
               4%nat).

(** The next hop in the value of an MP_REACH_NLRI attribute: AFI(2) SAFI(1)
    NH_LEN(1) NH. *)
Definition mp_reach_next_hop (value : list Z) : option (list Z) :=
  if (4 <=? length value)%nat then
    let nh_len := Z.to_nat (byte_at value 3) in
    if (4 + nh_len <=? length value)%nat
    then Some (slice 4 (4 + nh_len) value) else None
  else None.

(** The [while] loop; [None] when the fuel does not suffice. *)
Fixpoint filter_loop (fuel : nat) (blob : list Z) (pos : nat)
    (result : list Z) (next_hop : option (list Z))
  : option (list Z * option (list Z)) :=
  match fuel with
  | O => None
  | S fuel =>
      if (pos <? length blob)%nat then
        if (length blob <? pos + 2)%nat then Some (result, next_hop)
        else
          let type_code := byte_at blob (pos + 1) in
          match attr_header blob pos with
          | None => Some (result, next_hop)
          | Some (attr_len, header_len) =>
              let total_attr_len := (header_len + attr_len)%nat in
              if (length blob <? pos + total_attr_len)%nat
              then Some (result, next_hop)
              else
                let pos' := (pos + total_attr_len)%nat in
                if type_code =? 14 then
                  let value := slice (pos + header_len) pos' blob in
                  let next_hop :=
                    match mp_reach_next_hop value with
                    | Some nh => Some nh
                    | None => next_hop
                    end in
                  filter_loop fuel blob pos' result next_hop
                else if negb (type_code =? 15) then
                  filter_loop fuel blob pos'
                    (result ++ slice pos pos' blob) next_hop
                else filter_loop fuel blob pos' result next_hop
          end
      else Some (result, next_hop)
  end.

(** [filter_pa_from_raw]; each turn of the loop advances by at least three
    bytes, so one unit of fuel per byte and one for the last test suffice. *)
Definition filter_pa_from_raw (raw : list Z) : list Z * option (list Z) :=
  if (length raw <? 2)%nat then ([], None)
  else
    let blob := drop 2 raw in
    match filter_loop (S (length blob)) blob 0 [] None with
    | Some r => r
    | None => ([], None)
    end.

Definition filter_raw_path_attributes (pamap : RotondaPaMap)
  : list Z * option (list Z) :=
  filter_pa_from_raw (raw pamap).

Section Builder.
Context `{E : Extern}.

Definition fan_in_distinguisher_tag (parent : IngressId) : list Z :=
  let v := default_hash (str "rotonda:bmp-out:fan-in:v1" ++ le_bytes 4 parent) in
  let v := if v =? 0 then 1 else v in
  be_bytes 8 v.

(** ** Headers *)
Definition write_common_header (buf : list Z) (msg_type total_len : Z)
  : list Z :=
  buf ++ [BMP_VERSION] ++ be_bytes 4 total_len ++ [msg_type].

Definition write_per_peer_header (now : Clock) (buf : list Z) (peer : PeerInfo)
  : list Z :=
  buf ++ [peer_type_byte (pi_type peer)]
      ++ [pi_flags peer]
      ++ pi_distinguisher peer
      ++ (match pi_address peer with
          | V4 _ => zeros 12 ++ octets (pi_address peer)
          | V6 _ => octets (pi_address peer)
          end)
      ++ be_bytes 4 (pi_asn peer)
      ++ pi_bgp_id peer
      ++ be_bytes 4 (as_secs now)
      ++ be_bytes 4 (subsec_micros now).

(** ** Initiation and termination *)
Definition build_initiation_message (sys_name sys_descr : rstring) : list Z :=
  let sys_descr_tlv_len := 4 + zlen (utf8 sys_descr) in
  let sys_name_tlv_len := 4 + zlen (utf8 sys_name) in
  let total_len :=
    BMP_COMMON_HEADER_LEN + sys_descr_tlv_len + sys_name_tlv_len in
  write_common_header [] BMP_MSG_INITIATION total_len
    ++ be_bytes 2 BMP_INIT_TLV_SYS_DESCR
    ++ be_bytes 2 (zlen (utf8 sys_descr)) ++ utf8 sys_descr
    ++ be_bytes 2 BMP_INIT_TLV_SYS_NAME
    ++ be_bytes 2 (zlen (utf8 sys_name)) ++ utf8 sys_name.

Definition build_termination_message : list Z :=
  let total_len := BMP_COMMON_HEADER_LEN + 6 in
  write_common_header [] BMP_MSG_TERMINATION total_len
    ++ be_bytes 2 BMP_TERM_TLV_REASON ++ be_bytes 2 2 ++ be_bytes 2 0.

(** ** BGP OPEN *)

(** The capabilities that [build_bgp_open] pushes. *)
Definition open_capabilities (asn : Asn) (include_ipv6 gr : bool) : list Z :=
  [65; 4] ++ be_bytes 4 asn
  ++ [1; 4] ++ be_bytes 2 1 ++ [0; 1]
  ++ (if include_ipv6 then [1; 4] ++ be_bytes 2 2 ++ [0; 1] else [])
  ++ (if gr then
        let gr_afi_count := if include_ipv6 then 2 else 1 in
        let gr_len := 2 + gr_afi_count * 4 in
        [64] ++ [wrap 8 gr_len] ++ be_bytes 2 0
        ++ be_bytes 2 1 ++ [1; 0]
        ++ (if include_ipv6 then be_bytes 2 2 ++ [1; 0] else [])
      else []).

Definition build_bgp_open (asn : Asn) (include_ipv6 gr : bool) : list Z :=
  let caps := open_capabilities asn include_ipv6 gr in
  let opt_params := [2] ++ [wrap 8 (zlen caps)] ++ caps in
  let open_body_len := 10 + zlen opt_params in
  let total_len := 19 + open_body_len in
  let two_byte_asn := if asn >? 65535 then 23456 else wrap 16 asn in
  BGP_MARKER ++ be_bytes 2 total_len ++ [BGP_MSG_OPEN]
    ++ [4] ++ be_bytes 2 two_byte_asn ++ be_bytes 2 90 ++ zeros 4
    ++ [wrap 8 (zlen opt_params)] ++ opt_params.

(** ** Peer Up and Peer Down *)

(** The label that is sent: one whose length fits the TLV's 16 bits. *)
Definition label_to_send (peer : PeerInfo) : option (list Z) :=
  match pi_admin_label peer with
  | Some l => if zlen (utf8 l) <=? u16_max then Some (utf8 l) else None
  | None => None
  end.

Definition build_peer_up (now : Clock) (peer : PeerInfo) (gr : bool)
  : list Z :=
  let sent_open := build_bgp_open (pi_asn peer) true gr in
  let received_open := build_bgp_open (pi_asn peer) true gr in
  let admin_label := label_to_send peer in
  let admin_label_tlv_len :=
    match admin_label with Some l => 4 + zlen l | None => 0 end in
  let peer_up_body_len :=
    16 + 2 + 2 + zlen sent_open + zlen received_open + admin_label_tlv_len in
  let total_len :=
    BMP_COMMON_HEADER_LEN + BMP_PER_PEER_HEADER_LEN + peer_up_body_len in
  write_per_peer_header now
      (write_common_header [] BMP_MSG_PEER_UP total_len) peer
    ++ zeros 16 ++ be_bytes 2 0 ++ be_bytes 2 179
    ++ sent_open ++ received_open
    ++ match admin_label with
       | Some l =>
           be_bytes 2 BMP_PEER_UP_TLV_ADMIN_LABEL ++ be_bytes 2 (zlen l) ++ l
       | None => []
       end.

Definition build_peer_down (now : Clock) (peer : PeerInfo) : list Z :=
  let total_len := BMP_COMMON_HEADER_LEN + BMP_PER_PEER_HEADER_LEN + 1 in
  write_per_peer_header now
      (write_common_header [] BMP_MSG_PEER_DOWN total_len) peer
    ++ [BMP_PEER_DOWN_REASON_REMOTE_NO_NOTIFICATION].

Definition build_statistics_report (now : Clock) (peer : PeerInfo)
    (body : list Z) : list Z :=
  let total_len :=
    BMP_COMMON_HEADER_LEN + BMP_PER_PEER_HEADER_LEN + zlen body in
  write_per_peer_header now
      (write_common_header [] BMP_MSG_STATISTICS_REPORT total_len) peer
    ++ body.

(** ** NLRI *)

(** [(prefix.len() as usize + 7) / 8]. *)
Definition num_bytes (p : Prefix) : nat := Z.to_nat ((prefix_len p + 7) / 8).

(** The slice [octets()[..num_bytes]] is within the octets of the address, by
    the bound on the length of a prefix ([num_bytes_le] below). *)
Definition append_prefix_nlri (buf : list Z) (p : Prefix) : list Z :=
  buf ++ [prefix_len p] ++ take (num_bytes p) (octets (prefix_addr p)).

Definition encode_prefix_nlri (p : Prefix) : list Z := append_prefix_nlri [] p.

Definition nlri_encoded_len (p : Prefix) : Z := 1 + (prefix_len p + 7) / 8.

(** [build_mp_reach_nlri] and [build_mp_unreach_nlri]. *)
Definition build_mp_reach_nlri (p : Prefix) (next_hop : option (list Z))
  : list Z :=
  let nlri_bytes := encode_prefix_nlri p in
  let afi := if prefix_is_v4 p then 1 else 2 in
  let nh := match next_hop with
            | Some nh => nh
            | None => zeros (if prefix_is_v4 p then 4 else 16)
            end in
  let value_len := 2 + 1 + 1 + zlen nh + 1 + zlen nlri_bytes in
  (if value_len >? 255 then [144; 14] ++ be_bytes 2 value_len
   else [128; 14; wrap 8 value_len])
  ++ be_bytes 2 afi ++ [1] ++ [wrap 8 (zlen nh)] ++ nh ++ [0] ++ nlri_bytes.

Definition build_mp_unreach_nlri (p : Prefix) : list Z :=
  let nlri_bytes := encode_prefix_nlri p in
  let afi := if prefix_is_v4 p then 1 else 2 in
  let value_len := 2 + 1 + zlen nlri_bytes in
  (if value_len >? 255 then [144; 15] ++ be_bytes 2 value_len
   else [128; 15; wrap 8 value_len])
  ++ be_bytes 2 afi ++ [1] ++ nlri_bytes.

(** ** BGP UPDATE *)
Definition build_bgp_update_withdrawal (p : Prefix) : list Z :=
  if prefix_is_v4 p then
    let nlri_bytes := encode_prefix_nlri p in
    let update_body_len := 2 + zlen nlri_bytes + 2 in
    let total_len := 19 + update_body_len in
    BGP_MARKER ++ be_bytes 2 total_len ++ [BGP_MSG_UPDATE]
      ++ be_bytes 2 (zlen nlri_bytes) ++ nlri_bytes ++ be_bytes 2 0
  else
    let mp_unreach := build_mp_unreach_nlri p in
    let update_body_len := 2 + 2 + zlen mp_unreach in
    let total_len := 19 + update_body_len in
    BGP_MARKER ++ be_bytes 2 total_len ++ [BGP_MSG_UPDATE]
      ++ be_bytes 2 0 ++ be_bytes 2 (zlen mp_unreach) ++ mp_unreach.

(** [bgp_update_too_long] is the [None] (with a log line). *)
Definition build_bgp_update (p : Prefix) (pamap : RotondaPaMap)
    (is_withdrawal : bool) : option (list Z) :=
  if is_withdrawal then Some (build_bgp_update_withdrawal p)
  else
    let '(pa_bytes, orig_next_hop) := filter_raw_path_attributes pamap in
    if prefix_is_v4 p then
      let nlri_bytes := encode_prefix_nlri p in
      let update_body_len := 2 + 2 + zlen pa_bytes + zlen nlri_bytes in
      let total_len := 19 + update_body_len in
      if total_len >? u16_max then None
      else Some (BGP_MARKER ++ be_bytes 2 total_len ++ [BGP_MSG_UPDATE]
                   ++ be_bytes 2 0 ++ be_bytes 2 (zlen pa_bytes) ++ pa_bytes
                   ++ nlri_bytes)
    else
      let mp_reach := build_mp_reach_nlri p orig_next_hop in
      let total_pa_len := zlen pa_bytes + zlen mp_reach in
      let update_body_len := 2 + 2 + total_pa_len in
      let total_len := 19 + update_body_len in
      if total_len >? u16_max then None
      else Some (BGP_MARKER ++ be_bytes 2 total_len ++ [BGP_MSG_UPDATE]
                   ++ be_bytes 2 0 ++ be_bytes 2 total_pa_len ++ pa_bytes
                   ++ mp_reach).

(** ** Route Monitoring *)
Definition build_route_monitoring (now : Clock) (peer : PeerInfo) (p : Prefix)
    (pamap : RotondaPaMap) (is_withdrawal : bool) : option (list Z) :=
  match build_bgp_update p pamap is_withdrawal with
  | None => None
  | Some bgp_update =>
      let total_len :=
        BMP_COMMON_HEADER_LEN + BMP_PER_PEER_HEADER_LEN + zlen bgp_update in
      Some (write_per_peer_header now
              (write_common_header [] BMP_MSG_ROUTE_MONITORING total_len) peer
            ++ bgp_update)
  end.

Definition build_route_monitoring_from_route (now : Clock) (peer : PeerInfo)
    (route : RotondaRoute) (is_withdrawal : bool) : option (list Z) :=
  let '(nlri, pamap) :=
    match route with
    | RR_Ipv4Unicast nlri pamap => (nlri, pamap)
    | RR_Ipv6Unicast nlri pamap => (nlri, pamap)
    | RR_Ipv4Multicast nlri pamap => (nlri, pamap)
    | RR_Ipv6Multicast nlri pamap => (nlri, pamap)
    end in
  match prefix_new (prefix_addr nlri) (prefix_len nlri) with
  | None => None
  | Some p => build_route_monitoring now peer p pamap is_withdrawal
  end.

(** The BGP UPDATE that announces several prefixes with one attribute set. *)
Definition aggregated_bgp_update (prefixes : list Prefix) (pa_bytes : list Z)
    (next_hop : option (list Z)) (is_v4 : bool) : list Z :=
  let nlri := foldl append_prefix_nlri [] prefixes in
  if is_v4 then
    let update_body_len := 2 + 2 + zlen pa_bytes + zlen nlri in
    let total_len := 19 + update_body_len in
    BGP_MARKER ++ be_bytes 2 total_len ++ [BGP_MSG_UPDATE]
      ++ be_bytes 2 0 ++ be_bytes 2 (zlen pa_bytes) ++ pa_bytes ++ nlri
  else
    let nh := default (zeros 16) next_hop in
    let value_len := 2 + 1 + 1 + zlen nh + 1 + zlen nlri in
    let mp_reach_len := 4 + value_len in
    let total_pa_len := zlen pa_bytes + mp_reach_len in
    let update_body_len := 2 + 2 + total_pa_len in
    let total_len := 19 + update_body_len in
    BGP_MARKER ++ be_bytes 2 total_len ++ [BGP_MSG_UPDATE]
      ++ be_bytes 2 0 ++ be_bytes 2 total_pa_len ++ pa_bytes
      ++ [144; 14] ++ be_bytes 2 value_len ++ be_bytes 2 2 ++ [1]
      ++ [wrap 8 (zlen nh)] ++ nh ++ [0] ++ nlri.

Definition build_aggregated_route_monitoring (now : Clock) (peer : PeerInfo)
    (prefixes : list Prefix) (pa_bytes : list Z) (next_hop : option (list Z))
    (is_v4 : bool) : list Z :=
  let bgp_update := aggregated_bgp_update prefixes pa_bytes next_hop is_v4 in
  let total_len :=
    BMP_COMMON_HEADER_LEN + BMP_PER_PEER_HEADER_LEN + zlen bgp_update in
  write_per_peer_header now
      (write_common_header [] BMP_MSG_ROUTE_MONITORING total_len) peer
    ++ bgp_update.

(** ** End-of-RIB *)
Definition build_eor_ipv4 (now : Clock) (peer : PeerInfo) : list Z :=
  let bgp_update_len := 23 in
  let total_len :=
    BMP_COMMON_HEADER_LEN + BMP_PER_PEER_HEADER_LEN + bgp_update_len in
  write_per_peer_header now
      (write_common_header [] BMP_MSG_ROUTE_MONITORING total_len) peer
    ++ BGP_MARKER ++ be_bytes 2 bgp_update_len ++ [BGP_MSG_UPDATE]
    ++ be_bytes 2 0 ++ be_bytes 2 0.

Definition build_eor_mp_unreach (now : Clock) (peer : PeerInfo)
    (afisafi : AfiSafiType) : list Z :=
  let '(afi, safi) := afi_safi_code afisafi in
  let mp_unreach := [128; 15; 3] ++ be_bytes 2 afi ++ [safi] in
  let total_pa_len := zlen mp_unreach in
  let update_body_len := 2 + 2 + total_pa_len in
  let bgp_update_len := 19 + update_body_len in
  let total_len :=
    BMP_COMMON_HEADER_LEN + BMP_PER_PEER_HEADER_LEN + bgp_update_len in
  write_per_peer_header now
      (write_common_header [] BMP_MSG_ROUTE_MONITORING total_len) peer
    ++ BGP_MARKER ++ be_bytes 2 bgp_update_len ++ [BGP_MSG_UPDATE]
    ++ be_bytes 2 0 ++ be_bytes 2 total_pa_len ++ mp_unreach.

Definition build_end_of_rib_marker (now : Clock) (peer : PeerInfo)
    (afisafi : AfiSafiType) : option (list Z) :=
  match afisafi with
  | Ipv4Unicast => Some (build_eor_ipv4 now peer)
  | Ipv6Unicast => Some (build_eor_mp_unreach now peer afisafi)
  | _ => None
  end.

End Builder.
