(* ===== verification/BmpWire.v ===== *)
(** * What the builders put on the wire

    The output of [BmpBuilder] read by the reference decoder of [BmpDecode]:
    framing, per-peer headers, the attribute walk, announcements, withdrawals,
    aggregated announcements and End-of-RIB markers. *)

From S2P Require Import Prelude Net Register Payload BmpDecode BmpBuilder.
From Stdlib Require Import ZArith Lia.
From stdpp Require Import base numbers list gmap option strings.

Local Open Scope Z_scope.

(** ** The attribute walk as a function of the parsed attributes *)

(** The attributes that are forwarded as they are. *)
Definition kept (attrs : list attr) : list attr :=
  filter (fun a => a_type a <> 14 /\ a_type a <> 15) attrs.

(** The next hop after the attributes: that of the last MP_REACH_NLRI that
    carries one. *)
Definition nh_step (nh : option (list Z)) (a : attr) : option (list Z) :=
  if a_type a =? 14 then
    match mp_reach_next_hop (a_value a) with
    | Some n => Some n
    | None => nh
    end
  else nh.

Definition blob_attrs (raw : list Z) : list attr :=
  fst (attrs_of (pa_blob raw)).

Lemma attr_header_drop blob pos :
  (pos <= length blob)%nat -> attr_header blob pos = attr_header (drop pos blob) 0.
Proof.
  intros. unfold attr_header, byte_at. rewrite !nth_skipn, !length_drop.
  replace (pos + 0)%nat with pos by lia.
  assert (forall n, (length blob - pos <? 0 + n)%nat = (length blob <? pos + n)%nat)
    as Hn by (intros n; destruct (Nat.ltb_spec (length blob - pos) (0 + n)),
                (Nat.ltb_spec (length blob) (pos + n)); lia).
  by rewrite !Hn.
Qed.

Lemma take_n_take n l :
  (n <= length l)%nat -> take_n n l = Some (take n l, drop n l).
Proof. intros. unfold take_n. by rewrite (proj2 (Nat.leb_le _ _)). Qed.

Lemma take_n_None n l : (length l < n)%nat -> take_n n l = None.
Proof. intros. unfold take_n. by rewrite (proj2 (Nat.leb_gt _ _)). Qed.

(** The index arithmetic of the walk is the parser's reading of the front of
    the remaining bytes. *)
Lemma parse_attr_header f ty l :
  let d := f :: ty :: l in
  parse_attr d =
    match attr_header d 0 with
    | None => None
    | Some (al, hl) =>
        if (length d <? hl + al)%nat then None
        else Some (mk_attr (take (hl + al) d) ty (take al (drop hl d)),
                   drop (hl + al) d)
    end.
Proof.
  cbv zeta. unfold parse_attr, attr_header, byte_at.
  change (nth 0 (f :: ty :: l) 0) with f.
  destruct (Z.land f 16 =? 0); cbn [negb].
  - destruct l as [|b l]; [done|].
    change (take_n 1 (b :: l)) with (Some ([b], l)).
    change (length (f :: ty :: b :: l) <? 0 + 3)%nat with false.
    change (nth (0 + 2) (f :: ty :: b :: l) 0) with b.
    cbn [mbind option_bind]. change (be_val [b]) with b.
    destruct (Nat.ltb_spec (length (f :: ty :: b :: l)) (3 + Z.to_nat b)) as [H|H];
      cbn [length] in H.
    + by rewrite take_n_None by lia.
    + by rewrite take_n_take by lia.
  - destruct l as [|b [|c l]]; [done..|].
    change (take_n 2 (b :: c :: l)) with (Some ([b; c], l)).
    change (length (f :: ty :: b :: c :: l) <? 0 + 4)%nat with false.
    change (nth (0 + 2) (f :: ty :: b :: c :: l) 0) with b.
    change (nth (0 + 3) (f :: ty :: b :: c :: l) 0) with c.
    cbn [mbind option_bind]. set (n := Z.to_nat (be_val [b; c])).
    destruct (Nat.ltb_spec (length (f :: ty :: b :: c :: l)) (4 + n)) as [H|H];
      cbn [length] in H.
    + by rewrite take_n_None by lia.
    + by rewrite take_n_take by lia.
Qed.

Lemma slice_drop a n (l : list Z) : slice a (a + n) l = take n (drop a l).
Proof. unfold slice. f_equal. lia. Qed.

Lemma filter_loop_spec fuel blob pos res nh :
  (pos <= length blob)%nat -> (length blob - pos < fuel)%nat ->
  let attrs := fst (attrs_of (drop pos blob)) in
  filter_loop fuel blob pos res nh
  = Some (res ++ concat (a_raw <$> kept attrs), foldl nh_step nh attrs).
Proof.
  revert pos res nh. induction fuel as [|fuel IH]; intros pos res nh Hpos Hf; [lia|].
  cbv zeta. cbn [filter_loop]. pose proof (length_drop blob pos) as Hd.
  destruct (Nat.ltb_spec pos (length blob)) as [Hlt|Hge].
  2: { destruct (drop pos blob); [|cbn in Hd; lia]. cbn. by rewrite app_nil_r. }
  destruct (Nat.ltb_spec (length blob) (pos + 2)) as [Hs|Hs].
  { rewrite attrs_of_stop; [cbn; by rewrite app_nil_r|].
    destruct (drop pos blob) as [|f [|ty l]]; [done..|cbn in Hd; lia]. }
  rewrite attr_header_drop by lia. unfold byte_at.
  rewrite <- nth_skipn. destruct (drop pos blob) as [|f [|ty l]] eqn:Ed;
    [cbn in Hd; lia..|]. cbn [nth].
  pose proof (parse_attr_header f ty l) as Hp. cbv zeta in Hp.
  destruct (attr_header (f :: ty :: l) 0) as [[al hl]|] eqn:Eh.
  2: { rewrite attrs_of_stop by done. cbn. by rewrite app_nil_r. }
  assert ((length (f :: ty :: l) <? hl + al)%nat = (length blob <? pos + (hl + al))%nat)
    as Hlen.
  { destruct (Nat.ltb_spec (length (f :: ty :: l)) (hl + al)),
      (Nat.ltb_spec (length blob) (pos + (hl + al))); lia. }
  rewrite Hlen in Hp. destruct (Nat.ltb_spec (length blob) (pos + (hl + al))) as [Ht|Ht].
  { rewrite attrs_of_stop by done. cbn. by rewrite app_nil_r. }
  rewrite (attrs_of_cons _ _ _ Hp). cbn [fst].
  pose proof (parse_attr_Some _ _ _ Hp) as [_ Hraw]. cbn [a_raw] in Hraw.
  rewrite length_take in Hraw.
  assert (drop (hl + al) (f :: ty :: l) = drop (pos + (hl + al)) blob) as ->.
  { rewrite <- Ed, drop_drop. done. }
  rewrite slice_drop, Ed.
  replace (slice (pos + hl) (pos + (hl + al)) blob)
    with (take al (drop hl (f :: ty :: l))).
  2: { rewrite <- Ed, drop_drop, Nat.add_assoc, slice_drop. done. }
  unfold kept. rewrite filter_cons. cbn [a_type foldl]. unfold nh_step at 2.
  cbn [a_type a_value].
  destruct (Z.eqb_spec ty 14) as [->|H14]; [|destruct (Z.eqb_spec ty 15) as [->|H15]];
    cbn [negb]; rewrite IH by lia; fold (kept (fst (attrs_of (drop (pos + (hl + al)) blob)))).
  - rewrite decide_False by (cbn; lia). done.
  - rewrite decide_False by (cbn; lia). done.
  - rewrite decide_True by (cbn; lia). rewrite fmap_cons. cbn [concat a_raw].
    by rewrite app_assoc.
Qed.

Lemma kept_ok raw : Forall attr_ok (kept (blob_attrs raw)).
Proof.
  apply Forall_forall. intros a [_ Ha]%list_elem_of_filter.
  pose proof (attrs_of_ok (pa_blob raw)) as Hok.
  rewrite Forall_forall in Hok. auto.
Qed.

Lemma filter_pa_eq raw :
  filter_loop (S (length (pa_blob raw))) (pa_blob raw) 0 [] None
    = Some (filter_pa_from_raw raw)
  /\ filter_pa_from_raw raw
     = (concat (a_raw <$> kept (blob_attrs raw)),
        foldl nh_step None (blob_attrs raw)).
Proof.
  assert (filter_loop (S (length (pa_blob raw))) (pa_blob raw) 0 [] None
    = Some (concat (a_raw <$> kept (blob_attrs raw)),
            foldl nh_step None (blob_attrs raw))) as Hl.
  { rewrite filter_loop_spec by lia. by rewrite drop_0. }
  assert (filter_pa_from_raw raw
    = (concat (a_raw <$> kept (blob_attrs raw)),
       foldl nh_step None (blob_attrs raw))) as Hr; [|by rewrite Hr].
  unfold filter_pa_from_raw. destruct (Nat.ltb_spec (length raw) 2) as [Hs|_].
  - unfold blob_attrs, pa_blob. rewrite drop_ge by lia. done.
  - unfold pa_blob in Hl. by rewrite Hl.
Qed.

Lemma decode_filtered raw :
  decode_attrs (fst (filter_pa_from_raw raw)) = Some (kept (blob_attrs raw)).
Proof.
  rewrite (proj2 (filter_pa_eq raw)). apply decode_attrs_concat, kept_ok.
Qed.

(** ** NLRI *)
Section Nlri.
Context `{E : Extern}.
Implicit Types p : Prefix.

Lemma num_bytes_le p : (num_bytes p <= addr_size (prefix_is_v4 p))%nat.
Proof.
  unfold num_bytes, prefix_is_v4. pose proof (prefix_len_bound p).
  set (n := addr_size _) in *. apply Nat2Z.inj_le.
  rewrite Z2Nat.id by (apply Z.div_pos; lia).
  apply Z.lt_succ_r, Z.div_lt_upper_bound; lia.
Qed.

Lemma length_octets a : length (octets a) = addr_size (is_ipv4 a).
Proof. apply length_be_bytes. Qed.

Lemma num_bytes_Z p : Z.of_nat (num_bytes p) = (prefix_len p + 7) / 8.
Proof.
  unfold num_bytes. pose proof (prefix_len_bound p).
  apply Z2Nat.id, Z.div_pos; lia.
Qed.

Lemma zlen_encode p : zlen (encode_prefix_nlri p) = nlri_encoded_len p.
Proof.
  unfold encode_prefix_nlri, append_prefix_nlri, nlri_encoded_len.
  pose proof (num_bytes_le p). rewrite app_nil_l, zlen_app, zlen_take.
  - by rewrite num_bytes_Z.
  - by rewrite length_octets.
Qed.

Lemma nlri_encoded_len_bound p :
  1 <= nlri_encoded_len p <= 1 + Z.of_nat (addr_size (prefix_is_v4 p)).
Proof.
  unfold nlri_encoded_len. rewrite <- num_bytes_Z.
  pose proof (num_bytes_le p). lia.
Qed.

Lemma octets_truncate p :
  take (num_bytes p) (octets (prefix_addr p))
    ++ zeros (addr_size (prefix_is_v4 p) - num_bytes p)
  = octets (prefix_addr p).
Proof.
  apply be_bytes_truncate; [apply num_bytes_le|].
  pose proof (prefix_host_bits p) as Hh. pose proof (num_bytes_le p) as Hn.
  pose proof (prefix_len_bound p) as Hl. unfold prefix_is_v4 in *.
  set (n := addr_size _) in *.
  assert (prefix_len p <= 8 * Z.of_nat (num_bytes p)) as Hb.
  { rewrite num_bytes_Z. pose proof (Z.div_mod (prefix_len p + 7) 8).
    pose proof (Z.mod_pos_bound (prefix_len p + 7) 8). lia. }
  replace (256 ^ Z.of_nat (n - num_bytes p))
    with (2 ^ (8 * Z.of_nat (n - num_bytes p))) by (by rewrite Z.pow_mul_r by lia).
  apply Z.mod_divide in Hh; [|apply Z.pow_nonzero; lia].
  apply Z.mod_divide; [apply Z.pow_nonzero; lia|].
  eapply Z.divide_trans; [|exact Hh].
  exists (2 ^ (8 * Z.of_nat n - prefix_len p - 8 * Z.of_nat (n - num_bytes p))).
  rewrite <- Z.pow_add_r by lia. f_equal. lia.
Qed.

Lemma decode_encode_prefix p k :
  decode_prefix (prefix_is_v4 p) (encode_prefix_nlri p ++ k) = Some (p, k).
Proof.
  unfold decode_prefix, encode_prefix_nlri, append_prefix_nlri.
  pose proof (num_bytes_le p) as Hn.
  rewrite app_nil_l, <- app_assoc. cbn [app]. rewrite uint_1.
  cbn [mbind option_bind]. fold (num_bytes p).
  rewrite take_n_app by (rewrite length_take, length_octets; unfold prefix_is_v4 in Hn; lia).
  cbn [mbind option_bind]. rewrite (proj2 (Nat.leb_le _ _) Hn).
  cbn [check mbind option_bind]. rewrite octets_truncate.
  assert ((if prefix_is_v4 p then V4 (be_val (octets (prefix_addr p)))
           else V6 (be_val (octets (prefix_addr p)))) = prefix_addr p) as ->.
  { unfold prefix_is_v4, octets. rewrite be_val_be_bytes_small by apply prefix_addr_wf.
    by destruct (prefix_addr p). }
  by rewrite prefix_new_self.
Qed.

(** Every prefix of an UPDATE belongs to its address family. *)
Definition all_family (v4 : bool) (ps : list Prefix) : Prop :=
  Forall (fun p => prefix_is_v4 p = v4) ps.

Definition nlri_bytes (ps : list Prefix) : list Z :=
  concat (encode_prefix_nlri <$> ps).

Lemma foldl_append ps buf :
  foldl append_prefix_nlri buf ps = buf ++ nlri_bytes ps.
Proof.
  unfold nlri_bytes. revert buf. induction ps as [|p ps IH]; intros buf.
  - cbn. by rewrite app_nil_r.
  - cbn [foldl]. rewrite IH, fmap_cons. cbn [concat].
    unfold encode_prefix_nlri at 2, append_prefix_nlri.
    by rewrite app_nil_l, !app_assoc.
Qed.

Lemma zlen_nlri_bytes ps :
  zlen (nlri_bytes ps) = foldr (fun p n => nlri_encoded_len p + n) 0 ps.
Proof.
  unfold nlri_bytes. induction ps as [|p ps IH]; [done|].
  rewrite fmap_cons. cbn [concat foldr]. rewrite zlen_app, IH, zlen_encode. done.
Qed.

Lemma nlri_of_bytes v4 ps :
  all_family v4 ps -> nlri_of v4 (nlri_bytes ps) = Some ps.
Proof.
  unfold nlri_of, nlri_bytes, all_family. intros Hf.
  enough (forall fuel, (length (concat (encode_prefix_nlri <$> ps)) <= fuel)%nat ->
    decode_nlri fuel v4 (concat (encode_prefix_nlri <$> ps)) = Some ps)
    as H by (by apply H).
  induction Hf as [|p ps Hp _ IH]; intros fuel Hl; [by destruct fuel|].
  rewrite fmap_cons in *. cbn [concat] in *.
  pose proof (zlen_encode p) as He. pose proof (nlri_encoded_len_bound p).
  rewrite length_app in Hl. unfold zlen in He.
  destruct fuel as [|fuel]; [lia|].
  destruct (encode_prefix_nlri p ++ concat (encode_prefix_nlri <$> ps)) as [|b l] eqn:El.
  { apply (f_equal length) in El. rewrite length_app in El. cbn in El. lia. }
  cbn [decode_nlri]. rewrite <- El, <- Hp, decode_encode_prefix.
  cbn [mbind option_bind]. rewrite Hp, IH by lia. done.
Qed.

End Nlri.

(** ** Headers and framing *)

(** The fields have the widths of the struct's types, and the V flag agrees
    with the family of the address. *)
Record peer_ok (peer : PeerInfo) : Prop := {
  ok_distinguisher : length (pi_distinguisher peer) = 8%nat;
  ok_bgp_id : length (pi_bgp_id peer) = 4%nat;
  ok_address : addr_wf (pi_address peer);
  ok_asn : 0 <= pi_asn peer < 256 ^ 4;
  ok_flags : Z.testbit (pi_flags peer) 7 = is_ipv6 (pi_address peer)
}.

(** The fields of an [IngressInfo] have the widths of the struct's types. *)
Record info_ok (i : IngressInfo) : Prop := {
  info_distinguisher d : distinguisher i = Some d -> length d = 8%nat;
  info_address a : remote_addr i = Some a -> addr_wf a;
  info_asn n : remote_asn i = Some n -> 0 <= n < 256 ^ 4
}.

Lemma peer_flags_v a t : Z.testbit (peer_flags_of a t) 7 = is_ipv6 a.
Proof. unfold peer_flags_of. by destruct (is_ipv6 a), t as [[]|]. Qed.

Lemma from_ingress_info_ok i : info_ok i -> peer_ok (from_ingress_info i).
Proof.
  intros [Hd Ha Hn]. split; cbn.
  - destruct (distinguisher i); [by apply Hd|done].
  - done.
  - destruct (remote_addr i); [by apply Ha|]. by vm_compute.
  - destruct (remote_asn i); [by apply Hn|]. by vm_compute.
  - apply peer_flags_v.
Qed.

Lemma set_admin_label_ok l peer : peer_ok peer -> peer_ok (set_admin_label l peer).
Proof. intros []. by split. Qed.

Lemma apply_fan_in_ok tag peer :
  length tag = 8%nat -> peer_ok peer -> peer_ok (apply_fan_in_distinguisher tag peer).
Proof. intros Ht Hp. unfold apply_fan_in_distinguisher. case_bool; [|done]. destruct Hp. by split. Qed.

#[export] Hint Resolve from_ingress_info_ok set_admin_label_ok apply_fan_in_ok : rotonda.

Section Wire.
Context `{E : Extern}.
Implicit Types p : Prefix.

(** What the per-peer header of [peer] says; the clock is cut to 32 bits. *)
Definition header_of (now : Clock) (peer : PeerInfo) : per_peer :=
  mk_per_peer (peer_type_byte (pi_type peer)) (pi_flags peer)
    (pi_distinguisher peer) (pi_address peer) (pi_asn peer) (pi_bgp_id peer)
    (as_secs now mod 256 ^ 4) (subsec_micros now mod 256 ^ 4).

(** The address field: 16 bytes. *)
Definition addr_field (a : IpAddr) : list Z :=
  match a with V4 _ => zeros 12 ++ octets a | V6 _ => octets a end.

Lemma length_addr_field a : length (addr_field a) = 16%nat.
Proof. destruct a; cbn [addr_field]; rewrite ?length_app, length_octets; done. Qed.

Lemma write_header_app now buf peer :
  write_per_peer_header now buf peer = buf ++ write_per_peer_header now [] peer.
Proof. done. Qed.

Lemma zlen_header now peer :
  peer_ok peer -> zlen (write_per_peer_header now [] peer) = BMP_PER_PEER_HEADER_LEN.
Proof.
  intros [Hd Hb _ _ _]. unfold write_per_peer_header. fold (addr_field (pi_address peer)).
  unfold zlen. rewrite app_nil_l, !length_app, !length_be_bytes, length_addr_field, Hd, Hb.
  done.
Qed.

Lemma addr_field_val a :
  addr_wf a ->
  (if is_ipv6 a then V6 (be_val (addr_field a)) else V4 (be_val (drop 12 (addr_field a)))) = a.
Proof.
  intros Ha. destruct a as [v|v]; cbn [is_ipv6 addr_field].
  - rewrite drop_app_exact by done. unfold octets. by rewrite be_val_be_bytes_small.
  - unfold octets. by rewrite be_val_be_bytes_small.
Qed.

Lemma decode_header now peer k :
  peer_ok peer ->
  decode_per_peer (write_per_peer_header now [] peer ++ k) = Some (header_of now peer, k).
Proof.
  intros [Hd Hb Ha Hn Hf]. unfold decode_per_peer, write_per_peer_header.
  fold (addr_field (pi_address peer)). rewrite app_nil_l, <- !app_assoc. cbn [app].
  rewrite uint_1. cbn [mbind option_bind]. rewrite uint_1. cbn [mbind option_bind].
  rewrite take_n_app by done. cbn [mbind option_bind].
  rewrite take_n_app by (by rewrite length_addr_field). cbn [mbind option_bind].
  rewrite uint_app_small by done. cbn [mbind option_bind].
  rewrite take_n_app by done. cbn [mbind option_bind].
  rewrite uint_app. cbn [mbind option_bind]. rewrite uint_app. cbn [mbind option_bind].
  rewrite Hf, addr_field_val by done. done.
Qed.

(** A message with a per-peer header and a body. *)
Definition peer_message (now : Clock) (peer : PeerInfo) (ty : Z) (body : list Z)
  : list Z :=
  write_per_peer_header now
    (write_common_header [] ty
       (BMP_COMMON_HEADER_LEN + BMP_PER_PEER_HEADER_LEN + zlen body)) peer ++ body.

Lemma decode_common_frame ty len body :
  len = 6 + zlen body -> len < 256 ^ 4 ->
  decode_common (write_common_header [] ty len ++ body) = Some (ty, body).
Proof.
  intros Hl Hb. pose proof (zlen_nonneg body). unfold decode_common, write_common_header.
  rewrite app_nil_l, <- !app_assoc. cbn [app]. rewrite uint_1. cbn [mbind option_bind].
  rewrite uint_app_small by (cbn [Z.of_nat Pos.of_succ_nat Pos.succ]; lia).
  cbn [mbind option_bind]. rewrite uint_1. cbn [mbind option_bind].
  zlen_simpl. change (BMP_VERSION =? 3) with true.
  rewrite (proj2 (Z.eqb_eq len _)) by lia. done.
Qed.

Lemma decode_peer_message now peer ty body :
  peer_ok peer -> zlen body < 256 ^ 4 - 48 ->
  decode_common (peer_message now peer ty body)
    = Some (ty, write_per_peer_header now [] peer ++ body)
  /\ decode_per_peer (write_per_peer_header now [] peer ++ body)
    = Some (header_of now peer, body).
Proof.
  intros Hp Hb. split; [|by apply decode_header].
  unfold peer_message. rewrite write_header_app, <- app_assoc.
  apply decode_common_frame; rewrite ?zlen_app, ?zlen_header by done;
    unfold BMP_COMMON_HEADER_LEN, BMP_PER_PEER_HEADER_LEN; lia.
Qed.

(** A BGP message with its header. *)
Definition bgp_message (ty : Z) (body : list Z) : list Z :=
  BGP_MARKER ++ be_bytes 2 (19 + zlen body) ++ [ty] ++ body.

Lemma decode_bgp_message ty body :
  19 + zlen body <= u16_max -> decode_bgp (bgp_message ty body) = Some (ty, body).
Proof.
  unfold u16_max. intros Hb. pose proof (zlen_nonneg body).
  unfold decode_bgp, bgp_message.
  rewrite take_n_app by done. cbn [mbind option_bind].
  rewrite uint_app_small by (cbn [Z.of_nat Pos.of_succ_nat Pos.succ]; lia).
  cbn [mbind option_bind app]. rewrite uint_1. cbn [mbind option_bind].
  zlen_simpl. change (zlen BGP_MARKER) with 16.
  rewrite bool_decide_true, (proj2 (Z.eqb_eq _ _)) by (done || lia). done.
Qed.

(** An UPDATE from its three fields. *)
Definition update_body (w pa nlri : list Z) : list Z :=
  be_bytes 2 (zlen w) ++ w ++ be_bytes 2 (zlen pa) ++ pa ++ nlri.

Lemma zlen_update_body w pa nlri :
  zlen (update_body w pa nlri) = 4 + zlen w + zlen pa + zlen nlri.
Proof. unfold update_body. zlen_simpl. lia. Qed.

Lemma uint_len n (l k : list Z) :
  zlen l < 256 ^ Z.of_nat n -> uint n (be_bytes n (zlen l) ++ k) = Some (zlen l, k).
Proof. intros. pose proof (zlen_nonneg l). by apply uint_app_small. Qed.

Lemma zlen_to_nat {A} (l : list A) : Z.to_nat (zlen l) = length l.
Proof. unfold zlen. lia. Qed.

Lemma decode_update_message w pa nlri ws attrs ps :
  23 + zlen w + zlen pa + zlen nlri <= u16_max ->
  nlri_of true w = Some ws -> decode_attrs pa = Some attrs ->
  nlri_of true nlri = Some ps ->
  decode_update (bgp_message BGP_MSG_UPDATE (update_body w pa nlri))
  = view_attrs attrs (mk_view ws ps None []).
Proof.
  intros Hb Hw Hpa Hn. unfold decode_update. unfold u16_max in *.
  pose proof (zlen_nonneg w). pose proof (zlen_nonneg pa). pose proof (zlen_nonneg nlri).
  rewrite decode_bgp_message by (rewrite zlen_update_body; unfold u16_max; lia).
  cbn [mbind option_bind check BGP_MSG_UPDATE Z.eqb Pos.eqb]. unfold update_body.
  rewrite uint_len by (cbn [Z.of_nat Pos.of_succ_nat Pos.succ]; lia). cbn [mbind option_bind].
  rewrite zlen_to_nat, take_n_app by done. cbn [mbind option_bind].
  rewrite uint_len by (cbn [Z.of_nat Pos.of_succ_nat Pos.succ]; lia). cbn [mbind option_bind].
  rewrite zlen_to_nat, take_n_app by done. cbn [mbind option_bind].
  by rewrite Hw, Hpa, Hn.
Qed.

Lemma decode_rm now peer upd v :
  peer_ok peer -> zlen upd <= u16_max -> decode_update upd = Some v ->
  decode_route_monitoring (peer_message now peer BMP_MSG_ROUTE_MONITORING upd)
  = Some (header_of now peer, v).
Proof.
  intros Hp Hl Hv. unfold decode_route_monitoring.
  destruct (decode_peer_message now peer BMP_MSG_ROUTE_MONITORING upd) as [H1 H2];
    [done|unfold u16_max in Hl; lia|].
  rewrite H1. cbn [mbind option_bind BMP_MSG_ROUTE_MONITORING Z.eqb check].
  rewrite H2. cbn [mbind option_bind]. by rewrite Hv.
Qed.

End Wire.

(** ** Multiprotocol attributes *)
Section Mp.
Context `{E : Extern}.
Implicit Types p : Prefix.

(** An optional attribute with a length of one or two bytes. *)
Definition mp_attr (ty : Z) (value : list Z) : list Z :=
  (if zlen value >? 255 then [144; ty] ++ be_bytes 2 (zlen value)
   else [128; ty; wrap 8 (zlen value)]) ++ value.

Definition mp_attr_ext (ty : Z) (value : list Z) : list Z :=
  [144; ty] ++ be_bytes 2 (zlen value) ++ value.

Lemma parse_mp_attr_ext ty value :
  zlen value < 65536 ->
  parse_attr (mp_attr_ext ty value) = Some (mk_attr (mp_attr_ext ty value) ty value, []).
Proof.
  intros Hl. pose proof (zlen_nonneg value). unfold mp_attr_ext. cbn [app parse_attr].
  change (negb (Z.land 144 16 =? 0)) with true. cbn match.
  rewrite take_n_app by (by rewrite length_be_bytes). cbn [mbind option_bind].
  rewrite be_val_be_bytes_small by (cbn [Z.of_nat Pos.of_succ_nat Pos.succ]; lia).
  rewrite zlen_to_nat. rewrite <- (app_nil_r value) at 2.
  rewrite take_n_app by done. done.
Qed.

Lemma parse_mp_attr ty value :
  zlen value < 65536 ->
  parse_attr (mp_attr ty value) = Some (mk_attr (mp_attr ty value) ty value, []).
Proof.
  intros Hl. pose proof (zlen_nonneg value). unfold mp_attr.
  destruct (zlen value >? 255) eqn:Hv; zify_bools.
  - rewrite <- app_assoc. by apply parse_mp_attr_ext.
  - cbn [app parse_attr]. change (negb (Z.land 128 16 =? 0)) with false. cbn match.
    change (wrap 8 (zlen value) :: value) with ([wrap 8 (zlen value)] ++ value).
    rewrite take_n_app by done. cbn [mbind option_bind].
    change (be_val [wrap 8 (zlen value)]) with (wrap 8 (zlen value)).
    unfold wrap. rewrite Z.mod_small by lia. rewrite zlen_to_nat.
    rewrite <- (app_nil_r value) at 2. rewrite take_n_app by done. done.
Qed.

Lemma zlen_mp_attr_ext ty value : zlen (mp_attr_ext ty value) = 4 + zlen value.
Proof. unfold mp_attr_ext. zlen_simpl. lia. Qed.

Lemma zlen_mp_attr ty value :
  zlen (mp_attr ty value) = (if zlen value >? 255 then 4 else 3) + zlen value.
Proof. unfold mp_attr. case_bool; zlen_simpl; lia. Qed.

(** The value of MP_REACH_NLRI and of MP_UNREACH_NLRI. *)
Definition reach_value (afi : Z) (nh nlri : list Z) : list Z :=
  be_bytes 2 afi ++ [1] ++ [wrap 8 (zlen nh)] ++ nh ++ [0] ++ nlri.

Definition unreach_value (afi : Z) (nlri : list Z) : list Z :=
  be_bytes 2 afi ++ [1] ++ nlri.

Lemma zlen_reach_value afi nh nlri :
  zlen (reach_value afi nh nlri) = 2 + 1 + 1 + zlen nh + 1 + zlen nlri.
Proof. unfold reach_value. zlen_simpl. lia. Qed.

Lemma zlen_unreach_value afi nlri : zlen (unreach_value afi nlri) = 2 + 1 + zlen nlri.
Proof. unfold unreach_value. zlen_simpl. lia. Qed.

Lemma decode_reach_value nh nlri ps :
  zlen nh <= 255 -> nlri_of false nlri = Some ps ->
  decode_mp_reach (reach_value 2 nh nlri) = Some (nh, ps).
Proof.
  intros Hl Hn. pose proof (zlen_nonneg nh). unfold decode_mp_reach, reach_value.
  rewrite uint_app_small by (cbn; lia). cbn [mbind option_bind app].
  rewrite uint_1. cbn [mbind option_bind]. rewrite uint_1. cbn [mbind option_bind].
  unfold wrap. rewrite Z.mod_small by lia. rewrite zlen_to_nat.
  rewrite take_n_app by done. cbn [mbind option_bind]. rewrite uint_1.
  cbn [mbind option_bind check Z.eqb Pos.eqb andb]. by rewrite Hn.
Qed.

Lemma decode_unreach_value nlri ps :
  nlri_of false nlri = Some ps -> decode_mp_unreach (unreach_value 2 nlri) = Some ps.
Proof.
  intros Hn. unfold decode_mp_unreach, unreach_value.
  rewrite uint_app_small by (cbn; lia). cbn [mbind option_bind app].
  rewrite uint_1. cbn [mbind option_bind check Z.eqb Pos.eqb andb]. done.
Qed.

(** Attributes other than the two multiprotocol ones. *)
Definition plain (attrs : list attr) : Prop :=
  Forall (fun a => a_type a <> 14 /\ a_type a <> 15) attrs.

Lemma kept_plain attrs : plain (kept attrs).
Proof. apply Forall_forall. by intros a [Ha _]%list_elem_of_filter. Qed.

Lemma view_plain attrs rest v :
  plain attrs ->
  view_attrs (attrs ++ rest) v
  = view_attrs rest (mk_view (v_withdrawn v) (v_announced v) (v_next_hop v)
                       (v_attrs v ++ attrs)).
Proof.
  intros Hp. revert v. induction Hp as [|a attrs [H14 H15] _ IH]; intros v.
  - cbn [app]. rewrite app_nil_r. by destruct v.
  - cbn [app view_attrs]. rewrite (proj2 (Z.eqb_neq _ _) H14), (proj2 (Z.eqb_neq _ _) H15).
    rewrite IH. cbn. by rewrite <- app_assoc.
Qed.

Lemma view_plain_nil attrs v :
  plain attrs ->
  view_attrs attrs v
  = Some (mk_view (v_withdrawn v) (v_announced v) (v_next_hop v) (v_attrs v ++ attrs)).
Proof. intros Hp. rewrite <- (app_nil_r attrs) at 1. by rewrite view_plain. Qed.

(** Next hops read from attributes fit their one-byte length. *)
Lemma mp_reach_next_hop_short v nh :
  Forall is_byte v -> mp_reach_next_hop v = Some nh -> zlen nh <= 255.
Proof.
  intros Hb. unfold mp_reach_next_hop, byte_at. case_bool; [|done]. case_bool; [|done].
  intros [= <-]. unfold slice, zlen. rewrite length_take.
  destruct v as [|a [|b [|c [|d v]]]]; try done. cbn [nth].
  rewrite !Forall_cons in Hb. unfold is_byte in Hb. lia.
Qed.

Lemma attrs_value_bytes l :
  Forall is_byte l -> Forall (fun a => Forall is_byte (a_value a)) (fst (attrs_of l)).
Proof.
  unfold attrs_of. generalize (length l) as n. intros n. revert l.
  induction n as [|n IH]; intros l Hb; cbn; [constructor|].
  destruct (parse_attr l) as [[a l']|] eqn:Ea; [|constructor].
  assert (Forall is_byte (a_value a) /\ Forall is_byte l') as [Ha Hl'].
  { revert Ea. unfold parse_attr. destruct l as [|flags [|ty l1]]; [done..|].
    destruct (take_n _ l1) as [[lenb l2]|] eqn:E1; [|done]. cbn.
    destruct (take_n _ l2) as [[value l3]|] eqn:E2; [|done]. cbn.
    intros [= <- <-]. apply take_n_Some in E1 as [-> H1], E2 as [-> H2].
    rewrite !Forall_cons, !Forall_app in Hb. cbn. tauto. }
  specialize (IH _ Hl'). destruct (parse_attrs n l') as [attrs r]. by constructor.
Qed.

Definition short_hop (nh : option (list Z)) : Prop :=
  forall l, nh = Some l -> zlen l <= 255.

Lemma filtered_hop_short r :
  Forall is_byte r -> short_hop (snd (filter_pa_from_raw r)).
Proof.
  intros Hb. rewrite (proj2 (filter_pa_eq r)). cbn [snd].
  assert (Forall (fun a => Forall is_byte (a_value a)) (blob_attrs r)) as Ha
    by (by apply attrs_value_bytes, Forall_drop).
  assert (short_hop None) as Hn by done. revert Hn. generalize (@None (list Z)).
  induction Ha as [|a attrs Ha _ IH]; intros nh Hn; [done|].
  cbn [foldl]. apply IH. unfold nh_step. case_bool; [|done].
  destruct (mp_reach_next_hop (a_value a)) eqn:Em; [|done].
  intros l0 [= <-]. eauto using mp_reach_next_hop_short.
Qed.

Lemma hop_default_short nh n :
  short_hop nh -> (n <= 255)%nat -> zlen (default (zeros n) nh) <= 255.
Proof. intros Hs Hn. destruct nh; cbn [default]; [by apply Hs|]. rewrite zlen_zeros. lia. Qed.

End Mp.

(** ** The builders as compositions of framed parts *)
Section Updates.
Context `{E : Extern}.
Implicit Types p : Prefix.

(** The prefix of a route. *)
Definition route_prefix (r : RotondaRoute) : Prefix :=
  match r with
  | RR_Ipv4Unicast n _ | RR_Ipv6Unicast n _
  | RR_Ipv4Multicast n _ | RR_Ipv6Multicast n _ => n
  end.

Lemma from_route_eq now peer r wd :
  build_route_monitoring_from_route now peer r wd
  = build_route_monitoring now peer (route_prefix r) (rotonda_pamap r) wd.
Proof.
  unfold build_route_monitoring_from_route. by destruct r; rewrite prefix_new_self.
Qed.

Lemma nlri_of_one p : nlri_of (prefix_is_v4 p) (encode_prefix_nlri p) = Some [p].
Proof.
  rewrite <- (app_nil_r (encode_prefix_nlri p)).
  apply (nlri_of_bytes _ [p]). by repeat constructor.
Qed.

Lemma nlri_of_nil v4 : nlri_of v4 [] = Some [].
Proof. done. Qed.

Lemma mp_reach_eq p nh :
  prefix_is_v4 p = false ->
  build_mp_reach_nlri p nh
  = mp_attr 14 (reach_value 2 (default (zeros 16) nh) (encode_prefix_nlri p)).
Proof.
  intros Hv. unfold build_mp_reach_nlri, mp_attr. rewrite Hv, zlen_reach_value.
  by destruct nh.
Qed.

Lemma mp_unreach_eq p :
  prefix_is_v4 p = false ->
  build_mp_unreach_nlri p = mp_attr 15 (unreach_value 2 (encode_prefix_nlri p)).
Proof. intros Hv. unfold build_mp_unreach_nlri, mp_attr. by rewrite Hv, zlen_unreach_value. Qed.

Lemma update_eq pa nlri total :
  total = 19 + (2 + 2 + zlen pa + zlen nlri) ->
  BGP_MARKER ++ be_bytes 2 total ++ [BGP_MSG_UPDATE]
    ++ be_bytes 2 0 ++ be_bytes 2 (zlen pa) ++ pa ++ nlri
  = bgp_message BGP_MSG_UPDATE (update_body [] pa nlri).
Proof.
  intros ->. unfold bgp_message. rewrite zlen_update_body. unfold update_body.
  replace (4 + zlen (@nil Z) + zlen pa + zlen nlri)
    with (2 + 2 + zlen pa + zlen nlri) by (rewrite zlen_nil; lia).
  done.
Qed.

Lemma update_eq_pa pa plen total :
  plen = zlen pa -> total = 19 + (2 + 2 + plen) ->
  BGP_MARKER ++ be_bytes 2 total ++ [BGP_MSG_UPDATE]
    ++ be_bytes 2 0 ++ be_bytes 2 plen ++ pa
  = bgp_message BGP_MSG_UPDATE (update_body [] pa []).
Proof.
  intros -> ->. rewrite <- (update_eq pa [] _ eq_refl), app_nil_r, (@zlen_nil Z).
  by rewrite Z.add_0_r.
Qed.

Lemma zlen_update_message w pa nlri :
  zlen (bgp_message BGP_MSG_UPDATE (update_body w pa nlri))
  = 23 + zlen w + zlen pa + zlen nlri.
Proof.
  unfold bgp_message. rewrite !zlen_app, zlen_update_body.
  change (zlen BGP_MARKER) with 16. zlen_simpl. lia.
Qed.

(** Length of the UPDATE that announces [p] with these raw attributes. *)
Definition announce_len (p : Prefix) (r : list Z) : Z :=
  let '(pa, nh) := filter_pa_from_raw r in
  23 + zlen pa
  + (if prefix_is_v4 p then nlri_encoded_len p
     else zlen (build_mp_reach_nlri p nh)).

Definition announce_view (p : Prefix) (r : list Z) : update_view :=
  mk_view [] [p]
    (if prefix_is_v4 p then None
     else Some (default (zeros 16) (foldl nh_step None (blob_attrs r))))
    (kept (blob_attrs r)).

Lemma announce_update p r :
  Forall is_byte r ->
  match build_bgp_update p (mk_pamap r) false with
  | Some upd =>
      announce_len p r <= u16_max /\ zlen upd = announce_len p r
      /\ decode_update upd = Some (announce_view p r)
  | None => u16_max < announce_len p r
  end.
Proof.
  intros Hb. pose proof (decode_filtered r) as Hd. pose proof (filtered_hop_short r Hb) as Hs.
  pose proof (proj2 (filter_pa_eq r)) as Hf. unfold announce_view.
  unfold build_bgp_update, announce_len, filter_raw_path_attributes. cbn [raw].
  destruct (filter_pa_from_raw r) as [pa nh]. cbn [fst snd] in *. simplify_eq.
  set (pa := concat _) in *. pose proof (zlen_nonneg pa).
  pose proof (kept_plain (blob_attrs r)) as Hp.
  destruct (prefix_is_v4 p) eqn:Ev.
  - rewrite zlen_encode. case_bool; zify_bools; [lia|].
    rewrite update_eq by (rewrite zlen_encode; lia).
    split; [lia|]. split.
    { rewrite zlen_update_message, zlen_encode, zlen_nil. lia. }
    pose proof (nlri_of_one p) as Hn. rewrite Ev in Hn.
    rewrite (decode_update_message [] pa _ [] (kept (blob_attrs r)) [p])
      by (rewrite ?zlen_encode, ?zlen_nil; (done || lia)).
    by rewrite view_plain_nil by done.
  - rewrite mp_reach_eq by done.
    set (v := reach_value _ _ _). pose proof (zlen_mp_attr 14 v) as Hl.
    case_bool; zify_bools; [lia|]. pose proof (zlen_nonneg v).
    assert (zlen v < 65536) as Hv by (unfold u16_max in *; destruct (zlen v >? 255); lia).
    rewrite update_eq_pa by (rewrite ?zlen_app; lia).
    split; [lia|]. split.
    { rewrite zlen_update_message, zlen_app, !zlen_nil. lia. }
    rewrite (decode_update_message [] _ [] []
      (kept (blob_attrs r) ++ [mk_attr (mp_attr 14 v) 14 v]) []);
      [| rewrite zlen_app, !zlen_nil; lia | done
       | by eapply decode_attrs_app; [exact Hd|apply parse_mp_attr] | done].
    rewrite view_plain by done. cbn [view_attrs a_type a_value Z.eqb Pos.eqb v_announced].
    subst v. rewrite (decode_reach_value _ _ [p]); [done| |].
    + by apply hop_default_short; [|lia].
    + rewrite <- Ev. apply nlri_of_one.
Qed.

Lemma encode_len_le p : 1 <= zlen (encode_prefix_nlri p) <= 17.
Proof.
  rewrite zlen_encode. pose proof (nlri_encoded_len_bound p).
  unfold addr_size in *. case_bool; lia.
Qed.

Lemma withdraw_update p :
  zlen (build_bgp_update_withdrawal p) <= 46
  /\ decode_update (build_bgp_update_withdrawal p) = Some (mk_view [p] [] None []).
Proof.
  pose proof (encode_len_le p) as Hl. pose proof (nlri_of_one p) as Hn.
  unfold build_bgp_update_withdrawal. set (e := encode_prefix_nlri p) in *.
  destruct (prefix_is_v4 p) eqn:Ev.
  - replace (BGP_MARKER ++ _) with (bgp_message BGP_MSG_UPDATE (update_body e [] [])).
    2: { unfold bgp_message. rewrite zlen_update_body, zlen_nil. unfold update_body.
         rewrite !app_nil_r.
         by replace (19 + (4 + zlen e + 0 + 0)) with (19 + (2 + zlen e + 2)) by lia. }
    split.
    + rewrite zlen_update_message, !zlen_nil. lia.
    + rewrite (decode_update_message e [] [] [p] [] [])
        by (rewrite ?zlen_nil; unfold u16_max; (done || lia)). done.
  - rewrite mp_unreach_eq by done. fold e. set (v := unreach_value 2 e).
    pose proof (zlen_unreach_value 2 e). fold v in H.
    pose proof (zlen_mp_attr 15 v) as Hm.
    replace (zlen v >? 255) with false in Hm by (symmetry; rewrite Z.gtb_ltb; apply Z.ltb_ge; lia).
    rewrite update_eq_pa by lia. split.
    + rewrite zlen_update_message, !zlen_nil. lia.
    + rewrite (decode_update_message [] (mp_attr 15 v) [] [] [mk_attr (mp_attr 15 v) 15 v] []);
        [| rewrite ?zlen_nil; unfold u16_max; lia | done | | done].
      * cbn [view_attrs a_type a_value Z.eqb Pos.eqb v_withdrawn].
        subst v. by rewrite (decode_unreach_value _ [p]).
      * apply (decode_attrs_app [] []); [done|]. apply parse_mp_attr. lia.
Qed.

(** An aggregated UPDATE: 23 bytes, the attributes and the prefixes; for IPv6
    the prefixes travel in an MP_REACH_NLRI of nine more bytes and the next
    hop. *)
Definition aggregated_len (prefixes : list Prefix) (pa : list Z)
    (nh : option (list Z)) (v4 : bool) : Z :=
  23 + zlen pa + zlen (nlri_bytes prefixes)
  + (if v4 then 0 else 9 + zlen (default (zeros 16) nh)).

Lemma aggregated_update ps pa nh v4 attrs :
  all_family v4 ps -> decode_attrs pa = Some attrs -> plain attrs -> short_hop nh ->
  aggregated_len ps pa nh v4 <= u16_max ->
  zlen (aggregated_bgp_update ps pa nh v4) = aggregated_len ps pa nh v4
  /\ decode_update (aggregated_bgp_update ps pa nh v4)
     = Some (mk_view [] ps (if v4 then None else Some (default (zeros 16) nh)) attrs).
Proof.
  intros Hf Hd Hp Hs Hl. pose proof (nlri_of_bytes _ _ Hf) as Hn.
  unfold aggregated_bgp_update, aggregated_len in *.
  rewrite foldl_append, app_nil_l. set (n := nlri_bytes ps) in *.
  pose proof (zlen_nonneg pa). pose proof (zlen_nonneg n). destruct v4.
  - rewrite update_eq by lia. split.
    + rewrite zlen_update_message, zlen_nil. lia.
    + rewrite (decode_update_message [] pa n [] attrs ps) by (rewrite ?zlen_nil; (done || lia)).
      by rewrite view_plain_nil by done.
  - set (hop := default (zeros 16) nh) in *. set (v := reach_value 2 hop n).
    pose proof (zlen_reach_value 2 hop n) as Hv. fold v in Hv.
    pose proof (zlen_mp_attr_ext 14 v) as Hm. pose proof (zlen_nonneg hop).
    replace (2 + 1 + 1 + zlen hop + 1 + zlen n) with (zlen v) by lia.
    replace ([144; 14] ++ _) with (mp_attr_ext 14 v)
      by (unfold mp_attr_ext; by rewrite <- ?app_assoc).
    assert (zlen (pa ++ mp_attr_ext 14 v) = zlen pa + 4 + zlen v) by (rewrite zlen_app; lia).
    rewrite update_eq_pa by lia. split.
    + rewrite zlen_update_message, !zlen_nil. lia.
    + rewrite (decode_update_message [] _ [] [] (attrs ++ [mk_attr (mp_attr_ext 14 v) 14 v]) []);
        [| rewrite zlen_nil; lia | done | | done].
      * rewrite view_plain by done. cbn [view_attrs a_type a_value Z.eqb Pos.eqb v_announced].
        subst v. rewrite (decode_reach_value _ _ ps); [done| |done].
        apply hop_default_short; [done|lia].
      * eapply decode_attrs_app; [done|]. apply parse_mp_attr_ext. unfold u16_max in *. lia.
Qed.

End Updates.

(** ** Properties of the attribute walk and of NLRI *)

(** The walk over the raw path attributes terminates within its bound (one
    turn per byte) and computes what the attribute parser says: the kept bytes
    are exactly the complete attributes other than MP_REACH_NLRI and
    MP_UNREACH_NLRI, unchanged and in order, up to the first malformed one, and
    the next hop is that of the last MP_REACH_NLRI carrying one; the kept bytes
    parse back completely. *)
Theorem filter_pa_spec raw :
  let attrs := blob_attrs raw in
  filter_loop (S (length (pa_blob raw))) (pa_blob raw) 0 [] None
    = Some (filter_pa_from_raw raw)
  /\ filter_pa_from_raw raw
     = (concat (a_raw <$> kept attrs), foldl nh_step None attrs)
  /\ decode_attrs (fst (filter_pa_from_raw raw)) = Some (kept attrs).
Proof. pose proof (filter_pa_eq raw). pose proof (decode_filtered raw). naive_solver. Qed.

(** ** Properties of Route Monitoring *)
Section Properties.
Context `{E : Extern}.

(** C20: an announcement that is built decodes to the route's prefix under the
    peer's header, with exactly the kept attributes and, for IPv6, the next hop
    that the route was received with (zero when it had none); no message is
    built exactly when the UPDATE would exceed 65535 bytes. *)
Theorem announce_roundtrip now peer r :
  peer_ok peer -> Forall is_byte (raw (rotonda_pamap r)) ->
  let bytes := raw (rotonda_pamap r) in
  match build_route_monitoring_from_route now peer r false with
  | Some msg =>
      announce_len (route_prefix r) bytes <= u16_max
      /\ decode_route_monitoring msg
         = Some (header_of now peer, announce_view (route_prefix r) bytes)
  | None => u16_max < announce_len (route_prefix r) bytes
  end.
Proof.
  cbv zeta. intros Hp Hb. rewrite from_route_eq. unfold build_route_monitoring.
  pose proof (announce_update (route_prefix r) _ Hb) as Hu.
  destruct (rotonda_pamap r) as [bytes]. cbn [raw] in *.
  destruct (build_bgp_update _ _ false) as [upd|]; [|done].
  destruct Hu as (Hl & Hz & Hd). split; [done|].
  apply decode_rm; [done|lia|done].
Qed.

(** A withdrawal is always built, from the prefix alone, and decodes to the
    withdrawal of that prefix and nothing else. *)
Theorem withdraw_roundtrip now peer r :
  peer_ok peer ->
  exists msg,
    build_route_monitoring_from_route now peer r true = Some msg
    /\ decode_route_monitoring msg
       = Some (header_of now peer, mk_view [route_prefix r] [] None []).
Proof.
  intros Hp. rewrite from_route_eq. unfold build_route_monitoring. cbn [build_bgp_update].
  destruct (withdraw_update (route_prefix r)) as [Hl Hd].
  eexists. split; [done|]. apply decode_rm; [done|unfold u16_max; lia|done].
Qed.

(** C21: an aggregated message that fits decodes to exactly the prefixes it was
    given, in order, with one attribute set and one next hop. *)
Theorem aggregated_roundtrip now peer ps pa nh v4 attrs :
  peer_ok peer -> all_family v4 ps -> decode_attrs pa = Some attrs ->
  plain attrs -> short_hop nh -> aggregated_len ps pa nh v4 <= u16_max ->
  decode_route_monitoring (build_aggregated_route_monitoring now peer ps pa nh v4)
  = Some (header_of now peer,
          mk_view [] ps (if v4 then None else Some (default (zeros 16) nh)) attrs).
Proof.
  intros Hp Hf Hd Hpl Hs Hl.
  destruct (aggregated_update ps pa nh v4 attrs Hf Hd Hpl Hs Hl) as [Hz Hu].
  apply decode_rm; [done|lia|done].
Qed.

(** End-of-RIB exists for the two unicast families only.  Its UPDATE
    announces and withdraws nothing: it is empty for IPv4, and for IPv6 it holds
    one MP_UNREACH_NLRI for AFI 2, SAFI 1 without prefixes. *)
Theorem end_of_rib_shape now peer t :
  peer_ok peer ->
  match build_end_of_rib_marker now peer t with
  | Some msg =>
      decode_route_monitoring msg = Some (header_of now peer, mk_view [] [] None [])
      /\ ((t = Ipv4Unicast /\ msg = peer_message now peer BMP_MSG_ROUTE_MONITORING
             (bgp_message BGP_MSG_UPDATE (update_body [] [] [])))
          \/ (t = Ipv6Unicast /\ msg = peer_message now peer BMP_MSG_ROUTE_MONITORING
                (bgp_message BGP_MSG_UPDATE
                   (update_body [] (mp_attr 15 (unreach_value 2 [])) []))))
  | None => t <> Ipv4Unicast /\ t <> Ipv6Unicast
  end.
Proof.
  intros Hp. destruct t; cbn [build_end_of_rib_marker]; try done.
  - assert (build_eor_ipv4 now peer = peer_message now peer BMP_MSG_ROUTE_MONITORING
      (bgp_message BGP_MSG_UPDATE (update_body [] [] []))) as -> by done.
    split; [|by left]. apply decode_rm; [done|done|by vm_compute].
  - assert (build_eor_mp_unreach now peer Ipv6Unicast
      = peer_message now peer BMP_MSG_ROUTE_MONITORING
      (bgp_message BGP_MSG_UPDATE (update_body [] (mp_attr 15 (unreach_value 2 [])) [])))
      as -> by (unfold build_eor_mp_unreach; by rewrite afi_safi_v6).
    split; [|by right]. apply decode_rm; [done|done|by vm_compute].
Qed.

End Properties.

(** ** A peer and routes to evaluate on *)
#[local] Existing Instance Demo.extern.

Module WireDemo.

Definition peer : PeerInfo :=
  from_ingress_info
    (with_remote_asn 65001 (with_remote_addr (V6 42540766411282592856903984951653826561)
      info_default)).

Lemma peer_is_ok : peer_ok peer.
Proof.
  apply from_ingress_info_ok. split; intros ? H; vm_compute in H; simplify_eq;
    unfold addr_wf; cbn; lia.
Defined.

Definition now : Clock := mk_clock 1700000000 250000.

(** ORIGIN, MP_REACH_NLRI with a 16-byte next hop, MED. *)
Definition attrs_bytes : list Z :=
  [64; 1; 1; 0] ++ [128; 14; 23; 0; 2; 1; 16] ++ replicate 16 7 ++ [0; 8; 32]
  ++ [128; 4; 4; 0; 0; 0; 5].

Definition v6_prefix : @Prefix Demo.extern :=
  Demo.pfx (V6 42540766411282592856903984951653826560) 32 eq_refl.

Definition v4_prefix : @Prefix Demo.extern := Demo.pfx (V4 3221225984) 24 eq_refl.

Definition route : @RotondaRoute Demo.extern :=
  @RR_Ipv6Unicast Demo.extern v6_prefix (pamap_from_vec attrs_bytes).

Lemma route_bytes : Forall is_byte (raw (rotonda_pamap route)).
Proof. apply Forall_forall. intros b Hb. apply is_byteb_spec.
  revert b Hb. apply Forall_forall. vm_compute. repeat constructor. Defined.

End WireDemo.

Lemma announce_roundtrip_witness :
  exists msg,
    build_route_monitoring_from_route WireDemo.now WireDemo.peer WireDemo.route false
      = Some msg
    /\ decode_route_monitoring msg
       = Some (header_of WireDemo.now WireDemo.peer,
               announce_view WireDemo.v6_prefix (raw (rotonda_pamap WireDemo.route))).
Proof.
  pose proof (announce_roundtrip WireDemo.now WireDemo.peer WireDemo.route
                WireDemo.peer_is_ok WireDemo.route_bytes) as H.
  cbv zeta in H. destruct (build_route_monitoring_from_route _ _ _ _) as [msg|] eqn:Em.
  - exists msg. split; [done|]. apply H.
  - vm_compute in Em. done.
Defined.

Lemma withdraw_roundtrip_witness :
  exists msg,
    build_route_monitoring_from_route WireDemo.now WireDemo.peer WireDemo.route true
      = Some msg
    /\ decode_route_monitoring msg
       = Some (header_of WireDemo.now WireDemo.peer,
               mk_view [WireDemo.v6_prefix] [] None []).
Proof. apply (withdraw_roundtrip _ _ WireDemo.route), WireDemo.peer_is_ok. Defined.

Lemma aggregated_roundtrip_witness :
  decode_route_monitoring
    (build_aggregated_route_monitoring WireDemo.now WireDemo.peer
       [WireDemo.v4_prefix; WireDemo.v4_prefix] [64; 1; 1; 0] None true)
  = Some (header_of WireDemo.now WireDemo.peer,
          mk_view [] [WireDemo.v4_prefix; WireDemo.v4_prefix] None
            [mk_attr [64; 1; 1; 0] 1 [0]]).
Proof.
  apply (aggregated_roundtrip WireDemo.now WireDemo.peer
           [WireDemo.v4_prefix; WireDemo.v4_prefix] [64; 1; 1; 0] None true).
  - apply WireDemo.peer_is_ok.
  - by repeat constructor.
  - by vm_compute.
  - repeat constructor; by cbn.
  - done.
  - by vm_compute.
Defined.

Lemma end_of_rib_shape_witness :
  decode_route_monitoring (build_eor_mp_unreach WireDemo.now WireDemo.peer Ipv6Unicast)
  = Some (header_of WireDemo.now WireDemo.peer, mk_view [] [] None []).
Proof.
  apply (end_of_rib_shape WireDemo.now WireDemo.peer Ipv6Unicast), WireDemo.peer_is_ok.
Defined.
