(* ===== verification/BmpInfo.v ===== *)
(** * Session messages and labels on the wire

    The output of the builders for Initiation, Termination, Peer Up, Peer Down
    and Statistics Report, and the JSON of the admin label, read by the
    reference decoder. *)

From S2P Require Import Prelude Net Register Payload BmpDecode BmpBuilder BmpWire.
From Stdlib Require Import ZArith Lia.
From stdpp Require Import base numbers list gmap option strings.

Local Open Scope Z_scope.

(** ** Information TLVs *)
Definition tlv (ty : Z) (v : list Z) : list Z :=
  be_bytes 2 ty ++ be_bytes 2 (zlen v) ++ v.

Lemma decode_tlv_list tlvs fuel :
  Forall (fun t => 0 <= fst t < 65536 /\ zlen (snd t) <= u16_max) tlvs ->
  (length (concat ((fun t => tlv (fst t) (snd t)) <$> tlvs)) <= fuel)%nat ->
  decode_tlvs fuel (concat ((fun t => tlv (fst t) (snd t)) <$> tlvs)) = Some tlvs.
Proof.
  intros Ht. revert fuel. induction Ht as [|[ty v] tlvs [Hty Hv] _ IH]; intros fuel Hf.
  - by destruct fuel.
  - rewrite fmap_cons in *. cbn [concat fst snd] in *. unfold u16_max in Hv.
    assert (length (tlv ty v) = 4 + length v)%nat as Hl
      by (unfold tlv; rewrite !length_app, !length_be_bytes; lia).
    rewrite length_app, Hl in Hf. destruct fuel as [|fuel]; [lia|].
    destruct (tlv ty v ++ _) as [|b l] eqn:El.
    { apply (f_equal length) in El. rewrite length_app, Hl in El. cbn in El. lia. }
    cbn [decode_tlvs]. rewrite <- El. unfold tlv at 1. rewrite <- !app_assoc.
    rewrite uint_app_small by (cbn; lia). cbn [mbind option_bind].
    rewrite uint_len by (cbn; lia). cbn [mbind option_bind].
    rewrite zlen_to_nat, take_n_app by done. cbn [mbind option_bind].
    by rewrite IH by lia.
Qed.

(** ** OPEN *)
Section Open.
Context `{E : Extern}.

(** The capabilities of the synthetic OPEN. *)
Definition expected_caps (asn : Asn) (gr : bool) : list (Z * list Z) :=
  [(65, be_bytes 4 asn); (1, [0; 1; 0; 1]); (1, [0; 2; 0; 1])]
  ++ (if gr then [(64, [0; 0; 0; 1; 1; 0; 0; 2; 1; 0])] else []).

Definition expected_open (asn : Asn) (gr : bool) : open_view :=
  mk_open (if asn >? 65535 then 23456 else asn) 90 (zeros 4)
    (expected_caps asn gr).

Lemma zlen_open asn gr : zlen (build_bgp_open asn true gr) = (if gr then 61 else 49).
Proof. by destruct gr. Qed.

Lemma open_message_eq asn gr :
  exists body, build_bgp_open asn true gr = bgp_message BGP_MSG_OPEN body
               /\ zlen body <= 64.
Proof.
  exists (drop 19 (build_bgp_open asn true gr)). unfold bgp_message.
  by destruct gr.
Qed.

Lemma split_bgp_message ty body k :
  19 + zlen body <= u16_max ->
  split_bgp (bgp_message ty body ++ k) = Some (bgp_message ty body, k).
Proof.
  unfold u16_max. intros Hb. pose proof (zlen_nonneg body).
  set (m := bgp_message ty body).
  assert (zlen m = 19 + zlen body) as Hm.
  { subst m. unfold bgp_message. zlen_simpl. change (zlen BGP_MARKER) with 16. lia. }
  unfold split_bgp.
  assert (take_n 16 (m ++ k)
    = Some (BGP_MARKER, be_bytes 2 (19 + zlen body) ++ ([ty] ++ body) ++ k)) as ->.
  { unfold m, bgp_message. by rewrite <- !app_assoc, take_n_app. }
  cbn [mbind option_bind]. rewrite uint_app_small by (cbn; lia). cbn [mbind option_bind].
  rewrite <- Hm, zlen_to_nat. by rewrite take_n_app.
Qed.

Lemma two_byte_asn asn :
  0 <= asn < 256 ^ 4 ->
  0 <= (if asn >? 65535 then 23456 else wrap 16 asn) < 65536
  /\ (if asn >? 65535 then 23456 else wrap 16 asn)
     = (if asn >? 65535 then 23456 else asn).
Proof.
  intros Ha. destruct (asn >? 65535) eqn:H; zify_bools; [lia|].
  unfold wrap. rewrite Z.mod_small; lia.
Qed.

Lemma decode_open_message asn gr :
  0 <= asn < 256 ^ 4 ->
  decode_open (build_bgp_open asn true gr) = Some (expected_open asn gr).
Proof.
  intros Ha. destruct (two_byte_asn asn Ha) as [Hr He].
  unfold build_bgp_open. set (a2 := if asn >? 65535 then _ else _) in *.
  unfold expected_open. rewrite <- He. clearbody a2.
  set (caps := open_capabilities asn true gr).
  assert (exists b0 b1 b2 b3, be_bytes 4 asn = [b0; b1; b2; b3]) as (b0 & b1 & b2 & b3 & Hb)
    by (by eexists _, _, _, _).
  assert (decode_caps (length caps) caps = Some (expected_caps asn gr)) as Hc.
  { subst caps. unfold open_capabilities, expected_caps. rewrite Hb. by destruct gr. }
  assert (zlen caps = if gr then 30 else 18) as Hz by (subst caps; by destruct gr).
  clearbody caps. unfold decode_open.
  replace (BGP_MARKER ++ _) with (bgp_message BGP_MSG_OPEN
    ([4] ++ be_bytes 2 a2 ++ be_bytes 2 90 ++ zeros 4
     ++ [wrap 8 (zlen ([2] ++ [wrap 8 (zlen caps)] ++ caps))]
     ++ [2] ++ [wrap 8 (zlen caps)] ++ caps)).
  2: { unfold bgp_message. do 2 f_equal. f_equal. zlen_simpl. lia. }
  rewrite decode_bgp_message by (unfold u16_max; zlen_simpl; rewrite Hz; destruct gr; lia).
  cbn [mbind option_bind app]. rewrite uint_1. cbn [mbind option_bind].
  rewrite uint_app_small by (cbn; lia). cbn [mbind option_bind].
  rewrite uint_app_small by (cbn; lia). cbn [mbind option_bind].
  rewrite take_n_app by done. cbn [mbind option_bind].
  rewrite uint_1. cbn [mbind option_bind]. zlen_simpl. rewrite Hz.
  destruct gr; cbn [check mbind option_bind wrap andb Z.eqb Pos.eqb].
  all: rewrite uint_1; cbn [mbind option_bind]; rewrite uint_1; cbn [mbind option_bind].
  all: rewrite Hz; cbn [check mbind option_bind]; by rewrite Hc.
Qed.

End Open.

(** ** JSON strings *)
Definition scalars (s : rstring) : Prop := Forall (fun c => 0 <= c) s.

Lemma hex_digit_val d : 0 <= d < 16 -> hex_val (hex_digit d) = Some d.
Proof.
  intros Hd. unfold hex_val, hex_digit. destruct (d <? 10) eqn:H; zify_bools.
  - rewrite (proj2 (Z.leb_le 48 _)), (proj2 (Z.leb_le _ 57)) by lia. cbn. f_equal. lia.
  - rewrite (proj2 (Z.leb_gt _ 57)), andb_false_r by lia.
    rewrite (proj2 (Z.leb_le 97 _)), (proj2 (Z.leb_le _ 102)) by lia. cbn. f_equal. lia.
Qed.

(** One escaped character is read as one character. *)
Lemma json_escape_char fuel c l :
  0 <= c ->
  json_string (S fuel) (escape_char c ++ l)
  = '(s, l') ← json_string fuel l; Some (c :: s, l').
Proof.
  intros Hc. unfold escape_char.
  destruct (c =? 34) eqn:H34; [by zify_bools; subst|].
  destruct (c =? 92) eqn:H92; [by zify_bools; subst|].
  destruct (c =? 10) eqn:H10; [by zify_bools; subst|].
  destruct (c =? 13) eqn:H13; [by zify_bools; subst|].
  destruct (c =? 9) eqn:H9; [by zify_bools; subst|].
  destruct (is_control c) eqn:Hctl.
  - cbn [hex_escape app json_string Z.eqb Pos.eqb].
    rewrite !hex_digit_val by (apply Z.mod_pos_bound; lia). cbn [mbind option_bind].
    destruct (json_string fuel l) as [[s l']|]; [|done]. cbn. do 3 f_equal.
    unfold is_control in Hctl. apply orb_true_iff in Hctl.
    assert (c < 160) by (destruct Hctl; zify_bools; lia).
    rewrite (Z.div_small c 4096), (Z.div_small c 256) by lia.
    rewrite (Z.mod_small (c / 16)) by (split; [apply Z.div_pos|apply Z.div_lt_upper_bound]; lia).
    change (0 mod 16) with 0. pose proof (Z.div_mod c 16). lia.
  - cbn [app json_string]. rewrite H34, H92. unfold is_control in Hctl. zify_bools.
    rewrite (proj2 (Z.leb_le 32 c)) by lia. done.
Qed.

Lemma escape_cons c s : escape_json_string (c :: s) = escape_char c ++ escape_json_string s.
Proof. done. Qed.

Lemma length_escape_char c : (1 <= length (escape_char c))%nat.
Proof. unfold escape_char, hex_escape. repeat case_bool; cbn; lia. Qed.

Lemma json_string_escape fuel s l :
  scalars s -> (length (escape_json_string s) < fuel)%nat ->
  json_string fuel (escape_json_string s ++ 34 :: l) = Some (s, l).
Proof.
  intros Hs. revert fuel. induction Hs as [|c s Hc _ IH]; intros fuel Hf.
  - by destruct fuel; [cbn in Hf; lia|].
  - rewrite escape_cons in *. rewrite length_app in Hf. pose proof (length_escape_char c).
    destruct fuel as [|fuel]; [lia|].
    rewrite <- app_assoc, json_escape_char, IH by (done || lia). done.
Qed.

(** A member of the label. *)
Definition member (k v : rstring) : rstring :=
  [34] ++ k ++ [34; 58; 34] ++ escape_json_string v ++ [34].

(** Keys of the label need no escape. *)
Definition plain_key (k : rstring) : Prop :=
  scalars k /\ escape_json_string k = k.

Lemma json_members_step fuel k v l :
  plain_key k -> scalars v ->
  json_members (S fuel) (member k v ++ l)
  = match l with
    | c :: l =>
        if c =? 44 then '(ms, l) ← json_members fuel l; Some ((k, v) :: ms, l)
        else if c =? 125 then Some ([(k, v)], l) else None
    | [] => None
    end.
Proof.
  intros [Hk Ek] Hv. unfold member. cbn [json_members app].
  cbn [expect Z.eqb Pos.eqb mbind option_bind].
  rewrite <- !app_assoc. cbn [app]. rewrite <- !app_assoc. cbn [app].
  assert (forall x y, scalars x ->
    json_string (length (escape_json_string x ++ 34 :: y)) (escape_json_string x ++ 34 :: y)
    = Some (x, y)) as Hj.
  { intros x y Hx. apply json_string_escape; [done|]. rewrite length_app. cbn. lia. }
  pose proof (Hj k (58 :: 34 :: (escape_json_string v ++ 34 :: l)) Hk) as H1.
  rewrite Ek in H1. rewrite H1. cbn [mbind option_bind expect Z.eqb Pos.eqb].
  rewrite Hj by done. done.
Qed.

(** The members that the label is to carry: the values that are present, not
    empty and not the placeholder. *)
Definition label_members (name desc : option rstring)
  : list (rstring * rstring) :=
  (match real_value (str "no-sysname") name with
   | Some n => [(str "sysName", n)] | None => [] end)
  ++ (match real_value (str "no-sysdesc") desc with
      | Some d => [(str "sysDescr", d)] | None => [] end).

Lemma key_name : plain_key (str "sysName").
Proof. split; [|done]. by repeat constructor. Qed.

Lemma key_desc : plain_key (str "sysDescr").
Proof. split; [|done]. by repeat constructor. Qed.

Lemma real_value_Some ph s v : real_value ph s = Some v -> s = Some v.
Proof. destruct s; cbn; [case_bool; congruence|done]. Qed.

(** ** Properties *)

(** The JSON admin label parses back to exactly the system name and
    description that are present, non-empty and not the built-in placeholder,
    whatever characters they contain; there is no label when neither is. *)
Theorem admin_label_roundtrip name desc :
  (forall n, name = Some n -> scalars n) ->
  (forall d, desc = Some d -> scalars d) ->
  match build_admin_label_json name desc with
  | Some json =>
      json_object json = Some (label_members name desc)
      /\ label_members name desc <> []
  | None => label_members name desc = []
  end.
Proof.
  intros Hn Hd. unfold build_admin_label_json, label_members.
  destruct (real_value (str "no-sysname") name) as [n|] eqn:En;
    [apply real_value_Some in En; apply Hn in En|];
  (destruct (real_value (str "no-sysdesc") desc) as [d|] eqn:Ed;
    [apply real_value_Some in Ed; apply Hd in Ed|]); [..|done].
  - split; [|done].
    replace (_ ++ str "}") with (123 :: member (str "sysName") n
      ++ 44 :: (member (str "sysDescr") d ++ [125]))
      by (unfold member; rewrite <- !app_assoc; done).
    unfold json_object. cbn [expect Z.eqb Pos.eqb mbind option_bind].
    destruct (length _) as [|[|f]] eqn:El;
      [cbn in El; lia|unfold member in El; cbn in El; lia|].
    rewrite json_members_step by (done || apply key_name). cbn [Z.eqb Pos.eqb].
    by rewrite json_members_step by (done || apply key_desc).
  - split; [|done].
    replace (_ ++ str "}") with (123 :: member (str "sysName") n ++ [125])
      by (unfold member; rewrite <- !app_assoc; done).
    unfold json_object. cbn [expect Z.eqb Pos.eqb mbind option_bind].
    destruct (length _) as [|f] eqn:El; [cbn in El; lia|].
    by rewrite json_members_step by (done || apply key_name).
  - split; [|done].
    replace (_ ++ str "}") with (123 :: member (str "sysDescr") d ++ [125])
      by (unfold member; rewrite <- !app_assoc; done).
    unfold json_object. cbn [expect Z.eqb Pos.eqb mbind option_bind].
    destruct (length _) as [|f] eqn:El; [cbn in El; lia|].
    by rewrite json_members_step by (done || apply key_desc).
Qed.

Lemma admin_label_roundtrip_witness :
  match build_admin_label_json (Some (str "r1" ++ [34; 7; 8364])) (Some (str "no-sysdesc")) with
  | Some json => json_object json = Some [(str "sysName", str "r1" ++ [34; 7; 8364])]
  | None => False
  end.
Proof.
  pose proof (admin_label_roundtrip (Some (str "r1" ++ [34; 7; 8364]))
                (Some (str "no-sysdesc"))) as H.
  destruct (build_admin_label_json _ _) eqn:Ej; [|by vm_compute in Ej].
  apply H; intros ? [= <-]; by repeat constructor.
Defined.

Section Properties.
Context `{E : Extern}.

(** The Initiation and Termination messages are framed, and a collector
    reads the configured description and name (as long as each fits the 16 bits
    of its TLV length) and the termination reason "administratively closed". *)
Theorem session_messages_tlvs sys_name sys_descr :
  zlen (utf8 sys_name) <= u16_max -> zlen (utf8 sys_descr) <= u16_max ->
  (exists body,
     decode_common (build_initiation_message sys_name sys_descr)
       = Some (BMP_MSG_INITIATION, body)
     /\ decode_tlvs (length body) body
        = Some [(BMP_INIT_TLV_SYS_DESCR, utf8 sys_descr);
                (BMP_INIT_TLV_SYS_NAME, utf8 sys_name)])
  /\ (exists body,
     decode_common build_termination_message = Some (BMP_MSG_TERMINATION, body)
     /\ decode_tlvs (length body) body = Some [(BMP_TERM_TLV_REASON, [0; 0])]).
Proof.
  intros Hn Hd. split; [|by eexists]. unfold u16_max in *.
  set (tlvs := [(BMP_INIT_TLV_SYS_DESCR, utf8 sys_descr);
                (BMP_INIT_TLV_SYS_NAME, utf8 sys_name)]).
  exists (concat ((fun t => tlv (fst t) (snd t)) <$> tlvs)).
  pose proof (zlen_nonneg (utf8 sys_name)). pose proof (zlen_nonneg (utf8 sys_descr)).
  split.
  - rewrite <- (decode_common_frame BMP_MSG_INITIATION
      (BMP_COMMON_HEADER_LEN + (4 + zlen (utf8 sys_descr)) + (4 + zlen (utf8 sys_name)))).
    + f_equal. unfold build_initiation_message, tlvs, tlv. cbn [fmap list_fmap concat fst snd].
      by rewrite app_nil_r, <- !app_assoc.
    + unfold tlvs, tlv, BMP_COMMON_HEADER_LEN. cbn [fmap list_fmap concat fst snd].
      zlen_simpl. lia.
    + unfold BMP_COMMON_HEADER_LEN. lia.
  - apply decode_tlv_list; [|done].
    repeat constructor; cbn [fst snd]; unfold BMP_INIT_TLV_SYS_DESCR, BMP_INIT_TLV_SYS_NAME,
      u16_max; lia.
Qed.

(** A Peer Up decodes to the peer's header, an unknown local address, two
    OPEN messages that announce the peer's AS (AS_TRANS in the 16-bit field when
    it does not fit), four-octet AS support and both unicast families, graceful
    restart when configured, and the admin label as TLV 4 exactly when there is
    one of at most 65535 bytes. *)
Theorem peer_up_roundtrip now peer gr :
  peer_ok peer ->
  decode_peer_up (build_peer_up now peer gr)
  = Some (header_of now peer,
          mk_up (zeros 16) 0 179 (expected_open (pi_asn peer) gr)
            (expected_open (pi_asn peer) gr)
            match label_to_send peer with
            | Some l => [(BMP_PEER_UP_TLV_ADMIN_LABEL, l)]
            | None => []
            end).
Proof.
  intros Hp. unfold build_peer_up.
  destruct (open_message_eq (pi_asn peer) gr) as (ob & Ho & Hol).
  pose proof (decode_open_message (pi_asn peer) gr (ok_asn _ Hp)) as Hd.
  pose proof (zlen_open (pi_asn peer) gr) as Hz.
  set (o := build_bgp_open (pi_asn peer) true gr) in *.
  set (tlvs := match label_to_send peer with
            | Some l => [(BMP_PEER_UP_TLV_ADMIN_LABEL, l)] | None => [] end).
  set (info := concat ((fun t => tlv (fst t) (snd t)) <$> tlvs)).
  assert (Forall (fun t => 0 <= fst t < 65536 /\ zlen (snd t) <= u16_max) tlvs) as Ht.
  { subst tlvs. unfold label_to_send. destruct (pi_admin_label peer); [|constructor].
    case_bool; [|constructor]. zify_bools. repeat constructor; cbn [fst snd];
      unfold BMP_PEER_UP_TLV_ADMIN_LABEL; lia. }
  assert (zlen info = match label_to_send peer with Some l => 4 + zlen l | None => 0 end) as Hi.
  { subst info tlvs. destruct (label_to_send peer); [|done]. unfold tlv.
    cbn [fmap list_fmap concat fst snd]. zlen_simpl. lia. }
  assert (zlen info <= 65539) as Hib.
  { rewrite Hi. subst tlvs. destruct (label_to_send peer); [|lia].
    apply Forall_cons in Ht as [[_ Ht] _]. unfold u16_max in Ht. cbn in Ht. lia. }
  set (body := zeros 16 ++ be_bytes 2 0 ++ be_bytes 2 179 ++ o ++ o ++ info).
  assert (zlen body = 16 + 2 + 2 + zlen o + zlen o + zlen info) as Hb
    by (subst body; zlen_simpl; lia).
  replace (write_per_peer_header _ _ _ ++ _) with (peer_message now peer BMP_MSG_PEER_UP body).
  2: { unfold peer_message. rewrite Hb, Hi. f_equal. subst body info tlvs.
       destruct (label_to_send peer); [|done]. unfold tlv.
       cbn [fmap list_fmap concat fst snd]. by rewrite app_nil_r. }
  destruct (decode_peer_message now peer BMP_MSG_PEER_UP body Hp) as [H1 H2];
    [rewrite Hb, Hz; destruct gr; lia|].
  unfold decode_peer_up. rewrite H1. cbn [mbind option_bind check BMP_MSG_PEER_UP Z.eqb Pos.eqb].
  rewrite H2. cbn [mbind option_bind]. unfold body.
  rewrite take_n_app by done. cbn [mbind option_bind].
  rewrite uint_app_small by (cbn; lia). cbn [mbind option_bind].
  rewrite uint_app_small by (cbn; lia). cbn [mbind option_bind].
  rewrite Ho at 1. rewrite split_bgp_message by (unfold u16_max; lia). cbn [mbind option_bind].
  rewrite Ho at 1. rewrite split_bgp_message by (unfold u16_max; lia). cbn [mbind option_bind].
  rewrite <- Ho, Hd. cbn [mbind option_bind]. unfold info. by rewrite decode_tlv_list.
Qed.

End Properties.

Lemma session_messages_tlvs_witness :
  exists body,
    decode_common (build_initiation_message (str "rotonda") (str "bmp"))
      = Some (BMP_MSG_INITIATION, body)
    /\ decode_tlvs (length body) body
       = Some [(BMP_INIT_TLV_SYS_DESCR, utf8 (str "bmp"));
               (BMP_INIT_TLV_SYS_NAME, utf8 (str "rotonda"))].
Proof. apply (session_messages_tlvs (str "rotonda") (str "bmp")); by vm_compute. Defined.

Lemma peer_up_roundtrip_witness :
  decode_peer_up (build_peer_up (E := Demo.extern) WireDemo.now WireDemo.peer true)
  = Some (header_of (E := Demo.extern) WireDemo.now WireDemo.peer,
          mk_up (zeros 16) 0 179 (expected_open 65001 true) (expected_open 65001 true) []).
Proof.
  apply (peer_up_roundtrip (E := Demo.extern) WireDemo.now WireDemo.peer true),
    WireDemo.peer_is_ok.
Defined.
