(* ===== verification/Aggregator.v ===== *)
(** * The route aggregator of the initial dump
    ([src/units/bmp_tcp_out/bmp_builder.rs]: [AggGroup], [RouteAggregator])

    Prefixes that share a peer, an address family and an attribute set are
    packed into one UPDATE of at most 4096 bytes, under a memory budget.  The
    sink is any consumer: it is given the history of calls and says whether the
    last one was accepted. *)

From S2P Require Import Prelude Net Register Payload BmpDecode BmpBuilder BmpWire.
From Stdlib Require Import ZArith Lia.
From stdpp Require Import base numbers list gmap fin_maps sorting.

Local Open Scope Z_scope.

Definition AGG_MEM_PER_PREFIX : Z := 32.
Definition AGG_MEM_PER_GROUP : Z := 128.

(** What a sink was handed: the message and its number of prefixes. *)
Abbreviation Out := (list (list Z * Z)).

(** Ingress, IPv4, hash of the attribute blob. *)
Abbreviation AggKey := (IngressId * bool * Z)%type.

(** The consumer and the clock readings while messages are built: both may
    depend on everything sent so far. *)
Class Sink := {
  sink_accepts : Out -> bool;
  sink_clock : Out -> Clock
}.

Section Aggregator.
Context `{E : Extern} `{SK : Sink}.

(** ** [AggGroup] *)
Record AggGroup : Type := mk_group {
  g_raw : list Z;
  g_is_v4 : bool;
  g_prefixes : list Prefix;
  g_nlri_total : Z;
  g_base_len : Z
}.

Definition group_new (pamap : RotondaPaMap) (is_v4 : bool) : AggGroup :=
  let '(pa_bytes, next_hop_opt) := filter_raw_path_attributes pamap in
  let base_len :=
    if is_v4 then 19 + 2 + 2 + zlen pa_bytes
    else
      let nh_len := match next_hop_opt with Some n => zlen n | None => 16 end in
      19 + 2 + 2 + zlen pa_bytes + 4 + (2 + 1 + 1 + nh_len + 1) in
  mk_group (raw pamap) is_v4 [] 0 base_len.

Definition blob (g : AggGroup) : list Z := pa_blob (g_raw g).

Definition is_empty (g : AggGroup) : bool :=
  match g_prefixes g with [] => true | _ => false end.

Definition bgp_update_len (g : AggGroup) : Z := g_base_len g + g_nlri_total g.

Definition cost (g : AggGroup) : Z :=
  AGG_MEM_PER_GROUP + zlen (g_prefixes g) * AGG_MEM_PER_PREFIX.

Definition push (p : Prefix) (nlri_len : Z) (g : AggGroup) : AggGroup :=
  mk_group (g_raw g) (g_is_v4 g) (g_prefixes g ++ [p])
    (g_nlri_total g + nlri_len) (g_base_len g).

Definition reset_prefixes (g : AggGroup) : AggGroup :=
  mk_group (g_raw g) (g_is_v4 g) [] 0 (g_base_len g).

(** ** [RouteAggregator] *)
Record RouteAggregator : Type := mk_agg {
  groups : gmap AggKey AggGroup;
  ra_peer_info : gmap IngressId PeerInfo;
  buffered_bytes : Z;
  max_bytes : Z;
  groups_created : Z;
  budget_evictions : Z
}.

Definition aggregator_new (max : Z) (peers : gmap IngressId PeerInfo)
  : RouteAggregator := mk_agg ∅ peers 0 max 0 0.

Definition has_peer (id : IngressId) (a : RouteAggregator) : bool :=
  bool_decide (is_Some (ra_peer_info a !! id)).

Definition insert_peer (id : IngressId) (info : PeerInfo) (a : RouteAggregator)
  : RouteAggregator :=
  mk_agg (groups a) (<[id := info]> (ra_peer_info a)) (buffered_bytes a)
    (max_bytes a) (groups_created a) (budget_evictions a).

Definition stats (a : RouteAggregator) : Z * Z :=
  (groups_created a, budget_evictions a).

Definition set_groups (gs : gmap AggKey AggGroup) (bytes : Z)
    (a : RouteAggregator) : RouteAggregator :=
  mk_agg gs (ra_peer_info a) bytes (max_bytes a) (groups_created a)
    (budget_evictions a).

Definition count_group (a : RouteAggregator) : RouteAggregator :=
  mk_agg (groups a) (ra_peer_info a) (buffered_bytes a) (max_bytes a)
    (groups_created a + 1) (budget_evictions a).

Definition count_eviction (a : RouteAggregator) : RouteAggregator :=
  mk_agg (groups a) (ra_peer_info a) (buffered_bytes a) (max_bytes a)
    (groups_created a) (budget_evictions a + 1).

(** The aggregator and what the sink has been handed. *)
Abbreviation World := (RouteAggregator * Out)%type.

Definition modify_agg (f : RouteAggregator -> RouteAggregator) : Run World unit :=
  run_modify (fun w => (f (fst w), snd w)).

Definition get_agg : Run World RouteAggregator := w ← run_get; mret (fst w).

(** [sink(msg, n)], leaving the function when the consumer is gone. *)
Definition sink (msg : Clock -> list Z) (n : Z) : Run World unit :=
  fun w =>
    let out := snd w ++ [(msg (sink_clock (snd w)), n)] in
    (if sink_accepts out then Some tt else None, (fst w, out)).

Definition emit (peer : PeerInfo) (g : AggGroup) : Run World unit :=
  match g_prefixes g with
  | [] => mret tt
  | _ =>
      let '(pa_bytes, next_hop) := filter_pa_from_raw (g_raw g) in
      let nh := if g_is_v4 g then None else Some (default (zeros 16) next_hop) in
      sink (fun now => build_aggregated_route_monitoring now peer (g_prefixes g)
                         pa_bytes nh (g_is_v4 g))
        (zlen (g_prefixes g))
  end.

Definition hash_pa_blob (b : list Z) : Z :=
  default_hash (le_bytes 8 (zlen b) ++ b).

Section Iteration.
Context `{HI : !HashIter AggKey AggGroup}.

(** [k1] is not emptier than [k2]: the order of [sort_unstable_by_key] with
    [Reverse(len)]. *)
Definition group_len (a : RouteAggregator) (k : AggKey) : nat :=
  match groups a !! k with Some g => length (g_prefixes g) | None => 0%nat end.

Definition fuller (a : RouteAggregator) (k1 k2 : AggKey) : Prop :=
  (group_len a k2 <= group_len a k1)%nat.

#[export] Instance fuller_dec a : RelDecision (fuller a).
Proof. intros k1 k2. unfold fuller. apply _. Defined.

Fixpoint evict_loop (target : Z) (keys : list AggKey) : Run World unit :=
  match keys with
  | [] => mret tt
  | k :: keys =>
      a ← get_agg;
      if buffered_bytes a <=? target then mret tt
      else
        match groups a !! k with
        | Some g =>
            _ ← modify_agg (fun a =>
                  count_eviction (set_groups (delete k (groups a))
                                    (buffered_bytes a - cost g) a));
            _ ← match ra_peer_info a !! fst (fst k) with
                | Some peer => emit peer g
                | None => mret tt
                end;
            evict_loop target keys
        | None => evict_loop target keys
        end
  end.

Definition evict_until_under_budget : Run World unit :=
  a ← get_agg;
  let keys := merge_sort (fuller a) (hm_iter (groups a)).*1 in
  evict_loop (max_bytes a / 2) keys.

(** The group to add to: the one found under the key, or a fresh one when there
    is none or its attributes differ (it is flushed then). *)
Definition take_group (peer : PeerInfo) (key : AggKey) (pamap : RotondaPaMap)
  : Run World AggGroup :=
  a ← get_agg;
  match groups a !! key with
  | Some g =>
      _ ← modify_agg (fun a => set_groups (delete key (groups a))
                                 (buffered_bytes a - cost g) a);
      if bool_decide (blob g = pa_blob (raw pamap)) then mret g
      else
        _ ← emit peer g;
        _ ← modify_agg count_group;
        mret (group_new pamap (snd (fst key)))
  | None =>
      _ ← modify_agg count_group;
      mret (group_new pamap (snd (fst key)))
  end.

(** Flush a group that the next prefix would push past the limit. *)
Definition make_room (peer : PeerInfo) (nlri_len : Z) (group : AggGroup)
  : Run World AggGroup :=
  if negb (is_empty group)
     && (bgp_update_len group + nlri_len >? MAX_BGP_UPDATE_LEN)
  then _ ← emit peer group; mret (reset_prefixes group)
  else mret group.

(** Send a prefix whose attributes alone overflow the limit by itself; put any
    other into the group and the group back, evicting when over budget. *)
Definition place (peer : PeerInfo) (key : AggKey) (p : Prefix)
    (pamap : RotondaPaMap) (group : AggGroup) : Run World unit :=
  let nlri_len := nlri_encoded_len p in
  if is_empty group && (g_base_len group + nlri_len >? MAX_BGP_UPDATE_LEN)
  then
    w ← run_get;
    match build_route_monitoring (sink_clock (snd w)) peer p pamap false with
    | Some msg => sink (fun _ => msg) 1
    | None => mret tt
    end
  else
    let group := push p nlri_len group in
    _ ← modify_agg (fun a => set_groups (<[key := group]> (groups a))
                               (buffered_bytes a + cost group) a);
    a ← get_agg;
    if buffered_bytes a >? max_bytes a then evict_until_under_budget
    else mret tt.

Definition add (id : IngressId) (p : Prefix) (pamap : RotondaPaMap)
  : Run World unit :=
  a ← get_agg;
  match ra_peer_info a !! id with
  | None => mret tt
  | Some peer =>
      let key := (id, prefix_is_v4 p, hash_pa_blob (pa_blob (raw pamap))) in
      group ← take_group peer key pamap;
      group ← make_room peer (nlri_encoded_len p) group;
      place peer key p pamap group
  end.

(** The loop of [flush_all] over the drained groups. *)
Fixpoint flush_loop (peers : gmap IngressId PeerInfo)
    (gs : list (AggKey * AggGroup)) : Run World unit :=
  match gs with
  | [] => mret tt
  | (k, g) :: gs =>
      _ ← match peers !! fst (fst k) with
          | Some peer => emit peer g
          | None => mret tt
          end;
      flush_loop peers gs
  end.

(** [buffered_bytes = 0] on both exits. *)
Definition flush_all : Run World unit := fun w =>
  let a := fst w in
  let drained := hm_iter (groups a) in
  let a1 := set_groups ∅ (buffered_bytes a) a in
  let '(r, w') := flush_loop (ra_peer_info a) drained (a1, snd w) in
  (r, (set_groups (groups (fst w')) 0 (fst w'), snd w')).

End Iteration.
End Aggregator.

(** ** What the messages and the open groups say *)
Section Facts.
Context `{E : Extern} `{SK : Sink}.

(** The identity of a peer on the wire: its per-peer header without the
    timestamp. *)
Abbreviation Ident := (Z * Z * list Z * IpAddr * Z * list Z)%type.

Definition ident (h : per_peer) : Ident :=
  (d_type h, d_flags h, d_distinguisher h, d_address h, d_asn h, d_bgp_id h).

Definition ident_of (peer : PeerInfo) : Ident :=
  (peer_type_byte (pi_type peer), pi_flags peer, pi_distinguisher peer,
   pi_address peer, pi_asn peer, pi_bgp_id peer).

(** A route as a collector learns it: peer, prefix, next hop of an IPv6 route,
    attributes. *)
Abbreviation Fact := (Ident * Prefix * option (list Z) * list attr)%type.

Definition view_facts (i : Ident) (v : update_view) : list Fact :=
  (fun p => (i, p, v_next_hop v, v_attrs v)) <$> v_announced v.

Definition route_fact (peer : PeerInfo) (r : list Z) (p : Prefix) : Fact :=
  (ident_of peer, p,
   (if prefix_is_v4 p then None
    else Some (default (zeros 16) (foldl nh_step None (blob_attrs r)))),
   kept (blob_attrs r)).

Definition msg_facts (m : list Z * Z) : list Fact :=
  match decode_route_monitoring (fst m) with
  | Some (h, v) => view_facts (ident h) v
  | None => []
  end.

(** A message decodes, withdraws nothing, is counted right and is an UPDATE
    within the RFC 4271 limit unless it carries a single route. *)
Definition msg_ok (m : list Z * Z) : Prop :=
  exists h v,
    decode_route_monitoring (fst m) = Some (h, v)
    /\ v_withdrawn v = [] /\ snd m = zlen (v_announced v)
    /\ (zlen (fst m) <= 48 + MAX_BGP_UPDATE_LEN \/ snd m = 1).

Definition group_facts (peer : PeerInfo) (g : AggGroup) : list Fact :=
  route_fact peer (g_raw g) <$> g_prefixes g.

Definition kg_facts (peers : gmap IngressId PeerInfo) (kg : AggKey * AggGroup)
  : list Fact :=
  match peers !! fst (fst (fst kg)) with
  | Some peer => group_facts peer (snd kg)
  | None => []
  end.

Definition pending_in (peers : gmap IngressId PeerInfo)
    (gs : gmap AggKey AggGroup) : list Fact :=
  map_to_list gs ≫= kg_facts peers.

Definition pending (a : RouteAggregator) : list Fact :=
  pending_in (ra_peer_info a) (groups a).

Definition bytes_of (gs : gmap AggKey AggGroup) : Z :=
  zsum (cost ∘ snd <$> map_to_list gs).

(** ** Invariants *)

(** A group while it is worked on. *)
Record group_wf (v4 : bool) (g : AggGroup) : Prop := {
  wf_v4 : g_is_v4 g = v4;
  wf_family : all_family v4 (g_prefixes g);
  wf_total : g_nlri_total g = zlen (nlri_bytes (g_prefixes g));
  wf_base : g_base_len g = g_base_len (group_new (mk_pamap (g_raw g)) v4);
  wf_raw : Forall is_byte (g_raw g)
}.

(** A group in the table: it is filed under its attributes' hash, is not empty
    and fits one UPDATE. *)
Record stored_ok (peers : gmap IngressId PeerInfo) (k : AggKey) (g : AggGroup)
  : Prop := {
  st_wf : group_wf (snd (fst k)) g;
  st_hash : snd k = hash_pa_blob (blob g);
  st_nonempty : g_prefixes g <> [];
  st_fits : bgp_update_len g <= MAX_BGP_UPDATE_LEN;
  st_peer : is_Some (peers !! fst (fst k))
}.

Record agg_inv (a : RouteAggregator) : Prop := {
  inv_bytes : buffered_bytes a = bytes_of (groups a);
  inv_groups : map_Forall (stored_ok (ra_peer_info a)) (groups a);
  inv_peers : map_Forall (fun _ p => peer_ok p) (ra_peer_info a);
  inv_max : 0 <= max_bytes a
}.

(** ** Lemmas on the table *)
Lemma pending_delete peers gs k g :
  gs !! k = Some g ->
  pending_in peers gs ≡ₚ kg_facts peers (k, g) ++ pending_in peers (delete k gs).
Proof.
  intros Hk. unfold pending_in. rewrite <- (map_to_list_delete gs k g) by done. done.
Qed.

Lemma pending_insert peers gs k g :
  gs !! k = None ->
  pending_in peers (<[k := g]> gs) ≡ₚ kg_facts peers (k, g) ++ pending_in peers gs.
Proof. intros Hk. unfold pending_in. by rewrite map_to_list_insert. Qed.

Lemma bytes_delete gs k g :
  gs !! k = Some g -> bytes_of (delete k gs) = bytes_of gs - cost g.
Proof.
  intros Hk. unfold bytes_of. rewrite <- (map_to_list_delete gs k g) by done.
  rewrite fmap_cons, zsum_cons. unfold compose at 2. cbn [snd]. lia.
Qed.

Lemma bytes_insert gs k g :
  gs !! k = None -> bytes_of (<[k := g]> gs) = bytes_of gs + cost g.
Proof.
  intros Hk. unfold bytes_of. rewrite map_to_list_insert by done.
  rewrite fmap_cons, zsum_cons. unfold compose at 1. cbn [snd]. lia.
Qed.

Lemma cost_nonneg g : 0 <= cost g.
Proof.
  unfold cost, AGG_MEM_PER_GROUP, AGG_MEM_PER_PREFIX.
  pose proof (zlen_nonneg (g_prefixes g)). lia.
Qed.

Lemma bytes_empty : bytes_of ∅ = 0.
Proof. unfold bytes_of. by rewrite map_to_list_empty. Qed.

Lemma inv_delete a k g :
  agg_inv a -> groups a !! k = Some g ->
  agg_inv (set_groups (delete k (groups a)) (buffered_bytes a - cost g) a).
Proof.
  intros [Hb Hg Hp Hm] Hk. split; cbn; [|by apply map_Forall_delete|done..].
  by rewrite (bytes_delete _ _ _ Hk), Hb.
Qed.

Lemma inv_insert a k g :
  agg_inv a -> groups a !! k = None -> stored_ok (ra_peer_info a) k g ->
  agg_inv (set_groups (<[k := g]> (groups a)) (buffered_bytes a + cost g) a).
Proof.
  intros [Hb Hg Hp Hm] Hk Hs. split; cbn; [|by apply map_Forall_insert_2|done..].
  by rewrite (bytes_insert _ _ _ Hk), Hb.
Qed.

Lemma inv_count a : agg_inv a -> agg_inv (count_group a) /\ agg_inv (count_eviction a).
Proof. intros []. split; by split. Qed.

Lemma group_new_wf pamap v4 :
  Forall is_byte (raw pamap) -> group_wf v4 (group_new pamap v4).
Proof.
  intros Hb. destruct pamap as [r]. unfold group_new, filter_raw_path_attributes in *.
  cbn [raw] in *.
  destruct (filter_pa_from_raw r) as [pa nh] eqn:Ef.
  split; cbn; try done; [constructor|].
  unfold group_new, filter_raw_path_attributes. cbn. by rewrite Ef.
Qed.

Lemma group_new_raw pamap v4 :
  g_raw (group_new pamap v4) = raw pamap /\ g_prefixes (group_new pamap v4) = [].
Proof. unfold group_new. by destruct (filter_raw_path_attributes pamap). Qed.

Lemma push_wf v4 g p :
  group_wf v4 g -> prefix_is_v4 p = v4 -> group_wf v4 (push p (nlri_encoded_len p) g).
Proof.
  intros [H1 H2 H3 H4 H5] Hv. split; cbn; try done.
  - apply Forall_app. split; [done|by repeat constructor].
  - rewrite H3. unfold nlri_bytes. rewrite fmap_app, concat_app, zlen_app.
    cbn [fmap list_fmap concat]. by rewrite app_nil_r, zlen_encode.
Qed.

Lemma reset_wf v4 g : group_wf v4 g -> group_wf v4 (reset_prefixes g).
Proof. intros []. split; cbn; try done. constructor. Qed.

(** Attributes and next hop depend on the blob only. *)
Lemma route_fact_blob peer r r' p :
  pa_blob r = pa_blob r' -> route_fact peer r p = route_fact peer r' p.
Proof. intros H. unfold route_fact, blob_attrs. by rewrite H. Qed.

Lemma announce_len_le p r :
  announce_len p r
  <= g_base_len (group_new (mk_pamap r) (prefix_is_v4 p)) + nlri_encoded_len p.
Proof.
  unfold announce_len, group_new, filter_raw_path_attributes. cbn [raw].
  destruct (filter_pa_from_raw r) as [pa nh]. cbn [g_base_len].
  destruct (prefix_is_v4 p) eqn:Ev; [lia|].
  rewrite mp_reach_eq, zlen_mp_attr, zlen_reach_value, zlen_encode by done.
  assert (zlen (default (zeros 16) nh) = match nh with Some n => zlen n | None => 16 end)
    as -> by (by destruct nh).
  case_bool; lia.
Qed.

End Facts.

(** ** The operations *)
Section Steps.
Context `{E : Extern} `{SK : Sink} `{HI : !HashIter AggKey AggGroup}.
Abbreviation World := (RouteAggregator * Out)%type.

(** From [w] to [w'] only well-formed messages were added, saying [facts]; the
    peers and the budget are as before, and the function left early only
    because the consumer was gone. *)
Record sent {A} (w w' : World) (r : option A) facts : Prop := mk_sent {
  sent_new : exists new, snd w' = snd w ++ new /\ Forall msg_ok new
                         /\ (r <> None -> new ≫= msg_facts ≡ₚ facts);
  sent_peers : ra_peer_info (fst w') = ra_peer_info (fst w);
  sent_max : max_bytes (fst w') = max_bytes (fst w);
  sent_gone : r = None -> sink_accepts (snd w') = false
}.

Lemma sent_refl {A} w (r : option A) : r <> None -> sent w w r [].
Proof. intros Hr. split; try done. exists []. by rewrite app_nil_r. Qed.

Lemma sent_trans {A B} w1 w2 w3 (a : A) (r : option B) f1 f2 :
  sent w1 w2 (Some a) f1 -> sent w2 w3 r f2 -> sent w1 w3 r (f1 ++ f2).
Proof.
  intros [(n1 & E1 & O1 & F1) P1 M1 _] [(n2 & E2 & O2 & F2) P2 M2 G2].
  split; [|congruence..|done].
  exists (n1 ++ n2). rewrite E2, E1, app_assoc. split; [done|].
  split; [by apply Forall_app|]. intros Hr. rewrite bind_app.
  by rewrite F1, F2 by done.
Qed.

Lemma sent_None {A B} w w' f f' :
  sent w w' (@None A) f -> sent w w' (@None B) f'.
Proof. intros [(n & E1 & O1 & _) P M G]. split; eauto. exists n. done. Qed.

Lemma sent_perm {A} w w' (r : option A) f f' :
  f ≡ₚ f' -> sent w w' r f -> sent w w' r f'.
Proof.
  intros Hf [(n & E1 & O1 & F1) P M G]. split; eauto. exists n.
  split; [done|]. split; [done|]. intros Hr. by rewrite F1.
Qed.

(** The aggregator's table is not part of [sent]. *)
Lemma sent_table {A} a a' out w' (r : option A) f :
  ra_peer_info a' = ra_peer_info a -> max_bytes a' = max_bytes a ->
  sent (a', out) w' r f -> sent (a, out) w' r f.
Proof. intros Hp Hm [N P M G]. split; cbn in *; congruence || done. Qed.

Lemma sent_ret {A B} w w' a' (x : A) (y : B) f :
  ra_peer_info a' = ra_peer_info (fst w') -> max_bytes a' = max_bytes (fst w') ->
  sent w w' (Some x) f -> sent w (a', snd w') (Some y) f.
Proof.
  intros Hp Hm [(n & E1 & O1 & F1) P M _]. split; cbn; [|congruence..|done].
  exists n. split; [done|]. split; [done|]. intros _. by apply F1.
Qed.

Lemma header_ident now peer : ident (header_of now peer) = ident_of peer.
Proof. done. Qed.

Lemma group_message now peer v4 g :
  peer_ok peer -> group_wf v4 g -> bgp_update_len g <= MAX_BGP_UPDATE_LEN ->
  let '(pa, nh) := filter_pa_from_raw (g_raw g) in
  let m := (build_aggregated_route_monitoring now peer (g_prefixes g) pa
              (if g_is_v4 g then None else Some (default (zeros 16) nh)) (g_is_v4 g),
            zlen (g_prefixes g)) in
  msg_ok m /\ msg_facts m = group_facts peer g.
Proof.
  intros Hp [H1 H2 H3 H4 H5] Hl. pose proof (decode_filtered (g_raw g)) as Hd.
  pose proof (filtered_hop_short _ H5) as Hs.
  pose proof (proj2 (filter_pa_eq (g_raw g))) as Hf.
  unfold bgp_update_len, group_new, filter_raw_path_attributes in *. cbn [raw] in *.
  destruct (filter_pa_from_raw (g_raw g)) as [pa nh]. cbn [fst snd g_base_len] in *.
  rewrite H1. set (hop := if v4 then None else _).
  assert (aggregated_len (g_prefixes g) pa hop v4 <= MAX_BGP_UPDATE_LEN) as Ha.
  { unfold aggregated_len, hop. rewrite <- H3. destruct v4; [lia|]. cbn [from_option id].
    assert (zlen (default (zeros 16) nh) = match nh with Some n => zlen n | None => 16 end)
      as -> by (by destruct nh). lia. }
  assert (short_hop hop) as Hh.
  { unfold hop. destruct v4; [done|]. intros l [= <-]. by apply hop_default_short; [|lia]. }
  destruct (aggregated_update (g_prefixes g) pa hop v4 _ H2 Hd (kept_plain _) Hh)
    as [Hz Hu]; [unfold MAX_BGP_UPDATE_LEN, u16_max in *; lia|].
  assert (zlen (aggregated_bgp_update (g_prefixes g) pa hop v4) <= u16_max) as Hm
    by (unfold MAX_BGP_UPDATE_LEN, u16_max in *; lia).
  pose proof (decode_rm now peer _ _ Hp Hm Hu) as Hr.
  change (peer_message now peer _ _)
    with (build_aggregated_route_monitoring now peer (g_prefixes g) pa hop v4) in Hr.
  split.
  - eexists _, _. split; [exact Hr|]. do 2 (split; [done|]). left.
    unfold build_aggregated_route_monitoring. cbn [fst].
    rewrite write_header_app, !zlen_app, zlen_header by done.
    unfold write_common_header, BMP_PER_PEER_HEADER_LEN. zlen_simpl. lia.
  - unfold msg_facts. cbn [fst]. rewrite Hr. unfold view_facts, group_facts.
    rewrite header_ident. cbn [v_announced v_next_hop v_attrs].
    apply list_fmap_ext. intros i p Hi. unfold route_fact.
    assert (prefix_is_v4 p = v4) as ->.
    { unfold all_family in H2. rewrite Forall_lookup in H2. eauto. }
    injection Hf as _ Hnh. rewrite <- Hnh. unfold hop. by destruct v4.
Qed.

Lemma emit_sent peer v4 g w r w' :
  peer_ok peer -> group_wf v4 g ->
  (g_prefixes g = [] \/ bgp_update_len g <= MAX_BGP_UPDATE_LEN) ->
  emit peer g w = (r, w') ->
  sent w w' r (group_facts peer g) /\ fst w' = fst w.
Proof.
  intros Hp Hw Hl. unfold emit.
  destruct (g_prefixes g) as [|p ps] eqn:Eg.
  { intros [= <- <-]. unfold group_facts. rewrite Eg. split; [|done]. by apply sent_refl. }
  rewrite <- Eg in *. destruct Hl as [Hl|Hl]; [congruence|].
  pose proof (group_message (sink_clock (snd w)) peer v4 g Hp Hw Hl) as Hm.
  destruct (filter_pa_from_raw (g_raw g)) as [pa nh]. destruct Hm as [Hok Hf].
  unfold sink. intros [= <- <-]. split; [|done].
  set (m := (_, zlen _)) in *. split; cbn; [|done..|].
  - exists [m]. split; [done|]. split; [by constructor|]. intros _.
    cbn. by rewrite app_nil_r, Hf.
  - case_bool; done.
Qed.

Lemma kg_facts_peer peers k g peer :
  peers !! fst (fst k) = Some peer -> kg_facts peers (k, g) = group_facts peer g.
Proof. unfold kg_facts. cbn [fst snd]. by intros ->. Qed.

Lemma filter_delete (k : AggKey) (keys : list AggKey) (gs : gmap AggKey AggGroup) :
  filter (fun kg => fst kg ∉ keys) (delete k gs)
  = filter (fun kg => fst kg ∉ k :: keys) gs.
Proof.
  apply map_eq. intros k'. apply option_eq. intros g.
  rewrite !map_lookup_filter_Some, lookup_delete_Some. set_solver.
Qed.

Lemma evict_loop_spec t keys w r w' :
  agg_inv (fst w) -> evict_loop t keys w = (r, w') ->
  agg_inv (fst w')
  /\ (exists done rest, keys = done ++ rest
      /\ groups (fst w') = filter (fun kg => fst kg ∉ done) (groups (fst w))
      /\ (r <> None -> rest <> [] -> buffered_bytes (fst w') <= t))
  /\ exists facts, sent w w' r facts
      /\ (r <> None -> facts ++ pending (fst w') ≡ₚ pending (fst w)).
Proof.
  revert w. induction keys as [|k keys IH]; intros w Hi; cbn [evict_loop].
  { intros [= <- <-]. split; [done|]. split.
    - exists [], []. split; [done|]. split; [|done].
      symmetry. apply map_filter_id. set_solver.
    - exists []. split; [by apply sent_refl|done]. }
  unfold get_agg. erewrite run_bind_Some by done. cbn [fst].
  destruct w as [a out]. cbn [fst snd] in *.
  destruct (Z.leb_spec (buffered_bytes a) t) as [Ht|Ht].
  { intros [= <- <-]. cbn. split; [done|]. split.
    - exists [], (k :: keys). split; [done|]. split; [|done].
      symmetry. apply map_filter_id. set_solver.
    - exists []. split; [by apply sent_refl|done]. }
  destruct (groups a !! k) as [g|] eqn:Ek.
  2: { intros Hr. apply IH in Hr as (Hi' & (dn & rest & -> & Hg & Ht') & Hs); [|done].
       split; [done|]. split; [|done]. exists (k :: dn), rest. split; [done|].
       split; [|done]. cbn in *. by rewrite Hg, <- filter_delete, delete_id. }
  erewrite run_bind_Some by done. cbn [fst snd].
  pose proof (inv_groups _ Hi _ _ Ek) as [Hwf _ _ Hfit [peer Hpeer]].
  pose proof (inv_peers _ Hi _ _ Hpeer) as Hok. rewrite Hpeer.
  pose proof (proj2 (inv_count _ (inv_delete _ _ _ Hi Ek))) as Hi1.
  set (a1 := count_eviction _) in *.
  pose proof (pending_delete (ra_peer_info a) _ _ _ Ek) as Hpd.
  rewrite (kg_facts_peer _ _ _ _ Hpeer) in Hpd.
  intros Hr. apply run_bind_inv in Hr as [(u & w1 & He & Hr)|[He ->]];
    (eapply emit_sent in He as [Hs Hw]; [|eauto..]); cbn [fst] in Hw.
  - apply IH in Hr as (Hi' & (dn & rest & -> & Hg & Ht') & facts & Hs' & Hf);
      [|by rewrite Hw].
    split; [done|]. split.
    + exists (k :: dn), rest. split; [done|]. split; [|done].
      rewrite Hg, Hw. apply filter_delete.
    + exists (group_facts peer g ++ facts). split.
      * eapply sent_table; [..|eapply sent_trans; [exact Hs|exact Hs']]; done.
      * intros Hn. rewrite <- app_assoc, Hf, Hw by done. symmetry. exact Hpd.
  - split; [by rewrite Hw|]. split.
    + exists [k], keys. split; [done|]. split; [|done]. rewrite Hw. cbn.
      rewrite <- filter_delete. symmetry. apply map_filter_id. set_solver.
    + exists []. split; [|done]. eapply sent_table; [..|by eapply sent_None]; done.
Qed.

Lemma evict_spec w r w' :
  agg_inv (fst w) -> evict_until_under_budget w = (r, w') ->
  agg_inv (fst w')
  /\ (r <> None -> buffered_bytes (fst w') <= max_bytes (fst w) / 2)
  /\ (forall k k', is_Some (groups (fst w) !! k) -> groups (fst w') !! k = None ->
      is_Some (groups (fst w') !! k') -> fuller (fst w) k k')
  /\ exists facts, sent w w' r facts
      /\ (r <> None -> facts ++ pending (fst w') ≡ₚ pending (fst w)).
Proof.
  intros Hi. unfold evict_until_under_budget, get_agg.
  erewrite run_bind_Some by done. cbn [fst].
  set (ks := (hm_iter (groups (fst w))).*1). set (keys := merge_sort _ ks).
  assert (forall k, k ∈ keys <-> is_Some (groups (fst w) !! k)) as Hks.
  { intros k. unfold keys, ks. rewrite merge_sort_Permutation, hm_iter_perm.
    rewrite list_elem_of_fmap. split.
    - intros ([k' g] & -> & Hg%elem_of_map_to_list). by eexists.
    - intros [g Hg]. exists (k, g). by rewrite elem_of_map_to_list. }
  assert (StronglySorted (fuller (fst w)) keys) as Hsort.
  { apply Sorted_StronglySorted; [|apply Sorted_merge_sort].
    - intros x y z. unfold fuller. lia.
    - intros x y. unfold fuller. lia. }
  intros He. apply evict_loop_spec in He as (Hi' & (dn & rest & Hk & Hg & Ht) & Hs); [|done].
  split; [done|]. split; [|split; [|done]].
  - intros Hr. destruct rest as [|k rest]; [|by apply Ht].
    rewrite (inv_bytes _ Hi'), Hg, map_empty_filter_2.
    + rewrite bytes_empty. apply Z.div_pos; [apply Hi|lia].
    + intros k g Hkg Hn. apply Hn. rewrite <- (app_nil_r dn), <- Hk. apply Hks. by eexists.
  - intros k k' Hsk Hnk [g' Hg']. rewrite Hg in *.
    apply map_lookup_filter_Some in Hg' as [Hg' Hnd']. cbn in Hnd'.
    assert (k ∈ dn) as Hd.
    { destruct Hsk as [g Hsk]. destruct (decide (k ∈ dn)); [done|].
      rewrite map_lookup_filter_None in Hnk.
      destruct Hnk as [Hnk|Hnk]; [congruence|by specialize (Hnk _ Hsk)]. }
    assert (k' ∈ rest) as Hd'.
    { assert (k' ∈ keys) as Hin by (apply Hks; by eexists).
      rewrite Hk in Hin. set_solver. }
    rewrite Hk in Hsort. by apply (StronglySorted_app_1_elem_of (fuller (fst w)) dn rest).
Qed.

Lemma take_group_spec peer id v4 pamap w r w' :
  let key := (id, v4, hash_pa_blob (pa_blob (raw pamap))) in
  agg_inv (fst w) -> ra_peer_info (fst w) !! id = Some peer ->
  Forall is_byte (raw pamap) ->
  take_group peer key pamap w = (r, w') ->
  agg_inv (fst w') /\ groups (fst w') !! key = None
  /\ buffered_bytes (fst w') <= buffered_bytes (fst w)
  /\ exists f, sent w w' r f
     /\ forall g, r = Some g ->
        group_wf v4 g /\ blob g = pa_blob (raw pamap)
        /\ (g_prefixes g = [] \/ bgp_update_len g <= MAX_BGP_UPDATE_LEN)
        /\ f ++ group_facts peer g ++ pending (fst w') ≡ₚ pending (fst w).
Proof.
  intros key Hi Hp Hb. unfold take_group, get_agg.
  erewrite run_bind_Some by done. cbn [fst]. destruct w as [a out]. cbn [fst snd] in *.
  pose proof (group_new_wf pamap v4 Hb) as Hnew.
  destruct (group_new_raw pamap v4) as [Hnr Hnp].
  assert (blob (group_new pamap v4) = pa_blob (raw pamap)) as Hnb by (unfold blob; by rewrite Hnr).
  assert (group_facts peer (group_new pamap v4) = []) as Hnf
    by (unfold group_facts; by rewrite Hnp).
  destruct (groups a !! key) as [g|] eqn:Ek.
  - pose proof (inv_groups _ Hi _ _ Ek) as [Hwf _ _ Hfit _].
    pose proof (inv_peers _ Hi _ _ Hp) as Hok.
    pose proof (inv_delete _ _ _ Hi Ek) as Hi1.
    pose proof (pending_delete (ra_peer_info a) _ _ _ Ek) as Hpd.
    rewrite (kg_facts_peer _ key _ peer Hp) in Hpd.
    erewrite run_bind_Some by done. cbn [fst snd]. set (a1 := set_groups _ _ _) in *.
    assert (groups a1 !! key = None) as Hn by apply lookup_delete_eq.
    assert (buffered_bytes a1 <= buffered_bytes a) as Hle
      by (cbn; pose proof (cost_nonneg g); lia).
    case_bool_decide as Hbl.
    + intros [= <- <-]. split; [done|]. split; [done|]. split; [done|]. exists []. split.
      * eapply sent_table; [..|by apply (sent_refl (a1, out))]; done.
      * intros g' [= <-]. split; [done|]. split; [done|]. split; [by right|].
        symmetry. exact Hpd.
    + intros Hr. apply run_bind_inv in Hr as [(u & w1 & He & Hr)|[He ->]];
        (eapply emit_sent in He as [Hs Hw]; [|eauto..]); cbn [fst] in Hw.
      * erewrite run_bind_Some in Hr by done. injection Hr as <- <-. cbn [fst snd].
        rewrite Hw. split; [by apply inv_count|]. split; [done|]. split; [done|].
        exists (group_facts peer g). split.
        -- apply (sent_table a a1); [done|done|].
           eapply sent_ret; [..|exact Hs]; by rewrite Hw.
        -- intros g' [= <-]. rewrite Hnf. split; [done|]. split; [done|]. split; [by left|].
           symmetry. exact Hpd.
      * rewrite Hw. split; [done|]. split; [done|]. split; [done|]. exists []. split; [|done].
        eapply sent_table; [..|by eapply sent_None]; done.
  - erewrite run_bind_Some by done. intros [= <- <-]. cbn [fst snd].
    split; [by apply inv_count|]. split; [done|]. split; [done|]. exists []. split.
    + by eapply sent_table; [..|by apply (sent_refl (count_group a, out))].
    + intros g' [= <-]. rewrite Hnf. by eauto.
Qed.

Lemma make_room_spec peer v4 n g w r w' :
  peer_ok peer -> group_wf v4 g ->
  (g_prefixes g = [] \/ bgp_update_len g <= MAX_BGP_UPDATE_LEN) ->
  make_room peer n g w = (r, w') ->
  fst w' = fst w
  /\ exists f, sent w w' r f
     /\ forall g', r = Some g' ->
        group_wf v4 g' /\ blob g' = blob g
        /\ (g_prefixes g' = [] \/ bgp_update_len g' + n <= MAX_BGP_UPDATE_LEN)
        /\ f ++ group_facts peer g' = group_facts peer g.
Proof.
  intros Hp Hw Hl. unfold make_room.
  destruct (negb (is_empty g) && (bgp_update_len g + n >? MAX_BGP_UPDATE_LEN)) eqn:Hc.
  - intros Hr. apply run_bind_inv in Hr as [(u & w1 & He & Hr)|[He ->]];
      (eapply emit_sent in He as [Hs Hw']; [|eauto..]).
    + injection Hr as <- <-. split; [done|]. exists (group_facts peer g). split.
      * destruct w1 as [a1 o1]. by apply (sent_ret w (a1, o1) a1 u).
      * intros g' [= <-]. split; [by apply reset_wf|]. split; [done|].
        split; [by left|]. by rewrite app_nil_r.
    + split; [done|]. exists []. split; [by eapply sent_None|done].
  - intros [= <- <-]. split; [done|]. exists []. split; [by apply sent_refl|].
    intros g' [= <-]. split; [done|]. split; [done|]. split; [|done].
    unfold is_empty in Hc. destruct (g_prefixes g); [by left|right].
    cbn in Hc. zify_bools. lia.
Qed.

(** What a route adds to the outcome: nothing when its peer is unknown or its
    announcement would exceed 65535 bytes. *)
Definition new_facts (peers : gmap IngressId PeerInfo) id (p : Prefix) (r : list Z) :=
  match peers !! id with
  | Some peer =>
      if announce_len p r <=? u16_max then [route_fact peer r p] else []
  | None => []
  end.

(** The single-route message of an oversized attribute set. *)
Lemma single_message now peer p r :
  peer_ok peer -> Forall is_byte r ->
  match build_route_monitoring now peer p (mk_pamap r) false with
  | Some msg => announce_len p r <= u16_max /\ msg_ok (msg, 1)
                /\ msg_facts (msg, 1) = [route_fact peer r p]
  | None => u16_max < announce_len p r
  end.
Proof.
  intros Hp Hb. unfold build_route_monitoring. pose proof (announce_update p r Hb) as Hu.
  destruct (build_bgp_update p (mk_pamap r) false) as [upd|]; [|done].
  destruct Hu as (Hl & Hz & Hd). rewrite <- Hz in Hl.
  pose proof (decode_rm now peer upd _ Hp Hl Hd) as Hr.
  change (peer_message now peer _ upd) with
    (write_per_peer_header now (write_common_header [] BMP_MSG_ROUTE_MONITORING
       (BMP_COMMON_HEADER_LEN + BMP_PER_PEER_HEADER_LEN + zlen upd)) peer ++ upd) in Hr.
  split; [lia|]. split.
  - eexists _, _. split; [exact Hr|]. by eauto.
  - unfold msg_facts. cbn [fst]. by rewrite Hr.
Qed.

Lemma sink_sent msg n w r w' :
  msg_ok (msg, n) -> sink (fun _ => msg) n w = (r, w') ->
  sent w w' r (msg_facts (msg, n)) /\ fst w' = fst w.
Proof.
  intros Hok. unfold sink. intros [= <- <-]. split; [|done]. split; cbn; [|done..|].
  - exists [(msg, n)]. split; [done|]. split; [by constructor|]. intros _. cbn.
    by rewrite app_nil_r.
  - case_bool; done.
Qed.

(** A group beside a route: the route's blob is the group's, and the group has
    room for it. *)
Record place_ok (peer : PeerInfo) (key : AggKey) (p : Prefix) (rw : list Z) (g : AggGroup)
    (a : RouteAggregator) : Prop := {
  pl_inv : agg_inv a;
  pl_peer : ra_peer_info a !! fst (fst key) = Some peer;
  pl_bytes : Forall is_byte rw;
  pl_wf : group_wf (snd (fst key)) g;
  pl_blob : blob g = pa_blob rw;
  pl_family : snd (fst key) = prefix_is_v4 p;
  pl_hash : snd key = hash_pa_blob (pa_blob rw);
  pl_absent : groups a !! key = None;
  pl_room : g_prefixes g = [] \/ bgp_update_len g + nlri_encoded_len p <= MAX_BGP_UPDATE_LEN
}.

(** What [place] promises. *)
Definition placed (peer : PeerInfo) (key : AggKey) (p : Prefix) (rw : list Z) (g : AggGroup)
    (w : World) (r : option unit)
    (w' : World) : Prop :=
  agg_inv (fst w')
  /\ (r <> None -> buffered_bytes (fst w) <= max_bytes (fst w) ->
      buffered_bytes (fst w') <= max_bytes (fst w'))
  /\ exists f, sent w w' r f
     /\ (r <> None ->
         f ++ pending (fst w') ≡ₚ
         pending (fst w) ++ group_facts peer g
           ++ new_facts (ra_peer_info (fst w)) (fst (fst key)) p rw).

Lemma place_base peer key p rw g a :
  place_ok peer key p rw g a -> announce_len p rw <= g_base_len g + nlri_encoded_len p.
Proof.
  intros [Hi Hp Hb Hw Hbl Hv Hh Hn Hl]. etrans; [apply announce_len_le|].
  assert (g_base_len g = g_base_len (group_new (mk_pamap rw) (prefix_is_v4 p))) as ->; [|done].
  rewrite (wf_base _ _ Hw), Hv. unfold group_new, filter_raw_path_attributes. cbn [raw].
  rewrite !(proj2 (filter_pa_eq _)). unfold blob_attrs. unfold blob in Hbl. by rewrite Hbl.
Qed.

(** A route too long to be aggregated goes out alone. *)
Lemma place_alone peer key p rw g w r w' :
  place_ok peer key p rw g (fst w) -> g_prefixes g = [] ->
  match build_route_monitoring (sink_clock (snd w)) peer p (mk_pamap rw) false with
  | Some msg => sink (fun _ => msg) 1
  | None => mret tt
  end w = (r, w') ->
  placed peer key p rw g w r w'.
Proof.
  intros [Hi Hp Hb Hw Hbl Hv Hh Hn Hl] Hg. pose proof (inv_peers _ Hi _ _ Hp) as Hok.
  unfold placed, new_facts, group_facts. rewrite Hp, Hg. cbn [fmap list_fmap app].
  pose proof (single_message (sink_clock (snd w)) peer p rw Hok Hb) as Hm.
  destruct (build_route_monitoring _ _ _ _ _) as [msg|].
  - destruct Hm as (Hal & Hmok & Hf). intros Hs. apply sink_sent in Hs as [Hs Hw']; [|done].
    rewrite Hw'. split; [done|]. split; [done|].
    exists (msg_facts (msg, 1)). split; [done|]. intros _.
    rewrite (proj2 (Z.leb_le _ _) Hal), Hf. apply Permutation_app_comm.
  - intros [= <- <-]. split; [done|]. split; [done|].
    exists []. split; [by apply sent_refl|]. intros _.
    rewrite (proj2 (Z.leb_gt _ _) Hm). by rewrite app_nil_r.
Qed.

(** The table with the group that has taken the route. *)
Definition grown (key : AggKey) (p : Prefix) (g : AggGroup) (a : RouteAggregator)
  : RouteAggregator :=
  let g' := push p (nlri_encoded_len p) g in
  set_groups (<[key := g']> (groups a)) (buffered_bytes a + cost g') a.

Lemma grown_spec peer key p rw g a :
  place_ok peer key p rw g a ->
  bgp_update_len (push p (nlri_encoded_len p) g) <= MAX_BGP_UPDATE_LEN ->
  agg_inv (grown key p g a)
  /\ pending (grown key p g a) ≡ₚ pending a ++ group_facts peer g ++ [route_fact peer rw p].
Proof.
  intros [Hi Hp Hb Hw Hbl Hv Hh Hn Hl] Hfit.
  assert (stored_ok (ra_peer_info a) key (push p (nlri_encoded_len p) g)) as Hst.
  { split; [by apply push_wf| | |done|by eexists].
    - change (blob (push _ _ g)) with (blob g). by rewrite Hbl.
    - cbn. by destruct (g_prefixes g). }
  split; [exact (inv_insert _ _ _ Hi Hn Hst)|].
  unfold grown, pending. cbn. rewrite pending_insert by done.
  rewrite (kg_facts_peer _ _ _ _ Hp), (Permutation_app_comm (pending_in _ _)).
  apply Permutation_app_tail. unfold group_facts. cbn [g_prefixes push g_raw].
  rewrite fmap_app. cbn. by rewrite (route_fact_blob peer (g_raw g) rw).
Qed.

(** The budget is restored when the group has outgrown it. *)
Lemma place_grown peer key p rw g a out r w' :
  place_ok peer key p rw g a -> announce_len p rw <= u16_max ->
  bgp_update_len (push p (nlri_encoded_len p) g) <= MAX_BGP_UPDATE_LEN ->
  (if buffered_bytes (grown key p g a) >? max_bytes (grown key p g a)
   then evict_until_under_budget else mret tt) (grown key p g a, out) = (r, w') ->
  placed peer key p rw g (a, out) r w'.
Proof.
  intros Hpl Hal Hfit. pose proof (grown_spec _ _ _ _ _ _ Hpl Hfit) as [Hi1 Hpe].
  unfold placed, new_facts. cbn [fst]. rewrite (pl_peer _ _ _ _ _ _ Hpl), (proj2 (Z.leb_le _ _) Hal).
  set (a1 := grown key p g a) in *.
  destruct (buffered_bytes a1 >? max_bytes a1) eqn:Hbud.
  - intros He. apply evict_spec in He as (Hi2 & Hbu & _ & f & Hs & Hf); [|done].
    cbn [fst] in *. split; [done|]. split.
    + intros Hr _. specialize (Hbu Hr). rewrite (sent_max _ _ _ _ Hs).
      pose proof (inv_max _ Hi1). cbn [fst]. pose proof (Z.div_le_upper_bound (max_bytes a1) 2 (max_bytes a1)).
      lia.
    + exists f. split; [by apply (sent_table a a1)|]. intros Hr. by rewrite Hf, Hpe.
  - intros [= <- <-]. cbn [fst]. split; [done|]. split; [zify_bools; done|].
    exists []. split; [by apply (sent_table a a1); [done..|apply sent_refl]|].
    intros _. by rewrite <- Hpe.
Qed.

Lemma place_spec peer key p rw g w r w' :
  place_ok peer key p rw g (fst w) -> place peer key p (mk_pamap rw) g w = (r, w') ->
  placed peer key p rw g w r w'.
Proof.
  intros Hpl. pose proof (place_base _ _ _ _ _ _ Hpl) as Ha. unfold place.
  destruct (is_empty g && _) eqn:Hc.
  - erewrite run_bind_Some by done. apply place_alone; [done|].
    unfold is_empty in Hc. by destruct (g_prefixes g).
  - pose proof (wf_total _ _ (pl_wf _ _ _ _ _ _ Hpl)) as Ht.
    assert (bgp_update_len (push p (nlri_encoded_len p) g) <= MAX_BGP_UPDATE_LEN) as Hfit.
    { unfold bgp_update_len in *. cbn. destruct (pl_room _ _ _ _ _ _ Hpl) as [Hl|Hl];
        [|unfold bgp_update_len in Hl; lia].
      unfold is_empty in Hc. rewrite Hl in Hc. cbn in Hc. zify_bools.
      rewrite Ht, Hl. change (zlen (nlri_bytes [])) with 0. lia. }
    destruct w as [a out]. apply place_grown; [done| |done].
    unfold bgp_update_len in Hfit. cbn in Hfit.
    pose proof (zlen_nonneg (nlri_bytes (g_prefixes g))).
    unfold MAX_BGP_UPDATE_LEN, u16_max in *. lia.
Qed.

Lemma add_spec id p pamap w r w' :
  agg_inv (fst w) -> Forall is_byte (raw pamap) -> add id p pamap w = (r, w') ->
  agg_inv (fst w')
  /\ (r <> None -> buffered_bytes (fst w) <= max_bytes (fst w) ->
      buffered_bytes (fst w') <= max_bytes (fst w'))
  /\ exists f, sent w w' r f
     /\ (r <> None ->
         f ++ pending (fst w') ≡ₚ
         pending (fst w) ++ new_facts (ra_peer_info (fst w)) id p (raw pamap)).
Proof.
  intros Hi Hb. unfold add, get_agg. erewrite run_bind_Some by done. cbn [fst].
  destruct (ra_peer_info (fst w) !! id) as [peer|] eqn:Hp.
  2: { intros [= <- <-]. split; [done|]. split; [done|]. exists [].
       split; [by apply sent_refl|]. intros _. unfold new_facts. by rewrite Hp, app_nil_r. }
  pose proof (inv_peers _ Hi _ _ Hp) as Hok.
  intros Hr. apply run_bind_inv in Hr as [(g & w1 & Ht & Hr)|[Ht ->]];
    apply take_group_spec in Ht as (Hi1 & Hn1 & Hle & f1 & Hs1 & Hg1); try done.
  2: { split; [done|]. split; [done|]. exists []. split; [by eapply sent_None|done]. }
  destruct (Hg1 g eq_refl) as (Hw & Hbl & Hl & Hf1). clear Hg1.
  apply run_bind_inv in Hr as [(g2 & w2 & Hm & Hr)|[Hm ->]];
    (eapply make_room_spec in Hm as (Hw2 & f2 & Hs2 & Hg2); [|done..]); rewrite <- Hw2 in *.
  2: { split; [done|]. split; [done|]. exists []. split; [|done].
       eapply (sent_None _ _ (f1 ++ f2)), sent_trans; eauto. }
  destruct (Hg2 g2 eq_refl) as (Hwf2 & Hbl2 & Hl2 & Hf2). clear Hg2.
  pose proof (sent_peers _ _ _ _ Hs1) as Hpe. pose proof (sent_max _ _ _ _ Hs1) as Hmx.
  rewrite <- Hw2 in Hpe, Hmx.
  destruct pamap as [rw]. cbn [raw] in *.
  apply place_spec in Hr as (Hi3 & Hbu & f3 & Hs3 & Hf3); cbn [fst snd] in *;
    [|split; cbn [fst snd]; try done; congruence].
  split; [done|]. split.
  - intros Hr Hb0. apply Hbu; [done|]. lia.
  - exists ((f1 ++ f2) ++ f3). split; [by eapply sent_trans; [eapply sent_trans|]|].
    intros Hr. rewrite <- app_assoc, Hf3, Hpe by done.
    rewrite <- Hf1, <- Hf2. rewrite <- !app_assoc. apply Permutation_app_head.
    solve_Permutation.
Qed.

Lemma flush_loop_spec peers gs w r w' :
  map_Forall (fun _ p => peer_ok p) peers ->
  Forall (fun kg => stored_ok peers (fst kg) (snd kg)) gs ->
  flush_loop peers gs w = (r, w') ->
  fst w' = fst w
  /\ exists f, sent w w' r f /\ (r <> None -> f ≡ₚ gs ≫= kg_facts peers).
Proof.
  intros Hp Hg. revert w. induction Hg as [|[k g] gs Hk _ IH]; intros w; cbn [flush_loop].
  { intros [= <- <-]. split; [done|]. exists []. split; [by apply sent_refl|done]. }
  cbn [fst snd] in Hk. destruct Hk as [Hwf _ _ Hfit [peer Hpeer]].
  rewrite Hpeer. pose proof (Hp _ _ Hpeer) as Hok. cbn beta in Hok.
  intros Hr. apply run_bind_inv in Hr as [(u & w1 & He & Hr)|[He ->]];
    (eapply emit_sent in He as [Hs Hw]; [|eauto..]).
  - apply IH in Hr as (Hw' & f & Hs' & Hf). split; [congruence|].
    exists (group_facts peer g ++ f). split; [by eapply sent_trans|].
    intros Hr. rewrite Hf by done. by rewrite bind_cons, (kg_facts_peer _ _ _ _ Hpeer).
  - split; [done|]. exists []. split; [by eapply sent_None|done].
Qed.

Lemma flush_all_spec w r w' :
  agg_inv (fst w) -> flush_all w = (r, w') ->
  agg_inv (fst w') /\ groups (fst w') = ∅ /\ buffered_bytes (fst w') = 0
  /\ exists f, sent w w' r f /\ (r <> None -> f ≡ₚ pending (fst w)).
Proof.
  intros Hi. destruct w as [a out]. unfold flush_all. cbn [fst snd] in *.
  destruct (flush_loop _ _ _) as [r1 w1] eqn:Ef. intros [= <- <-]. cbn [fst].
  assert (Forall (fun kg => stored_ok (ra_peer_info a) (fst kg) (snd kg))
            (hm_iter (groups a))) as Hst.
  { apply Forall_forall. intros [k g] Hkg. rewrite hm_iter_perm in Hkg.
    apply elem_of_map_to_list in Hkg. by apply (inv_groups _ Hi). }
  apply flush_loop_spec in Ef as (Hw & f & Hs & Hf); [|apply Hi|done].
  cbn [fst] in Hw. rewrite Hw. cbn [groups buffered_bytes set_groups]. split.
  { split; cbn; [symmetry; apply bytes_empty|apply map_Forall_empty|apply Hi..]. }
  split; [done|]. split; [done|]. exists f. split.
  - destruct Hs as [N P M G]. rewrite Hw in P, M. by split.
  - intros Hr. rewrite Hf by done. unfold pending, pending_in. by rewrite hm_iter_perm.
Qed.

(** The routes of a walk, one after the other. *)
Definition add_all (routes : list (IngressId * Prefix * RotondaPaMap))
  : Run World unit :=
  run_for routes (fun '(id, p, pamap) => add id p pamap).

(** The walk and the final flush. *)
Definition add_all_and_flush (routes : list (IngressId * Prefix * RotondaPaMap))
  : Run World unit :=
  _ ← add_all routes; flush_all.

Definition routes_bytes (routes : list (IngressId * Prefix * RotondaPaMap)) : Prop :=
  Forall (fun '(_, _, pamap) => Forall is_byte (raw pamap)) routes.

Definition routes_facts (peers : gmap IngressId PeerInfo)
    (routes : list (IngressId * Prefix * RotondaPaMap)) :=
  routes ≫= fun '(id, p, pamap) => new_facts peers id p (raw pamap).

Lemma add_all_spec routes w r w' :
  agg_inv (fst w) -> routes_bytes routes -> add_all routes w = (r, w') ->
  agg_inv (fst w')
  /\ (r <> None -> buffered_bytes (fst w) <= max_bytes (fst w) ->
      buffered_bytes (fst w') <= max_bytes (fst w'))
  /\ exists f, sent w w' r f
     /\ (r <> None -> f ++ pending (fst w') ≡ₚ
           pending (fst w) ++ routes_facts (ra_peer_info (fst w)) routes).
Proof.
  intros Hi Hb. revert w Hi. induction Hb as [|[[id p] pamap] routes Hb _ IH]; intros w Hi.
  { intros [= <- <-]. split; [done|]. split; [done|]. exists [].
    split; [by apply sent_refl|]. intros _. by rewrite app_nil_r. }
  intros Hr. apply run_bind_inv in Hr as [(u & w1 & Ha & Hr)|[Ha ->]];
    apply add_spec in Ha as (Hi1 & Hb1 & f1 & Hs1 & Hf1); try done.
  - apply IH in Hr as (Hi2 & Hb2 & f2 & Hs2 & Hf2); [|done]. split; [done|]. split.
    { intros Hr Hle. apply Hb2; [done|]. by apply Hb1. }
    exists (f1 ++ f2). split; [by eapply sent_trans|]. intros Hr.
    rewrite <- app_assoc, Hf2, (sent_peers _ _ _ _ Hs1), app_assoc, Hf1 by done.
    unfold routes_facts. by rewrite bind_cons, app_assoc.
  - split; [done|]. split; [done|]. exists []. split; [by eapply sent_None|done].
Qed.

Lemma new_inv max peers :
  0 <= max -> map_Forall (fun _ p => peer_ok p) peers ->
  agg_inv (aggregator_new max peers) /\ pending (aggregator_new max peers) = [].
Proof.
  intros Hm Hp. split.
  - split; cbn; [symmetry; apply bytes_empty|apply map_Forall_empty|done..].
  - unfold pending, pending_in. cbn. by rewrite map_to_list_empty.
Qed.

(** ** Properties *)

(** C5: a complete walk through the aggregator is exact.  Whatever the memory
    budget, the hash collisions and the order of the hash tables: every message
    handed to the sink decodes, is counted right and fits a 4096-byte UPDATE
    (or carries one route); when the consumer stays, the messages announce
    exactly the routes of the walk, each as often as it occurs, with its own
    peer, next hop and attributes, less the routes of unknown peers and those
    over 65535 bytes, and no group is left; the walk stops early only if the
    consumer is gone. *)
Theorem aggregation_exact max peers routes :
  0 <= max -> map_Forall (fun _ p => peer_ok p) peers -> routes_bytes routes ->
  let '(r, (a, out)) :=
    add_all_and_flush routes (aggregator_new max peers, []) in
  Forall msg_ok out
  /\ match r with
     | Some _ => out ≫= msg_facts ≡ₚ routes_facts peers routes /\ groups a = ∅
     | None => sink_accepts out = false
     end.
Proof.
  intros Hm Hp Hb. destruct (new_inv max peers Hm Hp) as [Hi H0].
  destruct (add_all_and_flush _ _) as [r [a out]] eqn:Er.
  assert (exists f, sent (aggregator_new max peers, []) (a, out) r f
    /\ (r <> None -> f ≡ₚ routes_facts peers routes /\ groups a = ∅)) as (f & Hs & Hf).
  { apply run_bind_inv in Er as [(u & w1 & Ha & Hr)|[Ha ->]];
      apply add_all_spec in Ha as (Hi1 & _ & f1 & Hs1 & Hf1); try done.
    - apply flush_all_spec in Hr as (_ & Hg & _ & f2 & Hs2 & Hf2); [|done].
      exists (f1 ++ f2). split; [by eapply sent_trans|]. intros Hr. split; [|done].
      rewrite Hf2, Hf1 by done. cbn [fst]. by rewrite H0.
    - exists []. split; [by eapply sent_None|done]. }
  destruct Hs as [(new & Hn & Hok & Hnf) _ _ Hgone]. cbn in Hn. subst new.
  split; [done|]. destruct r as [u|]; [|by apply Hgone].
  destruct (Hf ltac:(done)) as [Hff Hg]. split; [|done]. by rewrite Hnf.
Qed.

(** While routes are added, the accounted memory is exactly the cost of the
    open groups and stays within the budget; every open group has prefixes of
    one family, one attribute blob, a known peer, and fits one UPDATE. *)
Theorem aggregator_budget max peers routes :
  0 <= max -> map_Forall (fun _ p => peer_ok p) peers -> routes_bytes routes ->
  let '(r, (a, _)) := add_all routes (aggregator_new max peers, []) in
  buffered_bytes a = bytes_of (groups a)
  /\ map_Forall (stored_ok peers) (groups a)
  /\ (r <> None -> buffered_bytes a <= max).
Proof.
  intros Hm Hp Hb. destruct (new_inv max peers Hm Hp) as [Hi H0].
  destruct (add_all _ _) as [r [a out]] eqn:Er.
  apply add_all_spec in Er as (Hi1 & Hb1 & f1 & Hs1 & _); [|done..].
  pose proof (sent_peers _ _ _ _ Hs1) as Hpe. pose proof (sent_max _ _ _ _ Hs1) as Hmx.
  cbn in *. split; [apply Hi1|]. split; [rewrite <- Hpe; apply Hi1|].
  intros Hr. rewrite <- Hmx. apply Hb1; [done|lia].
Qed.

(** An eviction goes below half the budget, loses no route (what it does
    not emit stays buffered) and takes the fullest groups: no group that is
    evicted has fewer prefixes than one that stays. *)
Theorem eviction_fullest_first w r w' :
  agg_inv (fst w) -> evict_until_under_budget w = (r, w') ->
  (r <> None ->
     buffered_bytes (fst w') <= max_bytes (fst w) / 2
     /\ exists new, snd w' = snd w ++ new
          /\ (new ≫= msg_facts) ++ pending (fst w') ≡ₚ pending (fst w))
  /\ (forall k k', is_Some (groups (fst w) !! k) -> groups (fst w') !! k = None ->
        is_Some (groups (fst w') !! k') ->
        (group_len (fst w) k' <= group_len (fst w) k)%nat).
Proof.
  intros Hi He. apply evict_spec in He as (_ & Hb & Hf & f & Hs & Hp); [|done].
  split; [|exact Hf]. intros Hr. split; [by apply Hb|].
  destruct Hs as [(new & Hn & _ & Hnf) _ _ _]. exists new. split; [done|].
  rewrite Hnf, Hp by done. done.
Qed.

End Steps.

(** ** Witnesses: a budget of 500 bytes that forces evictions *)
#[local] Existing Instance Demo.extern.

Module AggDemo.

(** A consumer that never goes away. *)
Definition sink : Sink :=
  {| sink_accepts := fun _ => true; sink_clock := fun _ => WireDemo.now |}.

Definition peers : gmap IngressId PeerInfo := {[ 7 := WireDemo.peer ]}.

Definition blob_a : RotondaPaMap := pamap_from_vec [64; 1; 1; 0].
Definition blob_b : RotondaPaMap := pamap_from_vec [64; 1; 1; 2].

Definition routes : list (IngressId * @Prefix Demo.extern * RotondaPaMap) :=
  [(7, WireDemo.v4_prefix, blob_a); (7, WireDemo.v6_prefix, blob_a);
   (7, WireDemo.v4_prefix, blob_b); (9, WireDemo.v4_prefix, blob_b);
   (7, WireDemo.v6_prefix, blob_a); (7, WireDemo.v6_prefix, blob_b)].

Lemma peers_ok : map_Forall (fun _ p => peer_ok p) peers.
Proof. apply map_Forall_singleton, WireDemo.peer_is_ok. Defined.

Lemma routes_ok : routes_bytes routes.
Proof. by repeat constructor. Defined.

End AggDemo.

#[local] Existing Instance AggDemo.sink.
#[local] Existing Instance list_order.

Lemma aggregation_exact_witness :
  let '(r, (a, out)) :=
    add_all_and_flush AggDemo.routes (aggregator_new 500 AggDemo.peers, []) in
  r = Some tt /\ length out = 4%nat
  /\ out ≫= msg_facts ≡ₚ routes_facts AggDemo.peers AggDemo.routes.
Proof.
  assert (fst (add_all_and_flush AggDemo.routes (aggregator_new 500 AggDemo.peers, []))
            = Some tt
          /\ length (snd (snd (add_all_and_flush AggDemo.routes
                                (aggregator_new 500 AggDemo.peers, [])))) = 4%nat)
    as [H1 H2] by (split; vm_compute; reflexivity).
  pose proof (aggregation_exact 500 AggDemo.peers AggDemo.routes ltac:(done)
                AggDemo.peers_ok AggDemo.routes_ok) as H.
  destruct (add_all_and_flush _ _) as [r [a out]]. cbn in H1, H2. subst r.
  split; [done|]. split; [done|]. apply H.
Defined.

Lemma aggregator_budget_witness :
  let '(r, (a, _)) := add_all AggDemo.routes (aggregator_new 500 AggDemo.peers, []) in
  r = Some tt /\ 0 < budget_evictions a /\ buffered_bytes a <= 500.
Proof.
  assert (fst (add_all AggDemo.routes (aggregator_new 500 AggDemo.peers, [])) = Some tt
          /\ 0 < budget_evictions (fst (snd (add_all AggDemo.routes
                                               (aggregator_new 500 AggDemo.peers, [])))))
    as [H1 H2] by (split; vm_compute; reflexivity).
  pose proof (aggregator_budget 500 AggDemo.peers AggDemo.routes ltac:(done)
                AggDemo.peers_ok AggDemo.routes_ok) as H.
  destruct (add_all _ _) as [r [a out]]. cbn in H1, H2. subst r.
  split; [done|]. split; [done|]. by apply H.
Defined.

Lemma eviction_fullest_first_witness :
  buffered_bytes (fst (snd (evict_until_under_budget (aggregator_new 500 AggDemo.peers, []))))
  <= 250.
Proof.
  assert (fst (evict_until_under_budget (aggregator_new 500 AggDemo.peers, [])) = Some tt)
    as Hr by (vm_compute; reflexivity).
  destruct (evict_until_under_budget (aggregator_new 500 AggDemo.peers, [])) as [r w'] eqn:Er.
  destruct (new_inv 500 AggDemo.peers ltac:(done) AggDemo.peers_ok) as [Hi _].
  apply (eviction_fullest_first (aggregator_new 500 AggDemo.peers, []) r w' Hi Er).
  cbn in Hr. congruence.
Defined.
