(* ===== verification/ClientState.v ===== *)
(** * One BMP consumer ([src/units/bmp_tcp_out/client_state.rs],
    the counters of [src/mem_stats.rs])

    The state of a connected client and the operations on it.  The channel to
    the writer task is tokio's: what it answers to a send is a parameter, a
    function of everything that was sent before.  Each attempt is recorded with
    a tag saying what kind of message it was; the tags exist in the model only
    and are never looked at by an operation. *)

From S2P Require Import Prelude Net Register Payload BmpBuilder.
From Stdlib Require Import ZArith Lia.
From stdpp Require Import base numbers list gmap fin_maps.

Local Open Scope Z_scope.

#[local] Arguments zlen : simpl never.
#[local] Arguments zsum : simpl never.

(** ** The channel to the writer task *)
Inductive Tag : Type :=
| T_Initiation
| T_PeerUp (id : IngressId)
| T_Route (id : IngressId)
| T_Stats (id : IngressId)
| T_Dump
| T_Eor (id : IngressId)
| T_PeerDown (id : IngressId).

#[export] Instance Tag_eq_dec : EqDecision Tag.
Proof. solve_decision. Defined.

Inductive SendOutcome : Type := SOk | SFull | SClosed.

#[export] Instance SendOutcome_eq_dec : EqDecision SendOutcome.
Proof. solve_decision. Defined.

Record Sent : Type := mk_sent_msg {
  s_tag : Tag; s_msg : list Z; s_outcome : SendOutcome
}.

(** [mpsc::Sender]: [send().await] waits for room, so it fails only when the
    receiver is gone; [try_send] may also find the queue full; once the receiver
    is gone every later send fails.  The clock is read when a message is built. *)
Class Channel := {
  chan_outcome : list Sent -> bool -> SendOutcome;
  chan_clock : list Sent -> Clock;
  chan_blocking log : chan_outcome log true <> SFull;
  chan_closed log b :
    Exists (fun s => s_outcome s = SClosed) log -> chan_outcome log b = SClosed
}.

(** A channel of unlimited size whose receiver goes away after [n] messages. *)
Definition chan_until (n : nat) : Channel.
Proof.
  refine {|
    chan_outcome := fun log _ =>
      if bool_decide (Exists (fun s => s_outcome s = SClosed) log)
         || (n <=? length log)%nat then SClosed else SOk;
    chan_clock := fun _ => mk_clock 0 0
  |}.
  - intros log. by case_bool.
  - intros log b H. by rewrite bool_decide_true.
Defined.

(** ** State *)
Inductive ClientPhase : Type := Dumping | Live.

#[export] Instance ClientPhase_eq_dec : EqDecision ClientPhase.
Proof. solve_decision. Defined.

Inductive BufferUpdateResult : Type := Buffered | NotDumping | Overflow.

(** The process-wide counters [BMP_OUT_CLIENTS], [BMP_OUT_BUFFERED_BYTES] and
    [BMP_OUT_BUFFERED_ENTRIES]. *)
Record MemStats : Type := mk_mem {
  ms_clients : Z; ms_bytes : Z; ms_entries : Z
}.

Section Client.
Context `{E : Extern} `{L : Layout}.

(** [tx] is the record of the attempts to send on it, [disconnect_notify] the
    number of times it was notified. *)
Record ClientState : Type := mk_client {
  phase : ClientPhase;
  tx : list Sent;
  dump_buffer : list Update;
  known_peers : gset IngressId;
  peer_info_cache : gmap IngressId PeerInfo;
  messages_sent : Z;
  bytes_sent : Z;
  max_buffer_entries : Z;
  max_buffer_bytes : Z;
  buffered_bytes : Z;
  disconnect_pending : bool;
  disconnect_notify : Z
}.

Definition client_new (max_entries max_bytes : Z) (g : MemStats)
  : ClientState * MemStats :=
  (mk_client Dumping [] [] ∅ ∅ 0 0 max_entries max_bytes 0 false 0,
   mk_mem (ms_clients g + 1) (ms_bytes g) (ms_entries g)).

Definition set_phase (p : ClientPhase) (c : ClientState) : ClientState :=
  mk_client p (tx c) (dump_buffer c) (known_peers c) (peer_info_cache c)
    (messages_sent c) (bytes_sent c) (max_buffer_entries c)
    (max_buffer_bytes c) (buffered_bytes c) (disconnect_pending c)
    (disconnect_notify c).

Definition set_buffer (buf : list Update) (bytes : Z) (c : ClientState)
  : ClientState :=
  mk_client (phase c) (tx c) buf (known_peers c) (peer_info_cache c)
    (messages_sent c) (bytes_sent c) (max_buffer_entries c)
    (max_buffer_bytes c) bytes (disconnect_pending c) (disconnect_notify c).

Definition set_peers (known : gset IngressId) (cache : gmap IngressId PeerInfo)
    (c : ClientState) : ClientState :=
  mk_client (phase c) (tx c) (dump_buffer c) known cache
    (messages_sent c) (bytes_sent c) (max_buffer_entries c)
    (max_buffer_bytes c) (buffered_bytes c) (disconnect_pending c)
    (disconnect_notify c).

Definition set_sent (log : list Sent) (n bytes : Z) (c : ClientState)
  : ClientState :=
  mk_client (phase c) log (dump_buffer c) (known_peers c) (peer_info_cache c)
    n bytes (max_buffer_entries c) (max_buffer_bytes c) (buffered_bytes c)
    (disconnect_pending c) (disconnect_notify c).

Definition set_disconnect (pending : bool) (notified : Z) (c : ClientState)
  : ClientState :=
  mk_client (phase c) (tx c) (dump_buffer c) (known_peers c)
    (peer_info_cache c) (messages_sent c) (bytes_sent c)
    (max_buffer_entries c) (max_buffer_bytes c) (buffered_bytes c) pending
    notified.

(** ** Buffering during the dump *)
Definition buffer_update_if_dumping (update : Update)
  : St (ClientState * MemStats) BufferUpdateResult :=
  fun '(c, g) =>
    if negb (bool_decide (phase c = Dumping)) then (NotDumping, (c, g))
    else
      let upd_bytes := shallow_bytes update in
      if zlen (dump_buffer c) >=? max_buffer_entries c then (Overflow, (c, g))
      else if saturating_add (buffered_bytes c) upd_bytes >? max_buffer_bytes c
      then (Overflow, (c, g))
      else
        (Buffered,
         (set_buffer (dump_buffer c ++ [update]) (buffered_bytes c + upd_bytes) c,
          mk_mem (ms_clients g) (ms_bytes g + upd_bytes) (ms_entries g + 1))).

Definition take_buffered_updates : St (ClientState * MemStats) (list Update) :=
  fun '(c, g) =>
    let bytes := buffered_bytes c in
    let entries := zlen (dump_buffer c) in
    (dump_buffer c,
     (set_buffer [] 0 c,
      mk_mem (ms_clients g) (ms_bytes g - bytes) (ms_entries g - entries))).

Definition discard_dump_buffer : St (ClientState * MemStats) unit :=
  fun '(c, g) =>
    let bytes := buffered_bytes c in
    let entries := zlen (dump_buffer c) in
    (tt,
     (set_buffer [] 0 c,
      mk_mem (ms_clients g) (ms_bytes g - bytes) (ms_entries g - entries))).

(** [impl Drop for ClientState]. *)
Definition client_drop (c : ClientState) (g : MemStats) : MemStats :=
  let g := if buffered_bytes c =? 0 then g
           else mk_mem (ms_clients g) (ms_bytes g - buffered_bytes c)
                  (ms_entries g) in
  let g := if zlen (dump_buffer c) =? 0 then g
           else mk_mem (ms_clients g) (ms_bytes g)
                  (ms_entries g - zlen (dump_buffer c)) in
  mk_mem (ms_clients g - 1) (ms_bytes g) (ms_entries g).

(** ** Disconnecting and sending *)
Definition request_disconnect : St ClientState bool :=
  fun c =>
    let won := negb (disconnect_pending c) in
    (won, set_disconnect true
            (if won then disconnect_notify c + 1 else disconnect_notify c) c).

Section Sending.
Context `{CH : Channel}.

(** [msg] is built before the call, when the clock was read. *)
Definition send_message_mode (tag : Tag) (msg : list Z) (blocking : bool)
  : St ClientState bool :=
  fun c =>
    let outcome := chan_outcome (tx c) blocking in
    let log := tx c ++ [mk_sent_msg tag msg outcome] in
    match outcome with
    | SOk =>
        (true, set_sent log (messages_sent c + 1) (bytes_sent c + zlen msg) c)
    | SFull =>
        let '(_, c') := request_disconnect c in
        (false, set_sent log (messages_sent c') (bytes_sent c') c')
    | SClosed => (false, set_sent log (messages_sent c) (bytes_sent c) c)
    end.

Definition send_message (tag : Tag) (msg : list Z) : St ClientState bool :=
  send_message_mode tag msg true.

End Sending.

(** ** Known peers and their cached headers *)
Definition add_known_peer (id : IngressId) : St ClientState unit :=
  fun c => (tt, set_peers ({[id]} ∪ known_peers c) (peer_info_cache c) c).

(** [HashSet::insert] answers whether the element is new. *)
Definition register_known_peer_if_absent (id : IngressId)
  : St ClientState bool :=
  fun c => (bool_decide (id ∉ known_peers c),
            set_peers ({[id]} ∪ known_peers c) (peer_info_cache c) c).

Definition remove_known_peer (id : IngressId) : St ClientState bool :=
  fun c => (bool_decide (id ∈ known_peers c),
            set_peers (known_peers c ∖ {[id]}) (delete id (peer_info_cache c)) c).

Definition has_known_peer (id : IngressId) (c : ClientState) : bool :=
  bool_decide (id ∈ known_peers c).

Definition cached_peer_info (id : IngressId) (c : ClientState)
  : option PeerInfo := peer_info_cache c !! id.

Definition cache_peer_info (id : IngressId) (pi : PeerInfo)
  : St ClientState unit :=
  fun c => (tt, set_peers (known_peers c) (<[id := pi]> (peer_info_cache c)) c).

(** ** Invariants *)
Definition buffer_size (buf : list Update) : Z := zsum (shallow_bytes <$> buf).

#[local] Arguments buffer_size : simpl never.

(** The byte counter is the size of the buffer, both caps hold, the writer was
    notified once exactly when a disconnect is pending, the sent counters match
    the accepted messages, and headers are cached for known peers only. *)
Record client_inv (c : ClientState) : Prop := {
  ci_bytes : buffered_bytes c = buffer_size (dump_buffer c);
  ci_entries : zlen (dump_buffer c) <= Z.max 0 (max_buffer_entries c);
  ci_cap : buffered_bytes c <= Z.max 0 (max_buffer_bytes c);
  ci_notify : disconnect_notify c = if disconnect_pending c then 1 else 0;
  ci_cache : dom (peer_info_cache c) ⊆ known_peers c;
  ci_limit : max_buffer_bytes c < usize_max
}.

Lemma shallow_bytes_pos u : 0 < shallow_bytes u.
Proof. pose proof size_of_update_pos. pose proof (shallow_bytes_ge u). lia. Qed.

Lemma buffer_size_nonneg buf : 0 <= buffer_size buf.
Proof.
  unfold buffer_size. induction buf as [|u buf IH]; [done|].
  rewrite fmap_cons, zsum_cons. pose proof (shallow_bytes_pos u). lia.
Qed.

Lemma buffer_size_app buf u : buffer_size (buf ++ [u]) = buffer_size buf + shallow_bytes u.
Proof.
  unfold buffer_size. rewrite fmap_app, zsum_app.
  change (zsum (shallow_bytes <$> [u])) with (shallow_bytes u + 0). lia.
Qed.

Lemma client_new_inv e b g : b < usize_max -> client_inv (fst (client_new e b g)).
Proof. intros Hb. split; unfold zlen; cbn -[Z.max]; try done; lia || set_solver. Qed.

(** ** Behaviour of the operations *)

(** Whatever the answer, the client stays in order, and an accepted update is at
    the end of the buffer. *)
Lemma buffer_update_inv u c g :
  client_inv c -> client_inv (fst (snd (buffer_update_if_dumping u (c, g)))).
Proof.
  intros Hi. unfold buffer_update_if_dumping, saturating_add.
  destruct (negb _); [done|]. destruct (_ >=? _) eqn:He; [done|].
  destruct (_ >? _) eqn:Hb; [done|]. rewrite Z.geb_leb in He. zify_bools.
  destruct Hi. split; cbn; [rewrite buffer_size_app; lia| | |done..].
  - rewrite zlen_app. change (zlen [u]) with 1. lia.
  - pose proof (shallow_bytes_pos u). unfold usize_max in *. lia.
Qed.

Lemma take_buffered_inv c g :
  client_inv c -> client_inv (fst (snd (take_buffered_updates (c, g)))).
Proof. intros []. split; cbn; try done; change (zlen (@nil Update)) with 0; lia. Qed.

Lemma request_disconnect_inv c :
  client_inv c -> client_inv (snd (request_disconnect c)).
Proof. intros [H1 H2 H3 H4 H5 H6]. split; cbn; try done. rewrite H4. by destruct (disconnect_pending c). Qed.

Lemma set_sent_inv log n b c : client_inv c -> client_inv (set_sent log n b c).
Proof. intros []. by split. Qed.

Lemma send_message_mode_inv `{CH : Channel} tag msg b c :
  client_inv c -> client_inv (snd (send_message_mode tag msg b c)).
Proof.
  intros Hi. unfold send_message_mode. destruct (chan_outcome (tx c) b); cbn [snd].
  - by apply set_sent_inv.
  - pose proof (request_disconnect_inv c Hi) as Hr.
    destruct (request_disconnect c) as [w c']. by apply set_sent_inv.
  - by apply set_sent_inv.
Qed.

Lemma set_phase_inv p c : client_inv c -> client_inv (set_phase p c).
Proof. intros []. by split. Qed.

Lemma known_peer_inv id c :
  client_inv c ->
  client_inv (snd (register_known_peer_if_absent id c))
  /\ client_inv (snd (add_known_peer id c))
  /\ client_inv (snd (remove_known_peer id c)).
Proof.
  intros [H1 H2 H3 H4 H5 H6].
  split; [|split]; split; cbn; try done; [set_solver..|].
  rewrite dom_delete_L. set_solver.
Qed.

Lemma cache_peer_info_inv id pi c :
  client_inv c -> id ∈ known_peers c -> client_inv (snd (cache_peer_info id pi c)).
Proof. intros [H1 H2 H3 H4 H5 H6] Hk. split; cbn; try done. rewrite dom_insert_L. set_solver. Qed.

(** ** The process-wide counters *)

(** The clients of the process and its counters. *)
Record Fleet : Type := mk_fleet { clients : gmap Z ClientState; mem : MemStats }.

(** What can happen to the counters: a client connects, an operation of one
    client runs, a client goes. *)
Inductive fleet_step : Fleet -> Fleet -> Prop :=
| fs_new id e b cs g :
    cs !! id = None ->
    fleet_step (mk_fleet cs g)
      (mk_fleet (<[id := fst (client_new e b g)]> cs) (snd (client_new e b g)))
| fs_buffer id c u cs g r c' g' :
    cs !! id = Some c -> buffer_update_if_dumping u (c, g) = (r, (c', g')) ->
    fleet_step (mk_fleet cs g) (mk_fleet (<[id := c']> cs) g')
| fs_take id c cs g r c' g' :
    cs !! id = Some c -> take_buffered_updates (c, g) = (r, (c', g')) ->
    fleet_step (mk_fleet cs g) (mk_fleet (<[id := c']> cs) g')
| fs_discard id c cs g r c' g' :
    cs !! id = Some c -> discard_dump_buffer (c, g) = (r, (c', g')) ->
    fleet_step (mk_fleet cs g) (mk_fleet (<[id := c']> cs) g')
| fs_disconnect id c cs g :
    cs !! id = Some c ->
    fleet_step (mk_fleet cs g) (mk_fleet (<[id := snd (request_disconnect c)]> cs) g)
| fs_send (CH : Channel) id c cs g tag msg b :
    cs !! id = Some c ->
    fleet_step (mk_fleet cs g)
      (mk_fleet (<[id := snd (send_message_mode tag msg b c)]> cs) g)
| fs_live id c cs g :
    cs !! id = Some c ->
    fleet_step (mk_fleet cs g) (mk_fleet (<[id := set_phase Live c]> cs) g)
| fs_drop id c cs g :
    cs !! id = Some c ->
    fleet_step (mk_fleet cs g) (mk_fleet (delete id cs) (client_drop c g)).

Inductive fleet_reachable : Fleet -> Prop :=
| fr_init : fleet_reachable (mk_fleet ∅ (mk_mem 0 0 0))
| fr_step f f' : fleet_reachable f -> fleet_step f f' -> fleet_reachable f'.

Definition total_bytes (cs : gmap Z ClientState) : Z :=
  zsum (buffered_bytes ∘ snd <$> map_to_list cs).

Definition total_entries (cs : gmap Z ClientState) : Z :=
  zsum ((fun kc => zlen (dump_buffer (snd kc))) <$> map_to_list cs).

(** The counters are the sums over the clients, and every client is in order. *)
Record fleet_inv (f : Fleet) : Prop := {
  fi_clients : ms_clients (mem f) = Z.of_nat (size (clients f));
  fi_bytes : ms_bytes (mem f) = total_bytes (clients f);
  fi_entries : ms_entries (mem f) = total_entries (clients f);
  fi_each : map_Forall (fun _ c => buffered_bytes c = buffer_size (dump_buffer c)) (clients f)
}.

Lemma total_split cs id c :
  cs !! id = Some c ->
  total_bytes cs = buffered_bytes c + total_bytes (delete id cs)
  /\ total_entries cs = zlen (dump_buffer c) + total_entries (delete id cs).
Proof.
  intros H. unfold total_bytes, total_entries.
  rewrite <- (map_to_list_delete cs id c) by done. by rewrite !fmap_cons, !zsum_cons.
Qed.

Lemma total_insert cs id c :
  total_bytes (<[id := c]> cs) = buffered_bytes c + total_bytes (delete id cs)
  /\ total_entries (<[id := c]> cs) = zlen (dump_buffer c) + total_entries (delete id cs).
Proof.
  rewrite <- insert_delete_eq. unfold total_bytes, total_entries.
  rewrite !map_to_list_insert by apply lookup_delete_eq.
  by rewrite !fmap_cons, !zsum_cons.
Qed.

(** An operation of one client that moves its counters by as much as the
    process-wide ones. *)
Lemma fleet_update cs g g' id c c' :
  fleet_inv (mk_fleet cs g) -> cs !! id = Some c ->
  ms_clients g' = ms_clients g ->
  ms_bytes g' - ms_bytes g = buffered_bytes c' - buffered_bytes c ->
  ms_entries g' - ms_entries g = zlen (dump_buffer c') - zlen (dump_buffer c) ->
  buffered_bytes c' = buffer_size (dump_buffer c') ->
  fleet_inv (mk_fleet (<[id := c']> cs) g').
Proof.
  intros [H1 H2 H3 H4] Hc Hn Hb He Hc'. cbn in *.
  destruct (total_split _ _ _ Hc) as [Tb Te]. destruct (total_insert cs id c') as [Tb' Te'].
  split; cbn; [|lia|lia|by apply map_Forall_insert_2].
  rewrite map_size_insert_Some by eauto. lia.
Qed.

Lemma fleet_step_inv f f' : fleet_inv f -> fleet_step f f' -> fleet_inv f'.
Proof.
  intros Hi Hs. destruct Hs.
  - destruct Hi as [H1 H2 H3 H4]. cbn in *. destruct (total_insert cs id (fst (client_new e b g))) as [Tb Te].
    rewrite delete_id in Tb, Te by done.
    cbn in *. change (zlen (@nil Update)) with 0 in *.
    split; cbn; [rewrite map_size_insert_None by done; lia|lia|lia|].
    by apply map_Forall_insert_2.
  - pose proof (fi_each _ Hi _ _ H) as Hb. cbn in Hb.
    revert H0. unfold buffer_update_if_dumping.
    destruct (negb _); [intros [= <- <- <-]; by eapply fleet_update; eauto; lia|].
    destruct (_ >=? _); [intros [= <- <- <-]; by eapply fleet_update; eauto; lia|].
    destruct (_ >? _); [intros [= <- <- <-]; by eapply fleet_update; eauto; lia|].
    intros [= <- <- <-]. eapply fleet_update; eauto; cbn;
      [lia|rewrite zlen_app; change (zlen [u]) with 1; lia|].
    rewrite buffer_size_app. lia.
  - injection H0 as <- <- <-. eapply fleet_update; eauto; cbn;
      change (zlen (@nil Update)) with 0; (lia || done).
  - injection H0 as <- <- <-. eapply fleet_update; eauto; cbn;
      change (zlen (@nil Update)) with 0; (lia || done).
  - pose proof (fi_each _ Hi _ _ H) as Hb. by eapply fleet_update; eauto; cbn; lia.
  - pose proof (fi_each _ Hi _ _ H) as Hb. unfold send_message_mode.
    destruct (chan_outcome _ _); by eapply fleet_update; eauto; cbn; lia.
  - pose proof (fi_each _ Hi _ _ H) as Hb. by eapply fleet_update; eauto; cbn; lia.
  - destruct Hi as [H1 H2 H3 H4]. cbn in *. destruct (total_split _ _ _ H) as [Tb Te].
    split; cbn; [|unfold client_drop..|by apply map_Forall_delete].
    + rewrite map_size_delete_Some by eauto.
      assert (size cs <> 0%nat) by (intros Hz%map_size_empty_iff; subst; by rewrite lookup_empty in H).
      unfold client_drop. repeat case_bool; cbn; lia.
    + repeat case_bool; zify_bools; cbn; lia.
    + repeat case_bool; zify_bools; cbn; lia.
Qed.

(** ** Properties *)

(** The dump buffer takes an update, at its end, exactly when the client is
    still dumping and both caps leave room for it; on overflow, or once the
    client is live, nothing changes. *)
Theorem buffer_update_exact u c g :
  client_inv c ->
  let fits := zlen (dump_buffer c) + 1 <= max_buffer_entries c
              /\ buffer_size (dump_buffer c ++ [u]) <= max_buffer_bytes c in
  match buffer_update_if_dumping u (c, g) with
  | (NotDumping, w) => phase c = Live /\ w = (c, g)
  | (Overflow, w) => phase c = Dumping /\ ~ fits /\ w = (c, g)
  | (Buffered, (c', _)) =>
      phase c = Dumping /\ fits /\ dump_buffer c' = dump_buffer c ++ [u]
      /\ client_inv c' /\ phase c' = Dumping
  end.
Proof.
  intros Hi. pose proof (ci_bytes _ Hi) as Hb. pose proof (ci_limit _ Hi). rewrite buffer_size_app.
  pose proof (shallow_bytes_pos u) as Hu. pose proof (buffer_size_nonneg (dump_buffer c)).
  unfold buffer_update_if_dumping, saturating_add.
  destruct (phase c) eqn:Ep; [|by rewrite bool_decide_false].
  rewrite bool_decide_true by done. cbn [negb].
  rewrite Z.geb_leb. destruct (Z.leb_spec (max_buffer_entries c) (zlen (dump_buffer c)));
    [split; [done|split; [lia|done]]|].
  rewrite Z.gtb_ltb.
  destruct (Z.ltb_spec (max_buffer_bytes c)
              (Z.min usize_max (buffered_bytes c + shallow_bytes u)));
    [split; [done|split; [lia|done]]|].
  split; [done|]. split; [lia|]. split; [done|]. split; [|done].
  destruct Hi. split; cbn; [rewrite buffer_size_app; lia| |lia|done..].
  rewrite zlen_app. change (zlen [u]) with 1. lia.
Qed.

(** In every reachable state of the process the three global counters are
    the number of clients and the sums of what the clients buffer, so no
    decrement ever underflows, whatever the order of connects, buffering,
    drains, discards, sends and drops; they are zero when all clients are gone. *)
Theorem counters_never_drift f :
  fleet_reachable f ->
  fleet_inv f /\ 0 <= ms_bytes (mem f) /\ 0 <= ms_entries (mem f)
  /\ (clients f = ∅ -> mem f = mk_mem 0 0 0).
Proof.
  intros Hr.
  assert (fleet_inv f) as Hi.
  { induction Hr as [|f f' _ IH Hs]; [|by eapply fleet_step_inv].
    split; cbn; [done..|apply map_Forall_empty]. }
  destruct f as [cs [n b e]]. pose proof Hi as [H1 H2 H3 H4]. cbn in *.
  split; [done|]. split; [|split].
  - subst b. unfold total_bytes. apply zsum_nonneg, Forall_fmap, Forall_forall.
    intros [k c] Hc%elem_of_map_to_list. cbn. rewrite (H4 _ _ Hc). apply buffer_size_nonneg.
  - subst e. unfold total_entries. apply zsum_nonneg, Forall_fmap, Forall_forall.
    intros kc _. apply zlen_nonneg.
  - intros ->. rewrite map_size_empty in H1. subst.
    unfold total_bytes, total_entries. by rewrite map_to_list_empty.
Qed.

End Client.

(** ** Witnesses *)
#[local] Existing Instance Demo.extern.
#[local] Existing Instance demo_layout.

Lemma buffer_update_exact_witness :
  let c := fst (client_new 2 1000 (mk_mem 0 0 0)) in
  fst (buffer_update_if_dumping (EndOfStream 1) (c, mk_mem 1 0 0)) = Buffered
  /\ dump_buffer (fst (snd (buffer_update_if_dumping (EndOfStream 1) (c, mk_mem 1 0 0))))
     = [EndOfStream 1].
Proof.
  pose proof (buffer_update_exact (EndOfStream 1)
                (fst (client_new 2 1000 (mk_mem 0 0 0))) (mk_mem 1 0 0)
                (client_new_inv 2 1000 (mk_mem 0 0 0) eq_refl)) as H.
  split; [reflexivity|]. apply H.
Defined.

Lemma counters_never_drift_witness :
  fleet_inv (mk_fleet {[ 1 := fst (client_new 2 1000 (mk_mem 0 0 0)) ]} (mk_mem 1 0 0)).
Proof.
  apply counters_never_drift. eapply fr_step; [apply fr_init|].
  apply (fs_new 1 2 1000 ∅ (mk_mem 0 0 0)). apply lookup_empty.
Defined.
