(* ===== verification/ClientHandler.v ===== *)
(** * Forwarding updates to one client
    ([src/units/bmp_tcp_out/client_handler.rs], [direct_update] and the access
    list of [src/units/bmp_tcp_out/unit.rs])

    What the per-client handler sends for an update: the lazy Peer Up, Route
    Monitoring with the cached header, Peer Down, the reappearance of a peer and
    forwarded statistics.  A function that answers [false] leaves the [Run]
    monad; the register is the one the handler finds while it runs. *)

From S2P Require Import Prelude Net Register Payload BmpDecode BmpBuilder BmpWire ClientState.
From Stdlib Require Import ZArith Lia.
From stdpp Require Import base numbers list gmap fin_maps strings.

Local Open Scope Z_scope.

Create HintDb silent.

(** ** Configuration *)
Inductive FanInPeerDistinguisher : Type := IngressHash | Off.

Definition is_enabled (f : FanInPeerDistinguisher) : bool :=
  match f with IngressHash => true | Off => false end.

Record OutConfig : Type := mk_config {
  forward_router_info : bool;
  fan_in_peer_distinguisher : FanInPeerDistinguisher
}.

(** [PrefixOrExact] of [units/bgp_tcp_in/peer_config.rs] and the check of the
    accept loop. *)
Section Acl.
Context `{E : Extern}.

Inductive PrefixOrExact : Type :=
| Exact (a : IpAddr)
| PrefixOf (p : Prefix).

Definition acl_contains (e : PrefixOrExact) (addr : IpAddr) : bool :=
  match e with
  | Exact a => bool_decide (a = addr)
  | PrefixOf p => prefix_contains p addr
  end.

Definition acl_allows (acl : list PrefixOrExact) (addr : IpAddr) : bool :=
  existsb (fun e => acl_contains e addr) acl.

(** [BTreeMap::iter().find] over the peer configurations, in the map's order. *)
Fixpoint peer_configs_get {C} (cfgs : list (PrefixOrExact * C)) (key : IpAddr)
  : option (PrefixOrExact * C) :=
  match cfgs with
  | [] => None
  | (k, cfg) :: cfgs =>
      if acl_contains k key then Some (k, cfg) else peer_configs_get cfgs key
  end.

End Acl.

Section Handler.
Context `{E : Extern} `{L : Layout} `{CH : Channel}.

(** ** Peer information *)
Definition resolve_admin_label (i : IngressInfo) (reg : Register) (fwd : bool)
  : option rstring :=
  if negb fwd then None
  else
    match parent_ingress i with
    | None => None
    | Some parent_id =>
        match get parent_id reg with
        | None => None
        | Some parent => build_admin_label_json (name parent) (desc parent)
        end
    end.

Definition build_peer_info_for_emit (cfg : OutConfig) (reg : Register)
    (i : IngressInfo) : PeerInfo :=
  let peer_info := from_ingress_info i in
  let peer_info :=
    set_admin_label (resolve_admin_label i reg (forward_router_info cfg))
      peer_info in
  if is_enabled (fan_in_peer_distinguisher cfg) then
    match parent_ingress i with
    | Some parent_id =>
        apply_fan_in_distinguisher (fan_in_distinguisher_tag parent_id) peer_info
    | None => peer_info
    end
  else peer_info.

(** ** Sending *)
Definition lift {A} (m : St ClientState A) : Run ClientState A :=
  fun c => let '(a, c') := m c in (Some a, c').

Definition now : Run ClientState Clock := c ← run_get; mret (chan_clock (tx c)).

(** A send as the last call of a function that answers its result. *)
Definition send (tag : Tag) (msg : list Z) (blocking : bool)
  : Run ClientState unit :=
  ok ← lift (send_message_mode tag msg blocking);
  if ok : bool then mret tt else run_fail.

(** [if !client.send_message_mode(peer_up, ..) { remove_known_peer; return false }]. *)
Definition send_peer_up (id : IngressId) (pi : PeerInfo) (blocking : bool)
  : Run ClientState unit :=
  t ← now;
  ok ← lift (send_message_mode (T_PeerUp id) (build_peer_up t pi false) blocking);
  if ok : bool then mret tt
  else _ ← lift (remove_known_peer id); run_fail.

(** The first sight of a peer: mark it as known and, when it is registered,
    send its Peer Up. *)
Definition first_sight (cfg : OutConfig) (reg : Register) (id : IngressId)
    (blocking : bool) : Run ClientState unit :=
  fresh ← lift (register_known_peer_if_absent id);
  if fresh : bool then
    match get id reg with
    | Some i => send_peer_up id (build_peer_info_for_emit cfg reg i) blocking
    | None => mret tt
    end
  else mret tt.

Definition send_route (id : IngressId) (pi : PeerInfo) (p : Payload)
    (blocking : bool) : Run ClientState unit :=
  let is_withdrawal := bool_decide (route_status p = Withdrawn) in
  t ← now;
  match build_route_monitoring_from_route t pi (rx_value p) is_withdrawal with
  | Some msg => send (T_Route id) msg blocking
  | None => mret tt
  end.

Definition send_payload_to_client (cfg : OutConfig) (reg : Register)
    (p : Payload) (blocking : bool) : Run ClientState unit :=
  let id := ingress_id p in
  c ← run_get;
  match cached_peer_info id c with
  | Some pi => send_route id pi p blocking
  | None =>
      _ ← first_sight cfg reg id blocking;
      let pi := match get id reg with
                | Some i => build_peer_info_for_emit cfg reg i
                | None => build_peer_info_for_emit cfg reg info_default
                end in
      _ ← match get id reg with
          | Some _ => lift (cache_peer_info id pi)
          | None => mret tt
          end;
      send_route id pi p blocking
  end.

Definition send_peer_stats (cfg : OutConfig) (reg : Register) (id : IngressId)
    (body : list Z) (blocking : bool) : Run ClientState unit :=
  _ ← first_sight cfg reg id blocking;
  match get id reg with
  | None => mret tt
  | Some i =>
      t ← now;
      send (T_Stats id)
        (build_statistics_report t (build_peer_info_for_emit cfg reg i) body)
        blocking
  end.

Definition send_peer_down (cfg : OutConfig) (reg : Register) (id : IngressId)
    (snapshot_info : option IngressInfo) (blocking : bool)
  : Run ClientState unit :=
  c ← run_get;
  if negb (has_known_peer id c) then mret tt
  else
    let fetched := match snapshot_info with
                   | None => get id reg
                   | Some _ => None
                   end in
    let pi := match snapshot_info, fetched with
              | Some i, _ => build_peer_info_for_emit cfg reg i
              | None, Some i => build_peer_info_for_emit cfg reg i
              | None, None => build_peer_info_for_emit cfg reg info_default
              end in
    t ← now;
    sent ← lift (send_message_mode (T_PeerDown id) (build_peer_down t pi) blocking);
    _ ← lift (remove_known_peer id);
    if sent : bool then mret tt else run_fail.

Definition send_peer_reappeared (cfg : OutConfig) (reg : Register)
    (id : IngressId) (blocking : bool) : Run ClientState unit :=
  match get id reg with
  | Some i =>
      let pi := build_peer_info_for_emit cfg reg i in
      fresh ← lift (register_known_peer_if_absent id);
      if fresh : bool then send_peer_up id pi blocking else mret tt
  | None => mret tt
  end.

Definition send_update_to_client (cfg : OutConfig) (reg : Register)
    (u : Update) (blocking : bool) : Run ClientState unit :=
  match u with
  | Single p => send_payload_to_client cfg reg p blocking
  | Bulk ps => run_for ps (fun p => send_payload_to_client cfg reg p blocking)
  | Withdraw id _ => send_peer_down cfg reg id None blocking
  | WithdrawBulk entries =>
      run_for entries (fun '(id, i) => send_peer_down cfg reg id i blocking)
  | IngressReappeared id => send_peer_reappeared cfg reg id blocking
  | PeerStats id body => send_peer_stats cfg reg id body blocking
  | _ => mret tt
  end.

(** ** [direct_update], for one client *)
Definition direct_update_client (cfg : OutConfig) (reg : Register) (u : Update)
  : St (ClientState * MemStats) unit :=
  fun '(c, g) =>
    if disconnect_pending c then (tt, (c, g))
    else
      match buffer_update_if_dumping u (c, g) with
      | (Buffered, w) => (tt, w)
      | (Overflow, (c', g')) => (tt, (snd (request_disconnect c'), g'))
      | (NotDumping, (c', g')) =>
          (tt, (snd (send_update_to_client cfg reg u false c'), g'))
      end.

End Handler.

(** ** [direct_update] for all clients

    Each client has its own channel; the snapshot of the client table comes in
    the hash table's order. *)
Section Fleet.
Context `{E : Extern} `{L : Layout} (chans : Z -> Channel)
  `{HI : !HashIter Z ClientState}.

Definition update_one (cfg : OutConfig) (reg : Register) (u : Update)
    (f : Fleet) (kc : Z * ClientState) : Fleet :=
  let '(_, (c', g')) :=
    direct_update_client (CH := chans (fst kc)) cfg reg u (snd kc, mem f) in
  mk_fleet (<[fst kc := c']> (clients f)) g'.

Definition direct_update (cfg : OutConfig) (reg : Register) (u : Update)
    (f : Fleet) : Fleet :=
  foldl (update_one cfg reg u) f (hm_iter (clients f)).

End Fleet.

(** ** What a client has been told *)
Section Session.
Context `{E : Extern} `{L : Layout} `{CH : Channel}.

Definition accepted (log : list Sent) : list Tag :=
  s_tag <$> filter (fun s => s_outcome s = SOk) log.

#[local] Arguments accepted : simpl never.

(** The peers that are up for the client after a message; [None] when the
    message is out of order: a second Peer Up, or a route, statistics, an
    End-of-RIB or a Peer Down for a peer that is not up. *)
Definition session_step (up : gset IngressId) (t : Tag)
  : option (gset IngressId) :=
  match t with
  | T_Initiation | T_Dump => Some up
  | T_PeerUp id => if bool_decide (id ∈ up) then None else Some ({[id]} ∪ up)
  | T_Route id | T_Stats id | T_Eor id =>
      if bool_decide (id ∈ up) then Some up else None
  | T_PeerDown id => if bool_decide (id ∈ up) then Some (up ∖ {[id]}) else None
  end.

Fixpoint session_run (up : gset IngressId) (ts : list Tag)
  : option (gset IngressId) :=
  match ts with
  | [] => Some up
  | t :: ts => up' ← session_step up t; session_run up' ts
  end.

Lemma session_run_app up ts ts' :
  session_run up (ts ++ ts') = up' ← session_run up ts; session_run up' ts'.
Proof.
  revert up. induction ts as [|t ts IH]; intros up; [done|]. cbn.
  destruct (session_step up t); [|done]. cbn. apply IH.
Qed.

Lemma accepted_app log log' : accepted (log ++ log') = accepted log ++ accepted log'.
Proof. unfold accepted. by rewrite filter_app, fmap_app. Qed.

(** What the client believes after the messages it was sent. *)
Definition believes (c : ClientState) : option (gset IngressId) :=
  session_run ∅ (accepted (tx c)).

(** A failed send: the client is on its way out. *)
Definition gone (c : ClientState) : Prop :=
  disconnect_pending c = true \/ Exists (fun s => s_outcome s = SClosed) (tx c).

(** The set of known peers is what the client was told, and headers are cached
    for known peers only. *)
Definition in_sync (c : ClientState) : Prop :=
  believes c = Some (known_peers c) /\ dom (peer_info_cache c) ⊆ known_peers c.

(** After a failure, what was told is still in order. *)
Definition lost (c : ClientState) : Prop := gone c /\ is_Some (believes c).

Definition outcome_ok {A} (r : option A) (c : ClientState) : Prop :=
  match r with Some _ => in_sync c | None => lost c end.

(** A send of a message that is in order. *)
Lemma send_mode_spec tag msg b c up up' ok c' :
  believes c = Some up -> session_step up tag = Some up' ->
  send_message_mode tag msg b c = (ok, c') ->
  known_peers c' = known_peers c /\ peer_info_cache c' = peer_info_cache c
  /\ (if ok : bool then believes c' = Some up' else lost c' /\ believes c' = Some up).
Proof.
  unfold believes. intros Hu Hs. unfold send_message_mode.
  destruct (chan_outcome (tx c) b) eqn:Eo; intros [= <- <-]; cbn.
  - split; [done|]. split; [done|]. rewrite accepted_app, session_run_app, Hu.
    change (accepted [mk_sent_msg tag msg SOk]) with [tag]. cbn. by rewrite Hs.
  - split; [done|]. split; [done|].
    assert (session_run ∅ (accepted (tx c ++ [mk_sent_msg tag msg SFull])) = Some up) as Hb.
    { rewrite accepted_app, session_run_app, Hu. done. }
    split; [|done]. split; [by left|]. unfold believes. cbn. by rewrite Hb.
  - split; [done|]. split; [done|].
    assert (session_run ∅ (accepted (tx c ++ [mk_sent_msg tag msg SClosed])) = Some up) as Hb.
    { rewrite accepted_app, session_run_app, Hu. done. }
    split; [|done]. split; [|unfold believes; cbn; by rewrite Hb]. right. cbn.
    apply Exists_app. right. by constructor.
Qed.

Lemma lost_set_peers k m c : lost c -> lost (set_peers k m c).
Proof. done. Qed.

Lemma send_spec tag msg b c r c' :
  in_sync c -> session_step (known_peers c) tag = Some (known_peers c) ->
  send tag msg b c = (r, c') -> outcome_ok r c'.
Proof.
  intros [Hi Hd] Hs. unfold send, lift; run_unfold.
  destruct (send_message_mode tag msg b c) as [ok c1] eqn:Es.
  destruct (send_mode_spec _ _ _ _ _ _ _ _ Hi Hs Es) as (Hk & Hc & Hb).
  cbn. destruct ok; intros [= <- <-]; cbn.
  - unfold in_sync. by rewrite Hk, Hc.
  - apply Hb.
Qed.

(** A Peer Up right after the peer was marked as known. *)
Lemma send_peer_up_spec id pi b c r c' :
  believes c = Some (known_peers c ∖ {[id]}) -> id ∈ known_peers c ->
  dom (peer_info_cache c) ⊆ known_peers c ->
  send_peer_up id pi b c = (r, c') ->
  outcome_ok r c' /\ (r <> None -> known_peers c' = known_peers c).
Proof.
  intros Hb Hk Hd. unfold send_peer_up, now, lift; run_unfold.
  destruct (send_message_mode _ _ _ c) as [ok c1] eqn:Es.
  eapply send_mode_spec in Es as (Hk1 & Hc1 & Hb1); [|exact Hb|].
  2: { cbn. rewrite bool_decide_false by set_solver. reflexivity. }
  cbn. destruct ok; intros [= <- <-]; cbn.
  - split; [|done]. unfold in_sync. rewrite Hb1, Hk1, Hc1. split; [|done]. f_equal.
    apply set_eq. intros x. destruct (decide (x = id)); set_solver.
  - split; [|done]. apply lost_set_peers, Hb1.
Qed.

Lemma register_known_spec id c ok c' :
  in_sync c -> register_known_peer_if_absent id c = (ok, c') ->
  id ∈ known_peers c' /\ dom (peer_info_cache c') ⊆ known_peers c'
  /\ (if ok : bool then believes c' = Some (known_peers c' ∖ {[id]}) else in_sync c').
Proof.
  intros [Hi Hd] [= <- <-]. split; [cbn; set_solver|]. split; [cbn; set_solver|].
  unfold in_sync, believes in *. cbn. case_bool_decide as Hk; rewrite Hi.
  - f_equal. set_solver.
  - split; [f_equal|]; set_solver.
Qed.

(** Mark as known, then announce if new. *)
Lemma announce_spec id pi b c r c' :
  in_sync c ->
  (fresh ← lift (register_known_peer_if_absent id);
   if fresh : bool then send_peer_up id pi b else mret tt) c = (r, c') ->
  outcome_ok r c' /\ (r <> None -> id ∈ known_peers c').
Proof.
  intros Hi. unfold lift at 1, mbind, run_bind.
  destruct (register_known_peer_if_absent id c) as [ok c1] eqn:Ek.
  apply register_known_spec in Ek as (Hk & Hd & Hb); [|done]. destruct ok.
  - intros Hs. apply send_peer_up_spec in Hs as [Ho Hk']; [|done..].
    split; [done|]. intros Hr'. by rewrite (Hk' Hr').
  - by intros [= <- <-].
Qed.

Lemma first_sight_spec cfg reg id b c r c' :
  in_sync c -> is_Some (get id reg) -> first_sight cfg reg id b c = (r, c') ->
  outcome_ok r c' /\ (r <> None -> id ∈ known_peers c').
Proof. intros Hi [i Hr]. unfold first_sight. rewrite Hr. by apply announce_spec. Qed.

Lemma send_route_spec id pi p b c r c' :
  in_sync c -> id ∈ known_peers c -> send_route id pi p b c = (r, c') -> outcome_ok r c'.
Proof.
  intros Hi Hk. unfold send_route, now; run_unfold.
  destruct (build_route_monitoring_from_route _ _ _ _).
  - apply send_spec; [done|]. cbn. by rewrite bool_decide_true.
  - by intros [= <- <-].
Qed.

Lemma payload_in_sync cfg reg p b c r c' :
  in_sync c -> is_Some (get (ingress_id p) reg) ->
  send_payload_to_client cfg reg p b c = (r, c') -> outcome_ok r c'.
Proof.
  intros Hi Hreg. unfold send_payload_to_client.
  erewrite run_bind_Some by done.
  unfold cached_peer_info. destruct (peer_info_cache c !! ingress_id p) as [pi|] eqn:Ec.
  - apply send_route_spec; [done|]. apply Hi. by apply elem_of_dom_2 in Ec.
  - intros Hr. apply run_bind_inv in Hr as [(u & c1 & Hf & Hr)|[Hf ->]];
      apply first_sight_spec in Hf as [Ho Hk]; try done.
    destruct Hreg as [i Hi']. rewrite Hi' in Hr.
    erewrite run_bind_Some in Hr by done.
    specialize (Hk ltac:(done)). destruct Ho as [Hb Hd].
    apply send_route_spec in Hr; [done| |done]. split; [done|]. cbn.
    rewrite dom_insert_L. set_solver.
Qed.

Lemma stats_in_sync cfg reg id body b c r c' :
  in_sync c -> is_Some (get id reg) ->
  send_peer_stats cfg reg id body b c = (r, c') -> outcome_ok r c'.
Proof.
  intros Hi Hreg. unfold send_peer_stats. intros Hr.
  apply run_bind_inv in Hr as [(u & c1 & Hf & Hr)|[Hf ->]];
    apply first_sight_spec in Hf as [Ho Hk]; try done.
  destruct Hreg as [i Hi']. rewrite Hi' in Hr. unfold now in Hr.
  erewrite run_bind_Some in Hr by done.
  apply send_spec in Hr; [done|done|]. cbn. rewrite bool_decide_true; [done|]. by apply Hk.
Qed.

Lemma down_in_sync cfg reg id i b c r c' :
  in_sync c -> send_peer_down cfg reg id i b c = (r, c') -> outcome_ok r c'.
Proof.
  intros Hi. unfold send_peer_down. erewrite run_bind_Some by done.
  unfold has_known_peer. case_bool_decide as Hk; cbn [negb]; [|by intros [= <- <-]].
  set (pi := match i with Some _ => _ | None => _ end). unfold now, lift; run_unfold.
  destruct (send_message_mode _ _ _ c) as [ok c1] eqn:Es. destruct Hi as [Hi Hd].
  eapply send_mode_spec in Es as (Hk1 & Hc1 & Hb1); [|exact Hi|].
  2: { cbn. rewrite bool_decide_true by done. reflexivity. }
  cbn. destruct ok; intros [= <- <-]; cbn.
  - unfold in_sync. cbn. rewrite Hk1, Hc1, dom_delete_L. split; [exact Hb1|]. set_solver.
  - apply lost_set_peers, Hb1.
Qed.

Lemma reappeared_in_sync cfg reg id b c r c' :
  in_sync c -> send_peer_reappeared cfg reg id b c = (r, c') -> outcome_ok r c'.
Proof.
  intros Hi. unfold send_peer_reappeared. destruct (get id reg); [|by intros [= <- <-]].
  intros Hr. by apply announce_spec in Hr as [? _].
Qed.

(** A loop whose body keeps the session in order does so. *)
Lemma run_for_in_sync {A} (xs : list A) body c r c' :
  (forall x c r c', x ∈ xs -> in_sync c -> body x c = (r, c') -> outcome_ok r c') ->
  in_sync c -> run_for xs body c = (r, c') -> outcome_ok r c'.
Proof.
  revert c. induction xs as [|x xs IH]; intros c Hb Hi.
  - by intros [= <- <-].
  - intros Hr. apply run_bind_inv in Hr as [([] & c1 & Hx & Hr)|[Hx ->]].
    + apply Hb in Hx; [|set_solver|done]. eapply IH; [|done|done].
      intros ????? . apply Hb. set_solver.
    + apply Hb in Hx; [done|set_solver|done].
Qed.

(** The peers whose messages an update carries. *)
Definition carried (u : Update) : list IngressId :=
  match u with
  | Single p => [ingress_id p]
  | Bulk ps => ingress_id <$> ps
  | PeerStats id _ => [id]
  | _ => []
  end.

Definition registered (reg : Register) (u : Update) : Prop :=
  Forall (fun id => is_Some (get id reg)) (carried u).

Lemma update_in_sync cfg reg u b c r c' :
  in_sync c -> registered reg u ->
  send_update_to_client cfg reg u b c = (r, c') -> outcome_ok r c'.
Proof.
  intros Hi Hreg. unfold registered in Hreg.
  destruct u; cbn [send_update_to_client carried] in *; try (by intros [= <- <-]).
  - apply Forall_cons in Hreg as [Hreg _]. by apply payload_in_sync.
  - rewrite Forall_fmap, Forall_forall in Hreg. apply run_for_in_sync; [|done].
    intros p c0 r0 c0' Hp Hc. apply payload_in_sync; [done|]. by apply Hreg.
  - by apply down_in_sync.
  - apply run_for_in_sync; [|done]. intros [id i] c0 r0 c0' _ Hc. by apply down_in_sync.
  - by apply reappeared_in_sync.
  - apply Forall_cons in Hreg as [Hreg _]. by apply stats_in_sync.
Qed.

(** ** Once the receiver is gone nothing more is delivered *)
Definition closed (c : ClientState) : Prop :=
  Exists (fun s => s_outcome s = SClosed) (tx c).

Definition silent {A} (m : Run ClientState A) : Prop :=
  forall c, closed c ->
    closed (snd (m c)) /\ accepted (tx (snd (m c))) = accepted (tx c).

Lemma silent_ret {A} (a : A) : silent (mret a).
Proof. by intros c. Qed.

Lemma silent_fail {A} : silent (@run_fail ClientState A).
Proof. by intros c. Qed.

Lemma silent_bind {A B} (m : Run ClientState A) (k : A -> Run ClientState B) :
  silent m -> (forall a, silent (k a)) -> silent (m ≫= k).
Proof.
  intros Hm Hk c Hc. unfold mbind, run_bind. specialize (Hm c Hc).
  destruct (m c) as [[a|] c1]; cbn in *; [|done].
  destruct Hm as [Hc1 Ha]. destruct (Hk a c1 Hc1) as [Hc2 Ha2]. split; [done|congruence].
Qed.

Lemma silent_lift {A} (m : St ClientState A) :
  (forall c, tx (snd (m c)) = tx c) -> silent (lift m).
Proof.
  intros Hm c Hc. unfold lift. specialize (Hm c). destruct (m c) as [a c']. cbn in *.
  unfold closed. by rewrite Hm.
Qed.

Lemma silent_send_mode tag msg b : silent (lift (send_message_mode tag msg b)).
Proof.
  intros c Hc. unfold lift, send_message_mode. rewrite (chan_closed _ b Hc). cbn.
  unfold closed. cbn. split; [apply Exists_app; by left|].
  rewrite accepted_app. by rewrite app_nil_r.
Qed.

Lemma silent_get {B} (k : ClientState -> Run ClientState B) :
  (forall a, silent (k a)) -> silent (c ← run_get; k c).
Proof. intros Hk. apply silent_bind; [by intros c|done]. Qed.

Lemma silent_for {A} (xs : list A) body :
  (forall x, silent (body x)) -> silent (run_for xs body).
Proof.
  intros Hb. induction xs as [|x xs IH]; [apply silent_ret|]. by apply silent_bind.
Qed.

Lemma silent_now {B} (k : Clock -> Run ClientState B) :
  (forall t, silent (k t)) -> silent (t ← now; k t).
Proof. intros Hk. apply silent_bind; [by intros c|done]. Qed.

#[local] Hint Resolve silent_ret silent_fail silent_bind silent_send_mode silent_get
  silent_for silent_now : silent.
#[local] Hint Extern 1 (silent (lift _)) => apply silent_lift; intros; reflexivity : silent.

Lemma silent_send tag msg b : silent (send tag msg b).
Proof. apply silent_bind; [auto with silent|]. intros []; auto with silent. Qed.

Lemma silent_peer_up id pi b : silent (send_peer_up id pi b).
Proof.
  apply silent_now. intros t. apply silent_bind; [auto with silent|].
  intros []; auto 6 with silent.
Qed.

#[local] Hint Resolve silent_send silent_peer_up : silent.

Lemma silent_first_sight cfg reg id b : silent (first_sight cfg reg id b).
Proof.
  apply silent_bind; [auto with silent|]. intros []; [|auto with silent].
  destruct (get id reg); auto with silent.
Qed.

Lemma silent_route id pi p b : silent (send_route id pi p b).
Proof. apply silent_now. intros t. destruct (build_route_monitoring_from_route _ _ _ _); auto with silent. Qed.

#[local] Hint Resolve silent_first_sight silent_route : silent.

Lemma silent_payload cfg reg p b : silent (send_payload_to_client cfg reg p b).
Proof.
  apply silent_get. intros c. destruct (cached_peer_info _ c); [auto with silent|].
  apply silent_bind; [auto with silent|]. intros _.
  apply silent_bind; [|auto with silent]. destruct (get _ reg); auto with silent.
Qed.

Lemma silent_stats cfg reg id body b : silent (send_peer_stats cfg reg id body b).
Proof.
  apply silent_bind; [auto with silent|]. intros _.
  destruct (get id reg); auto with silent.
Qed.

Lemma silent_down cfg reg id i b : silent (send_peer_down cfg reg id i b).
Proof.
  apply silent_get. intros c. destruct (negb _); [auto with silent|].
  apply silent_now. intros t. apply silent_bind; [auto with silent|]. intros ok.
  apply silent_bind; [auto with silent|]. intros _. destruct ok; auto with silent.
Qed.

Lemma silent_reappeared cfg reg id b : silent (send_peer_reappeared cfg reg id b).
Proof.
  unfold send_peer_reappeared. destruct (get id reg); [|auto with silent].
  apply silent_bind; [auto with silent|]. intros []; auto with silent.
Qed.

#[local] Hint Resolve silent_payload silent_stats silent_down silent_reappeared : silent.

Lemma silent_update cfg reg u b : silent (send_update_to_client cfg reg u b).
Proof.
  destruct u; cbn [send_update_to_client]; auto with silent.
  apply silent_for. intros [id i]. auto with silent.
Qed.

(** ** Sequences of updates *)

(** The calls of [direct_update] for this client, each with the register at the
    time. *)
Definition direct_updates (cfg : OutConfig) (calls : list (Register * Update))
    (w : ClientState * MemStats) : ClientState * MemStats :=
  foldl (fun w '(reg, u) => snd (direct_update_client cfg reg u w)) w calls.

(** The session is in order, or the client is on its way out and what it was
    told is in order. *)
Definition session_inv (c : ClientState) : Prop := in_sync c \/ lost c.

Lemma buffer_update_tx u c g r c' g' :
  buffer_update_if_dumping u (c, g) = (r, (c', g')) ->
  tx c' = tx c /\ known_peers c' = known_peers c
  /\ peer_info_cache c' = peer_info_cache c /\ disconnect_pending c' = disconnect_pending c.
Proof. unfold buffer_update_if_dumping. repeat case_bool; intros [= <- <- <-]; done. Qed.

Lemma session_inv_ext c c' :
  tx c' = tx c -> known_peers c' = known_peers c ->
  peer_info_cache c' = peer_info_cache c ->
  (disconnect_pending c = true -> disconnect_pending c' = true) ->
  session_inv c -> session_inv c'.
Proof.
  intros H1 H2 H3 H4. unfold session_inv, lost, in_sync, gone, believes.
  rewrite H1, H2, H3. naive_solver.
Qed.

Lemma direct_update_inv cfg reg u w :
  session_inv (fst w) -> registered reg u ->
  session_inv (fst (snd (direct_update_client cfg reg u w))).
Proof.
  destruct w as [c g]. intros Hi Hreg. unfold direct_update_client. cbn [fst] in Hi.
  destruct (disconnect_pending c) eqn:Ed; [done|].
  destruct (buffer_update_if_dumping u (c, g)) as [r [c1 g1]] eqn:Eb.
  apply buffer_update_tx in Eb as (H1 & H2 & H3 & H4).
  assert (session_inv c1) as Hi1 by (eapply session_inv_ext; eauto; congruence).
  destruct r; cbn.
  - done.
  - destruct (send_update_to_client cfg reg u false c1) as [r c2] eqn:Es. cbn.
    destruct Hi1 as [Hi1|[[Hp|Hc] Hb]].
    + apply update_in_sync in Es; [|done..]. destruct r; [by left|by right].
    + congruence.
    + destruct (silent_update cfg reg u false c1 Hc) as [Hc2 Ha]. rewrite Es in Hc2, Ha.
      right. split; [by right|]. unfold believes. cbn in Ha. by rewrite Ha.
  - by eapply session_inv_ext; [..|exact Hi1].
Qed.

(** ** The messages themselves *)
Lemma send_mode_ok tag msg b c c' :
  send_message_mode tag msg b c = (true, c') ->
  tx c' = tx c ++ [mk_sent_msg tag msg SOk] /\ known_peers c' = known_peers c
  /\ peer_info_cache c' = peer_info_cache c.
Proof. unfold send_message_mode. by destruct (chan_outcome (tx c) b); intros [= <-]. Qed.

Lemma send_ok tag msg b c u c' :
  send tag msg b c = (Some u, c') -> tx c' = tx c ++ [mk_sent_msg tag msg SOk].
Proof.
  unfold send, lift; run_unfold. destruct (send_message_mode _ _ _ c) as [[] c1] eqn:Es;
    [|done]. intros [= _ <-]. by apply send_mode_ok in Es as [-> _].
Qed.

Lemma first_sight_ok cfg reg id b c i u c' :
  get id reg = Some i -> first_sight cfg reg id b c = (Some u, c') ->
  peer_info_cache c' = peer_info_cache c
  /\ tx c' = tx c ++
       (if bool_decide (id ∈ known_peers c) then []
        else [mk_sent_msg (T_PeerUp id)
                (build_peer_up (chan_clock (tx c)) (build_peer_info_for_emit cfg reg i) false)
                SOk]).
Proof.
  intros Hi. unfold first_sight, lift, register_known_peer_if_absent; run_unfold.
  destruct (bool_decide (id ∈ known_peers c)) eqn:Hk.
  - apply bool_decide_eq_true in Hk. rewrite bool_decide_false by set_solver.
    intros [= _ <-]. cbn. by rewrite app_nil_r.
  - apply bool_decide_eq_false in Hk. rewrite bool_decide_true by done. rewrite Hi.
    unfold send_peer_up, now, lift; run_unfold. cbn [tx set_peers].
    destruct (send_message_mode _ _ _ _) as [[] c1] eqn:Es; [|done].
    intros [= _ <-]. apply send_mode_ok in Es as (-> & _ & ->). done.
Qed.

(** What the payload says, as a view of an UPDATE; [None] when it is an
    announcement that does not fit. *)
Definition payload_view (p : Payload) : option update_view :=
  let r := rx_value p in
  let bytes := raw (rotonda_pamap r) in
  if bool_decide (route_status p = Withdrawn)
  then Some (mk_view [route_prefix r] [] None [])
  else if announce_len (route_prefix r) bytes <=? u16_max
  then Some (announce_view (route_prefix r) bytes) else None.

Lemma route_message t pi p :
  peer_ok pi -> Forall is_byte (raw (rotonda_pamap (rx_value p))) ->
  match build_route_monitoring_from_route t pi (rx_value p)
          (bool_decide (route_status p = Withdrawn)) with
  | Some msg => exists v, payload_view p = Some v
                /\ decode_route_monitoring msg = Some (header_of t pi, v)
  | None => payload_view p = None
  end.
Proof.
  intros Hp Hb. rewrite from_route_eq. unfold payload_view, build_route_monitoring.
  case_bool_decide as Hw.
  - cbn [build_bgp_update]. destruct (withdraw_update (route_prefix (rx_value p))) as [Hl Hd].
    eexists. split; [done|]. apply decode_rm; [done|unfold u16_max; lia|done].
  - pose proof (announce_update (route_prefix (rx_value p)) _ Hb) as Hu.
    destruct (rotonda_pamap (rx_value p)) as [bytes]. cbn [raw] in *.
    destruct (build_bgp_update _ _ false) as [upd|].
    + destruct Hu as (Hl & Hz & Hd). rewrite (proj2 (Z.leb_le _ _) Hl).
      eexists. split; [done|]. apply decode_rm; [done|lia|done].
    + by rewrite (proj2 (Z.leb_gt _ _) Hu).
Qed.

Lemma send_route_ok id pi p b c u c' :
  peer_ok pi -> Forall is_byte (raw (rotonda_pamap (rx_value p))) ->
  send_route id pi p b c = (Some u, c') ->
  match payload_view p with
  | Some v => exists msg, tx c' = tx c ++ [mk_sent_msg (T_Route id) msg SOk]
      /\ decode_route_monitoring msg = Some (header_of (chan_clock (tx c)) pi, v)
  | None => tx c' = tx c
  end.
Proof.
  intros Hp Hb. unfold send_route, now; run_unfold.
  pose proof (route_message (chan_clock (tx c)) pi p Hp Hb) as Hm.
  destruct (build_route_monitoring_from_route _ _ _ _) as [msg|].
  - destruct Hm as (v & -> & Hd). intros Hs%send_ok. by eauto.
  - rewrite Hm. by intros [= _ <-].
Qed.

Lemma length_tag parent : length (fan_in_distinguisher_tag parent) = 8%nat.
Proof. apply length_be_bytes. Qed.

Lemma build_peer_info_ok cfg reg i : info_ok i -> peer_ok (build_peer_info_for_emit cfg reg i).
Proof.
  intros Hi. unfold build_peer_info_for_emit. destruct (is_enabled _).
  - destruct (parent_ingress i); [apply apply_fan_in_ok; [apply length_tag|]|];
      auto with rotonda.
  - auto with rotonda.
Qed.

(** ** Properties *)

(** C14: in whatever order updates arrive, and whatever the channel answers,
    the messages a client accepts are in order: one Peer Up before anything
    else of a peer, no second one before its Peer Down, nothing between Peer
    Down and the next Peer Up; and unless the client is on its way out, the
    handler's set of known peers is exactly the set of peers up at the client.
    It holds when the peers that updates carry routes or statistics of are
    registered when the update is handled. *)
Theorem session_in_order cfg calls c g :
  in_sync c -> Forall (fun '(reg, u) => registered reg u) calls ->
  let c' := fst (direct_updates cfg calls (c, g)) in
  is_Some (believes c') /\ (gone c' \/ believes c' = Some (known_peers c')).
Proof.
  intros Hi Hc. cbv zeta.
  assert (forall w, session_inv (fst w) -> session_inv (fst (direct_updates cfg calls w))) as H.
  { clear Hi. unfold direct_updates. induction Hc as [|[reg u] calls Hr _ IH]; intros w Hw; [done|].
    cbn [foldl]. apply IH. by apply direct_update_inv. }
  destruct (H (c, g)) as [[Hb Hd]|[Hg Hb]]; [by left| |].
  - split; [by eexists|by right].
  - split; [done|by left].
Qed.

(** When a payload of a registered peer is forwarded, the client gets the
    peer's Peer Up first if it does not have it yet, then one Route Monitoring
    message that decodes to the payload's route under that peer's header (the
    cached one if there is one, which is then also the one to be used for its
    next routes); an announcement over 65535 bytes is left out. *)
Theorem payload_forwarded cfg reg p b c i u c' :
  get (ingress_id p) reg = Some i -> info_ok i ->
  map_Forall (fun _ pi => peer_ok pi) (peer_info_cache c) ->
  dom (peer_info_cache c) ⊆ known_peers c ->
  Forall is_byte (raw (rotonda_pamap (rx_value p))) ->
  send_payload_to_client cfg reg p b c = (Some u, c') ->
  let id := ingress_id p in
  let pi := default (build_peer_info_for_emit cfg reg i) (peer_info_cache c !! id) in
  exists up rm,
    tx c' = tx c ++ up ++ rm
    /\ s_tag <$> up = (if bool_decide (id ∈ known_peers c) then [] else [T_PeerUp id])
    /\ match payload_view p with
       | Some v => exists msg t, rm = [mk_sent_msg (T_Route id) msg SOk]
                     /\ decode_route_monitoring msg = Some (header_of t pi, v)
       | None => rm = []
       end.
Proof.
  cbv zeta. intros Hi Hok Hca Hdom Hb. unfold send_payload_to_client, cached_peer_info.
  erewrite run_bind_Some by done.
  destruct (peer_info_cache c !! ingress_id p) as [pi|] eqn:Ec; cbn [from_option id].
  - intros Hs. apply send_route_ok in Hs; [|by apply (Hca _ _ Ec)|done].
    rewrite bool_decide_true by (apply Hdom; by apply elem_of_dom_2 in Ec).
    exists []. destruct (payload_view p) as [v|].
    + destruct Hs as (msg & Ht & Hd). eexists. split; [exact Ht|]. by eauto 10.
    + exists []. by rewrite !app_nil_r.
  - intros Hs. apply run_bind_inv in Hs as [(u1 & c1 & Hf & Hs)|[_ Hs]]; [|done].
    apply (first_sight_ok _ _ _ _ _ i) in Hf as [_ Ht1]; [|done]. rewrite Hi in Hs.
    erewrite run_bind_Some in Hs by done.
    apply send_route_ok in Hs; [|by apply build_peer_info_ok|done]. cbn [tx set_peers] in Hs.
    eexists. destruct (payload_view p) as [v|].
    + destruct Hs as (msg & Ht & Hd). eexists. split; [rewrite Ht, Ht1, <- app_assoc; done|].
      split; [by case_bool_decide|]. by eauto.
    + exists []. rewrite Hs, Ht1, app_nil_r. split; [done|]. split; [by case_bool_decide|done].
Qed.

(** The per-peer header built for a message depends only on the peer's
    entry, its parent's entry and the configuration.  Its distinguisher is the
    inbound one when that is not zero or fan-in tagging is off; a peer without
    one, under a parent, gets eight bytes that are not all zero and depend only
    on the parent; the header is well formed. *)
Theorem peer_header_distinguisher cfg reg i :
  info_ok i ->
  let d := default (zeros 8) (distinguisher i) in
  let pi := build_peer_info_for_emit cfg reg i in
  peer_ok pi
  /\ (d <> zeros 8 \/ fan_in_peer_distinguisher cfg = Off \/ parent_ingress i = None ->
      pi_distinguisher pi = d)
  /\ (forall parent, d = zeros 8 -> fan_in_peer_distinguisher cfg = IngressHash ->
      parent_ingress i = Some parent ->
      pi_distinguisher pi = fan_in_distinguisher_tag parent
      /\ pi_distinguisher pi <> zeros 8).
Proof.
  intros Hi. cbv zeta. split; [by apply build_peer_info_ok|].
  unfold build_peer_info_for_emit, apply_fan_in_distinguisher. split.
  - intros [Hd|[Hd|Hd]].
    + destruct (is_enabled _), (parent_ingress i); try done. cbn.
      by rewrite bool_decide_false.
    + by rewrite Hd.
    + rewrite Hd. by destruct (is_enabled _).
  - intros parent Hd Hf Hp. rewrite Hf, Hp. cbn.
    rewrite bool_decide_true by done. cbn. split; [done|].
    unfold fan_in_distinguisher_tag.
    match goal with |- context [default_hash ?l] => pose proof (default_hash_u64 l) as Hh end.
    set (h := default_hash _) in *. intros Heq.
    assert (be_bytes 8 (if h =? 0 then 1 else h) = be_bytes 8 0) as He by exact Heq.
    apply be_bytes_inj in He; [|destruct (Z.eqb_spec h 0); cbn; lia|cbn; lia].
    destruct (Z.eqb_spec h 0); lia.
Qed.

Lemma first_sight_quiet cfg reg id b c :
  get id reg = None \/ id ∈ known_peers c ->
  first_sight cfg reg id b c
  = (Some tt, set_peers ({[id]} ∪ known_peers c) (peer_info_cache c) c).
Proof.
  intros H. unfold first_sight, lift, register_known_peer_if_absent; run_unfold.
  destruct H as [->|H]; [by case_bool_decide|]. rewrite bool_decide_false by set_solver. done.
Qed.

(** A route that is forwarded before its peer is registered marks the peer
    as known without a Peer Up: when the peer is registered afterwards, its next
    route still reaches the client without a Peer Up before it. *)
Lemma route_before_register cfg reg1 reg2 p1 p2 b c c1 c2 :
  ingress_id p2 = ingress_id p1 -> in_sync c -> ingress_id p1 ∉ known_peers c ->
  get (ingress_id p1) reg1 = None -> is_Some (get (ingress_id p1) reg2) ->
  send_payload_to_client cfg reg1 p1 b c = (Some tt, c1) ->
  send_payload_to_client cfg reg2 p2 b c1 = (Some tt, c2) ->
  T_PeerUp (ingress_id p1) ∉ s_tag <$> drop (length (tx c)) (tx c2).
Proof.
  intros Hid [_ Hd] Hk Hn [i Hi] H1 H2.
  assert (forall pi p b c u c', send_route (ingress_id p1) pi p b c = (Some u, c') ->
    exists l, tx c' = tx c ++ l /\ s_tag <$> l ⊆ [T_Route (ingress_id p1)]
             /\ known_peers c' = known_peers c /\ peer_info_cache c' = peer_info_cache c) as Hroute.
  { clear. intros pi p b c u c'. unfold send_route, now; run_unfold.
    destruct (build_route_monitoring_from_route _ _ _ _) as [msg|].
    - unfold send, lift; run_unfold.
      destruct (send_message_mode _ _ _ c) as [[] c0] eqn:Es; [|done]. intros [= _ <-].
      apply send_mode_ok in Es as (-> & Hk & Hc). eexists. split; [done|]. cbn.
      split; [set_solver|done].
    - intros [= _ <-]. exists []. rewrite app_nil_r. split; [done|]. split; [set_solver|done]. }
  assert (peer_info_cache c !! ingress_id p1 = None) as Hca.
  { apply not_elem_of_dom. set_solver. }
  unfold send_payload_to_client, cached_peer_info in H1.
  erewrite run_bind_Some in H1 by done. rewrite Hca, Hn in H1.
  erewrite run_bind_Some in H1 by (apply first_sight_quiet; by left).
  change (send_route (ingress_id p1) (build_peer_info_for_emit cfg reg1 info_default) p1 b
    (set_peers ({[ingress_id p1]} ∪ known_peers c) (peer_info_cache c) c) = (Some tt, c1)) in H1.
  apply Hroute in H1 as (l1 & Ht1 & Hl1 & Hk1 & Hc1). cbn in Ht1, Hk1, Hc1.
  unfold send_payload_to_client, cached_peer_info in H2.
  erewrite run_bind_Some in H2 by done. rewrite Hid, Hc1, Hca, Hi in H2.
  erewrite run_bind_Some in H2 by (apply first_sight_quiet; right; set_solver).
  change (send_route (ingress_id p1) (build_peer_info_for_emit cfg reg2 i) p2 b
    (snd (cache_peer_info (ingress_id p1) (build_peer_info_for_emit cfg reg2 i)
      (set_peers ({[ingress_id p1]} ∪ known_peers c1) (peer_info_cache c1) c1)))
    = (Some tt, c2)) in H2.
  apply Hroute in H2 as (l2 & Ht2 & Hl2 & _). cbn in Ht2.
  rewrite Ht2, Ht1, <- app_assoc, drop_app_length, fmap_app. set_solver.
Qed.

End Session.

(** ** All clients *)
Section FleetProps.
Context `{E : Extern} `{L : Layout} (chans : Z -> Channel)
  `{HI : !HashIter Z ClientState}.

(** A client's new state does not depend on the global counters. *)
Lemma direct_update_client_mem (CH : Channel) cfg reg u c g g' :
  fst (snd (direct_update_client cfg reg u (c, g)))
  = fst (snd (direct_update_client cfg reg u (c, g'))).
Proof.
  unfold direct_update_client, buffer_update_if_dumping.
  destruct (disconnect_pending c); [done|]. by repeat case_bool.
Qed.

Lemma update_one_lookup cfg reg u f k c id :
  clients (update_one chans cfg reg u f (k, c)) !! id
  = if decide (id = k)
    then Some (fst (snd (direct_update_client (CH := chans k) cfg reg u (c, mk_mem 0 0 0))))
    else clients f !! id.
Proof.
  rewrite (direct_update_client_mem (chans k) cfg reg u c (mk_mem 0 0 0) (mem f)).
  unfold update_one. cbn [fst snd].
  destruct (direct_update_client cfg reg u (c, mem f)) as [[] [c' g']]. cbn [clients fst snd].
  destruct (decide (id = k)) as [->|Hk]; [apply lookup_insert_eq|by apply lookup_insert_ne].
Qed.

Lemma update_all_lookup cfg reg u l f id :
  NoDup l.*1 ->
  clients (foldl (update_one chans cfg reg u) f l) !! id
  = match (list_to_map l : gmap Z ClientState) !! id with
    | Some c => Some (fst (snd (direct_update_client (CH := chans id) cfg reg u (c, mk_mem 0 0 0))))
    | None => clients f !! id
    end.
Proof.
  revert f. induction l as [|[k c] l IH]; intros f Hnd; [by rewrite list_to_map_nil, lookup_empty|].
  rewrite fmap_cons, NoDup_cons in Hnd. destruct Hnd as [Hk Hnd].
  cbn [foldl]. rewrite IH, update_one_lookup by done. rewrite list_to_map_cons. destruct (decide (id = k)) as [->|Hne].
  - rewrite lookup_insert_eq, (not_elem_of_list_to_map_1 l k) by done. done.
  - by rewrite lookup_insert_ne.
Qed.

(** Clients do not affect each other.  After an update went through all of
    them, in whatever order, each client is exactly as if it had been alone: a
    full, closed or overflowing client changes nothing for the others, and no
    client appears or disappears. *)
Theorem clients_independent cfg reg u f id :
  clients (direct_update chans cfg reg u f) !! id
  = (fun c => fst (snd (direct_update_client (CH := chans id) cfg reg u (c, mk_mem 0 0 0))))
    <$> clients f !! id.
Proof.
  unfold direct_update.
  assert (NoDup (hm_iter (clients f)).*1) as Hnd
    by (rewrite hm_iter_perm; apply NoDup_fst_map_to_list).
  rewrite update_all_lookup by done.
  assert ((list_to_map (hm_iter (clients f)) : gmap Z ClientState) = clients f) as ->.
  { rewrite <- (list_to_map_to_list (clients f)) at 2.
    apply list_to_map_proper; [done|apply hm_iter_perm]. }
  by destruct (clients f !! id).
Qed.

End FleetProps.

(** ** Witnesses *)
#[local] Existing Instance Demo.extern.
#[local] Existing Instance demo_layout.

Module HandlerDemo.

(** A client that goes away after ten messages. *)
Definition channel : Channel := chan_until 10.

Definition peer_entry : IngressInfo :=
  with_parent_ingress 1 (with_remote_asn 65001 (with_remote_addr (V4 3232235777) info_default)).

Definition reg : Register :=
  mk_register 8 {[ 7 := peer_entry; 1 := with_name (str "edge") info_default ]}.

Definition client : ClientState :=
  set_phase Live (fst (client_new 100 100000 (mk_mem 0 0 0))).

Definition payload : Payload :=
  mk_payload WireDemo.route None 0 7 Active.

Definition cfg : OutConfig := mk_config true IngressHash.

Lemma entry_ok : info_ok peer_entry.
Proof. split; intros ? H; vm_compute in H; simplify_eq; unfold addr_wf; cbn; lia. Defined.

Lemma client_in_sync : in_sync client.
Proof. split; [reflexivity|]. cbn. rewrite dom_empty_L. set_solver. Defined.

Lemma payload_registered : registered reg (Single payload).
Proof. constructor; [by eexists|constructor]. Defined.

Lemma withdraw_registered : registered reg (Withdraw 7 None).
Proof. constructor. Defined.

End HandlerDemo.

#[local] Existing Instance HandlerDemo.channel.

Lemma session_in_order_witness :
  is_Some (believes
    (fst (direct_updates HandlerDemo.cfg
            [(HandlerDemo.reg, Single HandlerDemo.payload);
             (HandlerDemo.reg, Withdraw 7 None);
             (HandlerDemo.reg, Single HandlerDemo.payload)]
            (HandlerDemo.client, mk_mem 1 0 0)))).
Proof.
  apply (session_in_order HandlerDemo.cfg
    [(HandlerDemo.reg, Single HandlerDemo.payload); (HandlerDemo.reg, Withdraw 7 None);
     (HandlerDemo.reg, Single HandlerDemo.payload)] HandlerDemo.client (mk_mem 1 0 0)).
  - apply HandlerDemo.client_in_sync.
  - constructor; [apply HandlerDemo.payload_registered|].
    constructor; [apply HandlerDemo.withdraw_registered|].
    constructor; [apply HandlerDemo.payload_registered|constructor].
Defined.

Lemma payload_forwarded_witness :
  exists up rm,
    tx (snd (send_payload_to_client HandlerDemo.cfg HandlerDemo.reg HandlerDemo.payload
               true HandlerDemo.client)) = up ++ rm
    /\ s_tag <$> up = [T_PeerUp 7].
Proof.
  destruct (send_payload_to_client HandlerDemo.cfg HandlerDemo.reg HandlerDemo.payload
              true HandlerDemo.client) as [r c'] eqn:Er.
  assert (fst (send_payload_to_client HandlerDemo.cfg HandlerDemo.reg HandlerDemo.payload
                 true HandlerDemo.client) = Some tt) as Hr by (vm_compute; reflexivity).
  rewrite Er in Hr. cbn in Hr. subst r.
  destruct (payload_forwarded HandlerDemo.cfg HandlerDemo.reg HandlerDemo.payload true
              HandlerDemo.client HandlerDemo.peer_entry tt c' eq_refl HandlerDemo.entry_ok
              (map_Forall_empty _)) as (up & rm & Ht & Hu & _).
  - cbn. rewrite dom_empty_L. set_solver.
  - apply WireDemo.route_bytes.
  - exact Er.
  - exists up, rm. split; [exact Ht|exact Hu].
Defined.

Lemma peer_header_distinguisher_witness :
  pi_distinguisher
    (build_peer_info_for_emit HandlerDemo.cfg HandlerDemo.reg HandlerDemo.peer_entry)
  <> zeros 8.
Proof.
  apply (proj2 (proj2 (peer_header_distinguisher HandlerDemo.cfg HandlerDemo.reg
                         HandlerDemo.peer_entry HandlerDemo.entry_ok)) 1 eq_refl eq_refl eq_refl).
Defined.

Lemma route_before_register_witness :
  let send reg c := send_payload_to_client HandlerDemo.cfg reg HandlerDemo.payload true c in
  exists c1 c2,
    send register_new HandlerDemo.client = (Some tt, c1)
    /\ send HandlerDemo.reg c1 = (Some tt, c2)
    /\ T_PeerUp 7 ∉ s_tag <$> tx c2.
Proof.
  intros send.
  assert (fst (send register_new HandlerDemo.client) = Some tt) as H1
    by (vm_compute; reflexivity).
  assert (fst (send HandlerDemo.reg (snd (send register_new HandlerDemo.client)))
          = Some tt) as H2 by (vm_compute; reflexivity).
  destruct (send register_new HandlerDemo.client) as [r1 c1] eqn:E1.
  cbn in H1, H2. subst r1.
  destruct (send HandlerDemo.reg c1) as [r2 c2] eqn:E2. cbn in H2. subst r2.
  exists c1, c2. split; [reflexivity|]. split; [exact E2|].
  apply (route_before_register HandlerDemo.cfg register_new HandlerDemo.reg
           HandlerDemo.payload HandlerDemo.payload true HandlerDemo.client c1 c2 eq_refl
           HandlerDemo.client_in_sync (not_elem_of_empty _) eq_refl
           (ex_intro _ HandlerDemo.peer_entry eq_refl) E1 E2).
Defined.

Lemma clients_independent_witness :
  clients (direct_update (HI := list_order _ _) (fun _ => HandlerDemo.channel) HandlerDemo.cfg
             HandlerDemo.reg (Single HandlerDemo.payload)
             (mk_fleet {[1 := HandlerDemo.client; 2 := HandlerDemo.client]} (mk_mem 2 0 0))) !! 2
  = Some (fst (snd (direct_update_client HandlerDemo.cfg HandlerDemo.reg
                      (Single HandlerDemo.payload) (HandlerDemo.client, mk_mem 0 0 0)))).
Proof.
  rewrite (clients_independent (HI := list_order _ _) (fun _ => HandlerDemo.channel)).
  reflexivity.
Defined.
