(* ===== verification/Dump.v ===== *)
(** * The peers and the RIB walk of the initial dump
    ([perform_initial_dump] of [src/units/bmp_tcp_out/client_handler.rs])

    Which peers a dump enumerates in the register, and the thread that walks
    the RIB: it feeds the aggregator, discovers the peers that were not
    enumerated and skips the records whose ingress it does not know.  [Handover]
    has the task around it. *)

From S2P Require Import Prelude Net Register Payload BmpDecode BmpBuilder BmpWire.
From S2P Require Import Aggregator ClientState ClientHandler.
From Stdlib Require Import ZArith Lia.
From stdpp Require Import base numbers list gmap fin_maps strings.

Local Open Scope Z_scope.

#[local] Arguments build_peer_up : simpl never.
#[local] Arguments msg_facts : simpl never.
#[local] Arguments routes_facts : simpl never.

Definition DUMP_AGGREGATOR_MAX_BYTES : Z := 256 * 1024 * 1024.

(** ** Enumerating the peers *)
Section Enumerate.
Context `{HI : !HashIter Z IngressInfo}.

(** The search filter of one ingress type: only Mrt ignores the state. *)
Definition dump_filter (t : IngressType) : QueryFilter :=
  let ingress_state := match t with Mrt => None | _ => Some Connected end in
  mk_filter (Some t) ingress_state None None None.

Definition dump_peers (reg : Register) : list (IngressId * IngressInfo) :=
  [BgpViaBmp; Bgp; Mrt] ≫= fun t => search (dump_filter t) reg.

(** The entries to dump: connected sessions, and replayed files. *)
Definition dumpable (i : IngressInfo) : Prop :=
  ((ingress_type i = Some BgpViaBmp \/ ingress_type i = Some Bgp)
   /\ state i = Some Connected)
  \/ ingress_type i = Some Mrt.

Lemma dump_filter_spec t i :
  qf_filter (dump_filter t) i = true
  <-> ingress_type i = Some t /\ (t = Mrt \/ state i = Some Connected).
Proof.
  unfold qf_filter, dump_filter, excludes.
  destruct t; cbn; repeat case_bool_decide; cbn; intuition congruence.
Qed.

Lemma elem_of_dump_peers reg id i :
  (id, i) ∈ dump_peers reg <-> info reg !! id = Some i /\ dumpable i.
Proof.
  unfold dump_peers, dumpable. rewrite list_elem_of_bind.
  setoid_rewrite elem_of_search. setoid_rewrite dump_filter_spec. split.
  - intros (t & (Hi & Ht & Hc) & Hin). split; [done|].
    rewrite !elem_of_cons in Hin. set_solver.
  - intros (Hi & [[[Ht|Ht] Hc]|Ht]); eexists; (split; [split; [exact Hi|split; [exact Ht|]]|]);
      (tauto || set_solver).
Qed.

Lemma dump_peers_NoDup reg : NoDup (dump_peers reg).*1.
Proof.
  unfold dump_peers. cbn. rewrite app_nil_r, !fmap_app.
  assert (forall t u id, t <> u -> id ∈ (search (dump_filter t) reg).*1 ->
            id ∉ (search (dump_filter u) reg).*1) as Hd.
  { intros t u id Htu ([id1 i1] & -> & H1)%list_elem_of_fmap
      ([id2 i2] & Heq & H2)%list_elem_of_fmap. cbn in Heq. subst.
    apply elem_of_search in H1 as [L1 F1], H2 as [L2 F2].
    apply dump_filter_spec in F1 as [T1 _], F2 as [T2 _]. congruence. }
  apply NoDup_app. split; [apply search_NoDup|]. split.
  - intros id H1 [H2|H2]%elem_of_app;
      [by apply (Hd BgpViaBmp Bgp id)|by apply (Hd BgpViaBmp Mrt id)].
  - apply NoDup_app. split; [apply search_NoDup|]. split; [|apply search_NoDup].
    intros id H1. by apply (Hd Bgp Mrt id).
Qed.

End Enumerate.

(** The dump enumerates exactly the connected BGP sessions (direct or
    learnt over BMP) and the replayed files of the register, each once, in
    whatever order the hash table yields them. *)
Theorem dump_peers_exact `{HI : !HashIter Z IngressInfo} reg :
  NoDup (dump_peers reg).*1
  /\ (forall id i, (id, i) ∈ dump_peers reg <-> get id reg = Some i /\ dumpable i).
Proof. split; [apply dump_peers_NoDup|]. intros id i. apply elem_of_dump_peers. Qed.

(** ** The walk over the RIB *)
Section Walk.
Context `{E : Extern} `{SK : Sink} `{HA : !HashIter AggKey AggGroup}.

(** The blocking thread's variables: the aggregator with what went into the
    channel, the peers found on the way, the counters, and (in the model only)
    the kind of each message and the routes given to the aggregator. *)
Record WalkState : Type := mk_walk {
  wk_world : RouteAggregator * Out;
  wk_discovered : list (IngressId * PeerInfo);
  wk_routes_per_ingress : gmap IngressId Z;
  wk_skipped_unknown : gmap IngressId Z;
  wk_tags : list Tag;
  wk_fed : list (IngressId * Prefix * RotondaPaMap)
}.

(** [*map.entry(id).or_insert(0) += 1]. *)
Definition bump (id : IngressId) (m : gmap IngressId Z) : gmap IngressId Z :=
  <[id := default 0 (m !! id) + 1]> m.

(** A peer type that may be discovered. *)
Definition real_peer_type (i : IngressInfo) : bool :=
  match ingress_type i with
  | Some BgpViaBmp | Some Bgp | Some Mrt => true
  | _ => false
  end.

(** An operation of the aggregator: its messages are dump messages. *)
Definition with_world (m : Run (RouteAggregator * Out) unit)
  : Run WalkState unit :=
  fun s =>
    let '(r, w) := m (wk_world s) in
    (r, mk_walk w (wk_discovered s) (wk_routes_per_ingress s)
          (wk_skipped_unknown s)
          (wk_tags s ++ replicate (length (snd w) - length (snd (wk_world s))) T_Dump)
          (wk_fed s)).

(** [sink(peer_up, 0)], then the insertions. *)
Definition discover (id : IngressId) (pi : PeerInfo) : Run WalkState unit :=
  fun s =>
    let '(a, out) := wk_world s in
    let out' := out ++ [(build_peer_up (sink_clock out) pi false, 0)] in
    if sink_accepts out' then
      (Some tt, mk_walk (insert_peer id pi a, out') (wk_discovered s ++ [(id, pi)])
                  (wk_routes_per_ingress s) (wk_skipped_unknown s)
                  (wk_tags s ++ [T_PeerUp id]) (wk_fed s))
    else
      (None, mk_walk (a, out') (wk_discovered s) (wk_routes_per_ingress s)
               (wk_skipped_unknown s) (wk_tags s ++ [T_PeerUp id]) (wk_fed s)).

Definition skip_unknown (id : IngressId) (s : WalkState) : WalkState :=
  mk_walk (wk_world s) (wk_discovered s) (wk_routes_per_ingress s)
    (bump id (wk_skipped_unknown s)) (wk_tags s) (wk_fed s).

Definition feed (id : IngressId) (p : Prefix) (pamap : RotondaPaMap)
  : Run WalkState unit :=
  _ ← run_modify (fun s =>
        mk_walk (wk_world s) (wk_discovered s)
          (bump id (wk_routes_per_ingress s)) (wk_skipped_unknown s)
          (wk_tags s) (wk_fed s ++ [(id, p, pamap)]));
  with_world (add id p pamap).

(** The closure's body for one record: the register as it is found then. *)
Definition walk_record (cfg : OutConfig) (reg : Register) (id : IngressId)
    (p : Prefix) (pamap : RotondaPaMap) : Run WalkState unit :=
  s ← run_get;
  if has_peer id (fst (wk_world s)) then feed id p pamap
  else
    match get id reg with
    | Some i =>
        if real_peer_type i then
          _ ← discover id (build_peer_info_for_emit cfg reg i);
          feed id p pamap
        else run_modify (skip_unknown id)
    | None => run_modify (skip_unknown id)
    end.

Definition walk (cfg : OutConfig)
    (records : list (Register * (IngressId * Prefix * RotondaPaMap)))
  : Run WalkState unit :=
  run_for records (fun '(reg, (id, p, pamap)) => walk_record cfg reg id p pamap).

(** The whole thread: the walk, and the flush unless the client is gone. *)
Definition walk_thread (cfg : OutConfig) (peers : gmap IngressId PeerInfo)
    (records : list (Register * (IngressId * Prefix * RotondaPaMap)))
  : option unit * WalkState :=
  let s0 := mk_walk (aggregator_new DUMP_AGGREGATOR_MAX_BYTES peers, []) [] ∅ ∅ [] [] in
  (_ ← walk cfg records; with_world flush_all) s0.

(** ** Invariant of the walk *)

(** The Peer Up of [pi] is known to the client: sent before the walk or by it. *)
Definition is_up (peers0 : gmap IngressId PeerInfo) (l : Out) (pi : PeerInfo) : Prop :=
  (exists id, peers0 !! id = Some pi) \/ exists t, (build_peer_up t pi false, 0) ∈ l.

(** Every route of a message is of a peer whose Peer Up came earlier. *)
Definition routes_after_up (peers0 : gmap IngressId PeerInfo) (out : Out) : Prop :=
  forall l1 m l2 f, out = l1 ++ m :: l2 -> f ∈ msg_facts m ->
    exists pi, fst (fst (fst f)) = ident_of pi /\ is_up peers0 l1 pi.

Record walk_inv (peers0 : gmap IngressId PeerInfo) (s : WalkState) : Prop := {
  wi_agg : agg_inv (fst (wk_world s));
  wi_session : session_run (dom peers0) (wk_tags s)
               = Some (dom (ra_peer_info (fst (wk_world s))));
  wi_tags : length (wk_tags s) = length (snd (wk_world s));
  wi_up : map_Forall (fun _ pi => is_up peers0 (snd (wk_world s)) pi)
            (ra_peer_info (fst (wk_world s)));
  wi_order : routes_after_up peers0 (snd (wk_world s));
  wi_fed : Forall (fun r => is_Some (ra_peer_info (fst (wk_world s)) !! fst (fst r)))
             (wk_fed s);
  wi_facts : (snd (wk_world s) ≫= msg_facts) ++ pending (fst (wk_world s))
             ≡ₚ routes_facts (ra_peer_info (fst (wk_world s))) (wk_fed s);
  wi_discovered : dom (ra_peer_info (fst (wk_world s)))
                  = dom peers0 ∪ list_to_set (wk_discovered s).*1;
  wi_disc_in : Forall (fun d => ra_peer_info (fst (wk_world s)) !! fst d = Some (snd d))
                 (wk_discovered s)
}.

Lemma peer_up_no_facts t pi n : peer_ok pi -> msg_facts (build_peer_up t pi false, n) = [].
Proof.
  intros Hp. unfold msg_facts, decode_route_monitoring. cbn [fst].
  destruct (decode_common (build_peer_up t pi false)) as [[ty l]|] eqn:Ed; [|done]. cbn.
  destruct (ty =? 0) eqn:Ety; [|done]. exfalso. zify_bools. subst ty.
  revert Ed. unfold decode_common, build_peer_up.
  rewrite write_header_app. unfold write_common_header. rewrite app_nil_l, <- !app_assoc.
  cbn [app]. rewrite uint_1. cbn [mbind option_bind]. rewrite uint_app.
  cbn [mbind option_bind]. rewrite uint_1. cbn [mbind option_bind].
  unfold BMP_MSG_PEER_UP. destruct (check _); cbn; congruence.
Qed.

Lemma is_up_app peers0 l l' pi : is_up peers0 l pi -> is_up peers0 (l ++ l') pi.
Proof. intros [H|[t H]]; [by left|right]. exists t. apply elem_of_app. by left. Qed.

Lemma routes_after_up_app peers0 out new :
  routes_after_up peers0 out ->
  (forall l1 m l2 f, new = l1 ++ m :: l2 -> f ∈ msg_facts m ->
     exists pi, fst (fst (fst f)) = ident_of pi /\ is_up peers0 (out ++ l1) pi) ->
  routes_after_up peers0 (out ++ new).
Proof.
  intros Ho Hn l1 m l2 f Heq Hf.
  apply app_eq_app in Heq as [l [[-> Heq]|[-> Heq]]].
  - destruct l as [|m' l]; cbn in Heq.
    + destruct (Hn [] m l2 f) as (pi & Hi & Hu); [done..|]. exists pi. split; [done|].
      by rewrite !app_nil_r in Hu.
    + injection Heq as -> ->. by apply (Ho l1 m' l).
  - by destruct (Hn l m l2 f) as (pi & Hi & Hu); [..|exists pi].
Qed.

(** Facts of the aggregator are about peers of its map. *)
Lemma pending_ident a f :
  f ∈ pending a -> exists id pi, ra_peer_info a !! id = Some pi /\ fst (fst (fst f)) = ident_of pi.
Proof.
  unfold pending, pending_in. intros ([k g] & Hf & _)%list_elem_of_bind.
  unfold kg_facts in Hf. cbn [fst snd] in Hf.
  destruct (ra_peer_info a !! fst (fst k)) as [pi|] eqn:Ep; [|by apply not_elem_of_nil in Hf].
  apply list_elem_of_fmap in Hf as (p & -> & _). by exists (fst (fst k)), pi.
Qed.

Lemma new_facts_ident peers id p r f :
  f ∈ new_facts peers id p r ->
  exists pi, peers !! id = Some pi /\ fst (fst (fst f)) = ident_of pi.
Proof.
  unfold new_facts. destruct (peers !! id) as [pi|]; [|intros []%not_elem_of_nil].
  case_bool; [|intros []%not_elem_of_nil]. intros ->%list_elem_of_singleton. by exists pi.
Qed.

Lemma session_run_dumps up n : session_run up (replicate n T_Dump) = Some up.
Proof. induction n; [done|]. cbn. done. Qed.

(** An operation of the aggregator that adds [added] to what is to be said. *)
Lemma with_world_inv peers0 m s u s' added fed' :
  walk_inv peers0 s ->
  with_world m s = (Some u, s') ->
  (forall w r w', agg_inv (fst w) -> w = wk_world s -> m w = (r, w') ->
     agg_inv (fst w') /\ exists f, sent w w' r f
       /\ (r <> None -> f ++ pending (fst w') ≡ₚ pending (fst w) ++ added)) ->
  (forall f, f ∈ added -> exists id pi, ra_peer_info (fst (wk_world s)) !! id = Some pi
                                /\ fst (fst (fst f)) = ident_of pi) ->
  routes_facts (ra_peer_info (fst (wk_world s))) fed'
    ≡ₚ routes_facts (ra_peer_info (fst (wk_world s))) (wk_fed s) ++ added ->
  Forall (fun r => is_Some (ra_peer_info (fst (wk_world s)) !! fst (fst r))) fed' ->
  walk_inv peers0 (mk_walk (wk_world s') (wk_discovered s') (wk_routes_per_ingress s')
                     (wk_skipped_unknown s') (wk_tags s') fed').
Proof.
  intros [Wa Ws Wt Wu Wo Wf Wfa Wd Wi] Hm Hspec Hadd Hfed Hall.
  unfold with_world in Hm. destruct (m (wk_world s)) as [r w'] eqn:Em.
  injection Hm as -> <-. cbn [wk_world wk_discovered wk_tags wk_routes_per_ingress wk_skipped_unknown].
  apply Hspec in Em as (Ha & f & [(new & Hn & Hok & Hnf) Hp _ _] & Hperm); [|done|done].
  specialize (Hnf ltac:(done)). specialize (Hperm ltac:(done)).
  assert (length (snd w') - length (snd (wk_world s)) = length new)%nat as Hlen
    by (rewrite Hn, length_app; lia).
  split; cbn; rewrite ?Hp; try done.
  - rewrite session_run_app, Ws. cbn. apply session_run_dumps.
  - rewrite length_app, length_replicate, Hlen, Hn, length_app. lia.
  - rewrite Hn. intros id pi Hid. apply is_up_app. by apply (Wu id).
  - rewrite Hn. apply routes_after_up_app; [done|]. intros l1 m0 l2 fa Heq Hfa.
    assert (fa ∈ f) as Hin.
    { rewrite <- Hnf, Heq, bind_app. apply elem_of_app. right. cbn.
      apply elem_of_app. by left. }
    assert (fa ∈ pending (fst (wk_world s)) ++ added) as Hin'.
    { rewrite <- Hperm. apply elem_of_app. by left. }
    assert (exists id pi, ra_peer_info (fst (wk_world s)) !! id = Some pi
              /\ fst (fst (fst fa)) = ident_of pi) as (id & pi & Hid & Hident).
    { apply elem_of_app in Hin' as [H|H]; [by apply pending_ident|by apply Hadd]. }
    exists pi. split; [done|]. apply is_up_app. by apply (Wu id).
  - rewrite Hn, bind_app, <- app_assoc, Hnf, Hperm, app_assoc, Wfa. by rewrite Hfed.
Qed.

Lemma routes_facts_app peers l l' :
  routes_facts peers (l ++ l') = routes_facts peers l ++ routes_facts peers l'.
Proof. unfold routes_facts. apply bind_app. Qed.

Lemma routes_facts_one peers id p pamap :
  routes_facts peers [(id, p, pamap)] = new_facts peers id p (raw pamap).
Proof. unfold routes_facts. cbn. by rewrite app_nil_r. Qed.

Lemma feed_inv peers0 id p pamap s u s' :
  walk_inv peers0 s -> is_Some (ra_peer_info (fst (wk_world s)) !! id) ->
  Forall is_byte (raw pamap) -> feed id p pamap s = (Some u, s') -> walk_inv peers0 s'.
Proof.
  intros Hi Hid Hb. unfold feed. erewrite run_bind_Some by done. set (s1 := mk_walk _ _ _ _ _ _).
  intros Hf. assert (walk_inv peers0 (mk_walk (wk_world s') (wk_discovered s')
    (wk_routes_per_ingress s') (wk_skipped_unknown s') (wk_tags s')
    (wk_fed s ++ [(id, p, pamap)]))) as Hw.
  - assert (walk_inv peers0 (mk_walk (wk_world s) (wk_discovered s)
      (bump id (wk_routes_per_ingress s)) (wk_skipped_unknown s) (wk_tags s) (wk_fed s))) as Hi'
      by (by destruct Hi).
    assert (exists s2, with_world (add id p pamap) (mk_walk (wk_world s) (wk_discovered s)
      (bump id (wk_routes_per_ingress s)) (wk_skipped_unknown s) (wk_tags s) (wk_fed s))
      = (Some u, s2) /\ mk_walk (wk_world s2) (wk_discovered s2) (wk_routes_per_ingress s2)
          (wk_skipped_unknown s2) (wk_tags s2) (wk_fed s ++ [(id, p, pamap)])
        = mk_walk (wk_world s') (wk_discovered s') (wk_routes_per_ingress s')
          (wk_skipped_unknown s') (wk_tags s') (wk_fed s ++ [(id, p, pamap)])) as (s2 & H2 & <-).
    { revert Hf. unfold with_world, s1. cbn. destruct (add id p pamap (wk_world s)) as [r w].
      intros [= -> <-]. eexists. split; done. }
    eapply (with_world_inv _ _ _ _ _ (new_facts (ra_peer_info (fst (wk_world s))) id p (raw pamap)));
      [exact Hi'|exact H2|..]; cbn.
    + intros w r w' Ha -> Hadd. apply add_spec in Hadd as (Ha' & _ & Hs); done.
    + intros f (pi & Hpi & Hf')%new_facts_ident. by eauto.
    + by rewrite routes_facts_app, routes_facts_one.
    + apply Forall_app. split; [apply Hi|]. by repeat constructor.
  - assert (wk_fed s' = wk_fed s ++ [(id, p, pamap)]) as Hfed.
    { revert Hf. unfold with_world, s1. cbn. destruct (add id p pamap (wk_world s)) as [r w].
      by intros [= -> <-]. }
    rewrite <- Hfed in Hw. by destruct s'.
Qed.

Lemma pending_insert_peer a id pi :
  agg_inv a -> ra_peer_info a !! id = None -> pending (insert_peer id pi a) = pending a.
Proof.
  intros Hi Hn. unfold pending, pending_in. cbn. apply bind_ext_Forall, Forall_forall.
  intros [k g] Hk%elem_of_map_to_list. unfold kg_facts. cbn [fst snd].
  destruct (st_peer _ _ _ (inv_groups _ Hi _ _ Hk)) as [pi' Hp].
  rewrite lookup_insert_ne; [done|]. congruence.
Qed.

Lemma inv_insert_peer a id pi :
  agg_inv a -> peer_ok pi -> agg_inv (insert_peer id pi a).
Proof.
  intros [H1 H2 H3 H4] Hp. split; cbn; [done| |by apply map_Forall_insert_2|done].
  intros k g Hk. destruct (H2 k g Hk) as [S1 S2 S3 S4 [pi' S5]]. split; [done..|].
  destruct (decide (fst (fst k) = id)) as [->|Hne];
    [rewrite lookup_insert_eq|rewrite lookup_insert_ne by done]; by eexists.
Qed.

Lemma routes_facts_insert peers id pi l :
  peers !! id = None -> Forall (fun r => is_Some (peers !! fst (fst r))) l ->
  routes_facts (<[id := pi]> peers) l = routes_facts peers l.
Proof.
  intros Hn Hl. apply bind_ext_Forall. eapply Forall_impl; [exact Hl|].
  intros [[k p] pm] [pi' Hk]. cbn in Hk. unfold new_facts.
  rewrite lookup_insert_ne; [done|]. congruence.
Qed.

Lemma discover_inv peers0 id pi s u s' :
  walk_inv peers0 s -> ra_peer_info (fst (wk_world s)) !! id = None -> peer_ok pi ->
  discover id pi s = (Some u, s') ->
  walk_inv peers0 s' /\ is_Some (ra_peer_info (fst (wk_world s')) !! id).
Proof.
  intros [Wa Ws Wt Wu Wo Wf Wfa Wd Wi] Hn Hp. unfold discover.
  destruct (wk_world s) as [a out]. cbn [fst snd] in *.
  destruct (sink_accepts _); [|done]. intros [= _ <-]. cbn.
  split; [|rewrite lookup_insert_eq; by eexists].
  pose proof (peer_up_no_facts (sink_clock out) pi 0 Hp) as Hpf.
  split; cbn.
  - by apply inv_insert_peer.
  - rewrite session_run_app, Ws. cbn.
    rewrite bool_decide_false by (by apply not_elem_of_dom). cbn. by rewrite dom_insert_L.
  - rewrite !length_app. cbn. lia.
  - apply map_Forall_insert_2.
    + right. exists (sink_clock out). apply elem_of_app. right. by apply list_elem_of_singleton.
    + intros k pi' Hk. apply is_up_app. by apply (Wu k).
  - apply routes_after_up_app; [done|]. intros l1 m l2 f Heq Hf. exfalso.
    destruct l1 as [|? [|]]; [|done..]. cbn in Heq. injection Heq as <- _.
    rewrite Hpf in Hf. by apply not_elem_of_nil in Hf.
  - eapply Forall_impl; [exact Wf|]. intros r [pi' Hr]. cbn.
    rewrite lookup_insert_ne; [by eexists|congruence].
  - rewrite bind_app. cbn. rewrite Hpf, !app_nil_r, pending_insert_peer by done.
    by rewrite routes_facts_insert.
  - rewrite dom_insert_L, Wd, fmap_app, list_to_set_app_L. cbn. set_solver.
  - apply Forall_app. split.
    + eapply Forall_impl; [exact Wi|]. intros d Hd. cbn in Hd |- *.
      rewrite lookup_insert_ne; [done|congruence].
    + constructor; [|constructor]. cbn. apply lookup_insert_eq.
Qed.

Lemma skip_inv peers0 id s : walk_inv peers0 s -> walk_inv peers0 (skip_unknown id s).
Proof. by intros []. Qed.

(** The register's entries are well formed, the attributes are bytes. *)
Definition record_ok (r : Register * (IngressId * Prefix * RotondaPaMap)) : Prop :=
  map_Forall (fun _ i => info_ok i) (info (fst r)) /\ Forall is_byte (raw (snd (snd r))).

Lemma walk_record_inv peers0 cfg reg id p pamap s u s' :
  walk_inv peers0 s -> record_ok (reg, (id, p, pamap)) ->
  walk_record cfg reg id p pamap s = (Some u, s') -> walk_inv peers0 s'.
Proof.
  intros Hi [Hreg Hb]. cbn in Hreg, Hb. unfold walk_record. erewrite run_bind_Some by done.
  unfold has_peer. case_bool_decide as Hh; [by apply feed_inv|].
  apply eq_None_not_Some in Hh. destruct (get id reg) as [i|] eqn:Eg.
  - destruct (real_peer_type i).
    + intros Hr. apply run_bind_inv in Hr as [(u1 & s1 & Hd & Hr)|[_ Hr]]; [|done].
      apply (discover_inv peers0) in Hd as [Hi1 Hs1]; [|done..|].
      * by eapply feed_inv in Hr.
      * apply build_peer_info_ok. by apply (Hreg id).
    + intros [= _ <-]. by apply skip_inv.
  - intros [= _ <-]. by apply skip_inv.
Qed.

Lemma walk_inv_all peers0 cfg records s u s' :
  walk_inv peers0 s -> Forall record_ok records -> walk cfg records s = (Some u, s') ->
  walk_inv peers0 s'.
Proof.
  intros Hi Hr. revert s Hi. induction Hr as [|[reg [[id p] pamap]] records Hr _ IH]; intros s Hi.
  { by intros [= _ <-]. }
  intros Hw. apply run_bind_inv in Hw as [(u1 & s1 & H1 & Hw)|[_ Hw]]; [|done].
  apply (walk_record_inv peers0) in H1; [|done..]. by apply IH in Hw.
Qed.

Lemma walk_start_inv max peers0 :
  0 <= max -> map_Forall (fun _ pi => peer_ok pi) peers0 ->
  walk_inv peers0 (mk_walk (aggregator_new max peers0, []) [] ∅ ∅ [] []).
Proof.
  intros Hm Hp. destruct (new_inv max peers0 Hm Hp) as [Hi H0].
  split; cbn; [done|done|done| | |done| |set_solver|done].
  - intros id pi Hid. left. by exists id.
  - intros l1 m l2 f Heq. by destruct l1.
  - by rewrite H0.
Qed.

(** Every record was either given to the aggregator or counted as skipped. *)
Definition counted (s : WalkState) : Z :=
  zlen (wk_fed s) + zsum (snd <$> map_to_list (wk_skipped_unknown s)).

Lemma bump_sum id m :
  zsum (snd <$> map_to_list (bump id m)) = zsum (snd <$> map_to_list m) + 1.
Proof.
  unfold bump. rewrite <- insert_delete_eq, map_to_list_insert by apply lookup_delete_eq.
  rewrite fmap_cons, zsum_cons. cbn [snd].
  destruct (m !! id) as [n|] eqn:Em; cbn [from_option].
  - rewrite <- (map_to_list_delete m id n) by done. rewrite fmap_cons, zsum_cons. cbn. lia.
  - rewrite delete_id by done. lia.
Qed.

Lemma feed_fed id p pamap s r s' :
  feed id p pamap s = (r, s') ->
  wk_fed s' = wk_fed s ++ [(id, p, pamap)] /\ wk_skipped_unknown s' = wk_skipped_unknown s.
Proof.
  unfold feed. erewrite run_bind_Some by done. unfold with_world. cbn.
  destruct (add id p pamap (wk_world s)) as [r1 w]. by intros [= _ <-].
Qed.

Lemma discover_fed id pi s u s' :
  discover id pi s = (Some u, s') ->
  wk_fed s' = wk_fed s /\ wk_skipped_unknown s' = wk_skipped_unknown s.
Proof.
  unfold discover. destruct (wk_world s) as [a out]. destruct (sink_accepts _); [|done].
  by intros [= _ <-].
Qed.

Lemma walk_counted cfg records s u s' :
  walk cfg records s = (Some u, s') -> counted s' = counted s + zlen records.
Proof.
  revert s. induction records as [|[reg [[id p] pamap]] records IH]; intros s.
  { intros [= _ <-]. rewrite zlen_nil. lia. }
  intros Hw. apply run_bind_inv in Hw as [(u1 & s1 & H1 & Hw)|[_ Hw]]; [|done].
  apply IH in Hw. rewrite Hw, zlen_cons. enough (counted s1 = counted s + 1) by lia.
  clear - H1. revert H1. unfold walk_record. erewrite run_bind_Some by done.
  assert (forall s0 r s2, feed id p pamap s0 = (r, s2) -> counted s2 = counted s0 + 1) as Hfeed.
  { intros s0 r s2 [Hf Hs]%feed_fed. unfold counted. rewrite Hf, Hs, zlen_app.
    change (zlen [(id, p, pamap)]) with 1. lia. }
  assert (counted (skip_unknown id s) = counted s + 1) as Hskip.
  { unfold counted. cbn. rewrite bump_sum. lia. }
  destruct (has_peer _ _); [apply Hfeed|].
  destruct (get id reg); [|by intros [= _ <-]].
  destruct (real_peer_type _); [|by intros [= _ <-]].
  intros Hr. apply run_bind_inv in Hr as [(u2 & s2 & Hd & Hr)|[_ Hr]]; [|done].
  apply Hfeed in Hr. rewrite Hr. apply discover_fed in Hd as [Hf Hs].
  unfold counted. by rewrite Hf, Hs.
Qed.

(** A walk that stops early was refused by the consumer. *)
Lemma feed_gone peers0 id p pamap s s' :
  walk_inv peers0 s -> Forall is_byte (raw pamap) -> feed id p pamap s = (None, s') ->
  sink_accepts (snd (wk_world s')) = false.
Proof.
  intros Hi Hb. unfold feed. erewrite run_bind_Some by done. unfold with_world. cbn.
  destruct (add id p pamap (wk_world s)) as [r w] eqn:Ea. intros [= -> <-]. cbn.
  apply add_spec in Ea as (_ & _ & f & Hs & _); [|apply Hi|done]. by apply (sent_gone _ _ _ _ Hs).
Qed.

Lemma walk_gone peers0 cfg records s s' :
  walk_inv peers0 s -> Forall record_ok records -> walk cfg records s = (None, s') ->
  sink_accepts (snd (wk_world s')) = false.
Proof.
  intros Hi Hr. revert s Hi. induction Hr as [|[reg [[id p] pamap]] records Hr _ IH]; intros s Hi;
    [done|].
  intros Hw. apply run_bind_inv in Hw as [(u1 & s1 & H1 & Hw)|[H1 _]].
  { apply (walk_record_inv peers0) in H1; [|done..]. by apply (IH s1). }
  destruct Hr as [Hreg Hb]. cbn in Hreg, Hb. revert H1. unfold walk_record.
  erewrite run_bind_Some by done. destruct (has_peer _ _) eqn:Hh; [by eapply feed_gone|].
  unfold has_peer in Hh. apply bool_decide_eq_false, eq_None_not_Some in Hh.
  destruct (get id reg) as [i|] eqn:Eg; [|done]. destruct (real_peer_type i); [|done].
  intros H1. apply run_bind_inv in H1 as [(u1 & s1 & Hd & H1)|[Hd _]].
  - apply (discover_inv peers0) in Hd as [Hi1 _]; [by eapply feed_gone|done..|].
    apply build_peer_info_ok. by apply (Hreg id).
  - revert Hd. unfold discover. destruct (wk_world s) as [a out].
    destruct (sink_accepts (out ++ _)) eqn:Es; intros [=]; subst. done.
Qed.

Lemma walk_thread_spec cfg peers0 records :
  map_Forall (fun _ pi => peer_ok pi) peers0 -> Forall record_ok records ->
  let '(r, s) := walk_thread cfg peers0 records in
  let '(a, out) := wk_world s in
  match r with
  | Some _ =>
      out ≫= msg_facts ≡ₚ routes_facts (ra_peer_info a) (wk_fed s)
      /\ counted s = zlen records
      /\ dom (ra_peer_info a) = dom peers0 ∪ list_to_set (wk_discovered s).*1
      /\ routes_after_up peers0 out
      /\ session_run (dom peers0) (wk_tags s) = Some (dom (ra_peer_info a))
      /\ length (wk_tags s) = length out
  | None => sink_accepts out = false
  end.
Proof.
  intros Hp Hr. unfold walk_thread.
  pose proof (walk_start_inv DUMP_AGGREGATOR_MAX_BYTES peers0 ltac:(done) Hp) as Hi.
  set (s0 := mk_walk _ _ _ _ _ _) in *.
  destruct ((_ ← walk cfg records; with_world flush_all) s0) as [r s] eqn:Er.
  apply run_bind_inv in Er as [([] & s1 & Hw & Hf)|[Hw ->]].
  2: { apply (walk_gone peers0) in Hw; [|done..]. by destruct (wk_world s). }
  pose proof (walk_counted _ _ _ _ _ Hw) as Hc.
  apply (walk_inv_all peers0) in Hw; [|done..].
  assert (wk_fed s = wk_fed s1 /\ wk_skipped_unknown s = wk_skipped_unknown s1) as [Hfe Hsk].
  { revert Hf. unfold with_world. destruct (flush_all (wk_world s1)). by intros [= _ <-]. }
  destruct r as [u|].
  - pose proof Hf as Hf'.
    apply (with_world_inv peers0 _ _ _ _ [] (wk_fed s1)) in Hf;
      [|done| |by intros f Hff%not_elem_of_nil|by rewrite app_nil_r|apply Hw].
    2: { intros w r w' Ha _ Hfl. apply flush_all_spec in Hfl as (Ha' & Hg & _ & f & Hs & Hff);
           [|done]. split; [done|]. exists f. split; [done|]. intros Hr'.
         rewrite Hff, app_nil_r by done. unfold pending, pending_in at 2. rewrite Hg.
         rewrite map_to_list_empty. cbn. by rewrite app_nil_r. }
    revert Hf'. unfold with_world. destruct (flush_all (wk_world s1)) as [r1 [a out]] eqn:Ef.
    intros [= -> <-]. cbn in *. destruct Hf as [Wa Ws Wt Wu Wo Wf Wfa Wd Wi]. cbn in *.
    apply flush_all_spec in Ef as (_ & Hg & _); [|apply Hw]. cbn in Hg.
    split; [|split; [|done]].
    + rewrite <- Wfa. unfold pending, pending_in. rewrite Hg, map_to_list_empty. cbn.
      by rewrite app_nil_r.
    + assert (counted s0 = 0) as H0 by (unfold counted; cbn; by rewrite map_to_list_empty).
      rewrite H0, Z.add_0_l in Hc. rewrite <- Hc. done.
  - revert Hf. unfold with_world. destruct (flush_all (wk_world s1)) as [r1 [a out]] eqn:Ef.
    intros [= -> <-]. cbn. apply flush_all_spec in Ef as (_ & _ & _ & f & Hs & _); [|apply Hw].
    by apply (sent_gone _ _ _ _ Hs).
Qed.

(** ** Properties of the walk *)

(** C12: the RIB walk of a dump is exact.  When the consumer stays, its messages
    announce exactly the routes it was given (with the header of their peer),
    every record being either given to the aggregator or counted as skipped;
    the peers it knows are the enumerated ones and those it discovered in the
    register; every announcement comes after the Peer Up of its peer, sent
    before the walk or inside it, and no peer gets two.  It stops early only if
    the consumer is gone. *)
Theorem dump_walk_exact cfg peers0 records :
  map_Forall (fun _ pi => peer_ok pi) peers0 -> Forall record_ok records ->
  let '(r, s) := walk_thread cfg peers0 records in
  let '(a, out) := wk_world s in
  match r with
  | Some _ =>
      out ≫= msg_facts ≡ₚ routes_facts (ra_peer_info a) (wk_fed s)
      /\ counted s = zlen records
      /\ dom (ra_peer_info a) = dom peers0 ∪ list_to_set (wk_discovered s).*1
      /\ routes_after_up peers0 out
      /\ session_run (dom peers0) (wk_tags s) = Some (dom (ra_peer_info a))
  | None => sink_accepts out = false
  end.
Proof.
  intros Hp Hr. pose proof (walk_thread_spec cfg peers0 records Hp Hr) as H.
  destruct (walk_thread cfg peers0 records) as [[u|] s]; destruct (wk_world s) as [a out];
    [|done]. by destruct H as (H1 & H2 & H3 & H4 & H5 & _).
Qed.

End Walk.

(** ** Witness: one enumerated peer, one discovered, one unknown *)
#[local] Existing Instance Demo.extern.
#[local] Existing Instance demo_layout.
#[local] Existing Instance AggDemo.sink.
#[local] Existing Instance list_order.

Module DumpDemo.

Definition reg : Register :=
  mk_register 9 {[ 8 := with_ingress_type Bgp HandlerDemo.peer_entry ]}.

Definition records : list (Register * (IngressId * Prefix * RotondaPaMap)) :=
  [(reg, (7, WireDemo.v6_prefix, AggDemo.blob_a));
   (reg, (8, WireDemo.v4_prefix, AggDemo.blob_a));
   (reg, (9, WireDemo.v4_prefix, AggDemo.blob_b))].

Lemma bgp_entry_ok : info_ok (with_ingress_type Bgp HandlerDemo.peer_entry).
Proof. split; intros ? H; vm_compute in H; simplify_eq; unfold addr_wf; cbn; lia. Defined.

Lemma reg_wf : map_Forall (fun _ i => info_ok i) (info reg).
Proof. apply map_Forall_singleton, bgp_entry_ok. Defined.

Lemma records_ok : Forall record_ok records.
Proof.
  repeat (apply Forall_cons; split; [split; [apply reg_wf|by repeat constructor]|]).
  constructor.
Defined.

End DumpDemo.

Lemma dump_walk_exact_witness :
  let s := snd (walk_thread HandlerDemo.cfg AggDemo.peers DumpDemo.records) in
  snd (wk_world s) ≫= msg_facts
    ≡ₚ routes_facts (ra_peer_info (fst (wk_world s))) (wk_fed s)
  /\ counted s = 3 /\ (wk_discovered s).*1 = [8].
Proof.
  assert (fst (walk_thread HandlerDemo.cfg AggDemo.peers DumpDemo.records) = Some tt
    /\ (wk_discovered (snd (walk_thread HandlerDemo.cfg AggDemo.peers DumpDemo.records))).*1
       = [8]) as [H1 H2] by (split; vm_compute; reflexivity).
  pose proof (dump_walk_exact HandlerDemo.cfg AggDemo.peers DumpDemo.records
                AggDemo.peers_ok DumpDemo.records_ok) as H.
  destruct (walk_thread _ _ _) as [r s]. cbn [fst snd] in *. subst r. cbv zeta.
  destruct (wk_world s) as [a out]. cbn [fst snd]. destruct H as (F & C & _).
  split; [exact F|]. split; [exact C|exact H2].
Defined.

Lemma dump_peers_exact_witness :
  let reg := mk_register 9 {[ 8 := with_state Connected
                                     (with_ingress_type Bgp HandlerDemo.peer_entry) ]} in
  8 ∈ (dump_peers (HI := list_order _ _) reg).*1
  /\ 7 ∉ (dump_peers (HI := list_order _ _) reg).*1.
Proof.
  intros reg. destruct (dump_peers_exact (HI := list_order _ _) reg) as [_ H].
  split; [|intros Hin].
  - apply list_elem_of_fmap. eexists (8, _). split; [done|]. apply H.
    split; [reflexivity|]. unfold dumpable. cbn. naive_solver.
  - apply list_elem_of_fmap in Hin as ([id i] & Hid & [Hg _]%H). cbn in Hid. subst id.
    vm_compute in Hg. congruence.
Defined.
