(* ===== verification/Handover.v ===== *)
(** * The dump task of a client and its hand-over to live updates

    [perform_initial_dump] as a state machine whose steps interleave with
    [direct_update]; see [Dump] for the enumeration and the walk. *)

From S2P Require Import Prelude Net Register Payload BmpDecode BmpBuilder BmpWire.
From S2P Require Import Aggregator ClientState ClientHandler Dump.
From Stdlib Require Import ZArith Lia.
From stdpp Require Import base numbers list gmap fin_maps relations strings.

Local Open Scope Z_scope.

#[local] Arguments build_peer_up : simpl never.
#[local] Arguments accepted : simpl never.
#[local] Arguments zlen : simpl never.

(** ** The task *)
Section Task.
Context `{E : Extern} `{L : Layout} `{CH : Channel}
  `{HI : !HashIter Z IngressInfo} `{HA : !HashIter AggKey AggGroup}.
Context (cfg : OutConfig) (sys_name sys_descr : rstring) (walk_clock : Out -> Clock).

(** What the End-of-RIB phase does, in order. *)
Inductive EorAct : Type :=
| A_Know (id : IngressId)
| A_Eor (id : IngressId) (pi : PeerInfo) (t : AfiSafiType).

(** Where the task is: before the Initiation; sending Peer Ups; forwarding the
    walk's messages; sending End-of-RIB markers; draining a batch of buffered
    updates; returned [true]; returned [false]. *)
Inductive Task : Type :=
| D_Init
| D_PeerUps (todo peers : list (IngressId * IngressInfo)) (m : gmap IngressId PeerInfo)
| D_Forward (msgs : list (Tag * list Z)) (peers : list (IngressId * IngressInfo))
    (m : gmap IngressId PeerInfo) (discovered : list (IngressId * PeerInfo))
| D_Eor (acts : list EorAct)
| D_Drain (batch : list Update)
| D_Done
| D_Failed.

(** The receiver of the walk's channel is there as long as the task forwards. *)
Definition walk_sink : Sink :=
  {| sink_accepts := fun _ => true; sink_clock := walk_clock |}.

Definition both_families (id : IngressId) (pi : PeerInfo) : list EorAct :=
  [A_Eor id pi Ipv4Unicast; A_Eor id pi Ipv6Unicast].

Definition eor_acts (peers : list (IngressId * IngressInfo))
    (m : gmap IngressId PeerInfo) (discovered : list (IngressId * PeerInfo))
  : list EorAct :=
  (peers ≫= fun e => match m !! fst e with
                     | Some pi => both_families (fst e) pi
                     | None => []
                     end)
  ++ (discovered ≫= fun d => A_Know (fst d) :: both_families (fst d) (snd d)).

Abbreviation TS := (Task * (ClientState * MemStats))%type.

(** [return false], after which the caller flags the client for disconnect. *)
Definition fail_task (c : ClientState) (g : MemStats) : TS :=
  (D_Failed, (snd (request_disconnect c), g)).

(** The client went away while the walk was forwarded: flag it, free the buffer. *)
Definition abandon (c : ClientState) (g : MemStats) : TS :=
  let c := snd (request_disconnect c) in
  let '(_, (c, g)) := discard_dump_buffer (c, g) in
  fail_task c g.

(** One turn of the task: [reg] and [records] are the register and the RIB as it
    finds them. *)
Definition task_step (reg : Register)
    (records : list (Register * (IngressId * Prefix * RotondaPaMap)))
    (s : TS) : TS :=
  let '(t, (c, g)) := s in
  match t with
  | D_Init =>
      let '(ok, c) := send_message T_Initiation
                        (build_initiation_message sys_name sys_descr) c in
      if ok then (D_PeerUps (dump_peers reg) (dump_peers reg) ∅, (c, g))
      else fail_task c g
  | D_PeerUps ((id, i) :: todo) peers m =>
      let pi := build_peer_info_for_emit cfg reg i in
      let msg := build_peer_up (chan_clock (tx c)) pi true in
      let '(ok, c) := send_message (T_PeerUp id) msg c in
      if ok
      then (D_PeerUps todo peers (<[id := pi]> m), (snd (add_known_peer id c), g))
      else fail_task c g
  | D_PeerUps [] peers m =>
      let w := snd (walk_thread (SK := walk_sink) cfg m records) in
      (D_Forward (zip (wk_tags w) (snd (wk_world w)).*1) peers m (wk_discovered w),
       (c, g))
  | D_Forward ((tag, msg) :: msgs) peers m d =>
      let '(ok, c) := send_message tag msg c in
      if ok then (D_Forward msgs peers m d, (c, g)) else abandon c g
  | D_Forward [] peers m d => (D_Eor (eor_acts peers m d), (c, g))
  | D_Eor (A_Know id :: acts) => (D_Eor acts, (snd (add_known_peer id c), g))
  | D_Eor (A_Eor id pi t :: acts) =>
      match build_end_of_rib_marker (chan_clock (tx c)) pi t with
      | Some msg =>
          let '(ok, c) := send_message (T_Eor id) msg c in
          if ok then (D_Eor acts, (c, g)) else fail_task c g
      | None => (D_Eor acts, (c, g))
      end
  | D_Eor [] => (D_Drain [], (c, g))
  | D_Drain (u :: batch) =>
      match send_update_to_client cfg reg u true c with
      | (Some _, c) => (D_Drain batch, (c, g))
      | (None, c) => fail_task c g
      end
  | D_Drain [] =>
      let '(buffered, (c, g)) := take_buffered_updates (c, g) in
      match buffered with
      | [] => (D_Done, (set_phase Live c, g))
      | _ => (D_Drain buffered, (c, g))
      end
  | D_Done | D_Failed => s
  end.

(** Without a RIB: Initiation, then the buffer is drained under the phase lock. *)
Fixpoint drain_all (reg : Register) (us : list Update) (c : ClientState) : ClientState :=
  match us with
  | [] => c
  | u :: us =>
      match send_update_to_client cfg reg u true c with
      | (Some _, c) => drain_all reg us c
      | (None, c) => c
      end
  end.

Definition norib_step (reg : Register) (s : ClientState * MemStats) : TS :=
  let '(c, g) := s in
  let '(_, c) := send_message T_Initiation
                   (build_initiation_message sys_name sys_descr) c in
  let '(buffered, (c, g)) := take_buffered_updates (c, g) in
  (D_Done, (set_phase Live (drain_all reg buffered c), g)).

(** ** Interleaving with [direct_update]

    [offered] are the updates that [direct_update] was called with; [handled] those for which
    [send_update_to_client] was called, in that order, with the register it found and
    whether it was to wait for the queue. Both exist in the model only.  [direct_update]
    calls for one client come one after the other, as one gate upstream makes them; each
    of them is one step. *)
Record Handling : Type := mk_handling {
  h_reg : Register;
  h_wait : bool;
  h_update : Update
}.

Record DumpState : Type := mk_dump {
  ds_task : Task;
  ds_client : ClientState;
  ds_mem : MemStats;
  offered : list Update;
  handled : list Handling
}.

(** The updates that a task still holds. *)
Definition batch_of (t : Task) : list Update :=
  match t with D_Drain b => b | _ => [] end.

(** The update that a turn of the task handles. *)
Definition handled_by (t : Task) : list Update :=
  match t with D_Drain (u :: _) => [u] | _ => [] end.

(** What may be assumed of the register and the table that a turn of the task finds, and of
    an update and the register when it is handled. *)
Context (sound : Register -> list (Register * (IngressId * Prefix * RotondaPaMap)) -> Prop)
        (admits : Register -> Update -> Prop).

Inductive dump_step : DumpState -> DumpState -> Prop :=
| st_task reg records t c g o h t' c' g' :
    sound reg records -> Forall (admits reg) (handled_by t) ->
    task_step reg records (t, (c, g)) = (t', (c', g')) ->
    dump_step (mk_dump t c g o h)
      (mk_dump t' c' g' o (h ++ (mk_handling reg true <$> handled_by t)))
| st_bail msgs peers m d c g o h t' c' g' :
    disconnect_pending c = true -> abandon c g = (t', (c', g')) ->
    dump_step (mk_dump (D_Forward msgs peers m d) c g o h) (mk_dump t' c' g' o h)
| st_norib reg c g o h t' c' g' :
    Forall (admits reg) (dump_buffer c) ->
    norib_step reg (c, g) = (t', (c', g')) ->
    dump_step (mk_dump D_Init c g o h)
      (mk_dump t' c' g' o (h ++ (mk_handling reg true <$> dump_buffer c)))
| st_update reg u t c g o h r c' g' :
    (phase c = Live -> admits reg u) ->
    direct_update_client cfg reg u (c, g) = (r, (c', g')) ->
    dump_step (mk_dump t c g o h)
      (mk_dump t c' g' (o ++ [u])
         (if bool_decide (phase c = Live) then h ++ [mk_handling reg false u] else h)).

Inductive dump_reachable (e b : Z) : DumpState -> Prop :=
| dr_init g :
    dump_reachable e b (mk_dump D_Init (fst (client_new e b g)) (snd (client_new e b g)) [] [])
| dr_step s s' : dump_reachable e b s -> dump_step s s' -> dump_reachable e b s'.

End Task.

(** ** What the handler leaves alone, and how it fails *)
Section Good.
Context `{E : Extern} `{L : Layout} `{CH : Channel}.

(** Phase and buffer are untouched, a client that is gone stays gone, and an
    early exit means that it is gone. *)
Definition frame (c c' : ClientState) : Prop :=
  phase c' = phase c /\ dump_buffer c' = dump_buffer c /\ (gone c -> gone c').

Lemma frame_refl c : frame c c.
Proof. done. Qed.

Lemma frame_trans c1 c2 c3 : frame c1 c2 -> frame c2 c3 -> frame c1 c3.
Proof. intros (?&?&?) (?&?&?). split; [congruence|]. split; [congruence|auto]. Qed.

Definition good {A} (m : Run ClientState A) : Prop :=
  forall c r c', m c = (r, c') -> frame c c' /\ (r = None -> gone c').

Lemma good_ret {A} (a : A) : good (mret a).
Proof. intros c r c' [= <- <-]. split; [apply frame_refl|done]. Qed.

Lemma good_bind {A B} (m : Run ClientState A) (k : A -> Run ClientState B) :
  good m -> (forall a, good (k a)) -> good (m ≫= k).
Proof.
  intros Hm Hk c r c' Hr. apply run_bind_inv in Hr as [(a & c1 & H1 & Hr)|[H1 ->]].
  - apply Hm in H1 as [F1 _]. apply Hk in Hr as [F2 G2]. split; [by eapply frame_trans|done].
  - apply Hm in H1 as [F1 G1]. auto.
Qed.

Lemma good_get : good run_get.
Proof. intros c r c' [= <- <-]. split; [apply frame_refl|done]. Qed.

Lemma good_now : good now.
Proof. intros c r c' [= <- <-]. split; [apply frame_refl|done]. Qed.

Lemma good_peers {A} (m : St ClientState A) :
  (forall c, exists k pc, snd (m c) = set_peers k pc c) -> good (lift m).
Proof.
  intros Hm c r c'. unfold lift. destruct (Hm c) as (k & pc & Hs).
  destruct (m c) as [a c1]. cbn in Hs. subst c1. intros [= <- <-]. by split.
Qed.

Lemma send_mode_frame tag msg b c ok c' :
  send_message_mode tag msg b c = (ok, c') -> frame c c' /\ (ok = false -> gone c').
Proof.
  unfold send_message_mode, gone. destruct (chan_outcome (tx c) b); intros [= <- <-];
    (split; [split; [done|split; [done|]]|]); cbn; try done.
  - intros [H|H]; [by left|right]. apply Exists_app. by left.
  - by left.
  - by left.
  - intros [H|H]; [by left|right]. apply Exists_app. by left.
  - intros _. right. apply Exists_app. right. by constructor.
Qed.

Lemma good_send tag msg b : good (send tag msg b).
Proof.
  intros c r c'. unfold send, lift; run_unfold.
  destruct (send_message_mode tag msg b c) as [ok c1] eqn:Es. apply send_mode_frame in Es as [F G].
  destruct ok; intros [= <- <-]; (split; [exact F|]); [done|intros _; by apply G].
Qed.

Lemma good_peer_up id pi b : good (send_peer_up id pi b).
Proof.
  intros c r c'. unfold send_peer_up, now, lift; run_unfold.
  destruct (send_message_mode _ _ _ c) as [ok c1] eqn:Es. apply send_mode_frame in Es as [F G].
  destruct ok; cbn; intros [= <- <-]; (split; [exact F|]); [done|intros _; by apply G].
Qed.

Create HintDb good.
#[local] Hint Resolve good_ret good_bind good_get good_now good_send good_peer_up : good.
#[local] Hint Extern 1 (good (lift _)) =>
  apply good_peers; intros; eexists _, _; reflexivity : good.

Lemma good_first_sight cfg reg id b : good (first_sight cfg reg id b).
Proof.
  apply good_bind; [auto with good|]. intros []; [|auto with good].
  destruct (get id reg); auto with good.
Qed.

Lemma good_route id pi p b : good (send_route id pi p b).
Proof.
  apply good_bind; [auto with good|]. intros t.
  destruct (build_route_monitoring_from_route _ _ _ _); auto with good.
Qed.

#[local] Hint Resolve good_first_sight good_route : good.

Lemma good_payload cfg reg p b : good (send_payload_to_client cfg reg p b).
Proof.
  apply good_bind; [auto with good|]. intros c.
  destruct (cached_peer_info _ c); [auto with good|].
  apply good_bind; [auto with good|]. intros _.
  apply good_bind; [|auto with good]. destruct (get _ reg); auto with good.
Qed.

Lemma good_stats cfg reg id body b : good (send_peer_stats cfg reg id body b).
Proof.
  apply good_bind; [auto with good|]. intros _. destruct (get id reg); auto with good.
Qed.

Lemma good_down cfg reg id i b : good (send_peer_down cfg reg id i b).
Proof.
  apply good_bind; [auto with good|]. intros c0. destruct (negb _); [auto with good|].
  set (pi := match i with Some _ => _ | None => _ end).
  intros c r c'. unfold now, lift; run_unfold.
  destruct (send_message_mode _ _ _ c) as [ok c1] eqn:Es. apply send_mode_frame in Es as [F G].
  destruct ok; cbn; intros [= <- <-]; (split; [exact F|]); [done|intros _; by apply G].
Qed.

Lemma good_reappeared cfg reg id b : good (send_peer_reappeared cfg reg id b).
Proof.
  unfold send_peer_reappeared. destruct (get id reg); [|auto with good].
  apply good_bind; [auto with good|]. intros []; auto with good.
Qed.

Lemma good_for {A} (xs : list A) body : (forall x, good (body x)) -> good (run_for xs body).
Proof. intros Hb. induction xs as [|x xs IH]; [apply good_ret|]. by apply good_bind. Qed.

#[local] Hint Resolve good_payload good_stats good_down good_reappeared good_for : good.

Lemma good_update cfg reg u b : good (send_update_to_client cfg reg u b).
Proof.
  destruct u; cbn [send_update_to_client]; auto with good.
  apply good_for. intros [id i]. auto with good.
Qed.

(** ** What the handler does not look at

    The phase and the buffer of a client play no role when an update is sent. *)
Definition strip (c : ClientState) : ClientState := set_phase Live (set_buffer [] 0 c).

Definition blind {A} (m : Run ClientState A) : Prop :=
  forall c, m (strip c) = (fst (m c), strip (snd (m c))).

Lemma blind_ret {A} (a : A) : blind (mret a).
Proof. done. Qed.

Lemma blind_bind {A B} (m : Run ClientState A) (k : A -> Run ClientState B) :
  blind m -> (forall a, blind (k a)) -> blind (m ≫= k).
Proof.
  intros Hm Hk c. unfold mbind, run_bind. rewrite Hm. destruct (m c) as [[a|] c1]; cbn; [apply Hk|done].
Qed.

(** A look at the client that sees the same with and without. *)
Lemma blind_get_bind {B} (k : ClientState -> Run ClientState B) :
  (forall c, k (strip c) = k c) -> (forall a, blind (k a)) -> blind (run_get ≫= k).
Proof. intros He Hk c. unfold mbind, run_bind. cbn. rewrite He. apply Hk. Qed.

Lemma blind_now : blind now.
Proof. done. Qed.

Lemma blind_lift {A} (m : St ClientState A) :
  (forall c, m (strip c) = (fst (m c), strip (snd (m c)))) -> blind (lift m).
Proof. intros Hm c. unfold lift. rewrite Hm. by destruct (m c). Qed.

Lemma send_mode_strip tag msg b c :
  send_message_mode tag msg b (strip c)
  = (fst (send_message_mode tag msg b c), strip (snd (send_message_mode tag msg b c))).
Proof. unfold send_message_mode. cbn [strip set_phase set_buffer tx]. by destruct (chan_outcome (tx c) b). Qed.

Lemma blind_sent tag msg b : blind (lift (send_message_mode tag msg b)).
Proof. apply blind_lift. intros c. apply send_mode_strip. Qed.

Lemma blind_fail {A} : blind (A := A) run_fail.
Proof. done. Qed.

Create HintDb blind.
#[local] Hint Resolve blind_ret blind_bind blind_now blind_sent blind_fail : blind.
#[local] Hint Extern 1 (blind (lift _)) => apply blind_lift; intros; reflexivity : blind.

Lemma blind_send tag msg b : blind (send tag msg b).
Proof. apply blind_bind; [auto with blind|]. intros []; auto with blind. Qed.

Lemma blind_peer_up id pi b : blind (send_peer_up id pi b).
Proof.
  apply blind_bind; [auto with blind|]. intros t. apply blind_bind; [auto with blind|].
  intros []; auto with blind.
Qed.

#[local] Hint Resolve blind_send blind_peer_up : blind.

Lemma blind_first_sight cfg reg id b : blind (first_sight cfg reg id b).
Proof.
  apply blind_bind; [auto with blind|]. intros []; [|auto with blind].
  destruct (get id reg); auto with blind.
Qed.

Lemma blind_route id pi p b : blind (send_route id pi p b).
Proof.
  apply blind_bind; [auto with blind|]. intros t.
  destruct (build_route_monitoring_from_route _ _ _ _); auto with blind.
Qed.

#[local] Hint Resolve blind_first_sight blind_route : blind.

Lemma blind_payload cfg reg p b : blind (send_payload_to_client cfg reg p b).
Proof.
  apply blind_get_bind; [done|]. intros c. destruct (cached_peer_info _ c); [auto with blind|].
  apply blind_bind; [auto with blind|]. intros _.
  apply blind_bind; [|auto with blind]. destruct (get _ reg); auto with blind.
Qed.

Lemma blind_stats cfg reg id body b : blind (send_peer_stats cfg reg id body b).
Proof.
  apply blind_bind; [auto with blind|]. intros _. destruct (get id reg); auto with blind.
Qed.

Lemma blind_down cfg reg id i b : blind (send_peer_down cfg reg id i b).
Proof.
  apply blind_get_bind; [done|]. intros c0. destruct (negb _); [auto with blind|].
  cbv zeta. apply blind_bind; [auto with blind|]. intros t.
  apply blind_bind; [auto with blind|]. intros ok.
  apply blind_bind; [auto with blind|]. intros _. destruct ok; auto with blind.
Qed.

Lemma blind_reappeared cfg reg id b : blind (send_peer_reappeared cfg reg id b).
Proof.
  unfold send_peer_reappeared. destruct (get id reg); [|auto with blind].
  apply blind_bind; [auto with blind|]. intros []; auto with blind.
Qed.

Lemma blind_for {A} (xs : list A) body : (forall x, blind (body x)) -> blind (run_for xs body).
Proof. intros Hb. induction xs as [|x xs IH]; [apply blind_ret|]. by apply blind_bind. Qed.

#[local] Hint Resolve blind_payload blind_stats blind_down blind_reappeared blind_for : blind.

Lemma blind_update cfg reg u b : blind (send_update_to_client cfg reg u b).
Proof.
  destruct u; cbn [send_update_to_client]; auto with blind.
  apply blind_for. intros [id i]. auto with blind.
Qed.

(** The handler run on the updates that were handled, one after the other. *)
Definition replay (cfg : OutConfig) (hs : list Handling) : Run ClientState unit :=
  run_for hs (fun h => send_update_to_client cfg (h_reg h) (h_update h) (h_wait h)).

(** One more update, by a client that differs in its phase and buffer only. *)
Lemma replay_snoc cfg hs reg w u c0 c1 c c' :
  replay cfg hs c0 = (Some tt, c1) -> strip c1 = strip c ->
  send_update_to_client cfg reg u w c = (Some tt, c') ->
  exists c2, replay cfg (hs ++ [mk_handling reg w u]) c0 = (Some tt, c2) /\ strip c2 = strip c'.
Proof.
  intros Hr Hs Hc. unfold replay in *. rewrite run_for_app, (run_bind_Some _ _ _ _ _ Hr).
  cbn [run_for h_reg h_update h_wait].
  pose proof (blind_update cfg reg u w c) as H1. pose proof (blind_update cfg reg u w c1) as H2.
  rewrite Hs, H1, Hc in H2. cbn [fst snd] in H2.
  destruct (send_update_to_client cfg reg u w c1) as [r c2] eqn:E2.
  pose proof (f_equal fst H2) as Hf. pose proof (f_equal snd H2) as Hsn. cbn [fst snd] in Hf, Hsn. subst r.
  exists c2. split; [by rewrite (run_bind_Some _ _ _ _ _ E2)|done].
Qed.

Lemma gone_disconnect c : gone (snd (request_disconnect c)).
Proof. by left. Qed.

Lemma gone_ext c c' :
  tx c' = tx c -> disconnect_pending c' = disconnect_pending c -> gone c -> gone c'.
Proof. unfold gone. by intros -> ->. Qed.

End Good.

(** ** The hand-over *)
Section Handover.
Context `{E : Extern} `{L : Layout} `{CH : Channel}
  `{HI : !HashIter Z IngressInfo} `{HA : !HashIter AggKey AggGroup}.
Context (cfg : OutConfig) (sys_name sys_descr : rstring) (walk_clock : Out -> Clock).

Context (sound : Register -> list (Register * (IngressId * Prefix * RotondaPaMap)) -> Prop)
        (admits : Register -> Update -> Prop).

Implicit Types s : DumpState.

(** As long as the client is there, the updates it was offered are those handled
    so far, then the batch being drained, then the buffer; the client is live
    exactly when the task is done, with nothing left over. *)
Definition handover_inv s : Prop :=
  gone (ds_client s)
  \/ (offered s = (h_update <$> handled s) ++ batch_of (ds_task s) ++ dump_buffer (ds_client s)
      /\ (phase (ds_client s) = Live <-> ds_task s = D_Done)
      /\ (ds_task s = D_Done -> dump_buffer (ds_client s) = [])
      /\ ds_task s <> D_Failed).

Lemma drain_all_good reg us c :
  (phase (drain_all cfg reg us c) = phase c /\ dump_buffer (drain_all cfg reg us c) = dump_buffer c
   /\ (gone c -> gone (drain_all cfg reg us c))).
Proof.
  revert c. induction us as [|u us IH]; intros c; [done|]. cbn.
  destruct (send_update_to_client cfg reg u true c) as [[]  c1] eqn:Es;
    apply good_update in Es as [(P & B & G) _].
  - destruct (IH c1) as (P' & B' & G'). split; [congruence|]. split; [congruence|auto].
  - auto.
Qed.

Lemma send_frame tag msg c ok c' :
  send_message tag msg c = (ok, c') -> frame c c' /\ (ok = false -> gone c').
Proof. apply send_mode_frame. Qed.

Lemma fail_gone c g t' c' g' : fail_task c g = (t', (c', g')) -> gone c'.
Proof. intros [= _ <- _]. apply gone_disconnect. Qed.

Lemma abandon_gone c g t' c' g' : abandon c g = (t', (c', g')) -> gone c'.
Proof. intros [= _ <- _]. by left. Qed.

(** Where the task leaves the client's phase and buffer alone, moving between
    states that hold no batch. *)
Lemma handover_frame t t' c c' g g' o h :
  handover_inv (mk_dump t c g o h) -> frame c c' ->
  batch_of t = batch_of t' -> t <> D_Done -> t' <> D_Done -> t' <> D_Failed ->
  handover_inv (mk_dump t' c' g' o h).
Proof.
  intros [Hg|(Ho & Hl & Hd & Hf)] (P & B & G) Hb Ht Ht' Hf'; [left; by apply G|right].
  cbn in *. rewrite B, P, <- Hb. split; [done|]. split; [|done]. tauto.
Qed.

(** A turn of the task keeps the invariant. *)
Lemma task_handover reg records t c g t' c' g' o h :
  handover_inv (mk_dump t c g o h) ->
  task_step cfg sys_name sys_descr walk_clock reg records (t, (c, g)) = (t', (c', g')) ->
  handover_inv (mk_dump t' c' g' o (h ++ (mk_handling reg true <$> handled_by t))).
Proof.
  intros Hi. destruct t as [|[|[id i] todo] peers m|[|[tag msg] msgs] peers m d
    |[|[id|id pi af] acts]|[|u batch]| |]; cbn [task_step handled_by];
    rewrite ?app_nil_r.
  - destruct (send_message _ _ c) as [ok c1] eqn:Es. apply send_frame in Es as [F _].
    destruct ok; [intros [= <- <- <-]|intros Hs; left; by eapply fail_gone].
    by eapply handover_frame.
  - intros [= <- <- <-]. by eapply handover_frame; [|apply frame_refl|..].
  - destruct (send_message _ _ c) as [ok c1] eqn:Es. apply send_frame in Es as [F _].
    destruct ok; [intros [= <- <- <-]|intros Hs; left; by eapply fail_gone].
    by eapply handover_frame.
  - intros [= <- <- <-]. by eapply handover_frame; [|apply frame_refl|..].
  - destruct (send_message _ _ c) as [ok c1] eqn:Es. apply send_frame in Es as [F _].
    destruct ok; [intros [= <- <- <-]|intros Hs; left; by eapply abandon_gone].
    by eapply handover_frame.
  - intros [= <- <- <-]. by eapply handover_frame; [|apply frame_refl|..].
  - intros [= <- <- <-]. by eapply (handover_frame _ _ c); [exact Hi|by repeat split|..].
  - destruct (build_end_of_rib_marker _ _ _).
    + destruct (send_message _ _ c) as [ok c1] eqn:Es. apply send_frame in Es as [F _].
      destruct ok; [intros [= <- <- <-]|intros Hs; left; by eapply fail_gone].
      by eapply handover_frame.
    + intros [= <- <- <-]. by eapply handover_frame; [|apply frame_refl|..].
  - destruct Hi as [Hg|(Ho & Hl & Hd & Hf)]; cbn in *.
    + destruct (dump_buffer c); intros [= <- <- <-]; left; by eapply gone_ext; [..|exact Hg].
    + destruct (dump_buffer c) as [|u us] eqn:Eb; intros [= <- <- <-]; right; cbn.
      * rewrite app_nil_r in Ho. by rewrite Ho, app_nil_r.
      * split; [by rewrite app_nil_r|]. split; [|done].
        split; [intros Hp; by apply Hl in Hp|done].
  - destruct (send_update_to_client cfg reg u true c) as [r c1] eqn:Es.
    apply good_update in Es as [(P & B & G) _].
    destruct r; [intros [= <- <- <-]|intros Hs; left; by eapply fail_gone].
    destruct Hi as [Hg|(Ho & Hl & Hd & Hf)]; [left; by apply G|right]. cbn in *.
    rewrite P, B, Ho, fmap_app, <- app_assoc. split; [done|]. split; [|done].
    split; [intros Hp; by apply Hl in Hp|done].
  - by intros [= <- <- <-].
  - by intros [= <- <- <-].
Qed.

Lemma update_handover reg u t c g r c' g' o h :
  handover_inv (mk_dump t c g o h) ->
  direct_update_client cfg reg u (c, g) = (r, (c', g')) ->
  handover_inv (mk_dump t c' g' (o ++ [u])
                  (if bool_decide (phase c = Live) then h ++ [mk_handling reg false u] else h)).
Proof.
  intros Hi. unfold direct_update_client.
  destruct (disconnect_pending c) eqn:Ep.
  { intros [= _ <- <-]. left. by left. }
  unfold buffer_update_if_dumping. destruct (phase c) eqn:Eph.
  - rewrite bool_decide_true by done. cbn [negb]. rewrite bool_decide_false by done.
    case_bool; [intros [= _ <- <-]; left; apply gone_disconnect|].
    case_bool; [intros [= _ <- <-]; left; apply gone_disconnect|].
    intros [= _ <- <-]. destruct Hi as [Hg|(Ho & Hl & Hd & Hf)].
    + left. by eapply gone_ext; [..|exact Hg].
    + right. cbn in *. rewrite Ho, <- !app_assoc. split; [done|]. split; [exact Hl|].
      split; [|done]. intros Ht. apply Hl in Ht. congruence.
  - rewrite bool_decide_false by done. cbn [negb]. rewrite bool_decide_true by done.
    destruct (send_update_to_client cfg reg u false c) as [r1 c1] eqn:Es.
    apply good_update in Es as [(P & B & G) _]. intros [= _ <- <-].
    destruct Hi as [Hg|(Ho & Hl & Hd & Hf)]; [left; by apply G|right]. cbn in *.
    rewrite Eph in *. pose proof (proj1 Hl eq_refl) as ->. cbn in *.
    rewrite P, B, Ho, Hd by done. cbn. by rewrite fmap_app, !app_nil_r.
Qed.

Lemma norib_handover reg c g t' c' g' o h :
  handover_inv (mk_dump D_Init c g o h) ->
  norib_step cfg sys_name sys_descr reg (c, g) = (t', (c', g')) ->
  handover_inv (mk_dump t' c' g' o (h ++ (mk_handling reg true <$> dump_buffer c))).
Proof.
  intros Hi. unfold norib_step. destruct (send_message _ _ c) as [ok c1] eqn:Es.
  apply send_frame in Es as [(P & B & G) _]. cbn. intros [= <- <- <-].
  destruct (drain_all_good reg (dump_buffer c1) (set_buffer [] 0 c1)) as (P' & B' & G').
  destruct Hi as [Hg|(Ho & Hl & Hd & Hf)].
  - left. apply (gone_ext (drain_all cfg reg (dump_buffer c1) (set_buffer [] 0 c1)));
      [done..|]. apply G'. apply (gone_ext c1); [done..|by apply G].
  - right. cbn in *. rewrite B'. cbn. rewrite Ho, fmap_app, app_nil_r, <- list_fmap_compose.
    by rewrite (list_fmap_id (dump_buffer c) : (h_update ∘ mk_handling reg true) <$> _ = _).
Qed.

Abbreviation step := (dump_step cfg sys_name sys_descr walk_clock sound admits).
Abbreviation reachable := (dump_reachable cfg sys_name sys_descr walk_clock sound admits).

Lemma reachable_handover e b s : reachable e b s -> handover_inv s.
Proof.
  induction 1 as [g|s s' _ IH Hs].
  - right. cbn. by repeat split.
  - destruct Hs as [reg records t c g o h t' c' g' _ _ Hs|msgs peers m d c g o h t' c' g' _ Hs
      |reg c g o h t' c' g' _ Hs|reg u t c g o h r c' g' _ Hs].
    + by eapply task_handover.
    + left. by eapply abandon_gone.
    + by eapply norib_handover.
    + by eapply update_handover.
Qed.

(** A client that is gone stays gone. *)
Lemma task_gone reg records t c g t' c' g' :
  task_step cfg sys_name sys_descr walk_clock reg records (t, (c, g)) = (t', (c', g')) ->
  gone c -> gone c'.
Proof.
  intros Hs Hg. revert Hs. destruct t as [|[|[id i] todo] peers m|[|[tag msg] msgs] peers m d
    |[|[id|id pi af] acts]|[|u batch]| |]; cbn [task_step].
  1, 3, 5: destruct (send_message _ _ c) as [ok c1] eqn:Es; apply send_frame in Es as [(_ & _ & G) _];
    destruct ok; intros [= <- <- <-]; [by apply G|by left].
  1, 2, 3, 4, 8, 9: by intros [= <- <- <-].
  - destruct (build_end_of_rib_marker _ _ _); [|by intros [= <- <- <-]].
    destruct (send_message _ _ c) as [ok c1] eqn:Es. apply send_frame in Es as [(_ & _ & G) _].
    destruct ok; intros [= <- <- <-]; [by apply G|by left].
  - cbn. destruct (dump_buffer c); intros [= <- <- <-]; by eapply gone_ext; [..|exact Hg].
  - destruct (send_update_to_client cfg reg u true c) as [r c1] eqn:Es.
    apply good_update in Es as [(_ & _ & G) _].
    destruct r; intros [= <- <- <-]; [by apply G|by left].
Qed.

Lemma update_gone reg u c g r c' g' :
  direct_update_client cfg reg u (c, g) = (r, (c', g')) -> gone c -> gone c'.
Proof.
  intros Hs Hg. revert Hs. unfold direct_update_client.
  destruct (disconnect_pending c); [by intros [= _ <- <-]|].
  unfold buffer_update_if_dumping. destruct (negb _).
  - destruct (send_update_to_client cfg reg u false c) as [r1 c1] eqn:Es.
    apply good_update in Es as [(_ & _ & G) _]. intros [= _ <- _]. by apply G.
  - repeat case_bool; intros [= _ <- <-]; try apply gone_disconnect. by eapply gone_ext; [..|exact Hg].
Qed.

Lemma drain_all_replay reg us c :
  ~ gone (drain_all cfg reg us c) ->
  replay cfg (mk_handling reg true <$> us) c = (Some tt, drain_all cfg reg us c).
Proof.
  revert c. induction us as [|u us IH]; intros c Hg; [done|]. rewrite fmap_cons.
  unfold replay in *. cbn [run_for drain_all h_reg h_update h_wait] in *.
  destruct (send_update_to_client cfg reg u true c) as [[[]|] c1] eqn:Es.
  - rewrite (run_bind_Some _ _ _ _ _ Es). by apply IH.
  - apply good_update in Es as [_ G]. exfalso. by apply Hg, G.
Qed.

Lemma step_gone s s' : step s s' -> gone (ds_client s) -> gone (ds_client s').
Proof.
  destruct 1 as [reg records t c g o h t' c' g' _ _ Hs|msgs peers m d c g o h t' c' g' _ Hs
    |reg c g o h t' c' g' _ Hs|reg u t c g o h r c' g' _ Hs]; cbn [ds_client]; intros Hg.
  - by eapply task_gone.
  - by eapply abandon_gone.
  - revert Hs. unfold norib_step. destruct (send_message _ _ c) as [ok c1] eqn:Es.
    apply send_frame in Es as [(_ & _ & G) _]. cbn. intros [= <- <- <-].
    destruct (drain_all_good reg (dump_buffer c1) (set_buffer [] 0 c1)) as (_ & _ & G').
    apply (gone_ext (drain_all cfg reg (dump_buffer c1) (set_buffer [] 0 c1))); [done..|].
    apply G'. apply (gone_ext c1); [done..|by apply G].
  - by eapply update_gone.
Qed.

Lemma decide_gone c : gone c \/ ~ gone c.
Proof.
  unfold gone. destruct (disconnect_pending c); [by left; left|].
  destruct (decide (Exists (fun m => s_outcome m = SClosed) (tx c))) as [H|H]; [by left; right|].
  right. by intros [?|?].
Qed.

(** Where the sending of updates starts: the drain after the End-of-RIB markers, or, with no
    RIB, right after the Initiation. *)
Definition starts s (c0 : ClientState) : Prop :=
  handled s = []
  /\ (ds_task s = D_Drain [] /\ c0 = ds_client s
      \/ ds_task s = D_Init
         /\ c0 = snd (send_message T_Initiation (build_initiation_message sys_name sys_descr) (ds_client s))).

(** Since a state of this run from where the sending started, the client has got just what
    the handler sends for the updates that were handled. *)
Definition replayed e b s : Prop :=
  exists s0 c0 c', reachable e b s0 /\ rtc step s0 s /\ starts s0 c0
    /\ replay cfg (handled s) c0 = (Some tt, c') /\ strip c' = strip (ds_client s).

(** The task has not come to the updates yet. *)
Definition before_updates (t : Task) : Prop :=
  match t with D_Init | D_PeerUps _ _ _ | D_Forward _ _ _ _ | D_Eor _ => True | _ => False end.

Definition sent_inv e b s : Prop :=
  gone (ds_client s)
  \/ before_updates (ds_task s) /\ handled s = []
  \/ ~ before_updates (ds_task s) /\ replayed e b s.

(** The handling of one more update, and steps without one. *)
Lemma replayed_update e b s s' reg w u :
  replayed e b s -> step s s' -> handled s' = handled s ++ [mk_handling reg w u] ->
  send_update_to_client cfg reg u w (ds_client s) = (Some tt, ds_client s') ->
  replayed e b s'.
Proof.
  intros (s0 & c0 & c1 & Hr0 & Hrt & Hst & Hrep & Hstr) Hs Hh Hu.
  destruct (replay_snoc cfg _ reg w u _ _ _ _ Hrep Hstr Hu) as (c2 & H1 & H2).
  exists s0, c0, c2. rewrite Hh. split; [done|]. split; [by eapply rtc_r|done].
Qed.

Lemma replayed_quiet e b s s' :
  replayed e b s -> step s s' -> handled s' = handled s ->
  strip (ds_client s') = strip (ds_client s) -> replayed e b s'.
Proof.
  intros (s0 & c0 & c1 & Hr0 & Hrt & Hst & Hrep & Hstr) Hs Hh Hc.
  exists s0, c0, c1. rewrite Hh, Hc. split; [done|]. split; [by eapply rtc_r|done].
Qed.

(** A turn of the task. *)
Lemma task_sent e b s s' reg records :
  reachable e b s -> step s s' -> ~ gone (ds_client s') ->
  before_updates (ds_task s) /\ handled s = [] \/ ~ before_updates (ds_task s) /\ replayed e b s ->
  task_step cfg sys_name sys_descr walk_clock reg records (ds_task s, (ds_client s, ds_mem s))
  = (ds_task s', (ds_client s', ds_mem s')) ->
  handled s' = handled s ++ (mk_handling reg true <$> handled_by (ds_task s)) ->
  sent_inv e b s'.
Proof.
  intros Hr Hstep Hg Hi Hs Hh. right. destruct s as [t c g o h], s' as [t' c' g' o' h'].
  cbn [ds_task ds_client ds_mem handled offered] in *.
  assert (reachable e b (mk_dump t' c' g' o' h')) as Hr' by (by eapply dr_step).
  destruct t as [|[|[id i] todo] peers m|[|[tag msg] msgs] peers m d
    |[|[id|id pi af] acts]|[|u batch]| |]; cbn [task_step handled_by fmap list_fmap before_updates] in *;
    rewrite ?app_nil_r in Hh.
  1-8: destruct Hi as [[_ ->]|[[] _]]; [|done].
  1, 3, 5: destruct (send_message _ _ c) as [ok c1]; destruct ok; injection Hs as <- <- <-;
    [by left|exfalso; apply Hg; by left].
  1, 2, 4: injection Hs as <- <- <-; by left.
  - injection Hs as <- <- <-. right. split; [tauto|].
    eexists _, c, c. split; [exact Hr'|]. split; [done|]. rewrite Hh. split; [|done]. split; [done|by left].
  - destruct (build_end_of_rib_marker _ _ _); [|injection Hs as <- <- <-; by left].
    destruct (send_message _ _ c) as [ok c1]; destruct ok; injection Hs as <- <- <-;
      [by left|exfalso; apply Hg; by left].
  - destruct Hi as [[[] _]|[_ Hi]]. cbn in Hs. right.
    destruct (dump_buffer c); injection Hs as <- <- <-; (split; [tauto|]);
      by eapply replayed_quiet.
  - destruct Hi as [[[] _]|[_ Hi]]. right.
    destruct (send_update_to_client cfg reg u true c) as [[[]|] c1] eqn:Es; injection Hs as <- <- <-.
    + split; [tauto|]. by eapply replayed_update.
    + exfalso. apply Hg. by left.
  - destruct Hi as [[[] _]|[_ Hi]]. injection Hs as <- <- <-. right. split; [tauto|].
    by eapply replayed_quiet.
  - destruct Hi as [[[] _]|[_ Hi]]. injection Hs as <- <- <-. right. split; [tauto|].
    by eapply replayed_quiet.
Qed.

(** A call of [direct_update]. *)
Lemma update_sent e b t c g o h reg u r c' g' :
  let s := mk_dump t c g o h in
  let s' := mk_dump t c' g' (o ++ [u])
              (if bool_decide (phase c = Live) then h ++ [mk_handling reg false u] else h) in
  handover_inv s -> step s s' -> ~ gone c -> ~ gone c' ->
  before_updates t /\ h = [] \/ ~ before_updates t /\ replayed e b s ->
  direct_update_client cfg reg u (c, g) = (r, (c', g')) -> sent_inv e b s'.
Proof.
  intros s s' Hho Hstep Hg Hg' Hi. unfold direct_update_client.
  destruct (disconnect_pending c) eqn:Ep; [exfalso; apply Hg; by left|].
  unfold buffer_update_if_dumping, s' in *. destruct (phase c) eqn:Eph.
  - rewrite bool_decide_true by done. cbn [negb]. rewrite bool_decide_false in * by done.
    intros Hs. assert (strip c' = strip c) as Hc.
    { revert Hs. do 2 (case_bool; [intros [= _ <- <-]; exfalso; apply Hg', gone_disconnect|]).
      by intros [= _ <- <-]. }
    right. destruct Hi as [[Hb ->]|[Hb Hi]]; [by left|right]. split; [done|]. by eapply replayed_quiet.
  - rewrite bool_decide_false by done. cbn [negb]. rewrite bool_decide_true in * by done.
    destruct (send_update_to_client cfg reg u false c) as [r1 c1] eqn:Es. cbn [snd]. intros [= _ <- <-].
    destruct Hho as [?|(_ & Hl & _)]; [done|]. apply Hl in Eph as Ht. cbn in Ht. subst t.
    right. right. split; [tauto|]. destruct Hi as [[[] _]|[_ Hi]].
    destruct r1 as [[]|]; [|exfalso; by apply good_update in Es as [_ G]; apply Hg', G].
    by eapply replayed_update.
Qed.

(** Without a RIB. *)
Lemma norib_sent e b c g o h reg t' c' g' :
  let s := mk_dump D_Init c g o h in
  let s' := mk_dump t' c' g' o (h ++ (mk_handling reg true <$> dump_buffer c)) in
  reachable e b s -> step s s' -> ~ gone c' ->
  before_updates D_Init /\ h = [] \/ ~ before_updates D_Init /\ replayed e b s ->
  norib_step cfg sys_name sys_descr reg (c, g) = (t', (c', g')) -> sent_inv e b s'.
Proof.
  intros s s' Hr Hstep Hg Hi Hs. destruct Hi as [[_ ->]|[[] _]]; [|done].
  revert Hs. unfold norib_step. destruct (send_message _ _ c) as [ok c1] eqn:Es.
  pose proof Es as [(_ & B & _) _]%send_frame. cbn. intros [= <- <- <-]. right. right. split; [tauto|].
  assert (~ gone (drain_all cfg reg (dump_buffer c1) (set_buffer [] 0 c1))) as Hd.
  { intros Hd. apply Hg. by eapply gone_ext; [..|exact Hd]. }
  apply drain_all_replay in Hd.
  assert (Hb : blind (replay cfg (mk_handling reg true <$> dump_buffer c1)))
    by (apply blind_for; intros x; apply blind_update).
  pose proof (Hb c1) as H1. pose proof (Hb (set_buffer [] 0 c1)) as H2.
  rewrite Hd in H2. change (strip (set_buffer [] 0 c1)) with (strip c1) in H2. rewrite H1 in H2.
  destruct (replay cfg (mk_handling reg true <$> dump_buffer c1) c1) as [r c2] eqn:Er.
  pose proof (f_equal fst H2) as Hf. pose proof (f_equal snd H2) as Hsn. cbn [fst snd] in Hf, Hsn. subst r.
  exists s, c1, c2. split; [done|]. split; [by apply rtc_once|]. split.
  - split; [done|]. right. split; [done|]. cbn [ds_client s]. by rewrite Es.
  - cbn [handled ds_client s' app]. rewrite <- B. by split.
Qed.

Lemma reachable_sent e b s : reachable e b s -> sent_inv e b s.
Proof.
  induction 1 as [g|s s' Hr IH Hs].
  - right. left. done.
  - pose proof (reachable_handover _ _ _ Hr) as Hho.
    destruct (decide_gone (ds_client s')) as [Hg'|Hg']; [by left|].
    assert (Hg : ~ gone (ds_client s)) by (intros Hg; by apply Hg', (step_gone _ _ Hs)).
    destruct IH as [?|Hi]; [done|]. pose proof Hs as Hstep.
    destruct Hs as [reg records t c g o h t' c' g' _ _ Hs|msgs peers m d c g o h t' c' g' _ Hs
      |reg c g o h t' c' g' _ Hs|reg u t c g o h r c' g' _ Hs].
    + by eapply (task_sent _ _ (mk_dump t c g o h)).
    + exfalso. apply Hg'. by eapply abandon_gone.
    + by eapply norib_sent.
    + by eapply update_sent.
Qed.

End Handover.

(** ** The order of what the client is told, from the first message on *)
Section DumpSession.
Context `{E : Extern} `{L : Layout} `{CH : Channel}
  `{HI : !HashIter Z IngressInfo} `{HA : !HashIter AggKey AggGroup}.
Context (cfg : OutConfig) (sys_name sys_descr : rstring) (walk_clock : Out -> Clock).

Definition reg_ok (reg : Register) : Prop := map_Forall (fun _ i => info_ok i) (info reg).

(** What the steps of a session may assume: well-formed register entries and records, and
    that the peers of an update are registered when it is handled. *)
Definition sound_input (reg : Register) (records : list (Register * (IngressId * Prefix * RotondaPaMap))) : Prop :=
  reg_ok reg /\ Forall record_ok records.

Definition knows (acts : list EorAct) : gset IngressId :=
  list_to_set (omap (fun a => match a with A_Know id => Some id | _ => None end) acts).

Definition marks (acts : list EorAct) : gset IngressId :=
  list_to_set (omap (fun a => match a with A_Eor id _ _ => Some id | _ => None end) acts).

(** What holds between the client's view and the task. *)
Definition task_session (t : Task) (c : ClientState) : Prop :=
  match t with
  | D_Init => believes c = Some ∅ /\ known_peers c = ∅ /\ peer_info_cache c = ∅
  | D_PeerUps todo peers m =>
      peer_info_cache c = ∅ /\ known_peers c = dom m /\ believes c = Some (dom m)
      /\ NoDup todo.*1 /\ (forall id, id ∈ todo.*1 -> id ∉ dom m)
      /\ Forall (fun e => info_ok (snd e)) todo
      /\ map_Forall (fun _ pi => peer_ok pi) m
  | D_Forward msgs peers m d =>
      peer_info_cache c = ∅ /\ known_peers c = dom m
      /\ exists up, believes c = Some up
           /\ session_run up msgs.*1 = Some (dom m ∪ list_to_set d.*1)
  | D_Eor acts =>
      peer_info_cache c = ∅
      /\ exists up, believes c = Some up /\ known_peers c ∪ knows acts = up /\ marks acts ⊆ up
  | D_Drain _ => in_sync c
  | D_Done => session_inv c
  | D_Failed => disconnect_pending c = true
  end.

Definition dump_session (s : DumpState) : Prop :=
  (ds_task s <> D_Done -> phase (ds_client s) = Dumping)
  /\ is_Some (believes (ds_client s))
  /\ (closed (ds_client s) \/ task_session (ds_task s) (ds_client s)).

(** A blocking send: in order, or the receiver is gone. *)
Lemma send_blocking tag msg c up up' ok c' :
  believes c = Some up -> session_step up tag = Some up' ->
  send_message tag msg c = (ok, c') ->
  phase c' = phase c /\ known_peers c' = known_peers c /\ peer_info_cache c' = peer_info_cache c
  /\ (if ok : bool then believes c' = Some up' else closed c' /\ believes c' = Some up).
Proof.
  intros Hb Hs Hm. pose proof Hm as [(P & _ & _) _]%send_frame.
  pose proof (send_mode_spec _ _ _ _ _ _ _ _ Hb Hs Hm) as (Hk & Hc & Ho).
  split; [done|]. split; [done|]. split; [done|]. destruct ok; [done|].
  split; [|apply Ho]. revert Hm. unfold send_message, send_message_mode.
  pose proof (chan_blocking (tx c)). destruct (chan_outcome (tx c) true); [done..|].
  intros [= <-]. apply Exists_app. right. by constructor.
Qed.

(** Once closed, a send changes nothing for the client. *)
Lemma send_closed tag msg b c ok c' :
  closed c -> send_message_mode tag msg b c = (ok, c') ->
  ok = false /\ closed c' /\ believes c' = believes c /\ phase c' = phase c.
Proof.
  intros Hc. unfold send_message_mode. rewrite (chan_closed _ b Hc). intros [= <- <-].
  split; [done|]. split; [apply Exists_app; by left|]. split; [|done].
  unfold believes. cbn. rewrite accepted_app. by rewrite app_nil_r.
Qed.

Lemma closed_ext c c' : tx c' = tx c -> closed c -> closed c' /\ believes c' = believes c.
Proof. unfold closed, believes. by intros ->. Qed.

Lemma update_closed reg u b c r c' :
  closed c -> send_update_to_client cfg reg u b c = (r, c') ->
  closed c' /\ believes c' = believes c /\ phase c' = phase c.
Proof.
  intros Hc Hs. pose proof Hs as [(P & _ & _) _]%good_update.
  destruct (silent_update cfg reg u b c Hc) as [H1 H2]. rewrite Hs in H1, H2. cbn in *.
  split; [done|]. split; [|done]. unfold believes. by rewrite H2.
Qed.

Lemma drain_all_session reg us c :
  in_sync c -> Forall (registered reg) us ->
  let c' := drain_all cfg reg us c in in_sync c' \/ lost c'.
Proof.
  intros Hi Hr. cbv zeta. revert c Hi. induction Hr as [|u us Hu _ IH]; intros c Hi; [by left|].
  cbn. destruct (send_update_to_client cfg reg u true c) as [[v|] c1] eqn:Es;
    apply update_in_sync in Es; try done; [by apply IH|by right].
Qed.

Lemma drain_all_closed reg us c :
  closed c -> closed (drain_all cfg reg us c)
              /\ believes (drain_all cfg reg us c) = believes c.
Proof.
  revert c. induction us as [|u us IH]; intros c Hc; [done|]. cbn.
  destruct (send_update_to_client cfg reg u true c) as [[v|] c1] eqn:Es;
    apply update_closed in Es as (H1 & H2 & _); try done.
  destruct (IH _ H1) as [H3 H4]. split; [done|congruence].
Qed.

Lemma eor_acts_sets peers m d :
  knows (eor_acts peers m d) = list_to_set d.*1
  /\ marks (eor_acts peers m d) ⊆ dom m ∪ list_to_set d.*1.
Proof.
  unfold eor_acts, knows, marks. rewrite !omap_app.
  assert (omap (fun a => match a with A_Know id => Some id | _ => None end)
    (peers ≫= fun e => match m !! fst e with Some pi => both_families (fst e) pi | None => [] end)
    = @nil IngressId) as ->.
  { induction peers as [|e peers IH]; [done|]. rewrite bind_cons, omap_app, IH.
    by destruct (m !! fst e). }
  split.
  - rewrite app_nil_l. f_equal. induction d as [|[id pi] d IH]; [done|].
    rewrite bind_cons, omap_app, IH. done.
  - intros id. rewrite elem_of_list_to_set, elem_of_app, !list_elem_of_omap.
    intros [(a & Ha & Hid)|(a & Ha & Hid)]; destruct a as [|id' pi t]; try done;
      injection Hid as ->; apply list_elem_of_bind in Ha as (e & Ha & He).
    + destruct (m !! fst e) as [pi'|] eqn:Em; [|by apply not_elem_of_nil in Ha].
      apply elem_of_union_l, elem_of_dom. exists pi'.
      unfold both_families in Ha. set_solver.
    + apply elem_of_union_r, elem_of_list_to_set, list_elem_of_fmap. exists e.
      split; [|done]. unfold both_families in Ha. set_solver.
Qed.

(** A turn of the task when the receiver is gone. *)
Lemma task_closed reg records t c g t' c' g' :
  closed c ->
  task_step cfg sys_name sys_descr walk_clock reg records (t, (c, g)) = (t', (c', g')) ->
  closed c' /\ believes c' = believes c /\ (phase c = Dumping -> t' <> D_Done -> phase c' = Dumping).
Proof.
  intros Hc. destruct t as [|[|[id i] todo] peers m|[|[tag msg] msgs] peers m d
    |[|[id|id pi af] acts]|[|u batch]| |]; cbn [task_step].
  1, 3, 5: destruct (send_message _ _ c) as [ok c1] eqn:Es;
    apply send_closed in Es as (-> & Hc1 & Hb1 & Hp1); [|done];
    intros [= <- <- <-]; cbn; split; [exact Hc1|]; split; [exact Hb1|congruence].
  1, 2, 3, 4, 8, 9: intros [= <- <- <-]; done.
  - destruct (build_end_of_rib_marker _ _ _); [|by intros [= <- <- <-]].
    destruct (send_message _ _ c) as [ok c1] eqn:Es.
    apply send_closed in Es as (-> & Hc1 & Hb1 & Hp1); [|done].
    intros [= <- <- <-]. cbn. split; [exact Hc1|]. split; [exact Hb1|congruence].
  - cbn. destruct (dump_buffer c); intros [= <- <- <-]; done.
  - destruct (send_update_to_client cfg reg u true c) as [r c1] eqn:Es.
    apply update_closed in Es as (Hc1 & Hb1 & Hp1); [|done].
    destruct r; intros [= <- <- <-]; cbn; (split; [exact Hc1|]); (split; [exact Hb1|congruence]).
Qed.

(** The walk's messages, as the task forwards them. *)
Lemma walk_forward m records :
  map_Forall (fun _ pi => peer_ok pi) m -> Forall record_ok records ->
  let w := snd (walk_thread (SK := walk_sink walk_clock) cfg m records) in
  session_run (dom m) (zip (wk_tags w) (snd (wk_world w)).*1).*1
  = Some (dom m ∪ list_to_set (wk_discovered w).*1).
Proof.
  intros Hm Hr. cbv zeta.
  pose proof (walk_thread_spec (SK := walk_sink walk_clock) cfg m records Hm Hr) as Hw.
  destruct (walk_thread (SK := walk_sink walk_clock) cfg m records) as [r w]. cbn [snd].
  destruct (wk_world w) as [a out]. destruct r; [|done].
  destruct Hw as (_ & _ & Hd & _ & Hs & Hl). cbn [snd].
  rewrite fst_zip by (rewrite length_fmap; lia). by rewrite Hs, Hd.
Qed.

(** One step of the task, of a client that still listens. *)
Definition task_keeps (reg : Register) (records : list _) (t : Task) : Prop :=
  forall c g t' c' g' o h',
    phase c = Dumping -> task_session t c ->
    task_step cfg sys_name sys_descr walk_clock reg records (t, (c, g)) = (t', (c', g')) ->
    dump_session (mk_dump t' c' g' o h').

(** The Initiation message. *)
Lemma init_keeps reg records  :
  reg_ok reg -> task_keeps reg records (D_Init).
Proof.
  intros Hreg c g t' c' g' o h' Hph Ht Hs. unfold dump_session.
  cbn [ds_task ds_client task_step task_session] in *.
  destruct Ht as (Hb & Hk & Hca).
  destruct (send_message _ _ c) as [ok c1] eqn:Es.
  eapply send_blocking in Es as (P & K & C & O); [|exact Hb|done].
  destruct ok; injection Hs as <- <- <-; cbn.
  - split; [by rewrite P|]. split; [rewrite O; by eexists|]. right.
    rewrite C, K, Hca, Hk, O, dom_empty_L.
    split; [done|]. split; [done|]. split; [done|]. split; [apply dump_peers_NoDup|].
    split; [set_solver|]. split; [|apply map_Forall_empty].
    apply Forall_forall. intros [id i] [Hi _]%elem_of_dump_peers. by apply (Hreg id).
  - split; [by rewrite P|]. split; [|by right]. unfold believes in *. cbn.
    rewrite (proj2 O). by eexists.
Qed.

(** The walk of the table. *)
Lemma walk_keeps reg records peers m :
  Forall record_ok records -> reg_ok reg -> task_keeps reg records (D_PeerUps [] peers m).
Proof.
  intros Hrec Hreg c g t' c' g' o h' Hph Ht Hs. unfold dump_session.
  cbn [ds_task ds_client task_step task_session] in *.
  injection Hs as <- <- <-. destruct Ht as (Hca & Hk & Hb & _ & _ & _ & Hm).
  split; [done|]. split; [rewrite Hb; by eexists|]. right. split; [done|]. split; [done|].
  exists (dom m). split; [done|]. by apply walk_forward.
Qed.

(** The Peer Up of a peer that is known before the walk. *)
Lemma peer_up_keeps reg records id i todo peers m :
  task_keeps reg records (D_PeerUps ((id, i) :: todo) peers m).
Proof.
  intros c g t' c' g' o h' Hph Ht Hs. unfold dump_session.
  cbn [ds_task ds_client task_step task_session] in *.
  destruct Ht as (Hca & Hk & Hb & Hnd & Hfresh & Hio & Hm).
  rewrite fmap_cons, NoDup_cons in Hnd. destruct Hnd as [Hnid Hnd].
  apply Forall_cons in Hio as [Hi Hio]. cbn in Hi.
  assert (id ∉ dom m) as Hid by (apply Hfresh; set_solver).
  destruct (send_message _ _ c) as [ok c1] eqn:Es.
  eapply send_blocking in Es as (P & K & C & O); [|exact Hb|
    cbn; rewrite bool_decide_false by done; reflexivity].
  destruct ok; injection Hs as <- <- <-; cbn.
  - split; [by rewrite P|]. split; [unfold believes in *; cbn; rewrite O; by eexists|]. right.
    rewrite C, K, Hca, Hk, dom_insert_L. split; [done|]. split; [done|].
    split; [exact O|]. split; [done|]. split; [|split; [done|]].
    + intros id' Hid'. rewrite not_elem_of_union, not_elem_of_singleton.
      split; [intros ->; by apply Hnid|]. apply Hfresh. set_solver.
    + apply map_Forall_insert_2; [by apply build_peer_info_ok|done].
  - split; [by rewrite P|]. split; [|by right]. unfold believes in *. cbn.
    rewrite (proj2 O). by eexists.
Qed.

Lemma walked_keeps reg records peers m d :
  task_keeps reg records (D_Forward [] peers m d).
Proof.
  intros c g t' c' g' o h' Hph Ht Hs. unfold dump_session.
  cbn [ds_task ds_client task_step task_session] in *.
  injection Hs as <- <- <-. destruct Ht as (Hca & Hk & up & Hb & Hr).
  cbn in Hr. injection Hr as ->. destruct (eor_acts_sets peers m d) as [H1 H2].
  split; [done|]. split; [rewrite Hb; by eexists|]. right. split; [done|].
  eexists. split; [exact Hb|]. rewrite Hk, H1. done.
Qed.

(** A message of the walk. *)
Lemma forward_keeps reg records tag msg msgs peers m d :
  task_keeps reg records (D_Forward ((tag, msg) :: msgs) peers m d).
Proof.
  intros c g t' c' g' o h' Hph Ht Hs. unfold dump_session.
  cbn [ds_task ds_client task_step task_session] in *.
  destruct Ht as (Hca & Hk & up & Hb & Hr).
  rewrite fmap_cons in Hr. cbn in Hr.
  destruct (session_step up tag) as [up'|] eqn:Est; [|done]. cbn in Hr.
  destruct (send_message _ _ c) as [ok c1] eqn:Es.
  eapply send_blocking in Es as (P & K & C & O); [|exact Hb|exact Est].
  destruct ok; injection Hs as <- <- <-; cbn.
  - split; [by rewrite P|]. split; [rewrite O; by eexists|]. right.
    rewrite C, K. split; [done|]. split; [done|]. by exists up'.
  - split; [by rewrite P|]. split; [|by right]. unfold believes in *. cbn.
    rewrite (proj2 O). by eexists.
Qed.

Lemma eors_done_keeps reg records  :
  task_keeps reg records (D_Eor []).
Proof.
  intros c g t' c' g' o h' Hph Ht Hs. unfold dump_session.
  cbn [ds_task ds_client task_step task_session] in *.
  injection Hs as <- <- <-. destruct Ht as (Hca & up & Hb & Hk & _).
  split; [done|]. split; [rewrite Hb; by eexists|]. right. split.
  - rewrite Hb. f_equal. rewrite <- Hk. unfold knows. cbn. set_solver.
  - rewrite Hca, dom_empty_L. set_solver.
Qed.

Lemma know_keeps reg records id acts :
  task_keeps reg records (D_Eor (A_Know id :: acts)).
Proof.
  intros c g t' c' g' o h' Hph Ht Hs. unfold dump_session.
  cbn [ds_task ds_client task_step task_session] in *.
  injection Hs as <- <- <-. destruct Ht as (Hca & up & Hb & Hk & Hm).
  split; [done|]. split; [unfold believes in *; cbn; rewrite Hb; by eexists|]. right.
  split; [done|]. exists up. split; [done|]. split; [|done]. cbn. rewrite <- Hk.
  unfold knows. cbn. set_solver.
Qed.

(** An End-of-RIB marker. *)
Lemma eor_keeps reg records id pi af acts :
  task_keeps reg records (D_Eor (A_Eor id pi af :: acts)).
Proof.
  intros c g t' c' g' o h' Hph Ht Hs. unfold dump_session.
  cbn [ds_task ds_client task_step task_session] in *.
  destruct Ht as (Hca & up & Hb & Hk & Hm).
  assert (id ∈ up /\ marks acts ⊆ up) as [Hid Hm'].
  { unfold marks in *. cbn in Hm. set_solver. }
  assert (knows acts = knows (A_Eor id pi af :: acts)) as Hkn by done.
  destruct (build_end_of_rib_marker _ _ _).
  2: { injection Hs as <- <- <-. split; [done|]. split; [rewrite Hb; by eexists|]. right.
       split; [done|]. exists up. by rewrite Hkn. }
  destruct (send_message _ _ c) as [ok c1] eqn:Es.
  eapply send_blocking in Es as (P & K & C & O); [|exact Hb|
    cbn; rewrite bool_decide_true by done; reflexivity].
  destruct ok; injection Hs as <- <- <-; cbn.
  - split; [by rewrite P|]. split; [rewrite O; by eexists|]. right.
    rewrite C, K. split; [done|]. exists up. by rewrite Hkn.
  - split; [by rewrite P|]. split; [|by right]. unfold believes in *. cbn.
    rewrite (proj2 O). by eexists.
Qed.

Lemma drained_keeps reg records  :
  task_keeps reg records (D_Drain []).
Proof.
  intros c g t' c' g' o h' Hph Ht Hs. unfold dump_session.
  cbn [ds_task ds_client task_step task_session] in *.
  cbn in Hs.
  destruct (dump_buffer c); injection Hs as <- <- <-; destruct Ht as [Hb Hd];
    (split; [done|]); (split; [unfold believes in *; cbn; rewrite Hb; by eexists|]); right.
  - by left.
  - by split.
Qed.

(** An update that was buffered. *)
Lemma drain_keeps reg records u batch :
  Forall (registered reg) [u] -> task_keeps reg records (D_Drain (u :: batch)).
Proof.
  intros Hup c g t' c' g' o h' Hph Ht Hs. unfold dump_session.
  cbn [ds_task ds_client task_step task_session] in *.
  apply Forall_cons in Hup as [Hu _].
  destruct (send_update_to_client cfg reg u true c) as [r c1] eqn:Es.
  pose proof Es as [(P & _ & _) _]%good_update. apply update_in_sync in Es; [|done..].
  destruct r; injection Hs as <- <- <-; cbn in *.
  - split; [by rewrite P|]. split; [destruct Es as [-> _]; by eexists|by right].
  - split; [by rewrite P|]. split; [apply Es|by right].
Qed.

Lemma task_dump_session reg records t c g t' c' g' o h h' :
  reg_ok reg -> Forall record_ok records -> Forall (registered reg) (handled_by t) ->
  dump_session (mk_dump t c g o h) ->
  task_step cfg sys_name sys_descr walk_clock reg records (t, (c, g)) = (t', (c', g')) ->
  dump_session (mk_dump t' c' g' o h').
Proof.
  intros Hreg Hrec Hup (Hph & Hsome & [Hc|Ht]) Hs.
  { pose proof Hs as (Hc' & Hb' & Hp')%task_closed; [|done]. unfold dump_session. cbn in *.
    split; [|split; [congruence|by left]]. intros Ht'. apply Hp'; [|done]. apply Hph.
    intros ->. injection Hs as <- _ _. done. }
  destruct t as [|[|[id i] todo] peers m|[|[tag msg] msgs] peers m d
    |[|[id|id pi af] acts]|[|u batch]| |]; cbn [ds_task ds_client handled_by] in *;
    try specialize (Hph ltac:(done)).
  1: by eapply init_keeps.
  1: by eapply walk_keeps.
  1: by eapply peer_up_keeps.
  1: by eapply walked_keeps.
  1: by eapply forward_keeps.
  1: by eapply eors_done_keeps.
  1: by eapply know_keeps.
  1: by eapply eor_keeps.
  1: by eapply drained_keeps.
  1: by eapply drain_keeps.
  - injection Hs as <- <- <-. split; [done|]. split; [done|by right].
  - injection Hs as <- <- <-. split; [done|]. split; [done|by right].
Qed.

Lemma dump_session_ext t c c' g g' o h o' h' :
  phase c' = phase c -> tx c' = tx c -> known_peers c' = known_peers c ->
  peer_info_cache c' = peer_info_cache c ->
  (disconnect_pending c = true -> disconnect_pending c' = true) ->
  dump_session (mk_dump t c g o h) -> dump_session (mk_dump t c' g' o' h').
Proof.
  intros H1 H2 H3 H4 H5 (Hph & Hb & Ht). unfold dump_session in *.
  cbn [ds_task ds_client] in *. unfold believes, closed in *. rewrite H1, H2.
  split; [done|]. split; [done|]. destruct Ht as [Hc|Ht]; [by left|right].
  destruct t; cbn [task_session] in *; unfold in_sync, believes in *; rewrite ?H2, ?H3, ?H4;
    try done; [|by apply H5].
  by eapply session_inv_ext; [..|exact Ht].
Qed.

Lemma update_dump_session reg u t c g r c' g' o h o' h' :
  (phase c = Live -> registered reg u) ->
  dump_session (mk_dump t c g o h) ->
  direct_update_client cfg reg u (c, g) = (r, (c', g')) ->
  dump_session (mk_dump t c' g' o' h').
Proof.
  intros Hreg Hi. unfold direct_update_client.
  destruct (disconnect_pending c) eqn:Ed; [by intros [= _ <- <-]|].
  unfold buffer_update_if_dumping. destruct (phase c) eqn:Ep.
  - rewrite bool_decide_true by done. cbn [negb].
    repeat case_bool; intros [= _ <- <-]; by eapply dump_session_ext; [..|exact Hi].
  - destruct Hi as (Hph & Hb & Ht). unfold dump_session in *. cbn [ds_task ds_client] in *.
    assert (t = D_Done) as ->.
    { destruct t; try done; by rewrite Hph in Ep. }
    rewrite bool_decide_false by done. cbn [negb].
    destruct (send_update_to_client cfg reg u false c) as [r1 c1] eqn:Es.
    intros [= _ <- <-]. split; [done|].
    destruct Ht as [Hc|[Hi|[[Hg|Hg] Hx]]].
    + apply update_closed in Es as (H1 & H2 & _); [|done]. rewrite H2. split; [done|by left].
    + apply update_in_sync in Es; [|done|by apply Hreg].
      destruct r1; cbn in Es.
      * split; [destruct Es as [-> _]; by eexists|right; by left].
      * split; [apply Es|right; by right].
    + congruence.
    + apply update_closed in Es as (H1 & H2 & _); [|done]. rewrite H2. split; [done|by left].
Qed.

Lemma norib_dump_session reg c g t' c' g' o h h' :
  Forall (registered reg) (dump_buffer c) ->
  dump_session (mk_dump D_Init c g o h) ->
  norib_step cfg sys_name sys_descr reg (c, g) = (t', (c', g')) ->
  dump_session (mk_dump t' c' g' o h').
Proof.
  intros Hreg (Hph & Hsome & Ht) Hs. unfold dump_session in *. cbn [ds_task ds_client] in *.
  revert Hs. unfold norib_step. destruct (send_message _ _ c) as [ok c1] eqn:Es. cbn.
  intros [= <- <- <-]. split; [done|].
  pose proof Es as [(_ & B & _) _]%send_frame.
  assert (forall x, believes (set_phase Live x) = believes x) as Hbx by done.
  rewrite Hbx. destruct Ht as [Hc|(Hb & Hk & Hca)].
  - apply send_closed in Es as (_ & Hc1 & Hb1 & _); [|done].
    destruct (drain_all_closed reg (dump_buffer c1) (set_buffer [] 0 c1) Hc1) as [H1 H2].
    rewrite H2. change (believes (set_buffer [] 0 c1)) with (believes c1). rewrite Hb1.
    split; [done|by left].
  - eapply send_blocking in Es as (_ & K & C & O); [|exact Hb|done]. destruct ok.
    + assert (in_sync (set_buffer [] 0 c1)) as Hi.
      { split; cbn; [|rewrite C, Hca, dom_empty_L; set_solver]. rewrite K, Hk. exact O. }
      rewrite <- B in Hreg. destruct (drain_all_session reg _ _ Hi Hreg) as [Hd|Hd].
      * split; [destruct Hd as [-> _]; by eexists|right; by left].
      * split; [apply Hd|right; by right].
    + destruct O as [Hc1 Hb1].
      destruct (drain_all_closed reg (dump_buffer c1) (set_buffer [] 0 c1) Hc1) as [H1 H2].
      rewrite H2. change (believes (set_buffer [] 0 c1)) with (believes c1). rewrite Hb1.
      split; [by eexists|by left].
Qed.

Lemma reachable_session e b s :
  dump_reachable cfg sys_name sys_descr walk_clock sound_input registered e b s -> dump_session s.
Proof.
  induction 1 as [g|s s' _ IH Hs].
  - split; [done|]. split; [by eexists|by right].
  - destruct Hs as [reg records t c g o h t' c' g' [H1 H2] H3 Hs
      |msgs peers m d c g o h t' c' g' _ Hs
      |reg c g o h t' c' g' H1 Hs|reg u t c g o h r c' g' H1 Hs].
    + by eapply task_dump_session.
    + injection Hs as <- <- <-. destruct IH as (Hph & Hb & _). cbn in *.
      split; [intros _; by apply Hph|]. split; [done|by right].
    + by eapply norib_dump_session.
    + by eapply update_dump_session.
Qed.

(** ** Properties *)

(** C1: no update is lost, doubled or reordered while a client is dumped and goes live,
    however the calls of [direct_update] interleave with the turns of the dump task, and
    whatever the register and the table hold: unless the client is on its way out, the
    updates it was offered are, in order, those handled so far, the batch being drained and
    the buffer; and what the client has got since the dump (its queue of messages, the peers
    it knows and their headers, its counters) is just what the handler makes of the handled
    updates, one after the other, when it is run on the client as the dump left it. It is
    live exactly when the task has finished, and then all updates were handled. (The calls
    of [direct_update] for one client come one after the other, and the handling of one
    update is one step.) *)
Theorem handover_exact sound admits e b s :
  dump_reachable cfg sys_name sys_descr walk_clock sound admits e b s -> ~ gone (ds_client s) ->
  offered s = (h_update <$> handled s) ++ batch_of (ds_task s) ++ dump_buffer (ds_client s)
  /\ (handled s <> [] ->
      exists s0 c0 c', dump_reachable cfg sys_name sys_descr walk_clock sound admits e b s0
        /\ rtc (dump_step cfg sys_name sys_descr walk_clock sound admits) s0 s
        /\ starts sys_name sys_descr s0 c0
        /\ replay cfg (handled s) c0 = (Some tt, c') /\ strip c' = strip (ds_client s))
  /\ (phase (ds_client s) = Live <-> ds_task s = D_Done)
  /\ (phase (ds_client s) = Live -> offered s = h_update <$> handled s)
  /\ ds_task s <> D_Failed.
Proof.
  intros Hr Hg. pose proof Hr as Hs%reachable_sent.
  apply reachable_handover in Hr as [Hr|(Ho & Hl & Hd & Hf)]; [done|].
  split; [done|]. split; [|split; [done|]; split; [|done]].
  - intros Hh. by destruct Hs as [?|[[_ ?]|[_ Hs]]].
  - intros Hp. apply Hl in Hp. rewrite Ho, (Hd Hp), Hp. cbn. by rewrite app_nil_r.
Qed.

(** C13: from the first message on, through the dump, the peers discovered by
    the walk, the drained and the live updates, what a client accepts is in
    order: no route, marker, statistics or Peer Down of a peer without its Peer
    Up, no second Peer Up; and a live client that is not on its way out has been
    told exactly the peers that the handler takes it to know. This asks that the
    peers of every update are in the register when it is handled, be it drained
    or live (a statistics report or a route of a peer that has been removed
    meanwhile goes out without a Peer Up), and for well-formed register entries
    and records; the calls of [direct_update] for one client come one after the
    other. *)
Theorem dump_in_order e b s :
  dump_reachable cfg sys_name sys_descr walk_clock sound_input registered e b s ->
  is_Some (believes (ds_client s))
  /\ (ds_task s = D_Done -> ~ gone (ds_client s) ->
      believes (ds_client s) = Some (known_peers (ds_client s))).
Proof.
  intros Hr. apply reachable_session in Hr as (_ & Hb & Ht). split; [done|].
  intros Hd Hg. rewrite Hd in Ht. destruct Ht as [Hc|[[Hi _]|[Hl _]]]; [|done|done].
  exfalso. apply Hg. by right.
Qed.

End DumpSession.

(** ** Witnesses: an update arrives while the Peer Ups are sent *)
#[local] Existing Instance Demo.extern.
#[local] Existing Instance demo_layout.
#[local] Existing Instance HandlerDemo.channel.
#[local] Existing Instance list_order.

Module HandoverDemo.

Definition clock : Out -> Clock := fun _ => WireDemo.now.

Definition start : ClientState * MemStats := client_new 100 100000 (mk_mem 0 0 0).

(** The state after the Initiation. *)
Definition after_init :=
  task_step HandlerDemo.cfg (str "rotonda") (str "bmp") clock DumpDemo.reg []
    (D_Init, start).

(** The update that arrives then. *)
Definition update : Update := Withdraw 7 None.

Definition state_after_update : DumpState :=
  let '(t, (c, g)) := after_init in
  let '(_, (c', g')) := direct_update_client HandlerDemo.cfg DumpDemo.reg update (c, g) in
  mk_dump t c' g' [update] [].

Lemma reachable_state :
  dump_reachable HandlerDemo.cfg (str "rotonda") (str "bmp") clock sound_input registered
    100 100000 state_after_update.
Proof.
  eapply dr_step; [eapply dr_step; [apply (dr_init _ _ _ _ _ _ 100 100000 (mk_mem 0 0 0))|]|].
  - eapply (st_task _ _ _ _ _ _ DumpDemo.reg []); [split; [apply DumpDemo.reg_wf|constructor]|constructor|].
    reflexivity.
  - eapply (st_update _ _ _ _ _ _ DumpDemo.reg update); [intros _; constructor|]. reflexivity.
Defined.

(** Without a RIB: an update that waits in the buffer, and is sent before the client goes
    live. *)
Definition reappeared : Update := IngressReappeared 8.

Definition buffered_state : DumpState :=
  let '(_, (c, g)) := direct_update_client HandlerDemo.cfg DumpDemo.reg reappeared start in
  mk_dump D_Init c g [reappeared] [].

Definition live_state : DumpState :=
  let r := norib_step HandlerDemo.cfg (str "rotonda") (str "bmp") DumpDemo.reg
             (ds_client buffered_state, ds_mem buffered_state) in
  mk_dump (fst r) (fst (snd r)) (snd (snd r)) [reappeared]
    [mk_handling DumpDemo.reg true reappeared].

Lemma reachable_live :
  dump_reachable HandlerDemo.cfg (str "rotonda") (str "bmp") clock sound_input (fun _ _ => True)
    100 100000 live_state.
Proof.
  eapply (dr_step _ _ _ _ _ _ _ _ buffered_state);
    [eapply dr_step; [apply (dr_init _ _ _ _ _ _ 100 100000 (mk_mem 0 0 0))|]|].
  - eapply (st_update _ _ _ _ _ _ DumpDemo.reg reappeared); [done|]. reflexivity.
  - apply (st_norib _ _ _ _ _ _ DumpDemo.reg (ds_client buffered_state) (ds_mem buffered_state)
             [reappeared] []); [by repeat constructor|]. reflexivity.
Defined.

Lemma live_not_gone : ~ gone (ds_client live_state).
Proof.
  intros [H|H]; [vm_compute in H; done|].
  assert (s_outcome <$> tx (ds_client live_state) = [SOk; SOk]) as Ht
    by (vm_compute; reflexivity).
  apply Exists_exists in H as (x & Hx & Hc).
  apply (list_elem_of_fmap_2 s_outcome) in Hx. rewrite Ht, Hc in Hx. set_solver.
Defined.

End HandoverDemo.

(** The Initiation and the Peer Up of the update are in the queue. *)
Lemma handover_exact_witness :
  offered HandoverDemo.live_state = [HandoverDemo.reappeared]
  /\ exists s0 c0 c', starts (str "rotonda") (str "bmp") s0 c0
       /\ replay HandlerDemo.cfg (handled HandoverDemo.live_state) c0 = (Some tt, c')
       /\ tx c' = tx (ds_client HandoverDemo.live_state)
       /\ length (tx c') = 2%nat.
Proof.
  destruct (handover_exact HandlerDemo.cfg (str "rotonda") (str "bmp") HandoverDemo.clock
           sound_input (fun _ _ => True) 100 100000 HandoverDemo.live_state
           HandoverDemo.reachable_live HandoverDemo.live_not_gone) as (Ho & Hr & _ & Hl & _).
  split; [exact (Hl eq_refl)|].
  destruct Hr as (s0 & c0 & c' & _ & _ & Hst & Hrep & Hstr); [done|].
  exists s0, c0, c'. split; [exact Hst|]. split; [exact Hrep|].
  assert (tx c' = tx (ds_client HandoverDemo.live_state)) as Htx by exact (f_equal tx Hstr).
  split; [exact Htx|]. rewrite Htx. reflexivity.
Defined.

Lemma dump_in_order_witness :
  is_Some (believes (ds_client HandoverDemo.state_after_update)).
Proof.
  apply (dump_in_order HandlerDemo.cfg (str "rotonda") (str "bmp") HandoverDemo.clock
           100 100000 HandoverDemo.state_after_update), HandoverDemo.reachable_state.
Defined.
