(* ===== verification/Interner.v ===== *)
(** * Sharing of path-attribute blobs ([PathAttributeInterner] of
    [src/payload.rs])

    A blob is an [Arc<[u8]>]: a location of a heap that holds it as long as
    somebody owns it.  The interner keeps [Weak] references, bucketed by the
    hash of the blob, which can be upgraded as long as the heap holds the
    location. *)

From S2P Require Import Prelude Net Payload.
From Stdlib Require Import ZArith Lia.
From stdpp Require Import base numbers list gmap.

Local Open Scope Z_scope.

Record Interner : Type := mk_interner {
  heap : gmap Z (list Z);
  next_loc : Z;
  shards : list (gmap Z (list Z))
}.

Definition NUM_SHARDS : nat := 64.

(** [PathAttributeInterner::default]. *)
Definition interner_default : Interner := mk_interner ∅ 0 (replicate NUM_SHARDS ∅).

(** [Vec::swap_remove]: the last element takes the place of the removed one. *)
Definition swap_remove {A} (i : nat) (l : list A) : list A :=
  match last l with
  | Some x => take (length l - 1) (<[i := x]> l)
  | None => []
  end.

(** The [while] loop of [intern]: the blob found, if any, and the entries with
    the dead references it met taken out. *)
Fixpoint intern_scan (fuel : nat) (h : gmap Z (list Z)) (raw : list Z) (idx : nat)
    (entries : list Z) : option (option Z * list Z) :=
  match fuel with
  | O => None
  | S fuel =>
      match entries !! idx with
      | None => Some (None, entries)
      | Some l =>
          match h !! l with
          | Some existing =>
              if bool_decide (existing = raw) then Some (Some l, entries)
              else intern_scan fuel h raw (S idx) entries
          | None => intern_scan fuel h raw idx (swap_remove idx entries)
          end
      end
  end.

(** An owner lets go of its last reference. *)
Definition drop_blob (l : Z) (s : Interner) : Interner :=
  mk_interner (delete l (heap s)) (next_loc s) (shards s).

Section Intern.
Context `{E : Extern}.

Definition hash_bytes (raw : list Z) : Z := default_hash raw.

Definition shard_index (h : Z) (s : Interner) : nat :=
  Z.to_nat (h mod zlen (shards s)).

(** [intern]: the location of a blob with these bytes. *)
Definition intern (raw : list Z) (s : Interner) : option Z * Interner :=
  let h := hash_bytes raw in
  let i := shard_index h s in
  match shards s !! i with
  | None => (None, s)
  | Some shard =>
      let entries := default [] (shard !! h) in
      match intern_scan (S (length entries)) (heap s) raw 0 entries with
      | None => (None, s)
      | Some (Some l, es) =>
          (Some l, mk_interner (heap s) (next_loc s) (<[i := <[h := es]> shard]> (shards s)))
      | Some (None, es) =>
          let l := next_loc s in
          (Some l, mk_interner (<[l := raw]> (heap s)) (l + 1)
                     (<[i := <[h := es ++ [l]]> shard]> (shards s)))
      end
  end.

(** [stats]: buckets, slots and live blobs. *)
Definition interner_stats (s : Interner) : Z * Z * Z :=
  foldl (fun '(b, w, v) shard =>
    (b + Z.of_nat (size shard),
     w + zsum ((fun e => zlen (snd e)) <$> map_to_list shard),
     v + zsum ((fun e => zlen (filter (fun l => is_Some (heap s !! l)) (snd e)))
                 <$> map_to_list shard)))
    (0, 0, 0) (shards s).

(** [RotondaPaMap::dedup_with]: the map with the bytes of the shared blob;
    [None] stands for a poisoned or missing shard. *)
Definition dedup_with (p : RotondaPaMap) (s : Interner) : option RotondaPaMap * Interner :=
  let '(l, s') := intern (raw p) s in
  (mk_pamap <$> (l ≫= fun l => heap s' !! l), s').

(** ** Invariant

    Every slot is an old location; a live blob sits in the bucket of its hash,
    and a bucket has at most one slot for each live content. *)
Record interner_inv (s : Interner) : Prop := {
  in_shards : length (shards s) = NUM_SHARDS;
  in_heap l : is_Some (heap s !! l) -> l < next_loc s;
  in_slot i shard h es l :
    shards s !! i = Some shard -> shard !! h = Some es -> l ∈ es -> l < next_loc s;
  in_unique i shard h es :
    shards s !! i = Some shard -> shard !! h = Some es ->
    NoDup (omap (fun l => heap s !! l) es)
}.

(** The live blobs with these bytes that the interner knows of. *)
Definition interned (raw : list Z) (l : Z) (s : Interner) : Prop :=
  exists shard es, shards s !! shard_index (hash_bytes raw) s = Some shard
    /\ shard !! hash_bytes raw = Some es /\ l ∈ es /\ heap s !! l = Some raw.

End Intern.

(** ** The scan *)

Lemma swap_remove_perm {A} i (l : list A) x :
  l !! i = Some x -> l ≡ₚ x :: swap_remove i l.
Proof.
  intros Hi. pose proof (lookup_lt_Some _ _ _ Hi) as Hlt.
  destruct l as [|y l _] using rev_ind; [done|].
  rewrite length_app in Hlt. cbn in Hlt.
  unfold swap_remove. rewrite last_snoc, length_app, Nat.add_sub.
  destruct (decide (i = length l)) as [->|Hne].
  - rewrite lookup_app_r, Nat.sub_diag in Hi by done. injection Hi as ->.
    rewrite insert_app_r_alt, Nat.sub_diag, take_app_length by lia.
    apply Permutation_app_comm.
  - rewrite insert_app_l, take_app_exact by (rewrite ?length_insert; lia).
    rewrite lookup_app_l in Hi by lia.
    apply list_elem_of_split_length in Hi as (l1 & l2 & -> & ->).
    rewrite <- (Nat.add_0_r (length l1)), insert_app_r. cbn.
    rewrite <- app_assoc. cbn. rewrite <- (Permutation_middle l1 (l2 ++ [y]) x).
    rewrite <- (Permutation_middle l1 l2 y), (Permutation_app_comm l2 [y]). cbn.
    by rewrite <- (Permutation_middle l1 l2 y).
Qed.

Lemma length_swap_remove {A} i (l : list A) x :
  l !! i = Some x -> length l = S (length (swap_remove i l)).
Proof. intros H%swap_remove_perm. by rewrite H at 1. Qed.

(** The scan ends, loses only dead references, and finds a live blob with the
    bytes when there is one. *)
Lemma intern_scan_spec fuel h raw idx es :
  (length es - idx < fuel)%nat ->
  (forall j l, (j < idx)%nat -> es !! j = Some l -> h !! l <> Some raw) ->
  exists o es' dead,
    intern_scan fuel h raw idx es = Some (o, es')
    /\ es ≡ₚ es' ++ dead /\ Forall (fun l => h !! l = None) dead
    /\ match o with
       | Some l => l ∈ es' /\ h !! l = Some raw
       | None => Forall (fun l => h !! l <> Some raw) es'
       end.
Proof.
  revert idx es. induction fuel as [|fuel IH]; intros idx es Hf Hp; [lia|]. cbn.
  destruct (es !! idx) as [l|] eqn:Hl.
  2: { apply lookup_ge_None in Hl. exists None, es, []. rewrite app_nil_r.
       split; [done|]. split; [done|]. split; [done|].
       apply Forall_lookup. intros j l Hj. apply (Hp j); [|done].
       apply lookup_lt_Some in Hj. lia. }
  pose proof (lookup_lt_Some _ _ _ Hl) as Hlt.
  destruct (h !! l) as [c|] eqn:Hc.
  - case_bool_decide as Heq.
    + subst c. exists (Some l), es, []. rewrite app_nil_r. repeat (split; [done|]).
      split; [by apply list_elem_of_lookup_2 in Hl|done].
    + apply IH; [lia|]. intros j l' Hj Hl'.
      destruct (decide (j = idx)) as [->|]; [|apply (Hp j); [lia|done]].
      rewrite Hl in Hl'. injection Hl' as <-. congruence.
  - pose proof (length_swap_remove _ _ _ Hl) as Hlen.
    destruct (IH idx (swap_remove idx es)) as (o & es' & dead & Hs & Hperm & Hd & Ho).
    + lia.
    + intros j l' Hj Hl'. apply (Hp j); [done|].
      revert Hl'. unfold swap_remove. destruct (last es) as [x|] eqn:Hlast; [|done].
      rewrite lookup_take_lt by lia. by rewrite list_lookup_insert_ne by lia.
    + exists o, es', (l :: dead). split; [done|]. split; [|split; [by constructor|done]].
      rewrite (swap_remove_perm _ _ _ Hl), Hperm. apply Permutation_middle.
Qed.

Section Sharing.
Context `{E : Extern}.

Lemma interner_default_inv : interner_inv interner_default.
Proof.
  split; cbn [heap next_loc shards interner_default];
    [by rewrite length_replicate|intros l [? H]; by rewrite lookup_empty in H| |].
  - by intros i shard h es l [-> _]%lookup_replicate_1.
  - by intros i shard h es [-> _]%lookup_replicate_1.
Qed.

Lemma drop_blob_inv l s : interner_inv s -> interner_inv (drop_blob l s).
Proof.
  intros [H1 H2 H3 H4]. split; cbn [drop_blob heap next_loc shards]; [done| |done|].
  - intros k [? [_ H]%lookup_delete_Some]. apply H2. by eexists.
  - intros i shard h es Hi Hes. specialize (H4 _ _ _ _ Hi Hes).
    eapply sublist_NoDup; [exact H4|]. clear. induction es as [|k es IH]; [done|]. cbn.
    rewrite lookup_delete. case_decide as Hk.
    + destruct (heap s !! k); [by apply sublist_cons|done].
    + destruct (heap s !! k); [by apply sublist_skip|done].
Qed.

(** The state after the entries of a bucket were replaced. *)
Lemma inv_bucket s h i shard es0 es heap' n :
  interner_inv s -> shards s !! i = Some shard -> default [] (shard !! h) = es0 ->
  next_loc s <= n ->
  (forall k, k < next_loc s -> heap' !! k = heap s !! k) ->
  (forall k, is_Some (heap' !! k) -> k < n) ->
  (forall k, k ∈ es -> k < n) -> NoDup (omap (fun l => heap' !! l) es) ->
  interner_inv (mk_interner heap' n (<[i := <[h := es]> shard]> (shards s))).
Proof.
  intros [H1 H2 H3 H4] Hi He Hn Hh Hb Hes Hnd.
  assert (forall j shard' g es', <[i := <[h := es]> shard]> (shards s) !! j = Some shard' ->
    shard' !! g = Some es' ->
    es' = es \/ exists sh, shards s !! j = Some sh /\ sh !! g = Some es') as Hcase.
  { intros j shard' g es'. destruct (decide (i = j)) as [<-|Hij].
    - rewrite list_lookup_insert_eq by (by eapply lookup_lt_Some). intros [= <-].
      rewrite lookup_insert. case_decide; [intros [= <-]; by left|]. eauto.
    - rewrite list_lookup_insert_ne by done. eauto. }
  split; cbn [heap next_loc shards].
  - by rewrite length_insert.
  - done.
  - intros j shard' g es' k Hj Hg Hk. destruct (Hcase _ _ _ _ Hj Hg) as [->|(sh & Hs & Hs')].
    + by apply Hes.
    + specialize (H3 _ _ _ _ _ Hs Hs' Hk). lia.
  - intros j shard' g es' Hj Hg. destruct (Hcase _ _ _ _ Hj Hg) as [->|(sh & Hs & Hs')]; [done|].
    specialize (H4 _ _ _ _ Hs Hs').
    assert (forall k, k ∈ es' -> heap' !! k = heap s !! k) as Hsame
      by (intros k Hk; apply Hh; eauto).
    clear -H4 Hsame. revert H4. induction es' as [|k es' IH]; [done|]. cbn.
    rewrite Hsame by left.
    destruct (heap s !! k) as [c|]; [|intros; apply IH; [by intros; apply Hsame; right|done]].
    intros [Hc Hn]%NoDup_cons. apply NoDup_cons. split.
    + contradict Hc. apply list_elem_of_omap in Hc as (k' & Hk' & Hc).
      apply list_elem_of_omap. exists k'. split; [done|]. rewrite <- Hc.
      symmetry. apply Hsame. by right.
    + apply IH; [|done]. intros k' Hk'. apply Hsame. by right.
Qed.

Lemma scan_unique (h : gmap Z (list Z)) es es' dead :
  es ≡ₚ es' ++ dead -> NoDup (omap (fun l => h !! l) es) -> NoDup (omap (fun l => h !! l) es').
Proof.
  intros Hp Hn. assert (omap (fun l => h !! l) es ≡ₚ omap (fun l => h !! l) (es' ++ dead)) as Hq
    by (by rewrite Hp).
  rewrite Hq, omap_app in Hn. by apply NoDup_app in Hn as [? _].
Qed.

Lemma omap_unique (h : gmap Z (list Z)) es l1 l2 c :
  NoDup (omap (fun l => h !! l) es) -> l1 ∈ es -> l2 ∈ es ->
  h !! l1 = Some c -> h !! l2 = Some c -> l1 = l2.
Proof.
  induction es as [|k es IH]; [intros _ []%not_elem_of_nil|]. cbn.
  intros Hn H1 H2 E1 E2.
  assert (forall l, l ∈ es -> h !! l = Some c -> c ∈ omap (fun l => h !! l) es) as Hin
    by (intros l Hl El; apply list_elem_of_omap; eauto).
  apply elem_of_cons in H1 as [->|H1], H2 as [->|H2]; [done| | |].
  - rewrite E1 in Hn. apply NoDup_cons in Hn as [Hn _]. destruct Hn. by apply (Hin l2).
  - rewrite E2 in Hn. apply NoDup_cons in Hn as [Hn _]. destruct Hn. by apply (Hin l1).
  - apply IH; try done. destruct (h !! k); [by apply NoDup_cons in Hn as [_ ?]|done].
Qed.

(** What the scan of the right bucket yields. *)
Lemma bucket_scan raw s :
  interner_inv s ->
  exists shard o es,
    shards s !! shard_index (hash_bytes raw) s = Some shard
    /\ (let es0 := default [] (shard !! hash_bytes raw) in
        intern_scan (S (length es0)) (heap s) raw 0 es0 = Some (o, es))
    /\ (forall k, k ∈ es -> k < next_loc s)
    /\ NoDup (omap (fun l => heap s !! l) es)
    /\ (forall l, interned raw l s -> l ∈ es /\ heap s !! l = Some raw)
    /\ match o with
       | Some l => l ∈ es /\ heap s !! l = Some raw
       | None => Forall (fun l => heap s !! l <> Some raw) es
       end.
Proof.
  intros Hi. pose proof (in_shards _ Hi) as Hlen.
  destruct (lookup_lt_is_Some_2 (shards s) (shard_index (hash_bytes raw) s)) as [shard Hs].
  { unfold shard_index, zlen. rewrite Hlen.
    pose proof (Z.mod_pos_bound (hash_bytes raw) (Z.of_nat NUM_SHARDS)).
    unfold NUM_SHARDS in *. lia. }
  set (es0 := default [] (shard !! hash_bytes raw)).
  destruct (intern_scan_spec (S (length es0)) (heap s) raw 0 es0)
    as (o & es & dead & Hsc & Hp & Hd & Ho); [lia|lia|].
  assert ((forall k, k ∈ es0 -> k < next_loc s) /\ NoDup (omap (fun l => heap s !! l) es0))
    as [Hold Hu].
  { unfold es0. destruct (shard !! hash_bytes raw) eqn:Hb.
    - split; [intros k; by apply (in_slot _ Hi _ _ _ _ _ Hs Hb)|].
      by apply (in_unique _ Hi _ _ _ _ Hs Hb).
    - split; [intros ? []%not_elem_of_nil|constructor]. }
  exists shard, o, es. split; [done|]. split; [done|]. split; [|split; [|split]].
  - intros k Hk. apply Hold. rewrite Hp. apply elem_of_app. by left.
  - by eapply scan_unique.
  - intros l (sh & es' & Hs' & He & Hl & Hh). rewrite Hs in Hs'. injection Hs' as <-.
    split; [|done]. assert (l ∈ es0) as Hin by (unfold es0; by rewrite He).
    rewrite Hp in Hin. apply elem_of_app in Hin as [?|Hin]; [done|].
    rewrite Forall_forall in Hd. by rewrite (Hd _ Hin) in Hh.
  - done.
Qed.

Lemma interned_put raw s shard es heap' n l :
  shards s !! shard_index (hash_bytes raw) s = Some shard ->
  l ∈ es -> heap' !! l = Some raw ->
  interned raw l (mk_interner heap' n
    (<[shard_index (hash_bytes raw) s := <[hash_bytes raw := es]> shard]> (shards s))).
Proof.
  intros Hs Hl Hh. exists (<[hash_bytes raw := es]> shard), es.
  split; [|split; [apply lookup_insert_eq|done]]. cbn [shards].
  assert (forall sh, length sh = length (shards s) ->
    shard_index (hash_bytes raw) (mk_interner heap' n sh) = shard_index (hash_bytes raw) s)
    as -> by (intros sh Hsh; unfold shard_index, zlen; cbn [shards]; by rewrite Hsh).
  - apply list_lookup_insert_eq. by eapply lookup_lt_Some.
  - by rewrite length_insert.
Qed.

Lemma omap_fresh (h : gmap Z (list Z)) es l raw :
  (forall k, k ∈ es -> k < l) -> NoDup (omap (fun k => h !! k) es) ->
  Forall (fun k => h !! k <> Some raw) es ->
  NoDup (omap (fun k => <[l := raw]> h !! k) (es ++ [l])).
Proof.
  intros Hl Hn Hf. rewrite omap_app. cbn. rewrite lookup_insert_eq.
  assert (omap (fun k => <[l := raw]> h !! k) es = omap (fun k => h !! k) es) as ->.
  { clear Hn Hf. induction es as [|k es IH]; [done|]. cbn.
    rewrite lookup_insert_ne by (specialize (Hl k ltac:(left)); lia).
    rewrite IH; [done|]. intros k' Hk'. apply Hl. by right. }
  apply NoDup_app. split; [done|]. split; [|apply NoDup_singleton].
  intros c Hc ->%list_elem_of_singleton. apply list_elem_of_omap in Hc as (k & Hk & Hc).
  rewrite Forall_forall in Hf. by apply (Hf k).
Qed.

Lemma intern_spec raw s :
  interner_inv s ->
  exists l s', intern raw s = (Some l, s')
    /\ heap s' !! l = Some raw
    /\ (forall l0, interned raw l0 s -> l = l0)
    /\ interned raw l s'
    /\ (forall k, is_Some (heap s !! k) -> heap s' !! k = heap s !! k)
    /\ interner_inv s'.
Proof.
  intros Hi. destruct (bucket_scan raw s Hi) as (shard & o & es & Hs & Hsc & Hold & Hu & Hint & Ho).
  unfold intern. rewrite Hs. cbv zeta in Hsc. rewrite Hsc.
  destruct o as [l|]; do 2 eexists; (split; [done|]); cbn [heap].
  - destruct Ho as [Hl Hraw]. split; [done|]. split; [|split; [by apply interned_put|split; [done|]]].
    + intros l0 [Hl0 Hh]%Hint. by eapply omap_unique.
    + by eapply inv_bucket; [..|apply Hi| |].
  - rewrite lookup_insert_eq. split; [done|]. split; [|split; [|split]].
    + intros l0 [Hl0 Hh]%Hint. rewrite Forall_forall in Ho. by destruct (Ho _ Hl0).
    + apply interned_put; [done| |apply lookup_insert_eq].
      apply elem_of_app. right. by left.
    + intros k Hk. rewrite lookup_insert_ne; [done|]. pose proof (in_heap _ Hi _ Hk). lia.
    + eapply inv_bucket; [done..|lia| | | |by apply omap_fresh].
      * intros k Hk. rewrite lookup_insert_ne; [done|lia].
      * intros k. rewrite lookup_insert. case_decide; [lia|].
        intros Hk. pose proof (in_heap _ Hi _ Hk). lia.
      * intros k [Hk|Hk]%elem_of_app; [specialize (Hold _ Hk); lia|].
        apply list_elem_of_singleton in Hk as ->. lia.
Qed.

(** [dedup_with] does not change a route's bytes. *)
Lemma dedup_same p s :
  interner_inv s ->
  exists s', dedup_with p s = (Some p, s') /\ interner_inv s'.
Proof.
  intros Hi. destruct (intern_spec (raw p) s Hi) as (l & s' & Hl & Hh & _ & _ & _ & Hi').
  exists s'. unfold dedup_with. rewrite Hl. cbn. rewrite Hh. by destruct p.
Qed.

(** Any history of interning and of owners letting go. *)
Inductive interner_reachable : Interner -> Prop :=
| ir_default : interner_reachable interner_default
| ir_intern raw s l s' :
    interner_reachable s -> intern raw s = (l, s') -> interner_reachable s'
| ir_drop l s : interner_reachable s -> interner_reachable (drop_blob l s).

Lemma interner_reachable_inv s : interner_reachable s -> interner_inv s.
Proof.
  induction 1 as [|raw s l s' _ IH Hs|l s _ IH].
  - apply interner_default_inv.
  - destruct (intern_spec raw s IH) as (l' & s1 & Hs' & _ & _ & _ & _ & Hi).
    rewrite Hs in Hs'. by injection Hs' as _ ->.
  - by apply drop_blob_inv.
Qed.

(** After any history of interning and of owners letting go, interning
    returns a blob with exactly the given bytes and never fails; when a live
    blob with these bytes was interned before, whatever dead references and
    hash collisions its bucket has, it is that one, so equal attributes share
    one allocation; interning the bytes again returns the same blob, and no
    live blob changes. *)
Theorem intern_shares raw s :
  interner_reachable s ->
  exists l s', intern raw s = (Some l, s')
    /\ heap s' !! l = Some raw
    /\ (forall l0, interned raw l0 s -> l = l0)
    /\ fst (intern raw s') = Some l
    /\ (forall k, is_Some (heap s !! k) -> heap s' !! k = heap s !! k).
Proof.
  intros Hi%interner_reachable_inv.
  destruct (intern_spec raw s Hi) as (l & s' & Hs & Hh & Hl & Hin & Hk & Hi').
  exists l, s'. split; [done|]. split; [done|]. split; [done|]. split; [|done].
  destruct (intern_spec raw s' Hi') as (l' & s2 & -> & _ & Hl' & _). cbn. f_equal. by apply Hl'.
Qed.

End Sharing.

Lemma intern_shares_witness :
  exists l s', intern (E := Demo.extern) [0; 1; 64; 1; 1; 0]
                 (snd (intern (E := Demo.extern) [0; 1; 64; 1; 1; 0] interner_default))
               = (Some l, s') /\ heap s' !! l = Some [0; 1; 64; 1; 1; 0].
Proof.
  destruct (intern_shares (E := Demo.extern) [0; 1; 64; 1; 1; 0]
    (snd (intern (E := Demo.extern) [0; 1; 64; 1; 1; 0] interner_default)))
    as (l & s' & Hs & Hh & _).
  - eapply ir_intern; [apply ir_default|apply surjective_pairing].
  - exists l, s'. split; [exact Hs|exact Hh].
Defined.
