(* ===== verification/RibStore.v ===== *)
(** * The prefix store

    [rotonda_store]'s [StarCastRib] is a third-party crate: class [PrefixStore]
    has the operations that the RIB unit calls, and what their documentation
    and the comments at the call sites say about them as laws.  A store keeps,
    per prefix, one record for each multi-uniq-id (mui, the ingress id of the
    peer), and for each address family a set of muis that are withdrawn as a
    whole: such a mui overrides the status of its records. *)

From S2P Require Import Prelude Net Payload.
From Stdlib Require Import ZArith Lia.
From stdpp Require Import base numbers list gmap.

Local Open Scope Z_scope.

(** [rotonda_store::prefix_record::Record]. *)
Record StoreRecord (M : Type) : Type := mk_record {
  r_mui : Z;
  r_ltime : Z;
  r_status : RouteStatus;
  r_meta : M
}.
Arguments mk_record {_}.
Arguments r_mui {_}.
Arguments r_ltime {_}.
Arguments r_status {_}.
Arguments r_meta {_}.

(** [rotonda_store::stats::UpsertReport]. *)
Record UpsertReport : Type := mk_upsert {
  cas_count : Z; ur_prefix_new : bool; ur_mui_new : bool; ur_mui_count : Z
}.

Definition set_status {M} (s : RouteStatus) (r : StoreRecord M) : StoreRecord M :=
  mk_record (r_mui r) (r_ltime r) s (r_meta r).

(** [rotonda_store::match_options]. *)
Inductive MatchType : Type := ExactMatch | LongestMatch.

#[export] Instance MatchType_eq_dec : EqDecision MatchType.
Proof. solve_decision. Defined.

Record MatchOptions : Type := mk_match_options {
  match_type : MatchType;
  include_withdrawn : bool;
  include_less_specifics : bool;
  include_more_specifics : bool;
  mo_mui : option Z
}.

Section Covers.
Context `{E : Extern}.

(** [p] covers [q]: same family, not longer, same leading bits. *)
Definition covers (p q : Prefix) : bool :=
  bool_decide (prefix_is_v4 p = prefix_is_v4 q)
  && (prefix_len p <=? prefix_len q) && prefix_contains p (prefix_addr q).

(** A prefix with its records. *)
Definition PrefixRecord (M : Type) : Type := Prefix * list (StoreRecord M).

(** [QueryResult]; a [RecordSet] is the list of its IPv4 prefixes followed by
    its IPv6 prefixes. *)
Record QueryResult (M : Type) : Type := mk_query_result {
  qr_prefix : option Prefix;
  qr_records : list (StoreRecord M);
  qr_less_specifics : option (list (PrefixRecord M));
  qr_more_specifics : option (list (PrefixRecord M))
}.

End Covers.
Arguments mk_query_result {_ _}.
Arguments qr_prefix {_ _}.
Arguments qr_records {_ _}.
Arguments qr_less_specifics {_ _}.
Arguments qr_more_specifics {_ _}.

(** ** The interface *)
Section Interface.
Context `{E : Extern} {M : Type} {S : Type}.

(** The record as readers see it: withdrawn when its mui is. *)
Definition effective (wd : gset Z) (r : StoreRecord M) : StoreRecord M :=
  if bool_decide (r_mui r ∈ wd) then set_status Withdrawn r else r.

(** A list of records is a listing of the ones stored under a prefix. *)
Definition lists (at_ : Z -> option (StoreRecord M)) (wd : gset Z)
    (l : list (StoreRecord M)) : Prop :=
  NoDup (r_mui <$> l)
  /\ forall r, r ∈ l <-> exists r0, at_ (r_mui r) = Some r0 /\ r = effective wd r0.

(** A record that a query with these options returns for a prefix. *)
Definition shown (at_ : Z -> option (StoreRecord M)) (wd : gset Z) (o : MatchOptions)
    (r : StoreRecord M) : Prop :=
  (exists r0, at_ (r_mui r) = Some r0 /\ r = effective wd r0)
  /\ (include_withdrawn o = true \/ r_status r <> Withdrawn)
  /\ (mo_mui o = None \/ mo_mui o = Some (r_mui r)).

End Interface.

Class PrefixStore (M : Type) `{E : Extern} := {
  Store : Type;
  PrefixStoreError : Type;
  StoreNotReadyError : PrefixStoreError;

  (** what is stored, and which muis are withdrawn in a family ([true]: IPv4) *)
  stored_at : Store -> Prefix -> Z -> option (StoreRecord M);
  withdrawn_muis : Store -> bool -> gset Z;

  store_default : Store;
  st_insert : Prefix -> StoreRecord M -> Store ->
    (PrefixStoreError + UpsertReport) * Store;
  st_contains : Prefix -> Z -> Store -> bool;
  st_withdraw_prefix : Prefix -> Z -> Z -> Store -> (PrefixStoreError + unit) * Store;
  st_mark_withdrawn : bool -> Z -> Store -> (PrefixStoreError + unit) * Store;
  st_mark_withdrawn_all : Z -> Store -> (PrefixStoreError + unit) * Store;
  st_mark_active : bool -> Z -> Store -> (PrefixStoreError + unit) * Store;
  st_remove_mui : Z -> Store -> (PrefixStoreError + Z * Z) * Store;
  st_prefixes : option bool -> Store -> list (PrefixRecord M);
  st_keys : Store -> list Prefix;
  st_keys_of : bool -> Store -> list Prefix;
  st_records_for_prefix : Prefix -> Store ->
    PrefixStoreError + option (list (StoreRecord M));
  st_match_prefix : Prefix -> MatchOptions -> Store ->
    PrefixStoreError + QueryResult M;
  st_iter_for_mui : bool -> Z -> bool -> Store ->
    PrefixStoreError + list (PrefixRecord M);

  stored_mui s p m r : stored_at s p m = Some r -> r_mui r = m;
  default_empty p m : stored_at store_default p m = None;
  default_active f : withdrawn_muis store_default f = ∅;

  (** [insert]: the record replaces the one of its mui; nothing else changes. *)
  insert_ok p r s rep s' :
    st_insert p r s = (inr rep, s') ->
    (forall q m, stored_at s' q m
       = if bool_decide (q = p /\ m = r_mui r) then Some r else stored_at s q m)
    /\ (forall f, withdrawn_muis s' f = withdrawn_muis s f);

  (** [contains] with a mui. *)
  contains_ok p m s : st_contains p m s = bool_decide (is_Some (stored_at s p m));

  (** [mark_mui_as_withdrawn_for_prefix] keeps the attributes. *)
  withdraw_prefix_ok p m t s s' :
    st_withdraw_prefix p m t s = (inr tt, s') ->
    (forall q k, ~ (q = p /\ k = m) -> stored_at s' q k = stored_at s q k)
    /\ ((fun r => (r_status r, r_meta r)) <$> stored_at s' p m
        = (fun r => (Withdrawn, r_meta r)) <$> stored_at s p m)
    /\ (forall f, withdrawn_muis s' f = withdrawn_muis s f);

  (** [mark_mui_as_withdrawn_v4/_v6] and [mark_mui_as_active_v4/_v6] touch the
      set of their family only. *)
  mark_withdrawn_ok f m s s' :
    st_mark_withdrawn f m s = (inr tt, s') ->
    (forall q k, stored_at s' q k = stored_at s q k)
    /\ (forall g, withdrawn_muis s' g
          = if bool_decide (g = f) then {[m]} ∪ withdrawn_muis s g else withdrawn_muis s g);
  mark_withdrawn_all_ok m s s' :
    st_mark_withdrawn_all m s = (inr tt, s') ->
    (forall q k, stored_at s' q k = stored_at s q k)
    /\ (forall g, withdrawn_muis s' g = {[m]} ∪ withdrawn_muis s g);
  mark_active_ok f m s s' :
    st_mark_active f m s = (inr tt, s') ->
    (forall q k, stored_at s' q k = stored_at s q k)
    /\ (forall g, withdrawn_muis s' g
          = if bool_decide (g = f) then withdrawn_muis s g ∖ {[m]} else withdrawn_muis s g);

  (** [remove_mui] drops every record of a mui and its withdrawn marks. *)
  remove_mui_ok m s n s' :
    st_remove_mui m s = (inr n, s') ->
    (forall q k, stored_at s' q k = if bool_decide (k = m) then None else stored_at s q k)
    /\ (forall g, withdrawn_muis s' g = withdrawn_muis s g ∖ {[m]});

  (** [prefixes_iter] and [prefixes_iter_v4/_v6], the failed items left out. *)
  prefixes_nodup f s : NoDup (st_prefixes f s).*1;
  prefixes_ok f s p l :
    (p, l) ∈ st_prefixes f s ->
    (forall g, f = Some g -> prefix_is_v4 p = g)
    /\ lists (stored_at s p) (withdrawn_muis s (prefix_is_v4 p)) l;

  (** [prefixes_keys_iter] and [get_records_for_prefix(_, None, true)]. *)
  keys_nodup s : NoDup (st_keys s);
  keys_complete s p m : is_Some (stored_at s p m) -> p ∈ st_keys s;

  (** [prefixes_keys_iter_v4/_v6]. *)
  keys_of_nodup f s : NoDup (st_keys_of f s);
  keys_of_family f s p : p ∈ st_keys_of f s -> prefix_is_v4 p = f;
  keys_of_complete f s p m :
    is_Some (stored_at s p m) -> prefix_is_v4 p = f -> p ∈ st_keys_of f s;
  records_ok p s l :
    st_records_for_prefix p s = inr (Some l) ->
    lists (stored_at s p) (withdrawn_muis s (prefix_is_v4 p)) l;
  records_none p s m :
    st_records_for_prefix p s = inr None -> stored_at s p m = None;

  (** [match_prefix]: an exact match returns the prefix's own records, the more
      specifics are the stored prefixes it properly covers, the less specifics
      those that properly cover it, each once and only when they are asked for; a
      longest match with its less specifics returns the records of all prefixes
      that cover it. *)
  match_exact_ok p o s res :
    match_type o = ExactMatch -> st_match_prefix p o s = inr res ->
    NoDup (r_mui <$> qr_records res)
    /\ forall r, r ∈ qr_records res
         <-> shown (stored_at s p) (withdrawn_muis s (prefix_is_v4 p)) o r;
  match_more_ok p o s res :
    match_type o = ExactMatch -> include_more_specifics o = true ->
    st_match_prefix p o s = inr res ->
    forall q r, (exists rs, (q, rs) ∈ default [] (qr_more_specifics res) /\ r ∈ rs)
      <-> q <> p /\ covers p q = true
          /\ shown (stored_at s q) (withdrawn_muis s (prefix_is_v4 q)) o r;
  match_less_ok p o s res :
    match_type o = ExactMatch -> include_less_specifics o = true ->
    st_match_prefix p o s = inr res ->
    forall q r, (exists rs, (q, rs) ∈ default [] (qr_less_specifics res) /\ r ∈ rs)
      <-> q <> p /\ covers q p = true
          /\ shown (stored_at s q) (withdrawn_muis s (prefix_is_v4 q)) o r;
  match_once p o s res :
    st_match_prefix p o s = inr res ->
    NoDup (default [] (qr_more_specifics res)).*1
    /\ NoDup (default [] (qr_less_specifics res)).*1
    /\ forall q rs, (q, rs) ∈ default [] (qr_more_specifics res)
                      ++ default [] (qr_less_specifics res) -> NoDup (r_mui <$> rs);
  match_asked p o s res :
    st_match_prefix p o s = inr res ->
    (include_more_specifics o = false -> qr_more_specifics res = None)
    /\ (include_less_specifics o = false -> qr_less_specifics res = None);
  match_found p o s res :
    match_type o = ExactMatch -> st_match_prefix p o s = inr res ->
    qr_records res <> [] -> qr_prefix res = Some p;
  match_longest_ok p o s res :
    match_type o = LongestMatch -> include_less_specifics o = true ->
    st_match_prefix p o s = inr res ->
    forall r, (r ∈ qr_records res
               \/ exists pr, pr ∈ default [] (qr_less_specifics res) /\ r ∈ snd pr)
      <-> exists q, covers q p = true
            /\ shown (stored_at s q) (withdrawn_muis s (prefix_is_v4 q)) o r;

  (** [iter_records_for_mui_v4/_v6]. *)
  iter_for_mui_ok f m w s l :
    st_iter_for_mui f m w s = inr l ->
    forall q r, (exists rs, (q, rs) ∈ l /\ r ∈ rs) <->
      prefix_is_v4 q = f
      /\ exists r0, stored_at s q m = Some r0 /\ r = effective (withdrawn_muis s f) r0
                    /\ (w = true \/ r_status r <> Withdrawn)
}.

Arguments Store M {_ _}.
Arguments PrefixStoreError M {_ _}.

(** The operations of an in-memory store do not fail. *)
Class ReliableStore (M : Type) `{PrefixStore M} : Prop := {
  insert_reliable p r s : exists rep, fst (st_insert p r s) = inr rep;
  withdraw_prefix_reliable p m t s :
    is_Some (stored_at s p m) -> fst (st_withdraw_prefix p m t s) = inr tt;
  withdraw_prefix_absent p m t s :
    stored_at s p m = None ->
    (forall q k, stored_at (snd (st_withdraw_prefix p m t s)) q k = stored_at s q k)
    /\ (forall f, withdrawn_muis (snd (st_withdraw_prefix p m t s)) f = withdrawn_muis s f);
  mark_withdrawn_reliable f m s : fst (st_mark_withdrawn f m s) = inr tt;
  mark_withdrawn_all_reliable m s : fst (st_mark_withdrawn_all m s) = inr tt;
  prefixes_complete f s p m :
    is_Some (stored_at s p m) -> (forall g, f = Some g -> prefix_is_v4 p = g) ->
    p ∈ (st_prefixes f s).*1;
  mark_active_reliable f m s : fst (st_mark_active f m s) = inr tt;
  remove_mui_reliable m s : exists n, fst (st_remove_mui m s) = inr n;
  records_reliable p s : exists o, st_records_for_prefix p s = inr o;
  match_reliable p o s : exists res, st_match_prefix p o s = inr res
}.

(** ** A concrete store

    Records in a list, newest first; it satisfies the laws, for any prefixes
    and attributes, and the examples of the development run on it. *)
Section ListStore.
Context `{E : Extern} {M : Type}.

Record ListStore : Type := mk_list_store {
  ls_recs : list (Prefix * StoreRecord M);
  ls_wd : bool -> gset Z
}.

Definition ls_key (p : Prefix) (m : Z) (e : Prefix * StoreRecord M) : bool :=
  bool_decide (fst e = p /\ r_mui (snd e) = m).

Fixpoint ls_find (p : Prefix) (m : Z) (l : list (Prefix * StoreRecord M))
  : option (StoreRecord M) :=
  match l with
  | [] => None
  | e :: l => if ls_key p m e then Some (snd e) else ls_find p m l
  end.

Definition ls_muis (s : ListStore) : list Z :=
  remove_dups ((fun e => r_mui (snd e)) <$> ls_recs s).

Definition ls_keys (s : ListStore) : list Prefix := remove_dups (ls_recs s).*1.

Definition ls_listing (s : ListStore) (p : Prefix) : list (StoreRecord M) :=
  effective (ls_wd s (prefix_is_v4 p))
    <$> omap (fun m => ls_find p m (ls_recs s)) (ls_muis s).

Definition ls_drop (p : Prefix) (m : Z) (l : list (Prefix * StoreRecord M)) :=
  filter (fun e => ls_key p m e = false) l.

Definition ls_set_wd (f : bool) (x : gset Z) (s : ListStore) : ListStore :=
  mk_list_store (ls_recs s) (fun g => if bool_decide (g = f) then x else ls_wd s g).

Definition ls_shown (o : MatchOptions) (r : StoreRecord M) : Prop :=
  (include_withdrawn o = true \/ r_status r <> Withdrawn)
  /\ (mo_mui o = None \/ mo_mui o = Some (r_mui r)).

#[local] Instance ls_shown_dec o r : Decision (ls_shown o r).
Proof. unfold ls_shown. apply _. Defined.

Definition ls_group (o : MatchOptions) (s : ListStore) (q : Prefix) : PrefixRecord M :=
  (q, filter (ls_shown o) (ls_listing s q)).

Definition ls_match (p : Prefix) (o : MatchOptions) (s : ListStore) : QueryResult M :=
  mk_query_result (Some p)
    (if bool_decide (match_type o = ExactMatch) || covers p p
     then snd (ls_group o s p) else [])
    (if include_less_specifics o
     then Some (ls_group o s <$> filter (fun q => q <> p /\ covers q p = true) (ls_keys s))
     else None)
    (if include_more_specifics o
     then Some (ls_group o s <$> filter (fun q => q <> p /\ covers p q = true) (ls_keys s))
     else None).

Definition ls_iter (f : bool) (m : Z) (w : bool) (s : ListStore) : list (PrefixRecord M) :=
  omap (fun q =>
    r0 ← ls_find q m (ls_recs s);
    let r := effective (ls_wd s f) r0 in
    if bool_decide (prefix_is_v4 q = f) && (w || negb (bool_decide (r_status r = Withdrawn)))
    then Some (q, [r]) else None) (ls_keys s).

Lemma ls_find_Some p m l r :
  ls_find p m l = Some r -> r_mui r = m /\ (p, r) ∈ l.
Proof.
  induction l as [|[q r0] l IH]; [done|]. cbn. unfold ls_key. cbn [fst snd]. case_bool_decide as Hk.
  - destruct Hk as [-> <-]. intros [= ->]. split; [done|left].
  - intros [? ?]%IH. split; [done|by right].
Qed.

Lemma ls_find_filter (P : Prefix * StoreRecord M -> Prop) `{!forall e, Decision (P e)} q k l (b : bool) :
  (forall e, ls_key q k e = true -> P e <-> b = true) ->
  ls_find q k (filter P l) = if b then ls_find q k l else None.
Proof.
  intros HP. induction l as [|e l IH]; [by destruct b|].
  rewrite filter_cons. specialize (HP e). cbn [ls_find].
  destruct (ls_key q k e) eqn:Hk; case_decide as Hd; cbn [ls_find]; rewrite ?Hk.
  - destruct b; [done|]. naive_solver.
  - destruct b; [naive_solver|done].
  - done.
  - done.
Qed.

Lemma ls_key_spec p m e : ls_key p m e = true <-> fst e = p /\ r_mui (snd e) = m.
Proof. unfold ls_key. by rewrite bool_decide_eq_true. Qed.

Lemma ls_find_drop p m q k l :
  ls_find q k (ls_drop p m l)
  = if bool_decide (q = p /\ k = m) then None else ls_find q k l.
Proof.
  unfold ls_drop. rewrite (ls_find_filter _ _ _ _ (negb (bool_decide (q = p /\ k = m)))).
  { by case_bool_decide. }
  intros e [<- <-]%ls_key_spec. unfold ls_key. by case_bool_decide.
Qed.

Lemma effective_mui wd (r : StoreRecord M) : r_mui (effective wd r) = r_mui r.
Proof. unfold effective. by case_bool_decide. Qed.

Lemma effective_meta wd (r : StoreRecord M) : r_meta (effective wd r) = r_meta r.
Proof. unfold effective. by case_bool_decide. Qed.

Lemma elem_of_ls_keys s p m :
  is_Some (ls_find p m (ls_recs s)) -> p ∈ ls_keys s.
Proof.
  intros [r [_ Hr]%ls_find_Some]. apply elem_of_remove_dups, list_elem_of_fmap.
  by exists (p, r).
Qed.

Lemma ls_listing_ok s p :
  lists (fun m => ls_find p m (ls_recs s)) (ls_wd s (prefix_is_v4 p)) (ls_listing s p).
Proof.
  unfold lists, ls_listing. split.
  - rewrite <- list_fmap_compose.
    rewrite (list_fmap_ext _ r_mui) by (intros; cbn; apply effective_mui).
    pose proof (NoDup_remove_dups ((fun e => r_mui (snd e)) <$> ls_recs s)) as Hn.
    change (NoDup (ls_muis s)) in Hn. induction Hn as [|m ms Hm _ IH]; [constructor|].
    cbn. destruct (ls_find p m (ls_recs s)) as [r|] eqn:Hr; [|done]. cbn.
    apply ls_find_Some in Hr as [Hmui _]. constructor; [|done]. rewrite Hmui.
    intros (r' & -> & (m' & Hin & [Heq _]%ls_find_Some)%list_elem_of_omap)%list_elem_of_fmap.
    by subst.
  - intros r. rewrite list_elem_of_fmap. setoid_rewrite list_elem_of_omap. split.
    + intros (r0 & -> & m & _ & Hf). exists r0.
      pose proof (ls_find_Some _ _ _ _ Hf) as [Hm _].
      by rewrite effective_mui, Hm.
    + intros (r0 & Hf & ->). exists r0. split; [done|]. rewrite effective_mui in Hf.
      exists (r_mui r0). split; [|done]. apply elem_of_remove_dups, list_elem_of_fmap.
      apply ls_find_Some in Hf as [_ Hf]. by exists (p, r0).
Qed.

Lemma elem_of_ls_group s o q r :
  r ∈ snd (ls_group o s q)
  <-> shown (fun m => ls_find q m (ls_recs s)) (ls_wd s (prefix_is_v4 q)) o r.
Proof.
  cbn. rewrite list_elem_of_filter, (proj2 (ls_listing_ok s q)).
  unfold shown, ls_shown. naive_solver.
Qed.

Lemma ls_shown_key s o q r :
  shown (fun m => ls_find q m (ls_recs s)) (ls_wd s (prefix_is_v4 q)) o r -> q ∈ ls_keys s.
Proof. intros [(r0 & Hf & _) _]. eapply elem_of_ls_keys. by eexists. Qed.

End ListStore.
Arguments ListStore {_} M.

Section ListStoreLaws.
Context `{E : Extern} {M : Type}.
Implicit Types (s : ListStore M) (r : StoreRecord M).

Definition ls_insert (p : Prefix) r s : (unit + UpsertReport) * ListStore M :=
  (inr (mk_upsert 0 (negb (bool_decide (p ∈ ls_keys s)))
          (negb (bool_decide (is_Some (ls_find p (r_mui r) (ls_recs s))))) 0),
   mk_list_store ((p, r) :: ls_drop p (r_mui r) (ls_recs s)) (ls_wd s)).

Definition ls_withdraw (p : Prefix) (m : Z) s : (unit + unit) * ListStore M :=
  (inr tt,
   mk_list_store
     ((fun e => if ls_key p m e then (fst e, set_status Withdrawn (snd e)) else e)
        <$> ls_recs s) (ls_wd s)).

Definition ls_remove (m : Z) s : (unit + Z * Z) * ListStore M :=
  (inr (0, 0),
   mk_list_store (filter (fun e => r_mui (snd e) <> m) (ls_recs s))
     (fun f => ls_wd s f ∖ {[m]})).

Lemma ls_insert_find p r s q m :
  ls_find q m ((p, r) :: ls_drop p (r_mui r) (ls_recs s))
  = if bool_decide (q = p /\ m = r_mui r) then Some r else ls_find q m (ls_recs s).
Proof.
  cbn [ls_find]. unfold ls_key at 1. cbn [fst snd]. rewrite ls_find_drop.
  destruct (decide (p = q)) as [->|]; destruct (decide (r_mui r = m)) as [<-|];
    repeat case_bool_decide; naive_solver.
Qed.

Lemma ls_withdraw_find p m s q k :
  ls_find q k (ls_recs (snd (ls_withdraw p m s)))
  = if bool_decide (q = p /\ k = m)
    then set_status Withdrawn <$> ls_find q k (ls_recs s) else ls_find q k (ls_recs s).
Proof.
  cbn. induction (ls_recs s) as [|[p' r] l IH]; [by case_bool_decide|].
  rewrite fmap_cons. cbn [ls_find]. rewrite IH. unfold ls_key. cbn [fst snd].
  destruct (decide (p' = p /\ r_mui r = m)) as [[-> <-]|Hn].
  - rewrite (bool_decide_true (p = p /\ _)) by done. cbn [fst snd].
    change (r_mui (set_status Withdrawn r)) with (r_mui r).
    repeat case_bool_decide; naive_solver.
  - rewrite (bool_decide_false (p' = p /\ _)) by done. cbn [fst snd].
    repeat case_bool_decide; naive_solver.
Qed.

Lemma ls_remove_find m s q k :
  ls_find q k (ls_recs (snd (ls_remove m s)))
  = if bool_decide (k = m) then None else ls_find q k (ls_recs s).
Proof.
  unfold ls_remove. cbn [snd ls_recs].
  rewrite (ls_find_filter _ _ _ _ (negb (bool_decide (k = m)))); [by case_bool_decide|].
  intros e [_ <-]%ls_key_spec. by case_bool_decide.
Qed.

Lemma ls_match_longest p o s r :
  match_type o = LongestMatch -> include_less_specifics o = true ->
  (r ∈ qr_records (ls_match p o s)
   \/ exists pr, pr ∈ default [] (qr_less_specifics (ls_match p o s)) /\ r ∈ snd pr)
  <-> exists q, covers q p = true
        /\ shown (fun m => ls_find q m (ls_recs s)) (ls_wd s (prefix_is_v4 q)) o r.
Proof.
  intros Ho Hl. unfold ls_match. rewrite Hl. cbn [qr_records qr_less_specifics default].
  rewrite bool_decide_false by (rewrite Ho; done). cbn [orb].
  setoid_rewrite list_elem_of_fmap. setoid_rewrite list_elem_of_filter. split.
  - intros [H|(pr & (q & -> & [_ Hc] & _) & Hr%elem_of_ls_group)]; [|by exists q].
    destruct (covers p p) eqn:Hc; [|by apply not_elem_of_nil in H].
    apply elem_of_ls_group in H. by exists p.
  - intros (q & Hc & Hs). destruct (decide (q = p)) as [->|Hq].
    + left. rewrite Hc. by apply elem_of_ls_group.
    + right. exists (ls_group o s q). split; [|by apply elem_of_ls_group].
      exists q. split; [done|]. split; [done|]. by apply ls_shown_key in Hs.
Qed.

Lemma elem_of_ls_groups o s (P : Prefix -> Prop) `{!forall q, Decision (P q)} q r :
  (exists rs, (q, rs) ∈ ls_group o s <$> filter P (ls_keys s) /\ r ∈ rs)
  <-> P q /\ shown (fun m => ls_find q m (ls_recs s)) (ls_wd s (prefix_is_v4 q)) o r.
Proof.
  setoid_rewrite list_elem_of_fmap. setoid_rewrite list_elem_of_filter. split.
  - intros (rs & (q' & Heq & HP & _) & Hr). injection Heq as -> ->.
    by rewrite <- elem_of_ls_group.
  - intros (HP & Hs). exists (snd (ls_group o s q)).
    split; [|by apply elem_of_ls_group]. exists q. split; [done|]. split; [done|].
    by apply ls_shown_key in Hs.
Qed.

Lemma ls_groups_once o s (P : Prefix -> Prop) `{!forall q, Decision (P q)} :
  NoDup (ls_group o s <$> filter P (ls_keys s)).*1.
Proof.
  rewrite <- list_fmap_compose, (list_fmap_ext _ id) by done. rewrite list_fmap_id.
  apply NoDup_filter, NoDup_remove_dups.
Qed.

Lemma ls_match_once p o s :
  let res := ls_match p o s in
  NoDup (default [] (qr_more_specifics res)).*1
  /\ NoDup (default [] (qr_less_specifics res)).*1
  /\ forall q rs, (q, rs) ∈ default [] (qr_more_specifics res)
                    ++ default [] (qr_less_specifics res) -> NoDup (r_mui <$> rs).
Proof.
  unfold ls_match. cbn [qr_more_specifics qr_less_specifics]. split_and!.
  - destruct (include_more_specifics o); [apply ls_groups_once|constructor].
  - destruct (include_less_specifics o); [apply ls_groups_once|constructor].
  - intros q rs [H|H]%elem_of_app; revert H.
    + destruct (include_more_specifics o); cbn; [|by intros ?%not_elem_of_nil].
      intros (k & [= -> ->] & _)%list_elem_of_fmap. apply NoDup_fmap_filter, ls_listing_ok.
    + destruct (include_less_specifics o); cbn; [|by intros ?%not_elem_of_nil].
      intros (k & [= -> ->] & _)%list_elem_of_fmap. apply NoDup_fmap_filter, ls_listing_ok.
Qed.

Lemma ls_match_exact p o s :
  match_type o = ExactMatch ->
  NoDup (r_mui <$> qr_records (ls_match p o s))
  /\ forall r, r ∈ qr_records (ls_match p o s)
       <-> shown (fun m => ls_find p m (ls_recs s)) (ls_wd s (prefix_is_v4 p)) o r.
Proof.
  intros Ho. unfold ls_match. cbn [qr_records]. rewrite bool_decide_true by done. cbn [orb].
  split; [|intros r; apply elem_of_ls_group].
  cbn. apply NoDup_fmap_filter, ls_listing_ok.
Qed.

Lemma ls_iter_ok f m w s q r :
  (exists rs, (q, rs) ∈ ls_iter f m w s /\ r ∈ rs)
  <-> prefix_is_v4 q = f
      /\ exists r0, ls_find q m (ls_recs s) = Some r0 /\ r = effective (ls_wd s f) r0
                    /\ (w = true \/ r_status r <> Withdrawn).
Proof.
  unfold ls_iter. setoid_rewrite list_elem_of_omap. split.
  - intros (rs & (q' & _ & H) & Hr). apply bind_Some in H as (r0 & Hf & H).
    destruct (bool_decide _ && _) eqn:Hb; [|done]. injection H as -> <-.
    apply list_elem_of_singleton in Hr as ->. apply andb_true_iff in Hb as [Hv Hw].
    apply bool_decide_eq_true in Hv. split; [done|]. exists r0. split; [done|]. split; [done|].
    destruct w; [by left|]. right. by apply negb_true_iff, bool_decide_eq_false in Hw.
  - intros (Hv & r0 & Hf & -> & Hw). eexists. split; [|by apply list_elem_of_singleton].
    exists q. split; [by eapply elem_of_ls_keys|]. rewrite Hf. cbn.
    rewrite bool_decide_true by done. destruct Hw as [->|Hw]; [done|].
    rewrite bool_decide_false by done. by rewrite orb_true_r.
Qed.

Definition ls_walk (f : option bool) s : list (PrefixRecord M) :=
  (fun q => (q, ls_listing s q)) <$> filter (fun q => f = None \/ f = Some (prefix_is_v4 q)) (ls_keys s).

Lemma elem_of_ls_walk f s q l :
  (q, l) ∈ ls_walk f s
  <-> l = ls_listing s q /\ (f = None \/ f = Some (prefix_is_v4 q)) /\ q ∈ ls_keys s.
Proof.
  unfold ls_walk. rewrite list_elem_of_fmap. setoid_rewrite list_elem_of_filter.
  naive_solver.
Qed.

#[refine] Definition list_store : PrefixStore M := {|
  Store := ListStore M;
  PrefixStoreError := unit;
  StoreNotReadyError := tt;
  stored_at s p m := ls_find p m (ls_recs s);
  withdrawn_muis := ls_wd;
  store_default := mk_list_store [] (fun _ => ∅);
  st_insert := ls_insert;
  st_contains p m s := bool_decide (is_Some (ls_find p m (ls_recs s)));
  st_withdraw_prefix p m _ := ls_withdraw p m;
  st_mark_withdrawn f m s := (inr tt, ls_set_wd f ({[m]} ∪ ls_wd s f) s);
  st_mark_withdrawn_all m s :=
    (inr tt, mk_list_store (ls_recs s) (fun f => {[m]} ∪ ls_wd s f));
  st_mark_active f m s := (inr tt, ls_set_wd f (ls_wd s f ∖ {[m]}) s);
  st_remove_mui := ls_remove;
  st_prefixes f s := ls_walk f s;
  st_keys := ls_keys;
  st_keys_of f s := filter (fun q => prefix_is_v4 q = f) (ls_keys s);
  st_records_for_prefix p s := inr (Some (ls_listing s p));
  st_match_prefix p o s := inr (ls_match p o s);
  st_iter_for_mui f m w s := inr (ls_iter f m w s)
|}.
Proof.
  - intros s p m r H. exact (proj1 (ls_find_Some _ _ _ _ H)).
  - done.
  - done.
  - intros p r s rep s' [= <- <-]. split; [apply ls_insert_find|done].
  - done.
  - intros p m t s s' H. change (ls_withdraw p m s = (inr tt, s')) in H.
    pose proof (f_equal snd H) as Hs. cbn [snd] in Hs. subst s'.
    split; [|split; [|done]].
    + intros q k Hn. rewrite ls_withdraw_find. by rewrite bool_decide_false.
    + rewrite ls_withdraw_find, bool_decide_true by done.
      by destruct (ls_find p m (ls_recs s)).
  - intros f m s s' [= <-]. split; [done|]. intros g. cbn. by case_bool_decide; subst.
  - intros m s s' [= <-]. done.
  - intros f m s s' [= <-]. split; [done|]. intros g. cbn. by case_bool_decide; subst.
  - intros m s n s' [= <- <-]. split; [apply (ls_remove_find m s)|done].
  - intros f s. unfold ls_walk. rewrite <- list_fmap_compose.
    rewrite (list_fmap_ext _ id) by done. rewrite list_fmap_id.
    apply NoDup_filter, NoDup_remove_dups.
  - intros f s p l (-> & Hf & _)%elem_of_ls_walk. split; [naive_solver|apply ls_listing_ok].
  - intros s. apply NoDup_remove_dups.
  - intros s p m. apply elem_of_ls_keys.
  - intros f s. apply NoDup_filter, NoDup_remove_dups.
  - intros f s p [Hf _]%list_elem_of_filter. exact Hf.
  - intros f s p m Hs Hf. apply list_elem_of_filter. split; [done|].
    exact (elem_of_ls_keys s p m Hs).
  - intros p s l [= <-]. apply ls_listing_ok.
  - done.
  - intros p o s res Ho [= <-]. by apply ls_match_exact.
  - intros p o s res Ho Hm [= <-] q r. unfold ls_match. cbn [qr_more_specifics]. rewrite Hm.
    etransitivity; [apply (elem_of_ls_groups o s (fun q => q <> p /\ covers p q = true))|tauto].
  - intros p o s res Ho Hl [= <-] q r. unfold ls_match. cbn [qr_less_specifics]. rewrite Hl.
    etransitivity; [apply (elem_of_ls_groups o s (fun q => q <> p /\ covers q p = true))|tauto].
  - intros p o s res [= <-]. apply ls_match_once.
  - intros p o s res [= <-]. unfold ls_match. cbn. by split; intros ->.
  - intros p o s res Ho [= <-] _. done.
  - intros p o s res Ho Hl [= <-] r. by apply ls_match_longest.
  - intros f m w s l [= <-] q r. apply ls_iter_ok.
Defined.

Lemma list_store_reliable : ReliableStore M (H := list_store).
Proof.
  split; intros; cbn; eauto.
  { split; [|done]. intros q k. change (ls_find q k (ls_recs (snd (ls_withdraw p m s)))
      = ls_find q k (ls_recs s)). rewrite ls_withdraw_find. case_bool_decide as Hk; [|done].
    destruct Hk as [-> ->]. by match goal with H : stored_at _ _ _ = None |- _ =>
      change (ls_find p m (ls_recs s) = None) in H; rewrite H end. }
  apply list_elem_of_fmap. exists (p, ls_listing s p). split; [done|].
  apply elem_of_ls_walk. split; [done|].
  split; [|match goal with H : is_Some _ |- _ => exact (elem_of_ls_keys s p m H) end].
  destruct f; [right; f_equal; symmetry; auto|by left].
Qed.

End ListStoreLaws.
Arguments list_store {_} M.
