(* ===== verification/Rib.v ===== *)
(** * The RIB ([src/units/rib_unit/rib.rs])

    The unicast and the multicast store with the ingress register they share:
    insertion, withdrawal of prefixes and of whole ingresses with the batched
    compaction of their attributes, physical removal, the garbage collection of
    BMP peers that stay away, and the walks that read the table.  [None] of the
    [Run] monad is a panic; the withdraw lock makes the writers of the
    withdrawn marks exclusive, so each of them is one step. *)

From S2P Require Import Prelude Net Register Payload Interner RibStore.
From Stdlib Require Import ZArith Lia.
From stdpp Require Import base numbers list gmap fin_maps.

Local Open Scope Z_scope.

Definition FLUSH_AT : Z := 64 * 1024.
Definition DUMP_KEY_CHUNK : nat := 512.
Definition MAX_CONCURRENT_DUMPS : Z := 8.

(** ** The number of dumps in flight ([DumpGuard]) *)
Definition dump_enter (active : Z) : Z := active + 1.

(** [try_enter]: an exchange that loses the race reports the actual count, one
    that wins finds the count it expected; the answer is the count it leaves. *)
Fixpoint dump_try_enter (cur : Z) (lost : list Z) : option Z :=
  if MAX_CONCURRENT_DUMPS <=? cur then None
  else match lost with
       | [] => Some (cur + 1)
       | actual :: lost => dump_try_enter actual lost
       end.

Definition dump_drop (active : Z) : Z := active - 1.

Section Rib.
Context `{E : Extern} `{PS : !PrefixStore RotondaPaMap}.

Record Rib : Type := mk_rib {
  unicast : option (Store RotondaPaMap);
  multicast : option (Store RotondaPaMap);
  rib_register : Register;
  path_attribute_interner : Interner
}.

(** [Rib::new]. *)
Definition rib_new (r : Register) : Rib :=
  mk_rib (Some store_default) (Some store_default) r interner_default.

Definition store_of (mc : bool) (r : Rib) : option (Store RotondaPaMap) :=
  if mc then multicast r else unicast r.

Definition set_store (mc : bool) (s : Store RotondaPaMap) (r : Rib) : Rib :=
  if mc then mk_rib (unicast r) (Some s) (rib_register r) (path_attribute_interner r)
  else mk_rib (Some s) (multicast r) (rib_register r) (path_attribute_interner r).

Definition set_rib_register (reg : Register) (r : Rib) : Rib :=
  mk_rib (unicast r) (multicast r) reg (path_attribute_interner r).

Definition set_interner (i : Interner) (r : Rib) : Rib :=
  mk_rib (unicast r) (multicast r) (rib_register r) i.

(** An operation of a store behind [.as_ref().unwrap()]. *)
Definition on_store {A} (mc : bool) (op : Store RotondaPaMap -> A * Store RotondaPaMap)
  : Run Rib A :=
  fun r => match store_of mc r with
           | Some s => let '(a, s') := op s in (Some a, set_store mc s' r)
           | None => (None, r)
           end.

(** [mark_ingress_active]: failures are logged. *)
Definition mark_ingress_active (id : IngressId) : Run Rib unit :=
  _ ← on_store false (st_mark_active true id);
  _ ← on_store false (st_mark_active false id);
  _ ← on_store true (st_mark_active true id);
  _ ← on_store true (st_mark_active false id);
  mret tt.

Definition connected_info : IngressInfo := with_state Connected info_default.

(** The reactivation of a mui that was withdrawn as a whole. *)
Definition reactivate (mui : IngressId) : Run Rib unit :=
  _ ← mark_ingress_active mui;
  run_modify (fun r => set_rib_register
                         (snd (update_info mui connected_info (rib_register r))) r).

Definition no_report : UpsertReport := mk_upsert 0 false false 0.

(** The attributes as they are stored. *)
Definition dedup (deduplicate : bool) (p : RotondaPaMap) : Run Rib RotondaPaMap :=
  fun r =>
    if deduplicate then
      let '(p', i) := dedup_with p (path_attribute_interner r) in (p', set_interner i r)
    else (Some p, r).

(** [insert_prefix]. *)
Definition insert_prefix (p : Prefix) (mc : bool) (val : RotondaRoute)
    (status : RouteStatus) (ltime : Z) (mui : IngressId) (retain deduplicate : bool)
  : Run Rib (PrefixStoreError RotondaPaMap + UpsertReport) :=
  r ← run_get;
  match store_of mc r with
  | None => mret (inl StoreNotReadyError)
  | Some s =>
      if bool_decide (status = Withdrawn) then
        if negb retain then
          if negb (st_contains p mui s) then mret (inr no_report)
          else on_store mc (st_insert p (mk_record mui ltime Withdrawn empty_path_attributes))
        else
          res ← on_store mc (st_withdraw_prefix p mui 0);
          mret (match res with inl e => inl e | inr _ => inr no_report end)
      else
        _ ← (if bool_decide (status = Active)
                && (bool_decide (mui ∈ withdrawn_muis s true)
                    || bool_decide (mui ∈ withdrawn_muis s false))
             then reactivate mui else mret tt);
        pa ← dedup deduplicate (rotonda_pamap val);
        on_store mc (st_insert p (mk_record mui ltime status pa))
  end.

(** The prefix of a route and whether it goes to the multicast store. *)
Definition rr_prefix (val : RotondaRoute) : Prefix :=
  match val with
  | RR_Ipv4Unicast n _ | RR_Ipv6Unicast n _
  | RR_Ipv4Multicast n _ | RR_Ipv6Multicast n _ => n
  end.

Definition rr_multicast (val : RotondaRoute) : bool :=
  match val with
  | RR_Ipv4Unicast _ _ | RR_Ipv6Unicast _ _ => false
  | RR_Ipv4Multicast _ _ | RR_Ipv6Multicast _ _ => true
  end.

(** [insert]. *)
Definition rib_insert (val : RotondaRoute) (status : RouteStatus) (ltime : Z)
    (id : IngressId) (retain deduplicate : bool)
  : Run Rib (PrefixStoreError RotondaPaMap + UpsertReport) :=
  insert_prefix (rr_prefix val) (rr_multicast val) val status ltime id retain deduplicate.

(** ** Compaction of the attributes of withdrawn ingresses *)
Context `{HP : !HashIter Z (list Prefix)}.

(** [group_prefix_by_ingress]: the muis already recorded for this prefix are
    kept in an array of eight. *)
Fixpoint group_records (p : Prefix) (ids : gset IngressId)
    (rs : list (StoreRecord RotondaPaMap)) (matched : list Z) (added : Z)
    (out : gmap Z (list Prefix)) : Z * gmap Z (list Prefix) :=
  match rs with
  | [] => (added, out)
  | r :: rs =>
      let mui := r_mui r in
      if negb (bool_decide (mui ∈ ids)) then group_records p ids rs matched added out
      else if bool_decide (mui ∈ matched) then group_records p ids rs matched added out
      else
        group_records p ids rs
          (if (length matched <? 8)%nat then matched ++ [mui] else matched)
          (added + 1) (<[mui := default [] (out !! mui) ++ [p]]> out)
  end.

Definition group_prefix_by_ingress (pr : PrefixRecord RotondaPaMap) (ids : gset IngressId)
    (out : gmap Z (list Prefix)) : Z * gmap Z (list Prefix) :=
  group_records (fst pr) ids (snd pr) [] 0 out.

Definition compacted (mui : IngressId) : StoreRecord RotondaPaMap :=
  mk_record mui 0 Withdrawn empty_path_attributes.

(** [flush_compaction]: insertions that fail are logged. *)
Definition flush_compaction (pending : gmap Z (list Prefix)) (s : Store RotondaPaMap)
  : Store RotondaPaMap :=
  foldl (fun s e => foldl (fun s p => snd (st_insert p (compacted (fst e)) s)) s (snd e))
    s (hm_iter pending).

(** The loop of [drain_compaction_iter].  The records a flush writes belong to
    prefixes that the walk has left behind. *)
Fixpoint drain_loop (ids : gset IngressId) (iter : list (PrefixRecord RotondaPaMap))
    (pending : gmap Z (list Prefix)) (pending_count : Z) (s : Store RotondaPaMap)
  : Store RotondaPaMap :=
  match iter with
  | [] => flush_compaction pending s
  | pr :: iter =>
      let '(added, pending) := group_prefix_by_ingress pr ids pending in
      let pending_count := pending_count + added in
      if FLUSH_AT <=? pending_count
      then drain_loop ids iter ∅ 0 (flush_compaction pending s)
      else drain_loop ids iter pending pending_count s
  end.

Definition drain_compaction_iter (ids : gset IngressId)
    (iter : list (PrefixRecord RotondaPaMap)) (s : Store RotondaPaMap)
  : Store RotondaPaMap := drain_loop ids iter ∅ 0 s.

(** [compact_withdrawn_attributes_in_store_batch]. *)
Definition compact_batch (mc : bool) (ids : gset IngressId) (afisafi : option AfiSafiType)
    (r : Rib) : Rib :=
  match store_of mc r with
  | None => r
  | Some s =>
      if bool_decide (ids = ∅) then r
      else
        let f := match afisafi with
                 | Some (Ipv4Unicast | Ipv4Multicast) => Some true
                 | Some (Ipv6Unicast | Ipv6Multicast) => Some false
                 | _ => None
                 end in
        set_store mc (drain_compaction_iter ids (st_prefixes f s) s) r
  end.

(** The ids with this scope. *)
Definition bucket (t : option AfiSafiType) (ids : list (IngressId * option AfiSafiType))
  : gset IngressId :=
  list_to_set (filter (fun e => snd e = t) ids).*1.

(** [compact_withdrawn_attributes_for_ingresses]: a bucket without ids needs no
    walk. *)
Definition compact_bucket (mc : bool) (t : option AfiSafiType)
    (ids : list (IngressId * option AfiSafiType)) (r : Rib) : Rib :=
  if bool_decide (bucket t ids = ∅) then r else compact_batch mc (bucket t ids) t r.

Definition compact_withdrawn_attributes (ids : list (IngressId * option AfiSafiType))
    (r : Rib) : Rib :=
  compact_bucket true (Some Ipv6Multicast) ids
    (compact_bucket true (Some Ipv4Multicast) ids
      (compact_bucket false (Some Ipv6Unicast) ids
        (compact_bucket false (Some Ipv4Unicast) ids
          (compact_bucket true None ids (compact_bucket false None ids r))))).

(** The marks of one ingress; any other address family is a panic. *)
Definition mark_withdrawn (e : IngressId * option AfiSafiType) : Run Rib unit :=
  let '(id, t) := e in
  match t with
  | None =>
      _ ← on_store false (st_mark_withdrawn_all id);
      _ ← on_store true (st_mark_withdrawn_all id);
      mret tt
  | Some Ipv4Unicast => _ ← on_store false (st_mark_withdrawn true id); mret tt
  | Some Ipv6Unicast => _ ← on_store false (st_mark_withdrawn false id); mret tt
  | Some Ipv4Multicast => _ ← on_store true (st_mark_withdrawn true id); mret tt
  | Some Ipv6Multicast => _ ← on_store true (st_mark_withdrawn false id); mret tt
  | Some _ => run_fail
  end.

(** [withdraw_for_ingresses]. *)
Definition withdraw_for_ingresses (ids : list (IngressId * option AfiSafiType))
    (retain : bool) : Run Rib unit :=
  if bool_decide (ids = []) then mret tt
  else
    _ ← (if retain then mret tt else run_modify (compact_withdrawn_attributes ids));
    run_for ids mark_withdrawn.

Definition withdraw_for_ingress (id : IngressId) (t : option AfiSafiType) (retain : bool)
  : Run Rib unit := withdraw_for_ingresses [(id, t)] retain.

(** [remove_for_ingresses]. *)
Definition remove_mui_from (mc : bool) (id : IngressId) (r : Rib) : Rib :=
  match store_of mc r with
  | Some s => set_store mc (snd (st_remove_mui id s)) r
  | None => r
  end.

Definition remove_for_ingresses (ids : list IngressId) (r : Rib) : Rib :=
  foldl (fun r id => remove_mui_from true id (remove_mui_from false id r)) r ids.

(** ** Garbage collection

    [gc_disconnected_bmp_peers].  The snapshot of the register is taken before
    the entries are looked at one by one: other sessions run in between. *)
Definition is_disconnected (i : IngressInfo) : bool :=
  bool_decide (state i = Some Disconnected).

Definition gc_ids (P : IngressId -> IngressInfo -> bool) (snap : gmap Z IngressInfo)
  : gset IngressId :=
  dom (filter (fun e => P (fst e) (snd e) = true) snap).

Definition parents_in_use (snap : gmap Z IngressInfo) : gset IngressId :=
  list_to_set (omap (fun e => parent_ingress (snd e)) (map_to_list snap)).

Definition gc_peers (snap : gmap Z IngressInfo) : gset IngressId :=
  gc_ids (fun _ i => is_disconnected i
                     && bool_decide (ingress_type i = Some BgpViaBmp)) snap.

Definition gc_routers (snap : gmap Z IngressInfo) : gset IngressId :=
  gc_ids (fun _ i => is_disconnected i && bool_decide (ingress_type i = Some Bmp)) snap.

Definition childless_routers (snap : gmap Z IngressInfo) : gset IngressId :=
  gc_routers snap ∖ parents_in_use snap.

(** [ids.filter(|id| register.remove_if_disconnected(id).is_some())]. *)
Fixpoint reclaim (ids : list IngressId) (reg : Register) : list IngressId * Register :=
  match ids with
  | [] => ([], reg)
  | id :: ids =>
      let '(removed, reg) := remove_if_disconnected id reg in
      let '(l, reg) := reclaim ids reg in
      (match removed with Some _ => id :: l | None => l end, reg)
  end.

Context `{HS : !HashIter Z unit}.

(** The elements of a [HashSet], in its order. *)
Definition set_iter (x : gset Z) : list Z := (hm_iter (gset_to_gmap tt x)).*1.

Definition gc_disconnected_bmp_peers (snap : gmap Z IngressInfo) (prev : gset IngressId)
    (r : Rib) : gset IngressId * Rib :=
  let '(reclaimed, reg) := reclaim (set_iter (gc_peers snap ∩ prev)) (rib_register r) in
  let r := remove_for_ingresses reclaimed (set_rib_register reg r) in
  let '(_, reg) := reclaim (set_iter (childless_routers snap ∩ prev)) (rib_register r) in
  (gc_peers snap ∪ gc_routers snap, set_rib_register reg r).

(** A turn of the task [rib-gc]: the candidates of a sweep are handed to the
    next. *)
Definition gc_tick (candidates : gset IngressId) (r : Rib) : gset IngressId * Rib :=
  gc_disconnected_bmp_peers (info (rib_register r)) candidates r.

(** ** Reading the table *)

(** [r.status != RouteStatus::Withdrawn]. *)
Definition not_withdrawn (r : StoreRecord RotondaPaMap) : Prop := r_status r <> Withdrawn.

#[local] Instance not_withdrawn_dec r : Decision (not_withdrawn r).
Proof. unfold not_withdrawn. apply _. Defined.

(** [iter_all_prefix_records]. *)
Definition iter_all_prefix_records (r : Rib)
  : PrefixStoreError RotondaPaMap + list (PrefixRecord RotondaPaMap) :=
  match unicast r with
  | None => inl StoreNotReadyError
  | Some s =>
      inr (omap (fun pr =>
             match filter not_withdrawn (snd pr) with
             | [] => None
             | meta => Some (fst pr, meta)
             end) (st_prefixes None s))
  end.

(** One chunk of [stream_prefix_records]: the batch that is fetched. The store
    may change from one key to the next: [at_ i] is the store when the [i]-th
    key is looked up. *)
Definition fetch_prefix (s : Store RotondaPaMap) (p : Prefix)
  : option (PrefixRecord RotondaPaMap) :=
  match st_records_for_prefix p s with
  | inr (Some meta) =>
      match filter not_withdrawn meta with
      | [] => None
      | meta => Some (p, meta)
      end
  | _ => None
  end.

Definition fetch_chunk (at_ : nat -> Store RotondaPaMap) (i : nat) (chunk : list Prefix)
  : list (PrefixRecord RotondaPaMap) :=
  omap (fun e => fetch_prefix (at_ (i + fst e)%nat) (snd e))
    (zip (seq 0 (length chunk)) chunk).

(** The inner loop: emit the batch to the closure until it answers [false]. *)
Fixpoint emit_batch {A} (f : PrefixRecord RotondaPaMap -> St A bool)
    (batch : list (PrefixRecord RotondaPaMap)) (count : Z) : St A (bool * Z) :=
  match batch with
  | [] => mret (true, count)
  | pr :: batch =>
      ok ← f pr;
      if ok : bool then emit_batch f batch (count + 1) else mret (false, count + 1)
  end.

(** [keys.chunks(n)]. *)
Fixpoint chunks {A} (fuel n : nat) (l : list A) : list (list A) :=
  match fuel, l with
  | O, _ | _, [] => []
  | S fuel, _ => take n l :: chunks fuel n (drop n l)
  end.

(** The outer loop; [late i] says whether the deadline has passed when the chunk
    that starts at key [i] is done. *)
Fixpoint stream_loop {A} (f : PrefixRecord RotondaPaMap -> St A bool)
    (at_ : nat -> Store RotondaPaMap) (late : nat -> bool) (cs : list (list Prefix))
    (i : nat) (count : Z) : St A Z :=
  match cs with
  | [] => mret count
  | chunk :: cs =>
      res ← emit_batch f (fetch_chunk at_ i chunk) count;
      if negb (fst res) then mret (snd res)
      else if late i then mret (snd res)
      else stream_loop f at_ late cs (i + length chunk) (snd res)
  end.

(** [stream_prefix_records]. *)
Definition stream_prefix_records {A} (f : PrefixRecord RotondaPaMap -> St A bool)
    (at_ : nat -> Store RotondaPaMap) (late : nat -> bool) (r : Rib)
  : St A (PrefixStoreError RotondaPaMap + Z) :=
  match unicast r with
  | None => mret (inl StoreNotReadyError)
  | Some s =>
      let keys := st_keys s in
      count ← stream_loop f at_ late (chunks (length keys) DUMP_KEY_CHUNK keys) 0 0;
      mret (inr count)
  end.

Definition nothing_found (res : QueryResult RotondaPaMap) : bool :=
  bool_decide (qr_records res = [])
  && match qr_less_specifics res with None => true | Some _ => false end
  && match qr_more_specifics res with None => true | Some _ => false end.

(** [match_prefix]: the multicast store answers when the unicast store has
    nothing. *)
Definition rib_match_prefix (p : Prefix) (o : MatchOptions) (r : Rib)
  : PrefixStoreError RotondaPaMap + QueryResult RotondaPaMap :=
  match unicast r with
  | None => inl StoreNotReadyError
  | Some s =>
      match st_match_prefix p o s with
      | inl e => inl e
      | inr res =>
          if nothing_found res then
            match multicast r with
            | None => inl StoreNotReadyError
            | Some ms =>
                match st_match_prefix p o ms with
                | inl e => inl e
                | inr mres => if negb (nothing_found mres) then inr mres else inr res
                end
            end
          else inr res
      end
  end.

(** [match_ingress_id]. *)
Definition match_ingress_id (id : IngressId) (r : Rib)
  : PrefixStoreError RotondaPaMap + list (PrefixRecord RotondaPaMap) :=
  match unicast r with
  | None => inl StoreNotReadyError
  | Some s =>
      match st_iter_for_mui true id false s, st_iter_for_mui false id false s with
      | inl e, _ | _, inl e => inl e
      | inr l4, inr l6 => inr (l4 ++ l6)
      end
  end.

End Rib.
