(* ===== verification/RibView.v ===== *)
(** * What the RIB holds

    The table as its readers see it ([active]) and as it is stored ([recs],
    [wd]), and what each operation of [Rib] does to it. *)

From S2P Require Import Prelude Net Register Payload Interner RibStore Rib.
From Stdlib Require Import ZArith Lia.
From stdpp Require Import base numbers list gmap fin_maps.

Local Open Scope Z_scope.

(** The families that the withdrawal of an ingress with this scope concerns:
    [mc] multicast, [f] IPv4. *)
Definition in_scope (t : option AfiSafiType) (mc f : bool) : bool :=
  match t with
  | None => true
  | Some Ipv4Unicast => negb mc && f
  | Some Ipv6Unicast => negb mc && negb f
  | Some Ipv4Multicast => mc && f
  | Some Ipv6Multicast => mc && negb f
  | Some _ => false
  end.

Definition scoped (ids : list (IngressId * option AfiSafiType)) (mc f : bool) (k : IngressId)
  : bool :=
  existsb (fun e => bool_decide (fst e = k) && in_scope (snd e) mc f) ids.

Definition supported (t : option AfiSafiType) : Prop :=
  match t with
  | None | Some (Ipv4Unicast | Ipv6Unicast | Ipv4Multicast | Ipv6Multicast) => True
  | _ => False
  end.

Section View.
Context `{E : Extern} `{PS : !PrefixStore RotondaPaMap}.

Definition recs (r : Rib) (mc : bool) (p : Prefix) (m : Z)
  : option (StoreRecord RotondaPaMap) := store_of mc r ≫= fun s => stored_at s p m.

Definition wd (r : Rib) (mc f : bool) : gset Z :=
  from_option (fun s => withdrawn_muis s f) ∅ (store_of mc r).

(** The route of a peer for a prefix, unless it is withdrawn. *)
Definition active (r : Rib) (mc : bool) (p : Prefix) (m : Z) : option RotondaPaMap :=
  rc ← recs r mc p m;
  if bool_decide (r_status rc = Withdrawn) || bool_decide (m ∈ wd r mc (prefix_is_v4 p))
  then None else Some (r_meta rc).

Record ready (r : Rib) : Prop := {
  ready_stores mc : is_Some (store_of mc r);
  ready_interner : interner_inv (path_attribute_interner r)
}.

Lemma rib_new_ready reg : ready (rib_new reg).
Proof. split; [intros []; by eexists|apply interner_default_inv]. Qed.

(** Operations that only change the stores. *)
Record stores_only (r r' : Rib) : Prop := {
  so_ready : ready r';
  so_register : rib_register r' = rib_register r;
  so_interner : path_attribute_interner r' = path_attribute_interner r
}.

Lemma stores_only_refl r : ready r -> stores_only r r.
Proof. by split. Qed.

Lemma stores_only_trans r1 r2 r3 :
  stores_only r1 r2 -> stores_only r2 r3 -> stores_only r1 r3.
Proof. intros [_ ? ?] [? ? ?]. split; [done|congruence|congruence]. Qed.

Lemma store_of_set mc mc' s r :
  store_of mc' (set_store mc s r) = if bool_decide (mc' = mc) then Some s else store_of mc' r.
Proof. by destruct mc, mc'. Qed.

Lemma set_store_only mc s r : ready r -> stores_only r (set_store mc s r).
Proof.
  intros [Hs Hi]. split; [split|by destruct mc|by destruct mc].
  - intros mc'. rewrite store_of_set. case_bool_decide; [by eexists|done].
  - by destruct mc.
Qed.

Lemma recs_set mc s r mc' p m :
  recs (set_store mc s r) mc' p m
  = if bool_decide (mc' = mc) then stored_at s p m else recs r mc' p m.
Proof. unfold recs. rewrite store_of_set. by case_bool_decide. Qed.

Lemma wd_set mc s r mc' f :
  wd (set_store mc s r) mc' f
  = if bool_decide (mc' = mc) then withdrawn_muis s f else wd r mc' f.
Proof. unfold wd. rewrite store_of_set. by case_bool_decide. Qed.

(** A store operation, by its effect on the view. *)
Lemma on_store_run {A} mc (op : Store RotondaPaMap -> A * Store RotondaPaMap) r :
  ready r ->
  exists s, store_of mc r = Some s
    /\ on_store mc op r = (Some (fst (op s)), set_store mc (snd (op s)) r).
Proof.
  intros [Hs _]. destruct (Hs mc) as [s Hr]. exists s. split; [done|].
  unfold on_store. rewrite Hr. by destruct (op s).
Qed.

Lemma recs_store mc r s p m : store_of mc r = Some s -> recs r mc p m = stored_at s p m.
Proof. unfold recs. by intros ->. Qed.

Lemma wd_store mc r s f : store_of mc r = Some s -> wd r mc f = withdrawn_muis s f.
Proof. unfold wd. by intros ->. Qed.

Lemma recs_mui r mc p m rc : recs r mc p m = Some rc -> r_mui rc = m.
Proof. intros (s & _ & H)%bind_Some. by apply stored_mui in H. Qed.

Lemma active_ext r r' mc p m :
  recs r' mc p m = recs r mc p m ->
  (m ∈ wd r' mc (prefix_is_v4 p) <-> m ∈ wd r mc (prefix_is_v4 p)) ->
  active r' mc p m = active r mc p m.
Proof.
  intros Hr Hw. unfold active. rewrite Hr.
  by rewrite (bool_decide_ext _ _ Hw).
Qed.

Lemma active_Some r mc p m pa :
  active r mc p m = Some pa
  <-> exists rc, recs r mc p m = Some rc /\ r_status rc <> Withdrawn
        /\ m ∉ wd r mc (prefix_is_v4 p) /\ r_meta rc = pa.
Proof.
  unfold active. rewrite bind_Some. split.
  - intros (rc & Hr & H). exists rc. repeat case_bool_decide; naive_solver.
  - intros (rc & Hr & Hs & Hw & <-). exists rc. by rewrite !bool_decide_false.
Qed.

Context `{RS : !ReliableStore RotondaPaMap}.

(** ** Insertion of a record *)
Lemma insert_run mc p rc r :
  ready r ->
  exists rep r', on_store mc (st_insert p rc) r = (Some (inr rep), r')
    /\ stores_only r r'
    /\ (forall mc' q k, recs r' mc' q k
          = if bool_decide (mc' = mc /\ q = p /\ k = r_mui rc) then Some rc else recs r mc' q k)
    /\ (forall mc' f, wd r' mc' f = wd r mc' f).
Proof.
  intros Hr. destruct (on_store_run mc (st_insert p rc) r Hr) as (s & Hs & ->).
  destruct (insert_reliable p rc s) as [rep Hrep]. rewrite Hrep.
  destruct (st_insert p rc s) as [res s'] eqn:Hi. cbn in Hrep. subst res.
  apply insert_ok in Hi as [Hi Hw]. exists rep. eexists. split; [done|]. cbn [snd].
  split; [by apply set_store_only|]. split.
  - intros mc' q k. rewrite recs_set, Hi.
    destruct (decide (mc' = mc)) as [->|Hne].
    + rewrite (bool_decide_true (mc = mc)), (recs_store _ _ _ _ _ Hs) by done.
      repeat case_bool_decide; naive_solver.
    + rewrite (bool_decide_false (mc' = mc)), bool_decide_false by naive_solver. done.
  - intros mc' f. rewrite wd_set, Hw. case_bool_decide as Hm; [|done]. subst mc'.
    by rewrite (wd_store _ _ _ _ Hs).
Qed.

(** ** Marks *)
Lemma mark_run mc (op : Store RotondaPaMap -> (PrefixStoreError RotondaPaMap + unit) * Store RotondaPaMap)
    (g : bool -> gset Z -> gset Z) r :
  (forall s, exists s', op s = (inr tt, s')
    /\ (forall q k, stored_at s' q k = stored_at s q k)
    /\ (forall f, withdrawn_muis s' f = g f (withdrawn_muis s f))) ->
  ready r ->
  exists r', on_store mc op r = (Some (inr tt), r') /\ stores_only r r'
    /\ (forall mc' q k, recs r' mc' q k = recs r mc' q k)
    /\ (forall mc' f, wd r' mc' f
          = if bool_decide (mc' = mc) then g f (wd r mc' f) else wd r mc' f).
Proof.
  intros Hop Hr. destruct (on_store_run mc op r Hr) as (s & Hs & ->).
  destruct (Hop s) as (s' & -> & Hrec & Hw). cbn [fst snd]. eexists. split; [done|].
  split; [by apply set_store_only|]. split.
  - intros mc' q k. rewrite recs_set, Hrec. case_bool_decide as Hm; [|done]. subst mc'.
    by rewrite (recs_store _ _ _ _ _ Hs).
  - intros mc' f. rewrite wd_set, Hw. case_bool_decide as Hm; [|done]. subst mc'.
    by rewrite (wd_store _ _ _ _ Hs).
Qed.

Lemma mark_active_fun f m s :
  exists s', st_mark_active f m s = (inr tt, s')
    /\ (forall q k, stored_at s' q k = stored_at s q k)
    /\ (forall f', withdrawn_muis s' f'
          = (fun f' x => if bool_decide (f' = f) then x ∖ {[m]} else x) f' (withdrawn_muis s f')).
Proof.
  pose proof (mark_active_reliable f m s) as Hf.
  destruct (st_mark_active f m s) as [res s'] eqn:Hs. cbn in Hf. subst res.
  exists s'. split; [done|]. by apply mark_active_ok.
Qed.

Lemma mark_withdrawn_fun f m s :
  exists s', st_mark_withdrawn f m s = (inr tt, s')
    /\ (forall q k, stored_at s' q k = stored_at s q k)
    /\ (forall f', withdrawn_muis s' f'
          = (fun f' x => if bool_decide (f' = f) then {[m]} ∪ x else x) f' (withdrawn_muis s f')).
Proof.
  pose proof (mark_withdrawn_reliable f m s) as Hf.
  destruct (st_mark_withdrawn f m s) as [res s'] eqn:Hs. cbn in Hf. subst res.
  exists s'. split; [done|]. by apply mark_withdrawn_ok.
Qed.

Lemma mark_withdrawn_all_fun m s :
  exists s', st_mark_withdrawn_all m s = (inr tt, s')
    /\ (forall q k, stored_at s' q k = stored_at s q k)
    /\ (forall f', withdrawn_muis s' f' = (fun _ x => {[m]} ∪ x) f' (withdrawn_muis s f')).
Proof.
  pose proof (mark_withdrawn_all_reliable m s) as Hf.
  destruct (st_mark_withdrawn_all m s) as [res s'] eqn:Hs. cbn in Hf. subst res.
  exists s'. split; [done|]. by apply mark_withdrawn_all_ok.
Qed.

Lemma mark_ingress_active_run m r :
  ready r ->
  exists r', mark_ingress_active m r = (Some tt, r') /\ stores_only r r'
    /\ (forall mc q k, recs r' mc q k = recs r mc q k)
    /\ (forall mc f, wd r' mc f = wd r mc f ∖ {[m]}).
Proof.
  intros Hr. unfold mark_ingress_active.
  destruct (mark_run false _ _ r (mark_active_fun true m) Hr) as (r1 & E1 & S1 & R1 & W1).
  rewrite (run_bind_Some _ _ _ _ _ E1).
  destruct (mark_run false _ _ r1 (mark_active_fun false m) (so_ready _ _ S1)) as (r2 & E2 & S2 & R2 & W2).
  rewrite (run_bind_Some _ _ _ _ _ E2).
  destruct (mark_run true _ _ r2 (mark_active_fun true m) (so_ready _ _ S2)) as (r3 & E3 & S3 & R3 & W3).
  rewrite (run_bind_Some _ _ _ _ _ E3).
  destruct (mark_run true _ _ r3 (mark_active_fun false m) (so_ready _ _ S3)) as (r4 & E4 & S4 & R4 & W4).
  rewrite (run_bind_Some _ _ _ _ _ E4). exists r4. split; [done|].
  split; [eauto using stores_only_trans|]. split; [intros; congruence|].
  intros mc f. rewrite W4, W3, W2, W1. by destruct mc, f.
Qed.

Lemma mark_withdrawn_run e r :
  ready r -> supported (snd e) ->
  exists r', mark_withdrawn e r = (Some tt, r') /\ stores_only r r'
    /\ (forall mc q k, recs r' mc q k = recs r mc q k)
    /\ (forall mc f k, k ∈ wd r' mc f
          <-> k ∈ wd r mc f \/ k = fst e /\ in_scope (snd e) mc f = true).
Proof.
  intros Hr Ht. destruct e as [m t]. cbn [fst snd] in *. unfold mark_withdrawn.
  assert (forall mc f, exists r', (_ ← on_store mc (st_mark_withdrawn f m); mret tt) r = (Some tt, r')
    /\ stores_only r r' /\ (forall mc q k, recs r' mc q k = recs r mc q k)
    /\ (forall mc' f' k, k ∈ wd r' mc' f'
          <-> k ∈ wd r mc' f' \/ k = m /\ mc' = mc /\ f' = f)) as Hone.
  { intros mc f. destruct (mark_run mc _ _ r (mark_withdrawn_fun f m) Hr) as (r1 & E1 & S1 & R1 & W1).
    exists r1. rewrite (run_bind_Some _ _ _ _ _ E1). split; [done|]. split; [done|]. split; [done|].
    intros mc' f' k. rewrite W1. repeat case_bool_decide; set_solver. }
  destruct t as [[]|]; cbn in Ht; try done.
  1-4: edestruct Hone as (r1 & -> & S1 & R1 & W1); exists r1; split; [done|]; split; [done|];
    split; [done|]; intros mc f k; rewrite W1; destruct mc, f; cbn; naive_solver.
  destruct (mark_run false _ _ r (mark_withdrawn_all_fun m) Hr) as (r1 & E1 & S1 & R1 & W1).
  rewrite (run_bind_Some _ _ _ _ _ E1).
  destruct (mark_run true _ _ r1 (mark_withdrawn_all_fun m) (so_ready _ _ S1)) as (r2 & E2 & S2 & R2 & W2).
  rewrite (run_bind_Some _ _ _ _ _ E2). exists r2. split; [done|].
  split; [by eapply stores_only_trans|]. split; [intros; congruence|].
  intros mc f k. rewrite W2, W1. destruct mc; cbn; set_solver.
Qed.

Lemma scoped_cons e ids mc f k :
  scoped (e :: ids) mc f k = bool_decide (fst e = k) && in_scope (snd e) mc f || scoped ids mc f k.
Proof. done. Qed.

Lemma mark_all_run ids r :
  ready r -> Forall (fun e => supported (snd e)) ids ->
  exists r', run_for ids mark_withdrawn r = (Some tt, r') /\ stores_only r r'
    /\ (forall mc q k, recs r' mc q k = recs r mc q k)
    /\ (forall mc f k, k ∈ wd r' mc f <-> k ∈ wd r mc f \/ scoped ids mc f k = true).
Proof.
  intros Hr Hids. revert r Hr. induction Hids as [|e ids He _ IH]; intros r Hr.
  - exists r. split; [done|]. split; [by apply stores_only_refl|]. split; [done|].
    intros. cbn. naive_solver.
  - cbn [run_for]. destruct (mark_withdrawn_run e r Hr He) as (r1 & E1 & S1 & R1 & W1).
    rewrite (run_bind_Some _ _ _ _ _ E1).
    destruct (IH r1 (so_ready _ _ S1)) as (r2 & E2 & S2 & R2 & W2). exists r2.
    split; [done|]. split; [by eapply stores_only_trans|]. split; [intros; congruence|].
    intros mc f k. rewrite W2, W1, scoped_cons, orb_true_iff, andb_true_iff, bool_decide_eq_true.
    naive_solver.
Qed.

(** ** Compaction *)
Context `{HP : !HashIter Z (list Prefix)}.

Definition pend (pending : gmap Z (list Prefix)) (k : Z) (p : Prefix) : Prop :=
  exists l, pending !! k = Some l /\ p ∈ l.

#[local] Instance pend_dec pending k p : Decision (pend pending k p).
Proof.
  unfold pend. destruct (pending !! k) as [l|].
  - destruct (decide (p ∈ l)); [left; eauto|right; naive_solver].
  - right. naive_solver.
Defined.

Lemma insert_compacted_fold (l : list (Z * Prefix)) s :
  let s' := foldl (fun s e => snd (st_insert (snd e) (compacted (fst e)) s)) s l in
  (forall q k, stored_at s' q k
     = if bool_decide ((k, q) ∈ l) then Some (compacted k) else stored_at s q k)
  /\ (forall f, withdrawn_muis s' f = withdrawn_muis s f).
Proof.
  cbv zeta. revert s. induction l as [|[m p] l IH]; intros s.
  { split; [|done]. intros q k. by rewrite bool_decide_false by apply not_elem_of_nil. }
  cbn [foldl fst snd]. destruct (insert_reliable p (compacted m) s) as [rep Hrep].
  destruct (st_insert p (compacted m) s) as [res s1] eqn:Hs. cbn in Hrep. subst res.
  apply insert_ok in Hs as [Hi Hw]. cbn [snd]. destruct (IH s1) as [Hs' Hw'].
  split; [|intros f; by rewrite Hw', Hw]. intros q k. rewrite Hs', Hi. change (r_mui (compacted m)) with m.
  destruct (decide ((k, q) ∈ l)) as [Hin|Hin].
  - by rewrite !bool_decide_true by (try apply elem_of_cons; auto).
  - rewrite (bool_decide_false ((k, q) ∈ l)) by done.
    rewrite (bool_decide_ext ((k, q) ∈ (m, p) :: l) (q = p /\ k = m))
      by (rewrite elem_of_cons; naive_solver).
    destruct (decide (q = p /\ k = m)) as [[-> ->]|Hc];
      [by rewrite !bool_decide_true|by rewrite !bool_decide_false].
Qed.

Lemma flush_spec pending s :
  (forall q k, stored_at (flush_compaction pending s) q k
     = if bool_decide (pend pending k q) then Some (compacted k) else stored_at s q k)
  /\ (forall f, withdrawn_muis (flush_compaction pending s) f = withdrawn_muis s f).
Proof.
  assert (forall s, flush_compaction pending s
    = foldl (fun s e => snd (st_insert (snd e) (compacted (fst e)) s)) s
        (hm_iter pending ≫= fun e => (fst e,.) <$> snd e)) as ->.
  { unfold flush_compaction. clear. induction (hm_iter pending) as [|[m ps] l IH]; intros s; [done|].
    rewrite bind_cons, foldl_app. cbn [foldl fst snd]. rewrite IH. f_equal.
    clear. revert s. induction ps as [|p ps IH]; intros s; [done|]. cbn. apply IH. }
  destruct (insert_compacted_fold (hm_iter pending ≫= fun e => (fst e,.) <$> snd e) s) as [Hs Hw].
  split; [|done]. intros q k. rewrite Hs. apply if_decide_ext.
  rewrite list_elem_of_bind. unfold pend. split.
  - intros ([m ps] & (p & Heq & Hp)%list_elem_of_fmap & Hin). cbn in *. simplify_eq.
    rewrite hm_iter_perm in Hin. apply elem_of_map_to_list in Hin. eauto.
  - intros (l & Hl & Hq). exists (k, l). split; [apply list_elem_of_fmap; eauto|].
    by rewrite hm_iter_perm, elem_of_map_to_list.
Qed.

Lemma group_records_pend p ids rs matched added out k q :
  (forall m, m ∈ matched -> pend out m p) ->
  pend (snd (group_records p ids rs matched added out)) k q
  <-> pend out k q \/ q = p /\ k ∈ ids /\ k ∈ r_mui <$> rs.
Proof.
  revert matched added out. induction rs as [|r rs IH]; intros matched added out Hm; cbn [group_records].
  { cbn. set_solver. }
  rewrite fmap_cons. destruct (decide (r_mui r ∈ ids)) as [Hid|Hid].
  2: { rewrite bool_decide_false by done. cbn [negb]. rewrite IH by done. set_solver. }
  rewrite bool_decide_true by done. cbn [negb].
  destruct (decide (r_mui r ∈ matched)) as [Hin|Hin].
  { rewrite bool_decide_true by done. rewrite IH by done. specialize (Hm _ Hin).
    rewrite elem_of_cons. naive_solver. }
  rewrite bool_decide_false by done.
  set (out' := <[r_mui r := _]> out).
  assert (forall k q, pend out' k q <-> pend out k q \/ q = p /\ k = r_mui r) as Hout.
  { intros k' q'. unfold pend, out'. destruct (decide (r_mui r = k')) as [<-|Hne].
    - rewrite lookup_insert_eq. split.
      + intros (l & [= <-] & Hq). apply elem_of_app in Hq as [Hq|Hq%list_elem_of_singleton]; [|auto].
        left. destruct (out !! r_mui r); [eauto|by apply not_elem_of_nil in Hq].
      + intros [(l & -> & Hq)|[-> _]]; eexists; (split; [done|]); apply elem_of_app;
          [by left|right; by left].
    - rewrite lookup_insert_ne by done. naive_solver. }
  rewrite IH.
  - rewrite Hout, elem_of_cons. naive_solver.
  - intros m Hmm. apply Hout. destruct (length matched <? 8)%nat; [|by left; apply Hm].
    apply elem_of_app in Hmm as [?|?%list_elem_of_singleton]; [left; by apply Hm|by right].
Qed.

Lemma drain_loop_spec ids iter pending n s :
  (forall q k, stored_at (drain_loop ids iter pending n s) q k
     = if bool_decide (pend pending k q
          \/ k ∈ ids /\ Exists (fun pr => fst pr = q /\ k ∈ r_mui <$> snd pr) iter)
       then Some (compacted k) else stored_at s q k)
  /\ (forall f, withdrawn_muis (drain_loop ids iter pending n s) f = withdrawn_muis s f).
Proof.
  revert pending n s. induction iter as [|pr iter IH]; intros pending n s; cbn [drain_loop].
  { destruct (flush_spec pending s) as [Hs Hw]. split; [|done]. intros q k. rewrite Hs.
    apply if_decide_ext. rewrite Exists_nil. naive_solver. }
  unfold group_prefix_by_ingress.
  pose proof (fun k q => group_records_pend (fst pr) ids (snd pr) [] 0 pending k q
    ltac:(intros ? []%not_elem_of_nil)) as Hg.
  destruct (group_records _ _ _ _ _ _) as [added pending']. cbn [snd] in Hg.
  destruct (FLUSH_AT <=? n + added).
  - destruct (IH ∅ 0 (flush_compaction pending' s)) as [Hs Hw].
    destruct (flush_spec pending' s) as [Hs' Hw']. split; [|intros f; by rewrite Hw, Hw'].
    intros q k. rewrite Hs, Hs'.
    assert (~ pend ∅ k q) by (intros (l & Hl & _); by rewrite lookup_empty in Hl).
    rewrite (bool_decide_ext (pend pending' k q) _ (Hg k q)).
    repeat case_bool_decide; rewrite ?Exists_cons in *; naive_solver.
  - destruct (IH pending' (n + added) s) as [Hs Hw]. split; [|done]. intros q k. rewrite Hs.
    apply if_decide_ext. rewrite Hg, Exists_cons. naive_solver.
Qed.

(** The family a walk is restricted to. *)
Definition walk_family (t : option AfiSafiType) : option bool :=
  match t with
  | Some (Ipv4Unicast | Ipv4Multicast) => Some true
  | Some (Ipv6Unicast | Ipv6Multicast) => Some false
  | _ => None
  end.

Lemma drain_spec ids f s :
  (forall q k, stored_at (drain_compaction_iter ids (st_prefixes f s) s) q k
     = if bool_decide (k ∈ ids /\ is_Some (stored_at s q k)
                       /\ (f = None \/ f = Some (prefix_is_v4 q)))
       then Some (compacted k) else stored_at s q k)
  /\ (forall g, withdrawn_muis (drain_compaction_iter ids (st_prefixes f s) s) g
        = withdrawn_muis s g).
Proof.
  unfold drain_compaction_iter.
  destruct (drain_loop_spec ids (st_prefixes f s) ∅ 0 s) as [Hs Hw]. split; [|done].
  intros q k. rewrite Hs. apply if_decide_ext. rewrite Exists_exists. split.
  - intros [(l & Hl & _)|(Hk & [p l] & Hin & Hq & Hm)]; [by rewrite lookup_empty in Hl|].
    cbn in Hq. subst p. split; [done|]. apply prefixes_ok in Hin as [Hf [_ Hl]].
    cbn in Hm. apply list_elem_of_fmap in Hm as (rc & -> & Hrc).
    apply Hl in Hrc as (r0 & Hr0 & _). split; [by eexists|].
    destruct f as [g|]; [right; f_equal; symmetry; by apply Hf|by left].
  - intros (Hk & [r0 Hr0] & Hf). right. split; [done|].
    assert (q ∈ (st_prefixes f s).*1) as Hq.
    { eapply prefixes_complete; [by eexists|]. intros g ->. by destruct Hf as [?|[= ->]]. }
    apply list_elem_of_fmap in Hq as ([p l] & Heq & Hin). cbn in Heq. subst p.
    exists (q, l). split; [done|]. split; [done|]. cbn.
    apply prefixes_ok in Hin as [_ [_ Hl]].
    apply list_elem_of_fmap. exists (effective (withdrawn_muis s (prefix_is_v4 q)) r0).
    rewrite effective_mui, (stored_mui _ _ _ _ Hr0). split; [done|].
    apply Hl. exists r0. by rewrite effective_mui, (stored_mui _ _ _ _ Hr0).
Qed.

Lemma elem_of_bucket t ids k : k ∈ bucket t ids <-> (k, t) ∈ ids.
Proof.
  unfold bucket. rewrite elem_of_list_to_set, list_elem_of_fmap.
  setoid_rewrite list_elem_of_filter. split.
  - intros ([k' t'] & -> & Heq & Hin). cbn in *. by subst.
  - intros H. by exists (k, t).
Qed.

(** A step that compacts the records it selects. *)
Definition compacts (P : bool -> Prefix -> Z -> bool) (r r' : Rib) : Prop :=
  stores_only r r'
  /\ (forall mc f, wd r' mc f = wd r mc f)
  /\ (forall mc q k, recs r' mc q k
        = if P mc q k then (fun _ => compacted k) <$> recs r mc q k else recs r mc q k).

Lemma compacts_trans P Q r1 r2 r3 :
  compacts P r1 r2 -> compacts Q r2 r3 ->
  compacts (fun mc q k => P mc q k || Q mc q k) r1 r3.
Proof.
  intros (S1 & W1 & R1) (S2 & W2 & R2). split; [by eapply stores_only_trans|].
  split; [intros; by rewrite W2, W1|]. intros mc q k. rewrite R2, R1.
  destruct (P mc q k), (Q mc q k); cbn; try done. by destruct (recs r1 mc q k).
Qed.

Lemma compacts_ext P Q r r' :
  (forall mc q k, P mc q k = Q mc q k) -> compacts P r r' -> compacts Q r r'.
Proof. intros HPQ (S1 & W1 & R1). split; [done|]. split; [done|]. intros. by rewrite <- HPQ. Qed.

Definition in_bucket (t : option AfiSafiType) (ids : list (IngressId * option AfiSafiType))
    (k : Z) (f : bool) : bool :=
  bool_decide ((k, t) ∈ ids)
  && match walk_family t with Some g => bool_decide (g = f) | None => true end.

Lemma compact_bucket_spec mc t ids r :
  ready r ->
  compacts (fun mc' q k => bool_decide (mc' = mc) && in_bucket t ids k (prefix_is_v4 q))
    r (compact_bucket mc t ids r).
Proof.
  intros Hr. unfold compact_bucket, in_bucket. case_bool_decide as He.
  { split; [by apply stores_only_refl|]. split; [done|]. intros mc' q k.
    rewrite (bool_decide_false ((k, t) ∈ ids)) by (intros H%elem_of_bucket; set_solver).
    by rewrite andb_false_r. }
  unfold compact_batch. destruct (ready_stores _ Hr mc) as [s Hs]. rewrite Hs.
  rewrite bool_decide_false by done. fold (walk_family t).
  destruct (drain_spec (bucket t ids) (walk_family t) s) as [Hd Hdw].
  set (s' := drain_compaction_iter _ _ _) in *.
  split; [by apply set_store_only|]. split.
  - intros mc' f. rewrite wd_set. case_bool_decide as Hm; [|done]. subst mc'.
    rewrite (wd_store _ _ _ _ Hs). apply Hdw.
  - intros mc' q k. rewrite recs_set. case_bool_decide as Hm; [|done]. subst mc'.
    rewrite (recs_store _ _ _ _ _ Hs), Hd. cbn [andb].
    rewrite (bool_decide_ext _ _ (and_iff_compat_r _ (elem_of_bucket t ids k))).
    destruct (stored_at s q k), (walk_family t) as [g|]; cbn [fmap option_fmap option_map];
      repeat case_bool_decide; cbn; naive_solver.
Qed.

Lemma scoped_spec ids mc f k :
  scoped ids mc f k = true <-> exists t, (k, t) ∈ ids /\ in_scope t mc f = true.
Proof.
  unfold scoped. rewrite existsb_exists. setoid_rewrite andb_true_iff.
  setoid_rewrite bool_decide_eq_true. setoid_rewrite <- list_elem_of_In. split.
  - intros ([k' t] & Hin & <- & Hs). eauto.
  - intros (t & Hin & Hs). by exists (k, t).
Qed.

(** The records of the withdrawn scopes lose their attributes, the others are
    kept as they are. *)
Lemma compact_withdrawn_spec ids r :
  ready r ->
  compacts (fun mc q k => scoped ids mc (prefix_is_v4 q) k) r
    (compact_withdrawn_attributes ids r).
Proof.
  intros Hr. unfold compact_withdrawn_attributes.
  pose proof (fun mc t r Hr => compact_bucket_spec mc t ids r Hr) as H.
  pose proof (H false None r Hr) as H1.
  pose proof (compacts_trans _ _ _ _ _ H1 (H true None _ (so_ready _ _ (proj1 H1)))) as H2.
  pose proof (compacts_trans _ _ _ _ _ H2 (H false (Some Ipv4Unicast) _ (so_ready _ _ (proj1 H2)))) as H3.
  pose proof (compacts_trans _ _ _ _ _ H3 (H false (Some Ipv6Unicast) _ (so_ready _ _ (proj1 H3)))) as H4.
  pose proof (compacts_trans _ _ _ _ _ H4 (H true (Some Ipv4Multicast) _ (so_ready _ _ (proj1 H4)))) as H5.
  pose proof (compacts_trans _ _ _ _ _ H5 (H true (Some Ipv6Multicast) _ (so_ready _ _ (proj1 H5)))) as H6.
  refine (compacts_ext _ _ _ _ _ H6). intros mc q k. clear. apply eq_true_iff_eq.
  rewrite scoped_spec, !orb_true_iff, !andb_true_iff. unfold in_bucket. cbn [walk_family].
  rewrite !andb_true_iff, !bool_decide_eq_true. split.
  - intros H. destruct_or!; destruct H as (-> & Hin & Hf); eexists; (split; [done|]); cbn;
      by rewrite <- ?Hf.
  - intros (t & Hin & Hs). destruct t as [[]|], mc, (prefix_is_v4 q); cbn in Hs; try done; tauto.
Qed.

(** ** Insertion and withdrawal of a route *)
Lemma dedup_run dd pa r :
  ready r ->
  exists i, dedup dd pa r = (Some pa, set_interner i r) /\ interner_inv i.
Proof.
  intros [_ Hi]. unfold dedup. destruct dd; [|by exists (path_attribute_interner r); destruct r].
  destruct (dedup_same pa _ Hi) as (i & -> & Hi'). by exists i.
Qed.

Lemma set_interner_ready i r : ready r -> interner_inv i -> ready (set_interner i r).
Proof. intros [Hs _] Hi. split; [|done]. intros mc. exact (Hs mc). Qed.

(** The ingress is withdrawn as a whole in some family of the store. *)
Definition marked (r : Rib) (mc : bool) (m : Z) : bool :=
  bool_decide (m ∈ wd r mc true) || bool_decide (m ∈ wd r mc false).

Lemma reactivate_run m r :
  ready r ->
  exists r', reactivate m r = (Some tt, r') /\ ready r'
    /\ rib_register r' = snd (update_info m connected_info (rib_register r))
    /\ (forall mc q k, recs r' mc q k = recs r mc q k)
    /\ (forall mc f, wd r' mc f = wd r mc f ∖ {[m]}).
Proof.
  intros Hr. unfold reactivate.
  destruct (mark_ingress_active_run m r Hr) as (r1 & E1 & [[Hs Hi] Hreg Hint] & R1 & W1).
  rewrite (run_bind_Some _ _ _ _ _ E1). eexists. split; [done|].
  split; [split; [intros mc; exact (Hs mc)|done]|]. cbn. by rewrite Hreg.
Qed.

Lemma insert_announced_run p mc val status t m retain dd r :
  ready r -> status <> Withdrawn ->
  exists rep r', insert_prefix p mc val status t m retain dd r = (Some (inr rep), r')
    /\ ready r'
    /\ (let back := bool_decide (status = Active) && marked r mc m in
        rib_register r' = (if back then snd (update_info m connected_info (rib_register r))
                           else rib_register r)
        /\ (forall mc' f, wd r' mc' f = if back then wd r mc' f ∖ {[m]} else wd r mc' f))
    /\ (forall mc' q k, recs r' mc' q k
          = if bool_decide (mc' = mc /\ q = p /\ k = m)
            then Some (mk_record m t status (rotonda_pamap val)) else recs r mc' q k).
Proof.
  intros Hr Hst. unfold insert_prefix, marked.
  destruct (ready_stores _ Hr mc) as [s Hs].
  rewrite (run_bind_Some run_get _ r r r eq_refl), Hs, (bool_decide_false (status = _)) by done.
  rewrite !(wd_store _ _ _ _ Hs). set (back := bool_decide (status = Active) && _).
  assert (exists r1, (if back then reactivate m else mret tt) r = (Some tt, r1) /\ ready r1
    /\ rib_register r1 = (if back then snd (update_info m connected_info (rib_register r))
                          else rib_register r)
    /\ (forall mc' q k, recs r1 mc' q k = recs r mc' q k)
    /\ (forall mc' f, wd r1 mc' f = if back then wd r mc' f ∖ {[m]} else wd r mc' f))
    as (r1 & E1 & Hr1 & Hreg & R1 & W1).
  { destruct back; [apply reactivate_run; done|by exists r]. }
  rewrite (run_bind_Some _ _ _ _ _ E1).
  destruct (dedup_run dd (rotonda_pamap val) r1 Hr1) as (i & E2 & Hi).
  rewrite (run_bind_Some _ _ _ _ _ E2).
  destruct (insert_run mc p (mk_record m t status (rotonda_pamap val)) (set_interner i r1)
    (set_interner_ready _ _ Hr1 Hi)) as (rep & r3 & E3 & [Hr3 Hreg3 _] & R3 & W3).
  exists rep, r3. split; [done|]. split; [done|]. split.
  - cbn. split; [by rewrite Hreg3, <- Hreg|]. intros mc' f. rewrite W3. apply W1.
  - intros mc' q k. rewrite R3. cbn [r_mui]. case_bool_decide; [done|]. apply R1.
Qed.

Definition same_route (mc mc' : bool) (p q : Prefix) (m k : Z) : bool :=
  bool_decide (mc' = mc /\ q = p /\ k = m).

Lemma insert_withdrawn_run p mc val t m retain dd r :
  ready r ->
  exists res r', insert_prefix p mc val Withdrawn t m retain dd r = (Some res, r')
    /\ stores_only r r'
    /\ (forall mc' f, wd r' mc' f = wd r mc' f)
    /\ (forall mc' q k, same_route mc mc' p q m k = false -> recs r' mc' q k = recs r mc' q k)
    /\ (fun rc => (r_status rc, r_meta rc)) <$> recs r' mc p m
       = (fun rc => (Withdrawn, if retain then r_meta rc else empty_path_attributes))
           <$> recs r mc p m.
Proof.
  intros Hr. unfold insert_prefix, same_route. destruct (ready_stores _ Hr mc) as [s Hs].
  rewrite (run_bind_Some run_get _ r r r eq_refl), Hs. cbn [bool_decide].
  rewrite (bool_decide_true (Withdrawn = _)), contains_ok by done. destruct retain; cbn [negb].
  - destruct (on_store_run mc (st_withdraw_prefix p m 0) r Hr) as (s0 & Hs0 & E1).
    rewrite Hs in Hs0. injection Hs0 as <-. rewrite (run_bind_Some _ _ _ _ _ E1).
    eexists _, _. split; [done|]. split; [by apply set_store_only|].
    assert ((forall q k, ~ (q = p /\ k = m) ->
        stored_at (snd (st_withdraw_prefix p m 0 s)) q k = stored_at s q k)
      /\ (fun rc => (r_status rc, r_meta rc)) <$> stored_at (snd (st_withdraw_prefix p m 0 s)) p m
         = (fun rc => (Withdrawn, r_meta rc)) <$> stored_at s p m
      /\ (forall f, withdrawn_muis (snd (st_withdraw_prefix p m 0 s)) f = withdrawn_muis s f))
      as (Hr1 & Hr2 & Hw).
    { destruct (stored_at s p m) as [rc|] eqn:Hst.
      - pose proof (withdraw_prefix_reliable p m 0 s (mk_is_Some _ _ Hst)) as Hok.
        destruct (st_withdraw_prefix p m 0 s) as [res s'] eqn:Hw. cbn in Hok. subst res.
        rewrite <- Hst. by apply (withdraw_prefix_ok _ _ _ _ _ Hw).
      - destruct (withdraw_prefix_absent p m 0 s Hst) as [Ha Hw]. split; [done|]. split; [|done].
        by rewrite Ha, Hst. }
    split; [|split].
    + intros mc' f. rewrite wd_set, Hw. case_bool_decide as Hm; [|done]. subst mc'.
      by rewrite (wd_store _ _ _ _ Hs).
    + intros mc' q k Hne%bool_decide_eq_false. rewrite recs_set. case_bool_decide as Hm; [|done].
      subst mc'. rewrite (recs_store _ _ _ _ _ Hs). apply Hr1. naive_solver.
    + rewrite recs_set, bool_decide_true, (recs_store _ _ _ _ _ Hs) by done. exact Hr2.
  - case_bool_decide as Hc; cbn [negb].
    + destruct (insert_run mc p (mk_record m t Withdrawn empty_path_attributes) r Hr)
        as (rep & r1 & E1 & S1 & R1 & W1).
      eexists _, r1. split; [exact E1|]. split; [done|]. split; [done|]. cbn [r_mui] in R1. split.
      * intros mc' q k Hne. rewrite R1. by rewrite Hne.
      * rewrite R1, bool_decide_true, (recs_store _ _ _ _ _ Hs) by done.
        by destruct Hc as [rc ->].
    + eexists _, r. split; [done|]. split; [by apply stores_only_refl|]. split; [done|].
      split; [done|]. rewrite (recs_store _ _ _ _ _ Hs). by apply eq_None_not_Some in Hc as ->.
Qed.

(** ** Whole ingresses *)
Lemma withdraw_run ids retain r :
  ready r -> Forall (fun e => supported (snd e)) ids ->
  exists r', withdraw_for_ingresses ids retain r = (Some tt, r') /\ stores_only r r'
    /\ (forall mc q k, recs r' mc q k
          = if negb retain && scoped ids mc (prefix_is_v4 q) k
            then (fun _ => compacted k) <$> recs r mc q k else recs r mc q k)
    /\ (forall mc f k, k ∈ wd r' mc f <-> k ∈ wd r mc f \/ scoped ids mc f k = true).
Proof.
  intros Hr Hids. unfold withdraw_for_ingresses. case_bool_decide as He.
  { subst ids. exists r. split; [done|]. split; [by apply stores_only_refl|].
    split; [intros; by rewrite andb_false_r|]. intros. cbn. naive_solver. }
  assert (exists r1, (if retain then mret tt else run_modify (compact_withdrawn_attributes ids)) r
      = (Some tt, r1) /\ stores_only r r1
    /\ (forall mc f, wd r1 mc f = wd r mc f)
    /\ (forall mc q k, recs r1 mc q k
          = if negb retain && scoped ids mc (prefix_is_v4 q) k
            then (fun _ => compacted k) <$> recs r mc q k else recs r mc q k))
    as (r1 & E1 & S1 & W1 & R1).
  { destruct retain; [exists r; by eauto using stores_only_refl|].
    eexists. split; [done|]. by apply compact_withdrawn_spec. }
  rewrite (run_bind_Some _ _ _ _ _ E1).
  destruct (mark_all_run ids r1 (so_ready _ _ S1) Hids) as (r2 & E2 & S2 & R2 & W2).
  exists r2. split; [done|]. split; [by eapply stores_only_trans|]. split.
  - intros mc q k. by rewrite R2, R1.
  - intros mc f k. by rewrite W2, W1.
Qed.

Lemma remove_one_run mc m r :
  ready r ->
  stores_only r (remove_mui_from mc m r)
  /\ (forall mc' q k, recs (remove_mui_from mc m r) mc' q k
        = if bool_decide (mc' = mc /\ k = m) then None else recs r mc' q k)
  /\ (forall mc' f, wd (remove_mui_from mc m r) mc' f
        = if bool_decide (mc' = mc) then wd r mc' f ∖ {[m]} else wd r mc' f).
Proof.
  intros Hr. unfold remove_mui_from. destruct (ready_stores _ Hr mc) as [s Hs]. rewrite Hs.
  destruct (remove_mui_reliable m s) as [n Hn].
  destruct (st_remove_mui m s) as [res s'] eqn:Hrm. cbn in Hn. subst res.
  apply remove_mui_ok in Hrm as [Hrec Hw]. cbn [snd].
  split; [by apply set_store_only|]. split.
  - intros mc' q k. rewrite recs_set, Hrec. destruct (decide (mc' = mc)) as [->|Hne].
    + rewrite (bool_decide_true (mc = mc)), (recs_store _ _ _ _ _ Hs) by done.
      repeat case_bool_decide; naive_solver.
    + rewrite !bool_decide_false by naive_solver. done.
  - intros mc' f. rewrite wd_set, Hw. case_bool_decide as Hm; [|done]. subst mc'.
    by rewrite (wd_store _ _ _ _ Hs).
Qed.

Lemma remove_run ids r :
  ready r ->
  stores_only r (remove_for_ingresses ids r)
  /\ (forall mc q k, recs (remove_for_ingresses ids r) mc q k
        = if bool_decide (k ∈ ids) then None else recs r mc q k)
  /\ (forall mc f k, k ∈ wd (remove_for_ingresses ids r) mc f <-> k ∈ wd r mc f /\ k ∉ ids).
Proof.
  revert r. induction ids as [|m ids IH]; intros r Hr.
  { split; [by apply stores_only_refl|]. split; [|set_solver].
    intros. by rewrite bool_decide_false by apply not_elem_of_nil. }
  destruct (remove_one_run false m r Hr) as (S1 & R1 & W1).
  destruct (remove_one_run true m _ (so_ready _ _ S1)) as (S2 & R2 & W2).
  destruct (IH _ (so_ready _ _ S2)) as (S3 & R3 & W3).
  change (remove_for_ingresses (m :: ids) r)
    with (remove_for_ingresses ids (remove_mui_from true m (remove_mui_from false m r))).
  split; [eauto using stores_only_trans|]. split.
  - intros mc q k. rewrite R3, R2, R1. rewrite (bool_decide_ext (k ∈ m :: ids) (k = m \/ k ∈ ids))
      by apply elem_of_cons.
    destruct mc; repeat case_bool_decide; naive_solver.
  - intros mc f k. rewrite W3, W2, W1. destruct mc; cbn; set_solver.
Qed.

(** ** The view *)
Lemma active_withdraw ids retain r r' :
  (forall mc q k, recs r' mc q k
     = if negb retain && scoped ids mc (prefix_is_v4 q) k
       then (fun _ => compacted k) <$> recs r mc q k else recs r mc q k) ->
  (forall mc f k, k ∈ wd r' mc f <-> k ∈ wd r mc f \/ scoped ids mc f k = true) ->
  forall mc q k, active r' mc q k
    = if scoped ids mc (prefix_is_v4 q) k then None else active r mc q k.
Proof.
  intros HR HW mc q k. unfold active. rewrite HR.
  rewrite (bool_decide_ext _ _ (HW mc (prefix_is_v4 q) k)).
  destruct (scoped ids mc (prefix_is_v4 q) k).
  - rewrite (bool_decide_true (_ \/ true = true)) by auto.
    destruct (recs r mc q k), retain; cbn; by rewrite ?orb_true_r.
  - rewrite andb_false_r.
    rewrite (bool_decide_ext (_ \/ _) (k ∈ wd r mc (prefix_is_v4 q))) by naive_solver. done.
Qed.

Lemma active_remove ids r :
  ready r ->
  forall mc q k, active (remove_for_ingresses ids r) mc q k
    = if bool_decide (k ∈ ids) then None else active r mc q k.
Proof.
  intros Hr mc q k. destruct (remove_run ids r Hr) as (_ & HR & HW).
  case_bool_decide as Hk.
  - unfold active. rewrite HR, (bool_decide_true (k ∈ ids)) by done. done.
  - apply active_ext; [by rewrite HR, bool_decide_false|]. rewrite HW. naive_solver.
Qed.

End View.
