(* ===== verification/RibProps.v ===== *)
(** * Properties of the RIB

    What readers see after a withdrawal of whole ingresses, after an
    announcement or a withdrawal of a route; the two-sweep garbage collection;
    the chunked walk of a dump. *)

From S2P Require Import Prelude Net Register Payload Interner RibStore Rib RibView.
From Stdlib Require Import ZArith Lia.
From stdpp Require Import base numbers list gmap fin_maps.

Local Open Scope Z_scope.

(** ** Garbage collection *)
Section Gc.
Context `{E : Extern} `{PS : !PrefixStore RotondaPaMap} `{RS : !ReliableStore RotondaPaMap}.
Context `{HS : !HashIter Z unit}.

Definition down_in (m : gmap Z IngressInfo) (id : Z) : bool :=
  match m !! id with Some i => is_disconnected i | None => false end.

Lemma elem_of_set_iter (x : gset Z) k : k ∈ set_iter x <-> k ∈ x.
Proof.
  unfold set_iter. rewrite list_elem_of_fmap. split.
  - intros ([k' []] & -> & Hin). rewrite hm_iter_perm in Hin.
    by apply elem_of_map_to_list, lookup_gset_to_gmap_Some in Hin as [Hx _].
  - intros Hx. exists (k, ()). split; [done|]. rewrite hm_iter_perm, elem_of_map_to_list.
    by apply lookup_gset_to_gmap_Some.
Qed.

Lemma reclaim_spec ids reg :
  (forall k, k ∈ fst (reclaim ids reg) <-> k ∈ ids /\ down_in (info reg) k = true)
  /\ (forall k, info (snd (reclaim ids reg)) !! k
        = if bool_decide (k ∈ ids) && down_in (info reg) k then None else info reg !! k)
  /\ serial (snd (reclaim ids reg)) = serial reg.
Proof.
  revert reg. induction ids as [|id ids IH]; intros reg.
  { cbn. split; [set_solver|]. done. }
  cbn [reclaim]. destruct (remove_if_disconnected id reg) as [removed reg1] eqn:Hrm.
  assert ((removed = None <-> down_in (info reg) id = false)
    /\ (forall k, info reg1 !! k
          = if bool_decide (k = id) && down_in (info reg) id then None else info reg !! k)
    /\ serial reg1 = serial reg) as (Hrem & Hinfo & Hser).
  { unfold remove_if_disconnected in Hrm. unfold down_in, is_disconnected.
    destruct (info reg !! id) as [i|] eqn:Hi; [case_bool_decide|]; injection Hrm as <- <-.
    - split; [done|]. split; [|done]. intros k. rewrite andb_true_r. cbn.
      case_bool_decide; subst; [apply lookup_delete_eq|by rewrite lookup_delete_ne].
    - split; [done|]. split; [|done]. intros k. by rewrite andb_false_r.
    - split; [done|]. split; [|done]. intros k. by rewrite andb_false_r. }
  destruct (IH reg1) as (IH1 & IH2 & IH3). destruct (reclaim ids reg1) as [l reg2]. cbn in *.
  assert (forall k, down_in (info reg1) k
    = if bool_decide (k = id) then false else down_in (info reg) k) as Hdown.
  { intros k. unfold down_in. rewrite Hinfo. case_bool_decide as Hk; [subst k|done].
    cbn. fold (down_in (info reg) id). destruct (down_in (info reg) id) eqn:Hd; [done|].
    exact Hd. }
  split; [|split; [|congruence]].
  - intros k. transitivity ((k = id /\ removed <> None) \/ k ∈ l).
    { destruct removed; rewrite ?elem_of_cons; naive_solver. }
    rewrite IH1, Hdown, elem_of_cons, Hrem, not_false_iff_true.
    case_bool_decide; naive_solver.
  - intros k. rewrite IH2, Hdown, Hinfo.
    rewrite (bool_decide_ext (k ∈ id :: ids) (k = id \/ k ∈ ids)) by apply elem_of_cons.
    destruct (decide (k = id)) as [->|Hne].
    + rewrite (bool_decide_true (id = id)), (bool_decide_true (id = id \/ _)) by auto.
      by rewrite andb_false_r.
    + rewrite (bool_decide_false (k = id)) by done. cbn [andb].
      rewrite (bool_decide_ext (k = id \/ k ∈ ids) (k ∈ ids)) by naive_solver. done.
Qed.

Lemma elem_of_gc_ids P snap id :
  id ∈ gc_ids P snap <-> exists i, snap !! id = Some i /\ P id i = true.
Proof.
  unfold gc_ids. rewrite elem_of_dom. split.
  - intros [i [Hi HP]%map_lookup_filter_Some]. eauto.
  - intros (i & Hi & HP). exists i. by apply map_lookup_filter_Some.
Qed.

Lemma elem_of_parents snap id :
  id ∈ parents_in_use snap <-> exists k i, snap !! k = Some i /\ parent_ingress i = Some id.
Proof.
  unfold parents_in_use. rewrite elem_of_list_to_set, list_elem_of_omap. split.
  - intros ([k i] & Hin%elem_of_map_to_list & Hp). eauto.
  - intros (k & i & Hin & Hp). exists (k, i). by rewrite elem_of_map_to_list.
Qed.

(** The entries a sweep reclaims. *)
Definition gc_takes (snap : gmap Z IngressInfo) (prev : gset Z) (reg : Register) (id : Z)
  : bool :=
  bool_decide (id ∈ (gc_peers snap ∪ childless_routers snap) ∩ prev) && down_in (info reg) id.

Definition gc_purges (snap : gmap Z IngressInfo) (prev : gset Z) (reg : Register) (id : Z)
  : bool :=
  bool_decide (id ∈ gc_peers snap ∩ prev) && down_in (info reg) id.

Lemma gc_takes_split snap prev reg id :
  gc_takes snap prev reg id
  = (bool_decide (id ∈ gc_peers snap ∩ prev) || bool_decide (id ∈ childless_routers snap ∩ prev))
    && down_in (info reg) id.
Proof.
  unfold gc_takes. f_equal. rewrite <- bool_decide_or. apply bool_decide_ext. set_solver.
Qed.

Lemma gc_run snap prev r :
  ready r ->
  let '(next, r') := gc_disconnected_bmp_peers snap prev r in
  next = gc_peers snap ∪ gc_routers snap
  /\ ready r'
  /\ (forall id, info (rib_register r') !! id
        = if gc_takes snap prev (rib_register r) id then None else info (rib_register r) !! id)
  /\ (forall mc q k, recs r' mc q k
        = if gc_purges snap prev (rib_register r) k then None else recs r mc q k)
  /\ (forall mc q k, active r' mc q k
        = if gc_purges snap prev (rib_register r) k then None else active r mc q k).
Proof.
  intros Hr. unfold gc_disconnected_bmp_peers.
  destruct (reclaim_spec (set_iter (gc_peers snap ∩ prev)) (rib_register r)) as (L1 & I1 & _).
  destruct (reclaim _ (rib_register r)) as [l reg1]. cbn [fst snd] in *.
  assert (ready (set_rib_register reg1 r)) as Hr1.
  { destruct Hr as [Hs Hi]. split; [intros mc; exact (Hs mc)|exact Hi]. }
  destruct (remove_run l _ Hr1) as ([Hr2 Hreg2 _] & R2 & _).
  pose proof (active_remove l _ Hr1) as A2.
  set (r2 := remove_for_ingresses l _) in *. change (rib_register (set_rib_register reg1 r)) with reg1 in Hreg2.
  destruct (reclaim_spec (set_iter (childless_routers snap ∩ prev)) (rib_register r2)) as (_ & I2 & _).
  destruct (reclaim _ (rib_register r2)) as [l' reg2]. cbn [fst snd] in *.
  assert (forall k, bool_decide (k ∈ l) = gc_purges snap prev (rib_register r) k) as Hl.
  { intros k. unfold gc_purges. rewrite (bool_decide_ext _ _ (L1 k)).
    destruct (down_in _ k); rewrite ?andb_true_r, ?andb_false_r;
      [apply bool_decide_ext; rewrite elem_of_set_iter; naive_solver|].
    apply bool_decide_false. naive_solver. }
  split; [done|]. split; [|split; [|split]].
  - destruct Hr2 as [Hs Hi]. split; [intros mc; exact (Hs mc)|exact Hi].
  - intros id. change (info reg2 !! id = if gc_takes snap prev (rib_register r) id
      then None else info (rib_register r) !! id).
    rewrite I2, Hreg2, I1, gc_takes_split. unfold down_in at 1. rewrite I1.
    fold (down_in (info (rib_register r)) id).
    rewrite !(bool_decide_ext _ _ (elem_of_set_iter _ id)).
    destruct (bool_decide (id ∈ gc_peers snap ∩ prev)), (bool_decide (id ∈ childless_routers snap ∩ prev));
      cbn [andb orb]; unfold down_in; destruct (info (rib_register r) !! id) as [i|]; cbn;
      try destruct (is_disconnected i) eqn:Hd; cbn; rewrite ?Hd; done.
  - intros mc q k. rewrite <- Hl. exact (R2 mc q k).
  - intros mc q k. rewrite <- Hl. exact (A2 mc q k).
Qed.

Lemma elem_of_gc_peers snap id :
  id ∈ gc_peers snap
  <-> exists i, snap !! id = Some i /\ state i = Some Disconnected
                /\ ingress_type i = Some BgpViaBmp.
Proof.
  unfold gc_peers, is_disconnected. rewrite elem_of_gc_ids.
  setoid_rewrite andb_true_iff. setoid_rewrite bool_decide_eq_true. naive_solver.
Qed.

Lemma elem_of_gc_routers snap id :
  id ∈ gc_routers snap
  <-> exists i, snap !! id = Some i /\ state i = Some Disconnected /\ ingress_type i = Some Bmp.
Proof.
  unfold gc_routers, is_disconnected. rewrite elem_of_gc_ids.
  setoid_rewrite andb_true_iff. setoid_rewrite bool_decide_eq_true. naive_solver.
Qed.

Lemma down_in_spec m id :
  down_in m id = true <-> exists i, m !! id = Some i /\ state i = Some Disconnected.
Proof.
  unfold down_in, is_disconnected. destruct (m !! id); [|naive_solver].
  rewrite bool_decide_eq_true. naive_solver.
Qed.

(** An entry of a peer, or of a router without peers, that is not connected. *)
Definition idle_peer (r : Rib) (id : Z) : Prop :=
  exists i, info (rib_register r) !! id = Some i /\ state i = Some Disconnected
            /\ ingress_type i = Some BgpViaBmp.

Definition idle_router (r : Rib) (id : Z) : Prop :=
  (exists i, info (rib_register r) !! id = Some i /\ state i = Some Disconnected
             /\ ingress_type i = Some Bmp)
  /\ forall k i, info (rib_register r) !! k = Some i -> parent_ingress i <> Some id.

Definition gone (r : Rib) (id : Z) : Prop := info (rib_register r) !! id = None.

Lemma idle_taken prev r id :
  idle_peer r id \/ idle_router r id -> id ∈ prev ->
  gc_takes (info (rib_register r)) prev (rib_register r) id = true.
Proof.
  intros Hidle Hp. rewrite gc_takes_split. apply andb_true_iff. split.
  - rewrite orb_true_iff, !bool_decide_eq_true, !elem_of_intersection.
    destruct Hidle as [H|[H Hc]]; [left|right]; (split; [|done]).
    + by apply elem_of_gc_peers.
    + unfold childless_routers. apply elem_of_difference. split; [by apply elem_of_gc_routers|].
      intros (k & i & Hk & Hpar)%elem_of_parents. by apply (Hc k i).
  - apply down_in_spec. unfold idle_peer, idle_router in Hidle. naive_solver.
Qed.

Lemma idle_peer_purged prev r id :
  idle_peer r id -> id ∈ prev ->
  gc_purges (info (rib_register r)) prev (rib_register r) id = true.
Proof.
  intros Hidle Hp. unfold gc_purges. rewrite andb_true_iff, bool_decide_eq_true, elem_of_intersection.
  split; [by split; [apply elem_of_gc_peers|]|]. apply down_in_spec.
  destruct Hidle as (i & ? & ? & ?). eauto.
Qed.

Lemma idle_candidate cand r id :
  ready r -> idle_peer r id \/ idle_router r id -> id ∈ fst (gc_tick cand r).
Proof.
  intros Hr Hidle. unfold gc_tick. pose proof (gc_run (info (rib_register r)) cand r Hr) as H.
  destruct (gc_disconnected_bmp_peers _ _ _) as [next r']. destruct H as [-> _]. cbn.
  apply elem_of_union. destruct Hidle as [H|[H _]]; [left|right];
    [by apply elem_of_gc_peers|by apply elem_of_gc_routers].
Qed.

(** C17: garbage collection is safe, for any earlier snapshot of the register.
    An entry that it deletes is Disconnected at that moment, was among the
    candidates of the previous sweep, and in the snapshot is a BMP-monitored
    peer, or a BMP router that no entry names as its parent; every other entry
    is untouched.  Routes are dropped only for the deleted peers: an ingress
    that has been claimed again since the snapshot keeps all of its routes. *)
Theorem gc_safe snap prev r :
  ready r ->
  let '(_, r') := gc_disconnected_bmp_peers snap prev r in
  (forall id, info (rib_register r') !! id = info (rib_register r) !! id
     \/ gone r' id /\ id ∈ prev
        /\ (exists i, info (rib_register r) !! id = Some i /\ state i = Some Disconnected)
        /\ (exists i, snap !! id = Some i /\ state i = Some Disconnected
             /\ (ingress_type i = Some BgpViaBmp
                 \/ ingress_type i = Some Bmp
                    /\ forall k j, snap !! k = Some j -> parent_ingress j <> Some id)))
  /\ (forall mc p m, recs r' mc p m = recs r mc p m /\ active r' mc p m = active r mc p m
        \/ recs r' mc p m = None /\ gone r' m /\ m ∈ prev
           /\ exists i, snap !! m = Some i /\ ingress_type i = Some BgpViaBmp)
  /\ (forall m i mc p, info (rib_register r) !! m = Some i -> state i <> Some Disconnected ->
        info (rib_register r') !! m = Some i /\ recs r' mc p m = recs r mc p m
        /\ active r' mc p m = active r mc p m).
Proof.
  intros Hr. pose proof (gc_run snap prev r Hr) as H.
  destruct (gc_disconnected_bmp_peers snap prev r) as [next r'].
  destruct H as (_ & _ & I & R & A).
  assert (forall id, gc_purges snap prev (rib_register r) id = true ->
    gc_takes snap prev (rib_register r) id = true) as Hsub.
  { intros id. rewrite gc_takes_split. unfold gc_purges.
    rewrite !andb_true_iff, orb_true_iff. tauto. }
  split; [|split].
  - intros id. unfold gone. rewrite I.
    destruct (gc_takes snap prev (rib_register r) id) eqn:Ht; [right|by left].
    rewrite gc_takes_split in Ht. apply andb_true_iff in Ht as [Ht Hd].
    rewrite orb_true_iff, !bool_decide_eq_true, !elem_of_intersection in Ht.
    split; [done|]. split; [naive_solver|]. split; [by apply down_in_spec|].
    destruct Ht as [[Hp%elem_of_gc_peers _]|[[Hr' Hc]%elem_of_difference _]].
    + destruct Hp as (i & ? & ? & ?). eauto.
    + apply elem_of_gc_routers in Hr' as (i & ? & ? & ?). exists i. split; [done|].
      split; [done|]. right. split; [done|]. intros k j Hk Hj. apply Hc, elem_of_parents. eauto.
  - intros mc p m. rewrite R, A. unfold gone. rewrite I.
    destruct (gc_purges snap prev (rib_register r) m) eqn:Ht; [right|by left].
    rewrite (Hsub _ Ht). split; [done|]. split; [done|].
    unfold gc_purges in Ht. apply andb_true_iff in Ht as [Ht _].
    apply bool_decide_eq_true, elem_of_intersection in Ht as [Hp%elem_of_gc_peers Hprev].
    split; [done|]. destruct Hp as (i & ? & ? & ?). eauto.
  - intros m i mc p Hi Hst.
    assert (down_in (info (rib_register r)) m = false) as Hd.
    { apply not_true_iff_false. rewrite down_in_spec. naive_solver. }
    rewrite I, R, A, gc_takes_split. unfold gc_purges. rewrite Hd, !andb_false_r. done.
Qed.

(** Garbage collection makes progress. An entry of a BMP peer, or of a
    childless BMP router, that two successive sweeps find Disconnected is gone
    after the second, whatever happens between them, and so are all the routes
    of the peer. *)
Theorem gc_reclaims_idle cand r env id :
  ready r -> idle_peer r id \/ idle_router r id ->
  let '(cand', r1) := gc_tick cand r in
  ready (env r1) -> idle_peer (env r1) id \/ idle_router (env r1) id ->
  let '(_, r2) := gc_tick cand' (env r1) in
  gone r2 id
  /\ (idle_peer (env r1) id -> forall mc p, recs r2 mc p id = None /\ active r2 mc p id = None).
Proof.
  intros Hr Hidle. pose proof (idle_candidate cand r id Hr Hidle) as Hc.
  destruct (gc_tick cand r) as [cand' r1]. cbn [fst] in Hc. intros Hr1 Hidle1.
  unfold gc_tick. pose proof (gc_run (info (rib_register (env r1))) cand' (env r1) Hr1) as H.
  destruct (gc_disconnected_bmp_peers _ _ _) as [next r2]. destruct H as (_ & _ & I & R & A).
  split.
  - unfold gone. by rewrite I, (idle_taken _ _ _ Hidle1 Hc).
  - intros Hp mc p. by rewrite R, A, (idle_peer_purged _ _ _ Hp Hc).
Qed.

End Gc.

(** ** The walk of a dump *)
Section Walk.
Context `{E : Extern} `{PS : !PrefixStore RotondaPaMap} `{RS : !ReliableStore RotondaPaMap}.

Lemma concat_chunks {A} fuel n (l : list A) :
  (length l <= fuel)%nat -> (0 < n)%nat -> concat (chunks fuel n l) = l.
Proof.
  revert l. induction fuel as [|fuel IH]; intros l Hl Hn; cbn [chunks].
  { destruct l; cbn in *; [done|lia]. }
  destruct l as [|x l]; [done|]. cbn [concat].
  rewrite IH; [apply take_drop| |done]. rewrite length_drop. cbn in *. lia.
Qed.

Lemma emit_batch_app {A} (f : PrefixRecord RotondaPaMap -> St A bool) l1 l2 c a :
  emit_batch f (l1 ++ l2) c a
  = let '((ok, c1), a1) := emit_batch f l1 c a in
    if ok : bool then emit_batch f l2 c1 a1 else ((false, c1), a1).
Proof.
  revert c a. induction l1 as [|pr l1 IH]; intros c a; [done|].
  cbn. unfold mbind, st_bind. destruct (f pr a) as [[] a1]; [apply IH|done].
Qed.

(** The records of the keys from the [i]-th on, each looked up in the store of
    its moment. *)
Definition lookups (at_ : nat -> Store RotondaPaMap) (i : nat) (keys : list Prefix)
  : list (PrefixRecord RotondaPaMap) :=
  omap (fun e => fetch_prefix (at_ (fst e)) (snd e)) (zip (seq i (length keys)) keys).

Lemma fetch_lookups at_ i keys : fetch_chunk at_ i keys = lookups at_ i keys.
Proof.
  unfold fetch_chunk, lookups.
  enough (forall j, omap (fun e => fetch_prefix (at_ (i + fst e)%nat) (snd e))
      (zip (seq j (length keys)) keys)
    = omap (fun e => fetch_prefix (at_ (fst e)) (snd e)) (zip (seq (i + j) (length keys)) keys))
    as H by (by rewrite (H 0%nat), Nat.add_0_r).
  induction keys as [|k keys IH]; intros j; [done|]. cbn. specialize (IH (S j)).
  rewrite <- plus_n_Sm in IH. by rewrite IH.
Qed.

Lemma lookups_app at_ i l1 l2 :
  lookups at_ i (l1 ++ l2) = lookups at_ i l1 ++ lookups at_ (i + length l1) l2.
Proof.
  unfold lookups. rewrite length_app, seq_app, zip_with_app by (by rewrite length_seq).
  apply omap_app.
Qed.

(** Chunking does not show: up to the chunk after which the deadline has
    passed, the loop is one pass over the keys. *)
Lemma stream_loop_run {A} (f : PrefixRecord RotondaPaMap -> St A bool) at_ late cs i c a :
  exists n, (n <= length (concat cs))%nat
    /\ ((forall j, late j = false) -> n = length (concat cs))
    /\ stream_loop f at_ late cs i c a
       = let '(res, a') := emit_batch f (lookups at_ i (take n (concat cs))) c a in
         (snd res, a').
Proof.
  revert i c a. induction cs as [|chunk cs IH]; intros i c a; [by exists 0%nat|].
  cbn [stream_loop concat]. unfold mbind, st_bind. rewrite fetch_lookups.
  destruct (emit_batch f (lookups at_ i chunk) c a) as [[ok c1] a1] eqn:He.
  assert (forall n, emit_batch f (lookups at_ i (take (length chunk + n) (chunk ++ concat cs))) c a
    = if ok : bool then emit_batch f (lookups at_ (i + length chunk) (take n (concat cs))) c1 a1
      else ((false, c1), a1)) as Hsplit.
  { intros n. rewrite take_app_add, lookups_app, emit_batch_app, He. by destruct ok. }
  rewrite length_app. destruct ok; cbn [fst snd negb].
  - destruct (late i) eqn:Hl.
    + exists (length chunk). split; [lia|]. split; [intros H; by rewrite H in Hl|].
      rewrite <- (Nat.add_0_r (length chunk)) at 1. by rewrite Hsplit, take_0.
    + destruct (IH (i + length chunk)%nat c1 a1) as (n & Hn & Hall & Hrun).
      exists (length chunk + n)%nat. split; [lia|]. split; [intros H; by rewrite Hall|].
      by rewrite Hsplit.
  - exists (length chunk + length (concat cs))%nat. split; [lia|]. split; [done|]. by rewrite Hsplit.
Qed.

(** What is emitted for a prefix is what readers see of it. *)
Lemma fetch_view s p :
  match fetch_prefix s p with
  | Some (q, l) => q = p /\ NoDup (r_mui <$> l) /\ l <> []
      /\ forall m pa, (exists rc, rc ∈ l /\ r_mui rc = m /\ r_meta rc = pa)
           <-> exists r0, stored_at s p m = Some r0 /\ r_status r0 <> Withdrawn
                          /\ m ∉ withdrawn_muis s (prefix_is_v4 p) /\ r_meta r0 = pa
  | None => forall m r0, stored_at s p m = Some r0 -> r_status r0 <> Withdrawn ->
              m ∈ withdrawn_muis s (prefix_is_v4 p)
  end.
Proof.
  unfold fetch_prefix. destruct (records_reliable p s) as [o Ho]. rewrite Ho.
  destruct o as [meta|].
  2: { intros m r0 Hr. by rewrite (records_none _ _ m Ho) in Hr. }
  apply records_ok in Ho as [Hnd Hl].
  assert (forall rc, rc ∈ filter not_withdrawn meta
    <-> exists r0, stored_at s p (r_mui rc) = Some r0 /\ r_status r0 <> Withdrawn
                   /\ r_mui rc ∉ withdrawn_muis s (prefix_is_v4 p) /\ rc = r0) as Hf.
  { intros rc. rewrite list_elem_of_filter, Hl. unfold not_withdrawn. split.
    - intros [Hst (r0 & Hr0 & ->)]. exists r0. rewrite effective_mui in Hr0 |- *. unfold effective in *.
      by case_bool_decide.
    - intros (r0 & Hr0 & Hst & Hw & ->). split; [done|]. exists r0. split; [done|].
      unfold effective. by rewrite bool_decide_false. }
  destruct (filter not_withdrawn meta) as [|rc l] eqn:Hfl.
  - intros m r0 Hr Hst. destruct (decide (m ∈ withdrawn_muis s (prefix_is_v4 p))); [done|].
    exfalso. pose proof (stored_mui _ _ _ _ Hr) as Hm. apply (not_elem_of_nil r0), Hf.
    exists r0. by rewrite Hm.
  - rewrite <- Hfl in *. split; [done|]. split; [by apply NoDup_fmap_filter|].
    split; [by rewrite Hfl|]. intros m pa. split.
    + intros (rc' & (r0 & Hr0 & Hst & Hw & ->)%Hf & <- & <-). eauto.
    + intros (r0 & Hr0 & Hst & Hw & <-). exists r0. pose proof (stored_mui _ _ _ _ Hr0) as Hm.
      split; [|done]. apply Hf. exists r0. by rewrite Hm.
Qed.

(** The collector of the examples and of the walk's theorem. *)
Definition collect (pr : PrefixRecord RotondaPaMap)
  : St (list (PrefixRecord RotondaPaMap)) bool := fun l => (true, l ++ [pr]).

Lemma emit_collect batch c l :
  emit_batch collect batch c l = ((true, c + zlen batch), l ++ batch).
Proof.
  revert c l. induction batch as [|pr batch IH]; intros c l.
  - cbn. rewrite app_nil_r. unfold mret, st_ret. repeat f_equal. unfold zlen. cbn. lia.
  - cbn. unfold mbind, st_bind. cbn. rewrite IH, <- app_assoc. cbn. do 2 f_equal.
    unfold zlen. cbn [length]. lia.
Qed.

Lemma elem_of_lookups s i keys pr :
  pr ∈ lookups (fun _ => s) i keys <-> exists p, p ∈ keys /\ fetch_prefix s p = Some pr.
Proof.
  unfold lookups. revert i. induction keys as [|k keys IH]; intros i; cbn; [set_solver|].
  destruct (fetch_prefix s k) eqn:Hf; rewrite ?elem_of_cons, IH; setoid_rewrite elem_of_cons;
    naive_solver.
Qed.

Lemma lookups_nodup s i keys : NoDup keys -> NoDup (lookups (fun _ => s) i keys).*1.
Proof.
  intros Hn. revert i. induction Hn as [|k keys Hk _ IH]; intros i; [constructor|].
  unfold lookups. cbn. fold (lookups (fun _ => s) (S i) keys).
  pose proof (fetch_view s k) as Hv. destruct (fetch_prefix s k) as [[q l]|]; [|apply IH].
  destruct Hv as [-> _]. cbn. constructor; [|apply IH].
  intros ((q & l') & -> & (p & Hp & Hf)%elem_of_lookups)%list_elem_of_fmap. cbn in *.
  pose proof (fetch_view s p) as Hv. rewrite Hf in Hv. destruct Hv as [-> _]. done.
Qed.

(** A dump that is not cut short sees the whole table once: for a store
    that does not change, the chunked walk hands to its closure each prefix at
    most once, with exactly the routes that are active for it, and counts them.
    With a store that changes, or a closure or a deadline that stops it, what
    is handed over is a prefix of the sequence of lookups, one per key, each in
    the store of its moment. *)
Theorem stream_prefix_records_exact r s :
  unicast r = Some s ->
  (forall A (f : PrefixRecord RotondaPaMap -> St A bool) at_ late a,
     exists n, (n <= length (st_keys s))%nat
       /\ ((forall j, late j = false) -> n = length (st_keys s))
       /\ stream_prefix_records f at_ late r a
          = let '(res, a') := emit_batch f (lookups at_ 0 (take n (st_keys s))) 0 a in
            (inr (snd res), a'))
  /\ exists l, stream_prefix_records collect (fun _ => s) (fun _ => false) r []
               = (inr (zlen l), l)
       /\ NoDup l.*1
       /\ (forall p m pa, (exists rs rc, (p, rs) ∈ l /\ rc ∈ rs /\ r_mui rc = m /\ r_meta rc = pa)
             <-> active r false p m = Some pa).
Proof.
  intros Hs.
  assert (forall A (f : PrefixRecord RotondaPaMap -> St A bool) at_ late a,
     exists n, (n <= length (st_keys s))%nat
       /\ ((forall j, late j = false) -> n = length (st_keys s))
       /\ stream_prefix_records f at_ late r a
          = let '(res, a') := emit_batch f (lookups at_ 0 (take n (st_keys s))) 0 a in
            (inr (snd res), a')) as Hgen.
  { intros A f at_ late a. unfold stream_prefix_records. rewrite Hs. unfold mbind, st_bind.
    destruct (stream_loop_run f at_ late (chunks (length (st_keys s)) DUMP_KEY_CHUNK (st_keys s)) 0 0 a)
      as (n & Hn & Hall & Hrun). rewrite Hrun.
    rewrite concat_chunks in * by (try apply le_n; cbv; lia).
    exists n. split; [done|]. split; [done|]. by destruct (emit_batch _ _ _ _) as [[] ]. }
  split; [exact Hgen|].
  destruct (Hgen _ collect (fun _ => s) (fun _ => false) []) as (n & _ & Hall & ->).
  rewrite (Hall (fun _ => eq_refl)), firstn_all, emit_collect. cbn [app].
  eexists. split; [reflexivity|].
  split; [apply lookups_nodup, keys_nodup|].
  intros p m pa. rewrite active_Some. unfold recs, wd. cbn [store_of]. rewrite Hs. cbn. split.
  - intros (rs & rc & (q & _ & Hf)%elem_of_lookups & Hrc & Hm & Hpa).
    pose proof (fetch_view s q) as Hv. rewrite Hf in Hv. destruct Hv as (-> & _ & _ & Hv).
    apply Hv. eauto.
  - intros (r0 & Hr0 & Hst & Hw & Hpa). pose proof (fetch_view s p) as Hv.
    destruct (fetch_prefix s p) as [[q l]|] eqn:Hf; [|naive_solver].
    destruct Hv as (-> & _ & _ & Hv). destruct (proj2 (Hv m pa)) as (rc & Hrc & Hm & Hpa').
    { eauto. }
    exists l, rc. split; [|done]. apply elem_of_lookups. exists p. split; [|done].
    eapply keys_complete. by eexists.
Qed.

End Walk.

(** ** Withdrawal of whole ingresses, and their return *)
Section Ingresses.
Context `{E : Extern} `{PS : !PrefixStore RotondaPaMap} `{RS : !ReliableStore RotondaPaMap}.
Context `{HP : !HashIter Z (list Prefix)}.

(** Withdrawal of a batch of ingresses, each for all or for one of the
    four families. It does not panic; exactly the routes of those ingresses in
    those families stop being active, whatever the order of the batch, its
    duplicates and the number of prefixes between two flushes; with
    [retain_withdrawn_attributes] unset their attributes are gone from the
    store as well, with it set every record is kept as it was. *)
Theorem withdraw_for_ingresses_view ids retain r :
  ready r -> Forall (fun e => supported (snd e)) ids ->
  exists r', withdraw_for_ingresses ids retain r = (Some tt, r')
    /\ rib_register r' = rib_register r
    /\ (forall mc p m, active r' mc p m
          = if scoped ids mc (prefix_is_v4 p) m then None else active r mc p m)
    /\ (forall mc p m, recs r' mc p m
          = if negb retain && scoped ids mc (prefix_is_v4 p) m
            then (fun _ => compacted m) <$> recs r mc p m else recs r mc p m).
Proof.
  intros Hr Hids. destruct (withdraw_run ids retain r Hr Hids) as (r' & E1 & S1 & R1 & W1).
  exists r'. split; [done|]. split; [by apply (so_register _ _ S1)|].
  split; [by eapply active_withdraw|done].
Qed.

(** An ingress that is withdrawn and reappears. With
    [retain_withdrawn_attributes] set its routes are active again, with the
    attributes they had, as if nothing had happened; with it unset none of
    them is. The routes of other ingresses are the same all along. *)
Theorem withdraw_reappear m retain r :
  ready r -> (forall mc f, m ∉ wd r mc f) ->
  exists r1 r2, withdraw_for_ingress m None retain r = (Some tt, r1)
    /\ (forall mc p, active r1 mc p m = None)
    /\ mark_ingress_active m r1 = (Some tt, r2)
    /\ (forall mc p, active r2 mc p m = if retain then active r mc p m else None)
    /\ (forall mc p k, k <> m -> active r1 mc p k = active r mc p k
                                 /\ active r2 mc p k = active r mc p k).
Proof.
  intros Hr Hm. unfold withdraw_for_ingress.
  destruct (withdraw_run [(m, None)] retain r Hr) as (r1 & E1 & S1 & R1 & W1).
  { by repeat constructor. }
  destruct (mark_ingress_active_run m r1 (so_ready _ _ S1)) as (r2 & E2 & S2 & R2 & W2).
  pose proof (active_withdraw _ _ _ _ R1 W1) as A1.
  assert (forall mc f k, scoped [(m, None)] mc f k = bool_decide (m = k)) as Hs.
  { intros. cbn. by rewrite andb_true_r, orb_false_r. }
  exists r1, r2. split; [done|]. split.
  { intros mc p. by rewrite A1, Hs, bool_decide_true. }
  split; [done|]. split.
  - intros mc p. destruct retain.
    + apply active_ext; [by rewrite R2, R1|]. specialize (Hm mc (prefix_is_v4 p)).
      rewrite W2. set_solver.
    + unfold active. rewrite R2, R1, Hs, (bool_decide_true (m = m)) by done.
      by destruct (recs r mc p m).
  - intros mc p k Hk. assert (active r1 mc p k = active r mc p k) as H1.
    { by rewrite A1, Hs, bool_decide_false. }
    split; [done|]. rewrite <- H1. apply active_ext; [by rewrite R2|]. rewrite W2. set_solver.
Qed.

End Ingresses.

(** ** A small table *)
Module RibDemo.
#[local] Existing Instance Demo.extern.

#[export] Instance store : PrefixStore RotondaPaMap := list_store RotondaPaMap.
#[export] Instance store_ok : ReliableStore RotondaPaMap := list_store_reliable.
#[export] Instance ids : HashIter Z unit := list_order Z unit.
#[export] Instance pending : HashIter Z (list Prefix) := list_order Z (list Prefix).

Definition down_peer : IngressInfo :=
  with_state Disconnected (with_ingress_type BgpViaBmp info_default).

Definition net : Prefix := Demo.pfx (V4 (10 * 2 ^ 24)) 8 eq_refl.
Definition attrs : RotondaPaMap := mk_pamap [0; 1; 64; 1; 1; 0].
Definition route : RotondaRoute := RR_Ipv4Unicast net attrs.

Definition register7 : Register := mk_register 8 {[ 7 := down_peer ]}.

(** Ingress 7 has announced a route. *)
Definition table : Rib := snd (rib_insert route Active 0 7 true false (rib_new register7)).

Lemma table_ready : ready table.
Proof.
  destruct (insert_announced_run net false route Active 0 7 true false (rib_new register7)
    (rib_new_ready _)) as (rep & r' & Hr & Hready & _); [done|].
  unfold table, rib_insert. cbn [rr_prefix rr_multicast route]. rewrite Hr. exact Hready.
Qed.

Lemma table_store : unicast table
  = Some (mk_list_store [(net, mk_record 7 0 Active attrs)] (fun _ => ∅)).
Proof. reflexivity. Qed.

Lemma table_idle : idle_peer table 7.
Proof. by exists down_peer. Qed.

End RibDemo.

#[local] Existing Instances Demo.extern RibDemo.store RibDemo.store_ok RibDemo.ids RibDemo.pending.

Lemma gc_safe_witness :
  ready RibDemo.table /\ info (rib_register RibDemo.table) !! 7 = Some RibDemo.down_peer
  /\ let '(_, r') := gc_disconnected_bmp_peers {[ 7 := RibDemo.down_peer ]} ∅ RibDemo.table in
     recs r' false RibDemo.net 7 = recs RibDemo.table false RibDemo.net 7
     \/ 7 ∈ (∅ : gset Z).
Proof.
  split; [apply RibDemo.table_ready|]. split; [reflexivity|].
  pose proof (gc_safe {[ 7 := RibDemo.down_peer ]} ∅ RibDemo.table RibDemo.table_ready) as H.
  destruct (gc_disconnected_bmp_peers _ _ _) as [next r'].
  destruct (proj1 (proj2 H) false RibDemo.net 7) as [[Hr _]|(_ & _ & Hp & _)]; auto.
Defined.

Lemma gc_reclaims_idle_witness :
  let '(cand, _) := gc_tick ∅ RibDemo.table in
  let '(_, r2) := gc_tick cand RibDemo.table in
  gone r2 7 /\ active r2 false RibDemo.net 7 = None.
Proof.
  pose proof (gc_reclaims_idle ∅ RibDemo.table (fun _ => RibDemo.table) 7
    RibDemo.table_ready (or_introl RibDemo.table_idle)) as H.
  destruct (gc_tick ∅ RibDemo.table) as [cand r1].
  specialize (H RibDemo.table_ready (or_introl RibDemo.table_idle)).
  destruct (gc_tick cand RibDemo.table) as [next r2]. destruct H as [Hg Hr].
  split; [exact Hg|]. apply Hr, RibDemo.table_idle.
Defined.

Lemma stream_prefix_records_exact_witness :
  exists l, stream_prefix_records collect
      (fun _ => mk_list_store [(RibDemo.net, mk_record 7 0 Active RibDemo.attrs)] (fun _ => ∅))
      (fun _ => false) RibDemo.table [] = (inr (zlen l), l)
    /\ exists rs rc, (RibDemo.net, rs) ∈ l /\ rc ∈ rs /\ r_mui rc = 7
         /\ r_meta rc = RibDemo.attrs.
Proof.
  destruct (stream_prefix_records_exact RibDemo.table _ RibDemo.table_store) as [_ (l & Hl & _ & Ha)].
  exists l. split; [exact Hl|]. apply Ha. reflexivity.
Defined.

Lemma withdraw_for_ingresses_view_witness :
  exists r', withdraw_for_ingresses [(7, Some Ipv6Unicast); (8, None)] false RibDemo.table = (Some tt, r')
    /\ active r' false RibDemo.net 7 = Some RibDemo.attrs.
Proof.
  destruct (withdraw_for_ingresses_view [(7, Some Ipv6Unicast); (8, None)] false RibDemo.table
    RibDemo.table_ready) as (r' & Hr & _ & Ha & _).
  - by repeat constructor.
  - exists r'. split; [exact Hr|]. rewrite Ha. reflexivity.
Defined.

Lemma withdraw_reappear_witness :
  exists r1 r2, withdraw_for_ingress 7 None true RibDemo.table = (Some tt, r1)
    /\ active r1 false RibDemo.net 7 = None
    /\ mark_ingress_active 7 r1 = (Some tt, r2)
    /\ active r2 false RibDemo.net 7 = Some RibDemo.attrs.
Proof.
  destruct (withdraw_reappear 7 true RibDemo.table RibDemo.table_ready)
    as (r1 & r2 & E1 & A1 & E2 & A2 & _).
  - intros [] f; apply not_elem_of_empty.
  - exists r1, r2. split; [exact E1|]. split; [apply A1|]. split; [exact E2|].
    rewrite A2. reflexivity.
Defined.
