(* ===== verification/Rtr.v ===== *)
(** * RPKI-to-Router data ([src/units/rtr/client.rs], [src/units/rib_unit/rpki.rs],
    and the RTR branch of [process_update] in [src/units/rib_unit/unit.rs])

    The updates an RTR client builds, the cache of validated payloads that the
    RIB unit keeps from them, and the validation of the stored routes.  The VRP
    store is a [PrefixStore] with one record per prefix and origin AS, whose
    value is the list of maximum lengths.  [None] of the [Run] monad is a
    panic. *)

From S2P Require Import Prelude Net Register Payload Interner RibStore Rib.
From Stdlib Require Import ZArith Lia.
From stdpp Require Import base numbers list gmap.

Local Open Scope Z_scope.

(** [MaxLenList]. *)
Definition MaxLenList : Type := list Z.

(** A [HashSet]: insertion and removal report whether they changed it. *)
Definition hs_insert {A} `{EqDecision A} (x : A) (l : list A) : bool * list A :=
  if bool_decide (x ∈ l) then (false, l) else (true, x :: l).

Definition hs_remove {A} `{EqDecision A} (x : A) (l : list A) : bool * list A :=
  (bool_decide (x ∈ l), filter (fun y => y <> x) l).

(** ** The client's updates *)
Section Client.
Context `{L : Layout}.

(** [RtrTarget]: its cache is never filled. *)
Record RtrTarget : Type := mk_target { tg_cache : RtrVerbs; tg_name : rstring }.

Definition rtr_target_new (name : rstring) : RtrTarget := mk_target [] name.

(** [PayloadTarget::start]. *)
Definition target_start (reset : bool) (t : RtrTarget) : RtrUpdate :=
  if reset then RtrFull [] else RtrDelta (tg_cache t).

(** [PayloadError] of [rpki]. *)
Inductive PayloadError : Type := DuplicateAnnounce | UnknownWithdraw | Corrupt | Internal.

(** [PayloadUpdate::push_update]. *)
Definition push_update (action : RtrAction) (payload : RtrPayload) (u : RtrUpdate)
  : PayloadError + RtrUpdate :=
  match u with
  | RtrFull verbs =>
      if bool_decide (action = RtrWithdraw) then inl Corrupt
      else inr (RtrFull (verbs ++ [(RtrAnnounce, payload)]))
  | RtrDelta verbs => inr (RtrDelta (verbs ++ [(action, payload)]))
  end.

(** The updates of one response, pushed one after the other. *)
Fixpoint push_all (l : RtrVerbs) (u : RtrUpdate) : PayloadError + RtrUpdate :=
  match l with
  | [] => inr u
  | (a, p) :: l => match push_update a p u with inl e => inl e | inr u => push_all l u end
  end.

End Client.

(** ** The cache *)
Section Cache.
Context `{E : Extern} `{L : Layout} `{VS : !PrefixStore MaxLenList}.

Record RtrCache : Type := mk_cache {
  route_origins : list RouteOrigin;
  router_keys : list RouterKey;
  aspas : list Aspa;
  vrps : Store MaxLenList
}.

Definition rtr_cache_default : RtrCache := mk_cache [] [] [] store_default.

Definition set_vrps (s : Store MaxLenList) (c : RtrCache) : RtrCache :=
  mk_cache (route_origins c) (router_keys c) (aspas c) s.
Definition set_route_origins (l : list RouteOrigin) (c : RtrCache) : RtrCache :=
  mk_cache l (router_keys c) (aspas c) (vrps c).
Definition set_router_keys (l : list RouterKey) (c : RtrCache) : RtrCache :=
  mk_cache (route_origins c) l (aspas c) (vrps c).
Definition set_aspas (l : list Aspa) (c : RtrCache) : RtrCache :=
  mk_cache (route_origins c) (router_keys c) l (vrps c).

(** The exact match for one origin AS, and the match of [check_rov]. *)
Definition origin_options (asn : Asn) : MatchOptions :=
  mk_match_options ExactMatch false false false (Some asn).

Definition rov_options : MatchOptions := mk_match_options LongestMatch false true false None.

(** The maximum lengths stored for a prefix and an AS; [None] is the failed
    [assert_eq!], the inner [None] a failed lookup. *)
Definition vrp_lookup (p : Prefix) (asn : Asn) (s : Store MaxLenList)
  : option (option MaxLenList) :=
  match st_match_prefix p (origin_options asn) s with
  | inr res =>
      match qr_records res with
      | [] => Some (Some [])
      | [r] => Some (Some (r_meta r))
      | _ => None
      end
  | inl _ => Some None
  end.

(** [vrps.insert(..).unwrap()]. *)
Definition vrp_insert (p : Prefix) (asn : Asn) (l : MaxLenList) (s : Store MaxLenList)
  : option (Store MaxLenList) :=
  match st_insert p (mk_record asn 0 Active l) s with
  | (inr _, s') => Some s'
  | (inl _, _) => None
  end.

Definition origin_prefix (o : RouteOrigin) : option Prefix := prefix_new (ro_addr o) (ro_len o).

(** *** Cache Reset: the new sets that a full update collects *)
Record FullState : Type := mk_full {
  new_route_origins : list RouteOrigin;
  new_router_keys : list RouterKey;
  new_aspas : list Aspa;
  full_vrps : Store MaxLenList
}.

Definition full_verb (v : RtrAction * RtrPayload) (st : FullState) : option FullState :=
  let '(action, payload) := v in
  if bool_decide (action = RtrWithdraw) then Some st
  else match payload with
  | RP_Origin o =>
      p ← origin_prefix o;
      l ← vrp_lookup p (ro_asn o) (full_vrps st);
      s' ← vrp_insert p (ro_asn o) (default [] l ++ [resolved_max_len o]) (full_vrps st);
      Some (mk_full (snd (hs_insert o (new_route_origins st))) (new_router_keys st)
              (new_aspas st) s')
  | RP_RouterKey k =>
      Some (mk_full (new_route_origins st) (snd (hs_insert k (new_router_keys st)))
              (new_aspas st) (full_vrps st))
  | RP_Aspa a =>
      Some (mk_full (new_route_origins st) (new_router_keys st)
              (snd (hs_insert a (new_aspas st))) (full_vrps st))
  end.

Fixpoint full_verbs (l : RtrVerbs) (st : FullState) : option FullState :=
  match l with
  | [] => Some st
  | v :: l => st ← full_verb v st; full_verbs l st
  end.

(** The locks of the sets have no other holder, so [try_write] succeeds. *)
Definition rtr_full (l : RtrVerbs) (c : RtrCache) : option RtrCache :=
  st ← full_verbs l (mk_full [] [] [] (vrps c));
  Some (mk_cache (new_route_origins st) (new_router_keys st) (new_aspas st) (full_vrps st)).

(** *** Serial update *)

(** The list after an announcement or a withdrawal. *)
Definition maxlens_announce (m : Z) (l : MaxLenList) : MaxLenList :=
  if bool_decide (m ∈ l) then l else l ++ [m].

Fixpoint maxlens_withdraw (m : Z) (l : MaxLenList) : MaxLenList :=
  match l with
  | [] => []
  | x :: l => if bool_decide (x = m) then l else x :: maxlens_withdraw m l
  end.

(** The cache's part of an origin: [Some (inl _)] is the early return with an
    error. *)
Definition delta_origin (action : RtrAction) (o : RouteOrigin) (c : RtrCache)
  : option (unit + Prefix * RtrCache) :=
  p ← origin_prefix o;
  l ← vrp_lookup p (ro_asn o) (vrps c);
  match l with
  | None => Some (inl tt)
  | Some l =>
      let m := resolved_max_len o in
      let '(l, origins) :=
        match action with
        | RtrAnnounce => (maxlens_announce m l, snd (hs_insert o (route_origins c)))
        | RtrWithdraw => (maxlens_withdraw m l, snd (hs_remove o (route_origins c)))
        end in
      s' ← vrp_insert p (ro_asn o) l (vrps c);
      Some (inr (p, set_vrps s' (set_route_origins origins c)))
  end.

Definition delta_router_key (action : RtrAction) (k : RouterKey) (c : RtrCache) : RtrCache :=
  match action with
  | RtrAnnounce => set_router_keys (snd (hs_insert k (router_keys c))) c
  | RtrWithdraw => set_router_keys (snd (hs_remove k (router_keys c))) c
  end.

Definition delta_aspa (action : RtrAction) (a : Aspa) (c : RtrCache) : RtrCache :=
  match action with
  | RtrAnnounce => set_aspas (snd (hs_insert a (aspas c))) c
  | RtrWithdraw => set_aspas (snd (hs_remove a (aspas c))) c
  end.

(** *** Validation *)
Definition vrp_record (r : StoreRecord MaxLenList) : VrpRecord := mk_vrp (r_mui r) (r_meta r).

Definition vrp_match (res : QueryResult MaxLenList) : VrpMatch :=
  mk_match (vrp_record <$> qr_records res)
    ((fun l : list (PrefixRecord MaxLenList) =>
        (fun pr : PrefixRecord MaxLenList => vrp_record <$> snd pr) <$> l)
       <$> qr_less_specifics res).

(** [RtrCache::check_rov]. *)
Definition cache_check_rov (p : Prefix) (origin : Asn) (c : RtrCache) : option RovStatus :=
  check_rov (prefix_len p) origin
    (match st_match_prefix p rov_options (vrps c) with
     | inr res => Some (vrp_match res)
     | inl _ => None
     end).

End Cache.
