(* ===== verification/RtrView.v ===== *)
(** * The VRPs of the cache

    The set of VRPs that the cache holds, what each update does to it, and
    validation against it. *)

From S2P Require Import Prelude Net Register Payload Interner RibStore Rib Rtr.
From Stdlib Require Import ZArith Lia.
From stdpp Require Import base numbers list gmap.

Local Open Scope Z_scope.

Section Vrps.
Context `{E : Extern} `{L : Layout} `{VS : !PrefixStore MaxLenList} `{RV : !ReliableStore MaxLenList}.
Implicit Types (s : Store MaxLenList) (c : RtrCache).

(** Nothing is ever withdrawn from the VRP store. *)
Record vrps_ok (s : Store MaxLenList) : Prop := {
  vrps_marks f : withdrawn_muis s f = ∅;
  vrps_active p m r : stored_at s p m = Some r -> r_status r = Active
}.

Definition maxlens_of (s : Store MaxLenList) (p : Prefix) (asn : Asn) : MaxLenList :=
  default [] (r_meta <$> stored_at s p asn).

(** The VRP (prefix, maximum length, AS) is in the cache. *)
Definition vrp_in (s : Store MaxLenList) (p : Prefix) (asn m : Z) : Prop :=
  m ∈ maxlens_of s p asn.

(** The cache holds each VRP once. *)
Definition vrps_nodup (s : Store MaxLenList) : Prop := forall p asn, NoDup (maxlens_of s p asn).

Lemma vrps_default_ok : vrps_ok store_default.
Proof.
  split; [apply default_active|]. intros p m r. by rewrite default_empty.
Qed.

Lemma maxlens_default p asn : maxlens_of store_default p asn = [].
Proof. unfold maxlens_of. by rewrite default_empty. Qed.

Lemma vrp_lookup_run p asn s :
  vrps_ok s -> vrp_lookup p asn s = Some (Some (maxlens_of s p asn)).
Proof.
  intros [Hm Ha]. unfold vrp_lookup, maxlens_of.
  destruct (match_reliable p (origin_options asn) s) as [res Hres]. rewrite Hres.
  destruct (match_exact_ok p (origin_options asn) s res eq_refl Hres) as [Hnd Hin].
  rewrite Hm in Hin.
  assert (forall r, r ∈ qr_records res <-> stored_at s p asn = Some r) as Hr.
  { intros r. rewrite Hin. unfold shown, effective. cbn. split.
    - intros [(r0 & Hr0 & ->) [_ [?|[= Heq]]]]; [done|]. rewrite bool_decide_false in * by set_solver.
      by rewrite Heq.
    - intros Hr. pose proof (stored_mui _ _ _ _ Hr) as Hmui. rewrite Hmui. split; [|split].
      + exists r. split; [done|]. by rewrite bool_decide_false by set_solver.
      + right. by rewrite (Ha _ _ _ Hr).
      + by right. }
  destruct (qr_records res) as [|r1 [|r2 rs]].
  - destruct (stored_at s p asn) as [r|]; [|done].
    pose proof (proj2 (Hr r) eq_refl) as Hn. by apply not_elem_of_nil in Hn.
  - by rewrite (proj1 (Hr r1) ltac:(left)).
  - pose proof (proj1 (Hr r1) ltac:(left)) as H1.
    pose proof (proj1 (Hr r2) ltac:(right; left)) as H2.
    rewrite H1 in H2. injection H2 as <-. cbn in Hnd. apply NoDup_cons in Hnd as [Hnd _].
    by destruct Hnd; left.
Qed.

Lemma vrp_insert_run p asn l s :
  vrps_ok s ->
  exists s', vrp_insert p asn l s = Some s' /\ vrps_ok s'
    /\ forall q k, maxlens_of s' q k
         = if bool_decide (q = p /\ k = asn) then l else maxlens_of s q k.
Proof.
  intros [Hm Ha]. unfold vrp_insert. destruct (insert_reliable p (mk_record asn 0 Active l) s) as [rep Hrep].
  destruct (st_insert _ _ s) as [res s'] eqn:Hi. cbn in Hrep. subst res.
  apply insert_ok in Hi as [Hi Hw]. cbn [r_mui] in Hi. exists s'. split; [done|]. split.
  - split; [intros f; by rewrite Hw|]. intros q k r. rewrite Hi. case_bool_decide; [by intros [= <-]|].
    apply Ha.
  - intros q k. unfold maxlens_of. rewrite Hi. by case_bool_decide.
Qed.

Lemma elem_of_announce m l x : x ∈ maxlens_announce m l <-> x = m \/ x ∈ l.
Proof.
  unfold maxlens_announce. case_bool_decide; rewrite ?elem_of_app, ?list_elem_of_singleton; naive_solver.
Qed.

Lemma announce_nodup m l : NoDup l -> NoDup (maxlens_announce m l).
Proof.
  intros Hl. unfold maxlens_announce. case_bool_decide; [done|].
  apply NoDup_app. split; [done|]. split; [|apply NoDup_singleton].
  intros x Hx ->%list_elem_of_singleton. done.
Qed.

Lemma withdraw_sublist m l : maxlens_withdraw m l `sublist_of` l.
Proof.
  induction l as [|x l IH]; [done|]. cbn. case_bool_decide; [by apply sublist_cons|by constructor].
Qed.

Lemma elem_of_withdraw m l x : NoDup l -> x ∈ maxlens_withdraw m l <-> x <> m /\ x ∈ l.
Proof.
  induction 1 as [|y l Hy _ IH]; cbn; [set_solver|].
  case_bool_decide; rewrite !elem_of_cons; rewrite ?IH; naive_solver.
Qed.

(** ** Updates *)
Definition delta_list (a : RtrAction) (m : Z) (l : MaxLenList) : MaxLenList :=
  match a with RtrAnnounce => maxlens_announce m l | RtrWithdraw => maxlens_withdraw m l end.

Lemma delta_origin_run a o c p :
  vrps_ok (vrps c) -> origin_prefix o = Some p ->
  exists c', delta_origin a o c = Some (inr (p, c')) /\ vrps_ok (vrps c')
    /\ router_keys c' = router_keys c /\ aspas c' = aspas c
    /\ forall q k, maxlens_of (vrps c') q k
         = if bool_decide (q = p /\ k = ro_asn o)
           then delta_list a (resolved_max_len o) (maxlens_of (vrps c) q k)
           else maxlens_of (vrps c) q k.
Proof.
  intros Hok Hp. unfold delta_origin. rewrite Hp. cbn. rewrite (vrp_lookup_run _ _ _ Hok). cbn.
  assert (forall l origins, exists c', (s' ← vrp_insert p (ro_asn o) l (vrps c);
        Some (inr (A:=unit) (p, set_vrps s' (set_route_origins origins c))))
      = Some (inr (p, c')) /\ vrps_ok (vrps c')
    /\ router_keys c' = router_keys c /\ aspas c' = aspas c
    /\ forall q k, maxlens_of (vrps c') q k
         = if bool_decide (q = p /\ k = ro_asn o) then l else maxlens_of (vrps c) q k) as Hput.
  { intros l origins. destruct (vrp_insert_run p (ro_asn o) l _ Hok) as (s' & -> & Hok' & Hl).
    by eexists. }
  destruct a; (edestruct Hput as (c' & Hc & Hok' & Hk & Has & Hl);
    exists c'; split; [exact Hc|]; split; [done|]; split; [done|]; split; [done|];
    intros q k; rewrite Hl; case_bool_decide as Heq; [|done]; destruct Heq as [-> ->]; done).
Qed.

(** What the verb does to the set of VRPs. *)
Lemma delta_vrps a o c c' p :
  vrps_nodup (vrps c) ->
  (forall q k, maxlens_of (vrps c') q k
     = if bool_decide (q = p /\ k = ro_asn o)
       then delta_list a (resolved_max_len o) (maxlens_of (vrps c) q k)
       else maxlens_of (vrps c) q k) ->
  vrps_nodup (vrps c')
  /\ forall q k m, vrp_in (vrps c') q k m
       <-> if bool_decide (q = p /\ k = ro_asn o /\ m = resolved_max_len o)
           then a = RtrAnnounce else vrp_in (vrps c) q k m.
Proof.
  intros Hnd Hl. split.
  - intros q k. rewrite Hl. case_bool_decide; [|apply Hnd].
    destruct a; cbn; [by apply announce_nodup|]. eapply sublist_NoDup; [|apply withdraw_sublist]. apply Hnd.
  - intros q k m. unfold vrp_in. rewrite Hl. specialize (Hnd q k).
    destruct (decide (q = p /\ k = ro_asn o)) as [[-> ->]|Hne].
    + rewrite (bool_decide_true (p = p /\ ro_asn o = ro_asn o)) by done.
      destruct a; cbn; [rewrite elem_of_announce|rewrite elem_of_withdraw by done];
        case_bool_decide; naive_solver.
    + rewrite (bool_decide_false (q = p /\ k = ro_asn o)), bool_decide_false by naive_solver. done.
Qed.

(** A full update only adds. *)
Lemma full_verbs_run l st st' :
  vrps_ok (full_vrps st) -> full_verbs l st = Some st' ->
  vrps_ok (full_vrps st')
  /\ forall q k, exists added, maxlens_of (full_vrps st') q k = maxlens_of (full_vrps st) q k ++ added
       /\ forall m, m ∈ added <-> exists o, (RtrAnnounce, RP_Origin o) ∈ l
                    /\ origin_prefix o = Some q /\ ro_asn o = k /\ resolved_max_len o = m.
Proof.
  revert st. induction l as [|[a pl] l IH]; intros st Hok Hst.
  { injection Hst as <-. split; [done|]. intros q k. exists []. rewrite app_nil_r. split; [done|].
    intros m. split; [by intros ?%not_elem_of_nil|by intros (o & ?%not_elem_of_nil & _)]. }
  cbn [full_verbs] in Hst. apply bind_Some in Hst as (st1 & Hv & Hst).
  assert (vrps_ok (full_vrps st1)
    /\ forall q k, exists add1, maxlens_of (full_vrps st1) q k = maxlens_of (full_vrps st) q k ++ add1
       /\ forall m, m ∈ add1 <-> exists o, (a, pl) = (RtrAnnounce, RP_Origin o)
                    /\ origin_prefix o = Some q /\ ro_asn o = k /\ resolved_max_len o = m)
    as [Hok1 Hadd1].
  { assert (forall q k, exists add1, maxlens_of (full_vrps st) q k = maxlens_of (full_vrps st) q k ++ add1
       /\ forall m : Z, m ∈ add1 <-> False) as Hnone.
    { intros q k. exists []. rewrite app_nil_r. split; [done|]. intros m. by rewrite elem_of_nil. }
    unfold full_verb in Hv. destruct a; [rewrite bool_decide_false in Hv by done|
      rewrite bool_decide_true in Hv by done].
    2: { injection Hv as <-. split; [done|]. intros q k. destruct (Hnone q k) as (add1 & Ha & Hm).
         exists add1. split; [done|]. intros m. rewrite Hm. naive_solver. }
    destruct pl as [o|rk|asp].
    2-3: injection Hv as <-; split; [done|]; intros q k; destruct (Hnone q k) as (add1 & Ha & Hm);
         exists add1; split; [done|]; intros m; rewrite Hm; naive_solver.
    apply bind_Some in Hv as (p & Hp & Hv). rewrite (vrp_lookup_run _ _ _ Hok) in Hv. cbn in Hv.
    destruct (vrp_insert_run p (ro_asn o) (maxlens_of (full_vrps st) p (ro_asn o) ++ [resolved_max_len o])
      _ Hok) as (s' & Hs' & Hok' & Hl). rewrite Hs' in Hv. injection Hv as <-. split; [done|].
    intros q k. cbn [full_vrps]. rewrite Hl. case_bool_decide as Hq.
    - destruct Hq as [-> ->]. eexists. split; [done|]. intros m. rewrite list_elem_of_singleton.
      naive_solver.
    - exists []. rewrite app_nil_r. split; [done|]. intros m. rewrite elem_of_nil. naive_solver. }
  destruct (IH _ Hok1 Hst) as [Hok2 Hadd2]. split; [done|]. intros q k.
  destruct (Hadd1 q k) as (add1 & H1 & Hm1), (Hadd2 q k) as (add2 & H2 & Hm2).
  exists (add1 ++ add2). split; [by rewrite H2, H1, app_assoc|]. intros m.
  rewrite elem_of_app, Hm1, Hm2. setoid_rewrite elem_of_cons. naive_solver.
Qed.

(** ** Validation (RFC 6811) against the VRPs of the cache *)
Definition rov_covered (s : Store MaxLenList) (p : Prefix) : Prop :=
  exists q k m, covers q p = true /\ vrp_in s q k m.

Definition rov_matched (s : Store MaxLenList) (p : Prefix) (origin : Asn) : Prop :=
  exists q m, covers q p = true /\ vrp_in s q origin m /\ prefix_len p <= m.

Lemma elem_of_concat {A} (x : A) ls : x ∈ concat ls <-> exists l, l ∈ ls /\ x ∈ l.
Proof. rewrite list_elem_of_In, in_concat. by setoid_rewrite list_elem_of_In. Qed.

Lemma elem_of_covering res v :
  v ∈ covering (vrp_match res)
  <-> exists r, v = vrp_record r
        /\ (r ∈ qr_records res
            \/ exists pr, pr ∈ default [] (qr_less_specifics res) /\ r ∈ snd pr).
Proof.
  unfold covering, vrp_match. cbn [records less_specifics].
  rewrite elem_of_app, list_elem_of_fmap. destruct (qr_less_specifics res) as [l|]; cbn.
  2: { setoid_rewrite elem_of_nil. naive_solver. }
  rewrite elem_of_concat. setoid_rewrite list_elem_of_fmap. split.
  - intros [(r & -> & Hr)|(vs & (pr & -> & Hp) & (r & -> & Hr)%list_elem_of_fmap)]; eauto 10.
  - intros (r & -> & [Hr|(pr & Hp & Hr)]); [eauto|]. right.
    eexists. split; [by exists pr|]. apply list_elem_of_fmap. eauto.
Qed.

Lemma covering_vrps s p res asn m :
  vrps_ok s -> st_match_prefix p rov_options s = inr res ->
  (exists v, v ∈ covering (vrp_match res) /\ m ∈ maxlens v /\ multi_uniq_id v = asn)
  <-> exists q, covers q p = true /\ vrp_in s q asn m.
Proof.
  intros [Hm Ha] Hres. setoid_rewrite elem_of_covering.
  pose proof (match_longest_ok p rov_options s res eq_refl eq_refl Hres) as Hin.
  split.
  - intros (v & (r & -> & Hr) & Hml & Hk). apply Hin in Hr as (q & Hq & (r0 & Hr0 & Heq) & _).
    exists q. split; [done|]. rewrite Hm in Heq. unfold effective in Heq.
    rewrite bool_decide_false in Heq by set_solver. subst r0. cbn in Hml, Hk.
    unfold vrp_in, maxlens_of. rewrite <- Hk, Hr0. exact Hml.
  - intros (q & Hq & Hv). unfold vrp_in, maxlens_of in Hv.
    destruct (stored_at s q asn) as [r|] eqn:Hr; [|by apply not_elem_of_nil in Hv].
    cbn in Hv. pose proof (stored_mui _ _ _ _ Hr) as Hmui. exists (vrp_record r). split; [|done].
    exists r. split; [done|]. apply Hin. exists q. split; [done|]. split; [|split].
    + exists r. rewrite Hmui, Hm. unfold effective. by rewrite bool_decide_false by set_solver.
    + right. by rewrite (Ha _ _ _ Hr).
    + by left.
Qed.

Lemma cache_rov_run c p origin :
  vrps_ok (vrps c) ->
  exists st, cache_check_rov p origin c = Some st
    /\ (st = Valid <-> rov_matched (vrps c) p origin)
    /\ (st = Invalid <-> rov_covered (vrps c) p /\ ~ rov_matched (vrps c) p origin)
    /\ (st = NotFound <-> ~ rov_covered (vrps c) p).
Proof.
  intros Hok. unfold cache_check_rov.
  destruct (match_reliable p rov_options (vrps c)) as [res Hres]. rewrite Hres.
  destruct (check_rov_rfc6811 (prefix_len p) origin (vrp_match res)) as (_ & Hn & Hv & Hi & Hf).
  destruct (check_rov _ _ _) as [st|]; [|done].
  assert (vrp_covers (vrp_match res) <-> rov_covered (vrps c) p) as Hc.
  { unfold vrp_covers, rov_covered. split.
    - intros (v & m & Hv' & Hm). destruct (proj1 (covering_vrps _ _ _ (multi_uniq_id v) m Hok Hres))
        as (q & Hq & Hin); [by exists v|]. eauto.
    - intros (q & k & m & Hq & Hin). destruct (proj2 (covering_vrps _ _ _ k m Hok Hres))
        as (v & ? & ? & _); eauto. }
  assert (vrp_matches (prefix_len p) origin (vrp_match res) <-> rov_matched (vrps c) p origin) as Hmt.
  { unfold vrp_matches, rov_matched. split.
    - intros (v & m & Hv' & Hm & Hle & Hk). destruct (proj1 (covering_vrps _ _ _ origin m Hok Hres))
        as (q & Hq & Hin); [by exists v|]. eauto.
    - intros (q & m & Hq & Hin & Hle). destruct (proj2 (covering_vrps _ _ _ origin m Hok Hres))
        as (v & ? & ? & ?); eauto 10. }
  exists st. rewrite Hc, Hmt in *. split; [done|].
  split; [|split]; [rewrite <- Hv|rewrite <- Hi|rewrite <- Hf]; split; congruence.
Qed.

(** The answer depends only on the VRPs that cover the prefix. *)
Lemma cache_rov_ext c c' p origin :
  vrps_ok (vrps c) -> vrps_ok (vrps c') ->
  (forall q k m, covers q p = true -> vrp_in (vrps c) q k m <-> vrp_in (vrps c') q k m) ->
  cache_check_rov p origin c = cache_check_rov p origin c'.
Proof.
  intros Hok Hok' Hext.
  destruct (cache_rov_run c p origin Hok) as (st & -> & Hv & Hi & Hn).
  destruct (cache_rov_run c' p origin Hok') as (st' & -> & Hv' & Hi' & Hn').
  assert (rov_covered (vrps c) p <-> rov_covered (vrps c') p) as Hc.
  { unfold rov_covered. split; intros (q & k & m & Hq & H); exists q, k, m; by rewrite Hext in *. }
  assert (rov_matched (vrps c) p origin <-> rov_matched (vrps c') p origin) as Hm.
  { unfold rov_matched. split; intros (q & m & Hq & H & Hle); exists q, m; by rewrite Hext in *. }
  rewrite Hc, Hm in *. destruct st, st'; try done; exfalso; intuition congruence.
Qed.

End Vrps.
