(* ===== verification/RibUnit.v ===== *)
(** * The RIB unit ([src/units/rib_unit/unit.rs])

    [process_update] with everything it calls: the filtering and insertion of
    payloads, the withdrawal, removal and return of ingresses, the RTR updates
    with the validation of stored routes, and what goes out of the gate.  The
    Roto functions of the configuration are parameters.  A panic inside
    [spawn_blocking] is caught and logged; any other is [None]. *)

From S2P Require Import Prelude Net Register Payload Interner RibStore Rib Rtr.
From Stdlib Require Import ZArith Lia.
From stdpp Require Import base numbers list gmap.

Local Open Scope Z_scope.

Section Updates.
Context `{E : Extern}.

Record RovStatusUpdate : Type := mk_rov_update {
  ru_prefix : Prefix;
  previous_status : RovStatus;
  current_status : RovStatus;
  ru_origin : Asn;
  peer_asn : Asn
}.

End Updates.

(** The compiled Roto functions: a verdict ([true]: accept), and the route as
    the function leaves it; they read the register and the RTR cache, and write
    to the output stream of their context. [hop_origin] is the right-most AS of
    the AS_PATH as [routecore] finds it. *)
Class Roto `{E : Extern} `{L : Layout} `{VS : !PrefixStore MaxLenList} := {
  RotoCtx : Type;
  roto_function_pre :
    option (Register -> RtrCache -> IngressId -> RotondaRoute -> RotoCtx
            -> bool * RotondaRoute * RotoCtx);
  roto_function_vrp_update :
    option (RtrAction -> RouteOrigin -> RotoCtx -> bool * RotoCtx);
  roto_function_vrp_update_post : option (RovStatusUpdate -> RotoCtx -> RotoCtx);
  drain_output : RotoCtx -> list Output * RotoCtx;
  hop_origin : OwnedPathAttributes -> option Asn
}.

Section Unit.
Context `{E : Extern} `{L : Layout} `{PS : !PrefixStore RotondaPaMap} `{VS : !PrefixStore MaxLenList}.
Context `{RT : !Roto} `{HP : !HashIter Z (list Prefix)} `{HS : !HashIter Z unit}.

(** [RibUnitRunner]; [gate_out] is what has been sent through the gate,
    [rov_walks] the number of spawned validation runs that have yet to run. *)
Record RibUnitRunner : Type := mk_runner {
  rib : Rib;
  rtr_cache : RtrCache;
  roto_context : RotoCtx;
  retain_withdrawn_attributes : bool;
  deduplicate_path_attributes : bool;
  gate_out : list Update;
  rov_walks : nat
}.

Definition set_rib (r : Rib) (u : RibUnitRunner) : RibUnitRunner :=
  mk_runner r (rtr_cache u) (roto_context u) (retain_withdrawn_attributes u)
    (deduplicate_path_attributes u) (gate_out u) (rov_walks u).
Definition set_rtr_cache (c : RtrCache) (u : RibUnitRunner) : RibUnitRunner :=
  mk_runner (rib u) c (roto_context u) (retain_withdrawn_attributes u)
    (deduplicate_path_attributes u) (gate_out u) (rov_walks u).
Definition set_roto_context (x : RotoCtx) (u : RibUnitRunner) : RibUnitRunner :=
  mk_runner (rib u) (rtr_cache u) x (retain_withdrawn_attributes u)
    (deduplicate_path_attributes u) (gate_out u) (rov_walks u).
Definition set_rov_walks (n : nat) (u : RibUnitRunner) : RibUnitRunner :=
  mk_runner (rib u) (rtr_cache u) (roto_context u) (retain_withdrawn_attributes u)
    (deduplicate_path_attributes u) (gate_out u) n.

(** [gate.update_data]. *)
Definition update_data (x : Update) : Run RibUnitRunner unit :=
  run_modify (fun u => mk_runner (rib u) (rtr_cache u) (roto_context u)
    (retain_withdrawn_attributes u) (deduplicate_path_attributes u) (gate_out u ++ [x])
    (rov_walks u)).

(** An operation of the RIB, inline. *)
Definition on_rib {A} (m : Run Rib A) : Run RibUnitRunner A :=
  fun u => let '(a, r) := m (rib u) in (a, set_rib r u).

(** The same on the blocking pool: the error of a task that panics is logged. *)
Definition blocking (m : Run Rib unit) : Run RibUnitRunner unit :=
  fun u => (Some tt, set_rib (snd (m (rib u))) u).

Definition lift_opt {S A} (o : option A) : Run S A :=
  match o with Some a => mret a | None => run_fail end.

Definition signal_withdraws_blocking (ids : list (IngressId * option AfiSafiType))
  : Run RibUnitRunner unit :=
  u ← run_get;
  if bool_decide (ids = []) then mret tt
  else blocking (withdraw_for_ingresses ids (retain_withdrawn_attributes u)).

Definition signal_removes_blocking (ids : list IngressId) : Run RibUnitRunner unit :=
  if bool_decide (ids = []) then mret tt
  else blocking (run_modify (remove_for_ingresses ids)).

Definition mark_ingress_active_blocking (id : IngressId) : Run RibUnitRunner unit :=
  blocking (mark_ingress_active id).

(** [process_output_stream]. *)
Definition output_message (route : option RotondaRoute) (id : option IngressId) (o : Output)
  : option OutputStreamMessage :=
  match o with
  | O_Prefix _ => Some (osm_prefix route id)
  | O_Community _ => Some (osm_community route id)
  | O_Asn _ => Some (osm_asn route id)
  | O_Origin _ => Some (osm_origin route id)
  | O_PeerDown => None
  | O_Custom cid local => Some (osm_custom cid local id)
  | O_Entry e => Some (osm_entry e id)
  end.

Definition process_output_stream (route : option RotondaRoute) (id : option IngressId)
  : Run RibUnitRunner (list OutputStreamMessage) :=
  u ← run_get;
  let '(outs, ctx) := drain_output (roto_context u) in
  _ ← run_modify (set_roto_context ctx);
  mret (omap (output_message route id) outs).

(** [insert_payload]: a failure is reported and otherwise ignored. *)
Definition insert_payload (p : Payload) : Run RibUnitRunner unit :=
  u ← run_get;
  _ ← on_rib (rib_insert (rx_value p) (route_status p) 0 (ingress_id p)
               (retain_withdrawn_attributes u) (deduplicate_path_attributes u));
  mret tt.

Definition with_route (r : RotondaRoute) (p : Payload) : Payload :=
  mk_payload r (trace_id p) (received p) (ingress_id p) (route_status p).

(** One turn of the loop of [filter_payload]: the payload as the filter leaves
    it, and whether it was accepted. *)
Definition filter_one (p : Payload) : Run RibUnitRunner (bool * Payload) :=
  u ← run_get;
  res ← match roto_function_pre with
        | Some f =>
            let '(ok, route, ctx) :=
              f (rib_register (rib u)) (rtr_cache u) (ingress_id p) (rx_value p)
                (roto_context u) in
            _ ← run_modify (set_roto_context ctx);
            if ok : bool then
              _ ← insert_payload (with_route route p); mret (true, with_route route p)
            else mret (false, with_route route p)
        | None => _ ← insert_payload p; mret (true, p)
        end;
  osms ← process_output_stream (Some (rx_value (snd res))) (Some (ingress_id (snd res)));
  _ ← update_data (OutputStream osms);
  mret res.

Fixpoint filter_loop (ps res : list Payload) : Run RibUnitRunner (list Payload) :=
  match ps with
  | [] => mret res
  | p :: ps =>
      x ← filter_one p;
      let '(ok, p) := x : bool * Payload in
      filter_loop ps (if ok then res ++ [p] else res)
  end.

Definition filter_payload (ps : list Payload) : Run RibUnitRunner unit :=
  res ← filter_loop ps [];
  match res with
  | [] => mret tt
  | [p] => update_data (Single p)
  | _ => update_data (Bulk res)
  end.

(** ** Validation of the stored routes *)

(** The validation of one record: the record to store and the change, unless
    its path has no origin. *)
Definition revalidate (c : RtrCache) (reg : Register) (p : Prefix)
    (rc : StoreRecord RotondaPaMap)
  : option (option (StoreRecord RotondaPaMap * RovStatusUpdate)) :=
  pa ← path_attributes (r_meta rc);
  match hop_origin pa with
  | None => Some None
  | Some origin =>
      st ← cache_check_rov p origin c;
      old ← rpki_info (r_meta rc);
      meta ← set_rpki_info (mk_rpki st) (r_meta rc);
      let peer := default 0 (get (r_mui rc) reg ≫= remote_asn) in
      Some (Some (mk_record (r_mui rc) (r_ltime rc) (r_status rc) meta,
                  mk_rov_update p (rov old) st origin peer))
  end.

(** The loop over the records of a prefix: failed insertions are logged. *)
Fixpoint rov_prefix (c : RtrCache) (p : Prefix) (rs : list (StoreRecord RotondaPaMap))
    (acc : list RovStatusUpdate) : Run Rib (list RovStatusUpdate) :=
  match rs with
  | [] => mret acc
  | rc :: rs =>
      r ← run_get;
      x ← lift_opt (revalidate c (rib_register r) p rc);
      match x with
      | None => rov_prefix c p rs acc
      | Some (rc', upd) =>
          _ ← on_store false (st_insert p rc');
          rov_prefix c p rs (acc ++ [upd])
      end
  end.

Fixpoint rov_prefixes (c : RtrCache) (prs : list (PrefixRecord RotondaPaMap))
    (acc : list RovStatusUpdate) : Run Rib (list RovStatusUpdate) :=
  match prs with
  | [] => mret acc
  | (p, rs) :: prs => acc ← rov_prefix c p rs acc; rov_prefixes c prs acc
  end.

(** The task that a Cache Reset spawns: every record of the unicast store. *)
Definition rov_walk (c : RtrCache) : Run Rib unit :=
  r ← run_get;
  match unicast r with
  | None => mret tt
  | Some s => _ ← rov_prefixes c (st_prefixes None s) []; mret tt
  end.

Definition more_specific_options : MatchOptions :=
  mk_match_options ExactMatch false false true None.

(** The routes that a VRP concerns. *)
Definition rov_for_vrp (c : RtrCache) (p : Prefix) : Run Rib (option (list RovStatusUpdate)) :=
  r ← run_get;
  match rib_match_prefix p more_specific_options r with
  | inl _ => mret None
  | inr res =>
      acc ← rov_prefix c p (qr_records res) [];
      acc ← rov_prefixes c (default [] (qr_more_specifics res)) acc;
      mret (Some acc)
  end.

(** ** RTR updates *)
Definition vrp_filter (action : RtrAction) (o : RouteOrigin) : Run RibUnitRunner bool :=
  match roto_function_vrp_update with
  | None => mret true
  | Some f =>
      u ← run_get;
      let '(ok, ctx) := f action o (roto_context u) in
      _ ← run_modify (set_roto_context ctx);
      osms ← process_output_stream None None;
      _ ← update_data (OutputStream osms);
      mret ok
  end.

Definition rov_post (upds : list RovStatusUpdate) : Run RibUnitRunner unit :=
  match roto_function_vrp_update_post with
  | None => mret tt
  | Some f =>
      _ ← run_modify (fun u => set_roto_context (foldl (fun x upd => f upd x) (roto_context u) upds) u);
      osms ← process_output_stream None None;
      update_data (OutputStream osms)
  end.

(** A verb of a Serial update: [false] is the early return with an error. *)
Definition delta_verb (v : RtrAction * RtrPayload) : Run RibUnitRunner bool :=
  let '(action, payload) := v in
  u ← run_get;
  match payload with
  | RP_Origin o =>
      x ← lift_opt (delta_origin action o (rtr_cache u));
      match x with
      | inl _ => mret false
      | inr (p, c) =>
          _ ← run_modify (set_rtr_cache c);
          apply_ ← vrp_filter action o;
          if apply_ : bool then
            upds ← on_rib (rov_for_vrp c p);
            match upds with
            | Some upds => _ ← rov_post upds; mret true
            | None => mret true
            end
          else mret true
      end
  | RP_RouterKey k =>
      _ ← run_modify (set_rtr_cache (delta_router_key action k (rtr_cache u))); mret true
  | RP_Aspa a =>
      _ ← run_modify (set_rtr_cache (delta_aspa action a (rtr_cache u))); mret true
  end.

Fixpoint delta_verbs (l : RtrVerbs) : Run RibUnitRunner bool :=
  match l with
  | [] => mret true
  | v :: l => ok ← delta_verb v; if ok : bool then delta_verbs l else mret false
  end.

Definition process_rtr (x : RtrUpdate) : Run RibUnitRunner bool :=
  match x with
  | RtrFull l =>
      u ← run_get;
      c ← lift_opt (rtr_full l (rtr_cache u));
      _ ← run_modify (set_rtr_cache c);
      _ ← run_modify (set_rov_walks (S (rov_walks u)));
      mret true
  | RtrDelta l => delta_verbs l
  end.

(** ** [process_update]: [false] is an error, which is logged *)
Definition process_update (x : Update) : Run RibUnitRunner bool :=
  match x with
  | EndOfStream _ | OutputStream _ | PeerStats _ _ => _ ← update_data x; mret true
  | Bulk ps => _ ← filter_payload ps; mret true
  | Single p => _ ← filter_payload [p]; mret true
  | WithdrawBulk entries =>
      _ ← signal_withdraws_blocking
            (omap (fun e => match snd e with Some _ => None | None => Some (fst e, None) end) entries);
      _ ← signal_removes_blocking
            (omap (fun e => match snd e with Some _ => Some (fst e) | None => None end) entries);
      _ ← update_data x;
      mret true
  | IngressReappeared id =>
      _ ← mark_ingress_active_blocking id;
      _ ← run_modify (fun u => set_rib (set_rib_register
            (snd (update_info id connected_info (rib_register (rib u)))) (rib u)) u);
      _ ← update_data x;
      mret true
  | Withdraw id afisafi =>
      _ ← signal_withdraws_blocking [(id, afisafi)];
      _ ← update_data x;
      mret true
  | UpdateRtr y => process_rtr y
  end.

(** [DirectUpdate::direct_update]. *)
Definition direct_update (x : Update) : Run RibUnitRunner unit :=
  _ ← process_update x; mret tt.

(** A spawned validation run, with the cache of that moment. *)
Definition run_rov_walk : Run RibUnitRunner unit :=
  fun u => match rov_walks u with
           | O => (Some tt, u)
           | S n => (Some tt, set_rov_walks n (set_rib (snd (rov_walk (rtr_cache u) (rib u))) u))
           end.

(** The reconfiguration of the running unit. *)
Definition reconfigure (retain dedup : bool) (u : RibUnitRunner) : RibUnitRunner :=
  mk_runner (rib u) (rtr_cache u) (roto_context u) retain dedup (gate_out u) (rov_walks u).

End Unit.
