(* ===== verification/RibSpec.v ===== *)
(** * What the RIB unit promises

    An abstract table: for each peer and prefix the attributes last announced,
    and for each peer and family whether it is off.  [process_update] refines
    it for every update that is not RTR, and sends on what it has stored. *)

From S2P Require Import Prelude Net Register Payload Interner RibStore Rib RibView RibProps Rtr RibUnit.
From Stdlib Require Import ZArith Lia.
From stdpp Require Import base numbers list gmap.

Local Open Scope Z_scope.

Section Table.
Context `{E : Extern}.

Record Table : Type := mk_table {
  t_kept : bool -> Prefix -> Z -> option RotondaPaMap;
  t_off : bool -> bool -> Z -> bool
}.

#[export] Instance table_equiv : Equiv Table := fun S T =>
  (forall mc p m, t_kept S mc p m = t_kept T mc p m)
  /\ (forall mc f m, t_off S mc f m = t_off T mc f m).

#[export] Instance table_equivalence : Equivalence (≡@{Table}).
Proof.
  split.
  - by intros S.
  - intros S T [H1 H2]. by split; intros; rewrite ?H1, ?H2.
  - intros S T U [H1 H2] [H3 H4]. by split; intros; rewrite ?H1, ?H2.
Qed.

(** The routes that readers see. *)
Definition t_view (T : Table) (mc : bool) (p : Prefix) (m : Z) : option RotondaPaMap :=
  if t_off T mc (prefix_is_v4 p) m then None else t_kept T mc p m.

#[export] Instance t_view_proper : Proper ((≡) ==> eq ==> eq ==> eq ==> eq) t_view.
Proof. intros S T [H1 H2] mc _ <- p _ <- m _ <-. unfold t_view. by rewrite H1, H2. Qed.

Definition t_set (mc : bool) (p : Prefix) (m : Z) (v : option RotondaPaMap) (T : Table) : Table :=
  mk_table (fun mc' q k => if same_route mc mc' p q m k then v else t_kept T mc' q k) (t_off T).

Definition t_up (m : Z) (T : Table) : Table :=
  mk_table (t_kept T) (fun mc f k => if bool_decide (k = m) then false else t_off T mc f k).

(** The first announcement of a peer that is off switches it on again. *)
Definition t_payload (x : Payload) (T : Table) : Table :=
  let mc := rr_multicast (rx_value x) in
  let p := rr_prefix (rx_value x) in
  let m := ingress_id x in
  match route_status x with
  | Withdrawn => t_set mc p m None T
  | Active =>
      t_set mc p m (Some (rotonda_pamap (rx_value x)))
        (if t_off T mc true m || t_off T mc false m then t_up m T else T)
  | InActive => t_set mc p m (Some (rotonda_pamap (rx_value x))) T
  end.

Definition t_down (retain : bool) (ids : list (IngressId * option AfiSafiType)) (T : Table) : Table :=
  mk_table
    (fun mc p m => if negb retain && scoped ids mc (prefix_is_v4 p) m then None else t_kept T mc p m)
    (fun mc f m => t_off T mc f m || scoped ids mc f m).

Definition t_remove (ids : list IngressId) (T : Table) : Table :=
  mk_table (fun mc p m => if bool_decide (m ∈ ids) then None else t_kept T mc p m)
    (fun mc f m => negb (bool_decide (m ∈ ids)) && t_off T mc f m).

#[export] Instance t_set_proper mc p m v : Proper ((≡) ==> (≡)) (t_set mc p m v).
Proof.
  intros S T [H1 H2]. split; cbn; [|done]. intros. by destruct (same_route _ _ _ _ _ _).
Qed.

#[export] Instance t_up_proper m : Proper ((≡) ==> (≡)) (t_up m).
Proof. intros S T [H1 H2]. split; cbn; [done|]. intros. by rewrite H2. Qed.

#[export] Instance t_down_proper retain ids : Proper ((≡) ==> (≡)) (t_down retain ids).
Proof. intros S T [H1 H2]. split; cbn; intros; by rewrite ?H1, ?H2. Qed.

#[export] Instance t_remove_proper ids : Proper ((≡) ==> (≡)) (t_remove ids).
Proof. intros S T [H1 H2]. split; cbn; intros; by rewrite ?H1, ?H2. Qed.

#[export] Instance t_payload_proper x : Proper ((≡) ==> (≡)) (t_payload x).
Proof.
  intros S T HST. unfold t_payload. destruct (route_status x); [|by rewrite HST..].
  destruct HST as [H1 H2]. rewrite !H2. apply t_set_proper. destruct (_ || _); [|done].
  by apply t_up_proper.
Qed.

(** The partition of a [WithdrawBulk]. *)
Definition to_mark {A} (entries : list (IngressId * option A)) : list (IngressId * option AfiSafiType) :=
  omap (fun e => match snd e with Some _ => None | None => Some (fst e, None) end) entries.

Definition to_remove {A} (entries : list (IngressId * option A)) : list IngressId :=
  omap (fun e => match snd e with Some _ => Some (fst e) | None => None end) entries.

Context `{L : Layout}.

(** The payloads of an update. *)
Definition payloads (x : Update) : list Payload :=
  match x with Single p => [p] | Bulk ps => ps | _ => [] end.

(** What an update means for the table when nothing filters it. *)
Definition t_update (retain : bool) (x : Update) (T : Table) : Table :=
  match x with
  | Single _ | Bulk _ => foldl (fun T p => t_payload p T) T (payloads x)
  | Withdraw id t => t_down retain [(id, t)] T
  | WithdrawBulk es => t_remove (to_remove es) (t_down retain (to_mark es) T)
  | IngressReappeared id => t_up id T
  | _ => T
  end.

(** The payloads that go on, as one update. *)
Definition sent_on (acc : list Payload) : list Update :=
  match acc with [] => [] | [p] => [Single p] | _ => [Bulk acc] end.

Definition supported_update (x : Update) : Prop :=
  match x with Withdraw _ t => supported t | UpdateRtr _ => False | _ => True end.

End Table.

Section Refinement.
Context `{E : Extern} `{L : Layout} `{PS : !PrefixStore RotondaPaMap} `{VS : !PrefixStore MaxLenList}.
Context `{RS : !ReliableStore RotondaPaMap}.
Context `{RT : !Roto} `{HP : !HashIter Z (list Prefix)} `{HS : !HashIter Z unit}.

(** The table that a RIB holds. *)
Definition abs (r : Rib) : Table :=
  mk_table
    (fun mc p m => rc ← recs r mc p m;
                   if bool_decide (r_status rc = Withdrawn) then None else Some (r_meta rc))
    (fun mc f m => bool_decide (m ∈ wd r mc f)).

Lemma active_abs r mc p m : active r mc p m = t_view (abs r) mc p m.
Proof.
  unfold active, t_view, abs. cbn. destruct (recs r mc p m) as [rc|]; cbn;
    repeat case_bool_decide; done.
Qed.

Lemma marked_abs r mc m : marked r mc m = t_off (abs r) mc true m || t_off (abs r) mc false m.
Proof. done. Qed.

Lemma abs_insert val status t m retain dd r :
  ready r ->
  exists res r', rib_insert val status t m retain dd r = (Some res, r') /\ ready r'
    /\ rib_register r' = (if bool_decide (status = Active) && marked r (rr_multicast val) m
                          then snd (update_info m connected_info (rib_register r)) else rib_register r)
    /\ forall tr now, abs r' ≡ t_payload (mk_payload val tr now m status) (abs r).
Proof.
  intros Hr. unfold rib_insert. set (mc := rr_multicast val). set (p := rr_prefix val).
  destruct (decide (status = Withdrawn)) as [->|Hst].
  - destruct (insert_withdrawn_run p mc val t m retain dd r Hr) as (res & r' & E1 & S1 & W1 & R1 & R2).
    exists res, r'. split; [done|]. split; [apply S1|]. split; [apply S1|]. intros tr now. cbn. fold mc p. split.
    + intros mc' q k. cbn. destruct (same_route mc mc' p q m k) eqn:Hsame; [|by rewrite R1].
      apply bool_decide_eq_true in Hsame as (-> & -> & ->).
      destruct (recs r' mc p m) as [rc|]; [|done]. cbn in *.
      destruct (recs r mc p m) as [rc0|]; [|done]. injection R2 as -> _. done.
    + intros mc' f k. cbn. by rewrite W1.
  - destruct (insert_announced_run p mc val status t m retain dd r Hr Hst)
      as (rep & r' & E1 & Hr' & [G1 W1] & R1).
    exists (inr rep), r'. split; [done|]. split; [done|]. split; [exact G1|]. intros tr now. unfold t_payload.
    cbn [rx_value ingress_id route_status]. fold mc p. rewrite <- marked_abs.
    assert (forall mc' q k, t_kept (abs r') mc' q k
      = if same_route mc mc' p q m k then Some (rotonda_pamap val) else t_kept (abs r) mc' q k) as HK.
    { intros mc' q k. cbn. rewrite R1. unfold same_route.
      destruct (bool_decide (mc' = mc /\ q = p /\ k = m)); [|done]. cbn.
      by rewrite (bool_decide_false (status = Withdrawn)). }
    destruct status; [|split; [exact HK|]; intros mc' f k; cbn; by rewrite W1|done].
    split.
    + intros mc' q k. rewrite HK. by destruct (marked r mc m).
    + intros mc' f k. cbn. rewrite W1, (bool_decide_true (Active = Active)) by done. cbn [andb].
      destruct (marked r mc m); cbn; [|done].
      repeat case_bool_decide; set_solver.
Qed.

Lemma abs_withdraw ids retain r :
  ready r -> Forall (fun e => supported (snd e)) ids ->
  exists r', withdraw_for_ingresses ids retain r = (Some tt, r') /\ ready r'
    /\ rib_register r' = rib_register r /\ abs r' ≡ t_down retain ids (abs r).
Proof.
  intros Hr Hids. destruct (withdraw_run ids retain r Hr Hids) as (r' & E1 & S1 & R1 & W1).
  exists r'. split; [done|]. split; [apply S1|]. split; [apply S1|]. split.
  - intros mc p m. cbn. rewrite R1. destruct (_ && _); [|done].
    by destruct (recs r mc p m).
  - intros mc f m. cbn. rewrite (bool_decide_ext _ _ (W1 mc f m)).
    destruct (scoped ids mc f m); rewrite ?orb_true_r, ?orb_false_r.
    + by rewrite bool_decide_true by auto.
    + apply bool_decide_ext. naive_solver.
Qed.

Lemma abs_remove ids r :
  ready r -> ready (remove_for_ingresses ids r)
  /\ rib_register (remove_for_ingresses ids r) = rib_register r
  /\ abs (remove_for_ingresses ids r) ≡ t_remove ids (abs r).
Proof.
  intros Hr. destruct (remove_run ids r Hr) as (S1 & R1 & W1).
  split; [apply S1|]. split; [apply S1|]. split.
  - intros mc p m. cbn. rewrite R1. by destruct (bool_decide (m ∈ ids)).
  - intros mc f m. cbn. rewrite (bool_decide_ext _ _ (W1 mc f m)), bool_decide_and, andb_comm.
    f_equal. by rewrite bool_decide_not.
Qed.

Lemma abs_up m r :
  ready r ->
  exists r', mark_ingress_active m r = (Some tt, r') /\ ready r'
    /\ rib_register r' = rib_register r /\ abs r' ≡ t_up m (abs r).
Proof.
  intros Hr. destruct (mark_ingress_active_run m r Hr) as (r' & E1 & S1 & R1 & W1).
  exists r'. split; [done|]. split; [apply S1|]. split; [apply S1|]. split.
  - intros mc p k. cbn. by rewrite R1.
  - intros mc f k. cbn. rewrite W1. repeat case_bool_decide; set_solver.
Qed.

(** ** The specification of the unit

    The table, the register and the context of the scripts. *)
Record Spec : Type := mk_spec {
  sp_table : Table;
  sp_register : Register;
  sp_ctx : RotoCtx
}.

#[export] Instance spec_equiv : Equiv Spec := fun S T =>
  sp_table S ≡ sp_table T /\ sp_register S = sp_register T /\ sp_ctx S = sp_ctx T.

#[export] Instance spec_equivalence : Equivalence (≡@{Spec}).
Proof.
  split.
  - by intros S.
  - intros S T (H1 & H2 & H3). by split.
  - intros S T U (H1 & H2 & H3) (H4 & H5 & H6). split; [by trans (sp_table T)|]. split; congruence.
Qed.

(** The first announcement of a peer that is off also connects it in the register. *)
Definition spec_store (x : Payload) (S : Spec) : Spec :=
  let mc := rr_multicast (rx_value x) in
  let m := ingress_id x in
  mk_spec (t_payload x (sp_table S))
    (if bool_decide (route_status x = Active) && (t_off (sp_table S) mc true m || t_off (sp_table S) mc false m)
     then snd (update_info m connected_info (sp_register S)) else sp_register S)
    (sp_ctx S).

(** The verdict of the filter on a payload, the route as it leaves it, and its context. *)
Definition verdict (cache : RtrCache) (p : Payload) (S : Spec) : bool * RotondaRoute * RotoCtx :=
  match roto_function_pre with
  | Some f => f (sp_register S) cache (ingress_id p) (rx_value p) (sp_ctx S)
  | None => (true, rx_value p, sp_ctx S)
  end.

(** One payload: what the scripts put out, and the payload itself when it is accepted. *)
Definition spec_one (cache : RtrCache) (p : Payload) (S : Spec) : (list Update * list Payload) * Spec :=
  let '(ok, route, ctx) := verdict cache p S in
  let q := with_route route p in
  let S1 := mk_spec (sp_table S) (sp_register S) ctx in
  let S2 := if ok : bool then spec_store q S1 else S1 in
  let '(outs, ctx) := drain_output (sp_ctx S2) in
  (([OutputStream (omap (output_message (Some route) (Some (ingress_id p))) outs)],
    if ok then [q] else []),
   mk_spec (sp_table S2) (sp_register S2) ctx).

Fixpoint spec_payloads (cache : RtrCache) (ps : list Payload) (S : Spec)
  : (list Update * list Payload) * Spec :=
  match ps with
  | [] => (([], []), S)
  | p :: ps =>
      let '((o1, a1), S1) := spec_one cache p S in
      let '((o2, a2), S2) := spec_payloads cache ps S1 in
      ((o1 ++ o2, a1 ++ a2), S2)
  end.

(** An update: what goes out of the gate, in order, and the new state. *)
Definition spec_update (retain : bool) (cache : RtrCache) (x : Update) (S : Spec) : list Update * Spec :=
  let on_table T := mk_spec T (sp_register S) (sp_ctx S) in
  match x with
  | Single _ | Bulk _ =>
      let '((outs, acc), S1) := spec_payloads cache (payloads x) S in (outs ++ sent_on acc, S1)
  | IngressReappeared id =>
      ([x], mk_spec (t_up id (sp_table S)) (snd (update_info id connected_info (sp_register S))) (sp_ctx S))
  | _ => ([x], on_table (t_update retain x (sp_table S)))
  end.

Fixpoint spec_updates (retain : bool) (cache : RtrCache) (xs : list Update) (S : Spec) : list Update * Spec :=
  match xs with
  | [] => ([], S)
  | x :: xs =>
      let '(o1, S1) := spec_update retain cache x S in
      let '(o2, S2) := spec_updates retain cache xs S1 in
      (o1 ++ o2, S2)
  end.

(** What a unit stands for. *)
Definition abs_unit (u : RibUnitRunner) : Spec := mk_spec (abs (rib u)) (rib_register (rib u)) (roto_context u).

(** Equivalent states give the same output and equivalent states. *)
Lemma spec_store_proper x S T : S ≡ T -> spec_store x S ≡ spec_store x T.
Proof.
  intros (H1 & H2 & H3). unfold spec_store. split; [by apply t_payload_proper|]. cbn.
  destruct H1 as [_ Ho]. by rewrite H2, H3, !Ho.
Qed.

Lemma spec_one_proper cache p S T :
  S ≡ T -> fst (spec_one cache p S) = fst (spec_one cache p T)
           /\ snd (spec_one cache p S) ≡ snd (spec_one cache p T).
Proof.
  intros (H1 & H2 & H3). unfold spec_one, verdict. rewrite H2, H3.
  destruct (match roto_function_pre with Some f => _ | None => _ end) as [[ok route] ctx].
  assert (Hsp : (if ok then spec_store (with_route route p) (mk_spec (sp_table S) (sp_register T) ctx)
                else mk_spec (sp_table S) (sp_register T) ctx)
               ≡ (if ok then spec_store (with_route route p) (mk_spec (sp_table T) (sp_register T) ctx)
                  else mk_spec (sp_table T) (sp_register T) ctx)).
  { destruct ok; [apply spec_store_proper|]; by split. }
  destruct Hsp as (E1 & E2 & E3). rewrite E2, E3. destruct (drain_output _) as [outs ctx']. by split.
Qed.

Lemma spec_payloads_proper cache ps S T :
  S ≡ T -> fst (spec_payloads cache ps S) = fst (spec_payloads cache ps T)
           /\ snd (spec_payloads cache ps S) ≡ snd (spec_payloads cache ps T).
Proof.
  revert S T. induction ps as [|p ps IH]; intros S T HST; [done|]. cbn [spec_payloads].
  destruct (spec_one_proper cache p S T HST) as [H1 H2].
  destruct (spec_one cache p S) as [[o1 a1] S1], (spec_one cache p T) as [[o1' a1'] T1].
  cbn [fst snd] in *. injection H1 as <- <-. destruct (IH S1 T1 H2) as [H3 H4].
  destruct (spec_payloads cache ps S1) as [[o2 a2] S2], (spec_payloads cache ps T1) as [[o2' a2'] T2].
  cbn [fst snd] in *. injection H3 as <- <-. done.
Qed.

Lemma t_update_proper retain x S T : S ≡ T -> t_update retain x S ≡ t_update retain x T.
Proof.
  intros HST. destruct x; cbn; try done; try (by rewrite HST).
  revert S T HST. generalize ps. intros l. induction l as [|p l IH]; intros S T HST; [done|].
  cbn. apply IH. by rewrite HST.
Qed.

Lemma spec_update_proper retain cache x S T :
  S ≡ T -> fst (spec_update retain cache x S) = fst (spec_update retain cache x T)
           /\ snd (spec_update retain cache x S) ≡ snd (spec_update retain cache x T).
Proof.
  intros HST. pose proof HST as (H1 & H2 & H3).
  pose proof (spec_payloads_proper cache (payloads x) S T HST) as [H4 H5].
  pose proof (t_update_proper retain x _ _ H1) as HT.
  unfold spec_update. destruct x;
    try (split; [done|]; split; [exact HT|]; cbn; by rewrite ?H2, ?H3).
  1, 2: destruct (spec_payloads cache _ S) as [[o a] S'], (spec_payloads cache _ T) as [[o' a'] T'];
    cbn [fst snd] in *; by injection H4 as <- <-.
Qed.

Lemma spec_updates_proper retain cache xs S T :
  S ≡ T -> fst (spec_updates retain cache xs S) = fst (spec_updates retain cache xs T)
           /\ snd (spec_updates retain cache xs S) ≡ snd (spec_updates retain cache xs T).
Proof.
  revert S T. induction xs as [|x xs IH]; intros S T HST; [done|]. cbn [spec_updates].
  destruct (spec_update_proper retain cache x S T HST) as [H1 H2].
  destruct (spec_update retain cache x S) as [o1 S1], (spec_update retain cache x T) as [o1' T1].
  cbn [fst snd] in *. subst o1'. destruct (IH S1 T1 H2) as [H3 H4].
  destruct (spec_updates retain cache xs S1) as [o2 S2], (spec_updates retain cache xs T1) as [o2' T2].
  cbn [fst snd] in *. by subst o2'.
Qed.

(** ** The unit *)
Record keeps_unit (u u' : RibUnitRunner) : Prop := {
  ku_ready : ready (rib u');
  ku_cache : rtr_cache u' = rtr_cache u;
  ku_retain : retain_withdrawn_attributes u' = retain_withdrawn_attributes u;
  ku_dedup : deduplicate_path_attributes u' = deduplicate_path_attributes u;
  ku_walks : rov_walks u' = rov_walks u
}.

Lemma keeps_unit_refl u : ready (rib u) -> keeps_unit u u.
Proof. by split. Qed.

Lemma keeps_unit_trans u1 u2 u3 : keeps_unit u1 u2 -> keeps_unit u2 u3 -> keeps_unit u1 u3.
Proof. intros [] []. split; congruence. Qed.

Lemma insert_payload_run p u :
  ready (rib u) ->
  exists r', insert_payload p u = (Some tt, set_rib r' u) /\ ready r'
    /\ abs_unit (set_rib r' u) ≡ spec_store p (abs_unit u).
Proof.
  intros Hr. unfold insert_payload. rewrite (run_bind_Some run_get _ u u u eq_refl).
  destruct (abs_insert (rx_value p) (route_status p) 0 (ingress_id p)
    (retain_withdrawn_attributes u) (deduplicate_path_attributes u) (rib u) Hr)
    as (res & r' & E1 & Hr' & G1 & HA).
  unfold on_rib. run_unfold. rewrite E1. exists r'. split; [done|]. split; [done|].
  specialize (HA (trace_id p) (received p)). split; [by destruct p|]. split; [|done].
  cbn [abs_unit set_rib rib sp_register spec_store]. rewrite G1, marked_abs. done.
Qed.

Lemma with_route_self p : with_route (rx_value p) p = p.
Proof. by destruct p. Qed.

(** The filter and the insertion of one payload. *)
Lemma verdict_run p u :
  ready (rib u) ->
  exists u1, match roto_function_pre with
             | Some f =>
                 let '(ok, route, ctx) :=
                   f (rib_register (rib u)) (rtr_cache u) (ingress_id p) (rx_value p) (roto_context u) in
                 _ ← run_modify (set_roto_context ctx);
                 if ok : bool then _ ← insert_payload (with_route route p); mret (true, with_route route p)
                 else mret (false, with_route route p)
             | None => _ ← insert_payload p; mret (true, p)
             end u
    = (Some ((verdict (rtr_cache u) p (abs_unit u)).1.1,
             with_route (verdict (rtr_cache u) p (abs_unit u)).1.2 p), u1)
    /\ keeps_unit u u1 /\ gate_out u1 = gate_out u
    /\ abs_unit u1
       ≡ (let '(ok, route, ctx) := verdict (rtr_cache u) p (abs_unit u) in
          let S1 := mk_spec (abs (rib u)) (rib_register (rib u)) ctx in
          if ok : bool then spec_store (with_route route p) S1 else S1).
Proof.
  intros Hr. unfold verdict. cbn [sp_register sp_ctx abs_unit]. destruct roto_function_pre as [f|].
  - destruct (f _ _ _ _ _) as [[ok route] ctx]. cbn [fst snd].
    rewrite (run_bind_Some (run_modify _) _ u tt (set_roto_context ctx u) eq_refl). destruct ok.
    + destruct (insert_payload_run (with_route route p) (set_roto_context ctx u) Hr) as (r' & E1 & Hr' & HA).
      rewrite (run_bind_Some _ _ _ _ _ E1). eexists. split; [done|]. split; [by split|]. by split.
    + eexists. split; [done|]. split; [by split|]. by split.
  - destruct (insert_payload_run p u Hr) as (r' & E1 & Hr' & HA).
    rewrite (run_bind_Some _ _ _ _ _ E1). cbn [fst snd]. rewrite with_route_self.
    eexists. split; [done|]. split; [by split|]. by split.
Qed.

Lemma filter_one_run p u :
  ready (rib u) ->
  let '((outs, acc), Sp) := spec_one (rtr_cache u) p (abs_unit u) in
  exists ok q u', filter_one p u = (Some (ok, q), u')
    /\ acc = (if ok : bool then [q] else []) /\ keeps_unit u u'
    /\ gate_out u' = gate_out u ++ outs /\ abs_unit u' ≡ Sp.
Proof.
  intros Hr. unfold spec_one, filter_one. rewrite (run_bind_Some run_get _ u u u eq_refl).
  destruct (verdict_run p u Hr) as (u1 & E1 & K1 & G1 & A1).
  rewrite (run_bind_Some _ _ _ _ _ E1). clear E1.
  destruct (verdict (rtr_cache u) p (abs_unit u)) as [[ok route] ctx]. cbn [fst snd] in *.
  unfold process_output_stream. run_unfold. unfold update_data. run_unfold.
  destruct A1 as (A1 & A2 & A3). cbn [sp_table sp_register sp_ctx abs_unit] in *.
  set (S2 := if ok then spec_store _ _ else _) in *.
  rewrite A3. destruct (drain_output (sp_ctx S2)) as [outs ctx'].
  exists ok. eexists _, _. split; [done|]. split; [done|]. destruct K1. split; [by split|].
  cbn. split; [by rewrite G1|]. by split.
Qed.

Lemma filter_loop_run ps res u :
  ready (rib u) ->
  let '((outs, acc), Sp) := spec_payloads (rtr_cache u) ps (abs_unit u) in
  exists u', filter_loop ps res u = (Some (res ++ acc), u') /\ keeps_unit u u'
    /\ gate_out u' = gate_out u ++ outs /\ abs_unit u' ≡ Sp.
Proof.
  revert res u. induction ps as [|p ps IH]; intros res u Hr.
  { exists u. cbn. rewrite !app_nil_r. by eauto using keeps_unit_refl. }
  cbn [spec_payloads filter_loop]. pose proof (filter_one_run p u Hr) as H1.
  destruct (spec_one (rtr_cache u) p (abs_unit u)) as [[o1 a1] S1].
  destruct H1 as (ok & q & u1 & E1 & -> & K1 & G1 & A1). rewrite (run_bind_Some _ _ _ _ _ E1).
  specialize (IH (if ok then res ++ [q] else res) u1 (ku_ready _ _ K1)). rewrite (ku_cache _ _ K1) in IH.
  destruct (spec_payloads_proper (rtr_cache u) ps _ _ A1) as [H2 H3].
  destruct (spec_payloads (rtr_cache u) ps S1) as [[o2 a2] S2],
    (spec_payloads (rtr_cache u) ps (abs_unit u1)) as [[o2' a2'] S2'].
  cbn [fst snd] in *. injection H2 as -> ->. destruct IH as (u2 & E2 & K2 & G2 & A2).
  exists u2. split; [rewrite E2; by destruct ok; [rewrite <- app_assoc|]|].
  split; [by eapply keeps_unit_trans|]. split; [by rewrite G2, G1, <- app_assoc|]. by trans S2'.
Qed.

Lemma blocking_withdraw_run ids u :
  ready (rib u) -> Forall (fun e => supported (snd e)) ids ->
  exists u', signal_withdraws_blocking ids u = (Some tt, u') /\ keeps_unit u u'
    /\ gate_out u' = gate_out u
    /\ abs_unit u' ≡ mk_spec (t_down (retain_withdrawn_attributes u) ids (abs (rib u)))
                       (rib_register (rib u)) (roto_context u).
Proof.
  intros Hr Hids. unfold signal_withdraws_blocking.
  rewrite (run_bind_Some run_get _ u u u eq_refl). case_bool_decide as He.
  { subst ids. exists u. split; [done|]. split; [by apply keeps_unit_refl|]. split; [done|].
    split; [|done]. split; cbn; intros; [by rewrite andb_false_r|by rewrite orb_false_r]. }
  destruct (abs_withdraw ids (retain_withdrawn_attributes u) (rib u) Hr Hids) as (r' & E1 & Hr' & Hg & HA).
  unfold blocking. rewrite E1. eexists. split; [done|]. split; [by split|]. split; [done|]. by split.
Qed.

Lemma blocking_remove_run ids u :
  ready (rib u) ->
  exists u', signal_removes_blocking ids u = (Some tt, u') /\ keeps_unit u u'
    /\ gate_out u' = gate_out u
    /\ abs_unit u' ≡ mk_spec (t_remove ids (abs (rib u))) (rib_register (rib u)) (roto_context u).
Proof.
  intros Hr. unfold signal_removes_blocking. case_bool_decide as He.
  { subst ids. exists u. split; [done|]. split; [by apply keeps_unit_refl|]. split; [done|].
    split; [|done]. split; cbn; intros; rewrite (bool_decide_false (m ∈ [])); done || apply not_elem_of_nil. }
  destruct (abs_remove ids (rib u) Hr) as (Hr' & Hg & HA). eexists. split; [done|]. split; [by split|].
  split; [done|]. by split.
Qed.

Lemma to_mark_supported {A} (es : list (IngressId * option A)) :
  Forall (fun e => supported (snd e)) (to_mark es).
Proof.
  induction es as [|[id []] es IH]; cbn; [constructor|done|by constructor].
Qed.

(** What the unit does with an update. *)
Definition refined (x : Update) (u : RibUnitRunner) : Prop :=
  let '(sent, Sp) := spec_update (retain_withdrawn_attributes u) (rtr_cache u) x (abs_unit u) in
  exists u', process_update x u = (Some true, u') /\ keeps_unit u u'
    /\ gate_out u' = gate_out u ++ sent /\ abs_unit u' ≡ Sp.

(** An update that is sent on after what it does to the RIB. *)
Lemma refined_sent x u u1 S :
  (_ ← update_data x; mret true) u1 = process_update x u ->
  keeps_unit u u1 -> gate_out u1 = gate_out u -> abs_unit u1 ≡ S ->
  spec_update (retain_withdrawn_attributes u) (rtr_cache u) x (abs_unit u) = ([x], S) -> refined x u.
Proof.
  intros Hrun K1 G1 HA Hsp. unfold refined. rewrite Hsp, <- Hrun. eexists. split; [done|].
  split; [by destruct K1; split|]. split; [cbn; by rewrite G1|done].
Qed.

(** An update with routes. *)
Lemma refined_filtered x ps u :
  ready (rib u) -> (_ ← filter_payload ps; mret true) u = process_update x u ->
  (forall retain cache S, spec_update retain cache x S
     = let '((outs, acc), S1) := spec_payloads cache ps S in (outs ++ sent_on acc, S1)) ->
  refined x u.
Proof.
  intros Hr Hrun Hsp. unfold refined. rewrite Hsp, <- Hrun. unfold filter_payload.
  pose proof (filter_loop_run ps [] u Hr) as Hl.
  destruct (spec_payloads (rtr_cache u) ps (abs_unit u)) as [[outs acc] S].
  destruct Hl as (u1 & E1 & K1 & G1 & A1). cbn [app] in E1.
  enough (exists u', (match acc with [] => mret tt | [p] => update_data (Single p) | _ => update_data (Bulk acc) end) u1
      = (Some tt, u') /\ keeps_unit u u' /\ gate_out u' = gate_out u ++ (outs ++ sent_on acc) /\ abs_unit u' ≡ S)
    as (u' & E2 & H2).
  { exists u'. split; [|exact H2]. unfold mbind, run_bind. rewrite E1, E2. done. }
  destruct acc as [|p [|p2 acc]]; cbn [sent_on].
  - exists u1. by rewrite app_nil_r.
  - eexists. split; [done|]. split; [by destruct K1; split|]. split; [cbn; by rewrite G1, <- app_assoc|done].
  - eexists. split; [done|]. split; [by destruct K1; split|]. split; [cbn; by rewrite G1, <- app_assoc|done].
Qed.

Lemma process_update_run x u : ready (rib u) -> supported_update x -> refined x u.
Proof.
  intros Hr Hx.
  destruct x as [p|ps|id t|es|id|id|ms|y|id b]; cbn in Hx; try done.
  - by apply (refined_filtered _ [p]).
  - by apply (refined_filtered _ ps).
  - destruct (blocking_withdraw_run [(id, t)] u Hr) as (u1 & E1 & K1 & G1 & A1); [by repeat constructor|].
    eapply (refined_sent _ _ u1); try done. unfold process_update. by rewrite (run_bind_Some _ _ _ _ _ E1).
  - destruct (blocking_withdraw_run (to_mark es) u Hr (to_mark_supported es)) as (u1 & E1 & K1 & G1 & A1).
    destruct (blocking_remove_run (to_remove es) u1 (ku_ready _ _ K1)) as (u2 & E2 & K2 & G2 & A2).
    eapply (refined_sent _ _ u2); [|by eapply keeps_unit_trans|congruence| |reflexivity].
    + unfold process_update. fold (to_mark es). fold (to_remove es).
      by rewrite (run_bind_Some _ _ _ _ _ E1), (run_bind_Some _ _ _ _ _ E2).
    + destruct A1 as (A1 & B1 & C1), A2 as (A2 & B2 & C2). cbn in *.
      split; [cbn; by rewrite A2, A1|]. cbn. split; congruence.
  - destruct (abs_up id (rib u) Hr) as (r' & E1 & Hr' & G1 & A1).
    assert (mark_ingress_active_blocking id u = (Some tt, set_rib r' u)) as E2
      by (unfold mark_ingress_active_blocking, blocking; by rewrite E1).
    eapply (refined_sent _ _ (set_rib (set_rib_register _ r') u)); [| |done| |reflexivity].
    + unfold process_update. rewrite (run_bind_Some _ _ _ _ _ E2). done.
    + split; try done. destruct Hr' as [Hs Hi]. split; [intros mc; exact (Hs mc)|exact Hi].
    + split; [exact A1|]. cbn. by rewrite G1.
  - by apply (refined_sent _ u u (abs_unit u)); try apply keeps_unit_refl.
  - by apply (refined_sent _ u u (abs_unit u)); try apply keeps_unit_refl.
  - by apply (refined_sent _ u u (abs_unit u)); try apply keeps_unit_refl.
Qed.

Lemma updates_run xs u :
  ready (rib u) -> Forall supported_update xs ->
  let '(sent, Sp) := spec_updates (retain_withdrawn_attributes u) (rtr_cache u) xs (abs_unit u) in
  exists u', run_for xs direct_update u = (Some tt, u') /\ keeps_unit u u'
    /\ gate_out u' = gate_out u ++ sent /\ abs_unit u' ≡ Sp.
Proof.
  intros Hr Hxs. revert u Hr. induction Hxs as [|x xs Hx _ IH]; intros u Hr.
  { exists u. split; [done|]. split; [by apply keeps_unit_refl|]. by rewrite app_nil_r. }
  cbn [run_for spec_updates]. pose proof (process_update_run x u Hr Hx) as H1. unfold refined in H1.
  destruct (spec_update _ _ x (abs_unit u)) as [o1 S1]. destruct H1 as (u1 & E1 & K1 & G1 & A1).
  assert (direct_update x u = (Some tt, u1)) as E1'.
  { unfold direct_update. by rewrite (run_bind_Some _ _ _ _ _ E1). }
  rewrite (run_bind_Some _ _ _ _ _ E1').
  specialize (IH u1 (ku_ready _ _ K1)). rewrite (ku_retain _ _ K1), (ku_cache _ _ K1) in IH.
  destruct (spec_updates_proper (retain_withdrawn_attributes u) (rtr_cache u) xs _ _ A1) as [H2 H3].
  destruct (spec_updates _ _ xs S1) as [o2 S2], (spec_updates _ _ xs (abs_unit u1)) as [o2' S2'].
  cbn [fst snd] in *. subst o2'. destruct IH as (u2 & E2 & K2 & G2 & A2).
  exists u2. split; [done|]. split; [by eapply keeps_unit_trans|].
  split; [by rewrite G2, G1, <- app_assoc|]. by trans S2'.
Qed.

(** Without a filter the table takes every payload. *)
Lemma spec_payloads_plain cache ps S :
  roto_function_pre = None ->
  sp_table (snd (spec_payloads cache ps S)) = foldl (fun T p => t_payload p T) (sp_table S) ps.
Proof.
  intros Hn. revert S. induction ps as [|p ps IH]; intros S; [done|]. cbn [spec_payloads foldl].
  assert (sp_table (snd (spec_one cache p S)) = t_payload p (sp_table S)) as H1.
  { unfold spec_one, verdict. rewrite Hn. destruct (drain_output _) as [outs ctx]. cbn.
    by rewrite with_route_self. }
  destruct (spec_one cache p S) as [[o1 a1] S1]. cbn [snd] in H1. rewrite <- H1, <- IH.
  by destruct (spec_payloads cache ps S1) as [[o2 a2] S2].
Qed.

Lemma spec_updates_plain retain cache xs S :
  roto_function_pre = None ->
  sp_table (snd (spec_updates retain cache xs S)) = foldl (fun T x => t_update retain x T) (sp_table S) xs.
Proof.
  intros Hn. revert S. induction xs as [|x xs IH]; intros S; [done|]. cbn [spec_updates foldl].
  assert (sp_table (snd (spec_update retain cache x S)) = t_update retain x (sp_table S)) as H1.
  { unfold spec_update. destruct x; try done;
      match goal with |- context [spec_payloads cache ?l S] =>
        pose proof (spec_payloads_plain cache l S Hn) as Hp; destruct (spec_payloads cache l S) as [[o a] S'] end;
      exact Hp. }
  destruct (spec_update retain cache x S) as [o1 S1]. cbn [snd] in H1. rewrite <- H1, <- IH.
  by destruct (spec_updates retain cache xs S1) as [o2 S2].
Qed.

(** ** The table as a plain map *)
Definition RouteMap : Type := bool -> Prefix -> Z -> option RotondaPaMap.

Definition m_payload (x : Payload) (A : RouteMap) : RouteMap := fun mc p m =>
  if same_route (rr_multicast (rx_value x)) mc (rr_prefix (rx_value x)) p (ingress_id x) m
  then match route_status x with
       | Withdrawn => None
       | _ => Some (rotonda_pamap (rx_value x))
       end
  else A mc p m.

Definition m_update (x : Update) (A : RouteMap) : RouteMap := fun mc p m =>
  match x with
  | Single _ | Bulk _ => foldl (fun A y => m_payload y A) A (payloads x) mc p m
  | Withdraw id t => if scoped [(id, t)] mc (prefix_is_v4 p) m then None else A mc p m
  | WithdrawBulk es => if bool_decide (m ∈ es.*1) then None else A mc p m
  | _ => A mc p m
  end.

(** Routes are announced as active, or withdrawn. *)
Definition plain_update (x : Update) : Prop :=
  Forall (fun y => route_status y <> InActive) (payloads x).

Definition clean (T : Table) : Prop :=
  forall mc p m, t_off T mc (prefix_is_v4 p) m = true -> t_kept T mc p m = None.

Lemma clean_view T mc p m : clean T -> t_view T mc p m = t_kept T mc p m.
Proof.
  intros HT. unfold t_view. destruct (t_off _ _ _ _) eqn:Ho; [|done]. symmetry. by apply HT.
Qed.

Lemma clean_payload x T :
  clean T -> route_status x <> InActive -> clean (t_payload x T)
  /\ forall mc p m, t_kept (t_payload x T) mc p m = m_payload x (t_kept T) mc p m.
Proof.
  intros HT Hx. unfold t_payload, m_payload. destruct (route_status x) eqn:Hst; [|done|].
  - set (T1 := if _ || _ then _ else T).
    assert ((forall mc p m, t_kept T1 mc p m = t_kept T mc p m)
      /\ clean T1 /\ forall f, t_off T1 (rr_multicast (rx_value x)) f (ingress_id x) = false)
      as (HK & HC & HO).
    { unfold T1. destruct (_ || _) eqn:Hoff.
      - split; [done|]. split.
        + intros mc p m. cbn. case_bool_decide; [done|]. apply HT.
        + intros f. cbn. by rewrite bool_decide_true.
      - apply orb_false_iff in Hoff as [H1 H2]. split; [done|]. split; [done|]. by intros []. }
    split.
    + intros mc p m. cbn. destruct (same_route _ _ _ _ _ _) eqn:Hs; [|apply HC].
      apply bool_decide_eq_true in Hs as (-> & -> & ->). by rewrite HO.
    + intros mc p m. cbn. by rewrite HK.
  - split; [|done]. intros mc p m. cbn. destruct (same_route _ _ _ _ _ _); [done|apply HT].
Qed.

Lemma elem_of_bulk {A} (es : list (IngressId * option A)) m :
  m ∈ es.*1 <-> m ∈ to_remove es \/ exists t, (m, t) ∈ to_mark es.
Proof.
  induction es as [|[id [i|]] es IH]; cbn; [set_solver|..];
    rewrite ?elem_of_cons, IH; setoid_rewrite elem_of_cons || idtac; naive_solver.
Qed.

Lemma bulk_split {A} (es : list (IngressId * option A)) mc f m :
  bool_decide (m ∈ es.*1) = bool_decide (m ∈ to_remove es) || scoped (to_mark es) mc f m.
Proof.
  apply eq_true_iff_eq. rewrite orb_true_iff, !bool_decide_eq_true, elem_of_bulk, scoped_spec.
  split; [|naive_solver]. intros [?|(t & Hin)]; [by left|right]. exists t. split; [done|].
  apply list_elem_of_omap in Hin as ([id [i|]] & _ & Heq); cbn in Heq; [done|].
  by injection Heq as -> <-.
Qed.

Lemma m_payload_ext x A B :
  (forall mc p m, A mc p m = B mc p m) -> forall mc p m, m_payload x A mc p m = m_payload x B mc p m.
Proof. intros H mc p m. unfold m_payload. by destruct (same_route _ _ _ _ _ _). Qed.

Lemma clean_payloads ps T :
  clean T -> Forall (fun y => route_status y <> InActive) ps ->
  clean (foldl (fun T y => t_payload y T) T ps)
  /\ forall A, (forall mc p m, t_kept T mc p m = A mc p m) ->
     forall mc p m, t_kept (foldl (fun T y => t_payload y T) T ps) mc p m
       = foldl (fun A y => m_payload y A) A ps mc p m.
Proof.
  intros HT Hps. revert T HT. induction Hps as [|x ps Hx _ IH]; intros T HT; [done|].
  destruct (clean_payload x T HT Hx) as [HC HK]. destruct (IH _ HC) as [IH1 IH2]. split; [done|].
  intros A HA. apply IH2. intros mc p m. rewrite HK. by apply m_payload_ext.
Qed.

Lemma clean_update x T :
  clean T -> plain_update x -> supported_update x ->
  clean (t_update false x T)
  /\ forall A, (forall mc p m, t_kept T mc p m = A mc p m) ->
     forall mc p m, t_kept (t_update false x T) mc p m = m_update x A mc p m.
Proof.
  intros HT Hp Hs. destruct x as [y|ys|id t|es|id|id|ms|y|id b]; try done.
  - by apply clean_payloads.
  - by apply clean_payloads.
  - split.
    + intros mc p m. cbn -[scoped]. destruct (scoped _ _ _ _); [done|]. rewrite orb_false_r. apply HT.
    + intros A HA mc p m. cbn -[scoped]. by destruct (scoped _ _ _ _).
  - split.
    + intros mc p m. cbn -[scoped]. case_bool_decide; [done|]. cbn -[scoped].
      destruct (scoped _ _ _ _); [done|]. rewrite orb_false_r. apply HT.
    + intros A HA mc p m. cbn -[scoped]. rewrite (bulk_split es mc (prefix_is_v4 p) m).
      destruct (bool_decide (m ∈ to_remove es)), (scoped _ _ _ _); cbn; done || apply HA.
  - split; [|done]. intros mc p m. cbn. case_bool_decide; [done|]. apply HT.
Qed.

Lemma clean_updates xs T A :
  clean T -> Forall plain_update xs -> Forall supported_update xs ->
  (forall mc p m, t_kept T mc p m = A mc p m) ->
  clean (foldl (fun T x => t_update false x T) T xs)
  /\ forall mc p m, t_kept (foldl (fun T x => t_update false x T) T xs) mc p m
       = foldl (fun A x => m_update x A) A xs mc p m.
Proof.
  intros HT Hp Hs HA. revert T A HT HA. induction xs as [|x xs IH]; intros T A HT HA; [done|].
  apply Forall_cons in Hp as [Hp Hps]. apply Forall_cons in Hs as [Hs Hss].
  destruct (clean_update x T HT Hp Hs) as [HC HK]. specialize (HK A HA).
  cbn. apply (IH Hps Hss); [exact HC|exact HK].
Qed.

(** C3: the RIB unit implements its specification. For every sequence of updates other
    than RTR (withdrawals for one of the four families or for all), whatever the Roto filter
    answers and changes, and whether or not withdrawn attributes are kept and path
    attributes are shared: nothing panics; the table, the register and the context of the
    scripts evolve as [spec_updates] says, by which a payload is stored, as the filter left
    its route, exactly when the filter accepts it; and downstream gets exactly what
    [spec_updates] says, in order: for each payload what the scripts put out for it, then the
    accepted payloads as one update, and every other update unchanged. What readers see is
    the view of that table. *)
Theorem rib_unit_refines xs u :
  ready (rib u) -> Forall supported_update xs ->
  let '(sent, Sp) := spec_updates (retain_withdrawn_attributes u) (rtr_cache u) xs (abs_unit u) in
  exists u', run_for xs direct_update u = (Some tt, u')
    /\ gate_out u' = gate_out u ++ sent
    /\ abs_unit u' ≡ Sp
    /\ (forall mc p m, active (rib u') mc p m = t_view (sp_table Sp) mc p m).
Proof.
  intros Hr Hxs. pose proof (updates_run xs u Hr Hxs) as H.
  destruct (spec_updates _ _ xs (abs_unit u)) as [sent S]. destruct H as (u' & E1 & _ & G1 & A1).
  exists u'. split; [done|]. split; [done|]. split; [done|].
  intros mc p m. rewrite active_abs. destruct A1 as [A1 _]. by apply t_view_proper.
Qed.

(** Without [retain_withdrawn_attributes] and without a filter the routes
    that readers see are a plain map keyed by table, prefix and ingress: an
    announcement stores its attributes, a withdrawal deletes its key, and the
    withdrawal of an ingress deletes all keys of the ingress in its scope; the
    marks, the compaction and the reactivation do not show. *)
Theorem active_plain_map xs u :
  ready (rib u) -> retain_withdrawn_attributes u = false -> roto_function_pre = None ->
  clean (abs (rib u)) -> Forall supported_update xs -> Forall plain_update xs ->
  exists u', run_for xs direct_update u = (Some tt, u')
    /\ clean (abs (rib u'))
    /\ forall mc p m, active (rib u') mc p m
         = foldl (fun A x => m_update x A) (active (rib u)) xs mc p m.
Proof.
  intros Hr Hret Hn HC Hxs Hp. pose proof (updates_run xs u Hr Hxs) as H.
  pose proof (spec_updates_plain (retain_withdrawn_attributes u) (rtr_cache u) xs (abs_unit u) Hn) as HT.
  destruct (spec_updates _ _ xs (abs_unit u)) as [sent S]. destruct H as (u' & E1 & _ & _ & A1 & _).
  cbn [snd] in HT. rewrite HT, Hret in A1.
  destruct (clean_updates xs (abs (rib u)) (active (rib u)) HC Hp Hxs) as [HC' HK].
  { intros mc p m. by rewrite active_abs, clean_view. }
  exists u'. split; [done|]. destruct A1 as [AK AO].
  assert (clean (abs (rib u'))) as HC2.
  { intros mc p m. rewrite AK, AO. apply HC'. }
  split; [done|]. intros mc p m. by rewrite active_abs, (clean_view _ _ _ _ HC2), AK.
Qed.

End Refinement.

(** ** Examples *)
Module UnitDemo.
#[local] Existing Instances Demo.extern demo_layout RibDemo.store.

#[export] Instance vstore : PrefixStore MaxLenList := list_store MaxLenList.
#[export] Instance vstore_ok : ReliableStore MaxLenList := list_store_reliable.

(** No scripts; the origin is the last byte of the attributes. *)
#[export] Instance roto : Roto := {|
  RotoCtx := unit;
  roto_function_pre := None;
  roto_function_vrp_update := None;
  roto_function_vrp_update_post := None;
  drain_output := fun x => ([], x);
  hop_origin := fun pa => last (into_vec pa)
|}.

Definition unit0 (retain : bool) : RibUnitRunner :=
  mk_runner (rib_new register_new) rtr_cache_default (tt : RotoCtx) retain false [] 0.

Definition announce (id : Z) : Payload := mk_payload RibDemo.route None 0 id Active.

(** An announcement, the loss of the peer, and its return. *)
Definition flap (id : Z) : list Update :=
  [Single (announce id); Withdraw id None; IngressReappeared id].

(** A filter that rejects the routes of ingress 8, and puts out a message for each route. *)
Definition picky : Roto := {|
  RotoCtx := list Output;
  roto_function_pre := Some (fun _ _ id route outs =>
    (bool_decide (id <> 8), route, outs ++ [O_Custom 1 id]));
  roto_function_vrp_update := None;
  roto_function_vrp_update_post := None;
  drain_output := fun outs => (outs, []);
  hop_origin := fun pa => last (into_vec pa)
|}.

Definition picky_unit : @RibUnitRunner _ _ _ _ picky :=
  mk_runner (RT := picky) (rib_new register_new) rtr_cache_default [] true false [] 0.

Definition said (id : Z) : Update := OutputStream [osm_custom 1 id (Some id)].

End UnitDemo.

#[local] Existing Instances Demo.extern demo_layout RibDemo.store RibDemo.store_ok RibDemo.ids
  RibDemo.pending UnitDemo.vstore UnitDemo.vstore_ok UnitDemo.roto.

Lemma rib_unit_refines_witness :
  exists u', run_for (Bulk [UnitDemo.announce 7; UnitDemo.announce 8] :: UnitDemo.flap 9)
      (direct_update (RT := UnitDemo.picky)) UnitDemo.picky_unit = (Some tt, u')
    /\ gate_out u'
       = [UnitDemo.said 7; UnitDemo.said 8; Single (UnitDemo.announce 7); UnitDemo.said 9] ++ UnitDemo.flap 9
    /\ active (rib u') false RibDemo.net 8 = None
    /\ is_Some (active (rib u') false RibDemo.net 7).
Proof.
  pose proof (rib_unit_refines (RT := UnitDemo.picky)
    (Bulk [UnitDemo.announce 7; UnitDemo.announce 8] :: UnitDemo.flap 9) UnitDemo.picky_unit) as H.
  destruct (spec_updates _ _ _ _) as [sent Sp] eqn:Hsp.
  destruct H as (u' & E1 & G1 & _ & V1).
  - apply rib_new_ready.
  - by repeat constructor.
  - exists u'. split; [exact E1|]. rewrite G1, !V1. injection Hsp as <- <-. split; [reflexivity|].
    split; [reflexivity|by eexists].
Defined.

Lemma active_plain_map_witness :
  exists u', run_for (UnitDemo.flap 7) direct_update (UnitDemo.unit0 false) = (Some tt, u')
    /\ active (rib u') false RibDemo.net 7 = None.
Proof.
  destruct (active_plain_map (UnitDemo.flap 7) (UnitDemo.unit0 false)) as (u' & E1 & _ & HA).
  - apply rib_new_ready.
  - reflexivity.
  - reflexivity.
  - by intros [] p m.
  - by repeat constructor.
  - by repeat constructor.
  - exists u'. split; [exact E1|]. rewrite HA. reflexivity.
Defined.
