(* ===== verification/RovView.v ===== *)
(** * Origin validation of the stored routes

    The RPKI status of every active route agrees with the VRPs of the cache: a
    Cache Reset with its walk establishes it, and a Serial update keeps it. *)

From S2P Require Import Prelude Net Register Payload Interner RibStore Rib RibView RibProps Rtr RtrView RibUnit RibSpec.
From Stdlib Require Import ZArith Lia.
From stdpp Require Import base numbers list gmap.

Local Open Scope Z_scope.

#[local] Arguments wd {_ _} _ _ _ : simpl never.
#[local] Arguments recs {_ _} _ _ _ _ : simpl never.
#[local] Arguments active {_ _} _ _ _ _ : simpl never.

Section Rov.
Context `{E : Extern} `{L : Layout} `{PS : !PrefixStore RotondaPaMap} `{VS : !PrefixStore MaxLenList}.
Context `{RS : !ReliableStore RotondaPaMap} `{RV : !ReliableStore MaxLenList}.
Context `{RT : !Roto} `{HP : !HashIter Z (list Prefix)} `{HS : !HashIter Z unit}.

(** The two bytes before the attributes are there. *)
Definition pamap_wf (pa : RotondaPaMap) : Prop := is_Some (path_attributes pa).

Definition metas_ok (r : Rib) : Prop :=
  forall p m rc, recs r false p m = Some rc -> pamap_wf (r_meta rc).

(** The attributes with the status that the cache gives them. *)
Definition rov_meta (c : RtrCache) (p : Prefix) (pa : RotondaPaMap) : RotondaPaMap :=
  default pa (opa ← path_attributes pa;
              origin ← hop_origin opa;
              st ← cache_check_rov p origin c;
              set_rpki_info (mk_rpki st) pa).

(** The status of a route agrees with the cache, if its path has an origin. *)
Definition rov_valid (c : RtrCache) (p : Prefix) (pa : RotondaPaMap) : Prop :=
  forall opa origin, path_attributes pa = Some opa -> hop_origin opa = Some origin ->
  rpki_info pa = mk_rpki <$> cache_check_rov p origin c.

(** Every route that readers see has the status the cache gives it. *)
Definition rov_consistent (c : RtrCache) (r : Rib) : Prop :=
  forall p m pa, active r false p m = Some pa -> rov_valid c p pa.

Lemma set_rpki_info_wf i pa :
  pamap_wf pa -> exists pa', set_rpki_info i pa = Some pa'
    /\ path_attributes pa' = path_attributes pa /\ rpki_info pa' = Some i.
Proof.
  intros [opa Hopa]. unfold path_attributes, set_rpki_info, rpki_info in *.
  destruct (raw pa) as [|a [|b rest]]; try done. eexists. split; [done|].
  split; [done|]. cbn. by rewrite rpki_u8_roundtrip.
Qed.

Lemma rov_meta_spec c p pa :
  vrps_ok (vrps c) -> pamap_wf pa ->
  rov_valid c p (rov_meta c p pa) /\ path_attributes (rov_meta c p pa) = path_attributes pa.
Proof.
  intros Hok Hwf. destruct Hwf as [opa Hopa]. unfold rov_meta, rov_valid. rewrite Hopa. cbn.
  destruct (hop_origin opa) as [origin|] eqn:Ho; cbn.
  - destruct (cache_rov_run c p origin Hok) as (st & Hst & _). rewrite Hst. cbn.
    destruct (set_rpki_info_wf (mk_rpki st) pa) as (pa' & -> & Hpa' & Hi); [by eexists|]. cbn.
    rewrite Hpa', Hopa. split; [|done]. intros opa' o [= <-] Ho'. rewrite Ho in Ho'.
    injection Ho' as <-. by rewrite Hst, Hi.
  - split; [|done]. intros opa' o Hopa' Ho'. rewrite Hopa in Hopa'. injection Hopa' as <-. congruence.
Qed.

(** ** One record *)
Lemma revalidate_run c reg p rc :
  vrps_ok (vrps c) -> pamap_wf (r_meta rc) ->
  (revalidate c reg p rc = Some None /\ rov_meta c p (r_meta rc) = r_meta rc)
  \/ exists upd, revalidate c reg p rc
       = Some (Some (mk_record (r_mui rc) (r_ltime rc) (r_status rc) (rov_meta c p (r_meta rc)), upd))
     /\ pamap_wf (rov_meta c p (r_meta rc)).
Proof.
  intros Hok Hwf. pose proof Hwf as [opa Hopa]. unfold revalidate. rewrite Hopa. cbn.
  destruct (hop_origin opa) as [origin|] eqn:Ho;
    [right|left; split; [done|]; unfold rov_meta; rewrite Hopa; cbn; by rewrite Ho].
  destruct (cache_rov_run c p origin Hok) as (st & Hst & _).
  destruct (set_rpki_info_wf (mk_rpki st) _ Hwf) as (pa' & Hset & Hpa' & _).
  assert (rov_meta c p (r_meta rc) = pa') as ->.
  { unfold rov_meta. rewrite Hopa. cbn. rewrite Ho. cbn. rewrite Hst. cbn. by rewrite Hset. }
  assert (exists old, rpki_info (r_meta rc) = Some old) as [old Hold].
  { unfold rpki_info, path_attributes in *. destruct (raw (r_meta rc)) as [|a rest]; [done|]. by eexists. }
  rewrite Hst. cbn. rewrite Hold. cbn. rewrite Hset. cbn. eexists. split; [done|].
  unfold pamap_wf. rewrite Hpa'. by eexists.
Qed.

(** The state after the records with keys [D] have been revalidated. *)
Record rov_done (c : RtrCache) (D : list (Prefix * Z)) (r0 r : Rib) : Prop := {
  rd_stores : stores_only r0 r;
  rd_wd mc f : wd r mc f = wd r0 mc f;
  rd_multicast q k : recs r true q k = recs r0 true q k;
  rd_metas : metas_ok r;
  rd_active mc q k : active r mc q k
    = if negb mc && bool_decide ((q, k) ∈ D) then rov_meta c q <$> active r0 mc q k
      else active r0 mc q k
}.

(** The record is the current one of [r0], as readers see it. *)
Definition current (r0 : Rib) (p : Prefix) (rc : StoreRecord RotondaPaMap) : Prop :=
  exists rec0, recs r0 false p (r_mui rc) = Some rec0
    /\ rc = effective (wd r0 false (prefix_is_v4 p)) rec0.

Lemma current_active r0 p rc :
  current r0 p rc ->
  active r0 false p (r_mui rc)
  = if bool_decide (r_status rc = Withdrawn) then None else Some (r_meta rc).
Proof.
  intros (rec0 & Hrec & Heq). unfold active. rewrite Hrec. cbn.
  assert (r_mui rec0 = r_mui rc) as Hm by (rewrite Heq; symmetry; apply effective_mui).
  unfold effective in Heq. rewrite Hm in Heq.
  destruct (bool_decide (r_mui rc ∈ wd r0 false (prefix_is_v4 p))); rewrite Heq; cbn.
  - by rewrite orb_true_r.
  - by rewrite orb_false_r.
Qed.

Lemma rov_one_run c D r0 p rc acc r :
  vrps_ok (vrps c) -> metas_ok r0 -> rov_done c D r0 r -> current r0 p rc ->
  exists acc' r', rov_prefix c p [rc] acc r = (Some acc', r')
    /\ rov_done c ((p, r_mui rc) :: D) r0 r'.
Proof.
  intros Hok Hm0 Hd Hcur. pose proof (current_active _ _ _ Hcur) as Hact.
  assert (pamap_wf (r_meta rc)) as Hwf.
  { destruct Hcur as (rec0 & Hrec & ->). apply Hm0 in Hrec. by rewrite effective_meta. }
  assert (forall q k, bool_decide ((q, k) ∈ (p, r_mui rc) :: D)
    = bool_decide (q = p /\ k = r_mui rc) || bool_decide ((q, k) ∈ D)) as Hcons.
  { intros q k. rewrite <- bool_decide_or. apply bool_decide_ext. rewrite elem_of_cons. naive_solver. }
  cbn [rov_prefix]. rewrite (run_bind_Some run_get _ r r r eq_refl).
  destruct (revalidate_run c (rib_register r) p rc Hok Hwf) as [[Hrv Hid]|(upd & Hrv & Hwf')];
    rewrite Hrv; cbn [lift_opt].
  - exists acc, r. split; [done|]. destruct Hd as [S1 W1 N1 M1 A1]. split; try done.
    intros mc q k. rewrite A1, Hcons. destruct mc; [done|]. cbn [negb andb].
    destruct (decide (q = p /\ k = r_mui rc)) as [[-> ->]|Hne].
    + rewrite (bool_decide_true (p = p /\ _)), Hact by done. cbn [orb].
      destruct (bool_decide (r_status rc = Withdrawn)); cbn; rewrite ?Hid; by destruct (bool_decide _).
    + by rewrite (bool_decide_false (q = p /\ _)).
  - erewrite run_bind_Some by done. destruct Hd as [S1 W1 N1 M1 A1].
    destruct (insert_run false p (mk_record (r_mui rc) (r_ltime rc) (r_status rc)
      (rov_meta c p (r_meta rc))) r (so_ready _ _ S1)) as (rep & r' & E1 & S2 & R2 & W2).
    rewrite (run_bind_Some _ _ _ _ _ E1). exists (acc ++ [upd]), r'. split; [done|]. cbn [r_mui] in R2.
    split; [by eapply stores_only_trans|intros; by rewrite W2, W1| | |].
    + intros q k. rewrite R2, <- N1. by rewrite bool_decide_false by naive_solver.
    + intros q k rc' Hrc. rewrite R2 in Hrc. case_bool_decide; [by injection Hrc as <-|by apply M1 in Hrc].
    + intros mc q k. rewrite Hcons. destruct (decide (mc = false /\ q = p /\ k = r_mui rc)) as [(-> & -> & ->)|Hne].
      * rewrite (bool_decide_true (p = p /\ _)), Hact by done. cbn [negb andb orb].
        unfold active. rewrite R2, (bool_decide_true (false = false /\ _)), W2, W1 by done. cbn.
        destruct Hcur as (rec0 & Hrec & Heq).
        assert (r_mui rec0 = r_mui rc) as Hmui by (rewrite Heq; symmetry; apply effective_mui).
        unfold effective in Heq. rewrite Hmui in Heq.
        destruct (bool_decide (r_mui rc ∈ wd r0 false (prefix_is_v4 p))); subst; cbn.
        -- by rewrite orb_true_r.
        -- rewrite orb_false_r. by destruct (bool_decide _).
      * transitivity (active r mc q k).
        { apply active_ext; [|by rewrite W2]. rewrite R2. by rewrite bool_decide_false. }
        rewrite A1. destruct mc; [done|]. cbn [negb andb].
        by rewrite (bool_decide_false (q = p /\ _)) by naive_solver.
Qed.

(** ** The loops *)
Lemma rov_done_ext c D D' r0 r :
  (forall x, x ∈ D <-> x ∈ D') -> rov_done c D r0 r -> rov_done c D' r0 r.
Proof.
  intros HD [S1 W1 N1 M1 A1]. split; try done. intros mc q k. rewrite A1.
  by rewrite (bool_decide_ext _ _ (HD (q, k))).
Qed.

Lemma rov_prefix_cons c p rc rs acc r acc' r' :
  rov_prefix c p [rc] acc r = (Some acc', r') ->
  rov_prefix c p (rc :: rs) acc r = rov_prefix c p rs acc' r'.
Proof.
  cbn [rov_prefix]. rewrite !(run_bind_Some run_get _ r r r eq_refl).
  destruct (revalidate c (rib_register r) p rc) as [[[rc' upd]|]|]; cbn [lift_opt]; [| |done].
  - rewrite !(run_bind_Some (mret _) _ r _ r eq_refl). unfold mbind, run_bind.
    destruct (on_store false (st_insert p rc') r) as [[res|] r1]; [|done].
    by intros [= <- <-].
  - rewrite !(run_bind_Some (mret _) _ r _ r eq_refl). by intros [= <- <-].
Qed.

Definition rov_keys (prs : list (PrefixRecord RotondaPaMap)) : list (Prefix * Z) :=
  prs ≫= fun pr => (fun rc => (fst pr, r_mui rc)) <$> snd pr.

Lemma elem_of_rov_keys prs q k :
  (q, k) ∈ rov_keys prs <-> exists rs rc, (q, rs) ∈ prs /\ rc ∈ rs /\ r_mui rc = k.
Proof.
  unfold rov_keys. rewrite list_elem_of_bind. split.
  - intros ([p rs] & (rc & Heq & Hrc)%list_elem_of_fmap & Hin). cbn in *. naive_solver.
  - intros (rs & rc & Hin & Hrc & <-). exists (q, rs). split; [|done].
    apply list_elem_of_fmap. eauto.
Qed.

Lemma rov_prefix_run c D r0 p rs acc r :
  vrps_ok (vrps c) -> metas_ok r0 -> rov_done c D r0 r -> Forall (current r0 p) rs ->
  exists acc' r', rov_prefix c p rs acc r = (Some acc', r')
    /\ rov_done c (rov_keys [(p, rs)] ++ D) r0 r'.
Proof.
  intros Hok Hm0 Hd Hrs. revert D acc r Hd. induction Hrs as [|rc rs Hrc _ IH]; intros D acc r Hd.
  { exists acc, r. done. }
  destruct (rov_one_run c D r0 p rc acc r Hok Hm0 Hd Hrc) as (acc1 & r1 & E1 & D1).
  rewrite (rov_prefix_cons _ _ _ _ _ _ _ _ E1).
  destruct (IH _ acc1 r1 D1) as (acc2 & r2 & E2 & D2). exists acc2, r2. split; [done|].
  eapply rov_done_ext; [|exact D2]. intros [q k]. unfold rov_keys. cbn.
  rewrite !app_nil_r, elem_of_cons, !elem_of_app, elem_of_cons. tauto.
Qed.

Lemma rov_prefixes_run c D r0 prs acc r :
  vrps_ok (vrps c) -> metas_ok r0 -> rov_done c D r0 r ->
  Forall (fun pr => Forall (current r0 (fst pr)) (snd pr)) prs ->
  exists acc' r', rov_prefixes c prs acc r = (Some acc', r')
    /\ rov_done c (rov_keys prs ++ D) r0 r'.
Proof.
  intros Hok Hm0 Hd Hprs. revert D acc r Hd.
  induction Hprs as [|[p rs] prs Hpr _ IH]; intros D acc r Hd.
  { exists acc, r. done. }
  cbn [rov_prefixes fst snd] in *.
  destruct (rov_prefix_run c D r0 p rs acc r Hok Hm0 Hd Hpr) as (acc1 & r1 & E1 & D1).
  rewrite (run_bind_Some _ _ _ _ _ E1).
  destruct (IH _ acc1 r1 D1) as (acc2 & r2 & E2 & D2). exists acc2, r2. split; [done|].
  eapply rov_done_ext; [|exact D2]. intros [q k]. unfold rov_keys. cbn.
  rewrite app_nil_r, !elem_of_app. tauto.
Qed.

Lemma rov_done_nil c r : ready r -> metas_ok r -> rov_done c [] r r.
Proof.
  intros Hr Hm. split; [by apply stores_only_refl|done|done|done|]. intros mc q k.
  rewrite (bool_decide_false (_ ∈ [])) by apply not_elem_of_nil. by rewrite andb_false_r.
Qed.

(** A listing of a prefix consists of its current records. *)
Lemma lists_current r s p rs :
  unicast r = Some s ->
  (forall rc, rc ∈ rs -> exists r0, stored_at s p (r_mui rc) = Some r0
     /\ rc = effective (withdrawn_muis s (prefix_is_v4 p)) r0) ->
  Forall (current r p) rs.
Proof.
  intros Hs Hrs. apply Forall_forall. intros rc Hrc. destruct (Hrs rc Hrc) as (r0 & Hr0 & Heq).
  exists r0. unfold recs, wd. cbn [store_of]. rewrite Hs. done.
Qed.

Lemma active_stored r s p k pa :
  unicast r = Some s -> active r false p k = Some pa ->
  exists r0, stored_at s p k = Some r0 /\ r_meta r0 = pa /\ r_mui r0 = k
    /\ r_status (effective (withdrawn_muis s (prefix_is_v4 p)) r0) <> Withdrawn.
Proof.
  intros Hs (rc & Hrc & Hst & Hw & Hpa)%active_Some. unfold recs, wd in *. cbn [store_of] in *.
  rewrite Hs in *. cbn in *. exists rc. pose proof (stored_mui _ _ _ _ Hrc) as Hm.
  split_and!; try done. unfold effective. by rewrite Hm, bool_decide_false.
Qed.

(** The walk of a Cache Reset. *)
Lemma rov_walk_run c r :
  ready r -> metas_ok r -> vrps_ok (vrps c) ->
  exists r', rov_walk c r = (Some tt, r') /\ stores_only r r' /\ metas_ok r'
    /\ (forall q k, recs r' true q k = recs r true q k)
    /\ forall mc q k, active r' mc q k
         = if mc then active r mc q k else rov_meta c q <$> active r mc q k.
Proof.
  intros Hr Hm Hok. unfold rov_walk. rewrite (run_bind_Some run_get _ r r r eq_refl).
  destruct (ready_stores _ Hr false) as [s Hs]. cbn [store_of] in Hs. rewrite Hs.
  destruct (rov_prefixes_run c [] r (st_prefixes None s) [] r Hok Hm (rov_done_nil c r Hr Hm))
    as (acc & r' & E1 & [S1 W1 N1 M1 A1]).
  { apply Forall_forall. intros [p rs] Hin. apply prefixes_ok in Hin as [_ [_ Hl]]. cbn.
    eapply lists_current; [done|]. intros rc Hrc. by apply Hl. }
  rewrite (run_bind_Some _ _ _ _ _ E1). exists r'. split; [done|]. split; [done|]. split; [done|].
  split; [done|]. intros mc q k. rewrite A1, app_nil_r. destruct mc; [done|]. cbn [negb andb].
  destruct (active r false q k) as [pa|] eqn:Ha; [|by destruct (bool_decide _)].
  rewrite bool_decide_true; [done|]. apply elem_of_rov_keys.
  destruct (active_stored r s q k pa Hs Ha) as (r0 & Hr0 & _ & Hmui & _).
  assert (q ∈ (st_prefixes None s).*1) as Hq by (eapply prefixes_complete; [by eexists|done]).
  apply list_elem_of_fmap in Hq as ([q' rs] & -> & Hin). cbn in *. exists rs.
  eexists. split; [done|]. apply prefixes_ok in Hin as [_ [_ Hl]].
  split; [apply Hl; exists r0; split; [by rewrite effective_mui, Hmui|done]|]. by rewrite effective_mui.
Qed.

(** ** The routes that a VRP concerns, in a RIB without multicast routes *)

(** A result that lists current records, all the active ones under [p] among
    them. *)
Record found (r : Rib) (p : Prefix) (x : QueryResult RotondaPaMap) : Prop := {
  fo_exact : Forall (current r p) (qr_records x);
  fo_more : Forall (fun pr => Forall (current r (fst pr)) (snd pr)) (default [] (qr_more_specifics x));
  fo_all q k : is_Some (active r false q k) -> q = p \/ covers p q = true ->
    (q, k) ∈ rov_keys ((p, qr_records x) :: default [] (qr_more_specifics x))
}.

Lemma unicast_found p r s res :
  unicast r = Some s -> st_match_prefix p more_specific_options s = inr res -> found r p res.
Proof.
  intros Hs Hres. pose proof (match_exact_ok p more_specific_options s res eq_refl Hres) as [_ Hex].
  pose proof (match_more_ok p more_specific_options s res eq_refl eq_refl Hres) as Hmore. split.
  - eapply lists_current; [done|]. intros rc Hrc. by apply Hex in Hrc as [? _].
  - apply Forall_forall. intros [q rs] Hin. cbn. eapply lists_current; [done|]. intros rc Hrc.
    destruct (proj1 (Hmore q rc)) as (_ & _ & [? _]); [by exists rs|done].
  - intros q k [pa Ha] Hq. destruct (active_stored r s q k pa Hs Ha) as (r0 & Hr0 & _ & Hmui & Hst).
    set (rc := effective (withdrawn_muis s (prefix_is_v4 q)) r0) in *.
    assert (shown (stored_at s q) (withdrawn_muis s (prefix_is_v4 q)) more_specific_options rc) as Hsh.
    { split; [|split; [by right|by left]]. exists r0. unfold rc. by rewrite effective_mui, Hmui. }
    apply elem_of_rov_keys. assert (r_mui rc = k) as Hk by (unfold rc; by rewrite effective_mui).
    destruct (decide (q = p)) as [->|Hne].
    + exists (qr_records res), rc. split; [by left|]. split; [by apply Hex|done].
    + destruct Hq as [?|Hq]; [done|]. destruct (proj2 (Hmore q rc)) as (rs & Hin & Hrc); [done|].
      exists rs, rc. split; [by right|done].
Qed.

Lemma multicast_found p r ms res mres :
  found r p res -> nothing_found res = true ->
  (forall q k, stored_at ms q k = None) ->
  st_match_prefix p more_specific_options ms = inr mres -> found r p mres.
Proof.
  intros [_ _ Hcov] Hn Hme Hmres.
  pose proof (match_exact_ok p more_specific_options ms mres eq_refl Hmres) as [_ Hex].
  pose proof (match_more_ok p more_specific_options ms mres eq_refl eq_refl Hmres) as Hmore. split.
  - apply Forall_forall. intros rc Hrc. apply Hex in Hrc as [(r0 & Hr0 & _) _]. by rewrite Hme in Hr0.
  - apply Forall_forall. intros [q rs] Hin. apply Forall_forall. intros rc Hrc. cbn in *.
    destruct (proj1 (Hmore q rc)) as (_ & _ & [(r0 & Hr0 & _) _]); [by exists rs|]. by rewrite Hme in Hr0.
  - intros q k Ha Hq. specialize (Hcov q k Ha Hq). unfold nothing_found in Hn.
    apply andb_true_iff in Hn as [[Hn1 _]%andb_true_iff Hn2]. apply bool_decide_eq_true in Hn1.
    rewrite Hn1 in Hcov. destruct (qr_more_specifics res); [done|]. by apply not_elem_of_nil in Hcov.
Qed.

Lemma match_found p r :
  ready r -> (forall q k, recs r true q k = None) ->
  exists x, rib_match_prefix p more_specific_options r = inr x /\ found r p x.
Proof.
  intros Hr Hmc. destruct (ready_stores _ Hr false) as [s Hs], (ready_stores _ Hr true) as [ms Hms].
  cbn [store_of] in Hs, Hms.
  destruct (match_reliable p more_specific_options s) as [res Hres].
  destruct (match_reliable p more_specific_options ms) as [mres Hmres].
  pose proof (unicast_found p r s res Hs Hres) as Hf.
  unfold rib_match_prefix. rewrite Hs, Hres, Hms, Hmres.
  destruct (nothing_found res) eqn:Hn; [|by eauto].
  destruct (nothing_found mres); cbn [negb]; [by eauto|]. exists mres. split; [done|].
  eapply multicast_found; try done. intros q k. specialize (Hmc q k).
  unfold recs in Hmc. cbn [store_of] in Hmc. by rewrite Hms in Hmc.
Qed.

Lemma rov_for_vrp_run c p r :
  ready r -> metas_ok r -> vrps_ok (vrps c) -> (forall q k, recs r true q k = None) ->
  exists upds r' D, rov_for_vrp c p r = (Some (Some upds), r')
    /\ rov_done c D r r'
    /\ forall q k, is_Some (active r false q k) -> q = p \/ covers p q = true -> (q, k) ∈ D.
Proof.
  intros Hr Hm Hok Hmc. unfold rov_for_vrp. rewrite (run_bind_Some run_get _ r r r eq_refl).
  destruct (match_found p r Hr Hmc) as (x & -> & [H1 H2 H3]).
  destruct (rov_prefix_run c [] r p (qr_records x) [] r Hok Hm (rov_done_nil c r Hr Hm) H1)
    as (acc1 & r1 & E1 & D1).
  rewrite (run_bind_Some _ _ _ _ _ E1).
  destruct (rov_prefixes_run c _ r _ acc1 r1 Hok Hm D1 H2) as (acc2 & r2 & E2 & D2).
  rewrite (run_bind_Some _ _ _ _ _ E2). eexists _, r2, _. split; [done|]. split; [exact D2|].
  intros q k Ha Hq. specialize (H3 q k Ha Hq). unfold rov_keys in *. cbn in *.
  rewrite !app_nil_r in *. rewrite elem_of_app in *. tauto.
Qed.

End Rov.
