(* ===== verification/RovProps.v ===== *)
(** * Properties of RTR updates

    The updates that the client builds, the VRPs of the cache, and the RPKI
    status of the stored routes. *)

From S2P Require Import Prelude Net Register Payload Interner RibStore Rib RibView RibProps Rtr RtrView RibUnit RibSpec RovView.
From Stdlib Require Import ZArith Lia.
From stdpp Require Import base numbers list gmap.

Local Open Scope Z_scope.

#[local] Arguments wd {_ _} _ _ _ : simpl never.
#[local] Arguments recs {_ _} _ _ _ _ : simpl never.
#[local] Arguments active {_ _} _ _ _ _ : simpl never.

Section Props.
Context `{E : Extern} `{L : Layout} `{PS : !PrefixStore RotondaPaMap} `{VS : !PrefixStore MaxLenList}.
Context `{RS : !ReliableStore RotondaPaMap} `{RV : !ReliableStore MaxLenList}.
Context `{RT : !Roto} `{HP : !HashIter Z (list Prefix)} `{HS : !HashIter Z unit}.

(** ** The client *)

(** What a response of the RTR server becomes. A Cache Reset with only
    announcements becomes a full update with all of them in order, and is
    refused as corrupt when it has a withdrawal; a Serial response becomes a
    delta with its verbs in order, never with anything of earlier responses. *)
Theorem push_all_spec name l :
  push_all l (target_start false (rtr_target_new name)) = inr (RtrDelta l)
  /\ push_all l (target_start true (rtr_target_new name))
     = if bool_decide (RtrWithdraw ∈ l.*1) then inl Corrupt else inr (RtrFull l).
Proof.
  cbn. split.
  - enough (forall v, push_all l (RtrDelta v) = inr (RtrDelta (v ++ l))) as H by apply (H []).
    induction l as [|[a p] l IH]; intros v; cbn; [by rewrite app_nil_r|]. by rewrite IH, <- app_assoc.
  - enough (forall v, push_all l (RtrFull v)
      = if bool_decide (RtrWithdraw ∈ l.*1) then inl Corrupt else inr (RtrFull (v ++ l))) as H by apply (H []).
    induction l as [|[a p] l IH]; intros v.
    { rewrite bool_decide_false by apply not_elem_of_nil. cbn. by rewrite app_nil_r. }
    cbn. rewrite (bool_decide_ext (RtrWithdraw ∈ a :: l.*1) (a = RtrWithdraw \/ RtrWithdraw ∈ l.*1))
      by (rewrite elem_of_cons; naive_solver).
    destruct a.
    + rewrite (bool_decide_false (RtrAnnounce = RtrWithdraw)), IH, <- app_assoc by done. cbn.
      by rewrite (bool_decide_ext (_ \/ _) (RtrWithdraw ∈ l.*1)) by naive_solver.
    + by rewrite !bool_decide_true by auto.
Qed.

(** ** Serial updates *)
Record rov_inv (u : RibUnitRunner) : Prop := {
  ri_ready : ready (rib u);
  ri_metas : metas_ok (rib u);
  ri_unicast q k : recs (rib u) true q k = None;
  ri_vrps : vrps_ok (vrps (rtr_cache u));
  ri_nodup : vrps_nodup (vrps (rtr_cache u));
  ri_rov : rov_consistent (rtr_cache u) (rib u)
}.

(** The VRPs after a sequence of verbs. *)
Definition vrp_verb (v : RtrAction * RtrPayload) (V : Prefix -> Z -> Z -> Prop)
  : Prefix -> Z -> Z -> Prop := fun q k m =>
  match v with
  | (a, RP_Origin o) =>
      if bool_decide (origin_prefix o = Some q /\ k = ro_asn o /\ m = resolved_max_len o)
      then a = RtrAnnounce else V q k m
  | _ => V q k m
  end.

Definition vrp_verbs (l : RtrVerbs) (V : Prefix -> Z -> Z -> Prop) : Prefix -> Z -> Z -> Prop :=
  foldl (fun V v => vrp_verb v V) V l.

Definition good_verb (v : RtrAction * RtrPayload) : Prop :=
  match v with (_, RP_Origin o) => is_Some (origin_prefix o) | _ => True end.

(** No script holds an update of the VRPs back. *)
Definition vrp_accepted : Prop :=
  match roto_function_vrp_update with
  | Some f => forall a o x, fst (f a o x) = true
  | None => True
  end.

(** Routes differ in their RPKI byte at most. *)
Definition same_routes (r r' : Rib) : Prop :=
  forall mc q k, path_attributes <$> active r' mc q k = path_attributes <$> active r mc q k.

Lemma vrp_filter_run a o u :
  vrp_accepted ->
  exists u', vrp_filter a o u = (Some true, u') /\ rib u' = rib u /\ rtr_cache u' = rtr_cache u.
Proof.
  intros Hacc. unfold vrp_accepted, vrp_filter in *. destruct roto_function_vrp_update as [f|]; [|by exists u].
  rewrite (run_bind_Some run_get _ u u u eq_refl). specialize (Hacc a o (roto_context u)).
  destruct (f a o (roto_context u)) as [ok ctx]. cbn in Hacc. subst ok.
  unfold process_output_stream, update_data. run_unfold.
  match goal with |- context [drain_output ?x] => destruct (drain_output x) as [outs ctx'] end.
  by eexists.
Qed.

Lemma rov_post_run upds u :
  exists u', rov_post upds u = (Some tt, u') /\ rib u' = rib u /\ rtr_cache u' = rtr_cache u.
Proof.
  unfold rov_post. destruct roto_function_vrp_update_post as [f|]; [|by exists u].
  unfold process_output_stream, update_data. run_unfold.
  match goal with |- context [drain_output ?x] => destruct (drain_output x) as [outs ctx'] end.
  by eexists.
Qed.

(** Revalidation under the new cache of the routes a VRP concerns. *)
Lemma rov_done_consistent c c' p D r r' :
  vrps_ok (vrps c) -> vrps_ok (vrps c') ->
  (forall q k m, q <> p -> vrp_in (vrps c) q k m <-> vrp_in (vrps c') q k m) ->
  metas_ok r -> rov_consistent c r -> rov_done c' D r r' ->
  (forall q k, is_Some (active r false q k) -> q = p \/ covers p q = true -> (q, k) ∈ D) ->
  rov_consistent c' r' /\ same_routes r r'.
Proof.
  intros Hok Hok' Hext Hm Hrov [S1 W1 N1 M1 A1] Hall.
  assert (forall mc q k pa, active r mc q k = Some pa -> mc = false -> pamap_wf pa) as Hwf.
  { intros mc q k pa (rc & Hrc & _ & _ & <-)%active_Some ->. by apply Hm in Hrc. }
  split.
  - intros q k pa Ha. rewrite A1 in Ha. cbn [negb andb] in Ha. case_bool_decide as HD.
    + apply fmap_Some in Ha as (pa0 & Ha0 & ->). by apply rov_meta_spec, (Hwf false q k).
    + intros opa origin Hopa Ho. rewrite (Hrov q k pa Ha opa origin Hopa Ho). f_equal.
      apply cache_rov_ext; [done|done|]. intros q' k' m' Hc. apply Hext. intros ->.
      apply HD, Hall; [by eexists|by right].
  - intros mc q k. rewrite A1. destruct mc; [done|]. cbn [negb andb]. case_bool_decide; [|done].
    destruct (active r false q k) as [pa|] eqn:Ha; [|done]. cbn. f_equal.
    by apply rov_meta_spec, (Hwf false q k).
Qed.

Lemma delta_verb_run v u :
  rov_inv u -> good_verb v -> vrp_accepted ->
  exists u', delta_verb v u = (Some true, u') /\ rov_inv u'
    /\ same_routes (rib u) (rib u')
    /\ forall q k m, vrp_in (vrps (rtr_cache u')) q k m <-> vrp_verb v (vrp_in (vrps (rtr_cache u))) q k m.
Proof.
  intros Hinv Hv Hacc. pose proof Hinv as [Hr Hm Hmc Hok Hnd Hrov].
  destruct v as [a [o|rk|asp]].
  2-3: eexists; (split; [reflexivity|]); (split; [by destruct a|]); (split; [done|]); by destruct a.
  destruct Hv as [p Hp]. unfold delta_verb. rewrite (run_bind_Some run_get _ u u u eq_refl).
  destruct (delta_origin_run a o (rtr_cache u) p Hok Hp) as (c & Hc & Hok' & _ & _ & Hl).
  rewrite Hc. cbn [lift_opt]. rewrite (run_bind_Some (mret _) _ u _ u eq_refl). cbn beta iota.
  rewrite (run_bind_Some (run_modify _) _ u tt (set_rtr_cache c u) eq_refl).
  destruct (vrp_filter_run a o (set_rtr_cache c u) Hacc) as (u1 & E1 & R1 & C1).
  rewrite (run_bind_Some _ _ _ _ _ E1).
  destruct (rov_for_vrp_run c p (rib u1)) as (upds & r' & D & E2 & D2 & Hall); [by rewrite ?R1..|].
  assert (on_rib (rov_for_vrp c p) u1 = (Some (Some upds), set_rib r' u1)) as E2'
    by (unfold on_rib; by rewrite E2).
  rewrite (run_bind_Some _ _ _ _ _ E2').
  destruct (rov_post_run upds (set_rib r' u1)) as (u2 & E3 & R3 & C3).
  rewrite (run_bind_Some _ _ _ _ _ E3). exists u2. split; [done|].
  change (rib (set_rib r' u1)) with r' in R3.
  change (rtr_cache (set_rib r' u1)) with (rtr_cache u1) in C3. rewrite C1 in C3.
  change (rtr_cache (set_rtr_cache c u)) with c in C3. change (rib (set_rtr_cache c u)) with (rib u) in R1.
  rewrite R1 in D2, Hall.
  destruct (delta_vrps a o (rtr_cache u) c p Hnd Hl) as [Hnd' Hvrps].
  destruct (rov_done_consistent (rtr_cache u) c p D (rib u) r' Hok Hok') as [Hrov' Hsame]; try done.
  { intros q k m Hq. rewrite Hvrps. by rewrite bool_decide_false by naive_solver. }
  split; [|split; [by rewrite R3|]].
  - destruct D2 as [S2 W2 N2 M2 A2]. split; rewrite ?R3, ?C3; try done; [apply S2|].
    intros q k. by rewrite N2.
  - intros q k m. rewrite C3, Hvrps. cbn. rewrite Hp.
    by rewrite (bool_decide_ext (Some p = Some q /\ _) (q = p /\ k = ro_asn o /\ m = resolved_max_len o))
      by naive_solver.
Qed.

Lemma vrp_verb_proper v (V W : Prefix -> Z -> Z -> Prop) :
  (forall q k m, V q k m <-> W q k m) -> forall q k m, vrp_verb v V q k m <-> vrp_verb v W q k m.
Proof. intros H q k m. destruct v as [a []]; cbn; try apply H. by case_bool_decide. Qed.

Lemma vrp_verbs_proper l (V W : Prefix -> Z -> Z -> Prop) :
  (forall q k m, V q k m <-> W q k m) -> forall q k m, vrp_verbs l V q k m <-> vrp_verbs l W q k m.
Proof.
  revert V W. induction l as [|v l IH]; intros V W H; [done|]. cbn. apply IH. by apply vrp_verb_proper.
Qed.

Lemma delta_verbs_run l u :
  rov_inv u -> Forall good_verb l -> vrp_accepted ->
  exists u', delta_verbs l u = (Some true, u') /\ rov_inv u'
    /\ same_routes (rib u) (rib u')
    /\ forall q k m, vrp_in (vrps (rtr_cache u')) q k m <-> vrp_verbs l (vrp_in (vrps (rtr_cache u))) q k m.
Proof.
  intros Hinv Hl Hacc. revert u Hinv. induction Hl as [|v l Hv _ IH]; intros u Hinv.
  { by exists u. }
  cbn [delta_verbs]. destruct (delta_verb_run v u Hinv Hv Hacc) as (u1 & E1 & H1 & S1 & V1).
  rewrite (run_bind_Some _ _ _ _ _ E1). destruct (IH u1 H1) as (u2 & E2 & H2 & S2 & V2).
  exists u2. split; [done|]. split; [done|]. split; [intros mc q k; by rewrite S2, S1|].
  intros q k m. rewrite V2. cbn. by apply vrp_verbs_proper.
Qed.


(** ** Cache Reset *)
Lemma full_verbs_ok l st :
  vrps_ok (full_vrps st) -> Forall good_verb l -> exists st', full_verbs l st = Some st'.
Proof.
  intros Hok Hl. revert st Hok. induction Hl as [|[a pl] l Hv _ IH]; intros st Hok; [by eexists|].
  cbn [full_verbs]. assert (exists st1, full_verb (a, pl) st = Some st1 /\ vrps_ok (full_vrps st1))
    as (st1 & -> & Hok1); [|by apply IH].
  unfold full_verb. case_bool_decide; [by eauto|]. destruct pl as [o|rk|asp]; [|by eauto..].
  destruct Hv as [p Hp]. rewrite Hp. cbn. rewrite (vrp_lookup_run _ _ _ Hok). cbn.
  destruct (vrp_insert_run p (ro_asn o) (maxlens_of (full_vrps st) p (ro_asn o) ++ [resolved_max_len o])
    _ Hok) as (s' & -> & Hok' & _). by eexists.
Qed.

Lemma rtr_full_run l c :
  vrps_ok (vrps c) -> Forall good_verb l ->
  exists c', rtr_full l c = Some c' /\ vrps_ok (vrps c')
    /\ forall q k, exists added, maxlens_of (vrps c') q k = maxlens_of (vrps c) q k ++ added
         /\ forall m, m ∈ added <-> exists o, (RtrAnnounce, RP_Origin o) ∈ l
                      /\ origin_prefix o = Some q /\ ro_asn o = k /\ resolved_max_len o = m.
Proof.
  intros Hok Hl. unfold rtr_full. destruct (full_verbs_ok l (mk_full [] [] [] (vrps c)) Hok Hl) as [st Hst].
  rewrite Hst. eexists. split; [done|]. exact (full_verbs_run l (mk_full [] [] [] (vrps c)) st Hok Hst).
Qed.

(** A Cache Reset and the validation run that it starts. The VRPs of the
    cache are the announced ones and those it had before, and every active
    unicast route with an origin has the status that they give it, whatever its
    status was; nothing else of the routes has changed. *)
Theorem cache_reset_consistent l u :
  ready (rib u) -> metas_ok (rib u) -> vrps_ok (vrps (rtr_cache u)) -> rov_walks u = 0%nat ->
  Forall good_verb l ->
  exists u1 u2, process_rtr (RtrFull l) u = (Some true, u1) /\ run_rov_walk u1 = (Some tt, u2)
    /\ rov_walks u2 = 0%nat
    /\ (forall q k m, vrp_in (vrps (rtr_cache u2)) q k m
          <-> vrp_in (vrps (rtr_cache u)) q k m
              \/ exists o, (RtrAnnounce, RP_Origin o) ∈ l /\ origin_prefix o = Some q
                           /\ ro_asn o = k /\ resolved_max_len o = m)
    /\ rov_consistent (rtr_cache u2) (rib u2)
    /\ same_routes (rib u) (rib u2).
Proof.
  intros Hr Hm Hok Hw Hl. cbn [process_rtr]. rewrite (run_bind_Some run_get _ u u u eq_refl).
  destruct (rtr_full_run l (rtr_cache u) Hok Hl) as (c & -> & Hok' & Hadd). cbn [lift_opt].
  destruct (rov_walk_run c (rib u) Hr Hm Hok') as (r' & Ew & Sw & Mw & _ & Aw).
  eexists _, _. split; [reflexivity|]. unfold run_rov_walk. cbn. rewrite Ew. cbn.
  split; [reflexivity|]. split; [by cbn|]. cbn. split; [|split].
  - intros q k m. unfold vrp_in. destruct (Hadd q k) as (added & -> & Ha). by rewrite elem_of_app, Ha.
  - intros q k pa Ha. rewrite Aw in Ha. apply fmap_Some in Ha as (pa0 & Ha0 & ->).
    apply rov_meta_spec; [done|]. apply active_Some in Ha0 as (rc & Hrc & _ & _ & <-). by apply Hm in Hrc.
  - intros mc q k. rewrite Aw. destruct mc; [done|].
    destruct (active (rib u) false q k) as [pa|] eqn:Ha; [|done]. cbn. f_equal.
    apply rov_meta_spec; [done|]. apply active_Some in Ha as (rc & Hrc & _ & _ & <-). by apply Hm in Hrc.
Qed.

(** A Cache Reset never removes a VRP. The VRPs that the server no longer
    has stay in the cache; and a VRP that two resets have announced is held
    twice, so that the withdrawal that follows leaves one copy behind, and the
    VRP keeps validating routes. *)
Theorem reset_keeps_vrps l c q k m :
  vrps_ok (vrps c) -> Forall good_verb l -> vrp_in (vrps c) q k m ->
  exists c1, rtr_full l c = Some c1 /\ vrp_in (vrps c1) q k m
    /\ forall o, (RtrAnnounce, RP_Origin o) ∈ l -> origin_prefix o = Some q -> ro_asn o = k ->
         resolved_max_len o = m ->
         exists c2, delta_origin RtrWithdraw o c1 = Some (inr (q, c2)) /\ vrp_in (vrps c2) q k m.
Proof.
  intros Hok Hl Hin. destruct (rtr_full_run l c Hok Hl) as (c1 & E1 & Hok1 & Hadd).
  exists c1. split; [done|]. destruct (Hadd q k) as (added & Hq & Ha). unfold vrp_in in *.
  split; [rewrite Hq; apply elem_of_app; by left|]. intros o Ho Hp <- <-.
  destruct (delta_origin_run RtrWithdraw o c1 q Hok1 Hp) as (c2 & E2 & _ & _ & _ & Hl2).
  exists c2. split; [done|]. rewrite Hl2, bool_decide_true, Hq by done. cbn.
  assert (resolved_max_len o ∈ added) as Hadded by (apply Ha; eauto).
  clear - Hin Hadded. induction (maxlens_of (vrps c) q (ro_asn o)) as [|x l0 IH]; cbn.
  - by apply not_elem_of_nil in Hin.
  - case_bool_decide as Hx; [apply elem_of_app; by right|].
    apply elem_of_cons in Hin as [Heq|Hin]; [congruence|]. right. by apply IH.
Qed.

End Props.

(** ** Examples *)
Module RovDemo.
#[local] Existing Instances Demo.extern demo_layout RibDemo.store RibDemo.store_ok RibDemo.ids
  RibDemo.pending UnitDemo.vstore UnitDemo.vstore_ok UnitDemo.roto.

(** The route of the example table has the origin AS 0. *)
Definition vrp : RouteOrigin := mk_route_origin (V4 (10 * 2 ^ 24)) 8 (Some 24) 0.

Definition start : RibUnitRunner :=
  mk_runner RibDemo.table rtr_cache_default (tt : RotoCtx) true false [] 0.

Lemma start_metas : metas_ok (rib start).
Proof.
  intros p m rc. unfold recs. cbn [store_of rib start]. rewrite RibDemo.table_store. cbn.
  unfold ls_key. cbn. case_bool_decide; [|done]. intros [= <-]. by eexists.
Qed.

(** The unit after a Cache Reset without VRPs: its route is NotFound. *)
Definition checked : RibUnitRunner :=
  snd (run_rov_walk (snd (process_rtr (RtrFull []) start))).

Lemma checked_store : unicast (rib checked)
  = Some (mk_list_store [(RibDemo.net, mk_record 7 0 Active (mk_pamap [1; 1; 64; 1; 1; 0]))] (fun _ => ∅)).
Proof. reflexivity. Qed.

Lemma checked_inv : rov_inv checked.
Proof.
  assert (vrps (rtr_cache checked) = store_default) as Hv by reflexivity.
  split.
  - pose proof RibDemo.table_ready as [Hs Hi]. split; [intros []; by eexists|exact Hi].
  - intros p m rc. unfold recs. cbn [store_of]. rewrite checked_store. cbn.
    unfold ls_key. cbn. case_bool_decide; [|done]. intros [= <-]. by eexists.
  - done.
  - rewrite Hv. apply vrps_default_ok.
  - intros p asn. rewrite Hv, maxlens_default. constructor.
  - intros p m pa (rc & Hrc & _ & _ & <-)%active_Some opa origin Hopa Ho. unfold recs in Hrc.
    cbn [store_of] in Hrc. rewrite checked_store in Hrc. cbn in Hrc. unfold ls_key in Hrc.
    cbn in Hrc. case_bool_decide as Hk; [|done]. destruct Hk as [<- <-]. injection Hrc as <-.
    cbn in Hopa. injection Hopa as <-. injection Ho as <-. reflexivity.
Qed.

End RovDemo.

#[local] Existing Instances Demo.extern demo_layout RibDemo.store RibDemo.store_ok RibDemo.ids
  RibDemo.pending UnitDemo.vstore UnitDemo.vstore_ok UnitDemo.roto.


Lemma cache_reset_consistent_witness :
  exists u1 u2, process_rtr (RtrFull [(RtrAnnounce, RP_Origin RovDemo.vrp)]) RovDemo.start = (Some true, u1)
    /\ run_rov_walk u1 = (Some tt, u2) /\ rov_consistent (rtr_cache u2) (rib u2).
Proof.
  destruct (cache_reset_consistent [(RtrAnnounce, RP_Origin RovDemo.vrp)] RovDemo.start)
    as (u1 & u2 & E1 & E2 & _ & _ & Hc & _).
  - exact RibDemo.table_ready.
  - exact RovDemo.start_metas.
  - apply vrps_default_ok.
  - reflexivity.
  - repeat constructor. by eexists.
  - exists u1, u2. split; [exact E1|]. split; [exact E2|exact Hc].
Defined.

Lemma reset_keeps_vrps_witness :
  exists c0 c1 c2, rtr_full [(RtrAnnounce, RP_Origin RovDemo.vrp)] rtr_cache_default = Some c0
    /\ rtr_full [(RtrAnnounce, RP_Origin RovDemo.vrp)] c0 = Some c1
    /\ delta_origin RtrWithdraw RovDemo.vrp c1 = Some (inr (RibDemo.net, c2))
    /\ vrp_in (vrps c2) RibDemo.net 0 24.
Proof.
  destruct (rtr_full_run [(RtrAnnounce, RP_Origin RovDemo.vrp)] rtr_cache_default)
    as (c0 & E0 & Hok & Hadd); [apply vrps_default_ok|repeat constructor; by eexists|].
  destruct (reset_keeps_vrps [(RtrAnnounce, RP_Origin RovDemo.vrp)] c0 RibDemo.net 0 24)
    as (c1 & E1 & _ & H2).
  - exact Hok.
  - repeat constructor. by eexists.
  - unfold vrp_in. destruct (Hadd RibDemo.net 0) as (added & -> & Ha). apply elem_of_app. right.
    apply Ha. exists RovDemo.vrp. split; [by left|]. done.
  - destruct (H2 RovDemo.vrp) as (c2 & E2 & Hin); [by left|reflexivity..|].
    exists c0, c1, c2. split; [exact E0|]. split; [exact E1|]. split; [exact E2|exact Hin].
Defined.
