(* ===== verification/RibSearch.v ===== *)
(** * Searching the RIB ([src/units/rib_unit/rib.rs], [src/units/rib_unit/http_ng.rs])

    The queries of the HTTP interface: the filter of a request, the search of a
    prefix with its more and less specifics, and the two ways its result is
    written, as one JSON document or as a line per route; and the dump of a whole
    address family, which reads the table in chunks and writes lines.  What is
    written is a tree of the values that are serialised ([Value]); the text is
    serde's. *)

From S2P Require Import Prelude Net Register Payload RibStore Rib.
From Stdlib Require Import ZArith Lia.
From stdpp Require Import base numbers list gmap fin_maps strings.

Local Open Scope Z_scope.

(** [Vec::retain_mut] with a closure that has a state and may panic. *)
Fixpoint run_retain {S A} (f : A -> Run S bool) (l : list A) : Run S (list A) :=
  match l with
  | [] => mret []
  | x :: l =>
      keep ← f x;
      rest ← run_retain f l;
      mret (if keep : bool then x :: rest else rest)
  end.

(** The same where the closure changes what it keeps. *)
Fixpoint run_retain_mut {S A} (f : A -> Run S (bool * A)) (l : list A) : Run S (list A) :=
  match l with
  | [] => mret []
  | x :: l =>
      kept ← f x;
      rest ← run_retain_mut f l;
      mret (if kept.1 : bool then kept.2 :: rest else rest)
  end.

(** ** Requests *)

Inductive Include : Type := MoreSpecifics | LessSpecifics.

#[export] Instance Include_eq_dec : EqDecision Include.
Proof. solve_decision. Defined.

Definition include_from_str (s : rstring) : option Include :=
  if bool_decide (s = str "moreSpecifics") then Some MoreSpecifics
  else if bool_decide (s = str "lessSpecifics") then Some LessSpecifics
  else None.

(** [representation::OutputFormat]. *)
Inductive OutputFormat : Type := Json | Jsonl.

#[export] Instance OutputFormat_eq_dec : EqDecision OutputFormat.
Proof. solve_decision. Defined.

Definition content_type (f : OutputFormat) : rstring :=
  match f with Json => str "application/json" | Jsonl => str "application/x-ndjson" end.

(** What the searches call and the program does not contain: the attributes that
    routecore parses out of a blob; the functions of the compiled Roto script, by
    name, which answer whether a route is accepted and may change the context of
    the script; and, for each attribute of a route that parses, its type code with
    what is serialised for it. *)
Class Searching := {
  StandardCommunity : Type;
  StandardCommunity_eq_dec :: EqDecision StandardCommunity;
  LargeCommunity : Type;
  LargeCommunity_eq_dec :: EqDecision LargeCommunity;
  Attribute : Type;
  HttpCtx : Type;
  get_otc : OwnedPathAttributes -> option Asn;
  get_communities : OwnedPathAttributes -> option (list StandardCommunity);
  get_large_communities : OwnedPathAttributes -> option (list LargeCommunity);
  get_hop_origin : OwnedPathAttributes -> option Asn;
  get_function : rstring -> option (HttpCtx -> RotondaPaMap -> bool * HttpCtx);
  attributes_of : OwnedPathAttributes -> list (Z * Attribute)
}.

Section Search.
Context `{E : Extern} `{PS : !PrefixStore RotondaPaMap} `{SE : Searching}.

Abbreviation RotoHttpFilter := (HttpCtx -> RotondaPaMap -> bool * HttpCtx).
Abbreviation Rec := (StoreRecord RotondaPaMap).

(** [http_ng::QueryFilter]. *)
Record RouteFilter : Type := mk_route_filter {
  include : list Include;
  rf_ingress_id : option IngressId;
  origin_asn : option Asn;
  otc : option Asn;
  community : option StandardCommunity;
  large_community : option LargeCommunity;
  rf_rib_type : option PeerRibType;
  rf_rov_status : option RovStatus;
  peer_asn : option Asn;
  peer_addr : option IpAddr;
  fields_path_attributes : option (list Z);
  roto_function : option rstring;
  format : OutputFormat
}.

Definition enable_more_specifics (f : RouteFilter) : RouteFilter :=
  if bool_decide (MoreSpecifics ∈ include f) then f
  else mk_route_filter (include f ++ [MoreSpecifics]) (rf_ingress_id f) (origin_asn f) (otc f)
         (community f) (large_community f) (rf_rib_type f) (rf_rov_status f) (peer_asn f)
         (peer_addr f) (fields_path_attributes f) (roto_function f) (format f).

(** ** The filter *)

(** A condition on the ingress of a record; one that is not registered passes. *)
Definition ingress_passes {A} `{EqDecision A} (field : IngressInfo -> option A) (want : option A)
    (info : gmap IngressId IngressInfo) (r : Rec) : bool :=
  match want with
  | None => true
  | Some v =>
      match info !! r_mui r with
      | Some ii => bool_decide (field ii = Some v)
      | None => true
      end
  end.

Definition listed {A} `{EqDecision A} (want : option A) (found : option (list A)) : bool :=
  match want, found with
  | None, _ => true
  | Some c, Some l => bool_decide (c ∈ l)
  | Some _, None => false
  end.

Definition equals {A} `{EqDecision A} (want found : option A) : bool :=
  match want with None => true | Some v => bool_decide (Some v = found) end.

(** The conditions on the attributes; reading them panics where the bytes in front
    of them are missing. *)
Definition attributes_pass (f : RouteFilter) (r : Rec) : Run HttpCtx bool :=
  fun ctx =>
    match (match rf_rov_status f with
           | Some want => (fun i => bool_decide (rov i = want)) <$> rpki_info (r_meta r)
           | None => Some true
           end) with
    | None => (None, ctx)
    | Some false => (Some false, ctx)
    | Some true =>
        match path_attributes (r_meta r) with
        | None => (None, ctx)
        | Some pa =>
            (Some (equals (otc f) (get_otc pa)
                   && listed (large_community f) (get_large_communities pa)
                   && listed (community f) (get_communities pa)
                   && equals (origin_asn f) (get_hop_origin pa)), ctx)
        end
    end.

Definition asks_attributes (f : RouteFilter) : bool :=
  bool_decide (is_Some (origin_asn f)) || bool_decide (is_Some (otc f))
  || bool_decide (is_Some (community f)) || bool_decide (is_Some (large_community f))
  || bool_decide (is_Some (rf_rov_status f)).

(** [apply_filter]. *)
Definition apply_filter (f : RouteFilter) (roto_filter : option RotoHttpFilter)
    (info : gmap IngressId IngressInfo) (records : list Rec) : Run HttpCtx (list Rec) :=
  let records := match rf_ingress_id f with
                 | Some id => filter (fun r => r_mui r = id) records
                 | None => records
                 end in
  let records := filter (fun r => ingress_passes peer_rib_type (rf_rib_type f) info r = true) records in
  let records := filter (fun r => ingress_passes remote_asn (peer_asn f) info r = true) records in
  let records := filter (fun r => ingress_passes remote_addr (peer_addr f) info r = true) records in
  records ← match roto_filter with
            | Some g => run_retain (fun r ctx => let '(v, ctx) := g ctx (r_meta r) in (Some v, ctx))
                          records
            | None => mret records
            end;
  if asks_attributes f then run_retain (attributes_pass f) records else mret records.

(** ** Searches *)

Inductive SearchError : Type :=
| NotReady
| Unsupported (afisafi : AfiSafiType)
| StoreFailed (e : PrefixStoreError RotondaPaMap)
| NoFunction (name : rstring).

Record SearchResult : Type := mk_search_result {
  query_result : QueryResult RotondaPaMap;
  ingress_info : gmap IngressId IngressInfo;
  query_filter : RouteFilter
}.

(** The store of an address family. *)
Definition store_for (afisafi : AfiSafiType) (r : Rib) : SearchError + Store RotondaPaMap :=
  match afisafi with
  | Ipv4Unicast | Ipv6Unicast =>
      match unicast r with Some s => inr s | None => inl NotReady end
  | Ipv4Multicast | Ipv6Multicast =>
      match multicast r with Some s => inr s | None => inl NotReady end
  | u => inl (Unsupported u)
  end.

Definition match_options_of (f : RouteFilter) : MatchOptions :=
  mk_match_options ExactMatch false (bool_decide (LessSpecifics ∈ include f))
    (bool_decide (MoreSpecifics ∈ include f)) (rf_ingress_id f).

(** The Roto function that a request names. *)
Definition function_of (f : RouteFilter) : SearchError + option RotoHttpFilter :=
  match roto_function f with
  | None => inr None
  | Some name =>
      match get_function name with
      | Some g => inr (Some g)
      | None => inl (NoFunction name)
      end
  end.

(** [retain_mut] on the prefixes of a record set. *)
Definition filter_record_set (f : RouteFilter) (g : option RotoHttpFilter)
    (info : gmap IngressId IngressInfo) (rs : list (PrefixRecord RotondaPaMap))
  : Run HttpCtx (list (PrefixRecord RotondaPaMap)) :=
  run_retain_mut (fun pr =>
    meta ← apply_filter f g info pr.2;
    mret (negb (bool_decide (meta = [])), (pr.1, meta))) rs.

Definition filter_included (f : RouteFilter) (g : option RotoHttpFilter)
    (info : gmap IngressId IngressInfo) (rs : option (list (PrefixRecord RotondaPaMap)))
  : Run HttpCtx (option (list (PrefixRecord RotondaPaMap))) :=
  match rs with
  | None => mret None
  | Some l => l ← filter_record_set f g info l; mret (Some l)
  end.

(** [search_routes]; a missing Roto function is reported before an error of the
    store. *)
Definition search_routes (afisafi : AfiSafiType) (nlri : Prefix) (f : RouteFilter) (r : Rib)
  : Run HttpCtx (SearchError + SearchResult) :=
  match store_for afisafi r with
  | inl e => mret (inl e)
  | inr s =>
      let info := info (rib_register r) in
      let res := st_match_prefix nlri (match_options_of f) s in
      match function_of f with
      | inl e => mret (inl e)
      | inr g =>
          match res with
          | inl e => mret (inl (StoreFailed e))
          | inr q =>
              records ← apply_filter f g info (qr_records q);
              more ← filter_included f g info (qr_more_specifics q);
              less ← filter_included f g info (qr_less_specifics q);
              mret (inr (mk_search_result (mk_query_result (qr_prefix q) records less more) info f))
          end
      end
  end.

(** [check_filter_and_store]. *)
Definition check_filter_and_store (afisafi : AfiSafiType) (f : RouteFilter) (r : Rib)
  : SearchError + unit :=
  match store_for afisafi r with
  | inl e => inl e
  | inr _ =>
      match roto_function f with
      | Some name => if bool_decide (is_Some (get_function name)) then inr tt
                     else inl (NoFunction name)
      | None => inr tt
      end
  end.

(** ** What is serialised *)
Inductive Value : Type :=
| VNull
| VStr (s : rstring)
| VPrefix (p : Prefix)
| VIngress (id : IngressId) (i : IngressInfo)
| VRpki (i : RpkiInfo)
| VAttrs (l : list Attribute)
| VArray (l : list Value)
| VObject (members : list (rstring * Value)).

(** [RouteStatusWrapper]. *)
Definition status_value (s : RouteStatus) : Value :=
  VStr (match s with
        | Active => str "active"
        | InActive => str "inactive"
        | Withdrawn => str "withdrawn"
        end).

(** [Serialize for RotondaPaMap] and for [RotondaPaMapWithQueryFilter]: the members
    that are flattened into the object of a route. *)
Definition pamap_members (wanted : Z -> bool) (m : RotondaPaMap) : option (list (rstring * Value)) :=
  match rpki_info m, path_attributes m with
  | Some i, Some pa =>
      Some [(str "rpki", VRpki i);
            (str "pathAttributes",
             VAttrs (filter (fun a => wanted a.1 && negb (a.1 =? 15) = true) (attributes_of pa)).*2)]
  | _, _ => None
  end.

Definition wanted_fields (f : RouteFilter) (code : Z) : bool :=
  match fields_path_attributes f with
  | Some l => bool_decide (code ∈ l)
  | None => true
  end.

(** [id_and_info]. *)
Definition id_and_info (info : gmap IngressId IngressInfo) (id : IngressId) : option Value :=
  VIngress id <$> info !! id.

(** [RecordWrapper]. *)
Definition record_value (f : RouteFilter) (info : gmap IngressId IngressInfo) (r : Rec)
  : option Value :=
  pa ← (match fields_path_attributes f with
        | Some _ => pamap_members (wanted_fields f) (r_meta r)
        | None => pamap_members (fun _ => true) (r_meta r)
        end);
  Some (VObject ([(str "status", status_value (r_status r));
                  (str "ingress", default VNull (id_and_info info (r_mui r)))] ++ pa)).

(** [Data], [RecordsWrapper], [PrefixRecordWrapper] and [RecordSetWrapper]. *)
Definition data_value (f : RouteFilter) (info : gmap IngressId IngressInfo) (nlri : option Prefix)
    (rs : list Rec) : option Value :=
  routes ← mapM (record_value f info) rs;
  Some (VObject [(str "nlri", from_option VPrefix VNull nlri); (str "routes", VArray routes)]).

Definition record_set_value (f : RouteFilter) (info : gmap IngressId IngressInfo)
    (set : list (PrefixRecord RotondaPaMap)) : option Value :=
  l ← mapM (fun pr => data_value f info (Some pr.1) pr.2) set;
  Some (VArray l).

(** A member that is left out when it is [None]. *)
Definition included_member (f : RouteFilter) (info : gmap IngressId IngressInfo) (name : rstring)
    (set : option (list (PrefixRecord RotondaPaMap))) : option (list (rstring * Value)) :=
  match set with
  | None => Some []
  | Some l => v ← record_set_value f info l; Some [(name, v)]
  end.

(** [Serialize for SearchResult]. *)
Definition search_value (sr : SearchResult) : option Value :=
  let f := query_filter sr in
  let q := query_result sr in
  data ← data_value f (ingress_info sr) (qr_prefix q) (qr_records q);
  more ← included_member f (ingress_info sr) (str "moreSpecifics") (qr_more_specifics q);
  less ← included_member f (ingress_info sr) (str "lessSpecifics") (qr_less_specifics q);
  Some (VObject [(str "meta", VNull); (str "data", data); (str "included", VObject (more ++ less))]).

(** ** Lines *)

(** [JsonlLine] and [JsonlLineFiltered]. *)
Definition line_value (f : RouteFilter) (info : gmap IngressId IngressInfo) (p : Prefix)
    (section : rstring) (r : Rec) : option Value :=
  pa ← (match fields_path_attributes f with
        | Some _ => pamap_members (wanted_fields f) (r_meta r)
        | None => pamap_members (fun _ => true) (r_meta r)
        end);
  Some (VObject ([(str "prefix", VPrefix p); (str "section", VStr section);
                  (str "status", status_value (r_status r))]
                 ++ match id_and_info info (r_mui r) with
                    | Some v => [(str "ingress", v)]
                    | None => []
                    end
                 ++ pa)).

(** What a line or a document is written to: a writer that takes a value and says
    whether that went well.  [None] of [Run] is a panic. *)
Context {W : Type} (put_line : Value -> W -> bool * W).

Definition write_line (v : option Value) : Run W bool :=
  fun w => match v with
           | None => (None, w)
           | Some v => let '(ok, w) := put_line v w in (Some ok, w)
           end.

(** [for x in xs { body(x)? }]. *)
Fixpoint run_while {S A} (xs : list A) (body : A -> Run S bool) : Run S bool :=
  match xs with
  | [] => mret true
  | x :: xs => ok ← body x; if ok : bool then run_while xs body else mret false
  end.

(** [write_jsonl_line], [write_jsonl_recordset] and [write_jsonl]. *)
Definition write_jsonl_line (sr : SearchResult) (p : Prefix) (section : rstring) (r : Rec)
  : Run W bool :=
  write_line (line_value (query_filter sr) (ingress_info sr) p section r).

Definition write_jsonl_recordset (sr : SearchResult) (set : list (PrefixRecord RotondaPaMap))
    (section : rstring) : Run W bool :=
  run_while set (fun pr => run_while pr.2 (write_jsonl_line sr pr.1 section)).

Definition write_jsonl (sr : SearchResult) : Run W bool :=
  let q := query_result sr in
  ok ← match qr_prefix q with
       | Some p => run_while (qr_records q) (write_jsonl_line sr p (str "data"))
       | None => mret true
       end;
  if negb ok then mret false else
  ok ← match qr_more_specifics q with
       | Some set => write_jsonl_recordset sr set (str "moreSpecifics")
       | None => mret true
       end;
  if negb ok then mret false else
  match qr_less_specifics q with
  | Some set => write_jsonl_recordset sr set (str "lessSpecifics")
  | None => mret true
  end.

(** ** The dump of an address family *)

(** The context of the script, the writer and the three counters. *)
Record Dumping : Type := mk_dumping {
  d_ctx : HttpCtx;
  d_out : W;
  prefixes_scanned : Z;
  prefixes_emitted : Z;
  records_emitted : Z
}.

Definition count_scanned (d : Dumping) : Dumping :=
  mk_dumping (d_ctx d) (d_out d) (prefixes_scanned d + 1) (prefixes_emitted d) (records_emitted d).
Definition count_prefix (d : Dumping) : Dumping :=
  mk_dumping (d_ctx d) (d_out d) (prefixes_scanned d) (prefixes_emitted d + 1) (records_emitted d).
Definition count_record (d : Dumping) : Dumping :=
  mk_dumping (d_ctx d) (d_out d) (prefixes_scanned d) (prefixes_emitted d) (records_emitted d + 1).

Definition on_ctx {A} (m : Run HttpCtx A) : Run Dumping A :=
  fun d => let '(a, c) := m (d_ctx d) in
           (a, mk_dumping c (d_out d) (prefixes_scanned d) (prefixes_emitted d) (records_emitted d)).
Definition on_out {A} (m : Run W A) : Run Dumping A :=
  fun d => let '(a, w) := m (d_out d) in
           (a, mk_dumping (d_ctx d) w (prefixes_scanned d) (prefixes_emitted d) (records_emitted d)).

(** [get_records_for_prefix] for a chunk: a key without records stays, a failure
    is passed over. *)
Definition fetch_any (s : Store RotondaPaMap) (p : Prefix) : option (PrefixRecord RotondaPaMap) :=
  match st_records_for_prefix p s with
  | inr (Some meta) => Some (p, meta)
  | inr None => Some (p, [])
  | inl _ => None
  end.

Definition fetch_batch (at_ : nat -> Store RotondaPaMap) (i : nat) (chunk : list Prefix)
  : list (PrefixRecord RotondaPaMap) :=
  omap (fun e => fetch_any (at_ (i + fst e)%nat) (snd e)) (zip (seq 0 (length chunk)) chunk).

#[local] Existing Instance not_withdrawn_dec.

(** The body of the loop over a batch. *)
Definition dump_prefix (f : RouteFilter) (g : option RotoHttpFilter)
    (info : gmap IngressId IngressInfo) (query_prefix : Prefix) (pr : PrefixRecord RotondaPaMap)
  : Run Dumping bool :=
  _ ← run_modify count_scanned;
  match filter not_withdrawn pr.2 with
  | [] => mret true
  | meta =>
      meta ← on_ctx (apply_filter f g info meta);
      match meta with
      | [] => mret true
      | meta =>
          _ ← run_modify count_prefix;
          let section := if bool_decide (pr.1 = query_prefix) then str "data"
                         else str "moreSpecifics" in
          run_while meta (fun r =>
            _ ← run_modify count_record;
            on_out (write_line (line_value f info pr.1 section r)))
      end
  end.

(** The loop over the chunks; [late] is as in [stream_loop]. *)
Fixpoint dump_loop (f : RouteFilter) (g : option RotoHttpFilter)
    (info : gmap IngressId IngressInfo) (query_prefix : Prefix)
    (at_ : nat -> Store RotondaPaMap) (late : nat -> bool) (cs : list (list Prefix)) (i : nat)
  : Run Dumping bool :=
  match cs with
  | [] => mret true
  | chunk :: cs =>
      ok ← run_while (fetch_batch at_ i chunk) (dump_prefix f g info query_prefix);
      if negb ok then mret false
      else if late i then mret true
      else dump_loop f g info query_prefix at_ late cs (i + length chunk)
  end.

(** [write_jsonl_stream_inner]. *)
Definition write_jsonl_stream_inner (afisafi : AfiSafiType) (query_prefix : Prefix)
    (f : RouteFilter) (at_ : nat -> Store RotondaPaMap) (late : nat -> bool) (r : Rib)
  : Run Dumping (SearchError + bool) :=
  match store_for afisafi r with
  | inl e => mret (inl e)
  | inr s =>
      let info := info (rib_register r) in
      match function_of f with
      | inl e => mret (inl e)
      | inr g =>
          let keys := st_keys_of (prefix_is_v4 query_prefix) s in
          ok ← dump_loop f g info query_prefix at_ late
                 (chunks (length keys) DUMP_KEY_CHUNK keys) 0;
          mret (inr ok)
      end
  end.

(** [write_jsonl_stream], with fresh counters, which it logs. *)
Definition write_jsonl_stream (afisafi : AfiSafiType) (query_prefix : Prefix)
    (f : RouteFilter) (at_ : nat -> Store RotondaPaMap) (late : nat -> bool) (r : Rib)
    (ctx : HttpCtx) (w : W) : option (SearchError + bool) * Dumping :=
  write_jsonl_stream_inner afisafi query_prefix f at_ late r (mk_dumping ctx w 0 0 0).

End Search.
