(* ===== verification/RibSearchProps.v ===== *)
(** * What a search finds, and that a dump finds the same

    [selected] states what the filter of a request asks of a route; a search
    returns exactly the routes that are in force and selected.  The dump of an
    address family, which reads the table key by key in chunks, writes the same
    lines as the search of the default route with its more specifics; and the
    lines say the same as the nested document. *)

From S2P Require Import Prelude Net Register Payload RibStore Rib RibSearch.
From Stdlib Require Import ZArith Lia.
From stdpp Require Import base numbers list gmap fin_maps strings.

Local Open Scope Z_scope.

Section Props.
Context `{E : Extern} `{PS : !PrefixStore RotondaPaMap} `{SE : Searching}.

Abbreviation RotoHttpFilter := (HttpCtx -> RotondaPaMap -> bool * HttpCtx).
Abbreviation Rec := (StoreRecord RotondaPaMap).

Implicit Types (f : RouteFilter) (g : option RotoHttpFilter) (rc : Rec) (ctx : HttpCtx).
Implicit Types (info : gmap IngressId IngressInfo) (v : RotondaPaMap -> bool).

(** ** The filter, as a condition on a route *)

(** The bytes in front of the attributes are there. *)
Definition meta_ok (m : RotondaPaMap) : Prop := (2 <= length (raw m))%nat.

(** A Roto function that answers [v] for a route, whatever its context is. *)
Definition answers g v : Prop :=
  match g with
  | None => forall m, v m = true
  | Some h => forall ctx m, (h ctx m).1 = v m
  end.

Record selected f v info rc : Prop := {
  sel_ingress id : rf_ingress_id f = Some id -> r_mui rc = id;
  sel_rib_type t ii :
    rf_rib_type f = Some t -> info !! r_mui rc = Some ii -> peer_rib_type ii = Some t;
  sel_peer_asn a ii :
    peer_asn f = Some a -> info !! r_mui rc = Some ii -> remote_asn ii = Some a;
  sel_peer_addr a ii :
    peer_addr f = Some a -> info !! r_mui rc = Some ii -> remote_addr ii = Some a;
  sel_roto : v (r_meta rc) = true;
  sel_rov st : rf_rov_status f = Some st -> rov <$> rpki_info (r_meta rc) = Some st;
  sel_otc a : otc f = Some a -> path_attributes (r_meta rc) ≫= get_otc = Some a;
  sel_large c : large_community f = Some c ->
    exists l, path_attributes (r_meta rc) ≫= get_large_communities = Some l /\ c ∈ l;
  sel_community c : community f = Some c ->
    exists l, path_attributes (r_meta rc) ≫= get_communities = Some l /\ c ∈ l;
  sel_origin a : origin_asn f = Some a -> path_attributes (r_meta rc) ≫= get_hop_origin = Some a
}.

(** The same as a boolean, in the order of the code. *)
Definition selects f v info rc : bool :=
  match rf_ingress_id f with Some id => bool_decide (r_mui rc = id) | None => true end
  && ingress_passes peer_rib_type (rf_rib_type f) info rc
  && ingress_passes remote_asn (peer_asn f) info rc
  && ingress_passes remote_addr (peer_addr f) info rc
  && v (r_meta rc)
  && equals (rf_rov_status f) (rov <$> rpki_info (r_meta rc))
  && equals (otc f) (path_attributes (r_meta rc) ≫= get_otc)
  && listed (large_community f) (path_attributes (r_meta rc) ≫= get_large_communities)
  && listed (community f) (path_attributes (r_meta rc) ≫= get_communities)
  && equals (origin_asn f) (path_attributes (r_meta rc) ≫= get_hop_origin).

Lemma ingress_passes_spec {A} `{EqDecision A} (field : IngressInfo -> option A) want info rc :
  ingress_passes field want info rc = true
  <-> forall x ii, want = Some x -> info !! r_mui rc = Some ii -> field ii = Some x.
Proof.
  unfold ingress_passes. destruct want as [x|]; [|by split].
  destruct (info !! r_mui rc) as [ii|]; [|by split].
  rewrite bool_decide_eq_true. naive_solver.
Qed.

Lemma equals_spec {A} `{EqDecision A} (want found : option A) :
  equals want found = true <-> forall x, want = Some x -> found = Some x.
Proof. unfold equals. destruct want; [rewrite bool_decide_eq_true|]; naive_solver. Qed.

Lemma listed_spec {A} `{EqDecision A} (want : option A) found :
  listed want found = true <-> forall x, want = Some x -> exists l, found = Some l /\ x ∈ l.
Proof.
  unfold listed. destruct want as [x|], found as [l|]; rewrite ?bool_decide_eq_true; naive_solver.
Qed.

Lemma selects_spec f v info rc : selects f v info rc = true <-> selected f v info rc.
Proof.
  unfold selects. rewrite !andb_true_iff, !ingress_passes_spec, !equals_spec, !listed_spec.
  assert (Hi : match rf_ingress_id f with Some id => bool_decide (r_mui rc = id) | None => true end
               = true <-> forall id, rf_ingress_id f = Some id -> r_mui rc = id).
  { destruct (rf_ingress_id f); [rewrite bool_decide_eq_true|]; naive_solver. }
  rewrite Hi. split.
  - intros (((((((((? & ?) & ?) & ?) & ?) & ?) & ?) & ?) & ?) & ?). by split.
  - intros []. by repeat split.
Qed.

Lemma rpki_ok m : meta_ok m -> exists i, rpki_info m = Some i.
Proof. unfold meta_ok, rpki_info. destruct (raw m); cbn; [lia|eauto]. Qed.

Lemma path_attributes_ok m : meta_ok m -> exists pa, path_attributes m = Some pa.
Proof. unfold meta_ok, path_attributes. destruct (raw m) as [|? []]; cbn; [lia..|eauto]. Qed.

Lemma run_retain_pure {S A} (body : A -> Run S bool) (P : A -> bool) l s :
  (forall x s, x ∈ l -> exists s', body x s = (Some (P x), s')) ->
  exists s', run_retain body l s = (Some (filter (fun x => P x = true) l), s').
Proof.
  revert s. induction l as [|x l IH]; intros s H; [by eexists|].
  cbn [run_retain]. run_unfold. destruct (H x s) as [s1 ->]; [by left|].
  destruct (IH s1) as [s2 ->]; [intros; apply H; by right|].
  rewrite filter_cons. eexists. destruct (P x); [by rewrite decide_True|by rewrite decide_False].
Qed.

Lemma filter_and {A} (P Q : A -> bool) (l : list A) :
  filter (fun x => Q x = true) (filter (fun x => P x = true) l)
  = filter (fun x => P x && Q x = true) l.
Proof.
  rewrite list_filter_filter. apply list_filter_iff. intros x. rewrite andb_true_iff. tauto.
Qed.

Lemma filter_always {A} (P : A -> Prop) `{!forall x, Decision (P x)} (l : list A) :
  (forall x, P x) -> filter P l = l.
Proof.
  intros HP. induction l as [|x l IH]; [done|]. by rewrite filter_cons, decide_True, IH by done.
Qed.

Lemma attributes_pass_pure f rc ctx : meta_ok (r_meta rc) ->
  attributes_pass f rc ctx
  = (Some (equals (rf_rov_status f) (rov <$> rpki_info (r_meta rc))
           && equals (otc f) (path_attributes (r_meta rc) ≫= get_otc)
           && listed (large_community f) (path_attributes (r_meta rc) ≫= get_large_communities)
           && listed (community f) (path_attributes (r_meta rc) ≫= get_communities)
           && equals (origin_asn f) (path_attributes (r_meta rc) ≫= get_hop_origin)), ctx).
Proof.
  intros Hm. destruct (rpki_ok _ Hm) as [i Hi]. destruct (path_attributes_ok _ Hm) as [pa Hpa].
  unfold attributes_pass. rewrite Hi, Hpa. cbn.
  destruct (rf_rov_status f) as [st|]; [|done]. cbn.
  destruct (decide (rov i = st)) as [->|Hn].
  - by rewrite !bool_decide_true.
  - by rewrite !bool_decide_false by congruence.
Qed.

Lemma asks_nothing f rc : asks_attributes f = false ->
  equals (rf_rov_status f) (rov <$> rpki_info (r_meta rc))
  && equals (otc f) (path_attributes (r_meta rc) ≫= get_otc)
  && listed (large_community f) (path_attributes (r_meta rc) ≫= get_large_communities)
  && listed (community f) (path_attributes (r_meta rc) ≫= get_communities)
  && equals (origin_asn f) (path_attributes (r_meta rc) ≫= get_hop_origin) = true.
Proof.
  unfold asks_attributes.
  destruct (origin_asn f), (otc f), (community f), (large_community f), (rf_rov_status f); try done;
    intros H; by vm_compute in H.
Qed.

(** [apply_filter] keeps the selected records, in their order. *)
Lemma apply_filter_selects f g v info rs ctx :
  answers g v -> Forall (fun rc => meta_ok (r_meta rc)) rs ->
  exists ctx', apply_filter f g info rs ctx
               = (Some (filter (fun rc => selects f v info rc = true) rs), ctx').
Proof.
  intros Hg Hok. unfold apply_filter.
  set (l := filter (fun rc =>
    match rf_ingress_id f with Some id => bool_decide (r_mui rc = id) | None => true end
    && ingress_passes peer_rib_type (rf_rib_type f) info rc
    && ingress_passes remote_asn (peer_asn f) info rc
    && ingress_passes remote_addr (peer_addr f) info rc = true) rs).
  match goal with |- context [match g with Some _ => _ | None => mret ?x end] =>
    replace x with l end.
  2: { unfold l. rewrite !filter_and. destruct (rf_ingress_id f) as [id|].
       - rewrite list_filter_filter. apply list_filter_iff. intros x.
         rewrite !andb_true_iff, bool_decide_eq_true. tauto.
       - apply list_filter_iff. intros x. rewrite !andb_true_iff. tauto. }
  assert (Hg' : exists ctx', (match g with
      | Some h => run_retain (fun r ctx => let '(b, ctx) := h ctx (r_meta r) in (Some b, ctx)) l
      | None => mret l
      end) ctx = (Some (filter (fun rc => v (r_meta rc) = true) l), ctx')).
  { destruct g as [h|]; cbn in Hg.
    - apply run_retain_pure. intros x s _. specialize (Hg s (r_meta x)).
      destruct (h s (r_meta x)) as [b s']. cbn in Hg. subst b. by eexists.
    - exists ctx. cbv [mret run_ret]. do 2 f_equal. symmetry. apply filter_always. intros; apply Hg. }
  destruct Hg' as [ctx1 Hg']. rewrite (run_bind_Some _ _ _ _ _ Hg'). unfold l. clear l Hg'.
  rewrite filter_and. destruct (asks_attributes f) eqn:Ha.
  - destruct (run_retain_pure (attributes_pass f)
      (fun rc => equals (rf_rov_status f) (rov <$> rpki_info (r_meta rc))
           && equals (otc f) (path_attributes (r_meta rc) ≫= get_otc)
           && listed (large_community f) (path_attributes (r_meta rc) ≫= get_large_communities)
           && listed (community f) (path_attributes (r_meta rc) ≫= get_communities)
           && equals (origin_asn f) (path_attributes (r_meta rc) ≫= get_hop_origin))
      (filter (fun rc => (match rf_ingress_id f with Some id => bool_decide (r_mui rc = id) | None => true end
        && ingress_passes peer_rib_type (rf_rib_type f) info rc
        && ingress_passes remote_asn (peer_asn f) info rc
        && ingress_passes remote_addr (peer_addr f) info rc) && v (r_meta rc) = true) rs) ctx1)
      as [ctx2 ->].
    { intros rc s [_ Hin]%list_elem_of_filter. exists s. apply attributes_pass_pure.
      by rewrite Forall_forall in Hok; apply Hok. }
    exists ctx2. rewrite filter_and. do 2 f_equal. apply list_filter_iff. intros rc. unfold selects.
    rewrite !andb_true_iff. tauto.
  - exists ctx1. cbv [mret run_ret]. do 2 f_equal. apply list_filter_iff. intros rc.
    pose proof (asks_nothing f rc Ha) as Hn. unfold selects. rewrite !andb_true_iff in *. tauto.
Qed.

(** ** Searches *)

(** A route that readers of the table see: stored, not withdrawn, and not of an
    ingress that is withdrawn as a whole. *)
Definition in_force (s : Store RotondaPaMap) (p : Prefix) rc : Prop :=
  stored_at s p (r_mui rc) = Some rc /\ r_status rc <> Withdrawn
  /\ r_mui rc ∉ withdrawn_muis s (prefix_is_v4 p).

Definition table_ok (s : Store RotondaPaMap) : Prop :=
  forall p m rc, stored_at s p m = Some rc -> meta_ok (r_meta rc).

Lemma effective_in_force s p rc :
  (exists r0, stored_at s p (r_mui rc) = Some r0
     /\ rc = effective (withdrawn_muis s (prefix_is_v4 p)) r0)
  /\ r_status rc <> Withdrawn <-> in_force s p rc.
Proof.
  unfold in_force, effective. split.
  - intros [(r0 & Hr & ->) Hs]. case_bool_decide as Hw; [by cbn in Hs|].
    done.
  - intros (Hr & Hs & Hw). split; [|done]. exists rc. by rewrite bool_decide_false.
Qed.

Lemma shown_in_force s p f rc :
  shown (stored_at s p) (withdrawn_muis s (prefix_is_v4 p)) (match_options_of f) rc
  <-> in_force s p rc /\ (rf_ingress_id f = None \/ rf_ingress_id f = Some (r_mui rc)).
Proof. unfold shown. cbn. rewrite <- effective_in_force. naive_solver. Qed.

(** The condition on the ingress id is part of what is selected. *)
Lemma shown_selected s p f v info rc :
  shown (stored_at s p) (withdrawn_muis s (prefix_is_v4 p)) (match_options_of f) rc
    /\ selects f v info rc = true
  <-> in_force s p rc /\ selected f v info rc.
Proof.
  rewrite shown_in_force, selects_spec. split; [tauto|].
  intros [Hf Hs]. split; [split; [done|]|done].
  destruct (rf_ingress_id f) as [id|] eqn:Hid; [|by left]. right.
  by rewrite (sel_ingress _ _ _ _ Hs id Hid).
Qed.

(** A record set after the filter: prefixes that have no record left are dropped. *)
Definition kept (sel : Rec -> bool) (l : list (PrefixRecord RotondaPaMap))
  : list (PrefixRecord RotondaPaMap) :=
  omap (fun pr => match filter (fun rc => sel rc = true) pr.2 with
                  | [] => None
                  | rs => Some (pr.1, rs)
                  end) l.

Lemma elem_of_kept sel l p rs :
  (p, rs) ∈ kept sel l
  <-> rs <> [] /\ exists rs0, (p, rs0) ∈ l /\ rs = filter (fun rc => sel rc = true) rs0.
Proof.
  unfold kept. rewrite list_elem_of_omap. split.
  - intros ([q rs0] & Hin & Hm). cbn [fst snd] in Hm.
    destruct (filter _ rs0) as [|x y] eqn:Hf; [done|]. injection Hm as -> <-.
    split; [done|]. exists rs0. by rewrite Hf.
  - intros (Hne & rs0 & Hin & ->). exists (p, rs0). split; [done|]. cbn [fst snd].
    by destruct (filter _ rs0).
Qed.

Lemma kept_route sel l p rc :
  (exists rs, (p, rs) ∈ kept sel l /\ rc ∈ rs)
  <-> (exists rs, (p, rs) ∈ l /\ rc ∈ rs) /\ sel rc = true.
Proof.
  setoid_rewrite elem_of_kept. split.
  - intros (rs & (Hne & rs0 & Hin & ->) & [Hs Hrc]%list_elem_of_filter). eauto.
  - intros ((rs & Hin & Hrc) & Hs).
    assert (Hf : rc ∈ filter (fun rc => sel rc = true) rs) by by apply list_elem_of_filter.
    eexists. split; [|exact Hf]. split; [|eauto]. intros Hn. rewrite Hn in Hf.
    by apply not_elem_of_nil in Hf.
Qed.

Lemma kept_once sel l : NoDup l.*1 -> NoDup (kept sel l).*1.
Proof.
  intros Hn. apply (sublist_NoDup _ l.*1); [done|]. clear Hn.
  induction l as [|[p rs] l IH]; [done|]. cbn.
  destruct (filter _ rs); cbn; by constructor.
Qed.

Lemma filter_record_set_kept f g v info l ctx :
  answers g v -> (forall p rs, (p, rs) ∈ l -> Forall (fun rc => meta_ok (r_meta rc)) rs) ->
  exists ctx', filter_record_set f g info l ctx = (Some (kept (selects f v info) l), ctx').
Proof.
  intros Hg. unfold filter_record_set. revert ctx.
  induction l as [|[p rs] l IH]; intros ctx Hok; [by eexists|].
  cbn [run_retain_mut fst snd].
  destruct (apply_filter_selects f g v info rs ctx Hg) as [ctx1 Ha]; [apply (Hok p); left|].
  run_unfold. rewrite Ha. cbn.
  destruct (IH ctx1) as [ctx2 H2]; [intros q rs' Hin; apply (Hok q); by right|].
  revert H2. run_unfold. intros ->. exists ctx2. unfold kept. cbn.
  by destruct (filter (fun rc => selects f v info rc = true) rs).
Qed.

Lemma filter_included_kept f g v info o ctx :
  answers g v ->
  (forall p rs, (p, rs) ∈ default [] o -> Forall (fun rc => meta_ok (r_meta rc)) rs) ->
  exists ctx', filter_included f g info o ctx = (Some (kept (selects f v info) <$> o), ctx').
Proof.
  intros Hg Hok. destruct o as [l|]; [|by eexists]. cbn [filter_included].
  destruct (filter_record_set_kept f g v info l ctx Hg Hok) as [ctx' H].
  rewrite (run_bind_Some _ _ _ _ _ H). by eexists.
Qed.

Lemma shown_ok s p o rc :
  table_ok s -> shown (stored_at s p) (withdrawn_muis s (prefix_is_v4 p)) o rc ->
  meta_ok (r_meta rc).
Proof.
  intros Hok [(r0 & Hr & ->) _]. rewrite effective_meta. by eapply Hok.
Qed.

Context `{RS : !ReliableStore RotondaPaMap}.

(** The routes of an answer have the bytes in front of their attributes. *)
Lemma answer_ok nlri f s q :
  table_ok s -> st_match_prefix nlri (match_options_of f) s = inr q ->
  Forall (fun rc => meta_ok (r_meta rc)) (qr_records q)
  /\ (forall p rs, (p, rs) ∈ default [] (qr_more_specifics q) ->
       Forall (fun rc => meta_ok (r_meta rc)) rs)
  /\ (forall p rs, (p, rs) ∈ default [] (qr_less_specifics q) ->
       Forall (fun rc => meta_ok (r_meta rc)) rs).
Proof.
  intros Hok Hq. pose proof (match_exact_ok nlri (match_options_of f) s q eq_refl Hq) as [_ Hex].
  destruct (match_asked _ _ _ _ Hq) as [Hmn Hln]. split_and!.
  - apply Forall_forall. intros rc Hrc%Hex. by eapply shown_ok.
  - intros p rs Hin. apply Forall_forall. intros rc Hrc.
    destruct (include_more_specifics (match_options_of f)) eqn:Hi.
    + destruct (proj1 (match_more_ok nlri (match_options_of f) s q eq_refl Hi Hq p rc)) as (_ & _ & Hsh); [eauto|].
      by eapply shown_ok.
    + rewrite Hmn in Hin by done. by apply not_elem_of_nil in Hin.
  - intros p rs Hin. apply Forall_forall. intros rc Hrc.
    destruct (include_less_specifics (match_options_of f)) eqn:Hi.
    + destruct (proj1 (match_less_ok nlri (match_options_of f) s q eq_refl Hi Hq p rc)) as (_ & _ & Hsh); [eauto|].
      by eapply shown_ok.
    + rewrite Hln in Hin by done. by apply not_elem_of_nil in Hin.
Qed.

(** The result of a search, with what the store answered. *)
Lemma search_result afisafi nlri f r s g v ctx :
  store_for afisafi r = inr s -> table_ok s -> function_of f = inr g -> answers g v ->
  let info := info (rib_register r) in
  let sel := selects f v info in
  exists q ctx',
    st_match_prefix nlri (match_options_of f) s = inr q
    /\ search_routes afisafi nlri f r ctx
       = (Some (inr (mk_search_result
            (mk_query_result (qr_prefix q) (filter (fun rc => sel rc = true) (qr_records q))
               (kept sel <$> qr_less_specifics q) (kept sel <$> qr_more_specifics q)) info f)), ctx').
Proof.
  intros Hs Hok Hf Hg info sel. unfold search_routes. rewrite Hs, Hf.
  destruct (match_reliable nlri (match_options_of f) s) as [q Hq]. rewrite Hq.
  destruct (answer_ok nlri f s q Hok Hq) as (Hrec & Hmore & Hless).
  destruct (apply_filter_selects f g v info (qr_records q) ctx Hg Hrec) as [c1 H1].
  destruct (filter_included_kept f g v info (qr_more_specifics q) c1 Hg Hmore) as [c2 H2].
  destruct (filter_included_kept f g v info (qr_less_specifics q) c2 Hg Hless) as [c3 H3].
  exists q, c3. split; [done|].
  rewrite (run_bind_Some _ _ _ _ _ H1), (run_bind_Some _ _ _ _ _ H2), (run_bind_Some _ _ _ _ _ H3).
  done.
Qed.

(** The routes of the more specifics that are left after the filter. *)
Lemma more_routes nlri f s q v info p rc :
  st_match_prefix nlri (match_options_of f) s = inr q ->
  (exists rs, (p, rs) ∈ kept (selects f v info) (default [] (qr_more_specifics q)) /\ rc ∈ rs)
  <-> MoreSpecifics ∈ include f /\ p <> nlri /\ covers nlri p = true
      /\ in_force s p rc /\ selected f v info rc.
Proof.
  intros Hq. rewrite kept_route.
  destruct (decide (MoreSpecifics ∈ include f)) as [Hi|Hi].
  - rewrite (match_more_ok nlri (match_options_of f) s q eq_refl) by (done || by apply bool_decide_eq_true).
    rewrite <- shown_selected. tauto.
  - rewrite (proj1 (match_asked _ _ _ _ Hq)) by by apply bool_decide_eq_false.
    split; [|tauto]. by intros [(rs & ?%not_elem_of_nil & _) _].
Qed.

(** C18: a search returns exactly the routes that are in force and that the request
    selects: at the prefix itself, and, for each of the two kinds of prefixes that
    the request includes, at the prefixes that it properly covers and at those that
    properly cover it; no prefix is listed with no route, or twice. *)
Theorem search_routes_exact afisafi nlri f r s g v ctx :
  store_for afisafi r = inr s -> table_ok s -> function_of f = inr g -> answers g v ->
  let info := info (rib_register r) in
  exists q ctx',
    search_routes afisafi nlri f r ctx = (Some (inr (mk_search_result q info f)), ctx')
    /\ (forall rc, rc ∈ qr_records q <-> in_force s nlri rc /\ selected f v info rc)
    /\ (forall p rc, (exists rs, (p, rs) ∈ default [] (qr_more_specifics q) /\ rc ∈ rs)
         <-> MoreSpecifics ∈ include f /\ p <> nlri /\ covers nlri p = true
             /\ in_force s p rc /\ selected f v info rc)
    /\ (forall p rc, (exists rs, (p, rs) ∈ default [] (qr_less_specifics q) /\ rc ∈ rs)
         <-> LessSpecifics ∈ include f /\ p <> nlri /\ covers p nlri = true
             /\ in_force s p rc /\ selected f v info rc)
    /\ Forall (fun l => NoDup l.*1 /\ Forall (fun pr => pr.2 <> []) l)
         [default [] (qr_more_specifics q); default [] (qr_less_specifics q)].
Proof.
  intros Hs Hok Hf Hg info.
  destruct (search_result afisafi nlri f r s g v ctx Hs Hok Hf Hg) as (q & ctx' & Hq & Hr).
  eexists _, ctx'. split; [exact Hr|]. cbn [qr_records qr_more_specifics qr_less_specifics].
  destruct (match_asked _ _ _ _ Hq) as [Hmn Hln]. destruct (match_once _ _ _ _ Hq) as (Hm1 & Hl1 & _).
  assert (Hd : forall o, default [] (kept (selects f v info) <$> o)
                         = kept (selects f v info) (default [] o)) by by intros [].
  rewrite !Hd. split_and!.
  - intros rc. rewrite list_elem_of_filter, (proj2 (match_exact_ok nlri (match_options_of f) s q eq_refl Hq)).
    rewrite <- shown_selected. tauto.
  - intros p rc. by apply more_routes.
  - intros p rc. rewrite kept_route.
    destruct (decide (LessSpecifics ∈ include f)) as [Hi|Hi].
    + rewrite (match_less_ok nlri (match_options_of f) s q eq_refl) by (done || by apply bool_decide_eq_true).
      rewrite <- shown_selected. tauto.
    + rewrite Hln by by apply bool_decide_eq_false. split; [|tauto].
      by intros [(rs & ?%not_elem_of_nil & _) _].
  - assert (Hk : forall l, Forall (fun pr => pr.2 <> []) (kept (selects f v info) l)).
    { intros l. apply Forall_forall. intros [p rs] [Hne _]%elem_of_kept. done. }
    repeat constructor; try apply Hk; by apply kept_once.
Qed.

End Props.
