(* ===== verification/RibLines.v ===== *)
(** * The lines of a dump and of a search

    The dump of an address family and the search of its default route write the
    same lines; a document and the lines of the same result say the same. *)

From S2P Require Import Prelude Net Register Payload RibStore Rib RibProps RibSearch RibSearchProps.
From Stdlib Require Import ZArith Lia.
From stdpp Require Import base numbers list gmap fin_maps strings.

Local Open Scope Z_scope.

Section Lines.
Context `{E : Extern} `{PS : !PrefixStore RotondaPaMap} `{SE : Searching}.

Abbreviation RotoHttpFilter := (HttpCtx -> RotondaPaMap -> bool * HttpCtx).
Abbreviation Rec := (StoreRecord RotondaPaMap).

Implicit Types (f : RouteFilter) (g : option RotoHttpFilter) (rc : Rec) (ctx : HttpCtx).
Implicit Types (info : gmap IngressId IngressInfo) (v : RotondaPaMap -> bool).

(** A writer that keeps what it is given. *)
Definition keep_line (x : Value) (w : list Value) : bool * list Value := (true, w ++ [x]).

(** ** Routes with their prefixes *)
Definition pairs (l : list (PrefixRecord RotondaPaMap)) : list (Prefix * Rec) :=
  l ≫= fun pr => pair pr.1 <$> pr.2.

Lemma elem_of_pairs l p rc : (p, rc) ∈ pairs l <-> exists rs, (p, rs) ∈ l /\ rc ∈ rs.
Proof.
  unfold pairs. rewrite list_elem_of_bind. split.
  - intros ([q rs] & (rc' & [= -> ->] & Hrc)%list_elem_of_fmap & Hin). eauto.
  - intros (rs & Hin & Hrc). exists (p, rs). split; [|done]. apply list_elem_of_fmap. eauto.
Qed.

Lemma pairs_cons pr l : pairs (pr :: l) = (pair pr.1 <$> pr.2) ++ pairs l.
Proof. unfold pairs. by rewrite bind_cons. Qed.

Lemma pairs_app l k : pairs (l ++ k) = pairs l ++ pairs k.
Proof. unfold pairs. by rewrite bind_app. Qed.

Lemma pairs_once l :
  NoDup l.*1 -> (forall p rs, (p, rs) ∈ l -> NoDup rs) -> NoDup (pairs l).
Proof.
  induction l as [|[p rs] l IH]; intros Hn Hr; [constructor|].
  apply NoDup_cons in Hn as [Hp Hn]. unfold pairs. cbn. apply NoDup_app. split_and!.
  - apply NoDup_fmap_2; [by intros ?? [=]|]. apply (Hr p). left.
  - intros [q rc] (rc' & [= -> ->] & _)%list_elem_of_fmap Hin.
    change ((p, rc') ∈ pairs l) in Hin. apply elem_of_pairs in Hin as (rs' & Hin & _).
    apply Hp, list_elem_of_fmap. by exists (p, rs').
  - apply IH; [done|]. intros q rs' Hin. apply (Hr q). by right.
Qed.

Lemma mui_once (rs : list Rec) : NoDup (r_mui <$> rs) -> NoDup rs.
Proof. apply NoDup_fmap_1. Qed.

(** ** Lines *)

Definition section_of (nlri p : Prefix) : rstring :=
  if bool_decide (p = nlri) then str "data" else str "moreSpecifics".

Definition line f info (section : Prefix -> rstring) (e : Prefix * Rec) : Value :=
  default VNull (line_value f info e.1 (section e.1) e.2).

Lemma members_ok wanted m : meta_ok m -> exists l, pamap_members wanted m = Some l.
Proof.
  intros Hm. unfold pamap_members. destruct (rpki_ok _ Hm) as [i ->].
  destruct (path_attributes_ok _ Hm) as [pa ->]. by eexists.
Qed.

Lemma line_value_ok f info p section rc : meta_ok (r_meta rc) ->
  line_value f info p section rc = Some (default VNull (line_value f info p section rc)).
Proof.
  intros Hm. unfold line_value.
  destruct (fields_path_attributes f); cbn;
    (destruct (members_ok (wanted_fields f) (r_meta rc) Hm) as [? ->]
     || destruct (members_ok (fun _ => true) (r_meta rc) Hm) as [? ->]); done.
Qed.

(** One line after the other, until the writer fails. *)
Fixpoint put_all {W} (put : Value -> W -> bool * W) (l : list Value) (w : W) : bool * W :=
  match l with
  | [] => (true, w)
  | x :: l => let '(ok, w) := put x w in if ok then put_all put l w else (false, w)
  end.

Lemma put_all_app {W} (put : Value -> W -> bool * W) l k w :
  put_all put (l ++ k) w
  = let '(ok, w) := put_all put l w in if ok : bool then put_all put k w else (false, w).
Proof.
  revert w. induction l as [|x l IH]; intros w; [done|]. cbn.
  by destruct (put x w) as [[] w'].
Qed.

Lemma put_all_keep l w : put_all keep_line l w = (true, w ++ l).
Proof.
  revert w. induction l as [|x l IH]; intros w; cbn; [by rewrite app_nil_r|].
  by rewrite IH, <- app_assoc.
Qed.

Lemma fmap_pairs {A} (h : Prefix * Rec -> A) l :
  l ≫= (fun pr => h <$> (pair pr.1 <$> pr.2)) = h <$> pairs l.
Proof.
  unfold pairs. induction l as [|pr l IH]; [done|]. cbn. by rewrite fmap_app, IH.
Qed.

Lemma bind_singleton {A B} (h : A -> B) l : (l ≫= fun x => [h x]) = h <$> l.
Proof. induction l as [|x l IH]; [done|]. cbn. by rewrite IH. Qed.

(** What [write_jsonl] writes for a result. *)
Definition result_lines (sr : SearchResult) : list Value :=
  let q := query_result sr in
  let ln section := line (query_filter sr) (ingress_info sr) (fun _ => section) in
  match qr_prefix q with
  | Some p => ln (str "data") <$> (pair p <$> qr_records q)
  | None => []
  end
  ++ (ln (str "moreSpecifics") <$> pairs (default [] (qr_more_specifics q)))
  ++ (ln (str "lessSpecifics") <$> pairs (default [] (qr_less_specifics q))).

Definition result_ok (q : QueryResult RotondaPaMap) : Prop :=
  Forall (fun rc => meta_ok (r_meta rc)) (qr_records q)
  /\ forall p rs, (p, rs) ∈ default [] (qr_more_specifics q) ++ default [] (qr_less_specifics q) ->
       Forall (fun rc => meta_ok (r_meta rc)) rs.

#[local] Existing Instance not_withdrawn_dec.

(** The routes of a prefix that a dump writes. *)
Definition dumped f v info (pr : PrefixRecord RotondaPaMap) : PrefixRecord RotondaPaMap :=
  (pr.1, filter (fun rc => selects f v info rc = true) (filter not_withdrawn pr.2)).

(** The lines of the routes under these keys. *)
Definition dump_lines f v info nlri s (ks : list Prefix) : list Value :=
  line f info (section_of nlri) <$> pairs (dumped f v info <$> omap (fetch_any s) ks).

(** The keys that a dump gets to: those of the chunks up to the first one that ends
    after the deadline. *)
Fixpoint read_keys (late : nat -> bool) (cs : list (list Prefix)) (i : nat) : list Prefix :=
  match cs with
  | [] => []
  | chunk :: cs => chunk ++ if late i then [] else read_keys late cs (i + length chunk)
  end.

Definition dump_reads (late : nat -> bool) (keys : list Prefix) : list Prefix :=
  read_keys late (chunks (length keys) DUMP_KEY_CHUNK keys) 0.

Lemma read_keys_prefix late cs i : read_keys late cs i `prefix_of` concat cs.
Proof.
  revert i. induction cs as [|chunk cs IH]; intros i; [done|]. cbn.
  apply prefix_app. destruct (late i); [apply prefix_nil|apply IH].
Qed.

Lemma read_keys_all late cs i : (forall j, late j = false) -> read_keys late cs i = concat cs.
Proof.
  intros Hl. revert i. induction cs as [|chunk cs IH]; intros i; [done|]. cbn.
  by rewrite Hl, IH.
Qed.

(** A dump reads the keys in their order; all of them when the deadline never passes,
    and in any case the first chunk. *)
Lemma dump_reads_spec late keys :
  dump_reads late keys `prefix_of` keys
  /\ ((forall j, late j = false) -> dump_reads late keys = keys)
  /\ take DUMP_KEY_CHUNK keys `prefix_of` dump_reads late keys.
Proof.
  assert (Hcc : concat (chunks (length keys) DUMP_KEY_CHUNK keys) = keys)
    by (apply concat_chunks; [done|cbv; lia]).
  split_and!; unfold dump_reads.
  - pose proof (read_keys_prefix late (chunks (length keys) DUMP_KEY_CHUNK keys) 0) as H.
    by rewrite Hcc in H.
  - intros Hl. by rewrite read_keys_all.
  - destruct keys as [|p keys]; [apply prefix_nil|]. cbn [length chunks read_keys].
    by apply prefix_app_r.
Qed.

Section Writer.
Context {W : Type} (put : Value -> W -> bool * W).

Definition puts (l : list Value) : Run W bool :=
  fun w => let '(ok, w) := put_all put l w in (Some ok, w).

Lemma run_while_puts {A} (body : A -> Run W bool) (L : A -> list Value) xs w :
  (forall x w, x ∈ xs -> body x w = puts (L x) w) ->
  run_while xs body w = puts (xs ≫= L) w.
Proof.
  revert w. induction xs as [|x xs IH]; intros w Hb; [done|].
  cbn [run_while]. run_unfold. rewrite Hb by left. rewrite bind_cons. unfold puts.
  rewrite put_all_app. destruct (put_all put (L x) w) as [[] w']; [|done].
  apply IH. intros y w2 Hy. apply Hb. by right.
Qed.

Lemma record_lines sr p section (rs : list Rec) w :
  Forall (fun rc => meta_ok (r_meta rc)) rs ->
  run_while rs (write_jsonl_line put sr p section) w
  = puts (line (query_filter sr) (ingress_info sr) (fun _ => section) <$> (pair p <$> rs)) w.
Proof.
  intros Hok. rewrite (run_while_puts _
    (fun rc => [line (query_filter sr) (ingress_info sr) (fun _ => section) (p, rc)])).
  - by rewrite bind_singleton, <- list_fmap_compose.
  - intros rc w' Hin. unfold write_jsonl_line, write_line, puts. rewrite Forall_forall in Hok.
    rewrite line_value_ok by by apply Hok. cbn. unfold line. cbn [fst snd].
    by destruct (put _ w') as [[] w2].
Qed.

Lemma set_lines sr section l w :
  (forall p rs, (p, rs) ∈ l -> Forall (fun rc => meta_ok (r_meta rc)) rs) ->
  write_jsonl_recordset put sr l section w
  = puts (line (query_filter sr) (ingress_info sr) (fun _ => section) <$> pairs l) w.
Proof.
  intros Hok. unfold write_jsonl_recordset. rewrite (run_while_puts _ (fun pr =>
    line (query_filter sr) (ingress_info sr) (fun _ => section) <$> (pair pr.1 <$> pr.2))).
  - by rewrite fmap_pairs.
  - intros [p rs] w' Hin. apply record_lines. by eapply Hok.
Qed.

Lemma puts_then l k (m m' : Run W bool) w :
  m w = puts l w -> (forall w', m' w' = puts k w') ->
  (ok ← m; if negb ok then mret false else m') w = puts (l ++ k) w.
Proof.
  intros Hm Hk. unfold puts in *. rewrite put_all_app. run_unfold. rewrite Hm.
  destruct (put_all put l w) as [[] w1]; cbn [negb]; [apply Hk|done].
Qed.

Lemma write_jsonl_puts sr w :
  result_ok (query_result sr) -> write_jsonl put sr w = puts (result_lines sr) w.
Proof.
  intros [Hrec Hset]. setoid_rewrite elem_of_app in Hset.
  assert (H1 : (match qr_prefix (query_result sr) with
      | Some p => run_while (qr_records (query_result sr)) (write_jsonl_line put sr p (str "data"))
      | None => mret true
      end) w = puts (match qr_prefix (query_result sr) with
        | Some p => line (query_filter sr) (ingress_info sr) (fun _ => str "data")
                      <$> (pair p <$> qr_records (query_result sr))
        | None => []
        end) w)
    by (destruct (qr_prefix (query_result sr)); [by apply record_lines|done]).
  assert (H2 : forall o sec w, (forall p rs, (p, rs) ∈ default [] o ->
        Forall (fun rc => meta_ok (r_meta rc)) rs) ->
      (match o with Some set => write_jsonl_recordset put sr set sec | None => mret true end) w
      = puts (line (query_filter sr) (ingress_info sr) (fun _ => sec) <$> pairs (default [] o)) w)
    by (intros [l|] sec w' Ho; [by apply set_lines|done]).
  unfold write_jsonl, result_lines. apply puts_then; [exact H1|]. intros w1.
  apply puts_then; [by apply H2; eauto|]. intros w2. apply H2; eauto.
Qed.

(** ** The dump *)

Abbreviation Dump := (@Dumping SE W).

(** A step of a dump that writes these lines. *)
Definition wrote (l : list Value) (d : Dump) (res : option bool * Dump) : Prop :=
  exists ok d', res = (Some ok, d') /\ put_all put l (d_out d) = (ok, d_out d')
    /\ (ok = true -> records_emitted d' = records_emitted d + zlen l).

Lemma wrote_nothing d d' :
  d_out d' = d_out d -> records_emitted d' = records_emitted d -> wrote [] d (Some true, d').
Proof.
  intros Ho Hr. exists true, d'. split_and!; [done|by rewrite Ho|].
  intros _. rewrite Hr. unfold zlen. cbn. lia.
Qed.

Lemma wrote_app l k d (m : Run Dump bool) (m' : Run Dump bool) :
  wrote l d (m d) -> (forall d1, wrote k d1 (m' d1)) ->
  wrote (l ++ k) d ((ok ← m; if ok : bool then m' else mret false) d).
Proof.
  intros (ok & d1 & Hm & Hp & Hr) Hk. rewrite (run_bind_Some _ _ _ _ _ Hm).
  unfold wrote. rewrite put_all_app, Hp. destruct ok.
  - destruct (Hk d1) as (ok2 & d2 & -> & Hp2 & Hr2). exists ok2, d2. split_and!; [done|done|].
    intros H2. rewrite Hr2, Hr, zlen_app by done. lia.
  - exists false, d1. done.
Qed.

Lemma run_while_dumps {A} (body : A -> Run Dump bool) (L : A -> list Value) xs d :
  (forall x d, x ∈ xs -> wrote (L x) d (body x d)) -> wrote (xs ≫= L) d (run_while xs body d).
Proof.
  revert d. induction xs as [|x xs IH]; intros d Hb; [by apply wrote_nothing|].
  rewrite bind_cons. cbn [run_while]. apply wrote_app; [apply Hb; left|].
  intros d1. apply IH. intros y d2 Hy. apply Hb. by right.
Qed.

Lemma dump_prefix_lines f g v info nlri pr d :
  answers g v -> Forall (fun rc => meta_ok (r_meta rc)) pr.2 ->
  wrote (line f info (section_of nlri) <$> pairs [dumped f v info pr]) d
    (dump_prefix put f g info nlri pr d).
Proof.
  intros Hg Hok. unfold dump_prefix, dumped, pairs. run_unfold. cbn [fst snd].
  assert (Hnw : Forall (fun rc => meta_ok (r_meta rc)) (filter not_withdrawn pr.2)).
  { apply Forall_forall. intros rc [_ Hin]%list_elem_of_filter. by rewrite Forall_forall in Hok; apply Hok. }
  destruct (apply_filter_selects f g v info (filter not_withdrawn pr.2) (d_ctx d) Hg Hnw) as [c Ha].
  destruct (filter not_withdrawn pr.2) as [|r0 rs0] eqn:Hf; [by apply wrote_nothing|].
  rewrite <- Hf in *. unfold on_ctx at 1. cbn [d_ctx count_scanned]. rewrite Ha.
  set (kept := filter (fun rc => selects f v info rc = true) (filter not_withdrawn pr.2)) in *.
  assert (Hk : Forall (fun rc => meta_ok (r_meta rc)) kept).
  { apply Forall_forall. intros rc [_ Hin]%list_elem_of_filter. by rewrite Forall_forall in Hnw; apply Hnw. }
  destruct kept as [|r1 rs1] eqn:Hkept; [by apply wrote_nothing|].
  rewrite <- Hkept in *. cbn [mbind list_bind app]. rewrite app_nil_r, <- list_fmap_compose, <- bind_singleton.
  match goal with |- wrote ?l d (run_while kept ?b ?d0) => enough (Hw : wrote l d0 (run_while kept b d0)) end.
  { exact Hw. }
  apply run_while_dumps. intros rc d0 Hin. unfold on_out, write_line. rewrite Forall_forall in Hk.
  rewrite line_value_ok by by apply Hk. unfold wrote, line. cbn [put_all count_record d_out compose fst snd].
  destruct (put _ (d_out d0)) as [ok w]. exists ok. eexists. split; [done|].
  cbn. by destruct ok.
Qed.

Lemma fetch_batch_same s i chunk :
  fetch_batch (fun _ => s) i chunk = omap (fetch_any s) chunk.
Proof.
  unfold fetch_batch. generalize 0%nat. induction chunk as [|p chunk IH]; intros n; [done|].
  cbn. by rewrite IH.
Qed.

Lemma dump_loop_lines f g v info nlri s late cs i d :
  answers g v -> (forall p rs, (p, rs) ∈ omap (fetch_any s) (read_keys late cs i) ->
                    Forall (fun rc => meta_ok (r_meta rc)) rs) ->
  wrote (dump_lines f v info nlri s (read_keys late cs i)) d
    (dump_loop put f g info nlri (fun _ => s) late cs i d).
Proof.
  intros Hg. revert i d. induction cs as [|chunk cs IH]; intros i d Hok; [by apply wrote_nothing|].
  unfold dump_lines in *. cbn [dump_loop read_keys] in *. rewrite omap_app in *. rewrite fmap_app, pairs_app, fmap_app.
  assert (Hb : line f info (section_of nlri) <$> pairs (dumped f v info <$> omap (fetch_any s) chunk)
    = omap (fetch_any s) chunk
        ≫= (fun pr => line f info (section_of nlri) <$> pairs [dumped f v info pr])).
  { clear. induction (omap (fetch_any s) chunk) as [|pr l IH]; [done|].
    rewrite bind_cons, <- IH, fmap_cons, !pairs_cons. change (pairs []) with (@nil (Prefix * Rec)).
    by rewrite app_nil_r, fmap_app. }
  rewrite Hb. clear Hb.
  match goal with |- wrote _ _ (?m d) =>
    replace (m d) with ((ok ← run_while (fetch_batch (fun _ => s) i chunk)
      (dump_prefix put f g info nlri); if ok : bool then (if late i then mret true
      else dump_loop put f g info nlri (fun _ => s) late cs (i + length chunk)) else mret false) d) end.
  2: { run_unfold. by destruct (run_while _ _ d) as [[[]|] d1]. }
  apply wrote_app.
  - rewrite fetch_batch_same. apply run_while_dumps. intros [p rs] d0 Hin.
    apply dump_prefix_lines; [done|]. apply (Hok p). by apply elem_of_app; left.
  - intros d1. destruct (late i); [by apply wrote_nothing|].
    apply IH. intros p rs Hin. apply (Hok p). by apply elem_of_app; right.
Qed.

End Writer.

Context `{RS : !ReliableStore RotondaPaMap}.

Lemma fetch_any_spec s p : table_ok s ->
  exists rs, fetch_any s p = Some (p, rs) /\ NoDup (r_mui <$> rs)
    /\ (forall rc, rc ∈ filter not_withdrawn rs <-> in_force s p rc)
    /\ Forall (fun rc => meta_ok (r_meta rc)) rs.
Proof.
  intros Hok. unfold fetch_any. destruct (records_reliable p s) as [o Ho]. rewrite Ho.
  destruct o as [rs|].
  - apply records_ok in Ho as [Hnd Hl]. exists rs. split_and!; [done|done| |].
    + intros rc. rewrite list_elem_of_filter, Hl, <- effective_in_force. unfold not_withdrawn. tauto.
    + apply Forall_forall. intros rc (r0 & Hr & ->)%Hl. rewrite effective_meta. by eapply Hok.
  - exists []. split_and!; [done|constructor| |constructor].
    intros rc. split; [by intros ?%not_elem_of_nil|]. intros [Hr _].
    by rewrite (records_none _ _ _ Ho) in Hr.
Qed.

Lemma elem_of_fetched s (keys : list Prefix) p rs :
  table_ok s -> (p, rs) ∈ omap (fetch_any s) keys <-> p ∈ keys /\ fetch_any s p = Some (p, rs).
Proof.
  intros Hok. rewrite list_elem_of_omap. split.
  - intros (q & Hq & Hf). destruct (fetch_any_spec s q Hok) as (rs' & Hf' & _). naive_solver.
  - intros [Hp Hf]. eauto.
Qed.

Lemma fetched_once s (keys : list Prefix) : table_ok s -> NoDup keys -> NoDup (omap (fetch_any s) keys).*1.
Proof.
  intros Hok. induction keys as [|p keys IH]; [done|]. intros [Hp Hn]%NoDup_cons. cbn.
  destruct (fetch_any_spec s p Hok) as (rs & -> & _). cbn. constructor; [|by apply IH].
  intros ([q rs'] & -> & [Hq _]%elem_of_fetched)%list_elem_of_fmap; done.
Qed.

Lemma fetched_ok s (keys : list Prefix) : table_ok s ->
  forall p rs, (p, rs) ∈ omap (fetch_any s) keys -> Forall (fun rc => meta_ok (r_meta rc)) rs.
Proof.
  intros Hok p rs [_ Hfe]%(elem_of_fetched _ _ _ _ Hok).
  destruct (fetch_any_spec s p Hok) as (rs' & Hf' & _ & _ & Hm).
  by rewrite Hfe in Hf'; injection Hf' as ->.
Qed.

(** The routes a dump writes. *)
Definition dump_pairs f v info nlri s : list (Prefix * Rec) :=
  pairs (dumped f v info <$> omap (fetch_any s) (st_keys_of (prefix_is_v4 nlri) s)).

Lemma elem_of_dump_pairs f v info nlri s p rc :
  table_ok s -> (p, rc) ∈ dump_pairs f v info nlri s
  <-> prefix_is_v4 p = prefix_is_v4 nlri /\ in_force s p rc /\ selects f v info rc = true.
Proof.
  intros Hok. unfold dump_pairs. rewrite elem_of_pairs. split.
  - intros (rs & ([q rs0] & [= -> ->] & [Hk Hf]%(elem_of_fetched _ _ _ _ Hok))%list_elem_of_fmap & Hrc).
    apply list_elem_of_filter in Hrc as [Hs Hrc]. destruct (fetch_any_spec s q Hok) as (rs' & Hf' & _ & Hin & _).
    rewrite Hf in Hf'. injection Hf' as <-. split; [by eapply keys_of_family|]. split; [|done]. by apply Hin.
  - intros (Hv & Hin & Hs). destruct (fetch_any_spec s p Hok) as (rs & Hf & _ & Hl & _).
    eexists. split; [apply list_elem_of_fmap; exists (p, rs); split; [done|]|].
    + apply elem_of_fetched; [done|]. split; [|done]. eapply keys_of_complete; [|done].
      destruct Hin as [Hr _]. by eexists.
    + cbn. apply list_elem_of_filter. split; [done|]. by apply Hl.
Qed.

Lemma dump_pairs_once f v info nlri s : table_ok s -> NoDup (dump_pairs f v info nlri s).
Proof.
  intros Hok. apply pairs_once.
  - rewrite <- list_fmap_compose. apply fetched_once; [done|apply keys_of_nodup].
  - intros p rs ([q rs0] & [= -> ->] & [_ Hf]%(elem_of_fetched _ _ _ _ Hok))%list_elem_of_fmap.
    destruct (fetch_any_spec s q Hok) as (rs' & Hf' & Hn & _). rewrite Hf in Hf'. injection Hf' as <-.
    by apply NoDup_filter, NoDup_filter, mui_once.
Qed.

(** The default route of its family: it has no bits, and covers every prefix. *)
Definition default_route (p : Prefix) : Prop :=
  prefix_len p = 0
  /\ forall a, addr_wf a -> is_ipv4 a = prefix_is_v4 p -> prefix_contains p a = true.

Lemma default_covers p q :
  default_route p -> prefix_is_v4 q = prefix_is_v4 p -> covers p q = true.
Proof.
  intros [Hl Hc] Hv. unfold covers. rewrite !andb_true_iff, bool_decide_eq_true, Z.leb_le.
  split_and!; [done| |by apply Hc; [apply prefix_addr_wf|]]. pose proof (prefix_len_bound q). lia.
Qed.

(** A family has one prefix of length 0. *)
Lemma default_unique p q :
  prefix_len p = 0 -> prefix_len q = 0 -> prefix_is_v4 p = prefix_is_v4 q -> p = q.
Proof.
  intros Hp Hq Hv.
  assert (Hz : forall x, prefix_len x = 0 -> addr_val (prefix_addr x) = 0).
  { intros x Hx. pose proof (prefix_host_bits x) as Hh. rewrite Hx, Z.sub_0_r in Hh.
    pose proof (prefix_addr_wf x) as Hw. unfold addr_wf in Hw.
    rewrite Z.mod_small in Hh; [done|]. rewrite Z.pow_mul_r by lia. exact Hw. }
  apply prefix_ext; [|by rewrite Hq]. pose proof (Hz p Hp). pose proof (Hz q Hq).
  unfold prefix_is_v4 in Hv. destruct (prefix_addr p), (prefix_addr q); cbn in *; congruence.
Qed.

Lemma covers_default p q : default_route p -> covers q p = true -> q = p.
Proof.
  intros [Hl _]. unfold covers. rewrite !andb_true_iff, bool_decide_eq_true, Z.leb_le.
  intros [[Hv Hle] _]. pose proof (prefix_len_bound q). apply default_unique; [lia|done|done].
Qed.

(** Nothing is less specific than the default route. *)
Lemma no_less_specifics nlri f s q (sel : Rec -> bool) :
  default_route nlri -> st_match_prefix nlri (match_options_of f) s = inr q ->
  kept sel (default [] (qr_less_specifics q)) = [].
Proof.
  intros Hd Hq. destruct (kept sel _) as [|[p rs] l] eqn:Hk; [done|exfalso].
  assert (Hin : (p, rs) ∈ kept sel (default [] (qr_less_specifics q))) by (rewrite Hk; left).
  apply elem_of_kept in Hin as (Hne & rs0 & Hin & ->).
  destruct (filter _ rs0) as [|rc l'] eqn:Hfl; [done|].
  assert (Hrc : rc ∈ filter (fun rc => sel rc = true) rs0) by (rewrite Hfl; left).
  apply list_elem_of_filter in Hrc as [_ Hrc].
  destruct (include_less_specifics (match_options_of f)) eqn:Hi.
  - destruct (proj1 (match_less_ok nlri (match_options_of f) s q eq_refl Hi Hq p rc)) as (Hp & Hc & _);
      [eauto|]. by apply covers_default in Hc.
  - rewrite (proj2 (match_asked _ _ _ _ Hq) Hi) in Hin. by apply not_elem_of_nil in Hin.
Qed.

(** The lines of a search of the default route. *)
Lemma search_default_lines afisafi nlri f r s g v ctx :
  store_for afisafi r = inr s -> table_ok s -> function_of f = inr g -> answers g v ->
  MoreSpecifics ∈ include f -> default_route nlri ->
  let info := info (rib_register r) in
  exists sr ctx' T,
    search_routes afisafi nlri f r ctx = (Some (inr sr), ctx')
    /\ result_ok (query_result sr)
    /\ result_lines sr = line f info (section_of nlri) <$> T
    /\ NoDup T
    /\ forall p rc, (p, rc) ∈ T
         <-> prefix_is_v4 p = prefix_is_v4 nlri /\ in_force s p rc /\ selects f v info rc = true.
Proof.
  intros Hs Hok Hf Hg Hmo Hd info.
  destruct (search_result afisafi nlri f r s g v ctx Hs Hok Hf Hg) as (q & ctx' & Hq & Hr).
  fold info in Hr. set (sel := selects f v info) in *.
  pose proof (match_exact_ok nlri (match_options_of f) s q eq_refl Hq) as [Hn1 Hex].
  pose proof (match_more_ok nlri (match_options_of f) s q eq_refl
    (bool_decide_eq_true_2 _ Hmo) Hq) as Hmore.
  destruct (match_once _ _ _ _ Hq) as (Hn2 & _ & Hn3).
  pose proof (match_found nlri (match_options_of f) s q eq_refl Hq) as Hfound.
  pose proof (no_less_specifics nlri f s q sel Hd Hq) as Hless.
  set (R := filter (fun rc => sel rc = true) (qr_records q)).
  set (M := kept sel (default [] (qr_more_specifics q))).
  eexists _, ctx', ((pair nlri <$> R) ++ pairs M). split; [exact Hr|].
  assert (Hd' : forall o, default [] (kept sel <$> o) = kept sel (default [] o)) by by intros [].
  assert (HR : forall rc, rc ∈ R <-> in_force s nlri rc /\ sel rc = true).
  { intros rc. unfold R, sel. rewrite list_elem_of_filter, Hex, selects_spec, <- shown_selected, selects_spec.
    tauto. }
  assert (HM : forall p rc, (p, rc) ∈ pairs M
    <-> p <> nlri /\ prefix_is_v4 p = prefix_is_v4 nlri /\ in_force s p rc /\ sel rc = true).
  { intros p rc. unfold M, sel. rewrite elem_of_pairs, kept_route, Hmore, selects_spec, <- shown_selected, selects_spec.
    split; [|intros (? & ? & ?); split_and!; try tauto; by apply default_covers].
    intros [(? & Hc & ?) ?]. split_and!; try tauto. unfold covers in Hc.
    rewrite !andb_true_iff, bool_decide_eq_true in Hc. by destruct Hc as [[-> _] _]. }
  split_and!.
  - split; cbn [query_result qr_records qr_more_specifics qr_less_specifics].
    + apply Forall_forall. intros rc [[Hst _] _]%HR. by eapply Hok.
    + intros p rs. rewrite !Hd', Hless, app_nil_r. intros Hin. apply Forall_forall. intros rc Hrc.
      destruct (proj1 (HM p rc)) as (_ & _ & [Hst _] & _); [|by eapply Hok].
      apply elem_of_pairs. eauto.
  - unfold result_lines. cbn [query_result query_filter ingress_info qr_prefix qr_records
      qr_more_specifics qr_less_specifics]. rewrite !Hd', Hless. change (pairs []) with (@nil (Prefix * Rec)).
    rewrite fmap_nil, app_nil_r, fmap_app. fold R M. f_equal.
    + assert (HRp : qr_prefix q = Some nlri \/ R = []).
      { destruct (qr_records q) as [|x l] eqn:Hqr; [by right|]. left. by apply Hfound. }
      assert (Hl : line f info (fun _ => str "data") <$> (pair nlri <$> R)
                   = line f info (section_of nlri) <$> (pair nlri <$> R)).
      { rewrite <- !list_fmap_compose. apply list_fmap_ext. intros _ rc _. unfold line, section_of. cbn.
        by rewrite bool_decide_true. }
      destruct HRp as [->| ->]; [exact Hl|]. by destruct (qr_prefix q).
    + apply list_fmap_ext. intros i [p rc] Hin%list_elem_of_lookup_2. apply HM in Hin as [Hp _].
      unfold line, section_of. cbn. by rewrite bool_decide_false.
  - apply NoDup_app. split_and!.
    + apply NoDup_fmap_2; [by intros ?? [=]|]. by apply NoDup_filter, mui_once.
    + intros [p rc] (rc' & [= -> ->] & _)%list_elem_of_fmap [Hp _]%HM. done.
    + apply pairs_once; [by apply kept_once|]. intros p rs (_ & rs0 & Hin & ->)%elem_of_kept.
      apply NoDup_filter, mui_once, (Hn3 p). by apply elem_of_app; left.
  - intros p rc. rewrite elem_of_app, HM, list_elem_of_fmap. split.
    + intros [(rc' & [= -> ->] & H%HR)|H]; tauto.
    + intros (Hv & Hi & Hsel). destruct (decide (p = nlri)) as [->|Hp]; [left|by right].
      exists rc. split; [done|]. by apply HR.
Qed.

(** The lines that a dump writes, whatever the writer does with them, are those of the
    keys it reads; those of all keys are the lines of the search. *)
Lemma dump_stream_puts {W} (put : Value -> W -> bool * W) afisafi nlri f r s g v late ctx w :
  store_for afisafi r = inr s -> table_ok s -> function_of f = inr g -> answers g v ->
  MoreSpecifics ∈ include f -> default_route nlri ->
  let keys := st_keys_of (prefix_is_v4 nlri) s in
  let lines := dump_lines f v (info (rib_register r)) nlri s in
  exists ok d sr ctx',
    write_jsonl_stream put afisafi nlri f (fun _ => s) late r ctx w = (Some (inr ok), d)
    /\ put_all put (lines (dump_reads late keys)) w = (ok, d_out d)
    /\ (ok = true -> records_emitted d = zlen (lines (dump_reads late keys)))
    /\ search_routes afisafi nlri f r ctx = (Some (inr sr), ctx')
    /\ result_ok (query_result sr) /\ lines keys ≡ₚ result_lines sr.
Proof.
  intros Hs Hok Hf Hg Hmo Hd keys lines. set (info := info (rib_register r)) in *.
  destruct (search_default_lines afisafi nlri f r s g v ctx Hs Hok Hf Hg Hmo Hd)
    as (sr & ctx' & T & Hr & Hrok & Hl & HnT & HT). fold info in Hl, HT.
  destruct (dump_loop_lines put f g v info nlri s late (chunks (length keys) DUMP_KEY_CHUNK keys) 0
    (mk_dumping ctx w 0 0 0) Hg (fetched_ok _ _ Hok)) as (ok & d & Hdl & Ho & Hrec).
  assert (HP : dump_pairs f v info nlri s ≡ₚ T).
  { apply NoDup_Permutation; [by apply dump_pairs_once|done|]. intros [p rc].
    by rewrite HT, elem_of_dump_pairs. }
  exists ok, d, sr, ctx'. split_and!; [|exact Ho|exact Hrec|done|done|].
  - unfold write_jsonl_stream, write_jsonl_stream_inner. rewrite Hs, Hf. fold keys info.
    by rewrite (run_bind_Some _ _ _ _ _ Hdl).
  - rewrite Hl, <- HP. done.
Qed.

(** The dump of an address family and the search of its default route write the same
    lines: on a table that does not change, for any request whose Roto function, if it
    names one, answers by the route alone, the lines of the dump, which reads the table
    key by key in chunks and filters the withdrawn routes itself, are those of the
    search that includes the more specifics, in another order; and the dump counts
    them. *)
Theorem dump_is_search afisafi nlri f r s g v ctx :
  store_for afisafi r = inr s -> table_ok s -> function_of f = inr g -> answers g v ->
  MoreSpecifics ∈ include f -> default_route nlri ->
  exists d sr ctx' ls,
    write_jsonl_stream keep_line afisafi nlri f (fun _ => s) (fun _ => false) r ctx []
    = (Some (inr true), d)
    /\ search_routes afisafi nlri f r ctx = (Some (inr sr), ctx')
    /\ write_jsonl keep_line sr [] = (Some true, ls)
    /\ d_out d ≡ₚ ls /\ records_emitted d = zlen ls.
Proof.
  intros Hs Hok Hf Hg Hmo Hd.
  destruct (dump_stream_puts keep_line afisafi nlri f r s g v (fun _ => false) ctx [] Hs Hok Hf Hg Hmo Hd)
    as (ok & d & sr & ctx' & Hdl & Ho & Hrec & Hr & Hrok & HP).
  rewrite (proj1 (proj2 (dump_reads_spec _ _))) in Ho, Hrec by done.
  rewrite put_all_keep in Ho. injection Ho as <- Ho. cbn [app] in Ho.
  exists d, sr, ctx', (result_lines sr). split_and!; [done|done| |by rewrite <- Ho|].
  - rewrite write_jsonl_puts by done. unfold puts. by rewrite put_all_keep.
  - rewrite Hrec by done. unfold zlen. by rewrite HP.
Qed.

(** ** The document and the lines

    A reader of both: it looks members up by name, and takes a route as its prefix,
    section, status, ingress (null where there is none), validation status and
    attributes. *)
Fixpoint member (n : rstring) (ms : list (rstring * Value)) : option Value :=
  match ms with
  | [] => None
  | (k, x) :: ms => if bool_decide (k = n) then Some x else member n ms
  end.

Definition members (x : Value) : option (list (rstring * Value)) :=
  match x with VObject ms => Some ms | _ => None end.

Definition elements (x : Value) : option (list Value) :=
  match x with VArray l => Some l | _ => None end.

Definition text (x : Value) : option rstring :=
  match x with VStr s => Some s | _ => None end.

Record ReadRoute : Type := mk_read {
  rd_prefix : Value; rd_section : rstring; rd_status : Value;
  rd_ingress : Value; rd_rpki : Value; rd_attributes : Value
}.

Definition read_route (p : Value) (section : rstring) (x : Value) : option ReadRoute :=
  ms ← members x;
  st ← member (str "status") ms;
  rp ← member (str "rpki") ms;
  pa ← member (str "pathAttributes") ms;
  Some (mk_read p section st (default VNull (member (str "ingress") ms)) rp pa).

Definition read_line (x : Value) : option ReadRoute :=
  ms ← members x;
  p ← member (str "prefix") ms;
  section ← member (str "section") ms ≫= text;
  read_route p section x.

Definition read_data (section : rstring) (x : Value) : option (list ReadRoute) :=
  ms ← members x;
  p ← member (str "nlri") ms;
  l ← member (str "routes") ms ≫= elements;
  mapM (read_route p section) l.

Definition read_included (section : rstring) (ms : list (rstring * Value))
  : option (list ReadRoute) :=
  match member section ms with
  | None => Some []
  | Some x => l ← elements x; @concat _ <$> mapM (read_data section) l
  end.

Definition read_document (x : Value) : option (list ReadRoute) :=
  ms ← members x;
  data ← member (str "data") ms ≫= read_data (str "data");
  inc ← member (str "included") ms ≫= members;
  more ← read_included (str "moreSpecifics") inc;
  less ← read_included (str "lessSpecifics") inc;
  Some (data ++ more ++ less).

Lemma member_here n x ms : member n ((n, x) :: ms) = Some x.
Proof. cbn. by rewrite bool_decide_true. Qed.

Lemma member_there n k x ms : k <> n -> member n ((k, x) :: ms) = member n ms.
Proof. intros. cbn. by rewrite bool_decide_false. Qed.

(** What is read of a route with these members. *)
Definition route_read f info (p : Prefix) (section : rstring) rc : ReadRoute :=
  let pa := default [] (match fields_path_attributes f with
                        | Some _ => pamap_members (wanted_fields f) (r_meta rc)
                        | None => pamap_members (fun _ => true) (r_meta rc)
                        end) in
  mk_read (VPrefix p) section (status_value (r_status rc))
    (default VNull (id_and_info info (r_mui rc)))
    (default VNull (member (str "rpki") pa)) (default VNull (member (str "pathAttributes") pa)).

Lemma members_shape wanted m : meta_ok m ->
  exists i l, pamap_members wanted m = Some [(str "rpki", VRpki i); (str "pathAttributes", VAttrs l)].
Proof.
  intros Hm. unfold pamap_members. destruct (rpki_ok _ Hm) as [i ->].
  destruct (path_attributes_ok _ Hm) as [pa ->]. by eexists _, _.
Qed.

Ltac other_name := let H := fresh in intros H; vm_compute in H; discriminate H.
Ltac find_members :=
  repeat first [rewrite member_here | rewrite member_there by other_name]; cbn [mbind option_bind].

Lemma record_read f info p section rc : meta_ok (r_meta rc) ->
  exists x, record_value f info rc = Some x
    /\ read_route (VPrefix p) section x = Some (route_read f info p section rc).
Proof.
  intros Hm. unfold record_value, route_read.
  assert (Hs : exists i l, match fields_path_attributes f with
      | Some _ => pamap_members (wanted_fields f) (r_meta rc)
      | None => pamap_members (fun _ => true) (r_meta rc)
      end = Some [(str "rpki", VRpki i); (str "pathAttributes", VAttrs l)])
    by (destruct (fields_path_attributes f); by apply members_shape).
  destruct Hs as (i & l & ->). eexists. split; [done|].
  unfold read_route. cbn [mbind option_bind members app default]. by find_members.
Qed.

Lemma line_read f info p section rc : meta_ok (r_meta rc) ->
  exists x, line_value f info p section rc = Some x
    /\ read_line x = Some (route_read f info p section rc).
Proof.
  intros Hm. unfold line_value, route_read.
  assert (Hs : exists i l, match fields_path_attributes f with
      | Some _ => pamap_members (wanted_fields f) (r_meta rc)
      | None => pamap_members (fun _ => true) (r_meta rc)
      end = Some [(str "rpki", VRpki i); (str "pathAttributes", VAttrs l)])
    by (destruct (fields_path_attributes f); by apply members_shape).
  destruct Hs as (i & l & ->). eexists. split; [done|].
  unfold read_line, read_route. cbn [mbind option_bind members app default].
  destruct (id_and_info info (r_mui rc)); cbn [app default]; by find_members.
Qed.

Lemma mapM_read {A B C} (h : A -> option B) (k : B -> option C) (o : A -> C) xs :
  (forall x, x ∈ xs -> exists y, h x = Some y /\ k y = Some (o x)) ->
  exists ys, mapM h xs = Some ys /\ mapM k ys = Some (o <$> xs).
Proof.
  induction xs as [|x xs IH]; intros Hx; [by exists []|].
  destruct (Hx x) as (y & Hh & Hk); [left|].
  destruct IH as (ys & Hhs & Hks); [intros; apply Hx; by right|].
  exists (y :: ys). cbn. by rewrite Hh, Hk, Hhs, Hks.
Qed.

Lemma data_read f info nlri p section (rs : list Rec) :
  Forall (fun rc => meta_ok (r_meta rc)) rs -> nlri = Some p \/ rs = [] ->
  exists x, data_value f info nlri rs = Some x
    /\ read_data section x = Some (route_read f info p section <$> rs).
Proof.
  intros Hok Hp. rewrite Forall_forall in Hok.
  destruct (mapM_read (record_value f info) (read_route (VPrefix p) section)
    (route_read f info p section) rs) as (l & Hl & Hr); [eauto using record_read|].
  unfold data_value. rewrite Hl. cbn [mbind option_bind]. eexists. split; [done|].
  unfold read_data. cbn [members mbind option_bind]. find_members.
  destruct Hp as [->| ->]; [exact Hr|]. injection Hl as <-. done.
Qed.

Lemma included_read f info section o (ms : list (rstring * Value)) :
  (forall p rs, (p, rs) ∈ default [] o -> Forall (fun rc => meta_ok (r_meta rc)) rs) ->
  member section ms = None ->
  exists x, included_member f info section o = Some x
    /\ read_included section (x ++ ms)
       = Some ((fun e => route_read f info e.1 section e.2) <$> pairs (default [] o))
    /\ (forall n, n <> section -> member n (x ++ ms) = member n ms).
Proof.
  intros Hok Hms. unfold read_included. destruct o as [l|]; cbn [included_member default].
  2: { exists []. cbn [app]. by rewrite Hms. }
  destruct (mapM_read (fun pr => data_value f info (Some pr.1) pr.2) (read_data section)
    (fun pr => route_read f info pr.1 section <$> pr.2) l) as (ys & Hy & Hr).
  { intros [p rs] Hin. apply data_read; [by eapply Hok|by left]. }
  unfold record_set_value. rewrite Hy. cbn [mbind option_bind]. eexists. split; [done|].
  cbn [app]. split; [|intros n Hn; by apply member_there].
  rewrite member_here. cbn [elements mbind option_bind]. rewrite Hr. cbn. f_equal. clear.
  induction l as [|pr l IH]; [done|]. rewrite pairs_cons, fmap_app, fmap_cons. cbn [concat].
  rewrite IH. f_equal. by rewrite <- list_fmap_compose.
Qed.

Lemma mapM_read_app {A B} (h : A -> option B) xs ys :
  mapM h (xs ++ ys) = l ← mapM h xs; k ← mapM h ys; Some (l ++ k).
Proof.
  induction xs as [|x xs IH]; cbn; [by destruct (mapM h ys)|].
  destruct (h x); cbn; [|done]. rewrite IH. destruct (mapM h xs); cbn; [|done].
  by destruct (mapM h ys).
Qed.

Lemma lines_read f info section (ps : list (Prefix * Rec)) :
  (forall p rc, (p, rc) ∈ ps -> meta_ok (r_meta rc)) ->
  mapM read_line (line f info (fun _ => section) <$> ps)
  = Some ((fun e => route_read f info e.1 section e.2) <$> ps).
Proof.
  induction ps as [|[p rc] ps IH]; intros Hok; [done|]. rewrite !fmap_cons.
  destruct (line_read f info p section rc) as (x & Hx & Hr); [apply (Hok p); left|].
  assert (Hl : line f info (fun _ => section) (p, rc) = x) by (unfold line; cbn [fst snd]; by rewrite Hx).
  rewrite Hl. cbn [mapM]. rewrite Hr. cbn [mbind option_bind fst snd].
  rewrite IH; [done|]. intros q rc' Hin. apply (Hok q). by right.
Qed.

(** The lines of a search result lose nothing of its document: a reader that takes a
    route as its prefix, section, status, ingress, validation status and attributes
    reads the same routes, in the same order, from the nested document and from the
    lines. *)
Theorem jsonl_loses_nothing sr :
  result_ok (query_result sr) ->
  (qr_prefix (query_result sr) = None -> qr_records (query_result sr) = []) ->
  exists doc ls routes,
    search_value sr = Some doc /\ write_jsonl keep_line sr [] = (Some true, ls)
    /\ read_document doc = Some routes /\ mapM read_line ls = Some routes.
Proof.
  intros Hok Hp. pose proof (write_jsonl_puts keep_line sr [] Hok) as Hw.
  unfold puts in Hw. rewrite put_all_keep in Hw. destruct Hok as [Hrec Hset].
  setoid_rewrite elem_of_app in Hset.
  set (f := query_filter sr) in *. set (info := ingress_info sr) in *. set (q := query_result sr) in *.
  destruct (included_read f info (str "lessSpecifics") (qr_less_specifics q) [])
    as (less & Hl & Rl & Nl); [eauto|done|]. rewrite app_nil_r in Rl, Nl.
  destruct (included_read f info (str "moreSpecifics") (qr_more_specifics q) less)
    as (more & Hm & Rm & Nm); [eauto|rewrite Nl; [done|other_name]|].
  set (data := match qr_prefix q with
               | Some p => route_read f info p (str "data") <$> qr_records q
               | None => []
               end).
  assert (Hd : exists x, data_value f info (qr_prefix q) (qr_records q) = Some x
                 /\ read_data (str "data") x = Some data).
  { unfold data. destruct (qr_prefix q) as [p|]; [apply data_read; [done|by left]|].
    rewrite Hp by done. eexists. split; [done|]. unfold read_data. cbn [members mbind option_bind].
    by find_members. }
  destruct Hd as (x & Hx & Rx).
  eexists _, _, _. split_and!; [|exact Hw| |].
  - unfold search_value. fold f info q. rewrite Hx, Hm, Hl. done.
  - unfold read_document. cbn [members mbind option_bind]. find_members. rewrite Rx.
    cbn [members mbind option_bind]. rewrite Rm. unfold read_included at 1.
    rewrite Nm by other_name. fold (read_included (str "lessSpecifics") less). rewrite Rl. done.
  - unfold result_lines. fold f info q. rewrite !mapM_read_app, !lines_read.
    + destruct (qr_prefix q) as [p|]; [|done]. rewrite lines_read; [|].
      * cbn. unfold data. by rewrite <- list_fmap_compose.
      * intros p' rc (rc' & [= -> ->] & Hin)%list_elem_of_fmap. by rewrite Forall_forall in Hrec; apply Hrec.
    + intros p rc (rs & Hin & Hrc)%elem_of_pairs. pose proof (Hset p rs (or_introl Hin)) as Hf.
      by rewrite Forall_forall in Hf; apply Hf.
    + intros p rc (rs & Hin & Hrc)%elem_of_pairs. pose proof (Hset p rs (or_intror Hin)) as Hf.
      by rewrite Forall_forall in Hf; apply Hf.
Qed.

End Lines.
