(* ===== verification/RibHttp.v ===== *)
(** * The HTTP interface of the RIB ([src/units/rib_unit/http_ng.rs])

    The handlers of the route queries, with the cap on concurrent dumps, and the
    writer that turns what is serialised into the chunks of a response body.  The
    client is any function that answers each chunk: it takes it, it does not read
    for too long, or it is gone. *)

From S2P Require Import Prelude Net Register Payload RibStore Rib RibProps RibSearch RibSearchProps RibLines.
From Stdlib Require Import ZArith Lia.
From stdpp Require Import base numbers list gmap fin_maps strings.

Local Open Scope Z_scope.

(** ** The response writer *)

Definition STREAM_CHUNK_SIZE : Z := 256 * 1024.

Inductive IoError : Type := TimedOut | BrokenPipe.

Record StreamResponseWriter : Type := mk_writer {
  sender : list (list Z);
  buffer : list Z
}.

Definition writer_new : StreamResponseWriter := mk_writer [] [].

Section Writer.
Context (client : list (list Z) -> option IoError).

Definition send_buffer (w : StreamResponseWriter) : option IoError * StreamResponseWriter :=
  match buffer w with
  | [] => (None, w)
  | chunk =>
      match client (sender w) with
      | None => (None, mk_writer (sender w ++ [chunk]) [])
      | Some e => (Some e, mk_writer (sender w) [])
      end
  end.

Definition writer_write (buf : list Z) (w : StreamResponseWriter)
  : option IoError * StreamResponseWriter :=
  let w := mk_writer (sender w) (buffer w ++ buf) in
  if STREAM_CHUNK_SIZE <=? zlen (buffer w) then send_buffer w else (None, w).

Definition writer_flush (w : StreamResponseWriter) : option IoError * StreamResponseWriter :=
  send_buffer w.

(** The writes of a serialiser, one after the other until one fails. *)
Fixpoint write_all (ps : list (list Z)) (w : StreamResponseWriter)
  : bool * StreamResponseWriter :=
  match ps with
  | [] => (true, w)
  | p :: ps =>
      match writer_write p w with
      | (None, w) => write_all ps w
      | (Some _, w) => (false, w)
      end
  end.

Lemma write_all_app ps qs w :
  write_all (ps ++ qs) w
  = let '(ok, w) := write_all ps w in if ok : bool then write_all qs w else (false, w).
Proof.
  revert w. induction ps as [|p ps IH]; intros w; [done|]. cbn.
  destruct (writer_write p w) as [[] w']; [done|apply IH].
Qed.

(** The body of a response: what is written, then the final flush. *)
Definition body (ps : list (list Z)) : list (list Z) :=
  sender (writer_flush (write_all ps writer_new).2).2.

(** What the writer holds, while nothing has failed. *)
Record writing (sofar : list Z) (w : StreamResponseWriter) : Prop := {
  wr_all : concat (sender w) ++ buffer w = sofar;
  wr_room : zlen (buffer w) < STREAM_CHUNK_SIZE;
  wr_chunks : Forall (fun c => STREAM_CHUNK_SIZE <= zlen c) (sender w)
}.

(** After a failure: nothing is left to send. *)
Record stopped (sofar : list Z) (w : StreamResponseWriter) : Prop := {
  st_prefix : concat (sender w) `prefix_of` sofar;
  st_empty : buffer w = [];
  st_chunks : Forall (fun c => STREAM_CHUNK_SIZE <= zlen c) (sender w);
  st_refused : exists l, client l <> None
}.

Lemma send_full sofar w :
  concat (sender w) ++ buffer w = sofar -> STREAM_CHUNK_SIZE <= zlen (buffer w) ->
  Forall (fun c => STREAM_CHUNK_SIZE <= zlen c) (sender w) ->
  match send_buffer w with
  | (None, w') => writing sofar w'
  | (Some _, w') => stopped sofar w'
  end.
Proof.
  intros Hs Hl Hc. unfold send_buffer. destruct (buffer w) as [|b bs] eqn:Hb.
  { cbv in Hl. by destruct Hl. }
  rewrite <- Hb in *. destruct (client (sender w)) as [e|] eqn:Hcl.
  - split; cbn; [rewrite <- Hs; by apply prefix_app_r|done|done|].
    exists (sender w). by rewrite Hcl.
  - split; cbn; [|done|by apply Forall_app_2, Forall_singleton].
    rewrite concat_app, app_nil_r. cbn. by rewrite app_nil_r.
Qed.

Lemma write_all_spec ps sofar w :
  writing sofar w ->
  match write_all ps w with
  | (true, w') => writing (sofar ++ concat ps) w'
  | (false, w') => stopped (sofar ++ concat ps) w'
  end.
Proof.
  revert sofar w. induction ps as [|p ps IH]; intros sofar w Hw; cbn [write_all concat].
  { by rewrite app_nil_r. }
  assert (H1 : match writer_write p w with
    | (None, w') => writing (sofar ++ p) w'
    | (Some _, w') => stopped (sofar ++ p) w'
    end).
  { destruct Hw as [Ha Hr Hc]. unfold writer_write. cbn [buffer sender].
    destruct (STREAM_CHUNK_SIZE <=? zlen (buffer w ++ p)) eqn:Hl.
    - apply Z.leb_le in Hl. apply send_full; cbn; [by rewrite app_assoc, Ha|done|done].
    - apply Z.leb_gt in Hl. split; cbn; [by rewrite app_assoc, Ha|done|done]. }
  destruct (writer_write p w) as [[e|] w']; rewrite app_assoc; [|by apply IH].
  destruct H1 as [Hp He Hc Hr]. split; [|done..]. by apply prefix_app_r.
Qed.

(** Whatever the client does, the body is a prefix of what was written, in chunks none of
    which is empty and all of which, the last one apart, have at least
    [STREAM_CHUNK_SIZE] octets; a client that takes every chunk gets everything. *)
Lemma response_body ps :
  concat (body ps) `prefix_of` concat ps
  /\ (concat (body ps) = concat ps \/ exists l, client l <> None)
  /\ Forall (fun c => c <> []) (body ps)
  /\ (exists full last, body ps = full ++ last /\ (length last <= 1)%nat
        /\ Forall (fun c => STREAM_CHUNK_SIZE <= zlen c) full).
Proof.
  pose proof (write_all_spec ps [] writer_new) as H. unfold body, writer_flush.
  destruct (write_all ps writer_new) as [ok w]. cbn [app snd] in *.
  assert (H0 : writing [] writer_new) by (split; [done|cbv; done|constructor]).
  specialize (H H0). clear H0.
  assert (Hne : forall l : list (list Z), Forall (fun c => STREAM_CHUNK_SIZE <= zlen c) l ->
    Forall (fun c => c <> []) l).
  { intros l Hl. eapply Forall_impl; [exact Hl|]. intros c Hc ->. cbv in Hc. by destruct Hc. }
  destruct ok.
  - destruct H as [Ha Hr Hc]. unfold send_buffer.
    destruct (buffer w) as [|b bs] eqn:Hb; cbn [snd].
    { rewrite app_nil_r in Ha. rewrite Ha. split_and!; [done|by left|by apply Hne|].
      exists (sender w), []. rewrite app_nil_r. split_and!; [done|cbn; lia|done]. }
    destruct (client (sender w)) as [e|] eqn:Hcl; cbn [snd sender].
    + split_and!; [rewrite <- Ha; by apply prefix_app_r| |by apply Hne|].
      * right. exists (sender w). by rewrite Hcl.
      * exists (sender w), []. rewrite app_nil_r. split_and!; [done|cbn; lia|done].
    + rewrite concat_app. cbn [concat]. rewrite app_nil_r, Ha.
      split_and!; [done|by left|by apply Forall_app_2; [apply Hne|apply Forall_singleton]|].
      exists (sender w), [b :: bs]. split_and!; [done|cbn; lia|done].
  - destruct H as [Hp He Hc Hr]. unfold send_buffer. rewrite He. cbn [snd].
    split_and!; [done|by right|by apply Hne|].
    exists (sender w), []. rewrite app_nil_r. split_and!; [done|cbn; lia|done].
Qed.

End Writer.

(** ** Handlers *)
Section Handlers.
Context `{E : Extern} `{PS : !PrefixStore RotondaPaMap} `{SE : Searching}.

(** The pieces in which [serde_json::to_writer] writes a value. *)
Context (json_writes : Value -> list (list Z)).

Inductive ApiError : Type :=
| BadPrefix
| NeedsJsonl
| BadRequest (e : SearchError)
| StoreUnavailable
| SearchTaskFailed
| TooManyDumps.

(** What a handler starts a task for: the result of a search to be written, or a dump
    of an address family. *)
Inductive Answer : Type :=
| SendResult (sr : SearchResult)
| SendAll (afisafi : AfiSafiType) (query_prefix : Prefix) (f : RouteFilter).

Definition answer_content_type (a : Answer) : rstring :=
  match a with
  | SendResult sr => content_type (format (query_filter sr))
  | SendAll _ _ _ => content_type Jsonl
  end.

(** [ApiState] with the count of the dumps in flight and the context of the script. *)
Record ApiState : Type := mk_api {
  api_store : option Rib;
  dumps_active : Z;
  api_ctx : HttpCtx
}.

(** [stream_all_routes], up to its task; [lost] are the exchanges of the counter that
    other dumps win. *)
Definition stream_all_routes (rib : Rib) (afisafi : AfiSafiType) (query_prefix : Prefix)
    (f : RouteFilter) (lost : list Z) (st : ApiState) : (ApiError + Answer) * ApiState :=
  match check_filter_and_store afisafi f rib with
  | inl e => (inl (BadRequest e), st)
  | inr _ =>
      match dump_try_enter (dumps_active st) lost with
      | None => (inl TooManyDumps, st)
      | Some active =>
          (inr (SendAll afisafi query_prefix f), mk_api (api_store st) active (api_ctx st))
      end
  end.

(** [search_ipv4unicast] and [search_ipv6unicast]; a search that panics fails its task. *)
Definition search_unicast (v4 : bool) (addr : Z) (len : Z) (f : RouteFilter) (lost : list Z)
    (st : ApiState) : (ApiError + Answer) * ApiState :=
  let afisafi := if v4 then Ipv4Unicast else Ipv6Unicast in
  match prefix_new (if v4 then V4 addr else V6 addr) len with
  | None => (inl BadPrefix, st)
  | Some prefix =>
      match api_store st with
      | None => (inl StoreUnavailable, st)
      | Some rib =>
          if (prefix_len prefix =? 0) && bool_decide (MoreSpecifics ∈ include f) then
            if bool_decide (format f <> Jsonl) then (inl NeedsJsonl, st)
            else stream_all_routes rib afisafi prefix f lost st
          else
            let '(res, ctx) := search_routes afisafi prefix f rib (api_ctx st) in
            (match res with
             | None => inl SearchTaskFailed
             | Some (inl e) => inl (BadRequest e)
             | Some (inr sr) => inr (SendResult sr)
             end, mk_api (api_store st) (dumps_active st) ctx)
      end
  end.

(** [search_ipv4unicast_all] and [search_ipv6unicast_all]. *)
Definition search_unicast_all (v4 : bool) (f : RouteFilter) (lost : list Z) (st : ApiState)
  : (ApiError + Answer) * ApiState :=
  search_unicast v4 0 0 (enable_more_specifics f) lost st.

(** ** The tasks *)

(** A value followed by the end of its line. *)
Definition line_writes (x : Value) : list (list Z) := json_writes x ++ [[10]].

Definition write_value (client : list (list Z) -> option IoError) (x : Value)
    (w : StreamResponseWriter) : bool * StreamResponseWriter :=
  write_all client (line_writes x) w.

(** The task of [stream_search_result]; [None]: serialising panics. *)
Definition search_task (client : list (list Z) -> option IoError) (sr : SearchResult)
  : option (list (list Z)) :=
  match format (query_filter sr) with
  | Json => body client ∘ json_writes <$> search_value sr
  | Jsonl =>
      let '(res, w) := write_jsonl (write_value client) sr writer_new in
      _ ← res; Some (sender (writer_flush client w).2)
  end.

(** The task of [stream_all_routes], with the store at each lookup and the deadline; the
    permit is given back at its end. *)
Definition dump_task (client : list (list Z) -> option IoError) (afisafi : AfiSafiType)
    (query_prefix : Prefix) (f : RouteFilter) (at_ : nat -> Store RotondaPaMap)
    (late : nat -> bool) (rib : Rib) (st : ApiState)
  : option (list (list Z)) * ApiState :=
  let '(res, d) := write_jsonl_stream (write_value client) afisafi query_prefix f at_ late rib
                     (api_ctx st) writer_new in
  (_ ← res; Some (sender (writer_flush client (d_out d)).2),
   mk_api (api_store st) (dump_drop (dumps_active st)) (d_ctx d)).

(** ** What is answered *)

(** A dump that was let in, or a refusal that changed nothing. *)
Definition dump_or_refusal (v4 : bool) (f : RouteFilter) (st : ApiState)
    (res : (ApiError + Answer) * ApiState) : Prop :=
  match res with
  | (inl _, st') => st' = st
  | (inr (SendResult _), _) => False
  | (inr (SendAll afisafi p f'), st') =>
      f' = f /\ format f = Jsonl /\ prefix_len p = 0
      /\ afisafi = (if v4 then Ipv4Unicast else Ipv6Unicast)
      /\ (exists rib, api_store st = Some rib /\ check_filter_and_store afisafi f rib = inr tt)
      /\ dumps_active st' <= MAX_CONCURRENT_DUMPS
      /\ st' = mk_api (api_store st) (dumps_active st') (api_ctx st)
  end.

Lemma try_enter_cap cur lost n : dump_try_enter cur lost = Some n -> n <= MAX_CONCURRENT_DUMPS.
Proof.
  revert cur. induction lost as [|a lost IH]; intros cur; cbn [dump_try_enter];
    destruct (MAX_CONCURRENT_DUMPS <=? cur) eqn:Hc; try done; [|apply IH].
  intros [= <-]. apply Z.leb_gt in Hc. lia.
Qed.

Lemma stream_all_dump v4 rib p f lost st :
  api_store st = Some rib -> prefix_len p = 0 -> format f = Jsonl ->
  dump_or_refusal v4 f st
    (stream_all_routes rib (if v4 then Ipv4Unicast else Ipv6Unicast) p f lost st).
Proof.
  intros Hs Hl Hf. unfold stream_all_routes.
  destruct (check_filter_and_store _ f rib) as [e|[]] eqn:Hc; [done|].
  destruct (dump_try_enter (dumps_active st) lost) as [n|] eqn:Ht; [|done].
  cbn. split_and!; eauto using try_enter_cap.
Qed.

(** A request for all routes of a family, by either way of asking for it, is never
    answered from a search, which would collect the whole table: it is refused, which
    changes nothing, or it is a dump in lines, counted among at most
    [MAX_CONCURRENT_DUMPS], whose Roto function, if it names one, exists. *)
Theorem full_table_never_collected v4 addr f lost st :
  (forall a l p, prefix_new a l = Some p -> prefix_len p = l) ->
  (MoreSpecifics ∈ include f -> dump_or_refusal v4 f st (search_unicast v4 addr 0 f lost st))
  /\ dump_or_refusal v4 (enable_more_specifics f) st (search_unicast_all v4 f lost st).
Proof.
  intros Hlen.
  assert (H : forall addr f, MoreSpecifics ∈ include f ->
    dump_or_refusal v4 f st (search_unicast v4 addr 0 f lost st)).
  { clear addr f. intros addr f Hm. unfold search_unicast.
    destruct (prefix_new _ 0) as [p|] eqn:Hp; [|done]. apply Hlen in Hp.
    destruct (api_store st) as [rib|] eqn:Hs; [|done].
    rewrite Hp, bool_decide_true by done. cbn [Z.eqb andb].
    case_bool_decide as Hf; [done|]. apply stream_all_dump; [done|done|].
    by destruct (format f). }
  split; [apply H|]. apply H. unfold enable_more_specifics.
  case_bool_decide as Hm; [done|]. cbn. apply elem_of_app. right. left.
Qed.

(** ** The bodies *)

Lemma put_all_writes client ls w :
  put_all (write_value client) ls w = write_all client (ls ≫= line_writes) w.
Proof.
  revert w. induction ls as [|x ls IH]; intros w; [done|].
  rewrite bind_cons, write_all_app. cbn [put_all]. unfold write_value at 1.
  destruct (write_all client (line_writes x) w) as [[] w']; [apply IH|done].
Qed.

(** The text of lines. *)
Definition text_of (ls : list Value) : list Z := concat (ls ≫= line_writes).

Context `{RS : !ReliableStore RotondaPaMap}.

(** C19: the body that a dump sends, on a table of well-formed records that does not change
    while it runs, for a request that asks for the default route and includes the more
    specifics, and whose Roto function, if it names one,
    answers by the route alone. The dump gets to the keys of the table in their order:
    to all of them when no chunk of keys ends after [DUMP_MAX_DURATION], and to those of
    the chunks up to the first that does otherwise, which is never less than the first
    [DUMP_KEY_CHUNK] keys. A client that takes every chunk of the body gets the text of
    the lines of those keys, each line with its end; any other client gets a prefix of
    that text. The lines of all keys are, in some order, the lines of the search of the
    default route with its more specifics, so a dump that makes the deadline sends what
    the search finds and one that misses it sends a part of it, with nothing in the
    body to tell. The dump is no longer counted afterwards. *)
Theorem dump_body_exact client afisafi nlri f rib s g v late st :
  store_for afisafi rib = inr s -> table_ok s -> function_of f = inr g -> answers g v ->
  MoreSpecifics ∈ include f -> default_route nlri ->
  let keys := st_keys_of (prefix_is_v4 nlri) s in
  let lines := dump_lines f v (info (rib_register rib)) nlri s in
  let read := dump_reads late keys in
  exists chunks st' sr ctx',
    dump_task client afisafi nlri f (fun _ => s) late rib st = (Some chunks, st')
    /\ concat chunks `prefix_of` text_of (lines read)
    /\ (concat chunks = text_of (lines read) \/ exists l, client l <> None)
    /\ read `prefix_of` keys
    /\ take DUMP_KEY_CHUNK keys `prefix_of` read
    /\ ((forall i, late i = false) -> read = keys)
    /\ search_routes afisafi nlri f rib (api_ctx st) = (Some (inr sr), ctx')
    /\ lines keys ≡ₚ result_lines sr
    /\ dumps_active st' = dumps_active st - 1.
Proof.
  intros Hs Hok Hf Hg Hmo Hd keys lines read. unfold dump_task.
  destruct (dump_stream_puts (write_value client) afisafi nlri f rib s g v late (api_ctx st) writer_new
    Hs Hok Hf Hg Hmo Hd) as (ok & d & sr & ctx' & -> & Ho & _ & Hr & _ & HP).
  fold keys lines in Ho, HP. fold read in Ho. destruct (dump_reads_spec late keys) as (Hk1 & Hk2 & Hk3).
  rewrite put_all_writes in Ho.
  destruct (response_body client (lines read ≫= line_writes)) as (Hp & Ha & _).
  unfold body in Hp, Ha. rewrite Ho in Hp, Ha. cbn [snd] in Hp, Ha.
  eexists _, _, sr, ctx'. by split_and!.
Qed.

End Handlers.

(** ** A table with one route, searched and dumped

    The route of [RibProps.RibDemo]; the script has one function, which accepts
    every route, and a value is written as one octet. *)

#[local] Existing Instances Demo.extern RibDemo.store RibDemo.store_ok.

Module HttpDemo.

#[export] Instance searching : Searching := {|
  StandardCommunity := Z; LargeCommunity := Z; Attribute := Z; HttpCtx := unit;
  get_otc _ := None;
  get_communities _ := None;
  get_large_communities _ := None;
  get_hop_origin _ := None;
  get_function n := if bool_decide (n = str "all") then Some (fun _ _ => (true, tt)) else None;
  attributes_of pa := []
|}.

Definition everything : RouteFilter :=
  mk_route_filter [MoreSpecifics] (Some 7) None None None None None None None None None
    (Some (str "all")) Jsonl.

Definition any : Prefix := Demo.pfx (V4 0) 0 eq_refl.
Definition rc : StoreRecord RotondaPaMap := mk_record 7 0 Active RibDemo.attrs.
Definition the_store : Store RotondaPaMap :=
  mk_list_store [(RibDemo.net, rc)] (fun _ => ∅).

Lemma stored : store_for Ipv4Unicast RibDemo.table = inr the_store.
Proof. reflexivity. Qed.

Lemma stored_net p m r0 : stored_at the_store p m = Some r0 -> p = RibDemo.net /\ r0 = rc.
Proof.
  cbn. unfold ls_key. cbn [fst snd]. case_bool_decide as Hk; [|done]. intros [= <-]. by destruct Hk.
Qed.

Lemma the_store_ok : table_ok the_store.
Proof. intros p m r0 [_ ->]%stored_net. unfold meta_ok. cbn. lia. Qed.

Lemma all_answers : answers (Some (fun (_ : HttpCtx) _ => (true, tt))) (fun _ => true).
Proof. done. Qed.

Lemma any_default : default_route any.
Proof.
  split; [reflexivity|]. intros a Hw Hv. cbn. unfold Demo.contains. cbn [Demo.p_addr any Demo.pfx Demo.p_len].
  assert (Ha : is_ipv4 a = true) by exact Hv. rewrite Ha, bool_decide_true by done. cbn [andb].
  unfold addr_wf in Hw. rewrite Ha in *. cbn [addr_size] in *.
  rewrite Z.div_small by (cbn in *; lia). done.
Qed.

(** Seven dumps in flight, and one. *)
Definition busy : ApiState := mk_api (Some RibDemo.table) 7 tt.
Definition one_dump : ApiState := mk_api (Some RibDemo.table) 1 tt.
Definition accept_all : HttpCtx -> RotondaPaMap -> bool * HttpCtx := fun _ _ => (true, tt).
Definition ctx0 : HttpCtx := tt.

Lemma net_in_force : in_force the_store RibDemo.net rc.
Proof. split; [reflexivity|]. split; [done|]. apply not_elem_of_empty. Qed.

End HttpDemo.

#[local] Existing Instance HttpDemo.searching.

Lemma search_routes_exact_witness :
  exists q ctx', search_routes Ipv4Unicast HttpDemo.any HttpDemo.everything RibDemo.table tt
      = (Some (inr (mk_search_result q (info (rib_register RibDemo.table)) HttpDemo.everything)), ctx')
    /\ exists rs, (RibDemo.net, rs) ∈ default [] (qr_more_specifics q) /\ HttpDemo.rc ∈ rs.
Proof.
  destruct (search_routes_exact Ipv4Unicast HttpDemo.any HttpDemo.everything RibDemo.table
    HttpDemo.the_store _ (fun _ => true) tt HttpDemo.stored HttpDemo.the_store_ok eq_refl
    HttpDemo.all_answers) as (q & ctx' & Hr & _ & Hm & _).
  exists q, ctx'. split; [exact Hr|]. apply Hm. split_and!.
  - left.
  - intros H. apply (f_equal (fun p : Demo.prefix => Demo.p_len p)) in H. discriminate H.
  - by apply default_covers; [apply HttpDemo.any_default|].
  - exact HttpDemo.net_in_force.
  - apply selects_spec. reflexivity.
Defined.

Lemma full_table_never_collected_witness :
  match search_unicast_all true HttpDemo.everything [] HttpDemo.busy with
  | (inr (SendAll _ _ _), st') => dumps_active st' = 8
  | _ => False
  end
  /\ dump_or_refusal true (enable_more_specifics HttpDemo.everything)
       HttpDemo.busy
       (search_unicast_all true HttpDemo.everything [] HttpDemo.busy).
Proof.
  split; [vm_compute; reflexivity|].
  apply (full_table_never_collected true 0 HttpDemo.everything [] HttpDemo.busy).
  intros a l p Hp. cbn in Hp. unfold Demo.new in Hp. destruct (decide _); [|done].
  by injection Hp as <-.
Defined.

(** The one chunk of keys ends after the deadline; the client takes everything. *)
Lemma dump_body_exact_witness :
  exists chunks st' sr ctx' ls,
    dump_task (fun _ => [[1]]) (fun _ => None) Ipv4Unicast HttpDemo.any HttpDemo.everything
      (fun _ => HttpDemo.the_store) (fun _ => true) RibDemo.table
      HttpDemo.one_dump = (Some chunks, st')
    /\ search_routes Ipv4Unicast HttpDemo.any HttpDemo.everything RibDemo.table tt
       = (Some (inr sr), ctx')
    /\ ls ≡ₚ result_lines sr
    /\ concat chunks = text_of (fun _ => [[1]]) ls
    /\ concat chunks = [1; 10]
    /\ dumps_active st' = 0.
Proof.
  destruct (dump_body_exact (fun _ => [[1]]) (fun _ => None) Ipv4Unicast HttpDemo.any
    HttpDemo.everything RibDemo.table HttpDemo.the_store _ (fun _ => true) (fun _ => true)
    HttpDemo.one_dump HttpDemo.stored HttpDemo.the_store_ok eq_refl
    HttpDemo.all_answers) as (chunks & st' & sr & ctx' & H1 & _ & H4 & _ & _ & _ & H2 & H3 & H5).
  - left.
  - exact HttpDemo.any_default.
  - eexists chunks, st', sr, ctx', _. split_and!; [exact H1|exact H2|exact H3| | |exact H5].
    + destruct H4 as [H4|[l Hl]]; [exact H4|by destruct Hl].
    + destruct H4 as [->|[l Hl]]; [vm_compute; reflexivity|by destruct Hl].
Defined.

Lemma dump_is_search_witness :
  exists d sr ctx' ls,
    write_jsonl_stream keep_line Ipv4Unicast HttpDemo.any HttpDemo.everything
      (fun _ => HttpDemo.the_store) (fun _ => false) RibDemo.table tt [] = (Some (inr true), d)
    /\ search_routes Ipv4Unicast HttpDemo.any HttpDemo.everything RibDemo.table tt
       = (Some (inr sr), ctx')
    /\ write_jsonl keep_line sr [] = (Some true, ls)
    /\ d_out d ≡ₚ ls /\ records_emitted d = zlen ls.
Proof.
  apply (dump_is_search Ipv4Unicast HttpDemo.any HttpDemo.everything RibDemo.table
    HttpDemo.the_store (Some HttpDemo.accept_all) (fun _ => true) HttpDemo.ctx0 HttpDemo.stored
    HttpDemo.the_store_ok eq_refl HttpDemo.all_answers).
  - left.
  - exact HttpDemo.any_default.
Defined.

Lemma jsonl_loses_nothing_witness :
  let sr := mk_search_result (mk_query_result (Some RibDemo.net) [HttpDemo.rc] None (Some [])) ∅
              HttpDemo.everything in
  exists doc ls routes,
    search_value sr = Some doc /\ write_jsonl keep_line sr [] = (Some true, ls)
    /\ read_document doc = Some routes /\ mapM read_line ls = Some routes.
Proof.
  intros sr. apply jsonl_loses_nothing; [|done]. split.
  - apply Forall_singleton. unfold meta_ok. cbn. lia.
  - cbn. intros p rs H. by apply not_elem_of_nil in H.
Defined.
