(* ===== verification/BmpMsg.v ===== *)
(** * Parsed BMP messages and the results of processing them
    ([src/units/bmp_tcp_in/state_machine/processing.rs], the message types the
    state machine matches on, [explode_announcements] and
    [explode_withdrawals] of [src/roto_runtime/types.rs])

    The parser is the [routecore] crate: class [Routecore] has its header,
    session-configuration and UPDATE accessors, and a parsed message is the
    record of the values its accessors return. *)

From S2P Require Import Prelude Net Register Payload.
From Stdlib Require Import ZArith Lia.
From stdpp Require Import base numbers list gmap countable.

Local Open Scope Z_scope.

(** [routecore::bmp::message::InformationTlvType]. *)
Inductive InformationTlvType : Type :=
| TlvString | TlvSysDesc | TlvSysName | TlvVrfTableName | TlvAdminLabel
| TlvOther (t : Z).

#[export] Instance InformationTlvType_eq_dec : EqDecision InformationTlvType.
Proof. solve_decision. Defined.

Record InformationTlv : Type := mk_tlv {
  tlv_typ : InformationTlvType;
  tlv_value : list Z
}.

(** The variants of [routecore]'s [Nlri] that [RotondaRoute] has no variant
    for. *)
Inductive UnsupportedNlri : Type :=
| Ipv4UnicastAddpath | Ipv4MulticastAddpath | NIpv4MplsUnicast
| Ipv4MplsUnicastAddpath | NIpv4MplsVpnUnicast | Ipv4MplsVpnUnicastAddpath
| NIpv4RouteTarget | Ipv4RouteTargetAddpath | NIpv4FlowSpec
| Ipv4FlowSpecAddpath | Ipv6UnicastAddpath | Ipv6MulticastAddpath
| NIpv6MplsUnicast | Ipv6MplsUnicastAddpath | NIpv6MplsVpnUnicast
| Ipv6MplsVpnUnicastAddpath | NIpv6FlowSpec | Ipv6FlowSpecAddpath
| NL2VpnVpls | L2VpnVplsAddpath | NL2VpnEvpn | L2VpnEvpnAddpath.

(** ** The parser

    - [pph_key]: the class of a header under the crate's [Eq] and [Hash], which
      key the state machine's map; headers of one class have the same peer
      identity;
    - [pph_bytes], [for_slice]: the 42 octets of a header, and a header read
      from octets;
    - a session configuration's four-octet-ASN switch is a setting of its own. *)
Class Routecore `{Extern} := {
  PerPeerHeader : Type;
  PphKey : Type;
  PphKey_eq_dec :: EqDecision PphKey;
  PphKey_countable :: Countable PphKey;
  pph_key : PerPeerHeader -> PphKey;
  pph_peer_type : PerPeerHeader -> PeerType;
  pph_distinguisher : PerPeerHeader -> list Z;
  pph_address : PerPeerHeader -> IpAddr;
  pph_asn : PerPeerHeader -> Asn;
  pph_bgp_id : PerPeerHeader -> list Z;
  pph_is_post_policy : PerPeerHeader -> bool;
  pph_rib_type : PerPeerHeader -> RibType;
  pph_adj_rib_type : PerPeerHeader -> RibType;
  pph_bytes : PerPeerHeader -> list Z;
  for_slice : list Z -> PerPeerHeader;

  SessionConfig : Type;
  SessionConfig_eq_dec :: EqDecision SessionConfig;
  config_four_octet_enabled : SessionConfig -> bool;
  set_four_octet_asns : bool -> SessionConfig -> SessionConfig;

  ParseErr : Type;
  UpdateMessage : Type;
  OtherNlri : Type;
  other_nlri_kind : OtherNlri -> UnsupportedNlri;
  other_nlri_afi_safi : OtherNlri -> AfiSafiType;
  upd_is_eor : UpdateMessage -> ParseErr + option AfiSafiType;
  upd_path_attributes : UpdateMessage -> ParseErr + OwnedPathAttributes;
  upd_pdu_parse_info : UpdateMessage -> PduParseInfo;
  from_utf8_lossy : list Z -> rstring;

  pph_identity p q :
    pph_key p = pph_key q ->
    pph_peer_type p = pph_peer_type q
    /\ pph_distinguisher p = pph_distinguisher q
    /\ pph_address p = pph_address q /\ pph_asn p = pph_asn q
    /\ pph_bgp_id p = pph_bgp_id q;
  pph_length p : length (pph_bytes p) = 42%nat;
  four_octet_set b c : config_four_octet_enabled (set_four_octet_asns b c) = b;
  four_octet_same c : set_four_octet_asns (config_four_octet_enabled c) c = c;
  four_octet_over b b' c :
    set_four_octet_asns b (set_four_octet_asns b' c) = set_four_octet_asns b c
}.

Section Messages.
Context `{E : Extern} `{RC : !Routecore}.

(** [routecore]'s [Nlri]. *)
Inductive Nlri : Type :=
| NlriIpv4Unicast (n : Prefix)
| NlriIpv4Multicast (n : Prefix)
| NlriIpv6Unicast (n : Prefix)
| NlriIpv6Multicast (n : Prefix)
| NlriOther (n : OtherNlri).

Definition nlri_afi_safi (n : Nlri) : AfiSafiType :=
  match n with
  | NlriIpv4Unicast _ => Ipv4Unicast
  | NlriIpv4Multicast _ => Ipv4Multicast
  | NlriIpv6Unicast _ => Ipv6Unicast
  | NlriIpv6Multicast _ => Ipv6Multicast
  | NlriOther n => other_nlri_afi_safi n
  end.

(** [impl TryFrom<(Nlri<O>, RotondaPaMap)> for RotondaRoute]. *)
Definition route_try_from (n : Nlri) (pamap : RotondaPaMap)
  : option RotondaRoute :=
  match n with
  | NlriIpv4Unicast n => Some (RR_Ipv4Unicast n pamap)
  | NlriIpv4Multicast n => Some (RR_Ipv4Multicast n pamap)
  | NlriIpv6Unicast n => Some (RR_Ipv6Unicast n pamap)
  | NlriIpv6Multicast n => Some (RR_Ipv6Multicast n pamap)
  | NlriOther _ => None
  end.

(** The NLRI of an UPDATE as the crate yields them: the section may be
    unreadable, or any element of it. *)
Definition NlriSection : Type := ParseErr + list (ParseErr + Nlri).

Record Parsed : Type := mk_parsed {
  update : UpdateMessage;
  announcements : NlriSection;
  withdrawals : NlriSection;
  announcements_vec : ParseErr + list Nlri
}.

(** The loop of the two [explode_*] functions: the first unreadable element
    ends it, one without a [RotondaRoute] is skipped. *)
Fixpoint explode_loop (pamap : RotondaPaMap) (l : list (ParseErr + Nlri))
  : ParseErr + list RotondaRoute :=
  match l with
  | [] => inr []
  | inl e :: _ => inl e
  | inr a :: l =>
      match explode_loop pamap l with
      | inl e => inl e
      | inr res =>
          inr (match route_try_from a pamap with
               | Some r => r :: res
               | None => res
               end)
      end
  end.

Definition explode_announcements (u : Parsed) : ParseErr + list RotondaRoute :=
  match upd_path_attributes (update u) with
  | inl e => inl e
  | inr pas =>
      match announcements u with
      | inl e => inl e
      | inr l => explode_loop (pamap_new pas) l
      end
  end.

Definition explode_withdrawals (u : Parsed) : ParseErr + list RotondaRoute :=
  let pamap := pamap_new (mk_opa (upd_pdu_parse_info (update u)) []) in
  match withdrawals u with
  | inl e => inl e
  | inr l => explode_loop pamap l
  end.

(** ** Messages *)
Record InitiationMsg : Type := mk_initiation {
  init_raw : list Z;
  init_tlvs : list InformationTlv
}.

Record PeerUpMsg : Type := mk_peer_up {
  up_raw : list Z;
  up_pph : PerPeerHeader;
  up_config : SessionConfig;
  up_graceful_restart : bool;
  up_sent_capabilities : list Z;
  up_rcvd_capabilities : list Z;
  up_tlvs : list InformationTlv
}.

Record PeerDownMsg : Type := mk_peer_down {
  down_raw : list Z;
  down_pph : PerPeerHeader
}.

Record RouteMonitoringMsg : Type := mk_route_monitoring {
  rm_raw : list Z;
  rm_pph : PerPeerHeader;
  rm_bgp_update : SessionConfig -> ParseErr + Parsed
}.

Record StatisticsMsg : Type := mk_statistics {
  st_raw : list Z;
  st_pph : PerPeerHeader
}.

Inductive BmpMsg : Type :=
| InitiationMessage (m : InitiationMsg)
| PeerUpNotification (m : PeerUpMsg)
| PeerDownNotification (m : PeerDownMsg)
| RouteMonitoring (m : RouteMonitoringMsg)
| StatisticsReport (m : StatisticsMsg)
| TerminationMessage (raw : list Z)
| RouteMirroring (raw : list Z).

Definition msg_bytes (m : BmpMsg) : list Z :=
  match m with
  | InitiationMessage m => init_raw m
  | PeerUpNotification m => up_raw m
  | PeerDownNotification m => down_raw m
  | RouteMonitoring m => rm_raw m
  | StatisticsReport m => st_raw m
  | TerminationMessage r | RouteMirroring r => r
  end.

(** The error texts of the state machine, by the [format!] that builds them and
    its arguments. *)
Inductive ErrMsg : Type :=
| ErrExpectedInitiation (m : BmpMsg)
| ErrTerminated (m : BmpMsg)
| ErrAlreadyUp (p : PerPeerHeader)
| ErrDownNotUp
| ErrSynthesize (p : PerPeerHeader)
| ErrSynthesizeSibling (p : PerPeerHeader)
| ErrMonitoringNotUp (p : PerPeerHeader)
| ErrNlri (c : SessionConfig) (e : ParseErr)
| ErrUnparsable
| ErrUpdate (c : SessionConfig) (e : ParseErr)
| ErrReparsed (e : ParseErr).

End Messages.

(** [MessageType] of [processing.rs]. *)
Inductive MessageType `{E : Extern} `{L : Layout} `{RC : !Routecore} : Type :=
| InvalidMessage (known_peer : option bool) (bytes : option (list Z))
    (err : ErrMsg)
| Other
| RoutingUpdate (u : Update)
| StateTransition
| Aborted.

(** ** A concrete instance

    Headers as 42 octets with the layout of RFC 7854 section 4.2 and RFC 8671,
    compared without their timestamp. *)
Module DemoBmp.

Record header := mk_header {
  octs : list Z;
  octs_ok : bool_decide (length octs = 42%nat) = true
}.

Definition octet (i : nat) (h : header) : Z := default 0 (octs h !! i).

Definition slice (i n : nat) (h : header) : list Z := take n (drop i (octs h)).

Definition flag (i : Z) (h : header) : bool := Z.testbit (octet 1 h) i.

Definition peer_type_of (h : header) : PeerType :=
  match octet 0 h with
  | 0 => GlobalInstance | 1 => RdInstance | 2 => LocalInstance
  | 3 => LocalRibInstance | b => PeerTypeUnassigned b
  end.

Definition adj_rib_type_of (h : header) : RibType :=
  if flag 4 h then AdjRibOut else AdjRibIn.

Definition rib_type_of (h : header) : RibType :=
  match peer_type_of h with
  | LocalRibInstance => LocRib
  | _ => adj_rib_type_of h
  end.

Definition address_of (h : header) : IpAddr :=
  if flag 7 h then V6 (be_val (slice 10 16 h)) else V4 (be_val (slice 22 4 h)).

(** Forty-two octets from any list. *)
Definition fit (l : list Z) : list Z := take 42 (l ++ zeros 42).

Lemma fit_length l : bool_decide (length (fit l) = 42%nat) = true.
Proof.
  apply bool_decide_eq_true. unfold fit, zeros.
  rewrite length_take, length_app, length_replicate. lia.
Qed.

Definition of_slice (l : list Z) : header := mk_header (fit l) (fit_length l).

Definition key (h : header) : list Z := take 34 (octs h).

Lemma key_octet h i : (i < 34)%nat -> octet i h = default 0 (key h !! i).
Proof. intros Hi. unfold octet, key. by rewrite lookup_take_lt. Qed.

Lemma key_slice h i n :
  (i + n <= 34)%nat -> slice i n h = take n (drop i (key h)).
Proof.
  intros Hi. unfold slice, key. rewrite !take_drop_commute, take_take.
  by rewrite Nat.min_l by lia.
Qed.

Lemma key_identity h1 h2 :
  key h1 = key h2 ->
  peer_type_of h1 = peer_type_of h2 /\ slice 2 8 h1 = slice 2 8 h2
  /\ address_of h1 = address_of h2
  /\ be_val (slice 26 4 h1) = be_val (slice 26 4 h2)
  /\ slice 30 4 h1 = slice 30 4 h2.
Proof.
  intros Hk. unfold peer_type_of, address_of, flag.
  rewrite !key_octet, !key_slice, !Hk by lia. done.
Qed.

(** What the accessors of an UPDATE return. *)
Record upd := mk_upd {
  u_eor : unit + option AfiSafiType;
  u_pas : unit + OwnedPathAttributes;
  u_ppi : PduParseInfo
}.

Definition routecore : @Routecore Demo.extern :=
  @Build_Routecore Demo.extern header (list Z) _ _ key peer_type_of (slice 2 8)
    address_of (fun h => be_val (slice 26 4 h)) (slice 30 4) (flag 6)
    rib_type_of adj_rib_type_of octs of_slice
    (bool * Z) _ fst (fun b c => (b, snd c))
    unit upd (UnsupportedNlri * AfiSafiType) fst snd u_eor u_pas u_ppi id
    key_identity
    (fun h => proj1 (bool_decide_eq_true _) (octs_ok h))
    (fun b c => eq_refl) (fun c => match c with (a, x) => eq_refl end)
    (fun b b' c => eq_refl).

(** A header with these flags, of peer 10.0.0.1 in AS 65001. *)
Definition peer_header (flags : Z) : header :=
  of_slice ([0; flags] ++ zeros 8 ++ zeros 12 ++ [10; 0; 0; 1]
            ++ be_bytes 4 65001 ++ [1; 2; 3; 4]).

End DemoBmp.
