(* ===== verification/BmpIo.v ===== *)
(** * Reading BMP messages from a connection ([src/units/bmp_tcp_in/io.rs])

    [bmp_read] cuts the byte stream into messages by the length field of their
    common header; [BmpStream::next] reads one while it listens to the gate.
    A connection is the sequence of what its reads will yield: octets, and I/O
    errors between them; at its end the peer has closed it. *)

From S2P Require Import Prelude Net Register Payload BmpMsg.
From Stdlib Require Import ZArith Lia.
From stdpp Require Import base numbers list gmap.

Local Open Scope Z_scope.

(** [std::io::ErrorKind]; [Uncategorized] stands for the kinds that the source
    does not name. *)
Inductive ErrorKind : Type :=
| TimedOut | Interrupted | KindNotFound | PermissionDenied | ConnectionRefused
| ConnectionReset | ConnectionAborted | NotConnected | AddrInUse | AddrNotAvailable
| BrokenPipe | AlreadyExists | WouldBlock | InvalidInput | InvalidData | WriteZero
| Unsupported | UnexpectedEof | OutOfMemory | OtherKind | Uncategorized.

#[export] Instance ErrorKind_eq_dec : EqDecision ErrorKind.
Proof. solve_decision. Defined.

(** [FatalError::is_fatal]. *)
Definition is_fatal (k : ErrorKind) : bool :=
  match k with
  | TimedOut => false
  | Interrupted => false
  | OtherKind => false
  | _ => true
  end.

Inductive TracingMode : Type := TracingOff | IfRequested | TracingOn.

#[export] Instance TracingMode_eq_dec : EqDecision TracingMode.
Proof. solve_decision. Defined.

Inductive Item : Type := Octet (b : Z) | Failure (k : ErrorKind).

Definition Stream : Type := list Item.

(** [AsyncReadExt::read_exact]: the octets read before an error are gone. *)
Fixpoint read_exact (n : nat) (rx : Stream) : (ErrorKind + list Z) * Stream :=
  match n with
  | O => (inr [], rx)
  | S n =>
      match rx with
      | [] => (inl UnexpectedEof, [])
      | Failure k :: rx => (inl k, rx)
      | Octet b :: rx =>
          match read_exact n rx with
          | (inr l, rx) => (inr (b :: l), rx)
          | (inl k, rx) => (inl k, rx)
          end
      end
  end.

Definition MIN_BMP_MSG_LEN : Z := 6.
Definition MAX_BMP_MSG_LEN : Z := 2 * 1024 * 1024.

(** The trace id of the first octet, and the octet without it. *)
Definition take_trace (mode : TracingMode) (b : Z) : Z * Z :=
  if bool_decide (mode <> TracingOff) then (Z.shiftr b 4, Z.land b 15) else (0, b).

Section Read.
Context `{E : Extern} `{RC : !Routecore}.

(** [routecore]'s [Message::from_octets]. *)
Class BmpParser := from_octets : list Z -> option BmpMsg.

Context `{BP : BmpParser}.

(** [bmp_read]. The buffer is first five octets, then resized to the length
    field; [read_exact] fills the slice from the sixth on. *)
Definition bmp_read (mode : TracingMode) (rx : Stream)
  : (ErrorKind + list Z * Z) * Stream :=
  match read_exact 5 rx with
  | (inl k, rx) => (inl k, rx)
  | (inr buf, rx) =>
      let '(trace_id, version) := take_trace mode (default 0 (buf !! 0%nat)) in
      let buf := version :: drop 1 buf in
      let len := be_val (take 4 (drop 1 buf)) in
      if negb ((MIN_BMP_MSG_LEN <=? len) && (len <=? MAX_BMP_MSG_LEN))
      then (inl InvalidData, rx)
      else
        match read_exact (Z.to_nat len - 5) rx with
        | (inl k, rx) => (inl k, rx)
        | (inr rest, rx) =>
            match from_octets (buf ++ rest) with
            | Some _ => (inr (buf ++ rest, trace_id), rx)
            | None => (inl OtherKind, rx)
            end
        end
  end.

(** ** [BmpStream] *)
Context {GateStatus : Type}.

Record BmpStream : Type := mk_stream { rx : option Stream; tracing_mode : TracingMode }.

(** What [next] answers: [None] in place of a message is the termination of the
    gate. *)
Definition Next : Type := ErrorKind + option (list Z) * option GateStatus * Z.

(** [next], with what the gate reports before the read completes: status
    changes, of which the last is handed on, or its termination, which drops
    the receiver with the read. *)
Fixpoint next_loop (evs : list (option GateStatus)) (saved : option GateStatus)
    (s : Stream) (mode : TracingMode) : Next * BmpStream :=
  match evs with
  | None :: _ => (inr (None, None, 0), mk_stream None mode)
  | Some status :: evs => next_loop evs (Some status) s mode
  | [] =>
      match bmp_read mode s with
      | (inl k, s) => (inl k, mk_stream (if is_fatal k then None else Some s) mode)
      | (inr (msg, trace_id), s) => (inr (Some msg, saved, trace_id), mk_stream (Some s) mode)
      end
  end.

Definition stream_next (evs : list (option GateStatus)) (b : BmpStream) : Next * BmpStream :=
  match rx b with
  | Some s => next_loop evs None s (tracing_mode b)
  | None => (inl OtherKind, b)
  end.

(** ** Lemmas *)
Lemma read_exact_spec n s :
  match read_exact n s with
  | (inr l, s') => s = (Octet <$> l) ++ s' /\ length l = n
  | (inl k, s') => exists l, (length l < n)%nat
      /\ (s = (Octet <$> l) ++ Failure k :: s' \/ s = Octet <$> l /\ k = UnexpectedEof /\ s' = [])
  end.
Proof.
  revert s. induction n as [|n IH]; intros s; cbn [read_exact]; [done|].
  destruct s as [|[b|k] s].
  - exists []. split; [cbn; lia|]. by right.
  - specialize (IH s). destruct (read_exact n s) as [[k|l] s'].
    + destruct IH as (l & Hl & [->|(-> & -> & ->)]); exists (b :: l); (split; [cbn; lia|]); [left|right]; done.
    + destruct IH as [-> Hl]. split; [done|]. cbn. by f_equal.
  - exists []. split; [cbn; lia|]. by left.
Qed.

Lemma read_exact_octets l s : read_exact (length l) ((Octet <$> l) ++ s) = (inr l, s).
Proof. induction l as [|b l IH]; cbn; [done|]. by rewrite IH. Qed.

Lemma read_exact_shorter n s :
  (0 < n)%nat ->
  (length (snd (read_exact n s)) < length s)%nat
  \/ fst (read_exact n s) = inl UnexpectedEof /\ snd (read_exact n s) = [].
Proof.
  intros Hn. pose proof (read_exact_spec n s) as H. destruct (read_exact n s) as [[k|l] s']; cbn.
  - destruct H as (l & _ & [->|(-> & -> & ->)]); [left|by right].
    rewrite length_app. cbn. lia.
  - destruct H as [-> Hl]. left. rewrite length_app, length_fmap. lia.
Qed.

(** Reading makes progress. *)
Lemma bmp_read_shorter mode s :
  (length (snd (bmp_read mode s)) < length s)%nat
  \/ fst (bmp_read mode s) = inl UnexpectedEof /\ snd (bmp_read mode s) = [].
Proof.
  unfold bmp_read. pose proof (read_exact_shorter 5 s ltac:(lia)) as H5.
  destruct (read_exact 5 s) as [[k|buf] s1]; cbn [fst snd] in *.
  { destruct H5 as [?|[Hk ->]]; [by left|]. right. by injection Hk as ->. }
  destruct H5 as [H5|[? _]]; [|done].
  destruct (take_trace _ _) as [trace version].
  destruct (negb _) eqn:Hlen; [by left|].
  set (n := (Z.to_nat _ - 5)%nat). pose proof (read_exact_spec n s1) as Hn.
  destruct (read_exact n s1) as [[k|rest] s2]; cbn [fst snd].
  - destruct Hn as (l & _ & [->|(-> & -> & ->)]); [left|by right].
    rewrite length_app in H5. cbn in *. lia.
  - destruct Hn as [-> _]. left. rewrite length_app in H5.
    destruct (from_octets _); cbn; lia.
Qed.

(** ** Framing *)

(** The octet that carries a trace id with the version. *)
Lemma take_trace_join mode t v :
  0 <= t < 16 -> 0 <= v < 16 -> (mode = TracingOff -> t = 0) ->
  take_trace mode (16 * t + v) = (t, v).
Proof.
  intros Ht Hv Hm. unfold take_trace. case_bool_decide as Ho.
  - f_equal.
    + rewrite Z.shiftr_div_pow2 by lia. change (2 ^ 4) with 16.
      symmetry. apply (Z.div_unique _ _ _ v); lia.
    + rewrite (Z.land_ones _ 4) by lia. change (2 ^ 4) with 16.
      symmetry. apply (Z.mod_unique _ _ t); lia.
  - destruct (decide (mode = TracingOff)) as [Hoff|]; [|contradiction].
    by rewrite (Hm Hoff).
Qed.

(** A message on the wire: trace id, version and what follows the length. *)
Record Frame : Type := mk_frame { f_trace : Z; f_version : Z; f_body : list Z }.

Definition frame_len (f : Frame) : Z := 5 + zlen (f_body f).

Definition frame_msg (f : Frame) : list Z :=
  f_version f :: be_bytes 4 (frame_len f) ++ f_body f.

Definition frame_wire (f : Frame) : list Z :=
  (16 * f_trace f + f_version f) :: be_bytes 4 (frame_len f) ++ f_body f.

Record frame_ok (mode : TracingMode) (f : Frame) : Prop := {
  fr_trace : 0 <= f_trace f < 16;
  fr_untraced : mode = TracingOff -> f_trace f = 0;
  fr_version : 0 <= f_version f < 16;
  fr_len : MIN_BMP_MSG_LEN <= frame_len f <= MAX_BMP_MSG_LEN;
  fr_parses : is_Some (from_octets (frame_msg f))
}.

Lemma be_val_len n : 0 <= n <= MAX_BMP_MSG_LEN -> be_val (be_bytes 4 n) = n.
Proof.
  intros Hn. rewrite be_val_be_bytes. apply Z.mod_small. split; [lia|].
  eapply Z.le_lt_trans; [apply Hn|]. by vm_compute.
Qed.

Lemma bmp_read_frame mode f s :
  frame_ok mode f ->
  bmp_read mode ((Octet <$> frame_wire f) ++ s) = (inr (frame_msg f, f_trace f), s).
Proof.
  intros [Ht Hu Hv Hl [m Hm]]. unfold bmp_read, frame_wire.
  set (b := 16 * f_trace f + f_version f).
  assert ((Octet <$> b :: be_bytes 4 (frame_len f) ++ f_body f) ++ s
    = (Octet <$> (b :: be_bytes 4 (frame_len f))) ++ (Octet <$> f_body f) ++ s) as ->.
  { rewrite app_assoc, <- fmap_app. done. }
  change 5%nat with (length (b :: be_bytes 4 (frame_len f))) at 1.
  rewrite read_exact_octets.
  change (default 0 ((b :: be_bytes 4 (frame_len f)) !! 0%nat)) with b.
  unfold b. rewrite take_trace_join by done. cbn beta iota.
  assert (take 4 (drop 1 (f_version f :: drop 1 (16 * f_trace f + f_version f :: be_bytes 4 (frame_len f))))
    = be_bytes 4 (frame_len f)) as Htake by done.
  cbn [drop] in *. rewrite Htake, be_val_len by (unfold MIN_BMP_MSG_LEN in Hl; lia).
  assert ((MIN_BMP_MSG_LEN <=? frame_len f) && (frame_len f <=? MAX_BMP_MSG_LEN) = true) as ->
    by (apply andb_true_iff; split; apply Z.leb_le; lia).
  cbn [negb]. assert (Z.to_nat (frame_len f) - 5 = length (f_body f))%nat as ->.
  { unfold frame_len, zlen. lia. }
  rewrite read_exact_octets.
  match goal with |- context [from_octets ?x] => change x with (frame_msg f) end. by rewrite Hm.
Qed.

(** Reads [n] messages. *)
Fixpoint read_msgs (n : nat) (mode : TracingMode) (s : Stream)
  : (ErrorKind + list (list Z * Z)) * Stream :=
  match n with
  | O => (inr [], s)
  | S n =>
      match bmp_read mode s with
      | (inl k, s) => (inl k, s)
      | (inr m, s) =>
          match read_msgs n mode s with
          | (inr l, s) => (inr (m :: l), s)
          | (inl k, s) => (inl k, s)
          end
      end
  end.

(** Messages written one after the other are read back one by one, with
    their trace ids, whatever follows them on the connection. *)
Theorem frames_read_back mode fs s :
  Forall (frame_ok mode) fs ->
  read_msgs (length fs) mode ((Octet <$> concat (frame_wire <$> fs)) ++ s)
  = (inr ((fun f => (frame_msg f, f_trace f)) <$> fs), s).
Proof.
  induction 1 as [|f fs Hf _ IH]; [done|]. cbn [length read_msgs fmap list_fmap concat].
  rewrite fmap_app, <- app_assoc, bmp_read_frame by done. by rewrite IH.
Qed.

(** The length field of the wire is never trusted. A message that
    [bmp_read] returns has between 6 octets and 2 MiB, as many as its length
    field says, and was accepted by the parser; a length outside these bounds
    is refused after the five octets of the header, a message that the parser
    refuses is consumed as a whole so that the next read starts at the next
    message, and otherwise an error is one of the connection. In no case more
    than 2 MiB are read. *)
Theorem bmp_read_bounded mode s :
  match bmp_read mode s with
  | (inr (msg, trace), s') =>
      MIN_BMP_MSG_LEN <= zlen msg <= MAX_BMP_MSG_LEN
      /\ be_val (take 4 (drop 1 msg)) = zlen msg
      /\ is_Some (from_octets msg)
      /\ (exists b, s = (Octet <$> b :: drop 1 msg) ++ s'
                    /\ take_trace mode b = (trace, default 0 (msg !! 0%nat)))
  | (inl k, s') =>
      (exists hdr, s = (Octet <$> hdr) ++ s' /\ length hdr = 5%nat /\ k = InvalidData
         /\ ~ (MIN_BMP_MSG_LEN <= be_val (drop 1 hdr) <= MAX_BMP_MSG_LEN))
      \/ (exists hdr body, s = (Octet <$> hdr ++ body) ++ s' /\ length hdr = 5%nat
            /\ be_val (drop 1 hdr) = zlen (hdr ++ body) /\ zlen (hdr ++ body) <= MAX_BMP_MSG_LEN
            /\ k = OtherKind)
      \/ (exists l, zlen l <= MAX_BMP_MSG_LEN
            /\ (s = (Octet <$> l) ++ Failure k :: s'
                \/ s = Octet <$> l /\ k = UnexpectedEof /\ s' = []))
  end.
Proof.
  unfold bmp_read. pose proof (read_exact_spec 5 s) as H5.
  destruct (read_exact 5 s) as [[k|buf] s1].
  { right. right. destruct H5 as (l & Hl & H). exists l. split; [|done].
    unfold zlen, MAX_BMP_MSG_LEN. lia. }
  destruct H5 as [-> Hlen]. destruct buf as [|b hdr]; [done|]. cbn in Hlen. injection Hlen as Hhdr.
  change (default 0 ((b :: hdr) !! 0%nat)) with b. destruct (take_trace mode b) as [trace v] eqn:Htr.
  change (drop 1 (b :: hdr)) with hdr. change (drop 1 (v :: hdr)) with hdr.
  assert (take 4 hdr = hdr) as -> by (rewrite <- Hhdr; apply firstn_all).
  destruct (negb _) eqn:Hr.
  { left. exists (b :: hdr). split; [done|]. split; [by cbn; f_equal|]. split; [done|]. change (drop 1 (b :: hdr)) with hdr.
    apply negb_true_iff in Hr. intros [H1 H2]. apply Z.leb_le in H1, H2. by rewrite H1, H2 in Hr. }
  apply negb_false_iff, andb_true_iff in Hr as [Hmin%Z.leb_le Hmax%Z.leb_le].
  set (n := (Z.to_nat (be_val hdr) - 5)%nat). pose proof (read_exact_spec n s1) as Hn.
  destruct (read_exact n s1) as [[k|body] s2].
  - right. right. destruct Hn as (l & Hl & H). exists ((b :: hdr) ++ l). split.
    { unfold zlen, n, MIN_BMP_MSG_LEN in *. rewrite length_app. cbn. lia. }
    destruct H as [->|(-> & -> & ->)]; [left|right].
    + rewrite fmap_app, <- app_assoc. done.
    + split; [by rewrite <- fmap_app|done].
  - destruct Hn as [-> Hbody].
    assert (zlen ((b :: hdr) ++ body) = be_val hdr) as Hz.
    { unfold zlen, n, MIN_BMP_MSG_LEN in *. rewrite length_app. cbn. lia. }
    destruct (from_octets ((v :: hdr) ++ body)) as [m|] eqn:Hm.
    + change (zlen ((v :: hdr) ++ body)) with (zlen ((b :: hdr) ++ body)). rewrite Hz.
      split; [done|]. split; [|split; [by rewrite Hm|]].
      * change (drop 1 ((v :: hdr) ++ body)) with (hdr ++ body). rewrite take_app_le by lia. by rewrite <- Hhdr, firstn_all.
      * exists b. split; [|done]. change (drop 1 ((v :: hdr) ++ body)) with (hdr ++ body). rewrite app_assoc, <- fmap_app. done.
    + right. left. exists (b :: hdr), body. rewrite app_assoc, <- fmap_app. rewrite Hz.
      split; [done|]. split; [by cbn; f_equal|]. done.
Qed.

End Read.

Lemma frames_read_back_witness :
  let E := Demo.extern in
  let RC := DemoBmp.routecore in
  let BP : BmpParser := fun l => Some (TerminationMessage l) in
  read_msgs 2 TracingOn (Octet <$> [19; 0; 0; 0; 6; 5; 3; 0; 0; 0; 8; 5; 1; 2; 9])
  = (inr [([3; 0; 0; 0; 6; 5], 1); ([3; 0; 0; 0; 8; 5; 1; 2], 0)], [Octet 9]).
Proof.
  intros E RC BP.
  apply (frames_read_back TracingOn [mk_frame 1 3 [5]; mk_frame 0 3 [5; 1; 2]] [Octet 9]).
  repeat constructor; cbn; try lia; try done; by eexists.
Defined.
