(* ===== verification/BmpMetrics.v ===== *)
(** * Metrics of the BMP state machine
    ([src/units/bmp_tcp_in/state_machine/metrics.rs] and
    [status_reporter.rs])

    The ring buffer of recent parse errors, the counters kept per router, and
    the reporter operations that update them.  The counters are [AtomicUsize]:
    additions and subtractions wrap. *)

From S2P Require Import Prelude Net Register Payload BmpMsg.
From Stdlib Require Import ZArith Lia.
From stdpp Require Import base numbers list gmap fin_maps.

Local Open Scope Z_scope.

Definition MAX_RECENT_PARSE_ERRORS : nat := 10.

(** ** [ParseErrorsRingBuffer] *)
Section Ring.
Context {A : Type} (default : A).

Record Ring : Type := mk_ring {
  errors : list A;
  next_idx : nat
}.

Definition ring_default : Ring := mk_ring [] 0.

(** [Vec::resize] to a longer length. *)
Definition resize (n : nat) (l : list A) : list A :=
  l ++ replicate (n - length l) default.

(** [ParseErrorsRingBuffer::push]. *)
Definition ring_push (e : A) (r : Ring) : Ring :=
  let i := next_idx r in
  let locked :=
    if bool_decide (length (errors r) < i + 1)%nat
    then resize (i + 1) (errors r) else errors r in
  mk_ring (<[i := e]> locked)
    (if bool_decide (MAX_RECENT_PARSE_ERRORS - 1 <= i)%nat then 0%nat
     else (i + 1)%nat).

(** [ParseErrorsRingBuffer::get]: older and newer part. *)
Definition ring_get (r : Ring) : list A * list A :=
  if bool_decide (length (errors r) < MAX_RECENT_PARSE_ERRORS)%nat
  then (errors r, [])
  else (drop (next_idx r) (errors r), take (next_idx r) (errors r)).

(** The contents after a history of pushes: before the first wrap the history
    itself, afterwards its last ten entries rotated to where they were
    written. *)
Definition ring_holds (h : list A) (r : Ring) : Prop :=
  let n := length h in
  next_idx r = (n mod MAX_RECENT_PARSE_ERRORS)%nat
  /\ ((n < MAX_RECENT_PARSE_ERRORS)%nat /\ errors r = h
      \/ exists old,
           length (errors r) = MAX_RECENT_PARSE_ERRORS
           /\ h = old ++ drop (next_idx r) (errors r)
                  ++ take (next_idx r) (errors r)).

End Ring.

Arguments Ring : clear implicits.

Section Metrics.
Context `{E : Extern} `{RC : !Routecore}.

(** [BmpStateIdx]. *)
Inductive BmpStateIdx : Type :=
| IdxInitiating | IdxDumping | IdxUpdating | IdxTerminated | IdxAborted.

#[export] Instance BmpStateIdx_eq_dec : EqDecision BmpStateIdx.
Proof. solve_decision. Defined.

(** [ParseError]; the pcap text is the hex dump of the bytes. *)
Record ParseError : Type := mk_parse_error {
  pe_msg : option ErrMsg;
  pe_bytes : option (list Z);
  pe_recoverable : bool
}.

Definition parse_error_default : ParseError := mk_parse_error None None false.

(** [RouterBmpMetrics]. *)
Record RouterBmpMetrics : Type := mk_metrics {
  bmp_state_machine_state : BmpStateIdx;
  num_received_prefixes : Z;
  num_msgs_with_unknown_peer : Z;
  num_bgp_updates_reparsed : Z;
  num_unprocessable_bmp_messages : Z;
  num_announcements : Z;
  num_withdrawals : Z;
  num_peers_up : Z;
  num_peers_up_eor_capable : Z;
  num_peers_up_dumping : Z;
  parse_errors : Ring ParseError
}.

End Metrics.

(** By router id. *)
Abbreviation BmpStateMachineMetrics := (gmap rstring RouterBmpMetrics).

Section Reporter.
Context `{E : Extern} `{RC : !Routecore}.

(** The entry that [router_metrics] inserts on first use. *)
Definition fresh_metrics : RouterBmpMetrics :=
  mk_metrics IdxDumping 0 0 0 0 0 0 0 0 0 ring_default.

Definition router_metrics (id : rstring) (m : BmpStateMachineMetrics)
  : RouterBmpMetrics := default fresh_metrics (m !! id).

Definition on_router (id : rstring) (f : RouterBmpMetrics -> RouterBmpMetrics)
    (m : BmpStateMachineMetrics) : BmpStateMachineMetrics :=
  <[id := f (router_metrics id m)]> m.

Definition fetch_add (v n : Z) : Z := wrap 64 (v + n).
Definition fetch_sub (v n : Z) : Z := wrap 64 (v - n).

(** ** The reporter's operations *)

(** [change_state]: the old index is not used. *)
Definition change_state (old new : BmpStateIdx) (m : RouterBmpMetrics)
  : RouterBmpMetrics :=
  mk_metrics new (num_received_prefixes m) (num_msgs_with_unknown_peer m)
    (num_bgp_updates_reparsed m) (num_unprocessable_bmp_messages m)
    (num_announcements m) (num_withdrawals m) (num_peers_up m)
    (num_peers_up_eor_capable m) (num_peers_up_dumping m) (parse_errors m).

Definition report_peer_up (eor_capable : bool) (m : RouterBmpMetrics)
  : RouterBmpMetrics :=
  mk_metrics (bmp_state_machine_state m) (num_received_prefixes m)
    (num_msgs_with_unknown_peer m) (num_bgp_updates_reparsed m)
    (num_unprocessable_bmp_messages m) (num_announcements m)
    (num_withdrawals m) (fetch_add (num_peers_up m) 1)
    (if eor_capable then fetch_add (num_peers_up_eor_capable m) 1
     else num_peers_up_eor_capable m)
    (num_peers_up_dumping m) (parse_errors m).

Definition report_peer_down (eor_capable : option bool) (m : RouterBmpMetrics)
  : RouterBmpMetrics :=
  mk_metrics (bmp_state_machine_state m) (num_received_prefixes m)
    (num_msgs_with_unknown_peer m) (num_bgp_updates_reparsed m)
    (num_unprocessable_bmp_messages m) (num_announcements m)
    (num_withdrawals m) (fetch_sub (num_peers_up m) 1)
    (if bool_decide (Some true = eor_capable)
     then fetch_sub (num_peers_up_eor_capable m) 1
     else num_peers_up_eor_capable m)
    (num_peers_up_dumping m) (parse_errors m).

Definition report_peer_unknown (m : RouterBmpMetrics) : RouterBmpMetrics :=
  mk_metrics (bmp_state_machine_state m) (num_received_prefixes m)
    (fetch_add (num_msgs_with_unknown_peer m) 1) (num_bgp_updates_reparsed m)
    (num_unprocessable_bmp_messages m) (num_announcements m)
    (num_withdrawals m) (num_peers_up m) (num_peers_up_eor_capable m)
    (num_peers_up_dumping m) (parse_errors m).

Definition push_error (err : ErrMsg) (bytes : option (list Z)) (rec : bool)
    (m : RouterBmpMetrics) : Ring ParseError :=
  ring_push parse_error_default (mk_parse_error (Some err) bytes rec)
    (parse_errors m).

Definition bgp_update_parse_soft_fail (err : ErrMsg) (bytes : option (list Z))
    (m : RouterBmpMetrics) : RouterBmpMetrics :=
  mk_metrics (bmp_state_machine_state m) (num_received_prefixes m)
    (num_msgs_with_unknown_peer m) (fetch_add (num_bgp_updates_reparsed m) 1)
    (num_unprocessable_bmp_messages m) (num_announcements m)
    (num_withdrawals m) (num_peers_up m) (num_peers_up_eor_capable m)
    (num_peers_up_dumping m) (push_error err bytes true m).

Definition bgp_update_parse_hard_fail (err : ErrMsg) (bytes : option (list Z))
    (m : RouterBmpMetrics) : RouterBmpMetrics :=
  mk_metrics (bmp_state_machine_state m) (num_received_prefixes m)
    (num_msgs_with_unknown_peer m) (num_bgp_updates_reparsed m)
    (fetch_add (num_unprocessable_bmp_messages m) 1) (num_announcements m)
    (num_withdrawals m) (num_peers_up m) (num_peers_up_eor_capable m)
    (num_peers_up_dumping m) (push_error err bytes false m).

Definition pending_eors_update (n : Z) (m : RouterBmpMetrics)
  : RouterBmpMetrics :=
  mk_metrics (bmp_state_machine_state m) (num_received_prefixes m)
    (num_msgs_with_unknown_peer m) (num_bgp_updates_reparsed m)
    (num_unprocessable_bmp_messages m) (num_announcements m)
    (num_withdrawals m) (num_peers_up m) (num_peers_up_eor_capable m)
    n (parse_errors m).

(** The counts of an [UpdateReportMessage] that are reported. *)
Record UpdateReportMessage : Type := mk_report {
  n_new_prefixes : Z;
  n_valid_announcements : Z;
  n_valid_withdrawals : Z
}.

Definition routing_update (u : UpdateReportMessage) (m : RouterBmpMetrics)
  : RouterBmpMetrics :=
  mk_metrics (bmp_state_machine_state m)
    (fetch_add (num_received_prefixes m) (n_new_prefixes u))
    (num_msgs_with_unknown_peer m) (num_bgp_updates_reparsed m)
    (num_unprocessable_bmp_messages m)
    (fetch_add (num_announcements m) (n_valid_announcements u))
    (fetch_add (num_withdrawals m) (n_valid_withdrawals u)) (num_peers_up m)
    (num_peers_up_eor_capable m) (num_peers_up_dumping m) (parse_errors m).

End Reporter.

Lemma router_metrics_on `{E : Extern} `{RC : !Routecore} (id : rstring)
    (f : RouterBmpMetrics -> RouterBmpMetrics) (m : BmpStateMachineMetrics) :
  router_metrics id (on_router id f m) = f (router_metrics id m).
Proof. unfold router_metrics at 1, on_router. by rewrite lookup_insert_eq. Qed.

(** ** Lemmas on the ring buffer *)
Section RingLemmas.
Context {A : Type} (dflt : A).

Lemma resize_insert (l : list A) e :
  <[length l := e]> (resize dflt (length l + 1) l) = l ++ [e].
Proof.
  unfold resize. replace (length l + 1 - length l)%nat with 1%nat by lia.
  rewrite insert_app_r_alt by lia. by rewrite Nat.sub_diag.
Qed.

Lemma ring_idx_step n i :
  i = (n mod MAX_RECENT_PARSE_ERRORS)%nat ->
  (i < MAX_RECENT_PARSE_ERRORS)%nat
  /\ ((n + 1) mod MAX_RECENT_PARSE_ERRORS)%nat
     = (if bool_decide (MAX_RECENT_PARSE_ERRORS - 1 <= i)%nat then 0%nat
        else (i + 1)%nat).
Proof.
  intros ->. unfold MAX_RECENT_PARSE_ERRORS.
  pose proof (Nat.div_mod_eq n 10). pose proof (Nat.mod_upper_bound n 10).
  pose proof (Nat.div_mod_eq (n + 1) 10).
  pose proof (Nat.mod_upper_bound (n + 1) 10). case_bool_decide; lia.
Qed.

Lemma ring_push_grow (h : list A) (e : A) :
  (length h < MAX_RECENT_PARSE_ERRORS)%nat ->
  ring_holds (h ++ [e]) (ring_push dflt e (mk_ring h (length h))).
Proof.
  intros Hlt. unfold ring_push, ring_holds. cbn [errors next_idx].
  rewrite (bool_decide_true (length h < length h + 1)%nat) by lia.
  rewrite resize_insert, length_app. cbn [length].
  destruct (ring_idx_step (length h) (length h)) as [_ ->];
    [by rewrite Nat.mod_small|]. split; [done|].
  unfold MAX_RECENT_PARSE_ERRORS in *. case_bool_decide.
  - right. exists []. cbn. rewrite app_nil_r. split; [lia|done].
  - left. split; [lia|done].
Qed.

Lemma ring_push_wrap (old es : list A) (e : A) (i : nat) :
  length es = MAX_RECENT_PARSE_ERRORS ->
  i = (length (old ++ drop i es ++ take i es) mod MAX_RECENT_PARSE_ERRORS)%nat ->
  ring_holds ((old ++ drop i es ++ take i es) ++ [e])
    (ring_push dflt e (mk_ring es i)).
Proof.
  intros Hlen Hi. unfold ring_push, ring_holds. cbn [errors next_idx].
  destruct (ring_idx_step _ _ Hi) as [Hb Hn]. rewrite length_app. cbn [length].
  rewrite Hn. clear Hn Hi. split; [done|].
  rewrite (bool_decide_false (length es < i + 1)%nat) by lia.
  right. rewrite length_insert.
  destruct (lookup_lt_is_Some_2 es i) as [x Hx]; [lia|].
  rewrite (drop_S _ _ _ Hx). exists (old ++ [x]). split; [done|].
  unfold MAX_RECENT_PARSE_ERRORS in *. case_bool_decide.
  - assert (i = 9%nat) as -> by lia.
    rewrite drop_0, take_0, app_nil_r, insert_take_drop by lia.
    rewrite (drop_ge es 10) by lia. by rewrite <- !(assoc_L (++)).
  - replace (i + 1)%nat with (S i) by lia. rewrite drop_insert_lt by lia.
    rewrite (take_S_r (<[i:=e]> es) i e)
      by (apply list_lookup_insert_eq; lia).
    rewrite take_insert_ge by lia. by rewrite <- !(assoc_L (++)).
Qed.

Lemma ring_push_holds h r e :
  ring_holds h r -> ring_holds (h ++ [e]) (ring_push dflt e r).
Proof.
  destruct r as [es i]. intros [Hi [[Hlt He]|(old & Hlen & Hh)]];
    cbn [next_idx errors] in *.
  - subst es i. rewrite Nat.mod_small by done. by apply ring_push_grow.
  - rewrite Hh in Hi |- *. by apply ring_push_wrap.
Qed.

Lemma ring_history h : ring_holds h (foldl (fun r e => ring_push dflt e r) ring_default h).
Proof.
  induction h as [|e h IH] using rev_ind.
  - split; [done|]. left. split; [unfold MAX_RECENT_PARSE_ERRORS; cbn; lia|done].
  - rewrite foldl_app. by apply ring_push_holds.
Qed.

End RingLemmas.

(** ** Properties *)

(** After any history of pushes the buffer of recent parse errors yields,
    older part before newer part, exactly the last ten errors of the history in
    the order they were pushed (all of them when there were fewer). *)
Theorem recent_parse_errors {A} (dflt : A) (h : list A) :
  let r := foldl (fun r e => ring_push dflt e r) ring_default h in
  fst (ring_get r) ++ snd (ring_get r)
  = drop (length h - MAX_RECENT_PARSE_ERRORS) h.
Proof.
  cbv zeta. destruct (ring_history dflt h) as [Hi Hc].
  destruct (foldl _ _ _) as [es i]. cbn [next_idx errors] in *.
  unfold ring_get. cbn [next_idx errors].
  destruct Hc as [[Hlt ->]|(old & Hlen & Hh)].
  - rewrite bool_decide_true by done. cbn [fst snd]. rewrite app_nil_r.
    by replace (length h - MAX_RECENT_PARSE_ERRORS)%nat with 0%nat by lia.
  - rewrite bool_decide_false by lia. cbn [fst snd]. rewrite Hh at 2.
    rewrite drop_app_length'; [done|].
    rewrite Hh, !length_app, length_drop, length_take.
    unfold MAX_RECENT_PARSE_ERRORS in *. rewrite Hlen. lia.
Qed.
