(* ===== verification/BmpPeers.v ===== *)
(** * The peers of a BMP session
    ([PeerStates] of [src/units/bmp_tcp_in/state_machine/machine.rs])

    One entry per Per-Peer Header seen in a Peer Up, or synthesized for Route
    Monitoring whose policy flags no Peer Up had.  The operations that touch the
    ingress register take and return it. *)

From S2P Require Import Prelude Net Register Payload BmpMsg.
From Stdlib Require Import ZArith Lia.
From stdpp Require Import base countable numbers list gmap fin_maps.

Local Open Scope Z_scope.

(** A numbering of the address families, for sets of them. *)
Definition afi_safi_index (t : AfiSafiType) : nat + (Z * Z) :=
  match t with
  | Ipv4Unicast => inl 0%nat | Ipv4Multicast => inl 1%nat
  | Ipv4MplsUnicast => inl 2%nat | Ipv4MplsVpnUnicast => inl 3%nat
  | Ipv4RouteTarget => inl 4%nat | Ipv4FlowSpec => inl 5%nat
  | Ipv6Unicast => inl 6%nat | Ipv6Multicast => inl 7%nat
  | Ipv6MplsUnicast => inl 8%nat | Ipv6MplsVpnUnicast => inl 9%nat
  | Ipv6FlowSpec => inl 10%nat | L2VpnVpls => inl 11%nat
  | L2VpnEvpn => inl 12%nat | AfiSafiUnsupported a s => inr (a, s)
  end.

Definition afi_safi_of_index (i : nat + (Z * Z)) : AfiSafiType :=
  match i with
  | inl 0%nat => Ipv4Unicast | inl 1%nat => Ipv4Multicast
  | inl 2%nat => Ipv4MplsUnicast | inl 3%nat => Ipv4MplsVpnUnicast
  | inl 4%nat => Ipv4RouteTarget | inl 5%nat => Ipv4FlowSpec
  | inl 6%nat => Ipv6Unicast | inl 7%nat => Ipv6Multicast
  | inl 8%nat => Ipv6MplsUnicast | inl 9%nat => Ipv6MplsVpnUnicast
  | inl 10%nat => Ipv6FlowSpec | inl 11%nat => L2VpnVpls
  | inl _ => L2VpnEvpn
  | inr (a, s) => AfiSafiUnsupported a s
  end.

#[export] Instance AfiSafiType_countable : Countable AfiSafiType.
Proof.
  refine (inj_countable' afi_safi_index afi_safi_of_index _). by intros [].
Defined.

Record EoRProperties : Type := mk_eor {
  afi_safi : AfiSafiType;
  post_policy : bool;
  adj_rib_out : bool
}.

#[export] Instance EoRProperties_eq_dec : EqDecision EoRProperties.
Proof. solve_decision. Defined.

#[export] Instance EoRProperties_countable : Countable EoRProperties.
Proof.
  refine (inj_countable'
    (fun e => (afi_safi e, post_policy e, adj_rib_out e))
    (fun t => mk_eor t.1.1 t.1.2 t.2) _). by intros [].
Defined.

Section Peers.
Context `{E : Extern} `{RC : !Routecore}.

(** [EoRProperties::new]. *)
Definition eor_new (pph : PerPeerHeader) (a : AfiSafiType) : EoRProperties :=
  mk_eor a (pph_is_post_policy pph)
    (bool_decide (pph_adj_rib_type pph = AdjRibOut)).

(** [pph_distinguisher_bytes]: [<[u8; 8]>::try_from] or zeros. *)
Definition pph_distinguisher_bytes (pph : PerPeerHeader) : list Z :=
  if bool_decide (length (pph_distinguisher pph) = 8%nat)
  then pph_distinguisher pph else zeros 8.

Record PeerDetails : Type := mk_details {
  peer_bgp_id : list Z;
  peer_distinguisher : list Z;
  peer_rib : RibType;
  peer_id : IpAddr * Asn
}.

Definition details_of (pph : PerPeerHeader) : PeerDetails :=
  mk_details (pph_bgp_id pph) (pph_distinguisher_bytes pph)
    (pph_rib_type pph) (pph_address pph, pph_asn pph).

Record PeerState : Type := mk_peer {
  session_config : SessionConfig;
  eor_capable : bool;
  pending_eors : gset EoRProperties;
  peer_details : PeerDetails;
  peer_ingress : IngressId;
  synthesized : bool
}.

End Peers.

(** [HashMap<PerPeerHeader, PeerState>]: by class of the header, with the
    header that was inserted. *)
Abbreviation PeerStates := (gmap PphKey (PerPeerHeader * PeerState)).

Section Operations.
Context `{E : Extern} `{RC : !Routecore}.

Definition lookup_peer (pph : PerPeerHeader) (ps : PeerStates)
  : option PeerState := snd <$> ps !! pph_key pph.

Definition get_peer_ingress_id (pph : PerPeerHeader) (ps : PeerStates)
  : option IngressId := peer_ingress <$> lookup_peer pph ps.

Definition get_peer_config (pph : PerPeerHeader) (ps : PeerStates)
  : option SessionConfig := session_config <$> lookup_peer pph ps.

Definition is_peer_eor_capable (pph : PerPeerHeader) (ps : PeerStates)
  : option bool := eor_capable <$> lookup_peer pph ps.

(** [get_mut(pph)] and a change of the state found. *)
Definition modify_peer (pph : PerPeerHeader) (f : PeerState -> PeerState)
    (ps : PeerStates) : PeerStates :=
  alter (fun e => (fst e, f (snd e))) (pph_key pph) ps.

Definition update_peer_config (pph : PerPeerHeader) (c : SessionConfig)
    (ps : PeerStates) : bool * PeerStates :=
  match lookup_peer pph ps with
  | Some _ =>
      (true,
       modify_peer pph (fun s =>
         mk_peer c (eor_capable s) (pending_eors s) (details_of pph)
           (peer_ingress s) (synthesized s)) ps)
  | None => (false, ps)
  end.

(** [HashMap::insert]: an existing key is kept, its value replaced. *)
Definition insert_peer (pph : PerPeerHeader) (s : PeerState) (ps : PeerStates)
  : PeerStates :=
  <[pph_key pph :=
      (match ps !! pph_key pph with Some (k, _) => k | None => pph end, s)]> ps.

(** [None] is the panic of [get(source_pph).unwrap()]. *)
Definition add_cloned_peer_config (source dst : PerPeerHeader) (id : IngressId)
    (ps : PeerStates) : option (bool * PeerStates) :=
  match lookup_peer source ps with
  | None => None
  | Some s =>
      let s' := mk_peer (session_config s) (eor_capable s) (pending_eors s)
                  (peer_details s) id true in
      Some (negb (bool_decide (is_Some (ps !! pph_key dst))),
            insert_peer dst s' ps)
  end.

(** The peer identity: type, distinguisher, address, ASN and BGP id. *)
Definition same_identity (k pph : PerPeerHeader) : bool :=
  bool_decide (pph_peer_type k = pph_peer_type pph)
  && bool_decide (pph_distinguisher k = pph_distinguisher pph)
  && bool_decide (pph_address k = pph_address pph)
  && bool_decide (pph_asn k = pph_asn pph)
  && bool_decide (pph_bgp_id k = pph_bgp_id pph).

Definition add_pending_eor (pph : PerPeerHeader) (a : AfiSafiType)
    (ps : PeerStates) : Z * PeerStates :=
  match lookup_peer pph ps with
  | Some s =>
      let pending := {[eor_new pph a]} ∪ pending_eors s in
      (Z.of_nat (size pending),
       modify_peer pph (fun s =>
         mk_peer (session_config s) (eor_capable s) pending (peer_details s)
           (peer_ingress s) (synthesized s)) ps)
  | None => (0, ps)
  end.

(** The query that [add_peer_config] builds from a Peer Up. *)
Definition query_ingress (pph : PerPeerHeader) (local remote : list Z)
    (bmp_ingress_id : IngressId) (tlvs : list InformationTlv) : IngressInfo :=
  let q :=
    with_remote_capabilities remote
      (with_local_capabilities local
        (with_peer_type (pph_peer_type pph)
          (with_peer_rib_type
             (peer_rib_type_from (pph_is_post_policy pph) (pph_rib_type pph))
            (with_rib_type (pph_rib_type pph)
              (with_remote_asn (pph_asn pph)
                (with_remote_addr (pph_address pph)
                  (with_state Connected
                    (with_parent_ingress bmp_ingress_id
                      (with_ingress_type BgpViaBmp info_default))))))))) in
  let q :=
    match pph_peer_type pph with
    | GlobalInstance => q
    | RdInstance | LocalInstance | LocalRibInstance =>
        with_distinguisher (pph_distinguisher_bytes pph) q
    | PeerTypeReserved | PeerTypeUnassigned _ | PeerTypeExperimental _
    | PeerTypeUnimplemented _ => q
    end in
  match find (fun t => bool_decide (tlv_typ t = TlvVrfTableName)) tlvs with
  | Some t => with_vrf_name (from_utf8_lossy (tlv_value t)) q
  | None => q
  end.

Section Iter.
Context `{HI : !HashIter Z IngressInfo}
        `{HP : !HashIter PphKey (PerPeerHeader * PeerState)}.

(** [find_existing_peer_and_claim(q)], or else a fresh id; then
    [update_info]. *)
Definition claim_or_register (q : IngressInfo) (r : Register)
  : IngressId * bool * Register :=
  match find_existing_peer_and_claim q r with
  | (Some (id, _), r1) => (id, true, snd (update_info id q r1))
  | (None, r1) =>
      let '(id, r2) := register r1 in (id, false, snd (update_info id q r2))
  end.

Definition add_peer_config (pph : PerPeerHeader) (c : SessionConfig)
    (eor : bool) (local remote : list Z) (bmp_ingress_id : IngressId)
    (tlvs : list InformationTlv) (ps : PeerStates) (r : Register)
  : (bool * option IngressId) * PeerStates * Register :=
  if bool_decide (is_Some (ps !! pph_key pph)) then ((false, None), ps, r)
  else
    let '(id, existing, r') :=
      claim_or_register (query_ingress pph local remote bmp_ingress_id tlvs) r in
    match ps !! pph_key pph with
    | Some _ => ((false, if existing then Some id else None), ps, r')
    | None =>
        ((true, if existing then Some id else None),
         insert_peer pph (mk_peer c eor ∅ (details_of pph) id false) ps, r')
    end.

(** The entries in iteration order. *)
Definition entries (ps : PeerStates) : list (PerPeerHeader * PeerState) :=
  snd <$> hm_iter ps.

Definition find_sibling_pph (pph : PerPeerHeader) (ps : PeerStates)
  : option PerPeerHeader :=
  find (fun k => negb (bool_decide (pph_key k = pph_key pph))
                 && same_identity k pph)
    (fst <$> entries ps).

(** [keys.into_iter().filter_map(|k| self.0.remove(&k))]. *)
Fixpoint remove_keys (ks : list PerPeerHeader) (ps : PeerStates)
  : list PeerState * PeerStates :=
  match ks with
  | [] => ([], ps)
  | k :: ks =>
      let '(removed, ps') := remove_keys ks (delete (pph_key k) ps) in
      (match lookup_peer k ps with
       | Some s => s :: removed
       | None => removed
       end, ps')
  end.

Definition remove_peer_identity_siblings (pph : PerPeerHeader) (ps : PeerStates)
  : list PeerState * PeerStates :=
  remove_keys
    (filter (fun k => same_identity k pph = true) (fst <$> entries ps)) ps.

Definition remove_pending_eor (pph : PerPeerHeader) (a : AfiSafiType)
    (ps : PeerStates) : bool * PeerStates :=
  let ps' :=
    modify_peer pph (fun s =>
      mk_peer (session_config s) (eor_capable s)
        (pending_eors s ∖ {[eor_new pph a]}) (peer_details s)
        (peer_ingress s) (synthesized s)) ps in
  (forallb (fun e => bool_decide (pending_eors (snd e) = ∅)) (entries ps'), ps').

Definition num_pending_eors (ps : PeerStates) : Z :=
  foldl (fun acc e => acc + Z.of_nat (size (pending_eors (snd e)))) 0
    (entries ps).

(** [register.update_info(id, IngressInfo::new().with_state(Disconnected))]. *)
Definition set_disconnected (id : IngressId) (r : Register) : Register :=
  snd (update_info id (with_state Disconnected info_default) r).

Definition disconnect_peers (l : list PeerState) (r : Register)
  : list (IngressId * option IngressInfo) * Register :=
  ((fun s => (peer_ingress s, None)) <$> l,
   foldl (fun r s => set_disconnected (peer_ingress s) r) r l).

Definition disconnect_into_register (ps : PeerStates) (r : Register)
  : list (IngressId * option IngressInfo) * Register :=
  disconnect_peers (snd <$> entries ps) r.

End Iter.
End Operations.

(** ** What a session relies on *)
Section Invariant.
Context `{E : Extern} `{RC : !Routecore}.

(** An entry is stored under the class of its header. *)
Definition keys_ok (ps : PeerStates) : Prop :=
  forall k p s, ps !! k = Some (p, s) -> pph_key p = k.

(** The ids of the session's peers. *)
Definition peer_ids (ps : PeerStates) : gset Z :=
  list_to_set ((fun e => peer_ingress (snd (snd e))) <$> map_to_list ps).

(** The session holds a different id for each of its entries, and none of the
    ids [o] that other sessions hold. *)
Record session_ok (o : gset Z) (ps : PeerStates) : Prop := {
  ok_keys : keys_ok ps;
  ok_others : peer_ids ps ## o;
  ok_distinct k1 k2 e1 e2 :
    ps !! k1 = Some e1 -> ps !! k2 = Some e2 ->
    peer_ingress (snd e1) = peer_ingress (snd e2) -> k1 = k2
}.

Lemma elem_of_peer_ids ps id :
  id ∈ peer_ids ps
  <-> exists k p s, ps !! k = Some (p, s) /\ peer_ingress s = id.
Proof.
  unfold peer_ids. rewrite elem_of_list_to_set, list_elem_of_fmap. split.
  - intros ((k & p & s) & -> & Hin). eexists _, _, _.
    split; [by apply (elem_of_map_to_list (M := gmap PphKey))|done].
  - intros (k & p & s & Hk & <-). exists (k, (p, s)).
    split; [done|]. by apply (elem_of_map_to_list (M := gmap PphKey)).
Qed.

Lemma peer_ids_empty : peer_ids ∅ = ∅.
Proof. unfold peer_ids. by rewrite map_to_list_empty. Qed.

Lemma session_ok_empty o : session_ok o ∅.
Proof.
  split; [by intros ??? ?|rewrite peer_ids_empty; set_solver|by intros ???? ?].
Qed.

Lemma lookup_peer_Some pph ps s :
  lookup_peer pph ps = Some s <-> exists p, ps !! pph_key pph = Some (p, s).
Proof.
  unfold lookup_peer. rewrite fmap_Some. split.
  - intros ([p s'] & H & ->). eauto.
  - intros [p H]. by exists (p, s).
Qed.

Lemma lookup_modify pph f ps k :
  modify_peer pph f ps !! k
  = if bool_decide (pph_key pph = k)
    then (fun e => (fst e, f (snd e))) <$> ps !! k else ps !! k.
Proof.
  unfold modify_peer. case_bool_decide as Hk.
  - subst k. by rewrite lookup_alter_eq.
  - by rewrite lookup_alter_ne.
Qed.

(** Changing a state without its id keeps the session in order. *)
Lemma session_ok_modify o pph f ps :
  (forall s, peer_ingress (f s) = peer_ingress s) ->
  session_ok o ps ->
  session_ok o (modify_peer pph f ps)
  /\ peer_ids (modify_peer pph f ps) = peer_ids ps.
Proof.
  intros Hf [Hk Hh Hd].
  assert (forall k p s, modify_peer pph f ps !! k = Some (p, s) ->
            exists s0, ps !! k = Some (p, s0)
                       /\ peer_ingress s = peer_ingress s0) as Hback.
  { intros k p s. rewrite lookup_modify. case_bool_decide; [|eauto].
    intros ([p0 s0] & Hp & [= -> ->])%fmap_Some. eauto. }
  assert (peer_ids (modify_peer pph f ps) = peer_ids ps) as Hids.
  { apply leibniz_equiv. intros id. rewrite !elem_of_peer_ids. split.
    - intros (k & p & s & (s0 & Hk0 & Hi)%Hback & <-). eauto 10.
    - intros (k & p & s & Hk0 & <-). exists k, p.
      setoid_rewrite lookup_modify. rewrite Hk0.
      case_bool_decide; cbn; eauto. }
  split; [|done]. split.
  - intros k p s (s0 & ? & _)%Hback. eauto.
  - by rewrite Hids.
  - intros k1 k2 [p1 s1] [p2 s2] (t1 & H1 & E1)%Hback (t2 & H2 & E2)%Hback Heq.
    cbn in Heq. apply (Hd _ _ _ _ H1 H2). cbn. congruence.
Qed.

Lemma insert_peer_absent pph s ps :
  ps !! pph_key pph = None ->
  insert_peer pph s ps = <[pph_key pph := (pph, s)]> ps.
Proof. intros Hn. unfold insert_peer. by rewrite Hn. Qed.

(** A new entry with an id nobody holds. *)
Lemma session_ok_insert o pph s ps :
  session_ok o ps -> ps !! pph_key pph = None ->
  peer_ingress s ∉ o ∪ peer_ids ps ->
  session_ok o (insert_peer pph s ps)
  /\ peer_ids (insert_peer pph s ps) = {[peer_ingress s]} ∪ peer_ids ps.
Proof.
  intros [Hk Ho Hd] Hn Hfresh. rewrite insert_peer_absent by exact Hn.
  assert (peer_ids (<[pph_key pph := (pph, s)]> ps)
          = {[peer_ingress s]} ∪ peer_ids ps) as Hids.
  { unfold peer_ids. rewrite map_to_list_insert by done. by cbn. }
  split; [|done]. split; [|rewrite Hids; set_solver|].
  - intros k p s0. rewrite lookup_insert_Some. naive_solver.
  - assert (forall k e, ps !! k = Some e -> peer_ingress (snd e) <> peer_ingress s)
      as Hne.
    { intros k [p s0] Hk0 Heq. apply Hfresh, elem_of_union_r. rewrite <- Heq.
      apply elem_of_peer_ids. eauto. }
    intros k1 k2 e1 e2. rewrite !lookup_insert_Some. naive_solver.
Qed.

End Invariant.

(** ** The register steps of the peer operations *)
Section Steps.
Context `{HI : !HashIter Z IngressInfo}.

Lemma rtc_reg_inv w w' : rtc reg_step w w' -> world_inv w -> world_inv w'.
Proof. induction 1; eauto using reg_step_inv. Qed.

Lemma serial_update id q r : serial (snd (update_info id q r)) = serial r.
Proof. by rewrite update_info_spec. Qed.

Lemma claim_or_register_steps q r h sv id existing r' :
  world_inv (mk_world r h sv) -> serial r < u32_max ->
  state q = Some Connected ->
  claim_or_register q r = (id, existing, r') ->
  rtc reg_step (mk_world r h sv) (mk_world r' ({[id]} ∪ h) sv) /\ id ∉ h.
Proof.
  intros Hinv Hlt Hq. unfold claim_or_register, find_existing_peer_and_claim.
  destruct (claim _ r) as [[[id1 i1]|] r1] eqn:Ec.
  - intros [= <- <- <-].
    pose proof Ec as (i0 & Hi0 & Hc%is_connected_false & _ & _ & ->)%claim_Some.
    split.
    + eapply rtc_l; [by eapply step_claim; [apply peer_query_identifies|]|]. apply rtc_once.
      eapply (step_refresh _ _ _ id1 q None); [set_solver|by left|].
      by rewrite update_info_spec.
    + intros (i2 & Hi2 & ?)%(inv_held _ Hinv). cbn in *. congruence.
  - apply claim_None in Ec as [-> _].
    destruct (register r) as [id1 r2] eqn:Er. intros [= <- <- <-].
    pose proof Er as Er'. injection Er' as Hid _.
    assert (forall k, k ∈ h \/ k ∈ sv -> k < id1) as Hbelow.
    { intros k [Hk|Hk]; subst id1.
      - destruct (inv_held _ Hinv _ Hk) as (i & Hi & _).
        apply (inv_stored _ Hinv _ _ Hi).
      - apply (inv_reserved _ Hinv _ Hk). }
    split.
    + eapply rtc_l; [by eapply step_reserve|]. apply rtc_once.
      replace sv with (({[id1]} ∪ sv) ∖ {[id1]}) at 2.
      * eapply (step_publish _ _ _ id1 q None); [set_solver|done|].
        by rewrite update_info_spec.
      * apply leibniz_equiv. intros k.
        rewrite elem_of_difference, elem_of_union, elem_of_singleton.
        split; [by intros [[]]|]. intros Hk.
        split; [auto|]. specialize (Hbelow k (or_intror Hk)). lia.
    + intros Hk. specialize (Hbelow id1 (or_introl Hk)). lia.
Qed.

Lemma set_disconnected_step r h sv id :
  id ∈ h ->
  reg_step (mk_world r h sv) (mk_world (set_disconnected id r) (h ∖ {[id]}) sv).
Proof.
  intros Hin. eapply step_disconnect with (o := None); [done|].
  unfold set_disconnected. by rewrite update_info_spec.
Qed.

End Steps.

Section Disconnect.
Context `{E : Extern} `{RC : !Routecore}.
Context `{HI : !HashIter Z IngressInfo}.

Lemma disconnect_steps (l : list PeerState) r h sv :
  NoDup (peer_ingress <$> l) ->
  (forall s, s ∈ l -> peer_ingress s ∈ h) ->
  rtc reg_step (mk_world r h sv)
    (mk_world (snd (disconnect_peers l r))
       (h ∖ list_to_set (peer_ingress <$> l)) sv).
Proof.
  unfold disconnect_peers. cbn [snd]. revert r h.
  induction l as [|s l IH]; intros r h Hnd Hin; cbn [foldl fmap list_fmap].
  - cbn. by rewrite difference_empty_L.
  - cbn in Hnd. apply NoDup_cons in Hnd as [Hn Hnd].
    eapply rtc_l; [apply set_disconnected_step, Hin; left|].
    cbn [list_to_set]. rewrite <- difference_difference_l_L.
    apply IH; [done|]. intros t Ht. apply elem_of_difference. split.
    + apply Hin. by right.
    + intros Heq%elem_of_singleton. apply Hn. rewrite <- Heq.
      by apply list_elem_of_fmap_2.
Qed.

End Disconnect.

(** ** Iteration over the entries *)
Section Entries.
Context `{E : Extern} `{RC : !Routecore}.
Context `{HP : !HashIter PphKey (PerPeerHeader * PeerState)}.

Lemma entry_keys ps :
  keys_ok ps -> (fun e => pph_key (fst e)) <$> entries ps = fst <$> hm_iter ps.
Proof.
  intros Hk. unfold entries. rewrite <- list_fmap_compose.
  apply list_fmap_ext. intros i [k [p s]] Hi%list_elem_of_lookup_2. cbn.
  rewrite hm_iter_perm in Hi. apply elem_of_map_to_list in Hi. eauto.
Qed.

Lemma entry_keys_NoDup ps :
  keys_ok ps -> NoDup ((fun e => pph_key (fst e)) <$> entries ps).
Proof.
  intros Hk. rewrite entry_keys, hm_iter_perm by done.
  apply NoDup_fst_map_to_list.
Qed.

Lemma elem_of_entries ps e :
  e ∈ entries ps <-> exists k, ps !! k = Some e.
Proof.
  unfold entries. rewrite list_elem_of_fmap. split.
  - intros ([k e'] & -> & Hin). rewrite hm_iter_perm in Hin.
    apply elem_of_map_to_list in Hin. eauto.
  - intros [k Hk]. exists (k, e). split; [done|].
    by rewrite hm_iter_perm, elem_of_map_to_list.
Qed.

Lemma entry_lookup ps e :
  keys_ok ps -> e ∈ entries ps -> ps !! pph_key (fst e) = Some e.
Proof.
  intros Hok [k Hk]%elem_of_entries. destruct e as [p s]. cbn.
  by rewrite (Hok _ _ _ Hk).
Qed.

Lemma entry_ids_NoDup o ps :
  session_ok o ps -> NoDup ((fun e => peer_ingress (snd e)) <$> entries ps).
Proof.
  intros [Hk _ Hd]. pose proof (entry_keys_NoDup ps Hk) as Hnd.
  assert (forall e, e ∈ entries ps -> ps !! pph_key (fst e) = Some e) as Hin
    by (intros; by apply entry_lookup).
  induction (entries ps) as [|e l IH]; cbn in *; [constructor|].
  apply NoDup_cons in Hnd as [Hn Hnd]. apply NoDup_cons. split.
  - intros (e' & Heq & He')%list_elem_of_fmap. apply Hn, list_elem_of_fmap.
    exists e'. split; [|done].
    apply (Hd _ _ e e'); [apply Hin; left|apply Hin; by right|done].
  - apply IH; [done|]. intros. apply Hin. by right.
Qed.

Lemma entry_ids_set ps :
  list_to_set ((fun e => peer_ingress (snd e)) <$> entries ps) = peer_ids ps.
Proof.
  apply leibniz_equiv. intros id.
  rewrite elem_of_list_to_set, list_elem_of_fmap, elem_of_peer_ids.
  setoid_rewrite elem_of_entries. split.
  - intros ([p s] & -> & k & Hk). eauto 10.
  - intros (k & p & s & Hk & <-). exists (p, s). eauto.
Qed.

Lemma remove_keys_spec (l : list (PerPeerHeader * PeerState)) (ps : PeerStates) :
  NoDup ((fun e => pph_key (fst e)) <$> l) ->
  (forall e, e ∈ l -> ps !! pph_key (fst e) = Some e) ->
  fst (remove_keys (fst <$> l) ps) = snd <$> l
  /\ forall k,
       snd (remove_keys (fst <$> l) ps) !! k
       = if bool_decide (k ∈ (fun e => pph_key (fst e)) <$> l)
         then None else ps !! k.
Proof.
  revert ps. induction l as [|[p s] l IH]; intros ps Hnd Hin;
    rewrite ?fmap_nil, ?fmap_cons; cbn [remove_keys fst snd].
  - split; [done|]. intros k. by rewrite bool_decide_false by set_solver.
  - cbn in Hnd. apply NoDup_cons in Hnd as [Hn Hnd].
    destruct (IH (delete (pph_key p) ps)) as [Hr Hps]; [done| |].
    { intros e He. rewrite lookup_delete_ne; [apply Hin; by right|].
      intros Heq. apply Hn. rewrite Heq. by apply list_elem_of_fmap_2 with
        (f := fun e => pph_key (fst e)). }
    destruct (remove_keys _ _) as [removed ps'] eqn:Er. cbn [fst snd] in *.
    unfold lookup_peer. pose proof (Hin (p, s) ltac:(left)) as Hp. cbn in Hp.
    rewrite Hp. cbn. split; [by f_equal|]. intros k. rewrite Hps.
    destruct (decide (k = pph_key p)) as [->|Hne].
    + rewrite lookup_delete_eq, (bool_decide_true (pph_key p ∈ _ :: _)) by left.
      by case_bool_decide.
    + rewrite lookup_delete_ne by done.
      case_bool_decide; case_bool_decide; set_solver.
Qed.

(** The peers that share the identity of [pph]. *)
Definition siblings (pph : PerPeerHeader) (ps : PeerStates)
  : list (PerPeerHeader * PeerState) :=
  filter (fun e => same_identity (fst e) pph = true) (entries ps).

Lemma siblings_keys pph ps :
  filter (fun k => same_identity k pph = true) (fst <$> entries ps)
  = fst <$> siblings pph ps.
Proof.
  unfold siblings. induction (entries ps) as [|e l IH]; [done|].
  rewrite fmap_cons, !filter_cons. case_decide; [|done].
  rewrite fmap_cons. by f_equal.
Qed.

Lemma remove_siblings_spec pph ps :
  keys_ok ps ->
  let '(removed, ps') := remove_peer_identity_siblings pph ps in
  removed = snd <$> siblings pph ps
  /\ forall k, ps' !! k = match ps !! k with
                          | Some (p, s) => if same_identity p pph then None
                                           else Some (p, s)
                          | None => None
                          end.
Proof.
  intros Hk. unfold remove_peer_identity_siblings.
  rewrite siblings_keys.
  destruct (remove_keys_spec (siblings pph ps) ps) as [Hr Hps].
  - by apply NoDup_fmap_filter, entry_keys_NoDup.
  - intros e [_ He]%list_elem_of_filter. by apply entry_lookup.
  - destruct (remove_keys _ _) as [removed ps']. cbn in Hr, Hps.
    split; [done|]. intros k. rewrite Hps. case_bool_decide as Hin.
    + apply list_elem_of_fmap in Hin as (e & -> & [Hid He]%list_elem_of_filter).
      rewrite (entry_lookup _ _ Hk He). destruct e. cbn in Hid. by rewrite Hid.
    + destruct (ps !! k) as [[p s]|] eqn:Hp; [|done].
      destruct (same_identity p pph) eqn:Hid; [|done]. destruct Hin.
      apply list_elem_of_fmap. exists (p, s). cbn. split.
      * symmetry. eauto.
      * apply list_elem_of_filter. split; [done|]. apply elem_of_entries. eauto.
Qed.

End Entries.

(** ** The session as a client of the register

    [evolves o sv r ps r' ps']: the register goes from [r] to [r'] by steps of
    [reg_step] that leave the ids [o] of other sessions alone, and the ids this
    session holds become those of [ps']. *)
Section Evolves.
Context `{E : Extern} `{RC : !Routecore}.
Context `{HI : !HashIter Z IngressInfo}
        `{HP : !HashIter PphKey (PerPeerHeader * PeerState)}.

Definition evolves (o sv : gset Z) (r : Register) (ps : PeerStates)
    (r' : Register) (ps' : PeerStates) : Prop :=
  rtc reg_step (mk_world r (o ∪ peer_ids ps) sv)
    (mk_world r' (o ∪ peer_ids ps') sv)
  /\ session_ok o ps'.

(** What holds while a session of the peers [ps] runs. *)
Record session_inv (o sv : gset Z) (r : Register) (ps : PeerStates) : Prop := {
  si_world : world_inv (mk_world r (o ∪ peer_ids ps) sv);
  si_ok : session_ok o ps;
  si_serial : serial r < u32_max
}.

Lemma evolves_refl o sv r ps : session_ok o ps -> evolves o sv r ps r ps.
Proof. by split. Qed.

Lemma evolves_trans o sv r1 ps1 r2 ps2 r3 ps3 :
  evolves o sv r1 ps1 r2 ps2 -> evolves o sv r2 ps2 r3 ps3 ->
  evolves o sv r1 ps1 r3 ps3.
Proof. intros [H1 _] [H2 ?]. split; [|done]. by etrans. Qed.

Lemma evolves_modify o sv r ps pph f :
  (forall s, peer_ingress (f s) = peer_ingress s) ->
  session_ok o ps -> evolves o sv r ps r (modify_peer pph f ps).
Proof.
  intros Hf Hok. destruct (session_ok_modify o pph f ps Hf Hok) as [Hok' Hids].
  unfold evolves. by rewrite Hids.
Qed.

(** A claimed or fresh id goes to a new entry. *)
Lemma evolves_insert o sv r ps q id existing r' pph s :
  session_inv o sv r ps -> state q = Some Connected ->
  claim_or_register q r = (id, existing, r') ->
  ps !! pph_key pph = None -> peer_ingress s = id ->
  evolves o sv r ps r' (insert_peer pph s ps).
Proof.
  intros [Hw Hok Hlt] Hq Hc Hn <-.
  destruct (claim_or_register_steps _ _ _ _ _ _ _ Hw Hlt Hq Hc) as [Hsteps Hf].
  destruct (session_ok_insert o pph s ps Hok Hn Hf) as [Hok' Hids].
  split; [|done]. rewrite Hids.
  by replace (o ∪ ({[peer_ingress s]} ∪ peer_ids ps))
    with ({[peer_ingress s]} ∪ (o ∪ peer_ids ps)) by set_solver.
Qed.

(** Some entries taken out of a table. *)
Definition without (P : PerPeerHeader -> bool) (ps ps' : PeerStates) : Prop :=
  forall k, ps' !! k = match ps !! k with
                       | Some (p, s) => if P p then None else Some (p, s)
                       | None => None
                       end.

Definition taken (P : PerPeerHeader -> bool) (ps : PeerStates) : list PeerState :=
  snd <$> filter (fun e => P (fst e) = true) (entries ps).

Lemma without_sub P ps ps' k e :
  without P ps ps' -> ps' !! k = Some e -> ps !! k = Some e /\ P (fst e) = false.
Proof.
  intros Hps. rewrite Hps. destruct (ps !! k) as [[p s]|]; [|done].
  destruct (P p) eqn:HP'; [done|]. by intros [= <-].
Qed.

Lemma session_ok_without o P ps ps' :
  session_ok o ps -> without P ps ps' -> session_ok o ps'.
Proof.
  intros [Hk Ho Hd] Hps. split.
  - intros k p s [? _]%(without_sub _ _ _ _ _ Hps). eauto.
  - intros id Hid Hin. apply (Ho id); [|done].
    apply elem_of_peer_ids in Hid as (k & p & s & [? _]%(without_sub _ _ _ _ _ Hps) & <-).
    apply elem_of_peer_ids. eauto.
  - intros k1 k2 e1 e2 [H1 _]%(without_sub _ _ _ _ _ Hps) [H2 _]%(without_sub _ _ _ _ _ Hps).
    by apply Hd.
Qed.

Lemma elem_of_taken P ps id :
  id ∈ peer_ingress <$> taken P ps <->
  exists k p s, ps !! k = Some (p, s) /\ P p = true /\ peer_ingress s = id.
Proof.
  unfold taken. rewrite <- list_fmap_compose, list_elem_of_fmap.
  setoid_rewrite list_elem_of_filter. setoid_rewrite elem_of_entries. split.
  - intros ([p s] & -> & Hp & k & Hk0). eauto 10.
  - intros (k & p & s & Hk0 & Hp & <-). exists (p, s). eauto.
Qed.

Lemma ids_without o P ps ps' :
  session_ok o ps -> without P ps ps' ->
  o ∪ peer_ids ps' = (o ∪ peer_ids ps) ∖ list_to_set (peer_ingress <$> taken P ps).
Proof.
  intros [Hk Ho Hd] Hps. apply leibniz_equiv. intros id.
  rewrite elem_of_difference, !elem_of_union, elem_of_list_to_set, elem_of_taken,
    !elem_of_peer_ids. split.
  - intros [Ho'|(k & p & s & [Hk0 Hp]%(without_sub _ _ _ _ _ Hps) & <-)].
    + split; [by left|]. intros (k & p & s & Hk0 & _ & <-).
      apply (Ho (peer_ingress s)); [|done]. apply elem_of_peer_ids. eauto.
    + split; [eauto 10|]. intros (k' & p' & s' & Hk' & Hp' & Heq).
      pose proof (Hd _ _ _ _ Hk0 Hk' (eq_sym Heq)) as <-.
      cbn in Hp. congruence.
  - intros [[Ho'|(k & p & s & Hk0 & <-)] Hn]; [by left|right].
    exists k, p, s. rewrite Hps, Hk0. destruct (P p) eqn:Hp; [|done].
    destruct Hn. eauto 10.
Qed.

(** Entries taken out of the table, and their ids set to [Disconnected]. *)
Lemma evolves_remove o sv r ps (P : PerPeerHeader -> bool) ps' :
  session_ok o ps -> without P ps ps' ->
  evolves o sv r ps (snd (disconnect_peers (taken P ps) r)) ps'.
Proof.
  intros Hok Hps. split; [|by eapply session_ok_without].
  rewrite (ids_without o P ps ps') by done. apply disconnect_steps.
  - unfold taken. rewrite <- list_fmap_compose. unfold compose.
    by eapply NoDup_fmap_filter, entry_ids_NoDup.
  - intros s Hs. apply elem_of_union_r, elem_of_peer_ids.
    apply (list_elem_of_fmap_2 peer_ingress), elem_of_taken in Hs.
    destruct Hs as (k & p & s' & ? & _ & ?). eauto 10.
Qed.

Lemma taken_all ps : taken (fun _ => true) ps = snd <$> entries ps.
Proof.
  unfold taken. f_equal. induction (entries ps) as [|x l IH]; [done|].
  rewrite filter_cons. cbn. by f_equal.
Qed.

(** All of them. *)
Lemma evolves_disconnect o sv r ps :
  session_ok o ps -> evolves o sv r ps (snd (disconnect_into_register ps r)) ∅.
Proof.
  intros Hok. unfold disconnect_into_register. rewrite <- taken_all.
  apply evolves_remove; [done|]. intros k. rewrite lookup_empty.
  by destruct (ps !! k) as [[]|].
Qed.

End Evolves.
