(* ===== verification/BmpMachine.v ===== *)
(** * The BMP state machine
    ([src/units/bmp_tcp_in/state_machine/machine.rs] and its [states/])

    The states with the data they carry, the handlers that [Dumping] and
    [Updating] share (traits [Initiable] and [PeerAware]), the handlers of each
    state and [process_msg].  The register and the metrics are shared state; a
    panic ends the [Run]. *)

From S2P Require Import Prelude Net Register Payload BmpMsg BmpMetrics BmpPeers.
From Stdlib Require Import ZArith Lia.
From stdpp Require Import base numbers list gmap fin_maps strings.

Local Open Scope Z_scope.

Section Machine.
Context `{E : Extern} `{L : Layout} `{RC : !Routecore}.

(** ** States *)
Record Initiating : Type := mk_initiating {
  i_sys_name : option rstring;
  i_sys_desc : option rstring;
  i_sys_extra : list rstring
}.

Definition initiating_default : Initiating := mk_initiating None None [].

Record Dumping : Type := mk_dumping {
  d_sys_name : rstring;
  d_sys_desc : rstring;
  d_sys_extra : list rstring;
  d_peer_states : PeerStates
}.

Record Updating : Type := mk_updating {
  u_sys_name : rstring;
  u_sys_desc : rstring;
  u_sys_extra : list rstring;
  u_peer_states : PeerStates
}.

Record BmpStateDetails (T : Type) : Type := mk_sd {
  sd_ingress_id : IngressId;
  sd_router_id : rstring;
  details : T
}.
Arguments mk_sd {T} _ _ _.
Arguments sd_ingress_id {T} _.
Arguments sd_router_id {T} _.
Arguments details {T} _.

Inductive BmpState : Type :=
| SInitiating (v : BmpStateDetails Initiating)
| SDumping (v : BmpStateDetails Dumping)
| SUpdating (v : BmpStateDetails Updating)
| STerminated (v : BmpStateDetails unit)
| SAborted (id : IngressId) (router_id : rstring).

Definition state_ingress_id (s : BmpState) : IngressId :=
  match s with
  | SInitiating v => sd_ingress_id v
  | SDumping v => sd_ingress_id v
  | SUpdating v => sd_ingress_id v
  | STerminated v => sd_ingress_id v
  | SAborted id _ => id
  end.

Definition state_router_id (s : BmpState) : rstring :=
  match s with
  | SInitiating v => sd_router_id v
  | SDumping v => sd_router_id v
  | SUpdating v => sd_router_id v
  | STerminated v => sd_router_id v
  | SAborted _ r => r
  end.

Definition state_idx (s : BmpState) : BmpStateIdx :=
  match s with
  | SInitiating _ => IdxInitiating
  | SDumping _ => IdxDumping
  | SUpdating _ => IdxUpdating
  | STerminated _ => IdxTerminated
  | SAborted _ _ => IdxAborted
  end.

Definition has_reporter (s : BmpState) : bool :=
  match s with SAborted _ _ => false | _ => true end.

Record ProcessingResult : Type := mk_result {
  message_type : MessageType;
  next_state : BmpState
}.

(** ** Shared state *)
Record World : Type := mk_bmp_world {
  reg : Register;
  metrics : BmpStateMachineMetrics
}.

Abbreviation M := (Run World).

(** An operation of the register. *)
Definition on_register {A} (f : Register -> A * Register) : M A :=
  fun w => let '(a, r) := f (reg w) in (Some a, mk_bmp_world r (metrics w)).

(** An operation of the status reporter. *)
Definition report (router : rstring) (f : RouterBmpMetrics -> RouterBmpMetrics)
  : M unit :=
  run_modify (fun w => mk_bmp_world (reg w) (on_router router f (metrics w))).

(** [Option::unwrap]. *)
Definition unwrap {A} (o : option A) : M A :=
  match o with Some a => mret a | None => run_fail end.

(** [mk_state_transition_result]. *)
Definition mk_state_transition_result (prev : BmpStateIdx) (next : BmpState)
  : M ProcessingResult :=
  _ ← (if has_reporter next
       then report (state_router_id next) (change_state prev (state_idx next))
       else mret tt);
  mret (mk_result StateTransition next).

(** ** The traits *)

(** [From<BmpStateDetails<T>> for BmpState] and [Initiable]. *)
Class StateOf (T : Type) := {
  into_state : BmpStateDetails T -> BmpState;
  set_information_tlvs : rstring -> rstring -> list rstring -> T -> T
}.

(** [PeerAware], every method of which delegates to the [peer_states] field. *)
Class PeerAware (T : Type) `{StateOf T} := {
  peer_states : T -> PeerStates;
  set_peer_states : PeerStates -> T -> T;
  peers_set ps t : peer_states (set_peer_states ps t) = ps
}.

#[export] Instance initiating_state : StateOf Initiating := {|
  into_state := SInitiating;
  set_information_tlvs n d x _ := mk_initiating (Some n) (Some d) x
|}.

#[export] Instance dumping_state : StateOf Dumping := {|
  into_state := SDumping;
  set_information_tlvs n d x t := mk_dumping n d x (d_peer_states t)
|}.

#[export] Instance updating_state : StateOf Updating := {|
  into_state := SUpdating;
  set_information_tlvs n d x t := mk_updating n d x (u_peer_states t)
|}.

#[export] Instance terminated_state : StateOf unit := {|
  into_state := STerminated;
  set_information_tlvs _ _ _ t := t
|}.

#[export] Instance dumping_peers : PeerAware Dumping := {|
  peer_states := d_peer_states;
  set_peer_states ps t :=
    mk_dumping (d_sys_name t) (d_sys_desc t) (d_sys_extra t) ps;
  peers_set ps t := eq_refl
|}.

#[export] Instance updating_peers : PeerAware Updating := {|
  peer_states := u_peer_states;
  set_peer_states ps t :=
    mk_updating (u_sys_name t) (u_sys_desc t) (u_sys_extra t) ps;
  peers_set ps t := eq_refl
|}.

Definition with_details {T} (t : T) (s : BmpStateDetails T)
  : BmpStateDetails T := mk_sd (sd_ingress_id s) (sd_router_id s) t.

Definition with_peers `{PeerAware T} (ps : PeerStates) (s : BmpStateDetails T)
  : BmpStateDetails T := with_details (set_peer_states ps (details s)) s.

Definition peers `{PeerAware T} (s : BmpStateDetails T) : PeerStates :=
  peer_states (details s).

Definition mk_invalid `{StateOf T} (s : BmpStateDetails T) (err : ErrMsg)
    (known : option bool) (bytes : option (list Z)) : ProcessingResult :=
  mk_result (InvalidMessage known bytes err) (into_state s).

Definition mk_other `{StateOf T} (s : BmpStateDetails T) : ProcessingResult :=
  mk_result Other (into_state s).

Definition mk_routing_update `{StateOf T} (s : BmpStateDetails T) (u : Update)
  : ProcessingResult := mk_result (RoutingUpdate u) (into_state s).

(** ** [initiate] *)

(** [join("|")]. *)
Fixpoint join_bar (l : list rstring) : rstring :=
  match l with
  | [] => []
  | [s] => s
  | s :: l => s ++ str "|" ++ join_bar l
  end.

Definition tlv_strings (t : InformationTlvType) (tlvs : list InformationTlv)
  : list rstring :=
  (fun v => from_utf8_lossy (tlv_value v))
    <$> filter (fun v => tlv_typ v = t) tlvs.

Definition initiate `{StateOf T} (m : InitiationMsg) (s : BmpStateDetails T)
  : BmpStateDetails T :=
  with_details
    (set_information_tlvs (join_bar (tlv_strings TlvSysName (init_tlvs m)))
       (join_bar (tlv_strings TlvSysDesc (init_tlvs m)))
       (tlv_strings TlvString (init_tlvs m)) (details s)) s.

Section Iter.
Context `{HI : !HashIter Z IngressInfo}
        `{HP : !HashIter PphKey (PerPeerHeader * PeerState)}.

(** ** [peer_up], [peer_down], [statistics_report] *)
Definition peer_up `{PeerAware T} (m : PeerUpMsg) (s : BmpStateDetails T)
  : M ProcessingResult :=
  let eor := up_graceful_restart m in
  r ← on_register (fun g =>
        let '(a, ps, g') :=
          add_peer_config (up_pph m) (up_config m) eor (up_sent_capabilities m)
            (up_rcvd_capabilities m) (sd_ingress_id s) (up_tlvs m) (peers s) g in
        ((a, ps), g'));
  let '((added, existing), ps) := r in
  let s' := with_peers ps s in
  if negb added
  then mret (mk_invalid s' (ErrAlreadyUp (up_pph m)) (Some true)
               (Some (up_raw m)))
  else
    _ ← report (sd_router_id s') (report_peer_up eor);
    mret (match existing with
          | Some id => mk_routing_update s' (IngressReappeared id)
          | None => mk_other s'
          end).

Definition peer_down `{PeerAware T} (m : PeerDownMsg) (s : BmpStateDetails T)
  : M ProcessingResult :=
  let '(removed, ps) :=
    remove_peer_identity_siblings (down_pph m) (peers s) in
  let s' := with_peers ps s in
  match removed with
  | [] =>
      mret (mk_invalid s' ErrDownNotUp (Some false) (Some (down_raw m)))
  | first :: rest =>
      _ ← report (sd_router_id s') (routing_update (mk_report 0 0 0));
      _ ← run_for (filter (fun p => synthesized p = false) removed)
            (fun p => report (sd_router_id s')
                        (report_peer_down (Some (eor_capable p))));
      entries ← on_register (disconnect_peers removed);
      mret (if bool_decide (length removed = 1%nat) && negb (synthesized first)
            then mk_routing_update s' (Withdraw (peer_ingress first) None)
            else mk_routing_update s' (WithdrawBulk entries))
  end.

(** Common header and per-peer header. *)
Definition BODY_OFFSET : nat := 6 + 42.

Definition statistics_report `{PeerAware T} (m : StatisticsMsg)
    (s : BmpStateDetails T) : ProcessingResult :=
  match get_peer_ingress_id (st_pph m) (peers s) with
  | None => mk_other s
  | Some id =>
      if bool_decide (length (st_raw m) < BODY_OFFSET)%nat then mk_other s
      else mk_routing_update s (PeerStats id (drop BODY_OFFSET (st_raw m)))
  end.

(** ** [route_monitoring] *)

(** [raw[1] &= 0b1010_1111]. *)
Definition pph_nulled_flags (pph : PerPeerHeader) : PerPeerHeader :=
  for_slice (alter (fun b => Z.land b 175) 1%nat (pph_bytes pph)).

(** The info of a synthesized view of a peer. *)
Definition adapt_info (pph : PerPeerHeader) (i : IngressInfo) : IngressInfo :=
  with_state Connected
    (with_peer_rib_type
       (peer_rib_type_from (pph_is_post_policy pph) (pph_rib_type pph))
       (with_rib_type (pph_rib_type pph) i)).

(** The two arms that synthesize a peer from [source]. *)
Definition synthesize `{PeerAware T} (source : PerPeerHeader)
    (m : RouteMonitoringMsg) (err : ErrMsg) (s : BmpStateDetails T)
  : M (ProcessingResult + BmpStateDetails T) :=
  existing ← unwrap (get_peer_ingress_id source (peers s));
  w ← run_get;
  i ← unwrap (get existing (reg w));
  new ← on_register (fun g =>
          let '(id, _, g') := claim_or_register (adapt_info (rm_pph m) i) g in
          (id, g'));
  c ← unwrap (add_cloned_peer_config source (rm_pph m) new (peers s));
  let '(added, ps) := c in
  let s' := with_peers ps s in
  mret (if negb added
        then inl (mk_invalid s' err (Some false) (Some (rm_raw m)))
        else inr s').

(** The configuration to parse with, after a possible synthesis. *)
Definition resolve_config `{PeerAware T} (m : RouteMonitoringMsg)
    (s : BmpStateDetails T)
  : M (ProcessingResult + BmpStateDetails T * SessionConfig) :=
  let pph := rm_pph m in
  let nulled := pph_nulled_flags pph in
  match get_peer_config pph (peers s) with
  | Some c => mret (inr (s, c))
  | None =>
      match get_peer_config nulled (peers s) with
      | Some _ =>
          a ← synthesize nulled m (ErrSynthesize pph) s;
          match a with
          | inl res => mret (inl res)
          | inr s' =>
              c ← unwrap (get_peer_config pph (peers s'));
              mret (inr (s', c))
          end
      | None =>
          match find_sibling_pph pph (peers s) with
          | Some sibling =>
              a ← synthesize sibling m (ErrSynthesizeSibling pph) s;
              match a with
              | inl res => mret (inl res)
              | inr s' =>
                  c ← unwrap (get_peer_config pph (peers s'));
                  mret (inr (s', c))
              end
          | None =>
              _ ← report (sd_router_id s) report_peer_unknown;
              mret (inl (mk_invalid s (ErrMonitoringNotUp pph) (Some false)
                           (Some (rm_raw m))))
          end
      end
  end.

(** [generate_alternate_config]. *)
Definition generate_alternate_config (c : SessionConfig)
  : option SessionConfig :=
  Some (set_four_octet_asns (negb (config_four_octet_enabled c)) c).

Inductive ParseOutcome : Type :=
| ParsedAs (u : Parsed) (c : SessionConfig) (retried : option ParseErr)
| ParseFailed (c : SessionConfig) (e : ParseErr).

(** The [loop]: [None] only when the fuel is used up. *)
Fixpoint parse_loop (fuel : nat) (m : RouteMonitoringMsg)
    (tried : list SessionConfig) (retry : option ParseErr) (c : SessionConfig)
  : option ParseOutcome :=
  match fuel with
  | O => None
  | S fuel =>
      match rm_bgp_update m c with
      | inr u => Some (ParsedAs u c retry)
      | inl e =>
          let tried := tried ++ [c] in
          match generate_alternate_config c with
          | Some alt =>
              if negb (bool_decide (alt ∈ tried))
              then parse_loop fuel m tried
                     (match retry with None => Some e | Some _ => retry end) alt
              else Some (ParseFailed c e)
          | None => Some (ParseFailed c e)
          end
      end
  end.

(** [extract_route_monitoring_routes]; [None] is its [Err]. *)
Definition extract_routes (received : Z) (pph : PerPeerHeader) (u : Parsed)
    (ps : PeerStates) : option (list Payload * UpdateReportMessage) :=
  match explode_announcements u, explode_withdrawals u,
        get_peer_ingress_id pph ps with
  | inr reach, inr unreach, Some id =>
      Some (((fun rr => with_received rr None received id Active) <$> reach)
            ++ ((fun rr => with_received rr None received id Withdrawn)
                  <$> unreach),
            mk_report (zlen reach) (zlen reach) (zlen unreach))
  | _, _, _ => None
  end.

(** The [Ok(announcements)] arm: an announcement of an End-of-RIB capable peer
    is a pending End-of-RIB. *)
Definition note_pending_eor `{PeerAware T} (pph : PerPeerHeader)
    (n_valid : Z) (anns : list Nlri) (s : BmpStateDetails T)
  : M (BmpStateDetails T) :=
  if (0 <? n_valid)
     && bool_decide (is_peer_eor_capable pph (peers s) = Some true)
  then
    match anns with
    | first :: _ =>
        let '(n, ps) := add_pending_eor pph (nlri_afi_safi first) (peers s) in
        let s' := with_peers ps s in
        _ ← report (sd_router_id s') (pending_eors_update n);
        mret s'
    | [] => mret s
    end
  else mret s.

(** The body of the loop after a successful parse and preprocessing. *)
Definition forward_routes `{PeerAware T} (received : Z)
    (m : RouteMonitoringMsg) (c : SessionConfig) (u : Parsed)
    (s : BmpStateDetails T) : M ProcessingResult :=
  match extract_routes received (rm_pph m) u (peers s) with
  | None =>
      mret (mk_invalid s ErrUnparsable (Some true) (Some (rm_raw m)))
  | Some (payloads, rep) =>
      match announcements_vec u with
      | inl e =>
          mret (mk_invalid s (ErrNlri c e) (Some true) (Some (rm_raw m)))
      | inr anns =>
          s' ← note_pending_eor (rm_pph m) (n_valid_announcements rep) anns s;
          _ ← report (sd_router_id s') (routing_update rep);
          mret (mk_routing_update s' (Bulk payloads))
      end
  end.

(** After a retry the configuration that worked is kept. *)
Definition keep_config `{PeerAware T} (m : RouteMonitoringMsg)
    (c : SessionConfig) (retried : option ParseErr) (s : BmpStateDetails T)
  : M (BmpStateDetails T) :=
  match retried with
  | Some e =>
      _ ← report (sd_router_id s)
            (bgp_update_parse_soft_fail (ErrReparsed e) (Some (rm_raw m)));
      mret (with_peers (snd (update_peer_config (rm_pph m) c (peers s))) s)
  | None => mret s
  end.

(** Two attempts: the configuration as stored and with the four-octet switch
    flipped. *)
Definition PARSE_FUEL : nat := 2.

Definition route_monitoring `{PeerAware T} (received : Z)
    (m : RouteMonitoringMsg)
    (preprocess : BmpStateDetails T -> PerPeerHeader -> Parsed ->
                  M (ProcessingResult + BmpStateDetails T))
    (s : BmpStateDetails T) : M ProcessingResult :=
  a ← resolve_config m s;
  match a with
  | inl res => mret res
  | inr (s1, c0) =>
      o ← unwrap (parse_loop PARSE_FUEL m [] None c0);
      match o with
      | ParseFailed c e =>
          mret (mk_invalid s1 (ErrUpdate c e) (Some true) (Some (rm_raw m)))
      | ParsedAs u c retried =>
          s2 ← keep_config m c retried s1;
          b ← preprocess s2 (rm_pph m) u;
          match b with
          | inl res => mret res
          | inr s3 => forward_routes received m c u s3
          end
      end
  end.

(** ** [Dumping] and [Updating] *)
Definition dumping_to_updating (s : BmpStateDetails Dumping)
  : BmpStateDetails Updating :=
  mk_sd (sd_ingress_id s) (sd_router_id s)
    (mk_updating (d_sys_name (details s)) (d_sys_desc (details s))
       (d_sys_extra (details s)) (d_peer_states (details s))).

Definition to_terminated {T} (s : BmpStateDetails T) : BmpStateDetails unit :=
  mk_sd (sd_ingress_id s) (sd_router_id s) tt.

Definition dumping_preprocessing (s : BmpStateDetails Dumping)
    (pph : PerPeerHeader) (u : Parsed)
  : M (ProcessingResult + BmpStateDetails Dumping) :=
  match upd_is_eor (update u) with
  | inr (Some a) =>
      let '(all_done, ps) := remove_pending_eor pph a (peers s) in
      let s' := with_peers ps s in
      if all_done : bool
      then
        _ ← report (sd_router_id s')
              (pending_eors_update (num_pending_eors (peers s')));
        res ← mk_state_transition_result IdxDumping
                (SUpdating (dumping_to_updating s'));
        mret (inl res)
      else mret (inr s')
  | _ => mret (inr s)
  end.

Definition updating_preprocessing (s : BmpStateDetails Updating)
    (pph : PerPeerHeader) (u : Parsed)
  : M (ProcessingResult + BmpStateDetails Updating) :=
  match upd_is_eor (update u) with
  | inr (Some a) =>
      let '(all_done, ps) := remove_pending_eor pph a (peers s) in
      let s' := with_peers ps s in
      _ ← (if all_done : bool
           then report (sd_router_id s')
                  (pending_eors_update (num_pending_eors (peers s')))
           else mret tt);
      mret (inr s')
  | _ => mret (inr s)
  end.

(** [terminate]; both states report [Dumping] as the state they leave. *)
Definition terminate `{PeerAware T} (s : BmpStateDetails T)
  : M ProcessingResult :=
  entries ← on_register (disconnect_into_register (peers s));
  let next := STerminated (to_terminated s) in
  match entries with
  | [] => mk_state_transition_result IdxDumping next
  | _ :: _ => mret (mk_result (RoutingUpdate (WithdrawBulk entries)) next)
  end.

Definition dumping_process_msg (received : Z) (m : BmpMsg)
    (s : BmpStateDetails Dumping) : M ProcessingResult :=
  match m with
  | InitiationMessage m => mret (mk_other (initiate m s))
  | PeerUpNotification m =>
      res ← peer_up m s;
      _ ← match next_state res with
          | SDumping v =>
              report (sd_router_id v)
                (pending_eors_update (num_pending_eors (peers v)))
          | _ => mret tt
          end;
      mret res
  | PeerDownNotification m => peer_down m s
  | RouteMonitoring m => route_monitoring received m dumping_preprocessing s
  | TerminationMessage _ => terminate s
  | StatisticsReport m => mret (statistics_report m s)
  | RouteMirroring _ => mret (mk_other s)
  end.

Definition updating_process_msg (received : Z) (m : BmpMsg)
    (s : BmpStateDetails Updating) : M ProcessingResult :=
  match m with
  | InitiationMessage m => mret (mk_other (initiate m s))
  | PeerUpNotification m => peer_up m s
  | PeerDownNotification m => peer_down m s
  | RouteMonitoring m => route_monitoring received m updating_preprocessing s
  | TerminationMessage _ => terminate s
  | StatisticsReport m => mret (statistics_report m s)
  | RouteMirroring _ => mret (mk_other s)
  end.

(** ** [Initiating] *)

(** [.find(|t| t.typ() == typ).map(lossy).unwrap_or(dflt)]. *)
Definition first_tlv (typ : InformationTlvType) (dflt : rstring)
    (tlvs : list InformationTlv) : rstring :=
  match find (fun t => bool_decide (tlv_typ t = typ)) tlvs with
  | Some t => from_utf8_lossy (tlv_value t)
  | None => dflt
  end.

(** The identity that an Initiation message gives the connection. *)
Definition router_identity (m : InitiationMsg) (i : option IngressInfo)
  : IngressInfo :=
  with_desc (first_tlv TlvSysDesc (str "no-sysdesc") (init_tlvs m))
    (with_name (first_tlv TlvSysName (str "no-sysname") (init_tlvs m))
      (with_state Connected (default info_default i))).

(** The id of the router: an existing one that is claimed, or the provisional
    one. *)
Definition resolve_router (m : InitiationMsg) (own : IngressId) (r : Register)
  : IngressId * Register :=
  let identity := router_identity m (get own r) in
  match find_existing_bmp_router_and_claim identity r with
  | (Some (existing, _), r1) =>
      if negb (bool_decide (existing = own))
      then (existing, snd (update_info existing identity r1))
      else (own, snd (update_info own identity r1))
  | (None, r1) => (own, snd (update_info own identity r1))
  end.

(** [From<BmpStateDetails<Initiating>> for BmpStateDetails<Dumping>], with its
    two unwraps. *)
Definition initiating_to_dumping (s : BmpStateDetails Initiating)
  : M (BmpStateDetails Dumping) :=
  n ← unwrap (i_sys_name (details s));
  d ← unwrap (i_sys_desc (details s));
  mret (mk_sd (sd_ingress_id s) (sd_router_id s)
          (mk_dumping n d (i_sys_extra (details s)) ∅)).

Definition initiating_process_msg (m : BmpMsg) (s : BmpStateDetails Initiating)
  : M ProcessingResult :=
  match m with
  | InitiationMessage im =>
      id ← on_register (resolve_router im (sd_ingress_id s));
      let s1 := mk_sd id (sd_router_id s) (details s) in
      let res := mk_other (initiate im s1) in
      match message_type res with
      | InvalidMessage _ _ _ => mret res
      | _ =>
          match next_state res with
          | SInitiating st =>
              d ← initiating_to_dumping st;
              mk_state_transition_result IdxInitiating (SDumping d)
          | _ => run_fail
          end
      end
  | _ =>
      mret (mk_invalid s (ErrExpectedInitiation m) None (Some (msg_bytes m)))
  end.

Definition terminated_process_msg (m : BmpMsg) (s : BmpStateDetails unit)
  : ProcessingResult :=
  mk_invalid s (ErrTerminated m) None (Some (msg_bytes m)).

(** ** [BmpState] *)

(** [BmpState::new]. *)
Definition bmp_state_new (id : IngressId) (router_id : rstring) : BmpState :=
  SInitiating (mk_sd id router_id initiating_default).

(** The tail of [process_msg]: an invalid message is reported and its peer and
    bytes dropped. *)
Definition report_invalid (res : ProcessingResult) : M ProcessingResult :=
  match message_type res with
  | InvalidMessage _ bytes err =>
      _ ← (if has_reporter (next_state res)
           then report (state_router_id (next_state res))
                  (bgp_update_parse_hard_fail err bytes)
           else mret tt);
      mret (mk_result (InvalidMessage None None err) (next_state res))
  | _ => mret res
  end.

Definition process_msg (received : Z) (m : BmpMsg) (s : BmpState)
  : M ProcessingResult :=
  res ← match s with
        | SInitiating v => initiating_process_msg m v
        | SDumping v => dumping_process_msg received m v
        | SUpdating v => updating_process_msg received m v
        | STerminated v => mret (terminated_process_msg m v)
        | SAborted id r => mret (mk_result Aborted (SAborted id r))
        end;
  report_invalid res.

(** [BmpState::disconnect_into_register], which the connection handler calls
    when the stream ends. *)
Definition state_disconnect (s : BmpState) (r : Register)
  : list (IngressId * option IngressInfo) * Register :=
  match s with
  | SDumping v => disconnect_into_register (peers v) r
  | SUpdating v => disconnect_into_register (peers v) r
  | SInitiating _ | STerminated _ | SAborted _ _ => ([], r)
  end.

End Iter.
End Machine.
