(* ===== verification/BmpRouter.v ===== *)
(** * The handler of a router's connection ([src/units/bmp_tcp_in/router_handler.rs],
    and the accepting side in [src/units/bmp_tcp_in/unit.rs])

    The loop that reads messages, runs the Roto filter and the state machine on
    them and sends on what comes out; the move to the id of a router that has
    returned; the teardown when the connection ends.  [None] of the [Run] monad
    is a panic.  The tracer and the counters of the status reporter are left
    out. *)

From S2P Require Import Prelude Net Register Payload BmpMsg BmpIo BmpMetrics BmpPeers BmpMachine.
From Stdlib Require Import ZArith Lia.
From stdpp Require Import base numbers list gmap strings.

Local Open Scope Z_scope.

#[local] Arguments mk_sd {T} _ _ _.
#[local] Arguments sd_ingress_id {T} _.
#[local] Arguments sd_router_id {T} _.
#[local] Arguments details {T} _.

(** ** [format_source_id] *)

(** The decimal digits of a number. *)
Fixpoint decimal (fuel : nat) (n : Z) : rstring :=
  match fuel with
  | O => []
  | S fuel => (if n <? 10 then [] else decimal fuel (n / 10)) ++ [48 + n mod 10]
  end.

Definition id_to_string (id : IngressId) : rstring := decimal 10 id.

(** [str::replace] with a pattern that is not empty. *)
Fixpoint replace_str (fuel : nat) (from to s : rstring) : rstring :=
  match fuel, s with
  | O, _ | _, [] => s
  | S fuel, c :: rest =>
      if bool_decide (take (length from) s = from)
      then to ++ replace_str fuel from to (drop (length from) s)
      else c :: replace_str fuel from to rest
  end.

Definition replace (from to s : rstring) : rstring := replace_str (length s) from to s.

Definition format_source_id (template : rstring) (id : IngressId) : rstring :=
  replace (str "{router_port}") (str "PORT")
    (replace (str "{router_ip}") (str "IP")
      (replace (str "{sys_name}") (id_to_string id) template)).

(** The compiled Roto function of the unit, as in [RibUnit]. *)
Class BmpRoto `{E : Extern} `{RC : !Routecore} := {
  BmpCtx : Type;
  roto_bmp_in : option (Register -> BmpMsg -> IngressInfo -> BmpCtx -> bool * BmpCtx);
  bmp_drain : BmpCtx -> list Output * BmpCtx
}.

Section Handler.
Context `{E : Extern} `{L : Layout} `{RC : !Routecore} `{BP : !BmpParser} `{BR : !BmpRoto}.
Context `{HI : !HashIter Z IngressInfo}
        `{HP : !HashIter PphKey (PerPeerHeader * PeerState)}.
Context {GateStatus : Type}.

(** What the handler reads and writes: the register and metrics, its state
    machine (taken out while a message is processed), the two maps of the unit
    (an entry names the connection it belongs to), the gate. *)
Record Handler : Type := mk_handler {
  h_world : World;
  h_machine : option BmpState;
  h_states : gmap Z Z;
  h_info : gmap Z Z;
  h_ctx : BmpCtx;
  h_out : list Update
}.

(** What was captured when the connection was accepted. *)
Record Config : Type := mk_config {
  connection : Z;
  router_addr : IpAddr;
  router_id_template : rstring;
  ignore_post_policy_routes : bool
}.

Definition set_world (w : World) (h : Handler) : Handler :=
  mk_handler w (h_machine h) (h_states h) (h_info h) (h_ctx h) (h_out h).
Definition set_machine (s : option BmpState) (h : Handler) : Handler :=
  mk_handler (h_world h) s (h_states h) (h_info h) (h_ctx h) (h_out h).
Definition set_maps (states infos : gmap Z Z) (h : Handler) : Handler :=
  mk_handler (h_world h) (h_machine h) states infos (h_ctx h) (h_out h).
Definition set_ctx (c : BmpCtx) (h : Handler) : Handler :=
  mk_handler (h_world h) (h_machine h) (h_states h) (h_info h) c (h_out h).

Definition send (u : Update) : Run Handler unit :=
  run_modify (fun h => mk_handler (h_world h) (h_machine h) (h_states h) (h_info h) (h_ctx h)
                         (h_out h ++ [u])).

Definition on_world {A} (m : Run World A) : Run Handler A :=
  fun h => let '(a, w) := m (h_world h) in (a, set_world w h).

Definition with_register (f : Register -> Register) : Run Handler unit :=
  run_modify (fun h => set_world (mk_bmp_world (f (reg (h_world h))) (metrics (h_world h))) h).

(** [Option::unwrap] of the state machine. *)
Definition machine : Run Handler BmpState :=
  fun h => (h_machine h, h).

Definition msg_pph (m : BmpMsg) : option PerPeerHeader :=
  match m with
  | RouteMonitoring m => Some (rm_pph m)
  | StatisticsReport m => Some (st_pph m)
  | PeerDownNotification m => Some (down_pph m)
  | PeerUpNotification m => Some (up_pph m)
  | InitiationMessage _ | TerminationMessage _ => None
  | RouteMirroring raw => Some (for_slice (take 42 (drop 6 raw)))
  end.

(** The information for the filter. *)
Definition filter_info (c : Config) (m : BmpMsg) : IngressInfo :=
  match msg_pph m with
  | Some pph => with_remote_addr (pph_address pph) (with_remote_asn (pph_asn pph) info_default)
  | None => with_remote_addr (router_addr c) (with_remote_asn 0 info_default)
  end.

Definition bmp_output (m : BmpMsg) (id : IngressId) (o : Output) : option OutputStreamMessage :=
  match o with
  | O_Prefix _ => Some (osm_prefix None (Some id))
  | O_Community _ => Some (osm_community None (Some id))
  | O_Asn _ => Some (osm_asn None (Some id))
  | O_Origin _ => Some (osm_origin None (Some id))
  | O_PeerDown =>
      match m with
      | PeerDownNotification d =>
          Some (osm_peer_down (str "mqtt") (str "peerdown") (pph_address (down_pph d))
                  (pph_asn (down_pph d)) (Some id))
      | _ => None
      end
  | O_Custom cid local => Some (osm_custom cid local (Some id))
  | O_Entry e => Some (osm_entry e (Some id))
  end.

(** [check_update_router_id]. *)
Definition check_update_router_id (c : Config) (id : IngressId) (s : BmpState) : BmpState :=
  let new_id := format_source_id (router_id_template c) id in
  match s with
  | SDumping v =>
      if bool_decide (new_id <> sd_router_id v)
      then SDumping (mk_sd (sd_ingress_id v) new_id (details v)) else s
  | SUpdating v =>
      if bool_decide (new_id <> sd_router_id v)
      then SUpdating (mk_sd (sd_ingress_id v) new_id (details v)) else s
  | _ => s
  end.

(** Whether the message is dropped before anything looks at it. *)
Definition dropped (c : Config) (m : BmpMsg) : bool :=
  ignore_post_policy_routes c
  && match m with RouteMonitoring rm => pph_is_post_policy (rm_pph rm) | _ => false end.

(** The verdict of the filter; no filter accepts. *)
Definition run_filter (c : Config) (id : IngressId) (m : BmpMsg) : Run Handler bool :=
  h ← run_get;
  let '(ok, ctx) :=
    match roto_bmp_in with
    | Some f => f (reg (h_world h)) m (filter_info c m) (h_ctx h)
    | None => (true, h_ctx h)
    end in
  let '(outs, ctx) := bmp_drain ctx in
  _ ← run_modify (set_ctx ctx);
  _ ← send (OutputStream (omap (bmp_output m id) outs));
  mret ok.

(** What becomes of the result of the state machine; [inl] is [Aborted]. *)
Definition act_on (c : Config) (id : IngressId) (res : ProcessingResult)
  : Run Handler (rstring + BmpState) :=
  match message_type res with
  | InvalidMessage _ _ _ => mret (inr (next_state res))
  | StateTransition | Other => mret (inr (check_update_router_id c id (next_state res)))
  | RoutingUpdate u => _ ← send u; mret (inr (next_state res))
  | Aborted => mret (inl (state_router_id (next_state res)))
  end.

(** [RouterHandler::process_msg]. *)
Definition handle_msg (c : Config) (received : Z) (id : IngressId) (m : BmpMsg)
  : Run Handler (rstring + unit) :=
  s ← machine;
  _ ← run_modify (set_machine None);
  if dropped c m then _ ← run_modify (set_machine (Some s)); mret (inr tt)
  else
    ok ← run_filter c id m;
    if negb ok then _ ← run_modify (set_machine (Some s)); mret (inr tt)
    else
      res ← on_world (process_msg received m s);
      next ← act_on c id res;
      match next with
      | inl router => mret (inl router)
      | inr s' => _ ← run_modify (set_machine (Some s')); mret (inr tt)
      end.

(** ** The read loop *)

(** Adoption of the id that the Initiation message resolved: the id of the
    connection from then on, and whether it is settled. *)
Definition settle (c : Config) (id : IngressId) : Run Handler (IngressId * bool) :=
  h ← run_get;
  match h_machine h with
  | None => mret (id, false)
  | Some s =>
      let resolved := state_ingress_id s in
      if bool_decide (resolved <> id) then
        _ ← run_modify (fun h =>
              set_maps (<[resolved := connection c]> (delete id (h_states h)))
                (match h_info h !! id with
                 | Some ri => <[resolved := ri]> (delete id (h_info h))
                 | None => delete id (h_info h)
                 end) h);
        _ ← with_register (fun r => snd (Register.remove id r));
        _ ← send (IngressReappeared resolved);
        mret (resolved, true)
      else mret (id, bool_decide (state_idx s <> IdxInitiating))
  end.

Inductive Turn : Type :=
| Go (id : IngressId) (settled : bool)
| Stop (id : IngressId).

(** One turn, on the answer of [BmpStream::next]. *)
Definition turn (c : Config) (received : Z) (id : IngressId) (settled : bool)
    (nx : Next (GateStatus := GateStatus)) : Run Handler Turn :=
  match nx with
  | inl k =>
      _ ← machine;
      mret (if is_fatal k then Stop id else Go id settled)
  | inr (None, _, _) => mret (Stop id)
  | inr (Some buf, _, _) =>
      match from_octets buf with
      | None => mret (Go id settled)
      | Some m =>
          res ← handle_msg c received id m;
          match res with
          | inl router =>
              _ ← on_world (run_modify (fun w => mk_bmp_world (reg w) (delete router (metrics w))));
              mret (Stop id)
          | inr _ =>
              if settled then mret (Go id true)
              else x ← settle c id; let '(id, settled) := x : IngressId * bool in mret (Go id settled)
          end
      end
  end.

(** The loop; [None] as its answer says that the fuel was not enough.  [evs] and
    [clock] are what the gate reports during a read and the time of it. *)
Fixpoint read_loop (fuel : nat) (c : Config) (evs : nat -> list (option GateStatus))
    (clock : nat -> Z) (b : BmpStream) (id : IngressId) (settled : bool)
  : Run Handler (option IngressId) :=
  match fuel with
  | O => mret None
  | S fuel =>
      let '(nx, b) := stream_next (evs fuel) b in
      t ← turn c (clock fuel) id settled nx;
      match t with
      | Stop id => mret (Some id)
      | Go id settled => read_loop fuel c evs clock b id settled
      end
  end.

(** The end of [read_from_router]. *)
Definition teardown (id : IngressId) : Run Handler unit :=
  s ← machine;
  _ ← with_register (set_disconnected id);
  h ← run_get;
  let '(entries, r) := state_disconnect s (reg (h_world h)) in
  _ ← with_register (fun _ => r);
  _ ← send (WithdrawBulk entries);
  send (EndOfStream id).

(** The teardown, and the entries of the maps, which the task removes. *)
Definition finish (id : IngressId) : Run Handler unit :=
  _ ← teardown id;
  run_modify (fun h => set_maps (delete id (h_states h)) (delete id (h_info h)) h).

(** The task of a connection, as [accept_config] spawns it. *)
Definition connection_task (fuel : nat) (c : Config) (evs : nat -> list (option GateStatus))
    (clock : nat -> Z) (b : BmpStream) (id : IngressId) : Run Handler (option IngressId) :=
  final ← read_loop fuel c evs clock b id false;
  match final with
  | None => mret None
  | Some id =>
      _ ← finish id;
      mret (Some id)
  end.

(** The entry of a connection before its Initiation message. *)
Definition provisional (unit_id : IngressId) (a : IpAddr) : IngressInfo :=
  with_ingress_type Bmp (with_remote_addr a (with_parent_ingress unit_id info_default)).

(** The acceptance of a connection: the id it gets, with its state machine in
    the map. *)
Definition accept (c : Config) (unit_id : IngressId) : Run Handler IngressId :=
  h ← run_get;
  let '(id, r) := register (reg (h_world h)) in
  _ ← with_register (fun _ => snd (update_info id (provisional unit_id (router_addr c)) r));
  _ ← run_modify (fun h => set_maps (h_states h) (<[id := connection c]> (h_info h)) h);
  _ ← run_modify (set_machine (Some (bmp_state_new id (format_source_id (router_id_template c) id))));
  _ ← run_modify (fun h => set_maps (<[id := connection c]> (h_states h)) (h_info h) h);
  mret id.

End Handler.
