(* ===== verification/BmpSafety.v ===== *)
(** * Properties of the BMP state machine

    A weakest-precondition calculus for the handlers of [BmpMachine], the
    refinement of the register's step relation by a session, and what each
    handler does on every branch. *)

From S2P Require Import Prelude Net Register Payload BmpMsg BmpMetrics BmpPeers BmpMachine.
From Stdlib Require Import ZArith Lia.
From stdpp Require Import base numbers list gmap fin_maps strings.

Local Open Scope Z_scope.

#[local] Arguments sd_ingress_id {T} _.
#[local] Arguments sd_router_id {T} _.
#[local] Arguments details {T} _.

Create HintDb wp.

(** ** Weakest preconditions *)
Section Wp.
Context `{E : Extern} `{L : Layout} `{RC : !Routecore}.

(** [m] ends without a panic in a state and with an answer that satisfy [Q]. *)
Definition wp {S A} (m : Run S A) (Q : A -> S -> Prop) (w : S) : Prop :=
  match m w with (Some a, w') => Q a w' | (None, _) => False end.

Lemma wp_bind {S A B} (m : Run S A) (k : A -> Run S B) Q w :
  wp m (fun a => wp (k a) Q) w -> wp (m ≫= k) Q w.
Proof.
  unfold wp, mbind, run_bind. by destruct (m w) as [[a|] w'].
Qed.

Lemma wp_mono {S A} (m : Run S A) (P Q : A -> S -> Prop) w :
  wp m P w -> (forall a w', P a w' -> Q a w') -> wp m Q w.
Proof. unfold wp. destruct (m w) as [[a|] w']; auto. Qed.

Lemma wp_ret {S A} (a : A) Q (w : S) : Q a w -> wp (mret a) Q w.
Proof. done. Qed.

Lemma wp_modify {S} (f : S -> S) (Q : unit -> S -> Prop) w :
  Q tt (f w) -> wp (run_modify f) Q w.
Proof. done. Qed.

Lemma wp_report id f Q w :
  Q tt (mk_bmp_world (reg w) (on_router id f (metrics w))) ->
  wp (report id f) Q w.
Proof. done. Qed.

Lemma wp_on_register {A} (f : Register -> A * Register) Q w :
  Q (fst (f (reg w))) (mk_bmp_world (snd (f (reg w))) (metrics w)) ->
  wp (on_register f) Q w.
Proof. unfold wp, on_register. by destruct (f (reg w)). Qed.

Lemma wp_unwrap {A} (o : option A) a Q w :
  o = Some a -> Q a w -> wp (unwrap o) Q w.
Proof. by intros ->. Qed.

Lemma wp_get {S} Q (w : S) : Q w w -> wp run_get Q w.
Proof. done. Qed.

Lemma wp_exists {S A} (m : Run S A) Q w :
  wp m Q w -> exists a w', m w = (Some a, w') /\ Q a w'.
Proof. unfold wp. destruct (m w) as [[a|] w']; [eauto|done]. Qed.

(** Reporting in a loop does not touch the register. *)
Lemma wp_report_for {A} (l : list A) id (f : A -> RouterBmpMetrics -> RouterBmpMetrics)
    (Q : unit -> World -> Prop) w :
  Q tt (mk_bmp_world (reg w)
          (foldl (fun m x => on_router id (f x) m) (metrics w) l)) ->
  wp (run_for l (fun x => report id (f x))) Q w.
Proof.
  revert w. induction l as [|x l IH]; intros w HQ; cbn [run_for].
  - by destruct w.
  - apply wp_bind, wp_report, IH. exact HQ.
Qed.

End Wp.

Ltac wp_step :=
  lazymatch goal with
  | |- wp (_ ≫= _) _ _ => apply wp_bind
  | |- wp (mret _) _ _ => apply wp_ret
  | |- wp (report _ _) _ _ => apply wp_report
  | |- wp (on_register _) _ _ => apply wp_on_register
  | |- wp run_get _ _ => apply wp_get
  | |- wp (run_modify _) _ _ => apply wp_modify
  | |- wp (run_for _ (fun x => report _ _)) _ _ => apply wp_report_for
  end.

Ltac wp_steps := repeat (wp_step; cbn [reg metrics]).

(** ** Parsing with a retry *)
Section Parse.
Context `{E : Extern} `{L : Layout} `{RC : !Routecore}.

(** The other setting of the four-octet switch. *)
Definition flip_config (c : SessionConfig) : SessionConfig :=
  set_four_octet_asns (negb (config_four_octet_enabled c)) c.

Lemma flip_config_ne c : flip_config c <> c.
Proof.
  intros Heq. pose proof (four_octet_set (negb (config_four_octet_enabled c)) c)
    as H. fold (flip_config c) in H. rewrite Heq in H.
  by destruct (config_four_octet_enabled c).
Qed.

Lemma flip_config_twice c : flip_config (flip_config c) = c.
Proof.
  unfold flip_config. rewrite four_octet_set, four_octet_over, negb_involutive.
  apply four_octet_same.
Qed.

(** What the loop computes: at most two attempts. *)
Definition parse_spec (m : RouteMonitoringMsg) (c : SessionConfig)
  : ParseOutcome :=
  match rm_bgp_update m c with
  | inr u => ParsedAs u c None
  | inl e =>
      match rm_bgp_update m (flip_config c) with
      | inr u => ParsedAs u (flip_config c) (Some e)
      | inl e' => ParseFailed (flip_config c) e'
      end
  end.

Lemma parse_loop_spec fuel m c :
  (PARSE_FUEL <= fuel)%nat ->
  parse_loop fuel m [] None c = Some (parse_spec m c).
Proof.
  unfold PARSE_FUEL, parse_spec. intros Hf.
  destruct fuel as [|[|fuel]]; [lia..|]. cbn [parse_loop].
  destruct (rm_bgp_update m c) as [e|u]; [|done].
  cbn [generate_alternate_config]. fold (flip_config c). cbn [app].
  rewrite bool_decide_false; cbn [negb].
  - destruct (rm_bgp_update m (flip_config c)) as [e'|u]; [|done].
    fold (flip_config (flip_config c)). rewrite flip_config_twice.
    rewrite bool_decide_true by set_solver. done.
  - intros Hin%list_elem_of_singleton. by apply (flip_config_ne c).
Qed.

End Parse.

(** ** The handlers as clients of the register *)
Section Refinement.
Context `{E : Extern} `{L : Layout} `{RC : !Routecore}.
Context `{HI : !HashIter Z IngressInfo}
        `{HP : !HashIter PphKey (PerPeerHeader * PeerState)}.

(** The peers a state tracks. *)
Definition peers_of (s : BmpState) : PeerStates :=
  match s with
  | SDumping v => d_peer_states (details v)
  | SUpdating v => u_peer_states (details v)
  | SInitiating _ | STerminated _ | SAborted _ _ => ∅
  end.

Definition same_session {A B} (v : BmpStateDetails A) (v' : BmpStateDetails B)
  : Prop :=
  sd_ingress_id v' = sd_ingress_id v /\ sd_router_id v' = sd_router_id v.

Lemma update_peer_config_evolves o sv r ps pph c :
  session_ok o ps -> evolves o sv r ps r (snd (update_peer_config pph c ps)).
Proof.
  intros Hok. unfold update_peer_config.
  destruct (lookup_peer pph ps); cbn [snd].
  - by apply evolves_modify.
  - by apply evolves_refl.
Qed.

Lemma add_pending_eor_evolves o sv r ps pph a :
  session_ok o ps -> evolves o sv r ps r (snd (add_pending_eor pph a ps)).
Proof.
  intros Hok. unfold add_pending_eor.
  destruct (lookup_peer pph ps); cbn [snd].
  - by apply evolves_modify.
  - by apply evolves_refl.
Qed.

Lemma remove_pending_eor_evolves o sv r ps pph a :
  session_ok o ps -> evolves o sv r ps r (snd (remove_pending_eor pph a ps)).
Proof. intros Hok. by apply evolves_modify. Qed.

Lemma query_ingress_state pph lc rc id tlvs :
  state (query_ingress pph lc rc id tlvs) = Some Connected.
Proof.
  unfold query_ingress. by destruct (find _ _), (pph_peer_type pph).
Qed.

Lemma add_peer_config_evolves o sv r ps pph c eor lc rc id tlvs :
  session_inv o sv r ps ->
  let '(_, ps', r') := add_peer_config pph c eor lc rc id tlvs ps r in
  evolves o sv r ps r' ps'.
Proof.
  intros Hinv. unfold add_peer_config.
  case_bool_decide as Hp; [apply evolves_refl, Hinv|].
  destruct (claim_or_register _ r) as [[new existing] r'] eqn:Hc.
  destruct (ps !! pph_key pph) eqn:Hn; [by destruct Hp|].
  eapply evolves_insert; eauto using query_ingress_state.
Qed.

Lemma held_stored o sv r ps pph s :
  session_inv o sv r ps -> lookup_peer pph ps = Some s ->
  exists i, get (peer_ingress s) r = Some i.
Proof.
  intros [Hw _ _] [p Hp]%lookup_peer_Some.
  destruct (inv_held _ Hw (peer_ingress s)) as (i & Hi & _); [|eauto].
  apply elem_of_union_r, elem_of_peer_ids. eauto.
Qed.

Lemma find_sibling_lookup pph ps k :
  keys_ok ps -> find_sibling_pph pph ps = Some k ->
  is_Some (lookup_peer k ps) /\ pph_key k <> pph_key pph
  /\ same_identity k pph = true.
Proof.
  unfold find_sibling_pph. intros Hk [Hin Hp]%find_some.
  apply andb_true_iff in Hp as [Hne Hid].
  rewrite negb_true_iff, bool_decide_eq_false in Hne.
  apply list_elem_of_In, list_elem_of_fmap in Hin as ([p s] & -> & He).
  split; [|done]. exists s. apply lookup_peer_Some. exists p.
  by apply (entry_lookup _ (p, s)).
Qed.

Section PeerStateHandlers.
Context {T : Type} {ST : StateOf T} {PA : PeerAware T}.

Lemma peers_with ps (v : BmpStateDetails T) : peers (with_peers ps v) = ps.
Proof. apply peers_set. Qed.

(** The session went on from [v] to [v'], of the same router. *)
Definition goes_on (o sv : gset Z) (w : World) (v : BmpStateDetails T)
    (v' : BmpStateDetails T) (w' : World) : Prop :=
  same_session v v' /\ evolves o sv (reg w) (peers v) (reg w') (peers v').

(** A handler answered and stayed in its state. *)
Definition handled (o sv : gset Z) (w : World) (v : BmpStateDetails T)
    (res : ProcessingResult) (w' : World) : Prop :=
  exists v', next_state res = into_state v' /\ goes_on o sv w v v' w'.

Lemma goes_on_with o sv w v ps w' :
  evolves o sv (reg w) (peers v) (reg w') ps ->
  goes_on o sv w v (with_peers ps v) w'.
Proof. intros Hev. split; [done|]. by rewrite peers_with. Qed.

Lemma goes_on_refl o sv w v w' :
  session_ok o (peers v) -> reg w' = reg w -> goes_on o sv w v v w'.
Proof. intros Hok Hr. split; [done|]. rewrite Hr. by apply evolves_refl. Qed.

Lemma goes_on_trans o sv w1 v1 v2 w2 v3 w3 :
  goes_on o sv w1 v1 v2 w2 -> goes_on o sv w2 v2 v3 w3 ->
  goes_on o sv w1 v1 v3 w3.
Proof.
  intros [[H1 H2] He] [[H3 H4] He']. split; [split; congruence|].
  by eapply evolves_trans.
Qed.

Lemma peer_up_handled m (v : BmpStateDetails T) o sv w :
  session_inv o sv (reg w) (peers v) ->
  wp (peer_up m v) (handled o sv w v) w.
Proof.
  intros Hinv. unfold peer_up. wp_steps.
  pose proof (add_peer_config_evolves o sv (reg w) (peers v) (up_pph m)
    (up_config m) (up_graceful_restart m) (up_sent_capabilities m)
    (up_rcvd_capabilities m) (sd_ingress_id v) (up_tlvs m) Hinv) as Hev.
  destruct (add_peer_config _ _ _ _ _ _ _ _ _) as [[[added existing] ps] r'].
  cbn [fst snd]. destruct added; cbn [negb]; wp_steps.
  - exists (with_peers ps v). split; [by destruct existing|].
    by apply goes_on_with.
  - exists (with_peers ps v). split; [done|]. by apply goes_on_with.
Qed.

Lemma peer_down_handled m (v : BmpStateDetails T) o sv w :
  session_inv o sv (reg w) (peers v) ->
  wp (peer_down m v) (handled o sv w v) w.
Proof.
  intros [_ Hok _]. unfold peer_down.
  pose proof (remove_siblings_spec (down_pph m) (peers v) (ok_keys _ _ Hok)) as Hs.
  destruct (remove_peer_identity_siblings _ _) as [removed ps].
  destruct Hs as [-> Hps].
  pose proof (evolves_remove o sv (reg w) _ _ _ Hok Hps) as Hev.
  change (taken _ (peers v)) with (snd <$> siblings (down_pph m) (peers v)) in Hev.
  destruct (snd <$> siblings (down_pph m) (peers v)) as [|first rest];
    wp_steps; exists (with_peers ps v);
    (split; [by try destruct (_ && _)|by apply goes_on_with]).
Qed.

Lemma synthesize_goes_on src m err (v : BmpStateDetails T) o sv w :
  session_inv o sv (reg w) (peers v) ->
  is_Some (lookup_peer src (peers v)) ->
  peers v !! pph_key (rm_pph m) = None ->
  wp (synthesize src m err v) (fun a w' =>
    exists v', a = inr v' /\ is_Some (get_peer_config (rm_pph m) (peers v'))
      /\ goes_on o sv w v v' w') w.
Proof.
  intros Hinv [s Hs] Hn. unfold synthesize, get_peer_ingress_id.
  rewrite Hs. cbn [fmap option_fmap option_map]. wp_steps.
  eapply wp_unwrap; [done|]. wp_steps.
  destruct (held_stored _ _ _ _ _ _ Hinv Hs) as [i Hi].
  eapply wp_unwrap; [done|]. wp_steps.
  destruct (claim_or_register _ _) as [[id existing] r'] eqn:Hc. cbn [fst snd].
  unfold add_cloned_peer_config. rewrite Hs.
  eapply wp_unwrap; [done|]. rewrite Hn, bool_decide_false
    by (intros [? [=]]). cbn [negb]. wp_steps.
  eexists. split; [done|]. split.
  - rewrite peers_with, insert_peer_absent by done.
    unfold get_peer_config, lookup_peer. by rewrite lookup_insert_eq.
  - apply goes_on_with. eapply evolves_insert; [done| |done..]. done.
Qed.

(** What [resolve_config] leaves: the answer for an unknown peer, or the state
    to go on with. *)
Definition resolved (o sv : gset Z) (w : World) (v : BmpStateDetails T)
    (a : ProcessingResult + BmpStateDetails T * SessionConfig) (w' : World)
  : Prop :=
  match a with
  | inl res => handled o sv w v res w'
  | inr (v', c) => goes_on o sv w v v' w'
  end.

Lemma synthesize_resolved src m err (v : BmpStateDetails T) o sv w :
  session_inv o sv (reg w) (peers v) ->
  is_Some (lookup_peer src (peers v)) ->
  peers v !! pph_key (rm_pph m) = None ->
  wp (a ← synthesize src m err v;
      match a with
      | inl res => mret (inl res)
      | inr s' =>
          c ← unwrap (get_peer_config (rm_pph m) (peers s'));
          mret (inr (s', c))
      end) (resolved o sv w v) w.
Proof.
  intros Hinv Hs Hn. wp_steps. eapply wp_mono; [by apply synthesize_goes_on|].
  intros a w' (v' & -> & [c Hc] & Hg). wp_steps. by eapply wp_unwrap.
Qed.

Lemma resolve_config_resolved m (v : BmpStateDetails T) o sv w :
  session_inv o sv (reg w) (peers v) ->
  wp (resolve_config m v) (resolved o sv w v) w.
Proof.
  intros Hinv. unfold resolve_config, get_peer_config.
  destruct (lookup_peer (rm_pph m) (peers v)) eqn:Hp.
  { apply wp_ret. by apply goes_on_refl; [apply Hinv|]. }
  assert (peers v !! pph_key (rm_pph m) = None) as Hn.
  { unfold lookup_peer in Hp. by destruct (_ !! _). }
  cbn [fmap option_fmap option_map].
  destruct (lookup_peer (pph_nulled_flags _) _) eqn:Hnull;
    cbn [fmap option_fmap option_map].
  { by apply synthesize_resolved; [..|done]. }
  destruct (find_sibling_pph _ _) as [k|] eqn:Hsib.
  - apply find_sibling_lookup in Hsib as [Hk _]; [|apply Hinv].
    by apply synthesize_resolved.
  - wp_steps. exists v. split; [done|]. by apply goes_on_refl; [apply Hinv|].
Qed.

Lemma keep_config_goes_on m c retried (v : BmpStateDetails T) o sv w :
  session_ok o (peers v) ->
  wp (keep_config m c retried v) (goes_on o sv w v) w.
Proof.
  intros Hok. unfold keep_config. destruct retried; wp_steps.
  - apply goes_on_with. by apply update_peer_config_evolves.
  - by apply goes_on_refl.
Qed.

Lemma note_pending_goes_on pph n anns (v : BmpStateDetails T) o sv w :
  session_ok o (peers v) ->
  wp (note_pending_eor pph n anns v) (goes_on o sv w v) w.
Proof.
  intros Hok. unfold note_pending_eor.
  destruct (_ && _); [destruct anns as [|first anns]|]; wp_steps;
    try by apply goes_on_refl.
  pose proof (add_pending_eor_evolves o sv (reg w) (peers v) pph
    (nlri_afi_safi first) Hok) as Hev.
  destruct (add_pending_eor _ _ _) as [k ps]. wp_steps. by apply goes_on_with.
Qed.

Lemma forward_routes_handled received m c u (v : BmpStateDetails T) o sv w :
  session_ok o (peers v) ->
  wp (forward_routes received m c u v) (handled o sv w v) w.
Proof.
  intros Hok. unfold forward_routes.
  destruct (extract_routes _ _ _ _) as [[payloads rep]|];
    [destruct (announcements_vec u) as [e|anns]|]; wp_steps;
    try (exists v; split; [done|by apply goes_on_refl]).
  eapply wp_mono; [by apply note_pending_goes_on|]. intros v' w' Hg. wp_steps.
  exists v'. by split.
Qed.

(** What a preprocessing callback must do: it leaves the register alone and
    either goes on or ends the message with an answer [R] describes. *)
Definition preprocess_ok (o sv : gset Z)
    (R : BmpStateDetails T -> ProcessingResult -> Prop)
    (cb : BmpStateDetails T -> PerPeerHeader -> Parsed ->
          Run World (ProcessingResult + BmpStateDetails T)) : Prop :=
  forall v pph u w, session_ok o (peers v) ->
    wp (cb v pph u) (fun b w' =>
      reg w' = reg w
      /\ match b with
         | inl res => R v res
         | inr v' => goes_on o sv w v v' w'
         end) w.

Lemma route_monitoring_handled received m cb R (v : BmpStateDetails T) o sv w :
  session_inv o sv (reg w) (peers v) -> preprocess_ok o sv R cb ->
  wp (route_monitoring received m cb v) (fun res w' =>
    handled o sv w v res w'
    \/ exists v1, goes_on o sv w v v1 w' /\ R v1 res) w.
Proof.
  intros Hinv Hcb. unfold route_monitoring. wp_steps.
  eapply wp_mono; [by apply resolve_config_resolved|].
  intros [res|[v1 c0]] w1 Hres; [wp_steps; by left|]. cbn [resolved] in Hres.
  rewrite parse_loop_spec by done. eapply wp_bind, wp_unwrap; [done|].
  destruct (parse_spec m c0) as [u c retried|c e].
  - wp_steps. eapply wp_mono; [apply keep_config_goes_on, Hres|].
    intros v2 w2 H2. wp_steps. pose proof (goes_on_trans _ _ _ _ _ _ _ _ Hres H2).
    eapply wp_mono; [apply Hcb, H2|]. intros [res|v3] w3 [Hreg Hb].
    + wp_steps. right. exists v2. split; [|done].
      unfold goes_on. by rewrite Hreg.
    + eapply wp_mono; [apply forward_routes_handled, Hb|].
      intros res w4 (v4 & Hn & H4). left. exists v4.
      eauto using goes_on_trans.
  - wp_steps. left. exists v1. by split.
Qed.

Lemma terminate_evolves (v : BmpStateDetails T) o sv w :
  session_ok o (peers v) ->
  wp (terminate v) (fun res w' =>
    next_state res = STerminated (to_terminated v)
    /\ evolves o sv (reg w) (peers v) (reg w') ∅) w.
Proof.
  intros Hok. unfold terminate. wp_steps.
  pose proof (evolves_disconnect o sv (reg w) (peers v) Hok) as Hev.
  destruct (disconnect_into_register _ _) as [[|e l] r]; wp_steps;
    [unfold mk_state_transition_result; cbn [has_reporter]; wp_steps|]; by split.
Qed.

End PeerStateHandlers.

(** ** Allowed transitions *)

Definition no_pending (ps : PeerStates) : Prop :=
  forall k p s, ps !! k = Some (p, s) -> pending_eors s = ∅.

Inductive allowed : BmpState -> BmpState -> Prop :=
| allow_wait v : allowed (SInitiating v) (SInitiating v)
| allow_initiated v v' :
    sd_router_id v' = sd_router_id v -> d_peer_states (details v') = ∅ ->
    allowed (SInitiating v) (SDumping v')
| allow_dumping v v' : same_session v v' -> allowed (SDumping v) (SDumping v')
| allow_dumped v v' :
    same_session v v' -> no_pending (u_peer_states (details v')) ->
    allowed (SDumping v) (SUpdating v')
| allow_updating v v' : same_session v v' -> allowed (SUpdating v) (SUpdating v')
| allow_end_dumping v v' :
    same_session v v' -> allowed (SDumping v) (STerminated v')
| allow_end_updating v v' :
    same_session v v' -> allowed (SUpdating v) (STerminated v')
| allow_terminated v : allowed (STerminated v) (STerminated v)
| allow_aborted id r : allowed (SAborted id r) (SAborted id r).

Lemma remove_pending_done pph a ps :
  fst (remove_pending_eor pph a ps) = true ->
  no_pending (snd (remove_pending_eor pph a ps)).
Proof.
  unfold remove_pending_eor. cbn [fst snd]. intros Hall k p s Hk.
  rewrite forallb_forall in Hall. specialize (Hall (p, s)).
  apply bool_decide_eq_true in Hall; [done|].
  apply list_elem_of_In, elem_of_entries. eauto.
Qed.

(** The answer of the [Dumping] callback when it ends a message. *)
Definition dump_ended (v : BmpStateDetails Dumping) (res : ProcessingResult)
  : Prop :=
  exists v', res = mk_result StateTransition (SUpdating v')
    /\ same_session v v' /\ no_pending (u_peer_states (details v'))
    /\ forall o sv r, session_ok o (peers v) ->
         evolves o sv r (peers v) r (u_peer_states (details v')).

Lemma dumping_preprocess_ok o sv :
  preprocess_ok o sv dump_ended dumping_preprocessing.
Proof.
  intros v pph u w Hok. unfold dumping_preprocessing.
  destruct (upd_is_eor _) as [e|[a|]];
    try (wp_steps; split; [done|by apply goes_on_refl]).
  pose proof (remove_pending_done pph a (peers v)) as Hdone.
  pose proof (fun o sv r => remove_pending_eor_evolves o sv r (peers v) pph a)
    as Hev.
  destruct (remove_pending_eor _ _ _) as [all_done ps]. cbn [fst snd] in *.
  destruct all_done; unfold mk_state_transition_result; cbn [has_reporter];
    wp_steps.
  - split; [done|]. eexists. split; [done|]. split; [done|].
    split; [by apply Hdone|]. intros. by apply Hev.
  - split; [done|]. apply goes_on_with. by apply Hev.
Qed.

Lemma updating_preprocess_ok o sv :
  preprocess_ok o sv (fun _ _ => False) updating_preprocessing.
Proof.
  intros v pph u w Hok. unfold updating_preprocessing.
  destruct (upd_is_eor _) as [e|[a|]];
    try (wp_steps; split; [done|by apply goes_on_refl]).
  pose proof (remove_pending_eor_evolves o sv (reg w) (peers v) pph a Hok) as Hev.
  destruct (remove_pending_eor _ _ _) as [all_done ps]. cbn [snd] in Hev.
  destruct all_done; wp_steps; (split; [done|]); by apply goes_on_with.
Qed.

(** What processing a message leaves: an allowed next state, and outside
    [Initiating] a session that used the register by its rules. *)
Definition processed (o sv : gset Z) (w : World) (s : BmpState)
    (res : ProcessingResult) (w' : World) : Prop :=
  allowed s (next_state res)
  /\ (state_idx s <> IdxInitiating ->
      evolves o sv (reg w) (peers_of s) (reg w') (peers_of (next_state res))).

Lemma same_session_trans {A B C} (v1 : BmpStateDetails A)
    (v2 : BmpStateDetails B) (v3 : BmpStateDetails C) :
  same_session v1 v2 -> same_session v2 v3 -> same_session v1 v3.
Proof. intros [] []. split; congruence. Qed.

Lemma handled_dumping o sv w (v : BmpStateDetails Dumping) res w' :
  handled o sv w v res w' -> processed o sv w (SDumping v) res w'.
Proof.
  intros (v' & Hn & Hs & He). split; rewrite Hn; [by constructor|done].
Qed.

Lemma handled_updating o sv w (v : BmpStateDetails Updating) res w' :
  handled o sv w v res w' -> processed o sv w (SUpdating v) res w'.
Proof.
  intros (v' & Hn & Hs & He). split; rewrite Hn; [by constructor|done].
Qed.

Lemma stays_dumping o sv w (v v' : BmpStateDetails Dumping) mt :
  session_ok o (peers v) -> same_session v v' ->
  d_peer_states (details v') = d_peer_states (details v) ->
  processed o sv w (SDumping v) (mk_result mt (SDumping v')) w.
Proof.
  intros Hok Hs Hp. split; [by constructor|]. intros _. cbn. rewrite Hp.
  by apply evolves_refl.
Qed.

Lemma stays_updating o sv w (v v' : BmpStateDetails Updating) mt :
  session_ok o (peers v) -> same_session v v' ->
  u_peer_states (details v') = u_peer_states (details v) ->
  processed o sv w (SUpdating v) (mk_result mt (SUpdating v')) w.
Proof.
  intros Hok Hs Hp. split; [by constructor|]. intros _. cbn. rewrite Hp.
  by apply evolves_refl.
Qed.

Lemma statistics_result {T} {ST : StateOf T} {PA : PeerAware T} m (v : BmpStateDetails T) :
  exists mt, statistics_report m v = mk_result mt (into_state v).
Proof.
  unfold statistics_report. destruct (get_peer_ingress_id _ _);
    [case_bool_decide|]; eexists; reflexivity.
Qed.

Lemma dumping_processed received m (v : BmpStateDetails Dumping) o sv w :
  session_inv o sv (reg w) (peers v) ->
  wp (dumping_process_msg received m v) (processed o sv w (SDumping v)) w.
Proof.
  intros Hinv. pose proof (si_ok _ _ _ _ Hinv) as Hok.
  destruct m as [m|m|m|m|m|r|r]; cbn [dumping_process_msg].
  - wp_steps. by apply stays_dumping.
  - wp_steps. eapply wp_mono; [by apply peer_up_handled|].
    intros res w' (v' & Hn & Hg). rewrite Hn. cbn [into_state dumping_state].
    wp_steps. apply handled_dumping. by exists v'.
  - eapply wp_mono; [by apply peer_down_handled|]. eauto using handled_dumping.
  - eapply wp_mono.
    { apply (route_monitoring_handled _ _ _ dump_ended _ o sv w Hinv).
      by apply dumping_preprocess_ok. }
    intros res w' [Hh|(v1 & [Hs1 He1] & v' & -> & Hs & Hnp & He)].
    + by apply handled_dumping.
    + split; [constructor; eauto using same_session_trans|]. intros _.
      eapply evolves_trans; [done|]. apply He, He1.
  - wp_steps. destruct (statistics_result m v) as [mt ->].
    by apply stays_dumping.
  - eapply wp_mono; [by apply terminate_evolves|]. intros res w' [Hn He].
    split; rewrite Hn; [by constructor|done].
  - wp_steps. by apply stays_dumping.
Qed.

Lemma updating_processed received m (v : BmpStateDetails Updating) o sv w :
  session_inv o sv (reg w) (peers v) ->
  wp (updating_process_msg received m v) (processed o sv w (SUpdating v)) w.
Proof.
  intros Hinv. pose proof (si_ok _ _ _ _ Hinv) as Hok.
  destruct m as [m|m|m|m|m|r|r]; cbn [updating_process_msg].
  - wp_steps. by apply stays_updating.
  - eapply wp_mono; [by apply peer_up_handled|]. eauto using handled_updating.
  - eapply wp_mono; [by apply peer_down_handled|]. eauto using handled_updating.
  - eapply wp_mono.
    { apply (route_monitoring_handled _ _ _ (fun _ _ => False) _ o sv w Hinv).
      apply updating_preprocess_ok. }
    intros res w' [Hh|(v1 & _ & [])]. by apply handled_updating.
  - wp_steps. destruct (statistics_result m v) as [mt ->].
    by apply stays_updating.
  - eapply wp_mono; [by apply terminate_evolves|]. intros res w' [Hn He].
    split; rewrite Hn; [by constructor|done].
  - wp_steps. by apply stays_updating.
Qed.

Lemma initiating_processed m (v : BmpStateDetails Initiating) o sv w :
  wp (initiating_process_msg m v) (processed o sv w (SInitiating v)) w.
Proof.
  destruct m as [m|m|m|m|m|r|r]; cbn [initiating_process_msg];
    wp_steps; (split; [by constructor|done]).
Qed.

Lemma report_invalid_state res w :
  exists res' w', report_invalid res w = (Some res', w')
    /\ next_state res' = next_state res /\ reg w' = reg w.
Proof.
  unfold report_invalid, mbind, run_bind. destruct (message_type res);
    [destruct (has_reporter _)|..]; eexists _, _; split; reflexivity || done.
Qed.

Lemma process_msg_processed received m s o sv w :
  session_inv o sv (reg w) (peers_of s) ->
  wp (process_msg received m s) (processed o sv w s) w.
Proof.
  intros Hinv. unfold process_msg. wp_steps.
  eapply wp_mono with (P := processed o sv w s).
  - destruct s as [v|v|v|v|id r].
    + apply initiating_processed.
    + by apply dumping_processed.
    + by apply updating_processed.
    + wp_steps. split; [constructor|]. intros _. apply evolves_refl, Hinv.
    + wp_steps. split; [constructor|]. intros _. apply evolves_refl, Hinv.
  - intros res w' Hp. unfold report_invalid.
    destruct (message_type res); wp_steps; try done.
    destruct (has_reporter _); wp_steps; exact Hp.
Qed.

End Refinement.

(** ** What a Peer Down answers *)
Section PeerDown.
Context `{E : Extern} `{L : Layout} `{RC : !Routecore}.
Context {T : Type} {ST : StateOf T} {PA : PeerAware T}.

Lemma same_key_identity p q :
  pph_key p = pph_key q -> same_identity p q = true.
Proof.
  unfold same_identity. intros (-> & -> & -> & -> & ->)%pph_identity.
  by rewrite !bool_decide_true.
Qed.

(** The answer for the removed peers [p :: rest], and the register it
    leaves. *)
Definition peer_down_answer (v : BmpStateDetails T) (ps : PeerStates)
    (p : PeerState) (rest : list PeerState) (w : World)
    (res : ProcessingResult) (w' : World) : Prop :=
  res = mk_result
          (match rest with
           | [] => if synthesized p
                   then RoutingUpdate (WithdrawBulk [(peer_ingress p, None)])
                   else RoutingUpdate (Withdraw (peer_ingress p) None)
           | _ => RoutingUpdate
                    (WithdrawBulk ((fun p => (peer_ingress p, None)) <$> p :: rest))
           end) (into_state (with_peers ps v))
  /\ reg w' = snd (disconnect_peers (p :: rest) (reg w)).

End PeerDown.

(** ** What the register operations of the handlers leave behind *)
Section RegisterEffects.
Context `{E : Extern} `{L : Layout} `{RC : !Routecore}.
Context `{HI : !HashIter Z IngressInfo}
        `{HP : !HashIter PphKey (PerPeerHeader * PeerState)}.

Definition disconnected_info : IngressInfo := with_state Disconnected info_default.

(** The entry of an id after [update_info]. *)
Definition merged (id : IngressId) (q : IngressInfo) (r : Register)
  : IngressInfo :=
  match get id r with Some old => merge_info old q | None => q end.

Lemma get_update_info id q r k :
  get k (snd (update_info id q r))
  = if bool_decide (k = id) then Some (merged id q r) else get k r.
Proof.
  rewrite update_info_spec. unfold get, merged. cbn.
  case_bool_decide as Hk.
  - subst k. by rewrite lookup_insert_eq.
  - by rewrite lookup_insert_ne by congruence.
Qed.

Lemma merged_again id q r :
  merged id q (snd (update_info id q r)) = merged id q r.
Proof.
  unfold merged at 1. rewrite get_update_info, bool_decide_true by done.
  unfold merged. destruct (get id r); [apply merge_info_idemp|apply merge_info_self].
Qed.

(** After [disconnect_peers] exactly the ids of the list are disconnected. *)
Lemma get_disconnect_peers (l : list PeerState) r k :
  get k (snd (disconnect_peers l r))
  = if bool_decide (k ∈ peer_ingress <$> l)
    then Some (merged k disconnected_info r) else get k r.
Proof.
  unfold disconnect_peers. cbn [snd]. revert r.
  induction l as [|s l IH]; intros r; cbn [foldl].
  - by rewrite bool_decide_false by apply not_elem_of_nil.
  - rewrite IH, fmap_cons. unfold set_disconnected at 1 2.
    fold disconnected_info. rewrite get_update_info.
    destruct (decide (k = peer_ingress s)) as [->|Hne].
    + rewrite merged_again, (bool_decide_true (_ = _)) by done.
      rewrite (bool_decide_true (_ ∈ _ :: _)) by left. by case_bool_decide.
    + rewrite (bool_decide_false (k = _)) by done.
      unfold merged. rewrite get_update_info.
      rewrite (bool_decide_false (k = _)) by done.
      case_bool_decide; case_bool_decide; set_solver.
Qed.

Lemma get_disconnect_into ps r k :
  get k (snd (disconnect_into_register ps r))
  = if bool_decide (k ∈ peer_ids ps)
    then Some (merged k disconnected_info r) else get k r.
Proof.
  unfold disconnect_into_register. rewrite get_disconnect_peers.
  rewrite <- list_fmap_compose, <- entry_ids_set.
  erewrite bool_decide_ext; [reflexivity|]. by rewrite elem_of_list_to_set.
Qed.

Lemma claim_or_register_spec q r :
  let '(id, existing, r') := claim_or_register q r in
  (if existing : bool then
     exists i, get id r = Some i /\ state i <> Some Connected
       /\ peer_matches i q = true
       /\ get id r' = Some (merge_info (with_state Connected i) q)
   else
     id = serial r
     /\ (forall k i, get k r = Some i ->
           state i = Some Connected \/ peer_matches i q = false)
     /\ get id r' = Some (merged id q r))
  /\ forall k, k <> id -> get k r' = get k r.
Proof.
  unfold claim_or_register, find_existing_peer_and_claim.
  destruct (claim _ r) as [[[id i]|] r1] eqn:Hc.
  - apply claim_Some in Hc as (i0 & Hi0 & Hs%is_connected_false & Hm & -> & ->).
    split.
    + exists i0. split; [done|]. split; [done|]. split; [done|].
      rewrite get_update_info, bool_decide_true by done. unfold merged, get. cbn.
      by rewrite lookup_insert_eq.
    + intros k Hk. rewrite get_update_info, bool_decide_false by done.
      unfold get. cbn. by rewrite lookup_insert_ne.
  - apply claim_None in Hc as [-> Hn]. cbn [register]. split; [split; [done|]|].
    + split.
      * intros k i [Hk|Hk]%Hn; [left|by right].
        by apply bool_decide_eq_true in Hk.
      * by rewrite get_update_info, bool_decide_true by done.
    + intros k Hk. by rewrite get_update_info, bool_decide_false.
Qed.

End RegisterEffects.

(** ** Route Monitoring of a known peer *)
Section KnownPeer.
Context `{E : Extern} `{L : Layout} `{RC : !Routecore}.
Context `{HI : !HashIter Z IngressInfo}
        `{HP : !HashIter PphKey (PerPeerHeader * PeerState)}.

(** The routes of a readable NLRI section, in its order. *)
Definition routes_of (pamap : RotondaPaMap) (l : list Nlri)
  : list RotondaRoute := omap (fun n => route_try_from n pamap) l.

Lemma explode_loop_readable pamap l :
  explode_loop pamap (inr <$> l) = inr (routes_of pamap l).
Proof.
  induction l as [|n l IH]; [done|]. rewrite fmap_cons. cbn [explode_loop].
  rewrite IH. unfold routes_of. cbn. by destruct (route_try_from n pamap).
Qed.

Lemma lookup_peer_modify pph f ps :
  lookup_peer pph (modify_peer pph f ps) = f <$> lookup_peer pph ps.
Proof.
  unfold lookup_peer, modify_peer. rewrite lookup_alter_eq.
  by destruct (ps !! pph_key pph).
Qed.

Context {T : Type} {ST : StateOf T} {PA : PeerAware T}.

(** The session goes on with the peer under its id and this configuration, and
    the register as it was. *)
Definition keeps_peer (pph : PerPeerHeader) (id : IngressId) (c : SessionConfig)
    (w : World) (v v' : BmpStateDetails T) (w' : World) : Prop :=
  same_session v v' /\ reg w' = reg w
  /\ exists p, lookup_peer pph (peers v') = Some p
     /\ peer_ingress p = id /\ session_config p = c.

Lemma resolve_known m (v : BmpStateDetails T) p Q w :
  lookup_peer (rm_pph m) (peers v) = Some p ->
  Q (inr (v, session_config p)) w -> wp (resolve_config m v) Q w.
Proof.
  intros Hp HQ. unfold resolve_config, get_peer_config. rewrite Hp.
  exact HQ.
Qed.

Lemma keep_config_keeps m c retried (v : BmpStateDetails T) p w :
  lookup_peer (rm_pph m) (peers v) = Some p ->
  (retried = None -> c = session_config p) ->
  wp (keep_config m c retried v)
    (keeps_peer (rm_pph m) (peer_ingress p) c w v) w.
Proof.
  intros Hp Hc. unfold keep_config. destruct retried; wp_steps.
  - unfold update_peer_config. rewrite Hp. cbn [snd]. split; [done|].
    split; [done|]. eexists. rewrite peers_with, lookup_peer_modify, Hp. done.
  - split; [done|]. split; [done|]. exists p. split; [done|].
    split; [done|]. symmetry. auto.
Qed.

Lemma note_pending_keeps pph n anns (v : BmpStateDetails T) p w :
  lookup_peer pph (peers v) = Some p ->
  wp (note_pending_eor pph n anns v)
    (keeps_peer pph (peer_ingress p) (session_config p) w v) w.
Proof.
  intros Hp. unfold note_pending_eor.
  destruct (_ && _); [destruct anns as [|first anns]|]; wp_steps;
    try (split; [done|]; split; [done|]; eauto).
  unfold add_pending_eor. rewrite Hp. wp_steps. split; [done|]. split; [done|].
  eexists. rewrite peers_with, lookup_peer_modify, Hp. done.
Qed.

Lemma keeps_peer_trans pph id c id' c' w v v1 w1 v2 w2 :
  keeps_peer pph id' c' w v v1 w1 -> keeps_peer pph id c w1 v1 v2 w2 ->
  keeps_peer pph id c w v v2 w2.
Proof.
  intros (H1 & H2 & _) (H3 & H4 & H5).
  split; [eauto using same_session_trans|]. split; [congruence|done].
Qed.

(** What the message's routes become. *)
Definition payloads_of (received : Z) (id : IngressId) (u : Parsed)
    (pas : OwnedPathAttributes) (la lw : list Nlri) : list Payload :=
  ((fun r => with_received r None received id Active)
     <$> routes_of (pamap_new pas) la)
  ++ ((fun r => with_received r None received id Withdrawn)
        <$> routes_of (pamap_new (mk_opa (upd_pdu_parse_info (update u)) [])) lw).

(** A message all of whose parts can be read. *)
Record readable (u : Parsed) (pas : OwnedPathAttributes) (la lw : list Nlri)
  : Prop := {
  rd_attributes : upd_path_attributes (update u) = inr pas;
  rd_announcements : announcements u = inr (inr <$> la);
  rd_withdrawals : withdrawals u = inr (inr <$> lw);
  rd_vec : exists anns, announcements_vec u = inr anns
}.

Lemma forward_routes_keeps received m c0 u pas la lw (v : BmpStateDetails T) p w :
  lookup_peer (rm_pph m) (peers v) = Some p -> readable u pas la lw ->
  wp (forward_routes received m c0 u v) (fun res w' =>
    exists v', res = mk_routing_update v'
                 (Bulk (payloads_of received (peer_ingress p) u pas la lw))
      /\ keeps_peer (rm_pph m) (peer_ingress p) (session_config p) w v v' w') w.
Proof.
  intros Hp [Hpas Ha Hw [anns Hv]].
  unfold forward_routes, extract_routes, explode_announcements,
    explode_withdrawals, get_peer_ingress_id.
  rewrite Hpas, Ha, Hw, Hp, !explode_loop_readable, Hv.
  cbn [fmap option_fmap option_map]. wp_steps.
  eapply wp_mono; [by apply note_pending_keeps|]. intros v' w' Hk. wp_steps.
  exists v'. by split.
Qed.

Lemma route_monitoring_known received m cb (v : BmpStateDetails T) p u c retried
    pas la lw w :
  lookup_peer (rm_pph m) (peers v) = Some p ->
  parse_spec m (session_config p) = ParsedAs u c retried ->
  (forall v' w', cb v' (rm_pph m) u w' = (Some (inr v'), w')) ->
  readable u pas la lw ->
  wp (route_monitoring received m cb v) (fun res w' =>
    exists v', res = mk_routing_update v'
                 (Bulk (payloads_of received (peer_ingress p) u pas la lw))
      /\ keeps_peer (rm_pph m) (peer_ingress p) c w v v' w') w.
Proof.
  intros Hp Hparse Hcb Hr. unfold route_monitoring. wp_steps.
  eapply resolve_known; [done|]. rewrite parse_loop_spec by done.
  eapply wp_bind, wp_unwrap; [done|]. rewrite Hparse. wp_steps.
  eapply wp_mono.
  { apply keep_config_keeps; [done|]. intros ->. unfold parse_spec in Hparse.
    destruct (rm_bgp_update m _); [by destruct (rm_bgp_update m _)|congruence]. }
  intros v1 w1 Hk1. pose proof Hk1 as (_ & _ & p1 & Hp1 & Hid & Hc).
  wp_steps. unfold wp at 1. rewrite Hcb.
  rewrite <- Hid, <- Hc in Hk1 |- *.
  eapply wp_mono; [by eapply forward_routes_keeps|].
  intros res w2 (v2 & -> & Hk2). exists v2. eauto using keeps_peer_trans.
Qed.

(** When no configuration can parse the message nothing changes. *)
Lemma route_monitoring_unparsable received m cb (v : BmpStateDetails T) p c e w :
  lookup_peer (rm_pph m) (peers v) = Some p ->
  parse_spec m (session_config p) = ParseFailed c e ->
  route_monitoring received m cb v w
  = (Some (mk_invalid v (ErrUpdate c e) (Some true) (Some (rm_raw m))), w).
Proof.
  intros Hp Hparse.
  unfold route_monitoring, resolve_config, get_peer_config, mbind, run_bind.
  rewrite Hp. cbn [fmap option_fmap option_map mret run_ret].
  unfold mret, run_ret. by rewrite parse_loop_spec, Hparse.
Qed.

End KnownPeer.

(** ** End-of-RIB while dumping *)
Section EndOfRib.
Context `{E : Extern} `{L : Layout} `{RC : !Routecore}.
Context `{HI : !HashIter Z IngressInfo}
        `{HP : !HashIter PphKey (PerPeerHeader * PeerState)}.

Lemma dom_modify pph f (ps : PeerStates) :
  dom (modify_peer pph f ps) = dom ps.
Proof. unfold modify_peer. by rewrite dom_alter_L. Qed.

Lemma dom_update_peer_config pph c (ps : PeerStates) :
  dom (snd (update_peer_config pph c ps)) = dom ps.
Proof.
  unfold update_peer_config. destruct (lookup_peer pph ps); [|done].
  apply dom_modify.
Qed.

Lemma dom_add_pending pph a (ps : PeerStates) :
  dom (snd (add_pending_eor pph a ps)) = dom ps.
Proof.
  unfold add_pending_eor. destruct (lookup_peer pph ps); [|done].
  apply dom_modify.
Qed.

(** The End-of-RIBs each entry waits for. *)
Definition pending_of (ps : PeerStates) (k : PphKey)
  : option (gset EoRProperties) := (fun e => pending_eors (snd e)) <$> ps !! k.

Lemma pending_update_config pph c (ps : PeerStates) k :
  pending_of (snd (update_peer_config pph c ps)) k = pending_of ps k.
Proof.
  unfold update_peer_config, pending_of. destruct (lookup_peer pph ps); [|done].
  cbn [snd]. rewrite lookup_modify. case_bool_decide; [|done].
  by destruct (ps !! k) as [[]|].
Qed.

Lemma pending_removed pph a (ps : PeerStates) k :
  pending_of (snd (remove_pending_eor pph a ps)) k
  = (fun d => if bool_decide (k = pph_key pph)
              then d ∖ {[eor_new pph a]} else d) <$> pending_of ps k.
Proof.
  unfold remove_pending_eor, pending_of. cbn [snd]. rewrite lookup_modify.
  destruct (ps !! k) as [[q t]|] eqn:Hk; rewrite ?Hk.
  - case_bool_decide; case_bool_decide; try congruence; done.
  - by case_bool_decide.
Qed.

Lemma no_pending_iff ps :
  no_pending ps <-> forall k d, pending_of ps k = Some d -> d = ∅.
Proof.
  unfold no_pending, pending_of. split.
  - intros H k d ([q t] & Hk & ->)%fmap_Some. by eapply H.
  - intros H k q t Hk. apply (H k). by rewrite Hk.
Qed.

Lemma remove_pending_iff pph a ps :
  fst (remove_pending_eor pph a ps) = true
  <-> no_pending (snd (remove_pending_eor pph a ps)).
Proof.
  split; [apply remove_pending_done|]. unfold remove_pending_eor. cbn [fst snd].
  intros Hn. apply forallb_forall. intros [q t] Hin.
  apply bool_decide_eq_true. apply list_elem_of_In, elem_of_entries in Hin as [k Hk].
  by eapply Hn.
Qed.

Lemma difference_empty_iff (d x : gset EoRProperties) :
  d ∖ x = ∅ <-> d ⊆ x.
Proof.
  split; [|apply subseteq_empty_difference_L].
  intros H e He. destruct (decide (e ∈ x)) as [|Hn]; [done|].
  assert (e ∈ d ∖ x) as Hin by (by apply elem_of_difference).
  rewrite H in Hin. by apply elem_of_empty in Hin.
Qed.

(** The dump is over when this End-of-RIB was the last one pending. *)
Lemma last_pending_iff pph a ps :
  no_pending (snd (remove_pending_eor pph a ps))
  <-> forall k d, pending_of ps k = Some d ->
        if bool_decide (k = pph_key pph) then d ⊆ {[eor_new pph a]} else d = ∅.
Proof.
  rewrite no_pending_iff. setoid_rewrite pending_removed. split.
  - intros H k d Hd. specialize (H k). rewrite Hd in H. specialize (H _ eq_refl).
    revert H. case_bool_decide; [by rewrite difference_empty_iff|done].
  - intros H k d (d0 & Hd & ->)%fmap_Some. specialize (H k d0 Hd).
    revert H. case_bool_decide; [by rewrite difference_empty_iff|done].
Qed.

Context {T : Type} {ST : StateOf T} {PA : PeerAware T}.

(** Same router, register and entries. *)
Definition same_table (w : World) (v v' : BmpStateDetails T) (w' : World)
  : Prop :=
  same_session v v' /\ reg w' = reg w /\ dom (peers v') = dom (peers v).

Lemma keep_config_table m c retried (v : BmpStateDetails T) w :
  wp (keep_config m c retried v) (fun v' w' =>
    same_table w v v' w'
    /\ forall k, pending_of (peers v') k = pending_of (peers v) k) w.
Proof.
  unfold keep_config. destruct retried; wp_steps; [|done].
  unfold same_table. rewrite peers_with, dom_update_peer_config.
  split; [done|]. intros k. apply pending_update_config.
Qed.

Lemma forward_routes_table received m c u (v : BmpStateDetails T) w :
  wp (forward_routes received m c u v) (fun res w' =>
    exists v', next_state res = into_state v' /\ same_table w v v' w') w.
Proof.
  unfold forward_routes, note_pending_eor.
  destruct (extract_routes _ _ _ _) as [[payloads rep]|];
    [destruct (announcements_vec u) as [e|anns]|]; wp_steps; try by exists v.
  destruct (_ && _); [destruct anns as [|first anns]|]; wp_steps;
    try by exists v.
  pose proof (dom_add_pending (rm_pph m) (nlri_afi_safi first) (peers v)) as Hd.
  destruct (add_pending_eor _ _ _) as [n ps]. cbn [snd] in Hd. wp_steps.
  exists (with_peers ps v). split; [done|]. unfold same_table.
  by rewrite peers_with.
Qed.

End EndOfRib.

Section DumpEnds.
Context `{E : Extern} `{L : Layout} `{RC : !Routecore}.
Context `{HI : !HashIter Z IngressInfo}
        `{HP : !HashIter PphKey (PerPeerHeader * PeerState)}.

(** What an End-of-RIB [a] does to a dump in state [v]. *)
Definition eor_handled (pph : PerPeerHeader) (a : AfiSafiType) (w : World)
    (v : BmpStateDetails Dumping) (res : ProcessingResult) (w' : World) : Prop :=
  let last := no_pending (snd (remove_pending_eor pph a (peers v))) in
  reg w' = reg w /\ dom (peers_of (next_state res)) = dom (peers v)
  /\ (state_idx (next_state res) = IdxUpdating /\ last
      \/ state_idx (next_state res) = IdxDumping /\ ~ last).

Lemma dumping_eor received m (v : BmpStateDetails Dumping) p u c retried a w :
  lookup_peer (rm_pph m) (peers v) = Some p ->
  parse_spec m (session_config p) = ParsedAs u c retried ->
  upd_is_eor (update u) = inr (Some a) ->
  wp (route_monitoring received m dumping_preprocessing v)
    (eor_handled (rm_pph m) a w v) w.
Proof.
  intros Hp Hparse Ha. unfold route_monitoring. wp_steps.
  eapply resolve_known; [done|]. rewrite parse_loop_spec by done.
  eapply wp_bind, wp_unwrap; [done|]. rewrite Hparse. wp_steps.
  eapply wp_mono; [apply keep_config_table|].
  intros v1 w1 ((Hs1 & Hr1 & Hd1) & Hpend). wp_steps.
  assert (no_pending (snd (remove_pending_eor (rm_pph m) a (peers v1)))
          <-> no_pending (snd (remove_pending_eor (rm_pph m) a (peers v)))) as Hlast.
  { rewrite !last_pending_iff. by setoid_rewrite Hpend. }
  unfold dumping_preprocessing. rewrite Ha.
  pose proof (remove_pending_iff (rm_pph m) a (peers v1)) as Hdone.
  pose proof (dom_modify (rm_pph m) (fun s =>
      mk_peer (session_config s) (eor_capable s)
        (pending_eors s ∖ {[eor_new (rm_pph m) a]}) (peer_details s)
        (peer_ingress s) (synthesized s)) (peers v1)) as Hdom.
  change (modify_peer _ _ _)
    with (snd (remove_pending_eor (rm_pph m) a (peers v1))) in Hdom.
  destruct (remove_pending_eor (rm_pph m) a (peers v1)) as [fin ps].
  cbn [fst snd] in *. unfold eor_handled.
  destruct fin; unfold mk_state_transition_result; cbn [has_reporter]; wp_steps.
  - split; [done|]. split; [cbn; by rewrite Hdom|]. left. split; [done|]. tauto.
  - eapply wp_mono; [apply forward_routes_table|].
    intros res w' (v' & Hn & _ & Hr & Hd). rewrite Hn, Hr. split; [done|].
    cbn [peers_of into_state dumping_state]. split.
    + change (dom (peers v') = dom (peers v)). by rewrite Hd, peers_with, Hdom.
    + right. split; [done|]. rewrite <- Hlast, <- Hdone. done.
Qed.

End DumpEnds.
