(* ===== verification/BmpSession.v ===== *)
(** * What a BMP session promises

    The properties of the state machine of [BmpMachine], proved with the
    lemmas of [BmpSafety], and their instances on a session with one peer. *)

From S2P Require Import Prelude Net Register Payload BmpMsg BmpMetrics BmpPeers BmpMachine BmpSafety.
From Stdlib Require Import ZArith Lia.
From stdpp Require Import base numbers list gmap fin_maps strings.

Local Open Scope Z_scope.

#[local] Arguments sd_ingress_id {T} _.
#[local] Arguments sd_router_id {T} _.
#[local] Arguments details {T} _.
#[local] Arguments mk_sd {T} _ _ _.

(** ** A session with one pre-policy peer *)
Module DemoSession.

#[local] Existing Instance Demo.extern.
#[local] Existing Instance demo_layout.
#[local] Existing Instance DemoBmp.routecore.

Definition pre : PerPeerHeader := DemoBmp.peer_header 0.
Definition post : PerPeerHeader := DemoBmp.peer_header 64.

Definition info1 : IngressInfo := query_ingress pre [] [] 7 [].

Definition peer1 : PeerState :=
  mk_peer (true, 0) true ∅ (details_of pre) 1 false.

Definition ps1 : PeerStates := {[pph_key pre := (pre, peer1)]}.

Definition reg1 : Register := mk_register 2 {[1 := info1]}.

Definition world1 : World := mk_bmp_world reg1 ∅.

Definition dumping1 : BmpState :=
  SDumping (mk_sd 7 (str "r") (mk_dumping (str "n") (str "d") [] ps1)).

Definition updating1 : BmpState :=
  SUpdating (mk_sd 7 (str "r") (mk_updating (str "n") (str "d") [] ps1)).

Lemma ids1 : peer_ids ps1 = {[1]}.
Proof.
  unfold peer_ids, ps1. rewrite map_to_list_singleton. cbn.
  by rewrite union_empty_r_L.
Qed.

Lemma session_inv1 : session_inv ∅ ∅ reg1 ps1.
Proof.
  split; [rewrite ids1; split; cbn|split; rewrite ?ids1|done].
  - intros id Hid. rewrite union_empty_l_L in Hid.
    apply elem_of_singleton in Hid as ->. exists info1. by rewrite lookup_singleton_eq.
  - intros id i [<- _]%lookup_singleton_Some. lia.
  - set_solver.
  - set_solver.
  - unfold u32_max. lia.
  - unfold keys_ok, ps1.
    intros k p s [<- [= <- <-]]%lookup_singleton_Some. done.
  - set_solver.
  - unfold ps1. by intros k1 k2 e1 e2 [<- _]%lookup_singleton_Some
      [<- _]%lookup_singleton_Some.
Qed.

(** 10.0.0.0/8, announced by an UPDATE that parses only with two-octet
    ASNs. *)
Definition net10 : Prefix := Demo.pfx (V4 167772160) 8 eq_refl.

Definition attrs1 : OwnedPathAttributes := mk_opa modern [64; 1; 1; 0].

Definition announce1 : Parsed :=
  mk_parsed (DemoBmp.mk_upd (inr None) (inr attrs1) modern)
    (inr [inr (NlriIpv4Unicast net10)]) (inr [])
    (inr [NlriIpv4Unicast net10]).

Definition eor1 : Parsed :=
  mk_parsed (DemoBmp.mk_upd (inr (Some Ipv4Unicast)) (inr attrs1) modern)
    (inr []) (inr []) (inr []).

Definition monitoring (pph : PerPeerHeader) (u : Parsed) : RouteMonitoringMsg :=
  mk_route_monitoring [] pph (fun c => if fst c then inl tt else inr u).

Lemma lookup1 : lookup_peer pre ps1 = Some peer1.
Proof. unfold lookup_peer, ps1. by rewrite lookup_singleton_eq. Qed.

Lemma entries1 : entries (HP := list_order _ _) ps1 = [(pre, peer1)].
Proof.
  unfold entries, ps1. cbn [hm_iter list_order].
  by rewrite map_to_list_singleton.
Qed.

Lemma siblings1 :
  siblings (HP := list_order _ _) post ps1 = [(pre, peer1)].
Proof.
  unfold siblings. rewrite entries1, filter_cons. cbn [fst].
  rewrite decide_True; [done|]. vm_compute. reflexivity.
Qed.

End DemoSession.

#[local] Existing Instance Demo.extern | 100.
#[local] Existing Instance demo_layout | 100.
#[local] Existing Instance DemoBmp.routecore | 100.

(** ** Properties *)
Section Properties.
Context `{E : Extern} `{L : Layout} `{RC : !Routecore}.
Context `{HI : !HashIter Z IngressInfo}
        `{HP : !HashIter PphKey (PerPeerHeader * PeerState)}.

(** C8: outside [Initiating] every message is processed without a panic, and
    what the session does to the shared register is a sequence of the steps of
    [reg_step]: the ids of other sessions are left alone, the ids it holds
    become exactly those of the peers it then tracks, all different. *)
Theorem session_refines received m s o sv w :
  session_inv o sv (reg w) (peers_of s) -> state_idx s <> IdxInitiating ->
  exists res w',
    process_msg received m s w = (Some res, w')
    /\ rtc reg_step
         (mk_world (reg w) (o ∪ peer_ids (peers_of s)) sv)
         (mk_world (reg w') (o ∪ peer_ids (peers_of (next_state res))) sv)
    /\ session_ok o (peers_of (next_state res)).
Proof.
  intros Hinv Hne.
  destruct (wp_exists _ _ _ (process_msg_processed received m s o sv w Hinv))
    as (res & w' & Hr & _ & He). exists res, w'. split; [done|]. by apply He.
Qed.

(** Every message is processed without a panic and moves the machine only
    along [Initiating -> Dumping -> Updating -> Terminated] (and [Dumping ->
    Terminated]): an [Initiating] machine waits until the Initiation message,
    the dump ends with no End-of-RIB pending, the router and its ids change
    only with the Initiation message, and [Terminated] is final. *)
Theorem transitions_allowed received m s o sv w :
  session_inv o sv (reg w) (peers_of s) ->
  exists res w',
    process_msg received m s w = (Some res, w') /\ allowed s (next_state res).
Proof.
  intros Hinv.
  destruct (wp_exists _ _ _ (process_msg_processed received m s o sv w Hinv))
    as (res & w' & Hr & Ha & _). eauto.
Qed.

Section EitherState.
Context {T : Type} {ST : StateOf T} {PA : PeerAware T}.

(** A Peer Up, in [Dumping] and in [Updating], on every branch. For a
    peer that is already up it is rejected and neither the register nor the
    metrics change. Otherwise the peer is stored under the id of an entry of
    the register that is not [Connected] and has the same identity, reported
    downstream as reappeared, or else under a fresh id when there is no such
    entry; that entry then holds the Peer Up's info (merged into what was
    stored), every other entry is unchanged, and the peer is counted as up. *)
Theorem peer_up_spec (m : PeerUpMsg) (v : BmpStateDetails T) w :
  let pph := up_pph m in
  let q := query_ingress pph (up_sent_capabilities m) (up_rcvd_capabilities m)
             (sd_ingress_id v) (up_tlvs m) in
  match peers v !! pph_key pph with
  | Some _ =>
      exists v', peers v' = peers v
        /\ peer_up m v w
           = (Some (mk_invalid v' (ErrAlreadyUp pph) (Some true)
                      (Some (up_raw m))), w)
  | None =>
      exists id existing w' v',
        peers v'
        = <[pph_key pph :=
              (pph, mk_peer (up_config m) (up_graceful_restart m) ∅
                      (details_of pph) id false)]> (peers v)
        /\ peer_up m v w
           = (Some (if existing : bool
                    then mk_routing_update v' (IngressReappeared id)
                    else mk_other v'), w')
        /\ (if existing then
              exists i, get id (reg w) = Some i /\ state i <> Some Connected
                /\ peer_matches i q = true
                /\ get id (reg w') = Some (merge_info (with_state Connected i) q)
            else
              id = serial (reg w)
              /\ (forall k i, get k (reg w) = Some i ->
                    state i = Some Connected \/ peer_matches i q = false)
              /\ get id (reg w') = Some (merged id q (reg w)))
        /\ (forall k, k <> id -> get k (reg w') = get k (reg w))
        /\ metrics w' = on_router (sd_router_id v)
                          (report_peer_up (up_graceful_restart m)) (metrics w)
  end.
Proof.
  cbv zeta. unfold peer_up, mbind, run_bind, on_register, add_peer_config.
  destruct (peers v !! pph_key (up_pph m)) as [e|] eqn:Hp; cbn [is_Some].
  - rewrite bool_decide_true by eauto. cbn [negb].
    exists (with_peers (peers v) v). split; [apply peers_with|]. by destruct w.
  - rewrite bool_decide_false by (by intros [? [=]]).
    match goal with |- context [claim_or_register ?q ?r] =>
      pose proof (claim_or_register_spec q r) as Hc;
      destruct (claim_or_register q r) as [[id existing] r'] end.
    destruct Hc as [Hcase Hother]. rewrite insert_peer_absent by done.
    cbn [negb]. eexists id, existing, _, _. split; [apply peers_with|].
    split; [by destruct existing|]. by split.
Qed.

(** A Peer Down, in [Dumping] and in [Updating]. Every view of the peer
    (each entry with its identity, whatever the flags) is taken out of the
    table and no other; their ids, and only these, become [Disconnected] in
    the register; and exactly these ids are withdrawn downstream, as a single
    withdrawal when the peer had one view and a Peer Up for it was seen. A
    Peer Down for a peer that is not up is rejected and changes nothing. *)
Theorem peer_down_exact (m : PeerDownMsg) (v : BmpStateDetails T) w :
  keys_ok (peers v) ->
  let removed := snd <$> siblings (down_pph m) (peers v) in
  exists v' mt w',
    peer_down m v w = (Some (mk_result mt (into_state v')), w')
    /\ (forall k, peers v' !! k
         = match peers v !! k with
           | Some (p, s) => if same_identity p (down_pph m) then None
                            else Some (p, s)
           | None => None
           end)
    /\ lookup_peer (down_pph m) (peers v') = None
    /\ mt = match removed with
            | [] => InvalidMessage (Some false) (Some (down_raw m)) ErrDownNotUp
            | [p] => if synthesized p
                     then RoutingUpdate (WithdrawBulk [(peer_ingress p, None)])
                     else RoutingUpdate (Withdraw (peer_ingress p) None)
            | _ => RoutingUpdate
                     (WithdrawBulk ((fun p => (peer_ingress p, None)) <$> removed))
            end
    /\ (forall k, get k (reg w')
         = if bool_decide (k ∈ peer_ingress <$> removed)
           then Some (merged k disconnected_info (reg w))
           else get k (reg w)).
Proof.
  intros Hk. cbv zeta. unfold peer_down.
  pose proof (remove_siblings_spec (down_pph m) (peers v) Hk) as Hs.
  destruct (remove_peer_identity_siblings _ _) as [removed ps].
  destruct Hs as [<- Hps].
  assert (lookup_peer (down_pph m) ps = None) as Hgone.
  { unfold lookup_peer. rewrite Hps.
    destruct (peers v !! pph_key (down_pph m)) as [[p s]|] eqn:Hp; [|done].
    by rewrite same_key_identity by eauto. }
  rewrite <- (peers_with ps v) in Hps, Hgone.
  exists (with_peers ps v). destruct removed as [|p rest].
  - eexists _, w. split; [done|]. split; [done|]. split; [done|].
    split; [done|]. intros k. by rewrite bool_decide_false by apply not_elem_of_nil.
  - match goal with |- context [ (?m ≫= ?k) w ] =>
      destruct (wp_exists (m ≫= k) (peer_down_answer v ps p rest w) w)
        as (res & w' & -> & Hmt & Hreg) end.
    { wp_steps. split; [by destruct rest, (synthesized p)|done]. }
    subst res. eexists _, w'. split; [done|]. split; [done|]. split; [done|].
    split; [by destruct rest, (synthesized p)|].
    intros k. rewrite Hreg. apply get_disconnect_peers.
Qed.

(** A Termination message, in [Dumping] and in [Updating]: the machine is
    [Terminated], every peer's id and no other becomes [Disconnected] in the
    register (synthesized views too: nothing is removed), and all their ids are
    withdrawn downstream in one update, if there are any. The gauge of peers
    that are up is not lowered. *)
Theorem terminate_disconnects (v : BmpStateDetails T) w :
  let ids := (fun e => peer_ingress (snd e)) <$> entries (peers v) in
  exists mt w',
    terminate v w = (Some (mk_result mt (STerminated (to_terminated v))), w')
    /\ mt = match ids with
            | [] => StateTransition
            | _ => RoutingUpdate (WithdrawBulk ((fun id => (id, None)) <$> ids))
            end
    /\ (forall k, get k (reg w')
         = if bool_decide (k ∈ peer_ids (peers v))
           then Some (merged k disconnected_info (reg w))
           else get k (reg w))
    /\ num_peers_up (router_metrics (sd_router_id v) (metrics w'))
       = num_peers_up (router_metrics (sd_router_id v) (metrics w)).
Proof.
  cbv zeta. unfold terminate, mbind, run_bind, on_register.
  pose proof (get_disconnect_into (peers v) (reg w)) as Hreg.
  unfold disconnect_into_register, disconnect_peers in *. cbn [fst snd] in *.
  destruct (entries (peers v)) as [|e l]; rewrite ?fmap_nil, ?fmap_cons.
  - eexists _, _. split; [reflexivity|]. split; [done|]. split; [exact Hreg|].
    cbn [metrics state_router_id to_terminated sd_router_id].
    by rewrite router_metrics_on.
  - eexists _, _. split; [reflexivity|].
    split; [by rewrite <- !list_fmap_compose|]. by split; [exact Hreg|].
Qed.

End EitherState.

(** Route Monitoring of either state, as [process_msg] runs it. *)
Lemma known_peer_routes {T} {ST : StateOf T} {PA : PeerAware T}
    (into : BmpStateDetails T -> BmpState) cb received m
    (v : BmpStateDetails T) p w :
  into = into_state ->
  (forall v, peers_of (into v) = peers v) ->
  (forall v v', state_idx (into v) = state_idx (into v')) ->
  (forall v, state_ingress_id (into v) = sd_ingress_id v) ->
  (forall v, process_msg received (RouteMonitoring m) (into v)
             = (res ← route_monitoring received m cb v; report_invalid res)) ->
  (forall v pph u w, upd_is_eor (update u) = inr None ->
     cb v pph u w = (Some (inr v), w)) ->
  lookup_peer (rm_pph m) (peers v) = Some p ->
  forall u c retried pas la lw,
    parse_spec m (session_config p) = ParsedAs u c retried ->
    upd_is_eor (update u) = inr None -> readable u pas la lw ->
    exists next w',
      process_msg received (RouteMonitoring m) (into v) w
      = (Some (mk_result (RoutingUpdate
           (Bulk (payloads_of received (peer_ingress p) u pas la lw))) next), w')
      /\ state_idx next = state_idx (into v)
      /\ state_ingress_id next = state_ingress_id (into v)
      /\ get_peer_config (rm_pph m) (peers_of next) = Some c
      /\ reg w' = reg w.
Proof.
  intros Hinto Hof Hidx Hid Hpm Hcb Hp u c retried pas la lw Hparse Heor Hr.
  destruct (wp_exists _ _ _ (route_monitoring_known received m cb v p u c
    retried pas la lw w Hp Hparse (fun v' w' => Hcb _ _ _ _ Heor) Hr))
    as (res & w' & Hres & v' & -> & [Hi _] & Hreg & p' & Hp' & _ & <-).
  exists (into v'), w'. rewrite Hpm, (run_bind_Some _ _ _ _ _ Hres).
  split; [by rewrite Hinto|]. split; [apply Hidx|]. rewrite Hof, !Hid.
  unfold get_peer_config. by rewrite Hp'.
Qed.

(** Route Monitoring for a peer that is up. The UPDATE is parsed with the
    stored session configuration or else with its four-octet-ASN setting
    flipped, and no more than that. When one of them reads it (and it is not an
    End-of-RIB) the payloads go downstream in one update, under the peer's id:
    every announced route as active in the message's order, then every
    withdrawn one as withdrawn; the configuration that worked is kept, the
    register is untouched. When neither does, the message is rejected and the
    machine is unchanged. *)
Theorem routes_forwarded received m s p w :
  lookup_peer (rm_pph m) (peers_of s) = Some p ->
  (forall u c retried pas la lw,
     parse_spec m (session_config p) = ParsedAs u c retried ->
     upd_is_eor (update u) = inr None -> readable u pas la lw ->
     exists next w',
       process_msg received (RouteMonitoring m) s w
       = (Some (mk_result (RoutingUpdate
            (Bulk (payloads_of received (peer_ingress p) u pas la lw))) next), w')
       /\ state_idx next = state_idx s
       /\ state_ingress_id next = state_ingress_id s
       /\ get_peer_config (rm_pph m) (peers_of next) = Some c
       /\ reg w' = reg w)
  /\ (forall c e,
     parse_spec m (session_config p) = ParseFailed c e ->
     exists w',
       process_msg received (RouteMonitoring m) s w
       = (Some (mk_result (InvalidMessage None None (ErrUpdate c e)) s), w')
       /\ reg w' = reg w).
Proof.
  intros Hp. destruct s as [v|v|v|v|id r]; try done; split.
  - apply (known_peer_routes (PA := dumping_peers) SDumping
      dumping_preprocessing); try done.
    intros ???? Heor. unfold dumping_preprocessing. by rewrite Heor.
  - intros c e Hparse. eexists. unfold process_msg. erewrite run_bind_Some
      by (by eapply (route_monitoring_unparsable (PA := dumping_peers))). done.
  - apply (known_peer_routes (PA := updating_peers) SUpdating
      updating_preprocessing); try done.
    intros ???? Heor. unfold updating_preprocessing. by rewrite Heor.
  - intros c e Hparse. eexists. unfold process_msg. erewrite run_bind_Some
      by (by eapply (route_monitoring_unparsable (PA := updating_peers))). done.
Qed.

(** An End-of-RIB for a known peer while dumping. It is taken off that
    peer's pending ones; the machine moves to [Updating] exactly when then no
    peer has an End-of-RIB pending, with all peers kept, and otherwise stays in
    [Dumping]. *)
Theorem dump_ends received m (v : BmpStateDetails Dumping) p u c retried a w :
  lookup_peer (rm_pph m) (peers v) = Some p ->
  parse_spec m (session_config p) = ParsedAs u c retried ->
  upd_is_eor (update u) = inr (Some a) ->
  exists res w',
    process_msg received (RouteMonitoring m) (SDumping v) w = (Some res, w')
    /\ (state_idx (next_state res) = IdxUpdating
        <-> forall k q t, peers v !! k = Some (q, t) ->
              if bool_decide (k = pph_key (rm_pph m))
              then pending_eors t ⊆ {[eor_new (rm_pph m) a]}
              else pending_eors t = ∅)
    /\ (state_idx (next_state res) = IdxUpdating
        \/ state_idx (next_state res) = IdxDumping)
    /\ dom (peers_of (next_state res)) = dom (peers v)
    /\ reg w' = reg w.
Proof.
  intros Hp Hparse Ha.
  destruct (wp_exists _ _ _ (dumping_eor received m v p u c retried a w
    Hp Hparse Ha)) as (res & w' & Hres & Hreg & Hdom & Hidx).
  destruct (report_invalid_state res w') as (res' & w'' & Hr & Hn & Hreg').
  exists res', w''. unfold process_msg. rewrite (run_bind_Some _ _ _ _ _ Hres).
  split; [done|]. rewrite Hn, Hreg', Hreg. rewrite last_pending_iff in Hidx.
  assert (forall Q : PphKey -> gset EoRProperties -> Prop,
    (forall k d, pending_of (peers v) k = Some d -> Q k d)
    <-> (forall k q t, peers v !! k = Some (q, t) -> Q k (pending_eors t))) as Hq.
  { intros Q. unfold pending_of. split.
    - intros H k q t Hk. apply H. by rewrite Hk.
    - intros H k d ([q t] & Hk & ->)%fmap_Some. eauto. }
  rewrite (Hq (fun k d => if bool_decide (k = pph_key (rm_pph m))
    then d ⊆ {[eor_new (rm_pph m) a]} else d = ∅)) in Hidx.
  destruct Hidx as [[-> ?]|[-> ?]]; (split; [by split|]); by auto.
Qed.

End Properties.

(** A synthesized view of a peer is cloned with the End-of-RIBs its source
    waits for, but it can only take off those of its own policy flags. The
    dump of a peer monitored before and after policy does not end when both
    views have sent their End-of-RIB. *)
Module StuckDump.

Definition peer : PeerState :=
  mk_peer (false, 0) true {[eor_new DemoSession.pre Ipv4Unicast]}
    (details_of DemoSession.pre) 1 false.

Definition start : BmpState :=
  SDumping (mk_sd 7 (str "r") (mk_dumping (str "n") (str "d") []
    {[pph_key DemoSession.pre := (DemoSession.pre, peer)]})).

Definition messages : list BmpMsg :=
  [RouteMonitoring (DemoSession.monitoring DemoSession.post DemoSession.announce1);
   RouteMonitoring (DemoSession.monitoring DemoSession.post DemoSession.eor1);
   RouteMonitoring (DemoSession.monitoring DemoSession.pre DemoSession.eor1)].

Fixpoint run (ms : list BmpMsg) (s : BmpState) : Run World BmpState :=
  match ms with
  | [] => mret s
  | m :: ms =>
      res ← process_msg (HI := list_order _ _) (HP := list_order _ _) 5 m s;
      run ms (next_state res)
  end.

(** After a route of the post-policy view and the End-of-RIBs of both views
    the session is still dumping: the End-of-RIB the clone took over from its
    source, with the source's policy flag, is the only one left and stays. *)
Lemma cloned_pending_eors_stay :
  (fun s => (state_idx s,
             (fun p => elements (pending_eors (snd p))) <$> peers_of s !! pph_key DemoSession.pre,
             (fun p => elements (pending_eors (snd p))) <$> peers_of s !! pph_key DemoSession.post))
    <$> fst (run messages start DemoSession.world1)
  = Some (IdxDumping, Some [], Some [eor_new DemoSession.pre Ipv4Unicast]).
Proof. vm_compute. reflexivity. Qed.

End StuckDump.

Lemma session_refines_witness :
  exists res w',
    process_msg (HI := list_order _ _) (HP := list_order _ _) 5
      (PeerDownNotification (mk_peer_down [] DemoSession.post))
      DemoSession.dumping1 DemoSession.world1 = (Some res, w')
    /\ session_ok ∅ (peers_of (next_state res)).
Proof.
  destruct (session_refines (HI := list_order _ _) (HP := list_order _ _) 5
    (PeerDownNotification (mk_peer_down [] DemoSession.post))
    DemoSession.dumping1 ∅ ∅ DemoSession.world1) as (res & w' & Hr & _ & Hok).
  - exact DemoSession.session_inv1.
  - done.
  - exists res, w'. split; [exact Hr|exact Hok].
Defined.

Lemma transitions_allowed_witness :
  exists res w',
    process_msg (HI := list_order _ _) (HP := list_order _ _) 5
      (TerminationMessage []) DemoSession.updating1 DemoSession.world1
    = (Some res, w')
    /\ allowed DemoSession.updating1 (next_state res).
Proof.
  apply (transitions_allowed (HI := list_order _ _) (HP := list_order _ _) 5
    (TerminationMessage []) DemoSession.updating1 ∅ ∅ DemoSession.world1).
  exact DemoSession.session_inv1.
Defined.

Lemma peer_down_exact_witness :
  siblings (HP := list_order _ _) DemoSession.post DemoSession.ps1
    = [(DemoSession.pre, DemoSession.peer1)]
  /\ exists v' mt w',
    peer_down (HP := list_order _ _) (mk_peer_down [] DemoSession.post)
      (mk_sd 7 (str "r") (mk_dumping (str "n") (str "d") [] DemoSession.ps1))
      DemoSession.world1 = (Some (mk_result mt (SDumping v')), w')
    /\ mt = RoutingUpdate (Withdraw 1 None).
Proof.
  assert (siblings (HP := list_order _ _) DemoSession.post DemoSession.ps1
          = [(DemoSession.pre, DemoSession.peer1)]) as Hs.
  { exact DemoSession.siblings1. }
  split; [exact Hs|].
  destruct (peer_down_exact (PA := dumping_peers) (HP := list_order _ _)
    (mk_peer_down [] DemoSession.post)
    (mk_sd 7 (str "r") (mk_dumping (str "n") (str "d") [] DemoSession.ps1))
    DemoSession.world1 (ok_keys _ _ (si_ok _ _ _ _ DemoSession.session_inv1)))
    as (v' & mt & w' & Hr & _ & _ & Hmt & _).
  cbn [down_pph peers peer_states dumping_peers details d_peer_states] in Hmt.
  rewrite Hs in Hmt. exists v', mt, w'. split; [exact Hr|exact Hmt].
Defined.

Lemma routes_forwarded_witness :
  exists next w',
    process_msg (HI := list_order _ _) (HP := list_order _ _) 5
      (RouteMonitoring (DemoSession.monitoring DemoSession.pre
         DemoSession.announce1)) DemoSession.updating1 DemoSession.world1
    = (Some (mk_result (RoutingUpdate (Bulk
        [with_received (RR_Ipv4Unicast DemoSession.net10
           (pamap_new DemoSession.attrs1)) None 5 1 Active])) next), w')
    /\ get_peer_config DemoSession.pre (peers_of next) = Some (false, 0).
Proof.
  destruct (routes_forwarded (HI := list_order _ _) (HP := list_order _ _) 5
    (DemoSession.monitoring DemoSession.pre DemoSession.announce1)
    DemoSession.updating1 DemoSession.peer1 DemoSession.world1
    DemoSession.lookup1) as [Hok _].
  destruct (Hok DemoSession.announce1 (false, 0) (Some tt) DemoSession.attrs1
    [NlriIpv4Unicast DemoSession.net10] []) as (next & w' & Hr & _ & _ & Hc & _).
  - reflexivity.
  - reflexivity.
  - split; [reflexivity..|]. eexists. reflexivity.
  - exists next, w'. split; [exact Hr|exact Hc].
Defined.

Lemma dump_ends_witness :
  exists res w',
    process_msg (HI := list_order _ _) (HP := list_order _ _) 5
      (RouteMonitoring (DemoSession.monitoring DemoSession.pre
         DemoSession.eor1)) DemoSession.dumping1 DemoSession.world1
    = (Some res, w')
    /\ state_idx (next_state res) = IdxUpdating.
Proof.
  destruct (dump_ends (HI := list_order _ _) (HP := list_order _ _) 5
    (DemoSession.monitoring DemoSession.pre DemoSession.eor1)
    (mk_sd 7 (str "r") (mk_dumping (str "n") (str "d") [] DemoSession.ps1))
    DemoSession.peer1 DemoSession.eor1 (false, 0) (Some tt) Ipv4Unicast
    DemoSession.world1) as (res & w' & Hr & [_ Hlast] & _).
  - exact DemoSession.lookup1.
  - reflexivity.
  - reflexivity.
  - exists res, w'. split; [exact Hr|]. apply Hlast. intros k q t Hk.
    change (({[pph_key DemoSession.pre := (DemoSession.pre, DemoSession.peer1)]}
             : PeerStates) !! k = Some (q, t)) in Hk.
    apply lookup_singleton_Some in Hk as [<- [= <- <-]]. cbn [pending_eors].
    case_bool_decide; [apply empty_subseteq|done].
Defined.

Lemma peer_up_spec_witness :
  exists w' id,
    snd (peer_up (HI := list_order _ _)
           (mk_peer_up [] DemoSession.post (true, 0) true [] [] [])
           (mk_sd 7 (str "r") (mk_dumping (str "n") (str "d") [] DemoSession.ps1))
           DemoSession.world1) = w'
    /\ id <> 1
    /\ is_Some (get id (reg w'))
    /\ get 1 (reg w') = Some DemoSession.info1.
Proof.
  pose proof (peer_up_spec (HI := list_order _ _)
    (mk_peer_up [] DemoSession.post (true, 0) true [] [] [])
    (mk_sd 7 (str "r") (mk_dumping (str "n") (str "d") [] DemoSession.ps1))
    DemoSession.world1) as H.
  cbv zeta in H.
  change (peers _) with DemoSession.ps1 in H at 1. unfold DemoSession.ps1 in H at 1.
  rewrite lookup_singleton_ne in H by (vm_compute; congruence).
  destruct H as (id & existing & w' & v' & _ & -> & H & Hk & _). exists w', id.
  assert (id <> 1) as Hid.
  { destruct existing; [|destruct H as [-> _]; cbn; lia].
    intros ->. destruct H as (i & Hi & Hs & _). vm_compute in Hi. by simplify_eq. }
  split; [reflexivity|]. split; [exact Hid|]. split.
  - destruct existing; [destruct H as (i & _ & _ & _ & ->)|destruct H as (_ & _ & ->)]; by eexists.
  - rewrite Hk by lia. reflexivity.
Defined.

Lemma terminate_disconnects_witness :
  exists mt w',
    terminate (HP := list_order _ _)
      (mk_sd 7 (str "r") (mk_updating (str "n") (str "d") [] DemoSession.ps1))
      DemoSession.world1
    = (Some (mk_result mt (STerminated (to_terminated
         (mk_sd 7 (str "r") (mk_updating (str "n") (str "d") [] DemoSession.ps1))))), w')
    /\ mt = RoutingUpdate (WithdrawBulk [(1, None)])
    /\ get 1 (reg w') = Some (merged 1 disconnected_info DemoSession.reg1).
Proof.
  destruct (terminate_disconnects (HP := list_order _ _)
    (mk_sd 7 (str "r") (mk_updating (str "n") (str "d") [] DemoSession.ps1))
    DemoSession.world1) as (mt & w' & Ht & Hm & Hg & _).
  exists mt, w'. split; [exact Ht|]. 
  change (peers _) with DemoSession.ps1 in Hm, Hg. rewrite DemoSession.entries1 in Hm.
  split; [exact Hm|]. rewrite Hg. by rewrite bool_decide_true by (rewrite DemoSession.ids1; set_solver).
Defined.
