(* ===== verification/BmpGauge.v ===== *)
(** * The gauge of peers that are up

    The metric [num_peers_up] follows the table of peers: it moves with the
    entries a Peer Up stored, and not with synthesized ones. *)

From S2P Require Import Prelude Net Register Payload BmpMsg BmpMetrics BmpPeers BmpMachine BmpSafety BmpSession.
From Stdlib Require Import ZArith Lia.
From stdpp Require Import base numbers list gmap fin_maps strings.

Local Open Scope Z_scope.

#[local] Arguments sd_ingress_id {T} _.
#[local] Arguments sd_router_id {T} _.
#[local] Arguments details {T} _.
#[local] Arguments mk_sd {T} _ _ _.

Section Gauge.
Context `{E : Extern} `{L : Layout} `{RC : !Routecore}.
Context `{HI : !HashIter Z IngressInfo}
        `{HP : !HashIter PphKey (PerPeerHeader * PeerState)}.

(** Whatever [m] answers satisfies [Q], if it answers. *)
Definition wlp {A} (m : Run World A) (Q : A -> World -> Prop) (w : World)
  : Prop := match m w with (Some a, w') => Q a w' | (None, _) => True end.

Lemma wlp_bind {A B} (m : Run World A) (k : A -> Run World B) Q w :
  wlp m (fun a => wlp (k a) Q) w -> wlp (m ≫= k) Q w.
Proof. unfold wlp, mbind, run_bind. by destruct (m w) as [[a|] w']. Qed.

Lemma wlp_mono {A} (m : Run World A) (P Q : A -> World -> Prop) w :
  wlp m P w -> (forall a w', P a w' -> Q a w') -> wlp m Q w.
Proof. unfold wlp. destruct (m w) as [[a|] w']; auto. Qed.

Lemma wlp_ret {A} (a : A) Q w : Q a w -> wlp (mret a) Q w.
Proof. done. Qed.

Lemma wlp_report id f Q w :
  Q tt (mk_bmp_world (reg w) (on_router id f (metrics w))) ->
  wlp (report id f) Q w.
Proof. done. Qed.

Lemma wlp_on_register {A} (f : Register -> A * Register) Q w :
  Q (fst (f (reg w))) (mk_bmp_world (snd (f (reg w))) (metrics w)) ->
  wlp (on_register f) Q w.
Proof. unfold wlp, on_register. by destruct (f (reg w)). Qed.

Lemma wlp_unwrap {A} (o : option A) Q w :
  (forall a, o = Some a -> Q a w) -> wlp (unwrap o) Q w.
Proof. intros H. destruct o; [by apply H|done]. Qed.

Lemma wp_wlp {A} (m : Run World A) Q w : wp m Q w -> wlp m Q w.
Proof. unfold wp, wlp. by destruct (m w) as [[a|] w']. Qed.

Lemma wlp_get Q w : Q w w -> wlp run_get Q w.
Proof. done. Qed.

(** ** Counting *)
Definition counts (e : PerPeerHeader * PeerState) : Z :=
  if synthesized (snd e) then 0 else 1.

(** The number of entries a Peer Up stored. *)
Definition real (ps : PeerStates) : Z :=
  zlen (filter (fun e => synthesized (snd (snd e)) = false) (map_to_list ps)).

Lemma real_insert ps k e :
  ps !! k = None -> real (<[k := e]> ps) = real ps + counts e.
Proof.
  intros Hn. unfold real, counts, zlen. rewrite map_to_list_insert by done.
  rewrite filter_cons. cbn [snd].
  destruct (synthesized (snd e)); case_decide; try done; cbn [length]; lia.
Qed.

Lemma real_delete ps k e :
  ps !! k = Some e -> real (delete k ps) = real ps - counts e.
Proof.
  intros Hk. rewrite <- (insert_delete_id ps k e Hk) at 2.
  rewrite real_insert by apply lookup_delete_eq. lia.
Qed.

Lemma real_modify pph f ps :
  (forall s, synthesized (f s) = synthesized s) ->
  real (modify_peer pph f ps) = real ps.
Proof.
  intros Hf. destruct (ps !! pph_key pph) as [[p s]|] eqn:Hk.
  - assert (modify_peer pph f ps
            = <[pph_key pph := (p, f s)]> (delete (pph_key pph) ps)) as ->.
    { apply map_eq. intros k. rewrite lookup_modify. case_bool_decide as Hkk.
      - subst k. by rewrite lookup_insert_eq, Hk.
      - by rewrite lookup_insert_ne, lookup_delete_ne by done. }
    rewrite real_insert by apply lookup_delete_eq.
    rewrite (real_delete _ _ _ Hk). unfold counts. cbn. rewrite Hf. lia.
  - f_equal. apply map_eq. intros k. rewrite lookup_modify.
    case_bool_decide; subst; by rewrite ?Hk.
Qed.

Lemma real_remove_keys ks ps :
  real (snd (remove_keys ks ps))
  = real ps - zlen (filter (fun s => synthesized s = false)
                      (fst (remove_keys ks ps))).
Proof.
  revert ps. induction ks as [|k ks IH]; intros ps; cbn [remove_keys].
  - cbn. unfold zlen. cbn. lia.
  - specialize (IH (delete (pph_key k) ps)).
    destruct (remove_keys ks _) as [removed ps'] eqn:Hr. cbn [fst snd] in *.
    rewrite IH. unfold lookup_peer.
    destruct (ps !! pph_key k) as [[p s]|] eqn:Hk; cbn [fmap option_fmap option_map].
    + rewrite (real_delete _ _ _ Hk). unfold counts. cbn [snd].
      rewrite filter_cons. unfold zlen.
      destruct (synthesized s); case_decide; try done; cbn [length]; lia.
    + by rewrite delete_id.
Qed.

(** ** The gauge *)
Definition gauge (id : rstring) (w : World) : Z :=
  num_peers_up (router_metrics id (metrics w)).

Lemma gauge_report id f r m :
  (forall m, num_peers_up (f m) = num_peers_up m) ->
  gauge id (mk_bmp_world r (on_router id f m)) = gauge id (mk_bmp_world r m).
Proof. intros Hf. unfold gauge. cbn. by rewrite router_metrics_on. Qed.

Lemma wrap_wrap_add a b : wrap 64 (wrap 64 a + b) = wrap 64 (a + b).
Proof. unfold wrap. apply Zplus_mod_idemp_l. Qed.

Lemma wrap_idem a : wrap 64 (wrap 64 a) = wrap 64 a.
Proof. unfold wrap. apply Zmod_mod. Qed.

Lemma gauge_down id (l : list PeerState) m :
  wrap 64 (num_peers_up (router_metrics id
    (foldl (fun m s => on_router id (report_peer_down (Some (eor_capable s))) m)
       m l)))
  = wrap 64 (num_peers_up (router_metrics id m) - zlen l).
Proof.
  revert m. induction l as [|s l IH]; intros m; cbn [foldl].
  - unfold zlen. cbn. by rewrite Z.sub_0_r.
  - rewrite IH, router_metrics_on. cbn [report_peer_down num_peers_up].
    unfold fetch_sub. rewrite <- Z.add_opp_r, wrap_wrap_add.
    f_equal. unfold zlen. cbn [length]. lia.
Qed.

(** The gauge moved as much as the number of peers. *)
Definition counted (w : World) (s : BmpState) (res : ProcessingResult)
    (w' : World) : Prop :=
  wrap 64 (gauge (state_router_id s) w')
  = wrap 64 (gauge (state_router_id s) w
             + (real (peers_of (next_state res)) - real (peers_of s))).

Section PeerStateHandlers.
Context {T : Type} {ST : StateOf T} {PA : PeerAware T}.

(** Neither the gauge nor the number of peers moved. *)
Definition idle (w : World) (v v' : BmpStateDetails T) (w' : World) : Prop :=
  sd_router_id v' = sd_router_id v
  /\ gauge (sd_router_id v) w' = gauge (sd_router_id v) w
  /\ real (peers v') = real (peers v).

Definition idle_result (w : World) (v : BmpStateDetails T)
    (res : ProcessingResult) (w' : World) : Prop :=
  exists v', next_state res = into_state v' /\ idle w v v' w'.

Lemma idle_refl w v w' :
  gauge (sd_router_id v) w' = gauge (sd_router_id v) w -> idle w v v w'.
Proof. by split. Qed.

Lemma idle_trans w v v1 w1 v2 w2 :
  idle w v v1 w1 -> idle w1 v1 v2 w2 -> idle w v v2 w2.
Proof.
  intros (H1 & H2 & H3) (H4 & H5 & H6). unfold idle. rewrite H1 in *.
  by repeat split; etrans.
Qed.

Lemma idle_modify w v pph f w' :
  (forall s, synthesized (f s) = synthesized s) ->
  gauge (sd_router_id v) w' = gauge (sd_router_id v) w ->
  idle w v (with_peers (modify_peer pph f (peers v)) v) w'.
Proof.
  intros Hf Hg. split; [done|]. split; [done|].
  rewrite peers_with. by apply real_modify.
Qed.

End PeerStateHandlers.
End Gauge.

Ltac wlp_step :=
  lazymatch goal with
  | |- wlp (_ ≫= _) _ _ => apply wlp_bind
  | |- wlp (mret _) _ _ => apply wlp_ret
  | |- wlp (report _ _) _ _ => apply wlp_report
  | |- wlp (on_register _) _ _ => apply wlp_on_register
  | |- wlp run_get _ _ => apply wlp_get
  | |- wlp (unwrap _) _ _ => apply wlp_unwrap; intros ? ?
  end.

Ltac wlp_steps := repeat (wlp_step; cbn [reg metrics]).

Section Handlers.
Context `{E : Extern} `{L : Layout} `{RC : !Routecore}.
Context `{HI : !HashIter Z IngressInfo}
        `{HP : !HashIter PphKey (PerPeerHeader * PeerState)}.
Context {T : Type} {ST : StateOf T} {PA : PeerAware T}.

Lemma synthesize_idle src m err (v : BmpStateDetails T) w :
  peers v !! pph_key (rm_pph m) = None ->
  wlp (synthesize src m err v) (fun a w' =>
    match a with
    | inl res => idle_result w v res w'
    | inr v' => idle w v v' w'
    end) w.
Proof.
  intros Hn. unfold synthesize. wlp_steps. destruct a1 as [added ps].
  unfold add_cloned_peer_config in *.
  destruct (lookup_peer src (peers v)) as [s|]; [|done]. simplify_eq.
  assert (forall id w', metrics w' = metrics w ->
    idle w v (with_peers (insert_peer (rm_pph m)
      (mk_peer (session_config s) (eor_capable s) (pending_eors s)
         (peer_details s) id true) (peers v)) v) w') as Hi.
  { intros id w' Hm. split; [done|]. split; [unfold gauge; by rewrite Hm|].
    rewrite peers_with, insert_peer_absent, real_insert by done.
    unfold counts. cbn. lia. }
  destruct (negb (negb _)); wlp_steps; [|by apply Hi].
  eexists. split; [done|]. by apply Hi.
Qed.

Lemma synthesize_then_idle src m err (v : BmpStateDetails T) w :
  peers v !! pph_key (rm_pph m) = None ->
  wlp (a ← synthesize src m err v;
      match a with
      | inl res => mret (inl res)
      | inr s' =>
          c ← unwrap (get_peer_config (rm_pph m) (peers s'));
          mret (inr (s', c))
      end) (fun a w' =>
        match a with
        | inl res => idle_result w v res w'
        | inr (v', _) => idle w v v' w'
        end) w.
Proof.
  intros Hn. apply wlp_bind. eapply wlp_mono; [by apply synthesize_idle|].
  intros [res|v'] w' H; by wlp_steps.
Qed.

Lemma resolve_config_idle m (v : BmpStateDetails T) w :
  wlp (resolve_config m v) (fun a w' =>
    match a with
    | inl res => idle_result w v res w'
    | inr (v', _) => idle w v v' w'
    end) w.
Proof.
  unfold resolve_config. unfold get_peer_config at 1, lookup_peer at 1.
  destruct (peers v !! pph_key (rm_pph m)) as [[p s]|] eqn:Hn; cbn.
  { wlp_steps. by apply idle_refl. }
  destruct (get_peer_config _ (peers v)); [by apply synthesize_then_idle|].
  destruct (find_sibling_pph _ _); [by apply synthesize_then_idle|].
  wlp_steps. exists v. split; [done|]. apply idle_refl. by rewrite gauge_report.
Qed.

Lemma keep_config_idle m c retried (v : BmpStateDetails T) w :
  wlp (keep_config m c retried v) (idle w v) w.
Proof.
  unfold keep_config. destruct retried; wlp_steps; [|by apply idle_refl].
  unfold update_peer_config. destruct (lookup_peer _ _); cbn [snd].
  - apply idle_modify; [done|]. by rewrite gauge_report.
  - split; [done|]. split; [by rewrite gauge_report|]. by rewrite peers_with.
Qed.

Lemma forward_routes_idle received m c u (v : BmpStateDetails T) w :
  wlp (forward_routes received m c u v) (idle_result w v) w.
Proof.
  unfold forward_routes, note_pending_eor.
  destruct (extract_routes _ _ _ _) as [[payloads rep]|];
    [destruct (announcements_vec u) as [e|anns]|]; wlp_steps;
    try (exists v; split; [done|by apply idle_refl]).
  destruct (_ && _); [destruct anns as [|first anns]|]; wlp_steps;
    try (exists v; split; [done|]; apply idle_refl; by rewrite gauge_report).
  unfold add_pending_eor. destruct (lookup_peer _ _); wlp_steps.
  - eexists. split; [done|]. apply idle_modify; [done|].
    by rewrite !gauge_report by done.
  - eexists. split; [done|]. split; [done|]. split; [by rewrite !gauge_report by done|].
    by rewrite peers_with.
Qed.

(** A preprocessing callback that leaves the gauge and the number of peers. *)
Definition idle_callback
    (cb : BmpStateDetails T -> PerPeerHeader -> Parsed ->
          Run World (ProcessingResult + BmpStateDetails T))
    (R : World -> BmpStateDetails T -> ProcessingResult -> World -> Prop) : Prop :=
  forall v pph u w, wlp (cb v pph u) (fun b w' =>
    match b with inl res => R w v res w' | inr v' => idle w v v' w' end) w.

Lemma route_monitoring_idle received m cb R (v : BmpStateDetails T) w :
  idle_callback cb R ->
  wlp (route_monitoring received m cb v) (fun res w' =>
    idle_result w v res w'
    \/ exists v1 w1, idle w v v1 w1 /\ R w1 v1 res w') w.
Proof.
  intros Hcb. unfold route_monitoring. apply wlp_bind.
  eapply wlp_mono; [apply resolve_config_idle|].
  intros [res|[v1 c0]] w1 H1; [by left|]. apply wlp_bind.
  apply wlp_unwrap. intros [u c retried|c e] _.
  - apply wlp_bind. eapply wlp_mono; [apply keep_config_idle|].
    intros v2 w2 H2. pose proof (idle_trans _ _ _ _ _ _ H1 H2) as H12.
    apply wlp_bind. eapply wlp_mono; [apply Hcb|].
    intros [res|v3] w3 H3; [right; eauto|].
    eapply wlp_mono; [apply forward_routes_idle|].
    intros res w4 (v4 & Hn & H4). left. exists v4. eauto using idle_trans.
  - wlp_steps. left. by exists v1.
Qed.

Lemma peer_up_counted m (v : BmpStateDetails T) w :
  wlp (peer_up m v) (fun res w' =>
    exists v', next_state res = into_state v'
      /\ sd_router_id v' = sd_router_id v
      /\ wrap 64 (gauge (sd_router_id v) w')
         = wrap 64 (gauge (sd_router_id v) w + (real (peers v') - real (peers v))))
    w.
Proof.
  unfold peer_up, add_peer_config. wlp_steps. case_bool_decide as Hp.
  - cbn. wlp_steps. eexists. split; [done|]. split; [done|].
    rewrite peers_with. unfold gauge. cbn. f_equal. lia.
  - destruct (claim_or_register _ _) as [[id existing] r'].
    destruct (peers v !! pph_key (up_pph m)) eqn:Hn; [by destruct Hp|].
    cbn [fst snd negb]. wlp_steps. eexists. split; [by destruct existing|].
    split; [done|]. rewrite peers_with, insert_peer_absent, real_insert by done.
    change (sd_router_id (with_peers _ v)) with (sd_router_id v).
    unfold gauge at 1. cbn [metrics]. rewrite router_metrics_on.
    cbn [num_peers_up report_peer_up]. unfold fetch_add.
    rewrite wrap_idem.
    unfold gauge, counts. cbn [snd synthesized]. f_equal. lia.
Qed.

Lemma peer_down_counted m (v : BmpStateDetails T) w :
  wlp (peer_down m v) (fun res w' =>
    exists v', next_state res = into_state v'
      /\ sd_router_id v' = sd_router_id v
      /\ wrap 64 (gauge (sd_router_id v) w')
         = wrap 64 (gauge (sd_router_id v) w + (real (peers v') - real (peers v))))
    w.
Proof.
  unfold peer_down, remove_peer_identity_siblings.
  match goal with |- context [remove_keys ?ks ?ps] =>
    pose proof (real_remove_keys ks ps) as Hr;
    destruct (remove_keys ks ps) as [removed ps'] end.
  cbn [fst snd] in Hr. destruct removed as [|first rest].
  - wlp_steps. eexists. split; [done|]. split; [done|].
    rewrite peers_with, Hr. f_equal. unfold zlen. cbn. lia.
  - wlp_steps. apply wp_wlp, wp_report_for. cbn [reg metrics]. wlp_steps.
    eexists. split; [by destruct (_ && _)|]. split; [done|].
    rewrite peers_with, Hr. unfold gauge at 1. cbn [metrics].
    rewrite gauge_down.
    change (sd_router_id (with_peers _ v)) with (sd_router_id v).
    rewrite router_metrics_on. cbn [num_peers_up routing_update].
    unfold gauge. f_equal. lia.
Qed.

End Handlers.

Section Process.
Context `{E : Extern} `{L : Layout} `{RC : !Routecore}.
Context `{HI : !HashIter Z IngressInfo}
        `{HP : !HashIter PphKey (PerPeerHeader * PeerState)}.

(** A result of the same router, and the gauge as the peers. *)
Definition processed_counted (w : World) (s : BmpState) (res : ProcessingResult)
    (w' : World) : Prop :=
  state_router_id (next_state res) = state_router_id s /\ counted w s res w'.

Lemma idle_counted_dumping w (v : BmpStateDetails Dumping) res w' :
  idle_result w v res w' -> processed_counted w (SDumping v) res w'.
Proof.
  intros (v' & Hn & Hr & Hg & Hc). split; [by rewrite Hn|].
  unfold counted. rewrite Hn. cbn [state_router_id]. rewrite Hg.
  cbn [peers_of into_state dumping_state].
  change (d_peer_states (details v')) with (peers v').
  change (d_peer_states (details v)) with (peers v). rewrite Hc. f_equal. lia.
Qed.

Lemma idle_counted_updating w (v : BmpStateDetails Updating) res w' :
  idle_result w v res w' -> processed_counted w (SUpdating v) res w'.
Proof.
  intros (v' & Hn & Hr & Hg & Hc). split; [by rewrite Hn|].
  unfold counted. rewrite Hn. cbn [state_router_id]. rewrite Hg.
  cbn [peers_of into_state updating_state].
  change (u_peer_states (details v')) with (peers v').
  change (u_peer_states (details v)) with (peers v). rewrite Hc. f_equal. lia.
Qed.

(** The [Dumping] callback moves on with the peers it has. *)
Definition dump_idle (w : World) (v : BmpStateDetails Dumping)
    (res : ProcessingResult) (w' : World) : Prop :=
  exists v', next_state res = SUpdating (dumping_to_updating v')
    /\ idle w v v' w'.

Lemma dumping_callback_idle : idle_callback dumping_preprocessing dump_idle.
Proof.
  intros v pph u w. unfold dumping_preprocessing, remove_pending_eor.
  destruct (upd_is_eor _) as [e|[a|]]; try (wlp_steps; by apply idle_refl).
  destruct (forallb _ _); unfold mk_state_transition_result; cbn [has_reporter];
    wlp_steps.
  - eexists. split; [done|]. apply idle_modify; [done|].
    change (state_router_id _) with (sd_router_id v).
    change (sd_router_id (with_peers _ v)) with (sd_router_id v).
    by rewrite !gauge_report by done.
  - by apply idle_modify.
Qed.

Lemma updating_callback_idle :
  idle_callback updating_preprocessing (fun _ _ _ _ => False).
Proof.
  intros v pph u w. unfold updating_preprocessing, remove_pending_eor.
  destruct (upd_is_eor _) as [e|[a|]]; try (wlp_steps; by apply idle_refl).
  destruct (forallb _ _); wlp_steps; apply idle_modify; try done.
  change (sd_router_id (with_peers _ v)) with (sd_router_id v).
  by rewrite gauge_report.
Qed.

Lemma dumping_counted received m (v : BmpStateDetails Dumping) w :
  (forall raw, m <> TerminationMessage raw) ->
  wlp (dumping_process_msg received m v) (processed_counted w (SDumping v)) w.
Proof.
  intros Ht. destruct m as [m|m|m|m|m|r|r]; cbn [dumping_process_msg].
  - wlp_steps. apply idle_counted_dumping. eexists. split; [done|]. done.
  - apply wlp_bind. eapply wlp_mono; [apply peer_up_counted|].
    intros res w' (v' & Hn & Hr & Hc). rewrite Hn. cbn [into_state dumping_state].
    wlp_steps. split; [by rewrite Hn|]. unfold counted. rewrite Hn.
    cbn [state_router_id]. rewrite Hr, gauge_report by done. exact Hc.
  - eapply wlp_mono; [apply peer_down_counted|].
    intros res w' (v' & Hn & Hr & Hc). split; [by rewrite Hn|].
    unfold counted. rewrite Hn. exact Hc.
  - eapply wlp_mono; [apply route_monitoring_idle, dumping_callback_idle|].
    intros res w' [Hi|(v1 & w1 & H1 & v' & Hn & H2)].
    + by apply idle_counted_dumping.
    + destruct (idle_trans _ _ _ _ _ _ H1 H2) as (Hr & Hg & Hc).
      split; [by rewrite Hn|]. unfold counted. rewrite Hn. cbn [state_router_id].
      rewrite Hg. cbn [peers_of dumping_to_updating details u_peer_states].
      change (d_peer_states (details v')) with (peers v').
      change (d_peer_states (details v)) with (peers v). rewrite Hc. f_equal. lia.
  - wlp_steps. destruct (statistics_result m v) as [mt ->].
    apply idle_counted_dumping. exists v. split; [done|]. by apply idle_refl.
  - by destruct (Ht r).
  - wlp_steps. apply idle_counted_dumping. exists v. split; [done|].
    by apply idle_refl.
Qed.

Lemma updating_counted received m (v : BmpStateDetails Updating) w :
  (forall raw, m <> TerminationMessage raw) ->
  wlp (updating_process_msg received m v) (processed_counted w (SUpdating v)) w.
Proof.
  intros Ht. destruct m as [m|m|m|m|m|r|r]; cbn [updating_process_msg].
  - wlp_steps. apply idle_counted_updating. eexists. split; [done|]. done.
  - eapply wlp_mono; [apply peer_up_counted|].
    intros res w' (v' & Hn & Hr & Hc). split; [by rewrite Hn|].
    unfold counted. rewrite Hn. exact Hc.
  - eapply wlp_mono; [apply peer_down_counted|].
    intros res w' (v' & Hn & Hr & Hc). split; [by rewrite Hn|].
    unfold counted. rewrite Hn. exact Hc.
  - eapply wlp_mono; [apply route_monitoring_idle, updating_callback_idle|].
    intros res w' [Hi|(v1 & w1 & _ & [])]. by apply idle_counted_updating.
  - wlp_steps. destruct (statistics_result m v) as [mt ->].
    apply idle_counted_updating. exists v. split; [done|]. by apply idle_refl.
  - by destruct (Ht r).
  - wlp_steps. apply idle_counted_updating. exists v. split; [done|].
    by apply idle_refl.
Qed.

Lemma counted_same w s res w' :
  gauge (state_router_id s) w' = gauge (state_router_id s) w ->
  peers_of (next_state res) = peers_of s -> counted w s res w'.
Proof. intros Hg Hp. unfold counted. rewrite Hg, Hp. f_equal. lia. Qed.

Lemma initiating_counted m (v : BmpStateDetails Initiating) w :
  wlp (initiating_process_msg m v) (processed_counted w (SInitiating v)) w.
Proof.
  destruct m as [m|m|m|m|m|r|r]; cbn [initiating_process_msg]; wlp_steps;
    (split; [done|]); apply counted_same; try done.
  change (state_router_id (SInitiating v)) with (sd_router_id v).
  match goal with |- gauge ?a (mk_bmp_world ?r (on_router ?b ?f ?m)) = _ =>
    change b with a end.
  by rewrite gauge_report.
Qed.

Lemma process_msg_counted received m s w :
  (forall raw, m <> TerminationMessage raw) ->
  wlp (process_msg received m s) (counted w s) w.
Proof.
  intros Ht. unfold process_msg. apply wlp_bind.
  eapply wlp_mono with (P := processed_counted w s).
  - destruct s as [v|v|v|v|id r].
    + apply initiating_counted.
    + by apply dumping_counted.
    + by apply updating_counted.
    + wlp_steps. split; [done|]. by apply counted_same.
    + wlp_steps. split; [done|]. by apply counted_same.
  - intros res w' [Hr Hc]. unfold report_invalid, counted in *.
    destruct (message_type res); wlp_steps; try done.
    destruct (has_reporter _); wlp_steps; cbn [next_state]; [|done].
    rewrite Hr, gauge_report by done. exact Hc.
Qed.

(** The gauge of peers that are up follows the session: every message but
    a Termination moves it by as much as the number of peers stored by a Peer
    Up (modulo the counter's width), whatever the outcome; views synthesized
    for Route Monitoring are not counted. *)
Theorem peers_up_gauge received m s o sv w :
  session_inv o sv (reg w) (peers_of s) ->
  (forall raw, m <> TerminationMessage raw) ->
  exists res w',
    process_msg received m s w = (Some res, w')
    /\ wrap 64 (num_peers_up (router_metrics (state_router_id s) (metrics w')))
       = wrap 64 (num_peers_up (router_metrics (state_router_id s) (metrics w))
                  + (real (peers_of (next_state res)) - real (peers_of s))).
Proof.
  intros Hinv Ht.
  destruct (wp_exists _ _ _ (process_msg_processed received m s o sv w Hinv))
    as (res & w' & Hr & _). exists res, w'. split; [done|].
  pose proof (process_msg_counted received m s w Ht) as Hc.
  unfold wlp in Hc. rewrite Hr in Hc. exact Hc.
Qed.

End Process.

#[local] Existing Instance Demo.extern | 100.
#[local] Existing Instance demo_layout | 100.
#[local] Existing Instance DemoBmp.routecore | 100.

Lemma peers_up_gauge_witness :
  exists res w',
    process_msg (HI := list_order _ _) (HP := list_order _ _) 5
      (PeerDownNotification (mk_peer_down [] DemoSession.pre))
      DemoSession.updating1 DemoSession.world1 = (Some res, w')
    /\ wrap 64 (num_peers_up (router_metrics (str "r") (metrics w')))
       = wrap 64 (0 + (real (peers_of (next_state res)) - real DemoSession.ps1)).
Proof.
  apply (peers_up_gauge (HI := list_order _ _) (HP := list_order _ _) 5
    (PeerDownNotification (mk_peer_down [] DemoSession.pre))
    DemoSession.updating1 ∅ ∅ DemoSession.world1).
  - exact DemoSession.session_inv1.
  - done.
Defined.
