(* ===== verification/BmpConn.v ===== *)
(** * Connections of BMP routers

    Any number of connections of a unit, beside all other users of the
    register: no turn of any of them panics, each has its ids to itself, and
    the two maps of the unit always list exactly the live connections. *)

From S2P Require Import Prelude Net Register Payload BmpMsg BmpIo BmpMetrics BmpPeers BmpMachine BmpRouter BmpSafety.
From Stdlib Require Import ZArith Lia.
From stdpp Require Import base numbers list gmap fin_maps strings.

Local Open Scope Z_scope.

#[local] Arguments mk_sd {T} _ _ _.
#[local] Arguments sd_ingress_id {T} _.
#[local] Arguments sd_router_id {T} _.
#[local] Arguments details {T} _.

(** ** No message aborts a machine *)
Section NoAbort.
Context `{E : Extern} `{L : Layout} `{RC : !Routecore}.
Context `{HI : !HashIter Z IngressInfo}
        `{HP : !HashIter PphKey (PerPeerHeader * PeerState)}.

(** Whatever [m] answers satisfies [P]. *)
Definition answers {S A} (P : A -> Prop) (m : Run S A) : Prop :=
  forall w a w', m w = (Some a, w') -> P a.

Lemma answers_ret {S A} (P : A -> Prop) (a : A) : P a -> answers (S := S) P (mret a).
Proof. by intros Ha w a' w' [= <- _]. Qed.

Lemma answers_bind {S A B} (R : A -> Prop) (P : B -> Prop) (m : Run S A) k :
  answers R m -> (forall a, R a -> answers P (k a)) -> answers P (m ≫= k).
Proof.
  intros Hm Hk w b w'. unfold mbind, run_bind.
  destruct (m w) as [[a|] w1] eqn:E1; [|done]. intros E2.
  by eapply Hk; [eapply Hm|].
Qed.

Lemma answers_then {S A B} (P : B -> Prop) (m : Run S A) k :
  (forall a, answers P (k a)) -> answers P (m ≫= k).
Proof. intros Hk. by eapply (answers_bind (fun _ => True)). Qed.

Definition alive (res : ProcessingResult) : Prop := message_type res <> Aborted.

Definition alive_or {B} (a : ProcessingResult + B) : Prop :=
  match a with inl res => alive res | inr _ => True end.

Lemma transition_alive prev s : answers alive (mk_state_transition_result prev s).
Proof. apply answers_then. intros _. by apply answers_ret. Qed.

Section Either.
Context {T : Type} {ST : StateOf T} {PA : PeerAware T}.

Lemma peer_up_alive m (v : BmpStateDetails T) : answers alive (peer_up m v).
Proof.
  apply answers_then. intros [[added existing] ps]. destruct added; cbn [negb].
  - apply answers_then. intros _. apply answers_ret. by destruct existing.
  - by apply answers_ret.
Qed.

Lemma peer_down_alive m (v : BmpStateDetails T) : answers alive (peer_down m v).
Proof.
  unfold peer_down. destruct (remove_peer_identity_siblings _ _) as [[|p l] ps];
    [by apply answers_ret|].
  repeat (apply answers_then; intros). apply answers_ret. by destruct (_ && _).
Qed.

Lemma terminate_alive (v : BmpStateDetails T) : answers alive (terminate v).
Proof.
  apply answers_then. intros [|e l]; [apply transition_alive|by apply answers_ret].
Qed.

Lemma resolve_config_alive m (v : BmpStateDetails T) : answers alive_or (resolve_config m v).
Proof.
  assert (forall src err, answers alive_or
    (a ← synthesize src m err v;
     match a with
     | inl res => mret (inl res)
     | inr s' => c ← unwrap (get_peer_config (rm_pph m) (peers s')); mret (inr (s', c))
     end)) as Hs.
  { intros src err. eapply (answers_bind alive_or).
    - repeat (apply answers_then; intros). case_match. apply answers_ret. by destruct (negb _).
    - intros [res|s'] Hr; [by apply answers_ret|].
      apply answers_then. intros c. by apply answers_ret. }
  unfold resolve_config. destruct (get_peer_config _ _); [by apply answers_ret|].
  destruct (get_peer_config _ _); [apply Hs|].
  destruct (find_sibling_pph _ _); [apply Hs|].
  apply answers_then. intros _. by apply answers_ret.
Qed.

Lemma route_monitoring_alive received m cb (v : BmpStateDetails T) :
  (forall v pph u, answers alive_or (cb v pph u)) ->
  answers alive (route_monitoring received m cb v).
Proof.
  intros Hcb. eapply answers_bind; [apply resolve_config_alive|].
  intros [res|[v1 c0]] Hr; [by apply answers_ret|].
  apply answers_then. intros [u c retried|c e]; [|by apply answers_ret].
  apply answers_then. intros v2. eapply answers_bind; [apply Hcb|].
  intros [res|v3] Hr'; [by apply answers_ret|]. unfold forward_routes.
  destruct (extract_routes _ _ _ _) as [[payloads rep]|]; [|by apply answers_ret].
  destruct (announcements_vec u); [by apply answers_ret|].
  repeat (apply answers_then; intros). by apply answers_ret.
Qed.

End Either.

Lemma dumping_alive received m v : answers alive (dumping_process_msg received m v).
Proof.
  destruct m as [m|m|m|m|m|r|r]; cbn [dumping_process_msg].
  - by apply answers_ret.
  - eapply answers_bind; [apply peer_up_alive|]. intros res Hr.
    apply answers_then. intros _. by apply answers_ret.
  - apply peer_down_alive.
  - apply route_monitoring_alive. intros v' pph u. unfold dumping_preprocessing.
    destruct (upd_is_eor _) as [e|[a|]]; try by apply answers_ret.
    destruct (remove_pending_eor _ _ _) as [[] ps]; [|by apply answers_ret].
    apply answers_then. intros _. eapply answers_bind; [apply transition_alive|].
    intros res Hr. by apply answers_ret.
  - apply answers_ret. unfold statistics_report.
    destruct (get_peer_ingress_id _ _); [|done]. by case_bool_decide.
  - apply terminate_alive.
  - by apply answers_ret.
Qed.

Lemma updating_alive received m v : answers alive (updating_process_msg received m v).
Proof.
  destruct m as [m|m|m|m|m|r|r]; cbn [updating_process_msg].
  - by apply answers_ret.
  - apply peer_up_alive.
  - apply peer_down_alive.
  - apply route_monitoring_alive. intros v' pph u. unfold updating_preprocessing.
    destruct (upd_is_eor _) as [e|[a|]]; try by apply answers_ret.
    destruct (remove_pending_eor _ _ _) as [fin ps].
    apply answers_then. intros _. by apply answers_ret.
  - apply answers_ret. unfold statistics_report.
    destruct (get_peer_ingress_id _ _); [|done]. by case_bool_decide.
  - apply terminate_alive.
  - by apply answers_ret.
Qed.

Lemma process_msg_alive received m s :
  state_idx s <> IdxAborted -> answers alive (process_msg received m s).
Proof.
  intros Hs. eapply (answers_bind alive).
  - destruct s as [v|v|v|v|id r]; [|apply dumping_alive|apply updating_alive|by apply answers_ret|done].
    destruct m as [m|m|m|m|m|r|r]; cbn [initiating_process_msg]; try by apply answers_ret.
    repeat (apply answers_then; intros). by apply answers_ret.
  - intros res Hr. unfold report_invalid. destruct (message_type res) eqn:Hm; try by apply answers_ret.
    apply answers_then. intros _. by apply answers_ret.
Qed.

End NoAbort.

(** ** One turn of one connection *)
Section Turn.
Context `{E : Extern} `{L : Layout} `{RC : !Routecore} `{BP : !BmpParser} `{BR : !BmpRoto}.
Context `{HI : !HashIter Z IngressInfo}
        `{HP : !HashIter PphKey (PerPeerHeader * PeerState)}.
Context {GateStatus : Type}.

Lemma set_merged_step id q r h sv :
  id ∈ h -> state q = Some Connected ->
  reg_step (mk_world r h sv) (mk_world (snd (update_info id q r)) h sv).
Proof.
  intros Hin Hq. eapply (step_refresh _ _ _ id q None); [done|by left|].
  by rewrite update_info_spec.
Qed.

(** The Initiation message gives the connection an id of its own: its
    provisional one, or one that nobody uses. *)
Lemma resolve_router_steps m own r h sv :
  world_inv (mk_world r h sv) -> own ∈ sv ->
  let '(id, r') := resolve_router m own r in
  id ∉ h
  /\ (if decide (id = own)
     then rtc reg_step (mk_world r h sv) (mk_world r' ({[id]} ∪ h) (sv ∖ {[own]}))
     else rtc reg_step (mk_world r h sv) (mk_world r' ({[id]} ∪ h) sv)).
Proof.
  intros Hinv Hown. unfold resolve_router.
  set (q := router_identity m (get own r)).
  assert (identifies (fun i => bmp_router_matches i q)) as Hq
    by (apply router_query_identifies; by eexists).
  unfold find_existing_bmp_router_and_claim.
  destruct (claim _ r) as [[[id i]|] r1] eqn:Hc.
  - destruct (claim_unowned _ _ _ _ _ Hinv Hq Hc) as [Hh Hsv]. cbn in Hh, Hsv.
    assert (id <> own) as Hne by congruence. rewrite bool_decide_false by done. cbn [negb].
    split; [done|]. rewrite decide_False by done.
    eapply rtc_l; [by eapply step_claim|]. apply rtc_once, set_merged_step; [set_solver|done].
  - apply claim_None in Hc as [-> _]. split; [by eapply reserved_not_held|].
    rewrite decide_True by done. apply rtc_once.
    eapply (step_publish _ _ _ own q None); [done|done|]. by rewrite update_info_spec.
Qed.

(** What a message does to a machine that is neither over nor lost. *)
Inductive stepped (o sv : gset Z) (r : Register) (s : BmpState) (r' : Register)
    (s' : BmpState) : Prop :=
| stepped_same :
    r' = r -> state_idx s' = state_idx s -> state_ingress_id s' = state_ingress_id s ->
    peers_of s' = peers_of s -> stepped o sv r s r' s'
| stepped_session :
    state_idx s <> IdxInitiating -> state_idx s' <> IdxInitiating ->
    state_ingress_id s' = state_ingress_id s ->
    evolves o sv r (peers_of s) r' (peers_of s') -> stepped o sv r s r' s'
| stepped_initiated m :
    state_idx s = IdxInitiating -> state_idx s' <> IdxInitiating ->
    peers_of s' = ∅ ->
    resolve_router m (state_ingress_id s) r = (state_ingress_id s', r') ->
    stepped o sv r s r' s'.

Lemma process_initiating received m v (w : World) :
  wp (process_msg received m (SInitiating v)) (fun res w' =>
    next_state res = SInitiating v /\ reg w' = reg w
    \/ exists im d, next_state res = SDumping d /\ d_peer_states (details d) = ∅
       /\ resolve_router im (sd_ingress_id v) (reg w) = (sd_ingress_id d, reg w')) w.
Proof.
  unfold process_msg. wp_steps.
  destruct m as [m|m|m|m|m|r|r]; cbn [initiating_process_msg]; wp_steps; try by left.
  unfold initiate, with_details, set_information_tlvs, initiating_state. cbn.
  right. exists m. eexists. split; [done|]. split; [done|]. cbn. by destruct (resolve_router _ _ _).
Qed.

Lemma same_id {A B} (v : BmpStateDetails A) (v' : BmpStateDetails B) :
  same_session v v' -> sd_ingress_id v' = sd_ingress_id v.
Proof. by intros []. Qed.

Lemma process_msg_stepped received m s o sv (w : World) :
  session_inv o sv (reg w) (peers_of s) -> state_idx s <> IdxAborted ->
  wp (process_msg received m s) (fun res w' =>
    alive res /\ state_idx (next_state res) <> IdxAborted
    /\ stepped o sv (reg w) s (reg w') (next_state res)) w.
Proof.
  intros Hinv Hs.
  assert (wp (process_msg received m s) (fun res w' =>
    state_idx (next_state res) <> IdxAborted
    /\ stepped o sv (reg w) s (reg w') (next_state res)) w) as Hwp.
  { destruct s as [v|v|v|v|id r]; [| | | |done].
    1: { eapply wp_mono; [apply process_initiating|].
         intros res w' [[-> Hr]|(im & d & -> & Hp & Hres)]; (split; [done|]);
           [by apply stepped_same|by eapply stepped_initiated]. }
    all: eapply wp_mono; [by apply process_msg_processed|]; intros res w' [Ha He];
      specialize (He ltac:(done)); destruct (next_state res); inversion Ha; subst;
      (split; [done|]); (apply stepped_session; [done..| |done]);
      first [done|by apply same_id]. }
  destruct (wp_exists _ _ _ Hwp) as (res & w' & Hrun & H1 & H2). unfold wp. rewrite Hrun.
  split; [exact (process_msg_alive received m s Hs _ _ _ Hrun)|done].
Qed.

(** What a connection holds: nothing before it is settled. *)
Definition held_by (id : IngressId) (settled : bool) (s : BmpState) : gset Z :=
  if settled then {[id]} ∪ peer_ids (peers_of s) else ∅.

(** A connection beside holders of the ids [o]. *)
Record conn_good (o sv : gset Z) (r : Register) (id : IngressId) (settled : bool)
    (s : BmpState) : Prop := {
  cg_world : world_inv (mk_world r (o ∪ held_by id settled s) sv);
  cg_own : id ∉ o;
  cg_id : state_ingress_id s = id;
  cg_alive : state_idx s <> IdxAborted;
  cg_settled : settled = true -> state_idx s <> IdxInitiating
    /\ session_ok (o ∪ {[id]}) (peers_of s);
  cg_waiting : settled = false -> state_idx s = IdxInitiating /\ id ∈ sv
}.

Lemma initiating_peers s : state_idx s = IdxInitiating -> peers_of s = ∅.
Proof. by destruct s. Qed.

(** The ids a message may not touch. *)
Definition guarded (o : gset Z) (id : IngressId) (settled : bool) : gset Z :=
  if settled then o ∪ {[id]} else o.

Lemma conn_good_session o sv r id settled s :
  conn_good o sv r id settled s -> serial r < u32_max ->
  session_inv (guarded o id settled) sv r (peers_of s).
Proof.
  intros [Hw Hown Hid Ha Hset Hwait] Hlt. destruct settled; cbn in *.
  - destruct (Hset eq_refl) as [_ Hok]. split; [|done|done]. by rewrite <- (assoc_L (∪)).
  - destruct (Hwait eq_refl) as [Hi Hin]. rewrite (initiating_peers _ Hi). split; [|apply session_ok_empty|done].
    by rewrite peer_ids_empty.
Qed.

(** Nothing but what the machine does happened to the register, and the maps of
    the unit were left alone. *)
Definition same_maps (h h' : Handler) : Prop :=
  h_states h' = h_states h /\ h_info h' = h_info h.

(** States that differ in nothing the register knows of. *)
Definition similar (s s' : BmpState) : Prop :=
  state_idx s' = state_idx s /\ state_ingress_id s' = state_ingress_id s
  /\ peers_of s' = peers_of s.

Lemma check_update_similar c id s : similar s (check_update_router_id c id s).
Proof. destruct s; cbn; try done; by case_bool_decide. Qed.

Lemma stepped_similar o sv r s r' s' s'' :
  stepped o sv r s r' s' -> similar s' s'' -> stepped o sv r s r' s''.
Proof.
  intros Hst (Hi & Hd & Hp). destruct Hst as [H1 H2 H3 H4|H1 H2 H3 H4|m H1 H2 H3 H4].
  - apply stepped_same; congruence.
  - apply stepped_session; congruence.
  - apply (stepped_initiated _ _ _ _ _ _ m); congruence.
Qed.

Lemma act_on_alive c id res (h : Handler) :
  alive res ->
  wp (act_on c id res) (fun a h' => (exists s', a = inr s' /\ similar (next_state res) s')
    /\ same_maps h h' /\ h_world h' = h_world h) h.
Proof.
  intros Ha. unfold act_on.
  destruct (message_type res) eqn:Hm; [..|done]; wp_steps; (split; [|done]);
    eexists; (split; [done|]); first [apply check_update_similar|done].
Qed.

Lemma wp_on_world {A} (m : Run World A) (Q : A -> Handler -> Prop) h :
  wp m (fun a w => Q a (set_world w h)) (h_world h) -> wp (on_world m) Q h.
Proof. unfold wp, on_world. by destruct (m (h_world h)) as [[a|] w]. Qed.

Lemma run_filter_spec c id m (h : Handler) :
  wp (run_filter c id m) (fun _ h' => same_maps h h' /\ h_world h' = h_world h) h.
Proof.
  unfold run_filter. wp_steps.
  destruct (match roto_bmp_in with Some f => _ | None => _ end) as [ok ctx].
  destruct (bmp_drain ctx) as [outs ctx']. wp_steps. done.
Qed.

(** A message is handled without a panic. *)
Lemma handle_msg_stepped c received id m s o sv (h : Handler) :
  h_machine h = Some s -> state_idx s <> IdxAborted ->
  session_inv o sv (reg (h_world h)) (peers_of s) ->
  wp (handle_msg c received id m) (fun a h' =>
    a = inr tt /\ same_maps h h'
    /\ exists s', h_machine h' = Some s' /\ state_idx s' <> IdxAborted
       /\ stepped o sv (reg (h_world h)) s (reg (h_world h')) s') h.
Proof.
  intros Hm Ha Hinv. unfold handle_msg, machine. apply wp_bind. unfold wp at 1. rewrite Hm.
  wp_steps. destruct (dropped c m).
  { wp_steps. split; [done|]. split; [done|]. exists s. split; [done|]. split; [done|].
    by apply stepped_same. }
  wp_steps. eapply wp_mono; [apply run_filter_spec|]. intros ok h1 [[Hs1 Hi1] Hw1]. cbn in Hs1, Hi1, Hw1.
  destruct ok; cbn [negb]; wp_steps.
  2: { split; [done|]. split; [done|]. exists s. split; [done|]. split; [done|].
       apply stepped_same; try done. cbn. by rewrite Hw1. }
  apply wp_on_world. rewrite Hw1. eapply wp_mono; [by apply process_msg_stepped|].
  intros res w' (Hal & Hab & Hst). wp_steps.
  eapply wp_mono; [by apply act_on_alive|]. intros next h2 ((s' & -> & Hsim) & [Hs2 Hi2] & Hw2).
  wp_steps. split; [done|]. split; [by split; cbn; rewrite ?Hs2, ?Hi2|].
  exists s'. split; [done|]. split; [destruct Hsim as [-> _]; done|].
  cbn. rewrite Hw2. by eapply stepped_similar.
Qed.

(** The register after a step, with the connection settled or not. *)
Lemma stepped_settled o sv r id s r' s' :
  conn_good o sv r id true s -> state_idx s' <> IdxAborted ->
  stepped (o ∪ {[id]}) sv r s r' s' -> conn_good o sv r' id true s'.
Proof.
  intros [Hw Hown Hid Ha Hset _] Ha' Hst. destruct (Hset eq_refl) as [Hni Hok]. cbn in Hw.
  rewrite (assoc_L (∪)) in Hw.
  destruct Hst as [-> Hi Hd Hp|_ Hi Hd [Hrtc Hok']|m Hi]; [..|done].
  - split; try done; [|congruence|by rewrite Hi, Hp]. cbn. rewrite Hp. by rewrite (assoc_L (∪)).
  - split; try done; [|congruence]. cbn. rewrite (assoc_L (∪)). by eapply rtc_reg_inv.
Qed.

Lemma drop_step id r h sv :
  id ∈ sv -> reg_step (mk_world r h sv) (mk_world (snd (Register.remove id r)) h (sv ∖ {[id]})).
Proof. intros Hin. by apply (step_drop _ _ _ id (fst (Register.remove id r))). Qed.

Lemma stepped_waiting o sv r id s r' s' :
  conn_good o sv r id false s -> state_idx s' <> IdxAborted -> stepped o sv r s r' s' ->
  if decide (state_ingress_id s' = id) then
    if decide (state_idx s' = IdxInitiating) then conn_good o sv r' id false s'
    else conn_good o (sv ∖ {[id]}) r' id true s'
  else conn_good o (sv ∖ {[id]}) (snd (Register.remove id r')) (state_ingress_id s') true s'.
Proof.
  intros [Hw Hown Hid Ha _ Hwait] Ha' Hst. destruct (Hwait eq_refl) as [Hi Hin]. cbn in Hw.
  rewrite (right_id_L ∅ (∪)) in Hw.
  destruct Hst as [-> Hi' Hd Hp|Hni|m _ Hi' Hp Hres]; [|done|].
  - rewrite decide_True, decide_True by congruence.
    split; try done; [|congruence|by rewrite Hi']. cbn. by rewrite (right_id_L ∅ (∪)).
  - pose proof (resolve_router_steps m id r o sv Hw Hin) as Hs. rewrite Hid in Hres.
    rewrite Hres in Hs. destruct Hs as [Hno Hs].
    assert (forall r2 sv2 x, x ∉ o -> state_ingress_id s' = x ->
      world_inv (mk_world r2 ({[x]} ∪ o) sv2) -> conn_good o sv2 r2 x true s') as Hgood.
    { intros r2 sv2 x Hx Hxid Hw2. split; try done; cbn; rewrite Hp.
      - rewrite peer_ids_empty, (right_id_L ∅ (∪)), (comm_L (∪)). done.
      - intros _. split; [done|apply session_ok_empty]. }
    case_decide as Heq.
    + rewrite decide_False by done. rewrite Heq in *. apply Hgood; [done..|].
      eapply rtc_reg_inv; [exact Hs|done].
    + apply Hgood; [done..|]. eapply reg_step_inv; [by apply drop_step|].
      eapply rtc_reg_inv; [exact Hs|done].
Qed.

(** An entry moved from one id to another. *)
Definition rekey (id id' : IngressId) (k : option Z) (m : gmap Z Z) : gmap Z Z :=
  if decide (id' = id) then m
  else match k with Some k => <[id' := k]> (delete id m) | None => delete id m end.

(** What a turn leaves: a connection that goes on, with its entries under its
    id, or a loop that stops with everything as it was. *)
Definition turned (c : Config) (o sv : gset Z) (id : IngressId) (was : bool) (h : Handler)
    (t : Turn) (h' : Handler) : Prop :=
  match t with
  | Stop id' => id' = id /\ h' = h
  | Go id' settled =>
      exists s', h_machine h' = Some s'
        /\ conn_good o (if settled then sv ∖ {[id]} else sv) (reg (h_world h')) id' settled s'
        /\ (settled = false -> id' = id /\ was = false)
        /\ h_states h' = rekey id id' (Some (connection c)) (h_states h)
        /\ h_info h' = rekey id id' (h_info h !! id) (h_info h)
  end.

Lemma turned_same c o sv id settled s h h' :
  conn_good o sv (reg (h_world h')) id settled s -> h_machine h' = Some s ->
  same_maps h h' -> turned c o sv id settled h (Go id settled) h'.
Proof.
  intros Hg Hm [Hs Hi]. exists s. unfold rekey. rewrite !decide_True by done.
  split; [done|]. split; [|done]. destruct settled; [|done].
  replace (sv ∖ {[id]}) with sv; [done|]. symmetry. apply difference_disjoint_L.
  intros x Hx ->%elem_of_singleton.
  eapply (reserved_not_held _ _ _ _ (cg_world _ _ _ _ _ _ Hg) Hx). cbn. set_solver.
Qed.

Lemma settle_turned c o sv id s h0 h s' :
  conn_good o sv (reg (h_world h0)) id false s -> h_machine h = Some s' ->
  state_idx s' <> IdxAborted -> same_maps h0 h ->
  stepped o sv (reg (h_world h0)) s (reg (h_world h)) s' ->
  wp (settle c id) (fun x h' => turned c o sv id false h0 (Go (fst x) (snd x)) h') h.
Proof.
  intros Hg Hm Ha [Hs Hi] Hst. unfold settle. wp_steps. rewrite Hm.
  pose proof (stepped_waiting _ _ _ _ _ _ _ Hg Ha Hst) as Hgood.
  case_decide as Hid.
  - rewrite bool_decide_false by tauto. apply wp_ret. cbn [fst snd].
    exists s'. split; [done|]. unfold rekey. rewrite !decide_True by done.
    split; [|done]. case_decide as Hidx.
    + rewrite bool_decide_false by tauto. done.
    + by rewrite bool_decide_true.
  - rewrite bool_decide_true by done. unfold with_register. wp_steps. cbn [fst snd].
    exists s'. split; [done|]. unfold rekey. rewrite !decide_False by done. cbn.
    rewrite <- Hs, <- Hi. split; [done|]. split; [done|]. split; [done|].
    by destruct (h_info h !! id).
Qed.

(** No turn panics. *)
Lemma turn_turned c received id settled (nx : Next (GateStatus := GateStatus)) s o sv (h : Handler) :
  h_machine h = Some s -> conn_good o sv (reg (h_world h)) id settled s ->
  serial (reg (h_world h)) < u32_max ->
  wp (turn c received id settled nx) (turned c o sv id settled h) h.
Proof.
  intros Hm Hg Hlt. destruct nx as [k|[[[buf|] status] trace]]; cbn [turn].
  - unfold machine. apply wp_bind. unfold wp at 1. rewrite Hm. apply wp_ret.
    destruct (is_fatal k); [done|]. by eapply turned_same.
  - destruct (from_octets buf) as [m|]; [|by apply wp_ret; eapply turned_same].
    wp_steps. eapply wp_mono.
    { eapply handle_msg_stepped; [done|apply Hg|]. by apply conn_good_session. }
    intros a h' (-> & Hmaps & s' & Hm' & Ha' & Hst).
    destruct settled; cbn [guarded] in Hst.
    + apply wp_ret. eapply turned_same; [|done|done]. by eapply stepped_settled.
    + wp_steps. eapply wp_mono; [by eapply settle_turned|]. intros [id' settled'] h2 Ht.
      apply wp_ret. exact Ht.
  - by apply wp_ret.
Qed.

Lemma state_disconnect_spec s r :
  state_disconnect s r
  = ((fun id => (id, None)) <$> ((fun e => peer_ingress (snd e)) <$> entries (peers_of s)),
     snd (disconnect_into_register (peers_of s) r)).
Proof.
  assert (entries (HP := HP) ∅ = []) as He.
  { apply elem_of_nil_inv. intros e [k Hk]%elem_of_entries. by rewrite lookup_empty in Hk. }
  destruct s; cbn [state_disconnect peers_of]; unfold disconnect_into_register, disconnect_peers;
    rewrite ?He; cbn [fst snd]; try done; by rewrite <- !list_fmap_compose.
Qed.

(** What the end of a connection leaves. *)
Definition finished (id : IngressId) (s : BmpState) (h h' : Handler) : Prop :=
  let ids := (fun e => peer_ingress (snd e)) <$> entries (peers_of s) in
  reg (h_world h')
  = snd (disconnect_into_register (peers_of s) (set_disconnected id (reg (h_world h))))
  /\ h_out h'
     = h_out h ++ [WithdrawBulk ((fun id => (id, None)) <$> ids); EndOfStream id]
  /\ h_states h' = delete id (h_states h) /\ h_info h' = delete id (h_info h).

Lemma finish_finished id s (h : Handler) :
  h_machine h = Some s -> wp (finish id) (fun _ => finished id s h) h.
Proof.
  intros Hm. unfold finish, teardown, machine. apply wp_bind, wp_bind. unfold wp at 1.
  rewrite Hm. unfold with_register. wp_steps. rewrite state_disconnect_spec. wp_steps.
  unfold finished. cbn. by rewrite <- app_assoc.
Qed.

Lemma finished_inv o sv id settled s h h' :
  conn_good o sv (reg (h_world h)) id settled s -> finished id s h h' ->
  world_inv (mk_world (reg (h_world h')) o (sv ∖ {[id]})).
Proof.
  intros Hg (-> & _). destruct settled.
  - destruct (cg_settled _ _ _ _ _ _ Hg eq_refl) as [_ [Hk Ho Hd]].
    pose proof (cg_world _ _ _ _ _ _ Hg) as Hw. cbn in Hw.
    pose proof (cg_own _ _ _ _ _ _ Hg) as Hown.
    replace (sv ∖ {[id]}) with sv.
    2: { symmetry. apply difference_disjoint_L. intros x Hx ->%elem_of_singleton.
         eapply (reserved_not_held _ _ _ _ Hw Hx). set_solver. }
    assert (session_ok o (peers_of s)) as Hok by (split; [done|set_solver|done]).
    destruct (evolves_disconnect o sv (set_disconnected id (reg (h_world h))) _ Hok) as [Hrtc _].
    rewrite peer_ids_empty, (right_id_L ∅ (∪)) in Hrtc.
    eapply rtc_reg_inv; [exact Hrtc|].
    assert (o ∪ peer_ids (peers_of s) = (o ∪ ({[id]} ∪ peer_ids (peers_of s))) ∖ {[id]}) as ->.
    { apply leibniz_equiv. intros x. specialize (Ho x). set_solver. }
    eapply reg_step_inv; [|exact Hw]. apply set_disconnected_step. set_solver.
  - destruct (cg_waiting _ _ _ _ _ _ Hg eq_refl) as [Hi Hin].
    pose proof (cg_world _ _ _ _ _ _ Hg) as Hw. cbn in Hw. rewrite (right_id_L ∅ (∪)) in Hw.
    rewrite (initiating_peers _ Hi).
    destruct (evolves_disconnect o (sv ∖ {[id]}) (set_disconnected id (reg (h_world h))) ∅
      (session_ok_empty o)) as [Hrtc _].
    rewrite peer_ids_empty, (right_id_L ∅ (∪)) in Hrtc.
    eapply rtc_reg_inv; [exact Hrtc|]. eapply reg_step_inv; [|exact Hw].
    eapply (step_abandon _ _ _ id None); [done|]. unfold set_disconnected. by rewrite update_info_spec.
Qed.

End Turn.

(** ** Users of the register that do not know of each other *)
Section Frame.
Context `{HI : !HashIter Z IngressInfo}.

Lemma reg_step_frame r f s w' O P :
  world_inv (mk_world r (f ∪ O) (s ∪ P)) -> O ## f -> P ## s ->
  reg_step (mk_world r f s) w' ->
  reg_step (mk_world r (f ∪ O) (s ∪ P)) (mk_world (w_reg w') (held w' ∪ O) (reserved w' ∪ P))
  /\ O ## held w' /\ P ## reserved w'.
Proof.
  intros Hw HO HP Hstep.
  assert (forall id, id ∈ s -> id ∉ O) as HsO.
  { intros id Hs Hin. eapply (reserved_not_held _ _ _ id Hw); set_solver. }
  assert (forall id, id ∈ f -> (f ∖ {[id]}) ∪ O = (f ∪ O) ∖ {[id]}) as Hf by set_solver.
  assert (forall id, id ∈ s -> (s ∖ {[id]}) ∪ P = (s ∪ P) ∖ {[id]}) as Hs by set_solver.
  inversion Hstep; subst; cbn [w_reg held reserved];
    rewrite <- ?(assoc_L (∪)), ?Hf, ?Hs by done.
  - destruct (claim_unowned m (mk_world r (f ∪ O) (s ∪ P)) id i r' Hw) as [Hn _]; [done..|].
    cbn in Hn. split; [by eapply step_claim|set_solver].
  - split; [by eapply step_claim_none|done].
  - split; [by eapply step_reserve|]. split; [done|].
    pose proof (inv_reserved _ Hw id) as Hr. cbn in Hr. match goal with H : register _ = _ |- _ => injection H as <- _ end.
    intros x Hx [->%elem_of_singleton|Hin]%elem_of_union; [|by apply (HP x)].
    destruct Hr as [? _]; [set_solver|lia].
  - split; [eapply step_publish; [apply elem_of_union_l; eassumption|eassumption..]|]. set_solver.
  - split; [eapply step_provide; [apply elem_of_union_l; eassumption|eassumption..]|done].
  - split; [eapply step_abandon; [apply elem_of_union_l; eassumption|eassumption..]|set_solver].
  - split; [eapply step_drop; [apply elem_of_union_l; eassumption|eassumption..]|set_solver].
  - split; [eapply step_refresh; [apply elem_of_union_l; eassumption|eassumption..]|done].
  - split; [eapply step_disconnect; [apply elem_of_union_l; eassumption|eassumption..]|set_solver].
  - split; [eapply step_free; [apply elem_of_union_l; eassumption|eassumption..]|set_solver].
  - split; [by eapply step_gc|done].
Qed.

Lemma reg_use_frame r f s w' O P :
  world_inv (mk_world r (f ∪ O) (s ∪ P)) -> O ## f -> P ## s ->
  reg_use (mk_world r f s) w' ->
  reg_use (mk_world r (f ∪ O) (s ∪ P)) (mk_world (w_reg w') (held w' ∪ O) (reserved w' ∪ P))
  /\ O ## held w' /\ P ## reserved w'.
Proof.
  intros Hw HO HP Huse.
  assert (forall id, id ∈ s -> (s ∖ {[id]}) ∪ P = (s ∪ P) ∖ {[id]}) as Hs by set_solver.
  inversion Huse as [w0 w0' Hstep| | | |]; subst; cbn [w_reg held reserved]; rewrite ?Hs by done.
  - destruct (reg_step_frame _ _ _ _ _ _ Hw HO HP Hstep) as [Hst ?]. split; [by apply use_session|done].
  - split; [by eapply use_mark|done].
  - split; [eapply use_private; [apply elem_of_union_l; eassumption|eassumption..]|done].
  - split; [eapply use_clear; [apply elem_of_union_l; eassumption|eassumption..]|done].
  - split; [eapply use_hand_over; [apply elem_of_union_l; eassumption|eassumption..]|set_solver].
Qed.

End Frame.

(** ** The unit's connections beside the other users of the register *)
Section System.
Context `{E : Extern} `{L : Layout} `{RC : !Routecore} `{BP : !BmpParser} `{BR : !BmpRoto}.
Context `{HI : !HashIter Z IngressInfo}
        `{HP : !HashIter PphKey (PerPeerHeader * PeerState)}.
Context {GateStatus : Type}.

Record Conn : Type := mk_conn {
  cn_config : Config;
  cn_id : IngressId;
  cn_settled : bool;
  cn_machine : BmpState
}.

(** The shared state, the connections by their number, and the ids that other
    users of the register hold or have reserved. *)
Record System : Type := mk_system {
  sy_handler : Handler;
  sy_conns : gmap Z Conn;
  sy_held : gset Z;
  sy_reserved : gset Z
}.

Definition sy_reg (y : System) : Register := reg (h_world (sy_handler y)).

(** The handler of one connection sees the shared state and its machine. *)
Definition view (y : System) (s : option BmpState) : Handler := set_machine s (sy_handler y).

Inductive sys_step : System -> System -> Prop :=
| sys_accept y c unit_id k id h s :
    sy_conns y !! k = None -> connection c = k -> serial (sy_reg y) < u32_max ->
    accept c unit_id (view y None) = (Some id, h) -> h_machine h = Some s ->
    sys_step y (mk_system h (<[k := mk_conn c id false s]> (sy_conns y)) (sy_held y) (sy_reserved y))
| sys_turn y k cn received (nx : Next (GateStatus := GateStatus)) id settled h s :
    sy_conns y !! k = Some cn -> serial (sy_reg y) < u32_max ->
    turn (cn_config cn) received (cn_id cn) (cn_settled cn) nx (view y (Some (cn_machine cn)))
    = (Some (Go id settled), h) -> h_machine h = Some s ->
    sys_step y (mk_system h (<[k := mk_conn (cn_config cn) id settled s]> (sy_conns y))
                  (sy_held y) (sy_reserved y))
| sys_end y k cn received (nx : Next (GateStatus := GateStatus)) id h h' :
    sy_conns y !! k = Some cn -> serial (sy_reg y) < u32_max ->
    turn (cn_config cn) received (cn_id cn) (cn_settled cn) nx (view y (Some (cn_machine cn)))
    = (Some (Stop id), h) -> finish id h = (Some tt, h') ->
    sys_step y (mk_system h' (delete k (sy_conns y)) (sy_held y) (sy_reserved y))
| sys_other y w' :
    reg_use (mk_world (sy_reg y) (sy_held y) (sy_reserved y)) w' ->
    sys_step y (mk_system
      (set_world (mk_bmp_world (w_reg w') (metrics (h_world (sy_handler y)))) (sy_handler y))
      (sy_conns y) (held w') (reserved w')).

Definition sys_start (ctx : BmpCtx) : System :=
  mk_system (mk_handler (mk_bmp_world register_new ∅) None ∅ ∅ ctx []) ∅ ∅ ∅.

Inductive sys_reachable : System -> Prop :=
| sys_init ctx : sys_reachable (sys_start ctx)
| sys_next y y' : sys_reachable y -> sys_step y y' -> sys_reachable y'.

(** *** The ids of the connections *)
Definition conn_held (c : Conn) : gset Z := held_by (cn_id c) (cn_settled c) (cn_machine c).

Definition conn_reserved (c : Conn) : gset Z := if cn_settled c then ∅ else {[cn_id c]}.

Definition gather (f : Conn -> gset Z) (cs : gmap Z Conn) : gset Z :=
  ⋃ ((fun e => f (snd e)) <$> map_to_list cs).

Lemma elem_of_gather f cs x :
  x ∈ gather f cs <-> exists k c, cs !! k = Some c /\ x ∈ f c.
Proof.
  unfold gather. rewrite elem_of_union_list. setoid_rewrite list_elem_of_fmap. split.
  - intros (X & ([k c] & -> & Hin%elem_of_map_to_list) & Hx). eauto.
  - intros (k & c & Hc & Hx). exists (f c). split; [|done]. exists (k, c).
    by rewrite elem_of_map_to_list.
Qed.

Lemma gather_insert f cs k c : gather f (<[k := c]> cs) = gather f (delete k cs) ∪ f c.
Proof.
  apply leibniz_equiv. intros x. rewrite elem_of_union, !elem_of_gather. split.
  - intros (k' & c' & [[<- <-]|[Hne Hc]]%lookup_insert_Some & Hx); [by right|left].
    exists k', c'. by rewrite lookup_delete_ne.
  - intros [(k' & c' & [Hne Hc]%lookup_delete_Some & Hx)|Hx].
    + exists k', c'. by rewrite lookup_insert_ne.
    + exists k, c. by rewrite lookup_insert_eq.
Qed.

Lemma gather_split f cs k c : cs !! k = Some c -> gather f cs = gather f (delete k cs) ∪ f c.
Proof. intros Hc. rewrite <- gather_insert. by rewrite insert_id. Qed.

(** *** The invariant *)

(** What a connection satisfies by itself. *)
Record conn_local (c : Conn) : Prop := {
  cl_id : state_ingress_id (cn_machine c) = cn_id c;
  cl_alive : state_idx (cn_machine c) <> IdxAborted;
  cl_settled : cn_settled c = true ->
    state_idx (cn_machine c) <> IdxInitiating
    /\ session_ok {[cn_id c]} (peers_of (cn_machine c));
  cl_waiting : cn_settled c = false -> state_idx (cn_machine c) = IdxInitiating
}.

(** A map of the unit lists exactly the connections, each under its id. *)
Definition lists (m : gmap Z Z) (cs : gmap Z Conn) : Prop :=
  forall id k, m !! id = Some k <-> exists c, cs !! k = Some c /\ cn_id c = id.

Record sys_inv (y : System) : Prop := {
  sv_world : world_inv (mk_world (sy_reg y) (sy_held y ∪ gather conn_held (sy_conns y))
                          (sy_reserved y ∪ gather conn_reserved (sy_conns y)));
  sv_config k c : sy_conns y !! k = Some c -> connection (cn_config c) = k;
  sv_local k c : sy_conns y !! k = Some c -> conn_local c;
  sv_foreign k c : sy_conns y !! k = Some c ->
    conn_held c ## sy_held y /\ conn_reserved c ## sy_reserved y;
  sv_apart k1 k2 c1 c2 :
    sy_conns y !! k1 = Some c1 -> sy_conns y !! k2 = Some c2 -> k1 <> k2 ->
    conn_held c1 ## conn_held c2 /\ cn_id c1 <> cn_id c2;
  sv_states : lists (h_states (sy_handler y)) (sy_conns y);
  sv_info : lists (h_info (sy_handler y)) (sy_conns y)
}.

(** The ids of everybody else. *)
Definition others (y : System) (k : Z) : gset Z :=
  sy_held y ∪ gather conn_held (delete k (sy_conns y)).

Definition all_reserved (y : System) : gset Z :=
  sy_reserved y ∪ gather conn_reserved (sy_conns y).

Lemma not_in_others y k x :
  x ∉ sy_held y ->
  (forall k' c, sy_conns y !! k' = Some c -> k' <> k -> x ∉ conn_held c) ->
  x ∉ others y k.
Proof.
  unfold others. intros Hf Ho [Hx|Hx]%elem_of_union; [done|].
  apply elem_of_gather in Hx as (k' & c & [Hne Hc]%lookup_delete_Some & Hx).
  by apply (Ho k' c).
Qed.

Lemma in_others y k k' c x :
  sy_conns y !! k' = Some c -> k' <> k -> x ∈ conn_held c -> x ∈ others y k.
Proof.
  intros Hc Hne Hx. unfold others. apply elem_of_union_r, elem_of_gather.
  exists k', c. by rewrite lookup_delete_ne.
Qed.

Lemma sys_conn_good y k c :
  sys_inv y -> sy_conns y !! k = Some c ->
  conn_good (others y k) (all_reserved y) (sy_reg y) (cn_id c) (cn_settled c) (cn_machine c).
Proof.
  intros Hy Hc. pose proof (sv_world _ Hy) as Hw.
  pose proof (sv_local _ Hy _ _ Hc) as [Hid Ha Hset Hwait].
  assert (others y k ∪ conn_held c = sy_held y ∪ gather conn_held (sy_conns y)) as Hsplit.
  { rewrite (gather_split _ _ _ _ Hc). unfold others. by rewrite (assoc_L (∪)). }
  assert (conn_held c ## others y k) as Hd.
  { intros x Hx. apply not_in_others.
    - destruct (sv_foreign _ Hy _ _ Hc) as [Hf _]. by intros ?%(Hf x).
    - intros k' c' Hc' Hne Hx'.
      destruct (sv_apart _ Hy _ _ _ _ Hc Hc' (not_eq_sym Hne)) as [Hap _]. by apply (Hap x). }
  split; try done.
  - change (held_by _ _ _) with (conn_held c). by rewrite Hsplit.
  - destruct (cn_settled c) eqn:Hs.
    + intros Hin. apply (Hd (cn_id c)); [|done]. unfold conn_held, held_by. rewrite Hs. set_solver.
    + intros Hin. eapply (reserved_not_held _ _ _ (cn_id c) Hw); [|rewrite <- Hsplit; set_solver].
      apply elem_of_union_r, elem_of_gather. exists k, c. split; [done|].
      unfold conn_reserved. rewrite Hs. set_solver.
  - intros Hs. destruct (Hset Hs) as [Hi [Hk Ho Hdis]]. split; [done|]. split; [done| |done].
    unfold conn_held, held_by in Hd. rewrite Hs in Hd. set_solver.
  - intros Hs. split; [by apply Hwait|]. apply elem_of_union_r, elem_of_gather.
    exists k, c. split; [done|]. unfold conn_reserved. rewrite Hs. set_solver.
Qed.

Lemma good_apart o sv r id settled s :
  conn_good o sv r id settled s -> held_by id settled s ## o.
Proof.
  intros [_ Hown _ _ Hset _]. destruct settled; cbn; [|set_solver].
  destruct (Hset eq_refl) as [_ [_ Ho _]]. set_solver.
Qed.

Lemma good_local o sv r c :
  conn_good o sv r (cn_id c) (cn_settled c) (cn_machine c) -> conn_local c.
Proof.
  intros [_ _ Hid Ha Hset Hwait]. split; try done.
  - intros Hs. destruct (Hset Hs) as [Hi [Hk Ho Hd]]. split; [done|].
    split; [done|set_solver|done].
  - intros Hs. by apply Hwait.
Qed.

(** A map after the entry of [k] went to [id]. *)
Definition moved (m m' : gmap Z Z) (k : Z) (id : IngressId) : Prop :=
  forall id' k', m' !! id' = Some k' <-> k' = k /\ id' = id \/ k' <> k /\ m !! id' = Some k'.

Lemma lists_moved m m' cs k c :
  lists m cs -> moved m m' k (cn_id c) -> lists m' (<[k := c]> cs).
Proof.
  intros Hl Hm id k'. rewrite (Hm id k'). rewrite (Hl id k'). split.
  - intros [[-> ->]|(Hne & c' & Hc' & Hid)].
    + exists c. by rewrite lookup_insert_eq.
    + exists c'. by rewrite lookup_insert_ne.
  - intros (c' & [[<- <-]|[Hne Hc']]%lookup_insert_Some & <-); [by left|right].
    split; [done|]. eauto.
Qed.

(** The new id of a connection is nobody else's. *)
Lemma put_id_new y k c r k' c' :
  sys_inv y ->
  conn_good (others y k) (sy_reserved y ∪ gather conn_reserved (<[k := c]> (sy_conns y))) r
    (cn_id c) (cn_settled c) (cn_machine c) ->
  (cn_settled c = false -> cn_settled c' = false -> cn_id c' <> cn_id c) ->
  sy_conns y !! k' = Some c' -> k' <> k -> cn_id c' <> cn_id c.
Proof.
  intros Hy Hg Hw Hc' Hne Heq. destruct (cn_settled c') eqn:Hs'.
  - apply (cg_own _ _ _ _ _ _ Hg). rewrite <- Heq. eapply in_others; [done..|].
    unfold conn_held, held_by. rewrite Hs'. set_solver.
  - destruct (cn_settled c) eqn:Hs; [|by apply Hw].
    eapply (reserved_not_held _ _ _ (cn_id c') (cg_world _ _ _ _ _ _ Hg)).
    + apply elem_of_union_r, elem_of_gather. exists k', c'.
      rewrite lookup_insert_ne by done. split; [done|]. unfold conn_reserved. rewrite Hs'. set_solver.
    + cbn. rewrite Heq. set_solver.
Qed.

Lemma sys_put y k c h :
  sys_inv y -> connection (cn_config c) = k ->
  conn_good (others y k) (sy_reserved y ∪ gather conn_reserved (<[k := c]> (sy_conns y)))
    (reg (h_world h)) (cn_id c) (cn_settled c) (cn_machine c) ->
  conn_reserved c ## sy_reserved y ->
  (forall k' c', sy_conns y !! k' = Some c' -> k' <> k ->
     cn_settled c = false -> cn_settled c' = false -> cn_id c' <> cn_id c) ->
  moved (h_states (sy_handler y)) (h_states h) k (cn_id c) ->
  moved (h_info (sy_handler y)) (h_info h) k (cn_id c) ->
  sys_inv (mk_system h (<[k := c]> (sy_conns y)) (sy_held y) (sy_reserved y)).
Proof.
  intros Hy Hk Hg Hres Hw Hms Hmi.
  pose proof (good_apart _ _ _ _ _ _ Hg) as Hap. change (held_by _ _ _) with (conn_held c) in Hap.
  assert (forall k' c', sy_conns y !! k' = Some c' -> k' <> k ->
    conn_held c ## conn_held c' /\ cn_id c' <> cn_id c) as Hother.
  { intros k' c' Hc' Hne. split; [|eapply put_id_new; eauto].
    intros x Hx Hx'. apply (Hap x Hx). by eapply in_others. }
  split; cbn [sy_conns sy_held sy_reserved sy_handler].
  - rewrite gather_insert, (assoc_L (∪)). apply (cg_world _ _ _ _ _ _ Hg).
  - intros k' c' [[<- <-]|[_ Hc']]%lookup_insert_Some; [done|by eapply sv_config].
  - intros k' c' [[<- <-]|[_ Hc']]%lookup_insert_Some; [by eapply good_local|by eapply sv_local].
  - intros k' c' [[<- <-]|[_ Hc']]%lookup_insert_Some; [|by eapply sv_foreign].
    split; [|done]. unfold others in Hap. set_solver.
  - intros k1 k2 c1 c2 [[<- <-]|[Hn1 H1]]%lookup_insert_Some [[<- <-]|[Hn2 H2]]%lookup_insert_Some Hne; [done|..].
    + destruct (Hother k2 c2 H2 (not_eq_sym Hne)). split; [done|congruence].
    + destruct (Hother k1 c1 H1 Hne). split; [by symmetry|congruence].
    + by eapply sv_apart.
  - eapply lists_moved; [apply (sv_states _ Hy)|done].
  - eapply lists_moved; [apply (sv_info _ Hy)|done].
Qed.

(** *** Its steps *)
Lemma moved_rekey m cs k c id' :
  lists m cs -> cs !! k = Some c ->
  (forall k' c', cs !! k' = Some c' -> k' <> k -> cn_id c' <> id') ->
  moved m (rekey (cn_id c) id' (Some k) m) k id'.
Proof.
  intros Hl Hc Hnew x k'. unfold rekey.
  assert (m !! cn_id c = Some k) as Hk by (apply Hl; eauto).
  case_decide as Hid.
  - subst id'. split; [|intros [[-> ->]|[_ ?]]; done].
    intros Hx. destruct (decide (k' = k)) as [->|]; [left|by right].
    split; [done|]. apply Hl in Hx as (c' & Hc' & <-). congruence.
  - rewrite lookup_insert_Some, lookup_delete_Some. split.
    + intros [[<- <-]|(H1 & H2 & H3)]; [by left|right]. split; [|done].
      intros ->. apply Hl in H3 as (c' & Hc' & <-). congruence.
    + intros [[-> ->]|[Hne Hx]]; [by left|right]. apply Hl in Hx as (c' & Hc' & <-).
      split; [intros Heq; by eapply Hnew|]. split; [|apply Hl; eauto].
      intros Heq. apply Hne. assert (m !! cn_id c = Some k') as Hk' by (apply Hl; eauto). congruence.
Qed.

Lemma turn_view y k c received (nx : Next (GateStatus := GateStatus)) :
  sys_inv y -> sy_conns y !! k = Some c -> serial (sy_reg y) < u32_max ->
  wp (turn (cn_config c) received (cn_id c) (cn_settled c) nx)
    (turned (cn_config c) (others y k) (all_reserved y) (cn_id c) (cn_settled c) (view y (Some (cn_machine c))))
    (view y (Some (cn_machine c))).
Proof. intros Hy Hc Hlt. eapply turn_turned; [done|by apply sys_conn_good|done]. Qed.

(** The reserved ids after a turn. *)
Lemma reserved_put y k c c' :
  sys_inv y -> sy_conns y !! k = Some c -> 
  (cn_settled c' = false -> cn_id c' = cn_id c /\ cn_settled c = false) ->
  (if cn_settled c' then all_reserved y ∖ {[cn_id c]} else all_reserved y)
  = sy_reserved y ∪ gather conn_reserved (<[k := c']> (sy_conns y)).
Proof.
  intros Hy Hc Hw. unfold all_reserved. rewrite gather_insert, (gather_split _ _ _ _ Hc).
  set (g := gather conn_reserved (delete k (sy_conns y))).
  assert (cn_id c ∉ sy_reserved y ∪ g) as Hn.
  { intros Hin. destruct (cn_settled c) eqn:Hs.
    - eapply (reserved_not_held _ _ _ (cn_id c) (sv_world _ Hy)).
      + rewrite (gather_split _ _ _ _ Hc). fold g. set_solver.
      + apply elem_of_union_r, elem_of_gather. exists k, c. split; [done|].
        unfold conn_held, held_by. rewrite Hs. set_solver.
    - apply elem_of_union in Hin as [Hin|Hin].
      + destruct (sv_foreign _ Hy _ _ Hc) as [_ Hf]. apply (Hf (cn_id c)); [|done].
        unfold conn_reserved. rewrite Hs. set_solver.
      + apply elem_of_gather in Hin as (k' & c2 & [Hne Hc2]%lookup_delete_Some & Hx).
        destruct (sv_apart _ Hy _ _ _ _ Hc Hc2 Hne) as [_ Hid]. unfold conn_reserved in Hx.
        destruct (cn_settled c2); set_solver. }
  unfold conn_reserved. destruct (cn_settled c') eqn:Hs'.
  - apply leibniz_equiv. intros x. destruct (cn_settled c); set_solver.
  - destruct (Hw eq_refl) as [-> ->]. done.
Qed.

Lemma sys_turn_inv y k c received (nx : Next (GateStatus := GateStatus)) id settled h s :
  sys_inv y -> sy_conns y !! k = Some c -> serial (sy_reg y) < u32_max ->
  turn (cn_config c) received (cn_id c) (cn_settled c) nx (view y (Some (cn_machine c)))
  = (Some (Go id settled), h) -> h_machine h = Some s ->
  sys_inv (mk_system h (<[k := mk_conn (cn_config c) id settled s]> (sy_conns y))
             (sy_held y) (sy_reserved y)).
Proof.
  intros Hy Hc Hlt Hrun Hm. pose proof (turn_view y k c received nx Hy Hc Hlt) as Ht.
  unfold wp in Ht. rewrite Hrun in Ht.
  destruct Ht as (s' & Hm' & Hg & Hid & Hst & Hin). assert (s' = s) as -> by congruence.
  pose proof (sv_config _ Hy _ _ Hc) as Hk. rewrite Hk in Hst. cbn in Hst, Hin.
  assert (h_info (sy_handler y) !! cn_id c = Some k) as Hinfo by (apply (sv_info _ Hy); eauto).
  rewrite Hinfo in Hin.
  set (c' := mk_conn (cn_config c) id settled s).
  change (if settled then _ else _)
    with (if cn_settled c' then all_reserved y ∖ {[cn_id c]} else all_reserved y) in Hg.
  rewrite (reserved_put y k c c') in Hg by done.
  change id with (cn_id c') in Hg at 1, Hst, Hin, Hid. change settled with (cn_settled c') in Hg, Hid.
  change s with (cn_machine c') in Hg.
  assert (forall k' c2, sy_conns y !! k' = Some c2 -> k' <> k ->
    cn_settled c' = false -> cn_settled c2 = false -> cn_id c2 <> cn_id c') as Hw.
  { intros k' c2 Hc2 Hne Hs _ Heq. destruct (Hid Hs) as [Hi _].
    destruct (sv_apart _ Hy _ _ _ _ Hc Hc2 (not_eq_sym Hne)). congruence. }
  assert (forall k' c2, sy_conns y !! k' = Some c2 -> k' <> k -> cn_id c2 <> cn_id c') as Hnew.
  { intros k' c2 Hc2 Hne. eapply put_id_new; eauto. }
  apply sys_put; [done|done|exact Hg| |done|..].
  - unfold conn_reserved. destruct (cn_settled c') eqn:Hs; [set_solver|].
    destruct (Hid eq_refl) as [-> Hs0]. destruct (sv_foreign _ Hy _ _ Hc) as [_ Hf].
    unfold conn_reserved in Hf. by rewrite Hs0 in Hf.
  - rewrite Hst. eapply moved_rekey; [apply (sv_states _ Hy)|done|done].
  - rewrite Hin. eapply moved_rekey; [apply (sv_info _ Hy)|done|done].
Qed.

(** The provisional entry of a new connection. *)
Lemma accept_spec c unit_id (h : Handler) o sv :
  world_inv (mk_world (reg (h_world h)) o sv) -> serial (reg (h_world h)) < u32_max ->
  wp (accept c unit_id) (fun id h' =>
    id = serial (reg (h_world h))
    /\ h_machine h' = Some (bmp_state_new id (format_source_id (router_id_template c) id))
    /\ world_inv (mk_world (reg (h_world h')) o ({[id]} ∪ sv))
    /\ h_states h' = <[id := connection c]> (h_states h)
    /\ h_info h' = <[id := connection c]> (h_info h)) h.
Proof.
  intros Hw Hlt. unfold accept, with_register. wp_steps. cbn [register]. wp_steps.
  split; [done|]. split; [done|]. split; [|done]. cbn.
  set (id := serial (reg (h_world h))). set (r1 := mk_register _ _).
  eapply (reg_step_inv (mk_world r1 o ({[id]} ∪ sv))).
  - eapply (step_provide _ _ _ id (provisional unit_id (router_addr c)) None);
      [set_solver|done| |by rewrite update_info_spec].
    intros i0 Hi0%(inv_stored _ Hw). cbn in Hi0. lia.
  - by apply world_inv_reserve.
Qed.

Lemma fresh_id w id :
  world_inv w -> id ∈ held w \/ id ∈ reserved w -> id <> serial (w_reg w).
Proof.
  intros Hw [(i & Hi & _)%(inv_held _ Hw)|[? _]%(inv_reserved _ Hw)] ->; [|lia].
  apply (inv_stored _ Hw) in Hi. lia.
Qed.

Lemma conn_id_kept y k c :
  sys_inv y -> sy_conns y !! k = Some c -> cn_id c <> serial (sy_reg y).
Proof.
  intros Hy Hc. apply (fresh_id _ _ (sv_world _ Hy)). cbn.
  destruct (cn_settled c) eqn:Hs; [left|right]; apply elem_of_union_r, elem_of_gather;
    exists k, c; (split; [done|]); unfold conn_held, held_by, conn_reserved; rewrite Hs; set_solver.
Qed.

Lemma moved_insert y m k id :
  sys_inv y -> lists m (sy_conns y) -> sy_conns y !! k = None -> id = serial (sy_reg y) ->
  moved m (<[id := k]> m) k id.
Proof.
  intros Hy Hl Hk -> x k'. rewrite lookup_insert_Some. split.
  - intros [[<- <-]|[Hne Hx]]; [by left|right]. split; [|done].
    apply Hl in Hx as (c' & Hc' & _). congruence.
  - intros [[-> ->]|[Hne Hx]]; [by left|right]. split; [|done].
    apply Hl in Hx as (c' & Hc' & <-). intros Heq. by eapply conn_id_kept.
Qed.

Lemma sys_accept_inv y c unit_id id h s :
  sys_inv y -> sy_conns y !! connection c = None -> serial (sy_reg y) < u32_max ->
  accept c unit_id (view y None) = (Some id, h) -> h_machine h = Some s ->
  sys_inv (mk_system h (<[connection c := mk_conn c id false s]> (sy_conns y))
             (sy_held y) (sy_reserved y)).
Proof.
  intros Hy Hk Hlt Hrun Hm. set (k := connection c) in *.
  pose proof (accept_spec c unit_id (view y None) _ _ (sv_world _ Hy) Hlt) as Ht.
  unfold wp in Ht. rewrite Hrun in Ht. destruct Ht as (Hid & Hm' & Hw & Hst & Hin).
  rewrite Hm in Hm'. injection Hm' as ->. change (reg (h_world (view y None))) with (sy_reg y) in Hid.
  pose proof (fresh_id _ id (sv_world _ Hy)) as Hfresh. cbn in Hfresh.
  set (c' := mk_conn c id false _).
  assert (others y k = sy_held y ∪ gather conn_held (sy_conns y)) as Ho
    by (unfold others; by rewrite delete_id).
  apply sys_put; [done|done| | |  |..].
  - rewrite gather_insert, delete_id, Ho by done. cbn [cn_id cn_settled cn_machine c'].
    split; try done; cbn.
    + rewrite (right_id_L ∅ (∪)). rewrite (assoc_L (∪)), (comm_L (∪) _ {[id]}). exact Hw.
    + intros Hin'. by apply Hfresh; [left|].
    + intros _. split; [done|set_solver].
  - cbn. intros x ->%elem_of_singleton Hx. apply Hfresh; [right; set_solver|done].
  - intros k' c2 Hc2 _ _ _. cbn [cn_id c']. rewrite Hid. by eapply conn_id_kept.
  - rewrite Hst. eapply moved_insert; [done|apply (sv_states _ Hy)|done|done].
  - rewrite Hin. eapply moved_insert; [done|apply (sv_info _ Hy)|done|done].
Qed.

Lemma lists_delete m cs k c :
  lists m cs -> cs !! k = Some c -> lists (delete (cn_id c) m) (delete k cs).
Proof.
  intros Hl Hc x k'. rewrite lookup_delete_Some, (Hl x k').
  assert (m !! cn_id c = Some k) as Hk by (apply Hl; eauto). split.
  - intros (Hne & c' & Hc' & <-). exists c'. split; [|done]. apply lookup_delete_Some.
    split; [|done]. intros ->. congruence.
  - intros (c' & [Hne Hc']%lookup_delete_Some & <-). split; [|eauto].
    intros Heq. assert (m !! cn_id c' = Some k') as Hk' by (apply Hl; eauto). congruence.
Qed.

Lemma sys_end_inv y k c received (nx : Next (GateStatus := GateStatus)) id h h' :
  sys_inv y -> sy_conns y !! k = Some c -> serial (sy_reg y) < u32_max ->
  turn (cn_config c) received (cn_id c) (cn_settled c) nx (view y (Some (cn_machine c)))
  = (Some (Stop id), h) -> finish id h = (Some tt, h') ->
  sys_inv (mk_system h' (delete k (sy_conns y)) (sy_held y) (sy_reserved y)).
Proof.
  intros Hy Hc Hlt Hrun Hfin. pose proof (turn_view y k c received nx Hy Hc Hlt) as Ht.
  unfold wp in Ht. rewrite Hrun in Ht. destruct Ht as [-> ->].
  pose proof (finish_finished (cn_id c) (cn_machine c) (view y (Some (cn_machine c))) eq_refl) as Hf.
  unfold wp in Hf. rewrite Hfin in Hf.
  pose proof (finished_inv _ _ _ _ _ _ _ (sys_conn_good _ _ _ Hy Hc) Hf) as Hw.
  destruct Hf as (_ & _ & Hst & Hin). cbn in Hst, Hin.
  split; cbn [sy_conns sy_held sy_reserved sy_handler].
  - replace (sy_reserved y ∪ gather conn_reserved (delete k (sy_conns y)))
      with (all_reserved y ∖ {[cn_id c]}); [exact Hw|].
    pose proof (reserved_put y k c (mk_conn (cn_config c) (cn_id c) true (cn_machine c)) Hy Hc) as Hr.
    cbn in Hr. rewrite Hr by done. rewrite gather_insert. cbn. by rewrite (right_id_L ∅ (∪)).
  - intros k' c' [_ Hc']%lookup_delete_Some. by eapply sv_config.
  - intros k' c' [_ Hc']%lookup_delete_Some. by eapply sv_local.
  - intros k' c' [_ Hc']%lookup_delete_Some. by eapply sv_foreign.
  - intros k1 k2 c1 c2 [_ H1]%lookup_delete_Some [_ H2]%lookup_delete_Some. by eapply sv_apart.
  - rewrite Hst. apply lists_delete; [apply (sv_states _ Hy)|done].
  - rewrite Hin. apply lists_delete; [apply (sv_info _ Hy)|done].
Qed.

Lemma gather_disjoint f cs X : gather f cs ## X <-> forall k c, cs !! k = Some c -> f c ## X.
Proof.
  split.
  - intros H k c Hc x Hx. apply (H x), elem_of_gather. eauto.
  - intros H x (k & c & Hc & Hx)%elem_of_gather. by apply (H k c Hc x).
Qed.

Lemma sys_other_inv y w' :
  sys_inv y -> reg_use (mk_world (sy_reg y) (sy_held y) (sy_reserved y)) w' ->
  sys_inv (mk_system
    (set_world (mk_bmp_world (w_reg w') (metrics (h_world (sy_handler y)))) (sy_handler y))
    (sy_conns y) (held w') (reserved w')).
Proof.
  intros Hy Hstep.
  destruct (reg_use_frame _ _ _ w' (gather conn_held (sy_conns y))
    (gather conn_reserved (sy_conns y)) (sv_world _ Hy)) as (Hs & HO & HP'); [| |done|].
  1: { apply gather_disjoint. intros k c Hc. by apply (sv_foreign _ Hy k c). }
  1: { apply gather_disjoint. intros k c Hc. by apply (sv_foreign _ Hy k c). }
  split; cbn [sy_conns sy_held sy_reserved sy_handler].
  - apply (reg_use_inv _ _ Hs), (sv_world _ Hy).
  - apply (sv_config _ Hy).
  - apply (sv_local _ Hy).
  - intros k c Hc. split; [by apply (proj1 (gather_disjoint _ _ _) HO k)|].
    by apply (proj1 (gather_disjoint _ _ _) HP' k).
  - apply (sv_apart _ Hy).
  - apply (sv_states _ Hy).
  - apply (sv_info _ Hy).
Qed.

Lemma sys_reachable_inv y : sys_reachable y -> sys_inv y.
Proof.
  induction 1 as [ctx|y y' _ IH Hs].
  - split; cbn; try done; try (by intros ? ? []).
    + intros id k. rewrite lookup_empty. split; [done|]. by intros (c & Hc & _).
    + intros id k. rewrite lookup_empty. split; [done|]. by intros (c & Hc & _).
  - destruct Hs as [y c u k id h s Hk <- Hlt Hrun Hm|y k cn rec nx id st h s Hk Hlt Hrun Hm
      |y k cn rec nx id h h' Hk Hlt Hrun Hf|y w' Hs].
    + by eapply sys_accept_inv.
    + by eapply sys_turn_inv.
    + by eapply sys_end_inv.
    + by apply sys_other_inv.
Qed.

End System.
