(* ===== verification/BmpConnProps.v ===== *)
(** * Properties of the connections of BMP routers

    The system of [BmpConn] keeps its connections apart and never panics; every
    connection ends, and what its end and a later return of the router leave in
    the register and the maps. *)

From S2P Require Import Prelude Net Register Payload BmpMsg BmpIo BmpMetrics BmpPeers BmpMachine BmpRouter BmpSafety BmpConn.
From Stdlib Require Import ZArith Lia.
From stdpp Require Import base numbers list gmap fin_maps strings.

Local Open Scope Z_scope.

#[local] Arguments mk_sd {T} _ _ _.
#[local] Arguments sd_ingress_id {T} _.
#[local] Arguments sd_router_id {T} _.
#[local] Arguments details {T} _.

(** ** How fast the ids are used up *)
Section Serial.
Context `{E : Extern} `{L : Layout} `{RC : !Routecore}.
Context `{HI : !HashIter Z IngressInfo}
        `{HP : !HashIter PphKey (PerPeerHeader * PeerState)}.

(** A register operation that hands out at most [n] ids. *)
Definition reg_grows (n : Z) (r r' : Register) : Prop :=
  0 <= serial r -> 0 <= serial r' <= serial r + n.

Definition grows {A} (n : Z) (m : Run World A) : Prop :=
  forall w a w', m w = (Some a, w') -> reg_grows n (reg w) (reg w').

Lemma reg_grows_refl n r : 0 <= n -> reg_grows n r r.
Proof. intros Hn Hr. lia. Qed.

Lemma reg_grows_trans n1 n2 r1 r2 r3 :
  reg_grows n1 r1 r2 -> reg_grows n2 r2 r3 -> reg_grows (n1 + n2) r1 r3.
Proof. unfold reg_grows. lia. Qed.

Lemma grows_weaken {A} n n' (m : Run World A) : grows n m -> n <= n' -> grows n' m.
Proof. intros Hm Hn w a w' Hr%Hm H%Hr. lia. Qed.

Lemma grows_ret {A} (a : A) : grows 0 (mret a).
Proof. intros w a' w' [= _ <-]. by apply reg_grows_refl. Qed.

Lemma grows_bind {A B} n1 n2 (m : Run World A) (k : A -> Run World B) :
  grows n1 m -> (forall a, grows n2 (k a)) -> grows (n1 + n2) (m ≫= k).
Proof.
  intros Hm Hk w b w'. unfold mbind, run_bind. destruct (m w) as [[a|] w1] eqn:E1; [|done].
  intros E2. eapply reg_grows_trans; [by eapply Hm|by eapply Hk].
Qed.

Lemma grows_0_bind {A B} n (m : Run World A) (k : A -> Run World B) :
  grows 0 m -> (forall a, grows n (k a)) -> grows n (m ≫= k).
Proof. apply (grows_bind 0 n). Qed.

Lemma grows_report id f : grows 0 (report id f).
Proof. intros w a w' [= _ <-]. by apply reg_grows_refl. Qed.

Lemma grows_for {A} (l : list A) id (f : A -> RouterBmpMetrics -> RouterBmpMetrics) :
  grows 0 (run_for l (fun x => report id (f x))).
Proof.
  induction l as [|x l IH]; cbn [run_for]; [apply grows_ret|].
  apply grows_0_bind; [apply grows_report|]. by intros _.
Qed.

Lemma grows_get : grows 0 run_get.
Proof. intros w a w' [= _ <-]. by apply reg_grows_refl. Qed.

Lemma grows_unwrap {A} (o : option A) : grows 0 (unwrap o).
Proof. destruct o; [apply grows_ret|done]. Qed.

Lemma grows_register {A} n (f : Register -> A * Register) :
  (forall r, reg_grows n r (snd (f r))) -> grows n (on_register f).
Proof.
  intros Hf w a w'. unfold on_register. specialize (Hf (reg w)).
  destruct (f (reg w)) as [a' r']. by intros [= _ <-].
Qed.

Lemma wrap_le n : 0 <= n -> 0 <= wrap 32 n <= n.
Proof. intros Hn. unfold wrap. split; [by apply Z.mod_pos_bound|by apply Z.mod_le]. Qed.

Lemma claim_serial m r : serial (snd (claim m r)) = serial r.
Proof. unfold claim. by destruct (find_entry _ _) as [[]|]. Qed.

Lemma claim_or_register_grows q r : reg_grows 1 r (snd (claim_or_register q r)).
Proof.
  unfold claim_or_register, find_existing_peer_and_claim, reg_grows.
  pose proof (claim_serial (fun i => peer_matches i q) r) as Hc.
  destruct (claim _ r) as [[[id i]|] r1]; cbn [snd] in *; cbn [register snd];
    rewrite serial_update; cbn [serial]; rewrite ?Hc; [lia|].
  intros Hr. rewrite <- Hc. apply wrap_le. lia.
Qed.

Lemma resolve_router_serial m own r : serial (snd (resolve_router m own r)) = serial r.
Proof.
  unfold resolve_router, find_existing_bmp_router_and_claim.
  pose proof (claim_serial (fun i => bmp_router_matches i (router_identity m (get own r))) r) as Hc.
  destruct (claim _ r) as [[[id i]|] r1]; cbn [snd] in *; [case_bool_decide; cbn|];
    by rewrite serial_update.
Qed.

Lemma disconnect_serial (l : list PeerState) r :
  serial (snd (disconnect_peers l r)) = serial r.
Proof.
  unfold disconnect_peers. cbn [snd]. revert r. induction l as [|s l IH]; intros r; cbn [foldl]; [done|].
  rewrite IH. apply serial_update.
Qed.

Lemma transition_grows prev s : grows 0 (mk_state_transition_result prev s).
Proof.
  apply grows_0_bind; [|intros; apply grows_ret].
  destruct (has_reporter s); [apply grows_report|apply grows_ret].
Qed.

End Serial.

Create HintDb grows.
#[export] Hint Resolve grows_ret grows_report grows_for grows_get grows_unwrap transition_grows : grows.

(** Steps that hand out no ids. *)
Ltac grows_steps := repeat (apply grows_0_bind; [solve [eauto with grows]|intros]); eauto with grows.

Section Grows.
Context `{E : Extern} `{L : Layout} `{RC : !Routecore}.
Context `{HI : !HashIter Z IngressInfo}
        `{HP : !HashIter PphKey (PerPeerHeader * PeerState)}.

Section Either.
Context {T : Type} {ST : StateOf T} {PA : PeerAware T}.

Lemma peer_up_grows m (v : BmpStateDetails T) : grows 1 (peer_up m v).
Proof.
  unfold peer_up. change 1 with (1 + 0). apply grows_bind.
  - apply grows_register. intros r. unfold add_peer_config.
    case_bool_decide; [by apply reg_grows_refl|].
    match goal with |- context [claim_or_register ?q r] =>
      pose proof (claim_or_register_grows q r) as Hg;
      destruct (claim_or_register q r) as [[id existing] r'] end.
    destruct (peers v !! _); exact Hg.
  - intros [[[] existing] ps]; cbn [negb]; grows_steps.
Qed.

Lemma peer_down_grows m (v : BmpStateDetails T) : grows 0 (peer_down m v).
Proof.
  unfold peer_down. destruct (remove_peer_identity_siblings _ _) as [[|p l] ps]; grows_steps.
  apply grows_0_bind; [|intros; apply grows_ret]. apply grows_register. intros r.
  unfold reg_grows. rewrite disconnect_serial. lia.
Qed.

Lemma terminate_grows (v : BmpStateDetails T) : grows 0 (terminate v).
Proof.
  apply grows_0_bind; [|intros []; grows_steps]. apply grows_register. intros r.
  unfold reg_grows, disconnect_into_register. rewrite disconnect_serial. lia.
Qed.

Lemma synthesize_grows src m err (v : BmpStateDetails T) : grows 1 (synthesize src m err v).
Proof.
  unfold synthesize. do 3 (apply grows_0_bind; [eauto with grows|intros]).
  change 1 with (1 + 0). apply grows_bind.
  - apply grows_register. intros r.
    match goal with |- context [claim_or_register ?q r] =>
      pose proof (claim_or_register_grows q r) as Hg;
      destruct (claim_or_register q r) as [[id existing] r'] end. exact Hg.
  - intros. apply grows_0_bind; [eauto with grows|]. intros []. apply grows_ret.
Qed.

Lemma resolve_config_grows m (v : BmpStateDetails T) : grows 1 (resolve_config m v).
Proof.
  assert (forall src err, grows 1
    (a ← synthesize src m err v;
     match a with
     | inl res => mret (inl res)
     | inr s' => c ← unwrap (get_peer_config (rm_pph m) (peers s')); mret (inr (s', c))
     end)) as Hs.
  { intros src err. change 1 with (1 + 0). apply grows_bind; [apply synthesize_grows|].
    intros [res|s']; grows_steps. }
  unfold resolve_config. repeat (case_match; [by first [apply Hs|eapply grows_weaken; [apply grows_ret|lia]]|]).
  eapply (grows_weaken 0); [grows_steps|lia].
Qed.

Lemma keep_config_grows m c retried (v : BmpStateDetails T) : grows 0 (keep_config m c retried v).
Proof. unfold keep_config. destruct retried; grows_steps. Qed.

Lemma forward_routes_grows received m c u (v : BmpStateDetails T) :
  grows 0 (forward_routes received m c u v).
Proof.
  unfold forward_routes. destruct (extract_routes _ _ _ _) as [[payloads rep]|]; [|grows_steps].
  destruct (announcements_vec u); [grows_steps|]. apply grows_0_bind; [|intros; grows_steps].
  unfold note_pending_eor. repeat case_match; grows_steps.
Qed.

Lemma route_monitoring_grows received m cb (v : BmpStateDetails T) :
  (forall v pph u, grows 0 (cb v pph u)) -> grows 1 (route_monitoring received m cb v).
Proof.
  intros Hcb. unfold route_monitoring. change 1 with (1 + 0).
  apply grows_bind; [apply resolve_config_grows|]. intros [res|[v1 c0]]; [grows_steps|].
  apply grows_0_bind; [eauto with grows|]. intros [u c retried|c e]; [|grows_steps].
  apply grows_0_bind; [apply keep_config_grows|]. intros v2.
  apply grows_0_bind; [apply Hcb|]. intros [res|v3]; [grows_steps|]. apply forward_routes_grows.
Qed.

End Either.

(** A message uses up at most one id. *)
Lemma process_msg_grows received m s : grows 1 (process_msg received m s).
Proof.
  unfold process_msg. change 1 with (1 + 0). apply grows_bind.
  - destruct s as [v|v|v|v|id r];
      [| | |eapply grows_weaken; [apply grows_ret|lia]|eapply grows_weaken; [apply grows_ret|lia]].
    + eapply (grows_weaken 0); [|lia]. destruct m; try apply grows_ret. cbn [initiating_process_msg].
      apply grows_0_bind.
      * apply grows_register. intros r. unfold reg_grows. rewrite resolve_router_serial. lia.
      * intros id. cbn [message_type next_state mk_other into_state initiating_state].
        apply grows_0_bind; [unfold initiating_to_dumping|intros]; grows_steps.
    + destruct m; cbn [dumping_process_msg];
        first [eapply grows_weaken; [apply grows_ret|lia]|eapply grows_weaken; [apply peer_down_grows|lia]
              |eapply grows_weaken; [apply terminate_grows|lia]|idtac].
      * change 1 with (1 + 0). apply grows_bind; [apply peer_up_grows|]. intros res.
        apply grows_0_bind; [|intros; grows_steps]. case_match; grows_steps.
      * apply route_monitoring_grows. intros v' pph u. unfold dumping_preprocessing.
        repeat case_match; grows_steps.
    + destruct m; cbn [updating_process_msg];
        first [eapply grows_weaken; [apply grows_ret|lia]|eapply grows_weaken; [apply peer_down_grows|lia]
              |eapply grows_weaken; [apply terminate_grows|lia]|apply peer_up_grows|idtac].
      apply route_monitoring_grows. intros v' pph u. unfold updating_preprocessing.
      repeat case_match; grows_steps.
  - intros res. unfold report_invalid. destruct (message_type res); grows_steps.
    destruct (has_reporter _); grows_steps.
Qed.

End Grows.

(** ** A connection ends *)
Section Ends.
Context `{E : Extern} `{L : Layout} `{RC : !Routecore} `{BP : !BmpParser} `{BR : !BmpRoto}.
Context `{HI : !HashIter Z IngressInfo}
        `{HP : !HashIter PphKey (PerPeerHeader * PeerState)}.
Context {GateStatus : Type}.

Definition h_reg (h : Handler) : Register := reg (h_world h).

Lemma handle_msg_grows c received id m (h : Handler) :
  wp (handle_msg c received id m) (fun _ h' => True) h ->
  wp (handle_msg c received id m) (fun _ h' => reg_grows 1 (h_reg h) (h_reg h')) h.
Proof.
  unfold handle_msg, machine, wp, mbind, run_bind. destruct (h_machine h) as [s|]; [|done].
  cbn. destruct (dropped c m); [intros _; apply reg_grows_refl; lia|].
  pose proof (run_filter_spec c id m (set_machine None h)) as Hf. unfold wp in Hf.
  destruct (run_filter c id m (set_machine None h)) as [[ok|] h1]; [|done].
  destruct Hf as [_ Hw]. cbn in Hw. unfold h_reg.
  destruct ok; cbn; [|intros _; rewrite Hw; apply reg_grows_refl; lia].
  unfold on_world. pose proof (process_msg_grows received m s (h_world h1)) as Hg.
  destruct (process_msg received m s (h_world h1)) as [[res|] w']; [|done].
  specialize (Hg _ _ eq_refl). rewrite Hw in Hg. unfold act_on.
  destruct (message_type res); cbn; intros _; exact Hg.
Qed.

Lemma settle_grows c id (h : Handler) :
  wp (settle c id) (fun _ h' => serial (h_reg h') = serial (h_reg h)) h.
Proof.
  unfold settle, with_register. wp_steps. destruct (h_machine h); [|by apply wp_ret].
  case_bool_decide; wp_steps; done.
Qed.

Lemma turn_grows c received id settled (nx : Next (GateStatus := GateStatus)) (h : Handler) t h' :
  turn c received id settled nx h = (Some t, h') -> reg_grows 1 (h_reg h) (h_reg h').
Proof.
  destruct nx as [k|[[[buf|] status] trace]]; cbn [turn].
  - unfold machine, mbind, run_bind. destruct (h_machine h); [|done].
    intros [= _ <-]. apply reg_grows_refl. lia.
  - destruct (from_octets buf) as [m|]; [|intros [= _ <-]; apply reg_grows_refl; lia].
    pose proof (handle_msg_grows c received id m h) as Hg. unfold wp in Hg.
    unfold mbind, run_bind. destruct (handle_msg c received id m h) as [[a|] h1]; [|done].
    specialize (Hg I). destruct a as [router|u].
    + by intros [= _ <-].
    + destruct settled; [by intros [= _ <-]|].
      pose proof (settle_grows c id h1) as Hs. unfold wp in Hs.
      destruct (settle c id h1) as [[[id' settled']|] h2]; [|done]. intros [= _ <-].
      intros Hr%Hg. lia.
  - intros [= _ <-]. apply reg_grows_refl. lia.
Qed.

(** Every read that the loop survives leaves less to read. *)
Lemma next_progress evs saved s mode :
  let '(nx, b) := next_loop (GateStatus := GateStatus) evs saved s mode in
  match nx with
  | inl k => is_fatal k = true \/ exists s', rx b = Some s' /\ (length s' < length s)%nat
  | inr (None, _, _) => True
  | inr (Some _, _, _) => exists s', rx b = Some s' /\ (length s' < length s)%nat
  end.
Proof.
  revert saved. induction evs as [|[st|] evs IH]; intros saved; cbn [next_loop]; [|apply IH|done].
  pose proof (bmp_read_shorter mode s) as Hb.
  destruct (bmp_read mode s) as [[k|[msg trace]] s']; cbn [fst snd rx] in *.
  - destruct (is_fatal k) eqn:Hk; [by left|right]. exists s'. split; [done|].
    destruct Hb as [?|[[= ->] _]]; [done|]. by cbn in Hk.
  - destruct Hb as [?|[? _]]; [|done]. eauto.
Qed.

Lemma turn_stops c received id settled (nx : Next (GateStatus := GateStatus)) (h : Handler) id' st h' :
  turn c received id settled nx h = (Some (Go id' st), h') ->
  match nx with inl k => is_fatal k = false | inr (x, _, _) => is_Some x end.
Proof.
  destruct nx as [k|[[[buf|] status] trace]]; cbn [turn]; [|by eexists|done].
  unfold machine, mbind, run_bind. destruct (h_machine h); [|done].
  by destruct (is_fatal k).
Qed.

(** The loop of a connection that may run alone for as long as it takes: it
    ends, without a panic. *)
Lemma read_loop_ends fuel c evs clock b s id settled o sv (h : Handler) m :
  rx b = Some s -> (length s < fuel)%nat ->
  h_machine h = Some m -> conn_good o sv (h_reg h) id settled m ->
  serial (h_reg h) + Z.of_nat fuel < u32_max ->
  wp (read_loop (GateStatus := GateStatus) fuel c evs clock b id settled)
    (fun a h' => exists id' settled' sv' m', a = Some id' /\ h_machine h' = Some m'
       /\ conn_good o sv' (h_reg h') id' settled' m') h.
Proof.
  revert b s id settled sv h m.
  induction fuel as [|fuel IH]; intros b s id settled sv h m Hb Hlen Hm Hg Hser; [lia|].
  cbn [read_loop]. unfold stream_next. rewrite Hb.
  pose proof (next_progress (evs fuel) None s (tracing_mode b)) as Hp.
  destruct (next_loop _ _ _ _) as [nx b']. wp_steps.
  pose proof (turn_turned c (clock fuel) id settled nx m o sv h Hm Hg ltac:(fold (h_reg h); lia)) as Ht.
  unfold wp in Ht |- * at 1. destruct (turn _ _ _ _ nx h) as [[[id' st|id']|] h1] eqn:Hrun; [..|done].
  - destruct Ht as (m' & Hm' & Hg' & _). pose proof (turn_grows _ _ _ _ _ _ _ _ Hrun) as Hgr.
    pose proof (inv_serial _ (cg_world _ _ _ _ _ _ Hg)) as Hs. cbn in Hs. fold (h_reg h) in Hs.
    apply turn_stops in Hrun.
    assert (exists s', rx b' = Some s' /\ (length s' < length s)%nat) as (s' & Hb' & Hl).
    { destruct nx as [k|[[[buf|] ?] ?]]; [|done|by destruct Hrun].
      destruct Hp as [Hf|?]; [congruence|done]. }
    eapply IH; [exact Hb'|lia|exact Hm'|exact Hg'|]. unfold reg_grows in Hgr. lia.
  - destruct Ht as [-> ->]. apply wp_ret. by exists id, settled, sv, m.
Qed.

End Ends.

(** ** Properties *)
Section Properties.
Context `{E : Extern} `{L : Layout} `{RC : !Routecore} `{BP : !BmpParser} `{BR : !BmpRoto}.
Context `{HI : !HashIter Z IngressInfo}
        `{HP : !HashIter PphKey (PerPeerHeader * PeerState)}.
Context {GateStatus : Type}.

(** The router's id and the ids of its peers. *)
Definition conn_ids (c : Conn) : gset Z := {[cn_id c]} ∪ peer_ids (peers_of (cn_machine c)).

Lemma waiting_ids c : conn_local c -> cn_settled c = false -> conn_ids c = {[cn_id c]}.
Proof.
  intros Hl Hs. unfold conn_ids. rewrite (initiating_peers _ (cl_waiting _ Hl Hs)), peer_ids_empty.
  apply (right_id_L ∅ (∪)).
Qed.

(** C6: connections are kept apart. However the turns, arrivals and ends of any
    number of connections interleave with each other and with the other users
    of the register, no two connections ever have a router id or a peer id in
    common, the ids a connection has settled on are [Connected] in the
    register, and both maps of the unit list exactly the live connections, each
    under the id it has then. The other users are those of [reg_use]: the
    sessions of other BMP units, which claim, write, disconnect and remove under
    ids of their own, the writes of [Connected] that a RIB makes under any id,
    the ids of these connections included, the entries without a parent that
    the BGP units and the other units write and remove under ids that [register]
    gave them, the peers that an MRT unit stores with a parent, and the GC. One
    arrival, turn or end of a connection is one step; ids are handed out as long
    as the 32-bit serial has not been used up. *)
Theorem connections_apart y :
  sys_reachable (GateStatus := GateStatus) y ->
  (forall k1 k2 c1 c2, sy_conns y !! k1 = Some c1 -> sy_conns y !! k2 = Some c2 -> k1 <> k2 ->
     conn_ids c1 ## conn_ids c2)
  /\ (forall k c id, sy_conns y !! k = Some c -> cn_settled c = true -> id ∈ conn_ids c ->
        exists i, get id (sy_reg y) = Some i /\ state i = Some Connected)
  /\ lists (h_states (sy_handler y)) (sy_conns y)
  /\ lists (h_info (sy_handler y)) (sy_conns y).
Proof.
  intros Hy%sys_reachable_inv.
  assert (forall k c, sy_conns y !! k = Some c -> cn_settled c = true -> conn_held c = conn_ids c) as Hset.
  { intros k c Hc Hs. unfold conn_held, held_by. by rewrite Hs. }
  assert (forall k1 k2 c1 c2, sy_conns y !! k1 = Some c1 -> sy_conns y !! k2 = Some c2 -> k1 <> k2 ->
    cn_settled c1 = false -> conn_ids c1 ## conn_ids c2) as Hwait.
  { intros k1 k2 c1 c2 H1 H2 Hne Hs1. rewrite (waiting_ids c1) by (done || by eapply sv_local).
    destruct (sv_apart _ Hy _ _ _ _ H1 H2 Hne) as [_ Hid].
    destruct (cn_settled c2) eqn:Hs2; [|rewrite (waiting_ids c2) by (done || by eapply sv_local); set_solver].
    intros x ->%elem_of_singleton Hx. eapply (reserved_not_held _ _ _ (cn_id c1) (sv_world _ Hy)).
    - apply elem_of_union_r, elem_of_gather. exists k1, c1. unfold conn_reserved. rewrite Hs1. set_solver.
    - apply elem_of_union_r, elem_of_gather. exists k2, c2. by rewrite (Hset k2). }
  split; [|split; [|by split; [apply (sv_states _ Hy)|apply (sv_info _ Hy)]]].
  - intros k1 k2 c1 c2 H1 H2 Hne. destruct (cn_settled c1) eqn:Hs1; [|by eapply Hwait].
    destruct (cn_settled c2) eqn:Hs2; [|symmetry; eapply Hwait; [..|exact Hs2]; eauto].
    rewrite <- (Hset k1 c1), <- (Hset k2 c2) by done. by eapply sv_apart.
  - intros k c id Hc Hs Hid. rewrite <- (Hset k) in Hid by done.
    apply (inv_held _ (sv_world _ Hy)), elem_of_union_r, elem_of_gather. eauto.
Qed.

(** No turn of any connection panics, whatever the read answers, and
    neither does the end of one: every unwrap of the handler finds its value. *)
Theorem no_turn_panics y k c received (nx : Next (GateStatus := GateStatus)) :
  sys_reachable (GateStatus := GateStatus) y -> sy_conns y !! k = Some c ->
  serial (sy_reg y) < u32_max ->
  exists t h,
    turn (cn_config c) received (cn_id c) (cn_settled c) nx (view y (Some (cn_machine c)))
    = (Some t, h)
    /\ match t with
       | Go id settled => exists s, h_machine h = Some s
       | Stop id => exists h', finish id h = (Some tt, h')
       end.
Proof.
  intros Hy%sys_reachable_inv Hc Hlt.
  destruct (wp_exists _ _ _ (turn_view y k c received nx Hy Hc Hlt)) as (t & h & Hrun & Ht).
  exists t, h. split; [done|]. destruct t as [id settled|id].
  - destruct Ht as (s & Hs & _). eauto.
  - destruct Ht as [-> ->].
    destruct (wp_exists _ _ _ (finish_finished (cn_id c) (cn_machine c)
      (view y (Some (cn_machine c))) eq_refl)) as ([] & h' & Hf & _). eauto.
Qed.

(** C15: the task of a connection ends. Whatever the router sends, however it
    breaks the stream off and whatever the gate reports in between, the loop
    takes at most one turn more than there are octets and errors to read, and
    the task then tears the connection down: it returns an id under which no
    map has an entry any more. *)
Theorem connection_terminates y k c s mode evs clock :
  sys_reachable (GateStatus := GateStatus) y -> sy_conns y !! k = Some c -> cn_settled c = false ->
  serial (sy_reg y) + zlen s + 1 < u32_max ->
  exists id h',
    connection_task (GateStatus := GateStatus) (S (length s)) (cn_config c) evs clock
      (mk_stream (Some s) mode) (cn_id c) (view y (Some (cn_machine c))) = (Some (Some id), h')
    /\ h_states h' !! id = None /\ h_info h' !! id = None.
Proof.
  intros Hy%sys_reachable_inv Hc Hs Hser. pose proof (sys_conn_good _ _ _ Hy Hc) as Hg. rewrite Hs in Hg.
  unfold connection_task, mbind at 1, run_bind at 1.
  pose proof (read_loop_ends (S (length s)) (cn_config c) evs clock (mk_stream (Some s) mode) s
    (cn_id c) false _ _ (view y (Some (cn_machine c))) (cn_machine c) eq_refl ltac:(lia) eq_refl Hg
    ltac:(unfold zlen, sy_reg, h_reg in *; cbn; lia)) as Hl.
  destruct (wp_exists _ _ _ Hl) as (a & h1 & -> & id & st & sv & m & -> & Hm & _).
  destruct (wp_exists _ _ _ (finish_finished id m h1 Hm)) as ([] & h2 & Hf & _ & _ & Hst & Hin).
  exists id, h2. unfold mbind, run_bind. rewrite Hf. rewrite Hst, Hin. rewrite !lookup_delete_eq. done.
Qed.

(** The end of a connection, exactly: the router's entry and those of all
    its peers become [Disconnected] and no other entry changes, downstream is
    told to withdraw precisely these peers and then that the stream of the
    router has ended, and the connection leaves both maps. *)
Theorem teardown_exact id s (h : Handler) :
  h_machine h = Some s ->
  let ids := (fun e => peer_ingress (snd e)) <$> entries (peers_of s) in
  exists h',
    finish id h = (Some tt, h')
    /\ (forall k, get k (h_reg h')
         = if bool_decide (k = id \/ k ∈ ids)
           then Some (merged k disconnected_info (h_reg h)) else get k (h_reg h))
    /\ h_out h'
       = h_out h ++ [WithdrawBulk ((fun k => (k, None)) <$> ids); EndOfStream id]
    /\ h_states h' = delete id (h_states h) /\ h_info h' = delete id (h_info h).
Proof.
  intros Hm ids. destruct (wp_exists _ _ _ (finish_finished id s h Hm)) as ([] & h' & Hf & Hr & Ho & Hmaps).
  exists h'. split; [done|]. split; [|done]. intros k. unfold h_reg. rewrite Hr, get_disconnect_into.
  assert (k ∈ peer_ids (peers_of s) <-> k ∈ ids) as Hids.
  { unfold ids. by rewrite <- entry_ids_set, elem_of_list_to_set. }
  unfold set_disconnected, merged at 1. fold disconnected_info. rewrite !get_update_info.
  destruct (decide (k = id)) as [->|Hne].
  - rewrite (bool_decide_true (id = id)), (bool_decide_true (id = id \/ _)) by auto.
    case_bool_decide; [|done]. f_equal. pose proof (merged_again id disconnected_info (reg (h_world h))) as Ha.
    unfold merged at 1 in Ha. by rewrite get_update_info, bool_decide_true in Ha by done.
  - rewrite !(bool_decide_false (k = id)) by done. apply if_decide_ext. tauto.
Qed.

(** *** A router that returns *)
Definition accepts_all : Prop :=
  match roto_bmp_in with
  | Some f => forall r m i ctx, fst (f r m i ctx) = true
  | None => True
  end.

Lemma run_filter_accepts c id m (h : Handler) :
  accepts_all ->
  wp (run_filter c id m) (fun ok h' => ok = true /\ same_maps h h' /\ h_world h' = h_world h
    /\ exists osms, h_out h' = h_out h ++ [OutputStream osms]) h.
Proof.
  unfold accepts_all, run_filter. intros Ha. wp_steps. destruct roto_bmp_in as [f|].
  - specialize (Ha (reg (h_world h)) m (filter_info c m) (h_ctx h)).
    destruct (f _ _ _ _) as [ok ctx]. cbn in Ha. subst ok.
    destruct (bmp_drain ctx) as [outs ctx']. wp_steps. repeat (split; [done|]). by eexists.
  - destruct (bmp_drain (h_ctx h)) as [outs ctx']. wp_steps. repeat (split; [done|]). by eexists.
Qed.

Lemma process_initiation received im v (w : World) :
  exists d w',
    process_msg received (InitiationMessage im) (SInitiating v) w
    = (Some (mk_result StateTransition (SDumping d)), w')
    /\ resolve_router im (sd_ingress_id v) (reg w) = (sd_ingress_id d, reg w').
Proof.
  unfold process_msg, mbind, run_bind, initiating_process_msg, on_register, mbind, run_bind.
  destruct (resolve_router im (sd_ingress_id v) (reg w)) as [id r'] eqn:Hr.
  cbn. eexists _, _. split; [reflexivity|]. done.
Qed.

(** An Initiation message passes the filter and resolves the router. *)
Lemma handle_initiation c received id im v (h : Handler) :
  h_machine h = Some (SInitiating v) -> accepts_all ->
  wp (handle_msg c received id (InitiationMessage im)) (fun a h' =>
    a = inr tt /\ same_maps h h'
    /\ (exists osms, h_out h' = h_out h ++ [OutputStream osms])
    /\ exists s', h_machine h' = Some s'
       /\ resolve_router im (sd_ingress_id v) (h_reg h) = (state_ingress_id s', h_reg h')) h.
Proof.
  intros Hm Hacc. unfold handle_msg, machine. apply wp_bind. unfold wp at 1. rewrite Hm.
  wp_steps. unfold dropped. rewrite andb_false_r. wp_steps.
  eapply wp_mono; [by apply run_filter_accepts|].
  intros ok h1 (-> & [Hst Hin] & Hw & osms & Hout). cbn in Hst, Hin, Hw, Hout. cbn [negb].
  wp_steps. apply wp_on_world. unfold wp at 1.
  destruct (process_initiation received im v (h_world h1)) as (d & w' & -> & Hd). rewrite Hw in Hd.
  unfold act_on. cbn [message_type next_state]. wp_steps.
  destruct (check_update_similar c id (SDumping d)) as (_ & Hid & _).
  split; [done|]. split; [done|]. split; [by exists osms|]. eexists. split; [done|].
  by rewrite Hid.
Qed.

(** The one entry that a claim can find. *)
Lemma claim_only m r id i :
  get id r = Some i -> state i <> Some Connected -> m i = true ->
  (forall k j, get k r = Some j -> k <> id -> state j = Some Connected \/ m j = false) ->
  claim m r = (Some (id, with_state Connected i),
               set_info (<[id := with_state Connected i]> (info r)) r).
Proof.
  unfold get. intros Hi Hs Hm Hu. destruct (claim m r) as [[[k j]|] r'] eqn:Hc.
  - apply claim_Some in Hc as (j0 & Hj & Hcon & Hmj & -> & ->).
    destruct (decide (k = id)) as [->|Hne]; [congruence|].
    apply is_connected_false in Hcon. destruct (Hu k j0 Hj Hne); congruence.
  - apply claim_None in Hc as [-> Hn]. destruct (Hn id i Hi) as [H|H]; [|congruence].
    unfold is_connected in H. apply bool_decide_eq_true in H. done.
Qed.

(** A router that returns gets its id back. When an Initiation message
    names a router that has an entry under the same unit and address which is
    not [Connected], the connection gives up its provisional id for it: the
    entry is [Connected] again and holds the new sysDescr, the provisional entry
    is gone and no other entry changes, the maps list the connection under the
    old id, and downstream is told that the router has reappeared. *)
Theorem reconnect_adopts c received buf status trace im u v id i (h : Handler) :
  let own := sd_ingress_id v in
  let q := router_identity im (Some (provisional u (router_addr c))) in
  h_machine h = Some (SInitiating v) -> accepts_all ->
  from_octets buf = Some (InitiationMessage im) ->
  get own (h_reg h) = Some (provisional u (router_addr c)) ->
  get id (h_reg h) = Some i -> id <> own -> state i <> Some Connected ->
  bmp_router_matches i q = true ->
  (forall k j, get k (h_reg h) = Some j -> k <> id ->
     state j = Some Connected \/ bmp_router_matches j q = false) ->
  exists h' osms,
    turn c received own false (inr (Some buf, status, trace) : Next (GateStatus := GateStatus)) h
    = (Some (Go id true), h')
    /\ get own (h_reg h') = None
    /\ get id (h_reg h') = Some (merge_info (with_state Connected i) q)
    /\ (forall k, k <> own -> k <> id -> get k (h_reg h') = get k (h_reg h))
    /\ h_states h' = <[id := connection c]> (delete own (h_states h))
    /\ h_info h' = rekey own id (h_info h !! own) (h_info h)
    /\ h_out h' = h_out h ++ [OutputStream osms; IngressReappeared id].
Proof.
  cbv zeta. intros Hm Hacc Hbuf Hown Hi Hne Hs Hmi Hu. cbn [turn]. rewrite Hbuf.
  set (own := sd_ingress_id v) in *. set (q := router_identity _ _) in *.
  set (r1 := set_info (<[id := with_state Connected i]> (info (h_reg h))) (h_reg h)).
  assert (resolve_router im own (h_reg h) = (id, snd (update_info id q r1))) as Hres.
  { unfold resolve_router. rewrite Hown. fold q.
    unfold find_existing_bmp_router_and_claim. rewrite (claim_only _ _ id i) by done.
    by rewrite bool_decide_false by done. }
  assert (forall k, get k (snd (update_info id q r1))
    = if bool_decide (k = id) then Some (merge_info (with_state Connected i) q) else get k (h_reg h)) as Hget.
  { intros k. rewrite get_update_info. unfold merged, get. cbn. rewrite lookup_insert_eq.
    case_bool_decide; [done|]. by rewrite lookup_insert_ne. }
  unfold mbind, run_bind.
  destruct (wp_exists _ _ _ (handle_initiation c received own im v h Hm Hacc))
    as ([] & h1 & -> & Ha & [Hst Hin] & [osms Hout] & s' & Hs' & Hd); [done|].
  fold own in Hd. rewrite Hres in Hd. injection Hd as Hid Hr.
  unfold settle, mbind, run_bind, run_get. rewrite Hs', <- Hid, bool_decide_true by done.
  eexists _, osms. split; [reflexivity|]. unfold h_reg. cbn [h_world set_world set_maps reg h_states h_info h_out].
  change (reg (h_world h1)) with (h_reg h1). rewrite <- Hr. unfold rekey. rewrite decide_False by done.
  assert (forall k, k <> own -> get k (snd (Register.remove own (snd (update_info id q r1))))
    = get k (snd (update_info id q r1))) as Hrem.
  { intros k Hk. unfold get. cbn. by rewrite lookup_delete_ne. }
  split; [unfold get; cbn; apply lookup_delete_eq|].
  split; [rewrite Hrem, Hget by done; by rewrite bool_decide_true|].
  split; [intros k H1 H2; rewrite Hrem, Hget by done; by rewrite bool_decide_false|].
  rewrite Hst, Hin, Hout. split; [done|]. split; [by destruct (h_info h !! own)|].
  by rewrite <- app_assoc.
Qed.

End Properties.

(** ** Two connections from one address *)
Module ConnDemo.

#[local] Existing Instance Demo.extern.
#[local] Existing Instance demo_layout.
#[local] Existing Instance DemoBmp.routecore.

(** Octet 5 is the message type; the sysName follows the header. *)
#[local] Instance parser : BmpParser := fun l =>
  match l !! 5%nat with
  | Some 4 => Some (InitiationMessage (mk_initiation l [mk_tlv TlvSysName (drop 6 l)]))
  | Some 5 => Some (TerminationMessage l)
  | _ => None
  end.

#[local] Instance roto : BmpRoto :=
  {| BmpCtx := unit; roto_bmp_in := None; bmp_drain _ := ([], tt) |}.

#[local] Instance order : HashIter Z IngressInfo := list_order _ _.
#[local] Instance peer_order : HashIter PphKey (PerPeerHeader * PeerState) := list_order _ _.

Definition config (k : Z) : Config := mk_config k (V4 3232235521) (str "{sys_name}") false.

Definition sys0 : System := sys_start tt.

Definition initiation (name : list Z) : Next (GateStatus := unit) :=
  inr (Some ([3; 0; 0; 0; 6 + zlen name; 4] ++ name), None, 0).

(** Two arrivals, then the first names itself. *)
Definition h1 : Handler := snd (accept (config 1) 7 (view sys0 None)).
Definition machine1 : BmpState := bmp_state_new 1 (format_source_id (str "{sys_name}") 1).
Definition sys1 : System :=
  mk_system h1 (<[1 := mk_conn (config 1) 1 false machine1]> (sy_conns sys0)) ∅ ∅.

Definition h2 : Handler := snd (accept (config 2) 7 (view sys1 None)).
Definition machine2 : BmpState := bmp_state_new 2 (format_source_id (str "{sys_name}") 2).
Definition sys2 : System :=
  mk_system h2 (<[2 := mk_conn (config 2) 2 false machine2]> (sy_conns sys1)) ∅ ∅.

Definition h3 : Handler :=
  snd (turn (config 1) 5 1 false (initiation [114]) (view sys2 (Some machine1))).
Definition machine3 : BmpState := default machine1 (h_machine h3).
Definition sys3 : System :=
  mk_system h3 (<[1 := mk_conn (config 1) 1 true machine3]> (sy_conns sys2)) ∅ ∅.

Lemma reach2 : sys_reachable (GateStatus := unit) sys2.
Proof.
  eapply sys_next; [eapply sys_next; [exact (sys_init tt)|]|].
  - by eapply (sys_accept sys0 (config 1) 7 1 1 h1 machine1).
  - by eapply (sys_accept sys1 (config 2) 7 2 2 h2 machine2).
Qed.

Lemma run_eq {S A} (m : Run S A) (w : S) a : fst (m w) = Some a -> m w = (Some a, snd (m w)).
Proof. intros <-. apply surjective_pairing. Qed.

Lemma machine3_eq : h_machine h3 = Some machine3.
Proof.
  unfold machine3. assert (bool_decide (is_Some (h_machine h3)) = true) as Hs by (by vm_compute).
  apply bool_decide_eq_true in Hs as [s ->]. done.
Qed.

Lemma turn3_eq :
  turn (config 1) 5 1 false (initiation [114]) (view sys2 (Some machine1)) = (Some (Go 1 true), h3).
Proof.
  refine (run_eq (turn (config 1) 5 1 false (initiation [114])) (view sys2 (Some machine1)) (Go 1 true) _).
  vm_compute. reflexivity.
Qed.

Lemma reach3 : sys_reachable (GateStatus := unit) sys3.
Proof.
  eapply sys_next; [exact reach2|].
  exact (sys_turn sys2 1 (mk_conn (config 1) 1 false machine1) 5 (initiation [114]) 1 true h3 machine3
    eq_refl eq_refl turn3_eq machine3_eq).
Qed.

(** A RIB then writes [Connected] under the id of the connection that has not
    named itself. *)
Definition marked : world :=
  mk_world (snd (update_info 2 (with_state Connected info_default) (sy_reg sys3))) ∅ ∅.
Definition sys4 : System :=
  mk_system (set_world (mk_bmp_world (w_reg marked) (metrics (h_world (sy_handler sys3)))) (sy_handler sys3))
    (sy_conns sys3) ∅ ∅.

Lemma reach4 : sys_reachable (GateStatus := unit) sys4.
Proof.
  eapply sys_next; [exact reach3|]. apply (sys_other sys3 marked).
  apply (use_mark (sy_reg sys3) ∅ ∅ 2 None); [|by rewrite update_info_spec].
  vm_compute. split; congruence.
Qed.

(** The stream of a router that names itself and breaks off in a message. *)
Definition stream : Stream :=
  Octet <$> [3; 0; 0; 0; 7; 4; 114] ++ [3; 0; 0].

End ConnDemo.

#[local] Existing Instance Demo.extern.
#[local] Existing Instance demo_layout.
#[local] Existing Instance DemoBmp.routecore.
#[local] Existing Instance ConnDemo.parser.
#[local] Existing Instance ConnDemo.roto.
#[local] Existing Instance ConnDemo.order.
#[local] Existing Instance ConnDemo.peer_order.

Lemma connections_apart_witness :
  sys_reachable (GateStatus := unit) ConnDemo.sys4
  /\ conn_ids (mk_conn (ConnDemo.config 1) 1 true ConnDemo.machine3)
     ## conn_ids (mk_conn (ConnDemo.config 2) 2 false ConnDemo.machine2)
  /\ h_states (sy_handler ConnDemo.sys4) !! 1 = Some 1
  /\ (exists i, get 1 (sy_reg ConnDemo.sys4) = Some i /\ state i = Some Connected).
Proof.
  split; [exact ConnDemo.reach4|].
  destruct (connections_apart (GateStatus := unit) ConnDemo.sys4 ConnDemo.reach4)
    as (Hap & Hcon & Hst & _). split; [|split].
  - by apply (Hap 1 2).
  - apply Hst. exists (mk_conn (ConnDemo.config 1) 1 true ConnDemo.machine3). done.
  - apply (Hcon 1 (mk_conn (ConnDemo.config 1) 1 true ConnDemo.machine3)); [done..|].
    unfold conn_ids. cbn [cn_id]. set_solver.
Defined.

Lemma no_turn_panics_witness :
  exists t h, turn (ConnDemo.config 2) 5 2 false (ConnDemo.initiation [115])
    (view ConnDemo.sys3 (Some ConnDemo.machine2)) = (Some t, h).
Proof.
  destruct (no_turn_panics ConnDemo.sys3 2 (mk_conn (ConnDemo.config 2) 2 false ConnDemo.machine2) 5
    (ConnDemo.initiation [115]) ConnDemo.reach3 eq_refl eq_refl) as (t & h & Hrun & _).
  exists t, h. exact Hrun.
Defined.

Lemma connection_terminates_witness :
  exists id h', connection_task (GateStatus := unit) 11 (ConnDemo.config 2) (fun _ => []) (fun _ => 5)
    (mk_stream (Some ConnDemo.stream) TracingOff) 2 (view ConnDemo.sys3 (Some ConnDemo.machine2))
    = (Some (Some id), h') /\ h_states h' !! id = None.
Proof.
  destruct (connection_terminates (GateStatus := unit) ConnDemo.sys3 2
    (mk_conn (ConnDemo.config 2) 2 false ConnDemo.machine2) ConnDemo.stream TracingOff
    (fun _ => []) (fun _ => 5) ConnDemo.reach3 eq_refl eq_refl eq_refl) as (id & h' & Hrun & Hs & _).
  exists id, h'. split; [exact Hrun|exact Hs].
Defined.

Lemma teardown_exact_witness :
  exists h', finish 1 (view ConnDemo.sys3 (Some ConnDemo.machine3)) = (Some tt, h')
    /\ h_states h' !! 1 = None.
Proof.
  destruct (teardown_exact 1 ConnDemo.machine3 (view ConnDemo.sys3 (Some ConnDemo.machine3)) eq_refl)
    as (h' & Hf & _ & _ & Hs & _).
  exists h'. split; [exact Hf|]. rewrite Hs. apply lookup_delete_eq.
Defined.

(** The first router's connection has ended, and a third one arrives. *)
Module Returned.

Definition ended : Handler := snd (finish 1 (view ConnDemo.sys3 (Some ConnDemo.machine3))).
Definition h4 : Handler := snd (accept (ConnDemo.config 3) 7 (set_machine None ended)).
Definition old : IngressInfo := default info_default (get 1 (h_reg h4)).
Definition own : IngressId := serial (h_reg ended).
Definition details4 : BmpStateDetails Initiating :=
  mk_sd own (format_source_id (str "{sys_name}") own) initiating_default.
Definition buf : list Z := [3; 0; 0; 0; 7; 4; 114].
Definition im : InitiationMsg := mk_initiation buf [mk_tlv TlvSysName [114]].

End Returned.

Lemma reconnect_adopts_witness :
  exists h', turn (ConnDemo.config 3) 5 Returned.own false
    (inr (Some Returned.buf, None, 0) : Next (GateStatus := unit)) Returned.h4 = (Some (Go 1 true), h')
  /\ Returned.own = 3 /\ h_states h' !! 1 = Some 3 /\ get Returned.own (h_reg h') = None.
Proof.
  destruct (reconnect_adopts (GateStatus := unit) (ConnDemo.config 3) 5 Returned.buf None 0 Returned.im 7
    Returned.details4 1 Returned.old Returned.h4) as (h' & osms & Hrun & Hown & _ & _ & Hs & _).
  - reflexivity.
  - exact I.
  - reflexivity.
  - vm_compute. reflexivity.
  - vm_compute. reflexivity.
  - vm_compute. discriminate.
  - vm_compute. discriminate.
  - vm_compute. reflexivity.
  - intros k j Hk Hne. unfold get in Hk.
    assert (forallb (fun e => bool_decide (fst e = 1)
      || negb (bmp_router_matches (snd e) (router_identity Returned.im
             (Some (provisional 7 (router_addr (ConnDemo.config 3)))))))
      (map_to_list (info (h_reg Returned.h4))) = true) as Hall by (vm_compute; reflexivity).
    rewrite forallb_forall in Hall. apply elem_of_map_to_list, list_elem_of_In, Hall in Hk.
    cbn [fst snd] in Hk. rewrite bool_decide_false in Hk by done. right. by apply negb_true_iff in Hk.
  - exists h'. split; [exact Hrun|]. split; [vm_compute; reflexivity|].
    split; [rewrite Hs; apply lookup_insert_eq|exact Hown].
Defined.
