(* ===== verification/Frim.v ===== *)
(** * The copy-on-write map ([src/common/frim.rs])

    [FrimMap] is a vector of pairs behind an atomic pointer; every change makes
    a new vector from the current one and swaps the pointer, so an operation is
    one step.  [frim_view] is the finite map a reader sees; the lemmas give
    each operation on it. *)

From S2P Require Import Prelude.
From Stdlib Require Import ZArith Lia.
From stdpp Require Import base numbers list gmap fin_maps.

Local Open Scope Z_scope.

Section Frim.
Context {K V : Type} `{Countable K}.

(** [SmallVec<[(K, V); 8]>] behind an [ArcSwap]. *)
Definition FrimMap : Type := list (K * V).

Definition frim_default : list (K * V) := [].

Definition frim_len (m : list (K * V)) : nat := length m.

Definition frim_is_empty (m : list (K * V)) : bool :=
  match m with [] => true | _ => false end.

Definition frim_get (m : list (K * V)) (key : K) : option V :=
  snd <$> head (filter (fun kv => kv.1 = key) m).

Definition frim_contains_key (m : list (K * V)) (key : K) : bool :=
  bool_decide (is_Some (frim_get m key)).

(** The pairs with another key, then the new pair. *)
Definition frim_insert (key : K) (value : V) (m : list (K * V)) : list (K * V) :=
  filter (fun kv => kv.1 <> key) m ++ [(key, value)].

Definition frim_retain (f : K -> V -> bool) (m : list (K * V)) : list (K * V) :=
  filter (fun kv => f kv.1 kv.2 = true) m.

Definition frim_replace (new m : list (K * V)) : list (K * V) := new.

(** The first pair with the key is taken out; its value is the answer. *)
Fixpoint frim_remove (key : K) (m : list (K * V)) : option V * list (K * V) :=
  match m with
  | [] => (None, [])
  | (k, v) :: m' =>
      if bool_decide (k = key) then (Some v, m')
      else let '(found, m'') := frim_remove key m' in (found, (k, v) :: m'')
  end.

(** [entry(key).or_insert_with(default)], with no other operation in between: the code
    looks the key up and, when it is vacant, inserts it in a second operation, so that of two
    threads that find the same key vacant the later one replaces the value of the other. *)
Definition frim_or_insert_with (key : K) (default : V) (m : list (K * V)) : V * list (K * V) :=
  match frim_get m key with
  | Some v => (v, m)
  | None => (default, frim_insert key default m)
  end.

(** ** The map a reader sees *)

Definition frim_view (m : list (K * V)) : gmap K V := list_to_map m.

(** No key occurs twice. *)
Definition frim_wf (m : list (K * V)) : Prop := NoDup m.*1.

Lemma frim_wf_default : frim_wf frim_default.
Proof. constructor. Qed.

Lemma frim_get_view m key : frim_get m key = frim_view m !! key.
Proof.
  unfold frim_get, frim_view. induction m as [|[k v] m IH]; [done|].
  rewrite filter_cons; cbn [fst list_to_map foldr]. case_decide as E; cbn.
  - subst. by rewrite lookup_insert_eq.
  - by rewrite lookup_insert_ne.
Qed.

Lemma frim_wf_filter P `{!forall kv : K * V, Decision (P kv)} m :
  frim_wf m -> frim_wf (filter P m).
Proof. apply NoDup_fmap_filter. Qed.

Lemma frim_view_filter P `{!forall kv : K * V, Decision (P kv)} m :
  frim_wf m -> frim_view (filter P m) = filter P (frim_view m).
Proof.
  intros Hwf. apply map_eq; intros k. apply option_eq; intros v.
  rewrite map_lookup_filter_Some. unfold frim_view.
  rewrite <- !elem_of_list_to_map by (try apply frim_wf_filter; done).
  rewrite list_elem_of_filter. tauto.
Qed.

Lemma frim_wf_insert key value m : frim_wf m -> frim_wf (frim_insert key value m).
Proof.
  intros Hwf. unfold frim_wf, frim_insert. rewrite fmap_app.
  apply NoDup_app. split_and!.
  - by apply frim_wf_filter.
  - intros k [[k' v] [-> [Hne _]%list_elem_of_filter]]%list_elem_of_fmap.
    cbn in *. rewrite list_elem_of_singleton. congruence.
  - apply NoDup_singleton.
Qed.

Lemma frim_view_insert key value m :
  frim_wf m -> frim_view (frim_insert key value m) = <[key := value]> (frim_view m).
Proof.
  intros Hwf. apply map_eq; intros k. apply option_eq; intros v.
  unfold frim_view at 1. rewrite <- elem_of_list_to_map by (by apply frim_wf_insert).
  unfold frim_insert.
  rewrite elem_of_app, list_elem_of_filter, list_elem_of_singleton; cbn.
  unfold frim_view. rewrite lookup_insert_Some, <- elem_of_list_to_map by done.
  split; [intros [[? ?]|?]|intros [[? ?]|[? ?]]]; simplify_eq; auto.
Qed.

Lemma frim_filter_notin key (m : list (K * V)) :
  key ∉ m.*1 -> filter (fun kv => kv.1 <> key) m = m.
Proof.
  induction m as [|[k v] m IH]; [done|]. intros [Hne Hni]%not_elem_of_cons.
  rewrite filter_cons, decide_True by done. by rewrite IH.
Qed.

(** Without duplicate keys a removal is a filter. *)
Lemma frim_remove_filter key m :
  frim_wf m ->
  frim_remove key m = (frim_get m key, filter (fun kv => kv.1 <> key) m).
Proof.
  unfold frim_get. induction m as [|[k v] m IH]; [done|].
  intros [Hni Hnd]%NoDup_cons. cbn [frim_remove].
  rewrite !filter_cons. cbn [fst]. destruct (decide (k = key)) as [->|Hne].
  - rewrite bool_decide_eq_true_2 by done. rewrite decide_False by auto.
    cbn. by rewrite frim_filter_notin.
  - rewrite bool_decide_eq_false_2 by done. rewrite decide_True by done.
    by rewrite IH.
Qed.

Lemma frim_wf_remove key m : frim_wf m -> frim_wf (frim_remove key m).2.
Proof. intros Hwf. rewrite frim_remove_filter by done. by apply frim_wf_filter. Qed.

Lemma frim_view_remove key m :
  frim_wf m -> frim_view (frim_remove key m).2 = delete key (frim_view m).
Proof.
  intros Hwf. rewrite frim_remove_filter by done; cbn [snd].
  rewrite frim_view_filter by done. apply map_eq; intros k. apply option_eq; intros v.
  rewrite map_lookup_filter_Some, lookup_delete_Some; cbn. naive_solver.
Qed.

Lemma frim_remove_found key m :
  frim_wf m -> (frim_remove key m).1 = frim_view m !! key.
Proof. intros. rewrite frim_remove_filter by done. apply frim_get_view. Qed.

Lemma frim_len_view m : frim_wf m -> frim_len m = size (frim_view m).
Proof. intros. unfold frim_view. by rewrite map_size_list_to_map. Qed.

Lemma frim_elem m k v : frim_wf m -> (k, v) ∈ m <-> frim_view m !! k = Some v.
Proof. intros. unfold frim_view. by rewrite elem_of_list_to_map. Qed.

Lemma frim_wf_retain f m : frim_wf m -> frim_wf (frim_retain f m).
Proof. apply frim_wf_filter. Qed.

Lemma frim_view_retain f m :
  frim_wf m ->
  frim_view (frim_retain f m) = filter (fun kv => f kv.1 kv.2 = true) (frim_view m).
Proof. apply frim_view_filter. Qed.


(** [or_insert_with] answers what the key maps to afterwards, and leaves the
    other keys alone. *)
Lemma frim_or_insert_with_spec key dflt m :
  frim_wf m ->
  let r := frim_or_insert_with key dflt m in
  frim_wf r.2 /\ r.1 = default dflt (frim_view m !! key)
  /\ frim_view r.2 = <[key := r.1]> (frim_view m).
Proof.
  intros Hwf r. subst r. unfold frim_or_insert_with. rewrite frim_get_view.
  destruct (frim_view m !! key) as [v|] eqn:E; cbn.
  - split_and!; [done|done|by rewrite insert_id].
  - auto using frim_wf_insert, frim_view_insert.
Qed.

(** ** Any sequence of operations *)

Inductive FrimOp : Type :=
| OpInsert (key : K) (value : V)
| OpRemove (key : K)
| OpRetain (f : K -> V -> bool)
| OpOrInsert (key : K) (default : V)
| OpReplace (new : list (K * V)).

(** On the vector; the answer of the operation, if it has one. *)
Definition frim_op (o : FrimOp) (m : list (K * V)) : option V * list (K * V) :=
  match o with
  | OpInsert k v => (None, frim_insert k v m)
  | OpRemove k => frim_remove k m
  | OpRetain f => (None, frim_retain f m)
  | OpOrInsert k d => let '(v, m') := frim_or_insert_with k d m in (Some v, m')
  | OpReplace new => (None, frim_replace new m)
  end.

(** On a finite map. *)
Definition map_op (o : FrimOp) (m : gmap K V) : option V * gmap K V :=
  match o with
  | OpInsert k v => (None, <[k := v]> m)
  | OpRemove k => (m !! k, delete k m)
  | OpRetain f => (None, filter (fun kv => f kv.1 kv.2 = true) m)
  | OpOrInsert k d => let v := default d (m !! k) in (Some v, <[k := v]> m)
  | OpReplace new => (None, frim_view new)
  end.

Fixpoint run_ops {M : Type} (op : FrimOp -> M -> option V * M) (os : list FrimOp) (m : M)
    : list (option V) * M :=
  match os with
  | [] => ([], m)
  | o :: os' =>
      let '(r, m1) := op o m in
      let '(rs, m2) := run_ops op os' m1 in
      (r :: rs, m2)
  end.

(** A map given to [replace] is itself a [FrimMap]. *)
Definition op_wf (o : FrimOp) : Prop :=
  match o with OpReplace new => frim_wf new | _ => True end.

Lemma frim_op_map o m :
  frim_wf m -> op_wf o ->
  frim_wf (frim_op o m).2
  /\ map_op o (frim_view m) = ((frim_op o m).1, frim_view (frim_op o m).2).
Proof.
  intros Hm Ho. destruct o as [k v|k|f|k d|new]; cbn [frim_op map_op].
  - split; [by apply frim_wf_insert|]. cbn. by rewrite frim_view_insert.
  - split; [by apply frim_wf_remove|]. by rewrite frim_remove_found, frim_view_remove.
  - split; [by apply frim_wf_retain|]. cbn. by rewrite frim_view_retain.
  - pose proof (frim_or_insert_with_spec k d m Hm) as Hs.
    destruct (frim_or_insert_with k d m) as [v m']. cbn in Hs. destruct Hs as (Hw & -> & Hv).
    split; [done|]. cbn. by rewrite Hv.
  - by split.
Qed.

(** C37: the vector behind a [FrimMap] is a finite map: from the empty map, after any
    sequence of insertions, removals, retains, entry insertions and replacements no key
    is in it twice, the operations have answered what they answer on a finite map, and
    [get], [contains_key] and [len] see exactly that map. *)
Theorem frim_is_map os :
  Forall op_wf os ->
  let '(rs, m) := run_ops frim_op os frim_default in
  let '(rs', g) := run_ops map_op os ∅ in
  frim_wf m /\ rs = rs' /\ frim_len m = size g
  /\ forall k, frim_get m k = g !! k /\ frim_contains_key m k = bool_decide (is_Some (g !! k)).
Proof.
  intros Hos.
  enough (forall m, frim_wf m ->
    let '(rs, m') := run_ops frim_op os m in
    frim_wf m' /\ run_ops map_op os (frim_view m) = (rs, frim_view m')) as Hall.
  { specialize (Hall frim_default frim_wf_default).
    change (frim_view frim_default) with (∅ : gmap K V) in Hall.
    destruct (run_ops frim_op os frim_default) as [rs m]. destruct Hall as [Hm ->].
    split_and!; [done|done|by apply frim_len_view|]. intros k. unfold frim_contains_key.
    by rewrite frim_get_view. }
  induction Hos as [|o os Ho _ IH]; intros m Hm; cbn [run_ops]; [done|].
  destruct (frim_op_map o m Hm Ho) as [Hm1 Hv].
  destruct (frim_op o m) as [r m1]. cbn [fst snd] in Hm1, Hv. specialize (IH m1 Hm1).
  destruct (run_ops frim_op os m1) as [rs m2]. destruct IH as [? IH]. split; [done|].
  rewrite Hv. cbv beta iota. by rewrite IH.
Qed.

End Frim.

Arguments FrimMap : clear implicits.

#[export] Hint Resolve frim_wf_default frim_wf_insert frim_wf_remove frim_wf_retain : rotonda.

Arguments frim_insert {K V _} key value m : simpl never.
Arguments frim_remove {K V _} key m : simpl never.
Arguments frim_retain {K V} f m : simpl never.
Arguments frim_view {K V _ _} m : simpl never.
Arguments frim_get {K V _} m key : simpl never.

Lemma frim_is_map_witness :
  exists m : list (Z * Z),
    run_ops frim_op [OpInsert 1 10; OpInsert 2 20; OpInsert 1 11; OpRemove 2] frim_default
      = ([None; None; None; Some 20], m)
    /\ frim_get m 1 = Some 11 /\ frim_len m = 1%nat.
Proof.
  pose proof (frim_is_map (K := Z) (V := Z)
    [OpInsert 1 10; OpInsert 2 20; OpInsert 1 11; OpRemove 2] ltac:(repeat constructor)) as H.
  destruct (run_ops frim_op _ _) as [rs m] eqn:E1. destruct (run_ops map_op _ _) as [rs' g] eqn:E2.
  destruct H as (_ & -> & Hl & Hg). exists m. rewrite (proj1 (Hg 1)), Hl.
  revert E2. vm_compute. by intros [= <- <-].
Defined.
