(* ===== verification/Gate.v ===== *)
(** * Gates and their commands ([src/comms.rs])

    A gate is the outgoing side of a unit.  A unit may clone its gate to send
    updates from several tasks: the clones share the update senders, the
    suspended senders and the metrics with the root gate, and each has a command
    channel of its own which the root feeds.  [World] is that shared state with
    the channels; [GateState] is a handle, root or clone.

    [turn] is one command of [process], [process] its loop; [None] is a panic.
    A point where the code waits is a value: [Pending], or [None] of [send]. *)

From S2P Require Import Prelude Net Payload Frim.
From Stdlib Require Import ZArith Lia.
From stdpp Require Import base numbers list gmap fin_maps.

Local Open Scope Z_scope.

Definition Uuid : Type := Z.
Definition ChanId : Type := Z.
Definition RespId : Type := Z.
Definition TargetId : Type := Z.

Definition DEF_UPDATE_QUEUE_LEN : nat := 8.
Definition COMMAND_QUEUE_LEN : nat := 16.

(** ** Channels of tokio: [mpsc::channel] with a capacity *)

Record Chan (A : Type) : Type := mk_chan {
  ch_queue : list A;
  ch_cap : nat;
  ch_rx : bool        (* the receiver lives *)
}.
Arguments mk_chan {A}. Arguments ch_queue {A}. Arguments ch_cap {A}. Arguments ch_rx {A}.

Inductive TrySend (A : Type) : Type := Sent (c : Chan A) | Full | Closed.
Arguments Sent {A}. Arguments Full {A}. Arguments Closed {A}.

Definition new_chan {A} (cap : nat) : Chan A := mk_chan [] cap true.

(** What a lookup of a channel that does not exist gives. *)
Definition no_chan {A} : Chan A := mk_chan [] 0 false.

(** [mpsc::channel(n)] panics without room, and above the most permits a
    semaphore has ([usize::MAX >> 3]). *)
Definition capacity_ok (n : nat) : bool :=
  (0 <? Z.of_nat n) && (Z.of_nat n <=? 2 ^ 61 - 1).

Definition push {A} (a : A) (c : Chan A) : Chan A :=
  mk_chan (ch_queue c ++ [a]) (ch_cap c) (ch_rx c).

Definition pop {A} (c : Chan A) : Chan A :=
  mk_chan (tail (ch_queue c)) (ch_cap c) (ch_rx c).

(** Dropping the receiver drops what is queued. *)
Definition hang_up {A} (c : Chan A) : Chan A := mk_chan [] (ch_cap c) false.

Definition try_send {A} (a : A) (c : Chan A) : TrySend A :=
  if negb (ch_rx c) then Closed
  else if bool_decide (length (ch_queue c) < ch_cap c)%nat then Sent (push a c)
  else Full.

(** [send(a).await]: the answer and the channel, or [None] while it waits. *)
Definition send {A} (a : A) (c : Chan A) : option (bool * Chan A) :=
  match try_send a c with
  | Sent c' => Some (true, c')
  | Closed => Some (false, c)
  | Full => None
  end.

(** A unit's configuration, the report of its links (filled in elsewhere) and
    the data of a trigger are passed on as they are. *)
Class GateTypes := {
  Unit : Type;
  UpstreamLinkReport : Type;
  TriggerData : Type
}.

(** ** Data *)

Inductive UnitStatus : Type := Healthy | Stalled | Gone.

#[export] Instance UnitStatus_eq_dec : EqDecision UnitStatus.
Proof. solve_decision. Defined.

(** [queue] names an update channel, [direct] the target behind the weak
    reference. *)
Record UpdateSender : Type := mk_sender {
  us_queue : option Uuid;
  us_direct : option TargetId
}.

#[export] Instance UpdateSender_eq_dec : EqDecision UpdateSender.
Proof. solve_decision. Defined.

Record SubscribeResponse : Type := mk_response {
  sub_slot : Uuid;
  sub_receiver : option Uuid
}.

(** A oneshot channel: waiting, answered, or its receiver dropped. *)
Inductive Oneshot : Type :=
| Waiting
| Answered (r : SubscribeResponse)
| Abandoned.

Record GateMetrics : Type := mk_gmetrics {
  update_set_size : Z;
  last_update : option Z;
  num_updates : Z;
  num_dropped_updates : Z
}.

Definition gmetrics_default : GateMetrics := mk_gmetrics 0 None 0 0.

(** A handle: [Normal command_sender] for the root, [Clone clone_id commands
    parent_command_sender] for a clone.  The root's own receiver and its
    [clone_senders] are in [World]. *)
Inductive GateState : Type :=
| Normal (command_sender : ChanId)
| Clone (clone_id : Uuid) (commands : ChanId) (parent_command_sender : ChanId).

Definition is_clone (g : GateState) : bool :=
  match g with Normal _ => false | Clone _ _ _ => true end.

Section Commands.
Context {GT : GateTypes}.

(** The parts of a new gate that [take] moves out of it. *)
Record NewGate : Type := mk_new_gate {
  ng_id : Uuid;
  ng_commands : ChanId;
  ng_updates : FrimMap Uuid UpdateSender
}.

Inductive GateCommand : Type :=
| ReportLinks (report : UpstreamLinkReport)
| Suspension (slot : Uuid) (suspend : bool)
| Subscribe (suspended : bool) (response : RespId) (direct_update : option TargetId)
| Unsubscribe (slot : Uuid)
| FollowSubscribe (slot : Uuid) (update_sender : UpdateSender)
| FollowUnsubscribe (slot : Uuid)
| Reconfigure (new_config : Unit) (new_gate : NewGate)
| FollowReconfigure (new_config : Unit)
| Trigger (data : TriggerData)
| Terminate
| AttachClone (clone_id : Uuid) (tx : ChanId)
| DetachClone (clone_id : Uuid).

(** [GateCommand::clone]; [None] is its panic. *)
Definition clone_command (cmd : GateCommand) : option GateCommand :=
  match cmd with
  | FollowSubscribe _ _ | FollowUnsubscribe _ | FollowReconfigure _
  | Terminate | ReportLinks _ => Some cmd
  | _ => None
  end.

Inductive GateStatus : Type :=
| Active
| Dormant
| Reconfiguring (new_config : Unit)
| ReportingLinks (report : UpstreamLinkReport)
| Triggered (data : TriggerData).

(** [PartialEq] of [GateStatus] compares the variants only. *)
Definition discriminant (s : GateStatus) : Z :=
  match s with
  | Active => 0 | Dormant => 1 | Reconfiguring _ => 2 | ReportingLinks _ => 3
  | Triggered _ => 4
  end.

Definition status_eq (a b : GateStatus) : bool := discriminant a =? discriminant b.

(** [Result<GateStatus, Terminated>], and a future that is not ready. *)
Inductive Outcome : Type :=
| Status (s : GateStatus)
| Terminated
| Pending.

End Commands.

Section Gate.
Context `{E : Extern} `{L : Layout} {GT : GateTypes}.

Record World : Type := mk_world {
  gate_id : Uuid;
  updates : FrimMap Uuid UpdateSender;
  suspended : FrimMap Uuid UpdateSender;
  queue_size : nat;
  gate_metrics : GateMetrics;
  commands : ChanId;                            (* of the root *)
  clone_senders : FrimMap Uuid ChanId;
  chans : gmap ChanId (Chan GateCommand);
  queues : gmap Uuid (Chan (Update + UnitStatus));
  responses : gmap RespId Oneshot;
  live_targets : gset TargetId;                 (* targets with a strong reference *)
  delivered : list (TargetId * Update)          (* calls of [direct_update] *)
}.

Definition set_updates f w := mk_world (gate_id w) (f (updates w)) (suspended w)
  (queue_size w) (gate_metrics w) (commands w) (clone_senders w) (chans w)
  (queues w) (responses w) (live_targets w) (delivered w).
Definition set_suspended f w := mk_world (gate_id w) (updates w) (f (suspended w))
  (queue_size w) (gate_metrics w) (commands w) (clone_senders w) (chans w)
  (queues w) (responses w) (live_targets w) (delivered w).
Definition set_metrics f w := mk_world (gate_id w) (updates w) (suspended w)
  (queue_size w) (f (gate_metrics w)) (commands w) (clone_senders w) (chans w)
  (queues w) (responses w) (live_targets w) (delivered w).
Definition set_root i c w := mk_world i (updates w) (suspended w)
  (queue_size w) (gate_metrics w) c (clone_senders w) (chans w)
  (queues w) (responses w) (live_targets w) (delivered w).
Definition set_clone_senders f w := mk_world (gate_id w) (updates w) (suspended w)
  (queue_size w) (gate_metrics w) (commands w) (f (clone_senders w)) (chans w)
  (queues w) (responses w) (live_targets w) (delivered w).
Definition set_chans f w := mk_world (gate_id w) (updates w) (suspended w)
  (queue_size w) (gate_metrics w) (commands w) (clone_senders w) (f (chans w))
  (queues w) (responses w) (live_targets w) (delivered w).
Definition set_queues f w := mk_world (gate_id w) (updates w) (suspended w)
  (queue_size w) (gate_metrics w) (commands w) (clone_senders w) (chans w)
  (f (queues w)) (responses w) (live_targets w) (delivered w).
Definition set_responses f w := mk_world (gate_id w) (updates w) (suspended w)
  (queue_size w) (gate_metrics w) (commands w) (clone_senders w) (chans w)
  (queues w) (f (responses w)) (live_targets w) (delivered w).
Definition set_live f w := mk_world (gate_id w) (updates w) (suspended w)
  (queue_size w) (gate_metrics w) (commands w) (clone_senders w) (chans w)
  (queues w) (responses w) (f (live_targets w)) (delivered w).
Definition set_delivered f w := mk_world (gate_id w) (updates w) (suspended w)
  (queue_size w) (gate_metrics w) (commands w) (clone_senders w) (chans w)
  (queues w) (responses w) (live_targets w) (f (delivered w)).

Definition chan_of (w : World) (c : ChanId) : Chan GateCommand :=
  default no_chan (chans w !! c).

Definition put_chan (c : ChanId) (ch : Chan GateCommand) : World -> World :=
  set_chans (<[c := ch]>).

(** [Gate::new]: the root, its agent's channel and the shared state. *)
Definition gate_new (qsize : nat) (id : Uuid) (tx : ChanId) : GateState * World :=
  (Normal tx,
   mk_world id frim_default frim_default qsize gmetrics_default tx frim_default
     {[tx := new_chan COMMAND_QUEUE_LEN]} ∅ ∅ ∅ []).

Definition get_gate_status (w : World) : GateStatus :=
  if Nat.eqb (frim_len (suspended w)) (frim_len (updates w)) then Dormant
  else Active.

(** ** [suspension] *)
Definition suspension (slot : Uuid) (suspend : bool) (w : World) : World :=
  if suspend then
    let '(removed, u) := frim_remove slot (updates w) in
    let w := set_updates (fun _ => u) w in
    match removed with
    | Some r => set_suspended (frim_insert slot r) w
    | None => w
    end
  else
    let '(removed, s) := frim_remove slot (suspended w) in
    let w := set_suspended (fun _ => s) w in
    match removed with
    | Some r => set_updates (frim_insert slot r) w
    | None => w
    end.

(** ** [notify_clones]: a [try_send] to every clone; [true] if one was closed *)
Fixpoint notify_loop (cmd : GateCommand) (senders : list (Uuid * ChanId))
    (closed_sender_found : bool) : Run World bool :=
  match senders with
  | [] => mret closed_sender_found
  | (_, sender) :: rest =>
      match clone_command cmd with
      | None => run_fail
      | Some c =>
          w ← run_get;
          match try_send c (chan_of w sender) with
          | Sent ch =>
              _ ← run_modify (put_chan sender ch);
              notify_loop cmd rest closed_sender_found
          | Closed => notify_loop cmd rest true
          | Full => notify_loop cmd rest closed_sender_found
          end
      end
  end.

Definition notify_clones (self : GateState) (cmd : GateCommand) : Run World unit :=
  match self with
  | Normal _ =>
      w ← run_get;
      closed ← notify_loop cmd (clone_senders w) false;
      if closed : bool then
        run_modify (fun w =>
          set_clone_senders (frim_retain (fun _ s => ch_rx (chan_of w s))) w)
      else mret tt
  | Clone _ _ _ => mret tt
  end.

(** ** [subscribe]: [slot] is the new UUID; a queued link's channel is named
    after its slot *)
Definition subscribe (self : GateState) (slot : Uuid) (susp : bool)
    (response : RespId) (direct_update : option TargetId) : Run World unit :=
  w0 ← run_get;
  let '(update_sender, receiver) :=
    match direct_update with
    | Some d => (mk_sender None (Some d), None)
    | None => (mk_sender (Some slot) None, Some slot)
    end in
  _ ← (match direct_update with
       | Some _ => mret tt
       | None => if capacity_ok (queue_size w0) then mret tt else run_fail
       end);
  _ ← run_modify (fun w =>
        match receiver with
        | Some q => set_queues (<[q := new_chan (queue_size w0)]>) w
        | None => w
        end);
  _ ← run_modify (if susp then set_suspended (frim_insert slot update_sender)
                  else set_updates (frim_insert slot update_sender));
  match responses w0 !! response with
  | Some Waiting =>
      _ ← run_modify (set_responses (<[response := Answered (mk_response slot receiver)]>));
      notify_clones self (FollowSubscribe slot update_sender)
  | _ =>
      (* nobody listens; the receiver is dropped with the answer *)
      _ ← run_modify (fun w =>
            match receiver with Some q => set_queues (alter hang_up q) w | None => w end);
      run_modify (if susp then set_suspended (fun m => (frim_remove slot m).2)
                  else set_updates (fun m => (frim_remove slot m).2))
  end.

Definition unsubscribe (self : GateState) (slot : Uuid) : Run World unit :=
  _ ← run_modify (set_suspended (fun m => (frim_remove slot m).2));
  _ ← run_modify (set_updates (fun m => (frim_remove slot m).2));
  notify_clones self (FollowUnsubscribe slot).

(** [detach]: the send to the parent may have to wait. *)
Definition detach (self : GateState) (w : World) : option World :=
  match self with
  | Clone clone_id _ parent =>
      match send (DetachClone clone_id) (chan_of w parent) with
      | Some (true, ch) => Some (put_chan parent ch w)
      | Some (false, _) => Some w
      | None => None
      end
  | Normal _ => Some w
  end.

(** ** One command of [process]: [Some] is a return, [None] the next turn.
    [slot] is what [Uuid::new_v4] would give in this turn. *)
Definition handle (self : GateState) (slot : Uuid) (cmd : GateCommand)
    : Run World (option Outcome) :=
  match cmd with
  | AttachClone clone_id tx =>
      match self with
      | Normal _ =>
          _ ← run_modify (set_clone_senders (frim_insert clone_id tx)); mret None
      | Clone _ _ _ => run_fail
      end
  | DetachClone clone_id =>
      match self with
      | Normal _ =>
          _ ← run_modify (set_clone_senders (fun m => (frim_remove clone_id m).2));
          mret None
      | Clone _ _ _ =>
          w ← run_get;
          match detach self w with
          | Some w' => _ ← run_modify (fun _ => w'); mret None
          | None => mret (Some Pending)
          end
      end
  | Suspension s suspend => _ ← run_modify (suspension s suspend); mret None
  | Subscribe susp response direct_update =>
      if is_clone self then run_fail
      else _ ← subscribe self slot susp response direct_update; mret None
  | Unsubscribe s =>
      if is_clone self then run_fail else _ ← unsubscribe self s; mret None
  | FollowSubscribe s update_sender =>
      if is_clone self then
        _ ← run_modify (set_updates (frim_insert s update_sender)); mret None
      else run_fail
  | FollowUnsubscribe s =>
      if is_clone self then
        _ ← run_modify (set_updates (fun m => (frim_remove s m).2)); mret None
      else run_fail
  | Reconfigure new_config ng =>
      if is_clone self then run_fail
      else
        _ ← run_modify (fun w =>
              set_root (ng_id ng) (ng_commands ng)
                (put_chan (commands w) (hang_up (chan_of w (commands w))) w));
        _ ← run_modify (set_updates (frim_replace (ng_updates ng)));
        _ ← notify_clones self (FollowReconfigure new_config);
        mret (Some (Status (Reconfiguring new_config)))
  | FollowReconfigure new_config =>
      if is_clone self then mret (Some (Status (Reconfiguring new_config)))
      else run_fail
  | ReportLinks report =>
      _ ← notify_clones self (ReportLinks report);
      mret (Some (Status (ReportingLinks report)))
  | Trigger data =>
      _ ← notify_clones self (Trigger data);
      mret (Some (Status (Triggered data)))
  | Terminate => _ ← notify_clones self Terminate; mret (Some Terminated)
  end.

Definition own_commands (self : GateState) (w : World) : ChanId :=
  match self with Normal _ => commands w | Clone _ c _ => c end.

(** The next command, taken off the channel. *)
Definition recv (self : GateState) : Run World (option GateCommand) :=
  w ← run_get;
  let c := own_commands self w in
  let ch := chan_of w c in
  match ch_queue ch with
  | [] => mret None
  | cmd :: _ => _ ← run_modify (put_chan c (pop ch)); mret (Some cmd)
  end.

(** One turn of the loop of [process]; [hung_up] says that every sender of the
    channel has been dropped. *)
Definition turn (self : GateState) (status : GateStatus) (hung_up : bool)
    (slot : Uuid) : Run World (option Outcome) :=
  cmd ← recv self;
  match cmd with
  | None => mret (Some (if hung_up then Terminated else Pending))
  | Some cmd =>
      ret ← handle self slot cmd;
      match ret with
      | Some o => mret (Some o)
      | None =>
          w ← run_get;
          let new_status := get_gate_status w in
          if status_eq new_status status then mret None
          else mret (Some (Status new_status))
      end
  end.

(** The loop, with one turn for each queued command and one to find the channel
    empty; [uuids n] is the UUID drawn in the turn that leaves [n] turns. *)
Fixpoint process_loop (turns : nat) (self : GateState) (status : GateStatus)
    (hung_up : bool) (uuids : nat -> Uuid) : Run World (option Outcome) :=
  match turns with
  | O => mret None
  | S n =>
      ret ← turn self status hung_up (uuids n);
      match ret with
      | Some o => mret (Some o)
      | None => process_loop n self status hung_up uuids
      end
  end.

Definition process (self : GateState) (hung_up : bool) (uuids : nat -> Uuid)
    : Run World (option Outcome) :=
  w ← run_get;
  let turns := S (length (ch_queue (chan_of w (own_commands self w)))) in
  process_loop turns self (get_gate_status w) hung_up uuids.

(** ** [update_data] *)

(** [GateMetrics::update]; [now] is the clock. *)
Definition metrics_update (update : Update) (sent_at_least_once : bool) (now : Z)
    (m : GateMetrics) : GateMetrics :=
  mk_gmetrics
    (match update with Bulk ps => zlen ps | _ => update_set_size m end)
    (Some now)
    (wrap 64 (num_updates m + 1))
    (if sent_at_least_once then num_dropped_updates m
     else wrap 64 (num_dropped_updates m + 1)).

(** The loop over the senders: the flag [sent_at_least_once] with what is left
    to do; it is left early only where a full queue makes it wait. *)
Fixpoint send_updates (items : list (Uuid * UpdateSender)) (update : Update)
    (sent_at_least_once : bool) (w : World)
    : (bool * list (Uuid * UpdateSender)) * World :=
  match items with
  | [] => ((sent_at_least_once, []), w)
  | (slot, item) :: rest =>
      match us_queue item, us_direct item with
      | Some q, None =>
          match send (inl update) (default no_chan (queues w !! q)) with
          | Some (true, ch) =>
              send_updates rest update true (set_queues (<[q := ch]>) w)
          | Some (false, _) => send_updates rest update sent_at_least_once w
          | None => ((sent_at_least_once, items), w)
          end
      | None, Some direct =>
          if bool_decide (direct ∈ live_targets w) then
            send_updates rest update true (set_delivered (fun l => l ++ [(direct, update)]) w)
          else send_updates rest update sent_at_least_once w
      | _, _ => send_updates rest update sent_at_least_once w
      end
  end.

(** [update_data] from the start: the senders are those at this moment.  The
    answer is what remains to be sent when it has to wait ([[]]: it is done). *)
Definition update_data (update : Update) (now : Z) (w : World)
    : (bool * list (Uuid * UpdateSender)) * World :=
  let '((sent, rest), w) := send_updates (updates w) update false w in
  ((sent, rest),
   if decide (rest = []) then set_metrics (metrics_update update sent now) w else w).

(** ** [Clone] and [Drop] *)

Definition gate_clone (self : GateState) (clone_id : Uuid) (tx : ChanId) (w : World)
    : GateState * (ChanId * GateCommand) * World :=
  let parent := match self with Normal c => c | Clone _ _ c => c end in
  (Clone clone_id tx parent,
   (parent, AttachClone clone_id tx),    (* sent by a task of its own *)
   put_chan tx (new_chan COMMAND_QUEUE_LEN) w).

(** [Drop for Gate], and the drop of the receiver that follows; [None] while the
    message to the parent waits. *)
Definition gate_drop (self : GateState) (w : World) : option World :=
  let own := own_commands self in
  match self with
  | Clone _ _ _ =>
      w ← detach self w; Some (put_chan (own w) (hang_up (chan_of w (own w))) w)
  | Normal _ => Some (put_chan (own w) (hang_up (chan_of w (own w))) w)
  end.

(** ** [GateAgent] *)

(** [self.commands.send(cmd).await]. *)
Definition send_command (tx : ChanId) (cmd : GateCommand) (w : World)
    : option (bool * World) :=
  match send cmd (chan_of w tx) with
  | Some (ok, ch) => Some (ok, if ok then put_chan tx ch w else w)
  | None => None
  end.

Definition agent_terminate (tx : ChanId) (w : World) : option World :=
  snd <$> send_command tx Terminate w.

Definition agent_is_terminated (tx : ChanId) (w : World) : bool :=
  negb (ch_rx (chan_of w tx)).

Definition agent_reconfigure (tx : ChanId) (new_config : Unit) (ng : NewGate)
    (w : World) : option (bool * World) :=
  send_command tx (Reconfigure new_config ng) w.

Definition agent_report_links (tx : ChanId) (report : UpstreamLinkReport) (w : World)
    : option (bool * World) :=
  send_command tx (ReportLinks report) w.

End Gate.
