(* ===== verification/GateSys.v ===== *)
(** * A gate with its clones ([src/comms.rs])

    [gstep] is the system of a root gate, its clones, the tasks they spawn, and
    the links and agents that send them commands, in every interleaving.
    [table_step] is the abstract contract: a table of subscriptions that changes
    with the commands the root handles.  [Ginv] relates the two. *)

From S2P Require Import Prelude Net Payload Frim Gate.
From Stdlib Require Import ZArith Lia.
From stdpp Require Import base numbers list gmap fin_maps.

Local Open Scope Z_scope.

(** Slot to sender, and whether the subscription is suspended. *)
Abbreviation Table := (gmap Uuid (UpdateSender * bool)).

Section System.
Context `{E : Extern} `{L : Layout} {GT : GateTypes}.

(** ** The abstract table *)

Definition sender_for (slot : Uuid) (direct_update : option TargetId) : UpdateSender :=
  match direct_update with
  | Some d => mk_sender None (Some d)
  | None => mk_sender (Some slot) None
  end.

(** A command the root handled, with the slot it drew and whether the answer
    found its receiver. *)
Record Event : Type := mk_event { ev_slot : Uuid; ev_cmd : GateCommand; ev_heard : bool }.

Definition table_step (t : Table) (ev : Event) : Table :=
  match ev_cmd ev with
  | Subscribe susp _ d =>
      if ev_heard ev then <[ev_slot ev := (sender_for (ev_slot ev) d, susp)]> t else t
  | Unsubscribe s => delete s t
  | Suspension s b => alter (fun p => (p.1, b)) s t
  | Reconfigure _ _ => filter (fun p => p.2.2 = true) t
  | _ => t
  end.

Definition heard (w : World) (cmd : GateCommand) : bool :=
  match cmd with
  | Subscribe _ r _ => match responses w !! r with Some Waiting => true | _ => false end
  | _ => true
  end.

(** ** The system

    [issued] are the slots ever handed out, [root_chans] and [clone_chans] the
    command channels made for root gates and for clones: history, which no
    operation reads. *)
Record GSys : Type := mk_gsys {
  gw : World;
  root : GateState;
  clones : gmap Uuid GateState;
  tasks : list (ChanId * GateCommand);
  issued : gmap Uuid UpdateSender;
  root_chans : gset ChanId;
  clone_chans : gset ChanId
}.

Definition with_world (w : World) (s : GSys) : GSys :=
  mk_gsys w (root s) (clones s) (tasks s) (issued s) (root_chans s) (clone_chans s).

(** What links and agents send; a link has its slot from an answer, and a new
    gate has not run yet. *)
Definition link_command (s : GSys) (cmd : GateCommand) : Prop :=
  match cmd with
  | Subscribe _ _ _ | Suspension _ _ | Trigger _ | Terminate | ReportLinks _ => True
  | Unsubscribe slot => is_Some (issued s !! slot)
  | Reconfigure _ ng =>
      ng_commands ng ∈ root_chans s /\ ng_updates ng = frim_default
  | _ => False
  end.

Definition issue (ev : Event) (i : gmap Uuid UpdateSender) : gmap Uuid UpdateSender :=
  match ev_cmd ev with
  | Subscribe _ _ d => <[ev_slot ev := sender_for (ev_slot ev) d]> i
  | _ => i
  end.

(** A gate of the system: the root or a clone. *)
Definition member (s : GSys) (g : GateState) : Prop :=
  g = root s \/ exists id, clones s !! id = Some g.

Inductive gstep (s : GSys) : option Event -> GSys -> Prop :=
| step_root slot cmd w1 r w2 :
    recv (root s) (gw s) = (Some (Some cmd), w1) ->
    issued s !! slot = None ->
    handle (root s) slot cmd w1 = (Some r, w2) ->
    let ev := mk_event slot cmd (heard w1 cmd) in
    gstep s (Some ev)
      (mk_gsys w2 (root s) (clones s) (tasks s) (issue ev (issued s))
         (root_chans s) (clone_chans s))
| step_clone id g slot cmd w1 r w2 :
    clones s !! id = Some g ->
    recv g (gw s) = (Some (Some cmd), w1) ->
    handle g slot cmd w1 = (Some r, w2) ->
    gstep s None (with_world w2 s)
| step_make_clone g id tx g' task w' :
    member s g -> clones s !! id = None ->
    tx ∉ root_chans s ∪ clone_chans s ->
    gate_clone g id tx (gw s) = (g', task, w') ->
    gstep s None
      (mk_gsys w' (root s) (<[id := g']> (clones s)) (task :: tasks s) (issued s)
         (root_chans s) ({[tx]} ∪ clone_chans s))
| step_drop_clone id g w' :
    clones s !! id = Some g -> gate_drop g (gw s) = Some w' ->
    gstep s None
      (mk_gsys w' (root s) (delete id (clones s)) (tasks s) (issued s)
         (root_chans s) (clone_chans s))
| step_drop_root w' :
    gate_drop (root s) (gw s) = Some w' -> gstep s None (with_world w' s)
| step_task l1 tx cmd l2 ok w' :
    tasks s = l1 ++ (tx, cmd) :: l2 ->
    send_command tx cmd (gw s) = Some (ok, w') ->
    gstep s None
      (mk_gsys w' (root s) (clones s) (l1 ++ l2) (issued s) (root_chans s)
         (clone_chans s))
| step_send tx cmd ok w' :
    tx ∈ root_chans s -> link_command s cmd ->
    send_command tx cmd (gw s) = Some (ok, w') ->
    gstep s None (with_world w' s)
| step_spawn tx cmd :
    tx ∈ root_chans s -> link_command s cmd ->
    gstep s None
      (mk_gsys (gw s) (root s) (clones s) ((tx, cmd) :: tasks s) (issued s)
         (root_chans s) (clone_chans s))
| step_new_gate tx :
    tx ∉ root_chans s ∪ clone_chans s ->
    gstep s None
      (mk_gsys (put_chan tx (new_chan COMMAND_QUEUE_LEN) (gw s)) (root s) (clones s)
         (tasks s) (issued s) ({[tx]} ∪ root_chans s) (clone_chans s))
| step_forget_gate tx :
    (* a new gate whose command was dropped unread *)
    tx ∈ root_chans s -> tx <> commands (gw s) ->
    gstep s None
      (with_world (put_chan tx (hang_up (chan_of (gw s) tx)) (gw s)) s)
| step_update u now res w' :
    update_data u now (gw s) = (res, w') -> gstep s None (with_world w' s)
| step_resume items u sent now res w' :
    (* a send that waited goes on *)
    send_updates items u sent (gw s) = (res, w') ->
    gstep s None
      (with_world (if decide (res.2 = []) then set_metrics (metrics_update u res.1 now) w'
                   else w') s)
| step_environment q r l :
    (* receivers read, links wait or give up, targets come and go *)
    gstep s None
      (with_world (set_live (fun _ => l)
                     (set_responses (fun _ => r) (set_queues (fun _ => q) (gw s)))) s).

Inductive gsteps (s : GSys) : list Event -> GSys -> Prop :=
| gsteps_refl : gsteps s [] s
| gsteps_snoc evs s1 ev s2 :
    gsteps s evs s1 -> gstep s1 ev s2 -> gsteps s (evs ++ option_list ev) s2.

Definition gsys_new (qsize : nat) (id : Uuid) (tx : ChanId) : GSys :=
  let '(g, w) := gate_new qsize id tx in
  mk_gsys w g ∅ [] ∅ {[tx]} ∅.

Definition table_of (evs : list Event) : Table := foldl table_step ∅ evs.

(** ** The invariant *)

Definition clone_cmd (cmd : GateCommand) : Prop :=
  match cmd with
  | FollowSubscribe _ _ | FollowUnsubscribe _ | FollowReconfigure _ | ReportLinks _
  | Terminate => True
  | _ => False
  end.

Definition root_cmd (s : GSys) (cmd : GateCommand) : Prop :=
  link_command s cmd
  \/ (exists id tx, cmd = AttachClone id tx /\ tx ∈ clone_chans s)
  \/ (exists id, cmd = DetachClone id).

(** What a command on its way to a clone says of the table. *)
Definition follows (i : gmap Uuid UpdateSender) (t : Table) (cmd : GateCommand) : Prop :=
  match cmd with
  | FollowSubscribe slot snd => i !! slot = Some snd
  | FollowUnsubscribe slot => is_Some (i !! slot) /\ t !! slot = None
  | _ => True
  end.

Definition queued (w : World) (c : ChanId) (cmd : GateCommand) : Prop :=
  cmd ∈ ch_queue (chan_of w c).

(** One slot: the sender issued for it, the senders in [updates] and in
    [suspended], and its entry of the table.  The subscription is in its map
    whatever the clones did; all senders were issued; and with no clone ([alone])
    the maps have nothing else. *)
Record slot_ok (i u p : option UpdateSender) (t : option (UpdateSender * bool))
    (alone : Prop) : Prop := {
  so_issued snd b : t = Some (snd, b) -> i = Some snd;
  so_updates_issued snd : u = Some snd -> i = Some snd;
  so_suspended_issued snd : p = Some snd -> i = Some snd;
  so_active snd : t = Some (snd, false) -> u = Some snd;
  so_suspended snd : t = Some (snd, true) -> p = Some snd;
  so_exact snd :
    alone -> (u = Some snd -> t = Some (snd, false))
             /\ (p = Some snd -> t = Some (snd, true))
}.

Definition tables_ok (i u p : gmap Uuid UpdateSender) (t : Table) (alone : Prop) : Prop :=
  forall slot, slot_ok (i !! slot) (u !! slot) (p !! slot) (t !! slot) alone.

Record Ginv (s : GSys) (t : Table) : Prop := {
  gi_updates_wf : frim_wf (updates (gw s));
  gi_suspended_wf : frim_wf (suspended (gw s));
  gi_senders_wf : frim_wf (clone_senders (gw s));
  gi_root : exists tx, root s = Normal tx /\ tx ∈ root_chans s;
  gi_commands : commands (gw s) ∈ root_chans s;
  gi_disjoint : root_chans s ## clone_chans s;
  gi_root_queue c cmd : c ∈ root_chans s -> queued (gw s) c cmd -> root_cmd s cmd;
  gi_tasks c cmd : (c, cmd) ∈ tasks s -> c ∈ root_chans s /\ root_cmd s cmd;
  gi_clone_queue c cmd :
    c ∈ clone_chans s -> queued (gw s) c cmd ->
    clone_cmd cmd /\ follows (issued s) t cmd;
  gi_senders c : c ∈ (clone_senders (gw s)).*2 -> c ∈ clone_chans s;
  gi_clones id g :
    clones s !! id = Some g ->
    exists id' c p, g = Clone id' c p /\ c ∈ clone_chans s /\ p ∈ root_chans s;
  gi_tables :
    tables_ok (issued s) (frim_view (updates (gw s))) (frim_view (suspended (gw s))) t
      (clone_chans s = ∅)
}.

(** ** Lemmas on the world *)

Lemma chan_of_put c ch w c' :
  chan_of (put_chan c ch w) c' = if decide (c = c') then ch else chan_of w c'.
Proof.
  unfold chan_of, put_chan; cbn. case_decide; subst.
  - by rewrite lookup_insert_eq.
  - by rewrite lookup_insert_ne.
Qed.

Lemma queued_put c ch w c' cmd :
  queued (put_chan c ch w) c' cmd ->
  c = c' /\ cmd ∈ ch_queue ch \/ c <> c' /\ queued w c' cmd.
Proof. unfold queued. rewrite chan_of_put. case_decide; auto. Qed.

(** The parts of the world that commands on other channels leave alone. *)
Record same_core (w w' : World) : Prop := {
  sc_updates : updates w' = updates w;
  sc_suspended : suspended w' = suspended w;
  sc_senders : clone_senders w' = clone_senders w;
  sc_commands : commands w' = commands w
}.

Lemma same_core_refl w : same_core w w.
Proof. done. Qed.

Lemma same_core_put c ch w : same_core w (put_chan c ch w).
Proof. done. Qed.

Lemma send_command_inv tx cmd w ok w' :
  send_command tx cmd w = Some (ok, w') ->
  same_core w w'
  /\ (forall c x, queued w' c x -> queued w c x \/ c = tx /\ x = cmd).
Proof.
  unfold send_command, send, try_send. destruct (chan_of w tx) as [q cap rx] eqn:Ec.
  destruct rx; cbn; [|intros [= <- <-]; auto using same_core_refl].
  case_bool_decide; [|done]. intros [= <- <-]. split; [apply same_core_put|].
  intros c x [[<- Hx]|[_ Hx]]%queued_put; [|auto]. cbn in Hx.
  apply elem_of_app in Hx as [Hx| ->%list_elem_of_singleton]; [left|auto].
  unfold queued. by rewrite Ec.
Qed.

Lemma recv_inv g w cmd w1 :
  recv g w = (Some (Some cmd), w1) ->
  same_core w w1 /\ responses w1 = responses w /\ queued w (own_commands g w) cmd
  /\ (forall c x, queued w1 c x -> queued w c x).
Proof.
  unfold recv. run_unfold. destruct (chan_of w (own_commands g w)) as [q cap rx] eqn:Ec.
  cbn. destruct q as [|y q]; [done|]. intros [= <- <-].
  split_and!; [apply same_core_put|done| |].
  - unfold queued. rewrite Ec. apply list_elem_of_here.
  - intros c x [[<- Hx]|[_ Hx]]%queued_put; [|done]. unfold queued. rewrite Ec.
    by apply list_elem_of_further.
Qed.

Lemma send_updates_core items u sent w res w' :
  send_updates items u sent w = (res, w') -> same_core w w' /\ chans w' = chans w.
Proof.
  revert sent w. induction items as [|[slot [q d]] items IH]; intros sent w; cbn.
  { by intros [= <- <-]. }
  destruct q as [q|], d as [d|]; cbn; [by eauto| | |by eauto].
  - destruct (send _ _) as [[[] ch]|]; [|by eauto|by intros [= <- <-]].
    by intros [[] ?]%IH.
  - case_bool_decide; [|by eauto]. by intros [[] ?]%IH.
Qed.

Lemma update_data_core u now w res w' :
  update_data u now w = (res, w') -> same_core w w' /\ chans w' = chans w.
Proof.
  unfold update_data. destruct (send_updates _ _ _ _) as [[sent rest] w1] eqn:Hs.
  apply send_updates_core in Hs as [[] ?]. intros [= <- <-]. by case_decide.
Qed.

Lemma queued_chans w w' c cmd : chans w' = chans w -> queued w' c cmd -> queued w c cmd.
Proof. unfold queued, chan_of. by intros ->. Qed.

(** ** [notify_clones]

    It panics on a command that cannot be cloned if there is a clone; otherwise
    it gives the command to some of the clones and forgets closed ones. *)
Record notified (cmd : GateCommand) (w w' : World) : Prop := {
  nt_updates : updates w' = updates w;
  nt_suspended : suspended w' = suspended w;
  nt_commands : commands w' = commands w;
  nt_senders : clone_senders w' `sublist_of` clone_senders w;
  nt_queued c x :
    queued w' c x -> queued w c x \/ x = cmd /\ c ∈ (clone_senders w).*2
}.

Lemma notified_refl cmd w : notified cmd w w.
Proof. split; auto. Qed.

Lemma notify_loop_spec cmd senders closed w :
  clone_command cmd = Some cmd ->
  exists b w', notify_loop cmd senders closed w = (Some b, w') /\ same_core w w'
    /\ (forall c x, queued w' c x -> queued w c x \/ x = cmd /\ c ∈ senders.*2).
Proof.
  intros Hcl. revert closed w. induction senders as [|[id c] rest IH]; intros closed w.
  { eexists _, _. split_and!; [done|done|auto]. }
  cbn [notify_loop]. rewrite Hcl. run_unfold. cbn [fmap list_fmap snd].
  destruct (try_send cmd (chan_of w c)) as [ch| |] eqn:Ht; cbn.
  - destruct (IH closed (put_chan c ch w)) as (b & w' & -> & [] & Hq).
    eexists _, _. split; [done|]. split; [by split|].
    intros c' x [Hx|[-> ?]]%Hq; [|set_solver].
    apply queued_put in Hx as [[<- Hx]|[_ Hx]]; [|by left].
    revert Ht. unfold try_send. destruct (ch_rx _); [|done]; cbn.
    case_bool_decide; [|done]. intros [= <-]. cbn in Hx.
    apply elem_of_app in Hx as [?| ->%list_elem_of_singleton]; [by left|set_solver].
  - destruct (IH closed w) as (b & w' & -> & ? & Hq). eexists _, _.
    split_and!; [done|done|set_solver].
  - destruct (IH true w) as (b & w' & -> & ? & Hq). eexists _, _.
    split_and!; [done|done|set_solver].
Qed.

Lemma notify_clones_spec g cmd w :
  clone_command cmd = Some cmd ->
  exists w', notify_clones g cmd w = (Some tt, w') /\ notified cmd w w'.
Proof.
  intros Hcl. destruct g as [tx|? ? ?]; [|by exists w; auto using notified_refl].
  unfold notify_clones. run_unfold.
  destruct (notify_loop_spec cmd (clone_senders w) false w Hcl)
    as (b & w' & -> & [] & Hq); cbn.
  destruct b; cbn; eexists; (split; [done|]); split; cbn; try done.
  - rewrite sc_senders0. apply sublist_filter.
  - by rewrite sc_senders0.
Qed.

(** Without clones there is nothing to clone. *)
Lemma notify_clones_none tx cmd w :
  clone_senders w = [] -> notify_clones (Normal tx) cmd w = (Some tt, w).
Proof. intros Hn. unfold notify_clones. run_unfold. by rewrite Hn. Qed.

Lemma notify_clones_panics tx cmd w :
  clone_command cmd = None -> clone_senders w <> [] ->
  (notify_clones (Normal tx) cmd w).1 = None.
Proof.
  intros Hcl Hn. unfold notify_clones. run_unfold.
  destruct (clone_senders w) as [|[? ?] ?]; [done|]. cbn [notify_loop]. by rewrite Hcl.
Qed.

End System.
