(* ===== verification/GateInv.v ===== *)
(** * The invariant of a gate with its clones

    Every step of [gstep] keeps [Ginv]: first the operations on the two maps of
    senders against the table, then the commands of the root and of a clone,
    then the steps around them. *)

From S2P Require Import Prelude Net Payload Frim Gate GateSys.
From Stdlib Require Import ZArith Lia.
From stdpp Require Import base numbers list gmap fin_maps.

Local Open Scope Z_scope.

(** ** The maps of senders *)
Section Tables.
Implicit Types i u p : gmap Uuid UpdateSender.
Implicit Types (t : gmap Uuid (UpdateSender * bool)) (b : bool).

(** The facts on one slot, by computation and by those known before. *)
Ltac slot_solve :=
  split; intros; simplify_eq/=;
  try (split; intros; simplify_eq/=);
  first [done | by eauto | naive_solver].

(** A slot never handed out is nowhere. *)
Lemma slot_ok_fresh (u p : option UpdateSender) (t : option (UpdateSender * bool)) alone :
  slot_ok None u p t alone -> u = None /\ p = None /\ t = None.
Proof.
  intros [Ht Hu Hp _ _ _]. split_and!.
  - destruct u as [r|]; [by specialize (Hu r eq_refl)|done].
  - destruct p as [r|]; [by specialize (Hp r eq_refl)|done].
  - destruct t as [[r b]|]; [by specialize (Ht r b eq_refl)|done].
Qed.

(** A new subscription. *)
Lemma tables_insert i u p t alone slot snd b :
  tables_ok i u p t alone -> i !! slot = None ->
  tables_ok (<[slot := snd]> i) (if b then u else <[slot := snd]> u)
    (if b then <[slot := snd]> p else p) (<[slot := (snd, b)]> t) alone.
Proof.
  intros HT Hnew k. specialize (HT k). destruct (decide (slot = k)) as [<-|Hne].
  - rewrite Hnew in HT. apply slot_ok_fresh in HT as (Hu & Hp & Ht).
    destruct b; rewrite ?Hu, ?Hp, !lookup_insert_eq; slot_solve.
  - destruct b; by rewrite !lookup_insert_ne by done.
Qed.

(** A slot that is drawn and not used. *)
Lemma tables_issue i u p t alone slot snd :
  tables_ok i u p t alone -> i !! slot = None ->
  tables_ok (<[slot := snd]> i) u p t alone.
Proof.
  intros HT Hnew k. specialize (HT k). destruct (decide (slot = k)) as [<-|Hne].
  - rewrite Hnew in HT. apply slot_ok_fresh in HT as (-> & -> & ->). slot_solve.
  - by rewrite !lookup_insert_ne by done.
Qed.

Lemma tables_delete i u p t alone slot :
  tables_ok i u p t alone ->
  tables_ok i (delete slot u) (delete slot p) (delete slot t) alone.
Proof.
  intros HT k. specialize (HT k). destruct (decide (slot = k)) as [<-|Hne].
  - rewrite !lookup_delete_eq. slot_solve.
  - by rewrite !lookup_delete_ne by done.
Qed.

(** A suspension takes the sender out of one map into the other. *)
Lemma tables_suspend i u p t alone slot :
  tables_ok i u p t alone ->
  tables_ok i (delete slot u)
    (match u !! slot with Some r => <[slot := r]> p | None => p end)
    (alter (fun q => (q.1, true)) slot t) alone.
Proof.
  intros HT k. specialize (HT k). destruct (decide (slot = k)) as [<-|Hne].
  - rewrite lookup_delete_eq, lookup_alter_eq. destruct HT.
    destruct (u !! slot) as [r|], (t !! slot) as [[? []]|];
      rewrite ?lookup_insert_eq; slot_solve.
  - rewrite lookup_delete_ne, lookup_alter_ne by done.
    destruct (u !! slot); by rewrite ?lookup_insert_ne by done.
Qed.

Lemma tables_resume i u p t alone slot :
  tables_ok i u p t alone ->
  tables_ok i (match p !! slot with Some r => <[slot := r]> u | None => u end)
    (delete slot p) (alter (fun q => (q.1, false)) slot t) alone.
Proof.
  intros HT k. specialize (HT k). destruct (decide (slot = k)) as [<-|Hne].
  - rewrite lookup_delete_eq, lookup_alter_eq. destruct HT.
    destruct (p !! slot) as [r|], (t !! slot) as [[? []]|];
      rewrite ?lookup_insert_eq; slot_solve.
  - rewrite lookup_delete_ne, lookup_alter_ne by done.
    destruct (p !! slot); by rewrite ?lookup_insert_ne by done.
Qed.

Lemma tables_reconfigure i u p t alone :
  tables_ok i u p t alone ->
  tables_ok i ∅ p (filter (fun q => q.2.2 = true) t) alone.
Proof.
  intros HT k. specialize (HT k). rewrite lookup_empty, map_lookup_filter.
  destruct HT, (t !! k) as [[? []]|]; cbn; repeat case_guard; slot_solve.
Qed.

(** A clone catches up; a clone that is behind may only add a sender. *)
Lemma tables_follow i u p t slot snd :
  tables_ok i u p t False -> i !! slot = Some snd ->
  tables_ok i (<[slot := snd]> u) p t False.
Proof.
  intros HT Hnew k. specialize (HT k). destruct (decide (slot = k)) as [<-|Hne].
  - rewrite Hnew in *. destruct HT. rewrite !lookup_insert_eq. slot_solve.
  - by rewrite !lookup_insert_ne by done.
Qed.

Lemma tables_unfollow i u p t slot :
  tables_ok i u p t False -> t !! slot = None -> tables_ok i (delete slot u) p t False.
Proof.
  intros HT Hnew k. specialize (HT k). destruct (decide (slot = k)) as [<-|Hne].
  - rewrite Hnew in *. destruct HT. rewrite !lookup_delete_eq. slot_solve.
  - by rewrite !lookup_delete_ne by done.
Qed.

Lemma tables_alone i u p t (alone alone' : Prop) :
  tables_ok i u p t alone -> (alone' -> alone) -> tables_ok i u p t alone'.
Proof. intros HT Ha k. destruct (HT k). slot_solve. Qed.

End Tables.

Section Preservation.
Context `{E : Extern} `{L : Layout} {GT : GateTypes}.
Implicit Types (s : GSys) (t : Table) (w : World).

(** ** Commands stay valid as channels and slots are added *)

Record grows (s s' : GSys) : Prop := {
  gr_root_chans : root_chans s ⊆ root_chans s';
  gr_clone_chans : clone_chans s ⊆ clone_chans s';
  gr_issued : issued s ⊆ issued s'
}.

Lemma grows_refl s s' :
  root_chans s' = root_chans s -> clone_chans s' = clone_chans s -> issued s' = issued s ->
  grows s s'.
Proof. intros H1 H2 H3. split; by rewrite ?H1, ?H2, ?H3. Qed.

Lemma link_command_grows s s' cmd :
  grows s s' -> link_command s cmd -> link_command s' cmd.
Proof.
  intros [Hr Hc Hi]. destruct cmd; cbn; try done.
  - intros [v Hv]. exists v. by eapply lookup_weaken.
  - intros [? ?]. split; [by apply Hr|done].
Qed.

Lemma root_cmd_grows s s' cmd : grows s s' -> root_cmd s cmd -> root_cmd s' cmd.
Proof.
  intros Hg [H|[(id & tx & -> & H)|H]].
  - left. by eapply link_command_grows.
  - right; left. exists id, tx. split; [done|]. by apply (gr_clone_chans _ _ Hg).
  - by right; right.
Qed.

Lemma follows_grows i i' t cmd : i ⊆ i' -> follows i t cmd -> follows i' t cmd.
Proof.
  intros Hi. destruct cmd; cbn; try done.
  - intros Hv. by eapply lookup_weaken.
  - intros [[v Hv] ?]. split; [|done]. exists v. by eapply lookup_weaken.
Qed.

(** ** Steps that leave the senders alone *)
Lemma Ginv_frame s t s' :
  Ginv s t -> same_core (gw s) (gw s') -> grows s s' ->
  root s' = root s -> issued s' = issued s -> root_chans s' ## clone_chans s' ->
  (forall c x, c ∈ root_chans s' -> queued (gw s') c x ->
     c ∈ root_chans s /\ queued (gw s) c x \/ root_cmd s' x) ->
  (forall c x, c ∈ clone_chans s' -> queued (gw s') c x ->
     c ∈ clone_chans s /\ queued (gw s) c x) ->
  (forall c x, (c, x) ∈ tasks s' ->
     (c, x) ∈ tasks s \/ c ∈ root_chans s' /\ root_cmd s' x) ->
  (forall id g, clones s' !! id = Some g ->
     clones s !! id = Some g
     \/ exists id' c p, g = Clone id' c p /\ c ∈ clone_chans s' /\ p ∈ root_chans s') ->
  Ginv s' t.
Proof.
  intros [] [Eu Ep Es Ec] Hg Er Ei Hd Hrq Hcq Ht Hcl. pose proof Hg as [Hr Hc _].
  split; rewrite ?Eu, ?Ep, ?Es, ?Ec, ?Er, ?Ei; auto.
  - destruct gi_root as (tx & ? & ?). exists tx. auto.
  - intros c x Hin Hx. destruct (Hrq c x Hin Hx) as [[? ?]|]; [|done].
    eapply root_cmd_grows; eauto.
  - intros c x Hin. destruct (Ht c x Hin) as [?|?]; [|done].
    destruct (gi_tasks c x) as [? ?]; [done|]. eauto using root_cmd_grows.
  - intros c x Hin Hx. destruct (Hcq c x Hin Hx). eauto.
  - intros id g Hl. destruct (Hcl id g Hl) as [Hl'|?]; [|done].
    destruct (gi_clones id g Hl') as (id' & c & p & -> & ? & ?). exists id', c, p. auto.
  - eapply tables_alone; [done|]. intros H. set_solver.
Qed.

(** The common case: the world changes, and queues get shorter at most or take a
    valid command on a root channel. *)
Lemma Ginv_world s t w' :
  Ginv s t -> same_core (gw s) w' ->
  (forall c x, queued w' c x ->
     queued (gw s) c x \/ c ∈ root_chans s /\ root_cmd s x) ->
  Ginv (with_world w' s) t.
Proof.
  intros HI Hsc Hq. eapply Ginv_frame; eauto.
  - by apply grows_refl.
  - apply (gi_disjoint _ _ HI).
  - intros c x Hc Hx. destruct (Hq c x Hx) as [?|[? ?]]; [by left|right].
    eapply root_cmd_grows; [by apply grows_refl|done].
  - intros c x Hc Hx. destruct (Hq c x Hx) as [?|[? ?]]; [done|].
    pose proof (gi_disjoint _ _ HI). set_solver.
Qed.

(** ** The root tells its clones *)
Lemma Ginv_notified s t cmd w' :
  Ginv s t -> notified cmd (gw s) w' -> clone_cmd cmd -> follows (issued s) t cmd ->
  Ginv (with_world w' s) t.
Proof.
  intros [] [Eu Ep Ec Hs Hq] Hcmd Hf. split; cbn; rewrite ?Eu, ?Ep, ?Ec; auto.
  - eapply sublist_NoDup; [done|]. by apply fmap_sublist.
  - intros c x Hc Hx. destruct (Hq c x Hx) as [?|[-> Hin]]; [eapply gi_root_queue; eauto|].
    apply gi_senders in Hin. set_solver.
  - intros c x Hc Hx. destruct (Hq c x Hx) as [?|[-> Hin]]; [eauto|done].
  - intros c Hin. apply gi_senders. eapply elem_of_sublist; [done|].
    by apply fmap_sublist.
Qed.

(** ** Steps that change the senders and the table *)
Lemma Ginv_tables s t s' t' :
  Ginv s t -> chans (gw s') = chans (gw s) -> commands (gw s') = commands (gw s) ->
  clone_senders (gw s') = clone_senders (gw s) ->
  root s' = root s -> clones s' = clones s -> tasks s' = tasks s ->
  root_chans s' = root_chans s -> clone_chans s' = clone_chans s ->
  issued s ⊆ issued s' ->
  frim_wf (updates (gw s')) -> frim_wf (suspended (gw s')) ->
  (forall slot, is_Some (issued s !! slot) -> t !! slot = None -> t' !! slot = None) ->
  tables_ok (issued s') (frim_view (updates (gw s'))) (frim_view (suspended (gw s'))) t'
    (clone_chans s = ∅) ->
  Ginv s' t'.
Proof.
  intros [] Eh Ec Es Er El Et Erc Ecc Hi Hu Hp Ht HT.
  assert (Hg : grows s s') by (split; by rewrite ?Erc, ?Ecc).
  assert (Hq : forall c x, queued (gw s') c x -> queued (gw s) c x)
    by (intros ? ?; by apply queued_chans).
  split; rewrite ?Ec, ?Es, ?Er, ?El, ?Et, ?Erc, ?Ecc; auto.
  - intros c x Hc Hx. eapply root_cmd_grows; eauto.
  - intros c x Hin. destruct (gi_tasks c x Hin). eauto using root_cmd_grows.
  - intros c x Hc Hx. destruct (gi_clone_queue c x Hc (Hq _ _ Hx)) as [? Hf].
    split; [done|]. apply (follows_grows (issued s)); [done|].
    destruct x; cbn in *; try done. naive_solver.
Qed.

(** ** The commands of the root *)

Definition after (w : World) (i : gmap Uuid UpdateSender) (s : GSys) : GSys :=
  mk_gsys w (root s) (clones s) (tasks s) i (root_chans s) (clone_chans s).

Lemma suspension_core slot b w :
  chans (suspension slot b w) = chans w /\ commands (suspension slot b w) = commands w
  /\ clone_senders (suspension slot b w) = clone_senders w.
Proof.
  unfold suspension. destruct b.
  - by destruct (frim_remove slot (updates w)) as [[r|] u].
  - by destruct (frim_remove slot (suspended w)) as [[r|] u].
Qed.

(** What a suspension does to the two maps. *)
Lemma suspension_views slot b w :
  frim_wf (updates w) -> frim_wf (suspended w) ->
  let w' := suspension slot b w in
  frim_wf (updates w') /\ frim_wf (suspended w')
  /\ frim_view (updates w')
     = (if b then delete slot (frim_view (updates w))
        else match frim_view (suspended w) !! slot with
             | Some r => <[slot := r]> (frim_view (updates w))
             | None => frim_view (updates w) end)
  /\ frim_view (suspended w')
     = (if b then match frim_view (updates w) !! slot with
                  | Some r => <[slot := r]> (frim_view (suspended w))
                  | None => frim_view (suspended w) end
        else delete slot (frim_view (suspended w))).
Proof.
  intros Hu Hp w'. subst w'. unfold suspension. destruct b.
  - rewrite <- (frim_remove_found slot (updates w)), <- frim_view_remove by done.
    pose proof (frim_wf_remove slot _ Hu).
    destruct (frim_remove slot (updates w)) as [[r|] u]; cbn in *;
      auto using frim_wf_insert, frim_view_insert.
  - rewrite <- (frim_remove_found slot (suspended w)), <- frim_view_remove by done.
    pose proof (frim_wf_remove slot _ Hp).
    destruct (frim_remove slot (suspended w)) as [[r|] u]; cbn in *;
      auto using frim_wf_insert, frim_view_insert.
Qed.

Lemma Ginv_suspension s t slot b :
  Ginv s t ->
  Ginv (after (suspension slot b (gw s)) (issued s) s) (alter (fun q => (q.1, b)) slot t).
Proof.
  intros HI. pose proof HI as [].
  destruct (suspension_core slot b (gw s)) as (? & ? & ?).
  destruct (suspension_views slot b (gw s)) as (? & ? & Eu & Ep); [done|done|].
  eapply Ginv_tables; eauto; cbn.
  - intros k _ Hk. destruct (decide (slot = k)) as [<-|].
    + by rewrite lookup_alter_eq, Hk.
    + by rewrite lookup_alter_ne.
  - rewrite Eu, Ep. destruct b; [by apply tables_suspend|by apply tables_resume].
Qed.

(** The entry of a new subscription, before anybody is told. *)
Definition enter (slot : Uuid) (susp : bool) (r : option Uuid) (snd : UpdateSender)
    (w : World) : World :=
  let w' := match r with
            | Some q => set_queues (<[q := new_chan (queue_size w)]>) w
            | None => w end in
  if susp then set_suspended (frim_insert slot snd) w'
  else set_updates (frim_insert slot snd) w'.

Definition receiver_for (slot : Uuid) (d : option TargetId) : option Uuid :=
  match d with Some _ => None | None => Some slot end.

Lemma Ginv_enter s t slot susp r snd f :
  Ginv s t -> issued s !! slot = None ->
  Ginv (after (set_responses f (enter slot susp r snd (gw s))) (<[slot := snd]> (issued s)) s)
    (<[slot := (snd, susp)]> t).
Proof.
  intros HI Hnew. pose proof HI as []. unfold after, enter.
  eapply Ginv_tables; eauto; cbn; try (by destruct susp, r).
  - by apply insert_subseteq.
  - destruct susp, r; cbn; auto using frim_wf_insert.
  - destruct susp, r; cbn; auto using frim_wf_insert.
  - intros k [v Hk] Ht. rewrite lookup_insert_ne; congruence.
  - pose proof (tables_insert _ _ _ _ _ slot snd susp gi_tables Hnew) as HT.
    destruct susp, r; cbn; by rewrite frim_view_insert.
Qed.

(** A slot that is drawn, entered and taken out again. *)
Lemma Ginv_drawn s t slot snd w' :
  Ginv s t -> issued s !! slot = None ->
  chans w' = chans (gw s) -> commands w' = commands (gw s) ->
  clone_senders w' = clone_senders (gw s) ->
  frim_wf (updates w') -> frim_wf (suspended w') ->
  frim_view (updates w') = frim_view (updates (gw s)) ->
  frim_view (suspended w') = frim_view (suspended (gw s)) ->
  Ginv (after w' (<[slot := snd]> (issued s)) s) t.
Proof.
  intros HI Hnew ? ? ? ? ? Eu Ep. pose proof HI as [].
  eapply Ginv_tables; eauto; cbn; [by apply insert_subseteq|].
  rewrite Eu, Ep. by apply tables_issue.
Qed.

Lemma frim_insert_remove {V} (slot : Uuid) (v : V) m :
  frim_wf m -> frim_view m !! slot = None ->
  frim_wf (frim_remove slot (frim_insert slot v m)).2
  /\ frim_view (frim_remove slot (frim_insert slot v m)).2 = frim_view m.
Proof.
  intros Hwf Hn. split; [auto using frim_wf_insert, frim_wf_remove|].
  rewrite frim_view_remove, frim_view_insert by auto using frim_wf_insert.
  by rewrite delete_insert_id.
Qed.

(** Nobody waits for the answer: the slot is taken out again. *)
Definition withdraw_entry (slot : Uuid) (susp : bool) (r : option Uuid) (w : World) : World :=
  let w' := match r with Some q => set_queues (alter hang_up q) w | None => w end in
  if susp then set_suspended (fun m => (frim_remove slot m).2) w'
  else set_updates (fun m => (frim_remove slot m).2) w'.

Lemma Ginv_unheard s t slot susp r snd :
  Ginv s t -> issued s !! slot = None ->
  Ginv (after (withdraw_entry slot susp r (enter slot susp r snd (gw s)))
          (<[slot := snd]> (issued s)) s) t.
Proof.
  intros HI Hnew. pose proof HI as []. pose proof (gi_tables slot) as Hs.
  rewrite Hnew in Hs. apply slot_ok_fresh in Hs as (Hu & Hp & _).
  destruct (frim_insert_remove slot snd (updates (gw s))) as [? ?]; [done|done|].
  destruct (frim_insert_remove slot snd (suspended (gw s))) as [? ?]; [done|done|].
  unfold withdraw_entry, enter. destruct susp, r; by apply Ginv_drawn.
Qed.

(** A queue can be made for the link, if it needs one. *)
Definition queue_fits (d : option TargetId) (w : World) : bool :=
  match d with Some _ => true | None => capacity_ok (queue_size w) end.

Lemma subscribe_no_room g slot susp resp d w :
  queue_fits d w = false -> (subscribe g slot susp resp d w).1 = None.
Proof.
  unfold subscribe. destruct d; [done|]. cbn. intros Hq. run_unfold. by rewrite Hq.
Qed.

(** A subscription for which a queue can be made. *)
Definition subscribe_known (self : GateState) (slot : Uuid) (susp : bool)
    (response : RespId) (d : option TargetId) : Run World unit :=
  w0 ← run_get;
  let update_sender := sender_for slot d in
  let receiver := receiver_for slot d in
  _ ← run_modify (fun w =>
        match receiver with
        | Some q => set_queues (<[q := new_chan (queue_size w0)]>) w
        | None => w
        end);
  _ ← run_modify (if susp then set_suspended (frim_insert slot update_sender)
                  else set_updates (frim_insert slot update_sender));
  match responses w0 !! response with
  | Some Waiting =>
      _ ← run_modify (set_responses (<[response := Answered (mk_response slot receiver)]>));
      notify_clones self (FollowSubscribe slot update_sender)
  | _ =>
      _ ← run_modify (fun w =>
            match receiver with Some q => set_queues (alter hang_up q) w | None => w end);
      run_modify (if susp then set_suspended (fun m => (frim_remove slot m).2)
                  else set_updates (fun m => (frim_remove slot m).2))
  end.

Lemma subscribe_fits g slot susp resp d w :
  queue_fits d w = true ->
  subscribe g slot susp resp d w = subscribe_known g slot susp resp d w.
Proof.
  intros Hq. unfold subscribe, subscribe_known. destruct d as [d|]; [done|].
  cbn in Hq. run_unfold. by rewrite Hq.
Qed.

Lemma Ginv_subscribe s t tx slot susp resp d :
  Ginv s t -> issued s !! slot = None -> queue_fits d (gw s) = true ->
  let ev := mk_event slot (Subscribe susp resp d) (heard (gw s) (Subscribe susp resp d)) in
  exists w', subscribe (Normal tx) slot susp resp d (gw s) = (Some tt, w')
    /\ Ginv (after w' (issue ev (issued s)) s) (table_step t ev).
Proof.
  intros HI Hnew Hfit ev. unfold ev, issue, table_step, heard; cbn [ev_cmd ev_slot ev_heard].
  rewrite subscribe_fits by done. unfold subscribe_known.
  set (snd := sender_for slot d). set (r := receiver_for slot d).
  pose proof (Ginv_unheard s t slot susp r snd HI Hnew) as HU.
  run_unfold. destruct (responses (gw s) !! resp) as [[| |]|] eqn:Hr;
    [|eexists; split; [done|]; destruct susp, r; apply HU..].
  set (f := <[resp := Answered (mk_response slot r)]>).
  pose proof (Ginv_enter s t slot susp r snd f HI Hnew) as HE.
  destruct (notify_clones_spec (Normal tx) (FollowSubscribe slot snd)
              (set_responses f (enter slot susp r snd (gw s))) eq_refl) as (w' & Hn & Hnt).
  exists w'. split; [destruct susp; exact Hn|].
  apply (Ginv_notified _ _ _ w' HE Hnt); cbn; [done|]. by rewrite lookup_insert_eq.
Qed.

Lemma Ginv_unsubscribe s t tx slot :
  Ginv s t -> is_Some (issued s !! slot) ->
  exists w', unsubscribe (Normal tx) slot (gw s) = (Some tt, w')
    /\ Ginv (after w' (issued s) s) (delete slot t).
Proof.
  intros HI Hi. pose proof HI as []. unfold unsubscribe. run_unfold.
  set (w1 := set_updates (fun m => (frim_remove slot m).2)
               (set_suspended (fun m => (frim_remove slot m).2) (gw s))).
  assert (H1 : Ginv (after w1 (issued s) s) (delete slot t)).
  { eapply Ginv_tables; eauto; cbn; auto using frim_wf_remove.
    - intros k _ Hk. rewrite lookup_delete. by case_decide.
    - rewrite !frim_view_remove by done. by apply tables_delete. }
  destruct (notify_clones_spec (Normal tx) (FollowUnsubscribe slot) w1 eq_refl)
    as (w' & Hn & Hnt).
  exists w'. split; [done|]. apply (Ginv_notified _ _ _ w' H1 Hnt); cbn; [done|].
  by rewrite lookup_delete_eq.
Qed.

Lemma Ginv_senders s t m :
  Ginv s t -> frim_wf m -> (forall c, c ∈ m.*2 -> c ∈ clone_chans s) ->
  Ginv (with_world (set_clone_senders (fun _ => m) (gw s)) s) t.
Proof. intros [] Hwf Hm. by split. Qed.

Lemma Ginv_attach s t id tx :
  Ginv s t -> tx ∈ clone_chans s ->
  Ginv (with_world (set_clone_senders (frim_insert id tx) (gw s)) s) t.
Proof.
  intros HI Htx. pose proof HI as [].
  apply (Ginv_senders _ _ (frim_insert id tx (clone_senders (gw s))));
    [done|by apply frim_wf_insert|].
  intros c. unfold frim_insert. rewrite fmap_app, elem_of_app.
  intros [Hin| ->%list_elem_of_singleton]; [|done]. apply gi_senders.
  eapply elem_of_sublist; [done|]. apply fmap_sublist, sublist_filter.
Qed.

Lemma Ginv_detach s t id :
  Ginv s t ->
  Ginv (with_world (set_clone_senders (fun m => (frim_remove id m).2) (gw s)) s) t.
Proof.
  intros HI. pose proof HI as [].
  apply (Ginv_senders _ _ (frim_remove id (clone_senders (gw s))).2);
    [done|by apply frim_wf_remove|].
  intros c. rewrite frim_remove_filter by done; cbn. intros Hin. apply gi_senders.
  eapply elem_of_sublist; [done|]. apply fmap_sublist, sublist_filter.
Qed.

Lemma hang_up_queued w c c' x :
  queued (put_chan c (hang_up (chan_of w c)) w) c' x -> queued w c' x.
Proof. by intros [[_ Hx%elem_of_nil]|[_ ?]]%queued_put. Qed.

Lemma Ginv_hang_up s t c :
  Ginv s t -> Ginv (with_world (put_chan c (hang_up (chan_of (gw s) c)) (gw s)) s) t.
Proof.
  intros HI. apply Ginv_world; [done|apply same_core_put|].
  intros ? ? ?%hang_up_queued. by left.
Qed.

Lemma Ginv_set_root s t id c :
  Ginv s t -> c ∈ root_chans s -> Ginv (with_world (set_root id c (gw s)) s) t.
Proof. intros [] Hc. by split. Qed.

Lemma Ginv_reconfigure s t tx slot cfg ng :
  Ginv s t -> link_command s (Reconfigure cfg ng) ->
  exists w', handle (Normal tx) slot (Reconfigure cfg ng) (gw s)
             = (Some (Some (Status (Reconfiguring cfg))), w')
    /\ Ginv (after w' (issued s) s) (filter (fun q => q.2.2 = true) t).
Proof.
  intros HI [Hc Hu]. cbn [handle is_clone]. run_unfold.
  set (w0 := put_chan _ _ (gw s)). set (w1 := set_updates _ _).
  assert (H0 : Ginv (with_world (set_root (ng_id ng) (ng_commands ng) w0) s) t)
    by exact (Ginv_set_root (with_world w0 s) t _ _ (Ginv_hang_up s t _ HI) Hc).
  assert (H1 : Ginv (after w1 (issued s) s) (filter (fun q => q.2.2 = true) t)).
  { pose proof H0 as []. eapply (Ginv_tables _ _ _ _ H0); cbn; try done.
    - unfold frim_replace. rewrite Hu. apply frim_wf_default.
    - intros k _ Hk. rewrite map_lookup_filter, Hk. done.
    - unfold frim_replace. rewrite Hu. by eapply tables_reconfigure. }
  destruct (notify_clones_spec (Normal tx) (FollowReconfigure cfg) w1 eq_refl)
    as (w' & Hn & Hnt).
  rewrite Hn. exists w'. split; [done|]. by apply (Ginv_notified _ _ _ w' H1 Hnt).
Qed.

(** ReportLinks, Trigger and Terminate are passed on. *)
Lemma Ginv_passed_on s t tx cmd w' :
  Ginv s t -> notify_clones (Normal tx) cmd (gw s) = (Some tt, w') ->
  clone_command cmd = Some cmd /\ clone_cmd cmd /\ follows (issued s) t cmd
  \/ clone_command cmd = None ->
  Ginv (after w' (issued s) s) t.
Proof.
  intros HI Hn [(Hcl & ? & ?)|Hcl].
  - destruct (notify_clones_spec (Normal tx) cmd (gw s) Hcl) as (w1 & Hn' & Hnt).
    rewrite Hn in Hn'. injection Hn' as <-. by apply (Ginv_notified s t cmd).
  - destruct (clone_senders (gw s)) eqn:Hs.
    + rewrite notify_clones_none in Hn by done. injection Hn as <-. by destruct s.
    + apply (notify_clones_panics tx _ (gw s)) in Hcl; [|by rewrite Hs].
      by rewrite Hn in Hcl.
Qed.

Lemma Ginv_root_handle s t tx slot cmd r w2 :
  Ginv s t -> root_cmd s cmd -> issued s !! slot = None ->
  handle (Normal tx) slot cmd (gw s) = (Some r, w2) ->
  let ev := mk_event slot cmd (heard (gw s) cmd) in
  Ginv (after w2 (issue ev (issued s)) s) (table_step t ev).
Proof.
  intros HI Hc Hnew Hh ev. subst ev.
  destruct cmd as [|sl b|susp resp d|sl|sl u|sl|cfg ng|cfg|da| |cid c|cid];
    cbn [handle is_clone] in Hh; try (by destruct Hc as [[]|[(?&?&?&?)|[? ?]]]).
  - (* ReportLinks *)
    revert Hh. run_unfold. destruct (notify_clones _ _ _) as [[[]|] w'] eqn:Hn; [|done].
    intros [= <- <-]. eapply Ginv_passed_on; [done|exact Hn|cbn; auto].
  - revert Hh. run_unfold. intros [= <- <-]. by apply Ginv_suspension.
  - revert Hh. run_unfold. destruct (queue_fits d (gw s)) eqn:Hfit.
    + destruct (Ginv_subscribe s t tx slot susp resp d HI Hnew Hfit) as (w' & Hs & HI').
      rewrite Hs. by intros [= <- <-].
    + apply (subscribe_no_room (Normal tx) slot susp resp) in Hfit.
      by destruct (subscribe _ _ _ _ _ _) as [[]].
  - destruct Hc as [Hi|[(?&?&?&?)|[? ?]]]; [|done..].
    destruct (Ginv_unsubscribe s t tx sl HI Hi) as (w' & Hs & HI').
    revert Hh. run_unfold. rewrite Hs. by intros [= <- <-].
  - destruct Hc as [Hi|[(?&?&?&?)|[? ?]]]; [|done..].
    destruct (Ginv_reconfigure s t tx slot cfg ng HI Hi) as (w' & Hs & HI').
    cbn [handle is_clone] in Hs. rewrite Hs in Hh. by injection Hh as <- <-.
  - revert Hh. run_unfold. destruct (notify_clones _ _ _) as [[[]|] w'] eqn:Hn; [|done].
    intros [= <- <-]. eapply Ginv_passed_on; [done|exact Hn|cbn; auto].
  - revert Hh. run_unfold. destruct (notify_clones _ _ _) as [[[]|] w'] eqn:Hn; [|done].
    intros [= <- <-]. eapply Ginv_passed_on; [done|exact Hn|cbn; auto].
  - destruct Hc as [[]|[(id & c2 & [= -> ->] & Hin)|[? ?]]]; [|done].
    revert Hh. run_unfold. intros [= <- <-]. by apply Ginv_attach.
  - revert Hh. run_unfold. intros [= <- <-]. by apply Ginv_detach.
Qed.

(** ** The commands of a clone *)
Lemma Ginv_clone_handle s t id c p slot cmd r w2 :
  Ginv s t -> clone_cmd cmd -> follows (issued s) t cmd -> clone_chans s <> ∅ ->
  handle (Clone id c p) slot cmd (gw s) = (Some r, w2) ->
  Ginv (with_world w2 s) t.
Proof.
  intros HI Hc Hf Hne Hh. pose proof HI as [].
  assert (HF : tables_ok (issued s) (frim_view (updates (gw s)))
                 (frim_view (suspended (gw s))) t False)
    by (by eapply tables_alone).
  destruct cmd; try done; cbn [handle is_clone] in Hh; revert Hh; run_unfold;
    intros [= <- <-]; try done.
  - eapply (Ginv_tables _ _ _ _ HI); cbn; auto using frim_wf_insert.
    eapply tables_alone; [|exact Hne].
    rewrite frim_view_insert by done. by apply tables_follow.
  - destruct Hf as [_ Hf].
    eapply (Ginv_tables _ _ _ _ HI); cbn; auto using frim_wf_remove.
    eapply tables_alone; [|exact Hne].
    rewrite frim_view_remove by done. by apply tables_unfollow.
Qed.

(** ** The steps *)

Lemma Ginv_recv s t g cmd w1 :
  Ginv s t -> recv g (gw s) = (Some (Some cmd), w1) -> Ginv (with_world w1 s) t.
Proof.
  intros HI (? & _ & _ & Hq)%recv_inv. apply Ginv_world; [done|done|].
  intros c x ?%Hq. by left.
Qed.

Lemma Ginv_step_root s t slot cmd w1 r w2 :
  Ginv s t -> recv (root s) (gw s) = (Some (Some cmd), w1) ->
  issued s !! slot = None -> handle (root s) slot cmd w1 = (Some r, w2) ->
  let ev := mk_event slot cmd (heard w1 cmd) in
  Ginv (after w2 (issue ev (issued s)) s) (table_step t ev).
Proof.
  intros HI Hr Hnew Hh. pose proof (Ginv_recv _ _ _ _ _ HI Hr) as H1.
  destruct (gi_root _ _ HI) as (tx & Hroot & _). rewrite Hroot in *.
  apply recv_inv in Hr as (_ & _ & Hq & _).
  apply (Ginv_root_handle (with_world w1 s) t tx slot cmd r w2 H1); [|done..].
  eapply root_cmd_grows; [by apply (grows_refl s)|].
  exact (gi_root_queue _ _ HI _ _ (gi_commands _ _ HI) Hq).
Qed.

Lemma Ginv_step_clone s t id g slot cmd w1 r w2 :
  Ginv s t -> clones s !! id = Some g -> recv g (gw s) = (Some (Some cmd), w1) ->
  handle g slot cmd w1 = (Some r, w2) -> Ginv (with_world w2 s) t.
Proof.
  intros HI Hl Hr Hh. pose proof (Ginv_recv _ _ _ _ _ HI Hr) as H1.
  destruct (gi_clones _ _ HI _ _ Hl) as (id' & c & p & -> & Hc & _).
  apply recv_inv in Hr as (_ & _ & Hq & _).
  destruct (gi_clone_queue _ _ HI c cmd Hc Hq) as [? ?].
  eapply (Ginv_clone_handle (with_world w1 s)); eauto. cbn. set_solver.
Qed.

(** A gate has its parent's channel among those of root gates. *)
Lemma member_parent s t g :
  Ginv s t -> member s g ->
  match g with Normal c => c | Clone _ _ c => c end ∈ root_chans s.
Proof.
  intros HI [->|[id Hl]].
  - by destruct (gi_root _ _ HI) as (tx & -> & ?).
  - by destruct (gi_clones _ _ HI _ _ Hl) as (id' & c & p & -> & _ & ?).
Qed.

Lemma new_chan_queued tx w c x :
  queued (put_chan tx (new_chan COMMAND_QUEUE_LEN) w) c x -> c <> tx /\ queued w c x.
Proof. by intros [[_ Hx%elem_of_nil]|[? ?]]%queued_put. Qed.

Lemma Ginv_make_clone s t g id tx g' task w' :
  Ginv s t -> member s g -> tx ∉ root_chans s ∪ clone_chans s ->
  gate_clone g id tx (gw s) = (g', task, w') ->
  Ginv (mk_gsys w' (root s) (<[id := g']> (clones s)) (task :: tasks s) (issued s)
          (root_chans s) ({[tx]} ∪ clone_chans s)) t.
Proof.
  intros HI Hm Htx. unfold gate_clone. intros [= <- <- <-].
  pose proof (member_parent _ _ _ HI Hm) as Hp. pose proof (gi_disjoint _ _ HI).
  set (s' := mk_gsys _ _ _ _ _ _ _).
  assert (Hg : grows s s') by (split; cbn; set_solver).
  apply (Ginv_frame s t s' HI); cbn; try done; [set_solver|..].
  - intros c x Hc [_ ?]%new_chan_queued. by left.
  - intros c x Hc [? ?]%new_chan_queued. set_solver.
  - intros c x [Hx|?]%elem_of_cons; [|by left]. injection Hx as -> ->. right. split; [done|].
    right; left. eexists _, _. split; [done|]. cbn. set_solver.
  - intros k g'. destruct (decide (id = k)) as [<-|].
    + rewrite lookup_insert_eq. intros [= <-]. right. eexists _, _, _.
      split; [done|]. set_solver.
    + rewrite lookup_insert_ne by done. by left.
Qed.

Lemma Ginv_drop_gate s t g w' :
  Ginv s t -> member s g -> gate_drop g (gw s) = Some w' -> Ginv (with_world w' s) t.
Proof.
  intros HI Hm. pose proof (member_parent _ _ _ HI Hm) as Hp.
  destruct g as [c|id c p]; cbn.
  { intros [= <-]. by apply Ginv_hang_up. }
  destruct (send _ _) as [[ok ch]|] eqn:Hs; [|done].
  assert (HS : send_command p (DetachClone id) (gw s)
               = Some (ok, if ok then put_chan p ch (gw s) else gw s))
    by (unfold send_command; by rewrite Hs).
  assert (H1 : Ginv (with_world (if ok then put_chan p ch (gw s) else gw s) s) t).
  { apply send_command_inv in HS as [? Hq]. apply Ginv_world; [done|done|].
    intros c' x [?|[-> ->]]%Hq; [by left|right]. split; [done|].
    right; right. by exists id. }
  destruct ok; cbn; intros [= <-]; apply (Ginv_hang_up _ _ c H1).
Qed.

Lemma Ginv_forget_clone s t id :
  Ginv s t ->
  Ginv (mk_gsys (gw s) (root s) (delete id (clones s)) (tasks s) (issued s)
          (root_chans s) (clone_chans s)) t.
Proof.
  intros HI. apply (Ginv_frame s t); cbn; auto using same_core_refl, grows_refl.
  - apply (gi_disjoint _ _ HI).
  - intros k g [_ ?]%lookup_delete_Some. by left.
Qed.

(** A command that is sent or about to be sent; fewer tasks are fine. *)
Lemma Ginv_tasks s t l :
  Ginv s t -> (forall c x, (c, x) ∈ l -> (c, x) ∈ tasks s \/ c ∈ root_chans s /\ root_cmd s x) ->
  Ginv (mk_gsys (gw s) (root s) (clones s) l (issued s) (root_chans s) (clone_chans s)) t.
Proof.
  intros HI Hl. apply (Ginv_frame s t); cbn; auto using same_core_refl, grows_refl.
  - apply (gi_disjoint _ _ HI).
Qed.

Lemma Ginv_send s t tx cmd ok w' :
  Ginv s t -> tx ∈ root_chans s -> root_cmd s cmd ->
  send_command tx cmd (gw s) = Some (ok, w') -> Ginv (with_world w' s) t.
Proof.
  intros HI Htx Hcmd [? Hq]%send_command_inv. apply Ginv_world; [done|done|].
  intros c x [?|[-> ->]]%Hq; auto.
Qed.

Lemma Ginv_new_gate s t tx :
  Ginv s t -> tx ∉ root_chans s ∪ clone_chans s ->
  Ginv (mk_gsys (put_chan tx (new_chan COMMAND_QUEUE_LEN) (gw s)) (root s) (clones s)
          (tasks s) (issued s) ({[tx]} ∪ root_chans s) (clone_chans s)) t.
Proof.
  intros HI Htx. pose proof (gi_disjoint _ _ HI).
  apply (Ginv_frame s t); cbn; auto using same_core_put; [split; cbn; set_solver|set_solver|..].
  - intros c x Hc [? ?]%new_chan_queued. left. set_solver.
  - by intros c x Hc [? ?]%new_chan_queued.
Qed.

Lemma Ginv_quiet s t w' :
  Ginv s t -> same_core (gw s) w' -> chans w' = chans (gw s) -> Ginv (with_world w' s) t.
Proof.
  intros HI Hsc Hch. apply Ginv_world; [done|done|]. intros c x Hx. left.
  by eapply queued_chans.
Qed.

Lemma Ginv_step s t ev s' :
  Ginv s t -> gstep s ev s' -> Ginv s' (foldl table_step t (option_list ev)).
Proof.
  intros HI Hs. destruct Hs as [slot cmd w1 r w2 Hr Hnew Hh|id g slot cmd w1 r w2 Hl Hr Hh
    |g id tx g' task w' Hm Hn Htx Hc|id g w' Hl Hd|w' Hd|l1 tx cmd l2 ok w' Ht Hsd
    |tx cmd ok w' Htx Hc Hsd|tx cmd Htx Hc|tx Htx|tx Htx Hne|u now res w' Hu
    |items u sent now res w' Hu|q r l]; cbn [option_list foldl].
  - by eapply Ginv_step_root.
  - by eapply Ginv_step_clone.
  - by eapply Ginv_make_clone.
  - eapply (Ginv_forget_clone (with_world w' s)), Ginv_drop_gate; [done|right; eauto|done].
  - eapply Ginv_drop_gate; [done|by left|done].
  - destruct (gi_tasks _ _ HI tx cmd) as [? ?]; [rewrite Ht; set_solver|].
    apply (Ginv_tasks (with_world w' s)); [by eapply Ginv_send|].
    intros c x Hin. left; cbn. rewrite Ht. set_solver.
  - eapply Ginv_send; eauto. by left.
  - apply (Ginv_tasks s); [done|].
    intros c x [[= -> ->]|?]%elem_of_cons; [right|by left]. split; [done|by left].
  - by apply Ginv_new_gate.
  - by apply Ginv_hang_up.
  - apply update_data_core in Hu as [? ?]. by apply Ginv_quiet.
  - apply send_updates_core in Hu as [[] ?].
    apply Ginv_quiet; [done|case_decide; by split|by case_decide].
  - by apply Ginv_quiet.
Qed.

Lemma Ginv_new qsize id tx : Ginv (gsys_new qsize id tx) ∅.
Proof.
  unfold gsys_new, gate_new. split; cbn; try done; try apply frim_wf_default; try set_solver.
  intros c cmd _. unfold queued, chan_of; cbn. rewrite lookup_singleton.
  case_decide; cbn; by intros ?%elem_of_nil.
Qed.

Lemma Ginv_steps s evs s' t :
  gsteps s evs s' -> Ginv s t -> Ginv s' (foldl table_step t evs).
Proof.
  induction 1 as [|evs s1 ev s2 _ IH Hs]; [done|]. intros HI.
  rewrite foldl_app. eapply Ginv_step; eauto.
Qed.

(** Every state a new gate can get into. *)
Lemma Ginv_reachable qsize id tx evs s :
  gsteps (gsys_new qsize id tx) evs s -> Ginv s (table_of evs).
Proof. intros Hs. eapply Ginv_steps; [done|apply Ginv_new]. Qed.

End Preservation.
