(* ===== verification/GateProps.v ===== *)
(** * Properties of gates

    What [update_data] sends and to whom, when [process] panics and that it
    comes to an end, what [notify_clones] does to each clone, and what is lost
    after a reconfiguration. *)

From S2P Require Import Prelude Net Payload Frim Gate GateSys GateInv.
From Stdlib Require Import ZArith Lia.
From stdpp Require Import base numbers list gmap fin_maps.

Local Open Scope Z_scope.

Section Props.
Context `{E : Extern} `{L : Layout} {GT : GateTypes}.
Implicit Types (s : GSys) (t : Table) (w : World) (u : Update).

(** ** [update_data] *)

(** The call of a target that a sender stands for. *)
Definition direct_call (live : gset TargetId) (item : Uuid * UpdateSender)
    : option (Uuid * TargetId) :=
  match us_queue item.2, us_direct item.2 with
  | None, Some d => if bool_decide (d ∈ live) then Some (item.1, d) else None
  | _, _ => None
  end.

Lemma send_updates_direct items u sent w sent' w' :
  send_updates items u sent w = ((sent', []), w') ->
  delivered w'
  = delivered w ++ ((fun c => (c.2, u)) <$> omap (direct_call (live_targets w)) items).
Proof.
  revert sent w. induction items as [|[slot [q d]] items IH]; intros sent w; cbn.
  { intros [= <- <-]. by rewrite app_nil_r. }
  destruct q as [q|], d as [d|]; cbn; [by eauto| | |by eauto].
  - destruct (send _ _) as [[[] ch]|]; [|by eauto|done]. by intros ->%IH.
  - case_bool_decide; [|by eauto]. intros ->%IH; cbn. by rewrite <- app_assoc.
Qed.

Lemma omap_calls live items :
  NoDup items.*1 -> NoDup (omap (direct_call live) items).*1.
Proof.
  intros Hnd. apply (sublist_NoDup _ items.*1); [done|].
  clear Hnd. induction items as [|[slot [q d]] items IH]; [done|].
  cbn [omap list_omap fmap list_fmap]. unfold direct_call at 1; cbn.
  destruct q, d; cbn; try (by constructor). case_bool_decide; cbn; by constructor.
Qed.

Lemma direct_call_elem live (items : list (Uuid * UpdateSender)) (slot : Uuid) d :
  (slot, d) ∈ omap (direct_call live) items
  <-> (slot, mk_sender None (Some d)) ∈ items /\ d ∈ live.
Proof.
  rewrite list_elem_of_omap. split.
  - intros ([sl [q d']] & Hin & Hc). unfold direct_call in Hc; cbn in Hc.
    destruct q, d'; try done. case_bool_decide; naive_solver.
  - intros [Hin Hd]. eexists. split; [done|]. unfold direct_call; cbn.
    by rewrite bool_decide_eq_true_2.
Qed.

(** A queue that is not named is left alone. *)
Lemma send_updates_other_queue items u sent w res w' k :
  send_updates items u sent w = (res, w') ->
  (forall slot snd, (slot, snd) ∈ items -> us_queue snd <> Some k) ->
  queues w' !! k = queues w !! k.
Proof.
  revert sent w. induction items as [|[slot [q d]] items IH]; intros sent w; cbn.
  { by intros [= <- <-]. }
  intros Hs Hk.
  assert (Hk' : forall slot snd, (slot, snd) ∈ items -> us_queue snd <> Some k)
    by (intros; eapply Hk, elem_of_cons; by right).
  assert (Hq : q <> Some k) by (apply (Hk slot (mk_sender q d)); set_solver).
  revert Hs. destruct q as [q|], d as [d|]; cbn; [by eauto| | |by eauto].
  - destruct (send _ _) as [[[] ch]|]; [|by eauto|by intros [= <- <-]].
    intros Hs. rewrite (IH _ _ Hs Hk'); cbn. rewrite lookup_insert_ne; congruence.
  - case_bool_decide; [|by eauto]. intros Hs. by rewrite (IH _ _ Hs Hk').
Qed.

(** Each queued link that still listens gets the update once. *)
Lemma send_updates_queue items u sent w sent' w' slot ch :
  send_updates items u sent w = ((sent', []), w') ->
  NoDup items.*1 ->
  (forall k snd q, (k, snd) ∈ items -> us_queue snd = Some q -> q = k) ->
  (slot, mk_sender (Some slot) None) ∈ items ->
  queues w !! slot = Some ch -> ch_rx ch = true ->
  queues w' !! slot = Some (push (inl u) ch).
Proof.
  revert sent w. induction items as [|[k [q d]] items IH]; intros sent w; [set_solver|].
  intros Hs [Hni Hnd]%NoDup_cons Hname Hin Hq Hrx.
  assert (Hname' : forall k snd q, (k, snd) ∈ items -> us_queue snd = Some q -> q = k)
    by (intros; eapply Hname; [by apply elem_of_cons; right|done]).
  apply elem_of_cons in Hin as [[= <- <- <-]|Hin]; cbn in Hs.
  - rewrite Hq in Hs; cbn in Hs. unfold send, try_send in Hs. rewrite Hrx in Hs; cbn in Hs.
    case_bool_decide; [|done].
    rewrite (send_updates_other_queue _ _ _ _ _ _ slot Hs); cbn.
    + by rewrite lookup_insert_eq.
    + intros k snd Hk Hsnd. apply Hni. rewrite (Hname' k snd slot Hk Hsnd).
      by eapply list_elem_of_fmap_2' in Hk.
  - assert (Hne : q <> Some slot).
    { intros ->. rewrite (Hname k (mk_sender (Some slot) d) slot) in Hin; [|set_solver|done].
      apply Hni. by eapply list_elem_of_fmap_2' in Hin. }
    destruct q as [q|], d as [d|]; [by eauto| | |by eauto].
    + destruct (send _ _) as [[[] ch']|]; [|by eauto|done].
      eapply IH; eauto; cbn. rewrite lookup_insert_ne; congruence.
    + case_bool_decide; [|by eauto]. by eapply IH.
Qed.

Lemma send_updates_metrics items u sent w res w' :
  send_updates items u sent w = (res, w') -> gate_metrics w' = gate_metrics w.
Proof.
  revert sent w. induction items as [|[slot [q d]] items IH]; intros sent w; cbn.
  { by intros [= <- <-]. }
  destruct q as [q|], d as [d|]; cbn; [by eauto| | |by eauto].
  - destruct (send _ _) as [[[] ch]|]; [|by eauto|by intros [= <- <-]]. by intros ->%IH.
  - case_bool_decide; [|by eauto]. by intros ->%IH.
Qed.

Lemma update_data_done u now w sent w' :
  update_data u now w = ((sent, []), w') ->
  exists w1, send_updates (updates w) u false w = ((sent, []), w1)
    /\ w' = set_metrics (metrics_update u sent now) w1.
Proof.
  unfold update_data. destruct (send_updates _ _ _ _) as [[b rest] w1] eqn:Hs.
  intros [= -> -> <-]. exists w1. by rewrite decide_True.
Qed.

(** A sender behind which somebody still listens. *)
Definition listens (w : World) (item : Uuid * UpdateSender) : bool :=
  match us_queue item.2, us_direct item.2 with
  | Some q, None => ch_rx (default no_chan (queues w !! q))
  | None, Some d => bool_decide (d ∈ live_targets w)
  | _, _ => false
  end.

(** The flag says whether somebody got the update. *)
Lemma send_updates_sent items u sent w sent' w' :
  send_updates items u sent w = ((sent', []), w') ->
  sent' = sent || existsb (listens w) items.
Proof.
  revert sent w. induction items as [|[slot [q d]] items IH]; intros sent w; cbn.
  { intros [= <- <-]. by rewrite orb_false_r. }
  unfold listens at 1; cbn. destruct q as [q|], d as [d|]; cbn; [by eauto| | |by eauto].
  - unfold send, try_send. destruct (ch_rx (default no_chan (queues w !! q))) eqn:Hrx; cbn.
    + case_bool_decide; [|done]. intros ->%IH. by rewrite orb_true_r.
    + by eauto.
  - case_bool_decide; cbn; [|by eauto]. intros ->%IH. by rewrite orb_true_r.
Qed.

(** A queue is named after the slot it was made for. *)
Lemma issued_named qsize id tx evs s slot snd :
  gsteps (gsys_new qsize id tx) evs s -> issued s !! slot = Some snd ->
  exists d, snd = sender_for slot d.
Proof.
  intros Hs. revert slot snd. induction Hs as [|evs s1 ev s2 _ IH Hs]; [done|].
  intros slot snd Hi. destruct Hs; try (by eapply IH).
  unfold issue in Hi; cbn in Hi. destruct cmd; try (by eapply IH).
  apply lookup_insert_Some in Hi as [[<- <-]|[_ Hi]]; eauto.
Qed.

(** C2: a gate and its clones, after any sequence of commands, in any interleaving, refine a
    table of subscriptions: an update, sent by the root or by any clone, calls the target
    of each direct subscription that is active in the table and still alive exactly once,
    and no target without a subscription that was issued (none but the active ones when
    there are no clones); it is queued once for each active queued subscription that
    still listens; and the metrics count it as sent exactly when somebody got it. *)
Theorem updates_reach_subscribers qsize id tx evs s u now sent w' :
  gsteps (gsys_new qsize id tx) evs s ->
  update_data u now (gw s) = ((sent, []), w') ->
  (exists calls : list (Uuid * TargetId),
     NoDup calls.*1
     /\ delivered w' = delivered (gw s) ++ ((fun c => (c.2, u)) <$> calls)
     /\ (forall slot d,
           table_of evs !! slot = Some (mk_sender None (Some d), false) ->
           d ∈ live_targets (gw s) -> (slot, d) ∈ calls)
     /\ (forall slot d, (slot, d) ∈ calls ->
           d ∈ live_targets (gw s)
           /\ issued s !! slot = Some (mk_sender None (Some d))
           /\ (clone_chans s = ∅ ->
               table_of evs !! slot = Some (mk_sender None (Some d), false))))
  /\ (forall slot ch,
        table_of evs !! slot = Some (mk_sender (Some slot) None, false) ->
        queues (gw s) !! slot = Some ch -> ch_rx ch = true ->
        queues w' !! slot = Some (push (inl u) ch))
  /\ sent = existsb (listens (gw s)) (updates (gw s))
  /\ gate_metrics w' = metrics_update u sent now (gate_metrics (gw s)).
Proof.
  intros Hs Hu. pose proof (Ginv_reachable _ _ _ _ _ Hs) as [Hwf _ _ _ _ _ _ _ _ _ _ HT].
  assert (Hel : forall slot snd, (slot, snd) ∈ updates (gw s) -> issued s !! slot = Some snd).
  { intros slot snd Hin. apply (so_updates_issued _ _ _ _ _ (HT slot)).
    by apply frim_elem. }
  apply update_data_done in Hu as (w1 & Hu & ->). split_and!.
  - exists (omap (direct_call (live_targets (gw s))) (updates (gw s))). split_and!.
    + by apply omap_calls.
    + exact (send_updates_direct _ _ _ _ _ _ Hu).
    + intros slot d Ht Hd. apply direct_call_elem. split; [|done].
      apply frim_elem; [done|]. by apply (so_active _ _ _ _ _ (HT slot)).
    + intros slot d [Hin Hd]%direct_call_elem. split_and!; [done|by apply Hel|].
      intros Ha. apply (so_exact _ _ _ _ _ (HT slot) _ Ha). by apply frim_elem.
  - intros slot ch Ht Hq Hrx. cbn. eapply send_updates_queue; eauto.
    + intros k snd q Hin Hsnd. destruct (issued_named _ _ _ _ _ _ _ Hs (Hel _ _ Hin))
        as [[d|] ->]; [done|]. by injection Hsnd.
    + apply frim_elem; [done|]. by apply (so_active _ _ _ _ _ (HT slot)).
  - by apply send_updates_sent in Hu.
  - cbn. f_equal. by apply send_updates_metrics in Hu.
Qed.

(** ** Panics *)

(** A command that is cloned for the clones does not panic. *)
Lemma notify_then {A} g cmd (a : A) w :
  clone_command cmd = Some cmd ->
  ((_ ← notify_clones g cmd; mret a) w).1 <> None.
Proof.
  intros Hc. destruct (notify_clones_spec g cmd w Hc) as (w' & Hn & _).
  unfold mbind, run_bind. by rewrite Hn.
Qed.

(** The commands that make a root gate panic: a trigger while it has a clone, and
    a queued link where no queue can be made. *)
Definition panics_on (cmd : GateCommand) (w : World) : Prop :=
  match cmd with
  | Trigger _ => clone_senders w <> []
  | Subscribe _ _ d => queue_fits d w = false
  | _ => False
  end.

Lemma root_handle_panics s t tx slot cmd :
  Ginv s t -> root_cmd s cmd -> issued s !! slot = None ->
  (handle (Normal tx) slot cmd (gw s)).1 = None <-> panics_on cmd (gw s).
Proof.
  intros HI Hc Hnew. destruct cmd as [|sl b|susp resp d|sl|sl v|sl|cfg ng|cfg|da| |cid c|cid];
    cbn [handle is_clone]; try (by destruct Hc as [[]|[(?&?&?&?)|[? ?]]]);
    cbn [panics_on]; try (split; [intros Hh; exfalso; revert Hh|by intros []]).
  - by apply notify_then.
  - run_unfold. destruct (queue_fits d (gw s)) eqn:Hfit.
    + destruct (Ginv_subscribe s t tx slot susp resp d HI Hnew Hfit) as (w' & Hs & _).
      by rewrite Hs.
    + apply (subscribe_no_room (Normal tx) slot susp resp) in Hfit.
      by destruct (subscribe _ _ _ _ _ _) as [[]].
  - destruct Hc as [Hi|[(?&?&?&?)|[? ?]]]; [|done..].
    destruct (Ginv_unsubscribe s t tx sl HI Hi) as (w' & Hs & _). run_unfold. by rewrite Hs.
  - destruct Hc as [Hi|[(?&?&?&?)|[? ?]]]; [|done..].
    destruct (Ginv_reconfigure s t tx slot cfg ng HI Hi) as (w' & Hs & _).
    cbn [handle is_clone] in Hs. by rewrite Hs.
  - run_unfold. split.
    + intros Hn Hs. by rewrite notify_clones_none in Hn.
    + intros Hne. pose proof (notify_clones_panics tx (Trigger da) (gw s) eq_refl Hne) as Hn.
      destruct (notify_clones _ _ _) as [[]]; done.
  - by apply notify_then.
Qed.

Lemma clone_handle_safe id c p slot cmd w :
  clone_cmd cmd -> (handle (Clone id c p) slot cmd w).1 <> None.
Proof. by destruct cmd. Qed.

(** C16: in every reachable state, the root gate panics on the next command exactly when that
    command is a trigger while a clone is attached, or a subscription by queue with a
    queue size that no channel can have; a clone never panics. *)
Theorem gate_panics_exactly qsize id tx evs s :
  gsteps (gsys_new qsize id tx) evs s ->
  (forall slot cmd w1,
     recv (root s) (gw s) = (Some (Some cmd), w1) -> issued s !! slot = None ->
     (handle (root s) slot cmd w1).1 = None <-> panics_on cmd w1)
  /\ (forall k g slot cmd w1,
        clones s !! k = Some g -> recv g (gw s) = (Some (Some cmd), w1) ->
        (handle g slot cmd w1).1 <> None).
Proof.
  intros Hs. pose proof (Ginv_reachable _ _ _ _ _ Hs) as HI. split.
  - intros slot cmd w1 Hr Hnew. pose proof (Ginv_recv _ _ _ _ _ HI Hr) as H1.
    destruct (gi_root _ _ HI) as (tx' & Hroot & _). rewrite Hroot in *.
    apply recv_inv in Hr as (_ & _ & Hq & _).
    apply (root_handle_panics (with_world w1 s) (table_of evs)); [done| |done].
    eapply root_cmd_grows; [by apply (grows_refl s)|].
    exact (gi_root_queue _ _ HI _ _ (gi_commands _ _ HI) Hq).
  - intros k g slot cmd w1 Hl Hr.
    destruct (gi_clones _ _ HI _ _ Hl) as (id' & c & p & -> & Hc & _).
    apply recv_inv in Hr as (_ & _ & Hq & _). apply clone_handle_safe.
    by destruct (gi_clone_queue _ _ HI c cmd Hc Hq).
Qed.

(** ** [process] comes to an end

    The gate's own channel is none that its own commands feed. *)
Definition calm (g : GateState) (w : World) : Prop :=
  match g with
  | Normal _ =>
      commands w ∉ (clone_senders w).*2
      /\ (forall id tx, queued w (commands w) (AttachClone id tx) -> tx <> commands w)
  | Clone _ c _ => forall id, ~ queued w c (DetachClone id)
  end.

Lemma notify_loop_own cmd senders closed w b w' c :
  notify_loop cmd senders closed w = (Some b, w') -> c ∉ senders.*2 ->
  chan_of w' c = chan_of w c.
Proof.
  revert closed w. induction senders as [|[id k] rest IH]; intros closed w; cbn [notify_loop].
  { run_unfold. by intros [= <- <-]. }
  destruct (clone_command cmd) as [cmd'|]; [|done]. run_unfold.
  intros Hn [Hne Hni]%not_elem_of_cons; cbn in Hne. revert Hn.
  destruct (try_send cmd' (chan_of w k)) as [ch| |]; [|by eauto..].
  intros Hn. rewrite (IH _ _ Hn Hni), chan_of_put. by rewrite decide_False.
Qed.

(** Telling the clones leaves the root's own channel alone. *)
Lemma notify_clones_own tx cmd w w' :
  notify_clones (Normal tx) cmd w = (Some tt, w') -> commands w ∉ (clone_senders w).*2 ->
  commands w' = commands w /\ chan_of w' (commands w) = chan_of w (commands w)
  /\ clone_senders w' `sublist_of` clone_senders w /\ updates w' = updates w
  /\ suspended w' = suspended w.
Proof.
  intros Hn Hni. destruct (clone_command cmd) as [c'|] eqn:Hc.
  - assert (c' = cmd) as -> by (destruct cmd; cbn in Hc; congruence).
    destruct (notify_clones_spec (Normal tx) cmd w Hc) as (w2 & Hn2 & []).
    rewrite Hn in Hn2. injection Hn2 as <-. split_and!; try done.
    revert Hn. unfold notify_clones. run_unfold.
    destruct (notify_loop _ _ _ _) as [[b|] w1] eqn:Hl; [|done].
    apply (notify_loop_own _ _ _ _ _ _ (commands w)) in Hl; [|done].
    by destruct b; intros [= <-].
  - destruct (clone_senders w) eqn:Hs.
    + rewrite notify_clones_none in Hn by done. injection Hn as <-. by rewrite Hs.
    + apply (notify_clones_panics tx _ w) in Hc; [|by rewrite Hs]. by rewrite Hn in Hc.
Qed.

Lemma calm_sub tx w w' :
  calm (Normal tx) w -> commands w' = commands w ->
  chan_of w' (commands w) = chan_of w (commands w) ->
  clone_senders w' `sublist_of` clone_senders w -> calm (Normal tx) w'.
Proof.
  intros [Hni Hq] Hc Hch Hs. split; rewrite Hc.
  - intros Hin. apply Hni. eapply elem_of_sublist; [done|]. by apply fmap_sublist.
  - unfold queued. rewrite Hch. apply Hq.
Qed.

Lemma frim_remove_sublist {V} (k : Uuid) (m : list (Uuid * V)) :
  (frim_remove k m).2 `sublist_of` m.
Proof.
  induction m as [|[k' v] m IH]; [done|]. unfold frim_remove; fold (frim_remove k m).
  case_bool_decide; cbn; [by constructor|].
  destruct (frim_remove k m) as [f m']; cbn in *. by constructor.
Qed.

(** The effect of a command after which the loop goes on, on what [calm] sees. *)
Definition keeps (w w' : World) : Prop :=
  commands w' = commands w /\ chan_of w' (commands w) = chan_of w (commands w)
  /\ clone_senders w' `sublist_of` clone_senders w.

Lemma subscribe_keeps tx slot susp resp d w w' :
  commands w ∉ (clone_senders w).*2 ->
  subscribe (Normal tx) slot susp resp d w = (Some tt, w') -> keeps w w'.
Proof.
  intros Hni. destruct (queue_fits d w) eqn:Hfit; cycle 1.
  { intros Hs. apply (subscribe_no_room (Normal tx) slot susp resp) in Hfit.
    by rewrite Hs in Hfit. }
  rewrite subscribe_fits by done. unfold subscribe_known. destruct d as [d|]; run_unfold; destruct (responses w !! resp) as [[| |]|];
    try (by intros [= <-]; destruct susp);
    destruct susp; intros Hn;
    (destruct (notify_clones_own _ _ _ _ Hn) as (? & ? & ? & _); [done|by split_and!]).
Qed.

Lemma unsubscribe_keeps tx slot w w' :
  commands w ∉ (clone_senders w).*2 ->
  unsubscribe (Normal tx) slot w = (Some tt, w') -> keeps w w'.
Proof.
  intros Hni. unfold unsubscribe. run_unfold. intros Hn.
  destruct (notify_clones_own _ _ _ _ Hn) as (? & ? & ? & _); [done|by split_and!].
Qed.

Lemma root_goes_on tx slot cmd w w' :
  calm (Normal tx) w -> (forall id c, cmd = AttachClone id c -> c <> commands w) ->
  handle (Normal tx) slot cmd w = (Some None, w') ->
  commands w' = commands w /\ chan_of w' (commands w) = chan_of w (commands w)
  /\ calm (Normal tx) w'.
Proof.
  intros Hcalm Hat Hh. assert (Hk : keeps w w' -> commands w' = commands w
    /\ chan_of w' (commands w) = chan_of w (commands w) /\ calm (Normal tx) w').
  { intros (? & ? & ?). split_and!; [done|done|]. by eapply calm_sub. }
  destruct cmd as [|sl b|susp resp d|sl|sl v|sl|cfg ng|cfg|da| |cid c|cid];
    cbn [handle is_clone] in Hh; revert Hh; run_unfold; try done;
    try (by destruct (notify_clones _ _ _) as [[[]|] ?]).
  - intros [= <-]. apply Hk. destruct (suspension_core sl b w) as (Hc & Hc' & Hs).
    unfold keeps, chan_of. by rewrite Hc, Hc', Hs.
  - destruct (subscribe _ _ _ _ _ _) as [[[]|] w1] eqn:Hs; [|done]. intros [= <-].
    eapply Hk, subscribe_keeps; [by destruct Hcalm|done].
  - destruct (unsubscribe _ _ _) as [[[]|] w1] eqn:Hs; [|done]. intros [= <-].
    eapply Hk, unsubscribe_keeps; [by destruct Hcalm|done].
  - intros [= <-]. split_and!; [done|done|]. destruct Hcalm as [Hni Hq].
    split; [|done]. cbn. unfold frim_insert. rewrite fmap_app, not_elem_of_app. split.
    + intros Hin. apply Hni. eapply elem_of_sublist; [done|].
      apply fmap_sublist, sublist_filter.
    + intros Hx%list_elem_of_singleton. by eapply (Hat cid c eq_refl).
  - intros [= <-]. apply Hk. split_and!; [done|done|]. apply frim_remove_sublist.
Qed.

Lemma calm_recv g w cmd w1 :
  calm g w -> recv g w = (Some (Some cmd), w1) ->
  calm g w1 /\ own_commands g w1 = own_commands g w
  /\ ch_queue (chan_of w (own_commands g w))
     = cmd :: ch_queue (chan_of w1 (own_commands g w1)).
Proof.
  intros Hc Hr. pose proof (recv_inv _ _ _ _ Hr) as ([_ _ Es Ec] & _ & _ & Hq).
  assert (Ho : own_commands g w1 = own_commands g w) by (by destruct g).
  split_and!; [|done|].
  - destruct g as [tx|id c p]; cbn in *; [|intros k ?%Hq; by eapply Hc].
    rewrite Ec, Es. destruct Hc as [? Hat]. split; [done|]. intros k c ?%Hq. eauto.
  - rewrite Ho. revert Hr. unfold recv. run_unfold.
    destruct (ch_queue (chan_of w (own_commands g w))) as [|x q] eqn:Hx; [done|].
    intros [= <- <-]. rewrite chan_of_put, decide_True by done. cbn. by rewrite Hx.
Qed.

Lemma goes_on g slot cmd w w' :
  calm g w -> (forall id, cmd = DetachClone id -> is_clone g = false) ->
  (forall id c, cmd = AttachClone id c -> c <> own_commands g w) ->
  handle g slot cmd w = (Some None, w') ->
  own_commands g w' = own_commands g w
  /\ chan_of w' (own_commands g w) = chan_of w (own_commands g w) /\ calm g w'.
Proof.
  destruct g as [tx|id c p]; [intros; by eapply root_goes_on|].
  intros Hc Hd _ Hh. destruct cmd as [|sl b|susp resp d|sl|sl v|sl|cfg ng|cfg|da| |cid k|cid];
    cbn [handle is_clone] in Hh; revert Hh; run_unfold; try done; try (by intros [= <-]).
  - intros [= <-]. destruct (suspension_core sl b w) as (Hch & _ & _).
    cbn. unfold chan_of, queued, chan_of in *. by rewrite Hch.
  - by specialize (Hd cid eq_refl).
Qed.

(** A turn that does not return took one command. *)
Lemma turn_goes_on g status h slot w w' :
  calm g w -> turn g status h slot w = (Some None, w') ->
  calm g w'
  /\ length (ch_queue (chan_of w (own_commands g w)))
     = S (length (ch_queue (chan_of w' (own_commands g w'))))
  /\ status_eq (get_gate_status w') status = true.
Proof.
  intros Hc Ht. unfold turn in Ht.
  apply run_bind_inv in Ht as [(cmd & w1 & Hr & Ht)|[_ ?]]; [|done].
  destruct cmd as [cmd|]; [|done].
  destruct (calm_recv _ _ _ _ Hc Hr) as (Hc1 & Ho1 & Hq1).
  apply recv_inv in Hr as (_ & _ & Hq & _).
  apply run_bind_inv in Ht as [(o & w2 & Hh & Ht)|[_ ?]]; [|done].
  destruct o as [o|]; [done|]. revert Ht. run_unfold.
  destruct (status_eq (get_gate_status w2) status) eqn:Hst; [|done]. intros [= <-].
  apply goes_on in Hh as (Ho2 & Hch & Hc2); [|done|..].
  - split_and!; [done| |done]. rewrite Hq1, Ho2, Hch. done.
  - intros id ->. destruct g as [|? c p]; [done|]. by destruct (Hc id).
  - intros id c ->. rewrite Ho1. destruct g as [tx|]; [|done].
    destruct Hc as [_ Hat]. by eapply Hat.
Qed.

(** What a command asks [process] to return, if anything. *)
Definition returns (cmd : GateCommand) : option Outcome :=
  match cmd with
  | Reconfigure new_config _ | FollowReconfigure new_config =>
      Some (Status (Reconfiguring new_config))
  | ReportLinks report => Some (Status (ReportingLinks report))
  | Trigger data => Some (Status (Triggered data))
  | Terminate => Some Terminated
  | AttachClone _ _ | DetachClone _ | Suspension _ _ | Subscribe _ _ _ | Unsubscribe _
  | FollowSubscribe _ _ | FollowUnsubscribe _ => None
  end.

(** The command [cmd] is the first in the queue at [w], and [w'] is the world once it has
    been taken off and handled. *)
Definition after (g : GateState) (cmd : GateCommand) (w w' : World) : Prop :=
  exists slot wr, recv g w = (Some (Some cmd), wr)
    /\ handle g slot cmd wr = (Some (returns cmd), w').

(** How [process], which found status [st0] and now stands at the first world, comes to
    return [o] at the second: the commands are handled in the order of the queue until one
    asks for a return, or leaves another status than [st0], or none is left. *)
Inductive decided (g : GateState) (st0 : GateStatus) (hung_up : bool)
    : World -> Outcome -> World -> Prop :=
| decided_idle w :
    ch_queue (chan_of w (own_commands g w)) = [] ->
    decided g st0 hung_up w (if hung_up then Terminated else Pending) w
| decided_request cmd o w w' :
    after g cmd w w' -> returns cmd = Some o ->
    decided g st0 hung_up w o w'
| decided_status cmd w w' :
    after g cmd w w' -> returns cmd = None ->
    status_eq (get_gate_status w') st0 = false ->
    decided g st0 hung_up w (Status (get_gate_status w')) w'
| decided_next cmd o w w1 w' :
    after g cmd w w1 -> returns cmd = None ->
    status_eq (get_gate_status w1) st0 = true ->
    decided g st0 hung_up w1 o w' -> decided g st0 hung_up w o w'.

Lemma handle_returns g slot cmd w r w' :
  (forall id, cmd = DetachClone id -> is_clone g = false) ->
  handle g slot cmd w = (Some r, w') -> r = returns cmd.
Proof.
  intros Hd Hh. destruct cmd as [|sl b|susp resp d|sl|sl v|sl|cfg ng|cfg|da| |cid k|cid];
    cbn [handle] in Hh; revert Hh; run_unfold;
    try (destruct (notify_clones _ _ _) as [[[]|] ?]; [|done]);
    try (by intros [= <- <-]).
  - destruct (is_clone g); [done|].
    destruct (subscribe _ _ _ _ _ _) as [[]]; [|done]. by intros [= <- <-].
  - destruct (is_clone g); [done|].
    destruct (unsubscribe _ _ _) as [[]]; [|done]. by intros [= <- <-].
  - destruct (is_clone g); [|done]. by intros [= <- <-].
  - destruct (is_clone g); [|done]. by intros [= <- <-].
  - destruct (is_clone g); [done|].
    destruct (notify_clones _ _ _) as [[[]|] ?]; [|done]. by intros [= <- <-].
  - destruct (is_clone g); [|done]. by intros [= <- <-].
  - destruct g; [|done]. by intros [= <- <-].
  - destruct g; [by intros [= <- <-]|]. by specialize (Hd cid eq_refl).
Qed.

Lemma handled_after g slot cmd w w1 r w' :
  calm g w -> recv g w = (Some (Some cmd), w1) -> handle g slot cmd w1 = (Some r, w') ->
  after g cmd w w' /\ r = returns cmd.
Proof.
  intros Hc Hr Hh. assert (r = returns cmd) as ->; [|split; [|done]; by exists slot, w1].
  eapply handle_returns; [|done]. intros id ->. apply recv_inv in Hr as (_ & _ & Hq & _).
  destruct g as [|? c p]; [done|]. by destruct (Hc id).
Qed.

Lemma turn_decides g st0 h slot w r w' :
  calm g w -> turn g st0 h slot w = (Some r, w') ->
  match r with
  | Some o => decided g st0 h w o w'
  | None => exists cmd, after g cmd w w' /\ returns cmd = None
              /\ status_eq (get_gate_status w') st0 = true
  end.
Proof.
  intros Hc Ht. unfold turn in Ht.
  apply run_bind_inv in Ht as [(cmd & w1 & Hr & Ht)|[_ ?]]; [|done].
  destruct cmd as [cmd|].
  - apply run_bind_inv in Ht as [(ret & w2 & Hh & Ht)|[_ ?]]; [|done].
    destruct (handled_after _ _ _ _ _ _ _ Hc Hr Hh) as [Ha Hret].
    destruct ret as [o'|]; [injection Ht as <- <-; by eapply decided_request|].
    revert Ht. run_unfold. cbn zeta.
    destruct (status_eq (get_gate_status w2) st0) eqn:Hs; intros [= <- <-].
    + by exists cmd.
    + by eapply decided_status.
  - revert Hr. unfold recv. run_unfold.
    destruct (ch_queue _) as [|x q] eqn:Hq; [|done]. intros [= <-].
    injection Ht as <- <-. by apply decided_idle.
Qed.

Lemma process_loop_decides turns g st0 h uuids w :
  calm g w ->
  (length (ch_queue (chan_of w (own_commands g w))) < turns)%nat ->
  match process_loop turns g st0 h uuids w with
  | (None, _) => True
  | (Some None, _) => False
  | (Some (Some o), w') => decided g st0 h w o w'
  end.
Proof.
  revert w. induction turns as [|n IH]; intros w Hc Hn; [lia|].
  cbn [process_loop]. unfold mbind at 1, run_bind at 1.
  destruct (turn g st0 h (uuids n) w) as [[[o|]|] w1] eqn:Ht; [| |done].
  - apply (turn_decides _ _ _ _ _ _ _ Hc Ht).
  - pose proof (turn_decides _ _ _ _ _ _ _ Hc Ht) as (cmd & Ha & Hq & Hs).
    apply turn_goes_on in Ht as (Hc' & Hlen & _); [|done].
    specialize (IH w1 Hc'). destruct (process_loop _ _ _ _ _ w1) as [[[o|]|] w2];
      [|apply IH; lia|done]. eapply decided_next; [done..|]. apply IH. lia.
Qed.

Lemma Ginv_calm s t g : Ginv s t -> member s g -> calm g (gw s).
Proof.
  intros HI [->|[k Hl]].
  - destruct (gi_root _ _ HI) as (tx & -> & _). pose proof (gi_disjoint _ _ HI) as Hd.
    pose proof (gi_commands _ _ HI) as Hc. split.
    + intros Hin%(gi_senders _ _ HI). set_solver.
    + intros id c Hq. destruct (gi_root_queue _ _ HI _ _ Hc Hq)
        as [[]|[(? & ? & [= -> ->] & ?)|[? ?]]]; [|done]. set_solver.
  - destruct (gi_clones _ _ HI _ _ Hl) as (id' & c & p & -> & Hc & _).
    intros id Hq. by destruct (gi_clone_queue _ _ HI _ _ Hc Hq) as [[] _].
Qed.

(** C22: [process], called on the root or on a clone in any reachable state, comes to an end
    within one turn for each queued command: it never runs out of turns, and, unless one of
    the commands that [gate_panics_exactly] names makes it panic, it handles the commands in
    the order of the queue up to the first that decides: a command that asks for a return
    (a new configuration, a report of links, a trigger or the termination) makes it return
    just that, with the configuration, report or data of the command; one after which the
    status, active or dormant, differs from the one at the start makes it return the new
    status; and when all have been handled without that, it waits, or reports the
    termination when every sender of commands is gone. *)
Theorem process_decides qsize id tx evs s g hung_up uuids :
  gsteps (gsys_new qsize id tx) evs s -> member s g ->
  match process g hung_up uuids (gw s) with
  | (None, _) => True
  | (Some None, _) => False
  | (Some (Some o), w') => decided g (get_gate_status (gw s)) hung_up (gw s) o w'
  end.
Proof.
  intros Hs Hm. pose proof (Ginv_reachable _ _ _ _ _ Hs) as HI.
  apply process_loop_decides; [by eapply Ginv_calm|lia].
Qed.

End Props.
