(* ===== verification/GateClones.v ===== *)
(** * Gates and their clones: what reaches a clone, and what does not

    [notify_clones] to the last channel; the fate of clones once the root gate
    has been reconfigured; the status of a gate in terms of its subscriptions;
    a suspended subscription in the presence of a clone. *)

From S2P Require Import Prelude Net Payload Frim Gate GateSys GateInv GateProps.
From Stdlib Require Import ZArith Lia.
From stdpp Require Import base numbers list gmap fin_maps.

Local Open Scope Z_scope.

Section Clones.
Context `{E : Extern} `{L : Layout} {GT : GateTypes}.
Implicit Types (s : GSys) (w : World).

(** ** [notify_clones] on every channel *)

(** A channel after a [try_send]. *)
Definition offered (cmd : GateCommand) (ch : Chan GateCommand) : Chan GateCommand :=
  match try_send cmd ch with Sent ch' => ch' | _ => ch end.

Lemma offered_rx cmd ch : ch_rx (offered cmd ch) = ch_rx ch.
Proof.
  unfold offered, try_send. destruct ch as [q cap []]; cbn; [|done].
  by case_bool_decide.
Qed.

Lemma notify_loop_exact cmd senders closed w :
  clone_command cmd = Some cmd -> NoDup senders.*2 ->
  exists w', notify_loop cmd senders closed w
    = (Some (closed || existsb (fun kc => negb (ch_rx (chan_of w kc.2))) senders), w')
    /\ same_core w w'
    /\ (forall c, chan_of w' c
          = if decide (c ∈ senders.*2) then offered cmd (chan_of w c) else chan_of w c).
Proof.
  intros Hcl. revert closed w. induction senders as [|[id c] rest IH]; intros closed w Hnd.
  { exists w. rewrite orb_false_r. split_and!; [done|done|]. intros c.
    by rewrite decide_False by set_solver. }
  cbn [notify_loop]. rewrite Hcl. run_unfold. cbn [fmap list_fmap snd] in *.
  apply NoDup_cons in Hnd as [Hni Hnd].
  set (w1 := match try_send cmd (chan_of w c) with Sent ch => put_chan c ch w | _ => w end).
  assert (H1 : forall k, chan_of w1 k
                 = if decide (c = k) then offered cmd (chan_of w k) else chan_of w k).
  { intros k. unfold w1, offered.
    destruct (try_send cmd (chan_of w c)) eqn:Ht; rewrite ?chan_of_put;
      (case_decide; [subst; by rewrite Ht|done]). }
  destruct (IH (closed || negb (ch_rx (chan_of w c))) w1 Hnd) as (w' & Hn & Hsc & Hch).
  exists w'. split_and!.
  - cbn [existsb snd]. rewrite orb_assoc.
    replace (existsb (fun kc => negb (ch_rx (chan_of w kc.2))) rest)
      with (existsb (fun kc => negb (ch_rx (chan_of w1 kc.2))) rest).
    + rewrite <- Hn. unfold w1, try_send. destruct (ch_rx (chan_of w c)); cbn.
      * rewrite orb_false_r. by case_bool_decide.
      * by rewrite orb_true_r.
    + clear -H1. induction rest as [|[k v] rest IH]; cbn; [done|]. rewrite IH, H1.
      case_decide; [subst; by rewrite offered_rx|done].
  - unfold w1 in Hsc. destruct (try_send _ _); destruct Hsc; by split.
  - intros k. rewrite Hch, H1. destruct (decide (c = k)) as [<-|Hne].
    + rewrite decide_False by done. by rewrite decide_True by set_solver.
    + destruct (decide (k ∈ rest.*2)); [by rewrite decide_True by set_solver|].
      by rewrite decide_False by set_solver.
Qed.

Lemma retain_all {K V} (f : K -> V -> bool) (m : list (K * V)) :
  existsb (fun kv => negb (f kv.1 kv.2)) m = false -> frim_retain f m = m.
Proof.
  unfold frim_retain. induction m as [|[k v] m IH]; [done|]. cbn [existsb fst snd].
  intros [Hf%negb_false_iff Hm]%orb_false_iff. rewrite filter_cons, decide_True by done.
  by rewrite IH.
Qed.

(** Telling the clones never blocks and never panics for the commands that are meant for
    them: each clone's channel gets the command if it is open and has room, and is left
    alone otherwise, no other channel changes, and the senders of dropped clones, and
    only those, are forgotten. *)
Theorem notify_clones_exact tx cmd w :
  clone_command cmd = Some cmd -> NoDup (clone_senders w).*2 ->
  exists w', notify_clones (Normal tx) cmd w = (Some tt, w')
    /\ (forall c, chan_of w' c
          = if decide (c ∈ (clone_senders w).*2) then offered cmd (chan_of w c)
            else chan_of w c)
    /\ clone_senders w' = frim_retain (fun _ c => ch_rx (chan_of w c)) (clone_senders w).
Proof.
  intros Hcl Hnd. unfold notify_clones. run_unfold.
  destruct (notify_loop_exact cmd (clone_senders w) false w Hcl Hnd)
    as (w' & -> & [_ _ Es _] & Hch).
  assert (Hrx : forall c, ch_rx (chan_of w' c) = ch_rx (chan_of w c)).
  { intros c. rewrite Hch. case_decide; [apply offered_rx|done]. }
  rewrite orb_false_l. destruct (existsb _ _) eqn:Hex; cbn; eexists; split_and!; try done; cbn.
  - rewrite Es. unfold frim_retain. apply list_filter_iff. intros [k c]; cbn.
    by rewrite Hrx.
  - by rewrite Es, retain_all.
Qed.

(** ** After a reconfiguration

    A receiver that is dropped stays dropped. *)
Definition closes (w w' : World) : Prop :=
  forall c, ch_rx (chan_of w' c) = true -> ch_rx (chan_of w c) = true.

#[local] Instance closes_preorder : PreOrder closes.
Proof. split; [by intros ? ?|]. intros w1 w2 w3 H12 H23 c ?. by apply H12, H23. Qed.

Lemma closes_chans w w' : chans w' = chans w -> closes w w'.
Proof. intros Hc c. unfold chan_of. by rewrite Hc. Qed.

Lemma closes_put c ch w :
  (ch_rx ch = true -> ch_rx (chan_of w c) = true) -> closes w (put_chan c ch w).
Proof. intros Hrx c'. rewrite chan_of_put. case_decide; [by subst|done]. Qed.

Lemma closes_hang_up c w : closes w (put_chan c (hang_up (chan_of w c)) w).
Proof. by apply closes_put. Qed.

Lemma send_command_closes tx cmd w ok w' :
  send_command tx cmd w = Some (ok, w') -> closes w w'.
Proof.
  unfold send_command, send, try_send. destruct (ch_rx (chan_of w tx)) eqn:Hrx; cbn.
  - case_bool_decide; [|done]. intros [= <- <-]. apply closes_put. by rewrite Hrx.
  - by intros [= <- <-].
Qed.

Lemma recv_closes g w cmd w1 : recv g w = (Some cmd, w1) -> closes w w1.
Proof.
  unfold recv. run_unfold. destruct (ch_queue _); intros [= <- <-]; [done|].
  by apply closes_put.
Qed.

Lemma notify_loop_closes cmd senders closed w b w' :
  notify_loop cmd senders closed w = (Some b, w') -> closes w w' /\ commands w' = commands w.
Proof.
  revert closed w. induction senders as [|[id k] rest IH]; intros closed w; cbn [notify_loop].
  { run_unfold. by intros [= <- <-]. }
  destruct (clone_command cmd) as [cmd'|]; [|done]. run_unfold.
  destruct (try_send cmd' (chan_of w k)) as [ch| |] eqn:Ht; [|by eauto..].
  intros [Hc Hcm]%IH. split; [|done]. etransitivity; [|done]. apply closes_put.
  revert Ht. unfold try_send. by destruct (ch_rx _) eqn:Hrx.
Qed.

Lemma notify_clones_closes g cmd w w' :
  notify_clones g cmd w = (Some tt, w') -> closes w w' /\ commands w' = commands w.
Proof.
  destruct g; [|by intros [= <-]]. unfold notify_clones. run_unfold.
  destruct (notify_loop _ _ _ _) as [[b|] w1] eqn:Hl; [|done].
  apply notify_loop_closes in Hl as [Hc Hcm].
  destruct b; intros [= <-]; (split; [|done]); [|done].
  etransitivity; [exact Hc|by apply closes_chans].
Qed.

Lemma subscribe_closes g slot susp resp d w w' :
  subscribe g slot susp resp d w = (Some tt, w') -> closes w w' /\ commands w' = commands w.
Proof.
  destruct (queue_fits d w) eqn:Hfit; cycle 1.
  { intros Hs. apply (subscribe_no_room g slot susp resp) in Hfit. by rewrite Hs in Hfit. }
  rewrite subscribe_fits by done. unfold subscribe_known. destruct d as [d|]; run_unfold;
    destruct (responses w !! resp) as [[| |]|];
    try (intros [= <-]; destruct susp; (split; [by apply closes_chans|done]));
    destruct susp; intros Hn; destruct (notify_clones_closes _ _ _ _ Hn) as [Hc Hcm];
    (split; [|done]; etransitivity; [|exact Hc]; by apply closes_chans).
Qed.

Lemma suspension_closes slot b w : closes w (suspension slot b w).
Proof. apply closes_chans. by destruct (suspension_core slot b w). Qed.

(** A command closes channels at most, and only a reconfiguration moves the root
    to another channel, behind which it closes the old one. *)
Lemma handle_closes g slot cmd w r w' :
  handle g slot cmd w = (Some r, w') ->
  closes w w'
  /\ match cmd with
     | Reconfigure _ _ => ch_rx (chan_of w' (commands w)) = false
     | _ => commands w' = commands w
     end.
Proof.
  intros Hh. destruct cmd as [|sl b|susp resp d|sl|sl v|sl|cfg ng|cfg|da| |cid k|cid];
    cbn [handle] in Hh; revert Hh; run_unfold;
    try (destruct (notify_clones _ _ _) as [[[]|] ?] eqn:Hn; [|done];
         intros [= <- <-]; by apply notify_clones_closes in Hn).
  - intros [= <- <-]. split; [apply suspension_closes|].
    by destruct (suspension_core sl b w) as (_ & ? & _).
  - destruct (is_clone g); [done|].
    destruct (subscribe _ _ _ _ _ _) as [[[]|] w1] eqn:Hs; [|done]. intros [= <- <-].
    by apply subscribe_closes in Hs.
  - destruct (is_clone g); [done|]. unfold unsubscribe. run_unfold.
    destruct (notify_clones _ _ _) as [[[]|] ?] eqn:Hn; [|done]. intros [= <- <-].
    apply notify_clones_closes in Hn as [Hc ?]. split; [|done].
    etransitivity; [|exact Hc]. by apply closes_chans.
  - destruct (is_clone g); [|done]. intros [= <- <-]. split; [by apply closes_chans|done].
  - destruct (is_clone g); [|done]. intros [= <- <-]. split; [by apply closes_chans|done].
  - destruct (is_clone g); [done|].
    destruct (notify_clones _ _ _) as [[[]|] w1] eqn:Hn; [|done]. intros [= <- <-].
    apply notify_clones_closes in Hn as [Hc ?].
    set (w0 := put_chan (commands w) (hang_up (chan_of w (commands w))) w) in *.
    assert (Hc0 : closes w0 w1) by (etransitivity; [|exact Hc]; by apply closes_chans).
    split; [etransitivity; [apply closes_hang_up|exact Hc0]|].
    apply not_true_is_false. intros Hrx%Hc0. unfold w0 in Hrx.
    by rewrite chan_of_put, decide_True in Hrx.
  - destruct (is_clone g); [|done]. by intros [= <- <-].
  - destruct g; [|done]. intros [= <- <-]. split; [by apply closes_chans|done].
  - destruct g as [tx|id c p]; [intros [= <- <-]; split; [by apply closes_chans|done]|].
    unfold detach. destruct (send _ _) as [[[] ch]|] eqn:Hs; intros [= <- <-]; try done.
    split; [|done]. apply closes_put. revert Hs. unfold send, try_send.
    by destruct (ch_rx _).
Qed.

Definition is_reconfigure (cmd : GateCommand) : bool :=
  match cmd with Reconfigure _ _ => true | _ => false end.

Definition parent_of (g : GateState) : ChanId :=
  match g with Normal c => c | Clone _ _ c => c end.

Lemma gate_drop_closes g w w' :
  gate_drop g w = Some w' -> closes w w' /\ commands w' = commands w.
Proof.
  destruct g as [c|id c p]; cbn.
  { intros [= <-]. split; [apply closes_hang_up|done]. }
  destruct (send _ _) as [[ok ch]|] eqn:Hs; [|done].
  assert (Hp : closes w (put_chan p ch w)).
  { apply closes_put. revert Hs. unfold send, try_send.
    destruct (ch_rx (chan_of w p)) eqn:Hrx; cbn; [done|].
    intros [= <- <-]. by rewrite Hrx. }
  destruct ok; intros [= <-]; (split; [|done]); [|apply closes_hang_up].
  etransitivity; [exact Hp|apply closes_hang_up].
Qed.

(** What a step leaves: channels that exist do not open again, and the root
    leaves its channel only by a reconfiguration, which closes it. *)
Record gframe (s : GSys) (ev : option Event) (s' : GSys) : Prop := {
  gf_root : root s' = root s;
  gf_chans : root_chans s ⊆ root_chans s';
  gf_closes c :
    c ∈ root_chans s -> ch_rx (chan_of (gw s') c) = true -> ch_rx (chan_of (gw s) c) = true;
  gf_commands :
    if from_option (fun e => is_reconfigure (ev_cmd e)) false ev
    then ch_rx (chan_of (gw s') (commands (gw s))) = false
    else commands (gw s') = commands (gw s)
}.

Lemma gframe_closes s ev s' :
  root s' = root s -> root_chans s' = root_chans s -> closes (gw s) (gw s') ->
  (if from_option (fun e => is_reconfigure (ev_cmd e)) false ev
   then ch_rx (chan_of (gw s') (commands (gw s))) = false
   else commands (gw s') = commands (gw s)) ->
  gframe s ev s'.
Proof. intros Hr Hc Hcl Hcm. split; [done|by rewrite Hc|intros c _; apply Hcl|done]. Qed.

Lemma gframe_fresh s s' tx w :
  root s' = root s -> root_chans s ⊆ root_chans s' -> tx ∉ root_chans s ->
  gw s' = put_chan tx (new_chan COMMAND_QUEUE_LEN) w -> w = gw s -> gframe s None s'.
Proof.
  intros Hr Hc Htx Hw ->. split; [done|done| |by rewrite Hw].
  intros c Hin. rewrite Hw, chan_of_put, decide_False; [done|]. by intros ->.
Qed.

Lemma gstep_frame s t ev s' : Ginv s t -> gstep s ev s' -> gframe s ev s'.
Proof.
  intros HI Hs. destruct Hs as [slot cmd w1 r w2 Hr Hnew Hh|id g slot cmd w1 r w2 Hl Hr Hh
    |g id tx g' task w' Hm Hn Htx Hc|id g w' Hl Hd|w' Hd|l1 tx cmd l2 ok w' Ht Hsd
    |tx cmd ok w' Htx Hc Hsd|tx cmd Htx Hc|tx Htx|tx Htx Hne|u now res w' Hu
    |items u sent now res w' Hu|q r l].
  - pose proof (recv_closes _ _ _ _ Hr). apply recv_inv in Hr as ([_ _ _ Ec] & _).
    apply handle_closes in Hh as [Hcl Hcm]. apply gframe_closes; [done|done|by etransitivity|].
    cbn. rewrite Ec in Hcm. by destruct cmd.
  - destruct (gi_clones _ _ HI _ _ Hl) as (id' & c & p & -> & _).
    pose proof (recv_closes _ _ _ _ Hr). apply recv_inv in Hr as ([_ _ _ Ec] & _).
    assert (is_reconfigure cmd = false) by (by destruct cmd).
    apply handle_closes in Hh as [Hcl Hcm]. apply gframe_closes; [done|done|by etransitivity|].
    cbn. rewrite <- Ec. by destruct cmd.
  - unfold gate_clone in Hc. injection Hc as <- <- <-. eapply gframe_fresh; [done|done| |done|done]. set_solver.
  - apply gate_drop_closes in Hd as [? ?]. by apply gframe_closes.
  - apply gate_drop_closes in Hd as [? ?]. by apply gframe_closes.
  - pose proof (send_command_closes _ _ _ _ _ Hsd).
    apply send_command_inv in Hsd as [[] _]. by apply gframe_closes.
  - pose proof (send_command_closes _ _ _ _ _ Hsd).
    apply send_command_inv in Hsd as [[] _]. by apply gframe_closes.
  - by apply gframe_closes.
  - eapply gframe_fresh; [done|cbn; set_solver| |done|done]. set_solver.
  - apply gframe_closes; [done|done|apply closes_hang_up|done].
  - apply update_data_core in Hu as [[] ?]. apply gframe_closes; [done|done|by apply closes_chans|done].
  - apply send_updates_core in Hu as [[] ?].
    apply gframe_closes; cbn; [done|done|apply closes_chans; by case_decide|by case_decide].
  - apply gframe_closes; [done|done|by apply closes_chans|done].
Qed.

(** Every gate of the family writes to the channel the root was made with. *)
Lemma parents_fixed qsize id tx evs s :
  gsteps (gsys_new qsize id tx) evs s ->
  root s = Normal tx /\ tx ∈ root_chans s
  /\ forall g, member s g -> parent_of g = tx.
Proof.
  intros Hs. induction Hs as [|evs s1 ev s2 Hs1 IH Hs].
  { split_and!; [done|cbn; set_solver|]. intros g [->|[k Hk]]; done. }
  destruct IH as (Hr & Htx & Hp).
  pose proof (Ginv_reachable _ _ _ _ _ Hs1) as HI.
  destruct (gstep_frame _ _ _ _ HI Hs) as [Er Hc _ _]. split_and!; [by rewrite Er|by apply Hc|].
  intros g [->|[k Hk]]; [by rewrite Er, Hr|]. destruct Hs; try (apply Hp; right; by exists k).
  - injection H2 as <- <- <-. cbn in Hk.
    apply lookup_insert_Some in Hk as [[_ <-]|[_ Hk]]; [|apply Hp; right; by exists k].
    by apply Hp in H.
  - cbn in Hk. apply lookup_delete_Some in Hk as [_ Hk]. apply Hp; right; by exists k.
Qed.

(** From the first reconfiguration on, that channel has no receiver. *)
Lemma reconfigured_closed qsize id tx evs s :
  gsteps (gsys_new qsize id tx) evs s ->
  if existsb (fun e => is_reconfigure (ev_cmd e)) evs
  then ch_rx (chan_of (gw s) tx) = false else commands (gw s) = tx.
Proof.
  intros Hs. induction Hs as [|evs s1 ev s2 Hs1 IH Hs]; [done|].
  destruct (parents_fixed _ _ _ _ _ Hs1) as (_ & Htx & _).
  destruct (gstep_frame _ _ _ _ (Ginv_reachable _ _ _ _ _ Hs1) Hs) as [_ _ Hcl Hcm].
  rewrite existsb_app. destruct (existsb _ evs); cbn [orb].
  - apply not_true_is_false. intros Hrx%Hcl; [|done]. by rewrite IH in Hrx.
  - destruct ev as [e|]; cbn in *; [|by rewrite Hcm].
    rewrite orb_false_r. destruct (is_reconfigure (ev_cmd e)); congruence.
Qed.

(** Once a gate was reconfigured, a clone made of it or of one of its clones is never
    attached: the command that would attach it is refused, and so is its detachment when
    it is dropped, because the gate keeps the sender of the channel that the
    reconfiguration closed; such a clone never hears of later commands. *)
Theorem reconfigured_clones_lost qsize id tx evs s g clone_id c :
  gsteps (gsys_new qsize id tx) evs s ->
  existsb (fun e => is_reconfigure (ev_cmd e)) evs = true ->
  member s g -> c ∉ root_chans s ∪ clone_chans s ->
  let '(g', (p, attach), w') := gate_clone g clone_id c (gw s) in
  send_command p attach w' = Some (false, w')
  /\ gate_drop g' w' = Some (put_chan c (hang_up (chan_of w' c)) w').
Proof.
  intros Hs Hre Hm Hc. unfold gate_clone. fold (parent_of g).
  pose proof (reconfigured_closed _ _ _ _ _ Hs) as Hcl. rewrite Hre in Hcl.
  destruct (parents_fixed _ _ _ _ _ Hs) as (_ & Htx & Hp). rewrite (Hp g Hm).
  set (w' := put_chan c _ (gw s)).
  assert (Hrx : ch_rx (chan_of w' tx) = false).
  { unfold w'. rewrite chan_of_put, decide_False; [done|set_solver]. }
  unfold send_command, gate_drop, detach, send, try_send. by rewrite Hrx.
Qed.

(** ** The status of a gate *)

Definition subscriptions (suspended : bool) (t : Table) : Table :=
  filter (fun p => p.2.2 = suspended) t.

Lemma fst_filter_lookup (t : Table) b slot snd :
  (fst <$> subscriptions b t) !! slot = Some snd <-> t !! slot = Some (snd, b).
Proof.
  unfold subscriptions. rewrite lookup_fmap, fmap_Some. split.
  - intros ([snd' b'] & [? ?]%map_lookup_filter_Some & ->). cbn in *. by subst.
  - intros Ht. exists (snd, b). split; [by apply map_lookup_filter_Some|done].
Qed.

(** Without clones a gate is dormant exactly when as many subscriptions are suspended as
    are active, not when all are suspended. *)
Theorem status_counts_links qsize id tx evs s :
  gsteps (gsys_new qsize id tx) evs s -> clone_chans s = ∅ ->
  get_gate_status (gw s)
  = if Nat.eqb (size (subscriptions true (table_of evs)))
               (size (subscriptions false (table_of evs)))
    then Dormant else Active.
Proof.
  intros Hs Ha. pose proof (Ginv_reachable _ _ _ _ _ Hs) as HI.
  pose proof (gi_tables _ _ HI) as HT. unfold get_gate_status.
  rewrite !frim_len_view by (apply HI).
  rewrite <- (map_size_fmap fst (subscriptions true _)),
    <- (map_size_fmap fst (subscriptions false _)).
  replace (fst <$> subscriptions true (table_of evs)) with (frim_view (suspended (gw s))).
  2: { apply map_eq; intros slot. apply option_eq; intros snd. rewrite fst_filter_lookup.
       destruct (HT slot) as [_ _ _ _ Hp Hx]. split; [by apply Hx|apply Hp]. }
  replace (fst <$> subscriptions false (table_of evs)) with (frim_view (updates (gw s))).
  2: { apply map_eq; intros slot. apply option_eq; intros snd. rewrite fst_filter_lookup.
       destruct (HT slot) as [_ _ _ Hu _ Hx]. split; [by apply Hx|apply Hu]. }
  done.
Qed.

(** ** A suspended subscription and a clone *)

(** When a clone handles the notice of a subscription that is suspended, the shared table
    of active subscriptions gets it too: the suspended link receives updates again. *)
Theorem clone_wakes_suspended qsize id tx evs s k g slot snd snd' w1 sl :
  gsteps (gsys_new qsize id tx) evs s ->
  table_of evs !! slot = Some (snd, true) ->
  clones s !! k = Some g ->
  recv g (gw s) = (Some (Some (FollowSubscribe slot snd')), w1) ->
  exists w2, handle g sl (FollowSubscribe slot snd') w1 = (Some None, w2)
    /\ frim_view (updates w2) !! slot = Some snd
    /\ frim_view (suspended w2) !! slot = Some snd.
Proof.
  intros Hs Ht Hl Hr. pose proof (Ginv_reachable _ _ _ _ _ Hs) as HI.
  pose proof (Ginv_recv _ _ _ _ _ HI Hr) as H1.
  destruct (gi_clones _ _ HI _ _ Hl) as (id' & c & p & -> & Hc & _).
  apply recv_inv in Hr as (_ & _ & Hq & _).
  destruct (gi_clone_queue _ _ HI c _ Hc Hq) as [_ Hf]. cbn in Hf.
  destruct (gi_tables _ _ H1 slot) as [Hi _ _ _ Hp _].
  pose proof (Hi _ _ Ht : issued s !! slot = _) as Hi'. rewrite Hf in Hi'. injection Hi' as ->.
  cbn [handle is_clone]. run_unfold. eexists. split_and!; [done| |by apply Hp].
  cbn. rewrite frim_view_insert by apply (gi_updates_wf _ _ H1). by rewrite lookup_insert_eq.
Qed.

End Clones.
