(* ===== verification/Link.v ===== *)
(** * Links ([src/comms.rs], [Link] and [DirectLink])

    The receiving side of a gate.  Each operation is a function on the link and
    the [World] of the gate; an asynchronous method is cut where it waits, and
    [None] says that it waits.  [Wait] is a [connect] between its two waits. *)

From S2P Require Import Prelude Net Payload Frim Gate GateSys GateInv GateProps.
From Stdlib Require Import ZArith Lia.
From stdpp Require Import base numbers list gmap fin_maps.

Local Open Scope Z_scope.

Record LinkConnection : Type := mk_connection {
  lc_slot : Uuid;
  lc_updates : option Uuid          (* the queue, unless the link is direct *)
}.

Record Link : Type := mk_link {
  link_id : Uuid;
  link_gate_id : Uuid;
  link_commands : ChanId;
  link_connection : option LinkConnection;
  unit_status : UnitStatus;
  link_suspended : bool;
  direct_update_target : option TargetId
}.

(** [Result<(), UnitStatus>] of [connect]. *)
Inductive Connect : Type := Connected | Refused (s : UnitStatus) | Wait.

Section Links.
Context `{E : Extern} `{L : Layout} {GT : GateTypes}.

Definition link_new (id gate_id : Uuid) (tx : ChanId) : Link :=
  mk_link id gate_id tx None Healthy false None.

(** [GateAgent::create_link]. *)
Definition create_link (id : Uuid) (tx : ChanId) (w : World) : Link :=
  link_new id (gate_id w) tx.

(** [Clone for Link]: a clone is not connected. *)
Definition link_clone (l : Link) : Link :=
  mk_link (link_id l) (link_gate_id l) (link_commands l) None (unit_status l)
    (link_suspended l) (direct_update_target l).

Definition connected_gate_slot (l : Link) : option Uuid :=
  lc_slot <$> link_connection l.

Definition with_status (s : UnitStatus) (l : Link) : Link :=
  mk_link (link_id l) (link_gate_id l) (link_commands l) (link_connection l) s
    (link_suspended l) (direct_update_target l).

Definition with_connection (c : option LinkConnection) (l : Link) : Link :=
  mk_link (link_id l) (link_gate_id l) (link_commands l) c (unit_status l)
    (link_suspended l) (direct_update_target l).

Definition with_suspended (b : bool) (l : Link) : Link :=
  mk_link (link_id l) (link_gate_id l) (link_commands l) (link_connection l)
    (unit_status l) b (direct_update_target l).

Definition set_direct_update_target (d : option TargetId) (l : Link) : Link :=
  mk_link (link_id l) (link_gate_id l) (link_commands l) (link_connection l)
    (unit_status l) (link_suspended l) d.

(** [close]: what is queued can still be read. *)
Definition link_close (l : Link) (w : World) : World :=
  match link_connection l ≫= lc_updates with
  | Some q => set_queues (alter (fun c => mk_chan (ch_queue c) (ch_cap c) false) q) w
  | None => w
  end.

(** [connect] up to the wait for the answer; [resp] is the new oneshot. *)
Definition connect_start (susp : bool) (resp : RespId) (l : Link) (w : World)
    : option (Connect * Link * World) :=
  match link_connection l with
  | Some _ => Some (Connected, l, w)
  | None =>
      match unit_status l with
      | Gone => Some (Refused Gone, l, w)
      | _ =>
          match send_command (link_commands l) (Subscribe susp resp (direct_update_target l))
                  (set_responses (<[resp := Waiting]>) w) with
          | None => None
          | Some (false, _) => Some (Refused Gone, with_status Gone l, w)
          | Some (true, w') => Some (Wait, l, w')
          end
      end
  end.

(** [connect] from the answer on.  A request that waits in a channel whose
    receiver is gone has been dropped, and its oneshot with it. *)
Definition connect_finish (susp : bool) (resp : RespId) (l : Link) (w : World)
    : option (Connect * Link) :=
  match responses w !! resp with
  | Some (Answered sub) =>
      Some (Connected,
            with_suspended susp (with_status Healthy
              (with_connection (Some (mk_connection (sub_slot sub) (sub_receiver sub))) l)))
  | Some Waiting =>
      if ch_rx (chan_of w (link_commands l)) then None
      else Some (Refused Gone, with_status Gone l)
  | _ => Some (Refused Gone, with_status Gone l)
  end.

(** The part of [query] behind [connect]: the next item of the queue; with
    [senders_gone] every sender of the queue has been dropped.  A direct link
    waits for ever. *)
Definition query_recv (senders_gone : bool) (l : Link) (w : World)
    : option ((Update + UnitStatus) * Link * World) :=
  match link_connection l ≫= lc_updates with
  | Some q =>
      let ch := default no_chan (queues w !! q) in
      match ch_queue ch with
      | item :: _ =>
          let w' := set_queues (<[q := pop ch]>) w in
          match item with
          | inl update => Some (inl update, l, w')
          | inr status => Some (inr status, with_status status l, w')
          end
      | [] =>
          if senders_gone || negb (ch_rx ch) then Some (inr Gone, with_status Gone l, w)
          else None
      end
  | None => None
  end.

(** [query] of a link that is connected. *)
Definition query (senders_gone : bool) (l : Link) (w : World)
    : option ((Update + UnitStatus) * Link * World) :=
  match connect_start false 0 l w with
  | Some (Connected, l, w) => query_recv senders_gone l w
  | _ => None
  end.

(** The loop of [query_suspended] behind [connect]: updates are dropped up to
    the first status. *)
Fixpoint query_suspended_loop (items : list (Update + UnitStatus)) (senders_gone : bool)
    : option UnitStatus * list (Update + UnitStatus) :=
  match items with
  | inl _ :: rest => query_suspended_loop rest senders_gone
  | inr status :: rest => (Some status, rest)
  | [] => (if senders_gone then Some Gone else None, [])
  end.

Definition request_suspend (suspend : bool) (l : Link) (w : World) : option (Link * World) :=
  match link_connection l with
  | None => Some (l, w)
  | Some conn =>
      match send_command (link_commands l) (Suspension (lc_slot conn) suspend) w with
      | None => None
      | Some (false, w') => Some (with_status Gone l, w')
      | Some (true, w') => Some (with_suspended suspend l, w')
      end
  end.

Definition suspend (l : Link) (w : World) : option (Link * World) :=
  if negb (link_suspended l) then request_suspend true l w else Some (l, w).

(** Dropping the connection drops the receiver of its queue. *)
Definition drop_receiver (c : LinkConnection) (w : World) : World :=
  match lc_updates c with Some q => set_queues (alter hang_up q) w | None => w end.

Definition disconnect (l : Link) (w : World) : option (Link * World) :=
  match link_connection l with
  | Some conn =>
      match send_command (link_commands l) (Unsubscribe (lc_slot conn)) w with
      | None => None
      | Some (_, w') => Some (with_connection None l, drop_receiver conn w')
      end
  | None => Some (with_connection None l, w)
  end.

(** [Drop for Link]: the message is sent by a task of its own. *)
Definition link_drop (l : Link) (w : World) : option (ChanId * GateCommand) * World :=
  match link_connection l with
  | Some conn => (Some (link_commands l, Unsubscribe (lc_slot conn)), drop_receiver conn w)
  | None => (None, w)
  end.

Definition trigger (data : TriggerData) (l : Link) (w : World) : option World :=
  snd <$> send_command (link_commands l) (Trigger data) w.

(** ** [DirectLink] *)

Definition direct_connect_start (target : TargetId) (susp : bool) (resp : RespId)
    (l : Link) (w : World) : option (Connect * Link * World) :=
  connect_start susp resp (set_direct_update_target (Some target) l) w.

Definition direct_disconnect (l : Link) (w : World) : option (Link * World) :=
  disconnect (set_direct_update_target None l) w.

(** ** Properties *)

(** A link sends its request once, suspends only while it is connected and not
    suspended, and never asks to be resumed. *)
Lemma link_commands_sent l w susp resp :
  (forall r l' w', connect_start susp resp l w = Some (r, l', w') ->
     forall c x, queued w' c x -> queued w c x
       \/ c = link_commands l /\ x = Subscribe susp resp (direct_update_target l)
          /\ link_connection l = None)
  /\ (forall l' w', suspend l w = Some (l', w') ->
        forall c x, queued w' c x -> queued w c x
          \/ c = link_commands l /\ link_suspended l = false
             /\ exists slot, connected_gate_slot l = Some slot /\ x = Suspension slot true).
Proof.
  split.
  - intros r l' w'. unfold connect_start. destruct (link_connection l); [intros [= <- <- <-]; auto|].
    destruct (unit_status l); try (intros [= <- <- <-]; auto);
      (destruct (send_command _ _ _) as [[[] w1]|] eqn:Hs; [|intros [= <- <- <-]; auto|done];
       intros [= <- <- <-] c x Hx; apply send_command_inv in Hs as [_ Hq];
       destruct (Hq c x Hx) as [?|[-> ->]]; auto).
  - intros l' w'. unfold suspend, request_suspend, connected_gate_slot.
    destruct (link_suspended l); cbn; [intros [= <- <-]; auto|].
    destruct (link_connection l) as [conn|]; [|intros [= <- <-]; auto].
    destruct (send_command _ _ _) as [[ok w1]|] eqn:Hs; [|done].
    apply send_command_inv in Hs as [_ Hq].
    destruct ok; intros [= <- <-] c x Hx; destruct (Hq c x Hx) as [?|[-> ->]]; eauto 10.
Qed.

(** A query never lifts the suspension of a link: whatever it returns, the link stays
    suspended if it was, no command is sent to the gate, and the gate's tables are as
    before. *)
Theorem query_stays_suspended senders_gone l w item l' w' :
  query senders_gone l w = Some (item, l', w') ->
  link_suspended l' = link_suspended l /\ chans w' = chans w
  /\ suspended w' = suspended w /\ updates w' = updates w.
Proof.
  unfold query, connect_start. destruct (link_connection l) as [conn|] eqn:Hc.
  - unfold query_recv. rewrite Hc. cbn. destruct (lc_updates conn) as [q|]; [|done].
    destruct (ch_queue _) as [|[u|st] rest].
    + by destruct (_ || _); [intros [= <- <- <-]|].
    + by intros [= <- <- <-].
    + by intros [= <- <- <-].
  - destruct (unit_status l); [| |done]; by destruct (send_command _ _ _) as [[[] ?]|].
Qed.

(** ** A link that connects and disconnects *)

Lemma notify_loop_rest cmd senders closed w b w' :
  notify_loop cmd senders closed w = (Some b, w') ->
  responses w' = responses w /\ queues w' = queues w.
Proof.
  revert closed w. induction senders as [|[id k] rest IH]; intros closed w; cbn [notify_loop].
  { run_unfold. by intros [= <- <-]. }
  destruct (clone_command cmd) as [cmd'|]; [|done]. run_unfold.
  destruct (try_send cmd' (chan_of w k)) as [ch| |]; [|by eauto..]. by intros ?%IH.
Qed.

Lemma notify_clones_rest g cmd w w' :
  notify_clones g cmd w = (Some tt, w') -> responses w' = responses w /\ queues w' = queues w.
Proof.
  destruct g; [|by intros [= <-]]. unfold notify_clones. run_unfold.
  destruct (notify_loop _ _ _ _) as [[b|] w1] eqn:Hl; [|done].
  apply notify_loop_rest in Hl. by destruct b; intros [= <-].
Qed.

(** The whole effect of a subscription that is answered. *)
Lemma subscribe_answered tx slot susp resp d w :
  responses w !! resp = Some Waiting -> commands w ∉ (clone_senders w).*2 ->
  queue_fits d w = true ->
  let snd := sender_for slot d in
  exists w', subscribe (Normal tx) slot susp resp d w = (Some tt, w')
    /\ updates w' = (if susp then updates w else frim_insert slot snd (updates w))
    /\ suspended w' = (if susp then frim_insert slot snd (suspended w) else suspended w)
    /\ responses w' = <[resp := Answered (mk_response slot (receiver_for slot d))]> (responses w)
    /\ keeps w w'.
Proof.
  intros Hr Hni Hfit snd. rewrite subscribe_fits by done. unfold subscribe_known. fold snd.
  run_unfold. rewrite Hr.
  set (w1 := set_responses _ _).
  assert (H1 : commands w1 = commands w /\ chans w1 = chans w
               /\ clone_senders w1 = clone_senders w) by (by destruct susp, d).
  destruct H1 as (Hc1 & Hch1 & Hs1).
  destruct (notify_clones_spec (Normal tx) (FollowSubscribe slot snd) w1 eq_refl)
    as (w' & Hn & []).
  destruct (notify_clones_rest _ _ _ _ Hn) as [Hr' _].
  apply notify_clones_own in Hn as Ho; [|by rewrite Hc1, Hs1].
  destruct Ho as (Hc & Hch & Hs & _). exists w'. split_and!; [exact Hn|..].
  - rewrite nt_updates. by destruct susp, d.
  - rewrite nt_suspended. by destruct susp, d.
  - rewrite Hr'. by destruct susp, d.
  - split_and!; [by rewrite Hc|rewrite <- Hc1; rewrite Hch; unfold chan_of; by rewrite Hch1|].
    by rewrite <- Hs1.
Qed.

Lemma unsubscribe_done tx slot w :
  commands w ∉ (clone_senders w).*2 ->
  exists w', unsubscribe (Normal tx) slot w = (Some tt, w')
    /\ updates w' = (frim_remove slot (updates w)).2
    /\ suspended w' = (frim_remove slot (suspended w)).2.
Proof.
  intros Hni. unfold unsubscribe. run_unfold. set (w1 := set_updates _ _).
  destruct (notify_clones_spec (Normal tx) (FollowUnsubscribe slot) w1 eq_refl)
    as (w' & Hn & []).
  exists w'. split_and!; [exact Hn|by rewrite nt_updates|by rewrite nt_suspended].
Qed.

(** A turn of a gate whose channel holds one command that does not end it. *)
Lemma turn_one g st h slot cmd w w' :
  ch_queue (chan_of w (own_commands g w)) = [cmd] ->
  handle g slot cmd (put_chan (own_commands g w) (pop (chan_of w (own_commands g w))) w)
  = (Some None, w') ->
  exists r, turn g st h slot w = (Some r, w').
Proof.
  intros Hq Hh. unfold turn, recv. run_unfold. rewrite Hq, Hh.
  by destruct (status_eq (get_gate_status w') st); eexists.
Qed.

Lemma send_to_empty c cmd w :
  chan_of w c = new_chan COMMAND_QUEUE_LEN ->
  send_command c cmd w
  = Some (true, put_chan c (mk_chan [cmd] COMMAND_QUEUE_LEN true) w).
Proof. intros Hc. unfold send_command. by rewrite Hc. Qed.

(** A root gate with nothing to do. *)
Definition idle (w : World) : Prop :=
  commands w ∉ (clone_senders w).*2 /\ chan_of w (commands w) = new_chan COMMAND_QUEUE_LEN.

Lemma link_connects tx w l susp resp slot st h :
  idle w -> link_commands l = commands w -> link_connection l = None ->
  unit_status l = Healthy -> queue_fits (direct_update_target l) w = true ->
  let snd := sender_for slot (direct_update_target l) in
  exists w1 r w2 l2,
    connect_start susp resp l w = Some (Wait, l, w1)
    /\ turn (Normal tx) st h slot w1 = (Some r, w2)
    /\ connect_finish susp resp l w2 = Some (Connected, l2)
    /\ connected_gate_slot l2 = Some slot /\ link_suspended l2 = susp
    /\ link_commands l2 = commands w2 /\ idle w2
    /\ updates w2 = (if susp then updates w else frim_insert slot snd (updates w))
    /\ suspended w2 = (if susp then frim_insert slot snd (suspended w) else suspended w).
Proof.
  intros [Hni Hch] Hl Hn Hst Hfit snd. unfold connect_start. rewrite Hn, Hst, Hl.
  set (req := Subscribe susp resp (direct_update_target l)).
  set (w0 := set_responses (<[resp := Waiting]>) w).
  rewrite (send_to_empty (commands w) req w0 Hch).
  set (w1 := put_chan (commands w) _ w0).
  set (wa := put_chan (commands w) (pop (chan_of w1 (commands w))) w1).
  destruct (subscribe_answered tx slot susp resp (direct_update_target l) wa)
    as (w2 & Hsub & Hu2 & Hp2 & Hr2 & (Hc2 & Hch2 & Hs2)); [apply lookup_insert_eq|done|done|].
  assert (Hq : ch_queue (chan_of w1 (commands w)) = [req])
    by (unfold w1; by rewrite chan_of_put, decide_True).
  assert (Hh : handle (Normal tx) slot req wa = (Some None, w2))
    by (cbn [handle is_clone req]; run_unfold; by rewrite Hsub).
  destruct (turn_one (Normal tx) st h slot req w1 w2 Hq Hh) as [r Ht].
  exists w1, r, w2, (with_suspended susp (with_status Healthy (with_connection
    (Some (mk_connection slot (receiver_for slot (direct_update_target l)))) l))).
  split_and!; [done|exact Ht| |done|done|cbn; by rewrite Hc2| |done|done].
  { unfold connect_finish. by rewrite Hr2, lookup_insert_eq. }
  split.
  - rewrite Hc2. intros Hin. apply Hni. eapply elem_of_sublist; [exact Hin|].
    by apply fmap_sublist.
  - rewrite Hc2, Hch2. unfold wa, w1. by rewrite !chan_of_put, !decide_True.
Qed.

Lemma link_disconnects tx w l slot slot' st h :
  idle w -> link_commands l = commands w -> connected_gate_slot l = Some slot ->
  exists l' w1 r w2,
    disconnect l w = Some (l', w1) /\ link_connection l' = None
    /\ turn (Normal tx) st h slot' w1 = (Some r, w2)
    /\ updates w2 = (frim_remove slot (updates w)).2
    /\ suspended w2 = (frim_remove slot (suspended w)).2.
Proof.
  intros [Hni Hch] Hl Hs. unfold disconnect, connected_gate_slot in *.
  destruct (link_connection l) as [conn|]; [|done]. injection Hs as Hs.
  rewrite Hl, (send_to_empty (commands w) _ w Hch), Hs.
  set (w1 := drop_receiver conn _).
  assert (H1 : commands w1 = commands w /\ clone_senders w1 = clone_senders w
    /\ updates w1 = updates w /\ suspended w1 = suspended w
    /\ chan_of w1 (commands w) = mk_chan [Unsubscribe slot] COMMAND_QUEUE_LEN true).
  { unfold w1, drop_receiver. destruct (lc_updates conn); split_and!; try done;
      unfold chan_of; cbn; by rewrite lookup_insert_eq. }
  destruct H1 as (Hc1 & Hs1 & Hu1 & Hp1 & Hch1).
  set (wa := put_chan (commands w1) (pop (chan_of w1 (commands w1))) w1).
  destruct (unsubscribe_done tx slot wa) as (w2 & Hun & Hu2 & Hp2).
  { cbn. by rewrite Hc1, Hs1. }
  assert (Hq : ch_queue (chan_of w1 (commands w1)) = [Unsubscribe slot])
    by (by rewrite Hc1, Hch1).
  assert (Hh : handle (Normal tx) slot' (Unsubscribe slot) wa = (Some None, w2))
    by (cbn [handle is_clone]; run_unfold; by rewrite Hun).
  destruct (turn_one (Normal tx) st h slot' _ w1 w2 Hq Hh) as [r Ht].
  eexists _, w1, r, w2. split_and!; [done|done|exact Ht|by rewrite Hu2, <- Hu1|].
  by rewrite Hp2, <- Hp1.
Qed.

(** A link that connects to a gate whose channel is idle, once the gate has handled its
    command, is subscribed with the sender that its kind calls for, suspended or not as it
    asked; after it disconnects and the gate has handled that, the gate's tables are what
    they were before. *)
Theorem connect_then_disconnect qsize id tx evs s l susp resp slot slot' st h :
  gsteps (gsys_new qsize id tx) evs s ->
  link_commands l = commands (gw s) -> link_connection l = None ->
  unit_status l = Healthy -> queue_fits (direct_update_target l) (gw s) = true ->
  chan_of (gw s) (commands (gw s)) = new_chan COMMAND_QUEUE_LEN ->
  issued s !! slot = None ->
  let snd := sender_for slot (direct_update_target l) in
  exists w1 r w2 l2 l3 w3 r' w4,
    connect_start susp resp l (gw s) = Some (Wait, l, w1)
    /\ turn (root s) st h slot w1 = (Some r, w2)
    /\ connect_finish susp resp l w2 = Some (Connected, l2)
    /\ connected_gate_slot l2 = Some slot /\ link_suspended l2 = susp
    /\ frim_view (updates w2)
       = (if susp then frim_view (updates (gw s)) else <[slot := snd]> (frim_view (updates (gw s))))
    /\ frim_view (suspended w2)
       = (if susp then <[slot := snd]> (frim_view (suspended (gw s)))
          else frim_view (suspended (gw s)))
    /\ disconnect l2 w2 = Some (l3, w3)
    /\ turn (root s) st h slot' w3 = (Some r', w4)
    /\ link_connection l3 = None
    /\ frim_view (updates w4) = frim_view (updates (gw s))
    /\ frim_view (suspended w4) = frim_view (suspended (gw s)).
Proof.
  intros Hs Hl Hn Hst Hfit Hch Hnew snd. pose proof (Ginv_reachable _ _ _ _ _ Hs) as HI.
  destruct (gi_root _ _ HI) as (tx' & Hroot & _). rewrite Hroot.
  pose proof (Ginv_calm s _ (Normal tx') HI) as [Hni _]; [by left|].
  pose proof (gi_updates_wf _ _ HI) as Hu. pose proof (gi_suspended_wf _ _ HI) as Hp.
  pose proof (gi_tables _ _ HI slot) as Hfr. rewrite Hnew in Hfr.
  apply slot_ok_fresh in Hfr as (Hfu & Hfp & _).
  destruct (link_connects tx' (gw s) l susp resp slot st h (conj Hni Hch) Hl Hn Hst Hfit)
    as (w1 & r & w2 & l2 & H1 & H2 & H3 & H4 & H5 & Hl2 & Hi2 & Hu2 & Hp2).
  destruct (link_disconnects tx' w2 l2 slot slot' st h Hi2 Hl2 H4)
    as (l3 & w3 & r' & w4 & H6 & H7 & H8 & Hu4 & Hp4).
  exists w1, r, w2, l2, l3, w3, r', w4.
  destruct (frim_insert_remove slot snd (updates (gw s))) as [_ Eu]; [done|done|].
  destruct (frim_insert_remove slot snd (suspended (gw s))) as [_ Ep]; [done|done|].
  rewrite Hu4, Hp4, Hu2, Hp2. split_and!; try done.
  - destruct susp; [done|by apply frim_view_insert].
  - destruct susp; [by apply frim_view_insert|done].
  - destruct susp; [|done]. rewrite frim_view_remove by done. by apply delete_id.
  - destruct susp; [done|]. rewrite frim_view_remove by done. by apply delete_id.
Qed.

End Links.

(** ** A gate at work

    Concrete runs of a gate with a direct link, a suspended link and a clone, at
    which the theorems on gates are applied. *)
From S2P Require Import GateClones.

Local Open Scope Z_scope.

Module GateDemo.

#[local] Instance types : GateTypes :=
  {| Unit := Z; UpstreamLinkReport := Z; TriggerData := Z |}.

Section Run.
Context `{E : Extern} `{L : Layout}.

(** Steps as functions, where they are enabled. *)
Definition do_send (tx : ChanId) (cmd : GateCommand) (s : GSys) : option GSys :=
  match send_command tx cmd (gw s) with
  | Some (_, w') => Some (with_world w' s)
  | None => None
  end.

Definition do_root (slot : Uuid) (s : GSys) : option (Event * GSys) :=
  match recv (root s) (gw s) with
  | (Some (Some cmd), w1) =>
      match handle (root s) slot cmd w1 with
      | (Some _, w2) =>
          let ev := mk_event slot cmd (heard w1 cmd) in
          Some (ev, mk_gsys w2 (root s) (clones s) (tasks s) (issue ev (issued s))
                      (root_chans s) (clone_chans s))
      | _ => None
      end
  | _ => None
  end.

Definition do_task (s : GSys) : option GSys :=
  match tasks s with
  | (tx, cmd) :: l =>
      match send_command tx cmd (gw s) with
      | Some (_, w') =>
          Some (mk_gsys w' (root s) (clones s) l (issued s) (root_chans s) (clone_chans s))
      | None => None
      end
  | [] => None
  end.

Definition do_new_gate (tx : ChanId) (s : GSys) : GSys :=
  mk_gsys (put_chan tx (new_chan COMMAND_QUEUE_LEN) (gw s)) (root s) (clones s)
    (tasks s) (issued s) ({[tx]} ∪ root_chans s) (clone_chans s).

Lemma do_send_step tx cmd s s' :
  do_send tx cmd s = Some s' -> tx ∈ root_chans s -> link_command s cmd -> gstep s None s'.
Proof.
  unfold do_send. destruct (send_command tx cmd (gw s)) as [[ok w']|] eqn:Hs; [|done].
  intros [= <-] Htx Hc. by eapply step_send.
Qed.

Lemma do_root_step slot s ev s' :
  do_root slot s = Some (ev, s') -> issued s !! slot = None -> gstep s (Some ev) s'.
Proof.
  unfold do_root.
  destruct (recv (root s) (gw s)) as [[[cmd|]|] w1] eqn:Hr; try done.
  destruct (handle (root s) slot cmd w1) as [[r|] w2] eqn:Hh; try done.
  intros [= <- <-] Hnew. by eapply step_root.
Qed.

Lemma do_task_step s s' : do_task s = Some s' -> gstep s None s'.
Proof.
  unfold do_task. destruct (tasks s) as [|[tx cmd] l] eqn:Ht; [done|].
  destruct (send_command tx cmd (gw s)) as [[ok w']|] eqn:Hs; [|done].
  intros [= <-]. by apply (step_task s [] tx cmd l ok).
Qed.

Lemma gsteps_more s evs s1 ev s2 evs' :
  gsteps s evs s1 -> gstep s1 ev s2 -> evs' = evs ++ option_list ev -> gsteps s evs' s2.
Proof. intros Hs Hst ->. by eapply gsteps_snoc. Qed.

(** A direct link asks for a subscription and gets slot 100. *)
Definition s0 : GSys := gsys_new 8 1 10.
Definition s1 : GSys := Eval vm_compute in
  with_world (set_live (fun _ => {[7; 8]})
    (set_responses (fun _ => {[5 := Waiting; 6 := Waiting]})
       (set_queues (fun _ => ∅) (gw s0)))) s0.
Definition s2 : GSys := Eval vm_compute in
  default s1 (do_send 10 (Subscribe false 5 (Some 7)) s1).
Definition s3 : GSys := Eval vm_compute in default s2 (snd <$> do_root 100 s2).
Definition ev3 : Event := mk_event 100 (Subscribe false 5 (Some 7)) true.

(** Run the step and compare. *)
Ltac by_running := vm_compute; reflexivity.

Lemma elem_of_by_bool (c : Z) (X : gset Z) : bool_decide (c ∈ X) = true -> c ∈ X.
Proof. apply bool_decide_eq_true_1. Qed.

Lemma not_elem_of_by_bool (c : Z) (X : gset Z) : bool_decide (c ∈ X) = false -> c ∉ X.
Proof. apply bool_decide_eq_false_1. Qed.

Lemma run3 : gsteps s0 [ev3] s3.
Proof.
  apply (gsteps_more s0 [] s2 (Some ev3)); [|apply (do_root_step 100); by_running|done].
  apply (gsteps_more s0 [] s1 None); [| |done].
  - apply (gsteps_more s0 [] s0 None); [apply gsteps_refl| |done].
    replace s1 with (with_world (set_live (fun _ => {[7; 8]})
      (set_responses (fun _ => {[5 := Waiting; 6 := Waiting]})
         (set_queues (fun _ => ∅) (gw s0)))) s0) by by_running.
    apply step_environment.
  - apply (do_send_step 10 (Subscribe false 5 (Some 7)));
      [by_running|by apply elem_of_by_bool|done].
Qed.

(** The gate is cloned and the clone attached. *)
Definition s4 : GSys := Eval vm_compute in
  let '(g, task, w) := gate_clone (root s3) 50 11 (gw s3) in
  mk_gsys w (root s3) (<[50 := g]> (clones s3)) (task :: tasks s3) (issued s3)
    (root_chans s3) ({[11]} ∪ clone_chans s3).
Definition s5 : GSys := Eval vm_compute in default s4 (do_task s4).
Definition s6 : GSys := Eval vm_compute in default s5 (snd <$> do_root 101 s5).
Definition ev6 : Event := mk_event 101 (AttachClone 50 11) true.

Lemma run6 : gsteps s0 [ev3; ev6] s6.
Proof.
  apply (gsteps_more s0 [ev3] s5 (Some ev6)); [|apply (do_root_step 101); by_running|done].
  apply (gsteps_more s0 [ev3] s4 None); [|apply do_task_step; by_running|done].
  apply (gsteps_more s0 [ev3] s3 None); [apply run3| |done].
  eapply (step_make_clone s3 (root s3) 50 11 _ _ (gw s4)); [by left|done| |].
  - by apply not_elem_of_by_bool.
  - by_running.
Qed.

(** A second link subscribes suspended; the clone is told. *)
Definition s7 : GSys := Eval vm_compute in
  default s6 (do_send 10 (Subscribe true 6 (Some 8)) s6).
Definition s8 : GSys := Eval vm_compute in default s7 (snd <$> do_root 102 s7).
Definition ev8 : Event := mk_event 102 (Subscribe true 6 (Some 8)) true.

Lemma run8 : gsteps s0 [ev3; ev6; ev8] s8.
Proof.
  apply (gsteps_more s0 [ev3; ev6] s7 (Some ev8)); [|apply (do_root_step 102); by_running|done].
  apply (gsteps_more s0 [ev3; ev6] s6 None); [apply run6| |done].
  apply (do_send_step 10 (Subscribe true 6 (Some 8)));
    [by_running|by apply elem_of_by_bool|done].
Qed.

(** The gate is reconfigured. *)
Definition new_gate : NewGate := mk_new_gate 2 12 frim_default.
Definition s9 : GSys := Eval vm_compute in do_new_gate 12 s8.
Definition s10 : GSys := Eval vm_compute in default s9 (do_send 10 (Reconfigure 0 new_gate) s9).
Definition s11 : GSys := Eval vm_compute in default s10 (snd <$> do_root 103 s10).
Definition ev11 : Event := mk_event 103 (Reconfigure 0 new_gate) true.

Lemma run11 : gsteps s0 [ev3; ev6; ev8; ev11] s11.
Proof.
  apply (gsteps_more s0 [ev3; ev6; ev8] s10 (Some ev11));
    [|apply (do_root_step 103); by_running|done].
  apply (gsteps_more s0 [ev3; ev6; ev8] s9 None); [| |done].
  - apply (gsteps_more s0 [ev3; ev6; ev8] s8 None); [apply run8| |done].
    replace s9 with (do_new_gate 12 s8) by by_running.
    by apply step_new_gate, not_elem_of_by_bool.
  - apply (do_send_step 10 (Reconfigure (GT := types) 0 new_gate));
      [by_running|by apply elem_of_by_bool|]. split; [by apply elem_of_by_bool|done].
Qed.

(** A trigger for a gate with a clone. *)
Definition s7t : GSys := Eval vm_compute in default s6 (do_send 10 (Trigger 0) s6).

Lemma run7t : gsteps s0 [ev3; ev6] s7t.
Proof.
  apply (gsteps_more s0 [ev3; ev6] s6 None); [apply run6| |done].
  apply (do_send_step 10 (Trigger (GT := types) 0)); [by_running|by apply elem_of_by_bool|done].
Qed.

End Run.

End GateDemo.

#[local] Existing Instance Demo.extern.
#[local] Existing Instance demo_layout.
#[local] Existing Instance GateDemo.types.

Import GateDemo.

Lemma updates_reach_subscribers_witness :
  let '((sent, rest), w') := update_data (EndOfStream 1) 0 (gw s3) in
  sent = true /\ rest = []
  /\ exists calls, delivered w' = ((fun c => (c.2, EndOfStream 1)) <$> calls)
       /\ (100, 7) ∈ calls.
Proof.
  destruct (update_data (EndOfStream 1) 0 (gw s3)) as [[sent rest] w'] eqn:Hu.
  assert (sent = true /\ rest = []) as [-> ->] by (cbn in Hu; by injection Hu as <- <- <-).
  split_and!; [done|done|].
  destruct (updates_reach_subscribers 8 1 10 [ev3] s3 (EndOfStream 1) 0 true w' run3 Hu)
    as ((calls & _ & -> & Hall & _) & _).
  exists calls. split; [done|]. apply Hall; [done|by apply elem_of_by_bool].
Defined.

Lemma gate_panics_exactly_witness :
  (handle (root s7t) 103 (Trigger (GT := types) 0) (recv (root s7t) (gw s7t)).2).1 = None.
Proof.
  by apply (gate_panics_exactly 8 1 10 [ev3; ev6] s7t run7t).
Defined.

Lemma process_decides_witness :
  match process (root s3) false (fun n => 200 + Z.of_nat n) (gw s3) with
  | (Some (Some o), w') => decided (root s3) (get_gate_status (gw s3)) false (gw s3) o w'
  | _ => False
  end.
Proof.
  pose proof (process_decides 8 1 10 [ev3] s3 (root s3) false (fun n => 200 + Z.of_nat n)
                run3 (or_introl eq_refl)) as H.
  destruct (process _ _ _ _) as [[[o|]|] w'] eqn:Hp; [exact H|done|].
  by cbn in Hp.
Defined.

Lemma notify_clones_exact_witness :
  exists w', notify_clones (Normal 10) (FollowUnsubscribe (GT := types) 100) (gw s6) = (Some tt, w')
    /\ chan_of w' 11 = push (FollowUnsubscribe 100) (chan_of (gw s6) 11)
    /\ clone_senders w' = [(50, 11)].
Proof.
  destruct (notify_clones_exact 10 (FollowUnsubscribe (GT := types) 100) (gw s6) eq_refl)
    as (w' & Hn & Hch & Hs); [apply NoDup_singleton|].
  exists w'. split_and!; [exact Hn| |by rewrite Hs].
  rewrite Hch, decide_True by (apply list_elem_of_here). done.
Defined.

Lemma reconfigured_clones_lost_witness :
  let '(g', (p, attach), w') := gate_clone (root s11) 51 13 (gw s11) in
  send_command p attach w' = Some (false, w')
  /\ gate_drop g' w' = Some (put_chan 13 (hang_up (chan_of w' 13)) w').
Proof.
  apply (reconfigured_clones_lost 8 1 10 [ev3; ev6; ev8; ev11] s11 (root s11) 51 13 run11);
    [done|by left|by apply not_elem_of_by_bool].
Defined.

Lemma status_counts_links_witness : get_gate_status (gw s3) = Active.
Proof. exact (status_counts_links 8 1 10 [ev3] s3 run3 eq_refl). Defined.

Lemma clone_wakes_suspended_witness :
  exists w2, handle (Clone 50 11 10) 0 (FollowSubscribe 102 (mk_sender None (Some 8)))
               (recv (Clone 50 11 10) (gw s8)).2 = (Some None, w2)
    /\ frim_view (updates w2) !! 102 = Some (mk_sender None (Some 8))
    /\ frim_view (suspended w2) !! 102 = Some (mk_sender None (Some 8)).
Proof.
  apply (clone_wakes_suspended 8 1 10 [ev3; ev6; ev8] s8 50 (Clone 50 11 10) 102
           (mk_sender None (Some 8)) (mk_sender None (Some 8))
           (recv (Clone 50 11 10) (gw s8)).2 0 run8); done.
Defined.

Definition demo_link : Link := set_direct_update_target (Some 8) (link_new 1 1 10).

Lemma connect_then_disconnect_witness :
  exists w1 r w2 l2,
    connect_start false 9 demo_link (gw s3) = Some (Wait, demo_link, w1)
    /\ turn (root s3) Active false 200 w1 = (Some r, w2)
    /\ connect_finish false 9 demo_link w2 = Some (Connected, l2)
    /\ connected_gate_slot l2 = Some 200.
Proof.
  destruct (connect_then_disconnect 8 1 10 [ev3] s3 demo_link false 9 200 201 Active false
              run3 eq_refl eq_refl eq_refl eq_refl eq_refl eq_refl)
    as (w1 & r & w2 & l2 & l3 & w3 & r' & w4 & H1 & H2 & H3 & H4 & _).
  by exists w1, r, w2, l2.
Defined.

(** A link that is connected, suspended and has an update in its queue. *)
Definition queued_link : Link :=
  mk_link 1 1 10 (Some (mk_connection 100 (Some 100))) Healthy true None.
Definition queued_world : World :=
  set_queues (fun _ => {[100 := mk_chan [inl (EndOfStream 1)] 8 true]}) (gw s0).

Lemma query_stays_suspended_witness :
  exists w', query false queued_link queued_world = Some (inl (EndOfStream 1), queued_link, w')
    /\ link_suspended queued_link = true /\ chans w' = chans queued_world.
Proof.
  destruct (query false queued_link queued_world) as [[[item l'] w']|] eqn:Hq; [|done].
  destruct (query_stays_suspended _ _ _ _ _ _ Hq) as (_ & Hc & _).
  exists w'. cbn in Hq. injection Hq as <- <- <-. done.
Defined.
