(* ===== verification/Config.v ===== *)
(** * Positions in a configuration file ([src/config.rs])

    [ConfigFile] keeps the offset at which each line starts, and [resolve_pos]
    turns the offset of a link into a line and a column for error messages.  The
    TOML library is not modelled: a file is its text. *)

From S2P Require Import Prelude.
From Stdlib Require Import ZArith Lia.
From stdpp Require Import base numbers list.

Local Open Scope Z_scope.

Record LineCol : Type := mk_linecol { line : Z; col : Z }.

Definition newline : Z := 10.

(** [slice::split]: the pieces between the separators. *)
Fixpoint split_on (sep : Z) (l : list Z) : list (list Z) :=
  match l with
  | [] => [[]]
  | x :: l' =>
      if x =? sep then [] :: split_on sep l'
      else match split_on sep l' with
           | p :: ps => (x :: p) :: ps
           | [] => [[x]]
           end
  end.

(** The fold of [ConfigFile::new]. *)
Definition line_starts_of (bytes : list Z) : list Z :=
  foldl (fun starts slice => starts ++ [default 0 (last starts) + zlen slice + 1]) [0]
    (split_on newline bytes).

Record ConfigFile : Type := mk_file {
  file_bytes : list Z;
  line_starts : list Z
}.

Definition config_file_new (bytes : list Z) : ConfigFile :=
  mk_file bytes (line_starts_of bytes).

(** [iter().rposition(f)], counting from [i]. *)
Fixpoint rposition {A} (f : A -> bool) (i : nat) (l : list A) : option nat :=
  match l with
  | [] => None
  | x :: l' =>
      match rposition f (S i) l' with
      | Some j => Some j
      | None => if f x then Some i else None
      end
  end.

Definition resolve_pos (file : ConfigFile) (pos : Z) : LineCol :=
  let idx := default 0%nat (rposition (fun start => start <=? pos) 0 (line_starts file)) in
  mk_linecol (Z.of_nat idx + 1) (pos - nth idx (line_starts file) 0 + 1).

(** ** The line starts *)

(** After the line at [base], one offset behind each newline and one behind the
    end. *)
Fixpoint starts_of (base : Z) (l : list Z) : list Z :=
  match l with
  | [] => [base + 1]
  | x :: l' => (if x =? newline then [base + 1] else []) ++ starts_of (base + 1) l'
  end.

Lemma split_on_nonempty sep l : exists p ps, split_on sep l = p :: ps.
Proof.
  destruct l as [|y l]; cbn; [eauto|]. destruct (y =? sep); [eauto|].
  destruct (split_on sep l); eauto.
Qed.

(** The offsets as sums of lengths. *)
Fixpoint sums (c : Z) (lens : list Z) : list Z :=
  match lens with
  | [] => []
  | n :: ns => (c + n + 1) :: sums (c + n + 1) ns
  end.

Lemma fold_sums acc c (pieces : list (list Z)) :
  foldl (fun starts slice => starts ++ [default 0 (last starts) + zlen slice + 1])
    (acc ++ [c]) pieces
  = acc ++ [c] ++ sums c (zlen <$> pieces).
Proof.
  revert acc c. induction pieces as [|p ps IH]; intros acc c; cbn [foldl fmap list_fmap sums].
  { by rewrite app_nil_r. }
  rewrite last_snoc; cbn. rewrite IH. by rewrite <- !app_assoc.
Qed.

(** [k] octets of the line at [c] have been read. *)
Lemma sums_starts l c k p ps :
  split_on newline l = p :: ps ->
  sums c (k + zlen p :: (zlen <$> ps)) = starts_of (c + k) l.
Proof.
  revert c k p ps. induction l as [|x l IH]; intros c k p ps; cbn [split_on starts_of].
  { intros [= <- <-]. cbn. f_equal. unfold zlen; cbn. lia. }
  destruct (split_on_nonempty newline l) as (p' & ps' & Hs). rewrite Hs.
  destruct (x =? newline) eqn:Hx; intros [= <- <-].
  - cbn [sums fmap list_fmap app]. rewrite zlen_nil, Z.add_0_r. f_equal.
    pose proof (IH (c + k + 1) 0 p' ps' Hs) as H. by rewrite Z.add_0_r in H.
  - rewrite zlen_cons. replace (k + (1 + zlen p')) with (k + 1 + zlen p') by lia.
    rewrite (IH c (k + 1) p' ps' Hs). cbn. f_equal. lia.
Qed.

Lemma line_starts_spec bytes : line_starts_of bytes = 0 :: starts_of 0 bytes.
Proof.
  unfold line_starts_of. rewrite (fold_sums [] 0). cbn. f_equal.
  destruct (split_on_nonempty newline bytes) as (p & ps & Hs). rewrite Hs. cbn [fmap list_fmap].
  apply (sums_starts bytes 0 0 p ps) in Hs. done.
Qed.

(** ** Looking up a position *)

Definition newlines (l : list Z) : nat := length (filter (fun b => b = newline) l).

(** The start of the line that holds offset [pos], when the line being read
    began at [c] and [base] octets are behind. *)
Fixpoint line_begin (c base : Z) (l : list Z) (pos : Z) : Z :=
  match l with
  | [] => c
  | x :: l' =>
      if pos <=? base then c
      else line_begin (if x =? newline then base + 1 else c) (base + 1) l' pos
  end.

Lemma starts_of_bound base l : Forall (fun s => base < s) (starts_of base l).
Proof.
  revert base. induction l as [|x l IH]; intros base; cbn; [by repeat constructor; lia|].
  apply Forall_app. split.
  - destruct (x =? newline); repeat constructor; lia.
  - eapply Forall_impl; [apply IH|]. cbn. lia.
Qed.

Lemma rposition_none {A} (f : A -> bool) i l :
  Forall (fun x => f x = false) l -> rposition f i l = None.
Proof. intros Hl. revert i. induction Hl as [|x l Hx _ IH]; intros i; cbn; [done|]. by rewrite IH, Hx. Qed.

(** The index that is found, and the start there. *)
Lemma rposition_starts c base l pos i :
  c <= pos -> base <= pos <= base + zlen l ->
  exists k, rposition (fun s => s <=? pos) i (c :: starts_of base l) = Some (i + k)%nat
    /\ k = newlines (take (Z.to_nat (pos - base)) l)
    /\ nth k (c :: starts_of base l) 0 = line_begin c base l pos.
Proof.
  revert c base i. induction l as [|x l IH]; intros c base i Hc Hp.
  - exists 0%nat. rewrite zlen_nil in Hp. cbn.
    rewrite (proj2 (Z.leb_gt _ _)) by lia. rewrite (proj2 (Z.leb_le _ _)) by lia.
    rewrite take_nil. split_and!; [f_equal; lia|done|done].
  - rewrite zlen_cons in Hp. cbn [line_begin starts_of].
    destruct (Z.leb_spec pos base) as [Hle|Hgt].
    + (* nothing behind the position *)
      exists 0%nat. replace (Z.to_nat (pos - base)) with 0%nat by lia. cbn [take].
      split_and!; [|done|done]. cbn [rposition].
      rewrite rposition_none; [rewrite (proj2 (Z.leb_le _ _)) by lia; f_equal; lia|].
      eapply Forall_impl; [apply (starts_of_bound base (x :: l))|].
      cbn. intros s Hs. apply Z.leb_gt. lia.
    + replace (Z.to_nat (pos - base)) with (S (Z.to_nat (pos - (base + 1)))) by lia.
      cbn [take]. unfold newlines. rewrite filter_cons.
      destruct (Z.eqb_spec x newline) as [Hx|Hx]; cbn [app].
      * destruct (IH (base + 1) (base + 1) (S i)) as (k & Hr & Hk & Hn); [lia|lia|].
        exists (S k). rewrite decide_True by done. split_and!; [|cbn; by rewrite Hk|done].
        cbn [rposition]. cbn [rposition] in Hr. rewrite Hr. f_equal. lia.
      * destruct (IH c (base + 1) i) as (k & Hr & Hk & Hn); [lia|lia|].
        exists k. by rewrite decide_False.
Qed.

(** What [line_begin] is: the last newline before the position is just ahead of
    it. *)
Lemma line_begin_spec c base l pos :
  c <= base <= pos -> pos <= base + zlen l ->
  let b := line_begin c base l pos in
  (b = c \/ base < b <= pos /\ l !! Z.to_nat (b - 1 - base) = Some newline)
  /\ (forall i x, l !! i = Some x -> b <= base + Z.of_nat i < pos -> x <> newline).
Proof.
  revert c base. induction l as [|x l IH]; intros c base Hb Hp; [by split; [left|]|].
  rewrite zlen_cons in Hp. cbn [line_begin]. destruct (Z.leb_spec pos base) as [Hle|Hgt].
  { split; [by left|]. intros i y _ ?. lia. }
  destruct (Z.eqb_spec x newline) as [Hx|Hx].
  - destruct (IH (base + 1) (base + 1)) as [Hl Hr]; [lia|lia|].
    set (b := line_begin _ _ _ _) in *. split.
    + right. destruct Hl as [->|[? Hl]].
      * split; [lia|]. replace (Z.to_nat (base + 1 - 1 - base)) with 0%nat by lia. by subst.
      * split; [lia|]. rewrite <- Hl.
        replace (Z.to_nat (b - 1 - base)) with (S (Z.to_nat (b - 1 - (base + 1)))) by lia. done.
    + intros [|i] y; [|intros Hi ?; apply (Hr i y Hi); lia].
      intros _ ?. assert (base + 1 <= b) by (destruct Hl as [->|[? _]]; lia). lia.
  - destruct (IH c (base + 1)) as [Hl Hr]; [lia|lia|].
    set (b := line_begin _ _ _ _) in *. split.
    + destruct Hl as [->|[? Hl]]; [by left|right]. split; [lia|]. rewrite <- Hl.
      replace (Z.to_nat (b - 1 - base)) with (S (Z.to_nat (b - 1 - (base + 1)))) by lia. done.
    + intros [|i] y; [by intros [= <-]|]. intros Hi ?. apply (Hr i y Hi). lia.
Qed.

(** The line is one more than the newlines before the position; the column is
    counted from the octet behind the last of them. *)
Theorem resolve_pos_exact bytes pos :
  0 <= pos <= zlen bytes ->
  let lc := resolve_pos (config_file_new bytes) pos in
  let b := pos - (col lc - 1) in
  line lc = Z.of_nat (newlines (take (Z.to_nat pos) bytes)) + 1
  /\ (b = 0 \/ 0 < b <= pos /\ bytes !! Z.to_nat (b - 1) = Some newline)
  /\ (forall i x, bytes !! i = Some x -> b <= Z.of_nat i < pos -> x <> newline).
Proof.
  intros Hp lc b. subst lc b. unfold resolve_pos. cbn [line_starts config_file_new line col].
  rewrite line_starts_spec.
  destruct (rposition_starts 0 0 bytes pos 0) as (k & Hr & Hk & Hn); [lia|lia|].
  rewrite Hr.
  change (default 0%nat (Some (0 + k)%nat)) with k. rewrite Hn, Hk.
  destruct (line_begin_spec 0 0 bytes pos) as [Hl Hx]; [lia|lia|].
  set (b := line_begin 0 0 bytes pos) in *.
  replace (pos - (pos - b + 1 - 1)) with b by lia. rewrite Z.sub_0_r in *.
  split_and!; [done|done|]. intros i x Hi ?. apply (Hx i x Hi). lia.
Qed.

Lemma resolve_pos_exact_witness :
  resolve_pos (config_file_new [97; 10; 98; 99; 10; 100]) 3 = mk_linecol 2 2
  /\ line (resolve_pos (config_file_new [97; 10; 98; 99; 10; 100]) 3)
     = Z.of_nat (newlines (take 3 [97; 10; 98; 99; 10; 100])) + 1.
Proof.
  split; [reflexivity|].
  apply (resolve_pos_exact [97; 10; 98; 99; 10; 100] 3). by split.
Defined.
