(* ===== verification/Manager.v ===== *)
(** * The manager ([src/manager.rs], with [finalise] of [src/config.rs])

    Reading a configuration makes a gate for every unit that a link names
    ([load_link]); [prepare] checks that the units exist and keeps the gates;
    [spawn] compares the configuration with what is running and starts,
    reconfigures and stops units and targets.  The manager is a record, an
    operation a function in the monad of panics and state; what it does to units
    and targets is the list [sp_log] of its calls.

    What the TOML library and the compiler of Roto answer are arguments. *)

From S2P Require Import Prelude Net Payload Register Frim Gate Link.
From Stdlib Require Import ZArith Lia.
From stdpp Require Import base numbers list gmap fin_maps strings.

Local Open Scope Z_scope.

(** ** Units and targets

    A unit is its variant and its settings; of the settings the manager touches
    one flag of [BgpTcpIn]. *)
Class Settings := {
  UnitSettings : Type;
  TargetSettings : Type
}.

Section Manager.
Context {ST : Settings}.

Inductive UnitConfig : Type :=
| BgpTcpIn (synthesize_peer_stats : option bool) (s : UnitSettings)
| BmpTcpIn (s : UnitSettings)
| BmpTcpOut (s : UnitSettings)
| RibUnit (s : UnitSettings)
| MrtFileIn (s : UnitSettings)
| RtrTcpIn (s : UnitSettings).

Inductive TargetConfig : Type :=
| FileOut (s : TargetSettings)
| MqttOut (s : TargetSettings)
| NullOut (s : TargetSettings).

(** [mem::discriminant]. *)
Definition unit_type (u : UnitConfig) : Z :=
  match u with
  | BgpTcpIn _ _ => 0 | BmpTcpIn _ => 1 | BmpTcpOut _ => 2 | RibUnit _ => 3
  | MrtFileIn _ => 4 | RtrTcpIn _ => 5
  end.

Definition target_type (t : TargetConfig) : Z :=
  match t with FileOut _ => 0 | MqttOut _ => 1 | NullOut _ => 2 end.

(** [type_name]. *)
Definition unit_type_name (u : UnitConfig) : rstring :=
  match u with
  | BgpTcpIn _ _ => str "bgp-tcp-in" | BmpTcpIn _ => str "bmp-tcp-in"
  | BmpTcpOut _ => str "bmp-tcp-out" | RibUnit _ => str "rib"
  | MrtFileIn _ => str "mrt-file-in" | RtrTcpIn _ => str "rtr-tcp-in"
  end.

Definition target_type_name (t : TargetConfig) : rstring :=
  match t with
  | FileOut _ => str "file-out" | MqttOut _ => str "mqtt-out"
  | NullOut _ => str "null-out"
  end.

Record Config : Type := mk_config {
  units : gmap rstring UnitConfig;
  targets : gmap rstring TargetConfig
}.

(** [auto_enable_peer_stats_synthesis]. *)
Definition auto_enable_peer_stats_synthesis (c : Config) : Config :=
  let has_bmp_out :=
    existsb (fun nu => match nu.2 with BmpTcpOut _ => true | _ => false end)
      (map_to_list (units c)) in
  mk_config
    ((fun u => match u with
               | BgpTcpIn None s => BgpTcpIn (Some has_bmp_out) s
               | _ => u
               end) <$> units c)
    (targets c).

(** ** Loading links *)

(** A gate that is not running yet, and an agent for it. *)
Record PendingGate : Type := mk_pending { pg_id : Uuid; pg_commands : ChanId; pg_queue_size : Z }.
Record Agent : Type := mk_agent { ag_id : Uuid; ag_commands : ChanId }.

#[export] Instance Agent_eq_dec : EqDecision Agent.
Proof. solve_decision. Defined.

(** [Gate::new]: [id] and [tx] are fresh. *)
Definition new_gate (queue_size : Z) (id : Uuid) (tx : ChanId) : PendingGate * Agent :=
  (mk_pending id tx queue_size, mk_agent id tx).

Record LoadUnit : Type := mk_load {
  lu_gate : option PendingGate;
  lu_agent : Agent;
  lu_links : list Z                  (* where the links are in the file *)
}.

Definition load_unit_new (queue_size : Z) (id : Uuid) (tx : ChanId) : LoadUnit :=
  let '(g, a) := new_gate queue_size id tx in mk_load (Some g) a [].

(** [str::split_once(':')]. *)
Fixpoint split_once (c : Z) (s : rstring) : option (rstring * rstring) :=
  match s with
  | [] => None
  | x :: s' =>
      if x =? c then Some ([], s')
      else match split_once c s' with
           | Some (a, b) => Some (x :: a, b)
           | None => None
           end
  end.

(** [str::parse::<usize>]: digits after an optional plus, within 64 bits. *)
Definition digit (c : Z) : option Z :=
  if (48 <=? c) && (c <=? 57) then Some (c - 48) else None.

Fixpoint parse_digits (acc : Z) (s : rstring) : option Z :=
  match s with
  | [] => Some acc
  | c :: s' =>
      match digit c with
      | Some d =>
          if acc * 10 + d <=? usize_max then parse_digits (acc * 10 + d) s' else None
      | None => None
      end
  end.

Definition parse_usize (s : rstring) : option Z :=
  match s with
  | [] => None
  | 43 :: [] => None
  | 43 :: s' => parse_digits 0 s'
  | _ => parse_digits 0 s
  end.

Definition colon : Z := 58.

Definition get_queue_size_for_link (link_id : rstring) : rstring * Z :=
  match split_once colon link_id with
  | Some (name, options) =>
      (name, default (Z.of_nat DEF_UPDATE_QUEUE_LEN) (parse_usize options))
  | None => (link_id, Z.of_nat DEF_UPDATE_QUEUE_LEN)
  end.

Definition Gates : Type := gmap rstring LoadUnit.

(** [load_link]: [mark] is the position of the link, [id] the UUID of the link,
    [gid] and [tx] those of a gate made for it. *)
Definition load_link (link_id : rstring) (mark : Z) (id gid : Uuid) (tx : ChanId)
    (gates : gmap rstring LoadUnit) : Link * gmap rstring LoadUnit :=
  let '(name, queue_size) := get_queue_size_for_link link_id in
  let unit := default (load_unit_new queue_size gid tx) (gates !! name) in
  let unit := mk_load (lu_gate unit) (lu_agent unit) (lu_links unit ++ [mark]) in
  (link_new id (ag_id (lu_agent unit)) (ag_commands (lu_agent unit)),
   <[name := unit]> gates).

(** A link the deserializer meets: its text, its position, and the fresh names. *)
Record LinkRef : Type := mk_ref {
  lr_text : rstring; lr_mark : Z; lr_id : Uuid; lr_gate : Uuid; lr_chan : ChanId
}.

Definition load_links (refs : list LinkRef) (gates : gmap rstring LoadUnit)
    : gmap rstring LoadUnit :=
  foldl (fun g r => (load_link (lr_text r) (lr_mark r) (lr_id r) (lr_gate r) (lr_chan r) g).2)
    gates refs.

(** ** The manager *)

Record Manager : Type := mk_manager {
  running_units : gmap rstring (Z * Agent);
  running_targets : gmap rstring (Z * ChanId);
  pending_gates : gmap rstring (PendingGate * Agent);
  GATES : gmap rstring LoadUnit           (* the thread-local of the loader *)
}.

Definition manager_new : Manager := mk_manager ∅ ∅ ∅ ∅.

Definition set_gates (g : gmap rstring LoadUnit) (m : Manager) : Manager :=
  mk_manager (running_units m) (running_targets m) (pending_gates m) g.
Definition set_pending (p : gmap rstring (PendingGate * Agent)) (m : Manager) : Manager :=
  mk_manager (running_units m) (running_targets m) p (GATES m).

(** [load]: the deserializer meets [refs] and answers [parsed]. *)
Definition load (refs : list LinkRef) (parsed : option Config) (m : Manager)
    : option Config * Manager :=
  (parsed, set_gates (load_links refs (GATES m)) m).

Context `{HL : !HashIter rstring LoadUnit} `{HU : !HashIter rstring UnitConfig}
  `{HT : !HashIter rstring TargetConfig}
  `{HRU : !HashIter rstring (Z * Agent)} `{HRT : !HashIter rstring (Z * ChanId)}.

(** The loop of [prepare]: [false] is its error return. *)
Fixpoint prepare_loop (config : Config) (gates : list (rstring * LoadUnit)) (m : Manager)
    : bool * Manager :=
  match gates with
  | [] => (true, m)
  | (name, load) :: rest =>
      match lu_gate load with
      | None => prepare_loop config rest m
      | Some gate =>
          if bool_decide (is_Some (units config !! name)) then
            prepare_loop config rest
              (set_pending (<[name := (gate, lu_agent load)]> (pending_gates m)) m)
          else (false, m)
      end
  end.

(** [prepare]: [roto_ok] is the answer of [compile_roto_script]. *)
Definition prepare (config : Config) (roto_ok : bool) (m : Manager) : bool * Manager :=
  if negb roto_ok then (false, m)
  else prepare_loop config (hm_iter (GATES m)) (set_gates ∅ m).

(** [Config::from_config_file]: [load] and [finalise]; [log_ok] is the answer of
    [switch_logging]. *)
Definition from_config_file (refs : list LinkRef) (parsed : option Config)
    (log_ok roto_ok : bool) (m : Manager) : option Config * Manager :=
  let '(c, m) := load refs parsed m in
  match c with
  | None => (None, m)
  | Some c =>
      if negb log_ok then (None, m)
      else
        let c := auto_enable_peer_stats_synthesis c in
        let '(ok, m) := prepare c roto_ok m in
        (if ok then Some c else None, m)
  end.

(** ** [Coordinator] *)

Record Coordinator : Type := mk_coordinator {
  max_components : nat;
  co_pending : gset rstring
}.

Definition coordinator_new (n : nat) : Coordinator := mk_coordinator n ∅.

(** [track]; [None] is a panic. *)
Definition track (name : rstring) (c : Coordinator) : option Coordinator :=
  if bool_decide (name ∈ co_pending c) then None
  else
    let p := {[name]} ∪ co_pending c in
    if bool_decide (max_components c < size p)%nat then None
    else Some (mk_coordinator (max_components c) p).

(** The waits that [wait_internal] adds for components that are not tracked. *)
Definition num_unused_barriers (c : Coordinator) : nat :=
  max_components c - size (co_pending c) + 1.

(** ** [spawn] *)

Inductive Action : Type :=
| TerminateTarget (name : rstring) (tx : ChanId)
| ReconfigureTarget (name : rstring) (tx : ChanId) (t : TargetConfig)
| SpawnTarget (name : rstring) (t : TargetConfig) (tx : ChanId)
| TerminateUnit (name : rstring) (agent : Agent)
| ReconfigureUnit (name : rstring) (agent : Agent) (u : UnitConfig) (g : PendingGate)
| SpawnUnit (name : rstring) (u : UnitConfig) (g : PendingGate).

Record Spawn : Type := mk_spawn {
  sp_manager : Manager;
  new_running_units : gmap rstring (Z * Agent);
  new_running_targets : gmap rstring (Z * ChanId);
  sp_coordinator : Coordinator;
  sp_log : list Action
}.

Definition sp_set_manager f s := mk_spawn (f (sp_manager s)) (new_running_units s)
  (new_running_targets s) (sp_coordinator s) (sp_log s).
Definition sp_add_unit n v s := mk_spawn (sp_manager s) (<[n := v]> (new_running_units s))
  (new_running_targets s) (sp_coordinator s) (sp_log s).
Definition sp_add_target n v s := mk_spawn (sp_manager s) (new_running_units s)
  (<[n := v]> (new_running_targets s)) (sp_coordinator s) (sp_log s).
Definition sp_call a s := mk_spawn (sp_manager s) (new_running_units s)
  (new_running_targets s) (sp_coordinator s) (sp_log s ++ [a]).

Definition del_target n (m : Manager) := mk_manager (running_units m)
  (delete n (running_targets m)) (pending_gates m) (GATES m).
Definition del_unit n (m : Manager) := mk_manager (delete n (running_units m))
  (running_targets m) (pending_gates m) (GATES m).
Definition del_pending n (m : Manager) := mk_manager (running_units m)
  (running_targets m) (delete n (pending_gates m)) (GATES m).

(** [coordinator.clone().track(name)]. *)
Definition sp_track (name : rstring) : Run Spawn unit := fun s =>
  match track name (sp_coordinator s) with
  | Some c => (Some tt, mk_spawn (sp_manager s) (new_running_units s)
                          (new_running_targets s) c (sp_log s))
  | None => (None, s)
  end.

(** One target of the configuration; [tx] is the channel made if it is new. *)
Definition spawn_target_step (tx : ChanId) (name : rstring) (new_target : TargetConfig)
    : Run Spawn unit :=
  s ← run_get;
  let spawn_new :=
    _ ← sp_track name;
    _ ← run_modify (sp_call (SpawnTarget name new_target tx));
    run_modify (sp_add_target name (target_type new_target, tx)) in
  match running_targets (sp_manager s) !! name with
  | Some (running_type, sender) =>
      _ ← run_modify (sp_set_manager (del_target name));
      if target_type new_target =? running_type then
        _ ← run_modify (sp_call (ReconfigureTarget name sender new_target));
        run_modify (sp_add_target name (running_type, sender))
      else
        _ ← run_modify (sp_call (TerminateTarget name sender)); spawn_new
  | None => spawn_new
  end.

(** One unit of the configuration. *)
Definition spawn_unit_step (name : rstring) (new_unit : UnitConfig) : Run Spawn unit :=
  s ← run_get;
  match pending_gates (sp_manager s) !! name with
  | None =>
      (* unused: stopped, or never started *)
      match running_units (sp_manager s) !! name with
      | Some (_, agent) =>
          _ ← run_modify (sp_set_manager (del_unit name));
          run_modify (sp_call (TerminateUnit name agent))
      | None => mret tt
      end
  | Some (new_gate, new_agent) =>
      _ ← run_modify (sp_set_manager (del_pending name));
      let spawn_new :=
        _ ← sp_track name;
        _ ← run_modify (sp_call (SpawnUnit name new_unit new_gate));
        run_modify (sp_add_unit name (unit_type new_unit, new_agent)) in
      match running_units (sp_manager s) !! name with
      | Some (running_type, agent) =>
          _ ← run_modify (sp_set_manager (del_unit name));
          if unit_type new_unit =? running_type then
            _ ← run_modify (sp_call (ReconfigureUnit name agent new_unit new_gate));
            run_modify (sp_add_unit name (unit_type new_unit, new_agent))
          else
            _ ← run_modify (sp_call (TerminateUnit name agent)); spawn_new
      | None => spawn_new
      end
  end.

(** [spawn_internal]; [chan name] is the channel made for a new target. *)
Definition spawn_internal (chan : rstring -> ChanId) (config : Config) : Run Spawn unit :=
  _ ← run_for (hm_iter (targets config)) (fun nt => spawn_target_step (chan nt.1) nt.1 nt.2);
  _ ← run_for (hm_iter (units config)) (fun nu => spawn_unit_step nu.1 nu.2);
  s ← run_get;
  _ ← run_for (hm_iter (running_units (sp_manager s)))
        (fun na => run_modify (sp_call (TerminateUnit na.1 na.2.2)));
  run_for (hm_iter (running_targets (sp_manager s)))
        (fun nt => run_modify (sp_call (TerminateTarget nt.1 nt.2.2))).

(** [spawn]: the log of calls with the manager afterwards; [None] is a panic. *)
Definition spawn (chan : rstring -> ChanId) (config : Config) (m : Manager)
    : option (list Action * Coordinator * Manager) :=
  let s0 := mk_spawn m ∅ ∅
              (coordinator_new (size (targets config) + size (units config))) [] in
  match spawn_internal chan config s0 with
  | (Some _, s) =>
      Some (sp_log s, sp_coordinator s,
            mk_manager (new_running_units s) (new_running_targets s)
              (pending_gates (sp_manager s)) (GATES (sp_manager s)))
  | (None, _) => None
  end.

End Manager.
