(* ===== verification/ManagerProps.v ===== *)
(** * Properties of the manager

    [spawn] does to each name what a table says, whatever the order of the hash
    maps, and panics exactly when one name is started twice; a configuration that
    loads runs exactly the units some link names; gates left over from a failed
    load stay. *)

From S2P Require Import Prelude Net Payload Register Frim Gate Link Manager.
From Stdlib Require Import ZArith Lia.
From stdpp Require Import base numbers list gmap fin_maps.

Local Open Scope Z_scope.

(** ** Loops whose turns touch one key each *)
Section Local.
Context {S A K O : Type} `{EqDecision K}.
Variables (obs : K -> S -> O) (key : A -> K) (body : A -> Run S unit) (F : A -> O -> O).

Definition local_body : Prop :=
  forall a s s', body a s = (Some tt, s') ->
  forall n, obs n s' = if decide (n = key a) then F a (obs n s) else obs n s.

Lemma run_for_local l s s' :
  local_body -> NoDup (key <$> l) -> run_for l body s = (Some tt, s') ->
  forall n, (forall a, a ∈ l -> key a = n -> obs n s' = F a (obs n s))
            /\ (n ∉ key <$> l -> obs n s' = obs n s).
Proof.
  intros HB. revert s. induction l as [|a l IH]; intros s Hnd Hr n.
  { injection Hr as <-. split; [|done]. intros a Ha. by apply elem_of_nil in Ha. }
  cbn [run_for] in Hr. apply run_bind_inv in Hr as [([] & s1 & Hb & Hr)|[_ ?]]; [|done].
  cbn in Hnd. apply NoDup_cons in Hnd as [Hni Hnd].
  pose proof (HB a s s1 Hb n) as H1. destruct (IH s1 Hnd Hr n) as [Hin Hout]. split.
  - intros b [->|Hb']%elem_of_cons Hk.
    + subst n. rewrite decide_True in H1 by done. rewrite <- H1. by apply Hout.
    + rewrite (Hin b Hb' Hk), H1, decide_False; [done|].
      intros ->. apply Hni. rewrite <- Hk. by apply list_elem_of_fmap_2.
  - cbn. intros [Hne Hn]%not_elem_of_cons. rewrite (Hout Hn), H1. by rewrite decide_False.
Qed.

End Local.

(** A loop whose turns leave something alone leaves it alone. *)
Lemma run_for_keeps {S A O} (obs : S -> O) (body : A -> Run S unit) l s s' :
  (forall a s s', body a s = (Some tt, s') -> obs s' = obs s) ->
  run_for l body s = (Some tt, s') -> obs s' = obs s.
Proof.
  intros HB. revert s. induction l as [|a l IH]; intros s Hr; [by injection Hr as <-|].
  cbn [run_for] in Hr. apply run_bind_inv in Hr as [([] & s1 & Hb & Hr)|[_ ?]]; [|done].
  rewrite (IH s1 Hr). by eapply HB.
Qed.

(** ** Hash maps as lists *)
Section Iter.
Context {V : Type} `{HI : !HashIter rstring V}.

Lemma hm_iter_notin (M : gmap rstring V) n : n ∉ (hm_iter M).*1 <-> M !! n = None.
Proof.
  rewrite hm_iter_perm. split.
  - intros Hn. destruct (M !! n) as [v|] eqn:Hv; [|done]. exfalso. apply Hn.
    apply list_elem_of_fmap. exists (n, v). split; [done|]. by apply elem_of_map_to_list.
  - intros Hn ([k v] & -> & Hin%elem_of_map_to_list)%list_elem_of_fmap. cbn in Hn. congruence.
Qed.

Lemma list_to_map_hm_iter (M : gmap rstring V) : (list_to_map (hm_iter M) : gmap rstring V) = M.
Proof.
  transitivity (list_to_map (map_to_list M) : gmap rstring V); [|apply list_to_map_to_list].
  apply list_to_map_proper; [apply hm_iter_NoDup|apply hm_iter_perm].
Qed.

Lemma filter_key (l : list (rstring * V)) n :
  NoDup l.*1 ->
  filter (fun kv => kv.1 = n) l
  = match (list_to_map l : gmap rstring V) !! n with Some v => [(n, v)] | None => [] end.
Proof.
  induction l as [|[k v] l IH]; [done|]. intros [Hni Hnd]%NoDup_cons.
  rewrite filter_cons. cbn [fst list_to_map foldr]. destruct (decide (k = n)) as [->|Hne].
  - change (foldr _ ∅ l) with (list_to_map l : gmap rstring V).
    rewrite lookup_insert_eq, (IH Hnd). rewrite not_elem_of_list_to_map_1 by done. done.
  - change (foldr _ ∅ l) with (list_to_map l : gmap rstring V).
    rewrite lookup_insert_ne by done. apply (IH Hnd).
Qed.

Lemma filter_image {A} (f : rstring * V -> A) (P : A -> Prop) `{!forall a, Decision (P a)} n
    (l : list (rstring * V)) :
  (forall kv, P (f kv) <-> kv.1 = n) -> filter P (f <$> l) = f <$> filter (fun kv => kv.1 = n) l.
Proof.
  intros Hf. induction l as [|kv l IH]; [done|]. cbn [fmap list_fmap]. rewrite !filter_cons, IH.
  destruct (decide (kv.1 = n)) as [Hk|Hk].
  - by rewrite decide_True by (by apply Hf).
  - by rewrite decide_False by (by rewrite Hf).
Qed.

Lemma filter_none {A} (f : rstring * V -> A) (P : A -> Prop) `{!forall a, Decision (P a)}
    (l : list (rstring * V)) :
  (forall kv, ~ P (f kv)) -> filter P (f <$> l) = [].
Proof.
  intros Hf. induction l as [|kv l IH]; [done|]. cbn [fmap list_fmap].
  by rewrite filter_cons, decide_False.
Qed.

(** The calls made for each entry, seen under one name. *)
Lemma filter_iter {A} (f : rstring * V -> A) (P : A -> Prop) `{!forall a, Decision (P a)}
    (M : gmap rstring V) n :
  (forall kv, P (f kv) <-> kv.1 = n) ->
  filter P (f <$> hm_iter M) = match M !! n with Some v => [f (n, v)] | None => [] end.
Proof.
  intros Hf. rewrite (filter_image f P n) by done. rewrite filter_key by apply hm_iter_NoDup.
  rewrite list_to_map_hm_iter. by destruct (M !! n).
Qed.

End Iter.

Section Manager.
Context {ST : Settings}.
Context `{HL : !HashIter rstring LoadUnit} `{HU : !HashIter rstring UnitConfig}
  `{HT : !HashIter rstring TargetConfig}
  `{HRU : !HashIter rstring (Z * Agent)} `{HRT : !HashIter rstring (Z * ChanId)}.
Implicit Types (s : Spawn) (m : Manager) (c : Config) (n : rstring).

(** ** What [spawn] does to one name *)

Definition about_target n (a : Action) : Prop :=
  match a with
  | TerminateTarget k _ | ReconfigureTarget k _ _ | SpawnTarget k _ _ => k = n
  | _ => False
  end.

Definition about_unit n (a : Action) : Prop :=
  match a with
  | TerminateUnit k _ | ReconfigureUnit k _ _ _ | SpawnUnit k _ _ => k = n
  | _ => False
  end.

#[local] Instance about_target_dec n a : Decision (about_target n a).
Proof. destruct a; cbn; apply _. Defined.
#[local] Instance about_unit_dec n a : Decision (about_unit n a).
Proof. destruct a; cbn; apply _. Defined.

(** The calls for a target, by what was running under its name and what is
    configured. *)
Definition target_spec (chan : rstring -> ChanId) n (old : option (Z * ChanId))
    (new : option TargetConfig) : list Action :=
  match old, new with
  | None, None => []
  | Some (_, tx), None => [TerminateTarget n tx]
  | None, Some t => [SpawnTarget n t (chan n)]
  | Some (ty, tx), Some t =>
      if target_type t =? ty then [ReconfigureTarget n tx t]
      else [TerminateTarget n tx; SpawnTarget n t (chan n)]
  end.

(** The same for a unit; one that no link names has no gate, and does not run. *)
Definition unit_spec n (old : option (Z * Agent)) (new : option UnitConfig)
    (gate : option (PendingGate * Agent)) : list Action :=
  match new, gate with
  | Some u, Some (g, _) =>
      match old with
      | None => [SpawnUnit n u g]
      | Some (ty, a) =>
          if unit_type u =? ty then [ReconfigureUnit n a u g]
          else [TerminateUnit n a; SpawnUnit n u g]
      end
  | _, _ => match old with Some (_, a) => [TerminateUnit n a] | None => [] end
  end.

#[local] Arguments target_spec : simpl never.
#[local] Arguments unit_spec : simpl never.

Definition runs_target (chan : rstring -> ChanId) n (old : option (Z * ChanId))
    (new : option TargetConfig) : option (Z * ChanId) :=
  t ← new;
  match old with
  | Some (ty, tx) => if target_type t =? ty then Some (ty, tx) else Some (target_type t, chan n)
  | None => Some (target_type t, chan n)
  end.

Definition runs_unit (new : option UnitConfig) (gate : option (PendingGate * Agent))
    : option (Z * Agent) :=
  u ← new; g ← gate; Some (unit_type u, g.2).

(** A new target, or a unit, is started under the name. *)
Definition starts_target n (old : option (Z * ChanId)) (new : option TargetConfig) : bool :=
  match new with
  | Some t => match old with Some (ty, _) => negb (target_type t =? ty) | None => true end
  | None => false
  end.

Definition starts_unit (old : option (Z * Agent)) (new : option UnitConfig)
    (gate : option (PendingGate * Agent)) : bool :=
  match new, gate with
  | Some u, Some _ => match old with Some (ty, _) => negb (unit_type u =? ty) | None => true end
  | _, _ => false
  end.

(** ** The two loops *)

(** What can be seen under one name: running, newly running, the calls. *)
Definition tobs n s : option (Z * ChanId) * option (Z * ChanId) * list Action :=
  (running_targets (sp_manager s) !! n, new_running_targets s !! n,
   filter (about_target n) (sp_log s)).

Definition uobs n s
    : option (Z * Agent) * option (PendingGate * Agent) * option (Z * Agent) * list Action :=
  (running_units (sp_manager s) !! n, pending_gates (sp_manager s) !! n,
   new_running_units s !! n, filter (about_unit n) (sp_log s)).

Definition target_turn (chan : rstring -> ChanId) (nt : rstring * TargetConfig)
    (o : option (Z * ChanId) * option (Z * ChanId) * list Action) :=
  let '(old, _, log) := o in
  (None : option (Z * ChanId), runs_target chan nt.1 old (Some nt.2),
   log ++ target_spec chan nt.1 old (Some nt.2)).

Definition unit_turn (nu : rstring * UnitConfig)
    (o : option (Z * Agent) * option (PendingGate * Agent) * option (Z * Agent) * list Action) :=
  let '(old, gate, new, log) := o in
  (None : option (Z * Agent), None : option (PendingGate * Agent),
   match gate with Some _ => runs_unit (Some nu.2) gate | None => new end,
   log ++ unit_spec nu.1 old (Some nu.2) gate).

Lemma del_target_id n m : running_targets m !! n = None -> del_target n m = m.
Proof. intros Hn. unfold del_target. rewrite delete_id by done. by destruct m. Qed.

Lemma del_unit_id n m : running_units m !! n = None -> del_unit n m = m.
Proof. intros Hn. unfold del_unit. rewrite delete_id by done. by destruct m. Qed.

Lemma del_pending_id n m : pending_gates m !! n = None -> del_pending n m = m.
Proof. intros Hn. unfold del_pending. rewrite delete_id by done. by destruct m. Qed.

(** The coordinator after a name was started, if it was. *)
Definition tracked (starts : bool) n (co : Coordinator) : option Coordinator :=
  if starts then track n co else Some co.

Lemma target_step_spec chan n t s :
  let old := running_targets (sp_manager s) !! n in
  match tracked (starts_target n old (Some t)) n (sp_coordinator s) with
  | Some co =>
      spawn_target_step (chan n) n t s
      = (Some tt, mk_spawn (del_target n (sp_manager s)) (new_running_units s)
                    (partial_alter (fun _ => runs_target chan n old (Some t)) n
                       (new_running_targets s))
                    co (sp_log s ++ target_spec chan n old (Some t)))
  | None => (spawn_target_step (chan n) n t s).1 = None
  end.
Proof.
  destruct s as [m nu nt co log]. unfold tracked, starts_target, spawn_target_step, sp_track,
    runs_target, target_spec. run_unfold. cbn.
  destruct (running_targets m !! n) as [[ty tx]|] eqn:Hr; cbn.
  - destruct (Z.eqb_spec (target_type t) ty) as [Ht|Ht]; cbn; [done|].
    destruct (track n co); cbn; [|done]. unfold sp_call, sp_add_target; cbn.
    by rewrite <- app_assoc.
  - destruct (track n co); cbn; [|done]. by rewrite del_target_id.
Qed.

Lemma unit_step_spec n u s :
  let old := running_units (sp_manager s) !! n in
  let gate := pending_gates (sp_manager s) !! n in
  match tracked (starts_unit old (Some u) gate) n (sp_coordinator s) with
  | Some co =>
      spawn_unit_step n u s
      = (Some tt, mk_spawn (del_pending n (del_unit n (sp_manager s)))
                    (match gate with
                     | Some _ => partial_alter (fun _ => runs_unit (Some u) gate) n
                                   (new_running_units s)
                     | None => new_running_units s end)
                    (new_running_targets s)
                    co (sp_log s ++ unit_spec n old (Some u) gate))
  | None => (spawn_unit_step n u s).1 = None
  end.
Proof.
  destruct s as [m nu nt co log]. unfold tracked, starts_unit, spawn_unit_step, sp_track,
    runs_unit, unit_spec. run_unfold. cbn.
  destruct (pending_gates m !! n) as [[g a]|] eqn:Hp; cbn;
    destruct (running_units m !! n) as [[ty ag]|] eqn:Hr; cbn.
  - destruct (Z.eqb_spec (unit_type u) ty) as [Ht|Ht]; cbn; [done|].
    destruct (track n co); cbn; [|done]. unfold sp_call, sp_add_unit; cbn.
    by rewrite <- app_assoc.
  - destruct (track n co); cbn; [|done]. by rewrite del_unit_id.
  - by rewrite del_pending_id.
  - rewrite del_unit_id, del_pending_id by done. by rewrite app_nil_r.
Qed.

(** A step that succeeds, in equations. *)
Lemma target_step_inv chan n t s s' :
  spawn_target_step (chan n) n t s = (Some tt, s') ->
  let old := running_targets (sp_manager s) !! n in
  exists co, tracked (starts_target n old (Some t)) n (sp_coordinator s) = Some co
    /\ s' = mk_spawn (del_target n (sp_manager s)) (new_running_units s)
              (partial_alter (fun _ => runs_target chan n old (Some t)) n
                 (new_running_targets s))
              co (sp_log s ++ target_spec chan n old (Some t)).
Proof.
  intros Hs old. pose proof (target_step_spec chan n t s) as H. cbn zeta in H. fold old in H.
  destruct (tracked _ _ _) as [co|]; rewrite Hs in H; [|done].
  injection H as ->. by exists co.
Qed.

Lemma unit_step_inv n u s s' :
  spawn_unit_step n u s = (Some tt, s') ->
  let old := running_units (sp_manager s) !! n in
  let gate := pending_gates (sp_manager s) !! n in
  exists co, tracked (starts_unit old (Some u) gate) n (sp_coordinator s) = Some co
    /\ s' = mk_spawn (del_pending n (del_unit n (sp_manager s)))
              (match gate with
               | Some _ => partial_alter (fun _ => runs_unit (Some u) gate) n
                             (new_running_units s)
               | None => new_running_units s end)
              (new_running_targets s)
              co (sp_log s ++ unit_spec n old (Some u) gate).
Proof.
  intros Hs old gate. pose proof (unit_step_spec n u s) as H. cbn zeta in H.
  fold old in H. fold gate in H.
  destruct (tracked _ _ _) as [co|]; rewrite Hs in H; [|done].
  injection H as ->. by exists co.
Qed.

(** The calls for one name are about that name. *)
Lemma filter_target_spec chan n k old new :
  filter (about_target n) (target_spec chan k old new)
  = if decide (n = k) then target_spec chan k old new else [].
Proof.
  unfold target_spec. destruct old as [[ty tx]|], new as [t|]; cbn [filter];
    repeat case_bool; rewrite ?filter_cons; cbn [about_target];
    repeat case_decide; subst; done.
Qed.

Lemma filter_unit_spec n k old new gate :
  filter (about_unit n) (unit_spec k old new gate)
  = if decide (n = k) then unit_spec k old new gate else [].
Proof.
  unfold unit_spec. destruct old as [[ty tx]|], new as [t|], gate as [[g a]|];
    repeat case_bool; rewrite ?filter_cons; cbn [about_unit];
    repeat case_decide; subst; done.
Qed.

Lemma filter_unit_of_target chan n k old new :
  filter (about_unit n) (target_spec chan k old new) = [].
Proof. unfold target_spec. destruct old as [[ty tx]|], new as [t|]; by repeat case_bool. Qed.

Lemma filter_target_of_unit n k old new gate :
  filter (about_target n) (unit_spec k old new gate) = [].
Proof.
  unfold unit_spec. destruct old as [[ty tx]|], new as [t|], gate as [[g a]|];
    by repeat case_bool.
Qed.

Lemma target_step_local chan :
  local_body tobs fst (fun nt => spawn_target_step (chan nt.1) nt.1 nt.2) (target_turn chan).
Proof.
  intros [k t] s s' (co & _ & ->)%target_step_inv n. unfold tobs, target_turn; cbn.
  rewrite filter_app, filter_target_spec. case_decide as Hk; subst.
  - by rewrite lookup_delete_eq, lookup_partial_alter_eq.
  - rewrite lookup_delete_ne, lookup_partial_alter_ne by done. by rewrite app_nil_r.
Qed.

Lemma target_step_units chan nt s s' n :
  spawn_target_step (chan nt.1) nt.1 nt.2 s = (Some tt, s') -> uobs n s' = uobs n s.
Proof.
  intros (co & _ & ->)%target_step_inv. unfold uobs; cbn.
  by rewrite filter_app, filter_unit_of_target, app_nil_r.
Qed.

Lemma unit_step_local : local_body uobs fst (fun nu => spawn_unit_step nu.1 nu.2) unit_turn.
Proof.
  intros [k u] s s' (co & _ & ->)%unit_step_inv n. unfold uobs, unit_turn; cbn.
  rewrite filter_app, filter_unit_spec. case_decide as Hk; subst.
  - rewrite !lookup_delete_eq. f_equal. f_equal.
    destruct (pending_gates (sp_manager s) !! k) as [[]|]; [|done].
    by rewrite lookup_partial_alter_eq.
  - rewrite !lookup_delete_ne by done. rewrite app_nil_r. f_equal. f_equal.
    destruct (pending_gates (sp_manager s) !! k) as [[]|]; [|done].
    by rewrite lookup_partial_alter_ne.
Qed.

Lemma unit_step_targets nu s s' n :
  spawn_unit_step nu.1 nu.2 s = (Some tt, s') -> tobs n s' = tobs n s.
Proof.
  intros (co & _ & ->)%unit_step_inv. unfold tobs; cbn.
  by rewrite filter_app, filter_target_of_unit, app_nil_r.
Qed.

(** The last two loops: calls are appended. *)
Lemma run_for_calls {A} (f : A -> Action) l s :
  run_for l (fun a => run_modify (sp_call (f a))) s
  = (Some tt, mk_spawn (sp_manager s) (new_running_units s) (new_running_targets s)
                (sp_coordinator s) (sp_log s ++ (f <$> l))).
Proof.
  revert s. induction l as [|a l IH]; intros s; cbn [run_for fmap list_fmap].
  - rewrite app_nil_r. by destruct s.
  - run_unfold. rewrite IH. cbn. by rewrite <- app_assoc.
Qed.

(** The loops of [spawn_internal] in sequence. *)
Lemma spawn_inv chan c m log co m' :
  spawn chan c m = Some (log, co, m') ->
  exists s1 s2,
    run_for (hm_iter (targets c)) (fun nt => spawn_target_step (chan nt.1) nt.1 nt.2)
      (mk_spawn m ∅ ∅ (coordinator_new (size (targets c) + size (units c))) [])
    = (Some tt, s1)
    /\ run_for (hm_iter (units c)) (fun nu => spawn_unit_step nu.1 nu.2) s1 = (Some tt, s2)
    /\ co = sp_coordinator s2
    /\ log = sp_log s2
             ++ ((fun na => TerminateUnit na.1 na.2.2) <$> hm_iter (running_units (sp_manager s2)))
             ++ ((fun nt => TerminateTarget nt.1 nt.2.2) <$> hm_iter (running_targets (sp_manager s2)))
    /\ m' = mk_manager (new_running_units s2) (new_running_targets s2)
              (pending_gates (sp_manager s2)) (GATES (sp_manager s2)).
Proof.
  unfold spawn, spawn_internal. unfold mbind at 1, run_bind at 1.
  destruct (run_for (hm_iter (targets c)) _ _) as [[[]|] s1] eqn:H1; [|done].
  unfold mbind at 1, run_bind at 1.
  destruct (run_for (hm_iter (units c)) _ _) as [[[]|] s2] eqn:H2; [|done].
  unfold mbind, run_bind, run_get. cbv beta iota zeta. rewrite !run_for_calls. cbn.
  intros [= <- <- <-]. exists s1, s2. split_and!; try done. by rewrite <- app_assoc.
Qed.

(** [spawn] does not touch the loader's gates. *)
Lemma spawn_gates chan c m log co m' :
  spawn chan c m = Some (log, co, m') -> GATES m' = GATES m.
Proof.
  intros (s1 & s2 & H1 & H2 & _ & _ & ->)%spawn_inv. cbn.
  transitivity (GATES (sp_manager s1)).
  - refine (run_for_keeps (fun s => GATES (sp_manager s)) _ _ _ _ _ H2).
    intros [k u] s s' Hs. apply unit_step_inv in Hs as (co' & _ & ->). done.
  - refine (run_for_keeps (fun s => GATES (sp_manager s)) _ _ _ _ _ H1).
    intros [k t] s s' Hs. apply target_step_inv in Hs as (co' & _ & ->). done.
Qed.

(** Both loops, seen under one name. *)
Lemma spawn_targets chan c m s1 s2 n :
  let s0 := mk_spawn m ∅ ∅ (coordinator_new (size (targets c) + size (units c))) [] in
  run_for (hm_iter (targets c)) (fun nt => spawn_target_step (chan nt.1) nt.1 nt.2) s0
  = (Some tt, s1) ->
  run_for (hm_iter (units c)) (fun nu => spawn_unit_step nu.1 nu.2) s1 = (Some tt, s2) ->
  tobs n s2 = match targets c !! n with
              | Some t => target_turn chan (n, t) (running_targets m !! n, None, [])
              | None => (running_targets m !! n, None, [])
              end.
Proof.
  intros s0 H1 H2.
  rewrite (run_for_keeps (tobs n) _ _ _ _ (fun a s s' => unit_step_targets a s s' n) H2).
  destruct (run_for_local _ _ _ _ _ _ _ (target_step_local chan) (hm_iter_NoDup _) H1 n)
    as [Hin Hout].
  destruct (targets c !! n) as [t|] eqn:Ht.
  - apply elem_of_hm_iter in Ht. by rewrite (Hin (n, t) Ht eq_refl).
  - apply hm_iter_notin in Ht. by rewrite (Hout Ht).
Qed.

Lemma spawn_units chan c m s1 s2 n :
  let s0 := mk_spawn m ∅ ∅ (coordinator_new (size (targets c) + size (units c))) [] in
  run_for (hm_iter (targets c)) (fun nt => spawn_target_step (chan nt.1) nt.1 nt.2) s0
  = (Some tt, s1) ->
  run_for (hm_iter (units c)) (fun nu => spawn_unit_step nu.1 nu.2) s1 = (Some tt, s2) ->
  let o := (running_units m !! n, pending_gates m !! n, None, []) in
  uobs n s2 = match units c !! n with Some u => unit_turn (n, u) o | None => o end.
Proof.
  intros s0 H1 H2 o.
  assert (Hu1 : uobs n s1 = o)
    by (by rewrite (run_for_keeps (uobs n) _ _ _ _
                      (fun a s s' => target_step_units chan a s s' n) H1)).
  destruct (run_for_local _ _ _ _ _ _ _ unit_step_local (hm_iter_NoDup _) H2 n) as [Hin Hout].
  destruct (units c !! n) as [u|] eqn:Hu.
  - apply elem_of_hm_iter in Hu. by rewrite (Hin (n, u) Hu eq_refl), Hu1.
  - apply hm_iter_notin in Hu. by rewrite (Hout Hu), Hu1.
Qed.

(** What a [spawn] that returns did, name by name. *)
Lemma spawn_per_name chan c m log co m' :
  spawn chan c m = Some (log, co, m') ->
  forall n,
    filter (about_target n) log = target_spec chan n (running_targets m !! n) (targets c !! n)
    /\ filter (about_unit n) log
       = unit_spec n (running_units m !! n) (units c !! n) (pending_gates m !! n)
    /\ running_targets m' !! n
       = runs_target chan n (running_targets m !! n) (targets c !! n)
    /\ running_units m' !! n = runs_unit (units c !! n) (pending_gates m !! n)
    /\ pending_gates m' !! n
       = match units c !! n with Some _ => None | None => pending_gates m !! n end.
Proof.
  intros (s1 & s2 & H1 & H2 & -> & -> & ->)%spawn_inv n.
  pose proof (spawn_targets chan c m s1 s2 n H1 H2) as Ht.
  pose proof (spawn_units chan c m s1 s2 n H1 H2) as Hu. cbn zeta in Hu.
  rewrite !filter_app.
  rewrite (filter_iter (fun na => TerminateUnit na.1 na.2.2) (about_unit n) _ n) by done.
  rewrite (filter_iter (fun nt => TerminateTarget nt.1 nt.2.2) (about_target n) _ n) by done.
  rewrite (filter_none (fun na => TerminateUnit na.1 na.2.2) (about_target n)) by by intros ? [].
  rewrite (filter_none (fun nt => TerminateTarget nt.1 nt.2.2) (about_unit n)) by by intros ? [].
  unfold tobs, target_turn in Ht. unfold uobs, unit_turn in Hu.
  cbn [running_targets running_units pending_gates]. rewrite app_nil_l, app_nil_r.
  destruct (targets c !! n) as [t|]; injection Ht as -> -> ->;
    destruct (units c !! n) as [u|]; injection Hu as -> -> -> ->; cbn [fst snd];
    rewrite ?app_nil_r, ?app_nil_l.
  all: split_and!; try done.
  all: unfold target_spec, unit_spec, runs_unit;
    destruct (running_units m !! n) as [[]|], (pending_gates m !! n) as [[]|]; try done.
  all: by destruct (running_targets m !! n) as [[]|].
Qed.

(** ** When [spawn] panics *)

Lemma track_fresh n co :
  n ∉ co_pending co -> (size (co_pending co) < max_components co)%nat ->
  track n co = Some (mk_coordinator (max_components co) ({[n]} ∪ co_pending co)).
Proof.
  intros Hn Hs. unfold track. rewrite bool_decide_eq_false_2 by done.
  rewrite bool_decide_eq_false_2; [done|]. rewrite size_union, size_singleton by set_solver. lia.
Qed.

Lemma track_twice n co : n ∈ co_pending co -> track n co = None.
Proof. intros Hn. unfold track. by rewrite bool_decide_eq_true_2. Qed.

(** What a step does to the coordinator, when the name is free. *)
Lemma tracked_fresh (starts : bool) n co :
  (starts = true -> n ∉ co_pending co) -> (size (co_pending co) < max_components co)%nat ->
  exists co', tracked starts n co = Some co'
    /\ max_components co' = max_components co
    /\ (size (co_pending co') <= S (size (co_pending co)))%nat
    /\ (forall k, k ∈ co_pending co' <-> k ∈ co_pending co \/ k = n /\ starts = true).
Proof.
  intros Hn Hs. destruct starts; cbn [tracked].
  - rewrite track_fresh by auto. eexists; split_and!; [done|done| |set_solver]. cbn.
    rewrite size_union, size_singleton by set_solver. lia.
  - exists co. split_and!; [done|done|lia|]. naive_solver.
Qed.

Abbreviation pending_of s := (co_pending (sp_coordinator s)).
Abbreviation max_of s := (max_components (sp_coordinator s)).

Lemma target_loop_runs chan l s :
  NoDup l.*1 -> (forall n, n ∈ l.*1 -> n ∉ pending_of s) ->
  (size (pending_of s) + length l <= max_of s)%nat ->
  exists s', run_for l (fun nt => spawn_target_step (chan nt.1) nt.1 nt.2) s = (Some tt, s')
    /\ max_of s' = max_of s
    /\ (size (pending_of s') <= size (pending_of s) + length l)%nat
    /\ (forall n, n ∈ pending_of s' <-> n ∈ pending_of s
          \/ exists t, (n, t) ∈ l
             /\ starts_target n (running_targets (sp_manager s) !! n) (Some t) = true).
Proof.
  revert s. induction l as [|[k t] l IH]; intros s Hnd Hfree Hmax.
  { exists s. split_and!; [done|done|lia|]. set_solver. }
  cbn [fmap list_fmap fst] in Hnd, Hfree. apply NoDup_cons in Hnd as [Hni Hnd].
  cbn [length] in Hmax. cbn [run_for fst snd].
  destruct (tracked_fresh (starts_target k (running_targets (sp_manager s) !! k) (Some t)) k
              (sp_coordinator s)) as (co & Hco & Hm & Hsz & Hk);
    [intros _; apply Hfree; set_solver|lia|].
  pose proof (target_step_spec chan k t s) as Hstep. cbn zeta in Hstep. rewrite Hco in Hstep.
  rewrite (run_bind_Some _ _ _ _ _ Hstep). set (s1 := mk_spawn _ _ _ _ _).
  destruct (IH s1) as (s' & Hr & Hm' & Hsz' & Hn'); [done| |cbn; lia|].
  { cbn. intros n Hn Hp%Hk. destruct Hp as [Hp|[-> _]]; [|done].
    by apply (Hfree n); [set_solver|]. }
  exists s'. cbn in Hm', Hsz', Hn'. split_and!; [done|lia|cbn [length]; lia|].
  intros n. rewrite Hn', Hk. split.
  - intros [[?|[-> ?]]|(t' & Hin & Hst)]; [by left|right; exists t; set_solver|right].
    exists t'. split; [set_solver|]. rewrite lookup_delete_ne in Hst; [done|].
    intros <-. apply Hni. by eapply list_elem_of_fmap_2' in Hin.
  - intros [?|(t' & [[= -> ->]|Hin]%elem_of_cons & Hst)]; [by left; left|by left; right|right].
    exists t'. split; [done|]. rewrite lookup_delete_ne; [done|].
    intros <-. apply Hni. by eapply list_elem_of_fmap_2' in Hin.
Qed.

Definition unit_starts s n u : bool :=
  starts_unit (running_units (sp_manager s) !! n) (Some u) (pending_gates (sp_manager s) !! n).

Lemma unit_loop_panics l s :
  NoDup l.*1 -> (size (pending_of s) + length l <= max_of s)%nat ->
  (run_for l (fun nu => spawn_unit_step nu.1 nu.2) s).1 = None
  <-> exists n u, (n, u) ∈ l /\ unit_starts s n u = true /\ n ∈ pending_of s.
Proof.
  revert s. induction l as [|[k u] l IH]; intros s Hnd Hmax.
  { split; [done|]. intros (n & u & Hin & _). by apply elem_of_nil in Hin. }
  cbn [fmap list_fmap fst] in Hnd. apply NoDup_cons in Hnd as [Hni Hnd].
  cbn [length] in Hmax. cbn [run_for fst snd].
  pose proof (unit_step_spec k u s) as Hstep. cbn zeta in Hstep. fold (unit_starts s k u) in Hstep.
  destruct (decide (unit_starts s k u = true /\ k ∈ pending_of s)) as [[Hst Hin]|Hok].
  { rewrite Hst in Hstep. cbn [tracked] in Hstep. rewrite track_twice in Hstep by done.
    split; [intros _; exists k, u; set_solver|intros _].
    unfold mbind, run_bind. by destruct (spawn_unit_step k u s) as [[]]. }
  destruct (tracked_fresh (unit_starts s k u) k (sp_coordinator s)) as (co & Hco & Hm & Hsz & Hk);
    [naive_solver|lia|].
  rewrite Hco in Hstep. rewrite (run_bind_Some _ _ _ _ _ Hstep). set (s1 := mk_spawn _ _ _ _ _).
  rewrite (IH s1) by (done || (cbn; lia)).
  assert (Hsame : forall n v, (n, v) ∈ l ->
            n <> k /\ unit_starts s1 n v = unit_starts s n v
            /\ (n ∈ pending_of s1 <-> n ∈ pending_of s)).
  { intros n v Hin. assert (n <> k) by (intros ->; apply Hni; by eapply list_elem_of_fmap_2' in Hin).
    split_and!; [done| |cbn; rewrite Hk; naive_solver].
    unfold unit_starts; cbn. by rewrite !lookup_delete_ne. }
  split.
  - intros (n & v & Hin & Hst & Hp). destruct (Hsame n v Hin) as (? & E1 & E2).
    exists n, v. rewrite <- E1, <- E2. set_solver.
  - intros (n & v & [[= -> ->]|Hin]%elem_of_cons & Hst & Hp); [by destruct Hok|].
    destruct (Hsame n v Hin) as (? & E1 & E2). exists n, v. by rewrite E1, E2.
Qed.

Lemma length_hm_iter {V} `{HI : !HashIter rstring V} (M : gmap rstring V) :
  length (hm_iter M) = size M.
Proof. rewrite hm_iter_perm. apply length_map_to_list. Qed.

Lemma spawn_none chan c m s1 :
  run_for (hm_iter (targets c)) (fun nt => spawn_target_step (chan nt.1) nt.1 nt.2)
    (mk_spawn m ∅ ∅ (coordinator_new (size (targets c) + size (units c))) [])
  = (Some tt, s1) ->
  spawn chan c m = None
  <-> (run_for (hm_iter (units c)) (fun nu => spawn_unit_step nu.1 nu.2) s1).1 = None.
Proof.
  intros H1. unfold spawn, spawn_internal. rewrite (run_bind_Some _ _ _ _ _ H1).
  unfold mbind at 1, run_bind at 1.
  destruct (run_for (hm_iter (units c)) _ _) as [[[]|] s2] eqn:H2; [|done].
  unfold mbind, run_bind, run_get. cbv beta iota zeta. by rewrite !run_for_calls.
Qed.

Lemma spawn_none_iff chan c m :
  spawn chan c m = None
  <-> exists n,
        starts_target n (running_targets m !! n) (targets c !! n) = true
        /\ starts_unit (running_units m !! n) (units c !! n) (pending_gates m !! n) = true.
Proof.
  set (s0 := mk_spawn m ∅ ∅ (coordinator_new (size (targets c) + size (units c))) []).
  destruct (target_loop_runs chan (hm_iter (targets c)) s0) as (s1 & H1 & Hm & Hsz & Hp);
    [apply hm_iter_NoDup|set_solver|cbn; rewrite size_empty, length_hm_iter; lia|].
  rewrite (spawn_none chan c m s1 H1).
  rewrite unit_loop_panics; [|apply hm_iter_NoDup|].
  2: { rewrite length_hm_iter. rewrite length_hm_iter in Hsz. rewrite Hm. revert Hsz. cbn.
       rewrite size_empty. lia. }
  assert (Hu : forall n u, unit_starts s1 n u
            = starts_unit (running_units m !! n) (Some u) (pending_gates m !! n)).
  { intros n u. pose proof (run_for_keeps (uobs n) _ _ _ _
      (fun a s s' => target_step_units chan a s s' n) H1) as H. unfold uobs in H.
    injection H as E1 E2 _ _. unfold unit_starts. by rewrite E1, E2. }
  split.
  - intros (n & u & Hin & Hst & Hn). exists n. rewrite Hu in Hst.
    apply Hp in Hn as [Hn|(t & Ht & Hst')]; [set_solver|].
    apply elem_of_hm_iter in Hin, Ht. by rewrite Hin, Ht.
  - intros (n & Ht & Hst). destruct (units c !! n) as [u|] eqn:Hin; [|done].
    destruct (targets c !! n) as [t|] eqn:Hti; [|done].
    exists n, u. split_and!; [by apply elem_of_hm_iter|by rewrite Hu|].
    apply Hp. right. exists t. by rewrite elem_of_hm_iter.
Qed.

(** C7: [spawn] panics exactly when one name is started both as a target and as a unit;
    otherwise, whatever the order of the hash maps, it does to each name what the
    tables [target_spec] and [unit_spec] say for what was running under the name,
    what is configured, and whether a link named it: the calls about the name, in
    order, are those of the table, what runs afterwards under the name is
    [runs_target] and [runs_unit], and its gate is taken. (The doc comment of [spawn]
    says that it panics for a configuration that this manager has not prepared. Nothing
    checks that: a unit of such a configuration has no pending gate and is, as the tables
    say, not started, without a panic; and the name clash, of which the comment does not
    speak, does panic.) *)
Theorem spawn_exact chan c m :
  match spawn chan c m with
  | None =>
      exists n, starts_target n (running_targets m !! n) (targets c !! n) = true
        /\ starts_unit (running_units m !! n) (units c !! n) (pending_gates m !! n) = true
  | Some (log, _, m') =>
      forall n,
        (starts_target n (running_targets m !! n) (targets c !! n)
           && starts_unit (running_units m !! n) (units c !! n) (pending_gates m !! n) = false)
        /\ filter (about_target n) log
           = target_spec chan n (running_targets m !! n) (targets c !! n)
        /\ filter (about_unit n) log
           = unit_spec n (running_units m !! n) (units c !! n) (pending_gates m !! n)
        /\ running_targets m' !! n
           = runs_target chan n (running_targets m !! n) (targets c !! n)
        /\ running_units m' !! n = runs_unit (units c !! n) (pending_gates m !! n)
        /\ pending_gates m' !! n
           = match units c !! n with Some _ => None | None => pending_gates m !! n end
  end.
Proof.
  destruct (spawn chan c m) as [[[log co] m']|] eqn:Hs; [|by apply spawn_none_iff in Hs].
  intros n. split; [|by eapply spawn_per_name].
  apply not_true_iff_false. intros [Ht Hu]%andb_prop.
  assert (Hn : spawn chan c m = None) by (apply spawn_none_iff; by exists n). congruence.
Qed.

End Manager.
