(* ===== verification/ManagerLoad.v ===== *)
(** * Loading, reloading and starting up

    From the links of a configuration to the units that run; what a failed load
    leaves behind; and the barrier at which all started components meet. *)

From S2P Require Import Prelude Net Payload Register Frim Gate Link Manager ManagerProps.
From Stdlib Require Import ZArith Lia.
From stdpp Require Import base numbers list gmap fin_maps strings.

Local Open Scope Z_scope.

Section Load.
Context {ST : Settings}.
Context `{HL : !HashIter rstring LoadUnit} `{HU : !HashIter rstring UnitConfig}
  `{HT : !HashIter rstring TargetConfig}
  `{HRU : !HashIter rstring (Z * Agent)} `{HRT : !HashIter rstring (Z * ChanId)}.
Implicit Types (m : Manager) (c : Config) (n : rstring) (g : gmap rstring LoadUnit).

(** ** Links make gates *)

Definition link_name (r : LinkRef) : rstring := (get_queue_size_for_link (lr_text r)).1.

(** Every entry has its gate, and the agent is one for it. *)
Definition gates_ok g : Prop :=
  forall n lu, g !! n = Some lu ->
  exists pg, lu_gate lu = Some pg /\ lu_agent lu = mk_agent (pg_id pg) (pg_commands pg).

Lemma load_link_spec r g :
  gates_ok g ->
  let '(l, g') := load_link (lr_text r) (lr_mark r) (lr_id r) (lr_gate r) (lr_chan r) g in
  gates_ok g'
  /\ (forall n, is_Some (g' !! n) <-> is_Some (g !! n) \/ n = link_name r)
  /\ (exists lu, g' !! link_name r = Some lu
        /\ link_gate_id l = ag_id (lu_agent lu) /\ link_commands l = ag_commands (lu_agent lu)).
Proof.
  intros Hok. unfold load_link, link_name.
  destruct (get_queue_size_for_link (lr_text r)) as [name qs]; cbn.
  assert (Hg : exists pg, lu_gate (default (load_unit_new qs (lr_gate r) (lr_chan r)) (g !! name))
      = Some pg
      /\ lu_agent (default (load_unit_new qs (lr_gate r) (lr_chan r)) (g !! name))
         = mk_agent (pg_id pg) (pg_commands pg)).
  { destruct (g !! name) as [lu|] eqn:Hl; cbn; [by eapply Hok|]. by eexists. }
  destruct Hg as (pg & Hgate & Hag). split_and!.
  - intros n lu. destruct (decide (name = n)) as [<-|Hne].
    + rewrite lookup_insert_eq. intros [= <-]. cbn. by exists pg.
    + rewrite lookup_insert_ne by done. apply Hok.
  - intros n. destruct (decide (name = n)) as [<-|Hne].
    + rewrite lookup_insert_eq. split; [by right|by eexists].
    + rewrite lookup_insert_ne by done. naive_solver.
  - rewrite lookup_insert_eq. by eexists.
Qed.

Lemma load_links_spec refs g :
  gates_ok g ->
  gates_ok (load_links refs g)
  /\ forall n, is_Some (load_links refs g !! n)
       <-> is_Some (g !! n) \/ exists r, r ∈ refs /\ link_name r = n.
Proof.
  unfold load_links. revert g. induction refs as [|r refs IH]; intros g Hok; cbn [foldl].
  { split; [done|]. intros n. split; [by left|]. intros [?|(r & Hr & _)]; [done|].
    by apply elem_of_nil in Hr. }
  pose proof (load_link_spec r g Hok) as Hs.
  destruct (load_link _ _ _ _ _ g) as [l g']. destruct Hs as (Hok' & Hdom & _).
  destruct (IH g' Hok') as [Hok2 Hdom2]. split; [done|]. intros n.
  cbn [snd]. rewrite Hdom2, Hdom. set_solver.
Qed.

(** ** [prepare] *)

Lemma prepare_loop_spec c l m :
  NoDup l.*1 ->
  let '(ok, m') := prepare_loop c l m in
  (ok = true <-> forall n lu, (n, lu) ∈ l -> is_Some (lu_gate lu) -> is_Some (units c !! n))
  /\ running_units m' = running_units m /\ running_targets m' = running_targets m
  /\ GATES m' = GATES m
  /\ (ok = true -> forall n, pending_gates m' !! n
        = match (list_to_map l : gmap rstring LoadUnit) !! n with
          | Some lu => match lu_gate lu with
                       | Some pg => Some (pg, lu_agent lu)
                       | None => pending_gates m !! n end
          | None => pending_gates m !! n end).
Proof.
  revert m. induction l as [|[k lu] l IH]; intros m Hnd; cbn [prepare_loop].
  { split_and!; try done. split; [|done]. intros _ n lu Hin. by apply elem_of_nil in Hin. }
  cbn in Hnd. apply NoDup_cons in Hnd as [Hni Hnd]. cbn [list_to_map foldr fst snd].
  change (foldr (fun p => <[p.1 := p.2]>) ∅ l) with (list_to_map l : gmap rstring LoadUnit).
  pose proof (not_elem_of_list_to_map_1 (M := gmap rstring) l k Hni) as Hk.
  destruct (lu_gate lu) as [pg|] eqn:Hg.
  - destruct (decide (is_Some (units c !! k))) as [Hu|Hu].
    + rewrite bool_decide_eq_true_2 by done.
      set (m1 := set_pending _ _). specialize (IH m1 Hnd).
      destruct (prepare_loop c l m1) as [ok m']. destruct IH as (Hok & ? & ? & ? & Hp).
      split_and!; try done.
      * rewrite Hok. split; [|set_solver].
        intros Hall n lu' [[= -> ->]|Hin]%elem_of_cons; [done|by apply Hall].
      * intros Hy n. rewrite (Hp Hy n). destruct (decide (k = n)) as [<-|Hne]; cbn.
        -- rewrite Hk, !lookup_insert_eq. by rewrite ?Hg.
        -- by rewrite !lookup_insert_ne.
    + rewrite bool_decide_eq_false_2 by done. split_and!; try done. split; [done|].
      intros Hall. exfalso. apply Hu, (Hall k lu); [set_solver|by rewrite Hg].
  - specialize (IH m Hnd). destruct (prepare_loop c l m) as [ok m'].
    destruct IH as (Hok & ? & ? & ? & Hp). split_and!; try done.
    + rewrite Hok. split; [|set_solver].
      intros Hall n lu' [[= -> ->]|Hin]%elem_of_cons Hs; [|by eapply Hall].
      rewrite Hg in Hs. by destruct Hs.
    + intros Hy n. rewrite (Hp Hy n). destruct (decide (k = n)) as [<-|Hne].
      * by rewrite Hk, lookup_insert_eq, ?Hg.
      * by rewrite lookup_insert_ne.
Qed.

Lemma auto_enable_names c n :
  is_Some (units (auto_enable_peer_stats_synthesis c) !! n) <-> is_Some (units c !! n).
Proof. cbn. rewrite lookup_fmap. apply fmap_is_Some. Qed.

(** A configuration that parses, on top of the gates [GATES m]. *)
Lemma from_config_file_spec refs c m :
  gates_ok (GATES m) ->
  let named n := is_Some (GATES m !! n) \/ exists r, r ∈ refs /\ link_name r = n in
  let '(r, m1) := from_config_file refs (Some c) true true m in
  (r = Some (auto_enable_peer_stats_synthesis c) \/ r = None)
  /\ (r = None <-> exists n, named n /\ units c !! n = None)
  /\ GATES m1 = ∅ /\ running_units m1 = running_units m /\ running_targets m1 = running_targets m
  /\ (r <> None -> forall n, is_Some (pending_gates m1 !! n)
        <-> is_Some (pending_gates m !! n) \/ named n).
Proof.
  intros Hok named. unfold from_config_file, load. cbn [negb]. unfold prepare. cbn [negb].
  set (g := load_links refs (GATES m)). destruct (load_links_spec refs (GATES m) Hok) as [Hg Hd].
  fold g in Hg, Hd. change (GATES (set_gates g m)) with g.
  set (c' := auto_enable_peer_stats_synthesis c). set (m0 := set_gates ∅ (set_gates g m)).
  pose proof (prepare_loop_spec c' (hm_iter g) m0 (hm_iter_NoDup g)) as Hp.
  destruct (prepare_loop c' (hm_iter g) m0) as [ok m1].
  destruct Hp as (Ho & Hru & Hrt & HG & Hpend).
  assert (Hall : ok = true <-> forall n, named n -> is_Some (units c !! n)).
  { rewrite Ho. split.
    - intros H n Hn. apply Hd in Hn as [lu Hlu]. destruct (Hg n lu Hlu) as (pg & Hpg & _).
      apply auto_enable_names, (H n lu); [by apply elem_of_hm_iter|by rewrite Hpg].
    - intros H n lu Hin _. apply auto_enable_names, H, Hd. apply elem_of_hm_iter in Hin. by eexists. }
  split_and!; [by destruct ok; [left|right]| |by rewrite HG|by rewrite Hru|by rewrite Hrt|].
  - destruct ok; split; try done.
    + intros (n & Hn & Hno). destruct Hall as [Hall _]. destruct (Hall eq_refl n Hn). congruence.
    + intros _. destruct (decide (map_Forall (fun n _ => is_Some (units c !! n)) g)) as [HF|HF].
      * exfalso. assert (false = true); [|done]. apply Hall. intros n [lu Hlu]%Hd. by eapply HF.
      * apply map_not_Forall in HF as (n & lu & Hlu & Hno); [|apply _]. exists n. split.
        -- apply Hd. by eexists.
        -- by apply eq_None_not_Some.
  - destruct ok; [|done]. intros _ n. rewrite (Hpend eq_refl n).
    change (pending_gates m0) with (pending_gates m). unfold named. rewrite <- Hd, list_to_map_hm_iter.
    destruct (g !! n) as [lu|] eqn:Hlu.
    + destruct (Hg n lu Hlu) as (pg & -> & _). naive_solver.
    + naive_solver.
Qed.

(** ** A configuration, from its links to what runs *)

(** With no gates left over from an earlier load: a configuration that parses is
    refused exactly when a link names a unit it does not have; whatever the answer
    no gate stays with the loader; and a configuration that is accepted, in which no
    unit and target share a name, is spawned without a panic, after which exactly the
    units that some link names and exactly the configured targets run, each with its
    type, and no gate is left over for the next load. *)
Theorem reload_runs_linked_units chan refs c m :
  GATES m = ∅ -> pending_gates m = ∅ ->
  (forall n, is_Some (units c !! n) -> targets c !! n = None) ->
  let '(r, m1) := from_config_file refs (Some c) true true m in
  (r = None <-> exists x, x ∈ refs /\ units c !! link_name x = None)
  /\ GATES m1 = ∅
  /\ (forall c', r = Some c' ->
      exists log co m2, spawn chan c' m1 = Some (log, co, m2)
        /\ GATES m2 = ∅ /\ pending_gates m2 = ∅
        /\ (forall n u, units c !! n = Some u -> (exists x, x ∈ refs /\ link_name x = n) ->
              exists a, running_units m2 !! n = Some (unit_type u, a))
        /\ (forall n, is_Some (running_units m2 !! n) ->
              is_Some (units c !! n) /\ exists x, x ∈ refs /\ link_name x = n)
        /\ (forall n, fst <$> running_targets m2 !! n = target_type <$> targets c !! n)).
Proof.
  intros HG HP Hapart.
  assert (Hok : gates_ok (GATES m)) by (rewrite HG; intros n lu; by rewrite lookup_empty).
  pose proof (from_config_file_spec refs c m Hok) as Hs. cbv beta zeta in Hs.
  destruct (from_config_file refs (Some c) true true m) as [r m1].
  destruct Hs as (Hr & Hnone & HG1 & Hru & Hrt & Hpend).
  assert (Hnamed : forall n, (is_Some (GATES m !! n) \/ exists x, x ∈ refs /\ link_name x = n)
            <-> exists x, x ∈ refs /\ link_name x = n).
  { intros n. rewrite HG, lookup_empty. split; [intros [[? ?]|?]; done|by right]. }
  split_and!; [|done|].
  { rewrite Hnone. setoid_rewrite Hnamed. naive_solver. }
  intros c' ->. destruct Hr as [[= ->]|?]; [|done].
  specialize (Hpend ltac:(done)). setoid_rewrite Hnamed in Hpend.
  setoid_rewrite HP in Hpend. setoid_rewrite lookup_empty in Hpend.
  destruct (spawn chan (auto_enable_peer_stats_synthesis c) m1) as [[[log co] m2]|] eqn:Hsp.
  2: { apply spawn_none_iff in Hsp as (n & Ht & Hu). exfalso. revert Ht Hu. cbn.
       rewrite lookup_fmap. destruct (units c !! n) as [u|] eqn:Hn; [|done]. cbn.
       by rewrite (Hapart n) by by rewrite Hn. }
  exists log, co, m2. split; [done|]. split; [by rewrite (spawn_gates _ _ _ _ _ _ Hsp)|].
  assert (Hper : forall n, _) by exact (spawn_per_name _ _ _ _ _ _ Hsp).
  cbn [targets] in Hper. split_and!.
  - apply map_empty. intros n. destruct (Hper n) as (_ & _ & _ & _ & ->).
    destruct (units (auto_enable_peer_stats_synthesis c) !! n) as [u|] eqn:Hu; [done|].
    apply eq_None_not_Some. intros [[? ?]|(x & Hx & Hxn)]%Hpend; [done|].
    assert (Some (auto_enable_peer_stats_synthesis c) = None) as [=].
    apply Hnone. exists n. split; [right; by exists x|]. apply eq_None_not_Some.
    rewrite <- auto_enable_names, Hu. by intros [].
  - intros n u Hu Hn. destruct (Hper n) as (_ & _ & _ & -> & _).
    destruct (Hpend n) as [_ [[pg a] ->]]; [by right|]. cbn. rewrite lookup_fmap, Hu.
    exists a. cbn. by destruct u as [[]| | | | |].
  - intros n. destruct (Hper n) as (_ & _ & _ & -> & _). unfold runs_unit. intros [v Hv].
    apply bind_Some in Hv as (u & Hu & (g & Hg & _)%bind_Some). split.
    + apply auto_enable_names. by rewrite Hu.
    + destruct (proj1 (Hpend n)) as [[? ?]|?]; [by rewrite Hg|done|done].
  - intros n. destruct (Hper n) as (_ & _ & -> & _). cbn.
    destruct (targets c !! n) as [t|]; [|done]. cbn.
    destruct (running_targets m1 !! n) as [[ty tx]|]; [|done].
    by destruct (Z.eqb_spec (target_type t) ty) as [->|].
Qed.

(** ** What a failed load leaves behind *)

(** A configuration file that does not parse, or whose logging settings are refused,
    or whose Roto script does not compile, changes nothing that runs, but the gates of
    the links that were read stay with the loader: a following configuration that
    parses, with no link to them, is refused when it does not have one of those
    units. *)
Theorem stale_gate_refuses refs1 parsed log_ok roto_ok refs2 c m x :
  GATES m = ∅ ->
  parsed = None \/ log_ok = false \/ roto_ok = false ->
  x ∈ refs1 -> units c !! link_name x = None ->
  let '(r1, m1) := from_config_file refs1 parsed log_ok roto_ok m in
  r1 = None
  /\ running_units m1 = running_units m /\ running_targets m1 = running_targets m
  /\ (from_config_file refs2 (Some c) true true m1).1 = None.
Proof.
  intros HG Hfail Hx Hux.
  assert (Hok : gates_ok (GATES m)) by (rewrite HG; intros n lu; by rewrite lookup_empty).
  destruct (load_links_spec refs1 (GATES m) Hok) as [Hok1 Hd].
  assert (E : from_config_file refs1 parsed log_ok roto_ok m
              = (None, set_gates (load_links refs1 (GATES m)) m)).
  { unfold from_config_file, load, prepare. destruct parsed as [c1|]; [|done].
    destruct log_ok; [|done]. destruct roto_ok; [|done]. naive_solver. }
  rewrite E. split_and!; [done..|].
  pose proof (from_config_file_spec refs2 c (set_gates (load_links refs1 (GATES m)) m) Hok1) as Hs.
  cbn zeta in Hs. destruct (from_config_file refs2 _ _ _ _) as [r m2].
  destruct Hs as (_ & Hnone & _). apply Hnone. exists (link_name x). split; [|done].
  left. apply Hd. right. by exists x.
Qed.

End Load.
