(* ===== verification/Startup.v ===== *)
(** * Starting up together ([src/manager.rs]: [WaitPoint], [Coordinator], the barrier)

    Every component that [spawn] starts gets a [WaitPoint]; a unit calls [ready] and
    then [running] on it, a target only [running].  The coordinator waits twice, each
    time also for the components that were not started.  The tasks are interleaved:
    a state has a place for each component and one for the coordinator, and a [Move]
    is one task going on until it waits again.

    Shown: in every interleaving no component is past a barrier that another one has
    not reached, nothing panics, and every run ends with all components running. *)

From S2P Require Import Prelude Net Payload Register Frim Gate Link Manager ManagerProps.
From Stdlib Require Import ZArith Lia.
From stdpp Require Import base numbers list gmap fin_maps strings.

Local Open Scope nat_scope.

(** ** The barrier

    [tokio::sync::Barrier]: the [b_n]-th of the waits that arrived completes them
    all, and the barrier starts a new generation. *)
Record Barrier : Type := mk_barrier { b_n : nat; arrived : nat; generation : nat }.

Definition barrier_new (n : nat) : Barrier := mk_barrier n 0 0.

(** A wait arrives; what it keeps is the generation that it waits for. *)
Definition barrier_wait (b : Barrier) : nat * Barrier :=
  (generation b,
   if S (arrived b) =? b_n b then mk_barrier (b_n b) 0 (S (generation b))
   else mk_barrier (b_n b) (S (arrived b)) (generation b)).

Definition released (b : Barrier) (g : nat) : bool := g <? generation b.

(** Several waits that one task polls in a row ([join_all]). *)
Fixpoint barrier_waits (k : nat) (b : Barrier) : list nat * Barrier :=
  match k with
  | O => ([], b)
  | S k' =>
      let '(g, b1) := barrier_wait b in
      let '(gs, b2) := barrier_waits k' b1 in
      (g :: gs, b2)
  end.

(** ** The tasks *)

(** Where a component is.  [AtReady true] is the wait for readiness inside
    [running]. *)
Inductive Place : Type :=
| Fresh
| AtReady (in_running : bool) (g : nat)
| IsReady
| AtRunning (g : nat)
| IsRunning.

(** Where the task that called [Coordinator::wait] is; whether the alarm about slow
    components was raised in this wait. *)
Inductive Waiter : Type :=
| NotWaiting
| WaitReady (gs : list nat) (alarmed : bool)
| WaitRunning (gs : list nat) (alarmed : bool)
| Started.

#[export] Instance Place_eq_dec : EqDecision Place.
Proof. solve_decision. Defined.
#[export] Instance Waiter_eq_dec : EqDecision Waiter.
Proof. solve_decision. Defined.

Record Startup : Type := mk_startup {
  su_coordinator : Coordinator;
  su_barrier : Barrier;
  su_places : gmap rstring Place;
  su_waiter : Waiter;
  su_alarms : list (gset rstring)
}.

(** After [spawn]: one [WaitPoint::new] for each tracked name. *)
Definition startup_new (co : Coordinator) : Startup :=
  mk_startup co (barrier_new (max_components co + 1))
    (gset_to_gmap Fresh (co_pending co)) NotWaiting [].

Inductive Move : Type :=
| CallReady (name : rstring)      (* [WaitPoint::ready] *)
| CallRunning (name : rstring)    (* [WaitPoint::running] *)
| Wake (name : rstring)           (* the component's wait completes *)
| StartWait                       (* [Coordinator::wait] *)
| WakeWaiter                      (* all its waits complete *)
| SlowAlarm.                      (* its sleep completes first *)

Inductive Moved : Type :=
| Goes (s : Startup)
| Blocked
| Panics.

Definition su_put (n : rstring) (p : Place) (s : Startup) : Startup :=
  mk_startup (su_coordinator s) (su_barrier s) (<[n := p]> (su_places s)) (su_waiter s)
    (su_alarms s).

Definition su_wait (w : Waiter) (s : Startup) : Startup :=
  mk_startup (su_coordinator s) (su_barrier s) (su_places s) w (su_alarms s).

Definition su_barrier_set (b : Barrier) (s : Startup) : Startup :=
  mk_startup (su_coordinator s) b (su_places s) (su_waiter s) (su_alarms s).

(** [Coordinator::ready], up to its wait. *)
Definition coordinator_ready (n : rstring) (at_wait : nat -> Place) (s : Startup) : Moved :=
  if bool_decide (n ∈ co_pending (su_coordinator s)) then
    let '(g, b) := barrier_wait (su_barrier s) in
    Goes (su_put n (at_wait g) (su_barrier_set b s))
  else Panics.

(** [Coordinator::wait_internal], up to its wait. *)
Definition wait_internal (at_wait : list nat -> Waiter) (s : Startup) : Moved :=
  let '(gs, b) := barrier_waits (num_unused_barriers (su_coordinator s)) (su_barrier s) in
  Goes (su_wait (at_wait gs) (su_barrier_set b s)).

Definition su_alarm (w : Waiter) (s : Startup) : Startup :=
  mk_startup (su_coordinator s) (su_barrier s) (su_places s) w
    (su_alarms s ++ [co_pending (su_coordinator s)]).

Definition move (mv : Move) (s : Startup) : Moved :=
  match mv with
  | CallReady n =>
      match su_places s !! n with
      | Some Fresh => coordinator_ready n (AtReady false) s
      | _ => Blocked
      end
  | CallRunning n =>
      match su_places s !! n with
      | Some Fresh => coordinator_ready n (AtReady true) s
      | Some IsReady => coordinator_ready n AtRunning s
      | _ => Blocked
      end
  | Wake n =>
      match su_places s !! n with
      | Some (AtReady in_running g) =>
          if released (su_barrier s) g then
            if in_running then coordinator_ready n AtRunning s else Goes (su_put n IsReady s)
          else Blocked
      | Some (AtRunning g) =>
          if released (su_barrier s) g then Goes (su_put n IsRunning s) else Blocked
      | _ => Blocked
      end
  | StartWait =>
      match su_waiter s with
      | NotWaiting => wait_internal (fun gs => WaitReady gs false) s
      | _ => Blocked
      end
  | WakeWaiter =>
      match su_waiter s with
      | WaitReady gs _ =>
          if forallb (released (su_barrier s)) gs
          then wait_internal (fun gs' => WaitRunning gs' false) s else Blocked
      | WaitRunning gs _ =>
          if forallb (released (su_barrier s)) gs then Goes (su_wait Started s) else Blocked
      | _ => Blocked
      end
  | SlowAlarm =>
      match su_waiter s with
      | WaitReady gs false => Goes (su_alarm (WaitReady gs true) s)
      | WaitRunning gs false => Goes (su_alarm (WaitRunning gs true) s)
      | _ => Blocked
      end
  end.

Inductive reachable (co : Coordinator) : Startup -> Prop :=
| reach_new : reachable co (startup_new co)
| reach_move mv s s' : reachable co s -> move mv s = Goes s' -> reachable co s'.

(** ** Counting over the components *)

Definition tally (f : Place -> nat) (M : gmap rstring Place) : nat :=
  map_fold (fun _ p acc => f p + acc) 0 M.

Lemma tally_new f M n p : M !! n = None -> tally f (<[n := p]> M) = f p + tally f M.
Proof. intros Hn. unfold tally. rewrite map_fold_insert_L; [done| |done]. intros; lia. Qed.

Lemma tally_delete f M n p : M !! n = Some p -> tally f M = f p + tally f (delete n M).
Proof.
  intros Hn. rewrite <- (insert_delete_id M n p) at 1 by done.
  by rewrite tally_new by apply lookup_delete_eq.
Qed.

Lemma tally_insert f M n p q :
  M !! n = Some p -> tally f (<[n := q]> M) + f p = tally f M + f q.
Proof.
  intros Hn. rewrite (tally_delete f M n p Hn).
  rewrite (tally_delete f _ n q (lookup_insert_eq M n q)), delete_insert_eq. lia.
Qed.

Lemma tally_full f M :
  (forall p, f p <= 1) ->
  tally f M <= size M /\ (tally f M = size M -> forall n p, M !! n = Some p -> f p = 1).
Proof.
  intros Hf. induction M as [|n p M Hn [IH1 IH2]] using map_ind.
  { split; [done|]. intros _ n p. by rewrite lookup_empty. }
  rewrite tally_new, map_size_insert_None by done. pose proof (Hf p). split; [lia|].
  intros E k q. destruct (decide (n = k)) as [<-|Hne].
  - rewrite lookup_insert_eq. intros [= <-]. lia.
  - rewrite lookup_insert_ne by done. apply IH2. lia.
Qed.

Lemma tally_zero f M : (forall n p, M !! n = Some p -> f p = 0) -> tally f M = 0.
Proof.
  induction M as [|n p M Hn IH] using map_ind; [done|]. intros H.
  rewrite tally_new by done. rewrite (H n p) by apply lookup_insert_eq.
  apply IH. intros k q Hk. apply (H k q). rewrite lookup_insert_ne; [done|congruence].
Qed.

Lemma tally_pos f M n p : M !! n = Some p -> f p <= tally f M.
Proof. intros Hn. rewrite (tally_delete f M n p Hn). lia. Qed.

(** ** The invariant *)

(** A component waits in the current generation. *)
Definition here (g : nat) (p : Place) : nat :=
  match p with AtReady _ k | AtRunning k => if k =? g then 1 else 0 | _ => 0 end.

Definition waiter_here (g : nat) (w : Waiter) : nat :=
  match w with
  | WaitReady _ _ => if g =? 0 then 1 else 0
  | WaitRunning _ _ => if g =? 1 then 1 else 0
  | _ => 0
  end.

Definition place_ok (g : nat) (p : Place) : Prop :=
  match p with
  | Fresh => g = 0
  | AtReady _ k => k = 0 /\ g <= 1
  | IsReady => g = 1
  | AtRunning k => k = 1 /\ 1 <= g <= 2
  | IsRunning => g = 2
  end.

Definition waiter_ok (u g : nat) (w : Waiter) : Prop :=
  match w with
  | NotWaiting => g = 0
  | WaitReady gs _ => gs = replicate u 0 /\ g <= 1
  | WaitRunning gs _ => gs = replicate u 1 /\ 1 <= g <= 2
  | Started => g = 2
  end.

Definition unused (s : Startup) : nat := num_unused_barriers (su_coordinator s).

(** With [d] waits about to arrive. *)
Record Sinv_at (d : nat) (s : Startup) : Prop := {
  si_n : b_n (su_barrier s) = max_components (su_coordinator s) + 1;
  si_bound : size (co_pending (su_coordinator s)) <= max_components (su_coordinator s);
  si_dom : dom (su_places s) = co_pending (su_coordinator s);
  si_places : forall n p, su_places s !! n = Some p -> place_ok (generation (su_barrier s)) p;
  si_waiter : waiter_ok (unused s) (generation (su_barrier s)) (su_waiter s);
  si_arrived : arrived (su_barrier s) + d
    = tally (here (generation (su_barrier s))) (su_places s)
      + unused s * waiter_here (generation (su_barrier s)) (su_waiter s);
  si_open : arrived (su_barrier s) < b_n (su_barrier s)
}.

Abbreviation Sinv := (Sinv_at 0).

Lemma barrier_waits_spec k b :
  arrived b < b_n b -> arrived b + k <= b_n b ->
  barrier_waits k b
  = (replicate k (generation b),
     if arrived b + k =? b_n b then mk_barrier (b_n b) 0 (S (generation b))
     else mk_barrier (b_n b) (arrived b + k) (generation b)).
Proof.
  revert b. induction k as [|k IH]; intros [n a g]; cbn [arrived b_n generation]; intros Ho Hk.
  { rewrite Nat.add_0_r. destruct (Nat.eqb_spec a n); [lia|done]. }
  cbn [barrier_waits barrier_wait arrived b_n generation].
  destruct (Nat.eqb_spec (S a) n) as [Hn|Hn].
  - assert (k = 0) as -> by lia. cbn. destruct (Nat.eqb_spec (a + 1) n); [done|lia].
  - rewrite IH by (cbn; lia). cbn. by rewrite Nat.add_succ_r.
Qed.

Lemma here_le g p : here g p <= 1.
Proof. destruct p as [|? k| |k|]; cbn; try lia; destruct (k =? g); lia. Qed.

(** All that wait in a generation are ready for the next. *)
Lemma here_next g p : place_ok g p -> here g p = 1 -> place_ok (S g) p /\ here (S g) p = 0.
Proof.
  destruct p as [|? k| |k|]; cbn; try done; destruct (Nat.eqb_spec k g); try done; intros [-> ?] _.
  all: destruct (Nat.eqb_spec 0 (S g)), (Nat.eqb_spec 1 (S g)); lia.
Qed.

Lemma waiter_next u g w :
  waiter_ok u g w -> waiter_here g w = 1 -> waiter_ok u (S g) w /\ waiter_here (S g) w = 0.
Proof.
  destruct w as [|gs al|gs al|]; cbn; try done; intros [-> ?].
  all: repeat case_match; try done; repeat match goal with H : (_ =? _) = _ |- _ => first
    [apply Nat.eqb_eq in H|apply Nat.eqb_neq in H] end; repeat split; lia.
Qed.

Lemma size_places s d : Sinv_at d s -> size (su_places s) + unused s = b_n (su_barrier s).
Proof.
  intros []. rewrite <- size_dom, si_dom0, si_n0. unfold unused, num_unused_barriers. lia.
Qed.

(** The waits arrive. *)
Lemma arrive_inv d s :
  Sinv_at d s ->
  exists gs b, barrier_waits d (su_barrier s) = (gs, b)
    /\ gs = replicate d (generation (su_barrier s))
    /\ Sinv (su_barrier_set b s).
Proof.
  intros Hs. pose proof (size_places s d Hs) as Hsz. destruct Hs.
  set (g := generation (su_barrier s)) in *.
  destruct (tally_full (here g) (su_places s) (here_le g)) as [Hle Hfull].
  assert (Hw : waiter_here g (su_waiter s) <= 1) by (destruct (su_waiter s); cbn; repeat case_match; lia).
  assert (Hu : 1 <= unused s) by (unfold unused, num_unused_barriers; lia).
  rewrite barrier_waits_spec by nia. do 2 eexists. split_and!; [done|done|].
  destruct (Nat.eqb_spec (arrived (su_barrier s) + d) (b_n (su_barrier s))) as [E|E].
  - assert (waiter_here g (su_waiter s) = 1 /\ tally (here g) (su_places s) = size (su_places s))
      as [Hw1 Hall] by nia.
    destruct (waiter_next _ _ _ si_waiter0 Hw1) as [Hwok Hw0].
    specialize (Hfull Hall). split; cbn; try done; fold g.
    + intros n p Hp. apply (here_next g p); [by eapply si_places0|by eapply Hfull].
    + change (unused _) with (unused s). rewrite Hw0. rewrite tally_zero; [lia|].
      intros n p Hp. apply (here_next g p); [by eapply si_places0|by eapply Hfull].
    + lia.
  - split; cbn; try done; fold g; change (unused _) with (unused s); [lia|nia].
Qed.

(** ** Moves keep it, and there are only so many of them *)

Definition place_work (p : Place) : nat :=
  match p with Fresh => 4 | AtReady _ _ => 3 | IsReady => 2 | AtRunning _ => 1 | IsRunning => 0 end.

Definition waiter_work (w : Waiter) : nat :=
  match w with
  | NotWaiting => 5
  | WaitReady _ false => 4 | WaitReady _ true => 3
  | WaitRunning _ false => 2 | WaitRunning _ true => 1
  | Started => 0
  end.

Definition work (s : Startup) : nat := tally place_work (su_places s) + waiter_work (su_waiter s).

Lemma put_inv n p q e s :
  Sinv s -> su_places s !! n = Some p ->
  let g := generation (su_barrier s) in
  place_ok g q -> here g q = here g p + e -> Sinv_at e (su_put n q s).
Proof.
  intros [] Hn g Hq He. split; cbn; try done; fold g.
  - rewrite dom_insert_L, si_dom0. enough (n ∈ dom (su_places s)) by set_solver.
    by eapply elem_of_dom_2.
  - intros k r. destruct (decide (n = k)) as [<-|Hne].
    + rewrite lookup_insert_eq. by intros [= <-].
    + rewrite lookup_insert_ne by done. apply si_places0.
  - change (unused _) with (unused s). fold g in si_arrived0.
    pose proof (tally_insert (here g) _ n p q Hn). lia.
Qed.

Lemma wait_inv w e s :
  Sinv s ->
  let g := generation (su_barrier s) in
  waiter_ok (unused s) g w -> waiter_here g w = waiter_here g (su_waiter s) + e ->
  Sinv_at (unused s * e) (su_wait w s).
Proof.
  intros [] g Hw He. split; cbn; try done; fold g.
  change (unused _) with (unused s). fold g in si_arrived0. rewrite He. lia.
Qed.

Lemma put_work n p q s :
  su_places s !! n = Some p -> place_work q < place_work p -> work (su_put n q s) < work s.
Proof.
  intros Hn Hlt. unfold work; cbn. pose proof (tally_insert place_work _ n p q Hn). lia.
Qed.

(** The answer of a move. *)
Definition good_move (s : Startup) (r : Moved) : Prop :=
  match r with
  | Goes s' => Sinv s' /\ work s' < work s
  | Blocked => True
  | Panics => False
  end.

Lemma coordinator_ready_good n p at_wait s :
  Sinv s -> su_places s !! n = Some p ->
  let g := generation (su_barrier s) in
  place_ok g (at_wait g) -> here g (at_wait g) = here g p + 1 ->
  place_work (at_wait g) < place_work p ->
  good_move s (coordinator_ready n at_wait s).
Proof.
  intros Hs Hn g Hok Hh Hlt. unfold coordinator_ready.
  rewrite bool_decide_eq_true_2 by (rewrite <- (si_dom _ _ Hs); by eapply elem_of_dom_2).
  destruct (arrive_inv 1 _ (put_inv n p (at_wait g) 1 s Hs Hn Hok Hh)) as (gs & b & Hb & Hgs & Hi).
  cbn [barrier_waits barrier_wait su_put su_barrier] in Hb. injection Hb as _ E2.
  rewrite <- E2 in Hi. split; [exact Hi|]. exact (put_work n p _ s Hn Hlt).
Qed.

Lemma wait_internal_good at_wait s :
  Sinv s ->
  let g := generation (su_barrier s) in
  let w := at_wait (replicate (unused s) g) in
  waiter_ok (unused s) g w -> waiter_here g w = waiter_here g (su_waiter s) + 1 ->
  waiter_work w < waiter_work (su_waiter s) ->
  good_move s (wait_internal at_wait s).
Proof.
  intros Hs g w Hok Hh Hlt. unfold wait_internal. fold (unused s).
  pose proof (wait_inv w 1 s Hs Hok Hh) as Hw. rewrite Nat.mul_1_r in Hw.
  destruct (arrive_inv _ _ Hw) as (gs & b & Hb & -> & Hi). cbn in Hb.
  rewrite Hb. fold g. split; [exact Hi|]. unfold work; cbn. fold g w. lia.
Qed.

Lemma released_all b u g : 1 <= u -> forallb (released b) (replicate u g) = released b g.
Proof.
  intros Hu. destruct u as [|u]; [lia|]. clear Hu. cbn.
  induction u as [|u IH]; cbn; [apply andb_true_r|]. rewrite IH. apply andb_diag.
Qed.

Lemma unused_pos s : 1 <= unused s.
Proof. unfold unused, num_unused_barriers. lia. Qed.

Lemma place_move_good n s :
  Sinv s -> good_move s (move (CallReady n) s) /\ good_move s (move (CallRunning n) s)
            /\ good_move s (move (Wake n) s).
Proof.
  intros Hs. cbn [move]. destruct (su_places s !! n) as [p|] eqn:Hn; [|done].
  pose proof (si_places _ _ Hs n p Hn) as Hok.
  destruct p as [|ir k| |k|]; cbn in Hok; try done.
  - split_and!; [| |done]; apply (coordinator_ready_good n Fresh); try done; cbn; rewrite ?Hok;
      cbn; lia || done.
  - destruct Hok as [-> Hg]. split_and!; [done..|]. unfold released.
    destruct (Nat.ltb_spec 0 (generation (su_barrier s))) as [Hlt|]; [|done].
    assert (Hg1 : generation (su_barrier s) = 1) by lia. destruct ir.
    + apply (coordinator_ready_good n (AtReady true 0)); rewrite ?Hg1; cbn; lia || done.
    + split; [|by eapply put_work; [done|cbn; lia]].
      apply (put_inv n (AtReady false 0)); rewrite ?Hg1; done.
  - split_and!; [done| |done].
    apply (coordinator_ready_good n IsReady); rewrite ?Hok; cbn; lia || done.
  - destruct Hok as [-> Hg]. split_and!; [done..|]. unfold released.
    destruct (Nat.ltb_spec 1 (generation (su_barrier s))) as [Hlt|]; [|done].
    assert (Hg1 : generation (su_barrier s) = 2) by lia.
    split; [|by eapply put_work; [done|cbn; lia]].
    apply (put_inv n (AtRunning 1)); rewrite ?Hg1; done.
Qed.

Lemma waiter_move_good s :
  Sinv s -> good_move s (move StartWait s) /\ good_move s (move WakeWaiter s)
            /\ good_move s (move SlowAlarm s).
Proof.
  intros Hs. cbn [move]. pose proof (si_waiter _ _ Hs) as Hok.
  pose proof (fun w => wait_inv w 0 s Hs) as Hw. cbn in Hw. rewrite Nat.mul_0_r in Hw.
  destruct (su_waiter s) as [|gs al|gs al|] eqn:Hws; cbn in Hok; try done.
  - split_and!; [|done..]. apply wait_internal_good; [done|..]; rewrite ?Hws, ?Hok; cbn; repeat split; lia || done.
  - destruct Hok as [-> Hg]. split_and!; [done| |].
    + rewrite released_all by apply unused_pos. unfold released.
      destruct (Nat.ltb_spec 0 (generation (su_barrier s))) as [Hlt|]; [|done].
      assert (Hg1 : generation (su_barrier s) = 1) by lia.
      apply wait_internal_good; [done|..]; rewrite ?Hws, ?Hg1; cbn; repeat split; try (lia || done). destruct al; lia.
    + destruct al; [done|]. split; [|unfold work; cbn; rewrite Hws; cbn; lia].
      destruct (Hw (WaitReady (replicate (unused s) 0) true)); [by split|cbn; lia|]. by split.
  - destruct Hok as [-> Hg]. split_and!; [done| |].
    + rewrite released_all by apply unused_pos. unfold released.
      destruct (Nat.ltb_spec 1 (generation (su_barrier s))) as [Hlt|]; [|done].
      assert (Hg1 : generation (su_barrier s) = 2) by lia.
      split; [|unfold work; cbn; rewrite Hws; destruct al; cbn; lia].
      apply Hw; rewrite ?Hg1; done.
    + destruct al; [done|]. split; [|unfold work; cbn; rewrite Hws; cbn; lia].
      destruct (Hw (WaitRunning (replicate (unused s) 1) true)); [by split|cbn; lia|]. by split.
Qed.

Lemma move_good mv s : Sinv s -> good_move s (move mv s).
Proof.
  intros Hs. destruct mv as [n|n|n| | |].
  1-3: by destruct (place_move_good n s Hs) as (? & ? & ?).
  all: by destruct (waiter_move_good s Hs) as (? & ? & ?).
Qed.

Lemma startup_new_inv co :
  size (co_pending co) <= max_components co -> Sinv (startup_new co).
Proof.
  intros Hle. split; cbn; try done; [by rewrite dom_gset_to_gmap| | |lia].
  - intros n p [_ <-]%lookup_gset_to_gmap_Some. done.
  - rewrite tally_zero; [lia|]. by intros n p [_ <-]%lookup_gset_to_gmap_Some.
Qed.

Lemma startup_reachable_inv co s :
  size (co_pending co) <= max_components co -> reachable co s ->
  Sinv s /\ su_coordinator s = co.
Proof.
  intros Hle. induction 1 as [|mv s s' _ [IH IHc] Hmv]; [by split; [apply startup_new_inv|]|].
  pose proof (move_good mv s IH) as Hg. rewrite Hmv in Hg. split; [apply Hg|].
  rewrite <- IHc. clear -Hmv. destruct mv; cbn in Hmv; repeat case_match; try done;
    unfold coordinator_ready, wait_internal in *; repeat case_match; by simplify_eq.
Qed.

(** ** Together *)

(** How many of the two barriers a component has reached, and has passed. *)
Definition reached (p : Place) : nat :=
  match p with Fresh => 0 | AtReady _ _ | IsReady => 1 | AtRunning _ | IsRunning => 2 end.

Definition passed (p : Place) : nat :=
  match p with Fresh | AtReady _ _ => 0 | IsReady | AtRunning _ => 1 | IsRunning => 2 end.

Definition waiter_passed (w : Waiter) : nat :=
  match w with NotWaiting | WaitReady _ _ => 0 | WaitRunning _ _ => 1 | Started => 2 end.

Definition all_running (s : Startup) : bool :=
  bool_decide (map_Forall (fun _ p => place_work p = 0) (su_places s))
  && (waiter_work (su_waiter s) =? 0).

Lemma passed_reached g p q :
  place_ok g p -> place_ok g q -> passed p <= g /\ g <= reached q.
Proof. destruct p, q; cbn; lia. Qed.

Lemma waiter_passed_le u g w : waiter_ok u g w -> waiter_passed w <= g.
Proof. destruct w; cbn; lia. Qed.

(** Someone can always go on: a component that is not waiting, the coordinator's task,
    or one whose wait is over. *)
Lemma place_stuck s n p :
  Sinv s -> su_places s !! n = Some p -> p <> IsRunning ->
  (exists mv s', mv <> SlowAlarm /\ move mv s = Goes s') \/ here (generation (su_barrier s)) p = 1.
Proof.
  intros Hs Hn Hp. pose proof (si_places _ _ Hs n p Hn) as Hok.
  destruct (place_move_good n s Hs) as (Hr & Hrun & Hw). cbn [move] in Hr, Hrun, Hw.
  rewrite Hn in Hr, Hrun, Hw. destruct p as [|ir k| |k|]; cbn in Hok; [| | | |done].
  - left. exists (CallReady n). cbn [move]. rewrite Hn.
    destruct (coordinator_ready _ _ _) as [s'| |] eqn:E; [by exists s'| |done].
    unfold coordinator_ready in E. by repeat case_match.
  - destruct Hok as [-> Hg]. cbn [here]. unfold released in Hw.
    destruct (generation (su_barrier s)) as [|g] eqn:Eg; [by right|left]. exists (Wake n).
    cbn [move]. rewrite Hn. unfold released. rewrite Eg. cbn. destruct ir; [|by eexists].
    cbn in Hw. destruct (coordinator_ready _ _ _) as [s'| |] eqn:E; [by exists s'| |done].
    unfold coordinator_ready in E. by repeat case_match.
  - left. exists (CallRunning n). cbn [move]. rewrite Hn.
    destruct (coordinator_ready _ _ _) as [s'| |] eqn:E; [by exists s'| |done].
    unfold coordinator_ready in E. by repeat case_match.
  - destruct Hok as [-> Hg]. cbn [here]. destruct (decide (generation (su_barrier s) = 1)) as [->|];
      [by right|left]. exists (Wake n). cbn [move]. rewrite Hn. unfold released.
    destruct (Nat.ltb_spec 1 (generation (su_barrier s))); [|lia]. by eexists.
Qed.

Lemma waiter_stuck s :
  Sinv s -> su_waiter s <> Started ->
  (exists mv s', mv <> SlowAlarm /\ move mv s = Goes s')
  \/ waiter_here (generation (su_barrier s)) (su_waiter s) = 1.
Proof.
  intros Hs Hw. pose proof (si_waiter _ _ Hs) as Hok.
  destruct (su_waiter s) as [|gs al|gs al|] eqn:Ew; cbn in Hok; [| | |done].
  - left. exists StartWait. cbn [move]. rewrite Ew. unfold wait_internal.
    destruct (barrier_waits _ _). by eexists.
  - destruct Hok as [-> Hg]. cbn [waiter_here].
    destruct (Nat.eqb_spec (generation (su_barrier s)) 0) as [|Hne]; [by right|left].
    exists WakeWaiter. cbn [move]. rewrite Ew, released_all by apply unused_pos. unfold released.
    destruct (Nat.ltb_spec 0 (generation (su_barrier s))); [|lia]. unfold wait_internal.
    destruct (barrier_waits _ _). by eexists.
  - destruct Hok as [-> Hg]. cbn [waiter_here].
    destruct (Nat.eqb_spec (generation (su_barrier s)) 1) as [|Hne]; [by right|left].
    exists WakeWaiter. cbn [move]. rewrite Ew, released_all by apply unused_pos. unfold released.
    destruct (Nat.ltb_spec 1 (generation (su_barrier s))); [|lia]. by eexists.
Qed.

Lemma tally_all_one f M :
  (forall n p, M !! n = Some p -> f p = 1) -> tally f M = size M.
Proof.
  induction M as [|n p M Hn IH] using map_ind; [done|]. intros H.
  rewrite tally_new, map_size_insert_None by done. rewrite (H n p) by apply lookup_insert_eq.
  cbn. f_equal. apply IH. intros k q Hk. apply (H k q). rewrite lookup_insert_ne; [done|congruence].
Qed.

Lemma startup_progress s :
  Sinv s -> all_running s = false -> exists mv s', mv <> SlowAlarm /\ move mv s = Goes s'.
Proof.
  intros Hs Hnot. set (g := generation (su_barrier s)).
  destruct (decide (su_waiter s = Started)) as [Hw|Hw].
  { unfold all_running in Hnot. rewrite Hw in Hnot. cbn in Hnot. rewrite andb_true_r in Hnot.
    apply bool_decide_eq_false, map_not_Forall in Hnot as (n & p & Hn & Hp); [|apply _].
    pose proof (si_waiter _ _ Hs) as Hok. rewrite Hw in Hok. cbn in Hok.
    destruct (place_stuck s n p Hs Hn) as [?|Hh]; [by intros ->|done|].
    pose proof (si_places _ _ Hs n p Hn) as Hpo. rewrite Hok in Hh, Hpo.
    destruct p as [|? k| |k|]; cbn in Hh, Hpo; try done; destruct Hpo as [-> ?]; cbn in *; lia. }
  destruct (waiter_stuck s Hs Hw) as [?|Hwh]; [done|]. fold g in Hwh.
  destruct (decide (map_Forall (fun _ p => here g p = 1) (su_places s))) as [HF|HF].
  - exfalso. pose proof (si_arrived _ _ Hs) as Ha. pose proof (si_open _ _ Hs).
    pose proof (size_places s 0 Hs). fold g in Ha.
    rewrite Hwh, (tally_all_one (here g)) in Ha by apply HF. lia.
  - apply map_not_Forall in HF as (n & p & Hn & Hp); [|apply _].
    destruct (place_stuck s n p Hs Hn) as [?|?]; [|done|done].
    intros ->. pose proof (si_places _ _ Hs n _ Hn) as Hpo. cbn in Hpo. fold g in Hpo.
    pose proof (si_waiter _ _ Hs) as Hok. fold g in Hok.
    destruct (su_waiter s); cbn in Hok, Hwh; try done; rewrite Hpo in Hwh; done.
Qed.

(** ** The coordinator of [spawn] *)
Section Spawn.
Context {ST : Settings}.
Context `{HU : !HashIter rstring UnitConfig} `{HT : !HashIter rstring TargetConfig}
  `{HRU : !HashIter rstring (Z * Agent)} `{HRT : !HashIter rstring (Z * ChanId)}.

Definition bounded (co : Coordinator) : Prop := size (co_pending co) <= max_components co.

Lemma track_bounded n co co' : track n co = Some co' -> bounded co'.
Proof.
  unfold track, bounded. repeat case_bool_decide; try done. intros [= <-]. cbn. lia.
Qed.

Lemma tracked_bounded b n co co' : bounded co -> tracked b n co = Some co' -> bounded co'.
Proof. destruct b; cbn; [intros _; apply track_bounded|by intros ? [= <-]]. Qed.

Lemma run_for_preserves {S A} (P : S -> Prop) (body : A -> Run S unit) l s s' :
  (forall a s s', P s -> body a s = (Some tt, s') -> P s') ->
  P s -> run_for l body s = (Some tt, s') -> P s'.
Proof.
  intros HB. revert s. induction l as [|a l IH]; intros s Hs Hr; [by injection Hr as <-|].
  cbn [run_for] in Hr. apply run_bind_inv in Hr as [([] & s1 & Hb & Hr)|[_ ?]]; [|done].
  eauto.
Qed.

Lemma spawn_bounded chan c m log co m' : spawn chan c m = Some (log, co, m') -> bounded co.
Proof.
  intros (s1 & s2 & H1 & H2 & -> & _ & _)%spawn_inv.
  refine (run_for_preserves (fun s => bounded (sp_coordinator s)) _ _ _ _ _ _ H2).
  { intros [k u] s s' Hb Hs. apply unit_step_inv in Hs as (co & Hco & ->). cbn.
    by eapply tracked_bounded. }
  refine (run_for_preserves (fun s => bounded (sp_coordinator s)) _ _ _ _ _ _ H1).
  - intros [k t] s s' Hb Hs. apply target_step_inv in Hs as (co & Hco & ->). cbn.
    by eapply tracked_bounded.
  - unfold bounded; cbn. rewrite size_empty. lia.
Qed.

(** C11: with the coordinator of a [spawn] that returned, in every interleaving of
    the calls of [WaitPoint] and of [Coordinator::wait]: no call panics; a component (or the waiting coordinator) is past the ready or the running
    barrier only when every tracked component has reached it; while not all are
    running some task other than the alarm can go on; and every move uses up some of
    the finite work, so every run ends with all components running and
    [Coordinator::wait] returned. *)
Theorem startup_in_step chan c m log co m' s :
  spawn chan c m = Some (log, co, m') -> reachable co s ->
  (forall mv, move mv s <> Panics)
  /\ (forall n p k q, su_places s !! n = Some p -> su_places s !! k = Some q ->
        passed p <= reached q /\ waiter_passed (su_waiter s) <= reached q)
  /\ (all_running s = false -> exists mv s', mv <> SlowAlarm /\ move mv s = Goes s')
  /\ (forall mv s', move mv s = Goes s' -> work s' < work s)
  /\ dom (su_places s) = co_pending co.
Proof.
  intros Hle%spawn_bounded Hr. destruct (startup_reachable_inv co s Hle Hr) as [Hs Hc]. split_and!.
  - intros mv Hp. pose proof (move_good mv s Hs) as Hg. by rewrite Hp in Hg.
  - intros n p k q Hp Hq. pose proof (si_places _ _ Hs n p Hp) as H1.
    pose proof (si_places _ _ Hs k q Hq) as H2. destruct (passed_reached _ p q H1 H2).
    pose proof (waiter_passed_le _ _ _ (si_waiter _ _ Hs)). lia.
  - by apply startup_progress.
  - intros mv s' Hp. pose proof (move_good mv s Hs) as Hg. rewrite Hp in Hg. apply Hg.
  - by rewrite (si_dom _ _ Hs), Hc.
Qed.

End Spawn.

(** ** A configuration, loaded and started

    A unit that a target links to; and a configuration file that fails to load, whose
    link stays behind. *)
From S2P Require Import ManagerLoad.

Module ManagerDemo.

#[local] Instance settings : Settings := {| UnitSettings := unit; TargetSettings := unit |}.
#[local] Instance order_load : HashIter rstring LoadUnit := list_order _ _.
#[local] Instance order_unit : HashIter rstring UnitConfig := list_order _ _.
#[local] Instance order_target : HashIter rstring TargetConfig := list_order _ _.
#[local] Instance order_running : HashIter rstring (Z * Agent) := list_order _ _.
#[local] Instance order_sender : HashIter rstring (Z * ChanId) := list_order _ _.

Definition rib := str "rib".
Definition old := str "old".
Definition nul := str "null".

(** [units.rib] and [targets.null] with [sources = "rib:64"]. *)
Definition demo_config : Config :=
  mk_config {[rib := RibUnit tt]} {[nul := NullOut tt]}.
Definition demo_refs : list LinkRef := [mk_ref (str "rib:64") 10%Z 1%Z 2%Z 3%Z].

(** The file before it had a link to [old] and did not parse. *)
Definition stale_refs : list LinkRef := [mk_ref old 10%Z 1%Z 2%Z 3%Z].

Definition chan (_ : rstring) : ChanId := 100%Z.

Lemma names_apart n : is_Some (units demo_config !! n) -> targets demo_config !! n = None.
Proof.
  cbn [units targets demo_config]. intros [u Hu]. apply lookup_singleton_Some in Hu as [<- _].
  by vm_compute.
Defined.

Lemma reload_runs_linked_units_witness :
  exists c' m1 log co m2,
    from_config_file demo_refs (Some demo_config) true true manager_new = (Some c', m1)
    /\ spawn chan c' m1 = Some (log, co, m2)
    /\ GATES m2 = ∅
    /\ exists a, running_units m2 !! rib = Some (3%Z, a).
Proof.
  pose proof (reload_runs_linked_units chan demo_refs demo_config manager_new eq_refl eq_refl
                names_apart) as H.
  destruct (from_config_file demo_refs (Some demo_config) true true manager_new) as [[c'|] m1] eqn:E.
  - destruct H as (_ & _ & H). destruct (H c' eq_refl) as (log & co & m2 & Hs & HG & _ & Hu & _).
    exists c', m1, log, co, m2. split_and!; [done..|].
    refine (Hu rib (RibUnit (ST := settings) tt) _ _); [by vm_compute|]. eexists. split; [by left|by vm_compute].
  - exfalso. revert E. by vm_compute.
Defined.

Lemma stale_gate_refuses_witness :
  (from_config_file demo_refs (Some demo_config) true true
     (from_config_file stale_refs None true true manager_new).2).1 = None.
Proof.
  pose proof (stale_gate_refuses stale_refs None true true demo_refs demo_config manager_new
    (mk_ref old 10%Z 1%Z 2%Z 3%Z) eq_refl (or_introl eq_refl)
    ltac:(by left) ltac:(by vm_compute)) as H.
  destruct (from_config_file stale_refs None true true manager_new) as [r1 m1].
  apply H.
Defined.

(** The manager once [demo_config] is loaded. *)
Definition loaded : Manager :=
  (from_config_file demo_refs (Some demo_config) true true manager_new).2.

Definition started : option (list Action * Coordinator * Manager) :=
  Eval vm_compute in spawn chan demo_config loaded.

Definition tracked_both : Coordinator :=
  Eval vm_compute in match started with Some (_, co, _) => co | None => coordinator_new 0 end.

(** The target calls [running], the unit calls [ready], the coordinator waits: all three
    waits of the first barrier are over. *)
Definition run (mvs : list Move) (s : Startup) : Startup :=
  foldl (fun s mv => match move mv s with Goes s' => s' | _ => s end) s mvs.

Definition all_ready : Startup :=
  run [CallRunning nul; CallReady rib; StartWait] (startup_new tracked_both).

Lemma startup_in_step_witness :
  su_places all_ready !! rib = Some (AtReady false 0)
  /\ exists mv s', mv <> SlowAlarm /\ move mv all_ready = Goes s'.
Proof.
  split; [by vm_compute|].
  assert (Hr : reachable tracked_both all_ready).
  { apply (reach_move _ StartWait (run [CallRunning nul; CallReady rib] (startup_new tracked_both)));
      [|by vm_compute].
    apply (reach_move _ (CallReady rib) (run [CallRunning nul] (startup_new tracked_both)));
      [|by vm_compute].
    apply (reach_move _ (CallRunning nul) (startup_new tracked_both)); [apply reach_new|by vm_compute]. }
  assert (Hco : (fun r => r.1.2) <$> spawn chan demo_config loaded = Some tracked_both)
    by by vm_compute.
  destruct (spawn chan demo_config loaded) as [[[log co] m']|] eqn:Hs; [|done].
  injection Hco as ->.
  destruct (startup_in_step chan demo_config loaded log tracked_both m' all_ready Hs Hr)
    as (_ & _ & Hp & _).
  apply Hp. by vm_compute.
Defined.

End ManagerDemo.
