(* ===== verification/BgpConfig.v ===== *)
(** * Which peers may connect ([src/units/bgp_tcp_in/peer_config.rs], the settings of
    [src/units/bgp_tcp_in/unit.rs])

    A [BTreeMap] is the list of its entries in the order of the keys.  The order of
    [inetnum]'s prefixes is a parameter with what its documentation says of it: it is
    strict, and of two prefixes that share an address the more specific one comes
    first.

    Shown: the first match that [PeerConfigs::get] takes is the exact address if it is
    configured and the longest matching prefix otherwise. *)

From S2P Require Import Prelude Net Payload.
From Stdlib Require Import ZArith Lia Sorting.Sorted.
From stdpp Require Import base numbers list sets sorting.

Local Open Scope Z_scope.

Class PrefixOrd `{E : Extern} := {
  prefix_lt : Prefix -> Prefix -> Prop;
  prefix_lt_asym p q : prefix_lt p q -> ~ prefix_lt q p;
  prefix_lt_specific p q a :
    prefix_contains p a = true -> prefix_contains q a = true ->
    prefix_len p < prefix_len q -> prefix_lt q p
}.

(** The order of [IpAddr]: version 4 first, then by value. *)
Definition addr_lt (a b : IpAddr) : Prop :=
  match a, b with
  | V4 x, V4 y | V6 x, V6 y => x < y
  | V4 _, V6 _ => True
  | V6 _, V4 _ => False
  end.

Section Config.
Context `{E : Extern} `{O : !PrefixOrd}.

Inductive PrefixOrExact : Type :=
| Exact (a : IpAddr)
| Net (p : Prefix).

#[export] Instance PrefixOrExact_eq_dec : EqDecision PrefixOrExact.
Proof. solve_decision. Defined.

(** The derived [Ord]: by variant, then by what it carries. *)
Definition poe_lt (k l : PrefixOrExact) : Prop :=
  match k, l with
  | Exact a, Exact b => addr_lt a b
  | Exact _, Net _ => True
  | Net _, Exact _ => False
  | Net p, Net q => prefix_lt p q
  end.

Definition poe_is_exact (k : PrefixOrExact) : bool :=
  match k with Exact _ => true | Net _ => false end.

Definition poe_contains (k : PrefixOrExact) (addr : IpAddr) : bool :=
  match k with
  | Exact a => bool_decide (a = addr)
  | Net p => prefix_contains p addr
  end.

Inductive OneOrManyAsns : Type :=
| Many (l : list Asn)
| One (a : Asn).

#[export] Instance OneOrManyAsns_eq_dec : EqDecision OneOrManyAsns.
Proof. solve_decision. Defined.

Definition asns_is_single (o : OneOrManyAsns) : bool :=
  match o with One _ => true | Many _ => false end.

Definition asns_contains (o : OneOrManyAsns) (other : Asn) : bool :=
  match o with
  | One a => a =? other
  | Many l => existsb (fun a => a =? other) l
  end.

Record PeerConfig : Type := mk_peer_config {
  pc_name : rstring;
  pc_remote_asn : OneOrManyAsns;
  pc_hold_time : option Z;
  pc_md5_key : option rstring;
  pc_protocols : list AfiSafiType;
  pc_addpath : list AfiSafiType
}.

Definition accept_remote_asn (c : PeerConfig) (remote : Asn) : bool :=
  match pc_remote_asn c with
  | Many [] => true
  | _ => asns_contains (pc_remote_asn c) remote
  end.

Definition md5_key (c : PeerConfig) : option rstring :=
  match pc_md5_key c with Some (x :: s) => Some (x :: s) | _ => None end.

(** [impl PartialEq for PeerConfig]. *)
Definition peer_config_eq (c d : PeerConfig) : bool :=
  bool_decide (pc_remote_asn c = pc_remote_asn d)
  && bool_decide (pc_hold_time c = pc_hold_time d)
  && bool_decide (pc_md5_key c = pc_md5_key d).

Definition PeerConfigs : Type := list (PrefixOrExact * PeerConfig).

(** The keys of a [BTreeMap] are strictly increasing. *)
Definition configs_wf (m : PeerConfigs) : Prop := StronglySorted poe_lt m.*1.

(** [PeerConfigs::get]: the first entry that matches. *)
Fixpoint configs_get (m : PeerConfigs) (key : IpAddr) : option (PrefixOrExact * PeerConfig) :=
  match m with
  | [] => None
  | (k, c) :: m' => if poe_contains k key then Some (k, c) else configs_get m' key
  end.

(** [PeerConfigs::get_exact]. *)
Fixpoint configs_get_exact (m : PeerConfigs) (key : PrefixOrExact) : option PeerConfig :=
  match m with
  | [] => None
  | (k, c) :: m' => if bool_decide (k = key) then Some c else configs_get_exact m' key
  end.

(** The settings of the unit. *)
Record BgpTcpInConfig : Type := mk_bgp_tcp_in {
  bc_listen : rstring;
  bc_my_asn : Asn;
  bc_my_bgp_id : list Z;
  bc_peer_configs : PeerConfigs;
  bc_filter_name : rstring;
  bc_synthesize_peer_stats : option bool;
  bc_peer_stats_interval_secs : Z
}.

(** [impl PartialEq for BgpTcpIn]. *)
Definition bgp_tcp_in_eq (b c : BgpTcpInConfig) : bool :=
  bool_decide (bc_listen b = bc_listen c) && (bc_my_asn b =? bc_my_asn c)
  && bool_decide (bc_my_bgp_id b = bc_my_bgp_id c).

Record CombinedConfig : Type := mk_combined {
  cc_my_asn : Asn;
  cc_my_bgp_id : list Z;
  cc_remote_prefix_or_exact : PrefixOrExact;
  cc_peer_config : PeerConfig
}.

Definition combined_new (b : BgpTcpInConfig) (c : PeerConfig) (k : PrefixOrExact)
    : CombinedConfig :=
  mk_combined (bc_my_asn b) (bc_my_bgp_id b) k c.

Definition remote_addr_allowed (c : CombinedConfig) (a : IpAddr) : bool :=
  poe_contains (cc_remote_prefix_or_exact c) a.

Definition remote_asn_allowed (c : CombinedConfig) (a : Asn) : bool :=
  accept_remote_asn (cc_peer_config c) a.

Definition combined_is_exact (c : CombinedConfig) : bool :=
  poe_is_exact (cc_remote_prefix_or_exact c) && asns_is_single (pc_remote_asn (cc_peer_config c)).

(** ** The lookup *)

(** The key is the best of the configured ones for the address. *)
Definition best_key (m : PeerConfigs) (addr : IpAddr) (k : PrefixOrExact) : Prop :=
  match k with
  | Exact a => a = addr
  | Net p =>
      Exact addr ∉ m.*1
      /\ forall q, Net q ∈ m.*1 -> prefix_contains q addr = true -> prefix_len q <= prefix_len p
  end.

Lemma configs_get_first m addr k c :
  configs_wf m -> configs_get m addr = Some (k, c) ->
  (k, c) ∈ m /\ poe_contains k addr = true /\ configs_get_exact m k = Some c
  /\ forall l, l ∈ m.*1 -> poe_contains l addr = true -> l = k \/ poe_lt k l.
Proof.
  unfold configs_wf. induction m as [|[j d] m IH]; [done|]. intros Hw. cbn in Hw.
  apply StronglySorted_inv in Hw as [Hw Hlt]. cbn [configs_get configs_get_exact].
  destruct (poe_contains j addr) eqn:Hj.
  - intros [= <- <-]. rewrite bool_decide_eq_true_2 by done. split_and!; [set_solver|done..|].
    cbn. intros l [->|Hl]%elem_of_cons _; [by left|right]. by rewrite Forall_forall in Hlt; apply Hlt.
  - intros Hg. destruct (IH Hw Hg) as (Hin & Hc & He & Hbest). split_and!; [set_solver|done| |].
    + rewrite bool_decide_eq_false_2; [done|]. intros ->. congruence.
    + cbn. intros l [->|Hl]%elem_of_cons Hlc; [congruence|]. by apply Hbest.
Qed.

(** [PeerConfigs::get] answers nothing exactly when no configured address or prefix
    contains the peer's; otherwise it answers an entry of the map whose key is the
    peer's address itself when that is configured, and else the longest configured
    prefix that contains it; the session made with the answer allows the address, and
    looking its key up again, which a reconfiguration does and expects to succeed,
    finds the entry. *)
Theorem peer_config_longest m addr b :
  configs_wf m ->
  match configs_get m addr with
  | None => forall k, k ∈ m.*1 -> poe_contains k addr = false
  | Some (k, c) =>
      (k, c) ∈ m /\ best_key m addr k
      /\ remote_addr_allowed (combined_new b c k) addr = true
      /\ configs_get_exact m k = Some c
  end.
Proof.
  intros Hw. destruct (configs_get m addr) as [[k c]|] eqn:Hg.
  - destruct (configs_get_first m addr k c Hw Hg) as (Hin & Hc & He & Hbest).
    split_and!; [done| |done|done]. destruct k as [a|p]; cbn in Hc |- *.
    + by apply bool_decide_eq_true in Hc.
    + split.
      * intros Hx. destruct (Hbest _ Hx) as [?|[]]; [by apply bool_decide_eq_true|done].
      * intros q Hq Hqa. destruct (decide (prefix_len q <= prefix_len p)); [done|exfalso].
        pose proof (prefix_lt_specific p q addr Hc Hqa ltac:(lia)) as Hlt.
        destruct (Hbest _ Hq Hqa) as [[= ->]|Hlt2]; [lia|]. by apply (prefix_lt_asym q p).
  - clear Hw. induction m as [|[j d] m IH]; [set_solver|]. cbn in Hg.
    destruct (poe_contains j addr) eqn:Hj; [done|].
    cbn. intros k [->|Hk]%elem_of_cons; [done|]. by apply IH.
Qed.

(** ** A reconfiguration seen by a session ([Processor::process]) *)

Inductive DisconnectReason : Type :=
| ConnectionRejected | Reconfiguration | Deconfigured | Shutdown | OtherReason.

(** What a session does with a [Reconfiguring] status: the reason it disconnects for,
    if any, and whether its loop ends.  [None] is the panic of [expect]. *)
Definition on_reconfigure (unit_cfg new_unit : BgpTcpInConfig) (peer_addr_cfg : PrefixOrExact)
    : option (option DisconnectReason * bool) :=
  if negb (bgp_tcp_in_eq new_unit unit_cfg) then Some (Some Reconfiguration, true)
  else
    match configs_get_exact (bc_peer_configs new_unit) peer_addr_cfg with
    | Some new_peer_config =>
        current ← configs_get_exact (bc_peer_configs unit_cfg) peer_addr_cfg;
        if negb (peer_config_eq new_peer_config current) then Some (Some Reconfiguration, false)
        else Some (None, false)
    | None => Some (Some Deconfigured, true)
    end.

(** A session that was accepted under a configuration survives any reconfiguration
    without a panic, and is left alone exactly when neither the unit's own settings nor
    the peer's ASNs, hold time and MD5 key changed. *)
Theorem reconfigure_total b new addr k c :
  configs_wf (bc_peer_configs b) -> configs_get (bc_peer_configs b) addr = Some (k, c) ->
  exists r stop, on_reconfigure b new k = Some (r, stop)
    /\ (r = None <-> bgp_tcp_in_eq new b = true
          /\ exists d, configs_get_exact (bc_peer_configs new) k = Some d
             /\ peer_config_eq d c = true).
Proof.
  intros Hw Hg. destruct (configs_get_first _ _ _ _ Hw Hg) as (_ & _ & He & _).
  unfold on_reconfigure. destruct (bgp_tcp_in_eq new b); cbn [negb].
  2: { do 2 eexists. split; [done|]. split; [done|]. by intros [? _]. }
  destruct (configs_get_exact (bc_peer_configs new) k) as [d|] eqn:Hd.
  - rewrite He. cbn. destruct (peer_config_eq d c) eqn:Hpc; cbn; do 2 eexists; (split; [done|]).
    + split; [intros _; split; [done|by exists d]|done].
    + split; [done|]. intros (_ & d' & [= <-] & ?). congruence.
  - do 2 eexists. split; [done|]. split; [done|]. by intros (_ & ? & ? & _).
Qed.

End Config.
