(* ===== verification/BgpStats.v ===== *)
(** * Statistics of native BGP peers ([src/ingress/peer_stats.rs],
    [src/units/bgp_tcp_in/stats_builder.rs], [process_update] of
    [src/units/bgp_tcp_in/router_handler.rs])

    The counters are 64-bit and wrap.  Shown: the gauge of a peer is the sum of the
    gauges of its address families, which count announcements less withdrawals and
    stop at zero; and the body of a Statistics Report reads back as the counters, with
    a count field that is the number of its TLVs. *)

From S2P Require Import Prelude Net Register Payload BmpDecode BmpBuilder BmpWire BmpInfo BmpMsg.
From Stdlib Require Import ZArith Lia.
From stdpp Require Import base numbers list gmap fin_maps.

Local Open Scope Z_scope.

(** AFI and SAFI, the values on the wire. *)
Definition AfiSafiKey : Type := Z * Z.

Record BgpPeerStats : Type := mk_stats {
  prefixes_rejected : Z;
  dup_prefix_advertisements : Z;
  dup_withdraws : Z;
  invalid_cluster_list_loops : Z;
  invalid_as_path_loops : Z;
  invalid_originator_id : Z;
  invalid_as_confed_loops : Z;
  adj_rib_in_routes : Z;
  loc_rib_routes : Z;
  adj_rib_in_per_afi_safi : gmap AfiSafiKey Z;
  loc_rib_per_afi_safi : gmap AfiSafiKey Z;
  updates_treat_as_withdraw : Z;
  prefixes_treat_as_withdraw : Z;
  dup_updates : Z
}.

Definition stats_new : BgpPeerStats := mk_stats 0 0 0 0 0 0 0 0 0 ∅ ∅ 0 0 0.

Definition set_rejected (n : Z) (s : BgpPeerStats) : BgpPeerStats :=
  mk_stats n (dup_prefix_advertisements s) (dup_withdraws s) (invalid_cluster_list_loops s)
    (invalid_as_path_loops s) (invalid_originator_id s) (invalid_as_confed_loops s)
    (adj_rib_in_routes s) (loc_rib_routes s) (adj_rib_in_per_afi_safi s) (loc_rib_per_afi_safi s)
    (updates_treat_as_withdraw s) (prefixes_treat_as_withdraw s) (dup_updates s).

Definition set_adj_rib_in (agg : Z) (m : gmap AfiSafiKey Z) (s : BgpPeerStats) : BgpPeerStats :=
  mk_stats (prefixes_rejected s) (dup_prefix_advertisements s) (dup_withdraws s)
    (invalid_cluster_list_loops s) (invalid_as_path_loops s) (invalid_originator_id s)
    (invalid_as_confed_loops s) agg (loc_rib_routes s) m (loc_rib_per_afi_safi s)
    (updates_treat_as_withdraw s) (prefixes_treat_as_withdraw s) (dup_updates s).

Definition inc_prefixes_rejected (n : Z) (s : BgpPeerStats) : BgpPeerStats :=
  set_rejected (wrap 64 (prefixes_rejected s + n)) s.

Definition add_adj_rib_in (k : AfiSafiKey) (n : Z) (s : BgpPeerStats) : BgpPeerStats :=
  if n =? 0 then s
  else
    let m := adj_rib_in_per_afi_safi s in
    set_adj_rib_in (wrap 64 (adj_rib_in_routes s + n))
      (<[k := wrap 64 (default 0 (m !! k) + n)]> m) s.

Definition sub_adj_rib_in (k : AfiSafiKey) (n : Z) (s : BgpPeerStats) : BgpPeerStats :=
  if n =? 0 then s
  else
    let m := adj_rib_in_per_afi_safi s in
    let cur := default 0 (m !! k) in
    let dec := Z.min cur n in
    set_adj_rib_in (saturating_sub (adj_rib_in_routes s) dec)
      (<[k := saturating_sub cur dec]> m) s.

Definition reset_adj_rib_in (s : BgpPeerStats) : BgpPeerStats := set_adj_rib_in 0 ∅ s.

(** [BgpPeerStatsSnapshot]: the maps as lists, in the order of the hash map. *)
Record Snapshot : Type := mk_snapshot {
  sn_prefixes_rejected : Z;
  sn_dup_prefix_advertisements : Z;
  sn_dup_withdraws : Z;
  sn_invalid_cluster_list_loops : Z;
  sn_invalid_as_path_loops : Z;
  sn_invalid_originator_id : Z;
  sn_invalid_as_confed_loops : Z;
  sn_adj_rib_in_routes : Z;
  sn_loc_rib_routes : Z;
  sn_adj_rib_in_per_afi_safi : list (AfiSafiKey * Z);
  sn_loc_rib_per_afi_safi : list (AfiSafiKey * Z);
  sn_updates_treat_as_withdraw : Z;
  sn_prefixes_treat_as_withdraw : Z;
  sn_dup_updates : Z
}.

Section Iter.
Context `{HF : !HashIter AfiSafiKey Z}.

Definition snapshot (s : BgpPeerStats) : Snapshot :=
  mk_snapshot
    (prefixes_rejected s) (dup_prefix_advertisements s) (dup_withdraws s)
    (invalid_cluster_list_loops s) (invalid_as_path_loops s) (invalid_originator_id s)
    (invalid_as_confed_loops s)
    (adj_rib_in_routes s) (loc_rib_routes s)
    (hm_iter (adj_rib_in_per_afi_safi s)) (hm_iter (loc_rib_per_afi_safi s))
    (updates_treat_as_withdraw s) (prefixes_treat_as_withdraw s) (dup_updates s).
End Iter.

(** ** The body of a Statistics Report *)

Definition put_counter_tlv (stat_type value : Z) : list Z :=
  let v := if value <=? u32_max then value else u32_max in
  be_bytes 2 stat_type ++ be_bytes 2 4 ++ be_bytes 4 v.

Definition put_gauge_tlv (stat_type value : Z) : list Z :=
  be_bytes 2 stat_type ++ be_bytes 2 8 ++ be_bytes 8 value.

Definition put_per_afi_safi_tlv (stat_type : Z) (afi safi value : Z) : list Z :=
  be_bytes 2 stat_type ++ be_bytes 2 11 ++ be_bytes 2 afi ++ be_bytes 1 safi ++ be_bytes 8 value.

Definition put_family (stat_type : Z) (e : AfiSafiKey * Z) : list Z :=
  put_per_afi_safi_tlv stat_type e.1.1 e.1.2 e.2.

(** [build_stats_body]: the count is a [u32] that is patched in at the end. *)
Definition build_stats_body (s : Snapshot) : list Z :=
  let count := wrap 32 (9 + zlen (sn_adj_rib_in_per_afi_safi s)
                        + zlen (sn_loc_rib_per_afi_safi s) + 3) in
  be_bytes 4 count
  ++ put_counter_tlv 0 (sn_prefixes_rejected s)
  ++ put_counter_tlv 1 (sn_dup_prefix_advertisements s)
  ++ put_counter_tlv 2 (sn_dup_withdraws s)
  ++ put_counter_tlv 3 (sn_invalid_cluster_list_loops s)
  ++ put_counter_tlv 4 (sn_invalid_as_path_loops s)
  ++ put_counter_tlv 5 (sn_invalid_originator_id s)
  ++ put_counter_tlv 6 (sn_invalid_as_confed_loops s)
  ++ put_gauge_tlv 7 (sn_adj_rib_in_routes s)
  ++ put_gauge_tlv 8 (sn_loc_rib_routes s)
  ++ concat (put_family 9 <$> sn_adj_rib_in_per_afi_safi s)
  ++ concat (put_family 10 <$> sn_loc_rib_per_afi_safi s)
  ++ put_counter_tlv 11 (sn_updates_treat_as_withdraw s)
  ++ put_counter_tlv 12 (sn_prefixes_treat_as_withdraw s)
  ++ put_counter_tlv 13 (sn_dup_updates s).

(** What the receiver is told: RFC 7854 section 4.8. *)
Definition counter (v : Z) : list Z := be_bytes 4 (Z.min v u32_max).
Definition family_stat (ty : Z) (e : AfiSafiKey * Z) : Z * list Z :=
  (ty, be_bytes 2 e.1.1 ++ be_bytes 1 e.1.2 ++ be_bytes 8 e.2).

Definition report_of (s : Snapshot) : list (Z * list Z) :=
  [(0, counter (sn_prefixes_rejected s));
   (1, counter (sn_dup_prefix_advertisements s));
   (2, counter (sn_dup_withdraws s));
   (3, counter (sn_invalid_cluster_list_loops s));
   (4, counter (sn_invalid_as_path_loops s));
   (5, counter (sn_invalid_originator_id s));
   (6, counter (sn_invalid_as_confed_loops s));
   (7, be_bytes 8 (sn_adj_rib_in_routes s)); (8, be_bytes 8 (sn_loc_rib_routes s))]
  ++ (family_stat 9 <$> sn_adj_rib_in_per_afi_safi s)
  ++ (family_stat 10 <$> sn_loc_rib_per_afi_safi s)
  ++ [(11, counter (sn_updates_treat_as_withdraw s));
      (12, counter (sn_prefixes_treat_as_withdraw s)); (13, counter (sn_dup_updates s))].

Abbreviation tlvs_of l := (concat ((fun t => tlv (fst t) (snd t)) <$> l)).

Lemma counter_tlv ty v : put_counter_tlv ty v = tlv ty (counter v).
Proof.
  unfold put_counter_tlv, tlv, counter. rewrite zlen_be_bytes. repeat f_equal.
  case_match eqn:H; lia.
Qed.

Lemma gauge_tlv ty v : put_gauge_tlv ty v = tlv ty (be_bytes 8 v).
Proof. unfold put_gauge_tlv, tlv. by rewrite zlen_be_bytes. Qed.

Lemma family_tlv ty e : put_family ty e = tlv ty (family_stat ty e).2.
Proof.
  unfold put_family, put_per_afi_safi_tlv, tlv, family_stat. cbn [snd].
  by rewrite !zlen_app, !zlen_be_bytes.
Qed.

Lemma families_tlv ty l : concat (put_family ty <$> l) = tlvs_of (family_stat ty <$> l).
Proof. induction l as [|e l IH]; [done|]. rewrite !fmap_cons. cbn [concat]. by rewrite family_tlv, IH. Qed.

Lemma zlen_family ty e : zlen (family_stat ty e).2 = 11.
Proof. cbn [family_stat snd]. by rewrite !zlen_app, !zlen_be_bytes. Qed.

Lemma report_ok s :
  Forall (fun t => 0 <= fst t < 65536 /\ zlen (snd t) <= u16_max) (report_of s).
Proof.
  unfold report_of, counter, u16_max. rewrite !Forall_app. split_and!.
  2,3: apply Forall_fmap, Forall_true; intros e; cbn [compose]; rewrite zlen_family; cbn; lia.
  all: repeat constructor; cbn [fst snd]; rewrite ?zlen_be_bytes; lia.
Qed.

Lemma stats_body_tlvs s : drop 4 (build_stats_body s) = tlvs_of (report_of s).
Proof.
  unfold build_stats_body. rewrite drop_app_exact by by rewrite length_be_bytes.
  unfold report_of. rewrite !fmap_app, !concat_app, !families_tlv, !counter_tlv, !gauge_tlv.
  cbn [fmap list_fmap concat fst snd]. by rewrite <- !app_assoc, !app_nil_r.
Qed.

(** C36: a Statistics Report body that the unit builds reads back: its TLVs are the counters
    and gauges of the snapshot in the order of their types, the 32-bit counters
    saturated, one TLV for each address family with its AFI, SAFI and gauge; and the
    count in front is how many there are. *)
Theorem stats_body_roundtrip `{HF : !HashIter AfiSafiKey Z} st :
  let s := snapshot st in
  Z.of_nat (size (adj_rib_in_per_afi_safi st)) + Z.of_nat (size (loc_rib_per_afi_safi st))
    < 2 ^ 32 - 12 ->
  let body := build_stats_body s in
  decode_tlvs (length (drop 4 body)) (drop 4 body) = Some (report_of s)
  /\ be_val (take 4 body) = zlen (report_of s).
Proof.
  intros s Hsize body. unfold body. rewrite stats_body_tlvs. split.
  - apply decode_tlv_list; [apply report_ok|done].
  - unfold build_stats_body. rewrite take_app_exact by by rewrite length_be_bytes.
    assert (Hz : zlen (report_of s) = 9 + zlen (sn_adj_rib_in_per_afi_safi s)
                   + zlen (sn_loc_rib_per_afi_safi s) + 3).
    { unfold report_of, zlen. rewrite !length_app, !length_fmap. cbn. lia. }
    assert (Hb : zlen (sn_adj_rib_in_per_afi_safi s) + zlen (sn_loc_rib_per_afi_safi s)
                 < 2 ^ 32 - 12).
    { unfold zlen, s. cbn. rewrite !hm_iter_perm, !length_map_to_list. lia. }
    rewrite be_val_be_bytes, <- Hz. unfold wrap. rewrite Zmod_mod.
    change (256 ^ Z.of_nat 4) with (2 ^ 32). pose proof (zlen_nonneg (report_of s)).
    apply Z.mod_small. lia.
Qed.

(** ** The gauges *)

(** The sum over the families. *)
Definition gauge_sum (m : gmap AfiSafiKey Z) : Z := map_fold (fun _ v acc => v + acc) 0 m.

Lemma gauge_sum_empty : gauge_sum ∅ = 0.
Proof. apply map_fold_empty. Qed.

Lemma gauge_sum_new m k v : m !! k = None -> gauge_sum (<[k := v]> m) = v + gauge_sum m.
Proof. intros Hk. unfold gauge_sum. rewrite map_fold_insert_L; [done| |done]. intros; lia. Qed.

Lemma gauge_sum_delete m k :
  gauge_sum m = default 0 (m !! k) + gauge_sum (delete k m).
Proof.
  destruct (m !! k) as [v|] eqn:Hk; cbn.
  - rewrite <- (insert_delete_id m k v) at 1 by done. by rewrite gauge_sum_new by apply lookup_delete_eq.
  - by rewrite delete_id.
Qed.

Lemma gauge_sum_insert m k v :
  gauge_sum (<[k := v]> m) = gauge_sum m - default 0 (m !! k) + v.
Proof.
  rewrite (gauge_sum_delete (<[k := v]> m) k), lookup_insert_eq, delete_insert_eq.
  rewrite (gauge_sum_delete m k). cbn. lia.
Qed.

Lemma gauge_sum_nonneg m : map_Forall (fun _ v => 0 <= v) m -> 0 <= gauge_sum m.
Proof.
  induction m as [|k v m Hk IH] using map_ind; [done|]. intros [Hv Hm]%map_Forall_insert; [|done].
  rewrite gauge_sum_new by done. specialize (IH Hm). lia.
Qed.

Lemma gauge_le m k : map_Forall (fun _ v => 0 <= v) m -> 0 <= default 0 (m !! k) <= gauge_sum m.
Proof.
  intros Hm. rewrite (gauge_sum_delete m k). pose proof (map_Forall_delete _ _ k Hm) as Hd.
  apply gauge_sum_nonneg in Hd. destruct (m !! k) as [v|] eqn:Hk; cbn; [|lia].
  specialize (Hm k v Hk). cbn in Hm. lia.
Qed.

(** The gauge of the peer is the sum, and fits its counter. *)
Definition stats_inv (s : BgpPeerStats) : Prop :=
  map_Forall (fun _ v => 0 <= v) (adj_rib_in_per_afi_safi s)
  /\ adj_rib_in_routes s = gauge_sum (adj_rib_in_per_afi_safi s)
  /\ adj_rib_in_routes s < 2 ^ 64.

Abbreviation family s k := (default 0 (adj_rib_in_per_afi_safi s !! k)).

Lemma default_insert (m : gmap AfiSafiKey Z) k j v :
  default 0 (<[k := v]> m !! j) = if decide (j = k) then v else default 0 (m !! j).
Proof.
  case_decide as H; [by rewrite H, lookup_insert_eq|]. by rewrite lookup_insert_ne.
Qed.

Lemma add_adj_spec k n s :
  stats_inv s -> 0 <= n -> adj_rib_in_routes s + n < 2 ^ 64 ->
  stats_inv (add_adj_rib_in k n s)
  /\ adj_rib_in_routes (add_adj_rib_in k n s) = adj_rib_in_routes s + n
  /\ forall j, family (add_adj_rib_in k n s) j = family s j + (if decide (j = k) then n else 0).
Proof.
  intros (Hp & Hs & Hb) Hn Hlt. pose proof (gauge_le _ k Hp) as Hk. unfold add_adj_rib_in.
  destruct (Z.eqb_spec n 0) as [->|Hn0].
  { split_and!; [done|lia|]. intros j. destruct (decide (j = k)); lia. }
  unfold wrap. rewrite !Z.mod_small by lia. split; [|split].
  - split_and!; cbn; [|rewrite gauge_sum_insert; lia|lia].
    apply map_Forall_insert_2; [cbn; lia|done].
  - done.
  - intros j. cbn. rewrite default_insert. destruct (decide (j = k)) as [->|]; lia.
Qed.

Lemma sub_adj_spec k n s :
  stats_inv s -> 0 <= n ->
  stats_inv (sub_adj_rib_in k n s)
  /\ adj_rib_in_routes (sub_adj_rib_in k n s) <= adj_rib_in_routes s
  /\ forall j, family (sub_adj_rib_in k n s) j
       = if decide (j = k) then saturating_sub (family s k) n else family s j.
Proof.
  intros (Hp & Hs & Hb) Hn. pose proof (gauge_le _ k Hp) as Hk. unfold sub_adj_rib_in, saturating_sub.
  destruct (Z.eqb_spec n 0) as [->|Hn0].
  { split_and!; [done|lia|]. intros j. destruct (decide (j = k)) as [->|]; lia. }
  split; [|split].
  - split_and!; cbn; [|rewrite gauge_sum_insert; lia|lia].
    apply map_Forall_insert_2; [cbn; lia|done].
  - cbn. lia.
  - intros j. cbn. rewrite default_insert. destruct (decide (j = k)) as [->|]; lia.
Qed.

(** ** One UPDATE message *)
Section Update.
Context `{E : Extern} `{R : !Routecore} `{L : Layout} `{HF : !HashIter AfiSafiKey Z}.
Implicit Types (rr : RotondaRoute) (s : BgpPeerStats).

Definition rotonda_route_afi_safi rr : AfiSafiKey :=
  match rr with
  | RR_Ipv4Unicast _ _ => (1, 1)
  | RR_Ipv6Unicast _ _ => (2, 1)
  | RR_Ipv4Multicast _ _ => (1, 2)
  | RR_Ipv6Multicast _ _ => (2, 2)
  end.

(** The routes of a message by address family ([adds], [subs]). *)
Definition bucket (rrs : list RotondaRoute) : gmap AfiSafiKey Z :=
  foldl (fun m rr => let k := rotonda_route_afi_safi rr in
                     <[k := wrap 64 (default 0 (m !! k) + 1)]> m) ∅ rrs.

Definition count_routes (reach unreach : list RotondaRoute) s : BgpPeerStats :=
  let s1 := foldl (fun s kv => add_adj_rib_in kv.1 kv.2 s) s (hm_iter (bucket reach)) in
  foldl (fun s kv => sub_adj_rib_in kv.1 kv.2 s) s1 (hm_iter (bucket unreach)).

(** [process_update]. *)
Definition process_update (now : Z) (u : Parsed) (id : IngressId)
    (stats : option BgpPeerStats) : (ParseErr + Update) * option BgpPeerStats :=
  match explode_announcements u with
  | inl e => (inl e, stats)
  | inr reach =>
      match explode_withdrawals u with
      | inl e => (inl e, stats)
      | inr unreach =>
          (inr (Bulk (((fun rr => with_received rr None now id Active) <$> reach)
                      ++ ((fun rr => with_received rr None now id Withdrawn) <$> unreach))),
           count_routes reach unreach <$> stats)
      end
  end.

Definition in_family (k : AfiSafiKey) (rrs : list RotondaRoute) : Z :=
  zlen (filter (fun rr => rotonda_route_afi_safi rr = k) rrs).

Lemma bucket_snoc rrs rr :
  bucket (rrs ++ [rr])
  = let k := rotonda_route_afi_safi rr in
    <[k := wrap 64 (default 0 (bucket rrs !! k) + 1)]> (bucket rrs).
Proof. unfold bucket. by rewrite foldl_app. Qed.

Lemma in_family_app k l l' : in_family k (l ++ l') = in_family k l + in_family k l'.
Proof. unfold in_family. by rewrite filter_app, zlen_app. Qed.

Lemma in_family_one k rr :
  in_family k [rr] = if decide (k = rotonda_route_afi_safi rr) then 1 else 0.
Proof. unfold in_family. rewrite filter_cons. repeat case_decide; by subst. Qed.

Lemma in_family_le k l : 0 <= in_family k l <= zlen l.
Proof.
  unfold in_family. split; [apply zlen_nonneg|]. unfold zlen.
  pose proof (length_filter (fun rr => rotonda_route_afi_safi rr = k) l). lia.
Qed.

Lemma bucket_spec rrs :
  zlen rrs < 2 ^ 64 ->
  (forall k, default 0 (bucket rrs !! k) = in_family k rrs)
  /\ map_Forall (fun _ v => 0 <= v) (bucket rrs) /\ gauge_sum (bucket rrs) = zlen rrs.
Proof.
  induction rrs as [|rr rrs IH] using rev_ind; [done|]. rewrite zlen_app, zlen_cons, zlen_nil.
  intros Hz. destruct IH as (Hk & Hp & Hs); [lia|]. rewrite bucket_snoc. cbn zeta.
  set (j := rotonda_route_afi_safi rr). pose proof (in_family_le j rrs) as Hj.
  unfold wrap. rewrite Hk, Z.mod_small by lia. split_and!.
  - intros k. rewrite default_insert, in_family_app, in_family_one, Hk. fold j.
    case_decide as E1; subst; lia.
  - apply map_Forall_insert_2; [lia|done].
  - rewrite gauge_sum_insert, Hk, Hs. lia.
Qed.

Lemma add_loop l s :
  NoDup l.*1 -> Forall (fun kv => 0 <= kv.2) l -> stats_inv s ->
  adj_rib_in_routes s + gauge_sum (list_to_map l) < 2 ^ 64 ->
  let s' := foldl (fun s kv => add_adj_rib_in kv.1 kv.2 s) s l in
  stats_inv s' /\ adj_rib_in_routes s' = adj_rib_in_routes s + gauge_sum (list_to_map l)
  /\ forall j, family s' j
       = family s j + default 0 ((list_to_map l : gmap AfiSafiKey Z) !! j).
Proof.
  revert s. induction l as [|[k n] l IH]; intros s Hnd Hp Hs Hb.
  { cbn [foldl list_to_map foldr]. rewrite gauge_sum_empty.
    split_and!; [done|lia|]. intros j. rewrite lookup_empty. cbn. lia. }
  cbn in Hnd. apply NoDup_cons in Hnd as [Hk Hnd]. apply Forall_cons in Hp as [Hn Hp]. cbn in Hn.
  pose proof (not_elem_of_list_to_map_1 (M := gmap AfiSafiKey) l k Hk) as Hnone.
  assert (Hpos : 0 <= gauge_sum (list_to_map l)).
  { apply gauge_sum_nonneg, map_Forall_to_list. rewrite map_to_list_to_map by done.
    eapply Forall_impl; [done|]. by intros [? ?]. }
  cbn [list_to_map foldr fst snd] in Hb |- *.
  change (foldr (fun p => <[p.1 := p.2]>) ∅ l) with (list_to_map l : gmap AfiSafiKey Z) in *.
  rewrite gauge_sum_new in Hb |- * by done. cbn [foldl fst snd].
  destruct (add_adj_spec k n s Hs Hn) as (Hs1 & Ha1 & Hf1); [lia|].
  destruct (IH _ Hnd Hp Hs1) as (Hs2 & Ha2 & Hf2); [lia|].
  split_and!; [done|lia|]. intros j. rewrite Hf2, Hf1, default_insert.
  destruct (decide (j = k)) as [->|]; [rewrite Hnone; cbn; lia|lia].
Qed.

Lemma sub_loop l s :
  NoDup l.*1 -> Forall (fun kv => 0 <= kv.2) l -> stats_inv s ->
  let s' := foldl (fun s kv => sub_adj_rib_in kv.1 kv.2 s) s l in
  stats_inv s' /\ adj_rib_in_routes s' <= adj_rib_in_routes s
  /\ forall j, family s' j
       = saturating_sub (family s j) (default 0 ((list_to_map l : gmap AfiSafiKey Z) !! j)).
Proof.
  revert s. induction l as [|[k n] l IH]; intros s Hnd Hp Hs.
  { cbn. split_and!; [done|lia|]. intros j. rewrite lookup_empty. unfold saturating_sub.
    destruct Hs as (Hpos & _). pose proof (gauge_le _ j Hpos). cbn. lia. }
  cbn in Hnd. apply NoDup_cons in Hnd as [Hk Hnd]. apply Forall_cons in Hp as [Hn Hp]. cbn in Hn.
  pose proof (not_elem_of_list_to_map_1 (M := gmap AfiSafiKey) l k Hk) as Hnone.
  cbn [list_to_map foldr fst snd foldl].
  change (foldr (fun p => <[p.1 := p.2]>) ∅ l) with (list_to_map l : gmap AfiSafiKey Z).
  destruct (sub_adj_spec k n s Hs Hn) as (Hs1 & Ha1 & Hf1).
  destruct (IH _ Hnd Hp Hs1) as (Hs2 & Ha2 & Hf2).
  split_and!; [done|lia|]. intros j. rewrite Hf2, Hf1, default_insert. unfold saturating_sub.
  destruct (decide (j = k)) as [->|]; [rewrite Hnone; cbn; lia|lia].
Qed.

Lemma hm_iter_family (m : gmap AfiSafiKey Z) :
  NoDup (hm_iter m).*1 /\ (list_to_map (hm_iter m) : gmap AfiSafiKey Z) = m.
Proof.
  assert (Hnd : NoDup (hm_iter m).*1) by (rewrite hm_iter_perm; apply NoDup_fst_map_to_list).
  split; [done|]. transitivity (list_to_map (map_to_list m) : gmap AfiSafiKey Z).
  - by apply list_to_map_proper; [|apply hm_iter_perm].
  - apply list_to_map_to_list.
Qed.

Lemma hm_iter_nonneg (m : gmap AfiSafiKey Z) :
  map_Forall (fun _ v => 0 <= v) m -> Forall (fun kv => 0 <= kv.2) (hm_iter m).
Proof.
  intros Hm. apply map_Forall_to_list in Hm. rewrite hm_iter_perm.
  eapply Forall_impl; [done|]. by intros [? ?].
Qed.

Lemma count_routes_spec reach unreach s :
  stats_inv s -> adj_rib_in_routes s + zlen reach < 2 ^ 64 -> zlen unreach < 2 ^ 64 ->
  let s' := count_routes reach unreach s in
  stats_inv s' /\ adj_rib_in_routes s' <= adj_rib_in_routes s + zlen reach
  /\ forall k, family s' k = saturating_sub (family s k + in_family k reach) (in_family k unreach).
Proof.
  intros Hs Hr Hu s'. pose proof Hs as (Hp & Hsum & _).
  pose proof (gauge_sum_nonneg _ Hp) as Hpos.
  destruct (bucket_spec reach) as (Kr & Pr & Sr); [lia|].
  destruct (bucket_spec unreach) as (Ku & Pu & Su); [lia|].
  destruct (hm_iter_family (bucket reach)) as [Nr Lr], (hm_iter_family (bucket unreach)) as [Nu Lu].
  destruct (add_loop (hm_iter (bucket reach)) s Nr (hm_iter_nonneg _ Pr) Hs) as (H1 & A1 & F1);
    [rewrite Lr, Sr; lia|].
  destruct (sub_loop (hm_iter (bucket unreach)) _ Nu (hm_iter_nonneg _ Pu) H1) as (H2 & A2 & F2).
  fold (count_routes reach unreach s) in H2, A2, F2.
  split_and!; [done|unfold s'; rewrite Lr, Sr in A1; unfold count_routes in *; lia|].
  intros k. unfold s'. rewrite F2, F1, Lr, Lu, Kr, Ku. done.
Qed.

(** The routes of the messages of a session, in the order they arrived. *)
Definition count_all (msgs : list (list RotondaRoute * list RotondaRoute)) s : BgpPeerStats :=
  foldl (fun s m => count_routes m.1 m.2 s) s msgs.

Definition announced (msgs : list (list RotondaRoute * list RotondaRoute)) : Z :=
  zsum ((fun m => zlen m.1) <$> msgs).

(** As long as fewer than 2^64 routes were announced since the gauges were reset: after
    any sequence of UPDATE messages the gauge of each address family is what the
    reference gives that adds a message's announcements and takes off its withdrawals,
    never below zero, and the gauge of the peer is the sum over its families; the order
    of the hash maps does not matter. *)
Theorem adj_rib_in_exact msgs s :
  announced msgs < 2 ^ 64 -> Forall (fun m => zlen m.2 < 2 ^ 64) msgs ->
  let s' := count_all msgs (reset_adj_rib_in s) in
  adj_rib_in_routes s' = gauge_sum (adj_rib_in_per_afi_safi s')
  /\ forall k, family s' k
       = foldl (fun g m => saturating_sub (g + in_family k m.1) (in_family k m.2)) 0 msgs.
Proof.
  intros Ha Hw.
  enough (forall st, stats_inv st -> adj_rib_in_routes st + announced msgs < 2 ^ 64 ->
    stats_inv (count_all msgs st)
    /\ forall k, family (count_all msgs st) k
         = foldl (fun g m => saturating_sub (g + in_family k m.1) (in_family k m.2))
             (family st k) msgs) as H.
  { destruct (H (reset_adj_rib_in s)) as [(_ & Hs & _) Hk]; [|by cbn|].
    - split_and!; [apply map_Forall_empty|done|done].
    - split; [done|]. intros k. rewrite Hk. cbn. by rewrite lookup_empty. }
  clear Ha. induction msgs as [|[r u] msgs IH]; intros st Hst Hb.
  { by split. }
  unfold announced in Hb. rewrite fmap_cons, zsum_cons in Hb. cbn [fst] in Hb.
  fold (announced msgs) in Hb. apply Forall_cons in Hw as [Hu Hw]. cbn [snd] in Hu.
  assert (0 <= announced msgs).
  { apply zsum_nonneg, Forall_fmap, Forall_true. intros m. apply zlen_nonneg. }
  destruct (count_routes_spec r u st Hst) as (H1 & A1 & F1); [lia|done|].
  destruct (IH Hw _ H1) as [H2 F2]; [cbn zeta in A1; lia|].
  split; [exact H2|]. intros k. cbn [count_all foldl fst snd]. fold (count_all msgs).
  rewrite <- F1. apply F2.
Qed.

(** ** The registry *)

(** [Arc<BgpPeerStats>]: the registry and the sessions share the counters by handle. *)
Record StatsRegistry : Type := mk_stats_registry {
  sr_inner : gmap IngressId Z;          (* handles *)
  sr_heap : gmap Z BgpPeerStats;
  sr_next : Z
}.

Definition stats_registry_new : StatsRegistry := mk_stats_registry ∅ ∅ 0.

Definition get_or_create (id : IngressId) (r : StatsRegistry) : Z * StatsRegistry :=
  match sr_inner r !! id with
  | Some h => (h, r)
  | None =>
      (sr_next r,
       mk_stats_registry (<[id := sr_next r]> (sr_inner r))
         (<[sr_next r := stats_new]> (sr_heap r)) (sr_next r + 1))
  end.

Definition stats_remove (id : IngressId) (r : StatsRegistry) : StatsRegistry :=
  mk_stats_registry (delete id (sr_inner r)) (sr_heap r) (sr_next r).

(** An operation on the counters behind a handle. *)
Definition with_stats (h : Z) (f : BgpPeerStats -> BgpPeerStats) (r : StatsRegistry)
    : StatsRegistry :=
  mk_stats_registry (sr_inner r) (alter f h (sr_heap r)) (sr_next r).

Context `{HI : !HashIter IngressId Z}.

Definition snapshot_all (r : StatsRegistry) : list (IngressId * Snapshot) :=
  (fun e => (e.1, snapshot (default stats_new (sr_heap r !! e.2)))) <$> hm_iter (sr_inner r).

(** One round of the emitter: a report for each peer that is registered, connected and
    a BGP session. *)
Definition emit_round (reg : Register) (r : StatsRegistry) : list Update :=
  omap (fun e : IngressId * Snapshot =>
          match get e.1 reg with
          | Some i =>
              if bool_decide (state i = Some Connected) && bool_decide (ingress_type i = Some Bgp)
              then Some (PeerStats e.1 (build_stats_body e.2)) else None
          | None => None
          end)
    (snapshot_all r).

End Update.
