(* ===== verification/BgpSessions.v ===== *)
(** * BGP sessions side by side ([Processor::process] of
    [src/units/bgp_tcp_in/router_handler.rs], [accept_config] of
    [src/units/bgp_tcp_in/unit.rs])

    Every connection is a task.  The tasks share the table of live sessions behind a
    mutex, the ingress register and the peer statistics, each behind a lock of its own,
    and a counter of session ids.  A step is one access to shared state or one update
    sent through the gate, so that the tasks are interleaved as finely as the locks
    allow; the mutex of the table, which the clean-up holds across accesses to the
    other two, is explicit ([w_lock]).

    What the BGP state machine of [routecore] reports is an event, as is what other
    units do to the register; a session is taken to be negotiated once. *)

From S2P Require Import Prelude Net Register Payload BmpMsg BgpConfig BgpStats.
From Stdlib Require Import ZArith Lia.
From stdpp Require Import base numbers list gmap fin_maps.

Local Open Scope Z_scope.

(** The remote address and AS number of a session. *)
Definition PeerKey : Type := IpAddr * Asn.

#[export] Instance IpAddr_countable : Countable IpAddr.
Proof.
  apply (inj_countable' (fun a => match a with V4 v => inl v | V6 v => inr v end)
           (fun s => match s with inl v => V4 v | inr v => V6 v end)). by intros [].
Defined.

Definition TaskId : Type := Z.

(** A value of [LiveSessions]; the abort handle and the two senders are the task's. *)
Record Live : Type := mk_live { lv_sid : Z; lv_task : TaskId; lv_ingress : IngressId }.

#[export] Instance Live_eq_dec : EqDecision Live.
Proof. solve_decision. Defined.

(** Where a task is: what it does next. *)
Inductive Pc : Type :=
| Idle                              (* in the select *)
(* [SessionNegotiated] *)
| Finding                           (* [find_existing_bgp_session] *)
| WithdrawingStale                  (* send [Withdraw] for the reused id *)
| TakingOver                        (* [ls.remove(&key)] *)
| Rejecting (old : Live)            (* [old_tx.send], [old_abort.abort()] *)
| WithdrawingOld (old : Live)
| UnregisteringOld (old : Live)     (* [ingresses.remove(old_ingress_id)] *)
| Inserting                         (* [live_sessions.insert] *)
| Registering                       (* [update_info] *)
| Counting                          (* [get_or_create], [reset_adj_rib_in] *)
(* after the loop *)
| Leaving (negotiated : option PeerKey)  (* lock, compare, [ls.remove] *)
| Marking                           (* [update_info] with [Disconnected]; unlock *)
| WithdrawingOwn
| Rechecking                        (* lock, [ls.values().any] *)
| Unregistering                     (* [ingresses.remove] *)
| DroppingStats                     (* [peer_stats.remove]; unlock *)
| Ended
| Killed.

#[export] Instance Pc_eq_dec : EqDecision Pc.
Proof. solve_decision. Defined.

(** The locals of [process]. *)
Record Task : Type := mk_task {
  tk_ingress : IngressId;                          (* [session_ingress_id] *)
  tk_sid : option Z;                               (* [my_session_id] *)
  tk_key : option PeerKey;                         (* what was negotiated *)
  tk_caps : list Z * list Z;
  tk_stats : option Z;                             (* [peer_stats_handle] *)
  tk_aborted : bool;
  tk_pc : Pc
}.

Definition at_pc (pc : Pc) (t : Task) : Task :=
  mk_task (tk_ingress t) (tk_sid t) (tk_key t) (tk_caps t) (tk_stats t) (tk_aborted t) pc.
Definition with_ingress (id : IngressId) (t : Task) : Task :=
  mk_task id (tk_sid t) (tk_key t) (tk_caps t) (tk_stats t) (tk_aborted t) (tk_pc t).
Definition with_handle (h : Z) (t : Task) : Task :=
  mk_task (tk_ingress t) (tk_sid t) (tk_key t) (tk_caps t) (Some h) (tk_aborted t) (tk_pc t).
Definition set_aborted (t : Task) : Task :=
  mk_task (tk_ingress t) (tk_sid t) (tk_key t) (tk_caps t) (tk_stats t) true (tk_pc t).

Section Sessions.
Context `{E : Extern} `{R : !Routecore} `{L : Layout}.
Context `{HI : !HashIter Z IngressInfo} `{HF : !HashIter AfiSafiKey Z}.

Record BgpWorld : Type := mk_bgp {
  w_live : gmap PeerKey Live;
  w_lock : option TaskId;
  w_reg : Register;
  w_stats : StatsRegistry;
  w_next_sid : Z;                       (* [SESSION_ID_COUNTER] *)
  w_tasks : gmap TaskId Task;
  w_mine : gset IngressId;              (* the ids handed to connections of this unit *)
  w_out : list Update                   (* what went through the gate *)
}.

Abbreviation World := BgpWorld.

Definition w_set_live l (w : World) : World := mk_bgp l (w_lock w) (w_reg w) (w_stats w)
  (w_next_sid w) (w_tasks w) (w_mine w) (w_out w).
Definition w_set_lock l (w : World) : World := mk_bgp (w_live w) l (w_reg w) (w_stats w)
  (w_next_sid w) (w_tasks w) (w_mine w) (w_out w).
Definition w_set_reg r (w : World) : World := mk_bgp (w_live w) (w_lock w) r (w_stats w)
  (w_next_sid w) (w_tasks w) (w_mine w) (w_out w).
Definition w_set_stats s (w : World) : World := mk_bgp (w_live w) (w_lock w) (w_reg w) s
  (w_next_sid w) (w_tasks w) (w_mine w) (w_out w).
Definition w_set_sid n (w : World) : World := mk_bgp (w_live w) (w_lock w) (w_reg w) (w_stats w)
  n (w_tasks w) (w_mine w) (w_out w).
Definition w_set_mine m (w : World) : World := mk_bgp (w_live w) (w_lock w) (w_reg w) (w_stats w)
  (w_next_sid w) (w_tasks w) m (w_out w).
Definition w_put (t : TaskId) (k : Task) (w : World) : World := mk_bgp (w_live w) (w_lock w)
  (w_reg w) (w_stats w) (w_next_sid w) (<[t := k]> (w_tasks w)) (w_mine w) (w_out w).
Definition w_alter (t : TaskId) (f : Task -> Task) (w : World) : World := mk_bgp (w_live w)
  (w_lock w) (w_reg w) (w_stats w) (w_next_sid w) (alter f t (w_tasks w)) (w_mine w) (w_out w).
(** [self.gate.update_data(u)]. *)
Definition w_send (u : Update) (w : World) : World := mk_bgp (w_live w) (w_lock w)
  (w_reg w) (w_stats w) (w_next_sid w) (w_tasks w) (w_mine w) (w_out w ++ [u]).

Definition bgp_new (reg : Register) : World :=
  mk_bgp ∅ None reg stats_registry_new 0 ∅ ∅ [].

(** ** What is asked of and told to the register *)

Definition bgp_query (k : PeerKey) : IngressInfo :=
  with_ingress_type Bgp (with_remote_asn k.2 (with_remote_addr k.1 info_default)).

Definition session_info (k : PeerKey) (caps : list Z * list Z) : IngressInfo :=
  with_remote_capabilities caps.2 (with_local_capabilities caps.1
    (with_peer_rib_type InPost (with_remote_asn k.2 (with_remote_addr k.1
      (with_state Connected (with_ingress_type Bgp info_default)))))).

Definition disconnected_info : IngressInfo := with_state Disconnected info_default.

(** ** A step of a task *)

(** The mutex is free. *)
Definition unlocked (w : World) : bool := bool_decide (w_lock w = None).

(** [SessionNegotiated], from finding an id to counting. *)
Definition negotiation_step (t : TaskId) (k : PeerKey) (tk : Task) (w : World) : option World :=
  match tk_pc tk with
  | Finding =>
      match find_existing_bgp_session (bgp_query k) (w_reg w) with
      | Some (existing_id, _) =>
          Some (w_put t (at_pc WithdrawingStale (with_ingress existing_id tk)) w)
      | None => Some (w_put t (at_pc TakingOver tk) w)
      end
  | WithdrawingStale =>
      Some (w_put t (at_pc TakingOver tk) (w_send (Withdraw (tk_ingress tk) None) w))
  | TakingOver =>
      if unlocked w then
        let next := match w_live w !! k with Some old => Rejecting old | None => Inserting end in
        Some (w_put t (at_pc next tk) (w_set_live (delete k (w_live w)) w))
      else None
  | Rejecting old =>
      let next := if bool_decide (lv_ingress old = tk_ingress tk) then Inserting
                  else WithdrawingOld old in
      Some (w_alter (lv_task old) set_aborted (w_put t (at_pc next tk) w))
  | WithdrawingOld old =>
      Some (w_put t (at_pc (UnregisteringOld old) tk) (w_send (Withdraw (lv_ingress old) None) w))
  | UnregisteringOld old =>
      Some (w_put t (at_pc Inserting tk) (w_set_reg (Register.remove (lv_ingress old) (w_reg w)).2 w))
  | Inserting =>
      if unlocked w then
        match tk_sid tk with
        | Some sid =>
            Some (w_put t (at_pc Registering tk)
                    (w_set_live (<[k := mk_live sid t (tk_ingress tk)]> (w_live w)) w))
        | None => None
        end
      else None
  | Registering =>
      Some (w_put t (at_pc Counting tk)
              (w_set_reg (update_info (tk_ingress tk) (session_info k (tk_caps tk)) (w_reg w)).2 w))
  | Counting =>
      let '(h, st) := get_or_create (tk_ingress tk) (w_stats w) in
      Some (w_put t (at_pc Idle (with_handle h tk))
              (w_set_stats (with_stats h reset_adj_rib_in st) w))
  | _ => None
  end.

(** The clean-up after the loop. *)
Definition leaving_step (t : TaskId) (tk : Task) (w : World) : option World :=
  match tk_pc tk with
  | Leaving negotiated =>
      match tk_sid tk, negotiated with
      | Some sid, Some key =>
          if unlocked w then
            if bool_decide (lv_sid <$> w_live w !! key = Some sid) then
              Some (w_put t (at_pc Marking tk)
                      (w_set_lock (Some t) (w_set_live (delete key (w_live w)) w)))
            else Some (w_put t (at_pc Ended tk) w)
          else None
      | _, _ => Some (w_put t (at_pc Ended tk) w)
      end
  | Marking =>
      Some (w_put t (at_pc WithdrawingOwn tk)
              (w_set_lock None
                 (w_set_reg (update_info (tk_ingress tk) disconnected_info (w_reg w)).2 w)))
  | WithdrawingOwn =>
      Some (w_put t (at_pc Rechecking tk) (w_send (Withdraw (tk_ingress tk) None) w))
  | Rechecking =>
      if unlocked w then
        if bool_decide (map_Exists (fun _ lv => lv_ingress lv = tk_ingress tk) (w_live w))
        then Some (w_put t (at_pc Ended tk) w)
        else Some (w_put t (at_pc Unregistering tk) (w_set_lock (Some t) w))
      else None
  | Unregistering =>
      Some (w_put t (at_pc DroppingStats tk) (w_set_reg (Register.remove (tk_ingress tk) (w_reg w)).2 w))
  | DroppingStats =>
      Some (w_put t (at_pc Ended tk)
              (w_set_lock None (w_set_stats (stats_remove (tk_ingress tk) (w_stats w)) w)))
  | _ => None
  end.

Definition task_step (t : TaskId) (tk : Task) (w : World) : option World :=
  match tk_pc tk with
  | Leaving _ | Marking | WithdrawingOwn | Rechecking | Unregistering | DroppingStats =>
      leaving_step t tk w
  | _ => match tk_key tk with Some k => negotiation_step t k tk w | None => None end
  end.

(** ** Messages of the session *)

(** An UPDATE: what the Roto filter wrote out, and whether it accepts the message. *)
Definition received (now : Z) (u : Parsed) (osms : list OutputStreamMessage) (accept : bool)
    (tk : Task) (w : World) : World :=
  let w := w_send (OutputStream osms) w in
  if accept then
    match process_update now u (tk_ingress tk) (h ← tk_stats tk; sr_heap (w_stats w) !! h) with
    | (inr upd, counted) =>
        let w := match tk_stats tk, counted with
                 | Some h, Some st => w_set_stats (with_stats h (fun _ => st) (w_stats w)) w
                 | _, _ => w
                 end in
        w_send upd w
    | (inl _, _) => w
    end
  else
    match tk_stats tk, explode_announcements u with
    | Some h, inr (_ :: _ as l) =>
        w_set_stats (with_stats h (inc_prefixes_rejected (zlen l)) (w_stats w)) w
    | _, _ => w
    end.

Inductive Event : Type :=
| Accept (t : TaskId)                               (* a connection is accepted *)
| Negotiated (t : TaskId) (k : PeerKey) (caps : list Z * list Z)
| Received (t : TaskId) (now : Z) (u : Parsed) (osms : list OutputStreamMessage) (accept : bool)
| Ends (t : TaskId) (negotiated : option PeerKey)   (* the loop is left *)
| Step (t : TaskId)
| Kill (t : TaskId)                                 (* an abort takes effect at an await *)
| Others (reg : Register).                          (* other units use the register *)

(** The points at which a task may be suspended. *)
Definition awaits (pc : Pc) : bool :=
  match pc with
  | Idle | WithdrawingStale | Rejecting _ | WithdrawingOld _ | WithdrawingOwn => true
  | _ => false
  end.

Definition event (e : Event) (w : World) : option World :=
  match e with
  | Accept t =>
      match w_tasks w !! t with
      | Some _ => None
      | None =>
          let '(id, reg) := register (w_reg w) in
          Some (w_put t (mk_task id None None ([], []) None false Idle)
                  (w_set_mine ({[id]} ∪ w_mine w) (w_set_reg reg w)))
      end
  | Negotiated t k caps =>
      match w_tasks w !! t with
      | Some tk =>
          if bool_decide (tk_pc tk = Idle) && bool_decide (tk_sid tk = None) then
            Some (w_put t (mk_task (tk_ingress tk) (Some (w_next_sid w)) (Some k) caps
                             (tk_stats tk) (tk_aborted tk) Finding)
                    (w_set_sid (wrap 64 (w_next_sid w + 1)) w))
          else None
      | None => None
      end
  | Received t now u osms accept =>
      match w_tasks w !! t with
      | Some tk => if bool_decide (tk_pc tk = Idle) && bool_decide (tk_sid tk <> None)
                   then Some (received now u osms accept tk w) else None
      | None => None
      end
  | Ends t negotiated =>
      match w_tasks w !! t with
      | Some tk => if bool_decide (tk_pc tk = Idle)
                   then Some (w_put t (at_pc (Leaving negotiated) tk) w) else None
      | None => None
      end
  | Step t => tk ← w_tasks w !! t; task_step t tk w
  | Kill t =>
      match w_tasks w !! t with
      | Some tk => if tk_aborted tk && awaits (tk_pc tk)
                   then Some (w_put t (at_pc Killed tk) w) else None
      | None => None
      end
  | Others reg => Some (w_set_reg reg w)
  end.

Definition has_key (k : PeerKey) (i : IngressInfo) : Prop :=
  remote_addr i = Some k.1 /\ remote_asn i = Some k.2.

(** The peers of this unit: other bgp-tcp-in units have other peers. *)
Context (peers : PeerKey -> Prop).

(** What other units do to the register. They hand out ids, and may do what they like with
    the entries of theirs, also keep BGP sessions with other peers there.  The RIB marks
    any id as connected, which makes an entry where there is none, and takes an entry out
    that is not connected. *)
Definition others_ok (w : World) (reg : Register) : Prop :=
  serial (w_reg w) <= serial reg
  /\ (forall id, id ∈ w_mine w ->
        info reg !! id = info (w_reg w) !! id
        \/ info reg !! id = info (update_info id (with_state Connected info_default) (w_reg w)).2 !! id
        \/ (info reg !! id = None
            /\ forall i, info (w_reg w) !! id = Some i -> state i <> Some Connected))
  /\ (forall id i, id ∉ w_mine w -> info reg !! id = Some i ->
        id < serial reg /\ (ingress_type i = Some Bgp -> forall k, peers k -> ~ has_key k i)).

(** The ids and the session ids are not exhausted, the peers are this unit's, and other
    units keep to theirs. *)
Definition event_ok (e : Event) (w : World) : Prop :=
  match e with
  | Accept _ => serial (w_reg w) < u32_max
  | Negotiated _ k _ => w_next_sid w < usize_max /\ peers k
  | Others reg => others_ok w reg
  | _ => True
  end.

Inductive reachable_bgp : World -> Prop :=
| rb_new reg :
    0 <= serial reg ->
    (forall id i, info reg !! id = Some i ->
       id < serial reg /\ (ingress_type i = Some Bgp -> forall k, peers k -> ~ has_key k i)) ->
    reachable_bgp (bgp_new reg)
| rb_event e w w' :
    reachable_bgp w -> event_ok e w -> event e w = Some w' -> reachable_bgp w'.

(** Several events in a row. *)
Fixpoint events (es : list Event) (w : World) : option World :=
  match es with
  | [] => Some w
  | e :: es' => match event e w with Some w1 => events es' w1 | None => None end
  end.

End Sessions.
