(* ===== verification/BgpSessionsProps.v ===== *)
(** * The invariant and the properties of the BGP sessions

    An ingress id belongs to one peer for good: [owner] says to which.  From that: two
    live sessions never share an id, and the clean-up of one session never takes away
    the registration or the statistics of another. *)

From S2P Require Import Prelude Net Register Payload BmpMsg BgpConfig BgpStats BgpSessions.
From Stdlib Require Import ZArith Lia.
From stdpp Require Import base numbers list gmap fin_maps.

Local Open Scope Z_scope.

Section Inv.
Context `{E : Extern} `{R : !Routecore} `{L : Layout}.
Context `{HI : !HashIter Z IngressInfo} `{HF : !HashIter AfiSafiKey Z}.
Context (peers : PeerKey -> Prop).
Implicit Types (w : BgpWorld) (t : TaskId) (tk : Task) (k : PeerKey) (lv : Live).

(** ** Places *)

(** The id of the task is final, and this is its peer. *)
Definition settled tk : option PeerKey :=
  match tk_pc tk with Finding => None | _ => tk_key tk end.

(** The task can be in the table. *)
Definition listed (pc : Pc) : bool :=
  match pc with
  | Finding | WithdrawingStale | TakingOver | Rejecting _ | WithdrawingOld _ | UnregisteringOld _
  | Inserting => false
  | _ => true
  end.

(** Its registration is done. *)
Definition registered_pc (pc : Pc) : bool :=
  listed pc && match pc with Registering => false | _ => true end.

(** Its statistics are set up. *)
Definition counted_pc (pc : Pc) : bool :=
  registered_pc pc && match pc with Counting => false | _ => true end.

Definition holds (pc : Pc) : bool :=
  match pc with Marking | Unregistering | DroppingStats => true | _ => false end.

Definition old_of (pc : Pc) : option Live :=
  match pc with
  | Rejecting old | WithdrawingOld old | UnregisteringOld old => Some old
  | _ => None
  end.

(** ** What entries say *)

(** The id is registered as a connected session with the peer. *)
Definition registered k (id : IngressId) (reg : Register) : Prop :=
  exists i, info reg !! id = Some i
    /\ has_key k i /\ ingress_type i = Some Bgp /\ state i = Some Connected.

(** A session with the peer is about to enter the table. *)
Definition replacing k (tasks : gmap TaskId Task) : Prop :=
  exists t tk, tasks !! t = Some tk /\ tk_pc tk = Inserting /\ tk_key tk = Some k.

(** ** The invariant *)

Record task_ok (owner : gmap IngressId PeerKey) w t tk : Prop := {
  to_mine : tk_ingress tk ∈ w_mine w;
  to_owner : owner !! tk_ingress tk = settled tk;
  to_sid : forall s, tk_sid tk = Some s -> s < w_next_sid w;
  to_key : tk_sid tk = None <-> tk_key tk = None;
  to_peer : forall k, tk_key tk = Some k -> peers k;
  to_old : forall old, old_of (tk_pc tk) = Some old ->
    is_Some (tk_key tk) /\ owner !! lv_ingress old = tk_key tk;
  to_lock : holds (tk_pc tk) = true -> w_lock w = Some t;
  to_marking : tk_pc tk = Marking -> exists k, tk_key tk = Some k /\ w_live w !! k = None;
  to_freeing : tk_pc tk = Unregistering \/ tk_pc tk = DroppingStats ->
    forall k lv, w_live w !! k = Some lv -> lv_ingress lv <> tk_ingress tk
}.

Record entry_ok w k lv tk : Prop := {
  eo_sid : tk_sid tk = Some (lv_sid lv);
  eo_key : tk_key tk = Some k;
  eo_ingress : tk_ingress tk = lv_ingress lv;
  eo_listed : listed (tk_pc tk) = true;
  eo_registered : registered_pc (tk_pc tk) = true ->
    registered k (lv_ingress lv) (w_reg w) \/ replacing k (w_tasks w);
  eo_counted : counted_pc (tk_pc tk) = true ->
    exists h, tk_stats tk = Some h /\ sr_inner (w_stats w) !! lv_ingress lv = Some h
}.

Record reg_ok (owner : gmap IngressId PeerKey) (mine : gset IngressId) (reg : Register) : Prop := {
  ro_serial : 0 <= serial reg;
  ro_owner : forall id, is_Some (owner !! id) -> id ∈ mine;
  ro_mine : forall id, id ∈ mine -> id < serial reg;
  ro_stored : forall id i, info reg !! id = Some i -> id < serial reg;
  ro_entry : forall id i, id ∈ mine -> info reg !! id = Some i -> ingress_type i = Some Bgp ->
    exists k, owner !! id = Some k /\ has_key k i;
  ro_other : forall id i, id ∉ mine -> info reg !! id = Some i -> ingress_type i = Some Bgp ->
    forall k, peers k -> ~ has_key k i
}.

Record BgpInv (owner : gmap IngressId PeerKey) w : Prop := {
  bi_reg : reg_ok owner (w_mine w) (w_reg w);
  bi_tasks : forall t tk, w_tasks w !! t = Some tk -> task_ok owner w t tk;
  bi_fresh : forall t u tk tk', w_tasks w !! t = Some tk -> w_tasks w !! u = Some tk' ->
    settled tk = None -> settled tk' = None -> tk_ingress tk = tk_ingress tk' -> t = u;
  bi_sids : forall t u tk tk' s, w_tasks w !! t = Some tk -> w_tasks w !! u = Some tk' ->
    tk_sid tk = Some s -> tk_sid tk' = Some s -> t = u;
  bi_live : forall k lv, w_live w !! k = Some lv ->
    exists tk, w_tasks w !! lv_task lv = Some tk /\ entry_ok w k lv tk;
  bi_lock : forall t, w_lock w = Some t ->
    exists tk, w_tasks w !! t = Some tk /\ holds (tk_pc tk) = true;
  bi_next : 0 <= w_next_sid w
}.

(** ** Consequences *)

Lemma live_owner owner w k lv :
  BgpInv owner w -> w_live w !! k = Some lv -> owner !! lv_ingress lv = Some k.
Proof.
  intros Hi Hl. destruct (bi_live _ _ Hi _ _ Hl) as (tk & Ht & []).
  pose proof (to_owner _ _ _ _ (bi_tasks _ _ Hi _ _ Ht)) as Ho.
  rewrite eo_ingress0 in Ho. rewrite Ho. unfold settled. by destruct (tk_pc tk).
Qed.

(** No two entries have one id. *)
Lemma live_apart owner w k k' lv lv' :
  BgpInv owner w -> w_live w !! k = Some lv -> w_live w !! k' = Some lv' ->
  lv_ingress lv = lv_ingress lv' -> k = k'.
Proof.
  intros Hi H1 H2 He. apply (live_owner owner w) in H1, H2; [|done..]. rewrite He in H1. congruence.
Qed.

(** With the mutex free nobody is between its critical accesses. *)
Lemma unlocked_free owner w t tk :
  BgpInv owner w -> unlocked w = true -> w_tasks w !! t = Some tk -> holds (tk_pc tk) = false.
Proof.
  intros Hi Hu Ht. apply bool_decide_eq_true in Hu.
  destruct (holds (tk_pc tk)) eqn:Hh; [|done].
  pose proof (to_lock _ _ _ _ (bi_tasks _ _ Hi _ _ Ht) Hh). congruence.
Qed.

(** ** Frames *)

(** A task goes on, and may take or release the mutex. *)
Record moves (owner : gmap IngressId PeerKey) w t (l : option TaskId) tk tk' : Prop := {
  q_ingress : tk_ingress tk' = tk_ingress tk;
  q_sid : tk_sid tk' = tk_sid tk;
  q_key : tk_key tk' = tk_key tk;
  q_settled : settled tk' = settled tk;
  q_listed : listed (tk_pc tk) = true -> listed (tk_pc tk') = true;
  q_registered : listed (tk_pc tk) = true -> registered_pc (tk_pc tk') = true ->
    registered_pc (tk_pc tk) = true
    \/ forall k, tk_key tk = Some k -> registered k (tk_ingress tk) (w_reg w);
  q_counted : listed (tk_pc tk) = true -> counted_pc (tk_pc tk') = true ->
    (counted_pc (tk_pc tk) = true /\ tk_stats tk' = tk_stats tk)
    \/ exists h, tk_stats tk' = Some h /\ sr_inner (w_stats w) !! tk_ingress tk = Some h;
  q_inserting : tk_pc tk <> Inserting \/ forall k, tk_key tk = Some k -> w_live w !! k = None;
  q_old : forall old, old_of (tk_pc tk') = Some old ->
    is_Some (tk_key tk) /\ owner !! lv_ingress old = tk_key tk;
  q_lock : (l = w_lock w /\ holds (tk_pc tk') = holds (tk_pc tk))
    \/ (w_lock w = None /\ l = Some t /\ holds (tk_pc tk') = true)
    \/ (w_lock w = Some t /\ l = None /\ holds (tk_pc tk') = false);
  q_marking : tk_pc tk' = Marking -> exists k, tk_key tk = Some k /\ w_live w !! k = None;
  q_freeing : tk_pc tk' = Unregistering \/ tk_pc tk' = DroppingStats ->
    forall k lv, w_live w !! k = Some lv -> lv_ingress lv <> tk_ingress tk
}.

Lemma move_inv owner w t l tk tk' :
  BgpInv owner w -> w_tasks w !! t = Some tk -> moves owner w t l tk tk' ->
  BgpInv owner (w_put t tk' (w_set_lock l w)).
Proof.
  intros Hi Ht []. pose proof (bi_tasks _ _ Hi _ _ Ht) as [].
  assert (Hrep : forall k lv, w_live w !! k = Some lv -> replacing k (w_tasks w) ->
            replacing k (<[t := tk']> (w_tasks w))).
  { intros k lv Hl (u & x & Hu & Hpc & Hk). exists u, x. split; [|done].
    rewrite lookup_insert_ne; [done|]. intros <-. assert (x = tk) as -> by congruence.
    destruct q_inserting0 as [?|Hno]; [done|]. rewrite (Hno k Hk) in Hl. done. }
  split; cbn; [apply Hi| | | | | |apply Hi].
  - intros u x [[<- <-]|[Hne Hu]]%lookup_insert_Some.
    + split; cbn; rewrite ?q_ingress0, ?q_settled0, ?q_sid0, ?q_key0; try done.
      intros Hh. destruct q_lock0 as [[-> E1]|[(_ & -> & _)|(_ & _ & E1)]]; [|done|congruence].
      apply to_lock0. congruence.
    + destruct (bi_tasks _ _ Hi _ _ Hu). split; cbn; try done. intros Hh. specialize (to_lock1 Hh).
      destruct q_lock0 as [[-> _]|[(? & _)|(? & _)]]; congruence.
  - intros a b x y [[<- <-]|[? Ha]]%lookup_insert_Some [[<- <-]|[? Hb]]%lookup_insert_Some;
      rewrite ?q_settled0, ?q_ingress0; [done|..]; intros; by eapply (bi_fresh _ _ Hi).
  - intros a b x y s [[<- <-]|[? Ha]]%lookup_insert_Some [[<- <-]|[? Hb]]%lookup_insert_Some;
      rewrite ?q_sid0; [done|..]; intros; by eapply (bi_sids _ _ Hi).
  - intros k lv Hl. destruct (bi_live _ _ Hi _ _ Hl) as (x & Hx & []).
    destruct (decide (lv_task lv = t)) as [<-|Hne].
    + assert (x = tk) as -> by congruence. exists tk'. rewrite lookup_insert_eq. split; [done|].
      split; cbn; rewrite ?q_ingress0, ?q_sid0, ?q_key0; auto.
      * intros Hr. destruct (q_registered0 eo_listed0 Hr) as [Hr'|Hr'].
        -- destruct (eo_registered0 Hr') as [?|?]; [by left|right]. by eapply Hrep.
        -- left. rewrite <- eo_ingress0. by apply Hr'.
      * intros Hc. destruct (q_counted0 eo_listed0 Hc) as [[Hc' ->]|(h & -> & Hh)]; [auto|].
        exists h. by rewrite <- eo_ingress0.
    + exists x. rewrite lookup_insert_ne by done. split; [done|]. split; cbn; auto.
      intros Hr. destruct (eo_registered0 Hr) as [?|?]; [by left|right]. by eapply Hrep.
  - intros u Hu. destruct q_lock0 as [[-> Eh]|[(_ & -> & Eh)|(_ & -> & _)]]; [| |done].
    + destruct (bi_lock _ _ Hi u Hu) as (x & Hx & Hh).
      destruct (decide (u = t)) as [->|Hne].
      * exists tk'. rewrite lookup_insert_eq. split; [done|]. congruence.
      * exists x. by rewrite lookup_insert_ne.
    + injection Hu as <-. exists tk'. by rewrite lookup_insert_eq.
Qed.

Lemma set_lock_id w : w_set_lock (w_lock w) w = w.
Proof. by destruct w. Qed.

(** The mutex stays as it is. *)
Lemma put_inv_bgp owner w t tk tk' :
  BgpInv owner w -> w_tasks w !! t = Some tk -> moves owner w t (w_lock w) tk tk' ->
  BgpInv owner (w_put t tk' w).
Proof.
  intros Hi Ht Hm. pose proof (move_inv _ _ _ _ _ _ Hi Ht Hm) as H. by rewrite set_lock_id in H.
Qed.

Lemma send_inv owner w u : BgpInv owner w -> BgpInv owner (w_send u w).
Proof.
  intros []. split; try done.
  - intros t tk Ht. destruct (bi_tasks0 t tk Ht). by split.
  - intros k lv Hl. destruct (bi_live0 k lv Hl) as (tk & Ht & []). exists tk. split; [done|]. by split.
Qed.

(** Entries of the statistics are only added. *)
Lemma stats_inv_grows owner w st :
  BgpInv owner w ->
  (forall id h, sr_inner (w_stats w) !! id = Some h -> sr_inner st !! id = Some h) ->
  BgpInv owner (w_set_stats st w).
Proof.
  intros [] He. split; try done.
  - intros t tk Ht. destruct (bi_tasks0 t tk Ht). by split.
  - intros k lv Hl. destruct (bi_live0 k lv Hl) as (tk & Ht & []). exists tk. split; [done|].
    split; cbn; auto. intros Hc. destruct (eo_counted0 Hc) as (h & ? & ?). exists h. auto.
Qed.

Lemma get_or_create_spec id st h st' :
  get_or_create id st = (h, st') ->
  sr_inner st' !! id = Some h
  /\ forall j g, sr_inner st !! j = Some g -> sr_inner st' !! j = Some g.
Proof.
  unfold get_or_create. destruct (sr_inner st !! id) as [g|] eqn:Hg; intros [= <- <-]; [done|].
  cbn. rewrite lookup_insert_eq. split; [done|]. intros j g Hj.
  rewrite lookup_insert_ne; [done|]. intros <-. congruence.
Qed.

Lemma abort_inv owner w t : BgpInv owner w -> BgpInv owner (w_alter t set_aborted w).
Proof.
  intros Hi.
  assert (Hback : forall u x, alter set_aborted t (w_tasks w) !! u = Some x ->
            exists y, w_tasks w !! u = Some y /\ tk_ingress x = tk_ingress y /\ tk_sid x = tk_sid y
              /\ tk_key x = tk_key y /\ tk_pc x = tk_pc y /\ tk_stats x = tk_stats y).
  { intros u x [(<- & y & Hy & ->)|[_ Hx]]%lookup_alter_Some; [by exists y|by exists x]. }
  assert (Hforth : forall u y, w_tasks w !! u = Some y ->
            exists x, alter set_aborted t (w_tasks w) !! u = Some x /\ tk_ingress x = tk_ingress y
              /\ tk_sid x = tk_sid y /\ tk_key x = tk_key y /\ tk_pc x = tk_pc y
              /\ tk_stats x = tk_stats y).
  { intros u y Hy. destruct (decide (u = t)) as [->|Hne].
    - exists (set_aborted y). by rewrite lookup_alter_eq, Hy.
    - exists y. by rewrite lookup_alter_ne. }
  split; cbn; [apply Hi| | | | | |apply Hi].
  - intros u x (y & Hy & E1 & E2 & E3 & E4 & E5)%Hback. destruct (bi_tasks _ _ Hi _ _ Hy).
    split; unfold settled in *; cbn; rewrite ?E1, ?E2, ?E3, ?E4; done.
  - intros a b x y (x' & Hx & E1 & _ & E3 & E4 & _)%Hback (y' & Hy & F1 & _ & F3 & F4 & _)%Hback.
    unfold settled. rewrite E1, E3, E4, F1, F3, F4. by apply (bi_fresh _ _ Hi).
  - intros a b x y s (x' & Hx & _ & E2 & _)%Hback (y' & Hy & _ & F2 & _)%Hback.
    rewrite E2, F2. by apply (bi_sids _ _ Hi).
  - intros k lv Hl. destruct (bi_live _ _ Hi _ _ Hl) as (y & Hy & []).
    destruct (Hforth _ _ Hy) as (x & Hx & E1 & E2 & E3 & E4 & E5). exists x. split; [done|].
    split; cbn; rewrite ?E1, ?E2, ?E3, ?E4, ?E5; auto.
    intros Hr. destruct (eo_registered0 Hr) as [?|(u & z & Hz & Hpc & Hk)]; [by left|right].
    destruct (Hforth _ _ Hz) as (z' & Hz' & _ & _ & F3 & F4 & _). exists u, z'.
    by rewrite F3, F4.
  - intros u Hl. destruct (bi_lock _ _ Hi u Hl) as (y & Hy & Hh).
    destruct (Hforth _ _ Hy) as (x & Hx & _ & _ & _ & E4 & _). exists x. by rewrite E4.
Qed.

(** ** The table *)

Lemma del_live_inv owner w k : BgpInv owner w -> BgpInv owner (w_set_live (delete k (w_live w)) w).
Proof.
  intros []. split; cbn; try done.
  - intros t tk Ht. destruct (bi_tasks0 t tk Ht). split; cbn; try done.
    + intros Hm. destruct (to_marking0 Hm) as (j & Hj & Hn). exists j. split; [done|].
      by rewrite lookup_delete_None; right.
    + intros Hf j lv [_ Hl]%lookup_delete_Some. by eapply to_freeing0.
  - intros j lv [_ Hl]%lookup_delete_Some. destruct (bi_live0 j lv Hl) as (tk & Ht & []).
    exists tk. by split.
Qed.

Lemma ins_live_inv owner w k t tk sid :
  BgpInv owner w -> unlocked w = true -> w_tasks w !! t = Some tk ->
  tk_key tk = Some k -> tk_sid tk = Some sid -> tk_pc tk = Registering ->
  BgpInv owner (w_set_live (<[k := mk_live sid t (tk_ingress tk)]> (w_live w)) w).
Proof.
  intros Hi Hu Ht Hk Hs Hpc. split; cbn; try apply Hi.
  - intros u x Hx. pose proof (unlocked_free _ _ _ _ Hi Hu Hx) as Hh.
    destruct (bi_tasks _ _ Hi _ _ Hx). split; cbn; try done.
    + intros E1. by rewrite E1 in Hh.
    + intros [E1|E1]; by rewrite E1 in Hh.
  - intros j lv [[<- <-]|[_ Hl]]%lookup_insert_Some.
    + exists tk. split; [done|]. split; cbn; rewrite ?Hpc; done.
    + destruct (bi_live _ _ Hi _ _ Hl) as (x & Hx & []). exists x. by split.
Qed.

(** ** The register *)

Lemma set_reg_inv owner w reg :
  BgpInv owner w -> reg_ok owner (w_mine w) reg ->
  (forall k lv, w_live w !! k = Some lv -> registered k (lv_ingress lv) (w_reg w) ->
     registered k (lv_ingress lv) reg \/ replacing k (w_tasks w)) ->
  BgpInv owner (w_set_reg reg w).
Proof.
  intros [] Hr Hreg. split; cbn; try done.
  - intros t tk Ht. destruct (bi_tasks0 t tk Ht). by split.
  - intros k lv Hl. destruct (bi_live0 k lv Hl) as (tk & Ht & []). exists tk. split; [done|].
    split; cbn; auto. intros Hp. destruct (eo_registered0 Hp) as [?|?]; [by apply Hreg|by right].
Qed.

Lemma remove_ok owner mine id reg :
  reg_ok owner mine reg -> reg_ok owner mine (Register.remove id reg).2.
Proof.
  intros []. split; cbn; try done.
  - intros j i [_ Hj]%lookup_delete_Some. by eapply ro_stored0.
  - intros j i Hm [_ Hj]%lookup_delete_Some. by eapply ro_entry0.
  - intros j i Hm [_ Hj]%lookup_delete_Some. by eapply ro_other0.
Qed.

(** The entry after [update_info]. *)
Lemma update_info_lookup id new reg j :
  info (update_info id new reg).2 !! j
  = if decide (j = id)
    then Some (match info reg !! id with Some old => merge_info old new | None => new end)
    else info reg !! j.
Proof.
  unfold update_info. destruct (info reg !! id) as [old|] eqn:Ho; cbn; case_decide as Hj;
    rewrite ?Hj, ?lookup_insert_eq; try done; rewrite !lookup_insert_ne by done; [|done].
  by rewrite lookup_delete_ne.
Qed.

Lemma update_info_serial id new reg : serial (update_info id new reg).2 = serial reg.
Proof. unfold update_info. by destruct (info reg !! id). Qed.

Lemma update_info_ok owner mine id k new reg :
  reg_ok owner mine reg -> owner !! id = Some k ->
  (forall old, (ingress_type old = Some Bgp -> has_key k old) ->
     ingress_type (merge_info old new) = Some Bgp -> has_key k (merge_info old new)) ->
  (ingress_type new = Some Bgp -> has_key k new) ->
  reg_ok owner mine (update_info id new reg).2.
Proof.
  intros [] Ho Hmerge Hnew. assert (Hid : id ∈ mine) by (apply ro_owner0; by eexists).
  split; rewrite ?update_info_serial; try done.
  - intros j i. rewrite update_info_lookup. case_decide; [subst; auto|apply ro_stored0].
  - intros j i Hj. rewrite update_info_lookup. case_decide as Hd; [|by apply ro_entry0].
    subst j. intros [= <-] Hty. exists k. split; [done|].
    destruct (info reg !! id) as [old|] eqn:Hold; [|by apply Hnew]. apply Hmerge; [|done].
    intros Hb. destruct (ro_entry0 id old Hid Hold Hb) as (k' & Hk' & Hkey). congruence.
  - intros j i Hj. rewrite update_info_lookup. case_decide as Hd; [by subst|by apply ro_other0].
Qed.

(** ** Negotiation *)

Ltac solve_moves Hpc :=
  split; unfold settled; cbn; rewrite ?Hpc; cbn; try done; try naive_solver.

(** A task gets its final id: a registered one of its peer, or its own. *)
Lemma settle_inv owner owner' w t tk tk' k :
  BgpInv owner w -> w_tasks w !! t = Some tk -> tk_pc tk = Finding ->
  tk_key tk = Some k -> tk_key tk' = Some k -> tk_sid tk' = tk_sid tk ->
  tk_pc tk' = WithdrawingStale \/ tk_pc tk' = TakingOver ->
  (forall id k', owner !! id = Some k' -> owner' !! id = Some k') ->
  (forall id, owner !! id = None -> id <> tk_ingress tk -> owner' !! id = None) ->
  owner' !! tk_ingress tk' = Some k -> tk_ingress tk' ∈ w_mine w ->
  (forall id, is_Some (owner' !! id) -> id ∈ w_mine w) ->
  BgpInv owner' (w_put t tk' w).
Proof.
  intros Hi Ht Hpc Hk Hk' Hs Hpc' Hext Hnone Ho' Hm' Hmine.
  pose proof (bi_tasks _ _ Hi _ _ Ht) as Hok.
  assert (Hset : settled tk' = Some k)
    by (unfold settled; destruct Hpc' as [-> | ->]; done).
  assert (Hnl : forall j lv, w_live w !! j = Some lv -> lv_task lv <> t).
  { intros j lv Hl He. subst t. destruct (bi_live _ _ Hi _ _ Hl) as (x & Hx & []).
    assert (x = tk) as -> by congruence. by rewrite Hpc in eo_listed0. }
  split; cbn; [| | | | | |apply Hi].
  - destruct (bi_reg _ _ Hi). split; try done. intros id i Hm Hi' Hty.
    destruct (ro_entry0 id i Hm Hi' Hty) as (j & Hj & ?). exists j. auto.
  - intros u x [[<- <-]|[Hne Hu]]%lookup_insert_Some.
    + destruct Hok. split; cbn; rewrite ?Hk', ?Hs, ?Hset; try done.
      * by rewrite <- Hk.
      * intros j Hj. apply to_peer0. congruence.
      * intros old. destruct Hpc' as [-> | ->]; done.
      * destruct Hpc' as [-> | ->]; done.
      * destruct Hpc' as [-> | ->]; done.
      * destruct Hpc' as [-> | ->]; naive_solver.
    + pose proof (bi_tasks _ _ Hi _ _ Hu) as []. split; cbn; try done.
      * destruct (settled x) as [j|] eqn:Hx; [by apply Hext|].
        apply Hnone; [done|]. intros He. apply Hne. symmetry. symmetry in He.
        eapply (bi_fresh _ _ Hi u t x tk); try done. unfold settled. by rewrite Hpc.
      * intros old Hold. destruct (to_old0 old Hold) as [[j Hj] Ho]. rewrite Hj in Ho |- *.
        split; [done|]. by apply Hext.
  - intros a b x y [[<- <-]|[? Ha]]%lookup_insert_Some [[<- <-]|[? Hb]]%lookup_insert_Some;
      rewrite ?Hset; try done; intros; by eapply (bi_fresh _ _ Hi).
  - intros a b x y s [[<- <-]|[? Ha]]%lookup_insert_Some [[<- <-]|[? Hb]]%lookup_insert_Some;
      rewrite ?Hs; [done|..]; intros; by eapply (bi_sids _ _ Hi).
  - intros j lv Hl. destruct (bi_live _ _ Hi _ _ Hl) as (x & Hx & []). exists x.
    rewrite lookup_insert_ne by (symmetry; by eapply Hnl). split; [done|]. split; cbn; auto.
    intros Hr. destruct (eo_registered0 Hr) as [?|(u & z & Hz & Hzpc & Hzk)]; [by left|right].
    exists u, z. rewrite lookup_insert_ne; [done|]. intros <-. congruence.
  - intros u Hu. destruct (bi_lock _ _ Hi u Hu) as (x & Hx & Hh). exists x.
    rewrite lookup_insert_ne; [done|]. intros <-. assert (x = tk) as -> by congruence.
    by rewrite Hpc in Hh.
Qed.

(** An entry that matches the query is this unit's, and its owner is the peer. *)
Lemma find_existing_owner owner w k id i :
  BgpInv owner w -> peers k -> find_existing_bgp_session (bgp_query k) (w_reg w) = Some (id, i) ->
  id ∈ w_mine w /\ owner !! id = Some k.
Proof.
  intros Hi Hpeer Hf. apply find_entry_Some in Hf as [Hin Hm].
  rewrite hm_iter_perm in Hin. apply elem_of_map_to_list in Hin.
  destruct (bi_reg _ _ Hi). unfold bgp_session_matches, mandatory in Hm.
  apply andb_prop in Hm as [Hm Ht]. apply andb_prop in Hm as [Ha Hn].
  destruct (remote_addr i) as [a|] eqn:Ea; [|done]. destruct (remote_asn i) as [n|] eqn:En; [|done].
  destruct (ingress_type i) as [ty|] eqn:Et; [|done].
  apply bool_decide_eq_true in Ha, Hn, Ht. cbn in Ha, Hn, Ht.
  destruct (decide (id ∈ w_mine w)) as [Hmine|Hno].
  - split; [done|]. destruct (ro_entry0 id i Hmine Hin) as (j & Hj & H1 & H2); [congruence|].
    rewrite Hj. f_equal. destruct j, k; cbn in *; congruence.
  - destruct (ro_other0 id i Hno Hin ltac:(congruence) k Hpeer). split; congruence.
Qed.

Lemma registered_other id j k reg reg' :
  (forall n, n <> id -> info reg' !! n = info reg !! n) -> j <> id ->
  registered k j reg -> registered k j reg'.
Proof. intros Hn Hj (i & Hi & H). exists i. by rewrite Hn. Qed.

(** What [session_info] leaves in an entry. *)
Lemma session_info_merge k caps old :
  let i := merge_info old (session_info k caps) in
  has_key k i /\ ingress_type i = Some Bgp /\ state i = Some Connected.
Proof. done. Qed.

Lemma registered_after k caps id reg :
  registered k id (update_info id (session_info k caps) reg).2.
Proof.
  unfold registered. setoid_rewrite update_info_lookup. rewrite decide_True by done.
  eexists. split; [done|]. by destruct (info reg !! id).
Qed.

Lemma negotiation_inv owner w t k tk w' :
  BgpInv owner w -> w_tasks w !! t = Some tk -> tk_key tk = Some k ->
  negotiation_step t k tk w = Some w' -> exists owner', BgpInv owner' w'.
Proof.
  intros Hi Ht Hk. pose proof (bi_tasks _ _ Hi _ _ Ht) as Hok. unfold negotiation_step.
  destruct (tk_pc tk) as [| | | |old|old|old| | | | | | | | | | |] eqn:Hpc; try done.
  - (* Finding *)
    destruct (find_existing_bgp_session (bgp_query k) (w_reg w)) as [[id i]|] eqn:Hf; intros [= <-].
    + destruct (find_existing_owner _ _ _ _ _ Hi (to_peer _ _ _ _ Hok k Hk) Hf) as [Hm Ho]. exists owner.
      apply (settle_inv owner owner w t tk _ k Hi Ht Hpc Hk); try done; [by left|].
      apply (ro_owner _ _ _ (bi_reg _ _ Hi)).
    + exists (<[tk_ingress tk := k]> owner). destruct Hok.
      assert (Hnone : owner !! tk_ingress tk = None) by (rewrite to_owner0; unfold settled; by rewrite Hpc).
      apply (settle_inv owner _ w t tk _ k Hi Ht Hpc Hk); try done; [by right|..].
      * intros id k' Hid. rewrite lookup_insert_ne; [done|]. intros <-. congruence.
      * intros id Hid Hne. by rewrite lookup_insert_ne.
      * apply lookup_insert_eq.
      * intros id [k' [[<- _]|[_ Hid]]%lookup_insert_Some]; [done|].
        apply (ro_owner _ _ _ (bi_reg _ _ Hi)). by eexists.
  - (* WithdrawingStale *)
    intros [= <-]. exists owner. refine (send_inv _ _ _ (put_inv_bgp owner w t tk _ Hi Ht _)).
    solve_moves Hpc.
  - (* TakingOver *)
    destruct (unlocked w) eqn:Hu; [|done]. intros [= <-]. exists owner.
    refine (put_inv_bgp owner _ t tk _ (del_live_inv _ _ k Hi) Ht _).
    destruct (w_live w !! k) as [old|] eqn:Hl; solve_moves Hpc.
    intros o [= <-]. rewrite Hk. split; [done|]. by apply (live_owner owner w).
  - (* Rejecting *)
    intros [= <-]. exists owner. apply abort_inv. refine (put_inv_bgp owner w t tk _ Hi Ht _).
    destruct Hok. rewrite Hpc in to_old0. case_bool_decide; solve_moves Hpc.
  - (* WithdrawingOld *)
    intros [= <-]. exists owner. refine (send_inv _ _ _ (put_inv_bgp owner w t tk _ Hi Ht _)).
    destruct Hok. rewrite Hpc in to_old0. solve_moves Hpc.
  - (* UnregisteringOld *)
    intros [= <-]. exists owner.
    assert (Hp : BgpInv owner (w_put t (at_pc Inserting tk) w))
      by (refine (put_inv_bgp owner w t tk _ Hi Ht _); solve_moves Hpc).
    refine (set_reg_inv _ _ _ Hp (remove_ok _ _ _ _ (bi_reg _ _ Hi)) _).
    intros j lv Hl Hr. cbn in Hl, Hr. destruct (decide (lv_ingress lv = lv_ingress old)) as [He|Hne].
    + right. exists t, (at_pc Inserting tk). cbn. rewrite lookup_insert_eq. split_and!; [done..|].
      rewrite Hk. destruct (to_old _ _ _ _ Hok old) as [_ Ho]; [by rewrite Hpc|].
      rewrite <- He, (live_owner owner w j lv Hi Hl), Hk in Ho. congruence.
    + left. eapply registered_other; [|exact Hne|exact Hr]. intros n Hn. cbn.
      by rewrite lookup_delete_ne.
  - (* Inserting *)
    destruct (unlocked w) eqn:Hu; [|done]. destruct (tk_sid tk) as [sid|] eqn:Hs; [|done].
    intros [= <-]. exists owner.
    assert (Hp : BgpInv owner (w_put t (at_pc Registering tk) (w_set_live (delete k (w_live w)) w))).
    { refine (put_inv_bgp owner _ t tk _ (del_live_inv _ _ k Hi) Ht _). solve_moves Hpc.
      right. intros j Hj. assert (j = k) as -> by congruence. apply lookup_delete_eq. }
    pose proof (ins_live_inv owner _ k t (at_pc Registering tk) sid Hp Hu) as Hq. cbn in Hq.
    rewrite insert_delete_eq in Hq. apply Hq; try done. apply lookup_insert_eq.
  - (* Registering *)
    intros [= <-]. exists owner.
    assert (Ho : owner !! tk_ingress tk = Some k)
      by (rewrite (to_owner _ _ _ _ Hok); unfold settled; by rewrite Hpc).
    refine (put_inv_bgp owner (w_set_reg _ w) t tk _ _ Ht _).
    + apply set_reg_inv; [done| |].
      * by apply (update_info_ok owner _ _ k); [apply Hi|..].
      * intros j lv Hl Hr. left. destruct (decide (lv_ingress lv = tk_ingress tk)) as [He|Hne].
        -- rewrite He. assert (j = k) as ->.
           { pose proof (live_owner owner w j lv Hi Hl) as Hj. rewrite He in Hj. congruence. }
           apply registered_after.
        -- eapply registered_other; [|exact Hne|exact Hr]. intros n Hn.
           rewrite update_info_lookup. by rewrite decide_False.
    + solve_moves Hpc. intros _ _. right. intros j Hj. assert (j = k) as -> by congruence.
      apply registered_after.
  - (* Counting *)
    destruct (get_or_create (tk_ingress tk) (w_stats w)) as [h st] eqn:Hg. intros [= <-].
    exists owner. apply get_or_create_spec in Hg as [Hh Hkeep].
    refine (put_inv_bgp owner (w_set_stats _ w) t tk _ _ Ht _).
    + apply stats_inv_grows; done.
    + solve_moves Hpc.
Qed.

(** ** Leaving *)

Lemma stats_inv_removes owner w id :
  BgpInv owner w -> (forall k lv, w_live w !! k = Some lv -> lv_ingress lv <> id) ->
  BgpInv owner (w_set_stats (stats_remove id (w_stats w)) w).
Proof.
  intros [] Hno. split; try done.
  - intros t tk Ht. destruct (bi_tasks0 t tk Ht). by split.
  - intros k lv Hl. destruct (bi_live0 k lv Hl) as (tk & Ht & []). exists tk. split; [done|].
    split; cbn; auto. intros Hc. destruct (eo_counted0 Hc) as (h & ? & ?). exists h.
    split; [done|]. rewrite lookup_delete_ne; [done|]. intros He. by eapply Hno.
Qed.

(** The table's entry with the session's id is the session's own. *)
Lemma own_entry owner w t tk sid key :
  BgpInv owner w -> w_tasks w !! t = Some tk -> tk_sid tk = Some sid ->
  lv_sid <$> w_live w !! key = Some sid -> tk_key tk = Some key.
Proof.
  intros Hi Ht Hs Hl. apply fmap_Some in Hl as (lv & Hl & ->).
  destruct (bi_live _ _ Hi _ _ Hl) as (x & Hx & []).
  assert (t = lv_task lv) as -> by (by eapply (bi_sids _ _ Hi t (lv_task lv) tk x)). congruence.
Qed.

Lemma leaving_inv owner w t tk w' :
  BgpInv owner w -> w_tasks w !! t = Some tk -> leaving_step t tk w = Some w' -> BgpInv owner w'.
Proof.
  intros Hi Ht. pose proof (bi_tasks _ _ Hi _ _ Ht) as Hok. unfold leaving_step.
  destruct (tk_pc tk) as [| | | | | | | | | |neg| | | | | | |] eqn:Hpc; try done.
  - (* Leaving *)
    assert (Hend : BgpInv owner (w_put t (at_pc Ended tk) w))
      by (refine (put_inv_bgp owner w t tk _ Hi Ht _); solve_moves Hpc).
    destruct (tk_sid tk) as [sid|] eqn:Hs; [|by intros [= <-]].
    destruct neg as [key|]; [|by intros [= <-]]. destruct (unlocked w) eqn:Hu; [|done].
    case_bool_decide as Hown; [|by intros [= <-]]. intros [= <-].
    pose proof (own_entry _ _ _ _ _ _ Hi Ht Hs Hown) as Hk.
    refine (move_inv owner _ t (Some t) tk _ (del_live_inv _ _ key Hi) Ht _).
    apply bool_decide_eq_true in Hu. solve_moves Hpc.
    intros _. exists key. split; [done|]. apply lookup_delete_eq.
  - (* Marking *)
    intros [= <-]. destruct (to_marking _ _ _ _ Hok Hpc) as (k & Hk & Hnl).
    pose proof (to_lock _ _ _ _ Hok) as Hlk. rewrite Hpc in Hlk. specialize (Hlk eq_refl).
    assert (Ho : owner !! tk_ingress tk = Some k)
      by (rewrite (to_owner _ _ _ _ Hok); unfold settled; by rewrite Hpc).
    refine (move_inv owner (w_set_reg _ w) t None tk _ _ Ht _); [|solve_moves Hpc].
    apply set_reg_inv; [done| |].
    + by apply (update_info_ok owner _ _ k); [apply Hi|done| |].
    + intros j lv Hl Hr. left. apply (registered_other (tk_ingress tk) _ _ (w_reg w)); [| |exact Hr]; last first.
      * intros He. pose proof (live_owner owner w j lv Hi Hl) as Hj. rewrite He in Hj. congruence.
      * intros n Hn. rewrite update_info_lookup. by rewrite decide_False.
  - (* WithdrawingOwn *)
    intros [= <-]. refine (send_inv _ _ _ (put_inv_bgp owner w t tk _ Hi Ht _)). solve_moves Hpc.
  - (* Rechecking *)
    destruct (unlocked w) eqn:Hu; [|done]. case_bool_decide as Hex; intros [= <-].
    + refine (put_inv_bgp owner w t tk _ Hi Ht _). solve_moves Hpc.
    + refine (move_inv owner w t (Some t) tk _ Hi Ht _). apply bool_decide_eq_true in Hu.
      solve_moves Hpc. intros _ k lv Hl He. apply Hex. by exists k, lv.
  - (* Unregistering *)
    intros [= <-]. pose proof (to_freeing _ _ _ _ Hok (or_introl Hpc)) as Hno.
    refine (put_inv_bgp owner (w_set_reg _ w) t tk _ _ Ht _); [|solve_moves Hpc].
    apply set_reg_inv; [done|apply remove_ok, Hi|]. intros k lv Hl Hr. left.
    eapply registered_other; [|by eapply Hno|exact Hr]. intros n Hn. cbn. by rewrite lookup_delete_ne.
  - (* DroppingStats *)
    intros [= <-]. pose proof (to_freeing _ _ _ _ Hok (or_intror Hpc)) as Hno.
    pose proof (to_lock _ _ _ _ Hok) as Hlk. rewrite Hpc in Hlk. specialize (Hlk eq_refl).
    refine (move_inv owner (w_set_stats _ w) t None tk _ _ Ht _); [|solve_moves Hpc].
    by apply stats_inv_removes.
Qed.

(** ** Every event *)

Lemma accept_inv owner w t :
  BgpInv owner w -> serial (w_reg w) < u32_max -> w_tasks w !! t = None ->
  BgpInv owner (w_put t (mk_task (serial (w_reg w)) None None ([], []) None false Idle)
    (w_set_mine ({[serial (w_reg w)]} ∪ w_mine w)
       (w_set_reg (mk_register (wrap 32 (serial (w_reg w) + 1)) (info (w_reg w))) w))).
Proof.
  intros Hi Hs Ht. set (id := serial (w_reg w)) in *. destruct (bi_reg _ _ Hi).
  assert (Hw : wrap 32 (id + 1) = id + 1) by (unfold wrap, u32_max in *; apply Z.mod_small; lia).
  assert (Hfresh : id ∉ w_mine w) by (intros Hm; specialize (ro_mine0 id Hm); lia).
  assert (Hno : owner !! id = None).
  { apply eq_None_not_Some. intros H. by apply Hfresh, ro_owner0. }
  rewrite Hw. split; cbn; [| | | | | |apply Hi].
  - split; cbn; [lia|set_solver| | | |].
    + intros j [->%elem_of_singleton|Hj%ro_mine0]%elem_of_union; lia.
    + intros j i Hj%ro_stored0. lia.
    + intros j i [->%elem_of_singleton|Hj]%elem_of_union Hl; [|by eapply ro_entry0].
      apply ro_stored0 in Hl. lia.
    + intros j i Hj. apply ro_other0. set_solver.
  - intros u x [[<- <-]|[Hne Hu]]%lookup_insert_Some.
    + split; cbn; try done; [set_solver|naive_solver].
    + destruct (bi_tasks _ _ Hi _ _ Hu). split; cbn; try done. set_solver.
  - intros a b x y [[<- <-]|[? Ha]]%lookup_insert_Some [[<- <-]|[? Hb]]%lookup_insert_Some;
      cbn; [done|..|by eapply (bi_fresh _ _ Hi)].
    + intros _ _ He. destruct (bi_tasks _ _ Hi _ _ Hb). exfalso. apply Hfresh. by rewrite He.
    + intros _ _ He. destruct (bi_tasks _ _ Hi _ _ Ha). exfalso. apply Hfresh. by rewrite <- He.
  - intros a b x y s [[<- <-]|[? Ha]]%lookup_insert_Some [[<- <-]|[? Hb]]%lookup_insert_Some;
      cbn; try done. by eapply (bi_sids _ _ Hi).
  - intros k lv Hl. destruct (bi_live _ _ Hi _ _ Hl) as (x & Hx & []). exists x.
    assert (lv_task lv <> t) by (intros <-; congruence).
    rewrite lookup_insert_ne by done. split; [done|]. split; cbn; auto.
    intros Hr. destruct (eo_registered0 Hr) as [?|(u & z & Hz & ?)]; [by left|right].
    exists u, z. rewrite lookup_insert_ne; [done|]. intros <-. congruence.
  - intros u Hu. destruct (bi_lock _ _ Hi u Hu) as (x & Hx & ?). exists x.
    rewrite lookup_insert_ne; [done|]. intros <-. congruence.
Qed.

Lemma negotiated_inv owner w t tk k caps :
  BgpInv owner w -> w_next_sid w < usize_max -> peers k -> w_tasks w !! t = Some tk ->
  tk_pc tk = Idle -> tk_sid tk = None ->
  BgpInv owner (w_put t (mk_task (tk_ingress tk) (Some (w_next_sid w)) (Some k) caps
                           (tk_stats tk) (tk_aborted tk) Finding)
                  (w_set_sid (wrap 64 (w_next_sid w + 1)) w)).
Proof.
  intros Hi Hn Hpeer Ht Hpc Hs. pose proof (bi_next _ _ Hi) as Hpos.
  assert (wrap 64 (w_next_sid w + 1) = w_next_sid w + 1) as ->
    by (unfold wrap, usize_max in *; apply Z.mod_small; lia).
  pose proof (bi_tasks _ _ Hi _ _ Ht) as Hok.
  assert (Hset : settled tk = None) by (unfold settled; rewrite Hpc; by apply Hok).
  assert (Hold : forall u x s, w_tasks w !! u = Some x -> tk_sid x = Some s -> s < w_next_sid w)
    by (intros u x s Hu; apply (bi_tasks _ _ Hi _ _ Hu)).
  split; cbn; [apply Hi| | | | | |lia].
  - intros u x [[<- <-]|[Hne Hu]]%lookup_insert_Some.
    + destruct Hok. split; cbn; try done; [by rewrite to_owner0| |naive_solver|naive_solver].
      intros s [= <-]. lia.
    + destruct (bi_tasks _ _ Hi _ _ Hu). split; cbn; try done.
      intros s Hx. specialize (to_sid0 s Hx). lia.
  - intros a b x y [[<- <-]|[? Ha]]%lookup_insert_Some [[<- <-]|[? Hb]]%lookup_insert_Some; [done|..];
      cbn; intros; by eapply (bi_fresh _ _ Hi).
  - intros a b x y s [[<- <-]|[? Ha]]%lookup_insert_Some [[<- <-]|[? Hb]]%lookup_insert_Some; cbn;
      [done|..|by eapply (bi_sids _ _ Hi)].
    + intros [= <-] Hy. specialize (Hold _ _ _ Hb Hy). lia.
    + intros Hx [= <-]. specialize (Hold _ _ _ Ha Hx). lia.
  - intros j lv Hl. destruct (bi_live _ _ Hi _ _ Hl) as (x & Hx & []). exists x.
    assert (lv_task lv <> t) by (intros <-; congruence).
    rewrite lookup_insert_ne by done. split; [done|]. split; cbn; auto.
    intros Hr. destruct (eo_registered0 Hr) as [?|(u & z & Hz & Hzp & ?)]; [by left|right].
    exists u, z. rewrite lookup_insert_ne; [done|]. intros <-. congruence.
  - intros u Hu. destruct (bi_lock _ _ Hi u Hu) as (x & Hx & Hh). exists x.
    rewrite lookup_insert_ne; [done|]. intros <-. assert (x = tk) as -> by congruence.
    by rewrite Hpc in Hh.
Qed.

Lemma received_inv owner w now u osms accept tk :
  BgpInv owner w -> BgpInv owner (received now u osms accept tk w).
Proof.
  intros Hi. unfold received. apply (send_inv owner w (OutputStream osms)) in Hi.
  set (w1 := w_send _ w) in *. clearbody w1.
  assert (Hst : forall h f, BgpInv owner (w_set_stats (with_stats h f (w_stats w1)) w1))
    by (intros h f; by apply stats_inv_grows).
  destruct accept.
  - destruct (process_update _ _ _ _) as [[e|upd] counted]; [done|].
    apply send_inv. destruct (tk_stats tk), counted; done || apply Hst.
  - destruct (tk_stats tk); [|done]. destruct (explode_announcements u) as [|[]]; done || apply Hst.
Qed.

(** The RIB's mark leaves the type and the peer of an entry, and makes none that is a
    session. *)
Lemma connected_mark reg id i :
  info (update_info id (with_state Connected info_default) reg).2 !! id = Some i ->
  state i = Some Connected
  /\ match info reg !! id with
     | Some old => ingress_type i = ingress_type old /\ remote_addr i = remote_addr old
                   /\ remote_asn i = remote_asn old
     | None => ingress_type i = None
     end.
Proof.
  rewrite update_info_lookup, decide_True by done. intros [= <-]. by destruct (info reg !! id).
Qed.

Lemma others_inv owner w reg :
  BgpInv owner w -> others_ok peers w reg -> BgpInv owner (w_set_reg reg w).
Proof.
  intros Hi (Hser & Hmine & Hother). destruct (bi_reg _ _ Hi). apply set_reg_inv; [done| |].
  - split; try done; [lia| | | |].
    + intros id Hm%ro_mine0. lia.
    + intros id i Hl. destruct (decide (id ∈ w_mine w)) as [Hm|Hm].
      * apply ro_mine0 in Hm. lia.
      * by apply (Hother id i Hm).
    + intros id i Hm Hl Hty. destruct (Hmine id Hm) as [Hs|[Hs|[Hs _]]]; rewrite Hs in Hl; [by eauto| |done].
      apply connected_mark in Hl as [_ Hl]. destruct (info (w_reg w) !! id) as [old|] eqn:Ho; [|congruence].
      destruct Hl as (H1 & H2 & H3). rewrite H1 in Hty.
      destruct (ro_entry0 id old Hm Ho Hty) as (k & Hk & Ha & Hb). exists k. split; [done|]. split; congruence.
    + intros id i Hm Hl. by apply (Hother id i Hm).
  - intros k lv Hl (i & Hi' & (Ha & Hb) & Hty & Hst). left.
    assert (Hm : lv_ingress lv ∈ w_mine w).
    { apply ro_owner0. rewrite (live_owner owner w k lv Hi Hl). done. }
    destruct (Hmine _ Hm) as [Hs|[Hs|[_ Hs]]]; [exists i; by rewrite Hs| |by destruct (Hs i Hi')].
    destruct (info (update_info (lv_ingress lv) (with_state Connected info_default) (w_reg w)).2 !! lv_ingress lv) as [j|] eqn:Hj;
      [|by rewrite update_info_lookup, decide_True in Hj].
    apply connected_mark in Hj as [Hst' Hj]. rewrite Hi' in Hj. destruct Hj as (H1 & H2 & H3).
    exists j. split; [done|]. split; [split; congruence|]. split; congruence.
Qed.

Lemma event_inv owner w e w' :
  BgpInv owner w -> event_ok peers e w -> event e w = Some w' -> exists owner', BgpInv owner' w'.
Proof.
  intros Hi Hok. destruct e as [t|t k caps|t now u osms acc|t neg|t|t|reg]; cbn [event].
  - destruct (w_tasks w !! t) as [|] eqn:Ht; [done|]. intros [= <-]. exists owner.
    by apply accept_inv.
  - destruct (w_tasks w !! t) as [tk|] eqn:Ht; [|done].
    repeat case_bool_decide; try done. intros [= <-]. exists owner. by apply negotiated_inv; destruct Hok.
  - destruct (w_tasks w !! t) as [tk|] eqn:Ht; [|done]. case_match; [|done]. intros [= <-].
    exists owner. by apply received_inv.
  - destruct (w_tasks w !! t) as [tk|] eqn:Ht; [|done].
    case_bool_decide as Hpc; [|done]. intros [= <-]. exists owner.
    refine (put_inv_bgp owner w t tk _ Hi Ht _). solve_moves Hpc.
  - intros Hs. apply bind_Some in Hs as (tk & Ht & Hs). unfold task_step in Hs.
    destruct (tk_pc tk) eqn:Hpc;
      try (exists owner; by eapply leaving_inv);
      (destruct (tk_key tk) as [k|] eqn:Hk; [by eapply negotiation_inv|done]).
  - destruct (w_tasks w !! t) as [tk|] eqn:Ht; [|done].
    destruct (tk_aborted tk && awaits (tk_pc tk)) eqn:Ha; [|done]. intros [= <-].
    apply andb_prop in Ha as [_ Ha]. exists owner. refine (put_inv_bgp owner w t tk _ Hi Ht _).
    destruct (tk_pc tk) eqn:Hpc; try done; solve_moves Hpc.
  - intros [= <-]. exists owner. by apply others_inv.
Qed.

Lemma reachable_bgp_inv w : reachable_bgp peers w -> exists owner, BgpInv owner w.
Proof.
  induction 1 as [reg Hser Hreg|e w w' _ [owner Hi] Hok He].
  - exists ∅. split; cbn; try (intros *; by rewrite ?lookup_empty); try done.
    split; try done; [intros id [? H]; by rewrite lookup_empty in H|..]; try naive_solver.
  - by eapply event_inv.
Qed.

End Inv.

(** ** What the BGP sessions keep to

    In every interleaving each live session owns its ingress id; a session that nobody
    interferes with leaves nothing behind; and the interleaving of two sessions of one
    peer that does leave an entry behind. *)

Section Props.
Context `{E : Extern} `{R : !Routecore} `{L : Layout}.
Context `{HI : !HashIter Z IngressInfo} `{HF : !HashIter AfiSafiKey Z}.
Context (peers : PeerKey -> Prop).
Implicit Types (w : BgpWorld) (t : TaskId) (tk : Task) (k : PeerKey) (lv : Live).

Lemma holder_steps t tk w :
  w_tasks w !! t = Some tk -> holds (tk_pc tk) = true -> is_Some (event (Step t) w).
Proof.
  intros Ht Hh. cbn [event]. rewrite Ht. cbn. unfold task_step, leaving_step.
  destruct (tk_pc tk); try done; by eexists.
Qed.

(** C4: in every interleaving of accepting, negotiating, receiving, replacing, aborting and
    leaving: no two peers in the table of live sessions have the same ingress id; the
    session in the table for a peer is one with that peer and that id; once it is registered
    its id stays registered as a connected BGP session of the peer, unless a newer session
    of the same peer is just about to take its place in the table; once it has its counters
    they stay the ones the statistics registry has for the id; and whoever holds the mutex
    of the table can always go on, so that it is released. Meanwhile other units use the
    register: they hand out ids and do what they like with entries of theirs, also those of
    BGP sessions, as long as these are with other peers than this unit's (two bgp-tcp-in
    units that have a session with the same address and AS number would share its id); the
    RIB marks any id, also this unit's, as connected, and takes out entries, also this
    unit's, that are not connected. The ids and session ids are not exhausted. *)
Theorem live_sessions_owned w :
  reachable_bgp peers w ->
  (forall k k' lv lv', w_live w !! k = Some lv -> w_live w !! k' = Some lv' ->
     lv_ingress lv = lv_ingress lv' -> k = k')
  /\ (forall k lv, w_live w !! k = Some lv ->
       exists tk, w_tasks w !! lv_task lv = Some tk
         /\ tk_key tk = Some k /\ tk_ingress tk = lv_ingress lv /\ tk_sid tk = Some (lv_sid lv)
         /\ (registered_pc (tk_pc tk) = true ->
             registered k (lv_ingress lv) (w_reg w) \/ replacing k (w_tasks w))
         /\ (counted_pc (tk_pc tk) = true ->
             exists h, tk_stats tk = Some h /\ sr_inner (w_stats w) !! lv_ingress lv = Some h))
  /\ (forall t, w_lock w = Some t -> is_Some (event (Step t) w)).
Proof.
  intros [owner Hi]%reachable_bgp_inv. split_and!.
  - intros k k' lv lv'. by apply (live_apart peers owner).
  - intros k lv Hl. destruct (bi_live _ _ _ Hi _ _ Hl) as (tk & Ht & []). by exists tk.
  - intros t Hl. destruct (bi_lock _ _ _ Hi t Hl) as (tk & Ht & Hh). by eapply holder_steps.
Qed.

(** ** A session alone *)

(** The id a session ends up with, and the updates sent for it. *)
Definition session_id k tk w : IngressId :=
  match find_existing_bgp_session (bgp_query k) (w_reg w) with
  | Some (id, _) => id
  | None => tk_ingress tk
  end.

Definition stale_updates k w : list Update :=
  match find_existing_bgp_session (bgp_query k) (w_reg w) with
  | Some (id, _) => [Withdraw id None]
  | None => []
  end.

(** How many accesses a negotiation takes. *)
Definition negotiation_steps k w : nat :=
  match find_existing_bgp_session (bgp_query k) (w_reg w) with Some _ => 6 | None => 5 end.

(** An UPDATE as it is received: when, the message, what the filter wrote, its verdict. *)
Definition Incoming : Type := Z * Parsed * list OutputStreamMessage * bool.

Definition receive t (m : Incoming) : Event :=
  let '(now, u, osms, accept) := m in Received t now u osms accept.

(** What an UPDATE sends downstream under an ingress id. *)
Definition sent_for (id : IngressId) (m : Incoming) : list Update :=
  let '(now, u, osms, accept) := m in
  OutputStream osms
  :: (if accept : bool then
        match (process_update now u id None).1 with inr upd => [upd] | inl _ => [] end
      else []).

Lemma process_update_stats now u id st :
  (process_update now u id st).1 = (process_update now u id None).1.
Proof.
  unfold process_update. destruct (explode_announcements u); [done|].
  by destruct (explode_withdrawals u).
Qed.

Lemma received_frame now u osms accept tk w :
  let w' := received now u osms accept tk w in
  w_live w' = w_live w /\ w_lock w' = w_lock w /\ w_reg w' = w_reg w /\ w_tasks w' = w_tasks w
  /\ sr_inner (w_stats w') = sr_inner (w_stats w)
  /\ w_out w' = w_out w ++ sent_for (tk_ingress tk) (now, u, osms, accept).
Proof.
  unfold received, sent_for. destruct accept.
  - rewrite <- (process_update_stats now u (tk_ingress tk)
      (h ← tk_stats tk; sr_heap (w_stats (w_send (OutputStream osms) w)) !! h)).
    destruct (process_update _ _ _ _) as [[e|upd] counted]; cbn; [done|].
    destruct (tk_stats tk), counted; cbn; by rewrite <- app_assoc.
  - destruct (tk_stats tk); [|done]. by destruct (explode_announcements u) as [|[]].
Qed.

Lemma receive_all t tk msgs w :
  w_tasks w !! t = Some tk -> tk_pc tk = Idle -> tk_sid tk <> None ->
  exists w', events (receive t <$> msgs) w = Some w'
    /\ w_live w' = w_live w /\ w_lock w' = w_lock w /\ w_reg w' = w_reg w /\ w_tasks w' = w_tasks w
    /\ sr_inner (w_stats w') = sr_inner (w_stats w)
    /\ w_out w' = w_out w ++ concat (sent_for (tk_ingress tk) <$> msgs).
Proof.
  intros Ht Hpc Hs. revert w Ht. induction msgs as [|[[[now u] osms] acc] msgs IH]; intros w Ht.
  { exists w. split_and!; try done. cbn. by rewrite app_nil_r. }
  rewrite !fmap_cons. cbn [receive events event]. rewrite Ht.
  rewrite !bool_decide_eq_true_2 by done. cbn [andb].
  destruct (received_frame now u osms acc tk w) as (E1 & E2 & E3 & E4 & E5 & E6).
  set (w1 := received now u osms acc tk w) in *.
  destruct (IH w1) as (w' & He & F1 & F2 & F3 & F4 & F5 & F6); [by rewrite E4|].
  exists w'. split; [done|]. rewrite F1, F2, F3, F4, F5, F6, E1, E2, E3, E4, E5, E6.
  split_and!; try done. cbn [concat]. by rewrite <- app_assoc.
Qed.

Lemma events_app es es' w :
  events (es ++ es') w = match events es w with Some w1 => events es' w1 | None => None end.
Proof. revert w. induction es as [|e es IH]; intros w; cbn; [done|]. by destruct (event e w). Qed.

Lemma events_cons e es w :
  events (e :: es) w = match event e w with Some w1 => events es w1 | None => None end.
Proof. done. Qed.

Lemma step_event t tk w es :
  w_tasks w !! t = Some tk ->
  events (Step t :: es) w
  = match task_step t tk w with Some w1 => events es w1 | None => None end.
Proof. intros Ht. cbn [events event]. by rewrite Ht. Qed.

#[local] Arguments events : simpl never.

(** One step of the session's own task, the rest of the world known. *)
Ltac own_step :=
  erewrite step_event by (cbn; by rewrite ?lookup_insert_eq);
  unfold task_step; cbn [tk_pc tk_key at_pc with_ingress with_handle negotiation_step leaving_step].

Lemma negotiate_alone w t tk k caps :
  w_tasks w !! t = Some tk -> tk_pc tk = Idle -> tk_sid tk = None ->
  w_lock w = None -> w_live w !! k = None ->
  let id := session_id k tk w in
  exists w1 tk1,
    events (Negotiated t k caps :: replicate (negotiation_steps k w) (Step t)) w = Some w1
    /\ w_tasks w1 !! t = Some tk1
    /\ tk_pc tk1 = Idle /\ tk_key tk1 = Some k /\ tk_ingress tk1 = id
    /\ tk_sid tk1 = Some (w_next_sid w)
    /\ w_live w1 = <[k := mk_live (w_next_sid w) t id]> (w_live w)
    /\ w_lock w1 = None
    /\ w_reg w1 = (update_info id (session_info k caps) (w_reg w)).2
    /\ sr_inner (w_stats w1) = sr_inner (get_or_create id (w_stats w)).2
    /\ w_out w1 = w_out w ++ stale_updates k w.
Proof.
  intros Ht Hpc Hs Hl Hk id. rewrite events_cons. cbn [event]. rewrite Ht, Hpc, Hs.
  rewrite !bool_decide_eq_true_2 by done. cbn [andb].
  unfold negotiation_steps, stale_updates, id, session_id.
  destruct (find_existing_bgp_session (bgp_query k) (w_reg w)) as [[x i]|] eqn:Hf; cbn [replicate].
  all: own_step; cbn [w_reg w_put w_set_sid]; rewrite Hf.
  1: own_step.
  all: own_step; unfold unlocked; cbn; rewrite Hl; rewrite bool_decide_eq_true_2 by done;
    rewrite Hk, (delete_id (w_live w) k) by done.
  all: own_step; unfold unlocked; cbn; rewrite bool_decide_eq_true_2 by done.
  all: own_step; own_step; cbn [tk_ingress w_stats w_put w_set_reg w_set_live w_send w_set_sid].
  all: destruct (get_or_create _ (w_stats w)) as [h st] eqn:Hg.
  all: eexists _, _; split; [done|]; cbn; rewrite ?lookup_insert_eq; split_and!; try done.
  by rewrite app_nil_r.
Qed.

Lemma leave_alone w t tk k sid id :
  w_tasks w !! t = Some tk -> tk_pc tk = Idle -> tk_sid tk = Some sid -> tk_ingress tk = id ->
  tk_key tk = Some k -> w_lock w = None -> w_live w !! k = Some (mk_live sid t id) ->
  (forall j lv, j <> k -> w_live w !! j = Some lv -> lv_ingress lv <> id) ->
  exists w1,
    events (Ends t (Some k) :: replicate 6 (Step t)) w = Some w1
    /\ w_live w1 = delete k (w_live w) /\ w_lock w1 = None
    /\ info (w_reg w1) = delete id (info (w_reg w))
    /\ sr_inner (w_stats w1) = delete id (sr_inner (w_stats w))
    /\ w_out w1 = w_out w ++ [Withdraw id None]
    /\ (forall u, u <> t -> w_tasks w1 !! u = w_tasks w !! u).
Proof.
  intros Ht Hpc Hs Hid Hk Hl Hlv Hother. rewrite events_cons. cbn [event]. rewrite Ht, Hpc.
  rewrite bool_decide_eq_true_2 by done. cbn [replicate].
  own_step. cbn [tk_sid at_pc]. rewrite Hs. unfold unlocked. cbn. rewrite Hl, Hlv. cbn.
  rewrite !bool_decide_eq_true_2 by done.
  own_step. own_step. own_step. unfold unlocked. cbn.
  rewrite bool_decide_eq_false_2.
  2: { rewrite Hid. intros (j & lv & [Hne Hj]%lookup_delete_Some & He). by eapply Hother. }
  own_step. own_step. eexists. split; [done|]. cbn. rewrite Hid. split_and!; try done.
  - unfold update_info. destruct (info (w_reg w) !! id) eqn:Hi; cbn.
    + by rewrite insert_delete_eq, delete_insert_eq.
    + by rewrite delete_insert_eq.
  - intros u Hu. rewrite !lookup_insert_ne by done. done.
Qed.

(** A session that no other session of its peer meets, from a connection that was
    accepted to the end of its loop: it runs through all its steps; the updates it sends
    are a withdrawal of the peer's earlier routes if the peer was known, what its UPDATE
    messages carry, under the one id and in order, and a withdrawal of that id; and
    afterwards the table is what it was and neither the register nor the statistics have
    an entry for the id, while all other entries are untouched. *)
Theorem session_leaves_nothing w t tk k caps msgs :
  reachable_bgp peers w -> peers k ->
  w_tasks w !! t = Some tk -> tk_pc tk = Idle -> tk_sid tk = None ->
  w_lock w = None -> w_live w !! k = None ->
  let id := session_id k tk w in
  exists w',
    events ((Negotiated t k caps :: replicate (negotiation_steps k w) (Step t))
            ++ (receive t <$> msgs)
            ++ (Ends t (Some k) :: replicate 6 (Step t))) w = Some w'
    /\ w_live w' = w_live w /\ w_lock w' = None
    /\ info (w_reg w') = delete id (info (w_reg w))
    /\ sr_inner (w_stats w') = delete id (sr_inner (w_stats w))
    /\ w_out w' = w_out w ++ stale_updates k w ++ concat (sent_for id <$> msgs)
                  ++ [Withdraw id None].
Proof.
  intros [owner Hi]%reachable_bgp_inv Hpeer Ht Hpc Hs Hl Hk id.
  assert (Hother : forall j lv, w_live w !! j = Some lv -> lv_ingress lv <> id).
  { intros j lv Hj He. pose proof (live_owner peers owner w j lv Hi Hj) as Ho. rewrite He in Ho.
    unfold id, session_id in Ho.
    destruct (find_existing_bgp_session (bgp_query k) (w_reg w)) as [[x i]|] eqn:Hf.
    - destruct (find_existing_owner peers owner w k x i Hi Hpeer Hf) as [_ Hx]. congruence.
    - pose proof (bi_tasks _ _ _ Hi _ _ Ht) as Hok. rewrite (to_owner _ _ _ _ _ Hok) in Ho. unfold settled in Ho.
      rewrite Hpc in Ho. apply (to_key _ _ _ _ _ Hok) in Hs. congruence. }
  destruct (negotiate_alone w t tk k caps Ht Hpc Hs Hl Hk)
    as (w1 & tk1 & He1 & Ht1 & Hp1 & Hk1 & Hi1 & Hs1 & Hv1 & Hl1 & Hr1 & Hst1 & Ho1).
  fold id in Hi1, Hv1, Hr1, Hst1. rewrite events_app, He1, events_app.
  destruct (receive_all t tk1 msgs w1 Ht1 Hp1 ltac:(by rewrite Hs1))
    as (w2 & He2 & Hv2 & Hl2 & Hr2 & Ht2 & Hst2 & Ho2). rewrite He2.
  destruct (leave_alone w2 t tk1 k (w_next_sid w) id) as (w3 & He3 & Hv3 & Hl3 & Hr3 & Hst3 & Ho3 & _);
    try congruence.
  - rewrite Hv2, Hv1. apply lookup_insert_eq.
  - intros j lv Hne. rewrite Hv2, Hv1, lookup_insert_ne by done. apply Hother.
  - exists w3. split; [done|]. split_and!.
    + rewrite Hv3, Hv2, Hv1, delete_insert_eq. by apply delete_id.
    + done.
    + rewrite Hr3, Hr2, Hr1. apply map_eq. intros n. destruct (decide (n = id)) as [->|Hn].
      * by rewrite !lookup_delete_eq.
      * rewrite !lookup_delete_ne by done. rewrite update_info_lookup. by rewrite decide_False.
    + rewrite Hst3, Hst2, Hst1. unfold get_or_create.
      destruct (sr_inner (w_stats w) !! id) eqn:Hh; cbn; [done|]. by rewrite delete_insert_eq.
    + rewrite Ho3, Ho2, Ho1, Hi1. by rewrite <- !app_assoc.
Qed.

(** ** Runs *)

Fixpoint events_ok (es : list Event) w : Prop :=
  match es with
  | [] => True
  | e :: es' =>
      event_ok peers e w /\ match event e w with Some w1 => events_ok es' w1 | None => False end
  end.

Lemma run_reachable es w w' :
  reachable_bgp peers w -> events_ok es w -> events es w = Some w' -> reachable_bgp peers w'.
Proof.
  revert w. induction es as [|e es IH]; intros w Hw Hok He.
  - by injection He as <-.
  - rewrite events_cons in He. destruct Hok as [H1 H2]. destruct (event e w) as [w1|] eqn:E1; [|done].
    apply (IH w1); try done. by eapply rb_event.
Qed.

End Props.

(** ** Two sessions of one peer at once *)
Section Collision.
Context `{E : Extern} `{R : !Routecore} `{L : Layout} `{HF : !HashIter AfiSafiKey Z}.
#[local] Instance any_order : HashIter Z IngressInfo := list_order _ _.

Definition peer : PeerKey := (V4 167772161, 65000).

(** Both are negotiated before either is registered; the second takes the first one out
    of the table and unregisters its id before the first one has registered it. *)
Definition collision : list Event :=
  [Accept 1; Accept 2;
   Negotiated 1 peer ([], []); Step 1; Negotiated 2 peer ([], []); Step 2;
   Step 1; Step 1;
   Step 2; Step 2; Step 2; Step 2;
   Step 1; Step 1; Kill 1;
   Step 2; Step 2; Step 2;
   Ends 2 (Some peer); Step 2; Step 2; Step 2; Step 2; Step 2; Step 2].

Definition after_collision : BgpWorld :=
  Eval vm_compute in default (bgp_new register_new) (events collision (bgp_new register_new)).

Lemma after_collision_reachable : reachable_bgp (fun _ => True) after_collision.
Proof.
  apply (run_reachable _ collision (bgp_new register_new)).
  - apply rb_new; [done|]. intros id i. cbn. by rewrite lookup_empty.
  - vm_compute. repeat split.
  - vm_compute. reflexivity.
Qed.

(** Two sessions of one peer that negotiate at the same time can leave an entry behind:
    there is a run after which no session is live and every task is over, and yet the
    register has a connected BGP session and the statistics have counters for it, for
    which the emitter keeps sending reports. *)
Theorem collision_leaves_entry :
  exists w id i h,
    reachable_bgp (fun _ => True) w /\ w_live w = ∅
    /\ map_Forall (fun _ tk => tk_pc tk = Ended \/ tk_pc tk = Killed) (w_tasks w)
    /\ info (w_reg w) !! id = Some i /\ state i = Some Connected /\ ingress_type i = Some Bgp
    /\ sr_inner (w_stats w) !! id = Some h.
Proof.
  exists after_collision, 1. do 2 eexists. split; [exact after_collision_reachable|].
  split; [by vm_compute|]. split.
  { apply map_Forall_to_list. vm_compute. repeat constructor; by (left + right). }
  split_and!; by vm_compute.
Qed.

End Collision.

(** ** Sessions at work

    A concrete order of prefixes and concrete sessions, at which the theorems on the
    BGP unit are applied. *)
From S2P Require Import BmpDecode BmpInfo.
From Stdlib Require Import Sorting.Sorted.
From stdpp Require Import strings.

Local Open Scope Z_scope.

(** ** A session's world, for any program around it *)
Module BgpDemo.

Section Run.
Context `{E : Extern} `{R : !Routecore} `{L : Layout} `{HF : !HashIter AfiSafiKey Z}.
#[local] Instance order : HashIter Z IngressInfo := list_order _ _.

(** One session is live; a connection of another peer was accepted. *)
Definition one_live : list Event :=
  [Accept 1; Negotiated 1 peer ([], []); Step 1; Step 1; Step 1; Step 1; Step 1; Accept 2].

Definition session_world : BgpWorld :=
  Eval vm_compute in default (bgp_new register_new) (events one_live (bgp_new register_new)).

(** The peers of the unit are those of AS 65000. *)
Definition own_peer (k : PeerKey) : Prop := k.2 = 65000.

Lemma session_world_reachable : reachable_bgp own_peer session_world.
Proof.
  apply (run_reachable _ one_live (bgp_new register_new)).
  - apply rb_new; [done|]. intros id i. cbn. by rewrite lookup_empty.
  - vm_compute. repeat split.
  - vm_compute. reflexivity.
Qed.

(** Meanwhile the RIB marks the id of the session, and another unit enters a BGP session
    with a peer of another AS. *)
Definition other_session : IngressInfo := session_info (V4 167772163, 64999) ([], []).
Definition busy_register : Register :=
  let reg := (update_info 1 (with_state Connected info_default) (w_reg session_world)).2 in
  mk_register (serial reg + 1) (<[serial reg := other_session]> (info reg)).

Definition live_world : BgpWorld :=
  Eval vm_compute in w_set_reg busy_register session_world.

Lemma live_world_reachable : reachable_bgp own_peer live_world.
Proof.
  apply (rb_event _ (Others busy_register) session_world); [apply session_world_reachable| |by vm_compute].
  assert (Hmine : forall id, id ∈ w_mine session_world -> id = 1 \/ id = 2).
  { intros id Hid. assert (w_mine session_world = {[1; 2]}) as Hm by (by vm_compute). rewrite Hm in Hid. set_solver. }
  split; [vm_compute; congruence|]. split.
  - intros id [-> | ->]%Hmine; [right; left|left]; by vm_compute.
  - intros id i Hn Hl. unfold busy_register in Hl. cbn [info] in Hl.
    apply lookup_insert_Some in Hl as [[<- <-]|[_ Hl]].
    + split; [by vm_compute|]. intros _ k Hk [_ Hasn]. cbn in Hasn. unfold own_peer in Hk. congruence.
    + exfalso. apply Hn. rewrite update_info_lookup in Hl. case_decide as Hd.
      * subst id. apply (bool_decide_eq_true_1 (1 ∈ w_mine session_world)). by vm_compute.
      * assert (info (w_reg session_world) !! 1 <> None /\ delete 1 (info (w_reg session_world)) = ∅) as [_ He]
          by (split; by vm_compute).
        assert (delete 1 (info (w_reg session_world)) !! id = Some i) as Hx by (by rewrite lookup_delete_ne).
        by rewrite He, lookup_empty in Hx.
Qed.

Definition waiting : Task := mk_task 2 None None ([], []) None false Idle.

Lemma waiting_sends :
  w_out live_world ++ stale_updates (V4 167772162, 65000) live_world
    ++ concat (sent_for 2 <$> []) ++ [Withdraw (session_id (V4 167772162, 65000) waiting live_world) None]
  = [Withdraw 2 None].
Proof. by vm_compute. Qed.

Lemma waiting_ready :
  w_tasks live_world !! 2 = Some waiting /\ w_lock live_world = None
  /\ w_live live_world !! (V4 167772162, 65000) = None.
Proof. by vm_compute. Qed.

End Run.

(** ** The order of the concrete prefixes *)

Definition lt (p q : Demo.prefix) : Prop :=
  Demo.p_len q < Demo.p_len p
  \/ Demo.p_len p = Demo.p_len q /\ addr_lt (Demo.p_addr p) (Demo.p_addr q).

Lemma lt_asym p q : lt p q -> ~ lt q p.
Proof.
  unfold lt, addr_lt. intros [H|[H1 H2]] [K|[K1 K2]]; try lia.
  destruct (Demo.p_addr p), (Demo.p_addr q); lia || done.
Qed.

#[export] Instance prefix_ord : PrefixOrd (E := Demo.extern) := {|
  prefix_lt := (lt : @Prefix Demo.extern -> @Prefix Demo.extern -> Prop);
  prefix_lt_asym := lt_asym;
  prefix_lt_specific p q a _ _ H := or_introl H
|}.

Definition any_asn : PeerConfig := mk_peer_config (str "any") (Many []) None None [] [].
Definition in_net : PeerConfig := mk_peer_config (str "net") (Many [100; 200]) (Some 10) None [] [].

(** [0.0.0.0/0] and [1.2.3.0/24], the longer one first. *)
Definition net24 : @Prefix Demo.extern := Demo.pfx (V4 16909056) 24 eq_refl.
Definition net0 : @Prefix Demo.extern := Demo.pfx (V4 0) 0 eq_refl.

Definition configs : PeerConfigs (E := Demo.extern) :=
  [(Net (E := Demo.extern) net24, in_net); (Net (E := Demo.extern) net0, any_asn)].

Lemma configs_sorted : configs_wf configs.
Proof.
  unfold configs_wf. cbn. repeat constructor.
Defined.

Definition demo_unit : BgpTcpInConfig (E := Demo.extern) :=
  mk_bgp_tcp_in (str "0.0.0.0:179") 65001 [1; 2; 3; 4] configs [] None 60.

End BgpDemo.

Lemma get_in_net :
  configs_get BgpDemo.configs (V4 16909066) = Some (Net (E := Demo.extern) BgpDemo.net24, BgpDemo.in_net).
Proof. reflexivity. Defined.

Lemma peer_config_longest_witness :
  best_key BgpDemo.configs (V4 16909066) (Net (E := Demo.extern) BgpDemo.net24).
Proof.
  pose proof (peer_config_longest (E := Demo.extern) BgpDemo.configs (V4 16909066) BgpDemo.demo_unit
    BgpDemo.configs_sorted) as H.
  rewrite get_in_net in H. apply H.
Defined.

Lemma reconfigure_total_witness :
  exists r stop, on_reconfigure BgpDemo.demo_unit BgpDemo.demo_unit
      (Net (E := Demo.extern) BgpDemo.net24) = Some (r, stop)
    /\ r = None.
Proof.
  destruct (reconfigure_total (E := Demo.extern) BgpDemo.demo_unit BgpDemo.demo_unit (V4 16909066)
    (Net (E := Demo.extern) BgpDemo.net24) BgpDemo.in_net BgpDemo.configs_sorted get_in_net)
    as (r & stop & Hr & Hn).
  exists r, stop. split; [done|]. apply Hn. split; [reflexivity|].
  exists BgpDemo.in_net. split; reflexivity.
Defined.

Definition two_families : BgpPeerStats :=
  mk_stats 0 0 0 0 0 0 0 7 0 {[(1, 1) := 4; (2, 1) := 3]} ∅ 0 0 0.

Lemma stats_body_roundtrip_witness :
  let body := build_stats_body (snapshot (HF := list_order _ _) two_families) in
  be_val (take 4 body) = 14.
Proof.
  cbn zeta.
  rewrite (proj2 (stats_body_roundtrip (HF := list_order _ _) two_families ltac:(by vm_compute))).
  by vm_compute.
Defined.

#[local] Existing Instance Demo.extern.
#[local] Existing Instance demo_layout.
#[local] Existing Instance DemoBmp.routecore.

(** One prefix announced twice and withdrawn once: the gauge stays at one. *)
Definition one_route : RotondaRoute := RR_Ipv4Unicast BgpDemo.net24 pamap_default.

Lemma adj_rib_in_exact_witness :
  let s := count_all (HF := list_order _ _) [([one_route], []); ([one_route], []); ([], [one_route])]
             (reset_adj_rib_in stats_new) in
  adj_rib_in_routes s = gauge_sum (adj_rib_in_per_afi_safi s)
  /\ default 0 (adj_rib_in_per_afi_safi s !! (1, 1)) = 1.
Proof.
  destruct (adj_rib_in_exact (HF := list_order _ _)
    [([one_route], []); ([one_route], []); ([], [one_route])] stats_new) as [Hs Hk].
  - by vm_compute.
  - repeat constructor.
  - split; [exact Hs|]. rewrite Hk. by vm_compute.
Defined.

Lemma live_sessions_owned_witness :
  registered peer 1 (w_reg (BgpDemo.live_world))
  \/ replacing peer (w_tasks (BgpDemo.live_world)).
Proof.
  destruct (live_sessions_owned (HI := BgpDemo.order) BgpDemo.own_peer _
    (BgpDemo.live_world_reachable (HF := list_order _ _))) as (_ & H & _).
  destruct (H peer (mk_live 0 1 1)) as (tk & Ht & _ & _ & _ & Hr & _); [by vm_compute|].
  apply Hr. revert Ht. vm_compute. by intros [= <-].
Defined.

Lemma session_leaves_nothing_witness :
  exists w', w_out w' = [Withdraw 2 None]
    /\ w_live w' = w_live (BgpDemo.live_world).
Proof.
  destruct (session_leaves_nothing (HI := BgpDemo.order) BgpDemo.own_peer BgpDemo.live_world 2 BgpDemo.waiting
    (V4 167772162, 65000) ([], []) [] (BgpDemo.live_world_reachable (HF := list_order _ _)) eq_refl
    (proj1 BgpDemo.waiting_ready) eq_refl eq_refl (proj1 (proj2 BgpDemo.waiting_ready))
    (proj2 (proj2 BgpDemo.waiting_ready))) as (w' & _ & Hl & _ & _ & _ & Ho).
  exists w'. split; [|exact Hl]. rewrite Ho. apply BgpDemo.waiting_sends.
Defined.
