(* ===== verification/MrtAttrs.v ===== *)
(** * Attributes of MRT table dumps ([src/units/mrt_file_in/unit.rs])

    [normalize_mrt_mp_reach] rewrites the MP_REACH_NLRI attributes of a
    TABLE_DUMP_V2 entry, which have only the length and the octets of the next
    hop, into those of a BGP UPDATE.  Against the reference decoder of
    [BmpDecode]: everything else in the blob is kept, and the new attributes
    carry the next hop and the prefix. *)

From S2P Require Import Prelude Net Register Payload BmpDecode BmpBuilder BmpWire.
From Stdlib Require Import ZArith Lia.
From stdpp Require Import base numbers list gmap option.

Local Open Scope Z_scope.

Section Normalize.
Context `{E : Extern}.

(** The prefix as it is encoded in an UPDATE. *)
Definition mrt_nlri (p : Prefix) : list Z :=
  [prefix_len p] ++ take (num_bytes p) (octets (prefix_addr p)).

(** The rewritten attribute; [None] for a value that does not hold a next hop. *)
Definition new_mp_reach (flags afi safi : Z) (nlri mrt_value : list Z) : option (list Z) :=
  match mrt_value with
  | [] => None
  | b :: rest =>
      let nh_len := Z.to_nat b in
      if (1 + nh_len <=? length mrt_value)%nat then
        let nh := slice 1 (1 + nh_len) mrt_value in
        let new_value_len := 2 + 1 + 1 + zlen nh + 1 + zlen nlri in
        let use_extended := 255 <? new_value_len in
        let new_flags := if use_extended then Z.lor flags 16 else Z.land flags 239 in
        Some ([new_flags; 14]
              ++ (if use_extended then be_bytes 2 (wrap 16 new_value_len)
                  else [wrap 8 new_value_len])
              ++ be_bytes 2 afi ++ [safi] ++ [wrap 8 (Z.of_nat nh_len)] ++ nh ++ [0] ++ nlri)
      else None
  end.

(** The [while] loop; [None] when the fuel does not suffice. *)
Fixpoint normalize_loop (fuel : nat) (raw_attr : list Z) (afi safi : Z) (nlri : list Z)
    (pos : nat) (out : list Z) : option (list Z) :=
  match fuel with
  | O => None
  | S fuel =>
      if (pos <? length raw_attr)%nat then
        if (length raw_attr <? pos + 2)%nat then Some (out ++ drop pos raw_attr)
        else
          let flags := byte_at raw_attr pos in
          let type_code := byte_at raw_attr (pos + 1) in
          match attr_header raw_attr pos with
          | None => Some (out ++ drop pos raw_attr)
          | Some (attr_len, header_len) =>
              let total := (header_len + attr_len)%nat in
              if (length raw_attr <? pos + total)%nat then Some (out ++ drop pos raw_attr)
              else
                let unchanged := slice pos (pos + total) raw_attr in
                let new := if type_code =? 14
                           then new_mp_reach flags afi safi nlri
                                  (slice (pos + header_len) (pos + total) raw_attr)
                           else None in
                normalize_loop fuel raw_attr afi safi nlri (pos + total)
                  (out ++ default unchanged new)
          end
      else Some out
  end.

(** Each turn advances by at least three octets. *)
Definition normalize_mrt_mp_reach (raw_attr : list Z) (afi safi : Z) (p : Prefix) : list Z :=
  default [] (normalize_loop (S (length raw_attr)) raw_attr afi safi (mrt_nlri p) 0 []).

(** ** As a function of the parsed attributes *)

Definition attr_flags (a : attr) : Z := byte_at (a_raw a) 0.

Definition normalized (afi safi : Z) (nlri : list Z) (a : attr) : list Z :=
  if a_type a =? 14
  then default (a_raw a) (new_mp_reach (attr_flags a) afi safi nlri (a_value a))
  else a_raw a.

(** One turn of a walk over attributes by index is one step of the parser. *)
Lemma attr_step raw pos :
  (pos + 2 <= length raw)%nat ->
  match attr_header raw pos with
  | None => parse_attr (drop pos raw) = None
  | Some (al, hl) =>
      if (length raw <? pos + (hl + al))%nat then parse_attr (drop pos raw) = None
      else
        parse_attr (drop pos raw)
        = Some (mk_attr (slice pos (pos + (hl + al)) raw) (byte_at raw (pos + 1))
                  (slice (pos + hl) (pos + (hl + al)) raw), drop (pos + (hl + al)) raw)
        /\ (3 <= hl + al)%nat
  end.
Proof.
  intros Hs. pose proof (length_drop raw pos) as Hd. rewrite attr_header_drop by lia.
  unfold byte_at. rewrite <- nth_skipn.
  destruct (drop pos raw) as [|f [|ty l]] eqn:Ed; [cbn in Hd; lia..|]. cbn [nth].
  pose proof (parse_attr_header f ty l) as Hp. cbv zeta in Hp.
  destruct (attr_header (f :: ty :: l) 0) as [[al hl]|] eqn:Eh; [|done].
  assert ((length (f :: ty :: l) <? hl + al)%nat = (length raw <? pos + (hl + al))%nat) as Hlen.
  { destruct (Nat.ltb_spec (length (f :: ty :: l)) (hl + al)),
      (Nat.ltb_spec (length raw) (pos + (hl + al))); lia. }
  rewrite Hlen in Hp. destruct (length raw <? pos + (hl + al))%nat; [done|].
  pose proof (parse_attr_Some _ _ _ Hp) as [_ Hraw]. cbn [a_raw] in Hraw.
  rewrite length_take in Hraw. split; [|lia]. rewrite Hp.
  rewrite slice_drop, Ed, <- (drop_drop raw), Ed.
  replace (slice (pos + hl) (pos + (hl + al)) raw) with (take al (drop hl (f :: ty :: l))); [done|].
  by rewrite <- Ed, drop_drop, Nat.add_assoc, slice_drop.
Qed.

Lemma slice_head a b raw : (a < b)%nat -> (b <= length raw)%nat ->
  byte_at (slice a b raw) 0 = byte_at raw a.
Proof.
  intros Hab Hb. unfold byte_at, slice. rewrite <- (Nat.add_0_r a) at 3. rewrite <- nth_skipn.
  pose proof (length_drop raw a). destruct (skipn a raw) as [|x l]; [cbn in *; lia|].
  destruct (b - a)%nat eqn:Hn; [lia|done].
Qed.

Lemma normalize_loop_spec fuel raw afi safi nlri pos out :
  (pos <= length raw)%nat -> (length raw - pos < fuel)%nat ->
  let '(attrs, rest) := attrs_of (drop pos raw) in
  normalize_loop fuel raw afi safi nlri pos out
  = Some (out ++ concat (normalized afi safi nlri <$> attrs) ++ rest).
Proof.
  revert pos out. induction fuel as [|fuel IH]; intros pos out Hpos Hf; [lia|].
  cbn [normalize_loop]. pose proof (length_drop raw pos) as Hd.
  destruct (Nat.ltb_spec pos (length raw)) as [Hlt|Hge].
  2: { destruct (drop pos raw); [|cbn in Hd; lia]. cbn. by rewrite app_nil_r. }
  destruct (Nat.ltb_spec (length raw) (pos + 2)) as [Hs|Hs].
  { rewrite attrs_of_stop; [done|].
    destruct (drop pos raw) as [|f [|ty l]]; [done..|cbn in Hd; lia]. }
  pose proof (attr_step raw pos Hs) as Hp.
  destruct (attr_header raw pos) as [[al hl]|]; [|by rewrite attrs_of_stop].
  destruct (Nat.ltb_spec (length raw) (pos + (hl + al))) as [Ht|Ht]; [by rewrite attrs_of_stop|].
  destruct Hp as [Hp H3]. rewrite (attrs_of_cons _ _ _ Hp).
  specialize (IH (pos + (hl + al))%nat). destruct (attrs_of (drop (pos + (hl + al)) raw)) as [attrs rest].
  cbn [fst snd]. rewrite IH by lia. rewrite fmap_cons. cbn [concat]. rewrite <- !app_assoc.
  do 4 f_equal. unfold normalized, attr_flags. cbn [a_type a_value a_raw].
  rewrite slice_head by lia. by destruct (byte_at raw (pos + 1) =? 14).
Qed.

Lemma normalize_eq raw afi safi p :
  normalize_mrt_mp_reach raw afi safi p
  = concat (normalized afi safi (mrt_nlri p) <$> fst (attrs_of raw)) ++ snd (attrs_of raw).
Proof.
  unfold normalize_mrt_mp_reach.
  pose proof (normalize_loop_spec (S (length raw)) raw afi safi (mrt_nlri p) 0 []) as H.
  rewrite drop_0 in H. destruct (attrs_of raw) as [attrs rest]. by rewrite H by lia.
Qed.

(** ** What the decoder reads *)

(** Flags without the one for an extended length. *)
Definition plain_flags (a : attr) : Z := Z.land (attr_flags a) 239.

(** A value of a dump that holds a next hop. *)
Definition truncated_next_hop (value : list Z) : option (list Z) :=
  match value with
  | [] => None
  | b :: rest => if (Z.to_nat b <=? length rest)%nat then Some (take (Z.to_nat b) rest) else None
  end.

(** What becomes of an attribute. *)
Definition rewritten (p : Prefix) (a a' : attr) : Prop :=
  match (if a_type a =? 14 then truncated_next_hop (a_value a) else None) with
  | None => a' = a
  | Some nh => a_type a' = 14 /\ plain_flags a' = plain_flags a
               /\ decode_mp_reach (a_value a') = Some (nh, [p])
  end.

Lemma new_mp_reach_spec flags afi safi nlri value :
  new_mp_reach flags afi safi nlri value
  = nh ← truncated_next_hop value;
    let v := be_bytes 2 afi ++ [safi] ++ [wrap 8 (Z.of_nat (Z.to_nat (byte_at value 0)))]
               ++ nh ++ [0] ++ nlri in
    Some (if 255 <? zlen v
          then [Z.lor flags 16; 14] ++ be_bytes 2 (wrap 16 (zlen v)) ++ v
          else [Z.land flags 239; 14] ++ [wrap 8 (zlen v)] ++ v).
Proof.
  unfold new_mp_reach, truncated_next_hop. destruct value as [|b rest]; [done|].
  cbn [length]. change (1 + Z.to_nat b <=? S (length rest))%nat with (Z.to_nat b <=? length rest)%nat.
  destruct (Z.to_nat b <=? length rest)%nat eqn:Hb; [|done]. cbn [mbind option_bind].
  change (byte_at (b :: rest) 0) with b.
  replace (slice 1 (1 + Z.to_nat b) (b :: rest)) with (take (Z.to_nat b) rest)
    by (rewrite slice_drop; done).
  set (nh := take (Z.to_nat b) rest).
  assert (Hz : zlen (be_bytes 2 afi ++ [safi] ++ [wrap 8 (Z.of_nat (Z.to_nat b))] ++ nh ++ [0] ++ nlri)
               = 2 + 1 + 1 + zlen nh + 1 + zlen nlri).
  { rewrite !zlen_app, zlen_be_bytes. unfold zlen. cbn [length]. lia. }
  rewrite Hz. by destruct (255 <? _).
Qed.

Lemma flags_extended f : (Z.land (Z.lor f 16) 16 =? 0) = false.
Proof.
  apply Z.eqb_neq. intros H. apply (f_equal (fun x => Z.testbit x 4)) in H.
  rewrite Z.land_spec, Z.lor_spec in H. cbn in H. by rewrite orb_true_r in H.
Qed.

Lemma flags_plain f : (Z.land (Z.land f 239) 16 =? 0) = true.
Proof. rewrite <- Z.land_assoc. by rewrite Z.land_0_r. Qed.

Lemma plain_lor f : Z.land (Z.lor f 16) 239 = Z.land f 239.
Proof. rewrite Z.land_lor_distr_l. by rewrite Z.lor_0_r. Qed.

Lemma plain_land f : Z.land (Z.land f 239) 239 = Z.land f 239.
Proof. by rewrite <- Z.land_assoc. Qed.

Lemma parse_one f ty (lenb v : list Z) :
  length lenb = (if Z.land f 16 =? 0 then 1%nat else 2%nat) -> be_val lenb = zlen v ->
  parse_attr (f :: ty :: lenb ++ v) = Some (mk_attr (f :: ty :: lenb ++ v) ty v, []).
Proof.
  intros Hl Hv. cbn [parse_attr]. rewrite take_n_app by (rewrite Hl; by destruct (Z.land f 16 =? 0)).
  cbn [mbind option_bind]. rewrite Hv, zlen_to_nat.
  assert (Ht : take_n (length v) v = Some (v, [])).
  { rewrite <- (app_nil_r v) at 2. by apply take_n_app. }
  by rewrite Ht.
Qed.

Lemma attr_value_suffix a : attr_ok a -> exists pre, a_raw a = pre ++ a_value a.
Proof.
  unfold attr_ok, parse_attr. intros H. destruct (a_raw a) as [|f [|ty l]]; [done..|].
  destruct (take_n _ l) as [[lenb l2]|] eqn:E1; [|done]. cbn in H.
  destruct (take_n _ l2) as [[v l3]|] eqn:E2; [|done]. cbn in H. injection H as <- ->.
  apply take_n_Some in E1 as [-> _], E2 as [-> _]. cbn [a_value].
  exists (f :: ty :: lenb). by rewrite app_nil_r.
Qed.

Lemma mrt_nlri_eq p : mrt_nlri p = encode_prefix_nlri p.
Proof. done. Qed.

Lemma rewritten_attr p a :
  prefix_is_v4 p = false -> attr_ok a -> Forall is_byte (a_raw a) ->
  exists a', attr_ok a' /\ a_raw a' = normalized 2 1 (mrt_nlri p) a /\ rewritten p a a'.
Proof.
  intros Hv Ha Hb. unfold normalized, rewritten.
  destruct (a_type a =? 14) eqn:Hty; [|by exists a]. rewrite new_mp_reach_spec.
  destruct (truncated_next_hop (a_value a)) as [nh|] eqn:Ht; [|by exists a]. cbn [mbind option_bind].
  destruct (attr_value_suffix a Ha) as [pre Hpre].
  unfold truncated_next_hop in Ht. destruct (a_value a) as [|b rest] eqn:Hval; [done|].
  change (byte_at (b :: rest) 0) with b.
  assert (Hbb : is_byte b).
  { rewrite Hpre in Hb. apply Forall_app in Hb as [_ Hb]. by inversion Hb. }
  destruct (Nat.leb_spec (Z.to_nat b) (length rest)) as [Hle|]; [|done]. injection Ht as <-.
  set (nh := take (Z.to_nat b) rest). unfold is_byte in Hbb.
  assert (Hnh : zlen nh = b) by (unfold zlen, nh; rewrite length_take; lia).
  assert (Hval' : be_bytes 2 2 ++ [1] ++ [wrap 8 (Z.of_nat (Z.to_nat b))] ++ nh ++ [0] ++ mrt_nlri p
                  = reach_value 2 nh (mrt_nlri p)).
  { unfold reach_value. by rewrite Hnh, Z2Nat.id by lia. }
  rewrite Hval'. clear Hval'. set (v := reach_value 2 nh (mrt_nlri p)).
  assert (Hz : 0 <= zlen v < 65536).
  { unfold v. rewrite zlen_reach_value, mrt_nlri_eq, zlen_encode, Hnh.
    pose proof (nlri_encoded_len_bound p). rewrite Hv in *. cbn [addr_size] in *. lia. }
  assert (Hdec : decode_mp_reach v = Some (nh, [p])).
  { apply decode_reach_value; [lia|]. rewrite mrt_nlri_eq, <- Hv. apply nlri_of_one. }
  cbn [default from_option id]. unfold wrap. destruct (255 <? zlen v) eqn:Hx; zify_bools.
  - rewrite Z.mod_small by lia.
    pose proof (parse_one (Z.lor (attr_flags a) 16) 14 (be_bytes 2 (zlen v)) v) as Hp.
    rewrite flags_extended, be_val_be_bytes_small in Hp by (cbn [Z.of_nat Pos.of_succ_nat Pos.succ]; lia).
    eexists. split; [exact (parse_attr_ok _ _ _ (Hp eq_refl eq_refl))|]. split; [done|].
    split_and!; [done|apply plain_lor|exact Hdec].
  - rewrite Z.mod_small by lia.
    pose proof (parse_one (Z.land (attr_flags a) 239) 14 [zlen v] v) as Hp.
    rewrite flags_plain in Hp.
    eexists. split; [exact (parse_attr_ok _ _ _ (Hp eq_refl eq_refl))|]. split; [done|].
    split_and!; [done|apply plain_land|exact Hdec].
Qed.

Lemma attrs_of_concat attrs rest :
  Forall attr_ok attrs -> parse_attr rest = None ->
  attrs_of (concat (a_raw <$> attrs) ++ rest) = (attrs, rest).
Proof.
  intros Ha Hr. induction Ha as [|a attrs Ha _ IH]; [by apply attrs_of_stop|].
  rewrite fmap_cons. cbn [concat]. rewrite <- app_assoc.
  apply (parse_attr_app _ _ _ (concat (a_raw <$> attrs) ++ rest)) in Ha.
  by rewrite (attrs_of_cons _ _ _ Ha), app_nil_l, IH.
Qed.

Lemma attrs_of_split l :
  l = concat (a_raw <$> fst (attrs_of l)) ++ snd (attrs_of l)
  /\ parse_attr (snd (attrs_of l)) = None.
Proof.
  remember (length l) as n eqn:Hn. revert l Hn.
  induction (lt_wf n) as [n _ IH]. intros l ->.
  destruct (parse_attr l) as [[a rest]|] eqn:Hp.
  - rewrite (attrs_of_cons _ _ _ Hp). pose proof (parse_attr_Some _ _ _ Hp) as [-> H3].
    destruct (IH (length rest)) with (l := rest) as [Hl Hs]; [rewrite length_app; lia|done|].
    cbn [fst snd]. rewrite fmap_cons. cbn [concat]. rewrite <- app_assoc. split; [|done].
    by rewrite <- Hl.
  - by rewrite (attrs_of_stop _ Hp).
Qed.

(** C39: the rewritten blob of an IPv6 entry of a table dump: the loop ends, the decoder reads
    as many attributes in it as in the blob of the dump and the same octets behind them;
    each MP_REACH_NLRI that holds a next hop has become one, with the same flags, in which
    the decoder reads that next hop and the prefix of the entry, and every other attribute
    is unchanged. *)
Theorem mp_reach_normalized raw p :
  prefix_is_v4 p = false -> Forall is_byte raw ->
  normalize_loop (S (length raw)) raw 2 1 (mrt_nlri p) 0 []
    = Some (normalize_mrt_mp_reach raw 2 1 p)
  /\ snd (attrs_of (normalize_mrt_mp_reach raw 2 1 p)) = snd (attrs_of raw)
  /\ Forall2 (rewritten p) (fst (attrs_of raw)) (fst (attrs_of (normalize_mrt_mp_reach raw 2 1 p))).
Proof.
  intros Hv Hb. split.
  { pose proof (normalize_loop_spec (S (length raw)) raw 2 1 (mrt_nlri p) 0 []) as H.
    rewrite normalize_eq. rewrite drop_0 in H. destruct (attrs_of raw). by rewrite H by lia. }
  rewrite normalize_eq. destruct (attrs_of_split raw) as [Hl Hr].
  pose proof (attrs_of_ok raw) as Hok.
  assert (Hraw : Forall (fun a => Forall is_byte (a_raw a)) (fst (attrs_of raw))).
  { rewrite Hl in Hb. apply Forall_app in Hb as [Hb _]. clear -Hb. revert Hb.
    generalize (fst (attrs_of raw)). intros l Hb. induction l as [|a l IH]; [constructor|].
    rewrite fmap_cons in Hb. cbn in Hb. apply Forall_app in Hb as [? ?]. constructor; auto. }
  assert (H : exists attrs', Forall attr_ok attrs'
    /\ concat (a_raw <$> attrs') = concat (normalized 2 1 (mrt_nlri p) <$> fst (attrs_of raw))
    /\ Forall2 (rewritten p) (fst (attrs_of raw)) attrs').
  { clear Hl Hr Hb. revert Hok Hraw. generalize (fst (attrs_of raw)). intros l Hok Hraw.
    induction l as [|a l IH]; [by exists []; repeat constructor|].
    apply Forall_cons_1 in Hok as [Ha Hok]. apply Forall_cons_1 in Hraw as [Hba Hraw].
    destruct (rewritten_attr p a Hv Ha Hba) as (a' & Ha' & Hr' & Hw).
    destruct (IH Hok Hraw) as (attrs' & Hok' & He & Hf). exists (a' :: attrs').
    rewrite !fmap_cons. cbn [concat]. rewrite Hr', He. by split_and!; try constructor. }
  destruct H as (attrs' & Hok' & <- & Hf). by rewrite attrs_of_concat.
Qed.

End Normalize.
