(* ===== verification/MrtIn.v ===== *)
(** * The MRT file unit ([src/units/mrt_file_in/unit.rs])

    A queue of files, processed one after the other: the table of a dump, with an
    ingress for each peer of its index, and the messages of an update file.  The
    MRT parser is routecore and the decompressors are crates: class [MrtReader] has
    what they return, and a file is the octets of a path. *)

From S2P Require Import Prelude Net Register Payload BmpMsg MrtAttrs.
From Stdlib Require Import ZArith Lia.
From stdpp Require Import base numbers list gmap fin_maps strings.

Local Open Scope Z_scope.

(** ** Paths *)

Inductive OneOrManyPaths : Type :=
| OnePath (p : rstring)
| ManyPaths (ps : list rstring).

(** What [iter] yields, one after the other. *)
Definition paths_iter (p : OneOrManyPaths) : list rstring :=
  match p with OnePath p => [p] | ManyPaths ps => ps end.

(** [Path::extension]: the part behind the last dot of the last component, unless the
    component is [..] or has no other dot than one at its start. *)
Fixpoint components (cur : rstring) (s : rstring) : list rstring :=
  match s with
  | [] => [cur]
  | c :: s => if c =? 47 then cur :: components [] s else components (cur ++ [c]) s
  end.

Definition file_name (path : rstring) : option rstring :=
  match last (filter (fun c => c <> [] /\ c <> str ".") (components [] path)) with
  | Some c => if bool_decide (c = str "..") then None else Some c
  | None => None
  end.

(** The dots after the first character: what follows the last of them. *)
Fixpoint after_last_dot (s : rstring) : option rstring :=
  match s with
  | [] => None
  | c :: s =>
      match after_last_dot s with
      | Some e => Some e
      | None => if c =? 46 then Some s else None
      end
  end.

Definition extension (path : rstring) : option rstring :=
  match file_name path with
  | Some (_ :: rest) => after_last_dot rest
  | _ => None
  end.

(** ** What the parser returns *)

Inductive SessionState : Type :=
| Idle | Connect | SActive | OpenSent | OpenConfirm | Established.

#[export] Instance SessionState_eq_dec : EqDecision SessionState.
Proof. solve_decision. Defined.

Record StateChangeAs4 : Type := mk_state_change {
  old_state : SessionState;
  new_state : SessionState;
  sc_peer_addr : IpAddr;
  sc_peer_asn : Asn
}.

Section Types.
Context `{E : Extern} `{RC : !Routecore}.

(** An entry of the table: address family, index of the peer, prefix, attributes. *)
Record RibEntry : Type := mk_entry {
  en_afisafi : AfiSafiType;
  en_peer : nat;
  en_prefix : Prefix;
  en_attrs : list Z
}.

Inductive BgpMsg : Type :=
| MUpdate (u : Parsed) | MOpen | MNotification | MKeepalive | MRouteRefresh.

(** [MessageAs4]; [bgp_msg] may fail to parse. *)
Record MessageAs4 : Type := mk_message {
  bgp_msg : ParseErr + BgpMsg;
  ms_peer_addr : IpAddr;
  ms_peer_asn : Asn
}.

(** The two-octet variants are converted to those with four octets. *)
Inductive Bgp4Mp : Type :=
| BStateChange (sc : StateChangeAs4)
| BStateChangeAs4 (sc : StateChangeAs4)
| BMessage (m : MessageAs4)
| BMessageAs4 (m : MessageAs4).

(** - [read_file]: the octets of a file that can be opened and mapped;
    - [gz_decode], [bz2_decode]: the decompressed octets;
    - [mrt_pi]: the peer index table, if the file has one;
    - [mrt_rib_entries], [mrt_messages]: the entries of the tables and the messages;
    - [nlri_try_from]: the error, if any, of making an NLRI of IPv4 or IPv6 of a prefix. *)
Class MrtReader := {
  read_file : rstring -> option (list Z);
  gz_decode : list Z -> option (list Z);
  bz2_decode : list Z -> option (list Z);
  mrt_pi : list Z -> option (list (IpAddr * Asn));
  mrt_rib_entries : list Z -> ParseErr + list RibEntry;
  mrt_messages : list Z -> list Bgp4Mp;
  nlri_try_from : bool -> Prefix -> option rstring
}.

Inductive MrtError : Type :=
| MrtIo | MrtParse (e : ParseErr) | MrtOther (s : rstring).

End Types.

Section Unit.
Context `{E : Extern} `{RC : !Routecore} `{L : Layout} `{MR : !MrtReader}.
Context `{HI : !HashIter Z IngressInfo}.

(** The register, and what was sent through the gate.  The time of a file is one number. *)
Record MrtWorld : Type := mk_mrt {
  m_reg : Register;
  m_out : list Update
}.

Definition send_update (u : Update) (w : MrtWorld) : MrtWorld :=
  mk_mrt (m_reg w) (m_out w ++ [u]).

Definition set_reg (r : Register) (w : MrtWorld) : MrtWorld := mk_mrt r (m_out w).

(** [register] followed by [update_info]. *)
Definition register_with (i : IngressInfo) (w : MrtWorld) : IngressId * MrtWorld :=
  let '(id, r) := register (m_reg w) in
  (id, set_reg (update_info id i r).2 w).

(** [process_state_change]. *)
Definition state_change_query (sc : StateChangeAs4) : IngressInfo :=
  with_remote_asn (sc_peer_asn sc) (with_remote_addr (sc_peer_addr sc) info_default).

Definition process_state_change (sc : StateChangeAs4) (w : MrtWorld) : MrtWorld :=
  if bool_decide (old_state sc = new_state sc) then w
  else
    match old_state sc, new_state sc with
    | Established, Idle =>
        match find_existing_peer (state_change_query sc) (m_reg w) with
        | Some (id, _) => send_update (Withdraw id None) w
        | None => w
        end
    | _, _ => w
    end.

(** The query for a peer of the messages, and its entry when there is none yet. *)
Definition message_query (parent : IngressId) (pe : IpAddr * Asn) : IngressInfo :=
  with_ingress_type Mrt
    (with_remote_asn pe.2 (with_remote_addr pe.1 (with_parent_ingress parent info_default))).

(** [process_message] at time [now]: how many announcements and withdrawals. *)
Definition process_message (now : Z) (parent : IngressId) (m : MessageAs4) (w : MrtWorld)
  : (MrtError + Z * Z) * MrtWorld :=
  match bgp_msg m with
  | inl _ => (inr (0, 0), w)
  | inr (MUpdate upd) =>
      match explode_announcements upd with
      | inl e => (inl (MrtParse e), w)
      | inr rr_reach =>
          match explode_withdrawals upd with
          | inl e => (inl (MrtParse e), w)
          | inr rr_unreach =>
              let q := message_query parent (ms_peer_addr m, ms_peer_asn m) in
              let '(id, w) := match find_existing_peer q (m_reg w) with
                              | Some (id, _) => (id, w)
                              | None => register_with q w
                              end in
              let payloads :=
                ((fun rr => with_received rr None now id Active) <$> rr_reach)
                ++ ((fun rr => with_received rr None now id Withdrawn) <$> rr_unreach) in
              (inr (zlen rr_reach, zlen rr_unreach), send_update (Bulk payloads) w)
          end
      end
  | inr _ => (inr (0, 0), w)
  end.

(** ** Tables *)

Definition peer_info (parent : IngressId) (path : rstring) (pe : IpAddr * Asn) : IngressInfo :=
  with_ingress_type Mrt
    (with_filename path
      (with_remote_asn pe.2 (with_remote_addr pe.1 (with_parent_ingress parent info_default)))).

(** The ids of the peers of the index. *)
Fixpoint register_peers (parent : IngressId) (path : rstring) (pis : list (IpAddr * Asn))
    (w : MrtWorld) : list IngressId * MrtWorld :=
  match pis with
  | [] => ([], w)
  | pe :: pis =>
      let '(id, w) := register_with (peer_info parent path pe) w in
      let '(ids, w) := register_peers parent path pis w in
      (id :: ids, w)
  end.

(** The route of an entry: [None] for a family that is passed over. *)
Definition entry_route (e : RibEntry) : MrtError + option RotondaRoute :=
  match en_afisafi e with
  | Ipv4Unicast =>
      match nlri_try_from true (en_prefix e) with
      | None => inr (Some (RR_Ipv4Unicast (en_prefix e) (pamap_new (mk_opa modern (en_attrs e)))))
      | Some err => inl (MrtOther err)
      end
  | Ipv6Unicast =>
      let raw_attr := normalize_mrt_mp_reach (en_attrs e) 2 1 (en_prefix e) in
      match nlri_try_from false (en_prefix e) with
      | None => inr (Some (RR_Ipv6Unicast (en_prefix e) (pamap_new (mk_opa modern raw_attr))))
      | Some err => inl (MrtOther err)
      end
  | _ => inr None
  end.

(** The loop over the entries; an index that the table does not have is a panic. *)
Fixpoint send_entries (now : Z) (ingress_map : list IngressId) (es : list RibEntry)
  : Run MrtWorld (MrtError + unit) :=
  match es with
  | [] => mret (inr tt)
  | e :: es =>
      match entry_route e with
      | inl err => mret (inl err)
      | inr None => send_entries now ingress_map es
      | inr (Some rr) =>
          match ingress_map !! en_peer e with
          | None => run_fail
          | Some id =>
              _ ← run_modify (send_update (Single (with_received rr None now id Active)));
              send_entries now ingress_map es
          end
      end
  end.

(** A step that always returns, as a run. *)
Definition run_state {A} (f : MrtWorld -> A * MrtWorld) : Run MrtWorld A :=
  fun w => let '(a, w) := f w in (Some a, w).

(** The table part of [process_file]. *)
Definition process_table (now : Z) (parent : IngressId) (path : rstring) (bytes : list Z)
  : Run MrtWorld (MrtError + unit) :=
  match mrt_pi bytes with
  | None => mret (inr tt)
  | Some pis =>
      ids ← run_state (register_peers parent path pis);
      match mrt_rib_entries bytes with
      | inl e => mret (inl (MrtParse e))
      | inr es => send_entries now ids es
      end
  end.

(** The message part: the first error ends it. *)
Fixpoint process_messages (now : Z) (parent : IngressId) (ms : list Bgp4Mp) (w : MrtWorld)
  : (MrtError + unit) * MrtWorld :=
  match ms with
  | [] => (inr tt, w)
  | BStateChange sc :: ms | BStateChangeAs4 sc :: ms =>
      process_messages now parent ms (process_state_change sc w)
  | BMessage m :: ms | BMessageAs4 m :: ms =>
      match process_message now parent m w with
      | (inl e, w) => (inl e, w)
      | (inr _, w) => process_messages now parent ms w
      end
  end.

(** The octets of a file, decompressed by its extension. *)
Definition file_octets (path : rstring) : MrtError + list Z :=
  match read_file path with
  | None => inl MrtIo
  | Some mmap =>
      match extension path with
      | Some ext =>
          if bool_decide (ext = str "gz") then
            match gz_decode mmap with
            | Some b => inr b
            | None => inl (MrtOther (str "gz decoding failed"))
            end
          else if bool_decide (ext = str "bz2") then
            match bz2_decode mmap with
            | Some b => inr b
            | None => inl (MrtOther (str "bz2 decoding failed"))
            end
          else inr mmap
      | None => inr mmap
      end
  end.

(** [process_file]. *)
Definition process_file (now : Z) (parent : IngressId) (path : rstring)
  : Run MrtWorld (MrtError + unit) :=
  match file_octets path with
  | inl e => mret (inl e)
  | inr bytes =>
      res ← process_table now parent path bytes;
      match res with
      | inl e => mret (inl e)
      | inr _ => run_state (process_messages now parent (mrt_messages bytes))
      end
  end.

(** ** The queue *)

(** What the task does with the queue: the results in order, and what is told to the
    enqueuers that asked.  A panic ends the task. *)
Record Processed : Type := mk_processed {
  results : list (MrtError + rstring);
  responses : list (rstring * rstring)
}.

Fixpoint process_queue (now : Z) (parent : IngressId) (queue : list (rstring * bool))
    (acc : Processed) : Run MrtWorld Processed :=
  match queue with
  | [] => mret acc
  | (p, asked) :: queue =>
      r ← process_file now parent p;
      let r := match r with inl e => inl e | inr _ => inr p end in
      process_queue now parent queue
        (mk_processed (results acc ++ [r])
           (if asked : bool then responses acc ++ [(p, str "OK!")] else responses acc))
  end.

(** The capacity of the queue. *)
Definition queue_capacity : nat := 1024.

(** [MrtFileIn::run]: the id of the unit, and its files put into the queue.  The task that
    takes from the queue starts after that: with more files than the queue holds, the
    [send] that finds it full waits, and nothing is ever taken. *)
Inductive Started : Type :=
| Running (p : option Processed)
| Stuck.

Definition mrt_run (now : Z) (component_name : rstring) (filename : OneOrManyPaths)
    (later : list (rstring * bool)) (w : MrtWorld) : Started * MrtWorld :=
  let '(parent, w) := register_with
        (with_desc (str "mrt-file-in unit") (with_unit_name component_name info_default)) w in
  if bool_decide (queue_capacity < length (paths_iter filename))%nat then (Stuck, w)
  else
    let '(p, w) := process_queue now parent
          (((fun p => (p, false)) <$> paths_iter filename) ++ later) (mk_processed [] []) w in
    (Running p, w).

End Unit.
