(* ===== verification/MrtProps.v ===== *)
(** * What the MRT file unit sends ([src/units/mrt_file_in/unit.rs])

    The peers of a dump and of the messages keep one ingress id each, and
    different peers different ones; a dump is sent entry by entry under the ids
    of its index; the state changes of an update file withdraw nothing. *)

From S2P Require Import Prelude Net Register Payload BmpMsg MrtAttrs MrtIn.
From Stdlib Require Import ZArith Lia.
From stdpp Require Import base numbers list gmap fin_maps strings.

Local Open Scope Z_scope.

Section Props.
Context `{E : Extern} `{RC : !Routecore} `{L : Layout} `{MR : !MrtReader}.
Context `{HI : !HashIter Z IngressInfo}.

(** ** Peers in the register *)

(** An entry that [find_existing_peer] gives for a peer of the file. *)
Definition is_peer (parent : IngressId) (pe : IpAddr * Asn) (i : IngressInfo) : Prop :=
  negb (is_connected i) && peer_matches i (message_query parent pe) = true.

(** Each peer has at most one entry, and the ids to come are free. *)
Record peers_ok (parent : IngressId) (r : Register) : Prop := mk_peers_ok {
  po_one : forall pe id1 id2 i1 i2,
    info r !! id1 = Some i1 -> info r !! id2 = Some i2 ->
    is_peer parent pe i1 -> is_peer parent pe i2 -> id1 = id2;
  po_free : forall id i, info r !! id = Some i -> id < serial r
}.

(** The same entry cannot be that of two peers. *)
Lemma is_peer_inj parent pe1 pe2 i : is_peer parent pe1 i -> is_peer parent pe2 i -> pe1 = pe2.
Proof.
  unfold is_peer, peer_matches, mandatory. destruct pe1 as [a1 n1], pe2 as [a2 n2].
  destruct (remote_addr i), (remote_asn i), (parent_ingress i); cbn;
    rewrite ?andb_true_iff, ?bool_decide_eq_true; naive_solver.
Qed.

Lemma is_peer_query parent pe : is_peer parent pe (message_query parent pe).
Proof.
  unfold is_peer, peer_matches, mandatory, optional. cbn. by rewrite !bool_decide_eq_true_2.
Qed.

Lemma is_peer_index parent path pe : is_peer parent pe (peer_info parent path pe).
Proof.
  unfold is_peer, peer_matches, mandatory, optional. cbn. by rewrite !bool_decide_eq_true_2.
Qed.

Lemma find_peer_Some parent pe r id i :
  find_existing_peer (message_query parent pe) r = Some (id, i) ->
  info r !! id = Some i /\ is_peer parent pe i.
Proof. intros [? ?]%find_entry_Some. by rewrite elem_of_hm_iter in *. Qed.

Lemma find_peer_None parent pe r id i :
  find_existing_peer (message_query parent pe) r = None ->
  info r !! id = Some i -> ~ is_peer parent pe i.
Proof.
  intros Hf Hi Hp. apply elem_of_hm_iter in Hi. unfold find_existing_peer in Hf.
  pose proof (find_entry_None _ _ Hf _ _ Hi) as Hn. cbn beta in Hn. unfold is_peer in Hp.
  by rewrite Hn in Hp.
Qed.

(** The one entry of a peer is the one that is found. *)
Lemma find_peer_unique parent pe r id i :
  peers_ok parent r -> info r !! id = Some i -> is_peer parent pe i ->
  find_existing_peer (message_query parent pe) r = Some (id, i).
Proof.
  intros [Ho _] Hi Hp. destruct (find_existing_peer (message_query parent pe) r) as [[id' i']|] eqn:Hf.
  - apply find_peer_Some in Hf as [Hi' Hp']. pose proof (Ho pe id id' i i' Hi Hi' Hp Hp') as <-.
    by simplify_eq.
  - exfalso. by eapply find_peer_None.
Qed.

(** Ids are handed out in order as long as the counter has not wrapped. *)
Lemma register_with_eq i w :
  0 <= serial (m_reg w) -> serial (m_reg w) + 1 < 2 ^ 32 ->
  info (m_reg w) !! serial (m_reg w) = None ->
  register_with i w
  = (serial (m_reg w),
     mk_mrt (mk_register (serial (m_reg w) + 1) (<[serial (m_reg w) := i]> (info (m_reg w))))
       (m_out w)).
Proof.
  intros H0 Hs Hn. unfold register_with, register. cbn. rewrite update_info_spec. cbn. rewrite Hn.
  unfold set_reg, set_info, wrap. cbn. by rewrite Z.mod_small by lia.
Qed.

Lemma peers_ok_free parent r : peers_ok parent r -> info r !! serial r = None.
Proof.
  intros [_ Hf]. destruct (info r !! serial r) as [i|] eqn:Hi; [|done]. apply Hf in Hi. lia.
Qed.

(** A new entry for a peer that has none. *)
Lemma peers_ok_add parent r pe i :
  peers_ok parent r -> is_peer parent pe i ->
  (forall id i', info r !! id = Some i' -> ~ is_peer parent pe i') ->
  peers_ok parent (mk_register (serial r + 1) (<[serial r := i]> (info r))).
Proof.
  intros [Ho Hf] Hp Hn. split; cbn.
  - intros pe' id1 id2 i1 i2.
    intros [[<- <-]|[_ Hi1]]%lookup_insert_Some [[<- <-]|[_ Hi2]]%lookup_insert_Some H1 H2;
      [done|..|by eapply Ho].
    + rewrite (is_peer_inj _ _ _ _ H1 Hp) in H2. by destruct (Hn _ _ Hi2).
    + rewrite (is_peer_inj _ _ _ _ H2 Hp) in H1. by destruct (Hn _ _ Hi1).
  - intros id i'. rewrite lookup_insert. case_decide; intros Hi; [lia|]. apply Hf in Hi. lia.
Qed.

(** ** Messages *)

Definition ms_peer (m : MessageAs4) : IpAddr * Asn := (ms_peer_addr m, ms_peer_asn m).

Definition message_of (b : Bgp4Mp) : option MessageAs4 :=
  match b with BMessage m | BMessageAs4 m => Some m | _ => None end.

(** The update that a message with an UPDATE is sent as. *)
Definition message_bulk (now : Z) (id : IngressId) (reach unreach : list RotondaRoute) : Update :=
  Bulk (((fun rr => with_received rr None now id Active) <$> reach)
        ++ ((fun rr => with_received rr None now id Withdrawn) <$> unreach)).

(** What a message is sent as and returns, with [id_of] the ids of the peers: an UPDATE
    whose routes can be read as one update under the id of its peer, anything else not at
    all; only an UPDATE whose routes cannot be read is an error. *)
Definition message_sent (now : Z) (id_of : IpAddr * Asn -> option IngressId) (m : MessageAs4)
    (r : MrtError + Z * Z) (us : list Update) : Prop :=
  match bgp_msg m with
  | inr (MUpdate upd) =>
      match explode_announcements upd, explode_withdrawals upd with
      | inl e, _ | inr _, inl e => r = inl (MrtParse e) /\ us = []
      | inr reach, inr unreach =>
          r = inr (zlen reach, zlen unreach)
          /\ exists id, id_of (ms_peer m) = Some id /\ us = [message_bulk now id reach unreach]
      end
  | _ => r = inr (0, 0) /\ us = []
  end.

(** The messages of a file: the first error ends it. *)
Inductive messages_sent (now : Z) (id_of : IpAddr * Asn -> option IngressId)
  : list Bgp4Mp -> MrtError + unit -> list Update -> Prop :=
| sent_nil : messages_sent now id_of [] (inr tt) []
| sent_state b ms r us :
    message_of b = None -> messages_sent now id_of ms r us -> messages_sent now id_of (b :: ms) r us
| sent_message b m n us1 ms r us :
    message_of b = Some m -> message_sent now id_of m (inr n) us1 ->
    messages_sent now id_of ms r us -> messages_sent now id_of (b :: ms) r (us1 ++ us)
| sent_error b m e us ms :
    message_of b = Some m -> message_sent now id_of m (inl e) us ->
    messages_sent now id_of (b :: ms) (inl e) us.

(** The id of a peer in a register. *)
Definition id_in (parent : IngressId) (r : Register) (pe : IpAddr * Asn) : option IngressId :=
  fst <$> find_existing_peer (message_query parent pe) r.

(** How a register grows while a file is read. *)
Record grown (parent : IngressId) (n : Z) (r r' : Register) : Prop := mk_grown {
  gr_ok : peers_ok parent r';
  gr_info : info r ⊆ info r';
  gr_serial : serial r <= serial r' <= serial r + n
}.

Lemma grown_refl parent n r : peers_ok parent r -> 0 <= n -> grown parent n r r.
Proof. split; [done..|lia]. Qed.

Lemma grown_trans parent n k r1 r2 r3 :
  grown parent n r1 r2 -> grown parent k r2 r3 -> grown parent (n + k) r1 r3.
Proof.
  intros [_ H1 ?] [? H2 ?]. split; [done|by etrans|lia].
Qed.

Lemma id_in_grown parent n r r' pe id :
  peers_ok parent r -> grown parent n r r' -> id_in parent r pe = Some id ->
  id_in parent r' pe = Some id.
Proof.
  unfold id_in. intros Hok [Hok' Hi _] Hf.
  destruct (find_existing_peer (message_query parent pe) r) as [[id' i]|] eqn:Hfe; [|done].
  cbn in Hf. simplify_eq. apply find_peer_Some in Hfe as [Hl Hp].
  by rewrite (find_peer_unique parent pe r' id i Hok' (lookup_weaken _ _ _ _ Hl Hi) Hp).
Qed.

(** The id under which a message is sent: found, or registered. *)
Lemma peer_id_spec parent pe w :
  peers_ok parent (m_reg w) -> 0 <= serial (m_reg w) -> serial (m_reg w) + 1 < 2 ^ 32 ->
  exists id r',
    match find_existing_peer (message_query parent pe) (m_reg w) with
    | Some (id, _) => (id, w)
    | None => register_with (message_query parent pe) w
    end = (id, mk_mrt r' (m_out w))
    /\ grown parent 1 (m_reg w) r' /\ id_in parent r' pe = Some id.
Proof.
  intros Hok H0 Hs. destruct (find_existing_peer (message_query parent pe) (m_reg w)) as [[id i]|] eqn:Hf.
  - exists id, (m_reg w). split_and!; [by destruct w|by apply grown_refl|].
    unfold id_in. by rewrite Hf.
  - pose proof (peers_ok_free _ _ Hok) as Hn.
    rewrite (register_with_eq _ w H0 Hs Hn).
    assert (Hok' : peers_ok parent (mk_register (serial (m_reg w) + 1)
              (<[serial (m_reg w) := message_query parent pe]> (info (m_reg w))))).
    { apply (peers_ok_add parent (m_reg w) pe); [done|apply is_peer_query|].
      intros id i. by apply find_peer_None. }
    eexists _, _. split; [done|]. split.
    + split; [done| |cbn; lia]. by apply insert_subseteq.
    + unfold id_in. by rewrite (find_peer_unique _ _ _ (serial (m_reg w)) (message_query parent pe) Hok'
        (lookup_insert_eq _ _ _) (is_peer_query _ _)).
Qed.

Lemma process_state_change_id sc w : process_state_change sc w = w.
Proof.
  unfold process_state_change. case_bool_decide; [done|].
  destruct (old_state sc), (new_state sc); try done.
  destruct (find_existing_peer (state_change_query sc) (m_reg w)) as [[id i]|] eqn:Hf; [|done].
  apply find_entry_Some in Hf as [_ Hm]. unfold peer_matches, mandatory in Hm. cbn in Hm.
  destruct (parent_ingress i); [|by rewrite andb_false_r in Hm].
  rewrite bool_decide_eq_false_2 in Hm by done. by rewrite andb_false_r in Hm.
Qed.

Lemma message_sent_grown now parent n r r' m x us :
  peers_ok parent r -> grown parent n r r' ->
  message_sent now (id_in parent r) m x us -> message_sent now (id_in parent r') m x us.
Proof.
  intros Hok Hg. unfold message_sent. destruct (bgp_msg m) as [|[upd| | | |]]; [done| |done..].
  destruct (explode_announcements upd); [done|]. destruct (explode_withdrawals upd); [done|].
  intros (-> & id & Hid & ->). eauto using id_in_grown.
Qed.

Lemma process_message_spec now parent m w :
  peers_ok parent (m_reg w) -> 0 <= serial (m_reg w) -> serial (m_reg w) + 1 < 2 ^ 32 ->
  exists r r' us, process_message now parent m w = (r, mk_mrt r' (m_out w ++ us))
  /\ grown parent 1 (m_reg w) r' /\ message_sent now (id_in parent r') m r us.
Proof.
  intros Hok H0 Hs. unfold process_message, message_sent.
  assert (Hskip : forall r : MrtError + Z * Z,
    exists r1 r' us, (r, w) = (r1, mk_mrt r' (m_out w ++ us))
    /\ grown parent 1 (m_reg w) r' /\ (r1 = r /\ us = [])).
  { intros r. exists r, (m_reg w), []. rewrite app_nil_r.
    split_and!; [by destruct w|by apply grown_refl|done..]. }
  destruct (bgp_msg m) as [e|[upd| | | |]]; [apply Hskip| |apply Hskip..].
  destruct (explode_announcements upd) as [e|reach]; [apply Hskip|].
  destruct (explode_withdrawals upd) as [e|unreach]; [apply Hskip|].
  destruct (peer_id_spec parent (ms_peer m) w Hok H0 Hs) as (id & r' & Heq & Hg' & Hid).
  cbv zeta. unfold ms_peer in *. rewrite Heq. unfold send_update. cbn [m_reg m_out].
  eexists _, r', _. split_and!; eauto.
Qed.

Lemma process_messages_step now parent b m ms w :
  message_of b = Some m ->
  process_messages now parent (b :: ms) w
  = match process_message now parent m w with
    | (inl e, w) => (inl e, w)
    | (inr _, w) => process_messages now parent ms w
    end.
Proof. destruct b; intros [=]; by subst. Qed.

Lemma process_messages_state now parent b ms w :
  message_of b = None -> process_messages now parent (b :: ms) w = process_messages now parent ms w.
Proof. destruct b; intros [=]; cbn [process_messages]; by rewrite process_state_change_id. Qed.

Lemma process_messages_spec now parent ms w :
  peers_ok parent (m_reg w) -> 0 <= serial (m_reg w) ->
  serial (m_reg w) + zlen ms < 2 ^ 32 ->
  exists r r' us, process_messages now parent ms w = (r, mk_mrt r' (m_out w ++ us))
  /\ grown parent (zlen ms) (m_reg w) r' /\ messages_sent now (id_in parent r') ms r us.
Proof.
  revert w. induction ms as [|b ms IH]; intros w Hok H0 Hs.
  { exists (inr tt), (m_reg w), []. cbn. rewrite app_nil_r. split_and!; [by destruct w| |constructor].
    by apply grown_refl. }
  assert (Hz : zlen (b :: ms) = 1 + zlen ms) by (unfold zlen; cbn [length]; lia).
  assert (0 <= zlen ms) by (unfold zlen; lia). rewrite Hz in *.
  destruct (message_of b) as [m|] eqn:Hb.
  2: { rewrite process_messages_state by done.
       destruct (IH w) as (r & r' & us & Heq & [] & Hm); [done..|lia|].
       exists r, r', us. split_and!; [done| |by constructor]. split; [done..|lia]. }
  rewrite (process_messages_step _ _ _ m) by done.
  destruct (process_message_spec now parent m w) as (r1 & r1' & us1 & -> & Hg1 & Hm1); [done..|lia|].
  destruct r1 as [e|n].
  { exists (inl e), r1', us1. split_and!; [done| |by eapply sent_error].
    destruct Hg1; split; [done..|lia]. }
  destruct (IH (mk_mrt r1' (m_out w ++ us1))) as (r & r' & us & Heq & Hg & Hm);
    [apply Hg1|destruct Hg1; cbn; lia..|]. cbn [m_reg m_out] in *.
  exists r, r', (us1 ++ us). rewrite Heq, <- app_assoc.
  split_and!; [done|by eapply grown_trans|]. eapply sent_message; [done| |done].
  eapply message_sent_grown; [apply Hg1|done..].
Qed.

(** ** Tables *)

Definition reg_free (r : Register) : Prop := forall id i, info r !! id = Some i -> id < serial r.

Record indexed (parent : IngressId) (path : rstring) (pis : list (IpAddr * Asn))
    (r r' : Register) : Prop := mk_indexed {
  ix_serial : serial r' = serial r + zlen pis;
  ix_free : reg_free r';
  ix_old : forall id, id < serial r -> info r' !! id = info r !! id;
  ix_new : forall k pe, pis !! k = Some pe ->
    info r' !! (serial r + Z.of_nat k) = Some (peer_info parent path pe)
}.

Lemma register_peers_spec parent path pis w :
  reg_free (m_reg w) -> 0 <= serial (m_reg w) -> serial (m_reg w) + zlen pis < 2 ^ 32 ->
  exists r', register_peers parent path pis w
             = (seqZ (serial (m_reg w)) (zlen pis), mk_mrt r' (m_out w))
  /\ indexed parent path pis (m_reg w) r'.
Proof.
  revert w. induction pis as [|pe pis IH]; intros w Hf H0 Hs.
  { exists (m_reg w). split; [by destruct w|]. split; [unfold zlen; cbn; lia|done..]. }
  assert (Hz : zlen (pe :: pis) = 1 + zlen pis) by (unfold zlen; cbn [length]; lia).
  assert (0 <= zlen pis) by (unfold zlen; lia). rewrite Hz in *.
  assert (Hn : info (m_reg w) !! serial (m_reg w) = None).
  { destruct (info (m_reg w) !! serial (m_reg w)) eqn:Hi; [|done]. apply Hf in Hi. lia. }
  cbn [register_peers]. rewrite register_with_eq by (done || lia).
  set (r1 := mk_register _ _).
  assert (Hf1 : reg_free r1).
  { intros id i. cbn. rewrite lookup_insert. case_decide; intros Hi; [lia|]. apply Hf in Hi. lia. }
  destruct (IH (mk_mrt r1 (m_out w))) as (r' & -> & [Hs' Hf' Ho Hnew]); [done|cbn; lia..|].
  cbn [m_reg m_out] in *. change (serial r1) with (serial (m_reg w) + 1) in *.
  exists r'. rewrite (seqZ_cons (serial (m_reg w))) by lia. split.
  { do 2 f_equal. f_equal; lia. }
  split; [lia|done|..].
  - intros id Hid. rewrite Ho by lia. unfold r1. cbn. by rewrite lookup_insert_ne by lia.
  - intros [|k] pe' Hk; cbn in Hk.
    + simplify_eq. rewrite Z.add_0_r, Ho by lia. unfold r1. cbn. by rewrite lookup_insert_eq.
    + rewrite <- (Hnew k pe' Hk). f_equal. lia.
Qed.

(** The update of an entry of the table, if it has one. *)
Definition entry_update (now : Z) (ids : list IngressId) (e : RibEntry) : option Update :=
  match entry_route e, ids !! en_peer e with
  | inr (Some rr), Some id => Some (Single (with_received rr None now id Active))
  | _, _ => None
  end.

(** The result of a table: the entries up to the first with a prefix of the wrong family. *)
Definition table_result (es : list RibEntry) (r : MrtError + unit) (sent : list RibEntry) : Prop :=
  (forall e, e ∈ sent -> exists o, entry_route e = inr o)
  /\ (es = sent /\ r = inr tt
      \/ exists e err es2, es = sent ++ e :: es2 /\ entry_route e = inl err /\ r = inl err).

Lemma send_entries_spec now ids es w :
  Forall (fun e => (en_peer e < length ids)%nat) es ->
  exists r sent,
    send_entries now ids es w = (Some r, mk_mrt (m_reg w) (m_out w ++ omap (entry_update now ids) sent))
    /\ table_result es r sent.
Proof.
  intros Hi. revert w. induction Hi as [|e es He _ IH]; intros w.
  { exists (inr tt), []. split; [destruct w; cbn; by rewrite app_nil_r|].
    split; [by intros e ?%not_elem_of_nil|by left]. }
  cbn [send_entries]. destruct (entry_route e) as [err|o] eqn:Hr.
  { exists (inl err), []. split; [destruct w; cbn; by rewrite app_nil_r|].
    split; [by intros x ?%not_elem_of_nil|]. right. by exists e, err, es. }
  assert (Hsent : forall r sent, table_result es r sent -> table_result (e :: es) r (e :: sent)).
  { intros r sent [Ha Hb]. split.
    - intros x [->|Hx]%elem_of_cons; eauto.
    - destruct Hb as [[-> ->]|(x & err & es2 & -> & ? & ->)]; [by left|right]. by exists x, err, es2. }
  assert (Hu : forall sent, omap (entry_update now ids) (e :: sent)
    = option_list (entry_update now ids e) ++ omap (entry_update now ids) sent).
  { intros sent. cbn. by destruct (entry_update now ids e). }
  destruct o as [rr|].
  - destruct (lookup_lt_is_Some_2 ids (en_peer e) He) as [id Hid]. rewrite Hid.
    unfold mbind, run_bind, run_modify. destruct (IH (send_update (Single (with_received rr None now id Active)) w))
      as (r & sent & -> & Ht). exists r, (e :: sent). split; [|by apply Hsent].
    rewrite Hu. unfold entry_update at 2. rewrite Hr, Hid. cbn. by rewrite <- app_assoc.
  - destruct (IH w) as (r & sent & -> & Ht). exists r, (e :: sent). split; [|by apply Hsent].
    rewrite Hu. unfold entry_update at 2. by rewrite Hr.
Qed.

Lemma process_table_spec now parent path bytes pis es w :
  mrt_pi bytes = Some pis -> mrt_rib_entries bytes = inr es ->
  Forall (fun e => (en_peer e < length pis)%nat) es ->
  reg_free (m_reg w) -> 0 <= serial (m_reg w) -> serial (m_reg w) + zlen pis < 2 ^ 32 ->
  exists r r' sent,
    process_table now parent path bytes w
    = (Some r, mk_mrt r' (m_out w
                 ++ omap (entry_update now (seqZ (serial (m_reg w)) (zlen pis))) sent))
    /\ table_result es r sent /\ indexed parent path pis (m_reg w) r'.
Proof.
  intros Hpi Hes Hi Hf H0 Hs. unfold process_table. rewrite Hpi.
  destruct (register_peers_spec parent path pis w Hf H0 Hs) as (r' & Hreg & Hix).
  unfold mbind, run_bind, run_state. rewrite Hreg, Hes.
  destruct (send_entries_spec now (seqZ (serial (m_reg w)) (zlen pis)) es (mk_mrt r' (m_out w)))
    as (r & sent & -> & Ht).
  { eapply Forall_impl; [exact Hi|]. intros e. rewrite length_seqZ. unfold zlen. by rewrite Nat2Z.id. }
  by exists r, r', sent.
Qed.

(** A dump whose index names each peer once, read when the unit has no peers yet. *)
Lemma indexed_peers_ok parent path pis r r' :
  reg_free r -> 0 <= serial r -> NoDup pis ->
  (forall id i pe, info r !! id = Some i -> ~ is_peer parent pe i) ->
  indexed parent path pis r r' -> peers_ok parent r'.
Proof.
  intros Hf H0 Hnd Hno [Hs Hf' Ho Hn]. split; [|done].
  assert (Hnew : forall pe id i, info r' !! id = Some i -> is_peer parent pe i ->
            exists k, id = serial r + Z.of_nat k /\ pis !! k = Some pe).
  { intros pe id i Hi Hp. destruct (decide (id < serial r)) as [Hlt|Hge].
    - rewrite Ho in Hi by done. by destruct (Hno _ _ pe Hi).
    - pose proof (Hf' _ _ Hi) as Hlt. rewrite Hs in Hlt. unfold zlen in Hlt.
      destruct (lookup_lt_is_Some_2 pis (Z.to_nat (id - serial r))) as [pe' Hk]; [lia|].
      exists (Z.to_nat (id - serial r)). split; [lia|]. pose proof (Hn _ _ Hk) as Hi'.
      replace (serial r + Z.of_nat (Z.to_nat (id - serial r))) with id in Hi' by lia. simplify_eq.
      by rewrite (is_peer_inj _ _ _ _ Hp (is_peer_index parent path pe')). }
  intros pe id1 id2 i1 i2 Hi1 Hi2 (k1 & -> & Hk1)%(Hnew _ _ _ Hi1) (k2 & -> & Hk2)%(Hnew _ _ _ Hi2).
  by rewrite (NoDup_lookup _ _ _ _ Hnd Hk1 Hk2).
Qed.

Lemma indexed_id parent path pis r r' k pe :
  peers_ok parent r' -> indexed parent path pis r r' -> pis !! k = Some pe ->
  id_in parent r' pe = Some (serial r + Z.of_nat k).
Proof.
  intros Hok Hix Hk. unfold id_in.
  by rewrite (find_peer_unique _ _ _ _ _ Hok (ix_new _ _ _ _ _ Hix _ _ Hk) (is_peer_index _ _ _)).
Qed.

Lemma id_in_inj parent r pe1 pe2 id :
  id_in parent r pe1 = Some id -> id_in parent r pe2 = Some id -> pe1 = pe2.
Proof.
  unfold id_in. destruct (find_existing_peer (message_query parent pe1) r) as [[id1 i1]|] eqn:H1; [|done].
  destruct (find_existing_peer (message_query parent pe2) r) as [[id2 i2]|] eqn:H2; [|done].
  cbn. intros [= ->] [= ->]. apply find_peer_Some in H1 as [Hi1 Hp1], H2 as [Hi2 Hp2].
  simplify_eq. by eapply is_peer_inj.
Qed.

Lemma process_file_eq now parent path bytes w :
  file_octets path = inr bytes ->
  process_file now parent path w
  = match process_table now parent path bytes w with
    | (Some (inr _), w) => let '(r, w) := process_messages now parent (mrt_messages bytes) w in (Some r, w)
    | (Some (inl e), w) => (Some (inl e), w)
    | (None, w) => (None, w)
    end.
Proof.
  intros Hb. unfold process_file. rewrite Hb. unfold mbind, run_bind.
  by destruct (process_table now parent path bytes w) as [[[e|[]]|] w1].
Qed.

(** An update file whose message says that a session went down sends nothing and changes
    nothing, whatever the register holds: the query names no parent, which every match of
    [find_existing_peer] must have, so the routes of the peer are never withdrawn. *)
Theorem state_change_never_withdraws sc w : process_state_change sc w = w.
Proof. apply process_state_change_id. Qed.

(** The table of a dump, when the entries point into the index: each peer of the index is
    registered under the next id, in order, and nothing else of the register changes; the
    entries of the two unicast families are sent one by one, in their order, under the id
    of their peer, those of other families are left out, and the only error is a prefix of
    the wrong family, with the entries before it sent. *)
Theorem mrt_dump_exact now parent path bytes pis es w :
  mrt_pi bytes = Some pis -> mrt_rib_entries bytes = inr es ->
  Forall (fun e => (en_peer e < length pis)%nat) es ->
  reg_free (m_reg w) -> 0 <= serial (m_reg w) -> serial (m_reg w) + zlen pis < 2 ^ 32 ->
  exists r r' sent,
    process_table now parent path bytes w
    = (Some r, mk_mrt r' (m_out w
                 ++ omap (entry_update now (seqZ (serial (m_reg w)) (zlen pis))) sent))
    /\ table_result es r sent /\ indexed parent path pis (m_reg w) r'.
Proof. apply process_table_spec. Qed.

(** The messages of an update file, from a register with at most one entry for each peer of
    the unit: every UPDATE whose routes can be read goes out as one update, announcements
    before withdrawals, in the order of the file, under the one id its peer has in the
    register that results; no two peers share an id, the entries that were there stay, and
    the register still has at most one entry for each peer. *)
Theorem mrt_messages_one_id now parent ms w :
  peers_ok parent (m_reg w) -> 0 <= serial (m_reg w) -> serial (m_reg w) + zlen ms < 2 ^ 32 ->
  exists r r' us, process_messages now parent ms w = (r, mk_mrt r' (m_out w ++ us))
  /\ messages_sent now (id_in parent r') ms r us
  /\ (forall pe1 pe2 id, id_in parent r' pe1 = Some id -> id_in parent r' pe2 = Some id -> pe1 = pe2)
  /\ info (m_reg w) ⊆ info r' /\ peers_ok parent r'.
Proof.
  intros Hok H0 Hs. destruct (process_messages_spec now parent ms w Hok H0 Hs)
    as (r & r' & us & Heq & [? ? ?] & Hm).
  exists r, r', us. split_and!; try done. intros pe1 pe2 id. apply id_in_inj.
Qed.

(** C38: a dump and then an update file, read by a unit that has read nothing yet (the
    register has no peer entry under its parent, and no other unit changes it meanwhile).
    Both files can be read; the dump has an index that names each of its peers once, its
    entries point into the index, none of them is an error (a prefix that does not fit the
    family of its record), and it has no messages; the update file has no index; and the
    register has ids left for the peers and the messages. Then every entry of the dump that
    is of one of the families the unit knows is sent, in order, under the id of its peer
    (entries of other families are skipped); the messages of a peer of the index go out
    under the id its entries of the dump had, so that they change and withdraw those very
    routes; and a peer that is not in the index gets an id of its own. *)
Theorem updates_follow_dump now parent dump upd a1 a2 b1 b2 pis es w :
  file_octets dump = inr b1 -> mrt_pi b1 = Some pis -> mrt_rib_entries b1 = inr es ->
  mrt_messages b1 = [] -> file_octets upd = inr b2 -> mrt_pi b2 = None ->
  NoDup pis -> Forall (fun e => (en_peer e < length pis)%nat) es ->
  Forall (fun e => exists o, entry_route e = inr o) es ->
  reg_free (m_reg w) -> (forall id i pe, info (m_reg w) !! id = Some i -> ~ is_peer parent pe i) ->
  0 <= serial (m_reg w) ->
  serial (m_reg w) + zlen pis + zlen (mrt_messages b2) < 2 ^ 32 ->
  exists r r' us p,
    process_queue now parent [(dump, a1); (upd, a2)] (mk_processed [] []) w
    = (Some p, mk_mrt r' (m_out w
        ++ omap (entry_update now (seqZ (serial (m_reg w)) (zlen pis))) es ++ us))
    /\ results p = [inr dump; match r with inl e => inl e | inr _ => inr upd end]
    /\ messages_sent now (id_in parent r') (mrt_messages b2) r us
    /\ (forall k pe, pis !! k = Some pe -> id_in parent r' pe = Some (serial (m_reg w) + Z.of_nat k))
    /\ (forall pe1 pe2 id, id_in parent r' pe1 = Some id -> id_in parent r' pe2 = Some id -> pe1 = pe2).
Proof.
  intros Hb1 Hpi Hes Hm1 Hb2 Hpi2 Hnd Hir Hok Hf Hno H0 Hs.
  assert (0 <= zlen (mrt_messages b2)) by (unfold zlen; lia).
  destruct (process_table_spec now parent dump b1 pis es w Hpi Hes Hir Hf H0)
    as (r1 & r1' & sent & Ht & [_ Hres] & Hix); [lia|].
  assert (es = sent /\ r1 = inr tt) as [<- ->].
  { destruct Hres as [?|(e & err & es2 & -> & He & _)]; [done|].
    apply Forall_app in Hok as [_ [[o Ho] _]%Forall_cons_1]. congruence. }
  pose proof (indexed_peers_ok _ _ _ _ _ Hf H0 Hnd Hno Hix) as Hpk.
  set (out1 := m_out w ++ _) in Ht.
  pose proof (ix_serial _ _ _ _ _ Hix) as Hser. assert (0 <= zlen pis) by (unfold zlen; lia).
  destruct (process_messages_spec now parent (mrt_messages b2) (mk_mrt r1' out1))
    as (r & r' & us & Heq & Hg & Hm); [done|cbn; lia..|]. cbn [m_reg m_out] in *.
  cbn [process_queue]. unfold mbind, run_bind.
  rewrite (process_file_eq _ _ _ _ _ Hb1), Ht, Hm1. cbn [process_messages].
  rewrite (process_file_eq _ _ _ _ _ Hb2). unfold process_table at 1. rewrite Hpi2.
  cbn [mret run_ret]. unfold mret at 1, run_ret at 1. rewrite Heq.
  eexists r, r', us, _. split_and!; [unfold out1; by rewrite <- app_assoc|done..| |].
  - intros k pe Hk. eapply id_in_grown; [done..|]. by eapply indexed_id.
  - intros pe1 pe2 id. apply id_in_inj.
Qed.
End Props.

(** ** A dump and an update file read by the MRT unit

    One peer with one IPv6 route in the dump; the update file says that the session
    went down, and then has an UPDATE of that peer and one of another. *)
From S2P Require Import BmpDecode.

Local Open Scope Z_scope.

#[local] Existing Instance Demo.extern.
#[local] Existing Instance demo_layout.
#[local] Existing Instance DemoBmp.routecore.

Module MrtDemo.

#[export] Instance order : HashIter Z IngressInfo := list_order _ _.

Definition net6 : Prefix := Demo.pfx (V6 (32 * 2 ^ 120 + 2 ^ 112)) 16 eq_refl.

(** ORIGIN, and an MP_REACH_NLRI with only the next hop. *)
Definition blob : list Z := [64; 1; 1; 0; 128; 14; 3; 2; 9; 9].

Definition peer1 : IpAddr * Asn := (V4 167772161, 65001).
Definition peer2 : IpAddr * Asn := (V4 167772162, 65002).

Definition entry : RibEntry := mk_entry Ipv6Unicast 0 net6 blob.

Definition empty_update : Parsed :=
  mk_parsed (DemoBmp.mk_upd (inr None) (inr (mk_opa modern [])) modern)
    (inr []) (inr [inr (NlriIpv6Unicast net6)]) (inr []).

Definition message (pe : IpAddr * Asn) : Bgp4Mp :=
  BMessageAs4 (mk_message (inr (MUpdate empty_update)) pe.1 pe.2).

Definition news : list Bgp4Mp :=
  [BStateChangeAs4 (mk_state_change Established Idle peer1.1 peer1.2); message peer1; message peer2].

#[export] Instance reader : MrtReader := {|
  read_file p := if bool_decide (p = str "dump") then Some [1]
                 else if bool_decide (p = str "updates") then Some [2] else None;
  gz_decode _ := None;
  bz2_decode _ := None;
  mrt_pi b := match b with [1] => Some [peer1] | _ => None end;
  mrt_rib_entries b := inr match b with [1] => [entry] | _ => [] end;
  mrt_messages b := match b with [2] => news | _ => [] end;
  nlri_try_from v4 p := if Bool.eqb v4 (prefix_is_v4 p) then None else Some (str "family")
|}.

Definition start : MrtWorld := mk_mrt (mk_register 2 ∅) [].

Lemma start_free : reg_free (m_reg start).
Proof. intros id i. cbn. by rewrite lookup_empty. Qed.

Lemma start_ok : peers_ok 1 (m_reg start).
Proof. split; [intros pe id1 id2 i1 i2 H; cbn in H; by rewrite lookup_empty in H|apply start_free]. Qed.

End MrtDemo.

#[local] Existing Instances MrtDemo.order MrtDemo.reader.

Lemma mp_reach_normalized_witness :
  length (fst (attrs_of (normalize_mrt_mp_reach MrtDemo.blob 2 1 MrtDemo.net6))) = 2%nat.
Proof.
  destruct (mp_reach_normalized MrtDemo.blob MrtDemo.net6 eq_refl) as (_ & _ & H).
  - repeat constructor; lia.
  - by rewrite <- (Forall2_length _ _ _ H).
Defined.

Lemma mrt_dump_exact_witness :
  exists r r' sent, process_table 5 1 (str "dump") [1] MrtDemo.start
    = (Some r, mk_mrt r' ([] ++ omap (entry_update 5 [2]) sent))
  /\ info r' !! 2 = Some (peer_info 1 (str "dump") MrtDemo.peer1).
Proof.
  destruct (mrt_dump_exact (MR := MrtDemo.reader) 5 1 (str "dump") [1] [MrtDemo.peer1] [MrtDemo.entry] MrtDemo.start
    eq_refl eq_refl ltac:(repeat constructor) MrtDemo.start_free ltac:(done) ltac:(done))
    as (r & r' & sent & Heq & _ & Hix).
  exists r, r', sent. split; [exact Heq|]. exact (ix_new _ _ _ _ _ Hix 0 _ eq_refl).
Defined.

Lemma mrt_messages_one_id_witness :
  exists r r' us, process_messages 5 1 MrtDemo.news MrtDemo.start = (r, mk_mrt r' us)
  /\ messages_sent 5 (id_in 1 r') MrtDemo.news r us.
Proof.
  destruct (mrt_messages_one_id (HI := MrtDemo.order) 5 1 MrtDemo.news MrtDemo.start MrtDemo.start_ok ltac:(done) ltac:(done))
    as (r & r' & us & Heq & Hm & _).
  by exists r, r', us.
Defined.

Lemma updates_follow_dump_witness :
  exists r', m_reg (process_queue 5 1 [(str "dump", false); (str "updates", true)]
                      (mk_processed [] []) MrtDemo.start).2 = r'
    /\ id_in 1 r' MrtDemo.peer1 = Some 2.
Proof.
  destruct (updates_follow_dump (MR := MrtDemo.reader) (HI := MrtDemo.order) 5 1 (str "dump") (str "updates") false true [1] [2]
    [MrtDemo.peer1] [MrtDemo.entry] MrtDemo.start eq_refl eq_refl eq_refl eq_refl eq_refl eq_refl)
    as (r & r' & us & p & -> & _ & _ & Hid & _).
  - apply NoDup_singleton.
  - repeat constructor.
  - repeat constructor. by eexists.
  - apply MrtDemo.start_free.
  - intros id i pe H. cbn in H. by rewrite lookup_empty in H.
  - done.
  - done.
  - exists r'. split; [done|]. exact (Hid 0%nat _ eq_refl).
Defined.
