(* ===== verification/Metrics.v ===== *)
(** * The metrics output ([src/metrics.rs])

    [Target] with the text it assembles, the records that are appended to it,
    and the [Collection] of sources.  Text is a list of characters; a value is the
    text that its [Display] gives.  The format for unit tests is left out.

    [MetricsText] has the reader of the text. *)

From S2P Require Import Prelude.
From Stdlib Require Import ZArith Lia.
From stdpp Require Import base numbers list gmap strings sorting.

Local Open Scope Z_scope.

(** ** Metrics *)

Inductive OutputFormat : Type := Prometheus | Plain.

Inductive MetricType : Type := Counter | Gauge | Histogram | Summary | Text.

Inductive MetricUnit : Type :=
| Second | Millisecond | Microsecond | Byte | Total | State | Info.

#[export] Instance OutputFormat_eq_dec : EqDecision OutputFormat.
Proof. solve_decision. Defined.

#[export] Instance MetricType_eq_dec : EqDecision MetricType.
Proof. solve_decision. Defined.

Definition metric_type_text (t : MetricType) : rstring :=
  match t with
  | Counter => str "counter" | Gauge => str "gauge" | Histogram => str "histogram"
  | Summary => str "summary" | Text => str "text"
  end.

Definition metric_unit_text (u : MetricUnit) : rstring :=
  match u with
  | Second => str "seconds" | Millisecond => str "milliseconds"
  | Microsecond => str "microseconds" | Byte => str "bytes" | Total => str "total"
  | Info => str "info" | State => str "state"
  end.

Record Metric : Type := metric_new {
  me_name : rstring;
  me_help : rstring;
  me_type : MetricType;
  me_unit : MetricUnit
}.

Definition allows_text (f : OutputFormat) : bool :=
  match f with Prometheus => false | Plain => true end.

Definition supports_type (f : OutputFormat) (t : MetricType) : bool :=
  match f, t with
  | Prometheus, Text => false
  | _, _ => true
  end.

(** ** [Target] *)

Definition PROMETHEUS_PREFIX : rstring := str "rotonda".

Record Target : Type := mk_target {
  format : OutputFormat;
  target : rstring
}.

(** The version of the package is that of its manifest. *)
Definition target_new (f : OutputFormat) : Target :=
  mk_target f (match f with
               | Plain => str "version: rotonda/0.6.0-fnm9" ++ [10]
               | Prometheus => []
               end).

Definition push_str (s : rstring) (t : Target) : Target :=
  mk_target (format t) (target t ++ s).

Definition into_string (t : Target) : rstring := target t.

(** The text [name="value"] of a label. *)
Definition quoted (name value : rstring) : rstring := name ++ [61; 34] ++ value ++ [34].

Definition metric_name (f : OutputFormat) (metric : Metric) (unit_name suffix : option rstring)
  : rstring :=
  match f with
  | Prometheus =>
      PROMETHEUS_PREFIX ++ [95] ++ me_name metric ++ [95] ++ metric_unit_text (me_unit metric)
      ++ match suffix with Some suffix => [95] ++ suffix | None => [] end
  | Plain =>
      match unit_name with
      | Some unit => unit ++ [32] ++ me_name metric
      | None => me_name metric
      end
  end.

Definition append_metric_name (metric : Metric) (unit_name suffix : option rstring) (t : Target)
  : Target := push_str (metric_name (format t) metric unit_name suffix) t.

(** ** [Records] *)

(** The metric and the component whose values are appended. *)
Record Records : Type := mk_records {
  re_metric : Metric;
  re_unit_name : option rstring
}.

Definition suffixed_value (r : Records) (value : rstring) (suffix : option rstring) (t : Target)
  : Target :=
  let t := append_metric_name (re_metric r) (re_unit_name r) suffix t in
  match format t with
  | Prometheus =>
      let t := match re_unit_name r with
               | Some unit_name => push_str ([123] ++ quoted (str "component") unit_name ++ [125]) t
               | None => t
               end in
      push_str ([32] ++ value ++ [10]) t
  | Plain => push_str (str ": " ++ value ++ [10]) t
  end.

Definition value (r : Records) (v : rstring) (t : Target) : Target := suffixed_value r v None t.

(** The loop over the labels; [comma] says that one was written before. *)
Fixpoint write_labels (labels : list (rstring * rstring)) (comma : bool) (t : Target) : Target :=
  match labels with
  | [] => t
  | (name, value) :: labels =>
      write_labels labels true
        (push_str (if comma then [44] ++ quoted name value else quoted name value) t)
  end.

Fixpoint write_plain_labels (labels : list (rstring * rstring)) (t : Target) : Target :=
  match labels with
  | [] => t
  | (name, value) :: labels =>
      write_plain_labels labels (push_str ([32] ++ name ++ [61] ++ value) t)
  end.

Definition suffixed_label_value (r : Records) (labels : list (rstring * rstring))
    (value : rstring) (suffix : option rstring) (t : Target) : Target :=
  let t := append_metric_name (re_metric r) (re_unit_name r) suffix t in
  match format t with
  | Prometheus =>
      let t := push_str [123] t in
      let t := match re_unit_name r with
               | Some unit_name =>
                   write_labels labels true (push_str (quoted (str "component") unit_name) t)
               | None => write_labels labels false t
               end in
      push_str ([125; 32] ++ value ++ [10]) t
  | Plain => push_str (str ": " ++ value ++ [10]) (write_plain_labels labels t)
  end.

Definition label_value (r : Records) (labels : list (rstring * rstring)) (v : rstring)
    (t : Target) : Target := suffixed_label_value r labels v None t.

(** ** Appending *)

(** [append]; [values] is the closure. *)
Definition append (metric : Metric) (unit_name : option rstring)
    (values : Records -> Target -> Target) (t : Target) : Target :=
  if negb (supports_type (format t) (me_type metric)) then t
  else
    let t := if bool_decide (format t = Prometheus) then
               let t := push_str (str "# HELP ") t in
               let t := append_metric_name metric unit_name None t in
               let t := push_str ([32] ++ me_help metric ++ [10]) t in
               let t := push_str (str "# TYPE ") t in
               let t := append_metric_name metric unit_name None t in
               push_str ([32] ++ metric_type_text (me_type metric) ++ [10]) t
             else t in
    values (mk_records metric unit_name) t.

Definition append_simple (metric : Metric) (unit_name : option rstring) (v : rstring) (t : Target)
  : Target := append metric unit_name (fun records => value records v) t.

(** [append_raw]; [None] is the [todo!] of the plain format. *)
Definition append_raw (raw : rstring) (t : Target) : option Target :=
  match format t with
  | Prometheus => Some (push_str (raw ++ [10]) t)
  | Plain => None
  end.

Definition append_labelled_metric (unit_name label_id label : rstring) (metric : Metric)
    (metric_value : rstring) (t : Target) : Target :=
  append metric (Some unit_name)
    (fun records => label_value records [(label_id, label)] metric_value) t.

Definition append_per_router_metric (unit_name router_id : rstring) (metric : Metric)
    (metric_value : rstring) (t : Target) : Target :=
  append_labelled_metric unit_name (str "router") router_id metric metric_value t.

(** ** [Collection] *)

(** The comparison of two names. *)
Fixpoint name_leb (s t : rstring) : bool :=
  match s, t with
  | [], _ => true
  | _ :: _, [] => false
  | a :: s, b :: t => if a =? b then name_leb s t else a <? b
  end.

(** A registered source: the name of the component, and a weak pointer. *)
Record RegisteredSource : Type := mk_registered {
  rs_name : rstring;
  rs_source : nat
}.

(** [sort_by] is stable: an element goes behind those with names up to its own. *)
Fixpoint insert_source (x : RegisteredSource) (l : list RegisteredSource) : list RegisteredSource :=
  match l with
  | [] => [x]
  | y :: l => if name_leb (rs_name y) (rs_name x) then y :: insert_source x l else x :: y :: l
  end.

Definition sort_by_name (l : list RegisteredSource) : list RegisteredSource :=
  foldl (fun acc x => insert_source x acc) [] l.

Section Collection.

(** What the pointers point to; those not in the map are gone.  [None] is a panic of a
    source. *)
Context (Source : Type) (source_append : Source -> rstring -> Target -> option Target).
Implicit Types alive : gmap nat Source.

(** [register]: what is gone is left out. *)
Definition collection_register (name : rstring) (source : nat) alive (sources : list RegisteredSource)
  : list RegisteredSource :=
  sort_by_name
    (filter (fun item => is_Some (alive !! rs_source item)) sources ++ [mk_registered name source]).

Definition ASSEMBLE_TIME_MS_METRIC : Metric :=
  metric_new (str "metric_assemble_duration")
    (str "the time taken in milliseconds to assemble the last metric snapshot") Gauge Millisecond.

Fixpoint append_sources alive (sources : list RegisteredSource) (t : Target) : option Target :=
  match sources with
  | [] => Some t
  | item :: sources =>
      t ← (match alive !! rs_source item with
           | Some source => source_append source (rs_name item) t
           | None => Some t
           end);
      append_sources alive sources t
  end.

(** [ms] is the milliseconds it took. *)
Definition assemble (f : OutputFormat) alive (sources : list RegisteredSource) (ms : rstring)
  : option rstring :=
  t ← append_sources alive sources (target_new f);
  Some (into_string (append_simple ASSEMBLE_TIME_MS_METRIC None ms t)).

End Collection.
