(* ===== verification/MetricsText.v ===== *)
(** * Reading the metrics output back ([src/metrics.rs])

    A reader of the text format that Prometheus documents: lines with the help
    and the type of a metric, and samples with labels, whose values are quoted
    with escapes for the backslash, the quote and the line feed.  Against it the
    output in that format is what was appended, as long as names and label values
    need no escaping; and the collection of sources is the stable sort of what
    was registered and still lives. *)

From S2P Require Import Prelude Metrics.
From Stdlib Require Import ZArith Lia.
From stdpp Require Import base numbers list gmap strings sorting.

Local Open Scope Z_scope.

(** ** The reader *)

Inductive Line : Type :=
| LHelp (name text : rstring)
| LType (name type : rstring)
| LSample (name : rstring) (labels : list (rstring * rstring)) (value : rstring).

(** The characters before the first that satisfies [p], and the rest from there. *)
Fixpoint until (p : Z -> bool) (l : rstring) : rstring * rstring :=
  match l with
  | [] => ([], [])
  | c :: l => if p c then ([], c :: l) else let '(a, b) := until p l in (c :: a, b)
  end.

(** A label value, behind its opening quote. *)
Fixpoint read_quoted (l : rstring) : option (rstring * rstring) :=
  match l with
  | [] => None
  | c :: l =>
      if c =? 34 then Some ([], l)
      else if c =? 92 then
        match l with
        | e :: l =>
            c ← (if (e =? 92) || (e =? 34) then Some e else if e =? 110 then Some 10 else None);
            '(v, r) ← read_quoted l; Some (c :: v, r)
        | [] => None
        end
      else '(v, r) ← read_quoted l; Some (c :: v, r)
  end.

(** The labels behind the opening brace, and what follows the closing one. *)
Fixpoint read_labels (fuel : nat) (l : rstring) : option (list (rstring * rstring) * rstring) :=
  match fuel, l with
  | S fuel, c :: _ =>
      if c =? 125 then Some ([], drop 1 l)
      else
        let '(n, r) := until (Z.eqb 61) l in
        match r with
        | _ :: q :: r =>
            if negb (q =? 34) then None
            else
              '(v, r) ← read_quoted r;
              match r with
              | d :: r =>
                  if d =? 44 then '(ls, r) ← read_labels fuel r; Some ((n, v) :: ls, r)
                  else if d =? 125 then Some ([(n, v)], r)
                  else None
              | [] => None
              end
        | _ => None
        end
  | _, _ => None
  end.

Definition read_value (name : rstring) (labels : list (rstring * rstring)) (l : rstring)
  : option Line :=
  match l with
  | c :: v => if (c =? 32) && bool_decide (32 ∉ v) then Some (LSample name labels v) else None
  | [] => None
  end.

Definition read_sample (l : rstring) : option Line :=
  let '(n, r) := until (fun c => (c =? 123) || (c =? 32)) l in
  match r with
  | c :: r' =>
      if c =? 123 then '(ls, r) ← read_labels (length l) r'; read_value n ls r
      else read_value n [] r
  | [] => None
  end.

(** The text behind a keyword: a name, and the rest behind the space that ends it. *)
Definition read_comment (keyword l : rstring) : option (rstring * rstring) :=
  if bool_decide (take (length keyword) l = keyword) then
    let '(n, r) := until (Z.eqb 32) (drop (length keyword) l) in
    match r with
    | _ :: text => Some (n, text)
    | [] => None
    end
  else None.

Definition read_line (l : rstring) : option Line :=
  match read_comment (str "# HELP ") l, read_comment (str "# TYPE ") l with
  | Some (n, text), _ => Some (LHelp n text)
  | None, Some (n, text) => Some (LType n text)
  | None, None => read_sample l
  end.

(** The lines of a text, each ended by a line feed. *)
Fixpoint read_lines (cur l : rstring) : option (list Line) :=
  match l with
  | [] => if bool_decide (cur = []) then Some [] else None
  | c :: l =>
      if c =? 10 then x ← read_line cur; xs ← read_lines [] l; Some (x :: xs)
      else read_lines (cur ++ [c]) l
  end.

Definition read_text (l : rstring) : option (list Line) := read_lines [] l.

(** ** The printer the reader inverts *)

Fixpoint labels_text (ls : list (rstring * rstring)) : rstring :=
  match ls with
  | [] => []
  | [(n, v)] => quoted n v
  | (n, v) :: ls => quoted n v ++ [44] ++ labels_text ls
  end.

(** A sample has braces when they are asked for. *)
Definition sample_text (braces : bool) (n : rstring) (ls : list (rstring * rstring)) (v : rstring)
  : rstring :=
  n ++ (if braces then [123] ++ labels_text ls ++ [125] else []) ++ [32] ++ v.

(** Letters, digits and underscores. *)
Definition name_char (c : Z) : bool :=
  ((97 <=? c) && (c <=? 122)) || ((65 <=? c) && (c <=? 90)) || ((48 <=? c) && (c <=? 57)) || (c =? 95).

Definition name_ok (n : rstring) : Prop := Forall (fun c => name_char c = true) n.

(** A label value that needs no escapes. *)
Definition label_ok (v : rstring) : Prop := Forall (fun c => c <> 10 /\ c <> 34 /\ c <> 92) v.

Definition value_ok (v : rstring) : Prop := Forall (fun c => c <> 10 /\ c <> 32) v.

Definition help_ok (v : rstring) : Prop := Forall (fun c => c <> 10 /\ c <> 92) v.

Definition labels_ok (ls : list (rstring * rstring)) : Prop :=
  Forall (fun l => name_ok l.1 /\ label_ok l.2) ls.

Lemma name_char_not n c : name_char c = true -> name_char n = false -> c <> n.
Proof. by intros H Hn ->; rewrite H in Hn. Qed.

Lemma until_app p a c b :
  Forall (fun c => p c = false) a -> p c = true -> until p (a ++ c :: b) = (a, c :: b).
Proof.
  intros Ha Hc. induction Ha as [|x a Hx Ha IH]; cbn; [by rewrite Hc|].
  by rewrite Hx, IH.
Qed.

Lemma name_until p n c b :
  name_ok n -> (forall x, name_char x = true -> p x = false) -> p c = true ->
  until p (n ++ c :: b) = (n, c :: b).
Proof. intros Hn Hp. apply until_app. eapply Forall_impl; [exact Hn|]. naive_solver. Qed.

Lemma read_quoted_ok v r : label_ok v -> read_quoted (v ++ 34 :: r) = Some (v, r).
Proof.
  induction 1 as [|c v (H10 & H34 & H92) _ IH]; [done|]. cbn [app read_quoted].
  rewrite (proj2 (Z.eqb_neq c 34)), (proj2 (Z.eqb_neq c 92)) by done. rewrite IH. done.
Qed.

Lemma labels_text_cons n v l ls : labels_text ((n, v) :: l :: ls) = quoted n v ++ [44] ++ labels_text (l :: ls).
Proof. done. Qed.

Lemma labels_text_head n v ls :
  labels_text ((n, v) :: ls)
  = quoted n v ++ match ls with [] => [] | _ => [44] ++ labels_text ls end.
Proof. destruct ls; [by rewrite app_nil_r|done]. Qed.

(** One label, whatever its name starts with. *)
Lemma read_label fuel n v d r :
  name_ok n -> label_ok v ->
  read_labels (S fuel) (quoted n v ++ d :: r)
  = (if d =? 44 then '(ls, r) ← read_labels fuel r; Some ((n, v) :: ls, r)
     else if d =? 125 then Some ([(n, v)], r) else None).
Proof.
  intros Hn Hv. unfold quoted. rewrite <- !app_assoc. cbn [app].
  assert (Hu : until (Z.eqb 61) (n ++ 61 :: 34 :: v ++ 34 :: d :: r) = (n, 61 :: 34 :: v ++ 34 :: d :: r)).
  { apply name_until; [done| |done]. intros x Hx. apply Z.eqb_neq. intros <-. done. }
  assert (Hc : exists c l, n ++ 61 :: 34 :: v ++ 34 :: d :: r = c :: l /\ c <> 125).
  { destruct n as [|c n]; [by eexists _, _|]. exists c. eexists. split; [done|].
    apply Forall_cons_1 in Hn as [Hc _]. by intros ->. }
  destruct Hc as (c & l & Hl & Hc). rewrite Hl in *. cbn [read_labels].
  rewrite (proj2 (Z.eqb_neq c 125) Hc), Hu. cbn [negb Z.eqb Pos.eqb].
  by rewrite read_quoted_ok by done.
Qed.

Lemma read_labels_ok fuel ls r :
  labels_ok ls -> (length ls < fuel)%nat ->
  read_labels fuel (labels_text ls ++ 125 :: r) = Some (ls, r).
Proof.
  intros Hl. revert fuel. induction Hl as [|[n v] ls [Hn Hv] Hl IH]; intros fuel Hf;
    (destruct fuel as [|fuel]; [cbn in Hf; lia|]); [done|]. cbn [fst snd] in *.
  destruct ls as [|l ls].
  - cbn [labels_text]. by rewrite read_label.
  - rewrite labels_text_cons, <- !app_assoc. cbn [app]. rewrite read_label by done.
    cbn [Z.eqb Pos.eqb]. rewrite IH by (cbn in *; lia). done.
Qed.

Lemma labels_text_length ls : (length ls <= length (labels_text ls))%nat.
Proof.
  induction ls as [|[n v] ls IH]; [done|]. destruct ls as [|l ls].
  - cbn [labels_text]. unfold quoted. rewrite !length_app. cbn [length]. lia.
  - rewrite labels_text_cons, !length_app. cbn [length] in *. lia.
Qed.

Lemma name_not x : name_char x = true ->
  x <> 10 /\ x <> 32 /\ x <> 34 /\ x <> 35 /\ x <> 44 /\ x <> 61 /\ x <> 92 /\ x <> 123 /\ x <> 125.
Proof. intros H. split_and!; intros ->; done. Qed.

Lemma read_sample_ok braces n ls v :
  name_ok n -> labels_ok ls -> value_ok v -> (braces = false -> ls = []) ->
  read_sample (sample_text braces n ls v) = Some (LSample n ls v).
Proof.
  intros Hn Hl Hv Hb. unfold read_sample.
  assert (H32 : bool_decide (32 ∉ v) = true).
  { apply bool_decide_eq_true. intros Hi. by destruct (proj1 (Forall_forall _ _) Hv _ Hi). }
  assert (Hp : forall x, name_char x = true -> (x =? 123) || (x =? 32) = false).
  { intros x (? & ? & ? & ? & ? & ? & ? & ? & ?)%name_not. apply orb_false_iff.
    by rewrite !Z.eqb_neq. }
  destruct braces.
  - set (l := sample_text true n ls v).
    assert (Hlen : (length ls < length l)%nat).
    { pose proof (labels_text_length ls). unfold l, sample_text. rewrite !length_app. cbn [length]. lia. }
    assert (He : l = n ++ 123 :: labels_text ls ++ 125 :: 32 :: v).
    { unfold l, sample_text. rewrite <- !app_assoc. cbn [app]. by rewrite <- ?app_assoc. }
    rewrite He at 1. rewrite name_until by done. cbn [Z.eqb Pos.eqb].
    rewrite read_labels_ok by done. cbn [mbind option_bind]. unfold read_value. by rewrite H32.
  - rewrite Hb by done. unfold sample_text. cbn [app]. rewrite name_until by done.
    cbn [Z.eqb Pos.eqb]. unfold read_value. by rewrite H32.
Qed.

(** ** The lines of the output *)

(** The values that a closure appends, with their suffixes. *)
Inductive Value : Type :=
| VSimple (v : rstring) (suffix : option rstring)
| VLabelled (labels : list (rstring * rstring)) (v : rstring) (suffix : option rstring).

Fixpoint append_values (vs : list Value) (r : Records) (t : Target) : Target :=
  match vs with
  | [] => t
  | VSimple v suffix :: vs => append_values vs r (suffixed_value r v suffix t)
  | VLabelled ls v suffix :: vs => append_values vs r (suffixed_label_value r ls v suffix t)
  end.

(** One call of [append]. *)
Record Call : Type := mk_call {
  ca_metric : Metric;
  ca_unit : option rstring;
  ca_values : list Value
}.

Definition call_append (c : Call) (t : Target) : Target :=
  append (ca_metric c) (ca_unit c) (append_values (ca_values c)) t.

Definition calls_append (cs : list Call) (t : Target) : Target :=
  foldl (fun t c => call_append c t) t cs.

Definition sample_name (m : Metric) (suffix : option rstring) : rstring :=
  metric_name Prometheus m None suffix.

Definition component_label (u : option rstring) : list (rstring * rstring) :=
  match u with Some u => [(str "component", u)] | None => [] end.

(** What the reader should find for a value and for a call. *)
Definition value_line (m : Metric) (u : option rstring) (v : Value) : Line :=
  match v with
  | VSimple v suffix => LSample (sample_name m suffix) (component_label u) v
  | VLabelled ls v suffix => LSample (sample_name m suffix) (component_label u ++ ls) v
  end.

Definition call_lines (c : Call) : list Line :=
  if bool_decide (me_type (ca_metric c) = Text) then []
  else LHelp (sample_name (ca_metric c) None) (me_help (ca_metric c))
       :: LType (sample_name (ca_metric c) None) (metric_type_text (me_type (ca_metric c)))
       :: (value_line (ca_metric c) (ca_unit c) <$> ca_values c).

Definition opt_ok (P : rstring -> Prop) (o : option rstring) : Prop :=
  match o with Some x => P x | None => True end.

Definition record_ok (v : Value) : Prop :=
  match v with
  | VSimple v suffix => value_ok v /\ opt_ok name_ok suffix
  | VLabelled ls v suffix => labels_ok ls /\ value_ok v /\ opt_ok name_ok suffix
  end.

(** Names of letters, digits and underscores, label values without quote, backslash and
    line feed, values without blanks. *)
Record call_clean (c : Call) : Prop := mk_call_clean {
  ok_name : name_ok (me_name (ca_metric c));
  ok_help : help_ok (me_help (ca_metric c));
  ok_unit : opt_ok label_ok (ca_unit c);
  ok_values : Forall record_ok (ca_values c)
}.

(** Only asked for what is written. *)
Definition call_ok (c : Call) : Prop := me_type (ca_metric c) <> Text -> call_clean c.

(** The text of a line as the target has it. *)
Definition value_text (m : Metric) (u : option rstring) (v : Value) : rstring :=
  match v with
  | VSimple v suffix =>
      sample_text (match u with Some _ => true | None => false end) (sample_name m suffix) (component_label u) v
  | VLabelled ls v suffix => sample_text true (sample_name m suffix) (component_label u ++ ls) v
  end.

Definition comment_text (keyword n text : rstring) : rstring := keyword ++ n ++ [32] ++ text.

Definition call_texts (c : Call) : list rstring :=
  if bool_decide (me_type (ca_metric c) = Text) then []
  else comment_text (str "# HELP ") (sample_name (ca_metric c) None) (me_help (ca_metric c))
       :: comment_text (str "# TYPE ") (sample_name (ca_metric c) None)
            (metric_type_text (me_type (ca_metric c)))
       :: (value_text (ca_metric c) (ca_unit c) <$> ca_values c).

(** Lines, each ended. *)
Definition lines_text (l : list rstring) : rstring := concat ((fun x => x ++ [10]) <$> l).

Lemma lines_text_app l k : lines_text (l ++ k) = lines_text l ++ lines_text k.
Proof. unfold lines_text. by rewrite fmap_app, concat_app. Qed.

Lemma push_push a b t : push_str b (push_str a t) = push_str (a ++ b) t.
Proof. unfold push_str. cbn. by rewrite app_assoc. Qed.

Lemma write_labels_true ls t :
  write_labels ls true t
  = push_str (match ls with [] => [] | _ => [44] ++ labels_text ls end) t.
Proof.
  revert t. induction ls as [|[n v] ls IH]; intros t.
  - destruct t. unfold push_str. cbn. by rewrite app_nil_r.
  - cbn [write_labels]. rewrite IH, push_push. f_equal.
    by rewrite labels_text_head, <- app_assoc.
Qed.

Lemma write_labels_false ls t : write_labels ls false t = push_str (labels_text ls) t.
Proof.
  destruct ls as [|[n v] ls]; [destruct t; unfold push_str; cbn; by rewrite app_nil_r|].
  cbn [write_labels]. by rewrite write_labels_true, push_push, labels_text_head.
Qed.

Lemma append_value m u v t :
  format t = Prometheus ->
  append_values [v] (mk_records m u) t = push_str (value_text m u v ++ [10]) t.
Proof.
  intros Hf. destruct v as [v suffix|ls v suffix]; cbn [append_values value_text].
  - unfold suffixed_value, append_metric_name. cbn [re_metric re_unit_name format push_str]. rewrite Hf.
    destruct u as [u|]; rewrite ?push_push; unfold push_str, sample_text, component_label, labels_text;
      rewrite <- ?app_assoc; done.
  - unfold suffixed_label_value, append_metric_name. cbn [re_metric re_unit_name format push_str].
    rewrite Hf. unfold sample_text. destruct u as [u|].
    + rewrite write_labels_true, !push_push. f_equal.
      change (component_label (Some u) ++ ls) with ((str "component", u) :: ls).
      by rewrite (labels_text_head (str "component") u ls), <- !app_assoc.
    + rewrite write_labels_false, !push_push. f_equal.
      change (component_label None ++ ls) with ls. by rewrite <- !app_assoc.
Qed.

Lemma append_values_text vs m u t :
  format t = Prometheus ->
  append_values vs (mk_records m u) t = push_str (lines_text (value_text m u <$> vs)) t.
Proof.
  revert t. induction vs as [|v vs IH]; intros t Hf.
  - destruct t. unfold push_str. cbn. by rewrite app_nil_r.
  - assert (Hs : append_values (v :: vs) (mk_records m u) t
      = append_values vs (mk_records m u) (append_values [v] (mk_records m u) t)) by (by destruct v).
    rewrite Hs, append_value, IH, push_push by done. f_equal.
Qed.

Lemma call_append_text c t :
  format t = Prometheus -> call_append c t = push_str (lines_text (call_texts c)) t.
Proof.
  intros Hf. unfold call_append, append, call_texts. rewrite Hf.
  destruct (decide (me_type (ca_metric c) = Text)) as [Ht|Ht].
  { rewrite Ht. destruct t. unfold push_str. cbn. by rewrite app_nil_r. }
  rewrite (bool_decide_false (me_type (ca_metric c) = Text)) by done.
  assert (supports_type Prometheus (me_type (ca_metric c)) = true) as ->
    by (by destruct (me_type (ca_metric c))).
  rewrite bool_decide_true by done. cbn [negb].
  unfold append_metric_name. cbn [format push_str]. rewrite Hf, !push_push.
  rewrite append_values_text by (cbn; done). rewrite push_push. f_equal.
  unfold lines_text. rewrite !fmap_cons. cbn [concat]. unfold comment_text.
  by rewrite <- !app_assoc.
Qed.

Lemma calls_append_app a b t : calls_append (a ++ b) t = calls_append b (calls_append a t).
Proof. unfold calls_append. by rewrite foldl_app. Qed.

Lemma calls_append_text cs t :
  format t = Prometheus -> calls_append cs t = push_str (lines_text (cs ≫= call_texts)) t.
Proof.
  revert t. induction cs as [|c cs IH]; intros t Hf; unfold calls_append in *; cbn [foldl].
  - destruct t. unfold push_str. cbn. by rewrite app_nil_r.
  - rewrite call_append_text, IH, push_push by done. f_equal.
    by rewrite bind_cons, lines_text_app.
Qed.

(** ** Reading *)

(** A line of the output, and what is read in it. *)
Definition reads (x : rstring) (l : Line) : Prop := read_line x = Some l /\ Forall (fun c => c <> 10) x.

Lemma read_lines_cur cur x l :
  Forall (fun c => c <> 10) x -> read_lines cur (x ++ l) = read_lines (cur ++ x) l.
Proof.
  intros Hx. revert cur. induction Hx as [|c x Hc _ IH]; intros cur; [by rewrite app_nil_r|].
  cbn [app read_lines]. rewrite (proj2 (Z.eqb_neq c 10) Hc), IH, <- app_assoc. done.
Qed.

Lemma read_text_lines xs ls : Forall2 reads xs ls -> read_text (lines_text xs) = Some ls.
Proof.
  unfold read_text. induction 1 as [|x l xs ls [Hr Hx] _ IH]; [done|].
  unfold lines_text in *. rewrite fmap_cons. cbn [concat]. rewrite <- app_assoc.
  rewrite read_lines_cur by done. cbn [app read_lines Z.eqb Pos.eqb]. by rewrite Hr, IH.
Qed.

Lemma name_ok_no_feed n : name_ok n -> Forall (fun c => c <> 10) n.
Proof. intros Hn. eapply Forall_impl; [exact Hn|]. by intros x []%name_not. Qed.

Lemma read_comment_eq keyword n text :
  name_ok n -> read_comment keyword (keyword ++ n ++ [32] ++ text) = Some (n, text).
Proof.
  intros Hn. unfold read_comment. rewrite take_app_length, bool_decide_true, drop_app_length by done.
  cbn [app]. rewrite name_until; [done|done| |done].
  intros x (_ & H & _)%name_not. apply Z.eqb_neq. congruence.
Qed.

Lemma read_comment_other kw kw' l :
  length kw' = length kw -> kw' <> kw -> read_comment kw (kw' ++ l) = None.
Proof.
  intros Hl Hne. unfold read_comment. rewrite <- Hl, take_app_length, bool_decide_false by done. done.
Qed.

Lemma sample_name_ok m suffix :
  name_ok (me_name m) -> opt_ok name_ok suffix -> name_ok (sample_name m suffix).
Proof.
  intros Hm Hs. unfold sample_name, metric_name. repeat (apply Forall_app; split); try done.
  - repeat constructor.
  - repeat constructor.
  - repeat constructor.
  - destruct (me_unit m); repeat constructor.
  - destruct suffix; [|constructor]. apply Forall_app. split; [repeat constructor|done].
Qed.

Lemma reads_help n text : name_ok n -> help_ok text -> reads (comment_text (str "# HELP ") n text) (LHelp n text).
Proof.
  intros Hn Ht. split.
  - unfold read_line, comment_text. by rewrite read_comment_eq.
  - unfold comment_text. repeat (apply Forall_app; split); [by repeat constructor|by apply name_ok_no_feed|by repeat constructor|].
    eapply Forall_impl; [exact Ht|]. by intros c [].
Qed.

Lemma reads_type n t :
  name_ok n -> reads (comment_text (str "# TYPE ") n (metric_type_text t)) (LType n (metric_type_text t)).
Proof.
  intros Hn. split.
  - unfold read_line, comment_text. rewrite (read_comment_other (str "# HELP ") (str "# TYPE ")) by done.
    by rewrite read_comment_eq.
  - unfold comment_text. repeat (apply Forall_app; split); [by repeat constructor|by apply name_ok_no_feed|by repeat constructor|].
    destruct t; by repeat constructor.
Qed.

(** A line that starts with a letter is no comment. *)
Lemma read_line_sample c l : c <> 35 -> read_line (c :: l) = read_sample (c :: l).
Proof.
  intros Hc. unfold read_line.
  assert (H : forall kw, read_comment (35 :: kw) (c :: l) = None).
  { intros kw. unfold read_comment. cbn [length take]. rewrite bool_decide_false; [done|congruence]. }
  by rewrite (H (str " HELP ") : read_comment (str "# HELP ") _ = _),
    (H (str " TYPE ") : read_comment (str "# TYPE ") _ = _).
Qed.

Lemma reads_sample braces n ls v :
  n <> [] -> name_ok n -> labels_ok ls -> value_ok v -> (braces = false -> ls = []) ->
  reads (sample_text braces n ls v) (LSample n ls v).
Proof.
  intros Hm Hn Hl Hv Hb. split.
  - pose proof (read_sample_ok braces n ls v Hn Hl Hv Hb) as Hr. rewrite <- Hr.
    destruct n as [|c n]; [done|]. unfold sample_text. cbn [app].
    apply read_line_sample. apply Forall_cons_1 in Hn as [Hc _]. by apply name_not in Hc as (_ & _ & _ & ? & _).
  - unfold sample_text. repeat (apply Forall_app; split).
    + by apply name_ok_no_feed.
    + destruct braces; [|constructor]. repeat (apply Forall_app; split); [by repeat constructor| |by repeat constructor].
      clear Hb. induction Hl as [|[n' v'] ls [Hn' Hv'] Hl IH]; [constructor|].
      rewrite labels_text_head. cbn [fst snd] in *. unfold quoted.
      repeat (apply Forall_app; split); [by apply name_ok_no_feed|by repeat constructor| |by repeat constructor|].
      * eapply Forall_impl; [exact Hv'|]. by intros c [].
      * destruct ls; [constructor|]. apply Forall_app. split; [by repeat constructor|done].
    + by repeat constructor.
    + eapply Forall_impl; [exact Hv|]. by intros c [].
Qed.

Lemma component_label_ok u : opt_ok label_ok u -> labels_ok (component_label u).
Proof.
  destruct u as [u|]; intros Hu; constructor; [|constructor]. split; [|done]. repeat constructor.
Qed.

Lemma reads_call c : call_ok c -> Forall2 reads (call_texts c) (call_lines c).
Proof.
  intros Hok. unfold call_texts, call_lines. case_bool_decide as Ht; [constructor|].
  destruct (Hok Ht) as [Hn Hh Hu Hv].
  constructor; [by apply reads_help; [apply sample_name_ok|]|].
  constructor; [by apply reads_type, sample_name_ok|].
  induction Hv as [|v vs Hv _ IH]; [constructor|]. rewrite !fmap_cons. constructor; [|done].
  pose proof (component_label_ok _ Hu) as Hc.
  destruct v as [v suffix|ls v suffix]; cbn [value_text value_line record_ok] in *.
  - destruct Hv as [Hv Hs]. apply reads_sample; [done|by apply sample_name_ok|done..|].
    by destruct (ca_unit c).
  - destruct Hv as (Hl & Hv & Hs). apply reads_sample; [done|by apply sample_name_ok| |done|done].
    by apply Forall_app.
Qed.

Lemma metrics_read_back_lines cs :
  Forall call_ok cs ->
  read_text (into_string (calls_append cs (target_new Prometheus))) = Some (cs ≫= call_lines).
Proof.
  intros Hc. rewrite calls_append_text by done. unfold into_string. cbn [push_str target target_new app].
  apply read_text_lines. induction Hc as [|c cs Hc _ IH]; [constructor|].
  rewrite !bind_cons. apply Forall2_app; [by apply reads_call|done].
Qed.

(** The output in the format of Prometheus is what was appended: read back, it has for each
    call of [append], in order, the help and the type of the metric followed by one sample
    for each value, under the full name of the metric with its suffix, with the component
    as the first label and the labels that were given; a text metric is left out.  This
    asks for names of letters, digits and underscores and for label values and component
    names without quotes, backslashes and line feeds, since nothing is escaped. *)
Theorem metrics_read_back cs :
  Forall call_ok cs ->
  read_text (into_string (calls_append cs (target_new Prometheus))) = Some (cs ≫= call_lines).
Proof. apply metrics_read_back_lines. Qed.

(** ** The sources of the metrics ([src/metrics.rs], [src/comms.rs],
    [src/units/bmp_tcp_in/])

    The collection of sources is the stable sort by name of those registered that
    still live; what the sources of gates and of the BMP unit append, as calls of
    [append]; and the text that is read in the output of a whole collection. *)

(** ** The order of the names *)

Lemma name_leb_total s t : name_leb s t = true \/ name_leb t s = true.
Proof.
  revert t. induction s as [|a s IH]; intros [|b t]; cbn; auto.
  rewrite (Z.eqb_sym b a). destruct (Z.eqb_spec a b) as [<-|Hne]; [apply IH|].
  destruct (Z.ltb_spec a b); [auto|]. right. apply Z.ltb_lt. lia.
Qed.

Lemma name_leb_trans s t u : name_leb s t = true -> name_leb t u = true -> name_leb s u = true.
Proof.
  revert t u. induction s as [|a s IH]; intros [|b t] [|c u]; cbn; try done.
  destruct (Z.eqb_spec a b) as [<-|Hab], (Z.eqb_spec a c) as [<-|Hac]; cbn.
  - apply IH.
  - done.
  - rewrite (Z.eqb_sym b a). rewrite (proj2 (Z.eqb_neq a b) Hab).
    intros H1%Z.ltb_lt H2%Z.ltb_lt. lia.
  - intros H1%Z.ltb_lt. destruct (Z.eqb_spec b c) as [<-|]; [by intros; apply Z.ltb_lt|].
    intros H2%Z.ltb_lt. apply Z.ltb_lt. lia.
Qed.

Definition source_le (x y : RegisteredSource) : Prop := name_leb (rs_name x) (rs_name y) = true.

Lemma source_gt x y : ~ source_le x y -> source_le y x.
Proof. unfold source_le. by destruct (name_leb_total (rs_name x) (rs_name y)). Qed.

(** ** The stable sort *)

Lemma sort_snoc l x : sort_by_name (l ++ [x]) = insert_source x (sort_by_name l).
Proof. unfold sort_by_name. by rewrite foldl_app. Qed.

Lemma elem_of_insert x y l : y ∈ insert_source x l <-> y = x \/ y ∈ l.
Proof.
  induction l as [|z l IH]; cbn; [set_solver|]. destruct (name_leb _ _); set_solver.
Qed.

Lemma insert_sorted x l : StronglySorted source_le l -> StronglySorted source_le (insert_source x l).
Proof.
  induction 1 as [|y l Hs IH Hy]; cbn; [by repeat constructor|].
  destruct (name_leb (rs_name y) (rs_name x)) eqn:Hyx.
  - constructor; [done|]. apply Forall_forall. intros z [->|Hz]%elem_of_insert; [done|].
    by eapply Forall_forall in Hz.
  - assert (Hxy : source_le x y) by (apply source_gt; unfold source_le; by rewrite Hyx).
    constructor; [by constructor|]. constructor; [done|].
    eapply Forall_impl; [exact Hy|]. intros z Hz. by eapply name_leb_trans.
Qed.

Lemma sort_sorted l : StronglySorted source_le (sort_by_name l).
Proof.
  induction l as [|x l IH] using rev_ind; [constructor|]. rewrite sort_snoc. by apply insert_sorted.
Qed.

Lemma elem_of_sort x l : x ∈ sort_by_name l <-> x ∈ l.
Proof.
  induction l as [|y l IH] using rev_ind; [done|]. rewrite sort_snoc, elem_of_insert, elem_of_app, IH.
  set_solver.
Qed.

(** An element that comes before all the others stays in front. *)
Lemma insert_head x l :
  Forall (fun y => ~ source_le y x) l -> insert_source x l = x :: l.
Proof.
  destruct 1 as [|y l Hy _]; [done|]. cbn. unfold source_le in Hy. by destruct (name_leb _ _).
Qed.

Lemma insert_last x l : Forall (fun y => source_le y x) l -> insert_source x l = l ++ [x].
Proof.
  induction 1 as [|y l Hy _ IH]; [done|]. cbn. unfold source_le in Hy. by rewrite Hy, IH.
Qed.

Lemma sorted_snoc l x : StronglySorted source_le (l ++ [x]) -> StronglySorted source_le l /\ Forall (fun y => source_le y x) l.
Proof.
  induction l as [|y l IH]; cbn; intros Hs; [by repeat constructor|].
  apply StronglySorted_inv in Hs as [Hs Hy]. apply Forall_app in Hy as [Hyl Hyx].
  apply Forall_cons_1 in Hyx as [Hyx _]. destruct (IH Hs). split; by constructor.
Qed.

Lemma sort_id l : StronglySorted source_le l -> sort_by_name l = l.
Proof.
  induction l as [|x l IH] using rev_ind; [done|]. intros [Hs Hx]%sorted_snoc.
  rewrite sort_snoc, IH by done. by apply insert_last.
Qed.

Section Filtering.
Context (P : RegisteredSource -> Prop) `{!forall x, Decision (P x)}.

Lemma filter_sorted l : StronglySorted source_le l -> StronglySorted source_le (filter P l).
Proof.
  induction 1 as [|x l Hs IH Hx]; [constructor|]. rewrite filter_cons. case_decide; [|done].
  constructor; [done|]. apply Forall_forall. intros y [_ Hy]%list_elem_of_filter.
  by eapply Forall_forall in Hy.
Qed.

Lemma filter_insert x l :
  StronglySorted source_le l ->
  filter P (insert_source x l) = if decide (P x) then insert_source x (filter P l) else filter P l.
Proof.
  induction 1 as [|y l Hs IH Hy]; cbn [insert_source].
  - rewrite filter_cons, filter_nil. by case_decide.
  - destruct (name_leb (rs_name y) (rs_name x)) eqn:Hyx.
    + rewrite !filter_cons, IH. do 2 case_decide; try done. cbn [insert_source]. by rewrite Hyx.
    + rewrite filter_cons. case_decide as Hx; [|done]. symmetry. apply insert_head.
      apply Forall_forall. intros z [_ Hz]%list_elem_of_filter Hzx. unfold source_le in Hzx.
      apply elem_of_cons in Hz as [->|Hz]; [congruence|].
      eapply Forall_forall in Hz; [|exact Hy]. cbn beta in Hz.
      pose proof (name_leb_trans _ _ _ Hz Hzx). congruence.
Qed.

Lemma filter_sort l : filter P (sort_by_name l) = sort_by_name (filter P l).
Proof.
  induction l as [|x l IH] using rev_ind; [done|].
  rewrite sort_snoc, filter_insert, IH, filter_app by apply sort_sorted.
  rewrite filter_cons, filter_nil. case_decide; [by rewrite sort_snoc|by rewrite app_nil_r].
Qed.

End Filtering.

(** ** The collection *)

Section Collection.
Context {Source : Type}.
Implicit Types alive : gmap nat Source.

Definition live alive (item : RegisteredSource) : Prop := is_Some (alive !! rs_source item).

#[export] Instance live_dec alive item : Decision (live alive item).
Proof. unfold live. apply _. Defined.

(** What was registered, in order; the sources that live; and the collection. *)
Inductive collected : list RegisteredSource -> gmap nat Source -> list RegisteredSource -> Prop :=
| col_new : collected [] ∅ []
| col_create h alive l s src :
    s ∉ (rs_source <$> h) -> collected h alive l -> collected h (<[s := src]> alive) l
| col_register h alive l name s :
    is_Some (alive !! s) -> collected h alive l ->
    collected (h ++ [mk_registered name s]) alive (collection_register Source name s alive l)
| col_drop h alive l s : collected h alive l -> collected h (delete s alive) l.

Lemma register_eq name s alive l :
  StronglySorted source_le l ->
  collection_register Source name s alive l = insert_source (mk_registered name s) (filter (live alive) l).
Proof.
  intros Hs. unfold collection_register. rewrite sort_snoc. f_equal. by apply sort_id, filter_sorted.
Qed.

Lemma filter_again (P Q : RegisteredSource -> Prop) `{!forall x, Decision (P x)}
    `{!forall x, Decision (Q x)} (l : list RegisteredSource) :
  (forall x, x ∈ l -> Q x -> P x) -> filter Q (filter P l) = filter Q l.
Proof.
  induction l as [|x l IH]; intros HQ; [done|]. rewrite (filter_cons P), (filter_cons Q).
  rewrite <- IH by (intros y Hy; apply HQ; by right).
  case_decide as Hp; [by rewrite filter_cons|]. rewrite decide_False; [done|].
  intros Hq. apply Hp, HQ; [by left|done].
Qed.

Lemma filter_ext (P Q : RegisteredSource -> Prop) `{!forall x, Decision (P x)}
    `{!forall x, Decision (Q x)} (l : list RegisteredSource) :
  (forall x, x ∈ l -> P x <-> Q x) -> filter P l = filter Q l.
Proof.
  induction l as [|x l IH]; intros HQ; [done|]. rewrite !filter_cons, IH by (intros y Hy; apply HQ; by right).
  destruct (HQ x) as [H1 H2]; [by left|]. do 2 case_decide; naive_solver.
Qed.

Lemma collected_ok h alive l :
  collected h alive l ->
  StronglySorted source_le l /\ l ⊆ h /\ filter (live alive) l = sort_by_name (filter (live alive) h).
Proof.
  induction 1 as [|h alive l s src Hs _ (Hl & Hsub & Hf)|h alive l name s Hs _ (Hl & Hsub & Hf)
                 |h alive l s _ (Hl & Hsub & Hf)].
  - split_and!; [constructor|done|done].
  - split_and!; [done..|].
    assert (Heq : forall x, x ∈ h -> live (<[s := src]> alive) x <-> live alive x).
    { intros x Hx. unfold live. rewrite lookup_insert_ne; [done|]. intros ->. apply Hs.
      by apply list_elem_of_fmap_2. }
    rewrite (filter_ext (live (<[s := src]> alive)) (live alive) l),
      (filter_ext (live (<[s := src]> alive)) (live alive) h) by auto. done.
  - rewrite register_eq by done. split_and!.
    + by apply insert_sorted, filter_sorted.
    + intros x [->|[_ Hx]%list_elem_of_filter]%elem_of_insert; [set_solver|]. apply Hsub in Hx. set_solver.
    + rewrite filter_insert by (by apply filter_sorted).
      rewrite decide_True, filter_app, filter_cons, filter_nil, decide_True by done.
      by rewrite sort_snoc, (filter_again (live alive) (live alive)), Hf by done.
  - split_and!; [done..|].
    assert (Himp : forall x, live (delete s alive) x -> live alive x).
    { intros x [y Hx]. apply lookup_delete_Some in Hx as [_ Hx]. by exists y. }
    rewrite <- (filter_again (live alive) (live (delete s alive)) l), Hf, filter_sort by eauto.
    by rewrite (filter_again (live alive) (live (delete s alive))) by eauto.
Qed.

(** Sources that write whole lines, and what is read in each line. *)
Context (source_append : Source -> rstring -> Target -> option Target)
        (source_texts : Source -> rstring -> list rstring)
        (source_lines : Source -> rstring -> list Line).
Context (by_lines : forall src name t, format t = Prometheus ->
           source_append src name t = Some (push_str (lines_text (source_texts src name)) t)).

(** What the sources that live have, in the order of a list. *)
Definition live_parts {A} (f : Source -> rstring -> list A) alive (l : list RegisteredSource) : list A :=
  l ≫= (fun item => match alive !! rs_source item with
                     | Some src => f src (rs_name item)
                     | None => []
                     end).

Lemma append_sources_lines alive l t :
  format t = Prometheus ->
  append_sources Source source_append alive l t
  = Some (push_str (lines_text (live_parts source_texts alive (filter (live alive) l))) t).
Proof.
  revert t. induction l as [|item l IH]; intros t Hf.
  { destruct t. unfold push_str. cbn. by rewrite app_nil_r. }
  cbn [append_sources]. rewrite filter_cons. case_decide as Hl.
  - destruct Hl as [src Hs]. unfold live_parts. rewrite bind_cons, Hs, by_lines by done.
    cbn [mbind option_bind]. rewrite IH, push_push, lines_text_app by done. done.
  - unfold live in Hl. destruct (alive !! rs_source item) eqn:Hs; [by destruct Hl|]. by apply IH.
Qed.

Definition assemble_call (ms : rstring) : Call :=
  mk_call ASSEMBLE_TIME_MS_METRIC None [VSimple ms None].

Lemma assemble_call_ok ms : value_ok ms -> call_ok (assemble_call ms).
Proof.
  intros Hms _. split; cbn; [repeat constructor| repeat constructor; done|done|].
  constructor; [done|constructor].
Qed.

(** What is read in the output of a collection. *)
Lemma assemble_lines h alive l ms :
  collected h alive l ->
  (forall item src, item ∈ h -> alive !! rs_source item = Some src ->
     Forall2 reads (source_texts src (rs_name item)) (source_lines src (rs_name item))) ->
  value_ok ms ->
  exists text, assemble Source source_append Prometheus alive l ms = Some text
    /\ read_text text = Some (live_parts source_lines alive (sort_by_name (filter (live alive) h))
                              ++ call_lines (assemble_call ms)).
Proof.
  intros Hc Hok Hms. apply collected_ok in Hc as (_ & _ & Hf). unfold assemble.
  rewrite append_sources_lines, Hf by done. cbn [mbind option_bind]. eexists. split; [done|].
  change (append_simple ASSEMBLE_TIME_MS_METRIC None ms ?t) with (call_append (assemble_call ms) t).
  rewrite call_append_text, push_push, <- lines_text_app by done.
  unfold into_string. cbn [push_str target target_new app]. apply read_text_lines, Forall2_app.
  - assert (Hin : forall x, x ∈ sort_by_name (filter (live alive) h) -> x ∈ h).
    { intros x [_ Hx]%elem_of_sort%list_elem_of_filter. done. }
    clear Hf. induction (sort_by_name (filter (live alive) h)) as [|x xs IH]; [constructor|].
    unfold live_parts in *. rewrite !bind_cons. apply Forall2_app; [|apply IH; intros y Hy; apply Hin; by right].
    destruct (alive !! rs_source x) as [src|] eqn:Hs; [|constructor]. apply Hok; [apply Hin; by left|done].
  - by apply reads_call, assemble_call_ok.
Qed.

End Collection.
