(* ===== verification/MetricsUnits.v ===== *)
(** * What gates, the BMP unit and the RTR unit report ([src/comms.rs],
    [src/units/bmp_tcp_in/metrics.rs], [status_reporter.rs],
    [state_machine/metrics.rs], [src/units/rtr/client.rs])

    The counters of the BMP unit with the operations of its reporter, and the
    [Source] implementations of the metrics of a gate, of the BMP unit, of its
    state machines and of the RTR client. *)

From Stdlib Require Import ZArith Lia.
From stdpp Require Import base numbers list gmap strings.
From S2P Require Import Prelude Net Register Payload BmpMsg BmpMetrics BmpMachine BmpIo BmpRouter Frim Gate Metrics.

Local Open Scope Z_scope.

(** ** Numbers as text *)

Definition u64_text (n : Z) : rstring := decimal 20 n.

Definition i64_text (n : Z) : rstring := if n <? 0 then 45 :: u64_text (- n) else u64_text n.

(** ** Gates *)

Definition NUM_UPDATES_METRIC : Metric :=
  metric_new (str "num_updates") (str "the number of updates sent through the gate") Counter Total.
Definition NUM_DROPPED_UPDATES_METRIC : Metric :=
  metric_new (str "num_dropped_updates")
    (str "the number of updates that could not be sent through the gate") Counter Total.
Definition UPDATE_SET_SIZE_METRIC : Metric :=
  metric_new (str "update_set_size") (str "the number of set items in the last update") Gauge Total.
Definition UPDATE_WHEN_METRIC : Metric :=
  metric_new (str "last_update") (str "the date and time of the last update") Text Info.
Definition UPDATE_AGO_METRIC : Metric :=
  metric_new (str "since_last_update") (str "the number of seconds since the last update")
    Gauge Second.

(** [now] is the clock in seconds, [date] the text of a time. *)
Definition gate_append (date : Z -> rstring) (now : Z) (m : GateMetrics) (unit_name : rstring)
    (t : Target) : Target :=
  let t := append_simple NUM_UPDATES_METRIC (Some unit_name) (u64_text (num_updates m)) t in
  let t := append_simple NUM_DROPPED_UPDATES_METRIC (Some unit_name)
             (u64_text (num_dropped_updates m)) t in
  match last_update m with
  | Some update =>
      let t := append_simple UPDATE_WHEN_METRIC (Some unit_name) (date update) t in
      let t := append_simple UPDATE_AGO_METRIC (Some unit_name) (i64_text (now - update)) t in
      append_simple UPDATE_SET_SIZE_METRIC (Some unit_name) (u64_text (update_set_size m)) t
  | None =>
      let t := append_simple UPDATE_WHEN_METRIC (Some unit_name) (str "N/A") t in
      append_simple UPDATE_AGO_METRIC (Some unit_name) (i64_text (-1)) t
  end.

(** ** The BMP unit *)

Record RouterMetrics : Type := mk_router_metrics {
  num_receive_io_errors : Z;
  num_bmp_messages_received : list Z;
  num_bmp_messages_processed : Z;
  num_invalid_bmp_messages : Z
}.

Definition router_metrics_default : RouterMetrics := mk_router_metrics 0 (replicate 7 0) 0 0.

Record BmpTcpInMetrics : Type := mk_in_metrics {
  in_gate : option GateMetrics;
  listener_bound_count : Z;
  connection_accepted_count : Z;
  connection_lost_count : Z;
  routers : FrimMap rstring RouterMetrics
}.

(** [BmpTcpInMetrics::new]. *)
Definition in_metrics_new (g : GateMetrics) : BmpTcpInMetrics := mk_in_metrics (Some g) 0 0 0 [].

(** A change of the entry of a router, which is made on first use. *)
Definition on_in_router (router_id : rstring) (f : RouterMetrics -> RouterMetrics)
    (m : BmpTcpInMetrics) : BmpTcpInMetrics :=
  let '(_, rs) := frim_or_insert_with router_id router_metrics_default (routers m) in
  mk_in_metrics (in_gate m) (listener_bound_count m) (connection_accepted_count m)
    (connection_lost_count m)
    ((fun e : rstring * RouterMetrics => if bool_decide (e.1 = router_id) then (e.1, f e.2) else e) <$> rs).

Definition listener_listening (m : BmpTcpInMetrics) : BmpTcpInMetrics :=
  mk_in_metrics (in_gate m) (fetch_add (listener_bound_count m) 1) (connection_accepted_count m)
    (connection_lost_count m) (routers m).

Definition listener_connection_accepted (m : BmpTcpInMetrics) : BmpTcpInMetrics :=
  mk_in_metrics (in_gate m) (listener_bound_count m) (fetch_add (connection_accepted_count m) 1)
    (connection_lost_count m) (routers m).

(** [router_connection_lost] and [router_connection_aborted]. *)
Definition router_connection_lost (router_id : rstring) (m : BmpTcpInMetrics) : BmpTcpInMetrics :=
  mk_in_metrics (in_gate m) (listener_bound_count m) (connection_accepted_count m)
    (fetch_add (connection_lost_count m) 1) (frim_remove router_id (routers m)).2.

Definition receive_io_error (router_id : rstring) : BmpTcpInMetrics -> BmpTcpInMetrics :=
  on_in_router router_id (fun r =>
    mk_router_metrics (fetch_add (num_receive_io_errors r) 1) (num_bmp_messages_received r)
      (num_bmp_messages_processed r) (num_invalid_bmp_messages r)).

(** A type code that RFC 7854 does not have is a panic. *)
Definition message_received (router_id : rstring) (code : nat) (m : BmpTcpInMetrics)
  : option BmpTcpInMetrics :=
  if (code <? 7)%nat then
    Some (on_in_router router_id (fun r =>
      mk_router_metrics (num_receive_io_errors r)
        (alter (fun v => fetch_add v 1) code (num_bmp_messages_received r))
        (num_bmp_messages_processed r) (num_invalid_bmp_messages r)) m)
  else None.

Definition message_processed (router_id : rstring) : BmpTcpInMetrics -> BmpTcpInMetrics :=
  on_in_router router_id (fun r =>
    mk_router_metrics (num_receive_io_errors r) (num_bmp_messages_received r)
      (fetch_add (num_bmp_messages_processed r) 1) (num_invalid_bmp_messages r)).

Definition message_processing_failure (router_id : rstring) : BmpTcpInMetrics -> BmpTcpInMetrics :=
  on_in_router router_id (fun r =>
    mk_router_metrics (num_receive_io_errors r) (num_bmp_messages_received r)
      (num_bmp_messages_processed r) (fetch_add (num_invalid_bmp_messages r) 1)).

(** [GraphStatus::okay]. *)
Definition in_metrics_okay (m : BmpTcpInMetrics) : option bool :=
  if 0 <? connection_accepted_count m
  then Some (0 <? wrap 64 (connection_accepted_count m - connection_lost_count m))
  else None.

Definition BMP_RFC_7854_MSG_TYPE_NAMES : list rstring :=
  [str "Route Monitoring"; str "Statistics Report"; str "Peer Down Notification";
   str "Peer Up Notification"; str "Initiation Message"; str "Termination Message";
   str "Route Mirroring Message"].

Definition LISTENER_BOUND_COUNT_METRIC : Metric :=
  metric_new (str "bmp_tcp_in_listener_bound_count")
    (str "the number of times the TCP listen port was bound to") Counter Total.
Definition CONNECTION_ACCEPTED_COUNT_METRIC : Metric :=
  metric_new (str "bmp_tcp_in_connection_accepted_count")
    (str "the number of times a connection from a router was accepted") Counter Total.
Definition CONNECTION_LOST_COUNT_METRIC : Metric :=
  metric_new (str "bmp_tcp_in_connection_lost_count")
    (str "the number of times the connection to a router was lost") Counter Total.
Definition NUM_BMP_MESSAGES_RECEIVED_METRIC : Metric :=
  metric_new (str "bmp_tcp_in_num_bmp_messages_received")
    (str "the number of BMP messages successfully received by RFC 7854 message type code")
    Counter Total.
Definition NUM_BMP_MESSAGES_PROCESSED_METRIC : Metric :=
  metric_new (str "bmp_tcp_in_num_bmp_messages_processed")
    (str "the number of BMP messages passed to the BMP state machine for processing")
    Counter Total.
Definition NUM_RECEIVE_IO_ERRORS_METRIC : Metric :=
  metric_new (str "bmp_tcp_in_num_receive_io_errors")
    (str "the number of BMP messages that could not be received due to an I/O error")
    Counter Total.
Definition NUM_INVALID_BMP_MESSAGES_METRIC : Metric :=
  metric_new (str "bmp_in_num_invalid_bmp_messages")
    (str "the number of received BMP messages that were invalid (e.g. not RFC compliant, could not be parsed, etc)")
    Counter Total.

(** The loop over the message types; [None]: there is no name for one. *)
Fixpoint append_msg_types (unit_name router_id : rstring) (names : list rstring) (vs : list Z)
    (t : Target) : option Target :=
  match vs, names with
  | [], _ => Some t
  | v :: vs, n :: names =>
      append_msg_types unit_name router_id names vs
        (append NUM_BMP_MESSAGES_RECEIVED_METRIC (Some unit_name)
           (fun records => label_value records [(str "router", router_id); (str "msg_type", n)]
                             (u64_text v)) t)
  | _ :: _, [] => None
  end.

Fixpoint append_routers (unit_name : rstring) (rs : list (rstring * RouterMetrics)) (t : Target)
  : option Target :=
  match rs with
  | [] => Some t
  | (router_id, m) :: rs =>
      t ← append_msg_types unit_name router_id BMP_RFC_7854_MSG_TYPE_NAMES
            (num_bmp_messages_received m) t;
      let t := append_per_router_metric unit_name router_id NUM_RECEIVE_IO_ERRORS_METRIC
                 (u64_text (num_receive_io_errors m)) t in
      let t := append_per_router_metric unit_name router_id NUM_BMP_MESSAGES_PROCESSED_METRIC
                 (u64_text (num_bmp_messages_processed m)) t in
      append_routers unit_name rs
        (append_per_router_metric unit_name router_id NUM_INVALID_BMP_MESSAGES_METRIC
           (u64_text (num_invalid_bmp_messages m)) t)
  end.

Definition in_metrics_append (date : Z -> rstring) (now : Z) (m : BmpTcpInMetrics)
    (unit_name : rstring) (t : Target) : option Target :=
  let t := match in_gate m with Some g => gate_append date now g unit_name t | None => t end in
  let t := append_simple LISTENER_BOUND_COUNT_METRIC (Some unit_name)
             (u64_text (listener_bound_count m)) t in
  let t := append_simple CONNECTION_ACCEPTED_COUNT_METRIC (Some unit_name)
             (u64_text (connection_accepted_count m)) t in
  let t := append_simple CONNECTION_LOST_COUNT_METRIC (Some unit_name)
             (u64_text (connection_lost_count m)) t in
  append_routers unit_name (routers m) t.

(** ** State machines *)

Section Machines.
Context `{E : Extern} `{RC : !Routecore}.
Context `{HM : !HashIter rstring RouterBmpMetrics}.

Definition state_idx_text (i : BmpStateIdx) : rstring :=
  match i with
  | IdxInitiating => str "Initiating" | IdxDumping => str "Dumping" | IdxUpdating => str "Updating"
  | IdxTerminated => str "Terminated" | IdxAborted => str "Aborted"
  end.

(** The metrics of each router, in the order in which they are appended. *)
Definition router_bmp_metrics (m : RouterBmpMetrics) : list (Metric * rstring) :=
  [(metric_new (str "bmp_state_machine_state")
      (str "the current state machine state for this monitored router connection") Text State,
    state_idx_text (bmp_state_machine_state m));
   (metric_new (str "bmp_state_num_received_prefixes")
      (str "the number of prefixes received from this router") Gauge Total,
    u64_text (num_received_prefixes m));
   (metric_new (str "bmp_state_num_bmp_route_monitoring_msgs_with_unknown_peer")
      (str "the number of BMP Route Monitoring messages for which no Peer Up notification was seen")
      Counter Total,
    u64_text (num_msgs_with_unknown_peer m));
   (metric_new (str "bmp_state_num_bgp_updates_reparsed_due_to_incorrect_header_flags")
      (str "the number of BGP UPDATE messages that could only be parsed by not obeying the BMP common header flags")
      Counter Total,
    u64_text (num_bgp_updates_reparsed m));
   (metric_new (str "bmp_state_num_unprocessable_bmp_messages")
      (str "the number of BMP messages that could not be parsed, were invbmp_state_num_unprocessable_bmp_messagesalid or otherwise could not be processed")
      Counter Total,
    u64_text (num_unprocessable_bmp_messages m));
   (metric_new (str "bmp_state_num_announcements")
      (str "the number of route announcements seen from this router") Gauge Total,
    u64_text (num_announcements m));
   (metric_new (str "bmp_state_num_withdrawals")
      (str "the number of route withdrawals seen from this router") Gauge Total,
    u64_text (num_withdrawals m));
   (metric_new (str "bmp_state_num_up_peers")
      (str "the number of peers connected and in the up state") Gauge Total,
    u64_text (num_peers_up m));
   (metric_new (str "bmp_state_num_up_peers_eor_capable")
      (str "the number of up peers that support the graceful restart capability and thus are expected to signal End-of-Rib")
      Gauge Total,
    u64_text (num_peers_up_eor_capable m));
   (metric_new (str "bmp_state_num_up_peers_with_pending_eors")
      (str "the number of up peers with at least one pending End-of-RIB signal") Gauge Total,
    u64_text (num_peers_up_dumping m))].

Fixpoint append_router_metrics (unit_name router_id : rstring) (ms : list (Metric * rstring))
    (t : Target) : Target :=
  match ms with
  | [] => t
  | (m, v) :: ms =>
      append_router_metrics unit_name router_id ms (append_per_router_metric unit_name router_id m v t)
  end.

Fixpoint append_machines (unit_name : rstring) (rs : list (rstring * RouterBmpMetrics)) (t : Target)
  : Target :=
  match rs with
  | [] => t
  | (router_id, m) :: rs =>
      append_machines unit_name rs
        (append_router_metrics unit_name router_id (router_bmp_metrics m) t)
  end.

Definition NUM_CONNECTED_ROUTERS_METRIC : Metric :=
  metric_new (str "bmp_num_connected_routers")
    (str "the number of BMP routers connected to this unit") Gauge Total.

Definition machine_metrics_append (m : BmpStateMachineMetrics) (unit_name : rstring) (t : Target)
  : Target :=
  append_machines unit_name (hm_iter m)
    (append_simple NUM_CONNECTED_ROUTERS_METRIC (Some unit_name) (u64_text (Z.of_nat (size m))) t).

End Machines.

(** ** The RTR client *)

Definition u32_none : Z := 2 ^ 32 - 1.
Definition i64_none : Z := - 2 ^ 63.

Record RtrMetrics : Type := mk_rtr_metrics {
  rtr_gate : GateMetrics;
  session : Z;
  rtr_serial : Z;
  updated : Z;
  bytes_read : Z;
  bytes_written : Z
}.

(** [RtrMetrics::new]. *)
Definition rtr_metrics_new (g : GateMetrics) : RtrMetrics := mk_rtr_metrics g u32_none u32_none i64_none 0 0.

Definition inc_bytes_read (count : Z) (m : RtrMetrics) : RtrMetrics :=
  mk_rtr_metrics (rtr_gate m) (session m) (rtr_serial m) (updated m)
    (wrap 64 (bytes_read m + count)) (bytes_written m).

Definition inc_bytes_written (count : Z) (m : RtrMetrics) : RtrMetrics :=
  mk_rtr_metrics (rtr_gate m) (session m) (rtr_serial m) (updated m) (bytes_read m)
    (wrap 64 (bytes_written m + count)).

(** What [RtrClient::update] stores after a successful update: session and serial of the
    state, if there is one, at time [now]. *)
Definition store_state (st : option (Z * Z)) (now : Z) (m : RtrMetrics) : RtrMetrics :=
  match st with
  | Some (ses, ser) => mk_rtr_metrics (rtr_gate m) ses ser now (bytes_read m) (bytes_written m)
  | None => m
  end.

Definition SESSION_METRIC : Metric :=
  metric_new (str "session_id") (str "the session ID of the last successful update") Text Info.
Definition SERIAL_METRIC : Metric :=
  metric_new (str "serial") (str "the serial number of the last successful update") Counter Total.
Definition UPDATED_AGO_METRIC : Metric :=
  metric_new (str "since_last_rtr_update") (str "the number of seconds since last successful update")
    Counter Total.
Definition UPDATED_METRIC : Metric :=
  metric_new (str "rtr_updated") (str "the time of the last successful update") Text Info.
Definition BYTES_READ_METRIC : Metric :=
  metric_new (str "bytes_read") (str "the number of bytes read") Counter Total.
Definition BYTES_WRITTEN_METRIC : Metric :=
  metric_new (str "bytes_written") (str "the number of bytes written") Counter Total.

(** [iso] is the text of a time in the format of the code, [None] for one that chrono does
    not have. *)
Definition rtr_metrics_append (date : Z -> rstring) (iso : Z -> option rstring) (now : Z)
    (m : RtrMetrics) (unit_name : rstring) (t : Target) : Target :=
  let t := gate_append date now (rtr_gate m) unit_name t in
  let t := if negb (session m =? u32_none)
           then append_simple SESSION_METRIC (Some unit_name) (u64_text (session m)) t else t in
  let t := if negb (rtr_serial m =? u32_none)
           then append_simple SERIAL_METRIC (Some unit_name) (u64_text (rtr_serial m)) t else t in
  let t := if negb (updated m =? i64_none) then
             match iso (updated m) with
             | Some text =>
                 append_simple UPDATED_METRIC (Some unit_name) text
                   (append_simple UPDATED_AGO_METRIC (Some unit_name) (i64_text (now - updated m)) t)
             | None => t
             end
           else t in
  let t := append_simple BYTES_READ_METRIC (Some unit_name) (u64_text (bytes_read m)) t in
  append_simple BYTES_WRITTEN_METRIC (Some unit_name) (u64_text (bytes_written m)) t.
