(* ===== verification/MetricsProps.v ===== *)
(** * Properties of the metrics of the BMP unit

    What the sources append is a list of calls whose texts are clean; the output
    of the BMP unit has each of its counters, and repeats the lines that describe
    them; a connection that ends leaves the counters of its state machine. *)

From Stdlib Require Import ZArith Lia.
From stdpp Require Import base numbers list gmap strings.
From S2P Require Import Prelude Net Register Payload BmpMsg BmpMetrics BmpPeers BmpMachine BmpIo BmpRouter Frim Gate Metrics MetricsText MetricsUnits.

Local Open Scope Z_scope.

(** ** Numbers *)

Lemma decimal_digits fuel n : Forall (fun c => 48 <= c <= 57) (decimal fuel n).
Proof.
  revert n. induction fuel as [|fuel IH]; intros n; cbn [decimal]; [constructor|].
  apply Forall_app. split; [destruct (n <? 10); [constructor|apply IH]|].
  constructor; [|constructor]. pose proof (Z.mod_pos_bound n 10). lia.
Qed.

Lemma u64_text_ok n : value_ok (u64_text n).
Proof. eapply Forall_impl; [apply decimal_digits|]. cbn. lia. Qed.

Lemma i64_text_ok n : value_ok (i64_text n).
Proof. unfold i64_text. destruct (n <? 0); [constructor; [lia|]|]; apply u64_text_ok. Qed.

(** ** Sources as calls *)

Definition simple_call (m : Metric) (unit_name v : rstring) : Call :=
  mk_call m (Some unit_name) [VSimple v None].

Definition labelled_call (m : Metric) (unit_name : rstring) (ls : list (rstring * rstring))
    (v : rstring) : Call := mk_call m (Some unit_name) [VLabelled ls v None].

Definition gate_calls (date : Z -> rstring) (now : Z) (m : GateMetrics) (u : rstring) : list Call :=
  [simple_call NUM_UPDATES_METRIC u (u64_text (num_updates m));
   simple_call NUM_DROPPED_UPDATES_METRIC u (u64_text (num_dropped_updates m))]
  ++ match last_update m with
     | Some w => [simple_call UPDATE_WHEN_METRIC u (date w);
                  simple_call UPDATE_AGO_METRIC u (i64_text (now - w));
                  simple_call UPDATE_SET_SIZE_METRIC u (u64_text (update_set_size m))]
     | None => [simple_call UPDATE_WHEN_METRIC u (str "N/A");
                simple_call UPDATE_AGO_METRIC u (i64_text (-1))]
     end.

Definition received_call (u router_id : rstring) (nv : rstring * Z) : Call :=
  labelled_call NUM_BMP_MESSAGES_RECEIVED_METRIC u [(str "router", router_id); (str "msg_type", nv.1)]
    (u64_text nv.2).

Definition router_call (u router_id : rstring) (m : Metric) (v : rstring) : Call :=
  labelled_call m u [(str "router", router_id)] v.

Definition router_calls (u : rstring) (e : rstring * RouterMetrics) : list Call :=
  (received_call u e.1 <$> zip BMP_RFC_7854_MSG_TYPE_NAMES (num_bmp_messages_received e.2))
  ++ [router_call u e.1 NUM_RECEIVE_IO_ERRORS_METRIC (u64_text (num_receive_io_errors e.2));
      router_call u e.1 NUM_BMP_MESSAGES_PROCESSED_METRIC (u64_text (num_bmp_messages_processed e.2));
      router_call u e.1 NUM_INVALID_BMP_MESSAGES_METRIC (u64_text (num_invalid_bmp_messages e.2))].

Definition unit_calls (m : BmpTcpInMetrics) (u : rstring) : list Call :=
  [simple_call LISTENER_BOUND_COUNT_METRIC u (u64_text (listener_bound_count m));
   simple_call CONNECTION_ACCEPTED_COUNT_METRIC u (u64_text (connection_accepted_count m));
   simple_call CONNECTION_LOST_COUNT_METRIC u (u64_text (connection_lost_count m))].

Definition in_calls (date : Z -> rstring) (now : Z) (m : BmpTcpInMetrics) (u : rstring) : list Call :=
  match in_gate m with Some g => gate_calls date now g u | None => [] end
  ++ unit_calls m u ++ (routers m ≫= router_calls u).

Lemma gate_append_calls date now m u t :
  gate_append date now m u t = calls_append (gate_calls date now m u) t.
Proof. unfold gate_append, gate_calls. by destruct (last_update m). Qed.

Lemma append_msg_types_calls u r names vs t :
  (length vs <= length names)%nat ->
  append_msg_types u r names vs t = Some (calls_append (received_call u r <$> zip names vs) t).
Proof.
  revert vs t. induction names as [|n names IH]; intros [|v vs] t Hl; cbn in Hl; try done; try lia.
  cbn [append_msg_types]. rewrite IH by lia. done.
Qed.

(** Seven counters for each router. *)
Definition counters_ok (rs : list (rstring * RouterMetrics)) : Prop :=
  Forall (fun e : rstring * RouterMetrics => length (num_bmp_messages_received e.2) = 7%nat) rs.

Lemma append_routers_calls u rs t :
  counters_ok rs -> append_routers u rs t = Some (calls_append (rs ≫= router_calls u) t).
Proof.
  intros Hc. revert t. induction Hc as [|[r m] rs Hm _ IH]; intros t; [done|].
  cbn [append_routers fst snd] in *. rewrite append_msg_types_calls by (rewrite Hm; cbn; lia).
  cbn [mbind option_bind]. rewrite IH, bind_cons, calls_append_app. unfold router_calls.
  by rewrite calls_append_app.
Qed.

Lemma in_metrics_append_calls date now m u t :
  counters_ok (routers m) ->
  in_metrics_append date now m u t = Some (calls_append (in_calls date now m u) t).
Proof.
  intros Hc. unfold in_metrics_append, in_calls. rewrite append_routers_calls by done.
  rewrite !calls_append_app. do 2 f_equal. destruct (in_gate m); [|done].
  by rewrite gate_append_calls.
Qed.

(** ** Clean texts *)

Lemma simple_call_ok m u v :
  name_ok (me_name m) -> help_ok (me_help m) -> label_ok u -> value_ok v -> call_ok (simple_call m u v).
Proof. intros ???? _. split; [done..|]. by repeat constructor. Qed.

Lemma labelled_call_ok m u ls v :
  name_ok (me_name m) -> help_ok (me_help m) -> label_ok u -> labels_ok ls -> value_ok v ->
  call_ok (labelled_call m u ls v).
Proof. intros ????? _. split; [done..|]. by repeat constructor. Qed.

Lemma Forall_forallb {A} (p : A -> bool) l : forallb p l = true -> Forall (fun x => p x = true) l.
Proof. induction l as [|x l IH]; cbn; [constructor|]. intros [? ?]%andb_true_iff. constructor; auto. Qed.

Lemma help_text s : forallb (fun c => negb (c =? 10) && negb (c =? 92)) s = true -> help_ok s.
Proof. intros H%Forall_forallb. eapply Forall_impl; [exact H|]. cbn. intros c Hc. zify_bools. done. Qed.

Lemma name_text s : forallb name_char s = true -> name_ok s.
Proof. apply Forall_forallb. Qed.

Lemma label_text s : forallb (fun c => negb (c =? 10) && negb (c =? 34) && negb (c =? 92)) s = true -> label_ok s.
Proof. intros H%Forall_forallb. eapply Forall_impl; [exact H|]. cbn. intros c Hc. zify_bools. done. Qed.

(** The names and helps of the metrics are constants. *)
Ltac metric_texts :=
  first [done | apply name_text; reflexivity | apply help_text; reflexivity
        | apply u64_text_ok | apply i64_text_ok].

Lemma gate_calls_ok date now m u : label_ok u -> Forall call_ok (gate_calls date now m u).
Proof.
  intros Hu. assert (Hw : forall v, call_ok (simple_call UPDATE_WHEN_METRIC u v)) by (by intros v []).
  unfold gate_calls. destruct (last_update m); cbn [app];
    do 2 (apply Forall_cons; split; [apply simple_call_ok; metric_texts|]);
    (apply Forall_cons; split; [apply Hw|]);
    repeat (apply Forall_cons; split;
      [apply simple_call_ok; metric_texts|]);
    apply Forall_nil; done.
Qed.

Lemma router_label_ok r : label_ok r -> labels_ok [(str "router", r)].
Proof. intros Hr. constructor; [|constructor]. split; [by apply name_text|done]. Qed.

Lemma msg_type_names_ok : Forall label_ok BMP_RFC_7854_MSG_TYPE_NAMES.
Proof. repeat (constructor; [by apply label_text|]). constructor. Qed.

Lemma router_calls_ok u e : label_ok u -> label_ok e.1 -> Forall call_ok (router_calls u e).
Proof.
  intros Hu He. apply Forall_app. split.
  - apply Forall_forall. intros c [[n v] [-> Hn]]%list_elem_of_fmap.
    apply labelled_call_ok; [metric_texts..| |apply u64_text_ok].
    constructor; [split; [by apply name_text|done]|]. constructor; [|constructor].
    split; [by apply name_text|]. apply elem_of_zip_l in Hn.
    exact (proj1 (Forall_forall _ _) msg_type_names_ok _ Hn).
  - repeat (apply Forall_cons; split; [apply labelled_call_ok; try metric_texts; by apply router_label_ok|]).
    apply Forall_nil. done.
Qed.

Definition routers_clean (rs : list (rstring * RouterMetrics)) : Prop :=
  Forall (fun e : rstring * RouterMetrics => label_ok e.1) rs.

Lemma in_calls_ok date now m u :
  label_ok u -> routers_clean (routers m) -> Forall call_ok (in_calls date now m u).
Proof.
  intros Hu Hr. apply Forall_app. split; [destruct (in_gate m); [by apply gate_calls_ok|constructor]|].
  apply Forall_app. split.
  - repeat (apply Forall_cons; split; [apply simple_call_ok; metric_texts|]). apply Forall_nil. done.
  - apply Forall_forall. intros c (e & Hc & He)%list_elem_of_bind.
    refine (proj1 (Forall_forall _ _) (router_calls_ok u e Hu _) _ Hc).
    exact (proj1 (Forall_forall _ _) Hr _ He).
Qed.

(** ** The lines that describe a metric *)

(** How often the type of a metric is stated. *)
Definition type_line (m : Metric) : Line := LType (sample_name m None) (metric_type_text (me_type m)).

#[export] Instance Line_eq_dec : EqDecision Line.
Proof. solve_decision. Defined.

Definition times (x : Line) (ls : list Line) : nat := length (filter (fun l => l = x) ls).

Lemma times_app x a b : times x (a ++ b) = (times x a + times x b)%nat.
Proof. unfold times. by rewrite filter_app, length_app. Qed.

Lemma times_bind x {A} (f : A -> list Line) n (l : list A) :
  Forall (fun a => times x (f a) = n) l -> times x (l ≫= f) = (n * length l)%nat.
Proof.
  induction 1 as [|a l Ha _ IH]; [cbn; lia|]. rewrite bind_cons, times_app, Ha, IH. cbn [length]. lia.
Qed.

Lemma times_samples m' m u vs : times (type_line m') (value_line m u <$> vs) = 0%nat.
Proof.
  induction vs as [|v vs IH]; [done|]. rewrite fmap_cons. unfold times in *. rewrite filter_cons.
  rewrite decide_False; [done|]. by destruct v.
Qed.

Lemma times_call m c :
  me_type (ca_metric c) <> Text ->
  times (type_line m) (call_lines c) = if decide (type_line (ca_metric c) = type_line m) then 1%nat else 0%nat.
Proof.
  intros Ht. unfold call_lines. rewrite bool_decide_false by done.
  pose proof (times_samples m (ca_metric c) (ca_unit c) (ca_values c)) as Hs. unfold times in *.
  rewrite filter_cons, decide_False, filter_cons by done.
  change (LType _ _) with (type_line (ca_metric c)) at 1.
  destruct (decide (type_line (ca_metric c) = type_line m)); cbn [length]; by rewrite Hs.
Qed.

Lemma times_text m c : me_type (ca_metric c) = Text -> times (type_line m) (call_lines c) = 0%nat.
Proof. intros Ht. unfold call_lines. by rewrite bool_decide_true. Qed.

(** Only the calls for the received messages state the type of their metric. *)
Lemma times_received_router u e :
  length (num_bmp_messages_received e.2) = 7%nat ->
  times (type_line NUM_BMP_MESSAGES_RECEIVED_METRIC) (router_calls u e ≫= call_lines) = 7%nat.
Proof.
  intros Hl. unfold router_calls. rewrite bind_app, times_app, (times_bind _ _ 1%nat).
  - rewrite length_fmap, length_zip, Hl. rewrite !bind_cons, !times_app, !times_call by done. done.
  - apply Forall_forall. intros c [nv [-> _]]%list_elem_of_fmap. by rewrite times_call.
Qed.

Lemma times_received_in date now m u :
  counters_ok (routers m) ->
  times (type_line NUM_BMP_MESSAGES_RECEIVED_METRIC) (in_calls date now m u ≫= call_lines)
  = (7 * length (routers m))%nat.
Proof.
  intros Hc. unfold in_calls. rewrite !bind_app, !times_app.
  assert (Hg : times (type_line NUM_BMP_MESSAGES_RECEIVED_METRIC)
    (match in_gate m with Some g => gate_calls date now g u | None => [] end ≫= call_lines) = 0%nat).
  { destruct (in_gate m) as [g|]; [|done]. unfold gate_calls.
    destruct (last_update g); cbn [app]; rewrite !bind_cons, !times_app, ?times_call by done;
      rewrite ?times_text by done; done. }
  assert (Hu : times (type_line NUM_BMP_MESSAGES_RECEIVED_METRIC) (unit_calls m u ≫= call_lines) = 0%nat).
  { unfold unit_calls. rewrite !bind_cons, !times_app, !times_call by done. done. }
  rewrite Hg, Hu. clear Hg Hu. cbn [Nat.add].
  induction Hc as [|e rs He _ IH]; [done|].
  rewrite !bind_cons, bind_app, times_app, times_received_router, IH by done. cbn [length]. lia.
Qed.

(** ** The reporter *)

(** The events that the unit reports. *)
Inductive Report : Type :=
| Listening
| Accepted
| Lost (router_id : rstring)
| IoFailed (router_id : rstring)
| Received (router_id : rstring) (code : nat)
| Processed (router_id : rstring)
| Invalid (router_id : rstring).

Definition report_event (o : Report) (m : BmpTcpInMetrics) : option BmpTcpInMetrics :=
  match o with
  | Listening => Some (listener_listening m)
  | Accepted => Some (listener_connection_accepted m)
  | Lost r => Some (router_connection_lost r m)
  | IoFailed r => Some (receive_io_error r m)
  | Received r code => message_received r code m
  | Processed r => Some (message_processed r m)
  | Invalid r => Some (message_processing_failure r m)
  end.

Fixpoint report_events (os : list Report) (m : BmpTcpInMetrics) : option BmpTcpInMetrics :=
  match os with
  | [] => Some m
  | o :: os => m ← report_event o m; report_events os m
  end.

Definition report_router (o : Report) : option rstring :=
  match o with
  | Listening | Accepted => None
  | Lost r | IoFailed r | Received r _ | Processed r | Invalid r => Some r
  end.

(** The messages of a type from a router since its connection was last lost, with one more
    event. *)
Definition count_event (r : rstring) (code : nat) (o : Report) (n : Z) : Z :=
  match o with
  | Lost r' => if bool_decide (r' = r) then 0 else n
  | Received r' code' => if bool_decide (r' = r /\ code' = code) then n + 1 else n
  | _ => n
  end.

Fixpoint received_since (r : rstring) (code : nat) (n : Z) (os : list Report) : Z :=
  match os with
  | [] => n
  | o :: os => received_since r code (count_event r code o n) os
  end.

(** Well-formed: each router once, with seven counters and a clean name. *)
Record in_ok (m : BmpTcpInMetrics) : Prop := mk_in_ok {
  io_wf : frim_wf (routers m);
  io_counters : counters_ok (routers m);
  io_clean : routers_clean (routers m)
}.

(** The counter of a router for a type of message. *)
Definition received_count (m : BmpTcpInMetrics) (r : rstring) (code : nat) : Z :=
  match frim_view (routers m) !! r with
  | Some rm => default 0 (num_bmp_messages_received rm !! code)
  | None => 0
  end.

Lemma frim_view_map id (f : RouterMetrics -> RouterMetrics) rs :
  frim_view ((fun e : rstring * RouterMetrics => if bool_decide (e.1 = id) then (e.1, f e.2) else e) <$> rs)
  = alter f id (frim_view rs).
Proof.
  apply map_eq. intros k. induction rs as [|[k' v] rs IH].
  - unfold frim_view. cbn. rewrite lookup_alter, !lookup_empty. by case_decide.
  - rewrite fmap_cons. unfold frim_view in *. cbn [fst snd].
    assert (Hcons : forall (e : rstring * RouterMetrics) l k,
      (list_to_map (e :: l) : gmap rstring RouterMetrics) !! k = if decide (e.1 = k) then Some e.2 else (list_to_map l : gmap rstring RouterMetrics) !! k).
    { intros [k1 v1] l k0. cbn. by rewrite lookup_insert. }
    rewrite Hcons, lookup_alter, !Hcons, IH, lookup_alter. cbn [fst snd].
    case_bool_decide; cbn [fst snd]; repeat case_decide; subst; done.
Qed.

Lemma map_keys id (f : RouterMetrics -> RouterMetrics) rs :
  ((fun e : rstring * RouterMetrics => if bool_decide (e.1 = id) then (e.1, f e.2) else e) <$> rs).*1 = rs.*1.
Proof. induction rs as [|[k v] rs IH]; [done|]. rewrite !fmap_cons, IH. cbn. by case_bool_decide. Qed.

(** A well-formed table, entry by entry. *)
Lemma in_ok_entries m :
  frim_wf (routers m) ->
  (forall r rm, frim_view (routers m) !! r = Some rm ->
     length (num_bmp_messages_received rm) = 7%nat /\ label_ok r) -> in_ok m.
Proof.
  intros Hwf He. split; [done|..]; apply Forall_forall; intros [r rm] Hr%frim_elem; try done;
    by apply He in Hr as [].
Qed.

Lemma in_ok_entry m r rm :
  in_ok m -> frim_view (routers m) !! r = Some rm ->
  length (num_bmp_messages_received rm) = 7%nat /\ label_ok r.
Proof.
  intros [Hwf Hc Hl] Hr. apply frim_elem in Hr; [|done].
  split; [exact (proj1 (Forall_forall _ _) Hc _ Hr)|exact (proj1 (Forall_forall _ _) Hl _ Hr)].
Qed.

Lemma on_in_router_spec id f m :
  in_ok m -> label_ok id ->
  (forall rm, length (num_bmp_messages_received rm) = 7%nat ->
     length (num_bmp_messages_received (f rm)) = 7%nat) ->
  in_ok (on_in_router id f m)
  /\ frim_view (routers (on_in_router id f m))
     = <[id := f (default router_metrics_default (frim_view (routers m) !! id))]> (frim_view (routers m)).
Proof.
  intros Hok Hid Hf. destruct (frim_or_insert_with_spec id router_metrics_default (routers m) (io_wf _ Hok))
    as (Hwf & Hd & Hv). unfold on_in_router.
  destruct (frim_or_insert_with id router_metrics_default (routers m)) as [x rs]. cbn [fst snd] in *. subst x.
  cbn [routers]. rewrite frim_view_map, Hv, alter_insert_eq. split; [|done].
  apply in_ok_entries; cbn [routers].
  - unfold frim_wf. by rewrite map_keys.
  - intros r rm. rewrite frim_view_map, Hv, alter_insert_eq.
    intros [[<- <-]|[_ Hr]]%lookup_insert_Some; [|by apply (in_ok_entry m)].
    split; [|done]. apply Hf. destruct (frim_view (routers m) !! id) eqn:Hr; [|done].
    by apply (in_ok_entry m) in Hr as [].
Qed.

Lemma received_count_on id f m r code :
  in_ok m -> label_ok id ->
  (forall rm, length (num_bmp_messages_received rm) = 7%nat ->
     length (num_bmp_messages_received (f rm)) = 7%nat) ->
  received_count (on_in_router id f m) r code
  = if bool_decide (id = r)
    then default 0 (num_bmp_messages_received
                      (f (default router_metrics_default (frim_view (routers m) !! id))) !! code)
    else received_count m r code.
Proof.
  intros Hok Hid Hf. destruct (on_in_router_spec id f m Hok Hid Hf) as [_ Hv].
  unfold received_count. rewrite Hv, lookup_insert. case_bool_decide; case_decide; naive_solver.
Qed.

(** What is counted when the entry is the default one. *)
Lemma received_default m r code :
  default 0 (num_bmp_messages_received (default router_metrics_default (frim_view (routers m) !! r)) !! code)
  = received_count m r code.
Proof.
  unfold received_count. destruct (frim_view (routers m) !! r); [done|].
  cbn [default num_bmp_messages_received router_metrics_default from_option id].
  destruct (decide (code < 7)%nat) as [H|H]; [by rewrite lookup_replicate_2|].
  by rewrite lookup_ge_None_2 by (rewrite length_replicate; lia).
Qed.

(** A change that leaves the received messages alone. *)
Lemma on_other_spec id f m :
  in_ok m -> label_ok id ->
  (forall rm, num_bmp_messages_received (f rm) = num_bmp_messages_received rm) ->
  in_ok (on_in_router id f m)
  /\ forall r code n, received_count m r code = wrap 64 n ->
       received_count (on_in_router id f m) r code = wrap 64 n.
Proof.
  intros Hok Hid Hf. assert (Hl : forall rm, length (num_bmp_messages_received rm) = 7%nat ->
     length (num_bmp_messages_received (f rm)) = 7%nat) by (intros rm; by rewrite Hf).
  split; [by apply on_in_router_spec|]. intros r code n <-. rewrite received_count_on by done.
  case_bool_decide as Hr; [|done]. by rewrite Hf, received_default, Hr.
Qed.

Lemma lost_spec id m :
  in_ok m ->
  in_ok (router_connection_lost id m)
  /\ forall r code, received_count (router_connection_lost id m) r code
       = if bool_decide (id = r) then 0 else received_count m r code.
Proof.
  intros Hok. pose proof (frim_view_remove id (routers m) (io_wf _ Hok)) as Hv. split.
  - apply in_ok_entries; cbn [router_connection_lost routers]; [by apply frim_wf_remove, Hok|].
    intros r rm. rewrite Hv. intros [_ Hr]%lookup_delete_Some. by apply (in_ok_entry m).
  - intros r code. unfold received_count. cbn [router_connection_lost routers]. rewrite Hv, lookup_delete.
    case_bool_decide; case_decide; naive_solver.
Qed.

Lemma received_spec id c m m' :
  in_ok m -> label_ok id -> message_received id c m = Some m' ->
  in_ok m'
  /\ forall r code, received_count m' r code
       = if bool_decide (id = r /\ c = code) then fetch_add (received_count m r code) 1
         else received_count m r code.
Proof.
  intros Hok Hid. unfold message_received. destruct (Nat.ltb_spec c 7) as [Hc|]; [|done]. intros [= <-].
  set (f := fun r => _). assert (Hl : forall rm, length (num_bmp_messages_received rm) = 7%nat ->
     length (num_bmp_messages_received (f rm)) = 7%nat).
  { intros rm. unfold f. cbn. by rewrite length_alter. }
  split; [by apply on_in_router_spec|]. intros r code. rewrite received_count_on by done.
  destruct (decide (id = r)) as [<-|Hne].
  2: { rewrite !bool_decide_false by naive_solver. done. }
  rewrite (bool_decide_true (id = id)) by done. unfold f. cbn [num_bmp_messages_received].
  rewrite <- (received_default m id code).
  set (l := num_bmp_messages_received _).
  assert (Hlen : length l = 7%nat).
  { unfold l. destruct (frim_view (routers m) !! id) eqn:Hr; [|done]. by apply (in_ok_entry m) in Hr as []. }
  destruct (decide (c = code)) as [<-|Hcode].
  - rewrite bool_decide_true, list_lookup_alter, decide_True by done.
    destruct (lookup_lt_is_Some_2 l c) as [x Hx]; [lia|]. by rewrite Hx.
  - rewrite bool_decide_false, list_lookup_alter, decide_False by naive_solver. done.
Qed.

Lemma report_event_spec o m m' :
  in_ok m -> opt_ok label_ok (report_router o) -> report_event o m = Some m' ->
  in_ok m'
  /\ forall r code n, received_count m r code = wrap 64 n -> received_count m' r code = wrap 64 (count_event r code o n).
Proof.
  intros Hok Hr. destruct o as [| |id|id|id c|id|id]; cbn [report_event report_router opt_ok count_event] in *.
  - intros [= <-]. split; [by destruct Hok; split|done].
  - intros [= <-]. split; [by destruct Hok; split|done].
  - intros [= <-]. destruct (lost_spec id m Hok) as [Hok' Hc]. split; [done|].
    intros r code n Hn. rewrite Hc. by case_bool_decide.
  - intros [= <-]. unfold receive_io_error. by apply on_other_spec.
  - intros H. destruct (received_spec id c m m' Hok Hr H) as [Hok' Hc]. split; [done|].
    intros r code n Hn. rewrite Hc. case_bool_decide; [|done]. unfold fetch_add. rewrite Hn. unfold wrap.
    by rewrite Z.add_mod_idemp_l by lia.
  - intros [= <-]. unfold message_processed. by apply on_other_spec.
  - intros [= <-]. unfold message_processing_failure. by apply on_other_spec.
Qed.

Lemma report_events_spec os m m' :
  in_ok m -> Forall (fun o => opt_ok label_ok (report_router o)) os -> report_events os m = Some m' ->
  in_ok m'
  /\ forall r code n, received_count m r code = wrap 64 n -> received_count m' r code = wrap 64 (received_since r code n os).
Proof.
  intros Hok Hos. revert m Hok. induction Hos as [|o os Ho _ IH]; intros m Hok; cbn [report_events].
  - by intros [= <-].
  - destruct (report_event o m) as [m1|] eqn:H1; [|done]. cbn [mbind option_bind]. intros Hm.
    destruct (report_event_spec o m m1 Hok Ho H1) as [Hok1 Hc1].
    destruct (IH m1 Hok1 Hm) as [Hok' Hc]. split; [done|]. intros r code n Hn. cbn [received_since].
    by apply Hc, Hc1.
Qed.

Lemma in_new_ok g : in_ok (in_metrics_new g).
Proof. split; constructor. Qed.

(** The sample of a counter is among the lines of the calls. *)
Lemma received_line date now m u r rm code n v :
  (r, rm) ∈ routers m -> BMP_RFC_7854_MSG_TYPE_NAMES !! code = Some n ->
  num_bmp_messages_received rm !! code = Some v ->
  LSample (sample_name NUM_BMP_MESSAGES_RECEIVED_METRIC None)
    [(str "component", u); (str "router", r); (str "msg_type", n)] (u64_text v)
  ∈ in_calls date now m u ≫= call_lines.
Proof.
  intros Hr Hn Hv. apply list_elem_of_bind. exists (received_call u r (n, v)). split.
  - unfold call_lines. rewrite bool_decide_false by done. right. right. left.
  - apply elem_of_app. right. apply elem_of_app. right. apply list_elem_of_bind.
    exists (r, rm). split; [|done]. apply elem_of_app. left. apply list_elem_of_fmap_2.
    apply (list_elem_of_lookup_2 _ code). rewrite lookup_zip_with, Hn.
    cbn [mbind option_bind snd]. by rewrite Hv.
Qed.

(** The counters of received messages, after any sequence of reports from the start of the
    unit: the output is written without a panic and reads back, and for each router that has
    an entry it has one sample for each of the seven types of RFC 7854, labelled with the
    component, the router and the name of the type, whose value is the number of messages
    of that type since the router was last lost, modulo 2^64.  The type of the metric,
    which the format allows once, is stated seven times for each router. *)
Theorem bmp_metrics_reported date now os g m u :
  report_events os (in_metrics_new g) = Some m ->
  Forall (fun o => opt_ok label_ok (report_router o)) os -> label_ok u ->
  exists t ls, in_metrics_append date now m u (target_new Prometheus) = Some t
  /\ read_text (into_string t) = Some ls
  /\ (forall r rm code n, frim_get (routers m) r = Some rm ->
        BMP_RFC_7854_MSG_TYPE_NAMES !! code = Some n ->
        LSample (sample_name NUM_BMP_MESSAGES_RECEIVED_METRIC None)
          [(str "component", u); (str "router", r); (str "msg_type", n)]
          (u64_text (wrap 64 (received_since r code 0 os))) ∈ ls)
  /\ times (type_line NUM_BMP_MESSAGES_RECEIVED_METRIC) ls = (7 * length (routers m))%nat.
Proof.
  intros Hm Hos Hu. destruct (report_events_spec os _ m (in_new_ok g) Hos Hm) as [Hok Hc].
  pose proof Hok as [Hwf Hcs Hcl].
  eexists _, _. split; [by apply in_metrics_append_calls|].
  split; [by apply metrics_read_back_lines, in_calls_ok|]. split; [|by apply times_received_in].
  intros r rm code n Hr Hn. rewrite frim_get_view in Hr.
  destruct (in_ok_entry m r rm Hok Hr) as [Hlen _].
  pose proof (lookup_lt_Some _ _ _ Hn) as Hlt. cbn in Hlt.
  destruct (lookup_lt_is_Some_2 (num_bmp_messages_received rm) code) as [v Hv]; [lia|].
  rewrite <- (Hc r code 0).
  - unfold received_count. rewrite Hr, Hv. eapply received_line; [|done..]. by apply frim_elem.
  - unfold received_count. cbn. done.
Qed.

Section Handler.
Context `{E : Extern} `{L : Layout} `{RC : !Routecore} `{BP : !BmpParser} `{BR : !BmpRoto}.
Context `{HI : !HashIter Z IngressInfo}
        `{HP : !HashIter PphKey (PerPeerHeader * PeerState)}
        `{HM : !HashIter rstring RouterBmpMetrics}.

(** The end of a connection leaves the metrics of the state machines as they were: the
    gauge of connected routers still counts the one that left, and its own metrics are
    still in the output. *)
Theorem lost_router_still_counted id (h h' : Handler) u t :
  finish id h = (Some tt, h') ->
  machine_metrics_append (metrics (h_world h')) u t = machine_metrics_append (metrics (h_world h)) u t.
Proof.
  intros Hf. assert (Hm : metrics (h_world h') = metrics (h_world h)); [|by rewrite Hm].
  revert Hf. unfold finish, teardown. unfold mbind, run_bind, machine.
  destruct (h_machine h) as [s|]; [|done]. unfold with_register, run_modify, run_get.
  cbn [set_world h_world reg metrics]. destruct (state_disconnect _ _) as [entries r].
  unfold send, run_modify. cbn. by intros [= <-].
Qed.

End Handler.

(** ** The metrics of a small unit

    A component with a counter; a BMP unit with one router that sent two messages. *)

Module MetricsDemo.

Definition calls (v : Z) : list Call := [mk_call NUM_UPDATES_METRIC (Some (str "u")) [VSimple (u64_text v) None]].

Lemma calls_clean v : Forall call_ok (calls v).
Proof.
  constructor; [|constructor]. apply (simple_call_ok NUM_UPDATES_METRIC (str "u"));
    [metric_texts..|by apply label_text|metric_texts].
Qed.

End MetricsDemo.

Lemma metrics_read_back_witness :
  read_text (into_string (calls_append (MetricsDemo.calls 5) (target_new Prometheus)))
  = Some (MetricsDemo.calls 5 ≫= call_lines).
Proof. apply (metrics_read_back (MetricsDemo.calls 5)), MetricsDemo.calls_clean. Defined.

Lemma bmp_metrics_reported_witness :
  exists t ls, in_metrics_append (fun _ => []) 0 
      (default (in_metrics_new gmetrics_default)
         (report_events [Accepted; Received (str "r") 4; Received (str "r") 0] (in_metrics_new gmetrics_default)))
      (str "bmp") (target_new Prometheus) = Some t
    /\ read_text (into_string t) = Some ls
    /\ times (type_line NUM_BMP_MESSAGES_RECEIVED_METRIC) ls = 7%nat.
Proof.
  destruct (bmp_metrics_reported (fun _ => []) 0 [Accepted; Received (str "r") 4; Received (str "r") 0]
    gmetrics_default
    (default (in_metrics_new gmetrics_default)
       (report_events [Accepted; Received (str "r") 4; Received (str "r") 0] (in_metrics_new gmetrics_default)))
    (str "bmp")) as (t & ls & Ht & Hr & _ & Hn).
  - by vm_compute.
  - repeat (constructor; [first [exact I | by apply label_text]|]). constructor.
  - by apply label_text.
  - exists t, ls. split; [exact Ht|]. split; [exact Hr|]. rewrite Hn. by vm_compute.
Defined.
