(* ===== verification/WebText.v ===== *)
(** * What the web pages print ([src/webui/base.rs])

    First the ordered collections of the standard library: [BTreeSet] and [BTreeMap] as the list of their members in strictly increasing
    order, [Vec::sort_by] as a stable insertion sort, and the orders of the keys
    that the web interface uses; then the texts of roles, next hops and peers. *)

From S2P Require Import Prelude Net.
From Stdlib Require Import ZArith Lia Sorting.Sorted.
From stdpp Require Import base numbers list sets sorting.

Local Open Scope Z_scope.

(** [Ord]: a strict total order that can be decided. *)
Class KeyOrd (A : Type) := {
  key_lt : A -> A -> bool;
  key_lt_irrefl x : key_lt x x = false;
  key_lt_trans x y z : key_lt x y = true -> key_lt y z = true -> key_lt x z = true;
  key_lt_total x y : key_lt x y = false -> key_lt y x = false -> x = y
}.

#[export] Instance Z_key : KeyOrd Z.
Proof. refine {| key_lt := Z.ltb |}; intros; zify_bools; lia. Defined.

(** [IpAddr]: version 4 first, then by value. *)
Definition addr_ltb (a b : IpAddr) : bool :=
  match a, b with
  | V4 x, V4 y | V6 x, V6 y => x <? y
  | V4 _, V6 _ => true
  | V6 _, V4 _ => false
  end.

#[export] Instance IpAddr_key : KeyOrd IpAddr.
Proof.
  refine {| key_lt := addr_ltb |}.
  - intros []; cbn; zify_bools; lia.
  - intros [] [] []; cbn; try done; zify_bools; lia.
  - intros [x|x] [y|y]; cbn; try done; intros; zify_bools; f_equal; lia.
Defined.

(** Tuples, by their first members first. *)
Definition pair_ltb {A B} `{KeyOrd A, KeyOrd B} (x y : A * B) : bool :=
  key_lt x.1 y.1 || (negb (key_lt y.1 x.1) && key_lt x.2 y.2).

#[export] Instance pair_key {A B} `{KA : KeyOrd A, KB : KeyOrd B} : KeyOrd (A * B).
Proof.
  refine {| key_lt := pair_ltb |}; unfold pair_ltb.
  - intros x. by rewrite !key_lt_irrefl.
  - intros [a b] [c d] [e f]; cbn [fst snd]. intros H1 H2.
    destruct (key_lt a c) eqn:Hac, (key_lt c e) eqn:Hce; cbn in *.
    + by rewrite (key_lt_trans a c e).
    + apply andb_true_iff in H2 as [Hec _]. apply negb_true_iff in Hec.
      by rewrite <- (key_lt_total c e), Hac.
    + apply andb_true_iff in H1 as [Hca _]. apply negb_true_iff in Hca.
      by rewrite (key_lt_total a c), Hce.
    + apply andb_true_iff in H1 as [Hca Hbd], H2 as [Hec Hdf]. apply negb_true_iff in Hca, Hec.
      rewrite (key_lt_total a c), (key_lt_total c e), key_lt_irrefl by done. cbn.
      by apply (key_lt_trans b d f).
  - intros [a b] [c d]; cbn [fst snd]. rewrite !orb_false_iff, !andb_false_iff, !negb_false_iff.
    intros [Hac H1] [Hca H2]. rewrite Hac, Hca in *. f_equal; [by apply key_lt_total|].
    apply key_lt_total; naive_solver.
Defined.

Section Ordered.
Context {K : Type} `{KO : KeyOrd K}.

(** Strictly increasing: what iterating a [BTreeSet] gives. *)
Definition increasing (l : list K) : Prop := StronglySorted (fun x y => key_lt x y = true) l.

(** ** [BTreeSet] *)
Fixpoint bset_insert (x : K) (l : list K) : list K :=
  match l with
  | [] => [x]
  | y :: l' =>
      if key_lt x y then x :: l
      else if key_lt y x then y :: bset_insert x l' else l
  end.

(** [collect] into a set, and [append]. *)
Definition bset_extend (xs l : list K) : list K := foldl (fun l x => bset_insert x l) l xs.
Definition bset_collect (xs : list K) : list K := bset_extend xs [].

Context `{EqDecision K}.

Definition bset_difference (a b : list K) : list K := filter (fun x => x ∉ b) a.
Definition bset_intersection (a b : list K) : list K := filter (fun x => x ∈ b) a.

Lemma bset_insert_elem x y l : y ∈ bset_insert x l <-> y = x \/ y ∈ l.
Proof.
  induction l as [|z l IH]; cbn; [set_solver|].
  destruct (key_lt x z) eqn:H1; [set_solver|].
  destruct (key_lt z x) eqn:H2; [set_solver|].
  rewrite (key_lt_total x z H1 H2). set_solver.
Qed.

Lemma bset_insert_increasing x l : increasing l -> increasing (bset_insert x l).
Proof.
  unfold increasing. induction 1 as [|y l Hl IH Hy]; cbn; [by repeat constructor|].
  destruct (key_lt x y) eqn:H1.
  - constructor; [by constructor|]. constructor; [done|].
    eapply Forall_impl; [exact Hy|]. cbn. intros z. by apply key_lt_trans.
  - destruct (key_lt y x) eqn:H2; [|by constructor].
    constructor; [done|]. apply Forall_forall. intros z [->|Hz]%bset_insert_elem; [done|].
    exact (proj1 (Forall_forall _ _) Hy z Hz).
Qed.

Lemma bset_extend_elem y xs l : y ∈ bset_extend xs l <-> y ∈ xs \/ y ∈ l.
Proof.
  unfold bset_extend. revert l. induction xs as [|x xs IH]; intros l; cbn; [set_solver|].
  rewrite IH, bset_insert_elem. set_solver.
Qed.

Lemma bset_extend_increasing xs l : increasing l -> increasing (bset_extend xs l).
Proof.
  unfold bset_extend. revert l. induction xs as [|x xs IH]; intros l Hl; cbn; [done|].
  by apply IH, bset_insert_increasing.
Qed.

Lemma bset_collect_elem y xs : y ∈ bset_collect xs <-> y ∈ xs.
Proof. unfold bset_collect. rewrite bset_extend_elem. set_solver. Qed.

Lemma bset_collect_increasing xs : increasing (bset_collect xs).
Proof. apply bset_extend_increasing. constructor. Qed.

Lemma increasing_NoDup l : increasing l -> NoDup l.
Proof.
  induction 1 as [|x l Hl IH Hx]; constructor; [|done].
  intros Hin. assert (H : key_lt x x = true) by exact (proj1 (Forall_forall _ _) Hx x Hin).
  by rewrite key_lt_irrefl in H.
Qed.

Lemma increasing_filter P `{!forall x : K, Decision (P x)} l :
  increasing l -> increasing (filter P l).
Proof.
  unfold increasing. induction 1 as [|x l Hl IH Hx]; [constructor|].
  rewrite filter_cons. case_decide; [|done]. constructor; [done|].
  rewrite Forall_forall in Hx |- *. intros y [_ Hy]%list_elem_of_filter. by apply Hx.
Qed.

(** An increasing list is determined by its members. *)
Lemma increasing_ext l k : increasing l -> increasing k -> (forall x, x ∈ l <-> x ∈ k) -> l = k.
Proof.
  intros Hl. revert k. induction Hl as [|x l Hl IH Hx]; intros [|y k] Hk He.
  - done.
  - exfalso. apply (not_elem_of_nil (A := K) y). rewrite He. left.
  - exfalso. apply (not_elem_of_nil (A := K) x). rewrite <- He. left.
  - inversion_clear Hk as [|? ? Hk' Hy]. rewrite Forall_forall in Hx, Hy.
    assert (x = y) as <-.
    { assert (Hi : x ∈ y :: k) by (rewrite <- He; left).
      assert (Hj : y ∈ x :: l) by (rewrite He; left).
      apply elem_of_cons in Hi as [->|Hi]; [done|]. apply elem_of_cons in Hj as [->|Hj]; [done|].
      pose proof (key_lt_trans _ _ _ (Hx _ Hj) (Hy _ Hi)) as H. by rewrite key_lt_irrefl in H. }
    f_equal. apply IH; [done|]. intros z.
    assert (Hne : forall m : list K, (forall w, w ∈ m -> key_lt x w = true) -> z ∈ m -> z <> x).
    { intros m Hm Hz ->. specialize (Hm x Hz). by rewrite key_lt_irrefl in Hm. }
    specialize (He z). rewrite !elem_of_cons in He. split; intros Hz.
    + destruct (proj1 He (or_intror Hz)) as [->|?]; [by destruct (Hne l Hx Hz)|done].
    + destruct (proj2 He (or_intror Hz)) as [->|?]; [by destruct (Hne k Hy Hz)|done].
Qed.

(** ** [BTreeMap] *)
Section Map.
Context {V : Type}.

Fixpoint bmap_get (k : K) (m : list (K * V)) : option V :=
  match m with
  | [] => None
  | (k', v) :: m => if decide (k = k') then Some v else bmap_get k m
  end.

(** [insert], or an update through the entry of a key. *)
Fixpoint bmap_update (k : K) (f : option V -> V) (m : list (K * V)) : list (K * V) :=
  match m with
  | [] => [(k, f None)]
  | (k', v) :: m' =>
      if key_lt k k' then (k, f None) :: m
      else if key_lt k' k then (k', v) :: bmap_update k f m'
      else (k', f (Some v)) :: m'
  end.

Definition bmap_insert (k : K) (v : V) : list (K * V) -> list (K * V) := bmap_update k (fun _ => v).

Lemma bmap_get_before k m :
  Forall (fun k' => key_lt k k' = true) m.*1 -> bmap_get k m = None.
Proof.
  induction m as [|[k' v] m IH]; cbn; [done|]. intros [Hk Hm]%Forall_cons_1.
  rewrite decide_False; [by apply IH|]. intros ->. by rewrite key_lt_irrefl in Hk.
Qed.

Lemma bmap_update_get k f m k' :
  increasing m.*1 ->
  bmap_get k' (bmap_update k f m)
  = if decide (k' = k) then Some (f (bmap_get k m)) else bmap_get k' m.
Proof.
  intros Hm. induction m as [|[k0 v] m IH]; cbn [bmap_update bmap_get]; [done|].
  inversion_clear Hm as [|? ? Hm' Hk0]. cbn [fst] in Hk0.
  destruct (key_lt k k0) eqn:H1; [|destruct (key_lt k0 k) eqn:H2].
  - cbn [bmap_get]. assert (k <> k0) by (intros ->; by rewrite key_lt_irrefl in H1).
    rewrite (decide_False (P := k = k0)) by done. rewrite (bmap_get_before k m); [done|].
    eapply Forall_impl; [exact Hk0|]. cbn. intros z. by apply key_lt_trans.
  - cbn [bmap_get]. assert (k <> k0) by (intros ->; by rewrite key_lt_irrefl in H2).
    rewrite (decide_False (P := k = k0)) by done. rewrite IH by done.
    repeat case_decide; congruence.
  - rewrite <- (key_lt_total k k0 H1 H2). cbn [bmap_get].
    rewrite (decide_True (P := k = k)) by done. by case_decide.
Qed.

Lemma bmap_update_keys k f m x : x ∈ (bmap_update k f m).*1 <-> x = k \/ x ∈ m.*1.
Proof.
  induction m as [|[k0 v] m IH]; cbn; [set_solver|].
  destruct (key_lt k k0) eqn:H1; cbn; [set_solver|].
  destruct (key_lt k0 k) eqn:H2; cbn; [set_solver|].
  rewrite (key_lt_total k k0 H1 H2). set_solver.
Qed.

Lemma bmap_update_increasing k f m : increasing m.*1 -> increasing (bmap_update k f m).*1.
Proof.
  induction m as [|[k0 v] m IH]; cbn; [by repeat constructor|]. intros Hm.
  inversion_clear Hm as [|? ? Hm' Hk0].
  destruct (key_lt k k0) eqn:H1; cbn.
  - constructor; [by constructor|]. constructor; [done|].
    eapply Forall_impl; [exact Hk0|]. cbn. intros z. by apply key_lt_trans.
  - destruct (key_lt k0 k) eqn:H2; cbn; [|by constructor].
    constructor; [by apply IH|]. apply Forall_forall. intros z [->|Hz]%bmap_update_keys; [done|].
    exact (proj1 (Forall_forall _ _) Hk0 z Hz).
Qed.

Lemma bmap_get_elem k v m : increasing m.*1 -> (k, v) ∈ m <-> bmap_get k m = Some v.
Proof.
  induction m as [|[k0 v0] m IH]; cbn; [intros _; by rewrite elem_of_nil|]. intros Hm.
  inversion_clear Hm as [|? ? Hm' Hk0]. rewrite elem_of_cons, IH by done. case_decide as Hk.
  - subst k0. rewrite (bmap_get_before k m) by done. naive_solver.
  - naive_solver.
Qed.

End Map.
End Ordered.

(** ** [slice::sort_by], which is stable; [lt] says that the comparison is [Less]. *)
Section Sort.
Context {A : Type} (lt : A -> A -> bool).

Fixpoint sort_insert (x : A) (l : list A) : list A :=
  match l with
  | [] => [x]
  | y :: l' => if lt x y then x :: l else y :: sort_insert x l'
  end.

Definition sort_by (l : list A) : list A := foldl (fun l x => sort_insert x l) [] l.

Lemma sort_insert_perm x l : sort_insert x l ≡ₚ x :: l.
Proof.
  induction l as [|y l IH]; cbn; [done|]. destruct (lt x y); [done|].
  rewrite IH. apply Permutation_swap.
Qed.

Lemma sort_by_perm l : sort_by l ≡ₚ l.
Proof.
  unfold sort_by. change (foldl (fun l x => sort_insert x l) [] l ≡ₚ [] ++ l).
  generalize (@nil A) as acc. induction l as [|x l IH]; intros acc; cbn.
  { by rewrite app_nil_r. }
  rewrite IH, sort_insert_perm. cbn. apply Permutation_middle.
Qed.

End Sort.

(** ** What the pages of the web interface say of routers and peers ([src/webui/base.rs])

    The names and links of BMP routers and BGP peers, the roles of RFC 9234 and the
    extended next hops of RFC 8950 that both sides of a session sent, and the set of
    attributes seen among the routes of a peer.  The text of an address is that of the
    standard library; that of an AS number is a parameter. *)
From S2P Require Import Register Payload BmpRouter.
From stdpp Require Import strings.

Local Open Scope Z_scope.

(** ** Addresses ([Display] of [std::net]) *)

(** [{:x}] of a 16-bit number. *)
Fixpoint lower_hex (fuel : nat) (n : Z) : rstring :=
  match fuel with
  | O => []
  | S fuel =>
      (if n <? 16 then [] else lower_hex fuel (n / 16))
      ++ [let d := n mod 16 in if d <? 10 then 48 + d else 87 + d]
  end.

Fixpoint join_with (sep : rstring) (l : list rstring) : rstring :=
  match l with
  | [] => []
  | [s] => s
  | s :: l => s ++ sep ++ join_with sep l
  end.

Definition v4_text (a : Z) : rstring := join_with (str ".") (decimal 3 <$> be_bytes 4 a).

(** The eight 16-bit segments. *)
Definition segments (a : Z) : list Z :=
  (fun i => Z.land (Z.shiftr a (16 * (7 - i))) 65535) <$> [0; 1; 2; 3; 4; 5; 6; 7].

(** The first of the longest runs of zeros, as its start and its length. *)
Fixpoint zero_run (i : nat) (current longest : nat * nat) (l : list Z) : nat * nat :=
  match l with
  | [] => longest
  | s :: l =>
      if s =? 0 then
        let current := if bool_decide (current.2 = 0%nat) then (i, 1%nat)
                       else (current.1, S current.2) in
        zero_run (S i) current (if bool_decide (longest.2 < current.2)%nat then current else longest) l
      else zero_run (S i) (0%nat, 0%nat) longest l
  end.

Definition hex_groups (l : list Z) : rstring := join_with (str ":") (lower_hex 4 <$> l).

Definition v6_text (a : Z) : rstring :=
  if bool_decide (Z.shiftr a 32 = 65535) then str "::ffff:" ++ v4_text (Z.land a 4294967295)
  else
    let s := segments a in
    let z := zero_run 0 (0%nat, 0%nat) (0%nat, 0%nat) s in
    if bool_decide (1 < z.2)%nat
    then hex_groups (take z.1 s) ++ str "::" ++ hex_groups (drop (z.1 + z.2) s)
    else hex_groups s.

Definition ip_text (a : IpAddr) : rstring :=
  match a with V4 a => v4_text a | V6 a => v6_text a end.

Example ip_text_v4 : ip_text (V4 3221225985) = str "192.0.2.1".
Proof. reflexivity. Qed.
Example ip_text_v6 : ip_text (V6 42540766411282592856903984951653826561) = str "2001:db8::1".
Proof. reflexivity. Qed.
Example ip_text_any : ip_text (V6 0) = str "::".
Proof. reflexivity. Qed.

(** [Display for PeerRibType]. *)
Definition rib_type_text (t : PeerRibType) : rstring :=
  match t with
  | InPre => str "adj-RIB-in-pre"
  | InPost => str "adj-RIB-in-post"
  | Loc => str "RIB-loc"
  | OutPre => str "adj-RIB-out-pre"
  | OutPost => str "adj-RIB-out-post"
  end.

(** The derived order, with [None] first. *)
Definition rib_type_rank (t : option PeerRibType) : Z :=
  match t with
  | None => 0
  | Some InPre => 1
  | Some InPost => 2
  | Some Loc => 3
  | Some OutPre => 4
  | Some OutPost => 5
  end.

(** ** [AlternativeDisplay] *)
Definition alt_str (s alt : rstring) : rstring := if bool_decide (s = []) then alt else s.

Definition alt_opt (s : option rstring) (alt : rstring) : rstring :=
  default alt (i ← s; if bool_decide (i = []) then None else Some i).

(** ** Routers and peers *)
Record BmpRouter : Type := mk_bmp_router { br_id : IngressId; br_info : IngressInfo }.
Record BgpPeer : Type := mk_bgp_peer { bp_id : IngressId; bp_info : IngressInfo }.

Definition quote : rstring := [34].

Definition bmp_router_text (r : BmpRouter) : rstring :=
  match name (br_info r) with
  | Some ((_ :: _) as n) => n
  | _ => str "__unnamed-bmp-" ++ id_to_string (br_id r)
  end.

(** [BmpRouterLink]. *)
Definition bmp_details_link (r : BmpRouter) : rstring :=
  str "<a href=" ++ quote ++ str "/bmp/" ++ id_to_string (br_id r) ++ quote ++ str ">"
  ++ bmp_router_text r ++ str "</a>".

(** The text of an AS number is [inetnum]'s. *)
Section Asn.
Context (asn_text : Asn -> rstring).

Definition peer_asn_link (a : Asn) : rstring :=
  str "<a href=" ++ quote ++ str "/routes/peer_asn/" ++ asn_text a ++ quote ++ str ">"
  ++ asn_text a ++ str "</a>".

Definition peer_ip_link (a : IpAddr) : rstring :=
  str "<a href=" ++ quote ++ str "/routes/peer_ip/" ++ ip_text a ++ quote ++ str ">"
  ++ ip_text a ++ str "</a>".

Definition bgp_peer_text (p : BgpPeer) : rstring :=
  match remote_asn (bp_info p) with
  | Some asn => asn_text asn ++ str "@" ++ ip_text (default (V4 0) (remote_addr (bp_info p)))
  | None =>
      match name (bp_info p) with
      | Some n => str "bgp-peer-" ++ n
      | None => str "bgp-peer-lacking-info-id-" ++ id_to_string (bp_id p)
      end
  end.

End Asn.

(** ** [ObservedAttributes], a set of bits *)
Definition COMMUNITIES : Z := 1.
Definition EXT_COMMUNITIES : Z := 2.
Definition LARGE_COMMUNITIES : Z := 4.
Definition OTC : Z := 8.
Definition ROV_INVALID : Z := 16.

Definition all_marked (o : Z) : bool :=
  o =? Z.lor (Z.lor (Z.lor (Z.lor COMMUNITIES EXT_COMMUNITIES) LARGE_COMMUNITIES) OTC) ROV_INVALID.

(** [BitAnd], which answers whether a mark is set. *)
Definition observed (o mark : Z) : bool := 0 <? Z.land o mark.

(** ** [BgpRole] and [BgpRoles] *)
Definition PROVIDER : Z := 0.
Definition RS : Z := 1.
Definition RS_CLIENT : Z := 2.
Definition CUSTOMER : Z := 3.
Definition PEER : Z := 4.

Definition role_text (r : Z) : rstring :=
  if r =? PROVIDER then str "Prov"
  else if r =? RS then str "RS"
  else if r =? RS_CLIENT then str "RS-c"
  else if r =? CUSTOMER then str "Cust"
  else if r =? PEER then str "Peer"
  else str "unsupported BgpRole value " ++ decimal 3 r.

Record BgpRoles : Type := mk_roles { role_local : option Z; role_remote : option Z }.

Definition roles_empty (r : BgpRoles) : bool :=
  match role_local r, role_remote r with None, None => true | _, _ => false end.

Definition roles_incomplete (r : BgpRoles) : bool :=
  match role_local r, role_remote r with
  | Some _, None | None, Some _ => true
  | _, _ => false
  end.

Definition roles_correct (r : BgpRoles) : option bool :=
  match role_local r, role_remote r with
  | Some l, Some m =>
      Some (if (l =? PROVIDER) && (m =? CUSTOMER) then true
            else if (l =? CUSTOMER) && (m =? PROVIDER) then true
            else if (l =? RS) && (m =? RS_CLIENT) then true
            else if (l =? RS_CLIENT) && (m =? RS) then true
            else if (l =? PEER) && (m =? PEER) then true
            else false)
  | _, _ => None
  end.

(** U+21C4, the two arrows. *)
Definition arrows : rstring := [8644].

Definition roles_text (r : BgpRoles) : rstring :=
  if roles_empty r then []
  else match role_local r with
       | Some l => role_text l ++ arrows
       | None => str "(not configured)" ++ arrows
       end
       ++ match role_remote r with
          | Some m => role_text m
          | None => str "(not configured)"
          end.

(** ** [ExtendedNextHop] and [ExtendedNextHops] *)

(** Six octets: the address family and the subsequent one of the NLRI, and the
    address family of the next hop. *)
Definition IPV4UNICAST_IPV6 : list Z := [0; 1; 0; 1; 0; 2].
Definition IPV4MULTICAST_IPV6 : list Z := [0; 1; 0; 2; 0; 2].
Definition IPV4MPLS_IPV6 : list Z := [0; 1; 0; 4; 0; 2].
Definition IPV4MPLSVPN_IPV6 : list Z := [0; 1; 0; 128; 0; 2].
Definition IPV4MULTICASTVPN_IPV6 : list Z := [0; 1; 0; 129; 0; 2].

Definition next_hop_text (e : list Z) : rstring :=
  if bool_decide (e = IPV4UNICAST_IPV6) then str "v4-via-v6"
  else if bool_decide (e = IPV4MULTICAST_IPV6) then str "v4mc-via-v6"
  else if bool_decide (e = IPV4MPLS_IPV6) then str "v4mpls-via-v6"
  else if bool_decide (e = IPV4MPLSVPN_IPV6) then str "v4mpls_vpn-via-v6"
  else if bool_decide (e = IPV4MULTICASTVPN_IPV6) then str "v4mc_vpn-via-v6"
  else decimal 5 (be_val (take 2 e)) ++ str "/" ++ decimal 5 (be_val (take 2 (drop 2 e)))
       ++ str "-" ++ decimal 5 (be_val (take 2 (drop 4 e))).

Record ExtendedNextHops : Type := mk_next_hops {
  nh_local : option (list Z);
  nh_remote : option (list Z)
}.

(** [slice::chunks(6)]. *)
Fixpoint chunks6 (fuel : nat) (l : list Z) : list (list Z) :=
  match fuel, l with
  | O, _ | _, [] => []
  | S fuel, _ => take 6 l :: chunks6 fuel (drop 6 l)
  end.

(** [iter_for]: the items that the iterator yields; [None] is the panic on a chunk
    that is not of six octets. *)
Definition iter_for (raw : option (list Z)) : list (option (list Z)) :=
  match raw with
  | None => []
  | Some l => (fun c => if bool_decide (length c = 6)%nat then Some c else None)
                <$> chunks6 (length l) l
  end.

(** [Iterator::all] and [Iterator::any], with what they leave of the iterator. *)
Fixpoint iter_all {A} (p : A -> bool) (it : list (option A)) : option (bool * list (option A)) :=
  match it with
  | [] => Some (true, [])
  | None :: _ => None
  | Some x :: it => if p x then iter_all p it else Some (false, it)
  end.

Definition iter_any {A} (p : A -> bool) (it : list (option A)) : option (bool * list (option A)) :=
  (fun r => (negb r.1, r.2)) <$> iter_all (fun x => negb (p x)) it.

(** A filter whose closure owns another iterator: each test goes on where the one
    before it stopped. *)
Fixpoint iter_filter {A} (test : A -> list (option A) -> option (bool * list (option A)))
    (l it : list (option A)) : option (list A) :=
  match l with
  | [] => Some []
  | None :: _ => None
  | Some x :: l =>
      match test x it with
      | None => None
      | Some (keep, it) =>
          rest ← iter_filter test l it;
          Some (if keep : bool then x :: rest else rest)
      end
  end.

Definition differs (x y : list Z) : bool := negb (bool_decide (x = y)).

Definition only_local (n : ExtendedNextHops) : option (list (list Z)) :=
  iter_filter (fun x => iter_all (differs x)) (iter_for (nh_local n)) (iter_for (nh_remote n)).

Definition only_remote (n : ExtendedNextHops) : option (list (list Z)) :=
  iter_filter (fun x => iter_all (differs x)) (iter_for (nh_remote n)) (iter_for (nh_local n)).

Definition both (n : ExtendedNextHops) : option (list (list Z)) :=
  iter_filter (fun x => iter_any (fun y => bool_decide (x = y)))
    (iter_for (nh_local n)) (iter_for (nh_remote n)).
