(* ===== verification/WebUi.v ===== *)
(** * The pages of the web interface ([src/webui/base.rs])

    One definition per handler, up to the rendering of its page: the answer is the
    error text or the page that is handed to the template.  A handler that searches
    the RIB runs in [Run HttpCtx], one that may panic on its own returns an option. *)

From S2P Require Import Prelude Net Register Payload RibStore Rib RibSearch BmpRouter WebText.
From Stdlib Require Import ZArith Lia.
From stdpp Require Import base numbers list gmap fin_maps strings.

Local Open Scope Z_scope.

(** What routecore and inetnum do for the pages: the capabilities in the octets of an
    OPEN, by type code; the type codes of the attributes of a blob in their order,
    [None] for one that does not parse; and the texts of AS numbers, prefixes, AS paths
    (with their origin) and communities. *)
Class WebView `{SE : Searching} `{E : Extern} := {
  capabilities : list Z -> list (Z * list Z);
  attribute_codes : OwnedPathAttributes -> list (option Z);
  asn_text : Asn -> rstring;
  prefix_text : Prefix -> rstring;
  hop_path_origin_text : OwnedPathAttributes -> option rstring;
  hop_path_text : OwnedPathAttributes -> option rstring;
  community_text : StandardCommunity -> rstring
}.

Section WebUi.
Context `{E : Extern} `{PS : !PrefixStore RotondaPaMap} `{SE : Searching} `{WV : !WebView}.
Context `{PK : !KeyOrd Prefix} `{HI : !HashIter Z IngressInfo}.

Abbreviation Rec := (StoreRecord RotondaPaMap).
Abbreviation Sessions := (list ((Asn * IpAddr) * list (IngressId * IngressInfo))).

(** The part of [http_ng::ApiState] that the pages read. *)
Record UiState : Type := mk_ui { ui_register : Register; ui_store : option Rib }.

(** ** The front page *)
Definition BmpTree : Type := list (IngressId * (IngressInfo * Sessions)).

Definition rib_type_lt (a b : IngressId * IngressInfo) : bool :=
  rib_type_rank (peer_rib_type a.2) <? rib_type_rank (peer_rib_type b.2).

(** The routers that [bmp_routers] writes to a tree. *)
Definition tree_routers (r : Register) : BmpTree :=
  foldl (fun t e => bmap_insert e.1 (e.2, []) t) [] (bmp_routers r).

(** One turn of the loop of [bmp_tree]. *)
Definition tree_add (t : BmpTree) (e : IngressId * IngressInfo) : option BmpTree :=
  parent ← parent_ingress e.2;
  match bmap_get parent t with
  | None => Some t
  | Some (i, bgp) =>
      asn ← remote_asn e.2;
      addr ← remote_addr e.2;
      Some (bmap_insert parent
              (i, bmap_update (asn, addr)
                    (fun infos => sort_by rib_type_lt (default [] infos ++ [e])) bgp) t)
  end.

Fixpoint try_fold {A B} (f : B -> A -> option B) (b : B) (l : list A) : option B :=
  match l with
  | [] => Some b
  | x :: l => b ← f b x; try_fold f b l
  end.

Definition via_bmp (e : IngressId * IngressInfo) : Prop := ingress_type e.2 = Some BgpViaBmp.
#[local] Instance via_bmp_dec e : Decision (via_bmp e).
Proof. unfold via_bmp. solve_decision. Defined.

Definition bmp_tree (st : UiState) : option BmpTree :=
  try_fold tree_add (tree_routers (ui_register st)) (filter via_bmp (hm_iter (info (ui_register st)))).

Record Index : Type := mk_index {
  ix_bmp_routers : list BmpRouter;
  ix_bgp_routers : list BgpPeer;
  ix_bmp_tree : BmpTree
}.

Definition index (st : UiState) : option Index :=
  tree ← bmp_tree st;
  Some (mk_index ((fun e => mk_bmp_router e.1 e.2) <$> bmp_routers (ui_register st))
                 ((fun e => mk_bgp_peer e.1 e.2) <$> real_bgp_peers (ui_register st)) tree).

(** ** The page of a BMP router *)
Record BmpDetails : Type := mk_bmp_details {
  bd_router : BmpRouter;
  bd_other_routers : list BmpRouter;
  bd_bgp_sessions : Sessions
}.

Definition session_add (m : Sessions) (e : IngressId * IngressInfo) : option Sessions :=
  asn ← remote_asn e.2;
  addr ← remote_addr e.2;
  Some (bmap_update (asn, addr) (fun infos => default [] infos ++ [e]) m).

Definition other_router (id : IngressId) (e : IngressId * IngressInfo) : Prop :=
  ingress_type e.2 = Some Bmp /\ e.1 <> id.
#[local] Instance other_router_dec id e : Decision (other_router id e).
Proof. unfold other_router. solve_decision. Defined.

Definition session_of (id : IngressId) (e : IngressId * IngressInfo) : Prop :=
  parent_ingress e.2 = Some id /\ ingress_type e.2 = Some BgpViaBmp.
#[local] Instance session_of_dec id e : Decision (session_of id e).
Proof. unfold session_of. solve_decision. Defined.

Definition bmp_details (id : IngressId) (st : UiState) : option (rstring + BmpDetails) :=
  match get id (ui_register st) with
  | Some i =>
      if bool_decide (ingress_type i = Some Bmp) then
        let infos := hm_iter (info (ui_register st)) in
        sessions ← try_fold session_add [] (filter (session_of id) infos);
        Some (inr (mk_bmp_details (mk_bmp_router id i)
                     ((fun e => mk_bmp_router e.1 e.2) <$> filter (other_router id) infos) sessions))
      else Some (inl (str "ingress id {ingress_id} is not a BMP source"))
  | None => Some (inl (str "ingress id {ingress_id} is not a BMP source"))
  end.

(** ** Routes *)
Record RouteDetails : Type := mk_route_details {
  rd_bmp_router : option BmpRouter;
  rd_peer_asn : option Asn;
  rd_ribview : option PeerRibType;
  rd_origin_asn : rstring;
  rd_rov_status : RovStatus;
  rd_otc : option Asn;
  rd_as_path : rstring;
  rd_communities : rstring
}.

Record Routes : Type := mk_routes {
  rt_routes : list (Prefix * list RouteDetails);
  rt_less_specifics : list (Prefix * list RouteDetails);
  rt_more_specifics : list (Prefix * list RouteDetails);
  show_only_more_specifics : bool;
  title : rstring
}.

Definition routes_default : Routes := mk_routes [] [] [] false [].

(** One element of [collect_routes]; [ingress_info] of a search result is a lookup. *)
Definition route_router (sr : SearchResult) (id : IngressId) : option BmpRouter :=
  match ingress_info sr !! id with
  | Some i =>
      match parent_ingress i with
      | Some parent =>
          match ingress_info sr !! parent with
          | Some pi => if bool_decide (ingress_type pi = Some Bmp)
                       then Some (mk_bmp_router parent pi) else None
          | None => None
          end
      | None => None
      end
  | None => None
  end.

Definition route_details (sr : SearchResult) (m : Rec) : option RouteDetails :=
  let route_ingress_info : option IngressInfo := ingress_info sr !! r_mui m in
  pa ← path_attributes (r_meta m);
  rpki ← rpki_info (r_meta m);
  Some (mk_route_details (route_router sr (r_mui m)) (route_ingress_info ≫= remote_asn)
          (route_ingress_info ≫= peer_rib_type)
          (default [] (hop_path_origin_text pa)) (rov rpki) (get_otc pa)
          (default [] (hop_path_text pa))
          (default [] ((fun cs : list StandardCommunity => join_with (str ", ") (community_text <$> cs)) <$> get_communities pa))).

Definition collect_routes (sr : SearchResult) (rs : list Rec) : option (list RouteDetails) :=
  mapM (route_details sr) rs.

Definition MAX_ROWS : Z := 50000.

(** The loops of [write]: a row for each prefix that has routes, up to the cap. *)
Fixpoint push_rows (sr : SearchResult) (set : list (PrefixRecord RotondaPaMap))
    (rows : list (Prefix * list RouteDetails)) : option (list (Prefix * list RouteDetails)) :=
  match set with
  | [] => Some rows
  | r :: set =>
      if MAX_ROWS <=? zlen rows then Some rows
      else
        routes ← collect_routes sr r.2;
        push_rows sr set (if bool_decide (zlen routes = 0) then rows else rows ++ [(r.1, routes)])
  end.

(** [GenOutput<&mut Routes>::write]. *)
Definition write_routes (sr : SearchResult) (page : Routes) : option Routes :=
  let q := query_result sr in
  routes ← match qr_prefix q with
           | Some p =>
               routes ← collect_routes sr (qr_records q);
               Some (if bool_decide (zlen routes = 0) then rt_routes page
                     else rt_routes page ++ [(p, routes)])
           | None => Some (rt_routes page)
           end;
  more ← qr_more_specifics q;
  more ← push_rows sr more (rt_more_specifics page);
  less ← qr_less_specifics q;
  less ← push_rows sr less (rt_less_specifics page);
  Some (mk_routes routes less more (show_only_more_specifics page) (title page)).

Definition run_opt {S A} (o : option A) : Run S A := fun s => (o, s).

(** [search_and_output_routes] with a page as the target. *)
Definition search_and_output_routes (r : Rib) (page : Routes) (afisafi : AfiSafiType)
    (nlri : Prefix) (f : RouteFilter) : Run HttpCtx Routes :=
  res ← search_routes afisafi nlri f r;
  match res with
  | inl _ => mret page
  | inr sr => run_opt (write_routes sr page)
  end.

(** [QueryFilter::default()] with the fields that the pages set. *)
Definition page_filter (inc : list Include) (id : option IngressId) (asn : option Asn)
    (addr : option IpAddr) : RouteFilter :=
  mk_route_filter inc id None None None None None None asn addr None None Json.

(** [0.0.0.0/0] and [::/0], parsed and unwrapped. *)
Definition any_v4 : option Prefix := prefix_new (V4 0) 0.
Definition any_v6 : option Prefix := prefix_new (V6 0) 0.

Definition routes_with_filter (st : UiState) (f : RouteFilter) : Run HttpCtx (rstring + Routes) :=
  match ui_store st with
  | None => mret (inl (str "store not ready"))
  | Some r =>
      p4 ← run_opt any_v4;
      page ← search_and_output_routes r routes_default Ipv4Unicast p4 f;
      p6 ← run_opt any_v6;
      page ← search_and_output_routes r page Ipv6Unicast p6 f;
      mret (inr page)
  end.

Definition titled (t : rstring) (only_more : bool) (page : Routes) : Routes :=
  mk_routes (rt_routes page) (rt_less_specifics page) (rt_more_specifics page) only_more t.

Definition both_specifics : list Include := [LessSpecifics; MoreSpecifics].

Definition title_of (st : UiState) (id : IngressId) : rstring :=
  match get id (ui_register st) with
  | Some i =>
      match remote_asn i, peer_rib_type i with
      | Some asn, Some ribview =>
          str "Routes for " ++ asn_text asn ++ str "/" ++ rib_type_text ribview
          ++ match parent_ingress i ≫= fun p => get_tuple p (ui_register st) with
             | Some ii => str " on " ++ bmp_router_text (mk_bmp_router ii.1 ii.2)
             | None => []
             end
      | _, _ => []
      end
  | None => str "Routes for ingress_id " ++ id_to_string id
  end.

Definition page_of (m : Run HttpCtx (rstring + Routes)) (f : Routes -> Routes)
  : Run HttpCtx (rstring + Routes) :=
  res ← m;
  mret (match res with inl e => inl e | inr page => inr (f page) end).

Definition routes (id : IngressId) (st : UiState) : Run HttpCtx (rstring + Routes) :=
  page_of (routes_with_filter st (page_filter both_specifics (Some id) None None))
    (titled (title_of st id) true).

Definition routes_peer_asn (asn : Asn) (st : UiState) : Run HttpCtx (rstring + Routes) :=
  page_of (routes_with_filter st (page_filter both_specifics None (Some asn) None))
    (titled (str "Routes from peer " ++ asn_text asn) true).

Definition routes_peer_ip (ip : IpAddr) (st : UiState) : Run HttpCtx (rstring + Routes) :=
  page_of (routes_with_filter st (page_filter both_specifics None None (Some ip)))
    (titled (str "Routes from peer " ++ ip_text ip) true).

Definition routes_prefix (a : IpAddr) (len : Z) (st : UiState) : Run HttpCtx (rstring + Routes) :=
  match ui_store st with
  | None => mret (inl (str "store not ready"))
  | Some r =>
      match prefix_new a len with
      | None => mret (inl (str "illegal prefix"))
      | Some p =>
          let afisafi := if prefix_is_v4 p then Ipv4Unicast else Ipv6Unicast in
          page ← search_and_output_routes r routes_default afisafi p
                   (page_filter both_specifics None None None);
          mret (inr (titled (str "Routes related to " ++ prefix_text p) false page))
      end
  end.

(** ** Peers *)

(** The two families of a [RecordSet]. *)
Definition rs_v4 (set : list (PrefixRecord RotondaPaMap)) : list (PrefixRecord RotondaPaMap) :=
  filter (fun pr => prefix_is_v4 pr.1 = true) set.
Definition rs_v6 (set : list (PrefixRecord RotondaPaMap)) : list (PrefixRecord RotondaPaMap) :=
  filter (fun pr => prefix_is_v4 pr.1 = false) set.

(** Communities, ExtendedCommunities, LargeCommunities and Otc. *)
Definition mark_of (code : Z) : Z :=
  if code =? 8 then COMMUNITIES
  else if code =? 16 then EXT_COMMUNITIES
  else if code =? 32 then LARGE_COMMUNITIES
  else if code =? 35 then OTC
  else 0.

Fixpoint mark_codes (o : Z) (codes : list (option Z)) : Z :=
  match codes with
  | Some code :: codes => mark_codes (Z.lor o (mark_of code)) codes
  | None :: _ | [] => o
  end.

Definition mark_record (o : Z) (m : Rec) : option Z :=
  rpki ← rpki_info (r_meta m);
  let o := if bool_decide (rov rpki = Invalid) then Z.lor o ROV_INVALID else o in
  pa ← path_attributes (r_meta m);
  Some (mark_codes o (attribute_codes pa)).

Fixpoint aggregate_peers (set : list (PrefixRecord RotondaPaMap)) (o : Z) : option Z :=
  match set with
  | [] => Some o
  | r :: set =>
      o ← try_fold mark_record o r.2;
      if all_marked o then Some o else aggregate_peers set o
  end.

Record Peer : Type := mk_peer {
  pe_ingress_id : IngressId;
  pe_ingress_info : IngressInfo;
  pe_bmp_router : option BmpRouter;
  pe_num_routes : option Z;
  pe_bgp_roles : BgpRoles;
  pe_ext_next_hops : ExtendedNextHops;
  pe_observed : Z
}.

Record Peers : Type := mk_peers { pg_peers : list Peer; pg_ext : bool }.

(** [CapabilityType::BgpRole] and [CapabilityType::ExtendedNextHop]. *)
Definition cap_value (code : Z) (caps : list (Z * list Z)) : option (list Z) :=
  snd <$> head (filter (fun c => c.1 = code) caps).

Definition role_of (caps : list (Z * list Z)) : option Z := v ← cap_value 9 caps; head v.

Definition enh_of (caps : list (Z * list Z)) : option (list Z) :=
  v ← cap_value 5 caps; if zlen v mod 6 =? 0 then Some v else None.

Definition negotiated (i : IngressInfo) : BgpRoles * ExtendedNextHops :=
  match local_capabilities i, remote_capabilities i with
  | Some l, Some r =>
      let local := capabilities l in
      let remote := capabilities r in
      (mk_roles (role_of local) (role_of remote), mk_next_hops (enh_of local) (enh_of remote))
  | _, _ => (mk_roles None None, mk_next_hops None None)
  end.

Definition parent_router (reg : Register) (i : IngressInfo) : option BmpRouter :=
  (fun ii => mk_bmp_router ii.1 ii.2) <$> (parent_ingress i ≫= fun p => get_tuple p reg).

Definition is_bgp (e : IngressId * IngressInfo) : Prop :=
  ingress_type e.2 = Some BgpViaBmp \/ ingress_type e.2 = Some Bgp.
#[local] Instance is_bgp_dec e : Decision (is_bgp e).
Proof. unfold is_bgp. solve_decision. Defined.

(** [peers.sort()]: the ids of the peers differ, and are compared first. *)
Definition sort_peers : list Peer -> list Peer :=
  sort_by (fun a b => pe_ingress_id a <? pe_ingress_id b).

Definition plain_peer (reg : Register) (e : IngressId * IngressInfo) : Peer :=
  let n := negotiated e.2 in
  mk_peer e.1 e.2 (parent_router reg e.2) None n.1 n.2 0.

Definition peers_overview (st : UiState) : Peers :=
  mk_peers (sort_peers (plain_peer (ui_register st)
                          <$> filter is_bgp (hm_iter (info (ui_register st))))) false.

(** The routes of one peer: their number and what was seen among them. *)
Definition peer_routes (r : Rib) (id : IngressId) : Run HttpCtx (Z * Z) :=
  let f := page_filter [MoreSpecifics] (Some id) None None in
  p4 ← run_opt any_v4;
  res ← search_routes Ipv4Unicast p4 f r;
  match res with
  | inl _ => mret (0, 0)
  | inr sr =>
      found ← match qr_more_specifics (query_result sr) with
              | Some set => o ← run_opt (aggregate_peers (rs_v4 set) 0); mret (zlen set, o)
              | None => mret (0, 0)
              end;
      if found.1 =? 0 then
        p6 ← run_opt any_v6;
        res ← search_routes Ipv6Unicast p6 f r;
        match res with
        | inl _ => mret found
        | inr sr =>
            match qr_more_specifics (query_result sr) with
            | Some set => o ← run_opt (aggregate_peers (rs_v4 set) found.2); mret (zlen set, o)
            | None => mret found
            end
        end
      else mret found
  end.

Definition ext_peer (reg : Register) (r : Rib) (e : IngressId * IngressInfo) : Run HttpCtx Peer :=
  found ← peer_routes r e.1;
  let n := negotiated e.2 in
  mret (mk_peer e.1 e.2 (parent_router reg e.2) (Some found.1) n.1 n.2 found.2).

Fixpoint run_map {S A B} (f : A -> Run S B) (l : list A) : Run S (list B) :=
  match l with
  | [] => mret []
  | x :: l => y ← f x; ys ← run_map f l; mret (y :: ys)
  end.

Definition peers_overview_ext (st : UiState) : Run HttpCtx (rstring + Peers) :=
  match ui_store st with
  | None => mret (inl (str "store not ready"))
  | Some r =>
      peers ← run_map (ext_peer (ui_register st) r) (filter is_bgp (hm_iter (info (ui_register st))));
      mret (inr (mk_peers (sort_peers peers) true))
  end.

(** ** Differences *)
Record RoutesDiff : Type := mk_routes_diff {
  df_peer_a : IngressInfo;
  df_peer_b : IngressInfo;
  df_bmp_a : option BmpRouter;
  df_bmp_b : option BmpRouter;
  df_only_a : list Prefix;
  df_only_b : list Prefix;
  df_both : list Prefix
}.

(** The more specifics of a search, none where it fails. *)
Definition search_more (r : Rib) (afisafi : AfiSafiType) (any : option Prefix) (id : IngressId)
  : Run HttpCtx (option (list (PrefixRecord RotondaPaMap))) :=
  p ← run_opt any;
  res ← search_routes afisafi p (page_filter [MoreSpecifics] (Some id) None None) r;
  mret (match res with inl _ => None | inr sr => qr_more_specifics (query_result sr) end).

Definition prefixes_of (r : Rib) (id : IngressId) : Run HttpCtx (list Prefix) :=
  set ← search_more r Ipv4Unicast any_v4 id;
  let prefixes := match set with Some set => bset_collect (rs_v4 set).*1 | None => [] end in
  set ← search_more r Ipv6Unicast any_v6 id;
  mret (match set with
        | Some set => bset_extend (bset_collect (rs_v6 set).*1) prefixes
        | None => prefixes
        end).

Definition routes_diff (a b : IngressId) (st : UiState) : Run HttpCtx (rstring + RoutesDiff) :=
  match ui_store st with
  | None => mret (inl (str "store not ready"))
  | Some r =>
      match get a (ui_register st) with
      | None => mret (inl (str "no information for ingress id {ingress_a}"))
      | Some info_a =>
          match get b (ui_register st) with
          | None => mret (inl (str "no information for ingress id {ingress_a}"))
          | Some info_b =>
              pa ← prefixes_of r a;
              pb ← prefixes_of r b;
              mret (inr (mk_routes_diff info_a info_b
                           (parent_router (ui_register st) info_a)
                           (parent_router (ui_register st) info_b)
                           (bset_difference pa pb) (bset_difference pb pa)
                           (bset_intersection pa pb)))
          end
      end
  end.

Record PeersDiff : Type := mk_peers_diff {
  pd_bmp_a : BmpRouter;
  pd_bmp_b : BmpRouter;
  pd_only_a : list (Asn * IpAddr);
  pd_only_b : list (Asn * IpAddr);
  pd_both : list (Asn * IpAddr)
}.

Definition bmp_ingress (id : IngressId) (reg : Register) : rstring + BmpRouter :=
  match get id reg with
  | Some i => if bool_decide (ingress_type i = Some Bmp) then inr (mk_bmp_router id i)
              else inl (str "no (BMP) ingress with id " ++ id_to_string id)
  | None => inl (str "no (BMP) ingress with id " ++ id_to_string id)
  end.

Definition session_key (i : IngressInfo) : option (Asn * IpAddr) :=
  match remote_asn i, remote_addr i with
  | Some asn, Some addr => Some (asn, addr)
  | _, _ => None
  end.

Definition sessions_of (id : IngressId) (reg : Register) : list (Asn * IpAddr) :=
  bset_collect (omap (fun e => session_key e.2)
    (filter (fun e : Z * IngressInfo => parent_ingress e.2 = Some id) (hm_iter (info reg)))).

Definition peers_diff (a b : IngressId) (st : UiState) : rstring + PeersDiff :=
  match bmp_ingress a (ui_register st) with
  | inl e => inl e
  | inr bmp_a =>
      match bmp_ingress b (ui_register st) with
      | inl e => inl e
      | inr bmp_b =>
          let sa := sessions_of a (ui_register st) in
          let sb := sessions_of b (ui_register st) in
          inr (mk_peers_diff bmp_a bmp_b (bset_difference sa sb) (bset_difference sb sa)
                 (bset_intersection sa sb))
      end
  end.

End WebUi.
