(* ===== verification/WebUiProps.v ===== *)
(** * What the pages show

    The difference of two peers partitions the prefixes that either announces; a page
    of routes lists what the searches found, up to its cap; the tree of the front page
    has every session once, under its router and its peer. *)

From S2P Require Import Prelude Net Register Payload RibStore Rib RibSearch RibSearchProps RibLines WebText WebUi.
From Stdlib Require Import ZArith Lia Sorting.Sorted.
From stdpp Require Import base numbers list gmap fin_maps strings sorting.

Local Open Scope Z_scope.

(** What the store's documentation says of the prefixes that are asked for: they are
    in the answer, if only as an empty set. *)
Class IncludingStore `{E : Extern} `{PS : !PrefixStore RotondaPaMap} := {
  match_included p o s q :
    st_match_prefix p o s = inr q ->
    (include_more_specifics o = true -> is_Some (qr_more_specifics q))
    /\ (include_less_specifics o = true -> is_Some (qr_less_specifics q))
}.

Section Props.
Context `{E : Extern} `{PS : !PrefixStore RotondaPaMap} `{SE : Searching} `{WV : !WebView}.
Context `{PK : !KeyOrd Prefix} `{HI : !HashIter Z IngressInfo} `{RS : !ReliableStore RotondaPaMap}.

Abbreviation Rec := (StoreRecord RotondaPaMap).

(** ** Searches for one ingress *)

(** The prefix that parsing the default route of a family gives. *)
Definition any_route (v4 : bool) (p : Prefix) : Prop :=
  (if v4 then any_v4 else any_v6) = Some p /\ prefix_is_v4 p = v4 /\ default_route p.

(** An ingress has a route in force for a prefix. *)
Definition announces (s : Store RotondaPaMap) (id : IngressId) (p : Prefix) : Prop :=
  exists rc, in_force s p rc /\ r_mui rc = id.

Definition of_ingress (id : IngressId) : RouteFilter :=
  page_filter [MoreSpecifics] (Some id) None None.

Definition family (v4 : bool) : AfiSafiType := if v4 then Ipv4Unicast else Ipv6Unicast.

Lemma selected_ingress id info (rc : Rec) :
  selected (of_ingress id) (fun _ => true) info rc <-> r_mui rc = id.
Proof. split; [intros H; by apply (sel_ingress _ _ _ _ H)|]. intros H. by split; cbn; intros; simplify_eq. Qed.

Lemma covers_family p q : covers p q = true -> prefix_is_v4 p = prefix_is_v4 q.
Proof. unfold covers. by rewrite !andb_true_iff, bool_decide_eq_true; intros [[? _] _]. Qed.

Lemma search_ingress v4 any id r s ctx :
  unicast r = Some s -> table_ok s -> any_route v4 any ->
  exists sr ctx',
    search_routes (family v4) any (of_ingress id) r ctx = (Some (inr sr), ctx')
    /\ (forall p, p ∈ (default [] (qr_more_specifics (query_result sr))).*1
          <-> prefix_len p <> 0 /\ prefix_is_v4 p = v4 /\ announces s id p).
Proof.
  intros Hs Hok (_ & Hv & Hd).
  assert (Hst : store_for (family v4) r = inr s) by (destruct v4; cbn; by rewrite Hs).
  destruct (search_result (family v4) any (of_ingress id) r s None (fun _ => true) ctx)
    as (q & ctx' & Hq & ->); [done..|].
  eexists _, ctx'. split; [done|]. intros p. cbn [query_result qr_more_specifics].
  replace (default [] (kept _ <$> qr_more_specifics q))
    with (kept (selects (of_ingress id) (fun _ => true) (info (rib_register r)))
            (default [] (qr_more_specifics q))) by by destruct (qr_more_specifics q).
  trans (exists rc, (exists rs, (p, rs) ∈ kept (selects (of_ingress id) (fun _ => true)
      (info (rib_register r))) (default [] (qr_more_specifics q)) /\ rc ∈ rs)).
  { rewrite list_elem_of_fmap. split.
    - intros ([p' rs] & -> & Hin). pose proof Hin as [Hne _]%elem_of_kept.
      destruct rs as [|rc rs]; [done|]. exists rc, (rc :: rs). split; [done|left].
    - intros (rc & rs & Hin & _). by exists (p, rs). }
  setoid_rewrite (more_routes any (of_ingress id) s q _ _ _ _ Hq).
  setoid_rewrite selected_ingress. unfold announces. split.
  - intros (rc & _ & Hne & Hc%covers_family & Hf & Hm). split_and!; [|congruence|eauto].
    intros Hl. apply Hne, default_unique; [done|apply Hd|congruence].
  - intros (Hl & Hp & rc & Hf & Hm). exists rc. split_and!; [cbn; left| | |done|done].
    + intros ->. by destruct Hd.
    + apply default_covers; [done|congruence].
Qed.

Lemma search_more_spec v4 any id r s ctx :
  unicast r = Some s -> table_ok s -> any_route v4 any ->
  exists set ctx',
    search_more r (family v4) (if v4 then any_v4 else any_v6) id ctx = (Some set, ctx')
    /\ (forall p, p ∈ (default [] set).*1
          <-> prefix_len p <> 0 /\ prefix_is_v4 p = v4 /\ announces s id p).
Proof.
  intros Hs Hok Ha.
  destruct (search_ingress v4 any id r s ctx Hs Hok Ha) as (sr & ctx' & Hr & Hm).
  destruct Ha as (Ha & _). exists (qr_more_specifics (query_result sr)), ctx'. split; [|done].
  unfold search_more, run_opt. rewrite Ha. run_unfold. unfold of_ingress in Hr. by rewrite Hr.
Qed.

Lemma elem_of_family (v4 : bool) (set : list (PrefixRecord RotondaPaMap)) p :
  (forall q, q ∈ set.*1 -> prefix_is_v4 q = v4) ->
  p ∈ (if v4 then rs_v4 set else rs_v6 set).*1 <-> p ∈ set.*1.
Proof.
  intros Hf. rewrite !list_elem_of_fmap. split; intros (pr & -> & Hin); exists pr; split; try done.
  - unfold rs_v4, rs_v6 in Hin. destruct v4; by apply list_elem_of_filter in Hin as [_ ?].
  - unfold rs_v4, rs_v6. specialize (Hf pr.1).
    destruct v4; (apply list_elem_of_filter; split; [|done]);
      apply Hf, list_elem_of_fmap; eauto.
Qed.

(** The prefixes of an ingress, in order, but for the default routes. *)
Lemma prefixes_of_spec id r s any4 any6 ctx :
  unicast r = Some s -> table_ok s -> any_route true any4 -> any_route false any6 ->
  exists l ctx',
    prefixes_of r id ctx = (Some l, ctx') /\ increasing l
    /\ forall p, p ∈ l <-> prefix_len p <> 0 /\ announces s id p.
Proof.
  intros Hs Hok H4 H6.
  destruct (search_more_spec true any4 id r s ctx Hs Hok H4) as (set4 & c1 & Hr4 & Hm4).
  destruct (search_more_spec false any6 id r s c1 Hs Hok H6) as (set6 & c2 & Hr6 & Hm6).
  unfold prefixes_of. cbn [family] in *. rewrite (run_bind_Some _ _ _ _ _ Hr4).
  cbn zeta. rewrite (run_bind_Some _ _ _ _ _ Hr6). eexists _, c2. split; [done|].
  replace (match set4 with Some set => bset_collect (rs_v4 set).*1 | None => [] end)
    with (bset_collect (rs_v4 (default [] set4)).*1) by by destruct set4.
  replace (match set6 with Some set => bset_extend (bset_collect (rs_v6 set).*1) _ | None => _ end)
    with (bset_extend (bset_collect (rs_v6 (default [] set6)).*1)
            (bset_collect (rs_v4 (default [] set4)).*1)) by by destruct set6.
  split; [apply bset_extend_increasing, bset_collect_increasing|]. intros p.
  rewrite bset_extend_elem, !bset_collect_elem.
  rewrite (elem_of_family true), (elem_of_family false), Hm4, Hm6
    by (intros q Hq; apply Hm4 in Hq || apply Hm6 in Hq; tauto).
  destruct (prefix_is_v4 p); intuition congruence.
Qed.

(** C24: the page that compares the routes of two ingresses lists, each in increasing order
    and so each once, the prefixes that only the first announces, those that only the
    second does, and those that both do: of every prefix of the unicast table that has
    a route in force from one of them, but not of the default routes, which the search
    for more specifics leaves out. *)
Theorem routes_diff_exact a b st r s any4 any6 ia ib ctx :
  ui_store st = Some r -> unicast r = Some s -> table_ok s ->
  any_route true any4 -> any_route false any6 ->
  get a (ui_register st) = Some ia -> get b (ui_register st) = Some ib ->
  exists d ctx',
    routes_diff a b st ctx = (Some (inr d), ctx')
    /\ Forall increasing [df_only_a d; df_only_b d; df_both d]
    /\ (forall p, p ∈ df_only_a d <-> prefix_len p <> 0 /\ announces s a p /\ ~ announces s b p)
    /\ (forall p, p ∈ df_only_b d <-> prefix_len p <> 0 /\ announces s b p /\ ~ announces s a p)
    /\ (forall p, p ∈ df_both d <-> prefix_len p <> 0 /\ announces s a p /\ announces s b p).
Proof.
  intros Hst Hs Hok H4 H6 Ha Hb.
  destruct (prefixes_of_spec a r s any4 any6 ctx Hs Hok H4 H6) as (la & c1 & Hra & Hia & Hla).
  destruct (prefixes_of_spec b r s any4 any6 c1 Hs Hok H4 H6) as (lb & c2 & Hrb & Hib & Hlb).
  unfold routes_diff. rewrite Hst, Ha, Hb, (run_bind_Some _ _ _ _ _ Hra), (run_bind_Some _ _ _ _ _ Hrb).
  eexists _, c2. split; [done|]. cbn [df_only_a df_only_b df_both].
  split; [repeat constructor; by apply increasing_filter|].
  unfold bset_difference, bset_intersection.
  split_and!; intros p; rewrite list_elem_of_filter, Hla, Hlb; tauto.
Qed.

(** ** Observed attributes *)

#[local] Opaque search_routes.

(** A peer that announces IPv6 routes only has no attribute observed, whatever its
    routes carry: the loop over the result of the IPv6 search reads its IPv4 part. *)
Theorem v6_attributes_unseen id r s any4 any6 ctx :
  unicast r = Some s -> table_ok s -> any_route true any4 -> any_route false any6 ->
  (forall p, announces s id p -> prefix_len p <> 0 /\ prefix_is_v4 p = false) ->
  exists n ctx', peer_routes r id ctx = (Some (n, 0), ctx')
                 /\ (0 < n <-> exists p, announces s id p).
Proof.
  intros Hs Hok H4 H6 Hv6. unfold peer_routes, run_opt.
  destruct (search_ingress true any4 id r s ctx Hs Hok H4) as (sr4 & c1 & Hr4 & Hm4).
  destruct (search_ingress false any6 id r s c1 Hs Hok H6) as (sr6 & c2 & Hr6 & Hm6).
  destruct H4 as (H4 & _), H6 as (H6 & _). cbn [family] in *. rewrite H4, H6.
  unfold of_ingress in Hr4, Hr6. run_unfold. rewrite Hr4.
  assert (Hno : default [] (qr_more_specifics (query_result sr4)) = []).
  { destruct (default [] (qr_more_specifics (query_result sr4))) as [|[p rs] l] eqn:He; [done|].
    exfalso. destruct (proj1 (Hm4 p)) as (_ & Hp & Hann); [cbn; left|].
    destruct (Hv6 p Hann). congruence. }
  assert (Hyes : forall set, qr_more_specifics (query_result sr6) = Some set ->
    rs_v4 set = [] /\ (0 < zlen set <-> exists p, announces s id p)).
  { intros set He. rewrite He in Hm6. cbn in Hm6. split.
    - apply elem_of_nil_inv. intros pr [Hp Hin]%list_elem_of_filter.
      destruct (proj1 (Hm6 pr.1)) as (_ & Hp' & _); [apply list_elem_of_fmap; eauto|]. congruence.
    - split.
      + destruct set as [|pr set]; [cbv; done|]. intros _. exists pr.1. apply Hm6. cbn. left.
      + intros (p & Hp). destruct (Hv6 p Hp). pose proof (proj2 (Hm6 p) (conj H (conj H0 Hp))) as Hin.
        destruct set; [by apply not_elem_of_nil in Hin|]. rewrite zlen_cons.
        pose proof (zlen_nonneg set). lia. }
  assert (Hn6 : qr_more_specifics (query_result sr6) = None -> ~ exists p, announces s id p).
  { intros He (p & Hp). destruct (Hv6 p Hp). rewrite He in Hm6. cbn in Hm6.
    pose proof (proj2 (Hm6 p) (conj H (conj H0 Hp))) as Hin. by apply not_elem_of_nil in Hin. }
  destruct (qr_more_specifics (query_result sr4)) as [set4|] eqn:He4; cbn in Hno; [subst set4|];
    cbn; rewrite ?zlen_nil; cbn; rewrite Hr6; destruct (qr_more_specifics (query_result sr6)) as [set6|] eqn:He6;
    try (destruct (Hyes _ eq_refl) as [-> Hy]; cbn; eauto);
    exists 0, c2; (split; [done|]); split; [lia|intros H; by destruct (Hn6 eq_refl)|lia|
      intros H; by destruct (Hn6 eq_refl)].
Qed.

(** ** Pages of routes *)
Context `{IS : !IncludingStore}.

(** The row of a prefix, with a line for each of its routes. *)
Definition row_of (sr : SearchResult) (pr : PrefixRecord RotondaPaMap) : Prefix * list RouteDetails :=
  (pr.1, omap (route_details sr) pr.2).

(** The row of the prefix that was asked for, when it has routes itself. *)
Definition exact_rows (sr : SearchResult) : list (Prefix * list RouteDetails) :=
  match qr_prefix (query_result sr), qr_records (query_result sr) with
  | Some p, (_ :: _) as rs => [row_of sr (p, rs)]
  | _, _ => []
  end.

(** A record set as a search returns it. *)
Definition set_ok (set : list (PrefixRecord RotondaPaMap)) : Prop :=
  Forall (fun pr => pr.2 <> [] /\ Forall (fun rc => meta_ok (r_meta rc)) pr.2) set.

Lemma route_details_ok sr (rc : Rec) : meta_ok (r_meta rc) -> is_Some (route_details sr rc).
Proof.
  intros Hm. destruct (rpki_ok _ Hm) as [i Hi]. destruct (path_attributes_ok _ Hm) as [pa Hpa].
  unfold route_details. rewrite Hi, Hpa. cbn. eauto.
Qed.

Lemma collect_routes_ok sr rs :
  Forall (fun rc : Rec => meta_ok (r_meta rc)) rs ->
  collect_routes sr rs = Some (omap (route_details sr) rs)
  /\ zlen (omap (route_details sr) rs) = zlen rs.
Proof.
  unfold collect_routes. induction 1 as [|rc rs Hm _ [IH1 IH2]]; [done|].
  destruct (route_details_ok sr rc Hm) as [d Hd]. cbn. rewrite Hd. cbn. rewrite IH1. cbn.
  split; [done|]. by rewrite !zlen_cons, IH2.
Qed.

Lemma push_rows_exact sr set rows :
  set_ok set -> zlen rows <= MAX_ROWS ->
  push_rows sr set rows
  = Some (rows ++ take (Z.to_nat (MAX_ROWS - zlen rows)) (row_of sr <$> set)).
Proof.
  intros Hok. revert rows. induction Hok as [|pr set [Hne Hm] _ IH]; intros rows Hr.
  { by rewrite fmap_nil, take_nil, app_nil_r. }
  cbn [push_rows]. destruct (MAX_ROWS <=? zlen rows) eqn:Hc.
  - apply Z.leb_le in Hc. replace (MAX_ROWS - zlen rows) with 0 by lia. by rewrite app_nil_r.
  - apply Z.leb_gt in Hc. destruct (collect_routes_ok sr pr.2 Hm) as [-> Hl].
    change (Some ?x ≫= ?k) with (k x). cbn beta. rewrite bool_decide_false.
    2: { rewrite Hl. by intros H%zlen_0. }
    rewrite IH by (rewrite zlen_app; cbn [zlen length]; change (zlen [_]) with 1; lia).
    rewrite zlen_app. change (zlen [_]) with 1.
    replace (Z.to_nat (MAX_ROWS - zlen rows)) with (S (Z.to_nat (MAX_ROWS - (zlen rows + 1)))) by lia.
    by rewrite fmap_cons, firstn_cons, <- app_assoc.
Qed.

(** The two loops after each other, over what two searches found. *)
Lemma push_rows_twice (sr sr' : SearchResult) set set' :
  set_ok set -> set_ok set' ->
  exists rows, push_rows sr set [] = Some rows
    /\ push_rows sr' set' rows
       = Some (take (Z.to_nat MAX_ROWS) ((row_of sr <$> set) ++ (row_of sr' <$> set'))).
Proof.
  intros H1 H2. eexists. split; [apply push_rows_exact; [done|]; rewrite zlen_nil; done|].
  cbn [app]. rewrite zlen_nil, Z.sub_0_r. set (R := row_of sr <$> set). set (R' := row_of sr' <$> set').
  assert (Hl : zlen (take (Z.to_nat MAX_ROWS) R) = Z.min MAX_ROWS (zlen R)).
  { unfold zlen. rewrite length_take. unfold MAX_ROWS. lia. }
  rewrite push_rows_exact by (done || lia). f_equal. rewrite Hl, take_app. f_equal. f_equal.
  unfold zlen in *. lia.
Qed.

(** What a search that includes both kinds of prefixes writes to a page. *)
Lemma write_routes_spec afisafi nlri f r s ctx :
  store_for afisafi r = inr s -> table_ok s -> roto_function f = None ->
  MoreSpecifics ∈ include f -> LessSpecifics ∈ include f ->
  exists sr more less ctx',
    search_routes afisafi nlri f r ctx = (Some (inr sr), ctx')
    /\ qr_more_specifics (query_result sr) = Some more
    /\ qr_less_specifics (query_result sr) = Some less
    /\ set_ok more /\ set_ok less
    /\ forall page,
         write_routes sr page
         = (m ← push_rows sr more (rt_more_specifics page);
            l ← push_rows sr less (rt_less_specifics page);
            Some (mk_routes (rt_routes page ++ exact_rows sr) l m (show_only_more_specifics page) (title page))).
Proof.
  intros Hs Hok Hf Hm Hl.
  destruct (search_result afisafi nlri f r s None (fun _ => true) ctx) as (q & ctx' & Hq & Hr);
    [done|done|unfold function_of; by rewrite Hf|done|].
  destruct (match_included _ _ _ _ Hq) as [Hmi Hli].
  destruct Hmi as [more Hmore]; [by apply bool_decide_eq_true|].
  destruct Hli as [less Hless]; [by apply bool_decide_eq_true|].
  destruct (answer_ok nlri f s q Hok Hq) as (Hrec & Hmok & Hlok). rewrite Hmore, Hless in *.
  assert (Hset : forall sel l, (forall p rs, (p, rs) ∈ l -> Forall (fun rc => meta_ok (r_meta rc)) rs) ->
    set_ok (kept sel l)).
  { intros sel l Hl'. apply Forall_forall. intros [p rs] (Hne & rs0 & Hin & ->)%elem_of_kept.
    split; [done|]. cbn [snd]. specialize (Hl' p rs0 Hin). rewrite Forall_forall in Hl' |- *.
    intros rc [_ Hrc]%list_elem_of_filter. by apply Hl'. }
  eexists _, _, _, ctx'. split; [exact Hr|]. cbn [query_result qr_more_specifics qr_less_specifics fmap option_fmap].
  split; [done|]. split; [done|]. split; [by apply Hset|]. split; [by apply Hset|].
  intros page. unfold write_routes, exact_rows.
  cbn [query_result qr_more_specifics qr_less_specifics qr_prefix qr_records option_map].
  destruct (qr_prefix q) as [p|]; [|by rewrite app_nil_r].
  match goal with |- context [collect_routes ?sr ?rs] =>
    destruct (collect_routes_ok sr rs) as [Hc Hlen] end.
  { rewrite Forall_forall in Hrec |- *. intros rc [_ Hrc]%list_elem_of_filter. by apply Hrec. }
  rewrite Hc. change (Some ?x ≫= ?k) with (k x). cbn beta.
  unfold row_of. cbn [fst snd]. destruct (filter _ (qr_records q)) as [|rc rs].
  - by rewrite app_nil_r.
  - rewrite bool_decide_false; [done|]. rewrite Hlen. by intros H%zlen_0.
Qed.

(** C29: a page of routes lists what the searches of the two families found, the IPv4
    ones first, with a row for each prefix and in it a line for each route: the prefix
    that was asked for, when it has routes itself; the more specific prefixes, of which
    it has the first [MAX_ROWS]; and the less specific ones, of which it has the first
    [MAX_ROWS] too. Nothing is left out before a cap is reached. (The table that is
    searched has well-formed records, and the filter names no Roto function and includes
    both kinds of prefixes, as the pages do.) *)
Theorem page_lists_search f st r s any4 any6 ctx :
  ui_store st = Some r -> unicast r = Some s -> table_ok s ->
  any_v4 = Some any4 -> any_v6 = Some any6 -> roto_function f = None ->
  MoreSpecifics ∈ include f -> LessSpecifics ∈ include f ->
  exists sr4 sr6 c1 c2 page,
    search_routes Ipv4Unicast any4 f r ctx = (Some (inr sr4), c1)
    /\ search_routes Ipv6Unicast any6 f r c1 = (Some (inr sr6), c2)
    /\ routes_with_filter st f ctx = (Some (inr page), c2)
    /\ rt_more_specifics page
       = take (Z.to_nat MAX_ROWS)
           ((row_of sr4 <$> default [] (qr_more_specifics (query_result sr4)))
            ++ (row_of sr6 <$> default [] (qr_more_specifics (query_result sr6))))
    /\ rt_less_specifics page
       = take (Z.to_nat MAX_ROWS)
           ((row_of sr4 <$> default [] (qr_less_specifics (query_result sr4)))
            ++ (row_of sr6 <$> default [] (qr_less_specifics (query_result sr6))))
    /\ rt_routes page = exact_rows sr4 ++ exact_rows sr6
    /\ zlen (rt_more_specifics page) <= MAX_ROWS /\ zlen (rt_less_specifics page) <= MAX_ROWS.
Proof.
  intros Hst Hs Hok H4 H6 Hf Hm Hl.
  assert (Hs4 : store_for Ipv4Unicast r = inr s) by (cbn; by rewrite Hs).
  assert (Hs6 : store_for Ipv6Unicast r = inr s) by (cbn; by rewrite Hs).
  destruct (write_routes_spec Ipv4Unicast any4 f r s ctx Hs4 Hok Hf Hm Hl)
    as (sr4 & m4 & l4 & c1 & Hr4 & Hm4 & Hl4 & Hok4 & Hok4' & Hw4).
  destruct (write_routes_spec Ipv6Unicast any6 f r s c1 Hs6 Hok Hf Hm Hl)
    as (sr6 & m6 & l6 & c2 & Hr6 & Hm6 & Hl6 & Hok6 & Hok6' & Hw6).
  destruct (push_rows_twice sr4 sr6 m4 m6 Hok4 Hok6) as (rm & Hp1 & Hp2).
  destruct (push_rows_twice sr4 sr6 l4 l6 Hok4' Hok6') as (rl & Hq1 & Hq2).
  pose proof (Hw4 routes_default) as Hw4'. cbn [rt_routes rt_more_specifics rt_less_specifics routes_default] in Hw4'.
  rewrite Hp1, Hq1 in Hw4'. cbn in Hw4'.
  pose proof (Hw6 (mk_routes (exact_rows sr4) rl rm false [])) as Hw6'.
  cbn [rt_routes rt_more_specifics rt_less_specifics] in Hw6'. rewrite Hp2, Hq2 in Hw6'.
  change (Some ?x ≫= ?k) with (k x) in Hw6'. cbn beta in Hw6'.
  eexists sr4, sr6, c1, c2, _. split_and!; [exact Hr4|exact Hr6| | | | | |].
  - unfold routes_with_filter. rewrite Hst, H4, H6. unfold search_and_output_routes, run_opt. run_unfold.
    rewrite Hr4, Hw4', Hr6, Hw6'. done.
  - by rewrite Hm4, Hm6.
  - by rewrite Hl4, Hl6.
  - done.
  - cbn [rt_more_specifics]. unfold zlen. rewrite length_take. unfold MAX_ROWS. lia.
  - cbn [rt_less_specifics]. unfold zlen. rewrite length_take. unfold MAX_ROWS. lia.
Qed.

End Props.

(** ** The tree of the front page

    The tree that [bmp_tree] builds from the register, entry by entry in the order of
    a [HashMap], has exactly the connected BMP routers, and under each of them every
    session of its peers once. *)

(** ** [sort_by] sorts *)
Section Sorted.
Context {A : Type} (rank : A -> Z).

Definition by_rank (l : list A) : Prop := StronglySorted (fun x y => rank x <= rank y) l.

Lemma sort_insert_by_rank x l :
  by_rank l -> by_rank (sort_insert (fun x y => rank x <? rank y) x l).
Proof.
  unfold by_rank. induction 1 as [|y l Hl IH Hy]; cbn; [by repeat constructor|].
  destruct (rank x <? rank y) eqn:Hc; zify_bools.
  - constructor; [by constructor|]. constructor; [lia|].
    eapply Forall_impl; [exact Hy|]. cbn. lia.
  - constructor; [done|]. rewrite sort_insert_perm. constructor; [lia|done].
Qed.

Lemma sort_by_by_rank l : by_rank (sort_by (fun x y => rank x <? rank y) l).
Proof.
  unfold sort_by. assert (H : by_rank []) by constructor. revert H.
  generalize (@nil A) as acc. induction l as [|x l IH]; intros acc H; cbn; [done|].
  by apply IH, sort_insert_by_rank.
Qed.

End Sorted.

Section Tree.
Context `{E : Extern} `{PS : !PrefixStore RotondaPaMap} `{HI : !HashIter Z IngressInfo}.

Abbreviation Entry := (IngressId * IngressInfo)%type.
#[local] Existing Instance via_bmp_dec.

Definition connected_router (reg : Register) (id : IngressId) (i : IngressInfo) : Prop :=
  info reg !! id = Some i /\ ingress_type i = Some Bmp /\ state i = Some Connected.

(** A session of a peer under a router. *)
Definition under (id : IngressId) (k : Asn * IpAddr) (e : Entry) : Prop :=
  parent_ingress e.2 = Some id /\ session_key e.2 = Some k.

#[local] Instance under_dec id k e : Decision (under id k e).
Proof. unfold under. solve_decision. Defined.

(** An entry that [bmp_tree] cannot place: a session of no router, or a session of a
    router of the tree whose peer is not known. *)
Definition misplaced (router : IngressId -> Prop) (e : Entry) : Prop :=
  parent_ingress e.2 = None
  \/ exists id, parent_ingress e.2 = Some id /\ router id /\ session_key e.2 = None.

(** The tree after the entries [l]. *)
Record tree_of (router : IngressId -> IngressInfo -> Prop) (l : list Entry) (t : BmpTree) : Prop := {
  to_keys : increasing t.*1;
  to_routers id i : (exists m, bmap_get id t = Some (i, m)) <-> router id i;
  to_peers id i m : bmap_get id t = Some (i, m) -> increasing m.*1;
  to_sessions id i m k : bmap_get id t = Some (i, m) ->
    default [] (bmap_get k m) ≡ₚ filter (under id k) l
    /\ bmap_get k m <> Some []
    /\ by_rank (fun e => rib_type_rank (peer_rib_type e.2)) (default [] (bmap_get k m))
}.

Lemma tree_add_spec router l t e :
  tree_of router l t ->
  match tree_add t e with
  | Some t' => tree_of router (l ++ [e]) t' /\ ~ misplaced (fun id => exists i, router id i) e
  | None => misplaced (fun id => exists i, router id i) e
  end.
Proof.
  intros [Hk Hr Hp Hs]. unfold tree_add. destruct (parent_ingress e.2) as [id|] eqn:Hpar; cbn; [|by left].
  assert (Hno : forall id' k, id' <> id \/ session_key e.2 <> Some k ->
    filter (under id' k) (l ++ [e]) = filter (under id' k) l).
  { intros id' k Hn. rewrite filter_app, filter_cons, decide_False.
    - by rewrite filter_nil, app_nil_r.
    - unfold under. rewrite Hpar. naive_solver. }
  destruct (bmap_get id t) as [[i m]|] eqn:Hg.
  2: { split.
       - split; try done. intros id' i' m' k Hg'. rewrite Hno; [by eapply Hs|]. left. congruence.
       - intros [?|(id' & ? & [i Hi] & _)]; [congruence|]. apply Hr in Hi as [m Hm]. congruence. }
  assert (Hid : exists i, router id i) by (exists i; apply Hr; eauto).
  unfold session_key in Hno. destruct (remote_asn e.2) as [asn|] eqn:Ha; cbn.
  2: { right. exists id. split_and!; [done|done|]. unfold session_key. by rewrite Ha. }
  destruct (remote_addr e.2) as [addr|] eqn:Hd; cbn.
  2: { right. exists id. split_and!; [done|done|]. unfold session_key. by rewrite Ha, Hd. }
  set (k := (asn, addr)) in *.
  set (upd := fun infos => sort_by rib_type_lt (default [] infos ++ [e])).
  assert (Hget : forall id', bmap_get id' (bmap_insert id (i, bmap_update k upd m) t)
    = if decide (id' = id) then Some (i, bmap_update k upd m) else bmap_get id' t).
  { intros id'. unfold bmap_insert. by rewrite bmap_update_get. }
  pose proof (Hp _ _ _ Hg) as Hm. split; [split|].
  - by apply bmap_update_increasing.
  - intros id' i'. rewrite Hget, <- Hr. case_decide as Hc; [|done]. subst id'. rewrite Hg. naive_solver.
  - intros id' i' m'. rewrite Hget. case_decide; [|by apply Hp].
    intros [= <- <-]. by apply bmap_update_increasing.
  - intros id' i' m' k'. rewrite Hget. case_decide as Hc.
    + intros [= <- <-]. subst id'. rewrite bmap_update_get by done. case_decide as Hk'.
      * subst k'. destruct (Hs id i m k Hg) as (HP & _ & _). cbn [default from_option]. unfold upd.
        split_and!.
        -- etransitivity; [apply sort_by_perm|]. rewrite filter_app, filter_cons, decide_True, filter_nil.
           2: { split; [done|]. unfold session_key. by rewrite Ha, Hd. }
           by rewrite HP.
        -- intros [= Hn]. pose proof (sort_by_perm rib_type_lt (default [] (bmap_get k m) ++ [e])) as Hpm.
           rewrite Hn in Hpm. apply Permutation_nil in Hpm. by destruct (default [] (bmap_get k m)).
        -- apply (sort_by_by_rank (fun e : Entry => rib_type_rank (peer_rib_type e.2))).
      * rewrite Hno by (right; congruence). by eapply Hs.
    + intros Hg'. rewrite Hno by by left. by eapply Hs.
  - intros [?|(id' & _ & _ & Hsk)]; [congruence|]. unfold session_key in Hsk. by rewrite Ha, Hd in Hsk.
Qed.

Lemma tree_fold_spec router l t es :
  tree_of router l t ->
  match try_fold tree_add t es with
  | Some t' => tree_of router (l ++ es) t'
               /\ Forall (fun e => ~ misplaced (fun id => exists i, router id i) e) es
  | None => Exists (misplaced (fun id => exists i, router id i)) es
  end.
Proof.
  revert l t. induction es as [|e es IH]; intros l t Ht; cbn [try_fold].
  { split; [by rewrite app_nil_r|constructor]. }
  pose proof (tree_add_spec router l t e Ht) as He.
  destruct (tree_add t e) as [t1|]; cbn; [|by left]. destruct He as [Ht1 Hne].
  specialize (IH _ _ Ht1). destruct (try_fold tree_add t1 es).
  - destruct IH as [IH1 IH2]. rewrite <- app_assoc in IH1. by split; [|constructor].
  - by right.
Qed.

Lemma routers_inserted (l : list Entry) (t : BmpTree) id v :
  NoDup l.*1 -> increasing t.*1 ->
  let t' := foldl (fun t e => bmap_insert e.1 (e.2, []) t) t l in
  increasing t'.*1
  /\ (bmap_get id t' = Some v
      <-> (exists i, (id, i) ∈ l /\ v = (i, [])) \/ (id ∉ l.*1 /\ bmap_get id t = Some v)).
Proof.
  revert t. induction l as [|[id1 i1] l IH]; intros t Hn Ht; cbn.
  { split; [done|]. set_solver. }
  inversion_clear Hn as [|? ? Hnin Hn']. unfold bmap_insert at 1 3.
  destruct (IH (bmap_update id1 (fun _ => (i1, [])) t) Hn') as [IH1 IH2].
  { by apply bmap_update_increasing. }
  split; [exact IH1|]. rewrite IH2, bmap_update_get by done. rewrite not_elem_of_cons.
  case_decide as Hc.
  - subst id1. split.
    + intros [(i & Hin & ->)|[_ [= <-]]]; left; eexists; (split; [|done]); [by right|left].
    + intros [(i & [[= <-]|Hin]%elem_of_cons & ->)|[[? _] _]]; [by right| |done].
      exfalso. apply Hnin, list_elem_of_fmap. by exists (id, i).
  - setoid_rewrite elem_of_cons. naive_solver.
Qed.

Lemma bmp_routers_spec reg id i : (id, i) ∈ bmp_routers reg <-> connected_router reg id i.
Proof.
  unfold bmp_routers, search. rewrite list_elem_of_filter, (hm_iter_perm (info reg)), elem_of_map_to_list.
  unfold connected_router, qf_filter, excludes. cbn.
  repeat case_bool_decide; cbn; intuition congruence.
Qed.

Lemma tree_routers_spec reg : tree_of (connected_router reg) [] (tree_routers reg).
Proof.
  assert (Hn : NoDup (bmp_routers reg).*1) by (apply NoDup_fmap_filter, hm_iter_NoDup).
  assert (H : forall id v, bmap_get id (tree_routers reg) = Some v
    <-> exists i, connected_router reg id i /\ v = (i, [])).
  { intros id v. unfold tree_routers.
    destruct (routers_inserted (bmp_routers reg) [] id v Hn) as [_ ->]; [constructor|].
    setoid_rewrite bmp_routers_spec. cbn. naive_solver. }
  split.
  - apply (routers_inserted (bmp_routers reg) [] 0 (info_default, []) Hn). constructor.
  - intros id i. setoid_rewrite H. naive_solver.
  - intros id i m (i' & _ & [= _ ->])%H. constructor.
  - intros id i m k (i' & _ & [= _ ->])%H. cbn. split_and!; [done|done|constructor].
Qed.

(** C28: the front page's tree of sessions, for any order in which the register is read: it
    has exactly the connected BMP routers, and under a router and a peer the sessions
    that are registered for them, each once and by the kind of their RIB; a peer
    without sessions is not listed.  The handler panics exactly when a session is
    registered without a router, or under a connected router without the AS number or
    the address of its peer. *)
Theorem bmp_tree_exact (st : UiState) :
  let reg := ui_register st in
  let sessions := filter via_bmp (map_to_list (info reg)) in
  let bad := misplaced (fun id => exists i, connected_router reg id i) in
  match bmp_tree st with
  | None => exists e, e ∈ sessions /\ bad e
  | Some t => tree_of (connected_router reg) sessions t /\ Forall (fun e => ~ bad e) sessions
  end.
Proof.
  cbn zeta. unfold bmp_tree.
  assert (HP : filter via_bmp (hm_iter (info (ui_register st)))
               ≡ₚ filter via_bmp (map_to_list (info (ui_register st)))).
  { apply filter_Permutation, hm_iter_perm. }
  pose proof (tree_fold_spec _ _ _ (filter via_bmp (hm_iter (info (ui_register st))))
                (tree_routers_spec (ui_register st))) as H.
  cbn [app] in H. destruct (try_fold _ _ _) as [t|].
  - destruct H as [[Hk Hr Hp Hs] Hb]. split; [|by rewrite <- HP].
    split; [done..|]. intros id i m k Hg. destruct (Hs id i m k Hg) as (H1 & H2 & H3).
    split_and!; [|done|done]. rewrite H1. by apply filter_Permutation.
  - apply Exists_exists in H as (e & Hin & Hb). exists e. by rewrite <- HP.
Qed.

End Tree.
