(* ===== verification/WebPeers.v ===== *)
(** * What the overview of the peers shows

    The extended next hops of the two sides of a session: which of the three lists of
    the page are right, and that two of them are not when the sides list their hops in
    different orders.  The marks of the attributes among the routes of a peer, which
    the loop collects until all are set; and the rows of the page. *)

From S2P Require Import Prelude Net Register Payload RibStore Rib RibSearch RibSearchProps WebText WebUi WebUiProps.
From Stdlib Require Import ZArith Lia Sorting.Sorted.
From stdpp Require Import base numbers list gmap fin_maps strings sorting.

Local Open Scope Z_scope.

(** ** Extended next hops *)

(** The hops of one side. *)
Definition hops (raw : option (list Z)) : list (list Z) :=
  match raw with Some l => chunks6 (length l) l | None => [] end.

(** The octets of one side are whole hops. *)
Definition whole (raw : option (list Z)) : Prop :=
  match raw with Some l => zlen l mod 6 = 0 | None => True end.

Lemma chunks6_whole fuel l :
  (length l <= fuel)%nat -> zlen l mod 6 = 0 -> Forall (fun c => length c = 6%nat) (chunks6 fuel l).
Proof.
  revert l. induction fuel as [|fuel IH]; intros l Hl Hm; [destruct l; [constructor|cbn in Hl; lia]|].
  destruct l as [|b l]; [constructor|]. cbn [chunks6].
  assert (H6 : (6 <= length (b :: l))%nat).
  { unfold zlen in Hm. destruct (Nat.le_gt_cases 6 (length (b :: l))) as [|Hlt]; [done|].
    rewrite Z.mod_small in Hm by lia. cbn [length] in Hm. lia. }
  constructor; [rewrite length_take; lia|]. apply IH.
  - rewrite length_drop. lia.
  - unfold zlen in *. rewrite length_drop, Nat2Z.inj_sub by lia.
    rewrite <- (Z_mod_plus_full _ 1 6), <- Hm. f_equal. lia.
Qed.

Lemma iter_for_hops raw : whole raw -> iter_for raw = Some <$> hops raw.
Proof.
  intros Hw. destruct raw as [l|]; [|done]. cbn [iter_for hops].
  pose proof (chunks6_whole (length l) l (le_n _) Hw) as Hc.
  induction Hc as [|c cs Hc _ IH]; [done|]. cbn. by rewrite bool_decide_true, IH.
Qed.

Section Iter.
Context {A : Type} `{EqDecision A}.

Lemma iter_all_spec (p : A -> bool) it :
  exists b rest, iter_all p (Some <$> it) = Some (b, Some <$> rest)
    /\ (b = true -> Forall (fun y => p y = true) it /\ rest = [])
    /\ (b = false -> exists pre y, it = pre ++ y :: rest /\ p y = false
                     /\ Forall (fun y => p y = true) pre).
Proof.
  induction it as [|x it (b & rest & Hr & Ht & Hf)]; cbn.
  { exists true, []. split_and!; [done|by repeat constructor|done]. }
  destruct (p x) eqn:Hp.
  - exists b, rest. split_and!; [done| |].
    + intros Hb. destruct (Ht Hb). split; [by constructor|done].
    + intros Hb. destruct (Hf Hb) as (pre & y & -> & Hy & Hpre). exists (x :: pre), y.
      by split_and!; [|done|constructor].
  - exists false, it. split_and!; [done|done|]. intros _. exists [], x. by split_and!.
Qed.

(** A filter over a second iterator keeps nothing that the first test would not find
    in what the second iterator has left. *)
Lemma filter_all_spec (l it : list A) :
  exists res,
    iter_filter (fun x => iter_all (fun y => negb (bool_decide (x = y)))) (Some <$> l) (Some <$> it)
    = Some res
    /\ res `sublist_of` l /\ (forall x, x ∈ l -> x ∉ it -> x ∈ res)
    /\ (length l <= 1 -> forall x, x ∈ res -> x ∉ it)%nat.
Proof.
  revert it. induction l as [|x l IH]; intros it; cbn [iter_filter fmap list_fmap].
  { exists []. split_and!; [done|constructor|set_solver|set_solver]. }
  destruct (iter_all_spec (fun y => negb (bool_decide (x = y))) it) as (b & rest & -> & Ht & Hf).
  destruct (IH rest) as (res & -> & Hsub & Hin & _). cbn. eexists. split; [done|].
  assert (Hrest : forall y, y ∉ it -> y ∉ rest).
  { intros y Hy. destruct b; [by destruct (Ht eq_refl) as [_ ->]; apply not_elem_of_nil|].
    destruct (Hf eq_refl) as (pre & z & -> & _). set_solver. }
  destruct b.
  - destruct (Ht eq_refl) as [Hall ->]. split_and!; [by constructor|set_solver|].
    intros Hl y. assert (l = []) as -> by (destruct l; [done|cbn in Hl; lia]).
    apply sublist_nil_r in Hsub as ->. rewrite list_elem_of_singleton. intros -> Hy.
    pose proof (proj1 (Forall_forall _ _) Hall x Hy) as H. cbn in H. by rewrite bool_decide_true in H.
  - destruct (Hf eq_refl) as (pre & z & -> & Hz & _). split_and!; [by constructor| |].
    + intros y [->|Hy]%elem_of_cons Hn; [|by apply Hin, Hrest].
      apply negb_false_iff, bool_decide_eq_true in Hz. set_solver.
    + intros Hl y. assert (l = []) as -> by (destruct l; [done|cbn in Hl; lia]).
      apply sublist_nil_r in Hsub as ->. by intros ?%not_elem_of_nil.
Qed.

Lemma filter_any_spec (l it : list A) :
  exists res,
    iter_filter (fun x => iter_any (fun y => bool_decide (x = y))) (Some <$> l) (Some <$> it)
    = Some res
    /\ res `sublist_of` l /\ (forall x, x ∈ res -> x ∈ it)
    /\ (length l <= 1 -> forall x, x ∈ l -> x ∈ it -> x ∈ res)%nat.
Proof.
  revert it. induction l as [|x l IH]; intros it; cbn [iter_filter fmap list_fmap].
  { exists []. split_and!; [done|constructor|set_solver|set_solver]. }
  unfold iter_any at 1.
  destruct (iter_all_spec (fun y => negb (bool_decide (x = y))) it) as (b & rest & -> & Ht & Hf).
  cbn. destruct (IH rest) as (res & -> & Hsub & Hin & _). cbn. eexists. split; [done|].
  assert (Hrest : forall y, y ∈ rest -> y ∈ it).
  { intros y Hy. destruct b; [by destruct (Ht eq_refl) as [_ ->]; apply not_elem_of_nil in Hy|].
    destruct (Hf eq_refl) as (pre & z & -> & _). set_solver. }
  destruct b; cbn [negb].
  - split_and!; [by constructor|naive_solver|]. intros Hl y.
    assert (l = []) as -> by (destruct l; [done|cbn in Hl; lia]).
    rewrite list_elem_of_singleton. intros -> Hi.
    destruct (Ht eq_refl) as [Hall _]. pose proof (proj1 (Forall_forall _ _) Hall x Hi) as H.
    cbn in H. by rewrite bool_decide_true in H.
  - destruct (Hf eq_refl) as (pre & z & -> & Hz & _).
    apply negb_false_iff, bool_decide_eq_true in Hz as <-. split_and!; [by constructor|set_solver|].
    intros Hl y. assert (l = []) as -> by (destruct l; [done|cbn in Hl; lia]). set_solver.
Qed.

End Iter.

(** The three lists of a session's extended next hops, when the octets of each side are
    whole hops, as the handlers see to: none panics; the hops listed as common are
    common, and no hop of one side only is missing from the list of that side; with at
    most one local hop all that is said of the local side is exact. *)
Theorem next_hops_sound n :
  whole (nh_local n) -> whole (nh_remote n) ->
  let l := hops (nh_local n) in
  let r := hops (nh_remote n) in
  exists ol or bo,
    only_local n = Some ol /\ only_remote n = Some or /\ both n = Some bo
    /\ ol `sublist_of` l /\ or `sublist_of` r /\ bo `sublist_of` l
    /\ (forall x, x ∈ bo -> x ∈ r)
    /\ (forall x, x ∈ l -> x ∉ r -> x ∈ ol) /\ (forall x, x ∈ r -> x ∉ l -> x ∈ or)
    /\ (length l <= 1 -> forall x, (x ∈ ol -> x ∉ r) /\ (x ∈ l -> x ∈ r -> x ∈ bo))%nat.
Proof.
  intros Hl Hr. cbn zeta. unfold only_local, only_remote, both, differs.
  rewrite !iter_for_hops by done.
  destruct (filter_all_spec (hops (nh_local n)) (hops (nh_remote n))) as (ol & H1 & H2 & H3 & H4).
  destruct (filter_all_spec (hops (nh_remote n)) (hops (nh_local n))) as (or & G1 & G2 & G3 & _).
  destruct (filter_any_spec (hops (nh_local n)) (hops (nh_remote n))) as (bo & F1 & F2 & F3 & F4).
  exists ol, or, bo. split_and!; try done. intros Hle x. split; [by apply H4|by apply F4].
Qed.

(** Two sides that both list IPv4 unicast and IPv4 MPLS VPN, in different orders: the
    page shows unicast as common, and VPN as a hop of the local side only. *)
Theorem next_hops_order_matters :
  let n := mk_next_hops (Some (IPV4UNICAST_IPV6 ++ IPV4MPLSVPN_IPV6))
                        (Some (IPV4MPLSVPN_IPV6 ++ IPV4UNICAST_IPV6)) in
  both n = Some [IPV4UNICAST_IPV6] /\ only_local n = Some [IPV4MPLSVPN_IPV6].
Proof. vm_compute. done. Qed.

(** ** Roles *)

(** The pairs of roles that RFC 9234, section 4.2, allows. *)
Definition rfc9234_pairs : list (Z * Z) := [(0, 3); (3, 0); (1, 2); (2, 1); (4, 4)].

Theorem roles_correct_rfc9234 r ok :
  roles_correct r = Some ok <->
  exists l m, role_local r = Some l /\ role_remote r = Some m
              /\ ok = bool_decide ((l, m) ∈ rfc9234_pairs).
Proof.
  assert (H : forall l m,
    (if (l =? PROVIDER) && (m =? CUSTOMER) then true
     else if (l =? CUSTOMER) && (m =? PROVIDER) then true
     else if (l =? RS) && (m =? RS_CLIENT) then true
     else if (l =? RS_CLIENT) && (m =? RS) then true
     else if (l =? PEER) && (m =? PEER) then true else false)
    = bool_decide ((l, m) ∈ rfc9234_pairs)).
  { intros l m. unfold rfc9234_pairs, PROVIDER, CUSTOMER, RS, RS_CLIENT, PEER.
    repeat match goal with |- (if ?b then _ else _) = _ =>
      let Hb := fresh in
      destruct b eqn:Hb; [by apply andb_true_iff in Hb as [->%Z.eqb_eq ->%Z.eqb_eq]|] end.
    symmetry. apply bool_decide_eq_false. rewrite !elem_of_cons, elem_of_nil.
    intros Hin. destruct_or! Hin; simplify_eq; cbn in *; congruence. }
  unfold roles_correct. destruct (role_local r) as [l|], (role_remote r) as [m|];
    try rewrite H; naive_solver.
Qed.

(** ** Marks *)
Section Marks.
Context `{E : Extern} `{PS : !PrefixStore RotondaPaMap} `{SE : Searching} `{WV : !WebView}.

Abbreviation Rec := (StoreRecord RotondaPaMap).

(** The marks of one route, read from its attributes up to the first that does not
    parse. *)
Fixpoint code_marks (codes : list (option Z)) : Z :=
  match codes with
  | Some code :: codes => Z.lor (mark_of code) (code_marks codes)
  | _ => 0
  end.

Definition record_marks (m : Rec) : Z :=
  match rpki_info (r_meta m), path_attributes (r_meta m) with
  | Some i, Some pa =>
      Z.lor (if bool_decide (rov i = Invalid) then ROV_INVALID else 0) (code_marks (attribute_codes pa))
  | _, _ => 0
  end.

(** The marks of all routes. *)
Definition all_marks (rs : list Rec) : Z := foldr (fun m acc => Z.lor (record_marks m) acc) 0 rs.

Definition within (o : Z) : Prop := Z.lor o 31 = 31.

Lemma within_lor a b : within a -> within b -> within (Z.lor a b).
Proof. unfold within. intros Ha Hb. by rewrite <- Z.lor_assoc, Hb. Qed.

Lemma code_marks_within codes : within (code_marks codes).
Proof.
  induction codes as [|[code|] codes IH]; [done| |done]. cbn. apply within_lor; [|done].
  unfold mark_of, within. by repeat case_match.
Qed.

Lemma record_marks_within m : within (record_marks m).
Proof.
  unfold record_marks. destruct (rpki_info (r_meta m)), (path_attributes (r_meta m)); try done.
  apply within_lor; [by case_bool_decide|]. apply code_marks_within.
Qed.

Lemma all_marks_within rs : within (all_marks rs).
Proof.
  induction rs as [|m rs IH]; [done|]. cbn. apply within_lor; [apply record_marks_within|done].
Qed.

Lemma all_marks_app rs rs' : all_marks (rs ++ rs') = Z.lor (all_marks rs) (all_marks rs').
Proof.
  unfold all_marks. induction rs as [|m rs IH]; [done|]. cbn. by rewrite IH, Z.lor_assoc.
Qed.

Lemma mark_codes_spec o codes : mark_codes o codes = Z.lor o (code_marks codes).
Proof.
  revert o. induction codes as [|[code|] codes IH]; intros o; cbn; [by rewrite Z.lor_0_r| |by rewrite Z.lor_0_r].
  by rewrite IH, Z.lor_assoc.
Qed.

Lemma mark_record_spec o m : meta_ok (r_meta m) -> mark_record o m = Some (Z.lor o (record_marks m)).
Proof.
  intros Hm. destruct (rpki_ok _ Hm) as [i Hi]. destruct (path_attributes_ok _ Hm) as [pa Hpa].
  unfold mark_record, record_marks. rewrite Hi, Hpa. cbn. rewrite mark_codes_spec. f_equal.
  case_bool_decide; [by rewrite Z.lor_assoc|by rewrite Z.lor_0_l].
Qed.

Lemma mark_records_spec rs o :
  Forall (fun rc : Rec => meta_ok (r_meta rc)) rs ->
  try_fold mark_record o rs = Some (Z.lor o (all_marks rs)).
Proof.
  intros Hok. revert o. unfold all_marks.
  induction Hok as [|m rs Hm _ IH]; intros o; cbn; [by rewrite Z.lor_0_r|].
  rewrite mark_record_spec by done. cbn. by rewrite IH, Z.lor_assoc.
Qed.

(** C30: stopping as soon as everything is marked loses nothing: the loop over the prefixes
    of a peer returns the union of the marks of all their routes. *)
Theorem aggregate_sees_all (set : list (PrefixRecord RotondaPaMap)) :
  Forall (fun pr => Forall (fun rc => meta_ok (r_meta rc)) pr.2) set ->
  aggregate_peers set 0 = Some (all_marks (set ≫= snd)).
Proof.
  intros Hok. rewrite <- (Z.lor_0_l (all_marks _)). generalize 0 as o.
  induction Hok as [|pr set Hm _ IH]; intros o; cbn [aggregate_peers]; [by rewrite Z.lor_0_r|].
  rewrite mark_records_spec by done. change (Some ?x ≫= ?k) with (k x). cbn beta.
  rewrite bind_cons, all_marks_app, Z.lor_assoc. destruct (all_marked _) eqn:Hall; [|apply IH].
  apply Z.eqb_eq in Hall. cbn in Hall. rewrite Hall. f_equal. symmetry.
  rewrite Z.lor_comm. apply all_marks_within.
Qed.

(** ** Rows *)
Context `{HI : !HashIter Z IngressInfo}.
#[local] Existing Instance is_bgp_dec.

(** The overview has one row per BGP session of the register, direct or over BMP, in
    the order of their ids. *)
Theorem overview_rows (st : UiState) :
  let rows := pg_peers (peers_overview st) in
  by_rank pe_ingress_id rows
  /\ (fun p => (pe_ingress_id p, pe_ingress_info p)) <$> rows
     ≡ₚ filter is_bgp (map_to_list (info (ui_register st))).
Proof.
  cbn zeta. split; [apply sort_by_by_rank|]. cbn [peers_overview pg_peers]. unfold sort_peers.
  rewrite sort_by_perm, <- list_fmap_compose.
  rewrite (list_fmap_ext _ id) by by intros ? [].
  rewrite list_fmap_id. apply filter_Permutation, hm_iter_perm.
Qed.

End Marks.

(** ** The pages of a table with one route

    The route of [RibProps.RibDemo], from ingress 7, with a second ingress that
    announces nothing. *)
From S2P Require Import RibProps RibLines RibHttp WebUiProps.

Local Open Scope Z_scope.

#[local] Existing Instances Demo.extern RibDemo.store RibDemo.store_ok HttpDemo.searching.

Module WebDemo.

(** Prefixes by address and length. *)
#[export] Instance prefix_key : KeyOrd Prefix.
Proof.
  refine {| key_lt p q := key_lt (prefix_addr p, prefix_len p) (prefix_addr q, prefix_len q) |}.
  - intros x. apply key_lt_irrefl.
  - intros x y z. apply key_lt_trans.
  - intros x y H1 H2. pose proof (key_lt_total _ _ H1 H2) as [= Ha Hl]. by apply prefix_ext.
Defined.

#[export] Instance view : WebView := {|
  capabilities _ := [];
  attribute_codes _ := [Some 8];
  asn_text _ := str "AS65000";
  prefix_text _ := [];
  hop_path_origin_text _ := None;
  hop_path_text _ := None;
  community_text _ := []
|}.

#[export] Instance infos : HashIter Z IngressInfo := list_order Z IngressInfo.

#[export] Instance including : IncludingStore.
Proof.
  split. intros p o s q [= <-]. cbn. split; intros ->; eauto.
Qed.

Definition any6 : Prefix := Demo.pfx (V6 0) 0 eq_refl.

Lemma any_v4_route : any_route true HttpDemo.any.
Proof. split; [reflexivity|]. split; [reflexivity|exact HttpDemo.any_default]. Qed.

Lemma any_v6_route : any_route false any6.
Proof.
  split; [reflexivity|]. split; [reflexivity|]. split; [reflexivity|].
  intros a Hw Hv. cbn. unfold Demo.contains. cbn [Demo.p_addr any6 Demo.pfx Demo.p_len].
  assert (Ha : is_ipv4 a = false) by exact Hv. rewrite Ha, bool_decide_true by done. cbn [andb].
  unfold addr_wf in Hw. rewrite Ha in *. cbn [addr_size] in *.
  rewrite Z.div_small by (cbn in *; lia). done.
Qed.

Definition state : UiState :=
  mk_ui (mk_register 9 {[ 7 := RibDemo.down_peer; 8 := RibDemo.down_peer ]}) (Some RibDemo.table).

Lemma announced : announces HttpDemo.the_store 7 RibDemo.net.
Proof. exists HttpDemo.rc. split; [exact HttpDemo.net_in_force|reflexivity]. Qed.

Lemma silent p : ~ announces HttpDemo.the_store 8 p.
Proof. intros (rc & (Hs & _) & Hm). apply HttpDemo.stored_net in Hs as [_ ->]. discriminate Hm. Qed.

(** An IPv6 route of ingress 7, with communities. *)
Definition net6 : Prefix := Demo.pfx (V6 (2 ^ 125)) 16 eq_refl.
Definition store6 : Store RotondaPaMap := mk_list_store [(net6, HttpDemo.rc)] (fun _ => ∅).
Definition table6 : Rib :=
  mk_rib (Some store6) (Some store_default) RibDemo.register7 (path_attribute_interner RibDemo.table).

Lemma stored_net6 p m r0 : stored_at store6 p m = Some r0 -> p = net6 /\ r0 = HttpDemo.rc.
Proof.
  cbn. unfold ls_key. cbn [fst snd]. case_bool_decide as Hk; [|done]. intros [= <-]. by destruct Hk.
Qed.

Lemma store6_ok : table_ok store6.
Proof. intros p m r0 [_ ->]%stored_net6. unfold meta_ok. cbn. lia. Qed.

Lemma announced6 : announces store6 7 net6.
Proof.
  exists HttpDemo.rc. split; [|reflexivity]. split; [reflexivity|].
  split; [done|]. apply not_elem_of_empty.
Qed.

Definition both_filter : RouteFilter := page_filter both_specifics (Some 7) None None.

Lemma rows_ok :
  Forall (fun pr : PrefixRecord RotondaPaMap => Forall (fun rc => meta_ok (r_meta rc)) pr.2)
    [(RibDemo.net, [HttpDemo.rc])].
Proof. repeat constructor; unfold meta_ok; cbn; lia. Qed.

End WebDemo.

#[local] Existing Instances WebDemo.prefix_key WebDemo.view WebDemo.infos WebDemo.including.

Lemma routes_diff_exact_witness :
  exists d ctx', routes_diff 7 8 WebDemo.state HttpDemo.ctx0 = (Some (inr d), ctx')
                 /\ RibDemo.net ∈ df_only_a d /\ RibDemo.net ∉ df_both d.
Proof.
  destruct (routes_diff_exact 7 8 WebDemo.state RibDemo.table HttpDemo.the_store HttpDemo.any
    WebDemo.any6 RibDemo.down_peer RibDemo.down_peer HttpDemo.ctx0 eq_refl eq_refl HttpDemo.the_store_ok
    WebDemo.any_v4_route WebDemo.any_v6_route eq_refl eq_refl) as (d & ctx' & H & _ & Ha & _ & Hb).
  exists d, ctx'. split; [exact H|]. split.
  - apply Ha. split_and!; [done|exact WebDemo.announced|apply WebDemo.silent].
  - intros (_ & _ & Hs)%Hb. by apply WebDemo.silent in Hs.
Defined.

Lemma page_lists_search_witness :
  exists sr4 sr6 c1 c2 page,
    search_routes Ipv4Unicast HttpDemo.any WebDemo.both_filter RibDemo.table HttpDemo.ctx0 = (Some (inr sr4), c1)
    /\ search_routes Ipv6Unicast WebDemo.any6 WebDemo.both_filter RibDemo.table c1 = (Some (inr sr6), c2)
    /\ routes_with_filter WebDemo.state WebDemo.both_filter HttpDemo.ctx0 = (Some (inr page), c2)
    /\ rt_routes page = exact_rows sr4 ++ exact_rows sr6.
Proof.
  destruct (page_lists_search WebDemo.both_filter WebDemo.state RibDemo.table HttpDemo.the_store
    HttpDemo.any WebDemo.any6 HttpDemo.ctx0 eq_refl eq_refl HttpDemo.the_store_ok eq_refl eq_refl eq_refl)
    as (sr4 & sr6 & c1 & c2 & page & H1 & H2 & H3 & _ & _ & H4 & _).
  - right. left.
  - left.
  - exists sr4, sr6, c1, c2, page. split_and!; done.
Defined.

Lemma aggregate_sees_all_witness :
  aggregate_peers [(RibDemo.net, [HttpDemo.rc])] 0 = Some (all_marks [HttpDemo.rc])
  /\ all_marks [HttpDemo.rc] = COMMUNITIES.
Proof.
  split; [|reflexivity]. exact (aggregate_sees_all _ WebDemo.rows_ok).
Defined.

Lemma v6_attributes_unseen_witness :
  exists n ctx', peer_routes WebDemo.table6 7 HttpDemo.ctx0 = (Some (n, 0), ctx') /\ 0 < n.
Proof.
  destruct (v6_attributes_unseen 7 WebDemo.table6 WebDemo.store6 HttpDemo.any WebDemo.any6 HttpDemo.ctx0
    eq_refl WebDemo.store6_ok WebDemo.any_v4_route WebDemo.any_v6_route) as (n & ctx' & H & Hn).
  - intros p (rc & (Hs & _) & _). by apply WebDemo.stored_net6 in Hs as [-> _].
  - exists n, ctx'. split; [exact H|]. apply Hn. exists WebDemo.net6. exact WebDemo.announced6.
Defined.

Lemma next_hops_sound_witness :
  exists ol, only_local (mk_next_hops (Some IPV4UNICAST_IPV6) None) = Some ol
             /\ IPV4UNICAST_IPV6 ∈ ol.
Proof.
  destruct (next_hops_sound (mk_next_hops (Some IPV4UNICAST_IPV6) None) eq_refl I)
    as (ol & or & bo & H & _ & _ & _ & _ & _ & _ & Hl & _).
  exists ol. split; [exact H|]. apply Hl; [left|apply not_elem_of_nil].
Defined.
