(* ===== verification/Mqtt.v ===== *)
(** * The MQTT target ([src/targets/mqtt/])

    The settings, the counters, the connection with the tasks that poll the broker,
    and the runner: its queue of messages, its turns (one iteration of the select loop
    of [process_events], or the start of the next connection) and the updates that
    arrive beside them.  The broker library is a parameter in what it answers; a task
    is its index.  [None] is a panic. *)

From S2P Require Import Prelude Net Register Payload BmpMetrics BmpRouter Frim Manager.
From Stdlib Require Import ZArith Lia.
From stdpp Require Import base numbers list gmap strings.

Local Open Scope Z_scope.

(** ** Settings ([config.rs]) *)

Definition DEF_MQTT_PORT : Z := 1883.

Record Destination : Type := mk_destination { host : rstring; port : Z }.

#[export] Instance Destination_eq_dec : EqDecision Destination.
Proof. solve_decision. Defined.

Inductive DestinationError : Type := BadPort | EmptyHost.

(** [str::parse::<u16>]. *)
Definition parse_u16 (s : rstring) : option Z :=
  match parse_usize s with
  | Some v => if v <=? u16_max then Some v else None
  | None => None
  end.

Definition destination_try_from (value : rstring) : DestinationError + Destination :=
  let check h p := match h with [] => inl EmptyHost | _ => inr (mk_destination h p) end in
  match split_once colon value with
  | Some (h, p) => match parse_u16 p with Some p => check h p | None => inl BadPort end
  | None => check value DEF_MQTT_PORT
  end.

Definition destination_text (d : Destination) : rstring := host d ++ [colon] ++ decimal 5 (port d).

Inductive ClientIdError : Type := LeadingSpace | EmptyId.

Definition client_id_try_from (value : rstring) : ClientIdError + rstring :=
  match value with
  | 32 :: _ => inl LeadingSpace
  | [] => inl EmptyId
  | _ => inr value
  end.

Record Config : Type := mk_config {
  destination : Destination;
  qos : Z;
  client_id : rstring;
  topic_template : rstring;
  connect_retry_secs : Z;
  publish_max_secs : Z;
  queue_size : Z;
  username : option rstring;
  password : option rstring
}.

Definition default_qos : Z := 2.
Definition default_connect_retry_secs : Z := 60.
Definition default_publish_max_secs : Z := 5.
Definition default_topic_template : rstring := str "rotonda/{id}".
Definition default_queue_size : Z := 1000.

(** ** Counters ([metrics.rs], [status_reporter.rs]) *)

Record MqttMetrics : Type := mk_mqtt_metrics {
  connection_established_state : bool;
  connection_lost_count : Z;
  connection_error_count : Z;
  publish_error_count : Z;
  queue_full_drop_count : Z;
  in_flight_count : Z;
  topics : list (rstring * Z)
}.

Definition mqtt_metrics_new : MqttMetrics := mk_mqtt_metrics false 0 0 0 0 0 [].

(** [disconnected] and [connected]. *)
Definition sr_established (up : bool) (m : MqttMetrics) : MqttMetrics :=
  mk_mqtt_metrics up (connection_lost_count m) (connection_error_count m) (publish_error_count m)
    (queue_full_drop_count m) (in_flight_count m) (topics m).

Definition sr_connection_error (m : MqttMetrics) : MqttMetrics :=
  mk_mqtt_metrics (connection_established_state m) (connection_lost_count m)
    (fetch_add (connection_error_count m) 1) (publish_error_count m)
    (queue_full_drop_count m) (in_flight_count m) (topics m).

Definition sr_reconnecting (m : MqttMetrics) : MqttMetrics :=
  mk_mqtt_metrics false (fetch_add (connection_lost_count m) 1) (connection_error_count m)
    (publish_error_count m) (queue_full_drop_count m) (in_flight_count m) (topics m).

(** The counter of a topic goes up. *)
Definition bump (topic : rstring) (e : rstring * Z) : rstring * Z :=
  if bool_decide (e.1 = topic) then (e.1, fetch_add e.2 1) else e.

Definition sr_publish_ok (topic : rstring) (m : MqttMetrics) : MqttMetrics :=
  let ts := (frim_or_insert_with topic 0 (topics m)).2 in
  mk_mqtt_metrics (connection_established_state m) (connection_lost_count m)
    (connection_error_count m) (publish_error_count m) (queue_full_drop_count m) (in_flight_count m)
    (bump topic <$> ts).

Definition sr_publish_error (m : MqttMetrics) : MqttMetrics :=
  mk_mqtt_metrics (connection_established_state m) (connection_lost_count m)
    (connection_error_count m) (fetch_add (publish_error_count m) 1)
    (queue_full_drop_count m) (in_flight_count m) (topics m).

Definition sr_queue_full_drop (m : MqttMetrics) : MqttMetrics :=
  mk_mqtt_metrics (connection_established_state m) (connection_lost_count m)
    (connection_error_count m) (publish_error_count m)
    (fetch_add (queue_full_drop_count m) 1) (in_flight_count m) (topics m).

Definition sr_inflight_update (n : Z) (m : MqttMetrics) : MqttMetrics :=
  mk_mqtt_metrics (connection_established_state m) (connection_lost_count m)
    (connection_error_count m) (publish_error_count m) (queue_full_drop_count m) n (topics m).

(** ** The connection ([connection.rs]) *)

(** What [MqttOptions] is given. *)
Record Options : Type := mk_options {
  o_client_id : rstring;
  o_destination : Destination;
  o_capacity : Z;
  o_credentials : option (rstring * rstring)
}.

(** A task that polls the broker; before it has handed over its client it is starting. *)
Inductive Loop : Type :=
| Starting
| Polling (conn_count : Z)
| Ended.

#[export] Instance Loop_eq_dec : EqDecision Loop.
Proof. solve_decision. Defined.

(** A client is known by its task. *)
Inductive ConnectionState : Type :=
| CNew
| CRunning (client : nat)
| CStopped.

#[export] Instance ConnectionState_eq_dec : EqDecision ConnectionState.
Proof. solve_decision. Defined.

Record Connection : Type := mk_connection {
  mqtt_options : Options;
  retry_delay : Z;
  conn_state : ConnectionState
}.

Definition connection_new (o : Options) (retry : Z) : Connection := mk_connection o retry CNew.

Definition set_conn_state (st : ConnectionState) (c : Connection) : Connection :=
  mk_connection (mqtt_options c) (retry_delay c) st.

Definition active (c : Connection) : bool :=
  match conn_state c with CStopped => false | _ => true end.

Definition conn_client (c : Connection) : option nat :=
  match conn_state c with CRunning t => Some t | _ => None end.

Definition set_retry_delay (d : Z) (c : Connection) : Connection :=
  mk_connection (mqtt_options c) d (conn_state c).

(** What [EventLoop::poll] returns, as far as the loop looks at it. *)
Inductive PollResult : Type := ConnAckSuccess | ConnAckFailure | OtherEvent | PollError.

(** One turn of the loop of [mqtt_event_loop]: the number of successful connections,
    the counters, and whether it waits for the retry delay. *)
Definition event_loop_turn (res : PollResult) (inflight : Z) (conn_count : Z) (m : MqttMetrics)
  : Z * MqttMetrics * bool :=
  let '(conn_count, m, retry) :=
    match res with
    | ConnAckSuccess => (conn_count + 1, sr_established true m, false)
    | ConnAckFailure => (conn_count, sr_connection_error m, true)
    | OtherEvent => (conn_count, m, false)
    | PollError => (conn_count, sr_connection_error m, true)
    end in
  let m := sr_inflight_update inflight m in
  let m := if retry && (0 <? conn_count) then sr_reconnecting m else m in
  (conn_count, m, retry).

(** ** The runner ([target.rs]) *)

Record SenderMsg : Type := mk_msg { received : Z; content : rstring; topic : rstring }.

Inductive MqttError : Type := ClientError | Timeout.

(** What the client does with a publication: [None] when it does not answer in time. *)
Definition Answer : Type := option bool.

Inductive TrySend : Type := Sent | Full | Closed.

#[export] Instance TrySend_eq_dec : EqDecision TrySend.
Proof. solve_decision. Defined.

(** [offered] and [attempts] are histories: what was put to the queue with the answer,
    and what was taken from it with the client it was given to. *)
Record Runner : Type := mk_runner {
  config : Config;
  stored_client : option nat;
  connection : Connection;
  loops : list Loop;
  pub_q : list SenderMsg;
  pub_q_capacity : Z;
  running : bool;
  r_metrics : MqttMetrics;
  offered : list (SenderMsg * TrySend);
  attempts : list (SenderMsg * option nat)
}.

Definition set_config (c : Config) (r : Runner) : Runner :=
  mk_runner c (stored_client r) (connection r) (loops r) (pub_q r) (pub_q_capacity r) (running r)
    (r_metrics r) (offered r) (attempts r).
Definition set_client (c : option nat) (r : Runner) : Runner :=
  mk_runner (config r) c (connection r) (loops r) (pub_q r) (pub_q_capacity r) (running r)
    (r_metrics r) (offered r) (attempts r).
Definition set_connection (c : Connection) (r : Runner) : Runner :=
  mk_runner (config r) (stored_client r) c (loops r) (pub_q r) (pub_q_capacity r) (running r)
    (r_metrics r) (offered r) (attempts r).
Definition set_loops (l : list Loop) (r : Runner) : Runner :=
  mk_runner (config r) (stored_client r) (connection r) l (pub_q r) (pub_q_capacity r) (running r)
    (r_metrics r) (offered r) (attempts r).
Definition set_queue (q : list SenderMsg) (r : Runner) : Runner :=
  mk_runner (config r) (stored_client r) (connection r) (loops r) q (pub_q_capacity r) (running r)
    (r_metrics r) (offered r) (attempts r).
Definition terminate (r : Runner) : Runner :=
  mk_runner (config r) (stored_client r) (connection r) (loops r) (pub_q r) (pub_q_capacity r) false
    (r_metrics r) (offered r) (attempts r).
Definition on_metrics (f : MqttMetrics -> MqttMetrics) (r : Runner) : Runner :=
  mk_runner (config r) (stored_client r) (connection r) (loops r) (pub_q r) (pub_q_capacity r)
    (running r) (f (r_metrics r)) (offered r) (attempts r).
Definition log_offer (m : SenderMsg) (a : TrySend) (r : Runner) : Runner :=
  mk_runner (config r) (stored_client r) (connection r) (loops r) (pub_q r) (pub_q_capacity r)
    (running r) (r_metrics r) (offered r ++ [(m, a)]) (attempts r).
Definition log_attempt (m : SenderMsg) (c : option nat) (r : Runner) : Runner :=
  mk_runner (config r) (stored_client r) (connection r) (loops r) (pub_q r) (pub_q_capacity r)
    (running r) (r_metrics r) (offered r) (attempts r ++ [(m, c)]).

(** [ConnectionFactory::connect]. *)
Definition connect (c : Config) : Connection :=
  connection_new
    (mk_options (client_id c) (destination c) (queue_size c)
       (match username c, password c with Some u, Some p => Some (u, p) | _, _ => None end))
    (connect_retry_secs c).

(** [MqttRunner::new] and [run], up to the first turn. *)
Definition runner_new (c : Config) : Runner :=
  mk_runner c None (connect c) [] [] (Z.max (queue_size c) 1) true mqtt_metrics_new [] [].

(** [Connection::disconnect]; [ok] is what the client answers. *)
Definition disconnect (ok : bool) (r : Runner) : Runner :=
  let r := match conn_state (connection r) with
           | CRunning t =>
               let r := if ok then r else on_metrics sr_connection_error r in
               let r := on_metrics (sr_established false) r in
               set_loops (<[t := Ended]> (loops r)) r
           | _ => r
           end in
  set_connection (set_conn_state CStopped (connection r)) r.

(** How the future of [Connection::process] ends when it is polled to its end. *)
Inductive Processed : Type :=
| HandedOver
| HandoverFailed
| LoopPanicked (disconnected : bool).

(** The first poll of [process]: a new connection starts a task. *)
Definition process_start (r : Runner) : Runner :=
  match conn_state (connection r) with
  | CNew => set_loops (loops r ++ [Starting]) r
  | _ => r
  end.

Definition last_loop (r : Runner) : nat := (length (loops r) - 1)%nat.

Definition process_end (p : Processed) (r : Runner) : Runner :=
  match conn_state (connection r), p with
  | CNew, HandedOver =>
      let t := last_loop r in
      let r := set_loops (<[t := Polling 0]> (loops r)) r in
      set_client (Some t) (set_connection (set_conn_state (CRunning t) (connection r)) r)
  | CNew, _ =>
      let r := set_loops (<[last_loop r := Ended]> (loops r)) r in
      set_client None (disconnect true (on_metrics sr_connection_error r))
  | CRunning t, LoopPanicked ok =>
      let r := set_loops (<[t := Ended]> (loops r)) r in
      set_client None (disconnect ok (on_metrics sr_connection_error r))
  | _, _ => set_client None r
  end.

(** The future is dropped because another branch was taken: a task that has not sent
    its client yet finds nobody waiting and ends; one that has goes on. *)
Definition process_cancel (sent : bool) (r : Runner) : Runner :=
  match conn_state (connection r) with
  | CNew => set_loops (<[last_loop r := if sent then Polling 0 else Ended]> (loops r)) r
  | _ => r
  end.

(** [do_publish]: an unknown quality of service is unreachable. *)
Definition do_publish (client : option nat) (q : Z) (a : Answer) : option (MqttError + unit) :=
  if bool_decide (q = 0 \/ q = 1 \/ q = 2) then
    Some (match client with
          | Some _ => match a with
                      | None => inl Timeout
                      | Some true => inr tt
                      | Some false => inl ClientError
                      end
          | None => inr tt
          end)
  else None.

Definition publish_msg (msg : SenderMsg) (a : Answer) (r : Runner) : option Runner :=
  let client := conn_client (connection r) in
  res ← do_publish client (qos (config r)) a;
  let r := log_attempt msg client r in
  Some (match res with
        | inr _ => on_metrics (sr_publish_ok (topic msg)) r
        | inl _ => on_metrics sr_publish_error r
        end).

(** How a link of the new sources answers when it is connected. *)
Inductive LinkAnswer : Type := LinkUp | GateGone.

Inductive TargetCommand : Type :=
| TReconfigure (sources : list LinkAnswer) (new_config : Config)
| TReportLinks
| TTerminate.

Definition needs_reconnect (new old : Config) : bool :=
  negb (bool_decide (client_id new = client_id old))
  || negb (bool_decide (destination new = destination old))
  || negb (bool_decide (queue_size new = queue_size old)).

(** [reconfigure]: whether the connection is to be replaced; a link whose gate is gone
    makes the [unwrap] panic. *)
Definition reconfigure (sources : list LinkAnswer) (new : Config) (r : Runner)
  : option (bool * Runner) :=
  if existsb (fun l => match l with GateGone => true | LinkUp => false end) sources then None
  else
    let old := config r in
    let r := set_connection (set_retry_delay (connect_retry_secs old) (connection r)) r in
    Some (needs_reconnect new old, set_config new r).

(** The branch of the select that is taken; [sent] says whether the task of a new
    connection has sent its client by then, [ok] how a disconnection goes. *)
Inductive Branch : Type :=
| BProcess (p : Processed)
| BCommand (cmd : option TargetCommand) (sent ok : bool)
| BMessage (a : Answer) (sent : bool).

Definition branch (b : Branch) (r : Runner) : option Runner :=
  let r := process_start r in
  match b with
  | BProcess p => Some (process_end p r)
  | BCommand cmd sent ok =>
      let r := process_cancel sent r in
      match cmd with
      | Some (TReconfigure sources new) =>
          res ← reconfigure sources new r;
          Some (if res.1 : bool then disconnect ok res.2 else res.2)
      | Some TReportLinks => Some r
      | None | Some TTerminate => Some (terminate (disconnect ok r))
      end
  | BMessage a sent =>
      let r := process_cancel sent r in
      match pub_q r with
      | msg :: q => publish_msg msg a (set_queue q r)
      | [] => Some r
      end
  end.

(** The loop ends when the connection is not active any more, and [do_run] makes the
    next one. *)
Definition next_connection (r : Runner) : Runner :=
  if running r && negb (active (connection r))
  then set_connection (connect (config r)) (set_client None r)
  else r.

Definition turn (b : Branch) (r : Runner) : option Runner := next_connection <$> branch b r.

(** Whether a branch can be taken: only a new connection waits for a client, only a
    running one for its task, and a message is there. *)
Definition ready (b : Branch) (r : Runner) : bool :=
  running r
  && match b, conn_state (connection r) with
     | BProcess (HandedOver | HandoverFailed), CNew => true
     | BProcess (LoopPanicked _), CRunning _ => true
     | BProcess _, _ => false
     | BCommand _ _ _, _ => true
     | BMessage _ _, _ => match pub_q r with [] => false | _ => true end
     end.

(** ** Updates *)
Section Updates.
Context `{E : Extern} `{L : Layout}.
(** [serde_json] for the pair of an ingress and a record; the name of the target and
    the register. *)
Context (to_json : option IngressInfo -> OutputStreamMessageRecord -> option rstring).
Context (target_name : rstring) (ingresses : Register).

Definition output_stream_message_to_msg (now : Z) (osm : OutputStreamMessage) (r : Runner)
  : option SenderMsg :=
  if bool_decide (osm_name osm = target_name) then
    let ingress_info := id ← osm_ingress_id osm; get id ingresses in
    c ← to_json ingress_info (osm_record osm);
    Some (mk_msg now c (replace (str "{id}") (osm_topic osm) (topic_template (config r))))
  else None.

(** [try_send] on the bounded queue. *)
Definition try_send (msg : SenderMsg) (r : Runner) : Runner :=
  if negb (running r) then log_offer msg Closed r
  else if pub_q_capacity r <=? zlen (pub_q r)
       then log_offer msg Full (on_metrics sr_queue_full_drop r)
       else log_offer msg Sent (set_queue (pub_q r ++ [msg]) r).

Definition direct_update (now : Z) (u : Update) (r : Runner) : Runner :=
  match u with
  | OutputStream msgs =>
      foldl (fun r osm => match output_stream_message_to_msg now osm r with
                          | Some msg => try_send msg r
                          | None => r
                          end) r msgs
  | _ => r
  end.

(** A turn of a task that polls. *)
Definition poll (t : nat) (res : PollResult) (inflight : Z) (r : Runner) : Runner :=
  match loops r !! t with
  | Some (Polling n) =>
      let '(n, m, _) := event_loop_turn res inflight n (r_metrics r) in
      on_metrics (fun _ => m) (set_loops (<[t := Polling n]> (loops r)) r)
  | _ => r
  end.

Inductive step : Runner -> Runner -> Prop :=
| step_update now u r : step r (direct_update now u r)
| step_poll t res inflight r : step r (poll t res inflight r)
| step_turn b r r' : ready b r = true -> turn b r = Some r' -> step r r'.

Definition reachable (c : Config) : Runner -> Prop := rtc step (runner_new c).

End Updates.
