(* ===== verification/MqttProps.v ===== *)
(** * What the MQTT target promises

    No message is published twice or out of order, and none is lost without being
    counted, while the target runs; the queue stays within its bound; the settings are
    replaced as the code decides; one task polls the broker unless a client is handed
    over too late. *)

From S2P Require Import Prelude Net Register Payload BmpMetrics BmpRouter Frim Manager Mqtt.
From Stdlib Require Import ZArith Lia.
From stdpp Require Import base numbers list gmap strings relations.

Local Open Scope Z_scope.

(** ** Messages *)

(** The messages that the queue took. *)
Definition accepted (l : list (SenderMsg * TrySend)) : list SenderMsg :=
  (filter (fun e => e.2 = Sent) l).*1.

Definition refused (l : list (SenderMsg * TrySend)) : Z := zlen (filter (fun e => e.2 = Full) l).

(** All publications, those that failed too. *)
Definition counted (m : MqttMetrics) : Z := zsum (topics m).*2 + publish_error_count m.

Definition eq64 (a b : Z) : Prop := a mod 2 ^ 64 = b mod 2 ^ 64.

Record accounted (cap : Z) (r : Runner) : Prop := {
  acc_order : (attempts r).*1 ++ pub_q r = accepted (offered r);
  acc_bound : pub_q_capacity r = cap /\ zlen (pub_q r) <= cap;
  acc_drops : queue_full_drop_count (r_metrics r) = wrap 64 (refused (offered r));
  acc_topics : frim_wf (topics (r_metrics r));
  acc_counts : eq64 (counted (r_metrics r)) (zlen (attempts r))
}.

(** What the other operations leave alone. *)
Definition same_messages (r r' : Runner) : Prop :=
  attempts r' = attempts r /\ pub_q r' = pub_q r /\ offered r' = offered r
  /\ pub_q_capacity r' = pub_q_capacity r
  /\ queue_full_drop_count (r_metrics r') = queue_full_drop_count (r_metrics r)
  /\ topics (r_metrics r') = topics (r_metrics r)
  /\ publish_error_count (r_metrics r') = publish_error_count (r_metrics r).

#[local] Instance same_messages_po : PreOrder same_messages.
Proof.
  split.
  - by intros r; repeat split.
  - intros r1 r2 r3 H1 H2. unfold same_messages in *. intuition congruence.
Qed.

Lemma same_accounted cap r r' : same_messages r r' -> accounted cap r -> accounted cap r'.
Proof.
  intros (Ha & Hq & Ho & Hc & Hd & Ht & He) [H1 H2 H3 H4 H5].
  split; unfold counted; rewrite ?Ha, ?Hq, ?Ho, ?Hc, ?Hd, ?Ht, ?He; done.
Qed.

Lemma disconnect_same ok r : same_messages r (disconnect ok r).
Proof. unfold disconnect. destruct (conn_state (connection r)), ok; by repeat split. Qed.

Lemma process_start_same r : same_messages r (process_start r).
Proof. unfold process_start. destruct (conn_state (connection r)); by repeat split. Qed.

Lemma process_cancel_same sent r : same_messages r (process_cancel sent r).
Proof. unfold process_cancel. destruct (conn_state (connection r)), sent; by repeat split. Qed.

Lemma process_end_same p r : same_messages r (process_end p r).
Proof.
  unfold process_end. destruct (conn_state (connection r)) eqn:Hc, p; try by repeat split.
  all: match goal with |- same_messages _ (set_client None (disconnect ?ok ?x)) =>
    etransitivity; [|transitivity (disconnect ok x); [apply disconnect_same|by repeat split]];
    by repeat split end.
Qed.

Lemma next_connection_same r : same_messages r (next_connection r).
Proof. unfold next_connection. by destruct (running r && negb (active (connection r))); repeat split. Qed.

Lemma reconfigure_same sources new r b r' :
  reconfigure sources new r = Some (b, r') -> same_messages r r'.
Proof. unfold reconfigure. destruct (existsb _ sources); [done|]. intros [= <- <-]. by repeat split. Qed.

Lemma poll_same t res inflight r : same_messages r (poll t res inflight r).
Proof.
  unfold poll, event_loop_turn. destruct (loops r !! t) as [[|n|]|]; try by repeat split.
  destruct res; cbn; try by repeat split.
  all: destruct (0 <? n); by repeat split.
Qed.

(** ** Counters of topics *)

Lemma bump_keys topic (ts : list (rstring * Z)) : (bump topic <$> ts).*1 = ts.*1.
Proof.
  rewrite <- list_fmap_compose. apply list_fmap_ext. intros i [k v] _. unfold bump. cbn.
  by case_bool_decide.
Qed.

Lemma bump_other topic (ts : list (rstring * Z)) : topic ∉ ts.*1 -> bump topic <$> ts = ts.
Proof.
  induction ts as [|[k v] ts IH]; [done|]. cbn [fmap list_fmap fst]. rewrite not_elem_of_cons.
  intros [Hk Ht]. unfold bump at 1. cbn [fst]. rewrite bool_decide_false by done.
  f_equal. by apply IH.
Qed.

Lemma topics_bump_sum topic (ts : list (rstring * Z)) :
  NoDup ts.*1 -> topic ∈ ts.*1 -> eq64 (zsum (bump topic <$> ts).*2) (zsum ts.*2 + 1).
Proof.
  unfold eq64. induction ts as [|[k v] ts IH]; [by intros _ ?%not_elem_of_nil|].
  rewrite !fmap_cons. intros [Hk Hn]%NoDup_cons Hin. rewrite !zsum_cons.
  unfold bump at 1. cbn [fst snd]. case_bool_decide as Hkt; cbn [fst snd] in *.
  - subst k. rewrite bump_other by done. unfold fetch_add, wrap.
    rewrite Z.add_mod_idemp_l by lia. f_equal. lia.
  - apply elem_of_cons in Hin as [->|Hin]; [done|].
    rewrite <- (Z.add_mod_idemp_r v), (IH Hn Hin), Z.add_mod_idemp_r by lia. f_equal. lia.
Qed.

Lemma frim_insert_new topic (ts : list (rstring * Z)) :
  frim_get ts topic = None -> frim_insert topic 0 ts = ts ++ [(topic, 0)] /\ topic ∉ ts.*1.
Proof.
  unfold frim_get, frim_insert. intros H.
  assert (Hno : forall e, e ∈ ts -> e.1 <> topic).
  { intros e He Heq. destruct (filter (fun kv : rstring * Z => kv.1 = topic) ts) eqn:Hf; [|done].
    assert (Hin : e ∈ filter (fun kv : rstring * Z => kv.1 = topic) ts) by by apply list_elem_of_filter.
    rewrite Hf in Hin. by apply not_elem_of_nil in Hin. }
  split.
  - f_equal. clear H. induction ts as [|e ts IH]; [done|].
    rewrite filter_cons, decide_True by (apply Hno; left). f_equal. apply IH.
    intros x Hx. apply Hno. by right.
  - intros (e & -> & He)%list_elem_of_fmap. by apply (Hno e).
Qed.

Lemma publish_ok_counts topic m :
  frim_wf (topics m) ->
  frim_wf (topics (sr_publish_ok topic m))
  /\ eq64 (counted (sr_publish_ok topic m)) (counted m + 1).
Proof.
  unfold frim_wf, counted, sr_publish_ok, frim_or_insert_with. cbn [topics publish_error_count].
  intros Hwf. destruct (frim_get (topics m) topic) as [v|] eqn:Hg; cbn [snd].
  - rewrite bump_keys. split; [done|]. unfold eq64.
    assert (Hin : topic ∈ (topics m).*1).
    { unfold frim_get in Hg. destruct (filter _ (topics m)) as [|e l] eqn:Hf; [done|].
      assert (He : e ∈ filter (fun kv : rstring * Z => kv.1 = topic) (topics m)) by (rewrite Hf; left).
      apply list_elem_of_filter in He as [<- He]. apply list_elem_of_fmap. eauto. }
    rewrite <- Z.add_mod_idemp_l, (topics_bump_sum _ _ Hwf Hin), Z.add_mod_idemp_l by lia. f_equal. lia.
  - destruct (frim_insert_new _ _ Hg) as [-> Hnin]. rewrite bump_keys.
    assert (Hwf' : NoDup (topics m ++ [(topic, 0)]).*1).
    { rewrite fmap_app. apply NoDup_app. split_and!; [done| |apply NoDup_singleton].
      intros x Hx [= ->]%list_elem_of_singleton. done. }
    split; [done|]. unfold eq64. rewrite <- Z.add_mod_idemp_l, (topics_bump_sum _ _ Hwf') by
      (lia || (rewrite fmap_app; apply elem_of_app; right; left)).
    rewrite Z.add_mod_idemp_l by lia. rewrite fmap_app, zsum_app. f_equal. cbn. lia.
Qed.

Lemma publish_msg_accounted cap msg q a r r' :
  accounted cap r -> pub_q r = msg :: q -> publish_msg msg a (set_queue q r) = Some r' ->
  accounted cap r'.
Proof.
  intros [H1 [H2 H2'] H3 H4 H5] Hq. unfold publish_msg. cbn [config connection set_queue].
  destruct (do_publish _ _ _) as [res|]; [|done]. intros [= <-].
  rewrite Hq in *. rewrite zlen_cons in H2'. rewrite (app_assoc _ [msg] q) in H1.
  destruct res as [e|[]]; split; cbn [attempts pub_q offered pub_q_capacity r_metrics on_metrics
    log_attempt set_queue topics queue_full_drop_count sr_publish_error sr_publish_ok];
    rewrite ?fmap_app, ?zlen_app; try done; try lia.
  - unfold counted, eq64 in *. cbn [topics publish_error_count sr_publish_error].
    change (zlen [(msg, conn_client (connection r))]) with 1. unfold fetch_add, wrap.
    rewrite Z.add_mod_idemp_r by lia. rewrite <- (Z.add_mod_idemp_l (zlen (attempts r))), <- H5 by lia.
    rewrite Z.add_mod_idemp_l by lia. f_equal. lia.
  - by apply publish_ok_counts.
  - destruct (publish_ok_counts (topic msg) (r_metrics r) H4) as [_ Hcnt]. unfold eq64 in *.
    change (zlen [(msg, conn_client (connection r))]) with 1. etransitivity; [exact Hcnt|].
    rewrite <- (Z.add_mod_idemp_l (counted _)), H5, Z.add_mod_idemp_l by lia. done.
Qed.

Lemma branch_accounted cap b r r' : accounted cap r -> branch b r = Some r' -> accounted cap r'.
Proof.
  intros Hacc. unfold branch.
  pose proof (same_accounted _ _ _ (process_start_same r) Hacc) as H0.
  set (r0 := process_start r) in *. destruct b as [p|[[sources new| |]|] sent ok|a sent].
  - intros [= <-]. eapply same_accounted; [apply process_end_same|done].
  - pose proof (same_accounted _ _ _ (process_cancel_same sent r0) H0) as H1.
    destruct (reconfigure sources new (process_cancel sent r0)) as [[b r1]|] eqn:Hr; [|done].
    cbn. intros [= <-]. apply reconfigure_same in Hr.
    pose proof (same_accounted _ _ _ Hr H1) as H2. destruct b; [|done].
    eapply same_accounted; [apply disconnect_same|done].
  - intros [= <-]. eapply same_accounted; [apply process_cancel_same|done].
  - intros [= <-]. pose proof (same_accounted _ _ _ (process_cancel_same sent r0) H0) as H1.
    pose proof (same_accounted _ _ _ (disconnect_same ok _) H1) as H2. by destruct H2.
  - intros [= <-]. pose proof (same_accounted _ _ _ (process_cancel_same sent r0) H0) as H1.
    pose proof (same_accounted _ _ _ (disconnect_same ok _) H1) as H2. by destruct H2.
  - pose proof (same_accounted _ _ _ (process_cancel_same sent r0) H0) as H1.
    destruct (pub_q (process_cancel sent r0)) as [|msg q] eqn:Hq; [by intros [= <-]|].
    intros Hp. by eapply publish_msg_accounted.
Qed.

Lemma accepted_snoc l m a :
  accepted (l ++ [(m, a)]) = accepted l ++ match a with Sent => [m] | _ => [] end.
Proof. unfold accepted. rewrite filter_app, fmap_app. by destruct a. Qed.

Lemma refused_snoc l m a :
  refused (l ++ [(m, a)]) = refused l + match a with Full => 1 | _ => 0 end.
Proof. unfold refused. rewrite filter_app, zlen_app. by destruct a. Qed.

Lemma try_send_accounted cap msg r : accounted cap r -> accounted cap (try_send msg r).
Proof.
  intros [H1 [H2 H2'] H3 H4 H5]. unfold try_send.
  destruct (running r); cbn [negb]; [destruct (pub_q_capacity r <=? zlen (pub_q r)) eqn:Hf|];
    (split; cbn [attempts pub_q offered pub_q_capacity r_metrics on_metrics log_offer set_queue
      topics queue_full_drop_count sr_queue_full_drop];
      rewrite ?accepted_snoc, ?refused_snoc, ?app_nil_r, ?Z.add_0_r; try done).
  - rewrite H3. unfold fetch_add, wrap. by rewrite Z.add_mod_idemp_l by lia.
  - by rewrite app_assoc, H1.
  - apply Z.leb_gt in Hf. split; [done|]. rewrite zlen_app. change (zlen [msg]) with 1. lia.
Qed.

Section Reach.
Context `{E : Extern} `{L : Layout}.
Context (to_json : option IngressInfo -> OutputStreamMessageRecord -> option rstring).
Context (target_name : rstring) (ingresses : Register).

Lemma direct_update_accounted cap now u r :
  accounted cap r -> accounted cap (direct_update to_json target_name ingresses now u r).
Proof.
  intros H. unfold direct_update. destruct u; try done. revert r H.
  induction msgs as [|osm msgs IH]; intros r H; [done|]. cbn. apply IH.
  destruct (output_stream_message_to_msg _ _ _ _ _ _); [by apply try_send_accounted|done].
Qed.

Lemma accounted_new c : accounted (Z.max (queue_size c) 1) (runner_new c).
Proof.
  split; cbn; try done; [|constructor]. rewrite zlen_nil. lia.
Qed.

(** C25: whatever the broker, the gates and the manager do, in any order: the messages that
    were taken from the queue, in the order in which they were taken, followed by those
    that still wait are the messages that the queue accepted, each once and in order;
    the queue never has more than its capacity; each message that found it full is
    counted, and so is, as published or as an error, each that was taken. *)
Theorem messages_accounted c r :
  reachable to_json target_name ingresses c r ->
  (attempts r).*1 ++ pub_q r = accepted (offered r)
  /\ zlen (pub_q r) <= Z.max (queue_size c) 1
  /\ queue_full_drop_count (r_metrics r) = wrap 64 (refused (offered r))
  /\ eq64 (counted (r_metrics r)) (zlen (attempts r)).
Proof.
  intros Hr. assert (H : accounted (Z.max (queue_size c) 1) r).
  { revert Hr. unfold reachable. apply rtc_ind_r; [apply accounted_new|].
    intros r1 r2 _ Hs Ha. inversion Hs as [now u ? E1|t res inflight ? E1|b ? ? Hrd Ht]; subst.
    - by apply direct_update_accounted.
    - eapply same_accounted; [apply poll_same|done].
    - unfold turn in Ht. destruct (branch b r1) as [r'|] eqn:Hb; [|done]. injection Ht as <-.
      eapply same_accounted; [apply next_connection_same|by eapply branch_accounted]. }
  by destruct H as [H1 [_ H2] H3 _ H5].
Qed.

End Reach.
