(* ===== verification/MqttLoops.v ===== *)
(** * The tasks and the settings of the MQTT target

    Which tasks poll the broker; what a message is given to while there is no client;
    what a change of the settings does; when a turn panics; and that the text of a
    destination reads back. *)

From S2P Require Import Prelude Net Register Payload BmpMetrics BmpRouter Frim Manager Mqtt.
From Stdlib Require Import ZArith Lia.
From stdpp Require Import base numbers list gmap strings relations.

Local Open Scope Z_scope.

(** ** Tasks *)

(** The task is polling and is not the one of the current client. *)
Definition orphan (t : nat) (r : Runner) : Prop :=
  (exists n, loops r !! t = Some (Polling n)) /\ conn_client (connection r) <> Some t.

Definition polling (r : Runner) (t : nat) : Prop := exists n, loops r !! t = Some (Polling n).

(** The tasks are as they should be: none is half-started, and those that poll are the
    one of the client. *)
Record owned (r : Runner) : Prop := {
  ow_none_starting t : loops r !! t <> Some Starting;
  ow_polling t : polling r t <-> conn_client (connection r) = Some t
}.

(** The tasks change only in these ways. *)
Lemma process_start_loops r :
  loops (process_start r) = loops r ++ match conn_state (connection r) with CNew => [Starting] | _ => [] end
  /\ connection (process_start r) = connection r.
Proof. unfold process_start. destruct (conn_state (connection r)); cbn; by rewrite ?app_nil_r. Qed.

Lemma last_loop_start r :
  conn_state (connection r) = CNew -> last_loop (process_start r) = length (loops r).
Proof.
  intros Hc. unfold last_loop. destruct (process_start_loops r) as [-> _].
  rewrite Hc, length_app. cbn. lia.
Qed.

Lemma lookup_started (l : list Loop) x t :
  <[length l := x]> (l ++ [Starting]) !! t
  = if decide (t = length l) then Some x else l !! t.
Proof.
  rewrite insert_app_r_alt by lia. rewrite Nat.sub_diag. cbn.
  destruct (decide (t = length l)) as [->|Hn].
  - by rewrite lookup_app_r, Nat.sub_diag by lia.
  - destruct (decide (t < length l)%nat) as [Hl|Hl]; [by rewrite lookup_app_l|].
    rewrite lookup_app_r by lia. rewrite (lookup_ge_None_2 l) by lia.
    apply lookup_ge_None_2. cbn. lia.
Qed.

Lemma cancel_loops sent r :
  let r' := process_cancel sent (process_start r) in
  connection r' = connection r
  /\ forall t, loops r' !! t
       = if decide (conn_state (connection r) = CNew /\ t = length (loops r))
         then Some (if sent then Polling 0 else Ended) else loops r !! t.
Proof.
  cbn zeta. destruct (process_start_loops r) as [Hl Hc]. unfold process_cancel. rewrite Hc.
  destruct (conn_state (connection r)) eqn:Hs; cbn [set_loops loops connection].
  - split; [done|]. intros t. rewrite last_loop_start, Hl by done. rewrite lookup_started.
    repeat case_decide; naive_solver.
  - split; [done|]. intros t. rewrite Hl, app_nil_r. by rewrite decide_False by naive_solver.
  - split; [done|]. intros t. rewrite Hl, app_nil_r. by rewrite decide_False by naive_solver.
Qed.

Lemma disconnect_loops ok r :
  conn_state (connection (disconnect ok r)) = CStopped
  /\ forall t, loops (disconnect ok r) !! t
       = if decide (conn_client (connection r) = Some t /\ (t < length (loops r))%nat)
         then Some Ended else loops r !! t.
Proof.
  unfold disconnect, conn_client. destruct (conn_state (connection r)) as [|c|] eqn:Hc; cbn.
  - split; [done|]. intros t. by rewrite decide_False by naive_solver.
  - split; [by destruct ok|]. intros t.
    assert (Hl : loops (if ok then r else on_metrics sr_connection_error r) = loops r) by by destruct ok.
    rewrite Hl, list_lookup_insert. repeat case_decide; naive_solver.
  - split; [done|]. intros t. by rewrite decide_False by naive_solver.
Qed.

Lemma publish_loops msg q a r r' :
  publish_msg msg a (set_queue q r) = Some r' -> loops r' = loops r /\ connection r' = connection r.
Proof.
  unfold publish_msg. destruct (do_publish _ _ _) as [[e|[]]|]; [| |done]; by intros [= <-].
Qed.

Lemma reconfigure_loops sources new r b r' :
  reconfigure sources new r = Some (b, r') ->
  loops r' = loops r /\ conn_state (connection r') = conn_state (connection r).
Proof. unfold reconfigure. destruct (existsb _ _); [done|]. by intros [= <- <-]. Qed.

Lemma next_loops r :
  loops (next_connection r) = loops r
  /\ conn_client (connection (next_connection r))
     = if running r && negb (active (connection r)) then None else conn_client (connection r).
Proof. unfold next_connection. by destruct (running r && negb (active (connection r))). Qed.

(** The client was handed over and nobody took it. *)
Definition late (b : Branch) : bool :=
  match b with BProcess _ => false | BCommand _ sent _ | BMessage _ sent => sent end.

(** What a turn does to the tasks: it starts one, leaves them, or ends that of the
    client. *)
Inductive task_change (b : Branch) (r r' : Runner) : Prop :=
| tc_new x :
    conn_state (connection r) = CNew ->
    (forall t, loops r' !! t = if decide (t = length (loops r)) then Some x else loops r !! t) ->
    (x = Ended /\ conn_client (connection r') = None
     \/ x = Polling 0 /\ conn_client (connection r') = Some (length (loops r))
     \/ late b = true /\ x = Polling 0 /\ conn_client (connection r') = None) ->
    task_change b r r'
| tc_kept :
    loops r' = loops r -> conn_client (connection r') = conn_client (connection r) ->
    task_change b r r'
| tc_ended t :
    conn_client (connection r) = Some t ->
    (forall u, loops r' !! u = if decide (u = t /\ (t < length (loops r))%nat) then Some Ended
                               else loops r !! u) ->
    conn_client (connection r') = None -> task_change b r r'.

Lemma client_new c : conn_state c = CNew -> conn_client c = None.
Proof. unfold conn_client. by intros ->. Qed.

Lemma client_stopped c : conn_state c = CStopped -> conn_client c = None.
Proof. unfold conn_client. by intros ->. Qed.

Lemma cancelled_change b r r' :
  (forall t, loops r' !! t = loops (process_cancel (late b) (process_start r)) !! t) ->
  conn_client (connection r') = conn_client (connection r) ->
  task_change b r r'.
Proof.
  intros Hl Hc. destruct (cancel_loops (late b) r) as [_ Hcl].
  destruct (decide (conn_state (connection r) = CNew)) as [Hn|Hn].
  - apply (tc_new _ _ _ (if late b then Polling 0 else Ended)); [done| |].
    + intros t. rewrite Hl, Hcl. repeat case_decide; naive_solver.
    + rewrite Hc, (client_new _ Hn). destruct (late b); naive_solver.
  - apply tc_kept; [|done]. apply list_eq. intros t. rewrite Hl, Hcl. by rewrite decide_False by naive_solver.
Qed.

(** A connection that is cancelled and then disconnected. *)
Lemma disconnected_change b r r' r1 ok :
  (forall t, loops r1 !! t = loops (process_cancel (late b) (process_start r)) !! t) ->
  conn_state (connection r1) = conn_state (connection r) ->
  loops r' = loops (disconnect ok r1) -> conn_client (connection r') = None ->
  task_change b r r'.
Proof.
  intros Hl Hs Hl' Hc'. destruct (disconnect_loops ok r1) as [_ Hd].
  destruct (cancel_loops (late b) r) as [_ Hcl].
  assert (Hlen : conn_state (connection r) <> CNew -> loops r1 = loops r).
  { intros Hn. apply list_eq. intros t. rewrite Hl, Hcl. by rewrite decide_False by naive_solver. }
  assert (Hcc : conn_client (connection r1) = conn_client (connection r)).
  { unfold conn_client. by rewrite Hs. }
  destruct (conn_state (connection r)) as [|c|] eqn:Hcs.
  - apply (cancelled_change b).
    + intros t. rewrite Hl', Hd, Hcc, (client_new _ Hcs), Hl. by rewrite decide_False by naive_solver.
    + by rewrite Hc', (client_new _ Hcs).
  - apply (tc_ended _ _ _ c); [unfold conn_client; by rewrite Hcs| |done].
    intros u. rewrite Hl', Hd, Hcc, Hlen by done. unfold conn_client. rewrite Hcs.
    repeat case_decide; naive_solver.
  - apply (cancelled_change b).
    + intros t. rewrite Hl', Hd, Hcc, (client_stopped _ Hcs), Hl. by rewrite decide_False by naive_solver.
    + by rewrite Hc', (client_stopped _ Hcs).
Qed.

(** A turn that [process] ends. *)
Lemma processed_change p r r' :
  loops r' = loops (process_end p (process_start r)) ->
  conn_client (connection r') = conn_client (connection (process_end p (process_start r))) ->
  task_change (BProcess p) r r'.
Proof.
  destruct (process_start_loops r) as [Hl Hc]. unfold process_end. rewrite Hc.
  destruct (conn_state (connection r)) as [|c|] eqn:Hs.
  - pose proof (last_loop_start r Hs) as Hlast.
    assert (Hfail : forall x, loops x = <[length (loops r) := Ended]> (loops r ++ [Starting]) ->
      connection x = connection r ->
      loops r' = loops (disconnect true x) ->
      conn_client (connection r') = None -> task_change (BProcess p) r r').
    { intros x Hx Hcx Hl' Hc'. apply (tc_new _ _ _ Ended); [done| |naive_solver].
      intros t. destruct (disconnect_loops true x) as [_ Hd].
      rewrite Hl', Hd, Hcx, (client_new _ Hs), Hx. rewrite decide_False by naive_solver.
      apply lookup_started. }
    destruct p; cbn [set_client set_connection set_loops loops connection]; rewrite Hlast, Hl; cbn.
    + intros Hl' Hc'. apply (tc_new _ _ _ (Polling 0)); [done| |naive_solver].
      intros t. rewrite Hl'. apply lookup_started.
    + intros Hl' Hc'. by eapply Hfail; [..|exact Hl'|exact Hc'].
    + intros Hl' Hc'. by eapply Hfail; [..|exact Hl'|exact Hc'].
  - rewrite app_nil_r in Hl.
    assert (Hclient : conn_client (connection r) = Some c) by (unfold conn_client; by rewrite Hs).
    destruct p as [| |ok]; cbn [set_client loops connection]; rewrite ?Hl, ?Hc; [by apply tc_kept..|].
    match goal with |- loops r' = loops (disconnect ok ?x) -> _ =>
      destruct (disconnect_loops ok x) as [Hst Hd] end.
    intros Hl' Hc'. apply (tc_ended _ _ _ c); [done| |by rewrite Hc', (client_stopped _ Hst)].
    intros u. rewrite Hl', Hd. cbn [on_metrics set_loops loops connection]. rewrite Hc, Hclient, length_insert.
    destruct (decide (Some c = Some u /\ _)) as [[[= ->] Hlt]|Hn]; [by rewrite decide_True|].
    rewrite list_lookup_insert. repeat case_decide; naive_solver.
  - rewrite app_nil_r in Hl. destruct p; cbn; rewrite ?Hl, ?Hc; by apply tc_kept.
Qed.

(** The next connection is new: it has no client, as the stopped one had none. *)
Lemma next_client r : conn_client (connection (next_connection r)) = conn_client (connection r).
Proof.
  destruct (next_loops r) as [_ ->]. destruct (running r); cbn; [|done].
  unfold active, conn_client. by destruct (conn_state (connection r)).
Qed.

Lemma turn_tasks b r r' : turn b r = Some r' -> task_change b r r'.
Proof.
  unfold turn, branch. intros Ht.
  match type of Ht with _ <$> ?m = _ => destruct m as [r2|] eqn:Hb; [|done] end. injection Ht as <-.
  destruct (next_loops r2) as [Hnl _]. pose proof (next_client r2) as Hnc.
  destruct b as [p|cmd sent ok|a sent].
  - injection Hb as <-. by apply processed_change.
  - destruct (cancel_loops sent r) as [Hcon _].
    assert (Hdis : forall r1, loops r1 = loops (process_cancel sent (process_start r)) ->
      conn_state (connection r1) = conn_state (connection r) ->
      loops r2 = loops (disconnect ok r1) ->
      conn_state (connection r2) = CStopped ->
      task_change (BCommand cmd sent ok) r (next_connection r2)).
    { intros r1 H1 H2 H3 H4. apply (disconnected_change _ _ _ r1 ok); [by intros t; rewrite H1|done| |].
      - by rewrite Hnl.
      - by rewrite Hnc, (client_stopped _ H4). }
    destruct cmd as [[sources new| |]|].
    + destruct (reconfigure sources new (process_cancel sent (process_start r))) as [[d r1]|] eqn:Hr; [|done].
      cbn in Hb. injection Hb as <-. apply reconfigure_loops in Hr as [Hl Hs]. rewrite Hcon in Hs.
      destruct d.
      * apply (Hdis r1); [done|done|done|apply disconnect_loops].
      * apply cancelled_change; [intros t; by rewrite Hnl, Hl|].
        rewrite Hnc. unfold conn_client. by rewrite Hs.
    + injection Hb as <-. apply cancelled_change; [intros t; by rewrite Hnl|by rewrite Hnc, Hcon].
    + injection Hb as <-. apply (Hdis (process_cancel sent (process_start r)));
        [done|by rewrite Hcon|done|apply disconnect_loops].
    + injection Hb as <-. apply (Hdis (process_cancel sent (process_start r)));
        [done|by rewrite Hcon|done|apply disconnect_loops].
  - destruct (cancel_loops sent r) as [Hcon _].
    assert (H : loops r2 = loops (process_cancel sent (process_start r)) /\ connection r2 = connection r).
    { destruct (pub_q (process_cancel sent (process_start r))) as [|msg q] eqn:Hq.
      - by injection Hb as <-.
      - apply publish_loops in Hb as [-> ->]. by rewrite Hcon. }
    destruct H as [Hl Hc]. apply cancelled_change; [intros t; by rewrite Hnl, Hl|by rewrite Hnc, Hc].
Qed.

Section Steps.
Context `{E : Extern} `{L : Layout}.
Context (to_json : option IngressInfo -> OutputStreamMessageRecord -> option rstring).
Context (target_name : rstring) (ingresses : Register).

Lemma direct_update_tasks now u r :
  let r' := direct_update to_json target_name ingresses now u r in
  loops r' = loops r /\ connection r' = connection r.
Proof.
  cbn zeta. unfold direct_update. destruct u; try done. revert r.
  induction msgs as [|osm msgs IH]; intros r; [done|]. cbn.
  destruct (output_stream_message_to_msg _ _ _ _ _ _); [|apply IH].
  destruct (IH (try_send s r)) as [-> ->]. unfold try_send. by repeat case_match.
Qed.

Lemma poll_tasks t res inflight r :
  let r' := poll t res inflight r in
  connection r' = connection r
  /\ (forall u, polling r' u <-> polling r u) /\ (forall u, loops r' !! u = Some Starting -> loops r !! u = Some Starting).
Proof.
  cbn zeta. unfold poll. destruct (loops r !! t) as [[|n|]|] eqn:Ht; try done.
  destruct (event_loop_turn res inflight n (r_metrics r)) as [[n' m] w]. cbn. split; [done|].
  pose proof (lookup_lt_Some _ _ _ Ht) as Hlt. unfold polling. cbn. split; intros u.
  - rewrite list_lookup_insert. case_decide as Hd; [|done]. destruct Hd as [-> _]. rewrite Ht. naive_solver.
  - rewrite list_lookup_insert. by case_decide.
Qed.

(** A task that polls for nobody does so for ever: the broker sees it come back after
    every retry delay, under the client id that the target uses. *)
Theorem orphan_never_ends t r r' :
  rtc (step to_json target_name ingresses) r r' -> orphan t r -> orphan t r'.
Proof.
  induction 1 as [|r1 r2 r3 Hs _ IH]; [done|]. intros [Hp Hn]. apply IH. clear IH.
  destruct Hs as [now u r1|t' res inflight r1|b r1 r2 _ Ht].
  - destruct (direct_update_tasks now u r1) as [Hl Hc]. unfold orphan. by rewrite Hl, Hc.
  - destruct (poll_tasks t' res inflight r1) as (Hc & Hpo & _). unfold orphan. rewrite Hc.
    split; [by apply Hpo|done].
  - destruct Hp as [n Hp]. pose proof (lookup_lt_Some _ _ _ Hp) as Hlt.
    apply turn_tasks in Ht as [x _ Hl Hc|Hl Hc|c Hcl Hl Hc]; unfold orphan.
    + rewrite Hl, decide_False by lia. split; [eauto|]. intros Heq.
      destruct Hc as [[_ Hc]|[[_ Hc]|(_ & _ & Hc)]]; rewrite Hc in Heq; simplify_eq. lia.
    + rewrite Hl, Hc. eauto.
    + rewrite Hl, Hc, decide_False by naive_solver. eauto.
Qed.

(** The same steps, without a client that is handed over when another branch is taken. *)
Inductive prompt_step : Runner -> Runner -> Prop :=
| ps_update now u r : prompt_step r (direct_update to_json target_name ingresses now u r)
| ps_poll t res inflight r : prompt_step r (poll t res inflight r)
| ps_turn b r r' : ready b r = true -> late b = false -> turn b r = Some r' -> prompt_step r r'.

(** C31: as long as nothing cuts the handing-over of a new client short, neither a command
    nor a message that comes out of the queue while the connection is being set up, exactly
    the task of the current client polls the broker: none while there is no client, and none
    of an earlier connection. (What does cut it short drops the new client, while the task
    that was started for it goes on polling for good: [orphan_never_ends].) *)
Theorem one_task_polls c r : rtc prompt_step (runner_new c) r -> owned r.
Proof.
  revert r. apply rtc_ind_r.
  - split; [by intros t|]. intros t. split; [by intros [n H]|done].
  - intros r1 r2 _ Hs [Hst Hpo]. destruct Hs as [now u r1|t res inflight r1|b r1 r2 Hr Hla Ht].
    + destruct (direct_update_tasks now u r1) as [Hl Hc].
      split; intros t; unfold polling; rewrite Hl, ?Hc; [apply Hst|apply Hpo].
    + destruct (poll_tasks t res inflight r1) as (Hc & Hp & Hs).
      split; intros u; [intros ?%Hs; by eapply Hst|rewrite Hp, Hc; apply Hpo].
    + apply turn_tasks in Ht as [x Hn Hl Hx|Hl Hc|c' Hcl Hl Hc].
      * assert (Hno : forall t, ~ polling r1 t).
        { intros t. rewrite Hpo, (client_new _ Hn). done. }
        rewrite Hla in Hx. split; intros t.
        -- rewrite Hl. case_decide; [|apply Hst]. destruct Hx as [[-> _]|[[-> _]|[? _]]]; done.
        -- unfold polling. rewrite Hl. specialize (Hno t). unfold polling in Hno.
           destruct Hx as [[-> ->]|[[-> ->]|[? _]]]; [| |done]; case_decide; naive_solver.
      * split; intros t; unfold polling; rewrite Hl, ?Hc; [apply Hst|apply Hpo].
      * split; intros t.
        -- rewrite Hl. destruct (decide _); [congruence|apply Hst].
        -- unfold polling. rewrite Hl, Hc. split; [|done]. destruct (decide _) as [Hd|Hd]; [intros [n Hn]; congruence|].
           intros Hp. pose proof (proj1 (Hpo t) Hp) as Hp'. rewrite Hcl in Hp'. injection Hp' as <-.
           destruct Hp as [n Hp]. apply lookup_lt_Some in Hp. naive_solver.
Qed.

End Steps.
