(* ===== verification/MqttSettings.v ===== *)
(** * Settings and errors of the MQTT target

    What a new configuration changes, what happens to a message while there is no
    client, when a turn panics, how the counters of the connection follow the broker,
    that the text of a destination reads back, and that the output of the metrics does;
    a small target at the end. *)

From S2P Require Import Prelude Net Register Payload BmpMetrics BmpRouter Frim Manager Mqtt MqttLoops.
From Stdlib Require Import ZArith Lia.
From stdpp Require Import base numbers list gmap strings relations.

Local Open Scope Z_scope.

(** ** Reconfiguration *)

(** What the connection was made from. *)
Definition same_client (new old : Config) : Prop :=
  client_id new = client_id old /\ destination new = destination old /\ queue_size new = queue_size old.

#[local] Instance same_client_dec new old : Decision (same_client new old).
Proof. unfold same_client. apply _. Defined.

Lemma needs_reconnect_spec new old :
  needs_reconnect new old = if decide (same_client new old) then false else true.
Proof.
  unfold needs_reconnect, same_client. destruct (decide _) as [(-> & -> & ->)|Hn].
  - by rewrite !bool_decide_true.
  - destruct (bool_decide (client_id new = client_id old)) eqn:H1; [|done].
    destruct (bool_decide (destination new = destination old)) eqn:H2; [|done].
    destruct (bool_decide (queue_size new = queue_size old)) eqn:H3; [|done].
    apply bool_decide_eq_true in H1, H2, H3. by destruct Hn.
Qed.

(** C32: a new configuration takes effect at once in what is read for each message; the
    connection is replaced, by a new one with the new settings, exactly when the client
    id, the destination or the queue size differ, and otherwise kept: then its retry
    delay becomes that of the configuration that is replaced, and changed credentials
    are not used.  The messages that wait and the capacity of the queue stay. *)
Theorem reconfigure_decides sources new sent ok r :
  running r = true -> active (connection r) = true -> Forall (fun l => l = LinkUp) sources ->
  exists r',
    turn (BCommand (Some (TReconfigure sources new)) sent ok) r = Some r'
    /\ config r' = new /\ pub_q r' = pub_q r /\ pub_q_capacity r' = pub_q_capacity r
    /\ if decide (same_client new (config r))
       then mqtt_options (connection r') = mqtt_options (connection r)
            /\ conn_state (connection r') = conn_state (connection r)
            /\ retry_delay (connection r') = connect_retry_secs (config r)
       else connection r' = connect new /\ stored_client r' = None.
Proof.
  intros Hrun Hact Hsrc. pose proof (needs_reconnect_spec new (config r)) as Hnr. unfold turn, branch.
  assert (Hs : existsb (fun l => match l with GateGone => true | LinkUp => false end) sources = false).
  { induction Hsrc as [|l ls -> _ IH]; [done|exact IH]. }
  set (r1 := process_cancel sent (process_start r)).
  assert (H1 : config r1 = config r /\ pub_q r1 = pub_q r /\ pub_q_capacity r1 = pub_q_capacity r
    /\ running r1 = true /\ connection r1 = connection r).
  { unfold r1, process_cancel, process_start. by destruct (conn_state (connection r)) eqn:Hc; cbn; rewrite ?Hc. }
  destruct H1 as (Hcf & Hq & Hcap & Hr1 & Hcon).
  unfold reconfigure. rewrite Hs, Hcf. cbn. rewrite Hnr.
  destruct (decide (same_client new (config r))); cbn.
  2:{ eexists. split; [done|].
    set (r2 := set_config new _).
    assert (H2 : conn_state (connection (disconnect ok r2)) = CStopped
      /\ config (disconnect ok r2) = new /\ pub_q (disconnect ok r2) = pub_q r
      /\ pub_q_capacity (disconnect ok r2) = pub_q_capacity r /\ running (disconnect ok r2) = true).
    { split; [apply disconnect_loops|]. unfold disconnect.
      destruct (conn_state (connection r2)), ok; cbn; by rewrite ?Hq, ?Hcap, ?Hr1. }
    destruct H2 as (Hst & Hcf2 & Hq2 & Hcap2 & Hrun2).
    unfold next_connection. rewrite Hrun2. unfold active. rewrite Hst.
    cbn [andb negb config pub_q pub_q_capacity connection stored_client set_connection set_client].
    by rewrite Hcf2. }
  eexists. split; [done|]. unfold next_connection. cbn. rewrite Hr1. unfold active in *. cbn.
  rewrite Hcon. destruct (conn_state (connection r)) eqn:Hc; cbn; rewrite ?Hq, ?Hcap, ?Hcon, ?Hc; done.
Qed.

(** ** Messages without a client *)

(** A message that is taken before the client is there is given to nobody, and is
    counted as published. *)
Theorem unsent_counted_published a sent msg q r :
  running r = true -> conn_state (connection r) = CNew -> pub_q r = msg :: q ->
  (qos (config r) = 0 \/ qos (config r) = 1 \/ qos (config r) = 2) ->
  exists r',
    turn (BMessage a sent) r = Some r'
    /\ attempts r' = attempts r ++ [(msg, None)]
    /\ publish_error_count (r_metrics r') = publish_error_count (r_metrics r)
    /\ topics (r_metrics r') = topics (sr_publish_ok (topic msg) (r_metrics r)).
Proof.
  intros Hrun Hc Hq Hqos. unfold turn, branch, process_cancel, process_start.
  rewrite Hc. cbn. rewrite Hc. cbn. rewrite Hq. unfold publish_msg, conn_client. cbn. rewrite Hc.
  unfold do_publish. rewrite bool_decide_true by done. cbn.
  eexists. split; [done|]. unfold next_connection. cbn. rewrite Hrun. unfold active. cbn. by rewrite Hc.
Qed.

(** ** Panics *)

(** A turn panics exactly when a link of the new sources has no gate any more, or when
    a message is published with a quality of service that MQTT does not have, which the
    configuration accepts. *)
Theorem turn_panics_exactly b r :
  turn b r = None
  <-> (exists sources new sent ok, b = BCommand (Some (TReconfigure sources new)) sent ok
                                   /\ GateGone ∈ sources)
      \/ (exists a sent, b = BMessage a sent /\ pub_q r <> []
                         /\ ~ (qos (config r) = 0 \/ qos (config r) = 1 \/ qos (config r) = 2)).
Proof.
  assert (Hturn : turn b r = None <-> branch b r = None).
  { unfold turn. by destruct (branch b r). }
  rewrite Hturn. clear Hturn. unfold branch. destruct b as [p|[[sources new| |]|] sent ok|a sent];
    try (split; [done|]; intros [(? & ? & ? & ? & [=] & _)|(? & ? & [=] & _)]).
  - unfold reconfigure.
    assert (Hex : existsb (fun l => match l with GateGone => true | LinkUp => false end) sources = true
                  <-> GateGone ∈ sources).
    { rewrite existsb_exists. split.
      - intros ([] & Hin & [=]). by apply list_elem_of_In.
      - intros Hin. exists GateGone. by split; [apply list_elem_of_In|]. }
    destruct (existsb _ sources); cbn.
    + split; [|done]. intros _. left. exists sources, new, sent, ok. split; [done|]. by apply Hex.
    + split; [done|]. intros [(? & ? & ? & ? & [= <- <- <- <-] & Hin)|(? & ? & [=] & _)].
      apply Hex in Hin. done.
  - set (r1 := process_cancel sent (process_start r)).
    assert (H1 : config r1 = config r /\ pub_q r1 = pub_q r).
    { unfold r1, process_cancel, process_start. by destruct (conn_state (connection r)) eqn:Hc; cbn; rewrite ?Hc. }
    destruct H1 as [Hcf Hq]. rewrite Hq. destruct (pub_q r) as [|msg q].
    + split; [done|]. by intros [(? & ? & ? & ? & [=] & _)|(? & ? & _ & ? & _)].
    + unfold publish_msg, do_publish. cbn [set_queue config connection]. rewrite Hcf.
      case_bool_decide as Hqos; cbn.
      * split; [done|]. by intros [(? & ? & ? & ? & [=] & _)|(? & ? & _ & _ & ?)].
      * split; [|done]. intros _. right. by exists a, sent.
Qed.

(** ** The counters of the connection *)

(** The counters after a task has seen these results of [poll]. *)
Fixpoint after_polls (rs : list (PollResult * Z)) (n : Z) (m : MqttMetrics) : Z * MqttMetrics :=
  match rs with
  | [] => (n, m)
  | (res, inflight) :: rs =>
      let '(n, m, _) := event_loop_turn res inflight n m in after_polls rs n m
  end.

Definition is_failure (res : PollResult) : bool :=
  match res with ConnAckFailure | PollError => true | _ => false end.

(** The last result that says whether the connection is up. *)
Fixpoint last_up (up : bool) (rs : list PollResult) : bool :=
  match rs with
  | [] => up
  | ConnAckSuccess :: rs => last_up true rs
  | OtherEvent :: rs => last_up up rs
  | _ :: rs => last_up false rs
  end.

(** The failures after the first success. *)
Fixpoint later_failures (connected : bool) (rs : list PollResult) : Z :=
  match rs with
  | [] => 0
  | ConnAckSuccess :: rs => later_failures true rs
  | res :: rs => (if connected && is_failure res then 1 else 0) + later_failures connected rs
  end.

Lemma after_polls_spec rs n m :
  0 <= n -> (n = 0 -> connection_established_state m = false) ->
  let m' := (after_polls rs n m).2 in
  connection_established_state m' = last_up (connection_established_state m) rs.*1
  /\ connection_lost_count m' mod 2 ^ 64
     = (connection_lost_count m + later_failures (0 <? n) rs.*1) mod 2 ^ 64.
Proof.
  cbn zeta. revert n m. induction rs as [|[res inflight] rs IH]; intros n m Hn Hup.
  { cbn. split; [done|]. by rewrite Z.add_0_r. }
  cbn [after_polls fmap list_fmap fst]. unfold event_loop_turn.
  destruct res; cbn [andb]; cbn [is_failure last_up later_failures].
  - destruct (IH (n + 1) (sr_inflight_update inflight (sr_established true m))) as [-> ->]; [lia|lia|].
    cbn [sr_inflight_update sr_established connection_established_state connection_lost_count].
    by replace (0 <? n + 1) with true by (symmetry; apply Z.ltb_lt; lia).
  - destruct (0 <? n) eqn:Hz; cbn [andb].
    + destruct (IH n (sr_reconnecting (sr_inflight_update inflight (sr_connection_error m)))) as [-> ->]; [done|done|].
      cbn [sr_reconnecting sr_inflight_update sr_connection_error connection_established_state connection_lost_count].
      split; [done|]. rewrite Hz. unfold fetch_add, wrap. rewrite Z.add_mod_idemp_l by lia. f_equal. lia.
    + apply Z.ltb_ge in Hz. assert (n = 0) as -> by lia.
      destruct (IH 0 (sr_inflight_update inflight (sr_connection_error m))) as [-> ->]; [lia|done|].
      cbn [sr_inflight_update sr_connection_error connection_established_state connection_lost_count].
      by rewrite Hup.
  - destruct (IH n (sr_inflight_update inflight m)) as [-> ->]; [done|done|].
    cbn [sr_inflight_update connection_established_state connection_lost_count].
    split; [done|]. by rewrite andb_false_r.
  - destruct (0 <? n) eqn:Hz; cbn [andb].
    + destruct (IH n (sr_reconnecting (sr_inflight_update inflight (sr_connection_error m)))) as [-> ->]; [done|done|].
      cbn [sr_reconnecting sr_inflight_update sr_connection_error connection_established_state connection_lost_count].
      split; [done|]. rewrite Hz. unfold fetch_add, wrap. rewrite Z.add_mod_idemp_l by lia. f_equal. lia.
    + apply Z.ltb_ge in Hz. assert (n = 0) as -> by lia.
      destruct (IH 0 (sr_inflight_update inflight (sr_connection_error m))) as [-> ->]; [lia|done|].
      cbn [sr_inflight_update sr_connection_error connection_established_state connection_lost_count].
      by rewrite Hup.
Qed.

(** A task's reports: the connection is shown as established exactly when the last
    success came after the last failure; and the number of lost connections is that of
    the failures after the first success, the failed attempts to reconnect included. *)
Theorem connection_reported rs :
  let m := (after_polls rs 0 mqtt_metrics_new).2 in
  connection_established_state m = last_up false rs.*1
  /\ connection_lost_count m mod 2 ^ 64 = later_failures false rs.*1 mod 2 ^ 64.
Proof. cbn zeta. destruct (after_polls_spec rs 0 mqtt_metrics_new) as [H1 H2]; [lia|done|done]. Qed.

(** ** Destinations *)

Lemma parse_digits_snoc acc s d :
  0 <= d <= 9 ->
  parse_digits acc (s ++ [48 + d])
  = match parse_digits acc s with
    | Some v => if v * 10 + d <=? usize_max then Some (v * 10 + d) else None
    | None => None
    end.
Proof.
  intros Hd. revert acc. induction s as [|c s IH]; intros acc; cbn [app parse_digits].
  - unfold digit. replace ((48 <=? 48 + d) && (48 + d <=? 57)) with true
      by (symmetry; apply andb_true_iff; rewrite !Z.leb_le; lia).
    replace (48 + d - 48) with d by lia. done.
  - destruct (digit c) as [x|]; [|done]. destruct (acc * 10 + x <=? usize_max); [apply IH|done].
Qed.

Lemma parse_decimal fuel n :
  0 <= n < 10 ^ Z.of_nat fuel -> n <= usize_max -> parse_digits 0 (decimal fuel n) = Some n.
Proof.
  revert n. induction fuel as [|fuel IH]; intros n Hn Hmax.
  { cbn in Hn. replace n with 0 by lia. done. }
  cbn [decimal]. pose proof (Z.mod_pos_bound n 10). pose proof (Z.div_mod n 10).
  rewrite parse_digits_snoc by lia. destruct (n <? 10) eqn:Hs.
  - apply Z.ltb_lt in Hs. cbn [parse_digits]. rewrite Z.mod_small, Z.mul_0_l, Z.add_0_l by lia.
    by replace (n <=? usize_max) with true by (symmetry; apply Z.leb_le; lia).
  - apply Z.ltb_ge in Hs. rewrite IH.
    + replace (n / 10 * 10 + n mod 10) with n by lia.
      by replace (n <=? usize_max) with true by (symmetry; apply Z.leb_le; lia).
    + rewrite Nat2Z.inj_succ, Z.pow_succ_r in Hn by lia. split; [lia|].
      apply Z.div_lt_upper_bound; lia.
    + lia.
Qed.

Lemma decimal_first fuel n : 0 <= n -> exists c s, decimal (S fuel) n = c :: s /\ 48 <= c <= 57.
Proof.
  revert n. induction fuel as [|fuel IH]; intros n Hn; pose proof (Z.mod_pos_bound n 10).
  - exists (48 + n mod 10), []. cbn [decimal]. destruct (n <? 10); split; [done|lia|done|lia].
  - change (decimal (S (S fuel)) n)
      with ((if n <? 10 then [] else decimal (S fuel) (n / 10)) ++ [48 + n mod 10]).
    destruct (n <? 10); [exists (48 + n mod 10), []; split; [done|lia]|].
    destruct (IH (n / 10)) as (c & s & -> & Hc); [apply Z.div_pos; lia|]. by eexists c, _.
Qed.

Lemma parse_usize_digits c s : 48 <= c -> parse_usize (c :: s) = parse_digits 0 (c :: s).
Proof.
  intros Hc. unfold parse_usize. destruct c as [|p|p]; [done| |done].
  do 6 (destruct p as [p|p|]; try done; try lia).
Qed.

Lemma split_once_text h p : colon ∉ h -> split_once colon (h ++ colon :: p) = Some (h, p).
Proof.
  induction h as [|c h IH]; cbn [app split_once]; [by rewrite Z.eqb_refl|].
  rewrite not_elem_of_cons. intros [Hc Hh].
  replace (c =? colon) with false by (symmetry; apply Z.eqb_neq; congruence).
  by rewrite IH.
Qed.

(** The text of a destination is read back as that destination; a host that contains a
    colon, as an IPv6 address does, has no such text. *)
Theorem destination_roundtrip d :
  host d <> [] -> colon ∉ host d -> 0 <= port d <= u16_max ->
  destination_try_from (destination_text d) = inr d.
Proof.
  intros Hh Hc Hp. unfold destination_try_from, destination_text.
  change ([colon] ++ ?x) with (colon :: x). rewrite split_once_text by done.
  unfold u16_max in Hp. assert (Hparse : parse_u16 (decimal 5 (port d)) = Some (port d)).
  { unfold parse_u16. destruct (decimal_first 4 (port d)) as (c & s & He & Hcs); [lia|].
    rewrite He, parse_usize_digits, <- He, parse_decimal by (unfold usize_max; cbn; lia).
    replace (port d <=? u16_max) with true by (symmetry; apply Z.leb_le; unfold u16_max; lia). done. }
  rewrite Hparse. by destruct d as [[|] ?].
Qed.

(** ** What the MQTT target reports ([src/targets/mqtt/metrics.rs])

    The metrics of the target and the text of its node in the graph.  The output of a
    target reads back as its counters. *)
From S2P Require Import Metrics MetricsText MetricsUnits MetricsProps Mqtt.

Local Open Scope Z_scope.

Definition CONNECTION_ESTABLISHED_METRIC : Metric :=
  metric_new (str "mqtt_target_connection_established")
    (str "the state of the connection to the MQTT broker: 0=down, 1=up") Gauge State.
Definition MQTT_CONNECTION_LOST_COUNT_METRIC : Metric :=
  metric_new (str "mqtt_target_connection_lost_count")
    (str "the number of times the connection to the MQTT broker was lost") Counter Total.
Definition CONNECTION_ERROR_COUNT_METRIC : Metric :=
  metric_new (str "mqtt_target_connection_error_count")
    (str "the number of times an error occurred with the connection to the MQTT broker") Counter Total.
Definition PUBLISH_COUNT_PER_TOPIC_METRIC : Metric :=
  metric_new (str "mqtt_target_publish_count")
    (str "the number of messages requested for publication to the MQTT broker per topic") Counter Total.
Definition PUBLISH_ERROR_COUNT_PER_TOPIC_METRIC : Metric :=
  metric_new (str "mqtt_target_publish_error_count")
    (str "the number of messages that could not be queued for publication") Counter Total.
Definition QUEUE_FULL_DROP_COUNT_METRIC : Metric :=
  metric_new (str "mqtt_target_queue_full_drop_count")
    (str "the number of messages dropped because the internal publish queue was full (broker slow or unreachable)")
    Counter Total.
Definition IN_FLIGHT_COUNT_PER_TOPIC_METRIC : Metric :=
  metric_new (str "mqtt_target_in_flight_count")
    (str "the number of messages requested for publication but not yet sent to the MQTT broker per topic")
    Gauge Total.

Definition bool_text (b : bool) : rstring := u64_text (if b then 1 else 0).

Definition append_topics (unit_name : rstring) (ts : list (rstring * Z)) (t : Target) : Target :=
  foldl (fun t e => append_labelled_metric unit_name (str "topic") e.1
                      PUBLISH_COUNT_PER_TOPIC_METRIC (u64_text e.2) t) t ts.

(** [Source for MqttMetrics]. *)
Definition mqtt_metrics_append (m : MqttMetrics) (unit_name : rstring) (t : Target) : Target :=
  let u := Some unit_name in
  let t := append_simple CONNECTION_ESTABLISHED_METRIC u (bool_text (connection_established_state m)) t in
  let t := append_simple MQTT_CONNECTION_LOST_COUNT_METRIC u (u64_text (connection_lost_count m)) t in
  let t := append_simple CONNECTION_ERROR_COUNT_METRIC u (u64_text (connection_error_count m)) t in
  let t := append_simple IN_FLIGHT_COUNT_PER_TOPIC_METRIC u (u64_text (in_flight_count m)) t in
  let t := append_simple PUBLISH_ERROR_COUNT_PER_TOPIC_METRIC u (u64_text (publish_error_count m)) t in
  let t := append_simple QUEUE_FULL_DROP_COUNT_METRIC u (u64_text (queue_full_drop_count m)) t in
  append_topics unit_name (topics m) t.

(** [GraphStatus for MqttMetrics]. *)
Definition status_text (m : MqttMetrics) : rstring :=
  if connection_established_state m then
    str "in-flight: " ++ u64_text (in_flight_count m) ++ [10]
    ++ str "published: " ++ u64_text (zsum (topics m).*2) ++ [10]
    ++ str "errors: " ++ u64_text (publish_error_count m)
  else str "N/A".

Definition mqtt_okay (m : MqttMetrics) : option bool := Some (connection_established_state m).

(** ** The output reads back *)

Definition topic_call (u : rstring) (e : rstring * Z) : Call :=
  labelled_call PUBLISH_COUNT_PER_TOPIC_METRIC u [(str "topic", e.1)] (u64_text e.2).

Definition mqtt_calls (m : MqttMetrics) (u : rstring) : list Call :=
  [simple_call CONNECTION_ESTABLISHED_METRIC u (bool_text (connection_established_state m));
   simple_call MQTT_CONNECTION_LOST_COUNT_METRIC u (u64_text (connection_lost_count m));
   simple_call CONNECTION_ERROR_COUNT_METRIC u (u64_text (connection_error_count m));
   simple_call IN_FLIGHT_COUNT_PER_TOPIC_METRIC u (u64_text (in_flight_count m));
   simple_call PUBLISH_ERROR_COUNT_PER_TOPIC_METRIC u (u64_text (publish_error_count m));
   simple_call QUEUE_FULL_DROP_COUNT_METRIC u (u64_text (queue_full_drop_count m))]
  ++ (topic_call u <$> topics m).

Lemma append_topics_calls u ts t : append_topics u ts t = calls_append (topic_call u <$> ts) t.
Proof.
  revert t. induction ts as [|e ts IH]; intros t; [done|].
  unfold append_topics, calls_append in *. cbn [foldl fmap list_fmap]. apply IH.
Qed.

Lemma append_simple_call metric u v t :
  append_simple metric (Some u) v t = call_append (simple_call metric u v) t.
Proof. reflexivity. Qed.

Lemma mqtt_append_calls m u t : mqtt_metrics_append m u t = calls_append (mqtt_calls m u) t.
Proof.
  unfold mqtt_metrics_append, mqtt_calls. rewrite append_topics_calls, calls_append_app.
  rewrite !append_simple_call. unfold calls_append at 3. cbn [foldl]. reflexivity.
Qed.

Lemma mqtt_calls_ok m u :
  label_ok u -> Forall label_ok (topics m).*1 -> Forall call_ok (mqtt_calls m u).
Proof.
  intros Hu Ht. apply Forall_app. split.
  - unfold bool_text.
    repeat (apply Forall_cons; split; [apply simple_call_ok; metric_texts|]). apply Forall_nil. done.
  - apply Forall_forall. intros c (e & -> & He)%list_elem_of_fmap.
    apply labelled_call_ok; [metric_texts..| |metric_texts].
    constructor; [|constructor]. split; [by apply name_text|].
    refine (proj1 (Forall_forall _ _) Ht _ _). apply list_elem_of_fmap. eauto.
Qed.

(** The output of a target, for names of topics that need no escaping, reads back as its
    counters: the six of the target and the one of each topic. *)
Theorem mqtt_metrics_reported m u :
  label_ok u -> Forall label_ok (topics m).*1 ->
  read_text (into_string (mqtt_metrics_append m u (target_new Prometheus)))
  = Some (mqtt_calls m u ≫= call_lines).
Proof.
  intros Hu Ht. rewrite mqtt_append_calls. by apply metrics_read_back_lines, mqtt_calls_ok.
Qed.

(** ** A small MQTT target

    A target with a queue of one message: it receives two messages before its client is
    there, loses one of them to the full queue and gives the other to nobody. *)
From S2P Require Import MqttProps.

Local Open Scope Z_scope.

#[local] Existing Instances Demo.extern demo_layout.

Module MqttDemo.

Definition broker : Destination := mk_destination (str "broker") 1883.
Definition conf : Config := mk_config broker 1 (str "id") default_topic_template 60 5 1 None None.
Definition faster : Config := mk_config broker 1 (str "id") default_topic_template 10 5 1 None None.

Definition as_json (_ : option IngressInfo) (_ : OutputStreamMessageRecord) : option rstring :=
  Some (str "[]").

Definition two : Update := OutputStream [osm_custom 1 1 None; osm_custom 1 2 None].

Abbreviation demo_step := (step as_json (str "mqtt") register_new).

(** Both messages, then the one that was taken is published. *)
Definition r1 : Runner := direct_update as_json (str "mqtt") register_new 0 two (runner_new conf).
Definition r2 : Runner := default r1 (turn (BMessage (Some true) false) r1).

Lemma r2_reachable : reachable as_json (str "mqtt") register_new conf r2.
Proof.
  apply (rtc_l _ _ r1); [apply step_update|]. apply rtc_once.
  by apply (step_turn _ _ _ (BMessage (Some true) false)).
Qed.

(** A command arrives when the client is on its way, and a second client is taken. *)
Definition r3 : Runner := default r1 (turn (BCommand (Some TReportLinks) true true) (runner_new conf)).
Definition r4 : Runner := default r1 (turn (BProcess HandedOver) r3).

Lemma r4_reachable : reachable as_json (str "mqtt") register_new conf r4.
Proof.
  apply (rtc_l _ _ r3).
  - by apply (step_turn _ _ _ (BCommand (Some TReportLinks) true true)).
  - apply rtc_once. by apply (step_turn _ _ _ (BProcess HandedOver)).
Qed.

(** The first client is taken. *)
Definition r5 : Runner := default r1 (turn (BProcess HandedOver) (runner_new conf)).

End MqttDemo.

(** Two tasks poll the broker, and only the second has an owner. *)
Lemma two_tasks_poll :
  loops MqttDemo.r4 = [Polling 0; Polling 0] /\ conn_client (connection MqttDemo.r4) = Some 1%nat.
Proof. by vm_compute. Qed.

Lemma messages_accounted_witness :
  zlen (attempts MqttDemo.r2) = 1
  /\ (attempts MqttDemo.r2).*1 ++ pub_q MqttDemo.r2 = accepted (offered MqttDemo.r2)
  /\ queue_full_drop_count (r_metrics MqttDemo.r2) = 1.
Proof.
  split; [vm_compute; reflexivity|].
  destruct (messages_accounted MqttDemo.as_json (str "mqtt") register_new MqttDemo.conf MqttDemo.r2
    MqttDemo.r2_reachable) as (H1 & _ & H3 & _).
  split; [exact H1|]. rewrite H3. vm_compute. reflexivity.
Defined.

Lemma orphan_never_ends_witness :
  forall r, rtc MqttDemo.demo_step MqttDemo.r4 r -> orphan 0 r.
Proof.
  intros r Hr. apply (orphan_never_ends MqttDemo.as_json (str "mqtt") register_new 0 MqttDemo.r4 r Hr).
  split; [by exists 0|]. vm_compute. discriminate.
Defined.

Lemma one_task_polls_witness : owned MqttDemo.r5.
Proof.
  apply (one_task_polls MqttDemo.as_json (str "mqtt") register_new MqttDemo.conf), rtc_once.
  by apply (ps_turn _ _ _ (BProcess HandedOver)).
Defined.

Lemma reconfigure_decides_witness :
  exists r', turn (BCommand (Some (TReconfigure [LinkUp] MqttDemo.faster)) false true) MqttDemo.r5 = Some r'
             /\ retry_delay (connection r') = 60.
Proof.
  destruct (reconfigure_decides [LinkUp] MqttDemo.faster false true MqttDemo.r5)
    as (r' & H & _ & _ & _ & Hd); [reflexivity|reflexivity|repeat constructor|].
  exists r'. split; [exact H|].
  rewrite decide_True in Hd by (by vm_compute). destruct Hd as (_ & _ & ->). vm_compute. reflexivity.
Defined.

Lemma unsent_counted_published_witness :
  exists r', turn (BMessage None false) MqttDemo.r1 = Some r'
             /\ topics (r_metrics r') = [(str "rotonda/custom", 1)].
Proof.
  destruct (unsent_counted_published None false (mk_msg 0 (str "[]") (str "rotonda/custom")) [] MqttDemo.r1)
    as (r' & H & _ & _ & Ht); [by vm_compute..|by right; left|].
  exists r'. split; [exact H|]. rewrite Ht. by vm_compute.
Defined.

Lemma destination_roundtrip_witness :
  destination_try_from (destination_text MqttDemo.broker) = inr MqttDemo.broker.
Proof.
  apply (destination_roundtrip MqttDemo.broker); [done| |cbn; unfold u16_max; lia].
  apply (bool_decide_eq_false_1 (colon ∈ host MqttDemo.broker)). reflexivity.
Defined.
