(* ===== verification/Roto.v ===== *)
(** * What a Roto script can call ([src/roto_runtime/runtime.rs], [lists.rs], [metrics.rs],
    the output stream of [types.rs])

    The methods that [create_runtime] registers, one definition each, on routes, BGP
    updates, BMP messages, the output stream, log entries, lists and metrics.  A log
    entry is shared between the stream and the script, so that entries are kept in a
    store and handed out by reference.  [None] of an option that is not part of the
    answer is a panic. *)

From S2P Require Import Prelude Net Register Payload BmpRouter Rtr WebText.
From Stdlib Require Import ZArith Lia.
From stdpp Require Import base numbers list gmap strings.

Local Open Scope Z_scope.

(** ** What routecore and inetnum parse and print *)

(** [routecore::bgp::aspath::Hop]. *)
Inductive Hop : Type :=
| HopAsn (a : Asn)
| HopSegment (text : rstring).

#[export] Instance Hop_eq_dec : EqDecision Hop.
Proof. solve_decision. Defined.

Class RotoView := {
  Community : Type;
  Community_eq_dec :: EqDecision Community;
  LargeCommunity : Type;
  LargeCommunity_eq_dec :: EqDecision LargeCommunity;
  BgpUpdate : Type;

  (** of an UPDATE; [None] where it does not parse or has no such attribute *)
  u_attribute_codes : BgpUpdate -> option (list (option Z));
  u_communities : BgpUpdate -> option (list Community);
  u_large_communities : BgpUpdate -> option (list LargeCommunity);
  u_aspath : BgpUpdate -> option (list Hop);
  u_announcements : BgpUpdate -> option Z;
  u_withdrawals : BgpUpdate -> option Z;
  u_conventional_announcements : BgpUpdate -> option Z;
  u_conventional_withdrawals : BgpUpdate -> option Z;
  u_mp_announcements : BgpUpdate -> option (AfiSafiType * Z);
  u_mp_withdrawals : BgpUpdate -> option (AfiSafiType * Z);

  (** of the stored attributes of a route *)
  o_hop_path : OwnedPathAttributes -> option (list Hop);
  o_communities : OwnedPathAttributes -> option (list Community);
  o_large_communities : OwnedPathAttributes -> option (list LargeCommunity);
  o_attribute_codes : OwnedPathAttributes -> list (option Z);
  o_otc : OwnedPathAttributes -> option Asn;

  r_asn_text : Asn -> rstring;
  r_path_text : list Hop -> rstring;
  r_community_text : Community -> rstring;
  r_large_community_text : LargeCommunity -> rstring;
  community_from_u32 : Z -> Community;
  community_to_u32 : Community -> Z;
  large_community_from_bytes : list Z -> LargeCommunity;
  parse_community : rstring -> option Community;
  parse_large_community : rstring -> option LargeCommunity;
  parse_asn : rstring -> option Asn
}.

(** The same for the prefixes of [Extern]. *)
Class PrefixView `{E : Extern} := {
  r_prefix_text : Prefix -> rstring;
  parse_prefix : rstring -> option Prefix;
  prefix_covers : Prefix -> Prefix -> bool
}.

(** [AsPath::origin]: the right-most hop; [try_single_sequence_iter] fails where a hop
    is not an AS number. *)
Definition path_origin (p : list Hop) : option Hop := last p.

Definition hop_asn (h : Hop) : option Asn :=
  match h with HopAsn a => Some a | HopSegment _ => None end.

Definition single_sequence (p : list Hop) : option (list Asn) := mapM hop_asn p.

(** The AS number that a path, if there is one, originates from. *)
Definition path_asn_origin (p : option (list Hop)) : option Asn :=
  match p with Some p => path_origin p ≫= hop_asn | None => None end.

Section Methods.
Context `{RV : RotoView}.

(** ** On BGP updates *)

Definition has_attribute (u : BgpUpdate) (code : Z) : bool :=
  match u_attribute_codes u with
  | Some codes => existsb (fun c => bool_decide (c = Some code)) codes
  | None => false
  end.

Definition contains_community (u : BgpUpdate) (c : Community) : bool :=
  match u_communities u with Some l => bool_decide (c ∈ l) | None => false end.

Definition contains_large_community (u : BgpUpdate) (c : LargeCommunity) : bool :=
  match u_large_communities u with Some l => bool_decide (c ∈ l) | None => false end.

Definition aspath_contains (u : BgpUpdate) (a : Asn) : bool :=
  match u_aspath u with Some p => bool_decide (HopAsn a ∈ p) | None => false end.

Definition aspath_origin (u : BgpUpdate) : option Asn :=
  match u_aspath u with Some p => path_origin p ≫= hop_asn | None => None end.

Definition match_aspath_origin (u : BgpUpdate) (a : Asn) : bool :=
  match u_aspath u with
  | Some p => bool_decide (path_origin p = Some (HopAsn a))
  | None => false
  end.

(** A count that does not fit in 32 bits is the largest number that does. *)
Definition count32 (n : option Z) : Z :=
  match n with Some n => if n <=? u32_max then n else u32_max | None => 0 end.

Definition announcements_count (u : BgpUpdate) : Z := count32 (u_announcements u).
Definition withdrawals_count (u : BgpUpdate) : Z := count32 (u_withdrawals u).

(** [_fmt_aspath] and [_fmt_aspath_origin]. *)
Definition fmt_hops (p : list Hop) : rstring :=
  match single_sequence p with
  | Some asns => join_with (str " ") (decimal 10 <$> asns)
  | None => r_path_text p
  end.

Definition fmt_hops_origin (p : list Hop) : rstring :=
  match path_origin p ≫= hop_asn with Some a => r_asn_text a | None => [] end.

Definition fmt_aspath (u : BgpUpdate) : rstring :=
  match u_aspath u with Some p => fmt_hops p | None => [] end.
Definition fmt_aspath_origin (u : BgpUpdate) : rstring :=
  match u_aspath u with Some p => fmt_hops_origin p | None => [] end.
Definition fmt_communities (u : BgpUpdate) : rstring :=
  match u_communities u with
  | Some l => join_with (str ", ") (r_community_text <$> l)
  | None => []
  end.
Definition fmt_large_communities (u : BgpUpdate) : rstring :=
  match u_large_communities u with
  | Some l => join_with (str ", ") (r_large_community_text <$> l)
  | None => []
  end.

(** [{:02x}] and [fmt_pcap]. *)
Definition hex_digit_of (d : Z) : Z := if d <? 10 then 48 + d else 87 + d.
Definition hex2 (b : Z) : rstring := [hex_digit_of (b / 16); hex_digit_of (b mod 16)].
Definition fmt_pcap (buf : list Z) : rstring := str "000000 " ++ (buf ≫= fun b => hex2 b ++ [32]).

(** ** On BMP messages *)

(** A BMP message as the methods see it: a route monitoring message with the AS number
    of its header and the update in it, if that parses. *)
Inductive BmpView : Type :=
| VRouteMonitoring (asn : Asn) (upd : option BgpUpdate)
| VStatisticsReport (asn : Asn)
| VPeerDown (asn : Asn)
| VPeerUp (asn : Asn)
| VRouteMirroring (asn : Asn)
| VInitiation
| VTermination.

Definition is_ibgp (m : BmpView) (asn : Asn) : bool :=
  match m with
  | VRouteMonitoring a _ | VStatisticsReport a | VPeerDown a | VPeerUp a | VRouteMirroring a =>
      bool_decide (asn = a)
  | VInitiation | VTermination => false
  end.

Definition is_route_monitoring (m : BmpView) : bool :=
  match m with VRouteMonitoring _ _ => true | _ => false end.
Definition is_peer_down (m : BmpView) : bool := match m with VPeerDown _ => true | _ => false end.
Definition is_peer_up (m : BmpView) : bool := match m with VPeerUp _ => true | _ => false end.

(** The update of a message, and what a method answers where there is none. *)
Definition bmp_update (m : BmpView) : option BgpUpdate :=
  match m with VRouteMonitoring _ (Some u) => Some u | _ => None end.

Definition on_update {A} (m : BmpView) (none : A) (f : BgpUpdate -> A) : A :=
  match bmp_update m with Some u => f u | None => none end.

Definition bmp_aspath_contains m a := on_update m false (fun u => aspath_contains u a).
Definition bmp_aspath_origin m := on_update m None aspath_origin.
Definition bmp_match_aspath_origin m a := on_update m false (fun u => match_aspath_origin u a).
Definition bmp_contains_community m c := on_update m false (fun u => contains_community u c).
Definition bmp_contains_large_community m c :=
  on_update m false (fun u => contains_large_community u c).
Definition bmp_has_attribute m code := on_update m false (fun u => has_attribute u code).
Definition bmp_announcements_count m := on_update m 0 announcements_count.
Definition bmp_withdrawals_count m := on_update m 0 withdrawals_count.
Definition bmp_fmt_aspath m := on_update m [] fmt_aspath.
Definition bmp_fmt_aspath_origin m := on_update m [] fmt_aspath_origin.
Definition bmp_fmt_communities m := on_update m [] fmt_communities.
Definition bmp_fmt_large_communities m := on_update m [] fmt_large_communities.

(** ** On values *)
Definition community_from_str (s : rstring) : Community :=
  default (community_from_u32 0) (parse_community s).
Definition large_community_from_str (s : rstring) : LargeCommunity :=
  default (large_community_from_bytes (replicate 12 0)) (parse_large_community s).

(** ** On routes *)
Section Routes.
Context `{E : Extern} `{PV : !PrefixView}.

Definition route_prefix (r : RotondaRoute) : Prefix :=
  match r with
  | RR_Ipv4Unicast n _ | RR_Ipv6Unicast n _ | RR_Ipv4Multicast n _ | RR_Ipv6Multicast n _ => n
  end.

Definition prefix_matches (r : RotondaRoute) (p : Prefix) : bool := bool_decide (route_prefix r = p).

(** [owned_map]. *)
Definition owned_map (r : RotondaRoute) : option OwnedPathAttributes :=
  path_attributes (rotonda_pamap r).

Definition rr_aspath_contains (r : RotondaRoute) (a : Asn) : option bool :=
  pa ← owned_map r;
  Some (match o_hop_path pa with Some p => bool_decide (HopAsn a ∈ p) | None => false end).

Definition rr_match_aspath_origin (r : RotondaRoute) (a : Asn) : option bool :=
  pa ← owned_map r;
  Some (match o_hop_path pa with
        | Some p => match path_origin p with
                    | Some (HopAsn b) => bool_decide (b = a)
                    | _ => false
                    end
        | None => false
        end).

Definition rr_contains_community (r : RotondaRoute) (c : Community) : option bool :=
  pa ← owned_map r;
  Some (match o_communities pa with Some l => bool_decide (c ∈ l) | None => false end).

Definition rr_contains_large_community (r : RotondaRoute) (c : LargeCommunity) : option bool :=
  pa ← owned_map r;
  Some (match o_large_communities pa with Some l => bool_decide (c ∈ l) | None => false end).

Definition rr_has_attribute (r : RotondaRoute) (code : Z) : option bool :=
  pa ← owned_map r;
  Some (existsb (fun c => bool_decide (c = Some code)) (o_attribute_codes pa)).

Definition rr_fmt_prefix (r : RotondaRoute) : rstring := r_prefix_text (route_prefix r).

Definition rr_fmt_rov_status (r : RotondaRoute) : option rstring :=
  i ← rpki_info (rotonda_pamap r);
  Some (match rov i with
        | NotChecked => str "not-checked"
        | NotFound => str "not-found"
        | Valid => str "valid"
        | Invalid => str "invalid"
        end).

Definition rr_fmt_aspath (r : RotondaRoute) : option rstring :=
  pa ← owned_map r;
  Some (match o_hop_path pa with Some p => fmt_hops p | None => [] end).

Definition rr_fmt_aspath_origin (r : RotondaRoute) : option rstring :=
  pa ← owned_map r;
  Some (match o_hop_path pa with Some p => fmt_hops_origin p | None => [] end).

Definition rr_fmt_communities (r : RotondaRoute) : option rstring :=
  pa ← owned_map r;
  Some (match o_communities pa with
        | Some l => join_with (str ", ") (r_community_text <$> l)
        | None => []
        end).

Definition rr_fmt_large_communities (r : RotondaRoute) : option rstring :=
  pa ← owned_map r;
  Some (match o_large_communities pa with
        | Some l => join_with (str ", ") (r_large_community_text <$> l)
        | None => []
        end).

(** On the attributes of a route. *)
Definition pamap_otc (m : RotondaPaMap) : option (option Asn) := o_otc <$> path_attributes m.
Definition pamap_contains_community (m : RotondaPaMap) (c : Community) : option bool :=
  pa ← path_attributes m;
  Some (match o_communities pa with Some l => bool_decide (c ∈ l) | None => false end).
Definition pamap_contains_large_community (m : RotondaPaMap) (c : LargeCommunity) : option bool :=
  pa ← path_attributes m;
  Some (match o_large_communities pa with Some l => bool_decide (c ∈ l) | None => false end).
Definition pamap_aspath (m : RotondaPaMap) : option (option (list Hop)) :=
  o_hop_path <$> path_attributes m.
Definition hoppath_contains (p : list Hop) (a : Asn) : bool := bool_decide (HopAsn a ∈ p).

Definition set_pamap (m : RotondaPaMap) (r : RotondaRoute) : RotondaRoute :=
  match r with
  | RR_Ipv4Unicast n _ => RR_Ipv4Unicast n m
  | RR_Ipv6Unicast n _ => RR_Ipv6Unicast n m
  | RR_Ipv4Multicast n _ => RR_Ipv4Multicast n m
  | RR_Ipv6Multicast n _ => RR_Ipv6Multicast n m
  end.

(** [check_rov]; [check] is that of the RTR cache, for a prefix and an origin. *)
Definition roto_check_rov (check : Prefix -> Asn -> option RovStatus) (r : RotondaRoute)
  : option (RovStatus * RotondaRoute) :=
  match r with
  | RR_Ipv4Unicast p m | RR_Ipv6Unicast p m =>
      pa ← owned_map r;
      status ← (match path_asn_origin (o_hop_path pa) with
                | Some origin => check p origin
                | None => Some NotChecked
                end : option RovStatus);
      m ← set_rpki_info (mk_rpki status) m;
      Some (status, set_pamap m r)
  | _ => Some (NotChecked, r)
  end.

End Routes.

(** ** Validation results *)
Definition is_valid (s : RovStatus) : bool := bool_decide (s = Valid).
Definition is_invalid (s : RovStatus) : bool := bool_decide (s = Invalid).
Definition is_not_found (s : RovStatus) : bool := bool_decide (s = NotFound).

End Methods.
