(* ===== verification/RotoState.v ===== *)
(** * The state that Roto scripts work on ([src/roto_runtime/runtime.rs], [types.rs],
    [lists.rs], [metrics.rs])

    The output stream with its current log entry, the named lists, the metrics of a
    script, the cached information on an ingress, and the updates of the RPKI data. *)

From Stdlib Require Import ZArith Lia.
From stdpp Require Import base numbers list gmap fin_maps strings.
From S2P Require Import Prelude Net Register Payload BmpMetrics BmpRouter Metrics Manager WebText Roto.

Local Open Scope Z_scope.

(** ** The output stream and its entries

    An entry is a cell that the stream and the script share: [entries] is the store of
    the cells, and a handle is an index.  The stream's own entry is [os_entry]. *)
Section Stream.
Context `{E : Extern} `{RV : RotoView}.

Record OutputStream : Type := mk_stream {
  os_msgs : list Output;
  os_entries : list LogEntry;
  os_entry : nat
}.

(** [LogEntry::new], with the epoch as its time. *)
Definition log_entry_new : LogEntry := mk_log_entry 0 None None None 0 0 None None None None None.

Definition stream_new : OutputStream := mk_stream [] [log_entry_new] 0.

Definition stream_push (o : Output) (s : OutputStream) : OutputStream :=
  mk_stream (os_msgs s ++ [o]) (os_entries s) (os_entry s).

Definition stream_drain (s : OutputStream) : list Output * OutputStream :=
  (os_msgs s, mk_stream [] (os_entries s) (os_entry s)).

Definition stream_is_empty (s : OutputStream) : bool :=
  match os_msgs s with [] => true | _ => false end.

(** [entry] hands out the stream's cell. *)
Definition stream_entry (s : OutputStream) : nat := os_entry s.

(** [take_entry]: the stream gets a fresh cell. *)
Definition stream_take_entry (s : OutputStream) : nat * OutputStream :=
  (os_entry s, mk_stream (os_msgs s) (os_entries s ++ [log_entry_new]) (length (os_entries s))).

Definition log_prefix (p : Prefix) : OutputStream -> OutputStream := stream_push (O_Prefix p).
Definition log_asn (a : Asn) : OutputStream -> OutputStream := stream_push (O_Asn a).
Definition log_origin (a : Asn) : OutputStream -> OutputStream := stream_push (O_Origin a).
Definition log_community (c : Community) : OutputStream -> OutputStream :=
  stream_push (O_Community (community_to_u32 c)).
Definition log_peer_down : OutputStream -> OutputStream := stream_push O_PeerDown.
Definition log_custom (id local : Z) : OutputStream -> OutputStream := stream_push (O_Custom id local).

(** The methods of an entry change its cell. *)
Definition on_entry (h : nat) (f : LogEntry -> LogEntry) (s : OutputStream) : OutputStream :=
  mk_stream (os_msgs s) (alter f h (os_entries s)) (os_entry s).

Definition set_custom (msg : rstring) (e : LogEntry) : LogEntry :=
  mk_log_entry (le_timestamp e) (origin_as e) (peer_as e) (as_path_hops e) (conventional_reach e)
    (conventional_unreach e) (mp_reach e) (mp_reach_afisafi e) (mp_unreach e) (mp_unreach_afisafi e)
    (Some msg).

Definition set_timestamped_custom (now : Z) (msg : rstring) (e : LogEntry) : LogEntry :=
  mk_log_entry now (origin_as e) (peer_as e) (as_path_hops e) (conventional_reach e)
    (conventional_unreach e) (mp_reach e) (mp_reach_afisafi e) (mp_unreach e) (mp_unreach_afisafi e)
    (Some msg).

Definition with_origin_as (v : option Asn) (e : LogEntry) : LogEntry :=
  mk_log_entry (le_timestamp e) v (peer_as e) (as_path_hops e) (conventional_reach e)
    (conventional_unreach e) (mp_reach e) (mp_reach_afisafi e) (mp_unreach e) (mp_unreach_afisafi e)
    (le_custom e).
Definition with_peer_as (v : option Asn) (e : LogEntry) : LogEntry :=
  mk_log_entry (le_timestamp e) (origin_as e) v (as_path_hops e) (conventional_reach e)
    (conventional_unreach e) (mp_reach e) (mp_reach_afisafi e) (mp_unreach e) (mp_unreach_afisafi e)
    (le_custom e).
Definition with_hops (v : option Z) (e : LogEntry) : LogEntry :=
  mk_log_entry (le_timestamp e) (origin_as e) (peer_as e) v (conventional_reach e)
    (conventional_unreach e) (mp_reach e) (mp_reach_afisafi e) (mp_unreach e) (mp_unreach_afisafi e)
    (le_custom e).
Definition with_reach (v : Z) (e : LogEntry) : LogEntry :=
  mk_log_entry (le_timestamp e) (origin_as e) (peer_as e) (as_path_hops e) v
    (conventional_unreach e) (mp_reach e) (mp_reach_afisafi e) (mp_unreach e) (mp_unreach_afisafi e)
    (le_custom e).
Definition with_unreach (v : Z) (e : LogEntry) : LogEntry :=
  mk_log_entry (le_timestamp e) (origin_as e) (peer_as e) (as_path_hops e) (conventional_reach e)
    v (mp_reach e) (mp_reach_afisafi e) (mp_unreach e) (mp_unreach_afisafi e) (le_custom e).
Definition with_mp_reach (a : AfiSafiType) (v : Z) (e : LogEntry) : LogEntry :=
  mk_log_entry (le_timestamp e) (origin_as e) (peer_as e) (as_path_hops e) (conventional_reach e)
    (conventional_unreach e) (Some v) (Some a) (mp_unreach e) (mp_unreach_afisafi e) (le_custom e).
Definition with_mp_unreach (a : AfiSafiType) (v : Z) (e : LogEntry) : LogEntry :=
  mk_log_entry (le_timestamp e) (origin_as e) (peer_as e) (as_path_hops e) (conventional_reach e)
    (conventional_unreach e) (mp_reach e) (mp_reach_afisafi e) (Some v) (Some a) (le_custom e).

(** [origin_as]: left as it is where there is no AS number. *)
Definition set_origin_as (m : BmpView) (e : LogEntry) : LogEntry :=
  match on_update m None aspath_origin with
  | Some a => with_origin_as (Some a) e
  | None => e
  end.

Definition set_peer_as (m : BmpView) (e : LogEntry) : LogEntry :=
  match m with VRouteMonitoring asn _ => with_peer_as (Some asn) e | _ => e end.

Definition set_as_path_hops (m : BmpView) (e : LogEntry) : LogEntry :=
  on_update m e (fun u => with_hops (zlen <$> u_aspath u) e).

Definition set_conventional_reach (m : BmpView) (e : LogEntry) : LogEntry :=
  on_update m e (fun u => with_reach (default 0 (u_conventional_announcements u)) e).

Definition set_conventional_unreach (m : BmpView) (e : LogEntry) : LogEntry :=
  on_update m e (fun u => with_unreach (default 0 (u_conventional_withdrawals u)) e).

Definition set_mp_reach (m : BmpView) (e : LogEntry) : LogEntry :=
  on_update m e (fun u => match u_mp_announcements u with
                          | Some (a, n) => with_mp_reach a n e
                          | None => e
                          end).

Definition set_mp_unreach (m : BmpView) (e : LogEntry) : LogEntry :=
  on_update m e (fun u => match u_mp_withdrawals u with
                          | Some (a, n) => with_mp_unreach a n e
                          | None => e
                          end).

(** [log_all]. *)
Definition log_all (m : BmpView) (e : LogEntry) : LogEntry :=
  match m with
  | VRouteMonitoring asn upd =>
      let e := with_peer_as (Some asn) e in
      match upd with
      | Some u =>
          let e := match u_aspath u with
                   | Some p => with_origin_as (last p ≫= hop_asn) (with_hops (Some (zlen p)) e)
                   | None => e
                   end in
          let e := with_reach (default 0 (u_conventional_announcements u)) e in
          let e := with_unreach (default 0 (u_conventional_withdrawals u)) e in
          let e := match u_mp_announcements u with Some (a, n) => with_mp_reach a n e | None => e end in
          match u_mp_withdrawals u with Some (a, n) => with_mp_unreach a n e | None => e end
      | None => e
      end
  | _ => e
  end.

(** [write_entry]: the content of the cell is moved, or copied where the script still
    has a handle. *)
Definition write_entry (s : OutputStream) : OutputStream :=
  let '(h, s) := stream_take_entry s in
  match os_entries s !! h with
  | Some e => stream_push (O_Entry e) s
  | None => s
  end.

End Stream.

(** [MinimalLogEntry]: without the custom message. *)
Record MinimalLogEntry : Type := mk_minimal {
  ml_timestamp : Z;
  ml_origin_as : option Asn;
  ml_peer_as : option Asn;
  ml_as_path_hops : option Z;
  ml_conventional_reach : Z;
  ml_conventional_unreach : Z;
  ml_mp_reach : option Z;
  ml_mp_reach_afisafi : option AfiSafiType;
  ml_mp_unreach : option Z;
  ml_mp_unreach_afisafi : option AfiSafiType
}.

Definition into_minimal (e : LogEntry) : MinimalLogEntry :=
  mk_minimal (le_timestamp e) (origin_as e) (peer_as e) (as_path_hops e) (conventional_reach e)
    (conventional_unreach e) (mp_reach e) (mp_reach_afisafi e) (mp_unreach e) (mp_unreach_afisafi e).

(** ** Named lists *)

Definition ASN_LIST_COUNT : nat := 64.
Definition PREFIX_LIST_COUNT : nat := 64.

(** [char::is_whitespace]. *)
Definition is_whitespace (c : Z) : bool :=
  ((9 <=? c) && (c <=? 13)) || (c =? 32) || (c =? 133) || (c =? 160) || (c =? 5760)
  || ((8192 <=? c) && (c <=? 8202)) || (c =? 8232) || (c =? 8233) || (c =? 8239) || (c =? 8287)
  || (c =? 12288).

(** [str::split_whitespace]; [acc] is the word being read, backwards. *)
Fixpoint split_words (acc : rstring) (s : rstring) : list rstring :=
  match s with
  | [] => match acc with [] => [] | _ => [reverse acc] end
  | c :: s =>
      if is_whitespace c then
        match acc with [] => split_words [] s | _ => reverse acc :: split_words [] s end
      else split_words (c :: acc) s
  end.

Definition split_whitespace (s : rstring) : list rstring := split_words [] s.

(** The map of the [micromap] crate: it holds at most [cap] pairs, and an insertion that
    finds it full and the key absent fails. *)
Class MicroMap (cap : nat) (V : Type) := {
  MMap : Type;
  mm_default : MMap;
  mm_get : rstring -> MMap -> option V;
  mm_checked_insert : rstring -> V -> MMap -> option (option V) * MMap;
  mm_view : MMap -> gmap rstring V;

  mm_default_view : mm_view mm_default = ∅;
  mm_get_view k m : mm_get k m = mm_view m !! k;
  mm_insert_view k v m :
    (is_Some (mm_view m !! k) \/ (size (mm_view m) < cap)%nat) ->
    (mm_checked_insert k v m).1 = Some (mm_view m !! k)
    /\ mm_view (mm_checked_insert k v m).2 = <[k := v]> (mm_view m);
  mm_insert_full k v m :
    mm_view m !! k = None -> (cap <= size (mm_view m))%nat ->
    mm_checked_insert k v m = (None, m)
}.
Arguments MMap cap V {_}.

Section Lists.
Context `{RV : RotoView} `{E : Extern} `{PV : !PrefixView}.
Context `{AM : !MicroMap ASN_LIST_COUNT (list Asn)} `{PM : !MicroMap PREFIX_LIST_COUNT (list Prefix)}.

(** [FromStr]: words that do not parse are left out. *)
Definition asn_list_from_str (s : rstring) : list Asn := omap parse_asn (split_whitespace s).
Definition prefix_list_from_str (s : rstring) : list Prefix := omap parse_prefix (split_whitespace s).

Definition add_asn_list (name s : rstring) (m : MMap ASN_LIST_COUNT (list Asn))
  : MMap ASN_LIST_COUNT (list Asn) := (mm_checked_insert name (asn_list_from_str s) m).2.

Definition add_prefix_list (name s : rstring) (m : MMap PREFIX_LIST_COUNT (list Prefix))
  : MMap PREFIX_LIST_COUNT (list Prefix) := (mm_checked_insert name (prefix_list_from_str s) m).2.

Definition asn_list_contains (name : rstring) (a : Asn) (m : MMap ASN_LIST_COUNT (list Asn)) : bool :=
  match mm_get name m with Some l => bool_decide (a ∈ l) | None => false end.

Definition asn_list_contains_origin (name : rstring) (origin : option Asn)
    (m : MMap ASN_LIST_COUNT (list Asn)) : bool :=
  match origin with
  | Some a => match mm_get name m with Some l => bool_decide (a ∈ l) | None => false end
  | None => false
  end.

Definition prefix_list_contains (name : rstring) (p : Prefix)
    (m : MMap PREFIX_LIST_COUNT (list Prefix)) : bool :=
  match mm_get name m with Some l => bool_decide (p ∈ l) | None => false end.

Definition prefix_list_covers (name : rstring) (p : Prefix)
    (m : MMap PREFIX_LIST_COUNT (list Prefix)) : bool :=
  match mm_get name m with Some l => existsb (fun q => prefix_covers q p) l | None => false end.

End Lists.

(** ** The information on an ingress *)
Record IngressInfoCache : Type := mk_info_cache {
  ic_ingress_id : IngressId;
  ic_info : option IngressInfo
}.

Definition info_cache_new (id : IngressId) : IngressInfoCache := mk_info_cache id None.
Definition info_cache_for (id : IngressId) (i : IngressInfo) : IngressInfoCache :=
  mk_info_cache id (Some i).

(** [info]: read from the register once; an ingress that is not there is a panic. *)
Definition cache_info (reg : Register) (c : IngressInfoCache)
  : option (IngressInfo * IngressInfoCache) :=
  match ic_info c with
  | Some i => Some (i, c)
  | None => i ← get (ic_ingress_id c) reg; Some (i, mk_info_cache (ic_ingress_id c) (Some i))
  end.

Definition cache_peer_asn (reg : Register) (c : IngressInfoCache) : option (Asn * IngressInfoCache) :=
  r ← cache_info reg c; Some (default u32_max (remote_asn r.1), r.2).

Definition cache_peer_address (reg : Register) (c : IngressInfoCache)
  : option (IpAddr * IngressInfoCache) :=
  r ← cache_info reg c; Some (default (V6 0) (remote_addr r.1), r.2).

(** ** Metrics of a script *)
Record RotoMetrics : Type := mk_roto_metrics {
  rm_counters : gmap rstring Z;
  rm_gauges : gmap rstring Z
}.

Definition roto_metrics_default : RotoMetrics := mk_roto_metrics ∅ ∅.

(** Under the write lock. *)
Definition rm_inc_counter (name : rstring) (v : Z) (m : RotoMetrics) : RotoMetrics :=
  mk_roto_metrics (<[name := match rm_counters m !! name with
                             | Some old => fetch_add old v
                             | None => v
                             end]> (rm_counters m)) (rm_gauges m).

Definition rm_set_gauge (name : rstring) (v : Z) (m : RotoMetrics) : RotoMetrics :=
  mk_roto_metrics (rm_counters m) (<[name := v]> (rm_gauges m)).

(** Under the read lock: [None] where the name is not there yet. *)
Definition rm_try_inc_counter (name : rstring) (v : Z) (m : RotoMetrics) : option RotoMetrics :=
  match rm_counters m !! name with
  | Some old => Some (mk_roto_metrics (<[name := fetch_add old v]> (rm_counters m)) (rm_gauges m))
  | None => None
  end.

Definition rm_try_set_gauge (name : rstring) (v : Z) (m : RotoMetrics) : option RotoMetrics :=
  match rm_gauges m !! name with
  | Some _ => Some (mk_roto_metrics (rm_counters m) (<[name := v]> (rm_gauges m)))
  | None => None
  end.

(** Where a call of [increase_counter] stands: before it looks for the name, after it has
    given the read lock back without finding it, or returned. *)
Inductive IncPc : Type := IncStart | IncMiss | IncDone.

(** The next step of a call of [increase_counter] by a script: what it does under one lock.
    Between its two steps the calls of other scripts may come. *)
Definition increase_counter (name : rstring) (value : Z) (pc : IncPc) (m : RotoMetrics)
  : IncPc * RotoMetrics :=
  match pc with
  | IncStart =>
      if value =? 0 then (IncDone, m)
      else match rm_try_inc_counter name value m with
           | Some m => (IncDone, m)
           | None => (IncMiss, m)
           end
  | IncMiss => (IncDone, rm_inc_counter name value m)
  | IncDone => (IncDone, m)
  end.

(** [set_gauge] of a script, by one thread. *)
Definition roto_set_gauge (name : rstring) (v : Z) (m : RotoMetrics) : RotoMetrics :=
  match rm_try_set_gauge name v m with
  | Some m => m
  | None => rm_set_gauge name v m
  end.

(** [Source for RotoMetricsWrapper]. *)
Fixpoint str_lt (a b : rstring) : bool :=
  match a, b with
  | _, [] => false
  | [], _ => true
  | x :: a, y :: b => (x <? y) || ((x =? y) && str_lt a b)
  end.

(** A stable sort by name. *)
Fixpoint insert_named (e : rstring * Z) (l : list (rstring * Z)) : list (rstring * Z) :=
  match l with
  | [] => [e]
  | f :: l' => if str_lt e.1 f.1 then e :: l else f :: insert_named e l'
  end.

Definition sort_named (l : list (rstring * Z)) : list (rstring * Z) :=
  foldl (fun l e => insert_named e l) [] l.

(** [name.split('{').next()]. *)
Definition base_name (n : rstring) : rstring :=
  match split_once 123 n with Some (b, _) => b | None => n end.

Definition user_prefix : rstring := str "roto_user_defined_".

Fixpoint append_user (type_line : rstring -> rstring) (printed : list rstring)
    (l : list (rstring * Z)) (t : Target) : option Target :=
  match l with
  | [] => Some t
  | (n, v) :: l =>
      let b := base_name n in
      t ← (if bool_decide (b ∈ printed) then Some t else append_raw (type_line b) t);
      t ← append_raw (user_prefix ++ n ++ [32] ++ decimal 20 v) t;
      append_user type_line (if bool_decide (b ∈ printed) then printed else printed ++ [b]) l t
  end.

Definition counter_type_line (b : rstring) : rstring :=
  str "# TYPE " ++ user_prefix ++ b ++ str " counter".
Definition gauge_type_line (b : rstring) : rstring := str "# TYPE " ++ b ++ str " gauge".

Section Output.
Context `{HC : !HashIter rstring Z}.

Definition roto_metrics_append (m : RotoMetrics) (t : Target) : option Target :=
  t ← append_user counter_type_line [] (sort_named (hm_iter (rm_counters m))) t;
  append_user gauge_type_line [] (sort_named (hm_iter (rm_gauges m))) t.

End Output.

(** ** Updates of the RPKI data as a Roto script sees them ([src/roto_runtime/runtime.rs])

    The methods on a changed VRP and on a route whose status was checked again.  [None] of
    a method that gives a prefix is a panic. *)
From S2P Require Import Rtr RibUnit.

Local Open Scope Z_scope.

Section Methods.
Context `{RV : RotoView} `{E : Extern} `{PV : !PrefixView}.

(** [VrpUpdate]. *)
Record VrpUpdate : Type := mk_vrp_update { vu_action : RtrAction; vu_vrp : RouteOrigin }.

(** [MaxLenPrefix] and the AS number of the [rpki] crate, printed. *)
Context (maxlen_text : IpAddr -> Z -> option Z -> rstring) (rpki_asn_text : Asn -> rstring).

Definition vrp_update_origin (u : VrpUpdate) : Asn := ro_asn (vu_vrp u).

Definition vrp_prefix (u : VrpUpdate) : option Prefix :=
  prefix_new (ro_addr (vu_vrp u)) (ro_len (vu_vrp u)).

Definition fmt_vrp_update (u : VrpUpdate) : rstring :=
  (match vu_action u with RtrAnnounce => str "announce " | RtrWithdraw => str "withdraw " end)
  ++ str "VRP " ++ maxlen_text (ro_addr (vu_vrp u)) (ro_len (vu_vrp u)) (ro_max_len (vu_vrp u))
  ++ str " from " ++ rpki_asn_text (ro_asn (vu_vrp u)).

Definition rov_prefix (u : RovStatusUpdate) : Prefix := ru_prefix u.
Definition rov_origin (u : RovStatusUpdate) : Asn := ru_origin u.
Definition rov_peer_asn (u : RovStatusUpdate) : Asn := peer_asn u.

Definition has_changed (u : RovStatusUpdate) : bool :=
  negb (bool_decide (previous_status u = current_status u)).

(** [Debug] of the status. *)
Definition status_name (s : RovStatus) : rstring :=
  match s with
  | NotChecked => str "NotChecked"
  | NotFound => str "NotFound"
  | Valid => str "Valid"
  | Invalid => str "Invalid"
  end.

Definition fmt_rov_update (u : RovStatusUpdate) : rstring :=
  str "[" ++ status_name (previous_status u) ++ str "] -> [" ++ status_name (current_status u)
  ++ str "] " ++ r_prefix_text (ru_prefix u) ++ str " originated by " ++ r_asn_text (ru_origin u)
  ++ str ", learned from " ++ r_asn_text (peer_asn u).

Definition fmt_u32 (n : Z) : rstring := decimal 10 n.

End Methods.
