(* ===== verification/RotoProps.v ===== *)
(** * What the Roto runtime guarantees

    The log entries of a script, its named lists, its counters under interleaved
    threads, the validation status that [check_rov] stores in a route, and the text of
    its metrics; a small script at the end. *)

From Stdlib Require Import ZArith Lia.
From stdpp Require Import base numbers list gmap fin_maps strings.
From S2P Require Import Prelude Net Register Payload BmpMetrics BmpRouter Metrics Manager WebText Roto RotoState.

Local Open Scope Z_scope.

(** ** Log entries *)
Section Entries.
Context `{E : Extern} `{RV : RotoView}.

(** The seven methods of an entry, one after the other. *)
Definition setters (m : BmpView) (e : LogEntry) : LogEntry :=
  set_mp_unreach m (set_mp_reach m (set_conventional_unreach m (set_conventional_reach m
    (set_as_path_hops m (set_origin_as m (set_peer_as m e)))))).

(** Where [log_all] and the seven methods differ: a path that does not end in an AS
    number resets the origin only with [log_all], and an update without a path resets
    the number of hops only with the methods. *)
Definition same_path_fields (u : BgpUpdate) (e : LogEntry) : Prop :=
  match u_aspath u with
  | Some p => path_origin p ≫= hop_asn = None -> origin_as e = None
  | None => as_path_hops e = None
  end.

(** [log_all] gives what the seven single methods give in sequence, on an entry that is
    fresh and on every other one but those of [same_path_fields]. *)
Theorem log_all_is_setters (m : BmpView) (e : LogEntry) :
  log_all m e = setters m e <-> (forall u, bmp_update m = Some u -> same_path_fields u e).
Proof.
  unfold setters, log_all, set_mp_unreach, set_mp_reach, set_conventional_unreach,
    set_conventional_reach, set_as_path_hops, set_origin_as, set_peer_as, on_update.
  destruct m as [asn [u|]| | | | | |]; cbn -[zlen];
    try (split; [intros _ ? [=]|done]).
  unfold aspath_origin, same_path_fields, path_origin. destruct e.
  destruct (u_aspath u) as [p|] eqn:Hp; cbn -[zlen].
  - destruct (last p ≫= hop_asn) as [a|] eqn:Ha; cbn -[zlen];
      destruct (u_mp_announcements u) as [[]|], (u_mp_withdrawals u) as [[]|];
      unfold path_origin; rewrite ?Ha; cbn -[zlen];
      (split; [intros [= ]; intros ? [= <-]; rewrite Hp, Ha; cbn; congruence
              |intros H; specialize (H _ eq_refl); rewrite Hp, Ha in H; cbn in H; try done;
               rewrite H by done; done]).
  - destruct (u_mp_announcements u) as [[]|], (u_mp_withdrawals u) as [[]|]; cbn;
      (split; [intros [= ]; intros ? [= <-]; rewrite Hp; cbn; congruence
              |intros H; specialize (H _ eq_refl); rewrite Hp in H; cbn in H; by rewrite H]).
Qed.

(** *** The stream as a script drives it *)

(** What a script does to the stream: a method on the entry it got before the [h]-th
    write, a message, the end of an entry. *)
Inductive StreamOp : Type :=
| OpEntry (h : nat) (f : LogEntry -> LogEntry)
| OpLog (o : Output)
| OpWriteEntry.

Definition stream_op (o : StreamOp) (s : OutputStream) : OutputStream :=
  match o with
  | OpEntry h f => on_entry h f s
  | OpLog o => stream_push o s
  | OpWriteEntry => write_entry s
  end.

(** The promise: one entry at a time, and messages that nothing changes. *)
Record LogSpec : Type := mk_log_spec {
  sp_written : nat;
  sp_current : LogEntry;
  sp_out : list Output
}.

Definition spec_op (o : StreamOp) (s : LogSpec) : LogSpec :=
  match o with
  | OpEntry h f =>
      mk_log_spec (sp_written s) (if decide (h = sp_written s) then f (sp_current s) else sp_current s)
        (sp_out s)
  | OpLog o => mk_log_spec (sp_written s) (sp_current s) (sp_out s ++ [o])
  | OpWriteEntry =>
      mk_log_spec (S (sp_written s)) log_entry_new (sp_out s ++ [O_Entry (sp_current s)])
  end.

Definition run_ops {S} (step : StreamOp -> S -> S) (l : list StreamOp) (s : S) : S :=
  foldl (fun s o => step o s) s l.

Definition stream_spec (s : OutputStream) (t : LogSpec) : Prop :=
  os_entry s = sp_written t /\ length (os_entries s) = S (sp_written t)
  /\ os_entries s !! os_entry s = Some (sp_current t) /\ os_msgs s = sp_out t.

(** A handle that the stream never gave out is one of a later entry: a script has none. *)
Definition op_known (o : StreamOp) (s : OutputStream) : Prop :=
  match o with OpEntry h _ => (h <= os_entry s)%nat | _ => True end.

Lemma stream_op_spec o s t :
  op_known o s -> stream_spec s t -> stream_spec (stream_op o s) (spec_op o t).
Proof.
  intros Hk (He & Hl & Hc & Hm). destruct s as [ms es i], t as [w c out]; cbn in *. subst.
  destruct o as [h f|o|]; unfold stream_spec; cbn.
  - split; [done|]. rewrite length_alter. split; [done|]. split; [|done].
    destruct (decide (h = w)) as [->|Hne].
    + by rewrite list_lookup_alter_eq, Hc.
    + by rewrite list_lookup_alter_ne.
  - done.
  - unfold write_entry; cbn. rewrite lookup_app_l by lia. rewrite Hc; cbn.
    rewrite length_app; cbn. split; [done|]. split; [lia|]. split; [|done].
    by rewrite list_lookup_middle.
Qed.

(** The operations that only use entries given out so far. *)
Fixpoint ops_known (l : list StreamOp) (w : nat) : Prop :=
  match l with
  | [] => True
  | OpEntry h _ :: l => (h <= w)%nat /\ ops_known l w
  | OpLog _ :: l => ops_known l w
  | OpWriteEntry :: l => ops_known l (S w)
  end.

(** C26: the stream with its shared entries is the stream of the promise: an entry that was
    written is not changed by a script that kept it, and does not leak into a later one. *)
Theorem stream_refines l :
  ops_known l 0 ->
  stream_spec (run_ops stream_op l stream_new)
    (run_ops spec_op l (mk_log_spec 0 log_entry_new [])).
Proof.
  assert (H0 : stream_spec stream_new (mk_log_spec 0 log_entry_new [])) by done.
  change 0%nat with (os_entry stream_new) at 1. revert H0.
  generalize stream_new, (mk_log_spec 0 log_entry_new []).
  induction l as [|o l IH]; intros s t Hs Hk; [done|]. cbn. apply IH.
  - apply stream_op_spec; [|done]. destruct o; [by destruct Hk|done|done].
  - destruct o as [h f|o|]; [by destruct Hk|done|].
    destruct Hs as (He & Hl & Hc & Hm). cbn in Hk |- *. unfold write_entry; cbn.
    rewrite lookup_app_l by lia. rewrite Hc; cbn. rewrite Hl, <- He. done.
Qed.

End Entries.

(** ** Reading back a pcap dump *)
Definition unhex (c : Z) : option Z :=
  if (48 <=? c) && (c <=? 57) then Some (c - 48)
  else if (97 <=? c) && (c <=? 102) then Some (c - 87) else None.

Fixpoint read_octets (s : rstring) : option (list Z) :=
  match s with
  | [] => Some []
  | h :: l :: sp :: s =>
      if sp =? 32 then
        a ← unhex h; b ← unhex l; rest ← read_octets s; Some (a * 16 + b :: rest)
      else None
  | _ => None
  end.

Definition read_pcap (s : rstring) : option (list Z) :=
  if bool_decide (take 7 s = str "000000 ") then read_octets (drop 7 s) else None.

Lemma unhex_digit d : 0 <= d < 16 -> unhex (hex_digit_of d) = Some d.
Proof.
  intros H. unfold hex_digit_of, unhex. destruct (Z.ltb_spec d 10).
  - rewrite (proj2 (andb_true_iff _ _)) by (split; apply Z.leb_le; lia). f_equal. lia.
  - rewrite (proj2 (andb_false_iff _ _)) by (right; apply Z.leb_gt; lia).
    rewrite (proj2 (andb_true_iff _ _)) by (split; apply Z.leb_le; lia). f_equal. lia.
Qed.

Lemma read_octets_hex b s :
  0 <= b < 256 -> read_octets (hex2 b ++ 32 :: s) = l ← read_octets s; Some (b :: l).
Proof.
  intros H. cbn [hex2 app read_octets].
  change (32 =? 32) with true. cbv iota.
  rewrite (unhex_digit (b / 16)) by (split; [apply Z.div_pos; lia|apply Z.div_lt_upper_bound; lia]).
  rewrite (unhex_digit (b mod 16)) by (apply Z.mod_pos_bound; lia). cbn.
  destruct (read_octets s); [|done]. cbn. do 2 f_equal. pose proof (Z.div_mod b 16). lia.
Qed.

(** [fmt_pcap] loses nothing: the octets of a message can be read back from its dump. *)
Theorem fmt_pcap_roundtrip buf :
  Forall (fun b => 0 <= b < 256) buf -> read_pcap (fmt_pcap buf) = Some buf.
Proof.
  intros H. unfold read_pcap, fmt_pcap.
  rewrite take_app_length', drop_app_length' by reflexivity.
  rewrite bool_decide_true by done.
  induction H as [|b buf Hb _ IH]; [done|].
  cbn [mbind list_bind]. rewrite <- app_assoc. cbn [app].
  by rewrite (read_octets_hex b _ Hb), IH.
Qed.

(** ** Named lists *)
Section Lists.
Context `{RV : RotoView}.
Context `{AM : !MicroMap ASN_LIST_COUNT (list Asn)}.

(** The lists that a script has added, in order: the first 64 names have a list, and the
    last list of such a name counts. *)
Fixpoint named (adds : list (rstring * rstring)) (m : gmap rstring (list Asn)) : gmap rstring (list Asn) :=
  match adds with
  | [] => m
  | (n, s) :: adds =>
      named adds (if decide (is_Some (m !! n) \/ (size m < ASN_LIST_COUNT)%nat)
                  then <[n := asn_list_from_str s]> m else m)
  end.

Definition add_asn_lists (adds : list (rstring * rstring)) (m : MMap ASN_LIST_COUNT (list Asn))
  : MMap ASN_LIST_COUNT (list Asn) :=
  foldl (fun m a => add_asn_list a.1 a.2 m) m adds.

Lemma add_asn_list_view n s m :
  mm_view (add_asn_list n s m)
  = if decide (is_Some (mm_view m !! n) \/ (size (mm_view m) < ASN_LIST_COUNT)%nat)
    then <[n := asn_list_from_str s]> (mm_view m) else mm_view m.
Proof.
  unfold add_asn_list. destruct (decide _) as [H|H].
  - by apply mm_insert_view.
  - rewrite mm_insert_full; [done| |lia]. apply eq_None_not_Some. tauto.
Qed.

Lemma add_asn_lists_view adds m : mm_view (add_asn_lists adds m) = named adds (mm_view m).
Proof.
  revert m. induction adds as [|[n s] adds IH]; intros m; [done|].
  change (add_asn_lists ((n, s) :: adds) m) with (add_asn_lists adds (add_asn_list n s m)).
  by rewrite IH, add_asn_list_view.
Qed.

Lemma named_size adds m : (size m <= ASN_LIST_COUNT)%nat -> (size (named adds m) <= ASN_LIST_COUNT)%nat.
Proof.
  revert m. induction adds as [|[n s] adds IH]; intros m Hm; [done|]. cbn [named]. apply IH.
  destruct (decide _) as [[[l H]|H]|H]; [| |done].
  - by rewrite map_size_insert_Some by (by exists l).
  - rewrite map_size_insert. destruct (m !! n); cbn; lia.
Qed.

(** While no more names are added than fit, a list is the last one added under its name. *)
Definition last_added (adds : list (rstring * rstring)) (n : rstring) : option (list Asn) :=
  asn_list_from_str ∘ snd <$> last (filter (fun a => a.1 = n) adds).

Definition names_of (adds : list (rstring * rstring)) : gset rstring := list_to_set adds.*1.

Lemma named_lookup adds m n :
  (size (dom m ∪ names_of adds) <= ASN_LIST_COUNT)%nat ->
  named adds m !! n = match last_added adds n with Some l => Some l | None => m !! n end.
Proof.
  revert m. induction adds as [|[k s] adds IH]; intros m Hsz; [done|]. cbn [named].
  rewrite decide_True.
  2:{ destruct (m !! k) as [l|] eqn:Hk; [by left; exists l|right].
      apply not_elem_of_dom in Hk. rewrite <- size_dom.
      eapply Nat.lt_le_trans; [|exact Hsz]. apply subset_size.
      unfold names_of. cbn. split; [set_solver|]. intros Hs. apply Hk, Hs. set_solver. }
  rewrite IH.
  2:{ rewrite dom_insert_L. etrans; [|exact Hsz]. apply subseteq_size. unfold names_of. cbn. set_solver. }
  unfold last_added. rewrite filter_cons. cbn.
  destruct (decide (k = n)) as [->|Hne].
  - rewrite last_cons, lookup_insert_eq. by destruct (last _).
  - by rewrite lookup_insert_ne.
Qed.

(** A script whose lists have at most 64 names finds in a list exactly the AS numbers
    that the last text added under the name has; a name without a list has none. *)
Theorem asn_lists_exact adds n a :
  (size (names_of adds) <= ASN_LIST_COUNT)%nat ->
  asn_list_contains n a (add_asn_lists adds mm_default) = true
  <-> exists s, last (filter (fun x => x.1 = n) adds) = Some (n, s)
        /\ a ∈ omap parse_asn (split_whitespace s).
Proof.
  intros Hsz. unfold asn_list_contains. rewrite mm_get_view, add_asn_lists_view, mm_default_view.
  rewrite named_lookup by (by rewrite dom_empty_L, union_empty_l_L).
  rewrite lookup_empty. unfold last_added.
  destruct (last _) as [[k s]|] eqn:Hl; cbn.
  - rewrite bool_decide_eq_true.
    assert (k = n) as -> by (apply last_Some_elem_of, list_elem_of_filter in Hl; by destruct Hl).
    split; [intros Ha; by exists s|by intros (s' & [= ->] & Ha)].
  - split; [done|]. by intros (s & [=] & _).
Qed.

(** However many are added, no more than 64 lists are kept, and those that were there
    first stay. *)
Theorem asn_lists_bounded adds :
  (size (mm_view (add_asn_lists adds mm_default)) <= ASN_LIST_COUNT)%nat
  /\ forall n s, (size (mm_view (add_asn_lists adds mm_default)) = ASN_LIST_COUNT)%nat ->
       mm_view (add_asn_lists adds mm_default) !! n = None ->
       add_asn_list n s (add_asn_lists adds mm_default) = add_asn_lists adds mm_default.
Proof.
  split.
  - rewrite add_asn_lists_view, mm_default_view. apply named_size. rewrite map_size_empty. lia.
  - intros n s Hsz Hn. unfold add_asn_list. rewrite mm_insert_full; [done..|lia].
Qed.

End Lists.

(** ** Counters and gauges under concurrent scripts

    Any number of calls of [increase_counter] are under way, each at its own step, and in
    between other scripts set gauges. *)
Definition IncCall : Type := rstring * Z.

Record MetricState : Type := mk_metric_state {
  ms_metrics : RotoMetrics;
  ms_calls : list (IncCall * IncPc)
}.

Inductive metric_step : MetricState -> MetricState -> Prop :=
| step_call m cs n v :
    0 <= v < 2 ^ 64 ->
    metric_step (mk_metric_state m cs) (mk_metric_state m (((n, v), IncStart) :: cs))
| step_increase m m' cs1 cs2 n v pc pc' :
    increase_counter n v pc m = (pc', m') ->
    metric_step (mk_metric_state m (cs1 ++ ((n, v), pc) :: cs2))
      (mk_metric_state m' (cs1 ++ ((n, v), pc') :: cs2))
| step_gauge m cs n v :
    metric_step (mk_metric_state m cs) (mk_metric_state (roto_set_gauge n v m) cs).

Definition metric_init : MetricState := mk_metric_state roto_metrics_default [].

(** The sum of what was asked for under a name. *)
Fixpoint total (n : rstring) (l : list IncCall) : Z :=
  match l with
  | [] => 0
  | (k, v) :: l => (if decide (k = n) then v else 0) + total n l
  end.

Lemma total_app n a b : total n (a ++ b) = total n a + total n b.
Proof. induction a as [|[k v] a IH]; cbn; [done|]. rewrite IH. lia. Qed.

(** The calls that have returned. *)
Definition returned (c : IncCall * IncPc) : option IncCall := if c.2 is IncDone then Some c.1 else None.

(** What holds between the steps: a counter is what the calls that have returned asked for,
    and it is there exactly where something was added. *)
Record metric_inv (s : MetricState) : Prop := {
  mi_values : Forall (fun c : IncCall * IncPc => 0 <= c.1.2 < 2 ^ 64 /\ (c.2 = IncMiss -> 0 < c.1.2)) (ms_calls s);
  mi_sum n :
    match rm_counters (ms_metrics s) !! n with
    | Some c => 0 < total n (omap returned (ms_calls s))
                /\ c = wrap 64 (total n (omap returned (ms_calls s)))
    | None => total n (omap returned (ms_calls s)) = 0
    end
}.

Lemma wrap64_add_l a b : wrap 64 (wrap 64 a + b) = wrap 64 (a + b).
Proof. unfold wrap. by rewrite Z.add_mod_idemp_l. Qed.

Lemma counter_add n v m k :
  0 < v < 2 ^ 64 ->
  forall done,
  match rm_counters m !! k with Some c => 0 < done /\ c = wrap 64 done | None => done = 0 end ->
  match rm_counters (rm_inc_counter n v m) !! k with
  | Some c => 0 < done + (if decide (n = k) then v else 0)
              /\ c = wrap 64 (done + (if decide (n = k) then v else 0))
  | None => done + (if decide (n = k) then v else 0) = 0
  end.
Proof.
  intros Hv d Hd. cbn. destruct (decide (n = k)) as [->|Hne].
  - rewrite lookup_insert_eq. destruct (rm_counters m !! k) as [c|]; cbn in Hd.
    + destruct Hd as [Hd ->]. split; [lia|]. apply wrap64_add_l.
    + subst d. split; [lia|]. unfold wrap. rewrite Z.mod_small; lia.
  - rewrite lookup_insert_ne by done. destruct (rm_counters m !! k); by rewrite Z.add_0_r.
Qed.

Lemma try_inc_inc n v m m' : rm_try_inc_counter n v m = Some m' -> m' = rm_inc_counter n v m.
Proof.
  unfold rm_try_inc_counter, rm_inc_counter. destruct (rm_counters m !! n); [|done].
  by intros [= <-].
Qed.

Lemma roto_set_gauge_counters n v m : rm_counters (roto_set_gauge n v m) = rm_counters m.
Proof. unfold roto_set_gauge, rm_try_set_gauge. by destruct (rm_gauges m !! n). Qed.

(** What one step of a call adds to the counters, and to the calls that have returned. *)
Lemma increase_counter_run n v pc m pc' m' :
  increase_counter n v pc m = (pc', m') -> 0 <= v < 2 ^ 64 -> (pc = IncMiss -> 0 < v) ->
  (pc' = IncMiss -> 0 < v)
  /\ ((m' = m /\ forall k, total k (omap returned [((n, v), pc')]) = total k (omap returned [((n, v), pc)]))
      \/ (m' = rm_inc_counter n v m /\ 0 < v /\ pc <> IncDone /\ pc' = IncDone)).
Proof.
  intros H Hv Hp. destruct pc; cbn in H.
  - destruct (Z.eqb_spec v 0) as [->|Hn].
    + injection H as <- <-. split; [done|]. left. split; [done|]. intros k. cbn. by destruct (decide _).
    + destruct (rm_try_inc_counter n v m) as [m1|] eqn:Ht; injection H as <- <-.
      * split; [done|]. right. split; [by apply try_inc_inc|]. split; [lia|done].
      * split; [lia|]. by left.
  - injection H as <- <-. split; [done|]. right. by specialize (Hp eq_refl).
  - injection H as <- <-. split; [done|]. by left.
Qed.

Lemma metric_step_inv s s' : metric_step s s' -> metric_inv s -> metric_inv s'.
Proof.
  intros Hs [Hv Hsum]. destruct Hs as [m cs n v Hn|m m' cs1 cs2 n v pc pc' Hi|m cs n v];
    cbn [ms_metrics ms_calls] in *.
  - split; cbn [ms_metrics ms_calls]; [by constructor|exact Hsum].
  - apply Forall_app in Hv as [Hv1 [[Hn Hp] Hv2]%Forall_cons]. cbn in Hn, Hp.
    destruct (increase_counter_run _ _ _ _ _ _ Hi Hn Hp) as [Hp' Hrun].
    split; cbn [ms_metrics ms_calls]; [by apply Forall_app; split; [|constructor]|].
    intros k. specialize (Hsum k). revert Hsum.
    change (?x :: cs2) with ([x] ++ cs2). rewrite !omap_app, !total_app.
    destruct Hrun as [[-> Ht]|(-> & Hpos & Hnd & ->)]; [by rewrite Ht|].
    assert (total k (omap returned [((n, v), pc)]) = 0) as -> by (by destruct pc). intros Hsum.
    pose proof (counter_add n v m k ltac:(lia) _ Hsum) as Hadd.
    change (total k (omap returned [((n, v), IncDone)])) with ((if decide (n = k) then v else 0) + 0).
    replace (total k (omap returned cs1) + ((if decide (n = k) then v else 0) + 0 + total k (omap returned cs2)))
      with (total k (omap returned cs1) + (0 + total k (omap returned cs2)) + (if decide (n = k) then v else 0)) by lia.
    exact Hadd.
  - split; cbn [ms_metrics ms_calls]; [done|]. intros k. rewrite roto_set_gauge_counters. apply Hsum.
Qed.

Lemma metric_init_inv : metric_inv metric_init.
Proof. split; [by constructor|]. by intros n. Qed.

Lemma all_returned cs :
  Forall (fun c : IncCall * IncPc => c.2 = IncDone) cs -> omap returned cs = cs.*1.
Proof. induction 1 as [|[c pc] cs Hc _ IH]; [done|]. cbn in Hc. subst pc. cbn. by rewrite IH. Qed.

(** C33: however the calls of [increase_counter] of several scripts interleave (each of them
    in the steps that it takes under the two locks, with calls of [set_gauge] in between),
    once all of them have returned a counter holds the sum of all that was asked for,
    modulo 2^64, and a name has a counter exactly where that sum is not zero. *)
Theorem counters_add_up s n :
  rtc metric_step metric_init s -> Forall (fun c : IncCall * IncPc => c.2 = IncDone) (ms_calls s) ->
  rm_counters (ms_metrics s) !! n
  = if decide (total n (ms_calls s).*1 = 0) then None else Some (wrap 64 (total n (ms_calls s).*1)).
Proof.
  intros Hr Hd. assert (Hi : metric_inv s).
  { assert (H : forall a b, rtc metric_step a b -> metric_inv a -> metric_inv b)
      by (induction 1; eauto using metric_step_inv).
    exact (H _ _ Hr metric_init_inv). }
  pose proof (mi_sum _ Hi n) as Hs. rewrite (all_returned _ Hd) in Hs.
  destruct (rm_counters _ !! n) as [c|].
  - destruct Hs as [H0 ->]. by rewrite decide_False by lia.
  - by rewrite decide_True by lia.
Qed.

(** ** The validation status of a route *)
Section Rov.
Context `{RV : RotoView} `{E : Extern}.

(** The status that the stored route shows to later filters and to the RIB. *)
Definition stored_rov (r : RotondaRoute) : option RovStatus := rov <$> rpki_info (rotonda_pamap r).

Definition is_unicast (r : RotondaRoute) : bool :=
  match r with RR_Ipv4Unicast _ _ | RR_Ipv6Unicast _ _ => true | _ => false end.

Definition with_attributes (r : RotondaRoute) (pa : OwnedPathAttributes) : Prop :=
  exists st, rotonda_pamap r = mk_pamap (rpki_to_u8 (mk_rpki st) :: ppi_to_byte (pdu_parse_info pa)
                                          :: into_vec pa).

Lemma owned_map_with r pa : with_attributes r pa -> owned_map r = Some pa.
Proof.
  intros [st H]. unfold owned_map. rewrite H. destruct pa as [[] v]; reflexivity.
Qed.

(** [check_rov] answers the status that the cache gives the prefix and the origin of a
    unicast route, stores the same status in the route, and leaves prefix and attributes
    as they are; without an origin the status goes back to not checked.  A multicast
    route is left alone, with whatever status it has. *)
Theorem check_rov_stored check r pa :
  with_attributes r pa -> (forall p a, is_Some (check p a)) ->
  exists st r', roto_check_rov check r = Some (st, r')
    /\ owned_map r' = Some pa /\ route_prefix r' = route_prefix r /\ is_unicast r' = is_unicast r
    /\ if is_unicast r
       then stored_rov r' = Some st
            /\ Some st = match path_asn_origin (o_hop_path pa) with
                         | Some o => check (route_prefix r) o
                         | None => Some NotChecked
                         end
       else r' = r /\ st = NotChecked.
Proof.
  intros Hw Hc. pose proof (owned_map_with _ _ Hw) as Ho. destruct Hw as [st0 Hm].
  assert (Hs : forall p, exists st, match path_asn_origin (o_hop_path pa) with
                         | Some o => check p o | None => Some NotChecked end = Some st).
  { intros p. destruct (path_asn_origin _) as [o|]; [|by eexists]. apply Hc. }
  destruct r as [p m|p m|p m|p m]; unfold roto_check_rov; cbn in Hm; subst m;
    try (eexists NotChecked, _; by repeat split).
  all: rewrite Ho; destruct (Hs p) as [st Hst]; cbn [mbind option_bind]; rewrite Hst; cbn.
  all: eexists st, _; (split; [reflexivity|]); cbn.
  all: split; [destruct pa as [[] v]; reflexivity|].
  all: split; [done|]; split; [done|].
  all: split; [by destruct st|done].
Qed.

End Rov.

(** ** The metrics of a script as they are written out ([Source for RotoMetricsWrapper] of
    [src/roto_runtime/metrics.rs])

    The lines that [append] writes: sorted by name, whatever the order of the hash map,
    with one type line for each base name. *)
From stdpp Require Import sorting.
From S2P Require Import MetricsText.

Local Open Scope Z_scope.

(** ** The lines *)
Definition sample_line (e : rstring * Z) : rstring := user_prefix ++ e.1 ++ [32] ++ decimal 20 e.2.

(** The line of a sample, after the type line of its base name where it is the first. *)
Fixpoint user_lines (type_line : rstring -> rstring) (printed : list rstring)
    (l : list (rstring * Z)) : list rstring :=
  match l with
  | [] => []
  | e :: l =>
      let b := base_name e.1 in
      if bool_decide (b ∈ printed) then sample_line e :: user_lines type_line printed l
      else type_line b :: sample_line e :: user_lines type_line (printed ++ [b]) l
  end.

Definition prometheus (t : Target) : Prop := format t = Prometheus.

Lemma append_raw_text x t :
  prometheus t -> append_raw x t = Some (push_str (x ++ [10]) t) /\ prometheus (push_str (x ++ [10]) t).
Proof. intros H. unfold append_raw. by rewrite H. Qed.

Lemma append_user_text ty printed l t :
  prometheus t ->
  append_user ty printed l t = Some (push_str (lines_text (user_lines ty printed l)) t).
Proof.
  revert printed t. induction l as [|[n v] l IH]; intros printed t Ht.
  { destruct t. unfold push_str. cbn. by rewrite app_nil_r. }
  cbn [append_user user_lines]. cbn [fst].
  destruct (bool_decide (base_name n ∈ printed)).
  - change (Some t ≫= ?k) with (k t).
    destruct (append_raw_text (sample_line (n, v)) t Ht) as [Ha Ht1].
    change (user_prefix ++ n ++ [32] ++ decimal 20 v) with (sample_line (n, v)).
    rewrite Ha. cbn [mbind option_bind]. rewrite IH, push_push by done. done.
  - destruct (append_raw_text (ty (base_name n)) t Ht) as [Hb Ht0]. rewrite Hb. cbn [mbind option_bind].
    destruct (append_raw_text (sample_line (n, v)) _ Ht0) as [Ha Ht1].
    change (user_prefix ++ n ++ [32] ++ decimal 20 v) with (sample_line (n, v)).
    rewrite Ha. cbn [mbind option_bind]. rewrite IH, !push_push by done.
    unfold lines_text. cbn [fmap list_fmap concat]. by rewrite <- !app_assoc.
Qed.

(** ** The order *)
Lemma str_lt_irrefl a : str_lt a a = false.
Proof. induction a as [|x a IH]; [done|]. cbn. by rewrite Z.ltb_irrefl, IH, andb_false_r. Qed.

Lemma str_lt_trans a b c : str_lt a b = true -> str_lt b c = true -> str_lt a c = true.
Proof.
  revert b c. induction a as [|x a IH]; intros [|y b] [|z c]; cbn; try done.
  rewrite !orb_true_iff, !andb_true_iff, !Z.ltb_lt, !Z.eqb_eq.
  intros [H|[-> H]] [H'|[-> H']]; [left; lia|by left|by left|right; eauto].
Qed.

Lemma str_lt_total a b : str_lt a b = false -> str_lt b a = false -> a = b.
Proof.
  revert b. induction a as [|x a IH]; intros [|y b]; cbn; try done.
  rewrite !orb_false_iff, !andb_false_iff, !Z.ltb_ge, !Z.eqb_neq. intros [H1 H2] [H3 H4].
  assert (x = y) as -> by lia. f_equal. apply IH; [by destruct H2|by destruct H4].
Qed.

Definition name_le (e f : rstring * Z) : Prop := str_lt f.1 e.1 = false.

#[export] Instance name_le_trans : Transitive name_le.
Proof.
  intros e f g H1 H2. unfold name_le in *. destruct (str_lt g.1 e.1) eqn:Hg; [|done].
  destruct (str_lt e.1 f.1) eqn:He.
  - by rewrite (str_lt_trans _ _ _ Hg He) in H2.
  - by rewrite (str_lt_total _ _ He H1), H2 in Hg.
Qed.

Lemma insert_named_perm e l : insert_named e l ≡ₚ e :: l.
Proof.
  induction l as [|f l IH]; [done|]. cbn. destruct (str_lt e.1 f.1); [done|].
  rewrite IH. apply Permutation_swap.
Qed.

Lemma insert_named_sorted e l : StronglySorted name_le l -> StronglySorted name_le (insert_named e l).
Proof.
  induction 1 as [|f l Hl IH Hf]; cbn; [repeat constructor|].
  destruct (str_lt e.1 f.1) eqn:He.
  - assert (Hef : name_le e f).
    { unfold name_le. destruct (str_lt f.1 e.1) eqn:Hfe; [|done].
      by rewrite <- (str_lt_irrefl e.1), (str_lt_trans _ _ _ He Hfe). }
    constructor; [by constructor|]. constructor; [done|].
    eapply Forall_impl; [exact Hf|]. intros g Hg. by trans f.
  - constructor; [done|]. rewrite insert_named_perm. by constructor.
Qed.

Lemma fold_insert_named l acc :
  StronglySorted name_le acc ->
  foldl (fun l e => insert_named e l) acc l ≡ₚ acc ++ l
  /\ StronglySorted name_le (foldl (fun l e => insert_named e l) acc l).
Proof.
  revert acc. induction l as [|e l IH]; intros acc Hs; cbn; [by rewrite app_nil_r|].
  destruct (IH (insert_named e acc)) as [Hp Ho]; [by apply insert_named_sorted|].
  split; [|done]. rewrite Hp, insert_named_perm. by rewrite <- Permutation_middle.
Qed.

Lemma sort_named_ok l : sort_named l ≡ₚ l /\ StronglySorted name_le (sort_named l).
Proof. apply (fold_insert_named l []). constructor. Qed.

(** The samples of a map in the order of their names. *)
Definition by_name (m : gmap rstring Z) : list (rstring * Z) := sort_named (map_to_list m).

Lemma sort_iter `{HC : !HashIter rstring Z} (m : gmap rstring Z) : sort_named (hm_iter m) = by_name m.
Proof.
  destruct (sort_named_ok (hm_iter m)) as [Hp1 Ho1], (sort_named_ok (map_to_list m)) as [Hp2 Ho2].
  apply (StronglySorted_unique_strong name_le); [|done|done|by rewrite Hp1, Hp2, hm_iter_perm].
  intros [a x] [b y] Ha Hb Hab Hba. unfold name_le in *; cbn in *.
  rewrite Hp1, hm_iter_perm in Ha. rewrite Hp2 in Hb.
  apply elem_of_map_to_list in Ha, Hb. pose proof (str_lt_total _ _ Hba Hab) as ->. congruence.
Qed.

(** ** The type lines *)
Definition occurs (x : rstring) (l : list rstring) : nat := length (filter (fun y => y = x) l).

Lemma occurs_cons x y l : occurs x (y :: l) = ((if decide (y = x) then 1 else 0) + occurs x l)%nat.
Proof. unfold occurs. rewrite filter_cons. by destruct (decide (y = x)). Qed.

Lemma user_lines_types ty (Hinj : forall a b, ty a = ty b -> a = b)
    (Hsample : forall b e, sample_line e <> ty b) printed l b :
  occurs (ty b) (user_lines ty printed l)
  = if decide (b ∈ base_name ∘ fst <$> l) then (if decide (b ∈ printed) then 0 else 1)%nat else 0%nat.
Proof.
  revert printed. induction l as [|e l IH]; intros printed; [done|].
  cbn [user_lines]. rewrite fmap_cons. cbn [compose].
  destruct (bool_decide (base_name e.1 ∈ printed)) eqn:Hb.
  - apply bool_decide_eq_true in Hb. rewrite occurs_cons, decide_False, IH by auto. cbn.
    destruct (decide (b ∈ base_name ∘ fst <$> l)) as [Hl|Hl].
    + by rewrite (decide_True (P := b ∈ _ :: _)) by (by right).
    + destruct (decide (b ∈ _ :: _)) as [Hc|]; [|done]. apply elem_of_cons in Hc as [->|]; [|done].
      by rewrite decide_True.
  - apply bool_decide_eq_false in Hb.
    rewrite !occurs_cons, (decide_False (P := sample_line e = _)), IH by auto. cbn [Nat.add].
    destruct (decide (b = base_name e.1)) as [->|Hne].
    + rewrite decide_True by done. rewrite (decide_True (P := base_name e.1 ∈ _ :: _)) by (by left).
      rewrite (decide_False (P := base_name e.1 ∈ printed)) by done.
      rewrite (decide_True (P := base_name e.1 ∈ printed ++ _)) by (apply elem_of_app; right; by left).
      by destruct (decide _).
    + rewrite decide_False by (intros H; apply Hne; symmetry; by apply Hinj). cbn [Nat.add].
      assert (Hp : b ∈ printed ++ [base_name e.1] <-> b ∈ printed)
        by (rewrite elem_of_app, list_elem_of_singleton; tauto).
      assert (Hc : b ∈ base_name e.1 :: (base_name ∘ fst <$> l) <-> b ∈ base_name ∘ fst <$> l)
        by (rewrite elem_of_cons; tauto).
      rewrite (decide_ext _ _ _ _ Hp), (decide_ext _ _ _ _ Hc). done.
Qed.

Lemma user_lines_elem ty printed l x :
  x ∈ user_lines ty printed l ->
  (exists e, e ∈ l /\ x = sample_line e) \/ (exists b, b ∈ base_name ∘ fst <$> l /\ x = ty b).
Proof.
  revert printed. induction l as [|e l IH]; intros printed; [by intros ?%elem_of_nil|].
  assert (Hl : (exists e', e' ∈ l /\ x = sample_line e') \/ (exists b, b ∈ base_name ∘ fst <$> l /\ x = ty b) ->
    (exists e', e' ∈ e :: l /\ x = sample_line e') \/ (exists b, b ∈ base_name ∘ fst <$> e :: l /\ x = ty b)).
  { intros [(e' & ? & ?)|(b & ? & ?)]; [left; exists e'|right; exists b]; (split; [by right|done]). }
  cbn [user_lines]. destruct (bool_decide _); rewrite ?elem_of_cons.
  - intros [->|H]; [left; exists e; split; [by left|done]|eauto].
  - intros [->|[->|H]]; [right; exists (base_name e.1); split; [by left|done]
                        |left; exists e; split; [by left|done]|eauto].
Qed.

Lemma sample_not_type b e ty : ty = counter_type_line \/ ty = gauge_type_line -> sample_line e <> ty b.
Proof. intros [->| ->]; intros H; apply (f_equal head) in H; discriminate H. Qed.

Lemma counter_type_inj a b : counter_type_line a = counter_type_line b -> a = b.
Proof. unfold counter_type_line. by intros H%app_inv_head%app_inv_head%app_inv_tail. Qed.

Lemma gauge_type_inj a b : gauge_type_line a = gauge_type_line b -> a = b.
Proof. unfold gauge_type_line. by intros H%app_inv_head%app_inv_tail. Qed.

Section Written.
Context `{HC : !HashIter rstring Z}.

Definition bases (m : gmap rstring Z) : list rstring := base_name ∘ fst <$> by_name m.

Definition roto_lines (m : RotoMetrics) : list rstring :=
  user_lines counter_type_line [] (by_name (rm_counters m))
  ++ user_lines gauge_type_line [] (by_name (rm_gauges m)).

Lemma bases_elem m b : b ∈ bases m <-> exists n v, m !! n = Some v /\ base_name n = b.
Proof.
  unfold bases, by_name. rewrite list_elem_of_fmap. split.
  - intros ([n v] & -> & H). exists n, v. split; [|done].
    rewrite (proj1 (sort_named_ok _)) in H. by apply elem_of_map_to_list.
  - intros (n & v & H & <-). exists (n, v). split; [done|].
    rewrite (proj1 (sort_named_ok _)). by apply elem_of_map_to_list.
Qed.

Lemma roto_append_text m t :
  prometheus t -> roto_metrics_append m t = Some (push_str (lines_text (roto_lines m)) t).
Proof.
  intros Ht. unfold roto_metrics_append. rewrite !sort_iter, append_user_text by done. cbn [mbind option_bind].
  rewrite append_user_text by done. by rewrite push_push, <- lines_text_app.
Qed.

(** The metrics of the scripts are written as one sample for each counter and each gauge,
    in the order of their names and so independent of the order of the hash map, and
    every base name gets its type line once, however many samples share it. *)
Theorem roto_metrics_text m t :
  prometheus t ->
  roto_metrics_append m t = Some (push_str (lines_text (roto_lines m)) t)
  /\ (forall b, occurs (counter_type_line b) (user_lines counter_type_line [] (by_name (rm_counters m)))
                = if decide (b ∈ bases (rm_counters m)) then 1%nat else 0%nat)
  /\ (forall b, occurs (gauge_type_line b) (user_lines gauge_type_line [] (by_name (rm_gauges m)))
                = if decide (b ∈ bases (rm_gauges m)) then 1%nat else 0%nat).
Proof.
  intros Ht. split; [|split].
  - by apply roto_append_text.
  - intros b. rewrite user_lines_types; [done|apply counter_type_inj|].
    intros. apply sample_not_type. by left.
  - intros b. rewrite user_lines_types; [done|apply gauge_type_inj|].
    intros. apply sample_not_type. by right.
Qed.

(** The type line that would belong to the samples of a gauge. *)
Definition typed_gauge (b : rstring) : rstring := str "# TYPE " ++ user_prefix ++ b ++ str " gauge".

Lemma typed_not_counter b c : typed_gauge b <> counter_type_line c.
Proof.
  intros H. apply (f_equal last) in H. unfold typed_gauge, counter_type_line in H.
  rewrite !app_assoc in H.
  change (str " gauge") with (str " gaug" ++ [101]) in H.
  change (str " counter") with (str " counte" ++ [114]) in H.
  rewrite !app_assoc, !last_snoc in H. discriminate H.
Qed.

(** The samples of a gauge have no type line: the line that is written names the gauge
    without the prefix of its samples. *)
Theorem gauge_samples_untyped m b :
  user_prefix ++ b ∉ bases (rm_gauges m) -> typed_gauge b ∉ roto_lines m.
Proof.
  intros Hb. unfold roto_lines. rewrite elem_of_app. intros [H|H].
  - apply user_lines_elem in H as [(e & _ & H)|(c & _ & H)]; [|by apply typed_not_counter in H].
    apply (f_equal head) in H. discriminate H.
  - apply user_lines_elem in H as [(e & _ & H)|(c & Hc & H)].
    + apply (f_equal head) in H. discriminate H.
    + unfold typed_gauge, gauge_type_line in H. apply app_inv_head in H.
      rewrite app_assoc in H. apply app_inv_tail in H as <-. done.
Qed.

End Written.

(** ** The whole output ([Collection::assemble] of [src/metrics.rs])

    A source is the wrapper of the scripts' metrics, which the manager always registers, or
    one of the units', which write by calls of [Target::append] only. *)
From S2P Require Import MetricsUnits MetricsProps.

Local Open Scope Z_scope.

Inductive MetricSource : Type :=
| SCalls (calls : rstring -> list Call)
| SRoto (m : RotoMetrics).

Section Assembled.
Context `{HC : !HashIter rstring Z}.

Definition source_append (src : MetricSource) (name : rstring) (t : Target) : option Target :=
  match src with
  | SCalls calls => Some (calls_append (calls name) t)
  | SRoto m => roto_metrics_append m t
  end.

Definition source_texts (src : MetricSource) (name : rstring) : list rstring :=
  match src with
  | SCalls calls => calls name ≫= call_texts
  | SRoto m => roto_lines m
  end.

Lemma source_by_lines src name t :
  format t = Prometheus ->
  source_append src name t = Some (push_str (lines_text (source_texts src name)) t).
Proof.
  intros Hf. destruct src as [calls|m]; cbn.
  - by rewrite calls_append_text.
  - by apply roto_append_text.
Qed.

(** A name that a script may give: letters, digits and underscores, and behind them, if it
    wants labels, these in braces. [parts] finds the two in the names of a script. *)
Definition user_named (n : rstring) (p : rstring * list (rstring * rstring)) : Prop :=
  name_ok p.1 /\ labels_ok p.2
  /\ (n = p.1 /\ p.2 = [] \/ n = p.1 ++ [123] ++ labels_text p.2 ++ [125]).

Context (parts : rstring -> rstring * list (rstring * rstring)).

(** What is read of the counters or the gauges of a script. *)
Fixpoint user_read (type_line : rstring -> Line) (printed : list rstring)
    (l : list (rstring * Z)) : list Line :=
  match l with
  | [] => []
  | (n, v) :: l =>
      let '(b, ls) := parts n in
      let sample := LSample (user_prefix ++ b) ls (decimal 20 v) in
      if bool_decide (b ∈ printed) then sample :: user_read type_line printed l
      else type_line b :: sample :: user_read type_line (printed ++ [b]) l
  end.

Definition source_lines (src : MetricSource) (name : rstring) : list Line :=
  match src with
  | SCalls calls => calls name ≫= call_lines
  | SRoto m =>
      user_read (fun b => LType (user_prefix ++ b) (str "counter")) [] (by_name (rm_counters m))
      ++ user_read (fun b => LType b (str "gauge")) [] (by_name (rm_gauges m))
  end.

(** No name or label value needs escapes. *)
Definition source_ok (src : MetricSource) (name : rstring) : Prop :=
  match src with
  | SCalls calls => Forall call_ok (calls name)
  | SRoto m => forall n, is_Some (rm_counters m !! n) \/ is_Some (rm_gauges m !! n) -> user_named n (parts n)
  end.

Lemma split_once_at c b r : c ∉ b -> split_once c (b ++ c :: r) = Some (b, r).
Proof.
  induction b as [|x b IH]; cbn; intros Hb; [by rewrite Z.eqb_refl|].
  apply not_elem_of_cons in Hb as [Hx Hb]. rewrite (proj2 (Z.eqb_neq x c)) by done. by rewrite IH.
Qed.

Lemma split_once_none c b : c ∉ b -> split_once c b = None.
Proof.
  induction b as [|x b IH]; cbn; intros Hb; [done|].
  apply not_elem_of_cons in Hb as [Hx Hb]. rewrite (proj2 (Z.eqb_neq x c)) by done. by rewrite IH.
Qed.

Lemma named_base n p : user_named n p -> base_name n = p.1.
Proof.
  intros (Hb & _ & Hn). assert (123 ∉ p.1).
  { intros Hin. by pose proof (proj1 (Forall_forall _ _) Hb _ Hin). }
  unfold base_name. destruct Hn as [[-> _]| ->].
  - by rewrite split_once_none.
  - cbn [app]. by rewrite split_once_at.
Qed.

Lemma user_prefix_ok b : name_ok b -> name_ok (user_prefix ++ b).
Proof. intros Hb. apply Forall_app. split; [by repeat constructor|done]. Qed.

Lemma reads_user n v p :
  user_named n p -> reads (sample_line (n, v)) (LSample (user_prefix ++ p.1) p.2 (decimal 20 v)).
Proof.
  intros (Hb & Hl & Hn).
  assert (sample_line (n, v) = sample_text (bool_decide (n <> p.1)) (user_prefix ++ p.1) p.2 (decimal 20 v)
          /\ (bool_decide (n <> p.1) = false -> p.2 = [])) as [-> Hbr].
  { unfold sample_line, sample_text. cbn [fst snd]. destruct Hn as [[-> Hnil]| ->].
    - rewrite bool_decide_false by naive_solver. cbn [app]. by rewrite <- !app_assoc.
    - rewrite bool_decide_true; [by rewrite <- !app_assoc|].
      intros H%(f_equal length). rewrite length_app in H. cbn in H. lia. }
  apply reads_sample; [done|by apply user_prefix_ok|done|apply u64_text_ok|done].
Qed.

Lemma user_lines_read ty tl printed l :
  (forall b, name_ok b -> reads (ty b) (tl b)) -> Forall (fun e => user_named e.1 (parts e.1)) l ->
  Forall2 reads (user_lines ty printed l) (user_read tl printed l).
Proof.
  intros Hty Hl. revert printed. induction Hl as [|[n v] l Hn _ IH]; intros printed; [constructor|].
  cbn [user_lines user_read fst] in *. rewrite (named_base _ _ Hn).
  pose proof (reads_user n v _ Hn) as Hs. destruct (parts n) as [b ls] eqn:Hp. cbn [fst snd] in *.
  destruct (bool_decide (b ∈ printed)); [by constructor|].
  constructor; [|by constructor]. apply Hty. by destruct Hn.
Qed.

Lemma reads_user_type b c text :
  name_ok b -> metric_type_text c = text ->
  reads (str "# TYPE " ++ b ++ [32] ++ text) (LType b text).
Proof. intros Hb <-. by apply reads_type. Qed.

Lemma source_reads src name :
  source_ok src name -> Forall2 reads (source_texts src name) (source_lines src name).
Proof.
  destruct src as [calls|m]; cbn; intros Hok.
  - induction Hok as [|c cs Hc _ IH]; [constructor|].
    rewrite !bind_cons. apply Forall2_app; [by apply reads_call|done].
  - assert (Hin : forall mp : gmap rstring Z, (forall n, is_Some (mp !! n) -> user_named n (parts n)) ->
      Forall (fun e => user_named e.1 (parts e.1)) (by_name mp)).
    { intros mp Hmp. apply Forall_forall. intros [n v] He. unfold by_name in He.
      rewrite (proj1 (sort_named_ok _)), elem_of_map_to_list in He. apply Hmp. by eexists. }
    unfold roto_lines. apply Forall2_app; apply user_lines_read; auto.
    + intros b Hb. unfold counter_type_line. rewrite (app_assoc user_prefix).
      apply (reads_user_type _ Counter); [by apply user_prefix_ok|done].
    + intros b Hb. unfold gauge_type_line. by apply (reads_user_type _ Gauge).
Qed.


End Assembled.

(** ** A small script

    Updates that are their own parse results, lists in a map of bounded size, and the
    properties of the runtime applied to them. *)
From stdpp Require Import relations.
From S2P Require Import Rtr Metrics.

Local Open Scope Z_scope.

#[local] Existing Instances Demo.extern.

Module RotoDemo.

(** An update is its path, its communities and its numbers of routes. *)
Record Upd : Type := mk_upd {
  up_path : option (list Hop);
  up_communities : list Z;
  up_announced : Z
}.

(** A decimal number. *)
Fixpoint number (acc : Z) (s : rstring) : option Z :=
  match s with
  | [] => Some acc
  | c :: s => if (48 <=? c) && (c <=? 57) then number (acc * 10 + (c - 48)) s else None
  end.

#[export] Instance view : RotoView := {|
  Community := Z; Roto.LargeCommunity := Z; BgpUpdate := Upd;
  u_attribute_codes _ := Some [Some 1; Some 2];
  u_communities u := Some (up_communities u);
  u_large_communities _ := None;
  u_aspath := up_path;
  u_announcements u := Some (up_announced u);
  u_withdrawals _ := Some 0;
  u_conventional_announcements u := Some (up_announced u);
  u_conventional_withdrawals _ := Some 0;
  u_mp_announcements _ := None;
  u_mp_withdrawals _ := None;
  o_hop_path pa := Some (HopAsn <$> into_vec pa);
  o_communities _ := None;
  o_large_communities _ := None;
  o_attribute_codes _ := [Some 2];
  o_otc _ := None;
  r_asn_text a := str "AS" ++ decimal 10 a;
  r_path_text _ := str "?";
  r_community_text := decimal 10;
  r_large_community_text := decimal 10;
  community_from_u32 := id;
  community_to_u32 := id;
  large_community_from_bytes _ := 0;
  parse_community := number 0;
  parse_large_community := number 0;
  parse_asn := number 0
|}.

(** A map that refuses a new key when it is full. *)
#[export, refine] Instance bounded_map (cap : nat) (V : Type) : MicroMap cap V := {|
  MMap := gmap rstring V;
  mm_default := ∅;
  mm_get k m := m !! k;
  mm_checked_insert k v m :=
    if decide (is_Some (m !! k) \/ (size m < cap)%nat) then (Some (m !! k), <[k := v]> m) else (None, m);
  mm_view m := m
|}.
Proof.
  - done.
  - done.
  - intros k v m H. by rewrite decide_True.
  - intros k v m Hk Hs. rewrite decide_False; [done|]. rewrite Hk. intros [[? [=]]|]. lia.
Defined.

Definition as1 : Asn := 64500.
Definition u1 : Upd := mk_upd (Some [HopAsn 64496; HopAsn as1]) [7] 3.
Definition confed : Upd := mk_upd (Some [HopAsn 64496; HopSegment (str "{64500}")]) [] 1.
Definition m1 : BmpView := VRouteMonitoring 64496 (Some u1).
Definition m2 : BmpView := VRouteMonitoring 64496 (Some confed).

(** The script keeps its first entry after writing it, and goes on with it. *)
Definition script : list StreamOp :=
  [OpEntry 0 (log_all m1); OpWriteEntry; OpEntry 0 (set_custom (str "late")); OpLog O_PeerDown;
   OpEntry 1 (set_peer_as m1); OpWriteEntry].

Definition script_out : list Output := os_msgs (run_ops stream_op script stream_new).

Definition adds : list (rstring * rstring) :=
  [(str "a", str "64496 x 64497"); (str "b", str "1"); (str "a", [9] ++ str "64500 64501 ")].

Definition hits : rstring := str "hits".

(** Two scripts miss the counter at the same time, and both add to it. *)
Definition both_added : MetricState :=
  mk_metric_state (rm_inc_counter hits 2 (rm_inc_counter hits 5 roto_metrics_default))
    [((hits, 5), IncDone); ((hits, 2), IncDone)].

Lemma both_added_reachable : rtc metric_step metric_init both_added.
Proof.
  eapply rtc_l; [apply (step_call _ [] hits 2); lia|].
  eapply rtc_l; [apply (step_call _ _ hits 5); lia|].
  eapply rtc_l; [by eapply (step_increase _ _ [((hits, 5), IncStart)] [] hits 2)|].
  eapply rtc_l; [by eapply (step_increase _ _ [] _ hits 5)|].
  eapply rtc_l; [by eapply (step_increase _ _ [] _ hits 5)|].
  eapply rtc_l; [by eapply (step_increase _ _ [((hits, 5), IncDone)] [] hits 2)|]. apply rtc_refl.
Qed.

(** A route with two hops, and a cache that finds every origin but one valid. *)
Definition net : Demo.prefix := Demo.pfx (V4 167772160) 8 eq_refl.
Definition attrs : OwnedPathAttributes := mk_opa modern [64496; as1].
Definition the_route : RotondaRoute := RR_Ipv4Unicast (net : Prefix) (pamap_new attrs).
Definition cache (_ : Prefix) (a : Asn) : option RovStatus := Some (if a =? as1 then Payload.Invalid else Payload.Valid).

(** Two components, one of which is gone when the output is assembled, and the metrics of
    the scripts, with one counter that has a label. *)
Definition labelled : rstring := str "hits{peer=" ++ [34] ++ str "a" ++ [34] ++ str "}".
Definition script_metrics : RotoMetrics := rm_inc_counter labelled 7 roto_metrics_default.
Definition demo_parts (_ : rstring) : rstring * list (rstring * rstring) := (hits, [(str "peer", str "a")]).

Definition history : list RegisteredSource :=
  [mk_registered (str "roto") 3; mk_registered (str "b") 1; mk_registered (str "a") 2].
Definition unit_source (v : Z) : MetricSource := SCalls (fun _ => MetricsDemo.calls v).
Definition all_live : gmap nat MetricSource :=
  <[2%nat := unit_source 7]> (<[1%nat := unit_source 5]> (<[3%nat := SRoto script_metrics]> ∅)).
Definition some_live : gmap nat MetricSource := delete 2%nat all_live.

Definition sources : list RegisteredSource :=
  collection_register _ (str "a") 2 all_live
    (collection_register _ (str "b") 1 (<[1%nat := unit_source 5]> (<[3%nat := SRoto script_metrics]> ∅))
       (collection_register _ (str "roto") 3 (<[3%nat := SRoto script_metrics]> ∅) [])).

Lemma sources_collected : collected history some_live sources.
Proof.
  apply col_drop.
  apply (col_register [mk_registered (str "roto") 3; mk_registered (str "b") 1]); [by eexists|].
  apply col_create; [set_solver|].
  apply (col_register [mk_registered (str "roto") 3]); [by eexists|]. apply col_create; [set_solver|].
  apply (col_register []); [by eexists|]. apply col_create; [set_solver|]. constructor.
Qed.

Lemma labelled_ok : user_named labelled (demo_parts labelled).
Proof.
  split; [|split]; [by repeat constructor| |by right].
  constructor; [|constructor]. split; repeat constructor; done.
Qed.

Lemma route_attrs : with_attributes the_route attrs.
Proof. by exists NotChecked. Qed.

End RotoDemo.
#[local] Existing Instances RotoDemo.view RotoDemo.bounded_map.

(** An entry that already has an origin keeps it with the single methods, when the next
    path ends in a set, and loses it with [log_all]. *)
Lemma reused_entry_differs :
  let e := log_all RotoDemo.m1 log_entry_new in
  origin_as (log_all RotoDemo.m2 e) = None
  /\ origin_as (setters RotoDemo.m2 e) = Some RotoDemo.as1.
Proof. by vm_compute. Qed.

Lemma stream_refines_witness :
  ops_known RotoDemo.script 0
  /\ stream_spec (run_ops stream_op RotoDemo.script stream_new)
       (run_ops spec_op RotoDemo.script (mk_log_spec 0 log_entry_new []))
  /\ length RotoDemo.script_out = 3%nat.
Proof.
  split; [cbn; lia|]. split; [|reflexivity].
  apply (stream_refines RotoDemo.script). cbn. lia.
Defined.

Lemma fmt_pcap_roundtrip_witness : read_pcap (fmt_pcap [0; 255; 16; 10]) = Some [0; 255; 16; 10].
Proof. apply (fmt_pcap_roundtrip [0; 255; 16; 10]). repeat constructor; lia. Defined.

Lemma asn_lists_exact_witness :
  asn_list_contains (str "a") 64501 (add_asn_lists RotoDemo.adds mm_default) = true.
Proof.
  apply (asn_lists_exact RotoDemo.adds (str "a") 64501).
  - vm_compute. lia.
  - exists ([9] ++ str "64500 64501 "). split; [reflexivity|].
    assert (omap parse_asn (split_whitespace ([9] ++ str "64500 64501 ")) = [64500; 64501]) as ->
      by reflexivity.
    right. left.
Defined.

Lemma counters_add_up_witness :
  rm_counters (ms_metrics RotoDemo.both_added) !! RotoDemo.hits = Some 7.
Proof.
  rewrite (counters_add_up RotoDemo.both_added RotoDemo.hits RotoDemo.both_added_reachable).
  - reflexivity.
  - repeat constructor.
Defined.

Lemma roto_metrics_text_witness :
  prometheus (target_new Prometheus)
  /\ @roto_metrics_append (list_order rstring Z) (ms_metrics RotoDemo.both_added) (target_new Prometheus)
     = Some (mk_target Prometheus (lines_text (roto_lines (ms_metrics RotoDemo.both_added)))).
Proof.
  split; [reflexivity|].
  exact (proj1 (@roto_metrics_text (list_order rstring Z) (ms_metrics RotoDemo.both_added)
                  (target_new Prometheus) eq_refl)).
Defined.

Lemma gauge_samples_untyped_witness :
  let m := rm_set_gauge (str "load") 3 roto_metrics_default in
  typed_gauge (str "load") ∉ roto_lines m.
Proof.
  apply (gauge_samples_untyped (rm_set_gauge (str "load") 3 roto_metrics_default) (str "load")).
  intros H. apply bases_elem in H as (n & v & Hn & Hb). cbn in Hn.
  apply lookup_insert_Some in Hn as [[<- _]|[_ Hn]]; [|by rewrite lookup_empty in Hn].
  vm_compute in Hb. discriminate Hb.
Defined.

Lemma check_rov_stored_witness :
  exists st r', roto_check_rov RotoDemo.cache RotoDemo.the_route = Some (st, r')
    /\ stored_rov r' = Some st.
Proof.
  destruct (check_rov_stored RotoDemo.cache RotoDemo.the_route RotoDemo.attrs RotoDemo.route_attrs)
    as (st & r' & H & _ & _ & _ & Hs).
  - intros p a. by eexists.
  - exists st, r'. split; [exact H|]. exact (proj1 Hs).
Defined.

