(* ===== verification/FileOut.v ===== *)
(** * The file target ([src/targets/file/target.rs])

    [write_record] and the loop of [run].  The buffered writer of tokio and the
    serializers are parameters; the time of a turn is that of the clock when its wait
    ends, in milliseconds. *)

From Stdlib Require Import ZArith Lia.
From stdpp Require Import base numbers list gmap strings.
From S2P Require Import Prelude Net Register Payload BmpRouter RotoState.

Local Open Scope Z_scope.

(** [BufWriter<File>]: [accepted] is what the calls have handed to it so far, [durable]
    what has reached the file.  A write that fails may have taken a part of its octets. *)
Class Writer := {
  Wr : Type;
  wr_new : Wr;
  wr_write_all : list Z -> Wr -> bool * Wr;
  wr_flush : Wr -> bool * Wr;
  accepted : Wr -> list Z;
  durable : Wr -> list Z;

  wr_new_empty : accepted wr_new = [];
  wr_durable w : durable w `prefix_of` accepted w;
  wr_write_durable b w : durable w `prefix_of` durable (wr_write_all b w).2;
  wr_write_ok b w :
    (wr_write_all b w).1 = true -> accepted (wr_write_all b w).2 = accepted w ++ b;
  wr_write_err b w :
    (wr_write_all b w).1 = false ->
    exists p, p `prefix_of` b /\ accepted (wr_write_all b w).2 = accepted w ++ p;
  wr_flush_accepted w : accepted (wr_flush w).2 = accepted w;
  wr_flush_durable w : durable w `prefix_of` durable (wr_flush w).2;
  wr_flush_ok w : (wr_flush w).1 = true -> durable (wr_flush w).2 = accepted w
}.

Inductive Format : Type := Csv | Json | JsonMin.

(** What the serializers and chrono give; [None] is an error of theirs. *)
Class Serializers `{E : Extern} := {
  to_csv : OutputStreamMessageRecord -> option (list Z);
  to_json_vec : OutputStreamMessageRecord -> option (list Z);
  minimal_to_json_vec : MinimalLogEntry -> option (list Z);
  rfc3339_secs : Z -> rstring;
  utf8 : rstring -> list Z
}.

(** [LAST_FLUSH_TIMEOUT_SECS], in milliseconds. *)
Definition LAST_FLUSH_TIMEOUT : Z := 1000.

Section Target.
Context `{E : Extern} `{L : Layout} `{WR : Writer} `{SE : !Serializers}.

Record FileRunner : Type := mk_file_runner {
  fr_format : Format;
  target_file : option Wr;
  last_flush : Z
}.

(** [FileRunner::new]. *)
Definition file_runner_new (f : Format) (now : Z) : FileRunner := mk_file_runner f None now.

(** The error of [flush] is dropped. *)
Definition fr_flush (now : Z) (r : FileRunner) : FileRunner :=
  match target_file r with
  | Some dst => mk_file_runner (fr_format r) (Some (wr_flush dst).2) now
  | None => r
  end.

(** [write_all(..).await?] one after the other. *)
Fixpoint write_parts (parts : list (list Z)) (w : Wr) : bool * Wr :=
  match parts with
  | [] => (true, w)
  | p :: parts => let '(ok, w) := wr_write_all p w in if ok then write_parts parts w else (false, w)
  end.

Definition newline : list Z := [10].

(** The parts that [write_record] writes one after the other; [None] is an error before
    anything is written. *)
Definition record_parts (f : Format) (m : OutputStreamMessageRecord) : option (list (list Z)) :=
  match m with
  | OR_Entry e =>
      match le_custom e with
      | Some custom =>
          Some ((if le_timestamp e =? 0 then []
                 else [utf8 ([91] ++ rfc3339_secs (le_timestamp e) ++ [93; 32])])
                ++ [utf8 custom; newline])
      | None =>
          match f with
          | Csv => (fun b => [b]) <$> to_csv m
          | Json => Some (match to_json_vec m with Some b => [b; newline] | None => [] end)
          | JsonMin =>
              Some (match minimal_to_json_vec (into_minimal e) with
                    | Some b => [b; newline]
                    | None => []
                    end)
          end
      end
  | _ =>
      match f with
      | Csv => (fun b => [b]) <$> to_csv m
      | Json | JsonMin => Some (match to_json_vec m with Some b => [b; newline] | None => [] end)
      end
  end.

(** [write_record]. *)
Definition write_record (m : OutputStreamMessageRecord) (r : FileRunner) : bool * FileRunner :=
  match target_file r with
  | None => (true, r)
  | Some dst =>
      match record_parts (fr_format r) m with
      | None => (false, r)
      | Some parts =>
          let '(ok, dst) := write_parts parts dst in
          (ok, mk_file_runner (fr_format r) (Some dst) (last_flush r))
      end
  end.

(** The records of an update, up to the first that fails. *)
Fixpoint write_batch (ms : list OutputStreamMessageRecord) (r : FileRunner) : FileRunner :=
  match ms with
  | [] => r
  | m :: ms => let '(ok, r) := write_record m r in if ok then write_batch ms r else r
  end.

Definition handle_update (u : Update) (r : FileRunner) : FileRunner :=
  match u with
  | Payload.OutputStream msgs => write_batch (osm_record <$> msgs) r
  | _ => r
  end.

(** What ends the wait of a turn. *)
Inductive Wake : Type :=
| WTimeout
| WReconfigure
| WReportLinks
| WTerminate
| WCommandsClosed
| WUpdate (u : Update)
| WGateError.

(** A turn of the loop; the second component says whether it goes on. *)
Definition file_turn (now : Z) (w : Wake) (r : FileRunner) : FileRunner * bool :=
  match w with
  | WTimeout => (fr_flush now r, true)
  | _ =>
      let r := if last_flush r + LAST_FLUSH_TIMEOUT <? now then fr_flush now r else r in
      match w with
      | WUpdate u => (handle_update u r, true)
      | WReconfigure | WReportLinks | WTimeout => (r, true)
      | WTerminate | WCommandsClosed | WGateError => (r, false)
      end
  end.

(** [run] on the wakes that come; a run that has not ended waits for more. *)
Fixpoint file_loop (ws : list (Z * Wake)) (r : FileRunner) : FileRunner :=
  match ws with
  | [] => r
  | (now, w) :: ws =>
      let '(r, go_on) := file_turn now w r in
      if go_on then file_loop ws r else fr_flush now r
  end.

(** [run] of [File]: [None] where the file cannot be created. *)
Definition file_run (f : Format) (created : bool) (now : Z) (ws : list (Z * Wake)) : option FileRunner :=
  if created then Some (file_loop ws (mk_file_runner f (Some wr_new) now)) else None.

End Target.
