(* ===== verification/FileOutProps.v ===== *)
(** * What the file target writes, and when it is in the file *)

From Stdlib Require Import ZArith Lia.
From stdpp Require Import base numbers list gmap strings.
From S2P Require Import Prelude Net Register Payload BmpRouter RotoState FileOut.

Local Open Scope Z_scope.

Section Contents.
Context `{E : Extern} `{L : Layout} `{WR : Writer} `{SE : !Serializers}.

(** What has been handed to the file so far, and what is in it. *)
Definition handed (r : FileRunner) : list Z := match target_file r with Some w => accepted w | None => [] end.
Definition in_file (r : FileRunner) : list Z := match target_file r with Some w => durable w | None => [] end.

Definition is_open (r : FileRunner) : Prop := is_Some (target_file r).

(** The records that an update brings. *)
Definition batch_of (w : Wake) : list OutputStreamMessageRecord :=
  match w with WUpdate (Payload.OutputStream msgs) => osm_record <$> msgs | _ => [] end.

(** Writes that all succeed, one after the other. *)
Inductive puts : list (list Z) -> Wr -> Wr -> Prop :=
| puts_end w : puts [] w w
| puts_part b bs w w1 w2 : wr_write_all b w = (true, w1) -> puts bs w1 w2 -> puts (b :: bs) w w2.

(** How the records of one update are written, with the octets the file takes: all the
    parts of each record in order, up to the end, or up to a write that fails, of which
    the file took [p], or up to a record that the serializer refuses. *)
Inductive batch_run (f : Format) : list OutputStreamMessageRecord -> Wr -> list Z -> Wr -> Prop :=
| batch_end w : batch_run f [] w [] w
| batch_record m ms parts out w w1 w2 :
    record_parts f m = Some parts -> puts parts w w1 -> batch_run f ms w1 out w2 ->
    batch_run f (m :: ms) w (concat parts ++ out) w2
| batch_torn m ms whole b rest p w w1 w2 :
    record_parts f m = Some (whole ++ b :: rest) -> puts whole w w1 ->
    wr_write_all b w1 = (false, w2) -> p `prefix_of` b -> accepted w2 = accepted w1 ++ p ->
    batch_run f (m :: ms) w (concat whole ++ p) w2
| batch_refused m ms w : record_parts f m = None -> batch_run f (m :: ms) w [] w.

(** The updates of a run, each of which starts where the one before it left the file, with
    flushes between them. *)
Inductive batches_run (f : Format)
    : list (list OutputStreamMessageRecord) -> Wr -> list (list Z) -> Wr -> Prop :=
| batches_end w : batches_run f [] w [] w
| batches_flush mss outs w w2 : batches_run f mss (wr_flush w).2 outs w2 -> batches_run f mss w outs w2
| batches_update ms mss out outs w w1 w2 :
    batch_run f ms w out w1 -> batches_run f mss w1 outs w2 ->
    batches_run f (ms :: mss) w (out :: outs) w2.

(** ** Writing *)
Lemma puts_accepted parts w w' :
  puts parts w w' -> accepted w' = accepted w ++ concat parts /\ durable w `prefix_of` durable w'.
Proof.
  induction 1 as [w|b bs w w1 w2 Hb _ [IH1 IH2]]; [by rewrite app_nil_r|].
  pose proof (wr_write_ok b w) as Ha. pose proof (wr_write_durable b w) as Hd.
  rewrite Hb in Ha, Hd. cbn in *. split; [by rewrite IH1, Ha, <- app_assoc by done|by etrans].
Qed.

Lemma write_parts_run parts w :
  let '(ok, w') := write_parts parts w in
  if ok then puts parts w w'
  else exists whole b rest w1, parts = whole ++ b :: rest /\ puts whole w w1 /\ wr_write_all b w1 = (false, w').
Proof.
  revert w. induction parts as [|b parts IH]; intros w; cbn; [constructor|].
  destruct (wr_write_all b w) as [[] w1] eqn:Hb.
  - specialize (IH w1). destruct (write_parts parts w1) as [[] w']; [by econstructor|].
    destruct IH as (whole & b' & rest & w2 & -> & Hp & Hf). exists (b :: whole), b', rest, w2.
    split; [done|]. split; [by econstructor|done].
  - exists [], b, parts, w. split; [done|]. split; [constructor|done].
Qed.

Lemma batch_run_accepted f ms w out w' :
  batch_run f ms w out w' -> accepted w' = accepted w ++ out /\ durable w `prefix_of` durable w'.
Proof.
  induction 1 as [w|m ms parts out w w1 w2 _ Hp _ [IH1 IH2]|m ms whole b rest p w w1 w2 _ Hp Hb _ Ha|m ms w _].
  - by rewrite app_nil_r.
  - apply puts_accepted in Hp as [Hp1 Hp2]. split; [by rewrite IH1, Hp1, <- app_assoc|by etrans].
  - apply puts_accepted in Hp as [Hp1 Hp2]. split; [by rewrite Ha, Hp1, <- app_assoc|].
    pose proof (wr_write_durable b w1) as Hd. rewrite Hb in Hd. by etrans.
  - by rewrite app_nil_r.
Qed.

Lemma batches_run_accepted f mss w outs w' :
  batches_run f mss w outs w' -> accepted w' = accepted w ++ concat outs.
Proof.
  induction 1 as [w|mss outs w w2 _ IH|ms mss out outs w w1 w2 Hb _ IH]; [by rewrite app_nil_r| |].
  - by rewrite IH, wr_flush_accepted.
  - apply batch_run_accepted in Hb as [Hb _]. by rewrite IH, Hb, <- app_assoc.
Qed.

(** What a step leaves as it is: the format, the time of the last flush, the file. *)
Definition writes (out : list Z) (r r' : FileRunner) : Prop :=
  is_open r' /\ fr_format r' = fr_format r /\ last_flush r' = last_flush r
  /\ handed r' = handed r ++ out /\ in_file r `prefix_of` in_file r'.

Lemma writes_nil r : is_open r -> writes [] r r.
Proof. intros H. repeat split; [done|by rewrite app_nil_r|done]. Qed.

Lemma write_batch_run ms r w :
  target_file r = Some w ->
  exists out w', write_batch ms r = mk_file_runner (fr_format r) (Some w') (last_flush r)
    /\ batch_run (fr_format r) ms w out w'.
Proof.
  revert r w. induction ms as [|m ms IH]; intros r w Hw; cbn.
  { exists [], w. split; [destruct r; cbn in *; by subst|constructor]. }
  unfold write_record. rewrite Hw. destruct (record_parts (fr_format r) m) as [parts|] eqn:Hp.
  - pose proof (write_parts_run parts w) as Hrun. destruct (write_parts parts w) as [[] w1].
    + destruct (IH (mk_file_runner (fr_format r) (Some w1) (last_flush r)) w1 eq_refl) as (out & w2 & -> & Hb).
      eexists _, w2. split; [done|]. by eapply batch_record.
    + destruct Hrun as (whole & b & rest & w2 & -> & Hpu & Hf).
      pose proof (wr_write_err b w2) as He. rewrite Hf in He. destruct (He eq_refl) as (p & Hpre & Ha).
      eexists _, w1. split; [done|]. by eapply batch_torn.
  - exists [], w. split; [destruct r; cbn in *; by subst|by constructor].
Qed.

Lemma handle_update_run u r w :
  target_file r = Some w ->
  exists out w', target_file (handle_update u r) = Some w' /\ writes out r (handle_update u r)
    /\ batch_run (fr_format r) (batch_of (WUpdate u)) w out w'.
Proof.
  intros Hw. assert (Ho : is_open r) by (by eexists). destruct u;
    try (exists [], w; (split; [done|]); (split; [by apply writes_nil|constructor])).
  cbn [handle_update batch_of]. destruct (write_batch_run (osm_record <$> msgs) r w Hw) as (out & w' & -> & Hb).
  exists out, w'. split; [done|]. split; [|done]. apply batch_run_accepted in Hb as [Ha Hd].
  unfold writes, handed, in_file, is_open. cbn. rewrite Hw. by eauto.
Qed.

(** ** Flushing *)
Lemma flush_keeps now r :
  is_open r -> is_open (fr_flush now r) /\ fr_format (fr_flush now r) = fr_format r
  /\ last_flush (fr_flush now r) = now /\ handed (fr_flush now r) = handed r
  /\ in_file r `prefix_of` in_file (fr_flush now r).
Proof.
  intros [w Hw]. unfold fr_flush, handed, in_file, is_open. rewrite Hw. cbn.
  repeat split; [by eexists|apply wr_flush_accepted|apply wr_flush_durable].
Qed.

(** ** A turn *)
Definition before_turn (now : Z) (w : Wake) (r : FileRunner) : FileRunner :=
  match w with
  | WTimeout => fr_flush now r
  | _ => if last_flush r + LAST_FLUSH_TIMEOUT <? now then fr_flush now r else r
  end.

Lemma file_turn_before now w r :
  (file_turn now w r).1 = match w with WUpdate u => handle_update u (before_turn now w r) | _ => before_turn now w r end.
Proof. by destruct w. Qed.

(** Whether the turn flushes the file. *)
Definition flushes (now : Z) (w : Wake) (r : FileRunner) : bool :=
  match w with WTimeout => true | _ => last_flush r + LAST_FLUSH_TIMEOUT <? now end.

Lemma before_turn_flushes now w r : before_turn now w r = if flushes now w r then fr_flush now r else r.
Proof. by destruct w. Qed.

Lemma before_turn_keeps now w r :
  is_open r -> is_open (before_turn now w r) /\ fr_format (before_turn now w r) = fr_format r
  /\ handed (before_turn now w r) = handed r /\ in_file r `prefix_of` in_file (before_turn now w r)
  /\ (before_turn now w r = fr_flush now r
      \/ before_turn now w r = r /\ now <= last_flush r + LAST_FLUSH_TIMEOUT).
Proof.
  intros Ho. pose proof (flush_keeps now r Ho) as (H1 & H2 & _ & H3 & H4).
  assert (Hc : before_turn now w r = fr_flush now r
               \/ before_turn now w r = r /\ now <= last_flush r + LAST_FLUSH_TIMEOUT).
  { unfold before_turn. destruct w; try (by left);
      (destruct (Z.ltb_spec (last_flush r + LAST_FLUSH_TIMEOUT) now); [by left|by right]). }
  split; [|split; [|split; [|split; [|done]]]]; destruct Hc as [->|[-> _]]; try done.
Qed.

Lemma file_turn_run now w r :
  is_open r ->
  let r' := (file_turn now w r).1 in
  exists d0 d1 out, target_file (before_turn now w r) = Some d0 /\ target_file r' = Some d1
    /\ batch_run (fr_format r) (batch_of w) d0 out d1
    /\ fr_format r' = fr_format r /\ handed r' = handed r ++ out
    /\ in_file r `prefix_of` in_file r'
    /\ last_flush r' = last_flush (before_turn now w r)
    /\ in_file (before_turn now w r) `prefix_of` in_file r'.
Proof.
  intros Ho. cbn. rewrite file_turn_before.
  destruct (before_turn_keeps now w r Ho) as ([d0 Hd0] & H2 & H3 & H4 & _).
  destruct w as [| | | | |u|];
    try (exists d0, d0, []; rewrite app_nil_r; split; [done|]; split; [done|]; split; [constructor|]; by repeat split).
  destruct (handle_update_run u _ d0 Hd0) as (out & d1 & Hd1 & (Hw1 & Hw2 & Hw3 & Hw4 & Hw5) & Hb).
  exists d0, d1, out. rewrite <- H2 at 1. split; [done|]. split; [done|]. split; [done|].
  repeat split; [by rewrite Hw2|by rewrite Hw4, H3|by etrans|done|done].
Qed.

Lemma file_turn_open now w r : is_open r -> is_open (file_turn now w r).1.
Proof. intros Ho. destruct (file_turn_run now w r Ho) as (_ & d & _ & _ & Hd & _). by exists d. Qed.

Lemma file_turn_grows now w r :
  is_open r -> handed r `prefix_of` handed (file_turn now w r).1
               /\ in_file r `prefix_of` in_file (file_turn now w r).1.
Proof.
  intros Ho. destruct (file_turn_run now w r Ho) as (_ & _ & out & _ & _ & _ & _ & -> & Hi & _).
  split; [by apply prefix_app_r|done].
Qed.

Lemma file_turn_last_flush now w r :
  is_open r -> last_flush (file_turn now w r).1 = if flushes now w r then now else last_flush r.
Proof.
  intros Ho. destruct (file_turn_run now w r Ho) as (_ & _ & _ & _ & _ & _ & _ & _ & _ & -> & _).
  rewrite before_turn_flushes. destruct (flushes now w r); [|done].
  by destruct (flush_keeps now r Ho) as (_ & _ & -> & _).
Qed.

(** ** Runs *)

(** The wakes that a run answers: up to the first that ends it. *)
Definition ends (w : Wake) : bool :=
  match w with WTerminate | WCommandsClosed | WGateError => true | _ => false end.

Fixpoint served (ws : list (Z * Wake)) : list (Z * Wake) :=
  match ws with
  | [] => []
  | e :: ws => if ends e.2 then [e] else e :: served ws
  end.

Lemma file_turn_goes_on now w r : (file_turn now w r).2 = negb (ends w).
Proof. by destruct w. Qed.

Lemma before_turn_batches f mss outs now w r d d' :
  target_file r = Some d -> target_file (before_turn now w r) = Some d' ->
  forall d2, batches_run f mss d' outs d2 -> batches_run f mss d outs d2.
Proof.
  intros Hd Hd' d2 Hb. rewrite before_turn_flushes in Hd'. destruct (flushes now w r); [|congruence].
  unfold fr_flush in Hd'. rewrite Hd in Hd'. injection Hd' as <-. by apply batches_flush.
Qed.

(** C27: what the file gets, whatever writes and flushes fail. The updates are written one
    after the other, each from where the one before it left the file, be that one whole or
    not; of each update the records are written in order, every record with all its parts,
    until the end, or until a write fails, of which the file may have a part, or (in CSV
    only) until a record cannot be serialized: the rest of that update is dropped, and the
    next update is written all the same. So an update none of whose writes fails is in the
    file with all its lines. The octets handed to the file are these and no others. *)
Theorem file_contents ws r w :
  target_file r = Some w ->
  exists outs w', batches_run (fr_format r) (batch_of ∘ snd <$> served ws) w outs w'
    /\ target_file (file_loop ws r) = Some w'
    /\ handed (file_loop ws r) = handed r ++ concat outs.
Proof.
  intros Hw. enough (exists outs w', batches_run (fr_format r) (batch_of ∘ snd <$> served ws) w outs w'
    /\ target_file (file_loop ws r) = Some w') as (outs & w' & Hb & Hw').
  { exists outs, w'. split; [done|]. split; [done|]. unfold handed. rewrite Hw, Hw'.
    by eapply batches_run_accepted. }
  revert r w Hw. induction ws as [|[now e] ws IH]; intros r w Hw.
  { exists [], w. split; [constructor|done]. }
  destruct (file_turn_run now e r) as (d0 & d1 & out & Hd0 & Hd1 & Hb & Hf & _); [by eexists|].
  pose proof (file_turn_goes_on now e r) as Hg. cbn [file_loop served snd].
  destruct (file_turn now e r) as [r' go_on]; cbn [fst snd] in *. subst go_on. destruct (ends e); cbn [negb].
  - exists [out], (wr_flush d1).2. split.
    + eapply before_turn_batches; [done..|]. eapply batches_update; [done|]. apply batches_flush, batches_end.
    + unfold fr_flush. by rewrite Hd1.
  - destruct (IH r' d1 Hd1) as (outs & w' & Hbs & Hw'). rewrite Hf in Hbs. exists (out :: outs), w'.
    split; [|done]. eapply before_turn_batches; [done..|]. by eapply batches_update.
Qed.

(** ** How long a line can wait *)
Definition flush_succeeds : Prop := forall w, (wr_flush w).1 = true.

Lemma flush_in_file now r : flush_succeeds -> is_open r -> in_file (fr_flush now r) = handed r.
Proof.
  intros H [w Hw]. unfold fr_flush, in_file, handed. rewrite Hw. cbn. by apply wr_flush_ok.
Qed.

(** A run that ended has all that it took in the file. *)
Theorem file_end_flushed ws r :
  flush_succeeds -> is_open r -> existsb (fun e => ends e.2) ws = true ->
  in_file (file_loop ws r) = handed (file_loop ws r).
Proof.
  intros Hfl. revert r. induction ws as [|[now w] ws IH]; intros r Ho; [done|].
  pose proof (file_turn_open now w r Ho) as Ho'.
  pose proof (file_turn_goes_on now w r) as Hg. cbn [file_loop existsb snd].
  destruct (file_turn now w r) as [r' go_on]; cbn in *. subst go_on.
  destruct (ends w); cbn [negb orb].
  - intros _. destruct (flush_keeps now r' Ho') as (_ & _ & _ & -> & _). by apply flush_in_file.
  - by apply IH.
Qed.

(** The times of the wakes, and the last of them. *)
Fixpoint times_up (t : Z) (ws : list (Z * Wake)) : Prop :=
  match ws with [] => True | (now, _) :: ws => t <= now /\ times_up now ws end.

Definition last_time (t : Z) (ws : list (Z * Wake)) : Z := foldl (fun _ e => e.1) t ws.

Definition go_on (ws : list (Z * Wake)) : Prop := Forall (fun e => ends e.2 = false) ws.

Lemma turn_last_flush now w r :
  is_open r -> last_flush r <= now ->
  now - LAST_FLUSH_TIMEOUT <= last_flush (file_turn now w r).1 <= now.
Proof.
  intros Ho Hle. rewrite file_turn_last_flush by done. unfold flushes, LAST_FLUSH_TIMEOUT.
  destruct w; try lia; (destruct (Z.ltb_spec (last_flush r + 1000) now); lia).
Qed.

Lemma loop_step now w ws r :
  ends w = false -> file_loop ((now, w) :: ws) r = file_loop ws (file_turn now w r).1.
Proof.
  intros H. cbn [file_loop]. pose proof (file_turn_goes_on now w r) as Hg. rewrite H in Hg.
  destruct (file_turn now w r) as [r' g]; cbn in *. by subst g.
Qed.

Lemma loop_app ws1 ws2 r : go_on ws1 -> file_loop (ws1 ++ ws2) r = file_loop ws2 (file_loop ws1 r).
Proof.
  intros H. revert r. induction H as [|[now w] ws1 He _ IH]; intros r; [done|].
  cbn [app]. by rewrite !loop_step, IH.
Qed.

Lemma loop_grows ws r :
  go_on ws -> is_open r ->
  is_open (file_loop ws r) /\ handed r `prefix_of` handed (file_loop ws r)
  /\ in_file r `prefix_of` in_file (file_loop ws r).
Proof.
  intros Hg. revert r. induction Hg as [|[now w] ws He _ IH]; intros r Ho; [done|].
  rewrite loop_step by done. destruct (file_turn_grows now w r Ho) as [H1 H2].
  destruct (IH _ (file_turn_open now w r Ho)) as (H3 & H4 & H5). split; [done|]. split; by etrans.
Qed.

(** Turns that leave the time of the last flush alone, or one that flushes. *)
Lemma loop_flushes ws r :
  go_on ws -> is_open r ->
  last_flush (file_loop ws r) = last_flush r
  \/ exists a now w b, ws = a ++ (now, w) :: b /\ flushes now w (file_loop a r) = true.
Proof.
  intros Hg. revert r. induction Hg as [|[now w] ws He _ IH]; intros r Ho; [by left|].
  destruct (flushes now w r) eqn:Hf; [right; by exists [], now, w, ws|].
  rewrite loop_step by done.
  destruct (IH _ (file_turn_open now w r Ho)) as [Hl|(a & now' & w' & b & -> & Hfl)].
  - left. by rewrite Hl, file_turn_last_flush, Hf.
  - right. exists ((now, w) :: a), now', w', b. by rewrite loop_step.
Qed.

(** A turn whose flush succeeds has in the file what was taken before. *)
Lemma flush_turn_in_file now w r d :
  target_file r = Some d -> flushes now w r = true -> (wr_flush d).1 = true ->
  handed r `prefix_of` in_file (file_turn now w r).1.
Proof.
  intros Hd Hf Hok.
  destruct (file_turn_run now w r) as (_ & _ & _ & _ & _ & _ & _ & _ & _ & _ & Hi); [by eexists|].
  rewrite before_turn_flushes, Hf in Hi. etrans; [|exact Hi]. unfold fr_flush, in_file, handed.
  rewrite Hd. cbn. by rewrite wr_flush_ok.
Qed.

Lemma loop_last_flush t ws r :
  go_on ws -> times_up t ws -> is_open r -> t - LAST_FLUSH_TIMEOUT <= last_flush r <= t ->
  is_open (file_loop ws r)
  /\ last_time t ws - LAST_FLUSH_TIMEOUT <= last_flush (file_loop ws r) <= last_time t ws.
Proof.
  intros Hg. revert t r. induction Hg as [|[now w] ws He _ IH]; intros t r Ht Ho Hl; [done|].
  rewrite loop_step by done. destruct Ht as [Ht1 Ht2]. cbn [last_time foldl fst].
  apply IH; [done|by apply file_turn_open|].
  apply turn_last_flush; [done|lia].
Qed.

Lemma times_up_app t ws1 ws2 : times_up t (ws1 ++ ws2) <-> times_up t ws1 /\ times_up (last_time t ws1) ws2.
Proof.
  revert t. induction ws1 as [|[now w] ws1 IH]; intros t; cbn; [tauto|]. rewrite IH. unfold last_time. tauto.
Qed.

(** C35: a line is flushed at the latest two timeouts after it was taken. The target that
    waits at a time [t], since a wake at most one timeout ago, has flushed its file in one
    of the turns since, with all in the buffer that it took until two timeouts before [t];
    and when that flush succeeded all of it is in the file and stays there. (The result of
    a flush is dropped, and the timeout starts over: when it failed, the lines wait for the
    next flush, and the target does not know.) *)
Theorem file_flushed_in_time f start ws1 ws2 t :
  let r := mk_file_runner f (Some wr_new) start in
  go_on (ws1 ++ ws2) -> times_up start (ws1 ++ ws2) ->
  t <= last_time start (ws1 ++ ws2) + LAST_FLUSH_TIMEOUT ->
  last_time start ws1 + 2 * LAST_FLUSH_TIMEOUT < t ->
  exists a now w b d, ws2 = a ++ (now, w) :: b
    /\ flushes now w (file_loop (ws1 ++ a) r) = true
    /\ target_file (file_loop (ws1 ++ a) r) = Some d
    /\ handed (file_loop ws1 r) `prefix_of` accepted d
    /\ ((wr_flush d).1 = true ->
        handed (file_loop ws1 r) `prefix_of` in_file (file_loop (ws1 ++ ws2) r)).
Proof.
  intros r Hg Ht Hw Hs. apply Forall_app in Hg as [Hg1 Hg2].
  assert (Ho : is_open r) by (by eexists).
  apply times_up_app in Ht as [Ht1 Ht2].
  destruct (loop_last_flush start ws1 r Hg1 Ht1 Ho) as [Ho1 Hl1]; [unfold LAST_FLUSH_TIMEOUT; cbn; lia|].
  destruct (loop_last_flush _ ws2 (file_loop ws1 r) Hg2 Ht2 Ho1 Hl1) as [Ho2 Hl2].
  unfold last_time in *. rewrite foldl_app in Hw.
  destruct (loop_flushes ws2 (file_loop ws1 r) Hg2 Ho1) as [Hd|(a & now & w & b & -> & Hf)]; [lia|].
  apply Forall_app in Hg2 as [Hga [He Hgb]%Forall_cons].
  destruct (loop_grows a _ Hga Ho1) as (Hoa & Hha & _). pose proof Hoa as [d Hd].
  exists a, now, w, b, d. rewrite !loop_app by done. split; [done|]. split; [done|]. split; [done|].
  assert (Had : handed (file_loop a (file_loop ws1 r)) = accepted d) by (unfold handed; by rewrite Hd).
  split; [by rewrite <- Had|]. intros Hok. rewrite loop_step by done.
  etrans; [exact Hha|]. etrans; [by eapply flush_turn_in_file|].
  by apply loop_grows, file_turn_open.
Qed.

End Contents.

(** ** A small file target

    A disk that fails as planned: the second write of the run takes three octets. *)

#[local] Existing Instances Demo.extern demo_layout.

Module FileOutDemo.

(** A buffer over a disk; [plan] says how many octets the writes to come take where they
    fail. *)
Record Disk : Type := mk_disk { taken : list Z; stored : list Z; plan : list (option nat);
  stored_taken : bool_decide (stored `prefix_of` taken) = true }.

Lemma stored_app (s t p : list Z) : bool_decide (s `prefix_of` t) = true -> bool_decide (s `prefix_of` t ++ p) = true.
Proof. rewrite !bool_decide_eq_true. apply prefix_app_r. Qed.

Definition disk_write (b : list Z) (d : Disk) : bool * Disk :=
  match plan d with
  | Some k :: rest =>
      (false, mk_disk (taken d ++ take k b) (stored d) rest (stored_app _ _ _ (stored_taken d)))
  | _ => (true, mk_disk (taken d ++ b) (stored d) (tail (plan d)) (stored_app _ _ _ (stored_taken d)))
  end.

Lemma all_stored (t : list Z) : bool_decide (t `prefix_of` t) = true.
Proof. by apply bool_decide_eq_true. Qed.

Definition disk_flush (d : Disk) : bool * Disk :=
  (true, mk_disk (taken d) (taken d) (plan d) (all_stored _)).

Definition disk (p : list (option nat)) : Writer.
Proof.
  refine {| Wr := Disk; wr_new := mk_disk [] [] p eq_refl; wr_write_all := disk_write;
            wr_flush := disk_flush; accepted := taken; durable := stored |}.
  - done.
  - intros d. apply (proj1 (bool_decide_eq_true _)), stored_taken.
  - intros b d. unfold disk_write. by destruct (plan d) as [|[k|] rest].
  - intros b d. unfold disk_write. by destruct (plan d) as [|[k|] rest].
  - intros b d. unfold disk_write. destruct (plan d) as [|[k|] rest]; cbn; try done.
    intros _. exists (take k b). split; [|done]. exists (drop k b). by rewrite take_drop.
  - done.
  - intros d. apply (proj1 (bool_decide_eq_true _)), stored_taken.
  - done.
Defined.

#[export] Instance text : Serializers := {|
  to_csv _ := None;
  to_json_vec m := match m with OR_Custom _ v => Some (str "{" ++ decimal 10 v ++ str "}") | _ => None end;
  minimal_to_json_vec _ := None;
  rfc3339_secs t := decimal 10 t;
  utf8 s := s
|}.

Definition upd (v : Z) : Wake := WUpdate (Payload.OutputStream [osm_custom 1 v None]).

(** One line and a part of the next, which the third line continues. *)
Definition plan1 : list (option nat) := [None; None; Some 3%nat].
Definition wakes : list (Z * Wake) := [(10, upd 100); (20, upd 200); (30, upd 300)].
Definition start1 := @mk_file_runner (disk plan1) Json (Some (@wr_new (disk plan1))) 0.

(** Lines that come in just before the timeout. *)
Definition late1 : list (Z * Wake) := [(999, upd 1)].
Definition late2 : list (Z * Wake) := [(1998, WReportLinks); (2998, WTimeout)].
Definition start0 := @mk_file_runner (disk []) Json (Some (@wr_new (disk []))) 0.

End FileOutDemo.
#[local] Existing Instances FileOutDemo.text.

(** The torn line and the next are one line of the file. *)
Lemma torn_line :
  handed (file_loop FileOutDemo.wakes FileOutDemo.start1) = str "{100}" ++ [10] ++ str "{20" ++ str "{300}" ++ [10].
Proof. by vm_compute. Qed.

(** A line that is taken at 1 can be out of the file until the timeout at 2000. *)
Lemma longer_than_timeout :
  let r := file_loop [(1, FileOutDemo.upd 1); (1000, WReportLinks)] FileOutDemo.start0 in
  in_file r = [] /\ handed r <> [].
Proof. by vm_compute. Qed.

Lemma file_contents_witness :
  exists outs w', @batches_run _ (FileOutDemo.disk FileOutDemo.plan1) _ Json
    (batch_of ∘ snd <$> served FileOutDemo.wakes) (@wr_new (FileOutDemo.disk FileOutDemo.plan1)) outs w'
    /\ handed (file_loop FileOutDemo.wakes FileOutDemo.start1) = concat outs.
Proof.
  destruct (file_contents FileOutDemo.wakes FileOutDemo.start1 _ eq_refl) as (outs & w' & Hb & _ & Hh).
  exists outs, w'. split; [exact Hb|exact Hh].
Defined.

Lemma file_end_flushed_witness :
  let ws := FileOutDemo.wakes ++ [(40, WTerminate)] in
  in_file (file_loop ws FileOutDemo.start1) = handed (file_loop ws FileOutDemo.start1).
Proof.
  apply (file_end_flushed (FileOutDemo.wakes ++ [(40, WTerminate)]) FileOutDemo.start1).
  - intros w. reflexivity.
  - by eexists.
  - reflexivity.
Defined.

Lemma file_flushed_in_time_witness :
  handed (file_loop FileOutDemo.late1 FileOutDemo.start0)
  `prefix_of` in_file (file_loop (FileOutDemo.late1 ++ FileOutDemo.late2) FileOutDemo.start0).
Proof.
  destruct (@file_flushed_in_time _ _ (FileOutDemo.disk []) _ Json 0 FileOutDemo.late1 FileOutDemo.late2 3000)
    as (a & now & w & b & d & _ & _ & _ & _ & H).
  - repeat constructor.
  - cbn. lia.
  - vm_compute. congruence.
  - reflexivity.
  - apply H. reflexivity.
Defined.
