(* ===== verification/Tracing.v ===== *)
(** * Traces of messages through the pipeline ([src/tracing.rs])

    A pool of 256 traces, each a list of messages, under one lock, and a counter of 8
    bits that hands out their numbers. *)

From Stdlib Require Import ZArith Lia.
From stdpp Require Import base numbers list gmap strings.
From S2P Require Import Prelude Net Register Payload BmpRouter Frim Gate.

Local Open Scope Z_scope.

Inductive MsgRelation : Type := GATE | COMPONENT | ALL.

#[export] Instance MsgRelation_eq_dec : EqDecision MsgRelation.
Proof. solve_decision. Defined.

Record TraceMsg : Type := mk_trace_msg {
  tm_timestamp : Z;
  tm_gate_id : Uuid;
  tm_msg : rstring;
  tm_relation : MsgRelation
}.

(** [TraceMsg::new]: [None] is the panic on [ALL]. *)
Definition trace_msg_new (now : Z) (gate_id : Uuid) (msg : rstring) (rel : MsgRelation) : option TraceMsg :=
  match rel with
  | ALL => None
  | _ => Some (mk_trace_msg now gate_id msg rel)
  end.

Definition Trace : Type := list TraceMsg.

Definition trace_append_msg (now : Z) (gate_id : Uuid) (msg : rstring) (rel : MsgRelation) (t : Trace)
  : option Trace :=
  m ← trace_msg_new now gate_id msg rel; Some (t ++ [m]).

Definition trace_clear (t : Trace) : Trace := [].

Definition relation_matches (gate_id : Uuid) (rel : MsgRelation) (m : TraceMsg) : bool :=
  bool_decide (tm_gate_id m = gate_id) && (bool_decide (rel = ALL) || bool_decide (tm_relation m = rel)).

(** [msg_indices]; [i] is the index of the first message. *)
Fixpoint indices_from (i : nat) (gate_id : Uuid) (rel : MsgRelation) (t : Trace) : list nat :=
  match t with
  | [] => []
  | m :: t =>
      (if relation_matches gate_id rel m then [i] else []) ++ indices_from (S i) gate_id rel t
  end.

Definition msg_indices (gate_id : Uuid) (rel : MsgRelation) (t : Trace) : list nat :=
  indices_from 0 gate_id rel t.

Record Tracer : Type := mk_tracer {
  traces : list Trace;
  next_id : Z
}.

Definition tracer_new : Tracer := mk_tracer (replicate 256 []) 0.

Definition next_tracing_id (t : Tracer) : Z * Tracer :=
  (next_id t, mk_tracer (traces t) (wrap 8 (next_id t + 1))).

(** An array access: [None] is the panic out of range. *)
Definition on_trace (id : Z) (f : Trace -> option Trace) (t : Tracer) : option Tracer :=
  tr ← traces t !! Z.to_nat id;
  tr ← f tr;
  Some (mk_tracer (<[Z.to_nat id := tr]> (traces t)) (next_id t)).

Definition clear_trace_id (id : Z) : Tracer -> option Tracer := on_trace id (fun t => Some (trace_clear t)).

Definition note_gate_event (now id : Z) (gate_id : Uuid) (msg : rstring) : Tracer -> option Tracer :=
  on_trace id (trace_append_msg now gate_id msg GATE).

Definition note_component_event (now id : Z) (gate_id : Uuid) (msg : rstring) : Tracer -> option Tracer :=
  on_trace id (trace_append_msg now gate_id msg COMPONENT).

Definition get_trace (id : Z) (t : Tracer) : option Trace := traces t !! Z.to_nat id.

(** [BoundTracer]: a tracer and the gate it writes for. *)
Definition note_event (gate_id : Uuid) (now id : Z) (msg : rstring) : Tracer -> option Tracer :=
  note_component_event now id gate_id msg.

(** ** What connections and gates do with it *)
Inductive TraceOp : Type :=
| TNext
| TClear (id : Z)
| TGate (now id : Z) (gate_id : Uuid) (msg : rstring)
| TComponent (now id : Z) (gate_id : Uuid) (msg : rstring).

Definition trace_op (o : TraceOp) (t : Tracer) : option Tracer :=
  match o with
  | TNext => Some (next_tracing_id t).2
  | TClear id => clear_trace_id id t
  | TGate now id g msg => note_gate_event now id g msg t
  | TComponent now id g msg => note_component_event now id g msg t
  end.

Fixpoint trace_ops (os : list TraceOp) (t : Tracer) : option Tracer :=
  match os with
  | [] => Some t
  | o :: os => t ← trace_op o t; trace_ops os t
  end.

(** A number is of 8 bits. *)
Definition op_id_ok (o : TraceOp) : Prop :=
  match o with
  | TNext => True
  | TClear id | TGate _ id _ _ | TComponent _ id _ _ => 0 <= id < 256
  end.

(** The promise: the messages of a number, in order, since it was last cleared. *)
Fixpoint noted (id : Z) (os : list TraceOp) (t : Trace) : Trace :=
  match os with
  | [] => t
  | TNext :: os => noted id os t
  | TClear i :: os => noted id os (if decide (i = id) then [] else t)
  | TGate now i g msg :: os =>
      noted id os (if decide (i = id) then t ++ [mk_trace_msg now g msg GATE] else t)
  | TComponent now i g msg :: os =>
      noted id os (if decide (i = id) then t ++ [mk_trace_msg now g msg COMPONENT] else t)
  end.

Definition is_next (o : TraceOp) : bool := match o with TNext => true | _ => false end.

Definition calls_of_next (os : list TraceOp) : Z := zlen (filter (fun o => is_next o = true) os).

(** ** The pool keeps its promise *)
Definition pool_ok (t : Tracer) : Prop := length (traces t) = 256%nat.

Lemma on_trace_exact id f f' t :
  pool_ok t -> 0 <= id < 256 -> (forall tr, f tr = Some (f' tr)) ->
  exists t', on_trace id f t = Some t' /\ pool_ok t' /\ next_id t' = next_id t
    /\ forall i, 0 <= i < 256 -> get_trace i t' = (fun tr => if decide (id = i) then f' tr else tr) <$> get_trace i t.
Proof.
  intros Hp Hid Hf. unfold on_trace.
  destruct (lookup_lt_is_Some_2 (traces t) (Z.to_nat id)) as [tr Htr]; [unfold pool_ok in Hp; lia|].
  rewrite Htr. cbn. rewrite Hf. cbn. eexists. split; [reflexivity|].
  split; [unfold pool_ok; cbn; by rewrite length_insert|]. split; [done|].
  intros i Hi. unfold get_trace. cbn. destruct (decide (id = i)) as [->|Hne].
  - rewrite list_lookup_insert_eq by (unfold pool_ok in Hp; lia). by rewrite Htr.
  - rewrite list_lookup_insert_ne by lia. by destruct (traces t !! Z.to_nat i).
Qed.

Lemma trace_op_exact o t :
  pool_ok t -> op_id_ok o ->
  exists t', trace_op o t = Some t' /\ pool_ok t'
    /\ next_id t' = match o with TNext => wrap 8 (next_id t + 1) | _ => next_id t end
    /\ forall i, 0 <= i < 256 -> get_trace i t' = noted i [o] <$> get_trace i t.
Proof.
  intros Hp Ho. destruct o as [|id|now id g msg|now id g msg].
  - eexists. split; [reflexivity|]. split; [done|]. split; [done|].
    intros i _. unfold get_trace; cbn. by destruct (traces t !! Z.to_nat i).
  - exact (on_trace_exact id _ (fun _ => []) t Hp Ho (fun _ => eq_refl)).
  - exact (on_trace_exact id _ (fun tr => tr ++ [mk_trace_msg now g msg GATE]) t Hp Ho (fun _ => eq_refl)).
  - exact (on_trace_exact id _ (fun tr => tr ++ [mk_trace_msg now g msg COMPONENT]) t Hp Ho (fun _ => eq_refl)).
Qed.

Lemma noted_cons i o os t : noted i (o :: os) t = noted i os (noted i [o] t).
Proof. by destruct o. Qed.

Lemma trace_ops_exact os t :
  pool_ok t -> Forall op_id_ok os ->
  exists t', trace_ops os t = Some t' /\ pool_ok t'
    /\ next_id t' = foldl (fun n o => match o with TNext => wrap 8 (n + 1) | _ => n end) (next_id t) os
    /\ forall i, 0 <= i < 256 -> get_trace i t' = noted i os <$> get_trace i t.
Proof.
  intros Hp Hos. revert t Hp. induction Hos as [|o os Ho _ IH]; intros t Hp.
  { exists t. repeat split; [done|]. intros i _. by destruct (get_trace i t). }
  destruct (trace_op_exact o t Hp Ho) as (t1 & Ht1 & Hp1 & Hn1 & Hg1).
  destruct (IH t1 Hp1) as (t2 & Ht2 & Hp2 & Hn2 & Hg2).
  exists t2. cbn [trace_ops foldl]. rewrite Ht1. split; [exact Ht2|]. split; [done|].
  split; [by rewrite Hn2, Hn1|]. intros i Hi. rewrite Hg2, Hg1 by done.
  destruct (get_trace i t); cbn [fmap option_fmap option_map]; [|done]. by rewrite (noted_cons i o os).
Qed.

Lemma next_counts os n :
  foldl (fun n o => match o with TNext => wrap 8 (n + 1) | _ => n end) (wrap 8 n) os
  = wrap 8 (n + calls_of_next os).
Proof.
  revert n. induction os as [|o os IH]; intros n; [by rewrite Z.add_0_r|].
  cbn [foldl]. unfold calls_of_next. rewrite filter_cons. destruct o as [|id|now id g msg|now id g msg].
  2-4: rewrite decide_False by done; apply IH.
  rewrite decide_True by done. replace (wrap 8 (wrap 8 n + 1)) with (wrap 8 (n + 1)).
  - rewrite IH. f_equal. unfold calls_of_next, zlen. cbn [length]. lia.
  - unfold wrap. by rewrite Z.add_mod_idemp_l.
Qed.

(** The pool does what it promises: no access is out of range, a trace holds the messages
    noted under its number, in order, since the number was last cleared, and nothing of
    the others; numbers are handed out in turn and return after 256. *)
Theorem traces_exact os :
  Forall op_id_ok os ->
  exists t, trace_ops os tracer_new = Some t
    /\ next_id t = calls_of_next os mod 256
    /\ forall i, 0 <= i < 256 -> get_trace i t = Some (noted i os []).
Proof.
  intros Hos. destruct (trace_ops_exact os tracer_new eq_refl Hos) as (t & Ht & _ & Hn & Hg).
  exists t. split; [done|]. split.
  - rewrite Hn. exact (next_counts os 0).
  - intros i Hi. rewrite Hg by done. unfold get_trace, tracer_new. cbn [traces].
    rewrite lookup_replicate_2 by lia. done.
Qed.

(** [msg_indices] are the places of the messages of a gate, and no others. *)
Theorem msg_indices_exact g rel t i :
  i ∈ msg_indices g rel t <-> exists m, t !! i = Some m /\ relation_matches g rel m = true.
Proof.
  unfold msg_indices.
  assert (H : forall k, i ∈ indices_from k g rel t
            <-> exists m j, i = (k + j)%nat /\ t !! j = Some m /\ relation_matches g rel m = true).
  { induction t as [|m t IH]; intros k; cbn [indices_from].
    { split; [by intros ?%elem_of_nil|]. by intros (m & j & _ & [=] & _). }
    rewrite elem_of_app, (IH (S k)). split.
    - intros [Hi|(m' & j & -> & Hm)]; [|exists m', (S j); split; [lia|done]].
      destruct (relation_matches g rel m) eqn:Hr; [|by apply elem_of_nil in Hi].
      apply list_elem_of_singleton in Hi as ->. exists m, 0%nat. split; [lia|done].
    - intros (m' & [|j] & -> & Hm & Hr).
      + injection Hm as ->. left. rewrite Hr, Nat.add_0_r. by left.
      + right. exists m', j. split; [lia|done]. }
  rewrite (H 0%nat). split; [intros (m & j & -> & Hm); by exists m|].
  intros (m & Hm). by exists m, i.
Qed.

Lemma traces_exact_witness :
  exists t, trace_ops [TNext; TClear 0; TComponent 5 0 7 (str "start"); TNext; TGate 6 0 7 (str "sent");
                       TClear 1] tracer_new = Some t
    /\ get_trace 0 t = Some [mk_trace_msg 5 7 (str "start") COMPONENT; mk_trace_msg 6 7 (str "sent") GATE].
Proof.
  destruct (traces_exact [TNext; TClear 0; TComponent 5 0 7 (str "start"); TNext;
    TGate 6 0 7 (str "sent"); TClear 1]) as (t & Ht & _ & Hg).
  - repeat (constructor; [cbn; lia|]). constructor.
  - exists t. split; [exact Ht|]. rewrite Hg by lia. reflexivity.
Defined.
