(* ===== verification/RtrClient.v ===== *)
(** * The RTR client ([src/units/rtr/client.rs])

    The loop of [RtrClient::run]: connecting, updating, waiting to retry, while the
    commands of the gate come in.  The protocol is the [rpki] crate; what it hands over
    is an input: whether a response is a reset, and its announcements and withdrawals,
    which go through [start] and [push_update].  With a server that keeps to the
    protocol, the RIB unit behind the gate has the data of the state that the client
    reports. *)

From Stdlib Require Import ZArith Lia.
From stdpp Require Import base numbers list gmap strings relations.
From S2P Require Import Prelude Net Register Payload BmpMetrics BmpRouter Interner RibStore Rib RibView RibProps Rtr RtrView RibUnit RibSpec RovView RovProps MetricsUnits.

Local Open Scope Z_scope.

(** [rpki::rtr::state::State]. *)
Record SessionState : Type := mk_session { st_session : Z; st_serial : Z }.

Section Client.
Context `{L : Layout} {Status : Type} (status_default : Status).

(** [Tcp]. *)
Definition default_retry : Z := 60.
Definition default_version : Z := 2.

(** Where the loop of [run] waits; the target is handed from one to the next. While it
    is connected, the client of the protocol has the target and its state. *)
Inductive Phase : Type :=
| Connecting (target : RtrTarget)
| Connected (target : RtrTarget) (protocol : option SessionState)
| Retrying (target : RtrTarget) (until : Z)
| Stopped.

(** [RtrClient]; the session, serial and time of the metrics. *)
Record RtrClient : Type := mk_client {
  cl_retry : Z;
  cl_status : Status;
  cl_phase : Phase;
  cl_reported : option (SessionState * Z)
}.

Definition set_phase (p : Phase) (c : RtrClient) : RtrClient :=
  mk_client (cl_retry c) (cl_status c) p (cl_reported c).
Definition set_status (s : Status) (c : RtrClient) : RtrClient :=
  mk_client (cl_retry c) s (cl_phase c) (cl_reported c).
Definition set_reported (r : option (SessionState * Z)) (c : RtrClient) : RtrClient :=
  mk_client (cl_retry c) (cl_status c) (cl_phase c) r.

(** [RtrClient::run] up to its loop. *)
Definition client_new (name : rstring) (retry : Z) : RtrClient :=
  mk_client retry status_default (Connecting (rtr_target_new name)) None.

(** What ends a wait: the gate with a status or its end, the attempt to connect, the
    response of the server with the state that the protocol is in then, an error of the
    connection, the end of the time to wait. *)
Inductive Input : Type :=
| IGate (r : option Status)
| IConnect (ok : bool)
| IResponse (reset : bool) (verbs : RtrVerbs) (state : option SessionState)
| IError
| ITimeout.

(** [retry_wait]: it waits only while its end is to come. *)
Definition wait_from (now until : Z) (t : RtrTarget) (c : RtrClient) : RtrClient :=
  set_phase (if now <? until then Retrying t until else Connecting t) c.

Definition retry_wait (now : Z) (t : RtrTarget) (c : RtrClient) : RtrClient :=
  wait_from now (now + cl_retry c) t c.

(** [Client::update] of the protocol on our target. *)
Definition build_update (reset : bool) (verbs : RtrVerbs) (t : RtrTarget) : PayloadError + RtrUpdate :=
  push_all verbs (target_start reset t).

(** One wait, and the update that the gate sends on; an input that does not belong to
    the wait is not there. A connection begins with [Client::with_initial_version] and
    no state; a response leaves the protocol in its state. *)
Definition client_step (now : Z) (i : Input) (c : RtrClient) : RtrClient * list RtrUpdate :=
  match cl_phase c with
  | Connecting t =>
      match i with
      | IGate None => (retry_wait now t c, [])
      | IGate (Some s) => (set_status s c, [])
      | IConnect true => (set_phase (Connected t None) c, [])
      | IConnect false => (retry_wait now t c, [])
      | _ => (c, [])
      end
  | Connected t _ =>
      match i with
      | IGate None => (set_phase Stopped c, [])
      | IGate (Some s) => (set_status s c, [])
      | IResponse reset verbs state =>
          match build_update reset verbs t with
          | inr u =>
              let c := set_phase (Connected t state) c in
              (match state with
               | Some s => set_reported (Some (s, now)) c
               | None => c
               end, [u])
          | inl _ => (retry_wait now t c, [])
          end
      | IError => (retry_wait now t c, [])
      | _ => (c, [])
      end
  | Retrying t until =>
      match i with
      | IGate None => (set_phase Stopped c, [])
      | IGate (Some s) => (wait_from now until t (set_status s c), [])
      | ITimeout => (set_phase (Connecting t) c, [])
      | _ => (c, [])
      end
  | Stopped => (c, [])
  end.

Fixpoint client_run (ins : list (Z * Input)) (c : RtrClient) : RtrClient * list RtrUpdate :=
  match ins with
  | [] => (c, [])
  | (now, i) :: ins =>
      let '(c, out) := client_step now i c in
      let '(c, outs) := client_run ins c in
      (c, out ++ outs)
  end.

(** ** What the server promises

    The server has a set of payloads for each of its states. *)
Definition DataSet : Type := RtrPayload -> Prop.

Definition payloads (verbs : RtrVerbs) : DataSet := fun p => exists a, (a, p) ∈ verbs.

(** The verbs applied in order. *)
Definition apply_verb (v : RtrAction * RtrPayload) (d : DataSet) : DataSet :=
  match v with
  | (RtrAnnounce, p) => fun q => q = p \/ d q
  | (RtrWithdraw, p) => fun q => q <> p /\ d q
  end.

Definition apply_verbs (verbs : RtrVerbs) (d : DataSet) : DataSet :=
  foldl (fun d v => apply_verb v d) d verbs.

Definition same (d d' : DataSet) : Prop := forall p, d p <-> d' p.

End Client.

(** ** The client by itself *)
Section Props.
Context `{L : Layout} {Status : Type}.

(** The targets that the client has keep no verbs, and the state of the protocol is the
    one that was reported last. *)
Definition clean (c : RtrClient (Status := Status)) : Prop :=
  match cl_phase c with
  | Connecting t | Retrying t _ => tg_cache t = []
  | Connected t protocol =>
      tg_cache t = [] /\ forall s, protocol = Some s -> exists now, cl_reported c = Some (s, now)
  | Stopped => True
  end.

Lemma wait_from_clean now until t (c : RtrClient (Status := Status)) :
  tg_cache t = [] -> clean (wait_from now until t c).
Proof. intros Ht. unfold clean, wait_from. cbn. by destruct (now <? until). Qed.

Lemma client_step_clean now i c : clean c -> clean (client_step now i c).1.
Proof.
  intros Hc. pose proof Hc as Hc0. unfold clean in Hc. unfold client_step.
  destruct (cl_phase c) as [t|t p|t until|] eqn:Hp.
  - destruct i as [[s|]|[]|reset verbs st| |]; cbn; try done; by apply wait_from_clean.
  - destruct Hc as [Ht Hr]. destruct i as [[s|]|ok|reset verbs st| |]; cbn; try done;
      try (by apply wait_from_clean).
    destruct (build_update reset verbs t); [by apply wait_from_clean|].
    destruct st; unfold clean; cbn; (split; [done|]); [|done]. intros s' [= <-]. by eexists.
  - destruct i as [[s|]|ok|reset verbs st| |]; cbn; try done; by apply wait_from_clean.
  - done.
Qed.

Lemma step_sends now i (c : RtrClient (Status := Status)) :
  match cl_phase c, i with Connected _ _, IResponse _ _ _ => False | _, _ => True end ->
  (client_step now i c).2 = [] /\ cl_reported (client_step now i c).1 = cl_reported c.
Proof.
  intros Hi. unfold client_step, retry_wait, wait_from.
  by destruct (cl_phase c), i as [[s|]|[]|reset verbs st| |].
Qed.

Lemma client_run_cons now i ins (c : RtrClient (Status := Status)) :
  client_run ((now, i) :: ins) c
  = ((client_run ins (client_step now i c).1).1,
     (client_step now i c).2 ++ (client_run ins (client_step now i c).1).2).
Proof. cbn. destruct (client_step now i c) as [c1 out]. cbn. by destruct (client_run ins c1). Qed.

(** What was reported stays reported. *)
Lemma reported_kept ins (c : RtrClient (Status := Status)) :
  cl_reported (client_run ins c).1 = None -> cl_reported c = None.
Proof.
  revert c. induction ins as [|[now i] ins IH]; intros c; [done|].
  rewrite client_run_cons. cbn [fst]. intros H%IH. revert H. unfold client_step, retry_wait, wait_from.
  destruct (cl_phase c), i as [[s|]|[]|reset verbs [st|]| |]; try done; cbn;
    by destruct (build_update _ _ _).
Qed.

Lemma push_all_delta verbs v : push_all verbs (RtrDelta v) = inr (RtrDelta (v ++ verbs)).
Proof.
  revert v. induction verbs as [|[a p] verbs IH]; intros v; cbn; [by rewrite app_nil_r|].
  by rewrite IH, <- app_assoc.
Qed.

(** A reset is passed on whole, and not at all where it withdraws something. *)
Lemma push_all_full verbs v :
  push_all verbs (RtrFull v)
  = if bool_decide (RtrWithdraw ∈ verbs.*1) then inl Corrupt else inr (RtrFull (v ++ verbs)).
Proof.
  revert v. induction verbs as [|[a p] verbs IH]; intros v; cbn.
  { rewrite bool_decide_false by apply not_elem_of_nil. by rewrite app_nil_r. }
  destruct a.
  - rewrite (bool_decide_false (RtrAnnounce = RtrWithdraw)), IH, <- app_assoc by done.
    by rewrite (bool_decide_ext (RtrWithdraw ∈ RtrAnnounce :: verbs.*1) (RtrWithdraw ∈ verbs.*1))
      by (rewrite elem_of_cons; naive_solver).
  - by rewrite !bool_decide_true by (rewrite ?elem_of_cons; auto).
Qed.

Lemma only_announced (verbs : RtrVerbs) : RtrWithdraw ∉ verbs.*1 -> Forall (fun v => v.1 = RtrAnnounce) verbs.
Proof.
  intros H. apply Forall_forall. intros [[] p] Hin; [done|]. destruct H.
  apply list_elem_of_fmap. by exists (RtrWithdraw, p).
Qed.

(** When the gate has ended, the client ends: at once, or, where it was connecting, in
    the wait that follows; and then it sends nothing more. *)
Theorem rtr_client_ends (c : RtrClient (Status := Status)) now now' ins :
  0 < cl_retry c ->
  let c' := (client_run [(now, IGate None); (now', IGate None)] c).1 in
  cl_phase c' = Stopped /\ (client_run ins c').2 = [].
Proof.
  intros Hr c'. assert (Hp : cl_phase c' = Stopped).
  { subst c'. cbn. unfold client_step at 1. destruct (cl_phase c) as [t|t pr|t until|] eqn:Hp; cbn;
      unfold client_step; cbn; [|by rewrite ?Hp..].
    rewrite (proj2 (Z.ltb_lt now (now + cl_retry c))) by lia. done. }
  split; [done|]. clearbody c'. induction ins as [|[t i] ins IH]; [done|].
  rewrite client_run_cons. unfold client_step. rewrite Hp. cbn. exact IH.
Qed.

End Props.

(** ** The RIB unit behind the gate *)
Section Sets.
Context `{E : Extern} `{L : Layout} `{PS : !PrefixStore RotondaPaMap} `{VS : !PrefixStore MaxLenList}.
Context `{RS : !ReliableStore RotondaPaMap} `{RV : !ReliableStore MaxLenList}.
Context `{RT : !Roto} `{HP : !HashIter Z (list Prefix)} `{HS : !HashIter Z unit}.
Context {Status : Type} (status_default : Status).

#[local] Instance same_equivalence : Equivalence (same (L := L)).
Proof. split; unfold same; [by intros d p|by intros d d' H p|intros d1 d2 d3 H1 H2 p; by rewrite H1]. Qed.

Lemma apply_verb_same v d d' : same d d' -> same (apply_verb v d) (apply_verb v d').
Proof. intros H q. specialize (H q). destruct v as [[] p]; cbn; tauto. Qed.

Lemma apply_verbs_same verbs d d' : same d d' -> same (apply_verbs verbs d) (apply_verbs verbs d').
Proof.
  revert d d'. induction verbs as [|v verbs IH]; intros d d' H; [done|].
  cbn. by apply IH, apply_verb_same.
Qed.

(** What the cache of the unit has of a payload. *)
Definition holds (c : RtrCache) : DataSet := fun p =>
  match p with
  | RP_Origin o => o ∈ route_origins c
  | RP_RouterKey k => k ∈ router_keys c
  | RP_Aspa a => a ∈ aspas c
  end.

(** The protocol gives an origin as a prefix, a maximum length and an AS. *)
Definition wire_origin (o : RouteOrigin) : Prop :=
  exists q m, o = mk_route_origin (prefix_addr q) (prefix_len q) (Some m) (ro_asn o).

Definition wire (p : RtrPayload) : Prop :=
  match p with RP_Origin o => wire_origin o | _ => True end.

Lemma wire_prefix o : wire_origin o -> is_Some (origin_prefix o).
Proof. intros (q & m & ->). exists q. apply prefix_new_self. Qed.

(** Two such origins are different VRPs. *)
Lemma wire_inj o o' :
  wire_origin o -> wire_origin o' -> origin_prefix o = origin_prefix o' -> ro_asn o = ro_asn o' ->
  resolved_max_len o = resolved_max_len o' -> o = o'.
Proof.
  intros (q & m & Ho) (q' & m' & Ho') Hp Ha Hm. rewrite Ho, Ho' in Hp, Hm |- *.
  unfold origin_prefix in Hp. cbn in Hp, Hm. rewrite !prefix_new_self in Hp.
  injection Hp as <-. subst m'. by rewrite Ha.
Qed.

Lemma wire_good verbs : Forall (fun v => wire v.2) verbs -> Forall good_verb verbs.
Proof.
  intros H. eapply Forall_impl; [exact H|]. intros [a [o|k|p]]; cbn; [apply wire_prefix|done..].
Qed.

(** Validation knows every origin of the cache, of which there are only such origins. *)
Record armed (c : RtrCache) : Prop := {
  ar_wire o : o ∈ route_origins c -> wire_origin o;
  ar_vrps o p : o ∈ route_origins c -> origin_prefix o = Some p ->
    vrp_in (vrps c) p (ro_asn o) (resolved_max_len o)
}.

(** The state of the unit that its RTR updates need. *)
Record fit (u : RibUnitRunner) : Prop := {
  fit_ready : ready (rib u);
  fit_metas : metas_ok (rib u);
  fit_unicast q k : recs (rib u) true q k = None;
  fit_vrps : vrps_ok (vrps (rtr_cache u))
}.

(** *** A serial response *)

Lemma hs_insert_elem {A} `{EqDecision A} (x y : A) l : y ∈ (hs_insert x l).2 <-> y = x \/ y ∈ l.
Proof.
  unfold hs_insert. destruct (bool_decide (x ∈ l)) eqn:Hb; cbn.
  - apply bool_decide_eq_true in Hb. split; [by right|]. by intros [->|].
  - by rewrite elem_of_cons.
Qed.

Lemma hs_remove_elem {A} `{EqDecision A} (x y : A) l : y ∈ (hs_remove x l).2 <-> y <> x /\ y ∈ l.
Proof. cbn. by rewrite list_elem_of_filter. Qed.

#[local] Ltac hs_solve :=
  rewrite ?hs_insert_elem, ?hs_remove_elem, ?list_elem_of_filter; naive_solver.

Lemma delta_origin_holds a o c p c' :
  delta_origin a o c = Some (inr (p, c')) ->
  same (holds c') (apply_verb (a, RP_Origin o) (holds c)).
Proof.
  unfold delta_origin. destruct (origin_prefix o); cbn; [|done].
  destruct (vrp_lookup _ _ _) as [[l|]|]; cbn; [|done..].
  intros H q. destruct a; (destruct (vrp_insert _ _ _ _) as [s|]; cbn -[hs_insert hs_remove] in H; [|done]);
    injection H as _ <-; destruct q as [o'|k|x]; cbn -[hs_insert hs_remove];
    hs_solve.
Qed.

Lemma withdraw_keeps m l x : x ∈ l -> x <> m -> x ∈ maxlens_withdraw m l.
Proof.
  intros Hx Hm. induction l as [|y l IH]; [done|]. cbn. apply elem_of_cons in Hx.
  case_bool_decide; [naive_solver|]. apply elem_of_cons. naive_solver.
Qed.

Lemma delta_origin_armed a o c p c' :
  delta_origin a o c = Some (inr (p, c')) -> vrps_ok (vrps c) -> origin_prefix o = Some p ->
  wire_origin o -> armed c -> armed c'.
Proof.
  intros Hd Hok Hp Ho [Hw Hv]. pose proof (delta_origin_holds _ _ _ _ _ Hd) as Hh.
  destruct (delta_origin_run a o c p Hok Hp) as (c1 & Hc & _ & _ & _ & Hl).
  rewrite Hd in Hc. injection Hc as <-. split.
  - intros o' Hin. pose proof (proj1 (Hh (RP_Origin o')) Hin) as Hq. destruct a; cbn in Hq; naive_solver.
  - intros o' p' Hin Hp'. pose proof (proj1 (Hh (RP_Origin o')) Hin) as Hq. unfold vrp_in. rewrite Hl.
    assert (Hold : o' ∈ route_origins c -> resolved_max_len o' ∈ maxlens_of (vrps c) p' (ro_asn o'))
      by (intros Ho'; by apply Hv).
    case_bool_decide as Hk; [destruct Hk as [-> Ha]|]; destruct a; cbn in Hq |- *.
    + rewrite elem_of_announce. destruct Hq as [[= ->]|Ho']; [by left|right; auto].
    + destruct Hq as [Hne Ho']. apply withdraw_keeps; [auto|]. intros Hm. apply Hne. f_equal.
      apply wire_inj; [by apply Hw|done|congruence|done|done].
    + destruct Hq as [[= ->]|Ho']; [|auto]. destruct Hk. split; congruence.
    + destruct Hq as [_ Ho']. auto.
Qed.

(** The script may hold a VRP back from validation, not from the cache. *)
Lemma vrp_filter_any a o u :
  exists ok u', vrp_filter a o u = (Some ok, u') /\ rib u' = rib u /\ rtr_cache u' = rtr_cache u.
Proof.
  unfold vrp_filter. destruct roto_function_vrp_update as [f|]; [|by exists true, u].
  rewrite (run_bind_Some run_get _ u u u eq_refl). destruct (f a o (roto_context u)) as [ok ctx].
  unfold process_output_stream, update_data. run_unfold.
  match goal with |- context [drain_output ?x] => destruct (drain_output x) as [outs ctx'] end.
  by eexists _, _.
Qed.

Lemma fit_rov c D u u' r' :
  fit u -> vrps_ok (vrps c) -> rov_done c D (rib u) r' -> rib u' = r' -> rtr_cache u' = c -> fit u'.
Proof.
  intros [Hr Hm Hmc _] Hok [S1 _ N1 M1 _] <- <-. split; [apply S1|done| |done].
  intros q k. by rewrite N1.
Qed.

Lemma delta_verb_fit v u :
  fit u -> wire v.2 ->
  exists u', delta_verb v u = (Some true, u') /\ fit u'
    /\ same (holds (rtr_cache u')) (apply_verb v (holds (rtr_cache u)))
    /\ (armed (rtr_cache u) -> armed (rtr_cache u')).
Proof.
  intros Hfit Hv. pose proof Hfit as [Hr Hm Hmc Hok]. destruct v as [a [o|k|x]].
  2-3: eexists; (split; [reflexivity|]); (split; [by destruct a|]); split;
    [intros [o'|k'|x']; destruct a; cbn -[hs_insert hs_remove]; hs_solve
    |intros [Hw Hv']; destruct a; by split].
  cbn in Hv. destruct (wire_prefix _ Hv) as [p Hp].
  unfold delta_verb. rewrite (run_bind_Some run_get _ u u u eq_refl).
  destruct (delta_origin_run a o (rtr_cache u) p Hok Hp) as (c & Hc & Hok' & _).
  pose proof (delta_origin_holds _ _ _ _ _ Hc) as Hh.
  pose proof (delta_origin_armed _ _ _ _ _ Hc Hok Hp Hv) as Har.
  rewrite Hc. cbn [lift_opt]. rewrite (run_bind_Some (mret _) _ u _ u eq_refl). cbn beta iota.
  rewrite (run_bind_Some (run_modify _) _ u tt (set_rtr_cache c u) eq_refl).
  destruct (vrp_filter_any a o (set_rtr_cache c u)) as (ok & u1 & E1 & R1 & C1).
  change (rib (set_rtr_cache c u)) with (rib u) in R1. change (rtr_cache (set_rtr_cache c u)) with c in C1.
  rewrite (run_bind_Some _ _ _ _ _ E1). destruct ok.
  2: { exists u1. split; [done|]. rewrite C1. split; [|done]. by split; rewrite ?R1, ?C1. }
  destruct (rov_for_vrp_run c p (rib u1)) as (upds & r' & D & E2 & D2 & _); [by rewrite ?R1..|].
  assert (on_rib (rov_for_vrp c p) u1 = (Some (Some upds), set_rib r' u1)) as E2'
    by (unfold on_rib; by rewrite E2).
  rewrite (run_bind_Some _ _ _ _ _ E2').
  destruct (rov_post_run upds (set_rib r' u1)) as (u2 & E3 & R3 & C3).
  change (rib (set_rib r' u1)) with r' in R3. change (rtr_cache (set_rib r' u1)) with (rtr_cache u1) in C3.
  rewrite C1 in C3. rewrite (run_bind_Some _ _ _ _ _ E3). exists u2. split; [done|].
  rewrite C3. split; [|done]. rewrite R1 in D2. by eapply (fit_rov c D u).
Qed.

Lemma delta_verbs_fit l u :
  fit u -> Forall (fun v => wire v.2) l ->
  exists u', delta_verbs l u = (Some true, u') /\ fit u'
    /\ same (holds (rtr_cache u')) (apply_verbs l (holds (rtr_cache u)))
    /\ (armed (rtr_cache u) -> armed (rtr_cache u')).
Proof.
  intros Hu Hl. revert u Hu. induction Hl as [|v l Hv _ IH]; intros u Hu; [by exists u|].
  cbn [delta_verbs]. destruct (delta_verb_fit v u Hu Hv) as (u1 & E1 & H1 & S1 & A1).
  rewrite (run_bind_Some _ _ _ _ _ E1). destruct (IH u1 H1) as (u2 & E2 & H2 & S2 & A2).
  exists u2. split; [done|]. split; [done|]. split; [|auto].
  cbn. etrans; [exact S2|]. by apply apply_verbs_same.
Qed.

(** *** A reset *)

(** What a state of the full update has of a payload. *)
Definition in_full (st : FullState) : DataSet := fun p =>
  match p with
  | RP_Origin o => o ∈ new_route_origins st
  | RP_RouterKey k => k ∈ new_router_keys st
  | RP_Aspa a => a ∈ new_aspas st
  end.

Lemma full_verb_elem p st st' q :
  full_verb (RtrAnnounce, p) st = Some st' -> in_full st' q <-> q = p \/ in_full st q.
Proof.
  unfold full_verb. rewrite bool_decide_false by done. destruct p as [o|k|a].
  - destruct (origin_prefix o) as [pfx|]; cbn; [|done].
    destruct (vrp_lookup _ _ _); cbn; [|done]. destruct (vrp_insert _ _ _ _); cbn; [|done].
    intros [= <-]. destruct q; cbn; rewrite ?hs_insert_elem; naive_solver.
  - intros [= <-]. destruct q; cbn; rewrite ?hs_insert_elem; naive_solver.
  - intros [= <-]. destruct q; cbn; rewrite ?hs_insert_elem; naive_solver.
Qed.

Lemma full_verbs_elem verbs st st' q :
  Forall (fun v => v.1 = RtrAnnounce) verbs -> full_verbs verbs st = Some st' ->
  in_full st' q <-> payloads verbs q \/ in_full st q.
Proof.
  intros H. revert st. induction H as [|[a p] verbs Ha _ IH]; intros st; cbn [full_verbs].
  { intros [= <-]. split; [by right|]. intros [(a & Hin)|Hq]; [by apply elem_of_nil in Hin|done]. }
  cbn in Ha. subst a. destruct (full_verb (RtrAnnounce, p) st) as [st1|] eqn:H1; cbn; [|done].
  intros Hst. rewrite (IH _ Hst), (full_verb_elem _ _ _ q H1). unfold payloads.
  split.
  - intros [(a & Hin)|[->|Hq]]; [left; exists a; by right|left; exists RtrAnnounce; by left|by right].
  - intros [(a & [Heq|Hin]%elem_of_cons)|Hq]; [injection Heq as -> ->; by right; left|left; by exists a|tauto].
Qed.

(** A reset gives the cache of the RIB unit exactly the payloads that it lists: its
    origins, router keys and ASPA records, and none of those it had before. *)
Lemma reset_installs verbs c c' :
  Forall (fun v => v.1 = RtrAnnounce) verbs -> rtr_full verbs c = Some c' ->
  same (holds c') (payloads verbs).
Proof.
  intros Ha Hc. unfold rtr_full in Hc.
  destruct (full_verbs verbs _) as [st|] eqn:Hst; cbn in Hc; [|done]. injection Hc as <-.
  intros q. transitivity (in_full st q); [by destruct q|].
  rewrite (full_verbs_elem verbs _ _ q Ha Hst). split; [|by left].
  intros [|Hn]; [done|]. destruct q; by apply elem_of_nil in Hn.
Qed.

Lemma full_fit l u :
  fit u -> Forall (fun v => v.1 = RtrAnnounce) l -> Forall (fun v => wire v.2) l ->
  exists u', process_rtr (RtrFull l) u = (Some true, u') /\ fit u'
    /\ same (holds (rtr_cache u')) (payloads l) /\ armed (rtr_cache u').
Proof.
  intros [Hr Hm Hmc Hok] Ha Hl. cbn [process_rtr]. rewrite (run_bind_Some run_get _ u u u eq_refl).
  destruct (rtr_full_run l (rtr_cache u) Hok (wire_good _ Hl)) as (c & Hc & Hok' & Hadd).
  rewrite Hc. cbn [lift_opt]. eexists. split; [reflexivity|]. cbn.
  pose proof (reset_installs _ _ _ Ha Hc) as Hh. split; [by split|]. split; [done|].
  rewrite Forall_forall in Ha, Hl.
  assert (Hin : forall o, o ∈ route_origins c -> (RtrAnnounce, RP_Origin o) ∈ l).
  { intros o Ho. destruct (proj1 (Hh (RP_Origin o)) Ho) as (a & Hin). pose proof (Ha _ Hin) as Hx.
    cbn in Hx. by subst a. }
  split.
  - intros o Ho. exact (Hl _ (Hin o Ho)).
  - intros o p Ho Hp. unfold vrp_in. destruct (Hadd p (ro_asn o)) as (added & -> & Hadded).
    apply elem_of_app. right. apply Hadded. exists o. auto.
Qed.

(** *** The server and the unit *)
Context (data : SessionState -> DataSet).

(** A response of the server in the state [st], on a connection whose protocol is in the
    state [protocol]: a reset lists the data of the server, or is malformed; a serial
    response answers a query with the state of the protocol, and leads from the data of
    that state to those of the new one. *)
Definition response_ok (protocol : option SessionState) (reset : bool) (verbs : RtrVerbs)
    (st : option SessionState) : Prop :=
  Forall (fun v => wire v.2) verbs
  /\ exists s', st = Some s'
     /\ if reset then RtrWithdraw ∈ verbs.*1 \/ same (payloads verbs) (data s')
        else exists s, protocol = Some s /\ same (apply_verbs verbs (data s)) (data s').

(** A server that keeps to it, whatever else happens. *)
Fixpoint served (ins : list (Z * Input (Status := Status))) (c : RtrClient (Status := Status)) : Prop :=
  match ins with
  | [] => True
  | (now, i) :: ins =>
      match cl_phase c, i with
      | Connected _ protocol, IResponse reset verbs st => response_ok protocol reset verbs st
      | _, _ => True
      end
      /\ served ins (client_step now i c).1
  end.

(** The unit takes the updates in their order; [between] is what else happens to it. *)
Fixpoint rib_takes (between : nat -> RibUnitRunner -> RibUnitRunner) (us : list RtrUpdate) (n : nat)
  : Run RibUnitRunner unit :=
  match us with
  | [] => run_modify (between n)
  | x :: us =>
      _ ← run_modify (between n);
      _ ← direct_update (UpdateRtr x);
      rib_takes between us (S n)
  end.

(** What the unit has when the client reports [st]. *)
Definition follows (st : option (SessionState * Z)) (c : RtrCache) : Prop :=
  match st with
  | Some (s, _) => same (holds c) (data s) /\ armed c
  | None => True
  end.

(** A response: it is refused, or the update that it becomes brings the unit to the data
    of the new state. *)
Lemma response_followed now t protocol reset verbs st (c : RtrClient (Status := Status)) u :
  cl_phase c = Connected t protocol -> clean c -> response_ok protocol reset verbs st ->
  fit u -> follows (cl_reported c) (rtr_cache u) ->
  let '(c', out) := client_step now (IResponse reset verbs st) c in
  out = [] /\ cl_reported c' = cl_reported c
  \/ exists x u', out = [x] /\ direct_update (UpdateRtr x) u = (Some tt, u') /\ fit u'
     /\ follows (cl_reported c') (rtr_cache u') /\ cl_reported c' <> None.
Proof.
  intros Hp Hc (Hw & s' & -> & Hr) Hu Hf. unfold clean in Hc. rewrite Hp in Hc. destruct Hc as [Ht Hrep].
  unfold client_step. rewrite Hp. unfold build_update, target_start. destruct reset.
  - rewrite push_all_full. case_bool_decide as Hwd; [by left; unfold retry_wait, wait_from|].
    destruct Hr as [?|Hd]; [done|]. right.
    destruct (full_fit verbs u Hu (only_announced _ Hwd) Hw) as (u' & E1 & Hu' & Hh & Ha).
    eexists _, u'. split; [done|]. split; [|split; [done|]].
    { unfold direct_update. cbn [process_update app]. by rewrite (run_bind_Some _ _ _ _ _ E1). }
    cbn. split; [|done]. split; [by rewrite Hh|done].
  - destruct Hr as (s & Hs & Hd). rewrite Ht, push_all_delta. right.
    destruct (Hrep s Hs) as [now' Hrp]. rewrite Hrp in Hf. destruct Hf as [Hh Ha].
    destruct (delta_verbs_fit verbs u Hu Hw) as (u' & E1 & Hu' & Hh' & Ha').
    eexists _, u'. split; [done|]. split; [|split; [done|]].
    { unfold direct_update. cbn [process_update process_rtr app]. by rewrite (run_bind_Some _ _ _ _ _ E1). }
    cbn. split; [|done]. split; [|auto]. rewrite Hh', <- Hd. by apply apply_verbs_same.
Qed.

Lemma run_followed between ins (c : RtrClient (Status := Status)) n u :
  (forall n u, fit u -> fit (between n u) /\ rtr_cache (between n u) = rtr_cache u) ->
  served ins c -> clean c -> fit u -> follows (cl_reported c) (rtr_cache u) ->
  exists u', rib_takes between (client_run ins c).2 n u = (Some tt, u')
    /\ follows (cl_reported (client_run ins c).1) (rtr_cache u')
    /\ (cl_reported (client_run ins c).1 = None -> rtr_cache u' = rtr_cache u).
Proof.
  intros Hb. revert c n u. induction ins as [|[now i] ins IH]; intros c n u Hs Hc Hu Hf.
  { destruct (Hb n u Hu) as [_ Hk]. exists (between n u). cbn. by rewrite Hk. }
  rewrite client_run_cons. cbn [served fst snd] in *. destruct Hs as [Hi Hs].
  pose proof (client_step_clean now i c Hc) as Hc'.
  assert (Hidle : (client_step now i c).2 = [] /\ cl_reported (client_step now i c).1 = cl_reported c ->
    exists u', rib_takes between ((client_step now i c).2 ++ (client_run ins (client_step now i c).1).2) n u
      = (Some tt, u')
    /\ follows (cl_reported (client_run ins (client_step now i c).1).1) (rtr_cache u')
    /\ (cl_reported (client_run ins (client_step now i c).1).1 = None -> rtr_cache u' = rtr_cache u)).
  { intros [-> Hrep]. cbn [app]. apply IH; [done..|by rewrite Hrep]. }
  destruct (cl_phase c) as [t|t protocol|t until|] eqn:Hp; try (by apply Hidle, step_sends; rewrite Hp).
  destruct i as [r|ok|reset verbs st| |]; try (by apply Hidle, step_sends; rewrite Hp).
  destruct (Hb n u Hu) as [Hu1 Hk].
  pose proof (response_followed now t protocol reset verbs st c (between n u) Hp Hc Hi Hu1) as Hresp.
  rewrite Hk in Hresp. specialize (Hresp Hf).
  destruct (client_step now (IResponse reset verbs st) c) as [c1 out].
  destruct Hresp as [Hnone|(x & u1 & -> & E1 & Hu2 & Hf1 & Hrep)]; [by apply Hidle|].
  cbn [fst snd app rib_takes] in *. clear Hidle.
  rewrite (run_bind_Some (run_modify (between n)) _ u tt (between n u) eq_refl).
  rewrite (run_bind_Some _ _ _ _ _ E1).
  destruct (IH c1 (S n) u1 Hs Hc' Hu2 Hf1) as (u2 & E2 & Hf2 & Hn2). exists u2. split; [done|].
  split; [done|]. intros Hn. destruct Hrep. by apply (reported_kept ins).
Qed.

(** C23: the cache of the RIB unit follows the RTR server. Whatever happens to the
    connections and the gate, and whatever else happens to the unit in between that
    leaves its RTR cache alone, the unit takes every update that the client sends
    without a panic; after any number of inputs its route origins, router keys and
    ASPA records are exactly the data that the server had in the state (session and
    serial) that the metrics of the client report then, also while the client is not
    connected; and every VRP of that state is in the store that validation reads.
    Before a state is reported nothing is sent. A connection begins with no state, by
    the code, and a reset that withdraws something is refused as a whole. Of the
    protocol it is assumed that a response ends in a state, that a reset lists the data
    of that state or withdraws something, that a serial response is given only to a
    query with a state and leads from its data to those of the new state, and that
    origins come as a prefix with a maximum length and an AS; of the RIB that its stores
    are set up, its records are well-formed and it has no multicast routes, and that
    nothing was ever marked withdrawn in its store of VRPs. That nothing else is in the store that validation reads is not
    claimed and not so: a reset leaves the VRPs there that the server no longer has
    ([reset_keeps_vrps]). *)
Theorem rtr_client_follows_server name retry ins between u :
  fit u -> (forall n u, fit u -> fit (between n u) /\ rtr_cache (between n u) = rtr_cache u) ->
  served ins (client_new status_default name retry) ->
  let '(c, us) := client_run ins (client_new status_default name retry) in
  exists u', rib_takes between us 0 u = (Some tt, u')
    /\ match cl_reported c with
       | Some (s, _) =>
           (forall p, holds (rtr_cache u') p <-> data s p)
           /\ (forall o p, data s (RP_Origin o) -> origin_prefix o = Some p ->
                 vrp_in (vrps (rtr_cache u')) p (ro_asn o) (resolved_max_len o))
       | None => rtr_cache u' = rtr_cache u
       end.
Proof.
  intros Hu Hb Hs.
  destruct (run_followed between ins (client_new status_default name retry) 0 u Hb Hs eq_refl Hu I)
    as (u' & E1 & Hf & Hn).
  destruct (client_run ins _) as [c us]. cbn [fst snd] in *. exists u'. split; [done|].
  destruct (cl_reported c) as [[s now]|]; [|auto]. destruct Hf as [Hh [_ Hv]]. split; [done|].
  intros o p Ho. apply Hv. by apply (Hh (RP_Origin o)).
Qed.

End Sets.

(** ** A small RTR session

    A router key is announced, an origin takes its place in a serial response, the
    connection breaks; the next one begins with a malformed reset, and the third with
    the set of a later serial. *)

#[local] Existing Instances Demo.extern demo_layout RibDemo.store RibDemo.store_ok RibDemo.ids
  RibDemo.pending UnitDemo.vstore UnitDemo.vstore_ok UnitDemo.roto.

Module RtrDemo.

Definition key : RtrPayload := RP_RouterKey tt.
Definition origin : RtrPayload := RP_Origin RovDemo.vrp.

(** The key at serial 1, the origin from serial 2 on. *)
Definition data (s : SessionState) : DataSet :=
  fun p => p = if st_serial s =? 1 then key else origin.

Definition c0 := client_new (Status := unit) tt (str "rtr") 60.

Definition verbs1 : RtrVerbs := [(RtrAnnounce, key)].
Definition verbs2 : RtrVerbs := [(RtrAnnounce, origin); (RtrWithdraw, key)].
Definition verbs3 : RtrVerbs := [(RtrAnnounce, origin)].

Definition inputs : list (Z * Input (Status := unit)) :=
  [(0, IConnect true); (1, IResponse true verbs1 (Some (mk_session 7 1)));
   (2, IResponse false verbs2 (Some (mk_session 7 2))); (3, IError); (63, ITimeout);
   (64, IConnect true); (65, IResponse true verbs2 (Some (mk_session 7 3))); (125, ITimeout);
   (126, IConnect true); (127, IResponse true verbs3 (Some (mk_session 7 3)))].

Lemma wire_vrp : wire origin.
Proof. by exists RibDemo.net, 24. Qed.

Lemma lists p : same (payloads [(RtrAnnounce, p)]) (fun q => q = p).
Proof.
  intros q. split.
  - intros (a & H%list_elem_of_singleton). by injection H as -> ->.
  - intros ->. exists RtrAnnounce. by left.
Qed.

Lemma inputs_served : served data inputs c0.
Proof.
  cbn. repeat split; try (by repeat constructor); try (repeat constructor; apply wire_vrp).
  - exists (mk_session 7 1). split; [done|]. right. apply lists.
  - exists (mk_session 7 2). split; [done|]. exists (mk_session 7 1). split; [done|].
    intros p. cbn. unfold data. cbn. split; [intros [Hn [H|H]]; done|].
    intros ->. split; [discriminate|by left].
  - exists (mk_session 7 3). split; [done|]. left. right. by left.
  - exists (mk_session 7 3). split; [done|]. right. apply lists.
Qed.

Lemma start_fit : fit RovDemo.start.
Proof.
  split; [exact RibDemo.table_ready|exact RovDemo.start_metas|done|apply vrps_default_ok].
Qed.

End RtrDemo.

Lemma rtr_client_follows_server_witness :
  exists u', rib_takes (fun _ u => u)
      [RtrFull RtrDemo.verbs1; RtrDelta RtrDemo.verbs2; RtrFull RtrDemo.verbs3] 0 RovDemo.start
      = (Some tt, u')
    /\ (forall p, holds (rtr_cache u') p <-> p = RtrDemo.origin)
    /\ vrp_in (vrps (rtr_cache u')) RibDemo.net 0 24.
Proof.
  destruct (rtr_client_follows_server tt RtrDemo.data (str "rtr") 60 RtrDemo.inputs (fun _ u => u)
    RovDemo.start RtrDemo.start_fit ltac:(done) RtrDemo.inputs_served) as (u' & Hrun & Hsets & Hv).
  exists u'. split; [exact Hrun|]. split; [exact Hsets|].
  exact (Hv RovDemo.vrp RibDemo.net eq_refl eq_refl).
Defined.

Lemma rtr_client_ends_witness :
  cl_phase (client_run [(0, IGate None); (1, IGate None)] RtrDemo.c0).1 = Stopped.
Proof. apply (rtr_client_ends RtrDemo.c0 0 1 []). reflexivity. Defined.
