(* ===== verification/Listeners.v ===== *)
(** * The listeners of the BMP-in and BGP-in units ([run] and [process_until] of
    [src/units/bmp_tcp_in/unit.rs] and [src/units/bgp_tcp_in/unit.rs])

    Both bind with a growing delay, accept connections while the gate tells of new
    configurations, and bind again when the address changes or accepting fails.  What
    they differ in is a class. *)

From Stdlib Require Import ZArith Lia.
From stdpp Require Import base numbers list gmap strings.
From S2P Require Import Prelude Net Register Payload BmpIo BmpRouter BgpConfig.

Local Open Scope Z_scope.

(** What a unit does at the points where the two differ: the address to listen on, what
    it tells a listener once it is bound, and the task for a connection, if it takes it. *)
Class ListenUnit := {
  LConfig : Type;
  LTold : Type;
  LTask : Type;
  lu_listen : LConfig -> rstring;
  lu_told : LConfig -> LTold;
  lu_accept : LConfig -> IpAddr -> option LTask
}.

Section Listener.
Context `{LU : ListenUnit}.

(** Where [run] waits: for an attempt to bind, in the delay after one that failed, for
    a connection; [listen_addr] is that of the outer loop. *)
Inductive ListenPhase : Type :=
| Binding (listen_addr : rstring) (wait : Z)
| Sleeping (listen_addr : rstring) (wait : Z)
| Listening (listen_addr : rstring) (told : LTold)
| Ended.

Record Listener : Type := mk_listener {
  ln_config : LConfig;
  ln_phase : ListenPhase;
  ln_tasks : list LTask
}.

(** The top of the outer loop. *)
Definition bind_again (c : LConfig) (tasks : list LTask) : Listener :=
  mk_listener c (Binding (lu_listen c) 1) tasks.

Definition listener_start (c : LConfig) : Listener := bind_again c [].

(** What ends a wait. *)
Inductive ListenInput : Type :=
| GateEnded
| GateReconfigured (c : LConfig)
| GateOther
| BindResult (ok : bool)
| Slept
| AcceptResult (peer : option IpAddr).

(** The branch of [process_until] for a new configuration. *)
Definition reconfigured (new : LConfig) (l : Listener) : Listener :=
  let rebind := negb (bool_decide (lu_listen (ln_config l) = lu_listen new)) in
  if rebind then bind_again new (ln_tasks l) else mk_listener new (ln_phase l) (ln_tasks l).

Definition listen_step (i : ListenInput) (l : Listener) : Listener :=
  match ln_phase l with
  | Ended => l
  | ph =>
      match i with
      | GateEnded => mk_listener (ln_config l) Ended (ln_tasks l)
      | GateReconfigured c => reconfigured c l
      | GateOther => l
      | BindResult ok =>
          match ph with
          | Binding addr wait =>
              mk_listener (ln_config l)
                (if ok then Listening addr (lu_told (ln_config l)) else Sleeping addr wait) (ln_tasks l)
          | _ => l
          end
      | Slept =>
          match ph with
          | Sleeping addr wait => mk_listener (ln_config l) (Binding addr (wait * 2)) (ln_tasks l)
          | _ => l
          end
      | AcceptResult peer =>
          match ph with
          | Listening _ _ =>
              match peer with
              | Some a =>
                  mk_listener (ln_config l) ph
                    (ln_tasks l ++ match lu_accept (ln_config l) a with Some t => [t] | None => [] end)
              | None => bind_again (ln_config l) (ln_tasks l)
              end
          | _ => l
          end
      end
  end.

Definition listen_run (ins : list ListenInput) (l : Listener) : Listener :=
  foldl (fun l i => listen_step i l) l ins.

(** ** The address in force *)

(** The configuration after the inputs. *)
Definition config_after (ins : list ListenInput) (c : LConfig) : LConfig :=
  foldl (fun c i => match i with GateReconfigured c => c | _ => c end) c ins.

Definition phase_addr (p : ListenPhase) : option rstring :=
  match p with Binding a _ | Sleeping a _ | Listening a _ => Some a | Ended => None end.

Definition on_configured (l : Listener) : Prop :=
  forall a, phase_addr (ln_phase l) = Some a -> a = lu_listen (ln_config l).

Lemma reconfigured_config c l : ln_config (reconfigured c l) = c.
Proof. unfold reconfigured. by destruct (negb _). Qed.

Lemma listen_step_inv i l : on_configured l -> on_configured (listen_step i l).
Proof.
  intros H. assert (Hb : forall c ts, on_configured (bind_again c ts)) by (by intros c ts a [= <-]).
  assert (Hr : forall c, on_configured (reconfigured c l)).
  { intros c. unfold reconfigured. destruct (negb _) eqn:Hn; [done|].
    apply negb_false_iff, bool_decide_eq_true in Hn. intros a Ha. cbn in Ha |- *. rewrite <- Hn. by apply H. }
  unfold listen_step. destruct (ln_phase l) as [a w|a w|a t|] eqn:Hp; [..|done];
    assert (Ha : a = lu_listen (ln_config l)) by (apply H; by rewrite Hp);
    destruct i as [|c| |[]| |[p|]]; try done; intros b [= <-]; done.
Qed.

Definition is_ended (l : Listener) : bool := match ln_phase l with Ended => true | _ => false end.

Lemma listen_step_config i l :
  is_ended l = false ->
  ln_config (listen_step i l) = match i with GateReconfigured c => c | _ => ln_config l end.
Proof.
  unfold is_ended, listen_step. destruct (ln_phase l); [..|done]; intros _;
    destruct i as [|c| |[]| |[p|]]; try done; apply reconfigured_config.
Qed.

Lemma ended_stays i l : is_ended (listen_step i l) = false -> is_ended l = false.
Proof. unfold is_ended, listen_step. destruct (ln_phase l) eqn:Hp; [done..|]. by rewrite Hp. Qed.

Lemma listen_run_inv ins l : on_configured l -> on_configured (listen_run ins l).
Proof.
  revert l. induction ins as [|i ins IH]; intros l H; [done|]. cbn. by apply IH, listen_step_inv.
Qed.

Lemma run_not_ended ins l : is_ended (listen_run ins l) = false -> is_ended l = false.
Proof.
  revert l. induction ins as [|i ins IH]; intros l; [done|]. cbn.
  intros H. apply (ended_stays i), IH, H.
Qed.

Lemma listen_run_config ins l :
  is_ended (listen_run ins l) = false -> ln_config (listen_run ins l) = config_after ins (ln_config l).
Proof.
  revert l. induction ins as [|i ins IH]; intros l Hn; [done|].
  change (listen_run (i :: ins) l) with (listen_run ins (listen_step i l)) in *.
  rewrite IH, listen_step_config by (done || eapply ended_stays, run_not_ended, Hn). done.
Qed.

(** A unit that has not ended listens, or tries to, on the address of the configuration
    that it was last given, and on no other. *)
Theorem listens_where_configured c ins a :
  phase_addr (ln_phase (listen_run ins (listener_start c))) = Some a ->
  a = lu_listen (config_after ins c).
Proof.
  intros Ha.
  assert (Hn : is_ended (listen_run ins (listener_start c)) = false)
    by (unfold is_ended; by destruct (ln_phase _)).
  rewrite (listen_run_inv ins (listener_start c)) with (a := a); [|by intros b [= <-]|done].
  by rewrite listen_run_config.
Qed.

(** ** The connections that are taken *)
Definition listening (l : Listener) : bool := match ln_phase l with Listening _ _ => true | _ => false end.

(** The tasks that the connections get, each under the configuration in force then. *)
Fixpoint expected (ins : list ListenInput) (l : Listener) : list LTask :=
  match ins with
  | [] => []
  | i :: ins =>
      (match i with
       | AcceptResult (Some a) =>
           if listening l then match lu_accept (ln_config l) a with Some t => [t] | None => [] end else []
       | _ => []
       end) ++ expected ins (listen_step i l)
  end.

Lemma listen_step_tasks i l :
  ln_tasks (listen_step i l)
  = ln_tasks l ++ match i with
                  | AcceptResult (Some a) =>
                      if listening l then match lu_accept (ln_config l) a with Some t => [t] | None => [] end
                      else []
                  | _ => []
                  end.
Proof.
  unfold listen_step, listening, reconfigured. destruct (ln_phase l);
    destruct i as [|c| |[]| |[p|]]; cbn; rewrite ?app_nil_r; try done; by destruct (negb _).
Qed.

Theorem tasks_exact c ins : ln_tasks (listen_run ins (listener_start c)) = expected ins (listener_start c).
Proof.
  change (expected ins (listener_start c)) with (ln_tasks (listener_start c) ++ expected ins (listener_start c)).
  generalize (listener_start c). induction ins as [|i ins IH]; intros l; [by rewrite app_nil_r|].
  change (listen_run (i :: ins) l) with (listen_run ins (listen_step i l)).
  cbn [expected]. by rewrite IH, listen_step_tasks, <- app_assoc.
Qed.

(** ** The delays *)

(** [n] attempts in a row that fail. *)
Fixpoint failures (n : nat) : list ListenInput :=
  match n with O => [] | S n => failures n ++ [BindResult false; Slept] end.

Lemma listen_run_app a b l : listen_run (a ++ b) l = listen_run b (listen_run a l).
Proof. apply foldl_app. Qed.

(** After [n] failures the unit waits 2^n seconds before the attempt after the next: the
    delay is doubled each time and has no bound; a new address starts it again at one. *)
Theorem backoff_doubles c n :
  listen_run (failures n) (listener_start c)
  = mk_listener c (Binding (lu_listen c) (2 ^ Z.of_nat n)) [].
Proof.
  induction n as [|n IH]; [done|]. cbn [failures]. rewrite listen_run_app, IH.
  cbn [listen_run foldl listen_step ln_phase ln_config ln_tasks].
  rewrite Nat2Z.inj_succ, Z.pow_succ_r by lia. by rewrite Z.mul_comm.
Qed.

(** ** What the listener was told *)

(** A listener keeps what it was told when it was bound: a configuration with the same
    address changes nothing of it. *)
Theorem told_at_bind_only c l a t :
  ln_phase l = Listening a t -> lu_listen (ln_config l) = lu_listen c ->
  ln_phase (listen_step (GateReconfigured c) l) = Listening a t
  /\ ln_config (listen_step (GateReconfigured c) l) = c.
Proof.
  intros Hp Hl. unfold listen_step. rewrite Hp. unfold reconfigured.
  rewrite bool_decide_true by done. cbn. by rewrite Hp.
Qed.

End Listener.

(** ** The two units *)

(** [BmpTcpIn]. *)
Record BmpTcpIn : Type := mk_bmp_tcp_in {
  bi_listen : rstring;
  bi_router_id_template : rstring;
  bi_filter_name : rstring;
  bi_tracing_mode : TracingMode;
  bi_ignore_post_policy_routes : bool
}.

(** A connection is always taken; its handler gets the setting of that moment, while
    template and tracing mode are shared and change with the configuration. *)
#[export] Instance bmp_listen_unit : ListenUnit := {|
  LConfig := BmpTcpIn;
  LTold := unit;
  LTask := IpAddr * bool;
  lu_listen := bi_listen;
  lu_told _ := tt;
  lu_accept c a := Some (a, bi_ignore_post_policy_routes c)
|}.

Section Bgp.
Context `{E : Extern}.

(** [configure_listener_md5]: the keys, with the length of a prefix. *)
Definition md5_config (c : BgpTcpInConfig) : list (IpAddr * option Z * rstring) :=
  omap (fun e => key ← md5_key e.2;
                 Some (match e.1 with
                       | Exact a => (a, None, key)
                       | Net p => (prefix_addr p, Some (prefix_len p), key)
                       end)) (bc_peer_configs c).

(** A connection is taken where the peer has a configuration. *)
Definition bgp_listen_unit : ListenUnit := {|
  LConfig := BgpTcpInConfig;
  LTold := list (IpAddr * option Z * rstring);
  LTask := IpAddr * (PrefixOrExact * PeerConfig);
  lu_listen := bc_listen;
  lu_told := md5_config;
  lu_accept c a := r ← configs_get (bc_peer_configs c) a; Some (a, r)
|}.

End Bgp.

Module ListenDemo.

Definition conf (a : string) : BmpTcpIn := mk_bmp_tcp_in (str a) [] [] TracingOff false.

(** The first address is not free; the second is configured meanwhile. *)
Definition inputs : list (ListenInput (LU := bmp_listen_unit)) :=
  [BindResult false; GateReconfigured (conf "10.0.0.1:11019"); BindResult true; AcceptResult (Some (V4 1))].

End ListenDemo.

Lemma listens_where_configured_witness :
  str "10.0.0.1:11019" = lu_listen (config_after (LU := bmp_listen_unit) ListenDemo.inputs (ListenDemo.conf "0.0.0.0:11019")).
Proof.
  apply (listens_where_configured (LU := bmp_listen_unit) (ListenDemo.conf "0.0.0.0:11019") ListenDemo.inputs). reflexivity.
Defined.

Lemma told_at_bind_only_witness :
  exists l : @Listener bmp_listen_unit,
    ln_phase l = Listening (str "10.0.0.1:11019") tt /\ ln_config l = ListenDemo.conf "10.0.0.1:11019".
Proof.
  exists (listen_step (GateReconfigured (LU := bmp_listen_unit) (ListenDemo.conf "10.0.0.1:11019"))
            (listen_run ListenDemo.inputs (listener_start (LU := bmp_listen_unit) (ListenDemo.conf "0.0.0.0:11019")))).
  apply (told_at_bind_only (LU := bmp_listen_unit) (ListenDemo.conf "10.0.0.1:11019")
           (listen_run ListenDemo.inputs (listener_start (LU := bmp_listen_unit) (ListenDemo.conf "0.0.0.0:11019")))); reflexivity.
Defined.
