(* ===== verification/BmpOutUnit.v ===== *)
(** * The clients of the restreamer ([run] and [handle_new_client] of
    [src/units/bmp_tcp_out/unit.rs])

    The map of clients under its lock, the task that writes to each of them, and the
    loop that accepts clients and, when the gate ends, sends each of them a Termination
    message.  A step is what happens between two points where a task waits. *)

From Stdlib Require Import ZArith Lia.
From stdpp Require Import base numbers list gmap fin_maps relations.
From S2P Require Import Prelude Net Register Payload BmpBuilder ClientState ClientHandler.

Local Open Scope Z_scope.

(** ** The tasks *)

(** Where the writing task of a client is: in its [select!], in [write_all], or behind
    the loop, waiting for the lock of the map to remove its client ([cut] is the message
    whose writing failed, if that is why). *)
Inductive WriterPc : Type :=
| Selecting
| Writing (msg : list Z)
| Leaving (cut : list (list Z)).

(** The queue of a client, its pending notification, and what was written. *)
Record Writer : Type := mk_writer {
  wr_queue : list (list Z);
  wr_notified : bool;
  wr_pc : WriterPc;
  wr_written : list (list Z)
}.

Definition writer_new : Writer := mk_writer [] false Selecting [].

Definition with_queue (q : list (list Z)) (w : Writer) : Writer :=
  mk_writer q (wr_notified w) (wr_pc w) (wr_written w).
Definition with_notified (w : Writer) : Writer := mk_writer (wr_queue w) true (wr_pc w) (wr_written w).
Definition with_pc (p : WriterPc) (w : Writer) : Writer :=
  mk_writer (wr_queue w) (wr_notified w) p (wr_written w).

(** The loop of [run]: accepting, sending the Termination with the map locked for
    reading, and returned. *)
Inductive RunPc : Type :=
| Accepting
| Terminating (todo : list Z)
| Returned.

Record OutUnit : Type := mk_out {
  ou_depth : nat;
  ou_clients : gmap Z Writer;
  ou_run : RunPc
}.

(** [live_queue_depth.max(1)]. *)
Definition out_new (live_queue_depth : nat) : OutUnit :=
  mk_out (Nat.max live_queue_depth 1) ∅ Accepting.

Definition set_client (id : Z) (w : Writer) (u : OutUnit) : OutUnit :=
  mk_out (ou_depth u) (<[id := w]> (ou_clients u)) (ou_run u).
Definition set_run (p : RunPc) (u : OutUnit) : OutUnit := mk_out (ou_depth u) (ou_clients u) p.

Definition room (u : OutUnit) (w : Writer) : bool := (length (wr_queue w) <? ou_depth u)%nat.

(** The map can be locked for writing. *)
Definition lock_free (u : OutUnit) : bool := match ou_run u with Terminating _ => false | _ => true end.

(** [send_message_mode] without blocking, of [direct_update]. *)
Definition push_live (msg : list Z) (u : OutUnit) (w : Writer) : Writer :=
  if room u w then with_queue (wr_queue w ++ [msg]) w else with_notified w.

(** The [select!] of the writer, which looks at the notification first; an empty message
    ends the loop too. *)
Definition writer_select (w : Writer) : option Writer :=
  if wr_notified w then Some (with_pc (Leaving []) w)
  else match wr_queue w with
       | [] => None
       | m :: q => Some (with_pc (match m with [] => Leaving [] | _ => Writing m end) (with_queue q w))
       end.

(** The end of [write_all]; an error and a stall for [WRITE_STALL_TIMEOUT] end the loop. *)
Definition writer_write (ok : bool) (msg : list Z) (w : Writer) : Writer :=
  if ok then mk_writer (wr_queue w) (wr_notified w) Selecting (wr_written w ++ [msg])
  else with_pc (Leaving [msg]) w.

Section Steps.
Context `{E : Extern}.
Variable acl : list PrefixOrExact.

Inductive out_step : OutUnit -> OutUnit -> Prop :=
| out_accept u id addr :
    acl_allows acl addr = true -> ou_clients u !! id = None -> lock_free u = true ->
    out_step u (set_client id writer_new u)
| out_live u id w msg :
    ou_clients u !! id = Some w -> wr_notified w = false ->
    out_step u (set_client id (push_live msg u w) u)
| out_dump u id w msg :
    ou_clients u !! id = Some w -> room u w = true ->
    out_step u (set_client id (with_queue (wr_queue w ++ [msg]) w) u)
| out_disconnect u id w :
    ou_clients u !! id = Some w -> out_step u (set_client id (with_notified w) u)
| out_select u id w w' :
    ou_clients u !! id = Some w -> wr_pc w = Selecting -> writer_select w = Some w' ->
    out_step u (set_client id w' u)
| out_write u id w msg ok :
    ou_clients u !! id = Some w -> wr_pc w = Writing msg ->
    out_step u (set_client id (writer_write ok msg w) u)
| out_leave u id w cut :
    ou_clients u !! id = Some w -> wr_pc w = Leaving cut -> lock_free u = true ->
    out_step u (mk_out (ou_depth u) (delete id (ou_clients u)) (ou_run u))
| out_gate_ended u ids :
    ou_run u = Accepting -> ids ≡ₚ (map_to_list (ou_clients u)).*1 ->
    out_step u (set_run (Terminating ids) u)
| out_tell u id todo w :
    ou_run u = Terminating (id :: todo) -> ou_clients u !! id = Some w -> room u w = true ->
    out_step u (set_run (Terminating todo)
                  (set_client id (with_queue (wr_queue w ++ [build_termination_message]) w) u))
| out_return u :
    ou_run u = Terminating [] -> out_step u (set_run Returned u).

(** ** Every client is told *)

(** All that a client was given: written, being written or cut off, waiting. *)
Definition given (w : Writer) : list (list Z) :=
  wr_written w ++ (match wr_pc w with Writing m => [m] | Leaving cut => cut | Selecting => [] end)
  ++ wr_queue w.

(** A client is still to be told, or was. *)
Definition tells_all (u : OutUnit) : Prop :=
  forall todo, ou_run u = Terminating todo ->
  forall id w, ou_clients u !! id = Some w -> id ∈ todo \/ build_termination_message ∈ given w.

Lemma given_push msg w : given (with_queue (wr_queue w ++ [msg]) w) = given w ++ [msg].
Proof. unfold given. cbn. by rewrite !app_assoc. Qed.

Lemma given_select m w w' :
  m <> [] -> wr_pc w = Selecting -> writer_select w = Some w' -> m ∈ given w -> m ∈ given w'.
Proof.
  intros Hm Hp. unfold writer_select, given. rewrite Hp. destruct (wr_notified w).
  { intros [= <-]. done. }
  destruct (wr_queue w) as [|[|x xs] q] eqn:Hq; [done|..]; intros [= <-]; cbn; [|done].
  rewrite !elem_of_app, !elem_of_cons. tauto.
Qed.

Lemma given_write ok msg w : wr_pc w = Writing msg -> given (writer_write ok msg w) ≡ₚ given w.
Proof.
  intros Hp. unfold given, writer_write. rewrite Hp. destruct ok; cbn; [|done].
  by rewrite <- app_assoc.
Qed.

Lemma termination_not_empty : build_termination_message <> [].
Proof. done. Qed.

(** A step on one client keeps what it was given. *)
Lemma tells_all_set u id w w' :
  tells_all u -> ou_clients u !! id = Some w ->
  (build_termination_message ∈ given w -> build_termination_message ∈ given w') ->
  tells_all (set_client id w' u).
Proof.
  intros Hi Hw Hg todo Ht k v. cbn. rewrite lookup_insert_Some.
  intros [[<- <-]|[_ Hv]]; [|by apply Hi]. destruct (Hi todo Ht id w Hw) as [|]; [by left|right; auto].
Qed.

Lemma out_step_tells u u' : out_step u u' -> tells_all u -> tells_all u'.
Proof.
  intros Hs Hi. destruct Hs as [u id addr _ Hn Hl|u id w msg Hw _|u id w msg Hw _|u id w Hw
    |u id w w' Hw Hp Hsel|u id w msg ok Hw Hp|u id w cut Hw Hp Hl|u ids Hr Hp|u id todo w Hr Hw _|u Hr].
  - intros todo Ht. cbn in Ht. unfold lock_free in Hl. by rewrite Ht in Hl.
  - eapply tells_all_set; [done..|]. unfold push_live. destruct (room u w); [|done].
    rewrite given_push, elem_of_app. by left.
  - eapply tells_all_set; [done..|]. rewrite given_push, elem_of_app. by left.
  - by eapply tells_all_set.
  - eapply tells_all_set; [done..|]. by apply given_select; [apply termination_not_empty|..].
  - eapply tells_all_set; [done..|]. by rewrite given_write.
  - intros todo Ht. cbn in Ht. unfold lock_free in Hl. by rewrite Ht in Hl.
  - intros todo [= <-] k v Hv. left. rewrite Hp. apply list_elem_of_fmap. exists (k, v).
    split; [done|]. by apply elem_of_map_to_list.
  - intros todo' [= <-] k v. cbn. rewrite lookup_insert_Some. intros [[<- <-]|[Hne Hv]].
    + right. rewrite given_push, elem_of_app. right. by left.
    + destruct (Hi _ Hr k v Hv) as [[->|Hk]%elem_of_cons|]; [done|by left|by right].
  - by intros todo [=].
Qed.

(** When the loop over the clients is through, every client that is in the map has been
    given a Termination message; none came or went meanwhile. *)
Theorem termination_told depth u id w :
  rtc out_step (out_new depth) u -> ou_run u = Terminating [] -> ou_clients u !! id = Some w ->
  build_termination_message ∈ given w.
Proof.
  intros Hr Ht Hw.
  assert (Hi : tells_all u).
  { assert (H : forall a b, rtc out_step a b -> tells_all a -> tells_all b)
      by (induction 1; eauto using out_step_tells).
    apply (H _ _ Hr). by intros todo [=]. }
  destruct (Hi _ Ht id w Hw) as [H|]; [by apply elem_of_nil in H|done].
Qed.

(** ** Who can be told *)

(** A client that cannot take the Termination any more: its queue is full, and its task
    has left its loop or will at the next turn. *)
Definition doomed (u : OutUnit) (id : Z) : Prop :=
  exists w, ou_clients u !! id = Some w /\ room u w = false
    /\ (wr_notified w = true \/ exists cut, wr_pc w = Leaving cut).

Definition waits_for (u : OutUnit) (id : Z) : Prop :=
  exists todo, ou_run u = Terminating todo /\ id ∈ todo.

Lemma waits_locked u id : waits_for u id -> lock_free u = false.
Proof. intros (todo & H & _). unfold lock_free. by rewrite H. Qed.

Lemma doomed_set u id k w w' :
  doomed u k -> ou_clients u !! id = Some w ->
  (room u w = false -> wr_notified w = true \/ (exists cut, wr_pc w = Leaving cut) ->
   room u w' = false /\ (wr_notified w' = true \/ exists cut, wr_pc w' = Leaving cut)) ->
  doomed (set_client id w' u) k.
Proof.
  intros (v & Hv & Hr & Hd) Hw Hk. unfold doomed. cbn. destruct (decide (id = k)) as [->|Hne].
  - rewrite lookup_insert_eq. exists w'. rewrite Hw in Hv. injection Hv as <-. split; [done|]. by apply Hk.
  - rewrite lookup_insert_ne by done. by exists v.
Qed.

Lemma doomed_stays u u' id :
  out_step u u' -> waits_for u id -> doomed u id -> waits_for u' id /\ doomed u' id.
Proof.
  intros Hs Hw Hd. pose proof (waits_locked u id Hw) as Hl.
  destruct Hs as [u k addr _ Hn Hf|u k w msg Hk Hno|u k w msg Hk Hroom|u k w Hk
    |u k w w' Hk Hp Hsel|u k w msg ok Hk Hp|u k w cut Hk Hp Hf|u ids Hr Hp|u k todo w Hr Hk Hroom|u Hr];
    try congruence.
  - split; [done|]. eapply doomed_set; [done..|]. intros Hr [Hb|Hb]; [congruence|].
    unfold push_live. rewrite Hr. cbn. by split; [|left].
  - split; [done|]. eapply doomed_set; [done..|]. intros Hr. congruence.
  - split; [done|]. eapply doomed_set; [done..|]. intros Hr _. by split; [|left].
  - split; [done|]. eapply doomed_set; [done..|]. intros Hr [Hb|[cut Hb]]; [|congruence].
    unfold writer_select in Hsel. rewrite Hb in Hsel. injection Hsel as <-. split; [done|]. by left.
  - split; [done|]. eapply doomed_set; [done..|]. intros Hr [Hb|[cut Hb]]; [|congruence].
    destruct ok; (split; [done|by left]).
  - destruct Hw as (todo & Ht & _). congruence.
  - destruct Hw as (todo' & Ht & Hin). rewrite Hr in Ht. injection Ht as <-.
    assert (Hne : id <> k).
    { intros ->. destruct Hd as (v & Hv & Hf & _). congruence. }
    apply elem_of_cons in Hin as [|Hin]; [done|]. split; [by exists todo|].
    destruct Hd as (v & Hv & Hd). exists v. split; [|done]. cbn. by rewrite lookup_insert_ne.
  - destruct Hw as (todo & Ht & Hin). rewrite Hr in Ht. injection Ht as <-. by apply elem_of_nil in Hin.
Qed.

Lemma doomed_never_returns u u' id :
  rtc out_step u u' -> waits_for u id -> doomed u id -> ou_run u' <> Returned.
Proof.
  induction 1 as [u|u v u' Hs _ IH]; intros Hw Hd.
  - destruct Hw as (todo & H & _). by rewrite H.
  - destruct (doomed_stays _ _ _ Hs Hw Hd). by apply IH.
Qed.

(** A queue is never over its capacity. *)
Definition bounded (u : OutUnit) : Prop :=
  (0 < ou_depth u)%nat
  /\ forall id w, ou_clients u !! id = Some w -> (length (wr_queue w) <= ou_depth u)%nat.

Lemma bounded_set u id w' :
  bounded u -> (length (wr_queue w') <= ou_depth u)%nat -> bounded (set_client id w' u).
Proof.
  intros [H0 Hb] Hw. split; [done|]. intros k v. cbn. rewrite lookup_insert_Some.
  intros [[<- <-]|[_ Hv]]; [done|eauto].
Qed.

Lemma push_length u w msg :
  room u w = true -> (length (wr_queue (with_queue (wr_queue w ++ [msg]) w)) <= ou_depth u)%nat.
Proof. unfold room. rewrite Nat.ltb_lt. cbn. rewrite length_app. cbn. lia. Qed.

Lemma select_length w w' : writer_select w = Some w' -> (length (wr_queue w') <= length (wr_queue w))%nat.
Proof.
  unfold writer_select. destruct (wr_notified w); [by intros [= <-]|].
  destruct (wr_queue w) as [|m q]; [done|]. intros [= <-]. cbn. lia.
Qed.

Lemma out_step_bounded u u' : out_step u u' -> bounded u -> bounded u'.
Proof.
  intros Hs Hb. pose proof Hb as [H0 Hl].
  destruct Hs as [u id addr _ Hn _|u id w msg Hw _|u id w msg Hw Hr|u id w Hw
    |u id w w' Hw Hp Hsel|u id w msg ok Hw Hp|u id w cut Hw Hp _|u ids Hr Hp|u id todo w Hr Hw Hroom|u Hr];
    try done.
  - apply bounded_set; [done|]. cbn. lia.
  - apply bounded_set; [done|]. unfold push_live. destruct (room u w) eqn:Hr; [by apply push_length|].
    cbn. eauto.
  - apply bounded_set; [done|]. by apply push_length.
  - apply bounded_set; [done|]. cbn. eauto.
  - apply bounded_set; [done|]. etrans; [by apply select_length|eauto].
  - apply bounded_set; [done|]. destruct ok; cbn; eauto.
  - split; [done|]. intros k v. cbn. rewrite lookup_delete_Some. intros [_ Hv]. eauto.
  - exact (bounded_set u id _ Hb (push_length u w _ Hroom)).
Qed.

(** A task with a full queue that is not lost takes a message from it. *)
Lemma select_makes_room u id w :
  bounded u -> ou_clients u !! id = Some w -> room u w = false -> wr_notified w = false ->
  wr_pc w = Selecting ->
  exists w', out_step u (set_client id w' u) /\ room u w' = true.
Proof.
  intros [H0 Hb] Hw Hr Hn Hp. pose proof (Hb id w Hw) as Hl.
  unfold room in Hr. apply Nat.ltb_ge in Hr. destruct (wr_queue w) as [|m q] eqn:Hq; [cbn in Hr; lia|].
  eexists. split; [eapply out_select; [done|done|]|].
  { unfold writer_select. by rewrite Hn, Hq. }
  unfold room. cbn. apply Nat.ltb_lt. cbn in Hl. lia.
Qed.

Lemma makes_room u id w :
  bounded u -> ou_clients u !! id = Some w -> ~ doomed u id ->
  exists w', rtc out_step u (set_client id w' u) /\ room u w' = true.
Proof.
  intros Hb Hw Hd. destruct (room u w) eqn:Hr.
  { exists w. split; [|done]. unfold set_client. rewrite insert_id by done. by destruct u. }
  destruct (wr_notified w) eqn:Hn; [destruct Hd; exists w; eauto|].
  destruct (wr_pc w) as [|m|cut] eqn:Hp; [..|destruct Hd; exists w; eauto 6].
  - destruct (select_makes_room u id w Hb Hw Hr Hn Hp) as (w' & Hs & Hr'). exists w'.
    split; [by apply rtc_once|done].
  - set (w1 := writer_write true m w).
    assert (Hs1 : out_step u (set_client id w1 u)) by (by eapply out_write).
    destruct (select_makes_room (set_client id w1 u) id w1) as (w' & Hs & Hr').
    { by eapply out_step_bounded. }
    { apply lookup_insert_eq. }
    { exact Hr. }
    { exact Hn. }
    { done. }
    exists w'. split; [|exact Hr']. eapply rtc_l; [exact Hs1|]. apply rtc_once.
    unfold set_client in Hs. cbn in Hs. rewrite insert_insert_eq in Hs. exact Hs.
Qed.

Lemma all_told todo u :
  bounded u -> ou_run u = Terminating todo -> NoDup todo ->
  (forall id, id ∈ todo -> is_Some (ou_clients u !! id)) -> (forall id, id ∈ todo -> ~ doomed u id) ->
  exists u', rtc out_step u u' /\ ou_run u' = Returned.
Proof.
  revert u. induction todo as [|id todo IH]; intros u Hb Hr Hnd Hin Hd.
  { exists (set_run Returned u). split; [apply rtc_once; by constructor|done]. }
  apply NoDup_cons in Hnd as [Hni Hnd]. destruct (Hin id) as [w Hw]; [by left|].
  destruct (makes_room u id w Hb Hw) as (w' & Hs & Hroom); [apply Hd; by left|].
  set (u1 := set_client id w' u).
  assert (Hb1 : bounded u1).
  { assert (H : forall a b, rtc out_step a b -> bounded a -> bounded b)
      by (induction 1; eauto using out_step_bounded). by apply (H u). }
  set (w2 := with_queue (wr_queue w' ++ [build_termination_message]) w').
  assert (Ht : out_step u1 (set_run (Terminating todo) (set_client id w2 u1))).
  { apply out_tell; [exact Hr|apply lookup_insert_eq|exact Hroom]. }
  assert (Hother : forall k, k ∈ todo ->
    ou_clients (set_run (Terminating todo) (set_client id w2 u1)) !! k = ou_clients u !! k).
  { intros k Hk. cbn. assert (id <> k) by (by intros ->). by rewrite !lookup_insert_ne. }
  destruct (IH (set_run (Terminating todo) (set_client id w2 u1))) as (u' & Hs' & Hret).
  - by eapply out_step_bounded.
  - done.
  - done.
  - intros k Hk. rewrite Hother by done. apply Hin. by right.
  - intros k Hk (v & Hv & Hrest). rewrite Hother in Hv by done. apply (Hd k); [by right|]. by exists v.
  - exists u'. split; [|done]. etrans; [exact Hs|]. by eapply rtc_l.
Qed.

(** Those to be told are in the map, once each. *)
Definition todo_ok (u : OutUnit) : Prop :=
  forall todo, ou_run u = Terminating todo ->
  NoDup todo /\ forall id, id ∈ todo -> is_Some (ou_clients u !! id).

Lemma todo_ok_set u id w' : todo_ok u -> todo_ok (set_client id w' u).
Proof.
  intros Hi todo Ht. destruct (Hi todo Ht) as [Hn Hd]. split; [done|]. intros k Hk. cbn.
  destruct (decide (id = k)) as [->|]; [rewrite lookup_insert_eq; by eexists|].
  rewrite lookup_insert_ne by done. auto.
Qed.

Lemma out_step_todo u u' : out_step u u' -> todo_ok u -> todo_ok u'.
Proof.
  intros Hs Hi. destruct Hs as [u id addr _ Hn Hl|u id w msg Hw _|u id w msg Hw Hr|u id w Hw
    |u id w w' Hw Hp Hsel|u id w msg ok Hw Hp|u id w cut Hw Hp Hl|u ids Hr Hp|u id todo w Hr Hw Hroom|u Hr];
    try (by apply todo_ok_set).
  - intros todo Ht. cbn in Ht. unfold lock_free in Hl. by rewrite Ht in Hl.
  - intros todo [= <-]. split; [rewrite Hp; apply NoDup_fst_map_to_list|].
    intros id Hid. rewrite Hp in Hid. apply list_elem_of_fmap in Hid as ([k v] & -> & Hv).
    apply elem_of_map_to_list in Hv. by exists v.
  - intros todo' [= <-]. destruct (todo_ok_set u id (with_queue (wr_queue w ++ [build_termination_message]) w)
      Hi (id :: todo) Hr) as [[_ Hn]%NoDup_cons Hd]. split; [done|]. intros k Hk. apply Hd. by right.
  - by intros todo [=].
Qed.

(** C34: the unit can come to its end exactly where no client that is still to be told has a
    full queue and a task that has left its loop, or was notified to: such a task waits
    for the map, which is locked until the message is in its queue. *)
Theorem termination_exact depth u todo :
  rtc out_step (out_new depth) u -> ou_run u = Terminating todo ->
  (exists u', rtc out_step u u' /\ ou_run u' = Returned) <-> (forall id, id ∈ todo -> ~ doomed u id).
Proof.
  intros Hreach Hr.
  assert (Hinv : bounded u /\ todo_ok u).
  { assert (H : forall a b, rtc out_step a b -> bounded a /\ todo_ok a -> bounded b /\ todo_ok b)
      by (induction 1 as [|a b c Hs _ IH]; [done|intros [H1 H2]; apply IH;
          split; [by eapply out_step_bounded|by eapply out_step_todo]]).
    apply (H _ _ Hreach). split; [|by intros ? [=]]. split; [cbn; lia|].
    intros id w Hw. cbn in Hw. by rewrite lookup_empty in Hw. }
  destruct Hinv as [Hb Ht]. destruct (Ht _ Hr) as [Hnd Hin]. split.
  - intros (u' & Hs & Hret) id Hid Hd. eapply doomed_never_returns; [exact Hs| |exact Hd|exact Hret].
    by exists todo.
  - by apply all_told.
Qed.

End Steps.

(** ** A client that is too slow *)
#[local] Existing Instance Demo.extern.

Module OutDemo.

Definition msg : list Z := [1].
Definition acl : list PrefixOrExact := [Exact (V4 1)].

(** One client; its task takes a message, one more waits, and the third notifies it. *)
Definition slow : OutUnit :=
  mk_out 1 {[1 := mk_writer [msg] true (Writing msg) []]} (Terminating [1]).

Lemma slow_reachable : rtc (out_step acl) (out_new 1) slow.
Proof.
  eapply rtc_l; [by apply (out_accept acl _ 1 (V4 1))|].
  eapply rtc_l; [by apply (out_live acl _ 1 writer_new msg)|].
  eapply rtc_l; [by eapply (out_select acl _ 1)|].
  eapply rtc_l; [by eapply (out_live acl _ 1 _ msg)|].
  eapply rtc_l; [by eapply (out_live acl _ 1 _ msg)|].
  eapply rtc_l; [by apply (out_gate_ended acl _ [1])|]. apply rtc_refl.
Qed.

(** A client that keeps up, told at the end. *)
Definition told : OutUnit :=
  mk_out 1 {[1 := mk_writer [build_termination_message] false Selecting []]} (Terminating []).

Lemma told_reachable : rtc (out_step acl) (out_new 1) told.
Proof.
  eapply rtc_l; [by apply (out_accept acl _ 1 (V4 1))|].
  eapply rtc_l; [by apply (out_gate_ended acl _ [1])|].
  eapply rtc_l; [by eapply (out_tell acl _ 1 [])|]. apply rtc_refl.
Qed.

End OutDemo.

(** The unit with the slow client never ends. *)
Lemma termination_exact_witness :
  ~ exists u', rtc (out_step OutDemo.acl) OutDemo.slow u' /\ ou_run u' = Returned.
Proof.
  intros H. apply (termination_exact OutDemo.acl 1 OutDemo.slow [1] OutDemo.slow_reachable eq_refl)
    with (id := 1) in H; [|by left].
  apply H. eexists. split; [reflexivity|]. split; [reflexivity|by left].
Defined.

Lemma termination_told_witness :
  build_termination_message ∈ given (mk_writer [build_termination_message] false Selecting []).
Proof.
  exact (termination_told OutDemo.acl 1 OutDemo.told 1 _ OutDemo.told_reachable eq_refl eq_refl).
Defined.
